(* ===== verification/_CoqProject ===== *)
-Q . S2P
Prelude.v
Effects.v
RustStr.v
Validation.v
Fs.v
Archive.v
ArchiveExtract.v
Posix.v
Bearer.v
Auth.v
Protocol.v
Logging.v
Process.v
ProcessFacts.v
MachineRules.v
ProcessLive.v
Accounts.v
Config.v
RunAs.v
Output.v
Artifacts.v
ArtifactZip.v
ArtifactFacts.v
ArtifactTheorems.v
ArtifactWalk.v
Tasks.v
TaskFacts.v
TaskStream.v
TaskOutput.v
TaskPrograms.v
TaskTheorems.v
TaskSessions.v
ServiceStatus.v
ServiceProcess.v
Supervisor.v
SupervisorTheorems.v
Services.v
ServiceTheorems.v
ServiceStart.v
ServiceExamples.v
Sessions.v
Updates.v
UpdateFrames.v
UpdateApply.v
UpdatePrepare.v
UpdateConfine.v
UpdateTheorems.v
SessionSystem.v
SessionInv.v
SessionOwner.v
SessionSafety.v
SessionProgress.v
SessionDurable.v
SessionAdmission.v
SessionSpec.v
SessionExamples.v
Http.v
ClientSource.v
ClientPackage.v
ClientFacts.v
ClientTheorems.v
ClientCleanup.v
HostPng.v
HostObservation.v
HostFacts.v
HostTransport.v
HostPublish.v
HttpHost.v
HttpUploads.v
HttpTheorems.v
HostExamples.v
CliOutput.v
CliStream.v
CliArchive.v
CliSettings.v
CliSession.v
CliSessionTheorems.v
CliRun.v
CliHost.v
CliExamples.v
