(* ===== verification/Prelude.v ===== *)
(** * A verification of the indentured server

    The indentured server runs configured build tasks and long-lived task
    sessions on behalf of remote clients.  A client packages its sources (a Jujutsu
    revision or a directory), sends them to the daemon over HTTP, and gets back a
    stream of events and an archive of artifacts.  The daemon authenticates the
    request, extracts the sources into a private workspace, runs the programs its
    configuration names under an unprivileged account, and cleans up.  This library
    translates that program (the Rust sources under [src/src/]) into Rocq functions
    and proves the properties the program relies on.

    ** Parts of the program and their interaction

    - [config/mod.rs] is read once at startup; [validate] accepts or refuses it, and
      every other part works under an accepted configuration.
    - [http.rs] authorizes a request ([bearer_token.rs]), receives the upload into a
      temporary file, takes a build slot, and hands both to one worker.
    - [build.rs] is the worker: it extracts the archive, resolves the task's identity
      ([user.rs]), runs the setup and run programs in process groups of their own,
      relays their output as events, and collects artifacts ([artifacts.rs]).
    - [sessions.rs] keeps sessions: a workspace, services ([services.rs]) and a state
      machine that admits one action or update at a time; [source_updates.rs] applies
      an update to the live workspace as a transaction.
    - [services.rs] runs each service under a supervisor process that owns the
      service's process group and talks to the daemon by status lines.
    - [host_observation.rs] and [http/host.rs] observe the desktop of the host: the
      daemon asks a broker in the graphical session over a socket, stores the images
      it sends back, and serves them.
    - [client_source.rs] packages sources on the client's side: the plan of a package,
      its zip archive and its manifest.
    - [bin/indentured.rs] is the client program: settings, the commands [run],
      [session start/update/action/stop] and [host], the response streams they show,
      the artifacts they unpack and the evidence they keep of themselves on disk.
    - [protocol.rs], [validation.rs] are shared by client and server;
      [logging/mod.rs] writes the rotating log.

    ** Files

    Vocabulary: [Prelude] (results, machine integers, generic lemmas, tactics),
    [Effects] (state and error monad, loops, weakest preconditions), [RustStr] (byte
    strings, UTF-8, Unix paths), [Fs] (metadata, archives), [Posix] (inode
    heap with interfering processes), [Process] (a child, its process group, the clock
    and other threads) with [ProcessFacts], [MachineRules] and [ProcessLive].

    Components, with the source each models:
    - [Validation] ([validation.rs]); [Bearer] ([bearer_token.rs]); [Auth]
      (credentials and [authorize] of [http.rs]); [Protocol] ([protocol.rs]);
      [Logging] ([logging/mod.rs]); [Accounts] ([user.rs]); [Config]
      ([config/mod.rs]).
    - [Archive], [ArchiveExtract]: [preflight_source_archive] and
      [extract_source_archive] of [build.rs].
    - [RunAs], [Output], [Tasks], with [TaskFacts], [TaskStream], [TaskOutput],
      [TaskPrograms], [TaskTheorems], [TaskSessions]: identity, process groups, output
      threads, the phases of a build, and the start, the actions and the teardown of a
      session with the threads that pass their events on, in [build.rs].
    - [Artifacts], [ArtifactZip], with [ArtifactFacts], [ArtifactTheorems],
      [ArtifactWalk] (with its examples): [artifacts.rs].
    - [ServiceStatus], [ServiceProcess], [Supervisor], [Services], [ServiceStart],
      with [SupervisorTheorems], [ServiceTheorems], [ServiceExamples]: [services.rs],
      supervisor and daemon side.
    - [Updates], with [UpdateFrames], [UpdateApply], [UpdatePrepare],
      [UpdateConfine], [UpdateTheorems]: [source_updates.rs].
    - [Sessions] (one function per lock section of [sessions.rs]) and [SessionSystem]
      (their interleaving by all threads), with [SessionInv], [SessionOwner],
      [SessionSafety], [SessionProgress], [SessionDurable], [SessionAdmission],
      [SessionSpec], [SessionExamples].
    - [Http], with [HttpUploads], [HttpTheorems]: the handlers of [http.rs].
    - [HostPng], [HostObservation], [HostTransport], [HostPublish], with [HostFacts],
      [HostExamples]: [host_observation.rs] and [socket_access.rs], the broker, its
      wire format and the daemon's side of it; [HttpHost]: [http/host.rs] and the
      router of all endpoints ([serve]).
    - [ClientSource], [ClientPackage], with [ClientFacts], [ClientTheorems],
      [ClientCleanup]: [client_source.rs].
    - [CliOutput] (line limits, log files), [CliStream] (the three response readers),
      [CliArchive] (downloaded archives), [CliSettings] (configuration, endpoint,
      credential, result root, errors of the server), [CliSession] (evidence,
      interruption, the four session commands), [CliRun] ([run] and [main]) of
      [bin/indentured.rs], [CliHost] of [bin/indentured/host.rs]; with
      [CliSessionTheorems] and [CliExamples].

    ** How code is modelled

    A pure function is a function.  Fallible code returns [result]; stateful code is a
    computation of [Effects] over an explicit state.  Wherever the code touches what
    other processes, threads or clients share with it (a workspace, a process group,
    the daemon's slots, a channel), every call first lets them move: the moves and the
    faults are drawn from an oracle indexed by the number of calls made so far, and a
    theorem quantifies over all oracles, hence over all interleavings and failures.
    The client's commands are over one world ([CliSession.Client]: terminal, evidence,
    results directory, requests sent) and one oracle ([Fate]: the signal, the file
    system, the server's answers and how far a response has come at every poll).
    The sessions are an event system instead ([SessionSystem.exec] runs one lock
    section of one thread), with theorems by induction over runs.  Integers with a
    width are [Z] or [N] with their wrap-around, saturation or checked operation
    written out.

    Code of other packages is a type class with the laws the sources rely on:
    [Serde] (JSON and derived decoders), [AuthCrates] (SHA-256, constant-time
    comparison, header decoding), [Sha], [Glob], the archive writers [ZipWriter] and
    [PackageZip], [JjCodec] (the listing of [jj]), [StatusCodec] (status lines),
    [AccountDb] (the C library's accounts), [PrivilegeDropOps] (the identity calls
    between fork and exec), [ObservationZip] and [HostCodec] (images and messages of
    the broker), [EventCodec] and [RequestCodec] (event lines and requests of the
    client), [HostClientCodec] (the host command's answer and output).  Laws are classes of their own ([PackageZipLaws] and the
    like); the example files instantiate both with concrete functions.

    ** What the theorems show

    - Sessions: the concurrent manager refines an abstract lifecycle
      ([session_refines_lifecycle]); cleanup runs once and excludes other work; a
      blocked stop can be answered; ended sessions admit nothing; revisions advance by
      one per update; usable sessions are recorded on disk and startup fails closed,
      also when a directory listing breaks off;
      and the one race found, an acknowledgement against its worker's deadline.
    - Updates: installed exactly, or rolled back, or reported as unproven; never a
      write outside the workspace.
    - Sources: the server's extraction is exactly the archive, and what the client
      packages is accepted and extracted to exactly its manifest
      ([package_is_extracted]); the temporary Jujutsu workspace is forgotten.
    - Tasks and services: every wait ends, its answer is true, nothing of a program's
      process group is left (a process that leaves its group is not tracked, as the
      README says), output stays within its limit, the event stream follows its
      protocol, the programs run as the configured user and no others run; a build
      returns unless collecting its artifacts blocks; a session's programs run
      only in a workspace prepared for them, its client receives their events in order,
      and its teardown reports a true result; the last events can be lost when a bridge
      is stopped ([action_output_can_be_lost]).
    - HTTP: authorization is exact; every slot, file and session a request takes is
      given back or handed to one worker; workers get what the client sent; no handler
      panics under a validated configuration.  What axum's extractors refuse before a
      handler runs is part of the routes.
    - Host: only confirmed captures leave the broker, an observation arrives as it was
      sent, is published whole or not at all, and a request gives back what it takes.
    - Client: a build's events are shown and logged whole however the stream is cut,
      within the client's limit of 1 MiB on a chunk with a partial line;
      a downloaded archive is unpacked whole or not at all; a session start leaves no
      session that nobody knows of; an interrupted action or stop stops its session;
      an exit with 0 is the truth; a host command announces only images it has
      checked and asks nobody but its endpoint; the metadata of an update is
      read by the server as the command line meant it, and accepted exactly within the
      server's limits.
    - Artifacts: an archive holds exactly the files the walk listed and the rules select,
      opened beneath the workspace, within the limits; collection of old archives follows its policy.

    ** Bounds and fuel

    Loops that the source writes as [loop] or [while] take a number of turns, and
    theorems state that the turns suffice: reading loops have 2^64 turns, more than
    any file has bytes ([io_loop]); polling loops have [timeout/interval + 2] turns
    ([polls]), after which their deadline has passed; reaping takes as many turns as
    the group has members; the account lookup doubles its buffer at most 21 times
    ([LOOKUP_FUEL]) before the source's own limit stops it; looking for a repository
    takes one turn per path component; a bounded write takes at most one turn per byte.
    The client's readers recurse on the chunks of a response and on the bytes that wait
    for a line end, PNG and socket loops on the bytes left, the search for an existing
    ancestor on the components; the turns of a [select!] loop, how often a task is woken
    and how far a response has come are lists and numbers of the oracle, and a command
    whose list ends is one that waits for ever ([Died Pending]).  No theorem assumes that fuel did not run out.

    ** Not modelled

    - The entry points [bin/indentured-server.rs] and [bin/indentured-host.rs]: they
      parse arguments, install signal handlers and call the parts above.
    - [host_observation/native.rs]: calls of the macOS frameworks, the broker's backend
      ([HostEnv] answers for it); binding the broker's socket.
    - Of [bin/indentured.rs]: argument parsing, redirects followed by the HTTP client,
      and the flags of descriptors switched to non-blocking and back.
    - Of [http.rs]: opening the listeners (TCP, Unix socket, TLS).  The session
      manager's model takes what a session's programs answer as nondeterministic
      input; [TaskSessions] shows what they do.  Of [client_source.rs]: polling a
      running [jj] (a run is one answer of the environment).  Of [logging/mod.rs]: the writer thread and the subscriber. *)
From stdpp Require Import base option gmap strings numbers relations list.

(** * The result type

    Rust's [Result<T, E>] and the [?] operator: [result] with a bind that stops
    at the first error, in stdpp's monad notation ([x ← c; k]). *)

Inductive result (E A : Type) : Type :=
| Ok (a : A)
| Err (e : E).
Arguments Ok {E A} a.
Arguments Err {E A} e.

#[export] Instance result_ret E : MRet (result E) := λ A a, Ok a.
#[export] Instance result_bind E : MBind (result E) := λ A B k c,
  match c with Ok a => k a | Err e => Err e end.
#[export] Instance result_fmap E : FMap (result E) := λ A B f c,
  match c with Ok a => Ok (f a) | Err e => Err e end.

#[export] Instance result_eq_dec {E A} `{EqDecision E, EqDecision A} :
  EqDecision (result E A).
Proof. solve_decision. Defined.

Definition map_err {E F A} (f : E → F) (c : result E A) : result F A :=
  match c with Ok a => Ok a | Err e => Err (f e) end.

(** [Option::ok_or]. *)
Definition ok_or {E A} (o : option A) (e : E) : result E A :=
  match o with Some a => Ok a | None => Err e end.

(** [if b { return Err(e) }]. *)
Definition reject_if {E} (b : bool) (e : E) : result E unit :=
  if b then Err e else Ok tt.

Definition is_ok {E A} (c : result E A) : bool :=
  match c with Ok _ => true | Err _ => false end.

Definition result_ok {E A} (c : result E A) : option A :=
  match c with Ok a => Some a | Err _ => None end.

Definition is_none {A} (o : option A) : bool :=
  match o with None => true | Some _ => false end.
Definition is_nil {A} (l : list A) : bool := match l with [] => true | _ => false end.
Definition is_some {A} (o : option A) : bool :=
  match o with None => false | Some _ => true end.

(** A [for] loop whose body may leave with [?]. *)
Fixpoint for_each {E A} (f : A → result E unit) (l : list A) : result E unit :=
  match l with
  | [] => Ok tt
  | x :: l => f x ≫= λ _, for_each f l
  end.

(** The same with a mutable local threaded through the iterations. *)
Fixpoint fold_each {E A S} (f : S → A → result E S) (s : S) (l : list A) : result E S :=
  match l with
  | [] => Ok s
  | x :: l => f s x ≫= λ s', fold_each f s' l
  end.

(** * Loops that poll

    A loop of the source that has no bound of its own is run with one.  [Diverged]
    stands for a computation that does not return: the bound ran out, or the code
    reached an [unreachable!].  The termination theorems exclude it. *)

Inductive halt (E : Type) : Type :=
| Raised (e : E)
| Diverged.
Arguments Raised {E} e.
Arguments Diverged {E}.

#[export] Instance halt_eq_dec {E} `{EqDecision E} : EqDecision (halt E).
Proof. solve_decision. Defined.

Definition halt_map {E F} (f : E → F) (h : halt E) : halt F :=
  match h with Raised e => Raised (f e) | Diverged => Diverged end.

(** * I/O errors

    [std::io::Error] with the [ErrorKind]s the sources create or inspect. *)

Inductive io_kind :=
| NotFound | PermissionDenied | AlreadyExists | WouldBlock | BrokenPipe
| TimedOut | Interrupted | ConnectionReset | InvalidInput | InvalidData | UnexpectedEof | WriteZero | OtherKind.

#[export] Instance io_kind_eq_dec : EqDecision io_kind.
Proof. solve_decision. Defined.

Record io_error := IoError { io_error_kind : io_kind; io_error_message : string }.

#[export] Instance io_error_eq_dec : EqDecision io_error.
Proof. solve_decision. Defined.

(** * Machine integers

    [u64] and [usize] are [N] values below [2^64]; the arithmetic the source
    writes is saturating or checked, spelled out here. *)

Definition u64_max : N := 18446744073709551615.
Definition u32_max : N := 4294967295.
Definition saturating_add (a b : N) : N := N.min u64_max (a + b).
Definition saturating_sub (a b : N) : N := (a - b)%N.
Definition checked_add (a b : N) : option N :=
  if (a + b <=? u64_max)%N then Some (a + b)%N else None.

(** * Automation *)

Create HintDb s2 discriminated.

(** Turns boolean tests into the propositions they decide. *)
Ltac breflect :=
  repeat match goal with
  | H : _ && _ = true |- _ => apply andb_true_iff in H; destruct H
  | H : _ || _ = false |- _ => apply orb_false_iff in H; destruct H
  | H : negb _ = true |- _ => apply negb_true_iff in H
  | H : negb _ = false |- _ => apply negb_false_iff in H
  | H : bool_decide _ = true |- _ => apply bool_decide_eq_true in H
  | H : bool_decide _ = false |- _ => apply bool_decide_eq_false in H
  | H : (_ <=? _)%N = true |- _ => apply N.leb_le in H
  | H : (_ <=? _)%N = false |- _ => apply N.leb_gt in H
  | H : (_ <? _)%N = true |- _ => apply N.ltb_lt in H
  | H : (_ <? _)%N = false |- _ => apply N.ltb_ge in H
  | H : (_ =? _)%N = true |- _ => apply N.eqb_eq in H
  | H : (_ =? _)%N = false |- _ => apply N.eqb_neq in H
  end.

(** One bind of a computation known to succeed. *)
Ltac bind_ok H :=
  match type of H with
  | context [mbind _ ?c] =>
      let x := fresh "x" in let E := fresh "E" in
      destruct c as [x|] eqn:E; cbn in H; [|discriminate H]
  end.

Ltac reject_ok H :=
  match type of H with
  | context [reject_if ?b _] =>
      let E := fresh "E" in destruct b eqn:E; cbn in H; [discriminate H|]
  end.

(** * Lemmas on results and loops *)

Lemma bind_Ok {E A B} (c : result E A) (k : A → result E B) b :
  c ≫= k = Ok b ↔ ∃ a, c = Ok a ∧ k a = Ok b.
Proof. destruct c; naive_solver. Qed.

Lemma bind_Err {E A B} (c : result E A) (k : A → result E B) e :
  c ≫= k = Err e ↔ c = Err e ∨ ∃ a, c = Ok a ∧ k a = Err e.
Proof. destruct c; naive_solver. Qed.

Lemma reject_if_Ok {E} b (e : E) u : reject_if b e = Ok u ↔ b = false.
Proof. destruct b, u; naive_solver. Qed.

Lemma reject_if_pass {E A} b (e : E) (k : unit → result E A) : b = false → (reject_if b e ≫= k) = k tt.
Proof. by intros ->. Qed.

Lemma reject_if_Err {E} b (e e' : E) : reject_if b e = Err e' ↔ b = true ∧ e = e'.
Proof. destruct b; naive_solver. Qed.

Lemma ok_or_Ok {E A} (o : option A) (e : E) a : ok_or o e = Ok a ↔ o = Some a.
Proof. destruct o; naive_solver. Qed.

Lemma map_err_Ok {E F A} (f : E → F) (c : result E A) a : map_err f c = Ok a ↔ c = Ok a.
Proof. destruct c; naive_solver. Qed.

Lemma is_ok_true {E A} (c : result E A) : is_ok c = true ↔ ∃ a, c = Ok a.
Proof. destruct c; naive_solver. Qed.

Lemma for_each_cons {E A} (f : A → result E unit) x l :
  for_each f (x :: l) = f x ≫= λ _, for_each f l.
Proof. done. Qed.

Lemma fold_each_cons {E A S} (f : S → A → result E S) s x l :
  fold_each f s (x :: l) = f s x ≫= λ s', fold_each f s' l.
Proof. done. Qed.

Lemma for_each_Ok {E A} (f : A → result E unit) l u :
  for_each f l = Ok u ↔ Forall (λ x, f x = Ok tt) l.
Proof.
  destruct u. induction l as [|x l IH]; [naive_solver|].
  rewrite for_each_cons, bind_Ok, Forall_cons, <-IH.
  split; [intros ([] & ? & ?); done|]. intros [? ?]. by exists tt.
Qed.

(** A loop invariant for [fold_each]: it holds at the start and every
    iteration that does not leave the loop re-establishes it. *)
Lemma fold_each_inv {E A S} (I : S → list A → Prop) (f : S → A → result E S) :
  (∀ s done x s', I s done → f s x = Ok s' → I s' (done ++ [x])) →
  ∀ l done s s', I s done → fold_each f s l = Ok s' → I s' (done ++ l).
Proof.
  intros Hstep l. induction l as [|x l IH]; intros dn s s' Hi H.
  - injection H as <-. by rewrite app_nil_r.
  - rewrite fold_each_cons in H. apply bind_Ok in H as (s1 & H1 & H2).
    rewrite (assoc (++) dn [x] l). eauto.
Qed.

Lemma saturating_add_le a b m : (m < u64_max)%N →
  (saturating_add a b ≤ m)%N ↔ (a + b ≤ m)%N.
Proof. unfold saturating_add. lia. Qed.

Lemma checked_add_Some a b c :
  checked_add a b = Some c ↔ c = (a + b)%N ∧ (a + b ≤ u64_max)%N.
Proof.
  unfold checked_add. destruct (N.leb_spec (a + b) u64_max);
    split; [intros [= <-]|intros [-> _]|done|]; try done.
  intros [-> ?]. lia.
Qed.

(** * Sums over a list *)

Fixpoint sum_of {A} (f : A → N) (l : list A) : N :=
  match l with [] => 0%N | x :: l => (f x + sum_of f l)%N end.

Lemma sum_of_app {A} (f : A → N) l1 l2 : sum_of f (l1 ++ l2) = (sum_of f l1 + sum_of f l2)%N.
Proof. induction l1 as [|x l1 IH]; cbn; [done|]. rewrite IH. lia. Qed.

Lemma sum_of_insert {A} (f : A → N) l i x y :
  l !! i = Some x → (sum_of f (<[i := y]> l) + f x = sum_of f l + f y)%N.
Proof.
  revert i. induction l as [|z l IH]; intros [|i] Hi; try done.
  - injection Hi as ->. change (f y + sum_of f l + f x = f x + sum_of f l + f y)%N. lia.
  - specialize (IH i Hi). change (f z + sum_of f (<[i := y]> l) + f x = f z + sum_of f l + f y)%N. lia.
Qed.

Lemma sum_of_le {A} (f g : A → N) l : (∀ x, f x ≤ g x)%N → (sum_of f l ≤ sum_of g l)%N.
Proof. intros Hfg. induction l as [|x l IH]; cbn; [done|]. specialize (Hfg x). lia. Qed.

Lemma sum_of_one {A} (l : list A) : sum_of (λ _, 1%N) l = N.of_nat (length l).
Proof. induction l as [|x l IH]; cbn; [done|]. rewrite IH. lia. Qed.

(** A loop over a map's entries succeeds iff its body does for every entry. *)
Lemma for_each_map_Ok {E A} (f : string → A → result E unit) (m : gmap string A) u :
  for_each (λ '(k, v), f k v) (map_to_list m) = Ok u ↔
  ∀ k v, m !! k = Some v → f k v = Ok tt.
Proof.
  rewrite for_each_Ok, Forall_forall. split.
  - intros H k v Hk. apply (H (k, v)). by apply elem_of_map_to_list.
  - intros H [k v] Hk%elem_of_map_to_list. by apply H.
Qed.

(** The result of a successful primitive step. *)
Ltac step_ok E :=
  match type of E with
  | reject_if _ _ = Ok _ => apply reject_if_Ok in E
  | map_err _ _ = Ok _ => apply map_err_Ok in E
  | ok_or _ _ = Ok _ => apply ok_or_Ok in E
  | _ => idtac
  end.

(** Splits a successful sequence of binds and guards into one hypothesis per
    step. *)
Ltac unbind H :=
  repeat match type of H with
  | mbind _ _ = Ok _ =>
      let E := fresh "E" in
      apply bind_Ok in H as (? & E & H); step_ok E
  end;
  step_ok H.
