(* ===== verification/Effects.v ===== *)
(** Computations that thread a state and may fail: the small monad the stateful
    components are written in, its loops, and a weakest-precondition calculus for
    their proofs. *)
From stdpp Require Import base option list numbers.
From S2P Require Import Prelude.

(** * Computations *)

Definition eff (St E A : Type) : Type := St → St * result E A.

#[export] Instance eff_ret St E : MRet (eff St E) := λ A a w, (w, Ok a).
#[export] Instance eff_bind St E : MBind (eff St E) := λ A B k m w,
  match m w with
  | (w', Ok a) => k a w'
  | (w', Err e) => (w', Err e)
  end.

Definition io_fail {St E A} (e : E) : eff St E A := λ w, (w, Err e).
Definition io_lift {St E A} (r : result E A) : eff St E A := λ w, (w, r).
Definition io_map_err {St E F A} (f : E → F) (m : eff St E A) : eff St F A := λ w,
  let '(w', r) := m w in (w', map_err f r).
(** Runs the computation and hands over its result, error or not. *)
Definition io_try {St E F A} (m : eff St E A) : eff St F (result E A) := λ w,
  let '(w', r) := m w in (w', Ok r).

Definition option_expect {St E A} (o : option A) (e : E) : eff St E A := io_lift (ok_or o e).
Definition io_reject {St E} (b : bool) (e : E) : eff St E unit := io_lift (reject_if b e).

Fixpoint io_fold {St E A S} (f : S → A → eff St E S) (s : S) (l : list A) : eff St E S :=
  match l with
  | [] => mret s
  | x :: l => s' ← f s x; io_fold f s' l
  end.

Fixpoint io_each {St E A} (f : A → eff St E unit) (l : list A) : eff St E unit :=
  match l with
  | [] => mret tt
  | x :: l => _ ← f x; io_each f l
  end.

(** * Loops without a bound of their own *)

(** At most [2 ^ k] turns: the state to go on with, or what the loop left with. *)
Fixpoint io_turns {St E A S} (k : nat) (body : S → eff St E (S + A)) (s : S) : eff St E (S + A) :=
  match k with
  | O => body s
  | S k =>
      r ← io_turns k body s;
      match r with
      | inl s => io_turns k body s
      | inr a => mret (inr a)
      end
  end.

(** [loop { .. }] with at most [2 ^ 64] turns. *)
Definition io_loop {St E A S} (body : S → eff St (halt E) (S + A)) (s : S) : eff St (halt E) A :=
  r ← io_turns 64 body s;
  match r with
  | inl _ => io_fail Diverged
  | inr a => mret a
  end.

(** * Reasoning about computations *)

(** [wp m w Q]: the final world and result of [m] from [w] satisfy [Q]. *)
Definition wp {St E A} (m : eff St E A) (w : St) (Q : St → result E A → Prop) : Prop :=
  Q (m w).1 (m w).2.

Lemma wp_run {St E A} (m : eff St E A) w Q w' r : wp m w Q → m w = (w', r) → Q w' r.
Proof. unfold wp. intros H Hm. by rewrite Hm in H. Qed.

Lemma eff_bind_Ok {St E A B} (m : eff St E A) (k : A → eff St E B) s s' b :
  (m ≫= k) s = (s', Ok b) → ∃ s1 a, m s = (s1, Ok a) ∧ k a s1 = (s', Ok b).
Proof. unfold mbind, eff_bind. destruct (m s) as [s1 [a|e]] eqn:E1; [|done]. eauto. Qed.

Lemma io_try_run {St E F A} (m : eff St E A) s s' (r : result F (result E A)) :
  io_try m s = (s', r) → ∃ r0, r = Ok r0 ∧ m s = (s', r0).
Proof. unfold io_try. destruct (m s). intros [= <- <-]. eauto. Qed.

Lemma wp_mono {St E A} (m : eff St E A) w (Q Q' : St → result E A → Prop) :
  wp m w Q → (∀ w' r, Q w' r → Q' w' r) → wp m w Q'.
Proof. unfold wp. auto. Qed.

Lemma wp_bind {St E A B} (m : eff St E A) (k : A → eff St E B) w Q :
  wp m w (λ w' r, match r with Ok a => wp (k a) w' Q | Err e => Q w' (Err e) end) →
  wp (m ≫= k) w Q.
Proof. unfold wp, mbind, eff_bind. destruct (m w) as [w' [a|e]]; done. Qed.

Lemma wp_ret {St E A} (a : A) (w : St) (Q : St → result E A → Prop) : Q w (Ok a) → wp (mret (M := eff St E) a) w Q.
Proof. done. Qed.
Lemma wp_fail {St E A} (e : E) (w : St) (Q : St → result E A → Prop) : Q w (Err e) → wp (io_fail e) w Q.
Proof. done. Qed.
Lemma wp_lift {St E A} (r : result E A) (w : St) Q : Q w r → wp (io_lift r) w Q.
Proof. done. Qed.

Lemma wp_map_err {St E F A} (f : E → F) (m : eff St E A) w Q :
  wp m w (λ w' r, Q w' (map_err f r)) → wp (io_map_err f m) w Q.
Proof. unfold wp, io_map_err. by destruct (m w). Qed.

Lemma wp_try {St E F A} (m : eff St E A) w (Q : St → result F (result E A) → Prop) :
  wp m w (λ w' r, Q w' (Ok r)) → wp (io_try m) w Q.
Proof. unfold wp, io_try. by destruct (m w). Qed.

(** A loop keeps what every iteration keeps. *)
Lemma wp_each {St E A} (f : A → eff St E unit) (I : St → Prop) l w :
  (∀ x w, x ∈ l → I w → wp (f x) w (λ w' _, I w')) → I w → wp (io_each f l) w (λ w' _, I w').
Proof.
  revert w. induction l as [|x l IH]; intros w Hf Hi; [done|]. cbn.
  apply wp_bind. eapply wp_mono; [apply Hf; [by left|done]|].
  intros w' [] Hi'; cbn; [|done]. apply IH; [|done]. intros; apply Hf; [by right|done].
Qed.

(** An invariant of a loop with an accumulator, with the elements consumed. *)
Lemma wp_fold {St E A S} (f : S → A → eff St E S) (I : St → S → list A → Prop) (R : St → E → Prop)
    l dn s w :
  (∀ s dn x w, x ∈ l → I w s dn →
     wp (f s x) w (λ w' r, match r with Ok s' => I w' s' (dn ++ [x]) | Err e => R w' e end)) →
  I w s dn →
  wp (io_fold f s l) w (λ w' r, match r with Ok s' => I w' s' (dn ++ l) | Err e => R w' e end).
Proof.
  revert dn s w. induction l as [|x l IH]; intros dn s w Hf Hi; cbn [io_fold].
  - apply wp_ret. by rewrite app_nil_r.
  - apply wp_bind. eapply wp_mono; [apply Hf; [by left|done]|]. intros w' [s'|e]; cbn; [|done].
    intros Hi'. eapply wp_mono; [apply IH; [|done]|].
    + intros; apply Hf; [by right|done].
    + intros w'' [?|?]; [|done]. by rewrite <-(assoc (++)).
Qed.

(** An invariant of [io_turns] with a measure that every turn brings down. *)
Lemma wp_turns {St E A S} (body : S → eff St E (S + A)) (I : St → S → Prop) (f : S → N)
    (Q : St → result E A → Prop) k s w :
  (∀ s w, I w s → wp (body s) w (λ w' r,
     match r with
     | Ok (inl s') => I w' s' ∧ (f s' < f s)%N
     | Ok (inr a) => Q w' (Ok a)
     | Err e => Q w' (Err e)
     end)) →
  I w s →
  wp (io_turns k body s) w (λ w' r,
    match r with
    | Ok (inl s') => I w' s' ∧ (f s' + 2 ^ N.of_nat k <= f s)%N
    | Ok (inr a) => Q w' (Ok a)
    | Err e => Q w' (Err e)
    end).
Proof.
  intros Hb. revert s w. induction k as [|k IH]; intros s w Hi; cbn [io_turns].
  - eapply wp_mono; [by apply Hb|]. intros w' [[s'|a]|e]; [|done..]. cbn. intros [? ?]. split; [done|lia].
  - apply wp_bind. eapply wp_mono; [by apply IH|]. intros w1 [[s1|a]|e]; [|done..]. intros [Hi1 Hf1].
    eapply wp_mono; [by apply IH|]. intros w2 [[s2|a]|e]; [|done..]. intros [Hi2 Hf2]. split; [done|].
    rewrite Nat2N.inj_succ, N.pow_succ_r'. lia.
Qed.

(** The rule of [io_loop]: with a measure below [2 ^ 64] it leaves the loop. *)
Lemma wp_loop {St E A S} (body : S → eff St (halt E) (S + A)) (I : St → S → Prop) (f : S → N)
    (Q : St → result (halt E) A → Prop) s w :
  (∀ s w, I w s → wp (body s) w (λ w' r,
     match r with
     | Ok (inl s') => I w' s' ∧ (f s' < f s)%N
     | Ok (inr a) => Q w' (Ok a)
     | Err e => Q w' (Err e)
     end)) →
  I w s → (f s < 2 ^ 64)%N → wp (io_loop body s) w Q.
Proof.
  intros Hb Hi Hf. unfold io_loop. apply wp_bind. eapply wp_mono; [by apply (wp_turns body I f Q)|].
  intros w' [[s'|a]|e]; [|done..]. intros [_ Hle]. change (2 ^ N.of_nat 64)%N with (2 ^ 64)%N in Hle. lia.
Qed.
