(* ===== verification/RustStr.v ===== *)
(** Rust's byte strings and Unix paths, as far as the sources use them.

    A [String]/[&str] is its UTF-8 byte sequence ([string], one [ascii] per
    byte, so [String.length] is [str::len]); [&[u8]] is the same type.  The
    operations are those of the Rust standard library that the modelled code
    calls; [components] is [std::path::Path::components] on Unix. *)
From Stdlib Require Import Ascii.
From stdpp Require Import base option strings numbers countable list.
From S2P Require Import Prelude.

Local Open Scope N_scope.

(** * Bytes *)

Definition code (a : ascii) : N := N_of_ascii a.
Definition in_range (lo hi : N) (a : ascii) : bool := (lo <=? code a) && (code a <=? hi).
Definition is_ascii_digit : ascii → bool := in_range 48 57.
Definition is_ascii_uppercase : ascii → bool := in_range 65 90.
Definition is_ascii_lowercase : ascii → bool := in_range 97 122.
Definition is_ascii_alphanumeric (a : ascii) : bool :=
  is_ascii_digit a || is_ascii_uppercase a || is_ascii_lowercase a.
Definition is_ascii_hexdigit (a : ascii) : bool :=
  is_ascii_digit a || in_range 65 70 a || in_range 97 102 a.
Definition is_ascii_byte (a : ascii) : bool := code a <? 128.

Definition byte_eqb (a b : ascii) : bool := bool_decide (a = b).

Definition lower (a : ascii) : ascii :=
  if is_ascii_uppercase a then ascii_of_N (code a + 32) else a.

(** * Strings *)

Fixpoint all_bytes (p : ascii → bool) (s : string) : bool :=
  match s with
  | EmptyString => true
  | String a s => p a && all_bytes p s
  end.

Definition len (s : string) : N := N.of_nat (String.length s).
Definition is_empty (s : string) : bool :=
  match s with EmptyString => true | _ => false end.
Definition is_ascii (s : string) : bool := all_bytes is_ascii_byte s.
Definition contains_byte (c : ascii) (s : string) : bool :=
  negb (all_bytes (λ a, negb (byte_eqb a c)) s).

Fixpoint to_ascii_lowercase (s : string) : string :=
  match s with
  | EmptyString => EmptyString
  | String a s => String (lower a) (to_ascii_lowercase s)
  end.
Definition eq_ignore_ascii_case (s t : string) : bool :=
  bool_decide (to_ascii_lowercase s = to_ascii_lowercase t).

Fixpoint strip_prefix (p s : string) : option string :=
  match p, s with
  | EmptyString, _ => Some s
  | String a p, String b s => if byte_eqb a b then strip_prefix p s else None
  | _, _ => None
  end.
Definition starts_with (p s : string) : bool :=
  match strip_prefix p s with Some _ => true | None => false end.

Fixpoint last_byte (s : string) : option ascii :=
  match s with
  | EmptyString => None
  | String a EmptyString => Some a
  | String _ s => last_byte s
  end.

(** [slice::strip_suffix] with a one-byte suffix. *)
Fixpoint strip_suffix (c : ascii) (s : string) : option string :=
  match s with
  | EmptyString => None
  | String a EmptyString => if byte_eqb a c then Some EmptyString else None
  | String a s => String a <$> strip_suffix c s
  end.

(** [n] copies of a byte. *)
Fixpoint repeat_byte (c : ascii) (n : nat) : string :=
  match n with O => EmptyString | S n => String c (repeat_byte c n) end.

(** [str::split(c)]: never empty. *)
Fixpoint split (c : ascii) (s : string) : list string :=
  match s with
  | EmptyString => [EmptyString]
  | String a s =>
      if byte_eqb a c then EmptyString :: split c s
      else match split c s with
           | h :: t => String a h :: t
           | [] => [String a EmptyString]
           end
  end.

Fixpoint join (c : ascii) (l : list string) : string :=
  match l with
  | [] => EmptyString
  | [s] => s
  | s :: l => s +:+ String c (join c l)
  end.

(** [str::trim_end_matches(c)]. *)
Fixpoint trim_end_matches (c : ascii) (s : string) : string :=
  match s with
  | EmptyString => EmptyString
  | String a s =>
      match trim_end_matches c s with
      | EmptyString => if byte_eqb a c then EmptyString else String a EmptyString
      | t => String a t
      end
  end.
Fixpoint trim_start_matches (c : ascii) (s : string) : string :=
  match s with
  | EmptyString => EmptyString
  | String a s' => if byte_eqb a c then trim_start_matches c s' else s
  end.

(** The UTF-8 encodings of the code points with the Unicode [White_Space]
    property, which [str::trim] strips. *)
Definition bytes (l : list N) : string :=
  String.string_of_list_ascii (ascii_of_N <$> l).
Definition whitespace : list string :=
  bytes <$> [[9]; [10]; [11]; [12]; [13]; [32]; [194; 133]; [194; 160];
   [225; 154; 128]; [226; 128; 128]; [226; 128; 129]; [226; 128; 130];
   [226; 128; 131]; [226; 128; 132]; [226; 128; 133]; [226; 128; 134];
   [226; 128; 135]; [226; 128; 136]; [226; 128; 137]; [226; 128; 138];
   [226; 128; 168]; [226; 128; 169]; [226; 128; 175]; [226; 129; 159];
   [227; 128; 128]].

Definition strip_whitespace (s : string) : option string :=
  head (omap (λ w, strip_prefix w s) whitespace).

Fixpoint trim_start_fuel (fuel : nat) (s : string) : string :=
  match fuel with
  | O => s
  | S fuel => match strip_whitespace s with
              | Some t => trim_start_fuel fuel t
              | None => s
              end
  end.
(** Each round removes at least one byte, so the length is enough fuel. *)
Definition trim_start (s : string) : string := trim_start_fuel (String.length s) s.

Fixpoint string_rev_app (s acc : string) : string :=
  match s with
  | EmptyString => acc
  | String a s => string_rev_app s (String a acc)
  end.
Definition string_rev (s : string) : string := string_rev_app s EmptyString.

(** UTF-8 is self-synchronising: a whitespace encoding at the end of a valid
    string is a whitespace character, so [trim_end] works on reversed bytes. *)
Definition strip_whitespace_rev (s : string) : option string :=
  head (omap (λ w, strip_prefix (string_rev w) s) whitespace).
Fixpoint trim_start_rev_fuel (fuel : nat) (s : string) : string :=
  match fuel with
  | O => s
  | S fuel => match strip_whitespace_rev s with
              | Some t => trim_start_rev_fuel fuel t
              | None => s
              end
  end.
Definition trim_end (s : string) : string :=
  string_rev (trim_start_rev_fuel (String.length s) (string_rev s)).
Definition trim (s : string) : string := trim_end (trim_start s).

(** [s.trim().is_empty()]. *)
Definition is_blank (s : string) : bool := is_empty (trim s).

(** * Paths *)

Definition slash : ascii := "/"%char.
Definition nul : ascii := "000"%char.

Inductive component :=
| RootDir
| CurDir
| ParentDir
| Normal (name : string).

#[export] Instance component_eq_dec : EqDecision component.
Proof. solve_decision. Defined.

#[export] Instance component_countable : Countable component.
Proof.
  refine (inj_countable'
    (λ c, match c with RootDir => inl 0%nat | CurDir => inl 1%nat | ParentDir => inl 2%nat | Normal n => inr n end)
    (λ c, match c with inl 0%nat => RootDir | inl 1%nat => CurDir | inl _ => ParentDir | inr n => Normal n end) _).
  by intros [].
Defined.

Definition is_absolute (p : string) : bool := starts_with "/" p.

Definition classify (part : string) : list component :=
  if bool_decide (part = "") then []
  else if bool_decide (part = ".") then []
  else if bool_decide (part = "..") then [ParentDir]
  else [Normal part].

Definition leading (p : string) : list component :=
  if is_absolute p then [RootDir]
  else if bool_decide (head (split slash p) = Some ".") then [CurDir]
  else [].

Definition components (p : string) : list component :=
  leading p ++ (split slash p ≫= classify).

Definition is_parent_dir (c : component) : bool :=
  match c with ParentDir => true | _ => false end.
Definition is_normal (c : component) : bool :=
  match c with Normal _ => true | _ => false end.
Definition has_parent_dir (p : string) : bool := existsb is_parent_dir (components p).

(** [Path::join]. *)
Definition path_join (root p : string) : string :=
  if is_absolute p then p
  else if bool_decide (root = "") then p
  else if bool_decide (last_byte root = Some slash) then root +:+ p
  else root +:+ String slash p.

(** [Path::starts_with]: component-wise, so ["/runner"] is not beneath ["/run"]. *)
Definition path_starts_with (p base : string) : bool :=
  bool_decide (take (length (components base)) (components p) = components base).

(** [Path] equality is equality of components. *)
Definition path_eqb (p q : string) : bool := bool_decide (components p = components q).

(** * Lemmas *)

Lemma byte_eqb_true a b : byte_eqb a b = true ↔ a = b.
Proof. apply bool_decide_eq_true. Qed.
Lemma byte_eqb_false a b : byte_eqb a b = false ↔ a ≠ b.
Proof. apply bool_decide_eq_false. Qed.
Lemma byte_eqb_refl a : byte_eqb a a = true.
Proof. by apply byte_eqb_true. Qed.

Lemma string_app_cons a s t : String a s +:+ t = String a (s +:+ t).
Proof. done. Qed.
Lemma string_app_nil s : s +:+ "" = s.
Proof. induction s as [|a s IH]; [done|]. by rewrite string_app_cons, IH. Qed.
Lemma string_app_assoc s t u : (s +:+ t) +:+ u = s +:+ (t +:+ u).
Proof. induction s as [|a s IH]; [done|]. by rewrite !string_app_cons, IH. Qed.
Lemma string_length_app s t : String.length (s +:+ t) = (String.length s + String.length t)%nat.
Proof. induction s as [|a s IH]; [done|]. rewrite string_app_cons. cbn. by rewrite IH. Qed.
Lemma len_app s t : len (s +:+ t) = (len s + len t)%N.
Proof. unfold len. rewrite string_length_app. lia. Qed.
Lemma string_app_inj_l s t u : s +:+ t = s +:+ u → t = u.
Proof. induction s as [|a s IH]; [done|]. rewrite !string_app_cons. intros [= ?]. auto. Qed.

Lemma all_bytes_app p s t : all_bytes p (s +:+ t) = all_bytes p s && all_bytes p t.
Proof. induction s as [|a s IH]; [done|]. rewrite string_app_cons. cbn. by rewrite IH, andb_assoc. Qed.
Lemma all_bytes_impl (p q : ascii → bool) s :
  (∀ a, p a = true → q a = true) → all_bytes p s = true → all_bytes q s = true.
Proof. intros H. induction s as [|a s IH]; cbn; [done|]. rewrite !andb_true_iff. naive_solver. Qed.

Lemma strip_prefix_Some p s t : strip_prefix p s = Some t ↔ s = p +:+ t.
Proof.
  revert s. induction p as [|a p IH]; intros s; [cbn; naive_solver|].
  rewrite string_app_cons. destruct s as [|b s]; cbn; [naive_solver|].
  destruct (byte_eqb a b) eqn:E.
  - apply byte_eqb_true in E as ->. rewrite IH. split; congruence.
  - apply byte_eqb_false in E. split; congruence.
Qed.
Lemma starts_with_true p s : starts_with p s = true ↔ ∃ t, s = p +:+ t.
Proof.
  unfold starts_with. destruct (strip_prefix p s) as [t|] eqn:E.
  - apply strip_prefix_Some in E as ->. naive_solver.
  - split; [done|]. intros [t Ht]. apply strip_prefix_Some in Ht. congruence.
Qed.

Lemma strip_suffix_Some c s t : strip_suffix c s = Some t ↔ s = t +:+ String c "".
Proof.
  revert t. induction s as [|a s IH]; intros t.
  { split; [done|]. by destruct t. }
  destruct s as [|b s].
  - cbn. destruct (byte_eqb a c) eqn:E.
    + apply byte_eqb_true in E as ->. split; [intros [= <-]; done|].
      destruct t as [|d t]; [done|]. rewrite string_app_cons. intros [= _ H]. by destruct t.
    + apply byte_eqb_false in E. split; [done|].
      destruct t as [|d t]; [by intros [= ->]|].
      rewrite string_app_cons. intros [= _ H]. by destruct t.
  - change (strip_suffix c (String a (String b s)))
      with (String a <$> strip_suffix c (String b s)).
    rewrite fmap_Some. setoid_rewrite IH. split.
    + intros (u & -> & ->). done.
    + destruct t as [|d t]; [intros [= _ ?]; done|].
      rewrite string_app_cons. intros [= -> ->]. eauto.
Qed.

Lemma contains_byte_false c s :
  contains_byte c s = false ↔ all_bytes (λ a, negb (byte_eqb a c)) s = true.
Proof. unfold contains_byte. apply negb_false_iff. Qed.

Lemma split_ne c s : split c s ≠ [].
Proof. destruct s as [|a s]; cbn; [done|]. by destruct (byte_eqb a c), (split c s). Qed.

Lemma split_cons_eq c s : split c (String c s) = "" :: split c s.
Proof. cbn. by rewrite byte_eqb_refl. Qed.

Lemma split_app c s t : split c (s +:+ String c t) = split c s ++ split c t.
Proof.
  induction s as [|a s IH]; [apply split_cons_eq|].
  rewrite string_app_cons. cbn [split]. rewrite IH.
  destruct (byte_eqb a c); [done|]. pose proof (split_ne c s).
  by destruct (split c s).
Qed.

Lemma join_split c s : join c (split c s) = s.
Proof.
  induction s as [|a s IH]; [done|].
  cbn [split]. destruct (byte_eqb a c) eqn:E.
  - apply byte_eqb_true in E as ->. pose proof (split_ne c s).
    cbn. destruct (split c s); [done|]. by rewrite IH.
  - pose proof (split_ne c s). destruct (split c s) as [|h [|h' t]]; [done| |].
    + cbn in *. congruence.
    + change (String a (join c (h :: h' :: t)) = String a s). by rewrite IH.
Qed.

Lemma split_no_sep c s : Forall (λ t, contains_byte c t = false) (split c s).
Proof.
  induction s as [|a s IH]; [by repeat constructor|].
  cbn [split]. destruct (byte_eqb a c) eqn:E; [by constructor|].
  destruct (split c s) as [|h t].
  - repeat constructor. apply contains_byte_false. cbn. by rewrite E.
  - apply Forall_cons_1 in IH as [Hh Ht]. constructor; [|done].
    rewrite contains_byte_false in Hh. apply contains_byte_false. cbn. by rewrite E.
Qed.

Lemma last_byte_slash s : last_byte s = Some slash → ∃ t, s = t +:+ "/".
Proof.
  induction s as [|a s IH]; [done|]. cbn. destruct s as [|b s].
  - intros [= ->]. by exists "".
  - intros H. destruct (IH H) as [t ->]. by exists (String a t).
Qed.

(** A path without a root contributes only what its parts classify to once it
    is placed under a directory. *)
Lemma components_join root p :
  root ≠ "" → is_absolute p = false →
  components (path_join root p) = components root ++ (split slash p ≫= classify).
Proof.
  intros Hr Hp. unfold path_join. rewrite Hp.
  rewrite (bool_decide_false _ Hr).
  assert (Hl : ∀ q, leading (root +:+ String slash q) = leading root).
  { intros q. unfold leading, is_absolute. destruct root as [|a root]; [done|].
    rewrite string_app_cons. unfold starts_with. cbn. destruct (byte_eqb "/" a) eqn:E; [done|].
    assert (byte_eqb a slash = false) as ->
      by (apply byte_eqb_false; intros ->; vm_compute in E; discriminate E).
    rewrite split_app. pose proof (split_ne slash root).
    by destruct (split slash root). }
  case_bool_decide as Hs.
  - apply last_byte_slash in Hs as [t ->].
    assert (He : (t +:+ "/") +:+ p = t +:+ String slash p) by apply string_app_assoc.
    rewrite He. unfold components.
    assert (Hl' : leading (t +:+ String slash p) = leading (t +:+ "/")).
    { destruct t as [|a t]; [done|]. unfold leading, is_absolute, starts_with.
      rewrite !string_app_cons. cbn [strip_prefix]. destruct (byte_eqb "/" a); [done|].
      rewrite <-!string_app_cons, !(split_app slash (String a t)). pose proof (split_ne slash (String a t)).
      by destruct (split slash (String a t)). }
    rewrite Hl', !split_app, !bind_app, app_nil_r. by rewrite assoc by apply _.
  - unfold components. rewrite Hl, split_app, bind_app.
    by rewrite assoc by apply _.
Qed.

Lemma path_join_starts_with root p :
  root ≠ "" → is_absolute p = false →
  path_starts_with (path_join root p) root = true.
Proof.
  intros Hr Hp. unfold path_starts_with. rewrite components_join by done.
  apply bool_decide_eq_true, take_app_length.
Qed.

Lemma parts_no_parent p :
  has_parent_dir p = false →
  Forall (λ c, is_normal c = true) (split slash p ≫= classify).
Proof.
  unfold has_parent_dir, components. rewrite existsb_app, orb_false_iff.
  intros [_ H]. induction (split slash p) as [|x l IH]; [constructor|].
  cbn in *. rewrite existsb_app, orb_false_iff in H. destruct H as [Hx Hl].
  apply Forall_app; split; [|by apply IH].
  unfold classify in *. repeat case_bool_decide; try done; by constructor.
Qed.

(** * Parents and ancestors *)

(** [Path::parent] and [Path::ancestors], on the component list. *)
Definition parent (cs : list component) : option (list component) :=
  match last cs with
  | None | Some RootDir => None
  | Some _ => Some (removelast cs)
  end.

Fixpoint ancestors_fuel (fuel : nat) (cs : list component) : list (list component) :=
  cs :: match fuel with
        | O => []
        | S fuel => match parent cs with
                    | Some p => ancestors_fuel fuel p
                    | None => []
                    end
        end.
(** A parent is one component shorter, so the length is enough fuel. *)
Definition ancestors (cs : list component) : list (list component) :=
  ancestors_fuel (length cs) cs.

(** * UTF-8 *)

Definition continuation : ascii → bool := in_range 128 191.

(** [std::str::from_utf8] succeeds exactly on these byte sequences. *)
Fixpoint utf8_valid (s : string) : bool :=
  match s with
  | EmptyString => true
  | String a s =>
      if is_ascii_byte a then utf8_valid s
      else if in_range 194 223 a then
        match s with String b s => continuation b && utf8_valid s | _ => false end
      else if in_range 224 239 a then
        match s with
        | String b (String c s) =>
            in_range (if code a =? 224 then 160 else 128)
                     (if code a =? 237 then 159 else 191) b &&
            continuation c && utf8_valid s
        | _ => false
        end
      else if in_range 240 244 a then
        match s with
        | String b (String c (String d s)) =>
            in_range (if code a =? 240 then 144 else 128)
                     (if code a =? 244 then 143 else 191) b &&
            continuation c && continuation d && utf8_valid s
        | _ => false
        end
      else false
  end.
Definition from_utf8 (s : string) : option string :=
  if utf8_valid s then Some s else None.

(** U+FFFD in UTF-8. *)
Definition replacement (rest : string) : string :=
  String (ascii_of_N 239) (String (ascii_of_N 191) (String (ascii_of_N 189) rest)).

(** [String::from_utf8_lossy]: every maximal prefix of an ill-formed sequence
    becomes one replacement character. *)
Fixpoint from_utf8_lossy (s : string) : string :=
  match s with
  | EmptyString => EmptyString
  | String a s1 =>
      if is_ascii_byte a then String a (from_utf8_lossy s1)
      else if in_range 194 223 a then
        match s1 with
        | String b s2 =>
            if continuation b then String a (String b (from_utf8_lossy s2))
            else replacement (from_utf8_lossy s1)
        | EmptyString => replacement EmptyString
        end
      else if in_range 224 239 a then
        match s1 with
        | String b s2 =>
            if in_range (if code a =? 224 then 160 else 128)
                        (if code a =? 237 then 159 else 191) b
            then match s2 with
                 | String c s3 =>
                     if continuation c then String a (String b (String c (from_utf8_lossy s3)))
                     else replacement (from_utf8_lossy s2)
                 | EmptyString => replacement EmptyString
                 end
            else replacement (from_utf8_lossy s1)
        | EmptyString => replacement EmptyString
        end
      else if in_range 240 244 a then
        match s1 with
        | String b s2 =>
            if in_range (if code a =? 240 then 144 else 128)
                        (if code a =? 244 then 143 else 191) b
            then match s2 with
                 | String c s3 =>
                     if continuation c
                     then match s3 with
                          | String d s4 =>
                              if continuation d
                              then String a (String b (String c (String d (from_utf8_lossy s4))))
                              else replacement (from_utf8_lossy s3)
                          | EmptyString => replacement EmptyString
                          end
                     else replacement (from_utf8_lossy s2)
                 | EmptyString => replacement EmptyString
                 end
            else replacement (from_utf8_lossy s1)
        | EmptyString => replacement EmptyString
        end
      else replacement (from_utf8_lossy s1)
  end.

Lemma ascii_utf8 s : is_ascii s = true → from_utf8 s = Some s.
Proof.
  unfold from_utf8, is_ascii. intros H. enough (utf8_valid s = true) as -> by done.
  induction s as [|a s IH]; [done|]. cbn in *.
  apply andb_true_iff in H as [Ha Hs]. rewrite Ha. auto.
Qed.

(** * Further string operations *)

(** [str::split_once(sep)]: at the first occurrence. *)
Fixpoint split_once (sep s : string) : option (string * string) :=
  match strip_prefix sep s with
  | Some t => Some ("", t)
  | None => match s with
            | EmptyString => None
            | String a s => prod_map (String a) id <$> split_once sep s
            end
  end.

(** [str::strip_suffix] with a string suffix. *)
Definition strip_suffix_str (suffix s : string) : option string :=
  string_rev <$> strip_prefix (string_rev suffix) (string_rev s).

Definition ends_with (suffix s : string) : bool :=
  match strip_suffix_str suffix s with Some _ => true | None => false end.

(** [Path::file_name]: the last component when it is an ordinary name. *)
Definition file_name (cs : list component) : option string :=
  match last cs with Some (Normal n) => Some n | _ => None end.

(** Positional digits in base [radix], as [from_str_radix] reads them. *)
Fixpoint parse_radix (radix max acc : N) (s : string) : option N :=
  match s with
  | EmptyString => Some acc
  | String a s =>
      let d := code a - 48 in
      if is_ascii_digit a && (d <? radix) then
        let acc := acc * radix + d in
        if acc <=? max then parse_radix radix max acc s else None
      else None
  end.

(** [u32::from_str_radix] for a radix of at most ten: one optional [+], then
    at least one digit, overflow checked. *)
Definition u32_from_str_radix (s : string) (radix : N) : option N :=
  let digits := default s (strip_prefix "+" s) in
  if is_empty digits then None else parse_radix radix u32_max 0 digits.

Lemma string_rev_app_spec s acc : string_rev_app s acc = string_rev s +:+ acc.
Proof.
  unfold string_rev. revert acc. induction s as [|a s IH]; intros acc; [done|]. cbn.
  rewrite (IH (String a acc)), (IH (String a "")), string_app_assoc. by rewrite string_app_cons.
Qed.

Lemma string_rev_distr s t : string_rev (s +:+ t) = string_rev t +:+ string_rev s.
Proof.
  induction s as [|a s IH].
  - change ("" +:+ t) with t. change (string_rev "") with "". by rewrite string_app_nil.
  - rewrite string_app_cons. unfold string_rev. cbn. rewrite !string_rev_app_spec.
    rewrite IH, ?string_app_nil. by rewrite string_app_assoc.
Qed.

Lemma string_rev_involutive s : string_rev (string_rev s) = s.
Proof.
  induction s as [|a s IH]; [done|]. change (String a s) with (String a "" +:+ s) at 1.
  by rewrite !string_rev_distr, IH.
Qed.

Lemma strip_suffix_str_Some suffix s t : strip_suffix_str suffix s = Some t ↔ s = t +:+ suffix.
Proof.
  unfold strip_suffix_str. split.
  - intros (r & Hr & ->)%fmap_Some. apply strip_prefix_Some in Hr.
    rewrite <-(string_rev_involutive s), Hr, string_rev_distr. by rewrite string_rev_involutive.
  - intros ->. rewrite string_rev_distr.
    rewrite (proj2 (strip_prefix_Some _ _ (string_rev t)) eq_refl). cbn.
    by rewrite string_rev_involutive.
Qed.
