(* ===== verification/Validation.v ===== *)
(** [src/src/validation.rs]: the path checks every other component relies on. *)
From stdpp Require Import base option strings list.
From S2P Require Import Prelude RustStr.

Inductive ValidationError :=
| CwdNotAbsolute
| PathNotRelative (field : string)
| PathHasParent (field : string)
| EmptyValue (field : string)
| CwdOutsideRoot (cwd root : string)
| InvalidPath (flag : string) (source : io_error).

Definition validate_relative_path (raw field : string) : result ValidationError string :=
  if is_blank raw then Err (EmptyValue field)
  else if is_absolute raw then Err (PathNotRelative field)
  else if has_parent_dir raw then Err (PathHasParent field)
  else Ok raw.

Definition validate_relative_pattern (pattern field : string) : result ValidationError unit :=
  if is_blank pattern then Err (EmptyValue field)
  else if is_absolute pattern then Err (PathNotRelative field)
  else if has_parent_dir pattern then Err (PathHasParent field)
  else Ok tt.

Section cwd.
(** [std::fs::canonicalize]: the file system resolves the path. *)
Context (canonicalize : string → result io_error string).

Definition validate_cwd (cwd allowed_root : string) : result ValidationError string :=
  if negb (is_absolute cwd) then Err CwdNotAbsolute
  else
    root ← map_err (InvalidPath "allowed_root") (canonicalize allowed_root);
    canonical_cwd ← map_err (InvalidPath "cwd") (canonicalize cwd);
    if negb (path_starts_with canonical_cwd root)
    then Err (CwdOutsideRoot canonical_cwd root)
    else Ok canonical_cwd.

(** An accepted working directory is absolute, and its canonical form lies beneath
    the canonical form of the allowed root. *)
Lemma validate_cwd_Ok cwd allowed_root p :
  validate_cwd cwd allowed_root = Ok p →
  is_absolute cwd = true ∧ canonicalize cwd = Ok p ∧
  ∃ root, canonicalize allowed_root = Ok root ∧ path_starts_with p root = true.
Proof.
  unfold validate_cwd. destruct (is_absolute cwd); [|done]. cbn.
  destruct (canonicalize allowed_root) as [root|]; [|done]. cbn.
  destruct (canonicalize cwd) as [c|]; [|done]. cbn.
  destruct (path_starts_with c root) eqn:Hp; [|done]. intros [= <-]. eauto.
Qed.
End cwd.

Lemma validate_relative_path_Ok raw field p :
  validate_relative_path raw field = Ok p ↔
  p = raw ∧ is_blank raw = false ∧ is_absolute raw = false ∧ has_parent_dir raw = false.
Proof.
  unfold validate_relative_path.
  destruct (is_blank raw), (is_absolute raw), (has_parent_dir raw); naive_solver.
Qed.

(** An accepted relative path, joined to any directory, names a path that is
    lexically beneath that directory: the joined path has the directory's
    components followed by ordinary names only (no [..] that could climb out). *)
Theorem relative_path_stays_beneath raw field p root :
  validate_relative_path raw field = Ok p → root ≠ "" →
  p = raw ∧ path_starts_with (path_join root p) root = true ∧
  ∃ names, components (path_join root p) = components root ++ (Normal <$> names).
Proof.
  intros (-> & _ & Ha & Hp)%validate_relative_path_Ok Hr.
  split; [done|]. split; [by apply path_join_starts_with|].
  rewrite components_join by done. apply parts_no_parent in Hp.
  induction (split slash raw ≫= classify) as [|c cs IH]; [by exists []|].
  apply Forall_cons_1 in Hp as [Hc Hcs]. destruct (IH Hcs) as [names Hn].
  destruct c as [| | |n]; try done. exists (n :: names).
  apply (inj (components root ++.)) in Hn. cbn. by rewrite Hn.
Qed.

Lemma relative_path_stays_beneath_witness :
  components (path_join "/srv/ws" "./src//lib") =
  components "/srv/ws" ++ (Normal <$> ["src"; "lib"]) ∧
  path_starts_with (path_join "/srv/ws" "./src//lib") "/srv/ws" = true.
Proof.
  split; [vm_compute; reflexivity|].
  apply (relative_path_stays_beneath "./src//lib" "cwd" "./src//lib" "/srv/ws");
    [vm_compute; reflexivity|discriminate].
Defined.
