(* ===== verification/Fs.v ===== *)
(** File metadata as the sources read it ([std::fs::Metadata], [libc::stat]). *)
From Stdlib Require Import Ascii.
From stdpp Require Import base option strings numbers list.
From S2P Require Import Prelude RustStr.

Local Open Scope N_scope.

Inductive file_kind := Regular | Directory | Symlink | Fifo | Socket | BlockDevice | CharDevice.

#[export] Instance file_kind_eq_dec : EqDecision file_kind.
Proof. solve_decision. Defined.

Record file_meta := FileMeta {
  fm_kind : file_kind;
  fm_uid : N;
  fm_gid : N;
  fm_mode : N;
  fm_len : N;
  fm_dev : N;
  fm_ino : N;
}.

#[export] Instance file_meta_eq_dec : EqDecision file_meta.
Proof. solve_decision. Defined.

Definition is_file (m : file_meta) : bool := bool_decide (fm_kind m = Regular).
Definition is_dir (m : file_meta) : bool := bool_decide (fm_kind m = Directory).
Definition is_symlink (m : file_meta) : bool := bool_decide (fm_kind m = Symlink).

(** [mode & bits != 0]. *)
Definition mode_has (mode bits : N) : bool := negb (N.land mode bits =? 0).

(** Octal permission masks. *)
Definition o077 : N := 63.
Definition o022 : N := 18.
Definition o002 : N := 2.
Definition o1000 : N := 512.
Definition o777 : N := 511.
Definition o700 : N := 448.
Definition o111 : N := 73.
Definition o170000 : N := 61440.
Definition o100000 : N := 32768.
Definition o040000 : N := 16384.
Definition o120000 : N := 40960.

Lemma is_file_true m : is_file m = true ↔ fm_kind m = Regular.
Proof. apply bool_decide_eq_true. Qed.
Lemma is_dir_true m : is_dir m = true ↔ fm_kind m = Directory.
Proof. apply bool_decide_eq_true. Qed.
Lemma mode_has_false mode bits : mode_has mode bits = false ↔ N.land mode bits = 0.
Proof. unfold mode_has. by rewrite negb_false_iff, N.eqb_eq. Qed.

(** * Archives as the [zip] crate presents them: a list of entries with the names,
    sizes and modes their headers declare, none of which can be trusted, and what
    reading their content returns. *)

(** An entry of the uploaded archive as the [zip] crate presents it; [ze_reads]
    is what successive reads of its content return. *)
Record zip_entry := {
  ze_name : string;
  ze_is_dir : bool;
  ze_is_symlink : bool;
  ze_unix_mode : option N;
  ze_size : N;
  ze_reads : list (result unit string);
}.

(** What reading an entry yields, up to the first empty read. *)
Fixpoint content (reads : list (result unit string)) : string :=
  match reads with
  | Ok chunk :: reads => if is_empty chunk then "" else chunk +:+ content reads
  | _ => ""
  end.

(** [entry.take(limit).read_to_end]. *)
Fixpoint read_limited (limit : nat) (reads : list (result unit string)) : result unit string :=
  match reads with
  | [] => Ok ""
  | Err e :: _ => if (limit =? 0)%nat then Ok "" else Err e
  | Ok chunk :: reads =>
      if is_empty chunk then Ok ""
      else if (limit <=? String.length chunk)%nat then Ok (String.substring 0 limit chunk)
      else rest ← read_limited (limit - String.length chunk) reads; Ok (chunk +:+ rest)
  end.

(** Every read of the entry's content succeeds. *)
Fixpoint readable (reads : list (result unit string)) : bool :=
  match reads with
  | [] => true
  | Err _ :: _ => false
  | Ok chunk :: reads => is_empty chunk || readable reads
  end.

(** * Numbers as bytes

    The archive formats of the examples are numbers, written as strings of bytes with
    seven bits each; in the last byte a one ends the bits. *)

Fixpoint pos_list (p : positive) : list bool :=
  match p with
  | xH => []
  | xO p => false :: pos_list p
  | xI p => true :: pos_list p
  end.
Fixpoint list_pos (l : list bool) : positive :=
  match l with
  | [] => xH
  | b :: l => (if b : bool then xI else xO) (list_pos l)
  end.

Fixpoint pack (l : list bool) : string :=
  match l with
  | a :: b :: c :: d :: e :: f :: g :: l => String (Ascii a b c d e f g true) (pack l)
  | [a; b; c; d; e; f] => String (Ascii a b c d e f true false) ""
  | [a; b; c; d; e] => String (Ascii a b c d e true false false) ""
  | [a; b; c; d] => String (Ascii a b c d true false false false) ""
  | [a; b; c] => String (Ascii a b c true false false false false) ""
  | [a; b] => String (Ascii a b true false false false false false) ""
  | [a] => String (Ascii a true false false false false false false) ""
  | [] => String (Ascii true false false false false false false false) ""
  end.
Definition unpack_byte (x : ascii) : list bool :=
  let '(Ascii a b c d e f g h) := x in
  if h then [a; b; c; d; e; f; g] else if g then [a; b; c; d; e; f] else if f then [a; b; c; d; e]
  else if e then [a; b; c; d] else if d then [a; b; c] else if c then [a; b] else if b then [a] else [].
Fixpoint unpack (s : string) : list bool :=
  match s with EmptyString => [] | String x s => unpack_byte x ++ unpack s end.

Definition pos_bits (p : positive) : string := pack (pos_list p).
Definition bits_pos (s : string) : positive := list_pos (unpack s).

Lemma list_pos_list p : list_pos (pos_list p) = p.
Proof. induction p as [p IH|p IH|]; cbn; by rewrite ?IH. Qed.

Lemma unpack_pack l : unpack (pack l) = l.
Proof.
  revert l. fix IH 1. intros [|a [|b [|c [|d [|e [|f [|g l]]]]]]]; try reflexivity.
  cbn. do 7 f_equal. apply IH.
Qed.

Lemma bits_pos_bits p : bits_pos (pos_bits p) = p.
Proof. unfold bits_pos, pos_bits. by rewrite unpack_pack, list_pos_list. Qed.
