(* ===== verification/Archive.v ===== *)
(** Extraction of an uploaded source archive into a fresh workspace
    ([build.rs]: [preflight_source_archive], [extract_source_archive_inner] and
    their helpers; [client_source.rs]: [validate_symlink_target]).

    The workspace is private to the daemon while it is filled, so it is a tree:
    what stands at each path relative to the destination.  Creating and opening
    follow symbolic links on the way; the tree operations report such a step as
    [Follows] instead of taking it, and no run after an accepted preflight
    reports one. *)
From Stdlib Require Import Ascii.
From stdpp Require Import base option strings numbers gmap fin_maps pretty list.
From S2P Require Import Prelude Effects RustStr Fs.

Local Open Scope N_scope.

(** A [BuildError] as [BuildError::new] makes it: no pattern and no phase. *)
Record BuildError := mkBuildError { be_code : string; be_message : string }.

Definition source_archive (message : string) : BuildError := mkBuildError "source_archive" message.

(** * Checks on one entry *)

Definition normalized_zip_path (name : string) (is_dir : bool) (max_depth : N) :
    result BuildError string :=
  _ ← reject_if (is_empty name || contains_byte "\" name || contains_byte nul name || negb (is_ascii name))
        (source_archive "zip entry had invalid path");
  let trimmed := if is_dir then trim_end_matches slash name else name in
  _ ← reject_if (is_empty trimmed ||
                 existsb (λ component, is_empty component || bool_decide (component = "."))
                   (split slash trimmed))
        (source_archive "zip entry had invalid path");
  _ ← reject_if (existsb (λ c, match c with RootDir | ParentDir => true | _ => false end)
                   (components trimmed))
        (source_archive "zip entry had invalid path");
  let depth := N.of_nat (length (split slash trimmed)) in
  _ ← reject_if (max_depth <? depth)
        (source_archive ("source path depth exceeds sources.max_depth (" +:+ pretty max_depth +:+ ")"));
  Ok trimmed.

Definition validate_zip_type (mode : option N) (is_dir is_symlink : bool) : result BuildError unit :=
  match mode with
  | None => reject_if is_symlink (source_archive "symlink entry is missing Unix mode")
  | Some mode =>
      let kind := N.land mode o170000 in
      let expected := if is_dir then o040000 else if is_symlink then o120000 else o100000 in
      reject_if (negb (kind =? 0) && negb (kind =? expected))
        (source_archive "zip entry has an unsupported special file type")
  end.

Definition MAX_SYMLINK_TARGET : N := 4096.

(** The loop over the target's components, with the depth reached. *)
Fixpoint target_depth (depth : nat) (cs : list component) : result io_error nat :=
  match cs with
  | [] => Ok depth
  | CurDir :: cs => target_depth depth cs
  | Normal _ :: cs => target_depth (S depth) cs
  | ParentDir :: cs =>
      match depth with
      | S depth => target_depth depth cs
      | O => Err (IoError InvalidData "symlink target escapes source root")
      end
  | RootDir :: _ => Err (IoError InvalidData "unsafe symlink target")
  end.

Definition validate_symlink_target (link_path target : string) : result io_error unit :=
  _ ← reject_if (is_empty target || (MAX_SYMLINK_TARGET <? len target) ||
                 contains_byte "\" target || contains_byte nul target || is_absolute target)
        (IoError InvalidData "unsafe symlink target");
  _ ← target_depth (length (split slash link_path) - 1) (components target);
  Ok tt.

(** * Preflight *)

Record preflight := {
  pf_exact : gset string;
  pf_folded : gset string;
  pf_files : gset string;
  pf_directories : gset string;
  pf_folded_files : gset string;
  pf_folded_directories : gset string;
  pf_declared_bytes : N;
  pf_entry_count : N;
}.

Definition preflight_start : preflight :=
  {| pf_exact := ∅; pf_folded := ∅; pf_files := ∅; pf_directories := ∅; pf_folded_files := ∅;
     pf_folded_directories := ∅; pf_declared_bytes := 0; pf_entry_count := 0 |}.

Definition collision : BuildError := source_archive "zip contains a file/directory path collision".

Definition add_directory (p : string) (s : preflight) : preflight :=
  {| pf_exact := pf_exact s; pf_folded := pf_folded s; pf_files := pf_files s;
     pf_directories := {[p]} ∪ pf_directories s;
     pf_folded_files := pf_folded_files s;
     pf_folded_directories := {[to_ascii_lowercase p]} ∪ pf_folded_directories s;
     pf_declared_bytes := pf_declared_bytes s; pf_entry_count := pf_entry_count s |}.

Definition add_file (p : string) (bytes : N) (s : preflight) : preflight :=
  {| pf_exact := pf_exact s; pf_folded := pf_folded s; pf_files := {[p]} ∪ pf_files s;
     pf_directories := pf_directories s;
     pf_folded_files := {[to_ascii_lowercase p]} ∪ pf_folded_files s;
     pf_folded_directories := pf_folded_directories s;
     pf_declared_bytes := bytes; pf_entry_count := pf_entry_count s |}.

Definition known_file (p : string) (s : preflight) : bool :=
  bool_decide (p ∈ pf_files s) || bool_decide (to_ascii_lowercase p ∈ pf_folded_files s).
Definition known_directory (p : string) (s : preflight) : bool :=
  bool_decide (p ∈ pf_directories s) || bool_decide (to_ascii_lowercase p ∈ pf_folded_directories s).

(** The loop over the components but the last, building each ancestor. *)
Fixpoint check_ancestors (ancestor : string) (comps : list string) (s : preflight) :
    result BuildError preflight :=
  match comps with
  | [] => Ok s
  | component :: comps =>
      let ancestor := (if is_empty ancestor then "" else ancestor +:+ "/") +:+ component in
      _ ← reject_if (known_file ancestor s) collision;
      check_ancestors ancestor comps (add_directory ancestor s)
  end.

(** The target of a symbolic link entry. *)
Definition preflight_target (normalized : string) (e : zip_entry) : result BuildError string :=
  target ← map_err (λ _, source_archive "read symlink target failed") (read_limited 4097 (ze_reads e));
  _ ← reject_if (MAX_SYMLINK_TARGET <? len target) (source_archive "symlink target exceeds 4096 bytes");
  target ← ok_or (from_utf8 target) (source_archive "symlink target is not UTF-8");
  _ ← map_err (λ err, source_archive (io_error_message err)) (validate_symlink_target normalized target);
  Ok target.

(** The session's cancellation flag and deadline: what the [k]-th check finds. *)
Definition guard := option (nat → option BuildError).

Definition check_guard (g : guard) (k : nat) : result BuildError unit :=
  match g with
  | Some f => match f k with Some e => Err e | None => Ok tt end
  | None => Ok tt
  end.

(** One iteration of the preflight loop, after its cancellation check. *)
Definition preflight_entry (max_uncompressed_bytes max_files max_depth : N) (s : preflight)
    (e : option zip_entry) : result BuildError preflight :=
  e ← ok_or e (source_archive "failed to read zip entry");
  let entry_count := saturating_add (pf_entry_count s) 1 in
  _ ← reject_if (max_files <? entry_count)
        (source_archive ("source entry count exceeds sources.max_files (" +:+ pretty max_files +:+ ")"));
  normalized ← normalized_zip_path (ze_name e) (ze_is_dir e) max_depth;
  _ ← validate_zip_type (ze_unix_mode e) (ze_is_dir e) (ze_is_symlink e);
  _ ← reject_if (bool_decide (normalized ∈ pf_exact s) ||
                 bool_decide (to_ascii_lowercase normalized ∈ pf_folded s))
        (source_archive "zip contains duplicate or case-colliding paths");
  let s := {| pf_exact := {[normalized]} ∪ pf_exact s;
              pf_folded := {[to_ascii_lowercase normalized]} ∪ pf_folded s;
              pf_files := pf_files s; pf_directories := pf_directories s;
              pf_folded_files := pf_folded_files s; pf_folded_directories := pf_folded_directories s;
              pf_declared_bytes := pf_declared_bytes s; pf_entry_count := entry_count |} in
  s ← check_ancestors "" (removelast (split slash normalized)) s;
  if ze_is_dir e then
    _ ← reject_if (known_file normalized s) collision;
    Ok (add_directory normalized s)
  else
    _ ← reject_if (known_directory normalized s) collision;
    bytes ← (if ze_is_symlink e then
               target ← preflight_target normalized e;
               Ok (saturating_add (pf_declared_bytes s) (len target))
             else Ok (saturating_add (pf_declared_bytes s) (ze_size e)));
    let s := add_file normalized bytes s in
    _ ← reject_if (max_uncompressed_bytes <? bytes)
          (source_archive ("declared size exceeds sources.max_uncompressed_bytes (" +:+
                           pretty max_uncompressed_bytes +:+ " bytes)"));
    Ok s.

(** [archive] is what [ZipArchive::new] makes of the file; the [k]-th entry is
    preceded by the [k]-th check of the guard. *)
Definition preflight_source_archive (archive : option (list (option zip_entry)))
    (max_uncompressed_bytes max_files max_depth : N) (g : guard) (checks : nat) :
    result BuildError preflight :=
  entries ← ok_or archive (source_archive "failed to read source archive");
  fold_each (λ s '(k, e),
      _ ← check_guard g (checks + k);
      preflight_entry max_uncompressed_bytes max_files max_depth s e)
    preflight_start (imap pair entries).

(** * The tree being filled *)

(** What stands at a path; a mode that was not set is the process's default. *)
Inductive tnode :=
| TDir (mode : option N)
| TFile (data : string) (mode : option N)
| TLink (target : string).

#[export] Instance tnode_eq_dec : EqDecision tnode.
Proof. solve_decision. Defined.

(** Keyed by the components below the destination, which itself exists. *)
Abbreviation tree := (gmap (list string) tnode).

Inductive tree_error := Missing | Exists | NotDir | Fault | Follows.

(** What stands at a prefix of a path: the destination, nothing, a directory to
    go on in, or something else. *)
Definition enter (t : tree) (p : list string) : result tree_error bool :=
  match p with
  | [] => Ok true
  | _ => match t !! p with
         | None => Ok false
         | Some (TDir _) => Ok true
         | Some (TFile _ _) => Err NotDir
         | Some (TLink _) => Err Follows
         end
  end.

(** [create_dir_all], prefix by prefix. *)
Fixpoint mkdirs (t : tree) (done rest : list string) : result tree_error tree :=
  match rest with
  | [] => Ok t
  | c :: rest =>
      let p := done ++ [c] in
      b ← enter t p;
      mkdirs (if b : bool then t else <[p := TDir None]> t) p rest
  end.

(** The directories of a path must all be there. *)
Fixpoint walk_dirs (t : tree) (done rest : list string) : result tree_error unit :=
  match rest with
  | [] => Ok tt
  | c :: rest =>
      b ← enter t (done ++ [c]);
      _ ← reject_if (negb b) Missing;
      walk_dirs t (done ++ [c]) rest
  end.

(** [O_CREAT | O_EXCL] and [symlink]. *)
Definition create_node (p : list string) (n : tnode) (t : tree) : result tree_error tree :=
  _ ← walk_dirs t [] (removelast p);
  match t !! p with
  | Some _ => Err Exists
  | None => Ok (<[p := n]> t)
  end.

(** Writing to the open file at [p]. *)
Definition append_node (p : list string) (bytes : string) (t : tree) : result tree_error tree :=
  Ok (alter (λ n, match n with TFile d m => TFile (d +:+ bytes) m | n => n end) p t).

(** [set_permissions], which follows a link at [p]. *)
Definition chmod_node (p : list string) (mode : N) (t : tree) : result tree_error tree :=
  match t !! p with
  | None => Err Missing
  | Some (TLink _) => Err Follows
  | Some (TDir _) => Ok (<[p := TDir (Some mode)]> t)
  | Some (TFile d _) => Ok (<[p := TFile d (Some mode)]> t)
  end.

(** * Extraction *)

Record xstate := mkX { xs_tree : tree; xs_calls : nat; xs_checks : nat; xs_bytes : N }.

(** [XFollows] stands for whatever the kernel does with a symbolic link on the
    way. *)
Inductive xerror := XError (e : BuildError) | XFollows.

Section extraction.
(** The calls that fail, and the guard's answers. *)
Context (faults : nat → bool) (g : guard).

Definition tree_call (message : string) (f : tree → result tree_error tree) : eff xstate xerror unit := λ x,
  if faults (xs_calls x)
  then (mkX (xs_tree x) (S (xs_calls x)) (xs_checks x) (xs_bytes x), Err (XError (source_archive message)))
  else match f (xs_tree x) with
       | Ok t => (mkX t (S (xs_calls x)) (xs_checks x) (xs_bytes x), Ok tt)
       | Err Follows => (x, Err XFollows)
       | Err _ => (mkX (xs_tree x) (S (xs_calls x)) (xs_checks x) (xs_bytes x),
                   Err (XError (source_archive message)))
       end.

Definition check_optional_initialization_cancel : eff xstate xerror unit := λ x,
  (mkX (xs_tree x) (xs_calls x) (S (xs_checks x)) (xs_bytes x),
   map_err XError (check_guard g (xs_checks x))).

(** [extracted_bytes += n], checked against the limit. *)
Definition count_bytes (max : N) (message : string) (n : N) : eff xstate xerror unit := λ x,
  let bytes := saturating_add (xs_bytes x) n in
  (mkX (xs_tree x) (xs_calls x) (xs_checks x) bytes,
   reject_if (max <? bytes) (XError (source_archive message))).

Definition lift_build {A} (r : result BuildError A) : eff xstate xerror A := io_lift (map_err XError r).

(** The loop that copies a regular entry. *)
Fixpoint copy_loop (max : N) (p : list string) (reads : list (result unit string)) :
    eff xstate xerror unit :=
  _ ← check_optional_initialization_cancel;
  match reads with
  | [] => mret tt
  | Err _ :: _ => io_fail (XError (source_archive "read zip entry failed"))
  | Ok chunk :: reads =>
      if is_empty chunk then mret tt
      else
        _ ← count_bytes max ("extracted size exceeds sources.max_uncompressed_bytes (" +:+
                             pretty max +:+ " bytes)") (len chunk);
        _ ← tree_call "write file failed" (append_node p chunk);
        copy_loop max p reads
  end.

Definition set_entry_mode (p : list string) (e : zip_entry) : eff xstate xerror unit :=
  match ze_unix_mode e with
  | Some mode => tree_call "set permissions failed" (chmod_node p (N.land mode o777))
  | None => mret tt
  end.

(** A symbolic link entry. *)
Definition extract_link (max : N) (normalized : string) (p : list string) (e : zip_entry) :
    eff xstate xerror unit :=
  target ← lift_build (map_err (λ _, source_archive "read symlink target failed")
                         (read_limited 4097 (ze_reads e)));
  _ ← count_bytes max "extracted size exceeds sources.max_uncompressed_bytes" (len target);
  target ← lift_build (ok_or (from_utf8 target) (source_archive "symlink target is not UTF-8"));
  _ ← lift_build (map_err (λ err, source_archive (io_error_message err))
                    (validate_symlink_target normalized target));
  tree_call "create symlink failed" (create_node p (TLink target)).

(** One iteration of the extraction loop. *)
Definition extract_entry (max max_depth : N) (e : option zip_entry) : eff xstate xerror unit :=
  _ ← check_optional_initialization_cancel;
  e ← option_expect e (XError (source_archive "failed to read zip entry"));
  normalized ← lift_build (normalized_zip_path (ze_name e) (ze_is_dir e) max_depth);
  let p := split slash normalized in
  if ze_is_dir e then
    _ ← tree_call "mkdir failed" (λ t, mkdirs t [] p);
    set_entry_mode p e
  else
    _ ← tree_call "mkdir failed" (λ t, mkdirs t [] (removelast p));
    if ze_is_symlink e then extract_link max normalized p e
    else
      _ ← tree_call "create file failed" (create_node p (TFile "" None));
      _ ← copy_loop max p (ze_reads e);
      set_entry_mode p e.

Definition extract_source_archive_inner (archive : option (list (option zip_entry)))
    (max_uncompressed_bytes max_files max_depth : N) : eff xstate xerror unit :=
  _ ← check_optional_initialization_cancel;
  _ ← (λ x, (mkX (xs_tree x) (xs_calls x)
               (xs_checks x + from_option length 0%nat archive) (xs_bytes x),
             map_err XError (preflight_source_archive archive max_uncompressed_bytes max_files
                               max_depth g (xs_checks x))));
  entries ← option_expect archive (XError (source_archive "failed to read source archive"));
  io_each (extract_entry max_uncompressed_bytes max_depth) entries.
End extraction.

(** A fresh, empty destination. *)
Definition fresh_destination : xstate := mkX ∅ 0 0 0.

(** * What the preflight of a source archive accepts: plain relative paths that
    neither collide nor pass through one another's files. *)

(** * Names and joins *)

(** A component that can stand in a path. *)
Definition plain (c : string) : Prop := c ≠ "" ∧ contains_byte slash c = false.

Lemma join_snoc l c : l ≠ [] → join slash (l ++ [c]) = (join slash l +:+ "/") +:+ c.
Proof.
  induction l as [|x [|y l] IH]; intros; [done|cbn; by rewrite string_app_assoc|].
  change ((x :: y :: l) ++ [c]) with (x :: ((y :: l) ++ [c])).
  change (join slash (x :: ((y :: l) ++ [c]))) with (x +:+ String slash (join slash ((y :: l) ++ [c]))).
  rewrite IH by done. change (join slash (x :: y :: l)) with (x +:+ String slash (join slash (y :: l))).
  by rewrite !string_app_assoc, string_app_cons.
Qed.

Lemma join_nonempty l : Forall plain l → l ≠ [] → is_empty (join slash l) = false.
Proof.
  intros [|x l' [Hx _] _]; [done|]. intros _. destruct l'; cbn; by destruct x.
Qed.

(** The nonempty prefixes [done ++ take k rest]. *)
Fixpoint prefixes (done rest : list string) : list (list string) :=
  match rest with
  | [] => []
  | c :: rest => (done ++ [c]) :: prefixes (done ++ [c]) rest
  end.

Lemma elem_of_prefixes done rest q :
  q ∈ prefixes done rest ↔ ∃ k, (k < length rest)%nat ∧ q = done ++ take (S k) rest.
Proof.
  revert done. induction rest as [|c rest IH]; intros dn; cbn.
  - rewrite elem_of_nil. split; [done|]. intros (k & ? & _). lia.
  - rewrite elem_of_cons, IH. split.
    + intros [->|(k & Hk & ->)]; [exists O; split; [lia|done]|].
      exists (S k). split; [lia|]. by rewrite <-(assoc (++)).
    + intros ([|k] & Hk & ->); [by left|right]. exists k. split; [lia|].
      by rewrite <-(assoc (++)).
Qed.

(** The paths above [p], as strings. *)
Definition ancestors_of (p : string) : list string :=
  join slash <$> prefixes [] (removelast (split slash p)).

(** [q] is a proper, nonempty prefix of [p]. *)
Definition above (q p : list string) : Prop := q ≠ [] ∧ q ≠ p ∧ q `prefix_of` p.

Lemma above_prefixes q p : above q p ↔ q ∈ prefixes [] (removelast p).
Proof.
  rewrite elem_of_prefixes. unfold above. split.
  - intros (Hne & Hnp & k & ->). destruct q as [|x q]; [done|].
    destruct k as [|y k] using rev_ind; [by rewrite app_nil_r in Hnp|].
    exists (length q).
    assert (removelast ((x :: q) ++ k ++ [y]) = (x :: q) ++ k) as ->
      by (rewrite (assoc (++)); apply removelast_last).
    rewrite length_app. split; [cbn; lia|].
    rewrite app_nil_l. change (S (length q)) with (length (x :: q)). by rewrite take_app_length.
  - intros (k & Hk & ->). rewrite app_nil_l. destruct p as [|x p]; [cbn in Hk; lia|].
    destruct (exists_last (l := x :: p)) as (p' & y & Hp); [done|]. rewrite Hp in *.
    rewrite removelast_last in *. split_and!.
    + destruct p'; cbn in *; [lia|done].
    + intros Heq. apply (f_equal length) in Heq. rewrite length_take, length_app in Heq. cbn [length] in Heq. lia.
    + eexists (drop (S k) p' ++ [y]). by rewrite (assoc (++)), take_drop.
Qed.

Lemma prefixes_self q p : p ≠ [] → q ∈ prefixes [] p ↔ q = p ∨ above q p.
Proof.
  intros Hp. rewrite elem_of_prefixes. split.
  - intros (k & Hk & ->). rewrite app_nil_l. destruct (decide (S k = length p)) as [->|Hne].
    + left. by rewrite firstn_all.
    + right. split_and!.
      * destruct p; [done|]. done.
      * intros Heq. apply (f_equal length) in Heq. rewrite length_take in Heq. lia.
      * exists (drop (S k) p). by rewrite take_drop.
  - intros [->|(Hq & _ & k & ->)].
    + exists (length p - 1)%nat. destruct p as [|x p]; [done|]. cbn [length]. split; [lia|].
      rewrite app_nil_l. replace (S (S (length p) - 1)) with (length (x :: p)) by (cbn; lia).
      by rewrite firstn_all.
    + exists (length q - 1)%nat. destruct q as [|x q]; [done|]. rewrite length_app. cbn [length].
      split; [lia|]. rewrite app_nil_l.
      replace (S (S (length q) - 1)) with (length (x :: q)) by (cbn; lia). by rewrite take_app_length.
Qed.

(** * Paths *)

Lemma existsb_false_Forall {A} (p : A → bool) l : existsb p l = false → Forall (λ x, p x = false) l.
Proof. induction l as [|x l IH]; cbn; [done|]. intros [? ?]%orb_false_iff. constructor; auto. Qed.

(** An accepted name is a chain of ordinary names, at most [max_depth] of them. *)
Lemma normalized_zip_path_Ok name is_dir max_depth p :
  normalized_zip_path name is_dir max_depth = Ok p →
  p = (if is_dir then trim_end_matches slash name else name) ∧
  Forall (λ c, plain c ∧ c ≠ "." ∧ c ≠ "..") (split slash p) ∧
  N.of_nat (length (split slash p)) ≤ max_depth.
Proof.
  unfold normalized_zip_path. intros Hn. unbind Hn. injection Hn as <-.
  set (t := if is_dir then _ else _) in *. apply N.ltb_ge in E2. split_and!; [done| |done].
  apply orb_false_iff in E0 as [_ E0]. apply existsb_false_Forall in E0. apply existsb_false_Forall in E1.
  pose proof (split_no_sep slash t) as Hs. unfold components in E1.
  apply Forall_app in E1 as [_ E1]. rewrite !Forall_forall in *. intros c Hc.
  specialize (E0 c Hc). apply orb_false_iff in E0 as [He Hdot]. breflect.
  split; [split; [by intros ->|by apply Hs]|]. split; [done|]. intros ->.
  specialize (E1 ParentDir). cbn in E1. discriminate E1. apply list_elem_of_bind.
  exists "..". split; [|done]. cbn. set_solver.
Qed.

(** * The collision sets *)

Abbreviation item := (zip_entry * string)%type.

(** The state after the entries [dn], each with its normalized path. *)
Record Seen (dn : list item) (s : preflight) : Prop := {
  sn_folded : ∀ x, x ∈ pf_folded s ↔ x ∈ to_ascii_lowercase ∘ snd <$> dn;
  sn_files : ∀ i, i ∈ dn → ze_is_dir i.1 = false → to_ascii_lowercase i.2 ∈ pf_folded_files s;
  sn_directories : ∀ i a, i ∈ dn → a ∈ ancestors_of i.2 →
    to_ascii_lowercase a ∈ pf_folded_directories s;
}.

Lemma known_file_false p s : known_file p s = false → to_ascii_lowercase p ∉ pf_folded_files s.
Proof. unfold known_file. intros [_ ?]%orb_false_iff. by breflect. Qed.
Lemma known_directory_false p s :
  known_directory p s = false → to_ascii_lowercase p ∉ pf_folded_directories s.
Proof. unfold known_directory. intros [_ ?]%orb_false_iff. by breflect. Qed.

(** What the ancestor loop checks and records. *)
Lemma check_ancestors_spec comps : ∀ done s s',
  Forall plain done → Forall plain comps →
  check_ancestors (join slash done) comps s = Ok s' →
  (∀ q, q ∈ prefixes done comps → to_ascii_lowercase (join slash q) ∉ pf_folded_files s) ∧
  pf_folded s' = pf_folded s ∧ pf_folded_files s' = pf_folded_files s ∧
  pf_declared_bytes s' = pf_declared_bytes s ∧ pf_entry_count s' = pf_entry_count s ∧
  (∀ x, x ∈ pf_folded_directories s' ↔
    x ∈ pf_folded_directories s ∨ ∃ q, q ∈ prefixes done comps ∧ x = to_ascii_lowercase (join slash q)).
Proof.
  induction comps as [|c comps IH]; intros dn s s' Hd Hc; cbn [check_ancestors prefixes].
  { intros [= <-]. split_and!; try done; set_solver. }
  apply Forall_cons in Hc as [Hc Hcs].
  assert ((if is_empty (join slash dn) then "" else join slash dn +:+ "/") +:+ c =
          join slash (dn ++ [c])) as ->.
  { destruct (decide (dn = [])) as [->|Hne]; [done|]. by rewrite join_nonempty, join_snoc by done. }
  intros Hck. destruct (known_file _ s) eqn:Ek; [done|]. cbn in Hck. apply known_file_false in Ek.
  apply IH in Hck as (H1 & H2 & H3 & H4 & H5 & H6); [|by apply Forall_app; split; [|constructor]|done].
  cbn in *. split_and!; try done.
  - intros q [->|Hq]%elem_of_cons; [done|by apply H1].
  - intros x. rewrite H6. cbn. set_solver.
Qed.

(** The bytes an entry declares: a link its target, a file its size. *)
Definition link_target (e : zip_entry) : string :=
  match read_limited 4097 (ze_reads e) with Ok t => t | Err _ => "" end.
Definition declared_of (e : zip_entry) : N :=
  if ze_is_dir e then 0 else if ze_is_symlink e then len (link_target e) else ze_size e.
Definition item_sum (f : zip_entry → N) (items : list item) : N :=
  foldr N.add 0 (f ∘ fst <$> items).

Lemma item_sum_snoc f items i : item_sum f (items ++ [i]) = item_sum f items + f i.1.
Proof.
  unfold item_sum. rewrite fmap_app, foldr_app. cbn. generalize (f i.1). intros n.
  induction (f ∘ fst <$> items) as [|x l IH]; cbn; lia.
Qed.

(** What the preflight guarantees of the entries, each with its path. *)
Record accepted (max max_files max_depth : N) (items : list item) : Prop := {
  ac_paths : Forall (λ i, normalized_zip_path (ze_name i.1) (ze_is_dir i.1) max_depth = Ok i.2) items;
  ac_types : Forall (λ i, validate_zip_type (ze_unix_mode i.1) (ze_is_dir i.1) (ze_is_symlink i.1) = Ok tt)
    items;
  ac_nodup : NoDup (to_ascii_lowercase ∘ snd <$> items);
  ac_apart : ∀ i j, i ∈ items → j ∈ items → ze_is_dir i.1 = false →
    to_ascii_lowercase i.2 ∉ to_ascii_lowercase <$> ancestors_of j.2;
  ac_links : ∀ i, i ∈ items → ze_is_dir i.1 = false → ze_is_symlink i.1 = true →
    preflight_target i.2 i.1 = Ok (link_target i.1);
  ac_count : max_files < u64_max → N.of_nat (length items) ≤ max_files;
  ac_bytes : max < u64_max → item_sum declared_of items ≤ max;
}.

Lemma preflight_target_Ok p e t : preflight_target p e = Ok t → t = link_target e.
Proof.
  unfold preflight_target, link_target. intros Ht. unbind Ht. injection Ht as <-.
  destruct (read_limited _ _); [|done]. injection E as ->. unfold from_utf8 in E1.
  destruct (utf8_valid x); by simplify_eq.
Qed.

(** The state after the entry, from the state before. *)
Record Preflighted (max max_files max_depth : N) (items : list item) (s : preflight) : Prop := {
  pd_accepted : accepted max max_files max_depth items;
  pd_seen : Seen items s;
  pd_bytes : max < u64_max → pf_declared_bytes s = item_sum declared_of items;
  pd_count : max_files < u64_max → pf_entry_count s = N.of_nat (length items);
}.

(** The invariant extended by an entry that passed every check. *)
Lemma Preflighted_add max max_files max_depth items s s1 e p :
  Preflighted max max_files max_depth items s →
  normalized_zip_path (ze_name e) (ze_is_dir e) max_depth = Ok p →
  validate_zip_type (ze_unix_mode e) (ze_is_dir e) (ze_is_symlink e) = Ok tt →
  to_ascii_lowercase p ∉ pf_folded s →
  (∀ a, a ∈ ancestors_of p → to_ascii_lowercase a ∉ pf_folded_files s) →
  (ze_is_dir e = false → ¬ (to_ascii_lowercase p ∈ pf_folded_directories s) ∧
     ¬ (to_ascii_lowercase p ∈ to_ascii_lowercase <$> ancestors_of p)) →
  (ze_is_dir e = false → ze_is_symlink e = true → preflight_target p e = Ok (link_target e)) →
  (max_files < u64_max → N.of_nat (S (length items)) ≤ max_files) →
  (max < u64_max → item_sum declared_of items + declared_of e ≤ max) →
  Seen (items ++ [(e, p)]) s1 →
  (max < u64_max → pf_declared_bytes s1 = item_sum declared_of items + declared_of e) →
  (max_files < u64_max → pf_entry_count s1 = N.of_nat (S (length items))) →
  Preflighted max max_files max_depth (items ++ [(e, p)]) s1.
Proof.
  intros [HA HS _ _] Hp Ht Hnew Hanc Hfile Hlink Hcnt Hbytes HS1 Hb1 Hc1.
  split; [|done|intros Hu; rewrite item_sum_snoc; auto|intros Hu; rewrite length_app, Nat.add_comm; auto].
  destruct HA as [A1 A2 A3 A4 A5 A6 A7], HS as [S1 S2 S3]. split.
  - apply Forall_app. split; [done|by constructor].
  - apply Forall_app. split; [done|by constructor].
  - rewrite fmap_app. apply NoDup_app. split_and!; [done| |apply NoDup_singleton].
    intros x Hx%S1 Hin. cbn in Hin. apply list_elem_of_singleton in Hin as ->. done.
  - intros i j [Hi|Hi]%elem_of_app [Hj|Hj]%elem_of_app Hd;
      try (apply list_elem_of_singleton in Hi as ->); try (apply list_elem_of_singleton in Hj as ->);
      cbn in *.
    + by apply A4.
    + intros (a & Heq & Ha)%list_elem_of_fmap. apply (Hanc a Ha). rewrite <-Heq. by apply S2.
    + intros (a & Heq & Ha)%list_elem_of_fmap. destruct (Hfile Hd) as [Hno _]. apply Hno.
      rewrite Heq. by apply (S3 j).
    + by destruct (Hfile Hd).
  - intros i [Hi|Hi]%elem_of_app; [by apply A5|]. by apply list_elem_of_singleton in Hi as ->.
  - intros Hu. rewrite length_app, Nat.add_comm. auto.
  - intros Hu. rewrite item_sum_snoc. auto.
Qed.

Lemma elem_of_ancestors p x :
  x ∈ to_ascii_lowercase <$> ancestors_of p ↔
  ∃ q, q ∈ prefixes [] (removelast (split slash p)) ∧ x = to_ascii_lowercase (join slash q).
Proof.
  rewrite list_elem_of_fmap. unfold ancestors_of. split.
  - intros (a & -> & (q & -> & Hq)%list_elem_of_fmap). eauto.
  - intros (q & Hq & ->). eexists. split; [done|]. apply list_elem_of_fmap. eauto.
Qed.

Lemma Seen_add items s s1 e p :
  Seen items s →
  pf_folded s1 = {[to_ascii_lowercase p]} ∪ pf_folded s →
  pf_folded_files s ⊆ pf_folded_files s1 →
  (ze_is_dir e = false → to_ascii_lowercase p ∈ pf_folded_files s1) →
  pf_folded_directories s ⊆ pf_folded_directories s1 →
  (∀ a, a ∈ ancestors_of p → to_ascii_lowercase a ∈ pf_folded_directories s1) →
  Seen (items ++ [(e, p)]) s1.
Proof.
  intros [S1 S2 S3] Hf Hfs Hp Hds Ha. split.
  - intros x. rewrite Hf, elem_of_union, elem_of_singleton, S1, fmap_app, elem_of_app. cbn.
    rewrite list_elem_of_singleton. naive_solver.
  - intros i [Hi|Hi]%elem_of_app Hd; [by apply Hfs, S2|]. apply list_elem_of_singleton in Hi as ->. auto.
  - intros i a [Hi|Hi]%elem_of_app Hin; [by apply Hds, (S3 i)|].
    apply list_elem_of_singleton in Hi as ->. auto.
Qed.

Lemma preflight_entry_spec max max_files max_depth items s oe s' :
  Preflighted max max_files max_depth items s →
  preflight_entry max max_files max_depth s oe = Ok s' →
  ∃ e p, oe = Some e ∧ Preflighted max max_files max_depth (items ++ [(e, p)]) s'.
Proof.
  intros HP. pose proof HP as [HA HS HB HC]. unfold preflight_entry. intros Hrun.
  destruct oe as [e|]; [|done]. cbn in Hrun. unbind Hrun. destruct x1.
  rename x0 into p, x3 into s1. exists e, p. split; [done|].
  apply orb_false_iff in E2 as [_ Hnew%bool_decide_eq_false]. apply N.ltb_ge in E.
  assert (max_files < u64_max → saturating_add (pf_entry_count s) 1 = N.of_nat (S (length items)) ∧
    N.of_nat (S (length items)) ≤ max_files) as Hcnt.
  { intros Hu. rewrite (HC Hu) in *. unfold saturating_add in *. lia. }
  assert (Forall plain (removelast (split slash p))) as Hpl.
  { destruct (normalized_zip_path_Ok _ _ _ _ E0) as (_ & Hpl & _).
    apply (Forall_impl _ plain) in Hpl; [|by intros c (? & _)]. clear -Hpl.
    induction Hpl as [|c [|c' l] ? ? IH]; [done|done|]. by constructor. }
  apply (check_ancestors_spec _ []) in E3 as (H1 & H2 & H3 & H4 & H5 & H6); [|done|done]. cbn in *.
  assert (∀ a, a ∈ ancestors_of p → to_ascii_lowercase a ∉ pf_folded_files s) as Hanc.
  { intros a (q & -> & Hq)%list_elem_of_fmap. by apply H1. }
  assert (∀ a, a ∈ ancestors_of p → to_ascii_lowercase a ∈ pf_folded_directories s1) as Hdirs.
  { intros a (q & -> & Hq)%list_elem_of_fmap. apply H6. eauto. }
  assert (pf_folded_directories s ⊆ pf_folded_directories s1) as Hds by (intros x' ?; apply H6; auto).
  destruct (ze_is_dir e) eqn:Ed.
  - unbind Hrun. injection Hrun as <-. eapply Preflighted_add; try done; cbn.
    + rewrite Ed. done.
    + by rewrite Ed.
    + by rewrite Ed.
    + by rewrite Ed.
    + intros Hu. apply Hcnt, Hu.
    + intros Hu. unfold declared_of. rewrite Ed, N.add_0_r. by apply (ac_bytes _ _ _ _ HA).
    + eapply Seen_add; try done; cbn; [by rewrite H3|by rewrite Ed|set_solver|set_solver].
    + intros Hu. unfold declared_of. rewrite Ed, N.add_0_r, H4. auto.
    + intros Hu. rewrite H5. apply Hcnt, Hu.
  - unbind Hrun. injection Hrun as <-. apply known_directory_false in E2. apply N.ltb_ge in E4.
    assert (x1 = saturating_add (pf_declared_bytes s) (declared_of e) ∧
      (ze_is_symlink e = true → preflight_target p e = Ok (link_target e))) as [-> Hlink].
    { unfold declared_of. rewrite Ed. destruct (ze_is_symlink e).
      - unbind E3. injection E3 as <-. pose proof (preflight_target_Ok _ _ _ E5) as ->. by rewrite H4.
      - injection E3 as <-. by rewrite H4. }
    assert (max < u64_max → item_sum declared_of items + declared_of e ≤ max ∧
      saturating_add (pf_declared_bytes s) (declared_of e) = item_sum declared_of items + declared_of e) as Hb.
    { intros Hu. rewrite <-(HB Hu). unfold saturating_add in *. lia. }
    eapply Preflighted_add; try done; cbn.
    + by rewrite Ed.
    + by rewrite Ed.
    + intros _. split; [by intros ?%Hds|]. intros Hin. apply E2, H6. right. by apply elem_of_ancestors.
    + intros Hu. apply Hcnt, Hu.
    + intros Hu. apply Hb, Hu.
    + eapply Seen_add; try done; cbn; [rewrite H3; set_solver|set_solver].
    + intros Hu. apply Hb, Hu.
    + intros Hu. rewrite H5. apply Hcnt, Hu.
Qed.

Lemma accepted_nil max max_files max_depth : accepted max max_files max_depth [].
Proof.
  split; [constructor|constructor|constructor|..].
  - intros i j Hi. by apply not_elem_of_nil in Hi.
  - intros i Hi. by apply not_elem_of_nil in Hi.
  - intros _. cbn. lia.
  - intros _. unfold item_sum. cbn. lia.
Qed.

(** The preflight accepts only entries with the guarantees of [accepted]. *)
Lemma preflight_source_archive_spec archive max max_files max_depth g checks s :
  preflight_source_archive archive max max_files max_depth g checks = Ok s →
  ∃ items, archive = Some (Some <$> items.*1) ∧ accepted max max_files max_depth items.
Proof.
  unfold preflight_source_archive. destruct archive as [entries|]; [|done]. cbn. intros Hf.
  apply (fold_each_inv (λ s dn, ∃ items, dn.*2 = Some <$> items.*1 ∧
    Preflighted max max_files max_depth items s) _) with (done := []) in Hf as (items & Hi & HP).
  - exists items. split; [|apply (pd_accepted _ _ _ _ _ HP)]. f_equal. rewrite <-Hi. cbn.
    symmetry. apply list_eq. intros i. rewrite list_lookup_fmap, list_lookup_imap. by destruct (entries !! i).
  - intros s1 dn [k oe] s2 (items & Hdn & HP) Hrun. apply bind_Ok in Hrun as (_ & _ & Hrun).
    apply (preflight_entry_spec _ _ _ _ _ _ _ HP) in Hrun as (e & p & -> & HP').
    exists (items ++ [(e, p)]). split; [|done]. by rewrite !fmap_app, Hdn.
  - exists []. split; [done|]. split; [apply accepted_nil| |done|done]. split; cbn; try set_solver.
Qed.

(** * Consequences *)

Section consequences.
Context (max max_files max_depth : N) (items : list item).
Context (HA : accepted max max_files max_depth items).

Definition comps_of (i : item) : list string := split slash i.2.

Lemma item_plain i : i ∈ items → Forall (λ c, plain c ∧ c ≠ "." ∧ c ≠ "..") (comps_of i).
Proof.
  intros Hi. destruct HA as [Hp _ _ _ _ _ _]. rewrite Forall_forall in Hp.
  by destruct (normalized_zip_path_Ok _ _ _ _ (Hp i Hi)) as (_ & ? & _).
Qed.

(** No file or link stands above another entry. *)
Lemma items_apart i j :
  i ∈ items → j ∈ items → ze_is_dir i.1 = false → ¬ above (comps_of i) (comps_of j).
Proof.
  intros Hi Hj Hd Hab%above_prefixes. apply (ac_apart _ _ _ _ HA i j Hi Hj Hd).
  apply elem_of_ancestors. eexists. split; [exact Hab|]. unfold comps_of. by rewrite join_split.
Qed.

(** Entries are told apart by their components. *)
Lemma items_distinct i j a b :
  items !! a = Some i → items !! b = Some j → comps_of i = comps_of j → a = b.
Proof.
  intros Ha Hb Heq. apply (f_equal (join slash)) in Heq. unfold comps_of in Heq.
  rewrite !join_split in Heq.
  eapply (NoDup_lookup _ a b (to_ascii_lowercase i.2) (ac_nodup _ _ _ _ HA)).
  - by rewrite list_lookup_fmap, Ha.
  - rewrite list_lookup_fmap, Hb. cbn. by rewrite Heq.
Qed.
End consequences.
