(* ===== verification/ArchiveExtract.v ===== *)
(** Extraction after an accepted preflight: the workspace is exactly the archive,
    and no step follows a symbolic link. *)
From Stdlib Require Import Ascii.
From stdpp Require Import base option strings numbers gmap fin_maps pretty list.
From S2P Require Import Prelude Effects RustStr Fs Archive.

Local Open Scope N_scope.

(** * The tree an archive describes *)

Definition entry_mode (e : zip_entry) : option N := (λ m, N.land m o777) <$> ze_unix_mode e.

Definition node_of (e : zip_entry) : tnode :=
  if ze_is_dir e then TDir (entry_mode e)
  else if ze_is_symlink e then TLink (link_target e)
  else TFile (content (ze_reads e)) (entry_mode e).

#[export] Instance above_dec q p : Decision (above q p).
Proof. unfold above. apply _. Defined.

(** What stands at a path: the entry of that path, or a directory above one. *)
Definition described (items : list item) (c : list string) : option tnode :=
  match find (λ i, bool_decide (comps_of i = c)) items with
  | Some i => Some (node_of i.1)
  | None => if existsb (λ i, bool_decide (above c (comps_of i))) items then Some (TDir None) else None
  end.

(** The bytes an entry puts into the workspace. *)
Definition extracted_of (e : zip_entry) : N :=
  if ze_is_dir e then 0 else if ze_is_symlink e then len (link_target e) else len (content (ze_reads e)).

Lemma find_app {A} (p : A → bool) l k :
  find p (l ++ k) = match find p l with Some x => Some x | None => find p k end.
Proof. induction l as [|x l IH]; cbn; [done|]. by destruct (p x). Qed.

Lemma find_Some_elem {A} (p : A → bool) l x : find p l = Some x → x ∈ l ∧ p x = true.
Proof. intros [Hin Hp]%List.find_some. by rewrite list_elem_of_In. Qed.

Lemma described_snoc items i c :
  (∀ j, j ∈ items → comps_of j ≠ comps_of i) →
  described (items ++ [i]) c =
    if bool_decide (comps_of i = c) then Some (node_of i.1)
    else match described items c with
         | Some n => Some n
         | None => if bool_decide (above c (comps_of i)) then Some (TDir None) else None
         end.
Proof.
  intros Hne. unfold described. rewrite find_app, existsb_app. cbn. rewrite orb_false_r.
  destruct (find (λ i0, bool_decide (comps_of i0 = c)) items) as [j|] eqn:Ef.
  - apply find_Some_elem in Ef as [Hj Hc]. breflect. rewrite bool_decide_eq_false_2; [done|].
    intros Heq. apply (Hne j Hj). congruence.
  - case_bool_decide as Hc; [done|]. cbn.
    destruct (existsb _ items); cbn; [done|]. done.
Qed.

(** * Tree operations *)

Lemma prefixes_longer done rest q : q ∈ prefixes done rest → (length done < length q)%nat.
Proof.
  rewrite elem_of_prefixes. intros (k & Hk & ->). rewrite length_app, length_take. lia.
Qed.

Lemma mkdirs_spec rest : ∀ t done,
  (∀ q, q ∈ prefixes done rest → t !! q = None ∨ ∃ m, t !! q = Some (TDir m)) →
  ∃ t', mkdirs t done rest = Ok t' ∧
    ∀ c, t' !! c = match t !! c with
                   | Some n => Some n
                   | None => if bool_decide (c ∈ prefixes done rest) then Some (TDir None) else None
                   end.
Proof.
  induction rest as [|x rest IH]; intros t dn Ht; cbn [mkdirs prefixes] in *.
  { exists t. split; [done|]. intros c. by destruct (t !! c). }
  set (p := dn ++ [x]) in *.
  assert (∃ b, enter t p = Ok b ∧ (b = true → is_Some (t !! p)) ∧ (b = false → t !! p = None)) as
    (b & Hb & Hb1 & Hb2).
  { unfold enter. destruct p as [|y p'] eqn:Ep; [by destruct dn|].
    destruct (Ht (y :: p')) as [->|[m ->]]; [set_solver|by exists false|].
    exists true. split_and!; [done|by eexists|done]. }
  rewrite Hb. cbn.
  assert (∀ c, (if b then t else <[p:=TDir None]> t) !! c =
    match t !! c with Some n => Some n | None => if bool_decide (c = p) then Some (TDir None) else None end)
    as Hstep.
  { intros c. destruct b.
    - destruct (t !! c) eqn:Ec; [done|]. rewrite bool_decide_eq_false_2; [done|].
      intros ->. destruct (Hb1 eq_refl). congruence.
    - destruct (decide (c = p)) as [->|].
      + rewrite lookup_insert_eq, Hb2 by done. by rewrite bool_decide_eq_true_2.
      + rewrite lookup_insert_ne by done. rewrite bool_decide_eq_false_2 by done. by destruct (t !! c). }
  destruct (IH (if b then t else <[p:=TDir None]> t) p) as (t' & -> & Ht').
  { intros q Hq. rewrite Hstep. destruct (Ht q) as [->|[m ->]]; [by right| |eauto].
    rewrite bool_decide_eq_false_2; [auto|]. intros ->. apply prefixes_longer in Hq. lia. }
  exists t'. split; [done|]. intros c. rewrite Ht', Hstep. destruct (t !! c); [done|].
  repeat case_bool_decide; set_solver.
Qed.

Lemma walk_dirs_spec t rest : ∀ done,
  (∀ q, q ∈ prefixes done rest → ∃ m, t !! q = Some (TDir m)) → walk_dirs t done rest = Ok tt.
Proof.
  induction rest as [|x rest IH]; intros dn Ht; cbn [walk_dirs prefixes] in *; [done|].
  destruct (Ht (dn ++ [x])) as [m Hm]; [set_solver|].
  assert (enter t (dn ++ [x]) = Ok true) as ->.
  { unfold enter. rewrite Hm. by destruct (dn ++ [x]). }
  cbn. apply IH. intros q Hq. apply Ht. by right.
Qed.

(** * The place of a new entry among those extracted before it *)

Section place.
Context (items : list item).
Hypothesis Hapart : ∀ i j, i ∈ items → j ∈ items → ze_is_dir i.1 = false → ¬ above (comps_of i) (comps_of j).
Hypothesis Hdistinct : ∀ i j a b, items !! a = Some i → items !! b = Some j → comps_of i = comps_of j → a = b.
Context (dn rest : list item) (i : item) (Hitems : items = dn ++ i :: rest).

Lemma comps_ne : comps_of i ≠ [].
Proof. apply split_ne. Qed.

Lemma in_items j : j ∈ dn → j ∈ items.
Proof. rewrite Hitems. set_solver. Qed.
Lemma new_in_items : i ∈ items.
Proof. rewrite Hitems. set_solver. Qed.

Lemma new_path j : j ∈ dn → comps_of j ≠ comps_of i.
Proof.
  intros (k & Hk)%list_elem_of_lookup Heq.
  assert (k = length dn) as ->; [|apply lookup_lt_Some in Hk; lia].
  eapply (Hdistinct j i); [| |done]; rewrite Hitems.
  - by apply lookup_app_l_Some.
  - by apply list_lookup_middle.
Qed.

(** What is above the new entry is absent or a directory. *)
Lemma above_new q :
  above q (comps_of i) → described dn q = None ∨ ∃ m, described dn q = Some (TDir m).
Proof.
  intros Hq. unfold described. destruct (find _ dn) as [j|] eqn:Ef.
  - apply find_Some_elem in Ef as [Hj Hc]. breflect. right. unfold node_of.
    destruct (ze_is_dir j.1) eqn:Ed; [eauto|]. exfalso.
    apply (Hapart j i (in_items j Hj) new_in_items Ed). by rewrite Hc.
  - destruct (existsb _ dn); eauto.
Qed.

(** A new path is free, or for a directory implied by what is below it. *)
Lemma new_free :
  described dn (comps_of i) = None ∨
  (ze_is_dir i.1 = true ∧ described dn (comps_of i) = Some (TDir None)).
Proof.
  unfold described. destruct (find _ dn) as [j|] eqn:Ef.
  { apply find_Some_elem in Ef as [Hj Hc]. breflect. by destruct (new_path j Hj). }
  destruct (existsb _ dn) eqn:Ex; [|by left]. right. split; [|done].
  apply List.existsb_exists in Ex as (j & Hj & Hab). rewrite <-list_elem_of_In in Hj. breflect.
  destruct (ze_is_dir i.1) eqn:Ed; [done|]. exfalso.
  by apply (Hapart i j new_in_items (in_items j Hj) Ed).
Qed.

(** Recording the entry at its path completes the description. *)
Lemma described_new (t t' : tree) :
  (∀ c, c ≠ [] → t !! c = described dn c) →
  (∀ c, c ≠ [] → c ≠ comps_of i → t' !! c =
     match t !! c with
     | Some n => Some n
     | None => if bool_decide (above c (comps_of i)) then Some (TDir None) else None
     end) →
  t' !! comps_of i = Some (node_of i.1) →
  ∀ c, c ≠ [] → t' !! c = described (dn ++ [i]) c.
Proof.
  intros Ht Ht' Hi c Hc. rewrite described_snoc by apply new_path.
  case_bool_decide as Heq; [by subst c|]. rewrite Ht', Ht by done. done.
Qed.

(** The directories above the entry can be made. *)
Lemma mkdirs_above t :
  (∀ c, c ≠ [] → t !! c = described dn c) →
  ∃ t1, mkdirs t [] (removelast (comps_of i)) = Ok t1 ∧
    (∀ c, t1 !! c = match t !! c with
                    | Some n => Some n
                    | None => if bool_decide (above c (comps_of i)) then Some (TDir None) else None
                    end) ∧
    walk_dirs t1 [] (removelast (comps_of i)) = Ok tt.
Proof.
  intros Ht. destruct (mkdirs_spec (removelast (comps_of i)) t []) as (t1 & Hm & Ht1).
  { intros q Hq%above_prefixes. rewrite Ht by apply Hq. by apply above_new. }
  exists t1. assert (∀ c, t1 !! c = match t !! c with
    | Some n => Some n
    | None => if bool_decide (above c (comps_of i)) then Some (TDir None) else None
    end) as Hlk.
  { intros c. rewrite Ht1. destruct (t !! c); [done|]. by rewrite (bool_decide_ext _ _ (above_prefixes c _)). }
  split_and!; [done|done|]. apply walk_dirs_spec. intros q Hq%above_prefixes. rewrite Hlk, Ht by apply Hq.
  destruct (above_new q Hq) as [->|[m ->]]; [|eauto]. rewrite bool_decide_eq_true_2 by done. eauto.
Qed.

(** A new node at the entry's path. *)
Lemma create_new (t t1 : tree) n :
  (∀ c, c ≠ [] → t !! c = described dn c) → ze_is_dir i.1 = false →
  (∀ c, t1 !! c = match t !! c with
                  | Some n => Some n
                  | None => if bool_decide (above c (comps_of i)) then Some (TDir None) else None
                  end) →
  walk_dirs t1 [] (removelast (comps_of i)) = Ok tt →
  create_node (comps_of i) n t1 = Ok (<[comps_of i := n]> t1).
Proof.
  intros Ht Hd Ht1 Hw. unfold create_node. rewrite Hw. cbn.
  assert (t1 !! comps_of i = None) as ->; [|done].
  rewrite Ht1, Ht by apply comps_ne. destruct new_free as [->|[Hd' _]]; [|congruence].
  rewrite bool_decide_eq_false_2; [done|]. by intros (_ & ? & _).
Qed.

End place.

(** * Running the extraction *)

Section run.
Context (faults : nat → bool) (g : guard).

(** No call fails and nothing is cancelled. *)
Definition calm : Prop := (∀ k, faults k = false) ∧ g = None.

(** A call whose tree operation succeeds can only fail by an I/O error. *)
Lemma wp_tree_call message f x t (Q : xstate → result xerror unit → Prop) :
  f (xs_tree x) = Ok t →
  (∀ n e, ¬ calm → Q (mkX (xs_tree x) n (xs_checks x) (xs_bytes x)) (Err (XError e))) →
  (∀ n, Q (mkX t n (xs_checks x) (xs_bytes x)) (Ok tt)) →
  wp (tree_call faults message f) x Q.
Proof.
  intros Hf Hfault Hok. unfold wp, tree_call. destruct (faults _) eqn:Ef.
  - apply Hfault. intros [Hn _]. by rewrite Hn in Ef.
  - rewrite Hf. apply Hok.
Qed.

Lemma wp_check x (Q : xstate → result xerror unit → Prop) :
  (∀ e, ¬ calm → Q (mkX (xs_tree x) (xs_calls x) (S (xs_checks x)) (xs_bytes x)) (Err (XError e))) →
  Q (mkX (xs_tree x) (xs_calls x) (S (xs_checks x)) (xs_bytes x)) (Ok tt) →
  wp (check_optional_initialization_cancel g) x Q.
Proof.
  intros He Hok. unfold wp, check_optional_initialization_cancel. cbn.
  destruct (check_guard g (xs_checks x)) as [[]|e] eqn:Ec; cbn; [done|].
  apply He. intros [_ ->]. done.
Qed.

Lemma wp_count max message n x (Q : xstate → result xerror unit → Prop) :
  (∀ b e, (max < u64_max → max < xs_bytes x + n) →
     Q (mkX (xs_tree x) (xs_calls x) (xs_checks x) b) (Err (XError e))) →
  (∀ b, (max < u64_max → b = xs_bytes x + n ∧ b ≤ max) →
     Q (mkX (xs_tree x) (xs_calls x) (xs_checks x) b) (Ok tt)) →
  wp (count_bytes max message n) x Q.
Proof.
  intros He Hok. unfold wp, count_bytes. cbn. destruct (max <? _) eqn:El; cbn.
  { apply He. intros Hu. breflect. unfold saturating_add in *. lia. }
  apply Hok. intros Hu. breflect. unfold saturating_add in *. lia.
Qed.

(** No link is followed, and the run succeeds when nothing fails and [fits]. *)
Definition safe (fits : Prop) (r : result xerror unit) : Prop :=
  r ≠ Err XFollows ∧ (calm → fits → r = Ok tt).

Lemma safe_ok fits : safe fits (Ok tt).
Proof. done. Qed.
Lemma safe_fault fits e : ¬ calm → safe fits (Err (XError e)).
Proof. done. Qed.
Lemma safe_unfit (fits : Prop) e : ¬ fits → safe fits (Err (XError e)).
Proof. done. Qed.
Lemma safe_weaken (fits fits' : Prop) r : safe fits r → (fits' → fits) → safe fits' r.
Proof. intros [? ?] ?. split; auto. Qed.

Lemma copy_loop_spec max p reads : ∀ x d m,
  xs_tree x !! p = Some (TFile d m) →
  wp (copy_loop faults g max p reads) x (λ x' r,
    safe (readable reads = true ∧ max < u64_max ∧ xs_bytes x + len (content reads) ≤ max) r ∧
    (r = Ok tt → xs_tree x' = <[p := TFile (d +:+ content reads) m]> (xs_tree x) ∧
       (max < u64_max → xs_bytes x ≤ max →
          xs_bytes x' = xs_bytes x + len (content reads) ∧ xs_bytes x' ≤ max))).
Proof.
  induction reads as [|[chunk|e] reads IH]; intros x d m Hp; cbn [copy_loop content readable];
    apply wp_bind, wp_check; try (intros; split; [by apply safe_fault|done]).
  3: { split; [|done]. by apply safe_unfit; intros [? _]. }
  1: { apply wp_ret. split; [apply safe_ok|]. intros _. cbn. rewrite string_app_nil, insert_id by done.
       split; [done|]. intros. unfold len. cbn. lia. }
  destruct (is_empty chunk) eqn:Ee.
  { apply wp_ret. split; [apply safe_ok|]. intros _. cbn. rewrite string_app_nil, insert_id by done.
    split; [done|]. intros. unfold len. cbn. lia. }
  apply wp_bind, wp_count.
  { intros b e Hover. split; [|done]. apply safe_unfit. intros (_ & Hu & Hfit). specialize (Hover Hu).
    rewrite len_app in Hfit. cbn in Hover. lia. }
  intros b Hb. cbn [xs_tree xs_calls xs_checks xs_bytes] in *.
  apply wp_bind. eapply wp_tree_call; [reflexivity|by intros; split; [apply safe_fault|]|].
  intros n. cbn [xs_tree xs_checks xs_bytes].
  eapply wp_mono; [apply (IH _ (d +:+ chunk) m); cbn; by rewrite lookup_alter_eq, Hp|].
  cbn. intros x' r [Hs Hr]. split.
  { eapply safe_weaken; [done|]. intros (Hrd & Hu & Hfit). destruct (Hb Hu) as [-> _].
    rewrite len_app in Hfit. split_and!; [done|done|lia]. }
  intros Hok. destruct (Hr Hok) as [Ht Hbytes]. split.
  - rewrite Ht, string_app_assoc. apply map_eq. intros c. destruct (decide (p = c)) as [->|].
    + by rewrite !lookup_insert_eq.
    + rewrite !lookup_insert_ne, lookup_alter_ne by done. done.
  - intros Hu Hle. destruct (Hb Hu) as [-> Hle']. destruct (Hbytes Hu Hle') as [-> ?].
    rewrite len_app. lia.
Qed.

Lemma set_entry_mode_spec p e x :
  (∃ m, xs_tree x !! p = Some (TDir m)) ∨ (∃ d m, xs_tree x !! p = Some (TFile d m)) →
  wp (set_entry_mode faults p e) x (λ x' r, safe True r ∧ (r = Ok tt →
    xs_bytes x' = xs_bytes x ∧
    xs_tree x' = match ze_unix_mode e, xs_tree x !! p with
                 | Some m, Some (TDir _) => <[p := TDir (Some (N.land m o777))]> (xs_tree x)
                 | Some m, Some (TFile d _) => <[p := TFile d (Some (N.land m o777))]> (xs_tree x)
                 | _, _ => xs_tree x
                 end)).
Proof.
  intros Hn. unfold set_entry_mode. destruct (ze_unix_mode e) as [m|]; [|by apply wp_ret].
  unfold chmod_node. destruct Hn as [[m' Hp]|(d & m' & Hp)]; rewrite Hp;
    (eapply wp_tree_call; [by rewrite Hp|by intros; split; [apply safe_fault|]|]); intros n;
    (split; [apply safe_ok|]); done.
Qed.

(** ** One entry *)

(** The tree shows the entries [dn], and the bytes written are counted. *)
Record Extracted (max : N) (dn : list item) (x : xstate) : Prop := {
  ex_tree : ∀ c, c ≠ [] → xs_tree x !! c = described dn c;
  ex_bytes : max < u64_max → xs_bytes x = item_sum extracted_of dn ∧ xs_bytes x ≤ max;
}.

Section entry.
Context (max max_files max_depth : N) (items : list item).
Context (HA : accepted max max_files max_depth items).
Context (dn rest : list item) (i : item) (Hitems : items = dn ++ i :: rest).

Abbreviation Hapart := (items_apart max max_files max_depth items HA).
Abbreviation Hdistinct := (items_distinct max max_files max_depth items HA).
Abbreviation here lemma := (lemma items Hapart Hdistinct dn rest i Hitems).
Abbreviation Hi := (here new_in_items).

(** What the entry needs to be extracted when nothing fails. *)
Definition entry_fits (x : xstate) : Prop :=
  max < u64_max ∧ xs_bytes x + extracted_of i.1 ≤ max ∧
  (ze_is_dir i.1 = false → ze_is_symlink i.1 = false → readable (ze_reads i.1) = true).

Lemma extract_dir_spec x :
  Extracted max dn x → ze_is_dir i.1 = true →
  wp (_ ← tree_call faults "mkdir failed" (λ t, mkdirs t [] (comps_of i));
      set_entry_mode faults (comps_of i) i.1) x
    (λ x' r, safe (entry_fits x) r ∧ (r = Ok tt → Extracted max (dn ++ [i]) x')).
Proof.
  intros [Ht Hb] Hd. pose proof (comps_ne i) as Hne. pose proof (here new_free) as Hfree.
  set (p := comps_of i) in *.
  destruct (mkdirs_spec p (xs_tree x) []) as (t1 & Hm & Ht1).
  { intros q [->|Hq]%prefixes_self; [| |done].
    - rewrite Ht by done. destruct Hfree as [->|[_ ->]]; eauto.
    - rewrite Ht by apply Hq. by apply (here above_new). }
  assert (t1 !! p = Some (TDir None)) as Hp.
  { rewrite Ht1, Ht by done. destruct Hfree as [->|[_ ->]]; [|done].
    rewrite bool_decide_eq_true_2; [done|]. apply prefixes_self; auto. }
  apply wp_bind. eapply wp_tree_call; [exact Hm|by intros; split; [apply safe_fault|]|]. intros n.
  eapply wp_mono; [apply set_entry_mode_spec; cbn; eauto|]. cbn. intros x' r [Hs Hok].
  split; [by eapply safe_weaken|]. intros [Hby Htr]%Hok. rewrite Hp in Htr. split.
  - apply (described_new items Hdistinct dn rest i Hitems (xs_tree x)); [done| |].
    + intros c Hc Hcp. fold p in Hcp.
      assert (xs_tree x' !! c = t1 !! c) as ->
        by (rewrite Htr; destruct (ze_unix_mode i.1); [by rewrite lookup_insert_ne|done]).
      rewrite Ht1. destruct (xs_tree x !! c); [done|]. fold p.
      rewrite (bool_decide_ext (c ∈ prefixes [] p) (above c p)); [done|].
      rewrite prefixes_self by done. naive_solver.
    + fold p. rewrite Htr. unfold node_of, entry_mode. rewrite Hd.
      destruct (ze_unix_mode i.1); cbn; [by rewrite lookup_insert_eq|done].
  - intros Hu. rewrite Hby, item_sum_snoc. unfold extracted_of at 2. rewrite Hd, N.add_0_r. auto.
Qed.

Lemma Extracted_file x t1 x' :
  Extracted max dn x →
  (∀ c, t1 !! c = match xs_tree x !! c with
                  | Some n => Some n
                  | None => if bool_decide (above c (comps_of i)) then Some (TDir None) else None
                  end) →
  xs_tree x' = <[comps_of i := node_of i.1]> t1 →
  (max < u64_max → xs_bytes x' = xs_bytes x + extracted_of i.1 ∧ xs_bytes x' ≤ max) →
  Extracted max (dn ++ [i]) x'.
Proof.
  intros [Ht Hb] Ht1 Ht' Hb'. split.
  - apply (described_new items Hdistinct dn rest i Hitems (xs_tree x)); [done| |by rewrite Ht', lookup_insert_eq].
    intros c Hc Hne. rewrite Ht', lookup_insert_ne by done. apply Ht1.
  - intros Hu. destruct (Hb' Hu) as [Hx ?], (Hb Hu) as [Hy _]. split; [|done].
    by rewrite Hx, Hy, item_sum_snoc.
Qed.

Lemma extract_link_spec x t1 x1 :
  Extracted max dn x → ze_is_dir i.1 = false → ze_is_symlink i.1 = true →
  xs_tree x1 = t1 → xs_bytes x1 = xs_bytes x →
  (∀ c, t1 !! c = match xs_tree x !! c with
                  | Some n => Some n
                  | None => if bool_decide (above c (comps_of i)) then Some (TDir None) else None
                  end) →
  walk_dirs t1 [] (removelast (comps_of i)) = Ok tt →
  wp (extract_link faults max i.2 (comps_of i) i.1) x1
    (λ x' r, safe (entry_fits x) r ∧ (r = Ok tt → Extracted max (dn ++ [i]) x')).
Proof.
  intros HE Hd Hl Htree Hbytes Ht1 Hw. unfold extract_link, lift_build.
  pose proof (ac_links _ _ _ _ HA i Hi Hd Hl) as Hpt. unfold preflight_target in Hpt.
  destruct (read_limited 4097 (ze_reads i.1)) as [target|] eqn:Er; [|done]. cbn in Hpt.
  assert (link_target i.1 = target) as Hlt by (unfold link_target; by rewrite Er).
  apply wp_bind, wp_lift. cbn. apply wp_bind, wp_count.
  { intros b e Hover. split; [|done]. apply safe_unfit. intros (Hu & Hfit & _). specialize (Hover Hu).
    unfold extracted_of in Hfit. rewrite Hd, Hl, Hlt in Hfit. lia. }
  intros b Hb. cbn [xs_tree xs_calls xs_checks].
  destruct (MAX_SYMLINK_TARGET <? len target); [done|]. cbn in Hpt.
  apply wp_bind, wp_lift. destruct (from_utf8 target) as [u|] eqn:Eu; cbn in *; [|done].
  assert (u = target) as -> by (unfold from_utf8 in Eu; destruct (utf8_valid target); congruence).
  apply wp_bind, wp_lift. destruct (validate_symlink_target i.2 target); cbn in *; [|done].
  eapply wp_tree_call; [cbn; rewrite Htree; by apply (here create_new (xs_tree x)); [apply HE|..]|by intros; split; [apply safe_fault|]|].
  intros n. split; [apply safe_ok|]. intros _. eapply Extracted_file; [done|exact Ht1| |].
  - cbn. unfold node_of. by rewrite Hd, Hl, Hlt.
  - intros Hu. cbn. destruct (Hb Hu) as [-> ?]. unfold extracted_of. by rewrite Hd, Hl, Hlt, Hbytes in *.
Qed.

Lemma extract_file_spec x t1 x1 :
  Extracted max dn x → ze_is_dir i.1 = false → ze_is_symlink i.1 = false →
  xs_tree x1 = t1 → xs_bytes x1 = xs_bytes x →
  (∀ c, t1 !! c = match xs_tree x !! c with
                  | Some n => Some n
                  | None => if bool_decide (above c (comps_of i)) then Some (TDir None) else None
                  end) →
  walk_dirs t1 [] (removelast (comps_of i)) = Ok tt →
  wp (_ ← tree_call faults "create file failed" (create_node (comps_of i) (TFile "" None));
      _ ← copy_loop faults g max (comps_of i) (ze_reads i.1);
      set_entry_mode faults (comps_of i) i.1) x1
    (λ x' r, safe (entry_fits x) r ∧ (r = Ok tt → Extracted max (dn ++ [i]) x')).
Proof.
  intros HE Hd Hl Htree Hbytes Ht1 Hw.
  apply wp_bind. eapply wp_tree_call; [cbn; rewrite Htree; by apply (here create_new (xs_tree x)); [apply HE|..]|
    by intros; split; [apply safe_fault|]|]. intros n.
  apply wp_bind. eapply wp_mono; [apply copy_loop_spec; cbn; apply lookup_insert_eq|]. cbn.
  intros x2 [[]|e] [Hs Hok].
  2: { split; [|done]. eapply safe_weaken; [done|]. intros (Hu & Hfit & Hrd). unfold extracted_of in Hfit.
       rewrite Hd, Hl in Hfit. rewrite Hbytes. split_and!; [by apply Hrd|done|done]. }
  destruct (Hok eq_refl) as [Ht2 Hb2].
  rewrite insert_insert_eq in Ht2. cbn in Ht2.
  eapply wp_mono; [apply set_entry_mode_spec; rewrite Ht2, lookup_insert_eq; eauto|]. cbn.
  intros x3 r [Hs3 Hok3]. split; [by eapply safe_weaken|]. intros [Hb3 Ht3]%Hok3.
  rewrite Ht2, lookup_insert_eq in Ht3. eapply Extracted_file; [done|exact Ht1| |].
  - rewrite Ht3. unfold node_of, entry_mode. rewrite Hd, Hl.
    destruct (ze_unix_mode i.1); cbn; [by rewrite insert_insert_eq|done].
  - intros Hu. rewrite Hb3, Hbytes in *. destruct (ex_bytes _ _ _ HE Hu) as [_ Hle].
    destruct (Hb2 Hu Hle) as [-> ?]. unfold extracted_of. by rewrite Hd, Hl.
Qed.

Lemma extract_entry_spec x :
  Extracted max dn x →
  wp (extract_entry faults g max max_depth (Some i.1)) x
    (λ x' r, safe (entry_fits x) r ∧ (r = Ok tt → Extracted max (dn ++ [i]) x')).
Proof.
  intros HE. unfold extract_entry. apply wp_bind, wp_check; [by intros; split; [apply safe_fault|]|].
  apply wp_bind, wp_lift. cbn [ok_or]. apply wp_bind, wp_lift.
  pose proof (ac_paths _ _ _ _ HA) as Hp. rewrite Forall_forall in Hp. rewrite (Hp i Hi). cbn [map_err].
  fold (comps_of i). destruct (ze_is_dir i.1) eqn:Ed.
  { apply (extract_dir_spec (mkX _ _ _ _)); [|done]. destruct HE. by split. }
  destruct (here mkdirs_above (xs_tree x)) as (t1 & Hm & Ht1 & Hw); [apply HE|].
  apply wp_bind. eapply wp_tree_call; [exact Hm|by intros; split; [apply safe_fault|]|]. intros n.
  destruct (ze_is_symlink i.1) eqn:El; [by eapply (extract_link_spec x t1)|by eapply (extract_file_spec x t1)].
Qed.
End entry.

Definition item_readable (i : item) : Prop :=
  ze_is_dir i.1 = false → ze_is_symlink i.1 = false → readable (ze_reads i.1) = true.

Lemma item_sum_app f l k : item_sum f (l ++ k) = item_sum f l + item_sum f k.
Proof.
  unfold item_sum. rewrite fmap_app, foldr_app. generalize (foldr N.add 0 (f ∘ fst <$> k)). intros n.
  induction (f ∘ fst <$> l) as [|y l' IH]; cbn; lia.
Qed.

Lemma extract_loop max max_files max_depth items :
  accepted max max_files max_depth items →
  ∀ rest dn x, items = dn ++ rest → Extracted max dn x →
  wp (io_each (extract_entry faults g max max_depth) (Some <$> rest.*1)) x
    (λ x' r, safe (max < u64_max ∧ item_sum extracted_of items ≤ max ∧ Forall item_readable items) r ∧
             (r = Ok tt → Extracted max items x')).
Proof.
  intros HA rest. induction rest as [|i rest IH]; intros dn x Hi HE; cbn [io_each fmap list_fmap].
  - apply wp_ret. split; [apply safe_ok|]. intros _. rewrite Hi, app_nil_r. done.
  - apply wp_bind. eapply wp_mono; [by eapply (extract_entry_spec max max_files max_depth items HA dn rest i)|].
    intros x' [[]|e] [Hs Hok].
    2: { split; [|done]. eapply safe_weaken; [done|]. intros (Hu & Hsum & Hrd).
         destruct (ex_bytes _ _ _ HE Hu) as [Hb _]. rewrite Hi in Hsum, Hrd.
         change (i :: rest) with ([i] ++ rest) in Hsum. rewrite !item_sum_app in Hsum.
         rewrite Forall_app, Forall_cons in Hrd. split_and!; [done| |apply Hrd].
         unfold item_sum in Hsum at 2. cbn in Hsum. lia. }
    apply (IH (dn ++ [i])); [by rewrite Hi, <-(assoc (++))|by apply Hok].
Qed.
End run.

(** * Extraction *)

(** The run after an accepted preflight. *)
Lemma extract_source_archive_spec faults g archive max max_files max_depth :
  wp (extract_source_archive_inner faults g archive max max_files max_depth) fresh_destination (λ x r,
    r ≠ Err XFollows ∧
    (r = Ok tt → ∃ items, archive = Some (Some <$> items.*1) ∧ accepted max max_files max_depth items ∧
       (∀ c, c ≠ [] → xs_tree x !! c = described items c) ∧
       (max < u64_max → item_sum extracted_of items ≤ max))).
Proof.
  unfold extract_source_archive_inner. apply wp_bind, (wp_check faults); [done|].
  apply wp_bind. unfold wp at 1. cbn [fst snd].
  destruct (preflight_source_archive _ _ _ _ _ _) as [s|] eqn:Hpf; cbn [map_err]; [|done].
  apply preflight_source_archive_spec in Hpf as (items & -> & HA).
  apply wp_bind, wp_lift. cbn [ok_or].
  eapply wp_mono; [apply (extract_loop faults g max max_files max_depth items HA items []); [done|]|].
  - split; [intros c _; apply lookup_empty|]. intros _. cbn. lia.
  - intros x' r' [[Hs _] Hok]. split; [done|]. intros [Ht Hb]%Hok. exists items. split_and!; try done.
    intros Hu. by destruct (Hb Hu) as [<- ?].
Qed.

(** C11: Extraction of an uploaded archive into a fresh workspace never follows a
    symbolic link, whatever I/O fails and whenever it is cancelled; and when it
    succeeds the entries passed the preflight, their paths are chains of ordinary
    names (none empty, [.] or [..]), the workspace shows at every path
    exactly the archive's entry of that path (a file with its content, a link
    with its target, modes reduced to permission bits) or a directory above one,
    and the bytes written are within the limit. *)
Theorem extraction_is_exact faults g archive max max_files max_depth x r :
  extract_source_archive_inner faults g archive max max_files max_depth fresh_destination = (x, r) →
  r ≠ Err XFollows ∧
  (r = Ok tt → ∃ items, archive = Some (Some <$> items.*1) ∧ accepted max max_files max_depth items ∧
     Forall (λ i, Forall (λ n, plain n ∧ n ≠ "." ∧ n ≠ "..") (comps_of i)) items ∧
     (∀ c, c ≠ [] → xs_tree x !! c = described items c) ∧
     (max < u64_max → item_sum extracted_of items ≤ max)).
Proof.
  intros Hrun.
  destruct (wp_run _ _ _ _ _ (extract_source_archive_spec faults g archive max max_files max_depth) Hrun) as [Hf Hok].
  split; [done|]. intros (items & -> & HA & Ht & Hb)%Hok. exists items. split_and!; try done.
  apply Forall_forall. intros i Hi. by eapply item_plain.
Qed.

(** The bytes a list of entries puts into the workspace. *)
Definition total_extracted (es : list zip_entry) : N := foldr N.add 0 (extracted_of <$> es).

(** When no call fails and nothing is cancelled, an archive that passed the
    preflight is extracted completely as soon as the contents of its files can be
    read and the bytes actually read stay within the limit. *)
Theorem extraction_succeeds es max max_files max_depth s :
  preflight_source_archive (Some (Some <$> es)) max max_files max_depth None 1 = Ok s →
  max < u64_max → total_extracted es ≤ max →
  Forall (λ e, ze_is_dir e = false → ze_is_symlink e = false → readable (ze_reads e) = true) es →
  (extract_source_archive_inner (λ _, false) None (Some (Some <$> es)) max max_files max_depth
     fresh_destination).2 = Ok tt.
Proof.
  intros Hpf Hu Hsum Hrd.
  eapply (wp_run _ _ (λ _ r, r = Ok tt)); [|apply surjective_pairing].
  unfold extract_source_archive_inner. apply wp_bind, (wp_check (λ _, false)).
  { intros e Hn. destruct Hn. done. }
  apply wp_bind. unfold wp at 1. cbn [fst snd xs_checks fresh_destination]. rewrite Hpf. cbn [map_err].
  apply preflight_source_archive_spec in Hpf as (items & Heq & HA). apply wp_bind, wp_lift. cbn [ok_or].
  assert (items.*1 = es) as Hes.
  { injection Heq as Heq. clear -Heq. revert items Heq. induction es as [|e es IH]; intros [|i items];
      cbn; try done. intros [= -> Heq]. f_equal. by apply IH. }
  rewrite <-Hes.
  eapply wp_mono; [apply (extract_loop (λ _, false) None max max_files max_depth items HA items []); [done|]|].
  - split; [intros c _; apply lookup_empty|]. intros _. cbn. lia.
  - intros x r [[_ Hs] _]. apply Hs; [done|]. split_and!; [done| |].
    + unfold total_extracted in Hsum. rewrite <-Hes, <-list_fmap_compose in Hsum. done.
    + rewrite <-Hes, Forall_fmap in Hrd. done.
Qed.

(** * Where the symbolic links of an extracted archive lead. *)

(** A place a path leads to: below the workspace, or out of it. *)
Inductive place := Inside (p : list string) | Outside.

(** POSIX path resolution from directory [cur] of the workspace, which the
    operating system does for whoever opens a path in it (no code of the program); a
    link's target is resolved in the directory that holds the link, and [fuel]
    bounds the steps as the kernel bounds the links it follows. *)
Fixpoint resolve_in (fuel : nat) (t : tree) (cur : list string) (cs : list component) : option place :=
  match fuel with
  | O => None
  | S fuel =>
      match cs with
      | [] => Some (Inside cur)
      | RootDir :: _ => Some Outside
      | CurDir :: cs => resolve_in fuel t cur cs
      | ParentDir :: cs =>
          match cur with
          | [] => Some Outside
          | _ => resolve_in fuel t (removelast cur) cs
          end
      | Normal n :: cs =>
          match t !! (cur ++ [n]) with
          | None => None
          | Some (TLink target) => resolve_in fuel t cur (components target ++ cs)
          | Some (TDir _) => resolve_in fuel t (cur ++ [n]) cs
          | Some (TFile _ _) => match cs with [] => Some (Inside (cur ++ [n])) | _ => None end
          end
      end
  end.

Lemma removelast_length {A} (l : list A) : length (removelast l) = (length l - 1)%nat.
Proof. induction l as [|x [|y l] IH]; [done|done|]. cbn [removelast length] in *. lia. Qed.

Lemma resolve_depth fuel t cs : ∀ cur d,
  (∀ q target, t !! q ≠ Some (TLink target)) →
  target_depth (length cur) cs = Ok d → resolve_in fuel t cur cs ≠ Some Outside.
Proof.
  revert cs. induction fuel as [|fuel IH]; intros cs cur d Ht; [done|]. cbn.
  destruct cs as [|[| | |n] cs]; cbn; [done|done|by apply IH| |].
  - destruct cur as [|x cur]; [done|]. intros Hd. apply (IH _ _ d); [done|].
    rewrite removelast_length. cbn [length]. by rewrite Nat.sub_succ, Nat.sub_0_r.
  - intros Hd. destruct (t !! (cur ++ [n])) as [[m|data m|target]|] eqn:En; try done.
    + apply (IH _ _ d); [done|]. by rewrite length_app, Nat.add_comm.
    + by destruct cs.
    + by destruct (Ht (cur ++ [n]) target).
Qed.

(** A link target the check accepts is short, relative and free of NUL, and
    resolved from the directory of the link through directories that are no links
    themselves it stays below the workspace. *)
Theorem accepted_target_stays_inside link_path target fuel t :
  validate_symlink_target link_path target = Ok tt →
  (∀ q target', t !! q ≠ Some (TLink target')) →
  len target ≤ MAX_SYMLINK_TARGET ∧ is_absolute target = false ∧ contains_byte nul target = false ∧
  resolve_in fuel t (removelast (split slash link_path)) (components target) ≠ Some Outside.
Proof.
  intros Hv Ht. unfold validate_symlink_target in Hv. unbind Hv.
  repeat match goal with H : _ || _ = false |- _ => apply orb_false_iff in H as [? ?] end.
  split_and!; [by apply N.ltb_ge|done|done|].
  eapply resolve_depth; [done|]. rewrite removelast_length. done.
Qed.

Definition demo_link (name target : string) : zip_entry :=
  {| ze_name := name; ze_is_dir := false; ze_is_symlink := true; ze_unix_mode := Some 41471;
     ze_size := len target; ze_reads := [Ok target] |}.
Definition demo_dir (name : string) : zip_entry :=
  {| ze_name := name; ze_is_dir := true; ze_is_symlink := false; ze_unix_mode := Some 16877;
     ze_size := 0; ze_reads := [] |}.
Definition demo_file (name data : string) : zip_entry :=
  {| ze_name := name; ze_is_dir := false; ze_is_symlink := false; ze_unix_mode := Some 33261;
     ze_size := len data; ze_reads := [Ok data] |}.

(** Two links, each within the workspace by itself: [a/b/c/up] leads to the
    workspace, and [out] to the directory above [a/b/c/up]. *)
Definition chained : list zip_entry :=
  [demo_dir "a/b/c/"; demo_link "a/b/c/up" "../../.."; demo_link "out" "a/b/c/up/.."].

(** The check judges a target by its letters alone: an archive whose links are
    all accepted is extracted into a workspace in which a link leads out of it,
    through another link. *)
Example chained_links_escape :
  let out := extract_source_archive_inner (λ _, false) None (Some (Some <$> chained)) 1000 10 10
               fresh_destination in
  out.2 = Ok tt ∧
  validate_symlink_target "a/b/c/up" "../../.." = Ok tt ∧
  validate_symlink_target "out" "a/b/c/up/.." = Ok tt ∧
  resolve_in 100 (xs_tree out.1) [] [Normal "out"] = Some Outside.
Proof. vm_compute. split_and!; reflexivity. Qed.

(** * The theorems at work *)

Definition demo_source_archive : list zip_entry :=
  [demo_file "src/main.rs" "fn main"; demo_dir "doc/"; demo_link "doc/code" "../src"].

Lemma extraction_succeeds_witness :
  (extract_source_archive_inner (λ _, false) None (Some (Some <$> demo_source_archive)) 1000 10 10
     fresh_destination).2 = Ok tt ∧ total_extracted demo_source_archive = 13.
Proof.
  split; [|vm_compute; reflexivity].
  destruct (preflight_source_archive (Some (Some <$> demo_source_archive)) 1000 10 10 None 1)
    as [s|] eqn:Hp; [|vm_compute in Hp; discriminate].
  apply (extraction_succeeds demo_source_archive 1000 10 10 s Hp).
  - vm_compute; reflexivity.
  - vm_compute; discriminate.
  - repeat constructor; vm_compute; done.
Defined.

Lemma extraction_is_exact_witness :
  let out := extract_source_archive_inner (λ _, false) None (Some (Some <$> demo_source_archive)) 1000 10 10
               fresh_destination in
  out.2 = Ok tt ∧ out.2 ≠ Err XFollows ∧
  xs_tree out.1 !! ["src"] = Some (TDir None) ∧
  xs_tree out.1 !! ["src"; "main.rs"] = Some (TFile "fn main" (Some 493)) ∧
  xs_tree out.1 !! ["doc"; "code"] = Some (TLink "../src").
Proof.
  intros out. split; [vm_compute; reflexivity|]. split.
  - apply (extraction_is_exact (λ _, false) None (Some (Some <$> demo_source_archive)) 1000 10 10 out.1 out.2).
    apply surjective_pairing.
  - vm_compute. split_and!; reflexivity.
Defined.

Lemma accepted_target_stays_inside_witness :
  resolve_in 50 {[ ["src"] := TDir None ]} ["doc"] (components "../src") = Some (Inside ["src"]) ∧
  resolve_in 50 {[ ["src"] := TDir None ]} ["doc"] (components "../src") ≠ Some Outside.
Proof.
  split; [vm_compute; reflexivity|].
  apply (accepted_target_stays_inside "doc/code" "../src" 50 {[ ["src"] := TDir None ]}).
  - vm_compute; reflexivity.
  - intros q target'. destruct (decide (q = ["src"])) as [->|Hq].
    + rewrite lookup_singleton_eq. discriminate.
    + rewrite lookup_singleton_ne by done. discriminate.
Defined.
