(* ===== verification/Posix.v ===== *)
(** The file system calls the daemon makes on a directory it shares with
    untrusted processes: a heap of inodes with directory entries, one function
    per system call, and computations that thread it.

    Every call first lets the other processes of the machine change the heap
    ([an_env]) and may fail without its effect ([an_fault]); both are drawn from
    an oracle indexed by the number of calls made so far, so that one function
    describes every interleaving and every I/O failure.  The daemon's private
    staging directory (mode 0700, never shared) is a separate store. *)
From Stdlib Require Import Ascii.
From stdpp Require Import base option strings numbers gmap fin_maps infinite list.
From S2P Require Import Prelude Effects RustStr Fs.

Local Open Scope N_scope.

(** [FileIdentity]: device and inode number. *)
Record FileIdentity := { device : N; inode : N }.

#[export] Instance file_identity_eq_dec : EqDecision FileIdentity.
Proof. solve_decision. Defined.
#[export] Instance file_identity_countable : Countable FileIdentity.
Proof.
  refine (inj_countable' (λ i, (device i, inode i)) (λ p, {| device := p.1; inode := p.2 |}) _).
  by intros [].
Defined.

Record node := Node {
  nd_kind : file_kind;
  nd_uid : N;
  nd_gid : N;
  nd_mode : N;
  nd_data : string;
  nd_entries : gmap string FileIdentity;
}.

Abbreviation FS := (gmap FileIdentity node).

(** A file of the private staging directory. *)
Record stored := Stored { st_data : string; st_uid : N; st_gid : N; st_mode : N }.

Record World := mkWorld {
  w_fs : FS;
  w_store : gmap string stored;
  w_tick : nat;
}.

Inductive os_error := ENOENT | EEXIST | ENOTDIR | EISDIR | ELOOP | EIO | Other (message : string).

#[export] Instance os_error_eq_dec : EqDecision os_error.
Proof. solve_decision. Defined.

(** What the machine does at one call: the moves of other processes before it,
    whether it fails, the inode number a creation is given, the UUID drawn, how
    many bytes a failing write leaves behind, and whether the operation has been
    cancelled. *)
Record answer := mkAnswer {
  an_env : FS → FS;
  an_fault : bool;
  an_ino : N;
  an_uuid : string;
  an_partial : nat;
  an_cancelled : bool;
}.

(** Computations on the machine. *)
Abbreviation io := (eff World).

(** * Metadata *)

Definition kind_bits (k : file_kind) : N :=
  match k with
  | Regular => o100000
  | Directory => o040000
  | Symlink => o120000
  | Fifo => 4096
  | Socket => 49152
  | BlockDevice => 24576
  | CharDevice => 8192
  end.

Definition o7777 : N := 4095.
Definition o600 : N := 384.
Definition o644 : N := 420.

(** [st_mode]: the type bits and the permission bits. *)
Definition stat_mode (n : node) : N := N.lor (kind_bits (nd_kind n)) (N.land (nd_mode n) o7777).

(** [mode & S_IFMT == S_IFREG]. *)
Definition is_regular_mode (mode : N) : bool := N.land mode o170000 =? o100000.

(** [TargetMetadata]. *)
Record TargetMetadata := {
  tg_identity : FileIdentity;
  tg_uid : N;
  tg_gid : N;
  tg_mode : N;
}.

Definition metadata_of (i : FileIdentity) (n : node) : TargetMetadata :=
  {| tg_identity := i; tg_uid := nd_uid n; tg_gid := nd_gid n; tg_mode := stat_mode n |}.

(** * The heap *)

Definition entry (fs : FS) (d : FileIdentity) (name : string) : option FileIdentity :=
  n ← fs !! d; nd_entries n !! name.

Definition with_entries (n : node) (es : gmap string FileIdentity) : node :=
  Node (nd_kind n) (nd_uid n) (nd_gid n) (nd_mode n) (nd_data n) es.

Definition set_entry (d : FileIdentity) (name : string) (o : option FileIdentity) (fs : FS) : FS :=
  alter (λ n, with_entries n (partial_alter (λ _, o) name (nd_entries n))) d fs.

Definition set_data (i : FileIdentity) (data : string) (fs : FS) : FS :=
  alter (λ n, Node (nd_kind n) (nd_uid n) (nd_gid n) (nd_mode n) data (nd_entries n)) i fs.
Definition set_owner (i : FileIdentity) (uid gid : N) (fs : FS) : FS :=
  alter (λ n, Node (nd_kind n) uid gid (nd_mode n) (nd_data n) (nd_entries n)) i fs.
Definition set_mode (i : FileIdentity) (mode : N) (fs : FS) : FS :=
  alter (λ n, Node (nd_kind n) (nd_uid n) (nd_gid n) mode (nd_data n) (nd_entries n)) i fs.

(** A new inode number on the directory's device: the one offered, unless it is
    in use. *)
Definition new_inode (fs : FS) (d : FileIdentity) (offered : N) : FileIdentity :=
  let i := {| device := device d; inode := offered |} in
  match fs !! i with
  | None => i
  | Some _ => {| device := device d; inode := fresh (inode <$> elements (dom fs)) |}
  end.

(** * System calls *)

Section calls.
Context (orc : nat → answer).
(** The user the daemon runs as, the owner of what it creates. *)
Context (euid egid : N).

Definition next_answer (w : World) : answer := orc (w_tick w).

(** A call on the shared file system. *)
Definition syscall {A} (f : answer → FS → FS * result os_error A) : io os_error A := λ w,
  let a := next_answer w in
  let fs := an_env a (w_fs w) in
  if an_fault a then (mkWorld fs (w_store w) (S (w_tick w)), Err EIO)
  else let '(fs', r) := f a fs in (mkWorld fs' (w_store w) (S (w_tick w)), r).

(** A call on the private staging directory. *)
Definition private_call {A} (f : answer → gmap string stored → gmap string stored * result os_error A) :
    io os_error A := λ w,
  let a := next_answer w in
  let fs := an_env a (w_fs w) in
  if an_fault a then (mkWorld fs (w_store w) (S (w_tick w)), Err EIO)
  else let '(st, r) := f a (w_store w) in (mkWorld fs st (S (w_tick w)), r).

(** [Uuid::new_v4] and the cancellation flag: they touch no file. *)
Definition draw_uuid {E} : io E string := λ w,
  let a := next_answer w in
  (mkWorld (an_env a (w_fs w)) (w_store w) (S (w_tick w)), Ok (an_uuid a)).
Definition flag_is_cancelled {E} : io E bool := λ w,
  let a := next_answer w in
  (mkWorld (an_env a (w_fs w)) (w_store w) (S (w_tick w)), Ok (an_cancelled a)).

(** [openat(dir, name, O_RDONLY | O_NOFOLLOW | O_DIRECTORY)]. *)
Definition openat_directory (d : FileIdentity) (name : string) : io os_error FileIdentity :=
  syscall (λ _ fs, (fs,
    match entry fs d name with
    | None => Err ENOENT
    | Some i =>
        match fs !! i with
        | None => Err ENOENT
        | Some n => match nd_kind n with
                    | Directory => Ok i
                    | _ => Err ENOTDIR
                    end
        end
    end)).

(** [openat(dir, name, O_RDONLY | O_NOFOLLOW)]. *)
Definition openat_read (d : FileIdentity) (name : string) : io os_error FileIdentity :=
  syscall (λ _ fs, (fs,
    match entry fs d name with
    | None => Err ENOENT
    | Some i =>
        match fs !! i with
        | None => Err ENOENT
        | Some n => match nd_kind n with
                    | Symlink => Err ELOOP
                    | _ => Ok i
                    end
        end
    end)).

(** [fstatat(dir, name, AT_SYMLINK_NOFOLLOW)]. *)
Definition fstatat (d : FileIdentity) (name : string) : io os_error TargetMetadata :=
  syscall (λ _ fs, (fs,
    match entry fs d name with
    | None => Err ENOENT
    | Some i => match fs !! i with
                | None => Err ENOENT
                | Some n => Ok (metadata_of i n)
                end
    end)).

(** [fstat] of an open file. *)
Definition fstat (i : FileIdentity) : io os_error TargetMetadata :=
  syscall (λ _ fs, (fs,
    match fs !! i with
    | None => Err EIO
    | Some n => Ok (metadata_of i n)
    end)).

(** Reading an open file to its end. *)
Definition read_to_end (i : FileIdentity) : io os_error string :=
  syscall (λ _ fs, (fs,
    match fs !! i with
    | None => Err EIO
    | Some n => Ok (nd_data n)
    end)).

(** [openat(dir, name, O_WRONLY | O_NOFOLLOW | O_CREAT | O_EXCL, 0600)]. *)
Definition openat_create (d : FileIdentity) (name : string) : io os_error FileIdentity :=
  syscall (λ a fs,
    match entry fs d name with
    | Some _ => (fs, Err EEXIST)
    | None =>
        let i := new_inode fs d (an_ino a) in
        (set_entry d name (Some i) (<[i := Node Regular euid egid o600 "" ∅]> fs), Ok i)
    end).

(** Writing all of [data] to a newly created file; a write that fails may have
    stored a prefix. *)
Definition write_all (i : FileIdentity) (data : string) : io os_error unit := λ w,
  let a := next_answer w in
  let fs := an_env a (w_fs w) in
  if an_fault a
  then (mkWorld (set_data i (String.substring 0 (an_partial a) data) fs) (w_store w) (S (w_tick w)),
        Err EIO)
  else (mkWorld (set_data i data fs) (w_store w) (S (w_tick w)), Ok tt).

Definition fchown (i : FileIdentity) (uid gid : N) : io os_error unit :=
  syscall (λ _ fs, (set_owner i uid gid fs, Ok tt)).
Definition fchmod (i : FileIdentity) (mode : N) : io os_error unit :=
  syscall (λ _ fs, (set_mode i mode fs, Ok tt)).
Definition fsync (i : FileIdentity) : io os_error unit := syscall (λ _ fs, (fs, Ok tt)).

(** [fcntl(F_DUPFD_CLOEXEC)]. *)
Definition dup (i : FileIdentity) : io os_error FileIdentity := syscall (λ _ fs, (fs, Ok i)).

(** [renameat] of a file within one directory. *)
Definition renameat (d : FileIdentity) (from to : string) : io os_error unit :=
  syscall (λ _ fs,
    match entry fs d from with
    | None => (fs, Err ENOENT)
    | Some i =>
        match entry fs d to with
        | Some j =>
            if bool_decide (i = j) then (fs, Ok tt)
            else if bool_decide (nd_kind <$> fs !! j = Some Directory) then (fs, Err EISDIR)
            else (set_entry d to (Some i) (set_entry d from None fs), Ok tt)
        | None => (set_entry d to (Some i) (set_entry d from None fs), Ok tt)
        end
    end).

(** [unlinkat(dir, name, 0)]. *)
Definition unlinkat (d : FileIdentity) (name : string) : io os_error unit :=
  syscall (λ _ fs,
    match entry fs d name with
    | None => (fs, Err ENOENT)
    | Some i =>
        if bool_decide (nd_kind <$> fs !! i = Some Directory) then (fs, Err EISDIR)
        else (set_entry d name None fs, Ok tt)
    end).

(** * The private store *)

(** [create_new] with mode 0600, and the whole content written and synced. *)
Definition store_create (path : string) : io os_error unit :=
  private_call (λ _ st,
    match st !! path with
    | Some _ => (st, Err EEXIST)
    | None => (<[path := Stored "" euid egid o600]> st, Ok tt)
    end).
Definition store_append (path data : string) : io os_error unit :=
  private_call (λ _ st,
    (alter (λ s, Stored (st_data s +:+ data) (st_uid s) (st_gid s) (st_mode s)) path st, Ok tt)).
Definition store_sync : io os_error unit := private_call (λ _ st, (st, Ok tt)).
Definition store_read (path : string) : io os_error string :=
  private_call (λ _ st,
    (st, match st !! path with None => Err ENOENT | Some s => Ok (st_data s) end)).
Definition store_chown (path : string) (uid gid : N) : io os_error unit :=
  private_call (λ _ st, (alter (λ s, Stored (st_data s) uid gid (st_mode s)) path st, Ok tt)).
Definition store_chmod (path : string) (mode : N) : io os_error unit :=
  private_call (λ _ st, (alter (λ s, Stored (st_data s) (st_uid s) (st_gid s) mode) path st, Ok tt)).
(** Opening a file the daemon received. *)
Definition store_open : io os_error unit := private_call (λ _ st, (st, Ok tt)).
(** [create_dir] and [set_permissions]. *)
Definition store_create_dir : io os_error unit := private_call (λ _ st, (st, Ok tt)).
(** [let _ = remove_dir_all(root)]. *)
Definition store_remove_all {E} (root : string) : io E unit := λ w,
  let a := next_answer w in
  let fs := an_env a (w_fs w) in
  if an_fault a then (mkWorld fs (w_store w) (S (w_tick w)), Ok tt)
  else (mkWorld fs (filter (λ p, starts_with (root +:+ "/") p.1 = false) (w_store w)) (S (w_tick w)),
        Ok tt).
End calls.

(** * Rules for the calls *)

(** A call on the private store, whatever other processes do to shared files. *)
Lemma wp_private_any orc {A}
    (f : answer → gmap string stored → gmap string stored * result os_error A) w Q :
  (∀ fs t, Q (mkWorld fs (w_store w) t) (Err EIO)) →
  (∀ a fs t, let '(st, r) := f a (w_store w) in Q (mkWorld fs st t) r) →
  wp (private_call orc f) w Q.
Proof.
  intros Hf Hs. unfold wp, private_call, next_answer. destruct (an_fault _); [apply Hf|].
  specialize (Hs (orc (w_tick w)) (an_env (orc (w_tick w)) (w_fs w)) (S (w_tick w))).
  by destruct (f _ (w_store w)).
Qed.

(** The machine with no other process touching the shared files. *)
Definition quiet (orc : nat → answer) : Prop := ∀ k fs, an_env (orc k) fs = fs.

Section rules.
Context (orc : nat → answer) (Hq : quiet orc).

Lemma wp_syscall {A} (f : answer → FS → FS * result os_error A) w Q :
  (∀ t, Q (mkWorld (w_fs w) (w_store w) t) (Err EIO)) →
  (∀ a t, let '(fs', r) := f a (w_fs w) in Q (mkWorld fs' (w_store w) t) r) →
  wp (syscall orc f) w Q.
Proof.
  intros Hf Hs. unfold wp, syscall, next_answer. rewrite Hq. destruct (an_fault _); [apply Hf|].
  specialize (Hs (orc (w_tick w)) (S (w_tick w))). by destruct (f _ (w_fs w)).
Qed.

Lemma wp_private {A} (f : answer → gmap string stored → gmap string stored * result os_error A) w Q :
  (∀ t, Q (mkWorld (w_fs w) (w_store w) t) (Err EIO)) →
  (∀ a t, let '(st, r) := f a (w_store w) in Q (mkWorld (w_fs w) st t) r) →
  wp (private_call orc f) w Q.
Proof.
  intros Hf Hs. unfold wp, private_call, next_answer. rewrite Hq. destruct (an_fault _); [apply Hf|].
  specialize (Hs (orc (w_tick w)) (S (w_tick w))). by destruct (f _ (w_store w)).
Qed.

Lemma wp_uuid {E} w (Q : World → result E string → Prop) :
  (∀ k t, Q (mkWorld (w_fs w) (w_store w) t) (Ok (an_uuid (orc k)))) → wp (draw_uuid orc) w Q.
Proof. intros HQ. unfold wp, draw_uuid, next_answer. rewrite Hq. apply HQ. Qed.

Lemma wp_flag {E} w (Q : World → result E bool → Prop) :
  (∀ b t, Q (mkWorld (w_fs w) (w_store w) t) (Ok b)) → wp (flag_is_cancelled orc) w Q.
Proof. intros HQ. unfold wp, flag_is_cancelled, next_answer. rewrite Hq. apply HQ. Qed.

Lemma wp_write i data w Q :
  (∀ t s, Q (mkWorld (set_data i s (w_fs w)) (w_store w) t) (Err EIO)) →
  (∀ t, Q (mkWorld (set_data i data (w_fs w)) (w_store w) t) (Ok tt)) →
  wp (write_all orc i data) w Q.
Proof. intros Hf Hs. unfold wp, write_all, next_answer. rewrite Hq. destruct (an_fault _); [apply Hf|apply Hs]. Qed.
End rules.

(** ** The heap *)

Lemma entry_set_entry fs d n o d' n' :
  entry (set_entry d n o fs) d' n' =
  if bool_decide (d = d' ∧ n = n') then (_ ← fs !! d; o) else entry fs d' n'.
Proof.
  unfold entry, set_entry. case_bool_decide as Hdn.
  - destruct Hdn as [<- <-]. rewrite lookup_alter_eq. destruct (fs !! d); [|done].
    apply lookup_partial_alter_eq.
  - destruct (decide (d = d')) as [<-|Hd]; [|by rewrite lookup_alter_ne].
    rewrite lookup_alter_eq. destruct (fs !! d) as [nd|]; [|done].
    apply lookup_partial_alter_ne. naive_solver.
Qed.

Lemma new_inode_fresh fs d k : fs !! new_inode fs d k = None.
Proof.
  unfold new_inode. destruct (fs !! {| device := device d; inode := k |}) eqn:E; [|done].
  apply eq_None_not_Some. intros [nd Hnd].
  apply (infinite_is_fresh (inode <$> elements (dom fs))).
  apply list_elem_of_fmap. eexists. split; [|apply elem_of_elements, elem_of_dom; by eexists]. done.
Qed.
