(* ===== verification/Bearer.v ===== *)
(** [src/src/bearer_token.rs]: the RFC 6750 [b64token] parser shared by daemon
    and client. *)
From Stdlib Require Import Ascii.
From stdpp Require Import base option strings numbers list.
From S2P Require Import Prelude RustStr.

Local Open Scope N_scope.

Definition MAX_BEARER_TOKEN_FILE_BYTES : N := 4096.

Inductive InvalidBearerToken := invalid_bearer_token.

Definition base_character (b : ascii) : bool :=
  is_ascii_alphanumeric b ||
  (byte_eqb b "-" || byte_eqb b "." || byte_eqb b "_" || byte_eqb b "~" ||
   byte_eqb b "+" || byte_eqb b "/").

(** The loop of [BearerToken::parse] with its two flags; [false] is the early
    [return Err]. *)
Fixpoint parse_loop (seen_base_character padding : bool) (token : string) : bool :=
  match token with
  | EmptyString => true
  | String byte rest =>
      if base_character byte && negb padding then parse_loop true padding rest
      else if byte_eqb byte "=" && seen_base_character
      then parse_loop seen_base_character true rest
      else false
  end.

(** [BearerToken::parse]; the token is the string it wraps. *)
Definition parse (token : string) : result InvalidBearerToken string :=
  if is_empty token || (MAX_BEARER_TOKEN_FILE_BYTES <? len token)
  then Err invalid_bearer_token
  else if parse_loop false false token then ok_or (from_utf8 token) invalid_bearer_token
  else Err invalid_bearer_token.

Definition lf : ascii := "010"%char.

(** [BearerToken::parse_file]. *)
Definition parse_file (contents : string) : result InvalidBearerToken string :=
  if is_empty contents || (MAX_BEARER_TOKEN_FILE_BYTES <? len contents)
  then Err invalid_bearer_token
  else parse (default contents (strip_suffix lf contents)).

(** The grammar the parser is meant to accept:
    [1*( ALPHA / DIGIT / "-" / "." / "_" / "~" / "+" / "/" ) *"="]. *)
Definition b64token (t : string) : Prop :=
  ∃ base pad, base ≠ "" ∧ all_bytes base_character base = true ∧
    t = base +:+ repeat_byte "=" pad.

Lemma parse_loop_padding t :
  parse_loop true true t = true ↔ ∃ n, t = repeat_byte "=" n.
Proof.
  induction t as [|a t IH]; [split; [by exists O|done]|].
  cbn. rewrite andb_false_r, andb_true_r.
  destruct (byte_eqb a "=") eqn:E.
  - apply byte_eqb_true in E as ->. rewrite IH. split.
    + intros [n ->]. by exists (S n).
    + intros [[|n] [= ->]]. by exists n.
  - apply byte_eqb_false in E. split; [done|]. intros [[|n] [=]]; done.
Qed.

Lemma equals_not_base : base_character "=" = false.
Proof. reflexivity. Qed.

Lemma parse_loop_base t :
  parse_loop true false t = true ↔
  ∃ base n, all_bytes base_character base = true ∧ t = base +:+ repeat_byte "=" n.
Proof.
  induction t as [|a t IH]; [split; [by exists "", O|done]|].
  cbn [parse_loop]. rewrite andb_true_r. destruct (base_character a) eqn:Ea.
  - rewrite IH. split.
    + intros (base & n & Hb & ->). exists (String a base), n. cbn. by rewrite Ea.
    + intros ([|b base] & n & Hb & Ht).
      * destruct n as [|n]; [done|]. injection Ht as -> _. by rewrite equals_not_base in Ea.
      * rewrite string_app_cons in Ht. injection Ht as <- ->. cbn in Hb.
        rewrite Ea in Hb. eauto.
  - destruct (byte_eqb a "=") eqn:E; cbn [andb].
    + apply byte_eqb_true in E as ->. rewrite parse_loop_padding. split.
      * intros [n ->]. by exists "", (S n).
      * intros ([|b base] & n & Hb & Ht).
        -- destruct n as [|n]; [done|]. injection Ht as ->. eauto.
        -- rewrite string_app_cons in Ht. injection Ht as <- _. done.
    + apply byte_eqb_false in E. split; [done|].
      intros ([|b base] & n & Hb & Ht).
      * destruct n; [done|]. by injection Ht.
      * rewrite string_app_cons in Ht. injection Ht as <- _. cbn in Hb.
        by rewrite Ea in Hb.
Qed.

Lemma parse_loop_spec t : t ≠ "" → parse_loop false false t = true ↔ b64token t.
Proof.
  destruct t as [|a t]; [done|]. intros _. cbn [parse_loop].
  rewrite andb_true_r, andb_false_r. destruct (base_character a) eqn:Ea.
  - rewrite parse_loop_base. split.
    + intros (base & n & Hb & ->). exists (String a base), n. cbn. by rewrite Ea.
    + intros ([|b base] & n & Hne & Hb & Ht); [done|].
      rewrite string_app_cons in Ht. injection Ht as <- ->. cbn in Hb.
      rewrite Ea in Hb. eauto.
  - split; [done|].
    intros ([|b base] & n & Hne & Hb & Ht); [done|].
    rewrite string_app_cons in Ht. injection Ht as <- ->. cbn in Hb. by rewrite Ea in Hb.
Qed.

Lemma base_character_ascii a : base_character a = true → is_ascii_byte a = true.
Proof.
  unfold base_character, is_ascii_alphanumeric, is_ascii_digit, is_ascii_uppercase,
    is_ascii_lowercase, in_range, is_ascii_byte. intros H. apply N.ltb_lt.
  rewrite !orb_true_iff, !andb_true_iff, !N.leb_le, !byte_eqb_true in H.
  repeat match goal with H : _ ∨ _ |- _ => destruct H end; subst; try done; lia.
Qed.

Lemma b64token_ascii t : b64token t → is_ascii t = true.
Proof.
  intros (base & n & _ & Hb & ->). unfold is_ascii. rewrite all_bytes_app, andb_true_iff.
  split; [by eapply all_bytes_impl, Hb; apply base_character_ascii|].
  by induction n.
Qed.

Lemma parse_Ok t t' :
  parse t = Ok t' ↔ t' = t ∧ len t ≤ MAX_BEARER_TOKEN_FILE_BYTES ∧ b64token t.
Proof.
  unfold parse. destruct (is_empty t || _) eqn:Hlen.
  - split; [done|]. intros (-> & Hl & base & n & Hne & _ & ->).
    apply orb_true_iff in Hlen as [He|He]; [|apply N.ltb_lt in He; lia].
    by destruct base.
  - breflect. assert (Hne : t ≠ "") by (by intros ->).
    rewrite <-(parse_loop_spec t Hne). destruct (parse_loop false false t) eqn:Hp.
    + rewrite ascii_utf8 by (by apply b64token_ascii, parse_loop_spec). naive_solver.
    + naive_solver.
Qed.

(** The token parser accepts exactly the [b64token] grammar within 4096 bytes and
    returns the bytes unchanged; in particular the final UTF-8 conversion never
    fails on what the loop accepted. *)
Theorem parse_accepts_b64token t :
  (parse t = Ok t ↔ len t ≤ MAX_BEARER_TOKEN_FILE_BYTES ∧ b64token t) ∧
  (∀ t', parse t = Ok t' → t' = t) ∧
  (parse_loop false false t = true → t ≠ "" → from_utf8 t = Some t).
Proof.
  split_and!.
  - rewrite parse_Ok. naive_solver.
  - intros t' H%parse_Ok. naive_solver.
  - intros H Hne. by apply ascii_utf8, b64token_ascii, parse_loop_spec.
Qed.

Lemma b64token_no_lf t u : b64token t → t ≠ u +:+ String lf "".
Proof.
  intros (base & n & _ & Hb & ->) He.
  assert (Ha : all_bytes (λ a, base_character a || byte_eqb a "=")
                 (base +:+ repeat_byte "=" n) = true).
  { rewrite all_bytes_app, andb_true_iff. split.
    - eapply all_bytes_impl, Hb. intros a ->. done.
    - clear He. induction n as [|n IH]; [done|exact IH]. }
  rewrite He, all_bytes_app in Ha. cbn in Ha. by rewrite andb_false_r in Ha.
Qed.

(** A credential file is accepted exactly when it is one [b64token] line of at
    most 4096 bytes in all, with at most one final line feed, and the token is
    returned without it; the token and its newline-terminated form read back the
    same token. *)
Theorem parse_file_round_trip contents t :
  parse_file contents = Ok t ↔
  b64token t ∧ len contents ≤ MAX_BEARER_TOKEN_FILE_BYTES ∧
  (contents = t ∨ contents = t +:+ String lf "").
Proof.
  unfold parse_file. destruct (is_empty contents || _) eqn:Hlen.
  - split; [done|]. intros (Ht & Hl & Hc).
    apply orb_true_iff in Hlen as [He|He]; [|apply N.ltb_lt in He; lia].
    destruct contents; [|done]. destruct Ht as ([|] & ? & ? & _ & ->); [done|].
    by destruct Hc.
  - breflect. rewrite parse_Ok.
    destruct (strip_suffix lf contents) as [u|] eqn:Hs; cbn.
    + apply strip_suffix_Some in Hs as ->. split.
      * intros (-> & Hl & Hb). eauto.
      * intros (Hb & Hl & [<-|Hc]); [by destruct (b64token_no_lf _ u Hb)|].
        assert (u = t) as ->.
        { apply strip_suffix_Some in Hc.
          assert (strip_suffix lf (u +:+ String lf "") = Some u) by (by apply strip_suffix_Some).
          congruence. }
        split_and!; [done| |done].
        unfold len in *. rewrite string_length_app in Hl. lia.
    + split.
      * intros (-> & Hl & Hb). eauto.
      * intros (Hb & Hl & [->|Hc]); [done|].
        apply strip_suffix_Some in Hc. congruence.
Qed.
