(* ===== verification/Auth.v ===== *)
(** Bearer authentication in [src/src/http.rs]: loading the credential files
    ([AuthSecrets::load_with_groups], [validate_credential_parent],
    [is_trusted_runtime_authority]), comparing digests ([AuthSecrets::matches])
    and the per-request check ([authorize]).

    SHA-256, the constant-time comparison and the header decoding belong to
    the [sha2], [subtle] and [http] crates: they are the class [AuthCrates]. *)
From Stdlib Require Import Ascii.
From stdpp Require Import base option strings numbers list.
From S2P Require Import Prelude RustStr Fs Bearer.

Local Open Scope N_scope.

(** * HTTP responses *)

(** What a handler answers: a bare status, a JSON [ErrorResponse], the busy
    answer with its [Retry-After] header, or a payload of the handler's own. *)
Inductive response (P : Type) :=
| StatusOnly (status : N)
| JsonError (status : N) (error : string)
| RetryAfter (status : N) (error : string) (seconds : N)
| Payload (p : P).
Arguments StatusOnly {P} status.
Arguments JsonError {P} status error.
Arguments RetryAfter {P} status error seconds.
Arguments Payload {P} p.

(** * The crates *)

Class AuthCrates := {
  sha256 : string → string;
  ct_eq : string → string → bool;
  header_to_str : string → option string;
}.

(** What their documentation promises: [ConstantTimeEq::ct_eq] decides
    equality, and [HeaderValue::to_str] returns the bytes as they are when all
    of them are visible ASCII (32 to 126). *)
Class AuthCratesLaws `{AuthCrates} : Prop := {
  ct_eq_spec : ∀ a b, ct_eq a b = true ↔ a = b;
  header_to_str_visible :
    ∀ s, all_bytes (in_range 32 126) s = true → header_to_str s = Some s;
  header_to_str_same : ∀ s t, header_to_str s = Some t → t = s;
}.

Record AuthSecrets := { digests : list string }.

(** * Credential files *)

Inductive credential_problem :=
| NoRuntimeParent
| CannotInspectRuntime (dir : list component)
| UnprotectedRuntime (dir : list component)
| CannotInspectContaining (dir : list component)
| UnprotectedContaining (dir : list component)
| CannotOpen | CannotInspect | UnprotectedFile | BadLength | CannotRead | BadToken.

Inductive HttpError := Credential (path : string) (problem : credential_problem).

Record RuntimeAuthorityMetadata := {
  ra_is_symlink : bool;
  ra_is_directory : bool;
  ra_owner_uid : N;
  ra_owner_gid : N;
  ra_mode : N;
}.

Definition is_trusted_runtime_authority (authority : list component)
    (metadata : RuntimeAuthorityMetadata) (task_uid : option N)
    (task_group_ids : list N) (macos : bool) : bool :=
  (bool_decide (authority = components "/var/run") && ra_is_symlink metadata) ||
  (macos &&
   bool_decide (authority = components "/private/var/run") &&
   negb (ra_is_symlink metadata) &&
   ra_is_directory metadata &&
   (ra_owner_uid metadata =? 0) &&
   negb (bool_decide (task_uid = Some 0)) &&
   negb (bool_decide (ra_owner_gid metadata ∈ task_group_ids)) &&
   negb (mode_has (ra_mode metadata) o002)).

Definition owned_by_task (task_uid : option N) (m : file_meta) : bool :=
  match task_uid with Some uid => fm_uid m =? uid | None => false end.

Section credentials.
(** The file system and platform the daemon starts on: [symlink_metadata] of a
    path, opening a credential file ([O_NOFOLLOW]) with its metadata and its
    bytes, and [cfg!(target_os = "macos")]. *)
Record opened_file := { of_metadata : option file_meta; of_read : option string }.
Context (symlink_metadata : list component → option file_meta).
Context (open_nofollow : string → option opened_file).
Context (macos : bool).

Definition check_authority (path : string) (daemon_uid : N) (task_uid : option N)
    (task_group_ids : list N) (authority : list component) : result HttpError unit :=
  am ← ok_or (symlink_metadata authority) (Credential path (CannotInspectContaining authority));
  if is_trusted_runtime_authority authority
       {| ra_is_symlink := is_symlink am; ra_is_directory := is_dir am;
          ra_owner_uid := fm_uid am; ra_owner_gid := fm_gid am; ra_mode := fm_mode am |}
       task_uid task_group_ids macos
  then Ok tt
  else reject_if
    (is_symlink am || negb (is_dir am) || owned_by_task task_uid am ||
     (negb (fm_uid am =? daemon_uid) && negb (fm_uid am =? 0)) ||
     (mode_has (fm_mode am) o022 && negb (mode_has (fm_mode am) o1000)))
    (Credential path (UnprotectedContaining authority)).

Definition validate_credential_parent (path : string) (daemon_uid : N)
    (task_uid : option N) (task_group_ids : list N) : result HttpError unit :=
  par ← ok_or (parent (components path)) (Credential path NoRuntimeParent);
  m ← ok_or (symlink_metadata par) (Credential path (CannotInspectRuntime par));
  _ ← reject_if
    (is_symlink m || negb (is_dir m) || negb (fm_uid m =? daemon_uid) ||
     mode_has (fm_mode m) o022 || owned_by_task task_uid m)
    (Credential path (UnprotectedRuntime par));
  for_each (check_authority path daemon_uid task_uid task_group_ids) (tail (ancestors par)).

(** The body of the loop in [load_with_groups]: one credential file to its
    digest.  [Read::take] keeps at most 4097 bytes. *)
Definition load_credential `{AuthCrates} (daemon_uid : N) (task_uid : option N)
    (task_group_ids : list N) (path : string) : result HttpError string :=
  _ ← validate_credential_parent path daemon_uid task_uid task_group_ids;
  file ← ok_or (open_nofollow path) (Credential path CannotOpen);
  m ← ok_or (of_metadata file) (Credential path CannotInspect);
  _ ← reject_if
    (negb (is_file m) || negb (fm_uid m =? daemon_uid) || mode_has (fm_mode m) o077 ||
     owned_by_task task_uid m)
    (Credential path UnprotectedFile);
  _ ← reject_if ((fm_len m =? 0) || (MAX_BEARER_TOKEN_FILE_BYTES <? fm_len m))
    (Credential path BadLength);
  all ← ok_or (of_read file) (Credential path CannotRead);
  let raw := String.substring 0 4097 all in
  _ ← reject_if (MAX_BEARER_TOKEN_FILE_BYTES <? len raw) (Credential path BadLength);
  token ← map_err (λ _, Credential path BadToken) (parse_file raw);
  Ok (sha256 token).

Definition load_with_groups `{AuthCrates} (daemon_uid : N) (paths : list string)
    (task_uid : option N) (task_group_ids : list N) : result HttpError AuthSecrets :=
  ds ← fold_each (λ ds path,
         d ← load_credential daemon_uid task_uid task_group_ids path;
         Ok (ds ++ [d])) [] paths;
  Ok {| digests := ds |}.
End credentials.

(** * Requests *)

(** [AuthSecrets::matches]: every digest is compared, none is skipped. *)
Definition matches `{AuthCrates} (auth : AuthSecrets) (token : string) : bool :=
  let candidate := sha256 token in
  foldl (λ matched digest, matched || ct_eq digest candidate) false (digests auth).

Definition get_all (name : string) (headers : list (string * string)) : list string :=
  omap (λ h, if bool_decide (h.1 = name) then Some h.2 else None) headers.

Definition AUTHORIZATION : string := "authorization".

(** The token of a header value: [strip_prefix("Bearer ")], then
    [BearerToken::parse]. *)
Definition header_token (value : option string) : option string :=
  (value ≫= strip_prefix "Bearer ") ≫= λ t, result_ok (parse t).

(** [authorize]: [None] lets the request through. *)
Definition authorize `{AuthCrates} {P} (headers : list (string * string))
    (auth : AuthSecrets) (enforce : bool) : option (response P) :=
  if negb enforce then None
  else
    let values := get_all AUTHORIZATION headers in
    let value := head values ≫= header_to_str in
    let duplicate := match tail values with [] => false | _ => true end in
    let token := header_token value in
    if duplicate || is_none token || negb (matches auth (default "" token))
    then Some (JsonError 401 "unauthorized")
    else None.

(** * Properties *)

Lemma list_eq_singleton_1 {A} (x y : A) : [x] = [y] → x = y.
Proof. congruence. Qed.

Lemma result_ok_Some {E A} (c : result E A) a : result_ok c = Some a ↔ c = Ok a.
Proof. destruct c; naive_solver. Qed.

Section authorize.
Context `{AuthCratesLaws}.

Lemma matches_spec auth token : matches auth token = true ↔ sha256 token ∈ digests auth.
Proof.
  unfold matches. set (c := sha256 token).
  enough (Hg : ∀ b l, foldl (λ m d, m || ct_eq d c) b l = true ↔ b = true ∨ c ∈ l).
  { rewrite Hg. naive_solver. }
  intros b l. revert b. induction l as [|d l IH]; intros b; cbn.
  - rewrite elem_of_nil. naive_solver.
  - rewrite IH, orb_true_iff, ct_eq_spec, elem_of_cons. naive_solver.
Qed.

Lemma token_visible t : b64token t → all_bytes (in_range 32 126) t = true.
Proof.
  intros (base & n & _ & Hb & ->). rewrite all_bytes_app, andb_true_iff. split.
  - eapply all_bytes_impl, Hb. intros a Ha.
    unfold base_character, is_ascii_alphanumeric, is_ascii_digit, is_ascii_uppercase,
      is_ascii_lowercase, in_range in *.
    rewrite !orb_true_iff, !andb_true_iff, !N.leb_le, !byte_eqb_true in Ha.
    rewrite andb_true_iff, !N.leb_le.
    repeat match goal with H : _ ∨ _ |- _ => destruct H end; subst; try (cbn; lia); lia.
  - induction n as [|n IH]; [done|exact IH].
Qed.

Lemma bearer_header_visible t :
  b64token t → header_to_str ("Bearer " +:+ t) = Some ("Bearer " +:+ t).
Proof.
  intros Ht. apply header_to_str_visible. rewrite all_bytes_app.
  rewrite (token_visible t Ht). reflexivity.
Qed.

Lemma header_token_Some v t :
  header_token (Some v ≫= header_to_str) = Some t ↔
  v = "Bearer " +:+ t ∧ len t ≤ MAX_BEARER_TOKEN_FILE_BYTES ∧ b64token t.
Proof.
  unfold header_token. change (Some v ≫= header_to_str) with (header_to_str v). split.
  - intros (u & (w & Hw & Hs)%bind_Some & Hp)%bind_Some.
    apply header_to_str_same in Hw as ->. apply strip_prefix_Some in Hs as ->.
    apply result_ok_Some, parse_Ok in Hp. naive_solver.
  - intros (-> & Hl & Hb). rewrite bearer_header_visible by done.
    apply bind_Some. exists t. split; [|by apply result_ok_Some, parse_Ok].
    apply bind_Some. eexists. split; [done|]. by apply strip_prefix_Some.
Qed.

(** C5: With enforcement on, a request passes exactly when it carries a single
    [Authorization] header, of the form [Bearer <token>] with a well-formed
    token whose SHA-256 digest is one of the loaded digests; every other request
    is answered [401] and nothing else. *)
Theorem authorize_iff {P} headers auth :
  (authorize (P:=P) headers auth true = None ↔
   ∃ token, get_all AUTHORIZATION headers = ["Bearer " +:+ token] ∧
     len token ≤ MAX_BEARER_TOKEN_FILE_BYTES ∧ b64token token ∧
     sha256 token ∈ digests auth) ∧
  (∀ r, authorize (P:=P) headers auth true = Some r → r = JsonError 401 "unauthorized").
Proof.
  unfold authorize. cbn [negb]. set (vs := get_all AUTHORIZATION headers).
  split; [|intros r; by destruct (_ || _ || _); intros [= <-]].
  destruct vs as [|v [|v' vs']]; cbn [head tail].
  - split; [done|]. by intros (? & ? & _).
  - destruct (header_token (Some v ≫= header_to_str)) as [t|] eqn:Ht;
      cbn [is_none orb].
    + apply header_token_Some in Ht as (-> & Hl & Hb).
      change (default "" (Some t)) with t.
      destruct (matches auth t) eqn:Hm; cbn [negb]; split; try done.
      * intros _. exists t. by apply matches_spec in Hm.
      * intros (u & Hu & _ & _ & Hd). apply list_eq_singleton_1, string_app_inj_l in Hu as <-.
        apply matches_spec in Hd. congruence.
    + split; [done|]. intros (u & Hu & Hl & Hb & _). apply list_eq_singleton_1 in Hu as ->.
      assert (header_token (Some ("Bearer " +:+ u) ≫= header_to_str) = Some u)
        by (by apply header_token_Some). congruence.
  - split; [done|]. by intros (? & ? & _).
Qed.
End authorize.

#[export] Instance demo_crates : AuthCrates :=
  {| sha256 := λ s, "h:" +:+ s; ct_eq := λ a b, bool_decide (a = b);
     header_to_str := λ s, if all_bytes (in_range 32 126) s then Some s else None |}.

#[export] Instance demo_crates_laws : AuthCratesLaws.
Proof.
  split; cbn.
  - intros a b. apply bool_decide_eq_true.
  - by intros s ->.
  - intros s t. destruct (all_bytes _ s); congruence.
Qed.

Lemma authorize_iff_witness :
  authorize (P:=unit) [("authorization", "Bearer abc=")] {| digests := ["h:abc="] |} true = None ∧
  authorize (P:=unit) [("authorization", "Bearer abd")] {| digests := ["h:abc="] |} true ≠ None.
Proof.
  split.
  - apply (authorize_iff (P:=unit)). exists "abc=". split_and!;
      [reflexivity|vm_compute; discriminate| |vm_compute; by left].
    exists "abc", 1%nat. split_and!; [discriminate|reflexivity|reflexivity].
  - vm_compute. discriminate.
Defined.

(** * Credential files *)

(** What a directory on the way to a credential must be so that the task
    identity can neither own it nor replace an entry of it. *)
Definition protected_dir (daemon_uid : N) (task_uid : option N) (m : file_meta) : Prop :=
  fm_kind m = Directory ∧ task_uid ≠ Some (fm_uid m) ∧
  (fm_uid m = daemon_uid ∨ fm_uid m = 0) ∧
  (N.land (fm_mode m) o022 = 0 ∨ ¬ (N.land (fm_mode m) o1000 = 0)).

(** The two platform directories that are accepted as they are. *)
Definition platform_authority (macos : bool) (task_uid : option N) (task_group_ids : list N)
    (dir : list component) (m : file_meta) : Prop :=
  (dir = components "/var/run" ∧ fm_kind m = Symlink) ∨
  (macos = true ∧ dir = components "/private/var/run" ∧ fm_kind m = Directory ∧
   fm_uid m = 0 ∧ task_uid ≠ Some 0 ∧ ¬ (fm_gid m ∈ task_group_ids) ∧
   N.land (fm_mode m) o002 = 0).

Lemma owned_by_task_false task_uid m :
  owned_by_task task_uid m = false → task_uid ≠ Some (fm_uid m).
Proof. destruct task_uid; cbn; [|done]. rewrite N.eqb_neq. congruence. Qed.

Section credential_facts.
Context `{AuthCrates}.
Context (lstat : list component → option file_meta).
Context (open_nofollow : string → option opened_file).
Context (macos : bool) (daemon_uid : N) (task_uid : option N) (gids : list N).

Lemma trusted_authority_platform dir m :
  is_trusted_runtime_authority dir
    {| ra_is_symlink := is_symlink m; ra_is_directory := is_dir m;
       ra_owner_uid := fm_uid m; ra_owner_gid := fm_gid m; ra_mode := fm_mode m |}
    task_uid gids macos = true →
  platform_authority macos task_uid gids dir m.
Proof.
  unfold is_trusted_runtime_authority, platform_authority. cbn.
  rewrite orb_true_iff. intros [?|?]; breflect.
  - left. split; [done|]. by eapply bool_decide_eq_true.
  - right. split_and!; try done; [by apply is_dir_true|by apply mode_has_false].
Qed.

Lemma check_authority_Ok path dir :
  check_authority lstat macos path daemon_uid task_uid gids dir = Ok tt →
  ∃ m, lstat dir = Some m ∧
    (platform_authority macos task_uid gids dir m ∨ protected_dir daemon_uid task_uid m).
Proof.
  unfold check_authority. intros (m & Hm%ok_or_Ok & Hc)%bind_Ok. exists m. split; [done|].
  destruct (is_trusted_runtime_authority _ _ _ _ _) eqn:Ht.
  - left. by apply trusted_authority_platform.
  - right. apply reject_if_Ok in Hc. rewrite !orb_false_iff in Hc.
    destruct Hc as ((((_ & Hd) & Ho) & Hu) & Hw).
    apply negb_false_iff, is_dir_true in Hd. apply owned_by_task_false in Ho.
    rewrite andb_false_iff, !negb_false_iff, !N.eqb_eq in Hu.
    rewrite andb_false_iff, negb_false_iff in Hw. split_and!; try done.
    destruct Hw as [Hw|Hw]; [left; by apply mode_has_false|right].
    unfold mode_has in Hw. by apply negb_true_iff, N.eqb_neq in Hw.
Qed.

(** If the daemon loads its credential files, then for every configured path the
    file is a regular file owned by the daemon with no group or other access
    and not owned by the task identity, its directory is a real directory owned
    by the daemon that nobody else can write, every directory above it is either one
    of the two accepted platform directories or a protected directory, and the stored
    digest is that of the one well-formed token in the file; digests are stored in
    the order of the paths. *)
Theorem credentials_loaded_are_protected paths auth :
  load_with_groups lstat open_nofollow macos daemon_uid paths task_uid gids = Ok auth →
  Forall2 (λ path digest,
    ∃ par dm file fm all token,
      parent (components path) = Some par ∧ lstat par = Some dm ∧
      fm_kind dm = Directory ∧ fm_uid dm = daemon_uid ∧ N.land (fm_mode dm) o022 = 0 ∧
      Forall (λ dir, ∃ m, lstat dir = Some m ∧
        (platform_authority macos task_uid gids dir m ∨ protected_dir daemon_uid task_uid m))
        (tail (ancestors par)) ∧
      open_nofollow path = Some file ∧ of_metadata file = Some fm ∧
      fm_kind fm = Regular ∧ fm_uid fm = daemon_uid ∧ N.land (fm_mode fm) o077 = 0 ∧
      task_uid ≠ Some (fm_uid fm) ∧
      of_read file = Some all ∧ parse_file (String.substring 0 4097 all) = Ok token ∧
      digest = sha256 token) paths (digests auth).
Proof.
  unfold load_with_groups. intros (ds & Hf & [= <-])%bind_Ok. cbn [digests].
  eapply (fold_each_inv (λ ds dn, Forall2 _ dn ds)) with (done := []) in Hf;
    [exact Hf| |constructor].
  clear Hf. intros s dn path s' Hinv (d & Hd & [= <-])%bind_Ok.
  apply Forall2_app; [done|]. repeat constructor. clear Hinv.
  unfold load_credential, validate_credential_parent in Hd.
  apply bind_Ok in Hd as ([] & Hp & Hd).
  apply bind_Ok in Hp as (par & Hpar%ok_or_Ok & Hp).
  apply bind_Ok in Hp as (dm & Hdm%ok_or_Ok & Hp).
  apply bind_Ok in Hp as ([] & Hdir%reject_if_Ok & Hp%for_each_Ok).
  apply bind_Ok in Hd as (file & Hfile%ok_or_Ok & Hd).
  apply bind_Ok in Hd as (fm & Hfm%ok_or_Ok & Hd).
  apply bind_Ok in Hd as ([] & Hprot%reject_if_Ok & Hd).
  apply bind_Ok in Hd as ([] & _ & Hd).
  apply bind_Ok in Hd as (all & Hall%ok_or_Ok & Hd).
  apply bind_Ok in Hd as ([] & _ & Hd).
  apply bind_Ok in Hd as (token & Htok%map_err_Ok & [= <-]).
  rewrite !orb_false_iff, !negb_false_iff in Hdir. rewrite !orb_false_iff, !negb_false_iff in Hprot.
  destruct Hdir as ((((_ & Hd1) & Hd2) & Hd3) & _).
  destruct Hprot as (((Hf1 & Hf2) & Hf3) & Hf4).
  exists par, dm, file, fm, all, token. split_and!; try done.
  - by apply is_dir_true.
  - by apply N.eqb_eq.
  - by apply mode_has_false.
  - eapply Forall_impl, check_authority_Ok. done.
  - by apply is_file_true.
  - by apply N.eqb_eq.
  - by apply mode_has_false.
  - by apply owned_by_task_false.
Qed.
End credential_facts.

Definition demo_lstat (dir : list component) : option file_meta :=
  Some {| fm_kind := Directory; fm_uid := 0; fm_gid := 0; fm_mode := 16877;
          fm_len := 0; fm_dev := 1; fm_ino := 2 |}.
Definition demo_open (path : string) : option opened_file :=
  Some {| of_metadata := Some {| fm_kind := Regular; fm_uid := 0; fm_gid := 0;
            fm_mode := 33152; fm_len := 4; fm_dev := 1; fm_ino := 3 |};
          of_read := Some ("abc" +:+ String lf "") |}.

Lemma credentials_loaded_are_protected_witness :
  load_with_groups demo_lstat demo_open false 0 ["/run/cred/token"] (Some 1000) [] =
    Ok {| digests := ["h:abc"] |} ∧
  ∃ file fm, demo_open "/run/cred/token" = Some file ∧ of_metadata file = Some fm ∧
    N.land (fm_mode fm) o077 = 0.
Proof.
  split; [vm_compute; reflexivity|].
  pose proof (credentials_loaded_are_protected (H:=demo_crates) demo_lstat demo_open false 0 (Some 1000) []
    ["/run/cred/token"] {| digests := ["h:abc"] |} ltac:(vm_compute; reflexivity)) as Hw.
  apply Forall2_cons_1 in Hw as [(par & dm & file & fm & all & token & Hw) _].
  exists file, fm. naive_solver.
Defined.
