(* ===== verification/Protocol.v ===== *)
(** [src/src/protocol.rs]: request metadata, identifiers, revisions, update
    paths and the wire types.

    JSON parsing and the derived [Deserialize] implementations belong to the
    [serde] crates: they are the class [Serde], whose laws state what the
    attributes in [protocol.rs] ([deny_unknown_fields], [default], [rename_all],
    [tag]) document. *)
From Stdlib Require Import Ascii.
From stdpp Require Import base option strings numbers gmap pretty list.
From S2P Require Import Prelude RustStr.

Local Open Scope N_scope.

(** * Constants *)

Definition REQUEST_SCHEMA_VERSION : string := "1".
Definition SESSION_REQUEST_SCHEMA_VERSION : string := "1".
Definition SESSION_UPDATE_SCHEMA_VERSION : string := "1".
Definition SESSION_ACTION_DISPATCH_SCHEMA_VERSION : string := "1".
Definition MAX_REQUEST_ID_LEN : N := 128.
Definition MAX_TASK_ID_LEN : N := 64.
Definition MAX_SESSION_ID_LEN : N := 128.
Definition MAX_ACTION_ID_LEN : N := 128.
Definition MAX_SESSION_ACTION_BODY_BYTES : N := 65536.
Definition MAX_SESSION_UPDATE_METADATA_BYTES : N := 65536.

(** * JSON values *)

(** [serde_json::Value]; an object is its key-value pairs, keys unique. *)
Inductive json :=
| JNull
| JBool (b : bool)
| JNumber (literal : string)
| JString (s : string)
| JArray (l : list json)
| JObject (fields : list (string * json)).

Definition as_object (v : json) : option (list (string * json)) :=
  match v with JObject o => Some o | _ => None end.
Definition as_str (v : json) : option string :=
  match v with JString s => Some s | _ => None end.
Fixpoint field (key : string) (o : list (string * json)) : option json :=
  match o with
  | [] => None
  | (k, v) :: o => if bool_decide (k = key) then Some v else field key o
  end.

(** * Request types *)

Inductive SourceFormat := Zip.
Record SourceMetadata := { format : SourceFormat }.

Record Request := {
  rq_schema_version : string;
  rq_request_id : option string;
  rq_task : string;
  rq_source : SourceMetadata;
}.

Record SessionStartRequest := {
  ss_schema_version : string;
  ss_request_id : option string;
  ss_task : string;
  ss_source : SourceMetadata;
}.

Record SessionActionRequest := {
  sa_schema_version : string;
  sa_input : list (string * json);
}.

Inductive SessionUpdateChange :=
| File (path sha256 : string)
| Delete (path : string).

Definition change_path (c : SessionUpdateChange) : string :=
  match c with File path _ | Delete path => path end.

Record SessionUpdateRequest := {
  su_schema_version : string;
  su_request_id : string;
  su_base_revision : string;
  su_source : SourceMetadata;
  su_changes : list SessionUpdateChange;
}.

Inductive RequestError :=
| NotObject
| MissingSchemaVersion
| InvalidSchemaVersionType
| UnsupportedSchemaVersion (version : string)
| InvalidJson (message : string)
| InvalidTask
| InvalidRequestId.

(** Its [Display]. *)
Definition request_error_message (e : RequestError) : string :=
  match e with
  | NotObject => "metadata must be a JSON object"
  | MissingSchemaVersion => "missing schema_version"
  | InvalidSchemaVersionType => "schema_version must be a string"
  | UnsupportedSchemaVersion version => "unsupported schema_version " +:+ version
  | InvalidJson message => "invalid metadata json: " +:+ message
  | InvalidTask => "task must be 1..=64 ASCII letters, digits, '_' or '-'"
  | InvalidRequestId => "request_id must be 1..=128 ASCII letters, digits, '_', '-' or '.'"
  end.

(** [serde_json::from_slice] and the derived decoders. *)
Class Serde := {
  from_slice : string → result string json;
  decode_request : json → result string Request;
  decode_session_start : json → result string SessionStartRequest;
  decode_session_update : json → result string SessionUpdateRequest;
  decode_session_action : json → result string SessionActionRequest;
}.

(** * Identifiers *)

Definition validate_identifier (value : string) (max_len : N) (allow_dot : bool) : result unit unit :=
  if is_empty value || (max_len <? len value) then Err tt
  else if all_bytes (λ byte, is_ascii_alphanumeric byte || byte_eqb byte "_" ||
                             byte_eqb byte "-" || (allow_dot && byte_eqb byte ".")) value
  then Ok tt else Err tt.

Definition valid_task_id (value : string) : bool :=
  is_ok (validate_identifier value MAX_TASK_ID_LEN false).
Definition valid_request_id (value : string) : bool :=
  is_ok (validate_identifier value MAX_REQUEST_ID_LEN true).
Definition valid_session_id (value : string) : bool :=
  is_ok (validate_identifier value MAX_SESSION_ID_LEN false).
Definition valid_action_id (value : string) : bool :=
  is_ok (validate_identifier value MAX_ACTION_ID_LEN false).

(** * Revisions *)

Definition digit_value (a : ascii) : N := code a - 48.

Fixpoint parse_digits (acc : N) (s : string) : option N :=
  match s with
  | EmptyString => Some acc
  | String a s =>
      if is_ascii_digit a then
        let acc := acc * 10 + digit_value a in
        if acc <=? u64_max then parse_digits acc s else None
      else None
  end.

(** [str::parse::<u64>]: an optional [+], then at least one digit, with the
    multiplication and addition checked. *)
Definition parse_u64 (s : string) : option N :=
  let digits := default s (strip_prefix "+" s) in
  if is_empty digits then None else parse_digits 0 digits.

(** [format!("rev_{revision}")]. *)
Definition format_revision (revision : N) : string := "rev_" +:+ pretty revision.

Definition parse_revision (value : string) : option N :=
  decimal ← strip_prefix "rev_" value;
  if is_empty decimal ||
     ((1 <? len decimal) && starts_with "0" decimal) ||
     negb (all_bytes is_ascii_digit decimal)
  then None
  else
    revision ← parse_u64 decimal;
    if bool_decide (format_revision revision = value) then Some revision else None.

(** * Update paths *)

Definition validate_update_path (path : string) (max_depth : N) : result RequestError unit :=
  let parts := split slash path in
  if is_empty path ||
     negb (is_ascii path) ||
     (contains_byte "\" path || contains_byte nul path) ||
     starts_with "/" path ||
     bool_decide (last_byte path = Some slash) ||
     existsb (λ c, is_empty c || bool_decide (c = ".") || bool_decide (c = "..")) parts
  then Err (InvalidJson "change path is invalid")
  else if max_depth <? N.of_nat (length parts)
  then Err (InvalidJson ("change path exceeds configured max_depth (" +:+ pretty max_depth +:+ ")"))
  else
    let first := default "" (head parts) in
    if eq_ignore_ascii_case first ".indentured" || eq_ignore_ascii_case first ".sessions"
    then Err (InvalidJson "change path targets reserved session storage")
    else Ok tt.

(** * Metadata parsers *)

Section parsers.
Context `{Serde}.

(** The version check every metadata parser starts with. *)
Definition schema_version_of (value : json) : result RequestError string :=
  object ← ok_or (as_object value) NotObject;
  version ← ok_or (field "schema_version" object) MissingSchemaVersion;
  ok_or (as_str version) InvalidSchemaVersionType.

Definition parse_request_metadata (data : string) : result RequestError Request :=
  value ← map_err InvalidJson (from_slice data);
  version ← schema_version_of value;
  _ ← reject_if (negb (bool_decide (version = REQUEST_SCHEMA_VERSION)))
        (UnsupportedSchemaVersion version);
  request ← map_err InvalidJson (decode_request value);
  _ ← map_err (λ _, InvalidTask) (validate_identifier (rq_task request) MAX_TASK_ID_LEN false);
  _ ← match rq_request_id request with
      | Some request_id =>
          map_err (λ _, InvalidRequestId) (validate_identifier request_id MAX_REQUEST_ID_LEN true)
      | None => Ok tt
      end;
  Ok request.

Definition parse_session_start_metadata (data : string) : result RequestError SessionStartRequest :=
  value ← map_err InvalidJson (from_slice data);
  version ← schema_version_of value;
  _ ← reject_if (negb (bool_decide (version = SESSION_REQUEST_SCHEMA_VERSION)))
        (UnsupportedSchemaVersion version);
  request ← map_err InvalidJson (decode_session_start value);
  _ ← map_err (λ _, InvalidTask) (validate_identifier (ss_task request) MAX_TASK_ID_LEN false);
  _ ← match ss_request_id request with
      | Some request_id =>
          map_err (λ _, InvalidRequestId) (validate_identifier request_id MAX_REQUEST_ID_LEN true)
      | None => Ok tt
      end;
  Ok request.

(** [sha256.len() == 64] and lowercase hexadecimal. *)
Definition valid_sha256_hex (s : string) : bool :=
  (len s =? 64) && all_bytes (λ b, is_ascii_digit b || in_range 97 102 b) s.

(** One iteration over [request.changes] with the two hash sets. *)
Definition check_change (max_depth : N) (sets : gset string * gset string)
    (change : SessionUpdateChange) : result RequestError (gset string * gset string) :=
  let '(exact, folded) := sets in
  let path := change_path change in
  _ ← validate_update_path path max_depth;
  _ ← reject_if (bool_decide (path ∈ exact) || bool_decide (to_ascii_lowercase path ∈ folded))
        (InvalidJson "changes contains duplicate or case-colliding paths");
  _ ← match change with
      | File _ sha256 => reject_if (negb (valid_sha256_hex sha256))
          (InvalidJson "sha256 must be 64 lowercase hexadecimal characters")
      | Delete _ => Ok tt
      end;
  Ok ({[path]} ∪ exact, {[to_ascii_lowercase path]} ∪ folded).

Definition parse_session_update_metadata (data : string) (max_files max_depth : N) :
    result RequestError SessionUpdateRequest :=
  value ← map_err InvalidJson (from_slice data);
  version ← schema_version_of value;
  _ ← reject_if (negb (bool_decide (version = SESSION_UPDATE_SCHEMA_VERSION)))
        (UnsupportedSchemaVersion version);
  request ← map_err InvalidJson (decode_session_update value);
  _ ← map_err (λ _, InvalidRequestId)
        (validate_identifier (su_request_id request) MAX_REQUEST_ID_LEN true);
  _ ← ok_or (parse_revision (su_base_revision request))
        (InvalidJson "base_revision must be rev_<decimal>");
  _ ← reject_if (bool_decide (su_changes request = []))
        (InvalidJson "changes must not be empty");
  _ ← reject_if (max_files <? N.of_nat (length (su_changes request)))
        (InvalidJson ("changes exceeds configured max_files (" +:+ pretty max_files +:+ ")"));
  _ ← fold_each (check_change max_depth) (∅, ∅) (su_changes request);
  Ok request.

Inductive SessionActionRequestError :=
| ActionTooLarge
| ActionNotObject
| ActionMissingSchemaVersion
| ActionInvalidSchemaVersionType
| ActionUnsupportedSchemaVersion (version : string)
| MissingInput
| InputNotObject
| ActionInvalidJson (message : string).

(** Its [Display]. *)
Definition action_request_error_message (e : SessionActionRequestError) : string :=
  match e with
  | ActionTooLarge => "action body exceeds 65536 bytes"
  | ActionNotObject => "action body must be a JSON object"
  | ActionMissingSchemaVersion => "missing schema_version"
  | ActionInvalidSchemaVersionType => "schema_version must be a string"
  | ActionUnsupportedSchemaVersion version => "unsupported schema_version " +:+ version
  | MissingInput => "missing input"
  | InputNotObject => "input must be a JSON object"
  | ActionInvalidJson message => "invalid action json: " +:+ message
  end.

Definition parse_session_action_request (data : string) :
    result SessionActionRequestError SessionActionRequest :=
  _ ← reject_if (MAX_SESSION_ACTION_BODY_BYTES <? len data) ActionTooLarge;
  value ← map_err ActionInvalidJson (from_slice data);
  object ← ok_or (as_object value) ActionNotObject;
  version ← ok_or (field "schema_version" object) ActionMissingSchemaVersion;
  version ← ok_or (as_str version) ActionInvalidSchemaVersionType;
  _ ← reject_if (negb (bool_decide (version = SESSION_REQUEST_SCHEMA_VERSION)))
        (ActionUnsupportedSchemaVersion version);
  input ← ok_or (field "input" object) MissingInput;
  _ ← reject_if (is_none (as_object input)) InputNotObject;
  map_err ActionInvalidJson (decode_session_action value).
End parsers.

(** * Wire types of the event streams and answers *)

Record ArtifactArchive := { aa_path : string; aa_size : N }.

Inductive BuildPhase := Setup | Run.

#[export] Instance build_phase_eq_dec : EqDecision BuildPhase.
Proof. solve_decision. Defined.

Record PhaseResult := {
  ph_phase : BuildPhase;
  ph_duration_ms : N;
  ph_exit_code : Z;
  ph_timed_out : bool;
}.

Record ArtifactRestrictions := { omitted_count : N; matched_patterns : list string }.

Record SessionUpdateEvidence := { ev_path : string; ev_sha256 : string }.

Record SessionUpdateResponse := {
  ur_session_id : string;
  ur_update_id : string;
  ur_request_id : string;
  ur_base_revision : string;
  ur_workspace_revision : string;
  ur_changed : list SessionUpdateEvidence;
  ur_deleted : list SessionUpdateEvidence;
}.

Record SessionTeardownResult := {
  td_duration_ms : N;
  td_exit_code : option Z;
  td_timed_out : bool;
  td_error_code : option string;
}.

Record SessionStopResponse := {
  sp_session_id : string;
  sp_teardown : SessionTeardownResult;
  sp_artifacts : option ArtifactArchive;
  sp_artifact_restrictions : option ArtifactRestrictions;
}.

Inductive SessionStartStatus := Started | PhaseStarted | PhaseFinished | StartingServices.

Inductive SessionStartEvent :=
| SSession (id : string) (status : SessionStartStatus) (phase : option BuildPhase)
    (duration_ms : option N) (exit_code : option Z) (timed_out : option bool)
| SStdout (data : string)
| SStderr (data : string)
| SError (code : string) (message : option string) (phase : option BuildPhase)
| SReady (session_id workspace_revision : string) (phases : list PhaseResult)
| SExit (code : Z) (timed_out : bool) (failed_phase : option BuildPhase)
    (phases : list PhaseResult).

Inductive SessionActionStatus := ActionStarted | Snapshotting.

Inductive SessionActionEvent :=
| AAction (session_id action_id action workspace_revision : string)
    (status : SessionActionStatus)
| AStdout (data : string)
| AStderr (data : string)
| AError (code : string) (message : option string)
| AExit (session_id action_id action workspace_revision : string) (code : Z)
    (timed_out : bool) (artifacts : option ArtifactArchive)
    (artifact_restrictions : option ArtifactRestrictions).

Inductive ResponseEvent :=
| RBuild (id status : string) (phase : option BuildPhase) (duration_ms : option N)
    (exit_code : option Z) (timed_out : option bool)
| RStdout (data : string)
| RStderr (data : string)
| RError (code : string) (message pattern : option string) (phase : option BuildPhase)
| RExit (code : Z) (timed_out : bool) (artifacts : option ArtifactArchive)
    (artifact_restrictions : option ArtifactRestrictions)
    (failed_phase : option BuildPhase) (phases : list PhaseResult).

(** * Identifiers *)

Definition identifier_byte (allow_dot : bool) (byte : ascii) : bool :=
  is_ascii_alphanumeric byte || byte_eqb byte "_" || byte_eqb byte "-" ||
  (allow_dot && byte_eqb byte ".").

(** * Revisions *)

Lemma pretty_digit x : x < 10 →
  is_ascii_digit (pretty_N_char x) = true ∧ digit_value (pretty_N_char x) = x.
Proof.
  intros Hx. assert (∃ n, x = N.of_nat n ∧ (n < 10)%nat) as (n & -> & Hn).
  { exists (N.to_nat x). lia. }
  do 10 (destruct n as [|n]; [by vm_compute|]). lia.
Qed.

Lemma div10_mod10 x : x = x `div` 10 * 10 + x `mod` 10.
Proof. rewrite N.mul_comm. apply N.div_mod. lia. Qed.

Lemma parse_pretty_go x s :
  x ≤ u64_max →
  all_bytes is_ascii_digit (pretty_N_go x s) = all_bytes is_ascii_digit s ∧
  (parse_digits 0 (pretty_N_go x s) = parse_digits x s).
Proof.
  revert s. induction (N.lt_wf_0 x) as [x _ IH]; intros s Hx.
  destruct (decide (x = 0)) as [->|Hne]; [by rewrite pretty_N_go_0|].
  rewrite pretty_N_go_step by lia. pose proof (div10_mod10 x) as Hdm.
  assert (Hm : x `mod` 10 < 10) by (apply N.mod_lt; lia).
  destruct (pretty_digit _ Hm) as [Hd Hv].
  destruct (IH (x `div` 10) ltac:(lia) (String (pretty_N_char (x `mod` 10)) s) ltac:(lia))
    as [H1 H2].
  rewrite H1, H2. cbn [all_bytes parse_digits]. rewrite Hd, Hv, <-Hdm.
  assert ((x <=? u64_max) = true) as -> by (by apply N.leb_le). done.
Qed.

Lemma parse_digits_acc acc s n :
  parse_digits acc s = Some n → acc ≤ u64_max → n ≤ u64_max.
Proof.
  revert acc. induction s as [|a s IH]; intros acc; cbn; [naive_solver lia|].
  destruct (is_ascii_digit a); [|done].
  destruct (acc * 10 + digit_value a <=? u64_max) eqn:E; [|done]. breflect. eauto.
Qed.

Lemma pretty_go_ind (P : string → Prop) :
  (∀ d s, d < 10 → P s → P (String (pretty_N_char d) s)) →
  ∀ x s, P s → P (pretty_N_go x s).
Proof.
  intros Hstep x. induction (N.lt_wf_0 x) as [x _ IH]; intros s Hs.
  destruct (decide (x = 0)) as [->|Hne]; [by rewrite pretty_N_go_0|].
  rewrite pretty_N_go_step by lia.
  apply (IH (x `div` 10)); [apply N.div_lt; lia|]. apply Hstep; [apply N.mod_lt; lia|done].
Qed.

Lemma pretty_all_digits (x : N) :
  pretty x ≠ "" ∧ all_bytes is_ascii_digit (pretty x) = true.
Proof.
  unfold pretty, pretty_N. case_decide; [done|]. split.
  - rewrite pretty_N_go_step by lia. by apply pretty_go_ind.
  - apply (pretty_go_ind (λ s, all_bytes is_ascii_digit s = true)); [|done].
    intros d s Hd Hs. cbn. rewrite Hs. by destruct (pretty_digit d Hd) as [-> _].
Qed.

(** No leading zero: the first digit of a positive number is not zero. *)
Lemma pretty_go_head x s : 0 < x → ∃ d t, pretty_N_go x s = String (pretty_N_char d) t ∧ 0 < d < 10.
Proof.
  revert s. induction (N.lt_wf_0 x) as [x _ IH]; intros s Hx.
  rewrite pretty_N_go_step by done. pose proof (div10_mod10 x).
  assert (x `mod` 10 < 10) by (apply N.mod_lt; lia).
  destruct (decide (x `div` 10 = 0)) as [Hz|Hz]; [|apply IH; [apply N.div_lt|]; lia].
  rewrite Hz, pretty_N_go_0. do 2 eexists. split; [done|lia].
Qed.

Lemma pretty_no_leading_zero (x : N) :
  (1 <? len (pretty x)) && starts_with "0" (pretty x) = false.
Proof.
  unfold pretty, pretty_N. case_decide; [done|].
  destruct (pretty_go_head x "" ltac:(lia)) as (d & t & -> & Hd).
  apply andb_false_iff. right. unfold starts_with. cbn.
  destruct (byte_eqb "0" (pretty_N_char d)) eqn:E; [|done].
  apply byte_eqb_true in E. destruct (pretty_digit d ltac:(lia)) as [_ Hv].
  rewrite <-E in Hv. vm_compute in Hv. lia.
Qed.

Lemma parse_u64_pretty x : x ≤ u64_max → parse_u64 (pretty x) = Some x.
Proof.
  intros Hx. unfold parse_u64. destruct (pretty_all_digits x) as [Hne Hd].
  assert (strip_prefix "+" (pretty x) = None) as ->.
  { destruct (strip_prefix "+" (pretty x)) as [t|] eqn:E; [|done].
    apply strip_prefix_Some in E. rewrite E in Hd. done. }
  cbn [default from_option]. unfold id.
  destruct (is_empty (pretty x)) eqn:He; [by destruct (pretty x)|].
  unfold pretty, pretty_N. case_decide as Hz; [by subst|].
  by apply parse_pretty_go.
Qed.

Lemma parse_u64_bound s n : parse_u64 s = Some n → n ≤ u64_max.
Proof.
  unfold parse_u64. destruct (is_empty _); [done|].
  intros H. by eapply parse_digits_acc in H.
Qed.

Lemma revision_canonical n value :
  parse_revision value = Some n → value = format_revision n ∧ n ≤ u64_max.
Proof.
  unfold parse_revision. intros (d & _ & H)%bind_Some.
  destruct (_ || _ || _); [done|].
  apply bind_Some in H as (m & Hm%parse_u64_bound & H).
  case_bool_decide as E; [|done]. injection H as ->. done.
Qed.

(** Revision strings round-trip: [parse_revision] inverts the [rev_<n>] format on
    every [u64], and whatever it accepts is the canonical text of a [u64]; so a
    revision has exactly one accepted spelling. *)
Theorem revision_round_trip n value :
  (n ≤ u64_max → parse_revision (format_revision n) = Some n) ∧
  (parse_revision value = Some n → value = format_revision n ∧ n ≤ u64_max).
Proof.
  split.
  - intros Hn. unfold parse_revision, format_revision.
    assert (strip_prefix "rev_" ("rev_" +:+ pretty n) = Some (pretty n)) as ->
      by (by apply strip_prefix_Some).
    destruct (pretty_all_digits n) as [Hne Hd]. cbn [mbind option_bind].
    rewrite pretty_no_leading_zero, Hd, parse_u64_pretty by done.
    destruct (is_empty (pretty n)) eqn:He; [by destruct (pretty n)|].
    cbn. by rewrite bool_decide_true.
  - apply revision_canonical.
Qed.

Lemma revision_round_trip_witness :
  parse_revision (format_revision 42) = Some 42 ∧ parse_revision "rev_042" = None ∧
  "rev_7" = format_revision 7.
Proof.
  split; [|split].
  - apply (revision_round_trip 42 ""). vm_compute. discriminate.
  - vm_compute. reflexivity.
  - apply (revision_round_trip 7 "rev_7"). vm_compute. reflexivity.
Defined.

(** * Update paths *)

Lemma existsb_false {A} (p : A → bool) l : existsb p l = false ↔ Forall (λ x, p x = false) l.
Proof.
  induction l as [|x l IH]; cbn; [naive_solver|].
  rewrite orb_false_iff, Forall_cons. naive_solver.
Qed.

Lemma classify_normal part :
  is_empty part || bool_decide (part = ".") || bool_decide (part = "..") = false →
  classify part = [Normal part].
Proof.
  rewrite !orb_false_iff, !bool_decide_eq_false. intros [[He H1] H2].
  assert (part ≠ "") by (by intros ->). unfold classify.
  by rewrite !bool_decide_false by done.
Qed.

Definition ordinary_name (c : string) : Prop := c ≠ "" ∧ c ≠ "." ∧ c ≠ "..".

Lemma ordinary_name_spec c :
  is_empty c || bool_decide (c = ".") || bool_decide (c = "..") = false ↔ ordinary_name c.
Proof.
  unfold ordinary_name. rewrite !orb_false_iff, !bool_decide_eq_false.
  destruct c; naive_solver.
Qed.

(** A path of ordinary names has no leading or trailing separator. *)
Lemma ordinary_parts_no_edge path :
  Forall ordinary_name (split slash path) →
  path ≠ "" ∧ starts_with "/" path = false ∧ last_byte path ≠ Some slash.
Proof.
  intros Hf. split_and!.
  - intros ->. cbn in Hf. apply Forall_cons_1 in Hf as [[? _] _]. done.
  - destruct (starts_with "/" path) eqn:E; [|done].
    apply starts_with_true in E as [t ->]. change ("/" +:+ t) with (String slash t) in Hf.
    rewrite split_cons_eq in Hf. apply Forall_cons_1 in Hf as [[? _] _]. done.
  - intros (t & ->)%last_byte_slash. change "/" with (String slash "") in Hf.
    rewrite split_app in Hf. apply Forall_app in Hf as [_ Hf].
    apply Forall_cons_1 in Hf as [[? _] _]. done.
Qed.

Definition reserved_component (c : string) : bool :=
  eq_ignore_ascii_case c ".indentured" || eq_ignore_ascii_case c ".sessions".

(** What the update handler may rely on for a declared change path. *)
Definition safe_update_path (max_depth : N) (path : string) : Prop :=
  is_ascii path = true ∧ contains_byte "\" path = false ∧ contains_byte nul path = false ∧
  Forall ordinary_name (split slash path) ∧
  N.of_nat (length (split slash path)) ≤ max_depth ∧
  (∀ first, head (split slash path) = Some first → reserved_component first = false).

Lemma validate_update_path_Ok path max_depth u :
  validate_update_path path max_depth = Ok u ↔ safe_update_path max_depth path.
Proof.
  destruct u. unfold validate_update_path, safe_update_path. fold (reserved_component).
  pose proof (split_ne slash path) as Hne.
  destruct (existsb _ (split slash path)) eqn:Hparts.
  { rewrite orb_true_r. split; [done|]. intros (_ & _ & _ & Hf & _).
    assert (Hx : existsb (λ c, is_empty c || bool_decide (c = ".") || bool_decide (c = ".."))
      (split slash path) = false); [|congruence].
    apply existsb_false. eapply Forall_impl; [exact Hf|]. intros c. apply ordinary_name_spec. }
  rewrite existsb_false in Hparts. setoid_rewrite ordinary_name_spec in Hparts.
  destruct (ordinary_parts_no_edge path Hparts) as (Hp & Hs & Hl).
  rewrite orb_false_r, Hs, (bool_decide_false _ Hl), !orb_false_r.
  destruct (is_empty path) eqn:He; [by destruct path|]. cbn [orb].
  destruct (is_ascii path), (contains_byte "\" path), (contains_byte nul path);
    cbn [negb orb]; try naive_solver.
  destruct (N.ltb_spec max_depth (N.of_nat (length (split slash path)))) as [Hd|Hd];
    [naive_solver lia|].
  destruct (split slash path) as [|first rest]; [done|]. cbn [head default from_option].
  unfold id. fold (reserved_component first).
  destruct (reserved_component first) eqn:Hr.
  - split; [done|]. intros (_ & _ & _ & _ & _ & Hres). by rewrite (Hres first) in Hr.
  - split; [|done]. intros _. split_and!; try done. by intros f [= <-].
Qed.

(** A change path is accepted exactly when it is an ASCII path of ordinary names
    (no root, no empty, [.] or [..] component, no NUL or backslash), at most
    [max_depth] deep, whose first component is not reserved session storage in
    any letter case; joined to a workspace it therefore names exactly that chain
    of entries beneath the workspace. *)
Theorem update_path_accepted_iff path max_depth :
  (validate_update_path path max_depth = Ok tt ↔ safe_update_path max_depth path) ∧
  (validate_update_path path max_depth = Ok tt → ∀ root, root ≠ "" →
   components (path_join root path) = components root ++ (Normal <$> split slash path)).
Proof.
  split; [apply validate_update_path_Ok|].
  intros (_ & _ & _ & Hf & _)%validate_update_path_Ok root Hr.
  destruct (ordinary_parts_no_edge path Hf) as (_ & Hs & _).
  rewrite components_join by done. f_equal.
  induction Hf as [|x l Hx Hf IH]; [done|].
  change ((x :: l) ≫= classify) with (classify x ++ (l ≫= classify)).
  by rewrite classify_normal, IH by (by apply ordinary_name_spec).
Qed.

Lemma update_path_accepted_iff_witness :
  validate_update_path "src/lib.rs" 2 = Ok tt ∧
  components (path_join "/ws" "src/lib.rs") = components "/ws" ++ [Normal "src"; Normal "lib.rs"] ∧
  validate_update_path ".Sessions/x" 9 ≠ Ok tt.
Proof.
  split_and!; [vm_compute; reflexivity| |vm_compute; discriminate].
  apply (update_path_accepted_iff "src/lib.rs" 2); [vm_compute; reflexivity|discriminate].
Defined.

(** * Update metadata *)

Section update_metadata.
Context `{Serde}.

Lemma check_changes_inv max_depth changes exact folded :
  fold_each (check_change max_depth) (∅, ∅) changes = Ok (exact, folded) →
  Forall (λ c, safe_update_path max_depth (change_path c)) changes ∧
  NoDup (to_ascii_lowercase ∘ change_path <$> changes) ∧
  (∀ p h, File p h ∈ changes → valid_sha256_hex h = true).
Proof.
  intros Hf. apply (fold_each_inv (λ sets dn,
    (∀ c, c ∈ dn → to_ascii_lowercase (change_path c) ∈ sets.2) ∧
    Forall (λ c, safe_update_path max_depth (change_path c)) dn ∧
    NoDup (to_ascii_lowercase ∘ change_path <$> dn) ∧
    (∀ p h, File p h ∈ dn → valid_sha256_hex h = true))) with (done := []) in Hf;
    [naive_solver| |].
  2:{ split_and!; [|constructor|constructor|]; by intros * ?%elem_of_nil. }
  clear Hf. intros [ex fo] dn c s' (Hin & Hsafe & Hnd & Hsha) Hc. cbn in Hc, Hin.
  apply bind_Ok in Hc as ([] & Hp%validate_update_path_Ok & Hc).
  apply bind_Ok in Hc as ([] & Hdup%reject_if_Ok & Hc).
  apply bind_Ok in Hc as ([] & Hs & [= <-]). cbn.
  rewrite orb_false_iff, !bool_decide_eq_false in Hdup. destruct Hdup as [_ Hdup].
  split_and!.
  - intros c' [Hc'|Hc'%list_elem_of_singleton]%elem_of_app; [set_solver|subst; set_solver].
  - apply Forall_app. auto.
  - rewrite fmap_app. apply NoDup_app. split_and!; [done| |apply NoDup_singleton].
    intros x (c' & -> & Hc')%list_elem_of_fmap. cbn. rewrite list_elem_of_singleton.
    intros Heq. apply Hdup. cbn in Heq. rewrite <-Heq. by apply Hin.
  - intros p h [Hc'|Hc'%list_elem_of_singleton]%elem_of_app; [eauto|]. subst c.
    by apply reject_if_Ok, negb_false_iff in Hs.
Qed.

(** Accepted update metadata names at least one and at most [max_files] changes;
    every change path is safe within [max_depth], no two paths are equal even up
    to ASCII letter case, every declared digest is 64 lowercase hexadecimal
    digits, the request identifier is a bounded identifier and the base
    revision is the canonical text of a [u64]. *)
Theorem update_metadata_accepted data max_files max_depth request :
  parse_session_update_metadata data max_files max_depth = Ok request →
  0 < N.of_nat (length (su_changes request)) ≤ max_files ∧
  Forall (λ c, safe_update_path max_depth (change_path c)) (su_changes request) ∧
  NoDup (to_ascii_lowercase ∘ change_path <$> su_changes request) ∧
  (∀ p h, File p h ∈ su_changes request → valid_sha256_hex h = true) ∧
  valid_request_id (su_request_id request) = true ∧
  ∃ base, base ≤ u64_max ∧ su_base_revision request = format_revision base.
Proof.
  unfold parse_session_update_metadata.
  intros (v & _ & Hr)%bind_Ok. apply bind_Ok in Hr as (ver & _ & Hr).
  apply bind_Ok in Hr as ([] & _ & Hr). apply bind_Ok in Hr as (r & _ & Hr).
  apply bind_Ok in Hr as ([] & Hid%map_err_Ok & Hr).
  apply bind_Ok in Hr as (base & Hbase%ok_or_Ok & Hr).
  apply bind_Ok in Hr as ([] & Hne%reject_if_Ok & Hr).
  apply bind_Ok in Hr as ([] & Hmax%reject_if_Ok & Hr).
  apply bind_Ok in Hr as ([ex fo] & Hloop & [= <-]).
  apply check_changes_inv in Hloop as (Hsafe & Hnd & Hsha). breflect.
  split_and!; try done.
  - destruct (su_changes r); [done|]. cbn. lia.
  - apply is_ok_true. eauto.
  - exists base. destruct (revision_canonical _ _ Hbase). done.
Qed.
End update_metadata.

(** * Strict metadata *)

(** The derived decoders on a JSON object, as the serde attributes document
    them: [deny_unknown_fields] rejects every other key, a [String] field needs
    a JSON string, an [Option<String>] with [default] may be missing or null. *)
Class SerdeLaws `{Serde} : Prop := {
  decode_request_fields : ∀ o r, decode_request (JObject o) = Ok r →
    (∀ k v, field k o = Some v → k ∈ ["schema_version"; "request_id"; "task"; "source"]) ∧
    field "schema_version" o = Some (JString (rq_schema_version r)) ∧
    field "task" o = Some (JString (rq_task r)) ∧
    rq_request_id r = field "request_id" o ≫= as_str;
  decode_session_start_fields : ∀ o r, decode_session_start (JObject o) = Ok r →
    (∀ k v, field k o = Some v → k ∈ ["schema_version"; "request_id"; "task"; "source"]) ∧
    field "schema_version" o = Some (JString (ss_schema_version r)) ∧
    field "task" o = Some (JString (ss_task r)) ∧
    ss_request_id r = field "request_id" o ≫= as_str;
  decode_session_action_fields : ∀ o r, decode_session_action (JObject o) = Ok r →
    (∀ k v, field k o = Some v → k ∈ ["schema_version"; "input"]) ∧
    field "input" o = Some (JObject (sa_input r));
}.

Section strict_metadata.
Context `{Serde}.

Lemma schema_version_of_Ok v ver :
  schema_version_of v = Ok ver ↔
  ∃ o, v = JObject o ∧ field "schema_version" o = Some (JString ver).
Proof.
  unfold schema_version_of. rewrite bind_Ok. split.
  - intros (o & Ho%ok_or_Ok & (x & Hx%ok_or_Ok & Hs%ok_or_Ok)%bind_Ok).
    destruct v; try done. injection Ho as ->. destruct x; try done. naive_solver.
  - intros (o & -> & Ho). exists o. split; [done|]. by rewrite Ho.
Qed.

(** Every metadata parser fails closed on the schema version before it looks at
    anything else: whatever the rest of the object holds, a version other than the
    supported one is answered with that version, a missing one with
    [MissingSchemaVersion], and no request is decoded. *)
Theorem schema_version_checked_first data o :
  from_slice data = Ok (JObject o) →
  (field "schema_version" o = None →
    parse_request_metadata data = Err MissingSchemaVersion ∧
    parse_session_start_metadata data = Err MissingSchemaVersion ∧
    (∀ f d, parse_session_update_metadata data f d = Err MissingSchemaVersion) ∧
    (len data ≤ MAX_SESSION_ACTION_BODY_BYTES →
     parse_session_action_request data = Err ActionMissingSchemaVersion)) ∧
  (∀ ver, field "schema_version" o = Some (JString ver) → ver ≠ "1" →
    parse_request_metadata data = Err (UnsupportedSchemaVersion ver) ∧
    parse_session_start_metadata data = Err (UnsupportedSchemaVersion ver) ∧
    (∀ f d, parse_session_update_metadata data f d = Err (UnsupportedSchemaVersion ver)) ∧
    (len data ≤ MAX_SESSION_ACTION_BODY_BYTES →
     parse_session_action_request data = Err (ActionUnsupportedSchemaVersion ver))).
Proof.
  unfold parse_request_metadata, parse_session_start_metadata,
    parse_session_update_metadata, parse_session_action_request, schema_version_of,
    REQUEST_SCHEMA_VERSION, SESSION_REQUEST_SCHEMA_VERSION, SESSION_UPDATE_SCHEMA_VERSION.
  intros Hd. split; [intros Hf|intros ver Hf Hv]; rewrite Hd; cbn; rewrite Hf; cbn;
    rewrite ?(bool_decide_false _ Hv); split_and!; try done; intros Hl;
    by rewrite (proj2 (N.ltb_ge _ _) Hl).
Qed.

Context `{!SerdeLaws}.

(** An accepted one-shot or session-start request is a JSON object with no field
    beyond [schema_version], [request_id], [task] and [source]; its version is the
    supported one, its task is a bounded task identifier and its request identifier,
    if any, a bounded request identifier; an accepted action body has only
    [schema_version] and an object [input], which is passed on as it is. *)
Theorem accepted_metadata_is_closed data :
  (∀ r, parse_request_metadata data = Ok r →
    ∃ o, from_slice data = Ok (JObject o) ∧
      (∀ k v, field k o = Some v → k ∈ ["schema_version"; "request_id"; "task"; "source"]) ∧
      rq_schema_version r = REQUEST_SCHEMA_VERSION ∧ valid_task_id (rq_task r) = true ∧
      ∀ id, rq_request_id r = Some id → valid_request_id id = true) ∧
  (∀ r, parse_session_start_metadata data = Ok r →
    ∃ o, from_slice data = Ok (JObject o) ∧
      (∀ k v, field k o = Some v → k ∈ ["schema_version"; "request_id"; "task"; "source"]) ∧
      ss_schema_version r = SESSION_REQUEST_SCHEMA_VERSION ∧ valid_task_id (ss_task r) = true ∧
      ∀ id, ss_request_id r = Some id → valid_request_id id = true) ∧
  (∀ r, parse_session_action_request data = Ok r →
    len data ≤ MAX_SESSION_ACTION_BODY_BYTES ∧
    ∃ o, from_slice data = Ok (JObject o) ∧
      (∀ k v, field k o = Some v → k ∈ ["schema_version"; "input"]) ∧
      field "input" o = Some (JObject (sa_input r))).
Proof.
  split_and!.
  - intros r (v & Hd%map_err_Ok & Hr)%bind_Ok.
    apply bind_Ok in Hr as (ver & (o & -> & Hver)%schema_version_of_Ok & Hr).
    apply bind_Ok in Hr as ([] & Hv%reject_if_Ok & Hr).
    apply bind_Ok in Hr as (q & Hq%map_err_Ok & Hr).
    apply bind_Ok in Hr as ([] & Ht%map_err_Ok & Hr).
    apply bind_Ok in Hr as ([] & Hid & [= <-]). breflect. subst ver.
    apply decode_request_fields in Hq as (Hk & Hsv & Htask & Hrid).
    exists o. split_and!; [done|done|congruence|apply is_ok_true; eauto|].
    intros id Hi. rewrite Hi in Hid. apply map_err_Ok in Hid. apply is_ok_true. eauto.
  - intros r (v & Hd%map_err_Ok & Hr)%bind_Ok.
    apply bind_Ok in Hr as (ver & (o & -> & Hver)%schema_version_of_Ok & Hr).
    apply bind_Ok in Hr as ([] & Hv%reject_if_Ok & Hr).
    apply bind_Ok in Hr as (q & Hq%map_err_Ok & Hr).
    apply bind_Ok in Hr as ([] & Ht%map_err_Ok & Hr).
    apply bind_Ok in Hr as ([] & Hid & [= <-]). breflect. subst ver.
    apply decode_session_start_fields in Hq as (Hk & Hsv & Htask & Hrid).
    exists o. split_and!; [done|done|congruence|apply is_ok_true; eauto|].
    intros id Hi. rewrite Hi in Hid. apply map_err_Ok in Hid. apply is_ok_true. eauto.
  - intros r ([] & Hl%reject_if_Ok & Hr)%bind_Ok. breflect. split; [done|].
    apply bind_Ok in Hr as (v & Hd%map_err_Ok & Hr).
    apply bind_Ok in Hr as (o & Ho%ok_or_Ok & Hr).
    destruct v; try done. injection Ho as ->.
    do 5 (let x := fresh in apply bind_Ok in Hr as (x & _ & Hr)).
    apply map_err_Ok, decode_session_action_fields in Hr. naive_solver.
Qed.
End strict_metadata.

(** ** A decoder that satisfies the laws, for the witnesses *)

Definition closed_object (allowed : list string) (v : json) : option (list (string * json)) :=
  o ← as_object v;
  if forallb (λ kv, bool_decide (kv.1 ∈ allowed)) o then Some o else None.

Definition request_parts (v : json) : option (string * option string * string) :=
  o ← closed_object ["schema_version"; "request_id"; "task"; "source"] v;
  sv ← field "schema_version" o ≫= as_str;
  task ← field "task" o ≫= as_str;
  Some (sv, field "request_id" o ≫= as_str, task).

Definition demo_change (v : json) : option SessionUpdateChange :=
  o ← as_object v;
  path ← field "path" o ≫= as_str;
  match field "sha256" o ≫= as_str with
  | Some h => Some (File path h)
  | None => Some (Delete path)
  end.

Definition demo_documents : list (string * json) :=
  [("req", JObject [("schema_version", JString "1"); ("task", JString "build");
      ("source", JObject [("format", JString "zip")])]);
   ("old", JObject [("schema_version", JString "3"); ("command", JString "sh")]);
   ("act", JObject [("schema_version", JString "1"); ("input", JObject [])]);
   ("upd", JObject [("schema_version", JString "1"); ("request_id", JString "u.1");
      ("base_revision", JString "rev_0");
      ("changes", JArray [JObject [("path", JString "old.txt")]])])].

#[export] Instance demo_serde : Serde := {|
  from_slice data := ok_or (field data demo_documents) "bad json";
  decode_request v := ok_or ('(sv, id, task) ← request_parts v;
    Some {| rq_schema_version := sv; rq_request_id := id; rq_task := task;
            rq_source := {| format := Zip |} |}) "bad request";
  decode_session_start v := ok_or ('(sv, id, task) ← request_parts v;
    Some {| ss_schema_version := sv; ss_request_id := id; ss_task := task;
            ss_source := {| format := Zip |} |}) "bad request";
  decode_session_update v := ok_or (
    o ← as_object v; id ← field "request_id" o ≫= as_str;
    base ← field "base_revision" o ≫= as_str;
    cs ← match field "changes" o with Some (JArray l) => mapM demo_change l | _ => None end;
    Some {| su_schema_version := "1"; su_request_id := id; su_base_revision := base;
            su_source := {| format := Zip |}; su_changes := cs |}) "bad update";
  decode_session_action v := ok_or (o ← closed_object ["schema_version"; "input"] v;
    input ← field "input" o ≫= as_object;
    Some {| sa_schema_version := "1"; sa_input := input |}) "bad action" |}.

Lemma field_In k o v : field k o = Some v → (k, v) ∈ o.
Proof.
  induction o as [|[k' v'] o IH]; cbn; [done|]. case_bool_decide; subst.
  - intros [= ->]. by left.
  - intros. right. auto.
Qed.

Lemma closed_object_Some allowed v o :
  closed_object allowed v = Some o →
  v = JObject o ∧ ∀ k x, field k o = Some x → k ∈ allowed.
Proof.
  unfold closed_object. destruct v; try done. cbn.
  destruct (forallb _ fields) eqn:E; [|done]. intros [= <-]. split; [done|].
  intros k x Hk%field_In%list_elem_of_In. rewrite forallb_forall in E.
  apply E in Hk. by apply bool_decide_eq_true in Hk.
Qed.

Lemma field_as_str k o s : field k o ≫= as_str = Some s → field k o = Some (JString s).
Proof. destruct (field k o) as [[]|]; naive_solver. Qed.

Lemma request_parts_Some o sv id task :
  request_parts (JObject o) = Some (sv, id, task) →
  (∀ k x, field k o = Some x → k ∈ ["schema_version"; "request_id"; "task"; "source"]) ∧
  field "schema_version" o = Some (JString sv) ∧ field "task" o = Some (JString task) ∧
  id = field "request_id" o ≫= as_str.
Proof.
  unfold request_parts. intros (o' & (Ho & Hk)%closed_object_Some & H)%bind_Some.
  injection Ho as <-. apply bind_Some in H as (sv' & Hsv%field_as_str & H).
  apply bind_Some in H as (task' & Ht%field_as_str & [= <- <- <-]). naive_solver.
Qed.

#[export] Instance demo_serde_laws : SerdeLaws.
Proof.
  split; cbn [decode_request decode_session_start decode_session_action demo_serde].
  - intros o r H%ok_or_Ok. apply bind_Some in H as ([[sv id] task] & Hp & [= <-]).
    by apply request_parts_Some.
  - intros o r H%ok_or_Ok. apply bind_Some in H as ([[sv id] task] & Hp & [= <-]).
    by apply request_parts_Some.
  - intros o r H%ok_or_Ok.
    apply bind_Some in H as (o' & (Ho & Hk)%closed_object_Some & H).
    apply bind_Some in H as (input & Hi & [= <-]). injection Ho as <-.
    split; [done|]. destruct (field "input" o) as [[]|]; naive_solver.
Qed.

Lemma update_metadata_accepted_witness :
  ∃ request, parse_session_update_metadata "upd" 4 8 = Ok request ∧
    NoDup (to_ascii_lowercase ∘ change_path <$> su_changes request).
Proof.
  eexists. split; [vm_compute; reflexivity|].
  apply (update_metadata_accepted "upd" 4 8). vm_compute. reflexivity.
Defined.

Lemma schema_version_checked_first_witness :
  parse_request_metadata "old" = Err (UnsupportedSchemaVersion "3") ∧
  parse_session_start_metadata "old" = Err (UnsupportedSchemaVersion "3").
Proof.
  destruct (schema_version_checked_first (H:=demo_serde) "old"
    [("schema_version", JString "3"); ("command", JString "sh")] ltac:(vm_compute; reflexivity))
    as [_ Hw].
  destruct (Hw "3" ltac:(vm_compute; reflexivity) ltac:(discriminate)) as (H1 & H2 & _).
  split; [exact H1|exact H2].
Defined.

Lemma accepted_metadata_is_closed_witness :
  ∃ r, parse_request_metadata "req" = Ok r ∧ valid_task_id (rq_task r) = true.
Proof.
  eexists. split; [vm_compute; reflexivity|].
  destruct (accepted_metadata_is_closed (H:=demo_serde) "req") as [Hw _].
  destruct (Hw _ ltac:(vm_compute; reflexivity)) as (o & _ & _ & _ & Ht & _). exact Ht.
Defined.
