(* ===== verification/Logging.v ===== *)
(** [src/src/logging/mod.rs]: logging settings, the rotating log file and the
    bounded log queue. *)
From stdpp Require Import base option strings numbers gmap pretty list.
From S2P Require Import Prelude RustStr.

Local Open Scope N_scope.

(** * Settings *)

Inductive Level := TRACE | DEBUG | INFO | WARN | ERROR.

Record LoggingConfig := {
  lc_directory : option string;
  lc_level : string;
  lc_max_bytes : N;
  lc_max_files : N;
  lc_console : bool;
}.

Record LoggingSettings := {
  ls_level : Level;
  ls_directory : option string;
  ls_max_bytes : N;
  ls_max_files : N;
  ls_console : bool;
}.

(** The errors settings can have ([CreateDir], [OpenFile] and [InitFailed]
    come from [init_tracing], which is not modelled). *)
Inductive LoggingError :=
| InvalidLevel (field value : string)
| InvalidMaxBytes (value : N)
| InvalidMaxFiles (value : N).

Definition parse_level (value : string) : result string Level :=
  let level := to_ascii_lowercase (trim value) in
  if bool_decide (level = "trace") then Ok TRACE
  else if bool_decide (level = "debug") then Ok DEBUG
  else if bool_decide (level = "info") then Ok INFO
  else if bool_decide (level = "warn" ∨ level = "warning") then Ok WARN
  else if bool_decide (level = "error") then Ok ERROR
  else Err value.

Definition from_config (cfg : LoggingConfig) : result LoggingError LoggingSettings :=
  level ← map_err (InvalidLevel "logging.level") (parse_level (lc_level cfg));
  _ ← (if is_some (lc_directory cfg) then
         _ ← reject_if (lc_max_bytes cfg =? 0) (InvalidMaxBytes (lc_max_bytes cfg));
         reject_if (lc_max_files cfg =? 0) (InvalidMaxFiles (lc_max_files cfg))
       else Ok tt);
  Ok {| ls_level := level; ls_directory := lc_directory cfg;
        ls_max_bytes := lc_max_bytes cfg; ls_max_files := lc_max_files cfg;
        ls_console := lc_console cfg |}.

(** * The rotating file

    The log directory is the map from path to content; [file] is the content of
    the open descriptor's file, which always is the one at [base_path] because
    [rotate] reopens it after moving it away. *)

Record RotatingFileWriter := {
  base_path : string;
  max_bytes : N;
  max_files : nat;
  size : N;
}.

Definition rotated_path (w : RotatingFileWriter) (index : nat) : string :=
  base_path w +:+ "." +:+ pretty index.

(** One iteration of the [rotate] loop: the file moves up one place, over
    the one already there. *)
Definition rotate_one (w : RotatingFileWriter) (dir : gmap string string) (index : nat) :
    gmap string string :=
  let destination := rotated_path w index in
  let source := if bool_decide (index = 1%nat) then base_path w
                else rotated_path w (index - 1) in
  match dir !! source with
  | Some content => <[destination := content]> (delete source (delete destination dir))
  | None => dir
  end.

Definition rotate (w : RotatingFileWriter) (dir : gmap string string) :
    RotatingFileWriter * gmap string string :=
  let dir := foldl (rotate_one w) dir (rev (seq 1 (max_files w))) in
  let dir := match dir !! base_path w with
             | Some _ => dir
             | None => <[base_path w := ""]> dir
             end in
  ({| base_path := base_path w; max_bytes := max_bytes w;
      max_files := max_files w; size := 0 |}, dir).

(** [RotatingFileWriter::new]: the file is created when missing and its
    length read. *)
Definition RotatingFileWriter_new (path : string) (max_bytes : N) (max_files : nat)
    (dir : gmap string string) : RotatingFileWriter * gmap string string :=
  let dir := match dir !! path with Some _ => dir | None => <[path := ""]> dir end in
  ({| base_path := path; max_bytes := max_bytes; max_files := max_files;
      size := len (default "" (dir !! path)) |}, dir).

(** [Write::write], with [write_all] appending the whole buffer. *)
Definition write (w : RotatingFileWriter) (dir : gmap string string) (buf : string) :
    RotatingFileWriter * gmap string string :=
  let '(w, dir) :=
    if (0 <? size w) && (max_bytes w <? size w + len buf) then rotate w dir else (w, dir) in
  ({| base_path := base_path w; max_bytes := max_bytes w; max_files := max_files w;
      size := size w + len buf |},
   <[base_path w := default "" (dir !! base_path w) +:+ buf]> dir).

(** * Lemmas *)

Lemma app_self_nil (s t : string) : s = s +:+ t → t = "".
Proof. intros H. apply (string_app_inj_l s). by rewrite string_app_nil. Qed.

Lemma rotated_ne_base w i : rotated_path w i ≠ base_path w.
Proof.
  unfold rotated_path. intros H. symmetry in H. by apply app_self_nil in H.
Qed.

Lemma rotated_inj w i j : rotated_path w i = rotated_path w j → i = j.
Proof.
  unfold rotated_path. intros H%string_app_inj_l.
  apply (string_app_inj_l ".") in H. by apply (inj pretty) in H.
Qed.

(** The name that [rotate] moves to place [i]. *)
Definition place (w : RotatingFileWriter) (i : nat) : string :=
  match i with O => base_path w | S _ => rotated_path w i end.

Lemma place_inj w i j : place w i = place w j → i = j.
Proof.
  destruct i, j; cbn; intros H; [done|..].
  - by destruct (rotated_ne_base w (S j)).
  - by destruct (rotated_ne_base w (S i)).
  - by apply rotated_inj in H.
Qed.

Lemma rotate_one_place w dir i :
  rotate_one w dir (S i) =
  match dir !! place w i with
  | Some content => <[place w (S i) := content]> (delete (place w i) (delete (place w (S i)) dir))
  | None => dir
  end.
Proof.
  unfold rotate_one. destruct i; cbn; [done|].
  rewrite ?bool_decide_eq_false_2 by lia. done.
Qed.

Lemma rotate_one_lookup w dir k :
  let dir1 := rotate_one w dir (S k) in
  dir1 !! place w (S k) = match dir !! place w k with
                          | Some c => Some c | None => dir !! place w (S k) end ∧
  dir1 !! place w k = None ∧
  ∀ p, p ≠ place w k → p ≠ place w (S k) → dir1 !! p = dir !! p.
Proof.
  cbv zeta. rewrite rotate_one_place.
  assert (place w k ≠ place w (S k)) by (intros H%place_inj; lia).
  destruct (dir !! place w k) eqn:E; simplify_map_eq; split_and!; try done.
  intros p ??. by simplify_map_eq.
Qed.

(** What the loop from [k] down to 1 does to each place, and to other names:
    the file at place [i - 1] ends at place [i]. *)
Lemma rotate_loop w k dir :
  let dir' := foldl (rotate_one w) dir (rev (seq 1 k)) in
  (∀ i, (0 < i <= k)%nat →
     dir' !! place w i = match dir !! place w (i - 1) with
                         | Some c => Some c
                         | None => if bool_decide (i = k) then dir !! place w k else None
                         end) ∧
  ((0 < k)%nat → dir' !! place w 0 = None) ∧
  (∀ p, (∀ i, (i <= k)%nat → p ≠ place w i) → dir' !! p = dir !! p).
Proof.
  revert dir. induction k as [|k IH]; intros dir dir'.
  { split_and!; [lia|lia|done]. }
  unfold dir'. rewrite seq_S, rev_app_distr. cbn [rev app foldl Nat.add].
  destruct (rotate_one_lookup w dir k) as (Hk1 & Hk & Hp). cbv zeta in *.
  set (dir1 := rotate_one w dir (S k)) in *.
  destruct (IH dir1) as (H1 & H2 & H3); clear IH.
  assert (∀ j, (j < k)%nat → dir1 !! place w j = dir !! place w j) as Hlt.
  { intros j ?. apply Hp; intros E%place_inj; lia. }
  split_and!.
  - intros i Hi. destruct (decide (i = S k)) as [->|].
    + rewrite H3 by (intros j ? E%place_inj; lia).
      rewrite bool_decide_eq_true_2 by done. by rewrite Hk1, Nat.sub_succ, Nat.sub_0_r.
    + rewrite H1, Hlt, Hk by lia. rewrite (bool_decide_eq_false_2 (i = S k)) by lia.
      by repeat case_match.
  - intros _. destruct k; [done|]. apply H2; lia.
  - intros p Hne. rewrite H3 by auto with lia. apply Hp; apply Hne; lia.
Qed.

(** The writer's view of its file: the open file exists and [size] is its length. *)
Definition writer_ok (w : RotatingFileWriter) (dir : gmap string string) : Prop :=
  ∃ content, dir !! base_path w = Some content ∧ size w = len content.

Lemma rotate_ok w dir : (0 < max_files w)%nat →
  let '(w', dir') := rotate w dir in
  dir' !! base_path w = Some "" ∧ writer_ok w' dir' ∧
  base_path w' = base_path w ∧ max_bytes w' = max_bytes w ∧ max_files w' = max_files w.
Proof.
  intros Hm. unfold rotate, writer_ok; cbn.
  destruct (rotate_loop w (max_files w) dir) as (_ & Hb & _). cbv zeta in Hb.
  cbn in Hb. rewrite (Hb Hm). rewrite lookup_insert_eq. eauto 10.
Qed.

(** Rotation shifts the history by one place and loses only the oldest file:
    after [rotate], the log file is new and empty, the file at place [i] is the
    one that was at place [i - 1] (place 0 is the log file itself), and no
    other file of the directory changes. *)
Theorem rotate_shifts w dir :
  (0 < max_files w)%nat →
  let dir' := (rotate w dir).2 in
  dir' !! base_path w = Some "" ∧
  (∀ i c, (0 < i <= max_files w)%nat → dir !! place w (i - 1) = Some c →
     dir' !! rotated_path w i = Some c) ∧
  (∀ p, (∀ i, (i <= max_files w)%nat → p ≠ place w i) → dir' !! p = dir !! p).
Proof.
  intros Hm. pose proof (rotate_ok w dir Hm) as Hok.
  destruct (rotate_loop w (max_files w) dir) as (H1 & Hb & H3). cbv zeta in *.
  unfold rotate in *. cbn in *. destruct Hok as [Hbase _]. rewrite (Hb Hm) in *.
  split; [done|]. split.
  - intros i c Hi Hc. rewrite lookup_insert_ne by (intros E; by apply (rotated_ne_base w i)).
    destruct i as [|i]; [lia|]. specialize (H1 (S i) Hi). cbn [place] in H1.
    by rewrite H1, Hc.
  - intros p Hp. rewrite lookup_insert_ne; [auto|].
    intros E. apply (Hp 0%nat); [lia|done].
Qed.

Lemma rotate_shifts_witness :
  let w := Build_RotatingFileWriter "l" 4 2 3 in
  (rotate w {["l" := "abc"; "l.1" := "old"; "x" := "y"]}).2 =
  {["l" := ""; "l.1" := "abc"; "l.2" := "old"; "x" := "y"]} ∧
  (rotate w {["l" := "abc"; "l.1" := "old"; "x" := "y"]}).2 !! "l.1" = Some "abc".
Proof.
  split; [vm_compute; reflexivity|].
  destruct (rotate_shifts (Build_RotatingFileWriter "l" 4 2 3)
             {["l" := "abc"; "l.1" := "old"; "x" := "y"]}) as (_ & H & _); [cbn; lia|].
  apply (H 1%nat "abc"); [cbn; lia|vm_compute; reflexivity].
Defined.

(** Every write keeps the recorded size equal to the file's length, appends
    the whole buffer at the end of the log file (after the old content, or
    as the new file's only content when the file was rotated), and the file
    exceeds [max_bytes] only when that single buffer does. *)
Theorem write_bounded w dir buf content :
  (0 < max_files w)%nat → writer_ok w dir → dir !! base_path w = Some content →
  let '(w', dir') := write w dir buf in
  writer_ok w' dir' ∧
  (size w ≤ max_bytes w → size w' ≤ N.max (max_bytes w) (len buf)) ∧
  (dir' !! base_path w = Some (content +:+ buf) ∨
   dir' !! base_path w = Some buf ∧ dir' !! rotated_path w 1 = Some content).
Proof.
  intros Hm (c & Hc & Hs) Hcontent. simplify_eq. unfold write.
  destruct (rotate w dir) as [w1 dir1] eqn:Hrot.
  pose proof (rotate_ok w dir Hm) as Hok. rewrite Hrot in Hok.
  destruct Hok as (Hb & (? & Hc1 & Hs1) & Hbase & Hmax & _).
  rewrite <-Hbase in Hb. simplify_eq.
  destruct (_ && _) eqn:E; cbn.
  - rewrite Hb. cbn. rewrite Hbase, lookup_insert_eq. split_and!.
    + exists buf. cbn. rewrite Hs1. by rewrite lookup_insert_eq.
    + rewrite Hs1. change (len "") with 0. lia.
    + right. split; [done|].
      rewrite lookup_insert_ne by (intros E'; by apply (rotated_ne_base w 1)).
      destruct (rotate_loop w (max_files w) dir) as (H1 & Hbn & _). cbv zeta in *.
      unfold rotate in Hrot. cbn in Hbn. rewrite (Hbn Hm) in Hrot. injection Hrot as <- <-.
      rewrite lookup_insert_ne by (intros E'; by apply (rotated_ne_base w 1)).
      specialize (H1 1%nat ltac:(lia)). cbn in H1. by rewrite H1, Hc.
  - rewrite Hc. cbn. rewrite lookup_insert_eq. split_and!.
    + eexists. cbn. rewrite lookup_insert_eq, Hs, <-len_app. done.
    + apply andb_false_iff in E as [E|E]; breflect; lia.
    + by left.
Qed.

Lemma write_bounded_witness :
  let w := Build_RotatingFileWriter "l" 4 1 3 in
  let '(w', dir') := write w {["l" := "abc"]} "de" in
  writer_ok w' dir' ∧ size w' ≤ 4 ∧ dir' !! "l" = Some "de" ∧ dir' !! "l.1" = Some "abc".
Proof.
  pose proof (write_bounded (Build_RotatingFileWriter "l" 4 1 3) {["l" := "abc"]} "de" "abc"
    ltac:(cbn; lia) ltac:(exists "abc"; split; vm_compute; reflexivity)
    ltac:(vm_compute; reflexivity)) as (H1 & H2 & _).
  split; [exact H1|]. split; [apply H2; vm_compute; discriminate|].
  split; vm_compute; reflexivity.
Defined.
