(* ===== verification/Process.v ===== *)
(** Child processes, the clock and the daemon's other threads: the machine on
    which [src/src/build.rs] and [src/src/services.rs] wait for programs and stop
    them.

    The machine runs one child at a time together with its process group.  Every
    call the modelled thread makes first lets the rest of the machine move: time
    passes, members of the group fork and exit, the daemon's other threads change
    the state they share with this one ([X]).  The moves are drawn from an oracle
    indexed by the number of calls made, so a theorem about every oracle is a
    theorem about every interleaving. *)
From stdpp Require Import base option strings numbers list.
From S2P Require Import Prelude Effects.

Local Open Scope N_scope.

(** * Time *)

(** Nanoseconds. *)
Definition ms (n : N) : N := n * 1000000.
Definition secs (n : N) : N := n * 1000000000.
(** [Duration::as_millis]. *)
Definition as_millis (d : N) : N := d / 1000000.

Definition TIMEOUT_EXIT_CODE : Z := 124.
Definition TIMEOUT_KILL_GRACE : N := secs 5.

(** * Processes *)

(** [ExitStatus]: an exit code, a terminating signal, or neither. *)
Inductive exit_status := ExitCode (code : Z) | Signalled (signal : Z) | NoStatus.

Definition exit_code (s : exit_status) : Z :=
  match s with
  | ExitCode code => code
  | Signalled signal => 128 + signal
  | NoStatus => 1
  end.

(** The child itself: running, exited and not yet waited for, reaped through its
    handle (which remembers the status), or reaped by a [waitpid] on its group,
    behind the handle's back. *)
Inductive leader := Running | Zombie (s : exit_status) | Reaped (s : exit_status) | Stolen.

(** The process group: its leader, the other live members and the other members
    that have exited but have not been waited for. *)
Record group := Group { gr_leader : leader; gr_live : nat; gr_zombies : nat }.

(** No process of the group is left: [killpg] answers [ESRCH].  A process that has
    left the group ([MemberLeaves], by [setsid]) is not counted. *)
Definition gone (g : group) : bool :=
  match gr_leader g with
  | Reaped _ | Stolen => Nat.eqb (gr_live g) 0 && Nat.eqb (gr_zombies g) 0
  | _ => false
  end.

(** How many processes of the group there are. *)
Definition group_size (g : group) : nat :=
  (match gr_leader g with Running | Zombie _ => 1 | _ => 0 end + gr_live g + gr_zombies g)%nat.

Definition can_fork (g : group) : bool :=
  match gr_leader g with Running => true | _ => negb (Nat.eqb (gr_live g) 0) end.

(** What processes do on their own. *)
Inductive proc_event :=
| LeaderExits (s : exit_status)
| MemberForks
| MemberExits
| ZombieReaped
| MemberLeaves.

Definition proc_event_step (killed : bool) (g : group) (e : proc_event) : group :=
  match e with
  | LeaderExits s =>
      match gr_leader g with
      | Running => Group (Zombie s) (gr_live g) (gr_zombies g)
      | _ => g
      end
  | MemberForks =>
      if negb killed && can_fork g then Group (gr_leader g) (S (gr_live g)) (gr_zombies g) else g
  | MemberExits =>
      match gr_live g with
      | O => g
      | S n => Group (gr_leader g) n (S (gr_zombies g))
      end
  | ZombieReaped => Group (gr_leader g) (gr_live g) (pred (gr_zombies g))
  | MemberLeaves => Group (gr_leader g) (pred (gr_live g)) (gr_zombies g)
  end.

Inductive signal := Probe | SIGTERM | SIGKILL.

#[export] Instance signal_eq_dec : EqDecision signal.
Proof. solve_decision. Defined.

Inductive errno := ESRCH | EPERM | ECHILD | EOTHER.

(** Errors a signal may meet besides a missing target. *)
Inductive kill_fault := NotPermitted | OtherFault.
Definition errno_of (f : kill_fault) : errno :=
  match f with NotPermitted => EPERM | OtherFault => EOTHER end.

(** * The machine *)

Record Machine (X : Type) := mkMachine {
  m_now : N;
  m_tick : nat;
  m_group : group;
  (** when the group was sent [SIGKILL] *)
  m_killed : option N;
  (** the signals sent so far, with their times *)
  m_signals : list (signal * N);
  (** the operation's [CancellationFlag] *)
  m_cancelled : bool;
  (** what the thread shares with others *)
  m_shared : X;
}.
Arguments mkMachine {X}.
Arguments m_now {X}.
Arguments m_tick {X}.
Arguments m_group {X}.
Arguments m_killed {X}.
Arguments m_signals {X}.
Arguments m_cancelled {X}.
Arguments m_shared {X}.

(** What happens around one call: the time it takes, what processes do, what
    other threads do (given the time and the flag they see, the new shared state
    and whether they set the flag), and whether the call fails. *)
Record move (X : Type) := mkMove {
  mv_time : N;
  mv_events : list proc_event;
  mv_threads : N → bool → X → X * bool;
  mv_fault : option kill_fault;
}.
Arguments mkMove {X}.
Arguments mv_time {X}.
Arguments mv_events {X}.
Arguments mv_threads {X}.
Arguments mv_fault {X}.

Section machine.
Context {X : Type} (orc : nat → move X).
(** How soon a group sent [SIGKILL] has died and its orphans have been reaped by
    the system, if ever. *)
Context (kill_delay : option N).

Definition kill_effect (now : N) (killed : option N) (g : group) : group :=
  match kill_delay, killed with
  | Some d, Some t =>
      if t + d <=? now
      then Group (match gr_leader g with Running => Zombie (Signalled 9) | l => l end) 0 0
      else g
  | _, _ => g
  end.

(** The rest of the machine moves; [extra] is the time a sleep asked for. *)
Definition advance (extra : N) (m : Machine X) : Machine X :=
  let mv := orc (m_tick m) in
  let now := m_now m + extra + mv_time mv in
  let killed := m_killed m in
  let g := kill_effect now killed
             (foldl (proc_event_step (is_some killed)) (m_group m) (mv_events mv)) in
  let '(x, set) := mv_threads mv now (m_cancelled m) (m_shared m) in
  mkMachine now (S (m_tick m)) g killed (m_signals m) (m_cancelled m || set) x.

Abbreviation io := (eff (Machine X)).

Definition instant_now {E} : io E N := λ m, let m := advance 0 m in (m, Ok (m_now m)).
Definition thread_sleep {E} (d : N) : io E unit := λ m, (advance d m, Ok tt).
Definition is_cancelled {E} : io E bool := λ m, let m := advance 0 m in (m, Ok (m_cancelled m)).

Definition set_group (g : group) (m : Machine X) : Machine X :=
  mkMachine (m_now m) (m_tick m) g (m_killed m) (m_signals m) (m_cancelled m) (m_shared m).
Definition set_cancelled (m : Machine X) : Machine X :=
  mkMachine (m_now m) (m_tick m) (m_group m) (m_killed m) (m_signals m) true (m_shared m).
Definition set_shared (x : X) (m : Machine X) : Machine X :=
  mkMachine (m_now m) (m_tick m) (m_group m) (m_killed m) (m_signals m) (m_cancelled m) x.

(** [CancellationFlag::cancel]. *)
Definition cancel {E} : io E unit := λ m, (set_cancelled (advance 0 m), Ok tt).

(** One atomic operation on the shared state. *)
Definition atomically {E A} (f : N → X → X * A) : io E A := λ m,
  let m := advance 0 m in
  let '(x, a) := f (m_now m) (m_shared m) in (set_shared x m, Ok a).

(** [Child::try_wait]. *)
Definition try_wait : io (halt io_error) (option exit_status) := λ m,
  let fault := mv_fault (orc (m_tick m)) in
  let m := advance 0 m in
  let g := m_group m in
  match gr_leader g with
  | Reaped s => (m, Ok (Some s))
  | Stolen => (m, Err (Raised (IoError OtherKind "ECHILD")))
  | Running => (m, match fault with
                   | Some _ => Err (Raised (IoError OtherKind "waitpid"))
                   | None => Ok None
                   end)
  | Zombie s =>
      match fault with
      | Some _ => (m, Err (Raised (IoError OtherKind "waitpid")))
      | None => (set_group (Group (Reaped s) (gr_live g) (gr_zombies g)) m, Ok (Some s))
      end
  end.

Definition record_signal (s : signal) (m : Machine X) : Machine X :=
  mkMachine (m_now m) (m_tick m) (m_group m)
    (match s, m_killed m with SIGKILL, None => Some (m_now m) | _, k => k end)
    (match s with Probe => m_signals m | _ => m_signals m ++ [(s, m_now m)] end)
    (m_cancelled m) (m_shared m).

(** [killpg(pgid, signal)]. *)
Definition killpg (s : signal) : io errno unit := λ m,
  let fault := mv_fault (orc (m_tick m)) in
  let m := advance 0 m in
  if gone (m_group m) then (m, Err ESRCH)
  else match fault with
       | Some f => (m, Err (errno_of f))
       | None => (record_signal s m, Ok tt)
       end.

(** [kill(pid, signal)]: the leader alone. *)
Definition kill (s : signal) : io errno unit := λ m,
  let fault := mv_fault (orc (m_tick m)) in
  let m := advance 0 m in
  match gr_leader (m_group m) with
  | Reaped _ | Stolen => (m, Err ESRCH)
  | _ => match fault with
         | Some f => (m, Err (errno_of f))
         | None =>
             (mkMachine (m_now m) (m_tick m) (m_group m) (m_killed m)
                (m_signals m ++ [(s, m_now m)]) (m_cancelled m) (m_shared m), Ok tt)
         end
  end.

(** * Polling loops *)

(** [loop { ... }]: the body says whether to iterate again. *)
Fixpoint poll {E A S} (fuel : nat) (body : S → io (halt E) (S + A)) (s : S) : io (halt E) A :=
  match fuel with
  | O => io_fail Diverged
  | S fuel =>
      r ← body s;
      match r with
      | inr a => mret a
      | inl s => poll fuel body s
      end
  end.

(** Enough iterations for a loop that sleeps [interval] and stops once [timeout]
    has passed. *)
Definition polls (timeout interval : N) : nat := S (S (N.to_nat (timeout / interval))).

(** The loop of the source's waits on shared state: test it; leave when the test
    decides; give up with [last] once [timeout] has passed; else sleep. *)
Definition poll_shared {E A B} (timeout interval : N) (test : N → X → X * B) (decide : B → option A)
    (last : A) : io (halt E) A :=
  start ← instant_now;
  poll (polls timeout interval) (λ _ : unit,
    b ← atomically test;
    match decide b with
    | Some a => mret (inr a)
    | None =>
        now ← instant_now;
        if start + timeout <=? now then mret (inr last)
        else _ ← thread_sleep interval; mret (inl tt)
    end) tt.

(** * Process groups ([src/src/build.rs]) *)

Definition process_group_exists : io (halt io_error) bool := λ m,
  let '(m, r) := killpg Probe m in
  (m, match r with
      | Ok _ => Ok true
      | Err ESRCH => Ok false
      | Err EPERM => Ok true
      | Err _ => Err (Raised (IoError OtherKind "killpg"))
      end).

Definition signal_group (s : signal) : io (halt io_error) unit := λ m,
  let '(m, r) := killpg s m in
  (m, match r with
      | Ok _ | Err ESRCH => Ok tt
      | Err _ => Err (Raised (IoError OtherKind "killpg"))
      end).

(** The group, or at least the child. *)
Definition signal_process_group (s : signal) : io (halt io_error) unit := λ m,
  match killpg s m with
  | (m, Ok _) => (m, Ok tt)
  | (m, Err _) =>
      let '(m, r) := kill s m in
      (m, match r with
          | Ok _ | Err ESRCH => Ok tt
          | Err _ => Err (Raised (IoError OtherKind "kill"))
          end)
  end.

Definition wait_for_group_and_exit (timeout : N) : io (halt io_error) (option Z * bool) :=
  start ← instant_now;
  poll (polls timeout (ms 25)) (λ code : option Z,
    code ← match code with
           | None => status ← try_wait; mret (exit_code <$> status)
           | Some _ => mret code
           end;
    alive ← process_group_exists;
    if negb alive then mret (inr (code, true))
    else
      now ← instant_now;
      if timeout <=? now - start then mret (inr (code, false))
      else _ ← thread_sleep (ms 25); mret (inl code)) None.

Inductive TerminationReason := ReasonTimeout | ReasonCancelled.

(** A failure to signal is only logged. *)
Definition terminate_process (reason : TerminationReason) : io (halt io_error) Z :=
  _ ← io_try (signal_process_group SIGTERM);
  first ← wait_for_group_and_exit TIMEOUT_KILL_GRACE;
  code ← (if negb first.2 : bool then
            _ ← io_try (signal_group SIGKILL);
            second ← wait_for_group_and_exit TIMEOUT_KILL_GRACE;
            if negb second.2 : bool
            then io_fail (Raised (IoError TimedOut "process group survived SIGKILL"))
            else mret (match first.1 with Some c => Some c | None => second.1 end)
          else mret first.1);
  code ← match code with
         | None => status ← try_wait; mret (exit_code <$> status)
         | Some _ => mret code
         end;
  mret (default TIMEOUT_EXIT_CODE code).

(** [while start.elapsed() < GRACE]: whether the group disappeared. *)
Definition await_group (grace : N) : io (halt io_error) bool :=
  start ← instant_now;
  poll (polls grace (ms 25)) (λ _ : unit,
    now ← instant_now;
    if grace <=? now - start then mret (inr false)
    else
      alive ← process_group_exists;
      if negb alive then mret (inr true)
      else _ ← thread_sleep (ms 25); mret (inl tt)) tt.

Definition terminate_remaining_group : io (halt io_error) unit :=
  alive ← process_group_exists;
  if negb alive then mret tt
  else
    _ ← signal_group SIGTERM;
    ended ← await_group TIMEOUT_KILL_GRACE;
    if ended : bool then mret tt
    else
      _ ← signal_group SIGKILL;
      ended ← await_group TIMEOUT_KILL_GRACE;
      if ended : bool then mret tt
      else io_fail (Raised (IoError TimedOut "process group survived SIGKILL")).

Inductive WaitOutcome :=
| Exited (code : Z) (timed_out : bool) (duration : N)
| Cancelled.

Definition wait_with_timeout (timeout_sec : N) : io (halt io_error) WaitOutcome :=
  let timeout := secs timeout_sec in
  start ← instant_now;
  ended ← poll (polls timeout (ms 100)) (λ _ : unit,
    status ← try_wait;
    match status with
    | Some status =>
        now ← instant_now;
        _ ← terminate_remaining_group;
        mret (inr (Some (Exited (exit_code status) false (now - start))))
    | None =>
        cancelled ← is_cancelled;
        if cancelled : bool then
          _ ← terminate_process ReasonCancelled;
          mret (inr (Some Cancelled))
        else
          now ← instant_now;
          if timeout <=? now - start then mret (inr None)
          else _ ← thread_sleep (ms 100); mret (inl tt)
    end) tt;
  match ended with
  | Some outcome => mret outcome
  | None =>
      now ← instant_now;
      code ← terminate_process ReasonTimeout;
      mret (Exited code true (now - start))
  end.
End machine.
