(* ===== verification/ProcessFacts.v ===== *)
(** Waiting for a program ends, and ends with its process group gone. *)
From stdpp Require Import base option strings numbers list relations.
From S2P Require Import Prelude Effects Process.

Local Open Scope N_scope.

(** * The group *)

Lemma event_leader killed g e s :
  gr_leader g = Reaped s → gr_leader (proc_event_step killed g e) = Reaped s.
Proof.
  intros H. destruct e; cbn; rewrite ?H; try done.
  - by destruct (_ && _).
  - by destruct (gr_live g).
Qed.

Lemma event_running killed g e :
  gr_leader (proc_event_step killed g e) = Running → gr_leader g = Running.
Proof.
  destruct e; cbn; try done.
  - destruct (gr_leader g) eqn:E; cbn; congruence.
  - by destruct (_ && _).
  - by destruct (gr_live g).
Qed.

Lemma gone_spec g :
  gone g = true ↔ ((∃ s, gr_leader g = Reaped s) ∨ gr_leader g = Stolen) ∧ gr_live g = O ∧ gr_zombies g = O.
Proof.
  unfold gone. destruct g as [[] [] []]; cbn; naive_solver.
Qed.

Lemma event_gone killed g e : gone g = true → proc_event_step killed g e = g.
Proof.
  intros (Hl & H1 & H2)%gone_spec. destruct g as [l n z]; cbn in *. subst.
  destruct Hl as [[s ->]| ->]; destruct e; cbn; by rewrite ?andb_false_r.
Qed.

Lemma events_keep (P : group → Prop) killed es g :
  (∀ g e, P g → P (proc_event_step killed g e)) → P g → P (foldl (proc_event_step killed) g es).
Proof. intros Hs. revert g. induction es; cbn; auto. Qed.

Lemma event_size g e : (group_size (proc_event_step true g e) ≤ group_size g)%nat.
Proof. destruct g as [[] [] []], e; cbn; lia. Qed.

Lemma gone_size g : gone g = true → group_size g = O.
Proof. intros ([[s H1]|H1] & H2 & H3)%gone_spec; unfold group_size; by rewrite H1, H2, H3. Qed.

Section facts.
Context {X : Type} (orc : nat → move X) (kill_delay : option N).

Abbreviation advance := (advance orc kill_delay).

(** * How the machine moves on *)

(** What the other threads see of the machine. *)
Abbreviation view := (N * bool * X)%type.
Definition view_of (m : Machine X) : view := (m_now m, m_cancelled m, m_shared m).

(** One move of the other threads. *)
Definition drift_step (v v' : view) : Prop :=
  ∃ k extra, let '(now, c, x) := v in
    let now' := now + extra + mv_time (orc k) in
    let '(x', set) := mv_threads (orc k) now' c x in
    v' = (now', c || set, x').

Abbreviation drift := (rtc drift_step).

(** No process will join the group: it has been sent [SIGKILL], or is gone. *)
Definition doomed (m : Machine X) : Prop := m_killed m ≠ None ∨ gone (m_group m) = true.

(** [m'] is reached from [m] with the modelled thread only looking at processes
    and signalling them. *)
Record later (m m' : Machine X) : Prop := {
  later_drift : drift (view_of m) (view_of m');
  later_leader : ∀ s, gr_leader (m_group m) = Reaped s → gr_leader (m_group m') = Reaped s;
  later_running : gr_leader (m_group m') = Running → gr_leader (m_group m) = Running;
  later_gone : gone (m_group m) = true → gone (m_group m') = true;
  later_doomed : doomed m → doomed m' ∧ (group_size (m_group m') ≤ group_size (m_group m))%nat;
}.

#[export] Instance later_preorder : PreOrder later.
Proof.
  split.
  - intros m. by split.
  - intros m1 m2 m3 [] []. split; eauto; [by etrans|]. intros [? ?]%later_doomed0. destruct later_doomed1; [done|]. split; [done|lia].
Qed.

Lemma drift_time v v' : drift v v' → v.1.1 ≤ v'.1.1.
Proof.
  induction 1 as [|[[n c] x] v v' (k & e & Hs) _ IH]; [done|]. cbn in *.
  destruct (mv_threads _ _ _ _). subst. cbn in *. lia.
Qed.

Lemma later_time m m' : later m m' → m_now m ≤ m_now m'.
Proof. intros [H _ _ _]. by apply drift_time in H. Qed.

Lemma drift_cancelled v v' : drift v v' → v.1.2 = true → v'.1.2 = true.
Proof.
  induction 1 as [|[[n c] x] v v' (k & e & Hs) _ IH]; [done|]. cbn in *.
  destruct (mv_threads _ _ _ _). subst. cbn in *. intros ->. by apply IH.
Qed.

Lemma kill_effect_keeps now killed g s :
  gr_leader g = Reaped s → gr_leader (kill_effect kill_delay now killed g) = Reaped s.
Proof. unfold kill_effect. intros H. repeat case_match; cbn; by simplify_eq. Qed.

Lemma kill_effect_running now killed g :
  gr_leader (kill_effect kill_delay now killed g) = Running → gr_leader g = Running.
Proof. unfold kill_effect. repeat case_match; cbn; naive_solver. Qed.

Lemma kill_effect_gone now killed g :
  gone g = true → kill_effect kill_delay now killed g = g.
Proof.
  intros (Hl & H1 & H2)%gone_spec. destruct g as [l n z]; cbn in *. subst.
  unfold kill_effect. destruct Hl as [[s ->]| ->]; cbn; by repeat case_match.
Qed.

Lemma kill_effect_size now killed g :
  (group_size (kill_effect kill_delay now killed g) ≤ group_size g)%nat.
Proof.
  unfold kill_effect. destruct kill_delay, killed; try case_match; try done.
  unfold group_size. cbn. destruct (gr_leader g); lia.
Qed.

Lemma advance_later e m : later m (advance e m).
Proof.
  unfold Process.advance.
  destruct (mv_threads _ _ _ _) as [x set] eqn:Ht. split; cbn.
  - apply rtc_once. exists (m_tick m), e. cbn. by rewrite Ht.
  - intros s Hs. apply kill_effect_keeps. by apply (events_keep (λ g, gr_leader g = Reaped s)); [intros; by apply event_leader|].
  - intros Hr%kill_effect_running. revert Hr. generalize (m_group m).
    induction (mv_events (orc (m_tick m))) as [|ev es IH]; cbn; intros g; [done|].
    intros Hr%IH. by apply event_running in Hr.
  - intros Hg. rewrite kill_effect_gone.
    + by apply (events_keep (λ g, gone g = true)); [intros; by rewrite event_gone|].
    + by apply (events_keep (λ g, gone g = true)); [intros; by rewrite event_gone|].
  - assert (gone (m_group m) = true → kill_effect kill_delay (m_now m + e + mv_time (orc (m_tick m))) (m_killed m)
             (foldl (proc_event_step (is_some (m_killed m))) (m_group m) (mv_events (orc (m_tick m)))) = m_group m) as Hgone.
    { intros Hg. assert (foldl (proc_event_step (is_some (m_killed m))) (m_group m) (mv_events (orc (m_tick m))) = m_group m) as ->.
      - by apply (events_keep (λ g, g = m_group m)); [intros; subst; by rewrite event_gone|].
      - by apply kill_effect_gone. }
    intros Hd. split.
    + unfold doomed in *. cbn. destruct Hd as [?|Hg]; [by left|right]. by rewrite Hgone.
    + destruct Hd as [Hk|Hg]; [|by rewrite Hgone].
      etrans; [apply kill_effect_size|]. destruct (m_killed m); [|done]. cbn [is_some].
      apply (events_keep (λ g, (group_size g ≤ group_size (m_group m))%nat)); [|done].
      intros g ev ?. etrans; [apply event_size|done].
Qed.

(** Only the modelled thread reaps the leader. *)
Lemma advance_reaped e m :
  gone (m_group (advance e m)) = true →
  gr_leader (m_group (advance e m)) = gr_leader (m_group m).
Proof.
  unfold Process.advance. destruct (mv_threads _ _ _ _) as [x set]. cbn.
  set (g := foldl _ _ _). intros Hg. assert (gr_leader g = gr_leader (m_group m)) as <-.
  - assert (gr_leader g ≠ Running ∧ ∀ s, gr_leader g ≠ Zombie s) as Hg'.
    { apply gone_spec in Hg as [Hg _]. revert Hg. unfold kill_effect.
      destruct kill_delay, (m_killed m); try case_match; cbn; destruct (gr_leader g); naive_solver. }
    clear Hg. revert Hg'. subst g. generalize (m_group m).
    induction (mv_events (orc (m_tick m))) as [|ev es IH]; intros g0; cbn; [done|].
    intros Hg. rewrite IH by done. specialize (IH _ Hg). rewrite IH in Hg. clear IH.
    destruct ev; cbn in *; repeat case_match; cbn in *; naive_solver.
  - apply gone_spec in Hg as [Hg _]. revert Hg. unfold kill_effect.
    destruct kill_delay, (m_killed m); try case_match; cbn; destruct (gr_leader g); naive_solver.
Qed.

Lemma advance_time e m : m_now m + e ≤ m_now (advance e m).
Proof. unfold Process.advance. destruct (mv_threads _ _ _ _). cbn. lia. Qed.

(** Goals that chain [later] facts. *)
Ltac later_trans :=
  match goal with
  | |- later ?m ?m => reflexivity
  | H : later ?m ?m' |- later ?m ?m' => exact H
  | H : later ?m ?m1 |- later ?m ?m' => transitivity m1; [exact H|]; clear H; later_trans
  end.

(** * Rules for the calls *)

Lemma wp_now {E} m (Q : Machine X → result E N → Prop) :
  (∀ m', later m m' → Q m' (Ok (m_now m'))) → wp (instant_now orc kill_delay) m Q.
Proof. intros H. apply H, advance_later. Qed.

Lemma wp_sleep {E} d m (Q : Machine X → result E unit → Prop) :
  (∀ m', later m m' → m_now m + d ≤ m_now m' → Q m' (Ok tt)) → wp (thread_sleep orc kill_delay d) m Q.
Proof. intros H. apply H; [apply advance_later|apply advance_time]. Qed.

Lemma wp_is_cancelled {E} m (Q : Machine X → result E bool → Prop) :
  (∀ m', later m m' → Q m' (Ok (m_cancelled m'))) → wp (is_cancelled orc kill_delay) m Q.
Proof. intros H. apply H, advance_later. Qed.

(** Waiting for a leader that has exited. *)
Lemma reap_later l s m m' :
  gr_leader (m_group m') = Zombie s → (∀ s', l ≠ Zombie s') → l ≠ Running → later m m' →
  later m (set_group (Group l (gr_live (m_group m')) (gr_zombies (m_group m'))) m').
Proof.
  intros E Hl Hl' [H1 H2 H3 H4 H5]. split; cbn; [done|..].
  - intros s' ?. by rewrite (H2 s') in E.
  - done.
  - intros Hg%H4. apply gone_spec in Hg as ([[]|] & _); congruence.
  - intros [[Hd|Hg] Hs']%H5.
    + split; [by left|]. unfold group_size in *; cbn in *. rewrite E in Hs'. destruct l; naive_solver lia.
    + apply gone_spec in Hg as ([[]|] & _); congruence.
Qed.

Lemma wp_try_wait m Q :
  (∀ m' e, later m m' → Q m' (Err (Raised e))) →
  (∀ m' s, later m m' → gr_leader (m_group m') = Reaped s → Q m' (Ok (Some s))) →
  (∀ m', later m m' → gr_leader (m_group m') = Running → Q m' (Ok None)) →
  wp (try_wait orc kill_delay) m Q.
Proof.
  intros He Hs Hr. unfold wp, try_wait. pose proof (advance_later 0 m) as Hl.
  destruct (gr_leader _) eqn:E; cbn.
  - destruct (mv_fault _); [by apply He|by apply Hr].
  - destruct (mv_fault _); [by apply He|]. cbn. apply Hs; [|done].
    by apply (reap_later (Reaped s) s).
  - by apply Hs.
  - by apply He.
Qed.

Lemma record_signal_later s m m' : later m m' → later m (record_signal s m').
Proof.
  intros []. split; [done..|]. intros Hd. destruct (later_doomed0 Hd) as [[Hk|Hg] Hs]; (split; [|done]).
  - left. cbn. destruct s, (m_killed m'); done.
  - by right.
Qed.

Lemma killpg_cases s m :
  let '(m', r) := killpg orc kill_delay s m in
  later m m' ∧
  (r = Err ESRCH → gone (m_group m') = true ∧ gr_leader (m_group m') = gr_leader (m_group m)).
Proof.
  unfold killpg. pose proof (advance_later 0 m) as Hl.
  destruct (gone _) eqn:Eg; [by pose proof (advance_reaped 0 m Eg)|].
  destruct (mv_fault _) as [[]|]; cbn; split; try done. by apply record_signal_later.
Qed.

Lemma wp_exists m Q :
  (∀ m' e, later m m' → Q m' (Err (Raised e))) →
  (∀ m', later m m' → Q m' (Ok true)) →
  (∀ m', later m m' → gone (m_group m') = true →
     gr_leader (m_group m') = gr_leader (m_group m) → Q m' (Ok false)) →
  wp (process_group_exists orc kill_delay) m Q.
Proof.
  intros He Ht Hf. unfold wp, process_group_exists. pose proof (killpg_cases Probe m) as Hk.
  destruct (killpg _ _ _ m) as [m' r]. destruct Hk as [Hl Hg]. destruct r as [|[]]; cbn; auto.
  destruct Hg; auto.
Qed.

Lemma wp_signal_group s m Q :
  (∀ m' r, later m m' → r ≠ Err Diverged → Q m' r) → wp (signal_group orc kill_delay s) m Q.
Proof.
  intros H. unfold wp, signal_group. pose proof (killpg_cases s m) as Hk.
  destruct (killpg _ _ _ m) as [m' r]. destruct Hk as [Hl _]. destruct r as [|[]]; cbn; by apply H.
Qed.

Lemma kill_later s m : later m (kill orc kill_delay s m).1.
Proof.
  unfold kill. pose proof (advance_later 0 m) as Hl.
  destruct (gr_leader _); [destruct (mv_fault (orc (m_tick m)))..| |]; cbn; try done; destruct Hl; by split.
Qed.

Lemma wp_signal_process_group s m Q :
  (∀ m' r, later m m' → r ≠ Err Diverged → Q m' r) → wp (signal_process_group orc kill_delay s) m Q.
Proof.
  intros H. unfold wp, signal_process_group. pose proof (killpg_cases s m) as Hk.
  destruct (killpg _ _ _ m) as [m' [|e]]; destruct Hk as [Hl _]; [by apply H|].
  pose proof (kill_later s m') as Hk. destruct (kill _ _ s m') as [m'' r]. cbn in *.
  apply H; [by etrans|]. by destruct r as [|[]].
Qed.

(** * Polling loops *)

(** A loop whose body iterates only before the deadline, and then takes at least
    [interval], ends within the iterations [polls] allows. *)
Lemma wp_poll {E A S} fuel interval deadline (I : Machine X → S → Prop)
    (body : S → eff (Machine X) (halt E) (S + A)) s m Q :
  (0 < fuel)%nat → deadline ≤ m_now m + N.of_nat (pred fuel) * interval →
  I m s →
  (∀ s m, I m s → wp (body s) m (λ m' r,
     match r with
     | Ok (inl s') => I m' s' ∧ m_now m < deadline ∧ m_now m + interval ≤ m_now m'
     | Ok (inr a) => Q m' (Ok a)
     | Err e => Q m' (Err e)
     end)) →
  wp (poll fuel body s) m Q.
Proof.
  intros Hf Hd Hi Hb. revert s m Hf Hd Hi. induction fuel as [|fuel IH]; intros s m Hf Hd Hi; [lia|].
  cbn [poll]. apply wp_bind. eapply wp_mono; [by apply Hb|]. intros m' [[s'|a]|e]; cbn; [|done..].
  intros (Hi' & Hlt & Hstep). assert (0 < fuel)%nat by (destruct fuel; cbn in *; lia).
  apply IH; [lia| |done]. cbn in Hd. nia.
Qed.

Lemma polls_enough timeout interval start now :
  0 < interval → start ≤ now →
  start + timeout ≤ now + N.of_nat (pred (polls timeout interval)) * interval.
Proof.
  intros Hi Hs. unfold polls. cbn [pred]. rewrite Nat2N.inj_succ, N2Nat.id.
  pose proof (N.mod_lt timeout interval). pose proof (N.div_mod timeout interval). nia.
Qed.

(** The form in which the loops below use it. *)
Lemma wp_poll_timeout {E A S} timeout interval start (I : Machine X → S → Prop)
    (body : S → eff (Machine X) (halt E) (S + A)) s m Q :
  0 < interval → start ≤ m_now m → I m s →
  (∀ s m, I m s → wp (body s) m (λ m' r,
     match r with
     | Ok (inl s') => I m' s' ∧ m_now m < start + timeout ∧ m_now m + interval ≤ m_now m'
     | Ok (inr a) => Q m' (Ok a)
     | Err e => Q m' (Err e)
     end)) →
  wp (poll (polls timeout interval) body s) m Q.
Proof.
  intros Hi Hs HI Hb. eapply (wp_poll _ interval (start + timeout) I); [apply Nat.lt_0_succ| |done|done].
  by apply polls_enough.
Qed.

(** * Waiting and stopping *)

(** The child has been reaped through its handle, with [code] its exit code. *)
Definition reaped_with (m : Machine X) (code : Z) : Prop :=
  ∃ s, gr_leader (m_group m) = Reaped s ∧ code = exit_code s.

Lemma reaped_with_later m m' code : later m m' → reaped_with m code → reaped_with m' code.
Proof. intros [_ Hl _ _] (s & Hs & ->). exists s. auto. Qed.

Lemma wait_for_group_spec timeout m :
  wp (wait_for_group_and_exit orc kill_delay timeout) m (λ m' r,
    later m m' ∧
    match r with
    | Ok (code, ended) =>
        (∀ c, code = Some c → reaped_with m' c) ∧
        (ended = true → gone (m_group m') = true ∧ is_Some code)
    | Err Diverged => False
    | Err _ => True
    end).
Proof.
  unfold wait_for_group_and_exit. apply wp_bind, wp_now. intros m0 Hm0.
  apply (wp_poll_timeout _ _ (m_now m0)
    (λ m1 code, later m m1 ∧ m_now m0 ≤ m_now m1 ∧ ∀ c, code = Some c → reaped_with m1 c)); [done..|].
  intros code m1 (Hm1 & Ht1 & Hc). apply wp_bind.
  apply (wp_mono _ _ (λ m2 r, later m1 m2 ∧
    match r with
    | Ok code => (∀ c, code = Some c → reaped_with m2 c) ∧
                 (code = None → gr_leader (m_group m2) = Running)
    | Err Diverged => False
    | Err _ => True
    end)).
  - destruct code as [c|]; [apply wp_ret; naive_solver|].
    apply wp_bind, wp_try_wait; cbn; [done| |].
    + intros m2 s Hl Hr. apply wp_ret. split; [done|]. split; [|done].
      intros c [= <-]. by exists s.
    + intros m2 Hl Hr. apply wp_ret. done.
  - intros m2 [code'|e] [Hm2 Hcode]; [|split; [by trans m1|by destruct e]].
    destruct Hcode as [Hsome Hnone]. apply wp_bind, wp_exists; cbn [negb].
    + intros m3 e Hm3. split; [later_trans|done].
    + intros m3 Hm3. apply wp_bind, wp_now. intros m4 Hm4.
      assert (∀ c, code' = Some c → reaped_with m4 c) as Hsome4.
      { intros c Hc'. apply (reaped_with_later m2); [later_trans|auto]. }
      pose proof (later_time _ _ Hm2). pose proof (later_time _ _ Hm3). pose proof (later_time _ _ Hm4).
      destruct (N.leb_spec timeout (m_now m4 - m_now m0)).
      * apply wp_ret. split; [later_trans|done].
      * apply wp_bind, wp_sleep. intros m5 Hm5 Ht5. apply wp_ret. pose proof (later_time _ _ Hm5).
        split_and!; [later_trans|lia| |lia|lia].
        intros c Hc'. by apply (reaped_with_later m4); [|auto].
    + intros m3 Hm3 Hg Hlead. apply wp_ret. split; [later_trans|]. split.
      * intros c Hc'. apply (reaped_with_later m2); auto.
      * intros _. split; [done|]. destruct code'; [done|]. rewrite Hnone in Hlead by done.
        apply gone_spec in Hg as [Hg _]. rewrite Hlead in Hg. naive_solver.
Qed.

(** Any result but running out of iterations, or the given guarantee. *)
Definition settles {A} (m : Machine X) (P : Machine X → A → Prop)
    (m' : Machine X) (r : result (halt io_error) A) : Prop :=
  later m m' ∧ match r with Ok a => P m' a | Err Diverged => False | Err _ => True end.

Lemma settled_trans {A} m m1 (P : Machine X → A → Prop) m' r :
  later m m1 → settles m1 P m' r → settles m P m' r.
Proof. intros H1 [H2 HP]. split; [by trans m1|done]. Qed.

Lemma wp_settles_ret {A} m (P : Machine X → A → Prop) a : P m a → wp (mret a) m (settles m P).
Proof. by split. Qed.

(** A step of a computation that settles. *)
Lemma wp_settles_bind {A B} (c : eff (Machine X) (halt io_error) A)
    (k : A → eff (Machine X) (halt io_error) B) m P Q :
  wp c m (settles m P) →
  (∀ m1 a, later m m1 → P m1 a → wp (k a) m1 (settles m1 Q)) →
  wp (c ≫= k) m (settles m Q).
Proof.
  intros Hc Hk. apply wp_bind. eapply wp_mono; [exact Hc|]. intros m1 [a|[e|]] [Hl HP]; [|done..].
  eapply wp_mono; [by apply Hk|]. intros m2 r. by apply settled_trans.
Qed.

Lemma terminate_process_spec reason m :
  wp (terminate_process orc kill_delay reason) m
    (settles m (λ m' code, gone (m_group m') = true ∧ reaped_with m' code)).
Proof.
  unfold terminate_process.
  eapply (wp_settles_bind _ _ _ (λ _ _, True)).
  { apply wp_try, wp_signal_process_group. by split. }
  intros m1 _ _ _. eapply wp_settles_bind; [apply (wait_for_group_spec TIMEOUT_KILL_GRACE)|].
  intros m2 [code ended] _ [Hc He]. cbn in Hc, He. cbn [fst snd].
  eapply (wp_settles_bind _ _ _ (λ m' code, gone (m_group m') = true ∧ ∃ c, code = Some c ∧ reaped_with m' c)).
  { destruct ended; cbn [negb].
    - apply wp_ret. split; [done|]. destruct He as [Hg [c ->]]; [done|]. eauto.
    - eapply (wp_settles_bind _ _ _ (λ m' _, later m2 m')).
      { apply wp_try, wp_signal_group. by split. }
      intros m3 _ Hm3 _. eapply wp_settles_bind; [apply (wait_for_group_spec TIMEOUT_KILL_GRACE)|].
      intros m4 [code' ended] Hm4 [Hc' He']. cbn in Hc', He'. destruct ended; cbn; [|by apply wp_fail].
      apply wp_ret. split; [done|]. destruct He' as [Hg [c' ->]]; [done|]. split; [done|].
      destruct code as [c|]; [|eauto]. exists c. split; [done|].
      apply (reaped_with_later m2); [later_trans|by apply Hc]. }
  intros m3 c _ (Hg & c' & -> & Hr). apply wp_bind, wp_ret. by apply wp_ret.
Qed.

Lemma await_group_spec grace m :
  wp (await_group orc kill_delay grace) m
    (settles m (λ m' ended, ended = true → gone (m_group m') = true)).
Proof.
  unfold await_group. apply wp_bind, wp_now. intros m0 Hm0.
  apply (wp_poll_timeout _ _ (m_now m0) (λ m1 _, later m m1 ∧ m_now m0 ≤ m_now m1)); [done..|].
  intros [] m1 [Hm1 Ht1]. apply wp_bind, wp_now. intros m2 Hm2. pose proof (later_time _ _ Hm2).
  destruct (N.leb_spec grace (m_now m2 - m_now m0)).
  { apply wp_ret. split; [later_trans|done]. }
  apply wp_bind, wp_exists; cbn [negb].
  - intros m3 e Hm3. split; [later_trans|done].
  - intros m3 Hm3. apply wp_bind, wp_sleep. intros m4 Hm4 Ht4. apply wp_ret.
    pose proof (later_time _ _ Hm3). split_and!; [later_trans|lia..].
  - intros m3 Hm3 Hg _. apply wp_ret. split; [later_trans|done].
Qed.

Lemma terminate_remaining_group_spec m :
  wp (terminate_remaining_group orc kill_delay) m (settles m (λ m' _, gone (m_group m') = true)).
Proof.
  unfold terminate_remaining_group.
  eapply (wp_settles_bind _ _ _ (λ m' alive, alive = false → gone (m_group m') = true)).
  { apply wp_exists; by split. }
  intros m1 [] _ Hg; cbn [negb]; [|by apply wp_settles_ret; auto].
  eapply (wp_settles_bind _ _ _ (λ _ _, True)).
  { apply wp_signal_group. intros m' [|[]] ??; by split. }
  intros m2 _ _ _. eapply wp_settles_bind; [apply await_group_spec|].
  intros m3 [] _ Hg3; [apply wp_ret; split; auto; done|].
  eapply (wp_settles_bind _ _ _ (λ _ _, True)).
  { apply wp_signal_group. intros m' [|[]] ??; by split. }
  intros m4 _ _ _. eapply wp_settles_bind; [apply await_group_spec|].
  intros m5 [] _ Hg5; [apply wp_ret; split; auto; done|]. by apply wp_fail.
Qed.

(** What an outcome says about the machine it is reported on. *)
Definition outcome_of (start timeout_sec : N) (m : Machine X) (o : WaitOutcome) : Prop :=
  gone (m_group m) = true ∧
  match o with
  | Exited code timed_out duration =>
      reaped_with m code ∧ start + duration ≤ m_now m ∧
      (timed_out = true → secs timeout_sec ≤ duration)
  | Cancelled => m_cancelled m = true
  end.

Lemma later_cancelled m m' : later m m' → m_cancelled m = true → m_cancelled m' = true.
Proof. intros [H _ _ _] Hc. exact (drift_cancelled _ _ H Hc). Qed.

Lemma wait_with_timeout_spec timeout_sec m :
  wp (wait_with_timeout orc kill_delay timeout_sec) m
    (settles m (outcome_of (m_now m) timeout_sec)).
Proof.
  unfold wait_with_timeout. apply wp_bind, wp_now. intros m0 Hm0.
  pose proof (later_time _ _ Hm0) as Ht0.
  eapply wp_mono with (Q := settles m0 (outcome_of (m_now m) timeout_sec)).
  2: { intros m' r. by apply settled_trans. }
  eapply (wp_settles_bind _ _ _ (λ m' ended,
    match ended with
    | Some o => outcome_of (m_now m) timeout_sec m' o
    | None => secs timeout_sec ≤ m_now m' - m_now m0
    end)).
  - apply (wp_poll_timeout _ _ (m_now m0) (λ m1 _, later m0 m1)); [done..|].
    intros [] m1 Hm1. pose proof (later_time _ _ Hm1). apply wp_bind, wp_try_wait.
    + intros m2 e Hm2. split; [later_trans|done].
    + intros m2 s Hm2 Hs. apply wp_bind, wp_now. intros m3 Hm3.
      apply wp_bind. eapply wp_mono; [apply terminate_remaining_group_spec|].
      intros m4 [[]|[e|]] [Hm4 Hg]; [|split; [later_trans|done]|done].
      apply wp_ret. split; [later_trans|]. split; [done|].
      pose proof (later_time _ _ Hm4). pose proof (later_time _ _ Hm2). pose proof (later_time _ _ Hm3).
      split_and!; [|lia|done]. apply (reaped_with_later m2); [later_trans|by exists s].
    + intros m2 Hm2 _. apply wp_bind, wp_is_cancelled. intros m3 Hm3.
      destruct (m_cancelled m3) eqn:Ec.
      * apply wp_bind. eapply wp_mono; [apply terminate_process_spec|].
        intros m4 [code|[e|]] [Hm4 Hg]; [|split; [later_trans|done]|done].
        apply wp_ret. split; [later_trans|]. split; [by destruct Hg|].
        by apply (later_cancelled m3).
      * apply wp_bind, wp_now. intros m4 Hm4.
        pose proof (later_time _ _ Hm2). pose proof (later_time _ _ Hm3). pose proof (later_time _ _ Hm4).
        destruct (N.leb_spec (secs timeout_sec) (m_now m4 - m_now m0)).
        -- apply wp_ret. split; [later_trans|done].
        -- apply wp_bind, wp_sleep. intros m5 Hm5 Ht5. apply wp_ret. split_and!; [later_trans|lia..].
  - intros m1 [o|] Hm1 Ho; [by apply wp_ret|].
    apply wp_bind, wp_now. intros m2 Hm2. apply wp_bind.
    eapply wp_mono; [apply terminate_process_spec|].
    intros m3 [code|[e|]] [Hm3 Hg]; [|split; [later_trans|done]|done].
    destruct Hg as [Hg Hr].
    pose proof (later_time _ _ Hm1). pose proof (later_time _ _ Hm2). pose proof (later_time _ _ Hm3).
    apply wp_ret. split; [later_trans|]. split; [done|]. split_and!; [done|lia|intros _; lia].
Qed.
End facts.

#[export] Hint Resolve polls_enough : s2.
