(* ===== verification/MachineRules.v ===== *)
(** Rules for computations on a machine with other threads: that they return, which
    errors they raise and what they keep. *)
From stdpp Require Import base option strings numbers list relations.
From S2P Require Import Prelude Effects Process ProcessFacts.

Local Open Scope N_scope.

(** * Returning *)

(** The computation ends, whatever the machine does. *)
Definition returns {St E A} (c : eff St (halt E) A) : Prop := ∀ m, (c m).2 ≠ Err Diverged.

Section returns.
Context {St E : Type}.

Lemma returns_ret {A} (a : A) : returns (mret (M := eff St (halt E)) a).
Proof. done. Qed.
Lemma returns_fail {A} (e : E) : returns (io_fail (St := St) (A := A) (Raised e)).
Proof. done. Qed.
Lemma returns_bind {A B} (c : eff St (halt E) A) (k : A → eff St (halt E) B) :
  returns c → (∀ a, returns (k a)) → returns (c ≫= k).
Proof.
  intros Hc Hk m. unfold mbind, eff_bind. specialize (Hc m).
  destruct (c m) as [m' [a|e]]; cbn in *; [apply Hk|by intros [= ->]].
Qed.
Lemma returns_lift {A} (r : result (halt E) A) : r ≠ Err Diverged → returns (io_lift (St := St) r).
Proof. by intros ? m. Qed.
Lemma returns_bind_lift {A B} (r : result (halt E) A) (k : A → eff St (halt E) B) :
  r ≠ Err Diverged → (∀ a, r = Ok a → returns (k a)) → returns (io_lift r ≫= k).
Proof. intros Hr Hk m. destruct r as [a|e]; [by apply Hk|]. cbn. by intros [= ->]. Qed.
Lemma returns_reject b (e : E) : returns (io_reject (St := St) b (Raised e)).
Proof. by destruct b. Qed.
Lemma returns_try {F A} (c : eff St F A) : returns (io_try (F := halt E) c).
Proof. intros m. unfold io_try. by destruct (c m). Qed.
Lemma returns_map_err {F A} (f : E → F) (c : eff St (halt E) A) :
  returns c → returns (io_map_err (halt_map f) c).
Proof.
  intros Hc m. unfold io_map_err. specialize (Hc m). destruct (c m) as [m' [a|[e|]]]; cbn in *; congruence.
Qed.
Lemma returns_raise {F A} (f : F → E) (c : eff St F A) : returns (io_map_err (λ e, Raised (f e)) c).
Proof. intros m. unfold io_map_err. by destruct (c m) as [m' []]. Qed.
(** Handing over the result of a computation that returns. *)
Lemma returns_bind_try {F A B} (c : eff St (halt F) A) (k : result (halt F) A → eff St (halt E) B) :
  returns c → (∀ r, r ≠ Err Diverged → returns (k r)) → returns (io_try c ≫= k).
Proof.
  intros Hc Hk m. unfold mbind, eff_bind, io_try. specialize (Hc m).
  destruct (c m) as [m' r]. cbn in *. by apply Hk.
Qed.
Lemma returns_wp {A} (c : eff St (halt E) A) :
  (∀ m, wp c m (λ _ r, r ≠ Err Diverged)) → returns c.
Proof. done. Qed.
End returns.

#[export] Hint Resolve returns_ret returns_fail returns_bind returns_reject returns_try
  returns_map_err returns_raise : s2.

(** * The errors of a computation *)

(** Every error it raises satisfies [P]. *)
Definition throws {St E A} (P : E → Prop) (c : eff St (halt E) A) : Prop :=
  ∀ m e, (c m).2 = Err (Raised e) → P e.

Section throws.
Context {St E : Type} (P : E → Prop).

Lemma throws_bind {A B} (c : eff St (halt E) A) (k : A → eff St (halt E) B) :
  throws P c → (∀ a, throws P (k a)) → throws P (c ≫= k).
Proof.
  intros Hc Hk m e. unfold mbind, eff_bind. specialize (Hc m e).
  destruct (c m) as [m' [a|]]; cbn in *; [apply Hk|intros [= ->]; by apply Hc].
Qed.
Lemma throws_lift {A} (r : result (halt E) A) :
  (∀ e, r = Err (Raised e) → P e) → throws P (io_lift (St := St) r).
Proof. intros Hr m e. apply Hr. Qed.
Lemma throws_fail {A} e : P e → throws P (io_fail (St := St) (A := A) (Raised e)).
Proof. by intros ? m ? [= <-]. Qed.
Lemma throws_diverged {A} : throws P (io_fail (St := St) (A := A) Diverged).
Proof. done. Qed.
Lemma throws_ret {A} (a : A) : throws P (mret (M := eff St (halt E)) a).
Proof. done. Qed.
Lemma throws_reject b e : P e → throws P (io_reject (St := St) b (Raised e)).
Proof. intros ?. apply throws_lift. destruct b; cbn; [by intros ? [= <-]|done]. Qed.
Lemma throws_try {F A} (c : eff St F A) : throws P (io_try (F := halt E) c).
Proof. intros m e. unfold io_try. by destruct (c m). Qed.
Lemma throws_map_err {F A} (f : F → E) (c : eff St (halt F) A) :
  (∀ e, P (f e)) → throws P (io_map_err (halt_map f) c).
Proof. intros Hf m e. unfold io_map_err. destruct (c m) as [? [|[]]]; cbn; [done|by intros [= <-]|done]. Qed.
Lemma throws_raise {F A} (f : F → E) (c : eff St F A) :
  (∀ e, P (f e)) → throws P (io_map_err (λ e, Raised (f e)) c).
Proof. intros Hf m e. unfold io_map_err. destruct (c m) as [? []]; cbn; [done|by intros [= <-]]. Qed.
Lemma throws_map_err_from {F A} (R : F → Prop) (f : F → E) (c : eff St (halt F) A) :
  throws R c → (∀ e, R e → P (f e)) → throws P (io_map_err (halt_map f) c).
Proof.
  intros Hc Hf m e. unfold io_map_err. specialize (Hc m).
  destruct (c m) as [? [|[]]]; cbn in *; [done|intros [= <-]; auto|done].
Qed.
(** The error of a computation that is run with [io_try]. *)
Lemma throws_bind_try {F A B} (R : F → Prop) (c : eff St (halt F) A)
    (k : result (halt F) A → eff St (halt E) B) :
  throws R c → (∀ r, (∀ e, r = Err (Raised e) → R e) → throws P (k r)) → throws P (io_try c ≫= k).
Proof.
  intros Hc Hk m e. unfold mbind, eff_bind, io_try. specialize (Hc m).
  destruct (c m) as [m' r]. cbn in *. by apply Hk.
Qed.
End throws.

(** * What a computation leaves related *)

(** The states before and after it are related by [R]. *)
Definition keeps {St E A} (R : relation St) (c : eff St E A) : Prop := ∀ m, R m (c m).1.

Lemma wp_keeps {St E A} (R : relation St) (c : eff St E A) m Q :
  keeps R c → (∀ m' r, R m m' → Q m' r) → wp c m Q.
Proof. intros Hk HQ. apply HQ, Hk. Qed.

Section keeps.
Context {St : Type} (R : relation St) `{!PreOrder R}.

Lemma keeps_ret {E A} (a : A) : keeps R (mret (M := eff St E) a).
Proof. intros m. by cbn. Qed.
Lemma keeps_lift {E A} (r : result E A) : keeps R (io_lift r).
Proof. intros m. by cbn. Qed.
Lemma keeps_bind {E A B} (c : eff St E A) (k : A → eff St E B) :
  keeps R c → (∀ a, keeps R (k a)) → keeps R (c ≫= k).
Proof.
  intros Hc Hk m. unfold mbind, eff_bind. specialize (Hc m).
  destruct (c m) as [m' [a|e]]; cbn in *; [|done]. etrans; [exact Hc|apply Hk].
Qed.
Lemma keeps_try {E F A} (c : eff St E A) : keeps R c → keeps R (io_try (F := F) c).
Proof. intros Hc m. unfold io_try. specialize (Hc m). by destruct (c m). Qed.
Lemma keeps_map_err {E F A} (f : E → F) (c : eff St E A) : keeps R c → keeps R (io_map_err f c).
Proof. intros Hc m. unfold io_map_err. specialize (Hc m). by destruct (c m). Qed.
End keeps.

Section rules.
Context {X : Type} (orc : nat → move X) (kill_delay : option N).

Lemma wp_atomically {E A} (f : N → X → X * A) m (Q : Machine X → result E A → Prop) :
  (∀ m', later orc m m' →
     Q (set_shared (f (m_now m') (m_shared m')).1 m') (Ok (f (m_now m') (m_shared m')).2)) →
  wp (atomically orc kill_delay f) m Q.
Proof.
  intros H. unfold wp, atomically. specialize (H _ (advance_later orc kill_delay 0 m)).
  by destruct (f _ _).
Qed.

Lemma returns_now {E} : returns (E := E) (instant_now orc kill_delay).
Proof. done. Qed.
Lemma returns_sleep {E} d : returns (E := E) (thread_sleep orc kill_delay d).
Proof. done. Qed.
Lemma returns_is_cancelled {E} : returns (E := E) (is_cancelled orc kill_delay).
Proof. done. Qed.
Lemma returns_atomically {E A} (f : N → X → X * A) : returns (E := E) (atomically orc kill_delay f).
Proof. intros m. unfold atomically. by destruct (f _ _). Qed.

Lemma throws_now {E} (P : E → Prop) : throws P (instant_now orc kill_delay).
Proof. done. Qed.
Lemma throws_is_cancelled {E} (P : E → Prop) : throws P (is_cancelled orc kill_delay).
Proof. done. Qed.
Lemma throws_atomically {E A} (P : E → Prop) (f : N → X → X * A) : throws P (atomically orc kill_delay f).
Proof. intros m e. unfold atomically. by destruct (f _ _). Qed.

(** A loop that tests the shared state at each turn until a deadline: [I] holds
    before a test, and [J] after one that did not decide. *)
Lemma wp_poll_shared {E A B} timeout interval (test : N → X → X * B) (k : B → option A) (last : A) m
    (I J : Machine X → Prop) (Q : Machine X → result (halt E) A → Prop) :
  0 < interval → I m →
  (∀ m m', I m → later orc m m' → I m') →
  (∀ m m', J m → later orc m m' → J m') →
  (∀ m, J m → I m) →
  (∀ m0, let m := advance orc kill_delay 0 m0 in
     I m → match k (test (m_now m) (m_shared m)).2 with
           | Some a => Q (set_shared (test (m_now m) (m_shared m)).1 m) (Ok a)
           | None => J (set_shared (test (m_now m) (m_shared m)).1 m)
           end) →
  (∀ m, J m → Q m (Ok last)) →
  wp (poll_shared orc kill_delay timeout interval test k last) m Q.
Proof.
  intros Hint HI Hl HlJ HJ Ht Hlast. unfold poll_shared. apply wp_bind, wp_now. intros m0 Hm0.
  apply (wp_poll_timeout _ _ (m_now m0) (λ m1 _, I m1)); [done..|by apply (Hl m)|].
  intros [] m1 HI1. apply wp_bind. unfold wp at 1, atomically.
  pose proof (advance_later orc kill_delay 0 m1) as Hm2. specialize (Hl m1 _ HI1 Hm2) as HI2.
  specialize (Ht m1 HI2). remember (advance orc kill_delay 0 m1) as m2.
  destruct (test (m_now m2) (m_shared m2)) as [x b]. cbn in *. destruct (k b); [by apply wp_ret|].
  apply wp_bind, wp_now. intros m3 Hm3. pose proof (later_time _ _ _ Hm2). pose proof (later_time _ _ _ Hm3).
  cbn in *. destruct (N.leb_spec (m_now m0 + timeout) (m_now m3)).
  - apply wp_ret, Hlast. eauto.
  - apply wp_bind, wp_sleep. intros m4 Hm4 ?. pose proof (later_time _ _ _ Hm4).
    apply wp_ret. split_and!; [|lia..]. apply HJ. eauto.
Qed.

Lemma returns_poll_shared {E A B} timeout interval (test : N → X → X * B) (k : B → option A) last :
  0 < interval → returns (E := E) (poll_shared orc kill_delay timeout interval test k last).
Proof.
  intros Hi. apply returns_wp. intros m. apply wp_poll_shared with (I := λ _, True) (J := λ _, True); [done..| |done].
  intros m0 m1 _. by destruct (k _).
Qed.

Lemma throws_poll_shared {E A B} (P : E → Prop) timeout interval (test : N → X → X * B) (k : B → option A) last :
  throws P (poll_shared orc kill_delay timeout interval test k last).
Proof.
  unfold poll_shared. apply throws_bind; [done|]. intros start.
  generalize (polls timeout interval) as fuel. induction fuel as [|fuel IH]; [done|]. cbn [poll].
  apply throws_bind.
  - apply throws_bind; [apply throws_atomically|]. intros b. destruct (k b); [done|].
    apply throws_bind; [done|]. intros now. by destruct (_ <=? _).
  - by intros [[]|].
Qed.

(** A relation that holds across every wait. *)
Context (R : relation (Machine X)) `{!PreOrder R}.
Context (Hlater : ∀ m m', later orc m m' → R m m').

Lemma keeps_now {E} : keeps (E := E) R (instant_now orc kill_delay).
Proof. intros m. apply Hlater, advance_later. Qed.
Lemma keeps_cancelled {E} : keeps (E := E) R (is_cancelled orc kill_delay).
Proof. intros m. apply Hlater, advance_later. Qed.

Lemma keeps_atomically {E A} (f : N → X → X * A) :
  (∀ now m, R m (set_shared (f now (m_shared m)).1 m)) →
  keeps (E := E) R (atomically orc kill_delay f).
Proof.
  intros Hf m. apply (wp_atomically (E := E) f m (λ m' _, R m m')).
  intros m' Hm'. etrans; [by apply Hlater|apply Hf].
Qed.

Lemma keeps_poll_shared {E A B} timeout interval (test : N → X → X * B) (k : B → option A) last :
  0 < interval → (∀ now m, R m (set_shared (test now (m_shared m)).1 m)) →
  keeps (E := halt E) R (poll_shared orc kill_delay timeout interval test k last).
Proof.
  intros Hi Ht m.
  apply (wp_poll_shared (E := E) timeout interval test k last m (R m) (R m) (λ m' _, R m m'));
    [done|done|..]; try done.
  - intros m1 m2 ? ?%Hlater. by trans m1.
  - intros m1 m2 ? ?%Hlater. by trans m1.
  - intros m0 m1 H1. pose proof (Ht (m_now m1) m1) as H2. destruct (k _); by trans m1.
Qed.

Lemma keeps_settles {A} (c : eff (Machine X) (halt io_error) A) P :
  (∀ m, wp c m (settles orc m (P m))) → keeps R c.
Proof. intros Hc m. destruct (Hc m) as [Hl _]. by apply Hlater. Qed.
End rules.

#[export] Hint Resolve returns_now returns_sleep returns_is_cancelled returns_atomically : s2.

(** The errors of a sequence of calls. *)
Ltac throws_tac :=
  repeat match goal with
  | |- throws _ (mbind _ _) => apply throws_bind; [|intros ?]
  | |- throws _ (mret _) => apply throws_ret
  | |- throws _ (atomically _ _ _) => apply throws_atomically
  | |- throws _ (poll_shared _ _ _ _ _ _ _) => apply throws_poll_shared
  | |- throws _ (match ?x with _ => _ end) => destruct x
  end.

(** Opens the binds of a computation and closes the calls. *)
Ltac returns_tac :=
  repeat match goal with
  | |- returns (mbind _ _) => apply returns_bind; [|intros ?]
  | |- returns (poll_shared _ _ _ _ _ _ _) => by apply returns_poll_shared
  | |- returns (io_map_err (halt_map _) _) => apply returns_map_err
  | |- returns (match ?x with _ => _ end) => destruct x
  | |- _ => progress auto with s2
  end.
