(* ===== verification/ProcessLive.v ===== *)
(** On a machine whose calls work and whose [SIGKILL] takes effect, waiting for a
    program succeeds, and within a bound that only depends on the timeout. *)
From stdpp Require Import base option strings numbers list relations.
From S2P Require Import Prelude Effects Process ProcessFacts.

Local Open Scope N_scope.

Section live.
Context {X : Type} (orc : nat → move X) (d : N).

(** No call fails, each returns within a millisecond, and a killed group is gone
    within four seconds. *)
Record prompt : Prop := {
  prompt_faults : ∀ k, mv_fault (orc k) = None;
  prompt_calls : ∀ k, mv_time (orc k) ≤ ms 1;
  prompt_kill : d ≤ secs 4;
}.
Context (Hp : prompt).

Abbreviation advance := (advance orc (Some d)).
Abbreviation later := (later orc).

(** All that is left of a killed group is a leader to be waited for. *)
Definition dead (g : group) : Prop := gr_leader g ≠ Running ∧ gr_live g = O ∧ gr_zombies g = O.

(** The child's status has not been taken by anyone else. *)
Definition fit (m : Machine X) : Prop :=
  gr_leader (m_group m) ≠ Stolen ∧ ∀ t, m_killed m = Some t → t ≤ m_now m.

(** A kill made before [m] has had its effect in [m']. *)
Definition dies (m m' : Machine X) : Prop :=
  ∀ t, m_killed m = Some t → t + d ≤ m_now m' → dead (m_group m').

(** [m'] follows [m] within [e]. *)
Record within (e : N) (m m' : Machine X) : Prop := {
  within_later : later m m';
  within_time : m_now m' ≤ m_now m + e;
  within_fit : fit m → fit m';
  within_killed : ∀ t, m_killed m = Some t → m_killed m' = Some t;
}.

Lemma within_refl m : within 0 m m.
Proof. split; [done|lia|done|done]. Qed.

Lemma within_trans e1 e2 m1 m2 m3 : within e1 m1 m2 → within e2 m2 m3 → within (e1 + e2) m1 m3.
Proof. intros [] []. split; [by trans m2|lia|auto..]. Qed.

Lemma within_mono e e' m m' : e ≤ e' → within e m m' → within e' m m'.
Proof. intros ? []. split; [done|lia|done|done]. Qed.

Lemma event_stolen killed g ev : gr_leader g ≠ Stolen → gr_leader (proc_event_step killed g ev) ≠ Stolen.
Proof.
  destruct ev; cbn; try done.
  - destruct (gr_leader g) eqn:E; cbn; congruence.
  - by destruct (_ && _).
  - by destruct (gr_live g).
Qed.

Lemma advance_within e m : within (e + ms 1) m (advance e m).
Proof.
  pose proof (advance_later orc (Some d) e m) as Hl. revert Hl. unfold Process.advance.
  destruct (mv_threads _ _ _ _) as [x set]. cbn. intros Hl. split; cbn; [done| | |done].
  - pose proof (prompt_calls Hp (m_tick m)). lia.
  - intros [Hst Hk]. split; cbn.
    + assert (gr_leader (foldl (proc_event_step (is_some (m_killed m))) (m_group m)
                (mv_events (orc (m_tick m)))) ≠ Stolen) as Hg.
      { by apply (events_keep (λ g, gr_leader g ≠ Stolen)); [intros; by apply event_stolen|]. }
      unfold kill_effect. destruct (m_killed m); [|done]. case_match; [|done]. by destruct (gr_leader _).
    + intros t Ht. specialize (Hk t Ht). lia.
Qed.

Lemma advance_dies e m : dies m (advance e m).
Proof.
  intros t. unfold Process.advance. destruct (mv_threads _ _ _ _) as [x set]. cbn.
  intros Ht Htd. rewrite Ht. unfold kill_effect. rewrite (proj2 (N.leb_le _ _)) by done.
  split; [|done]. cbn. by destruct (gr_leader _).
Qed.

(** * Rules *)

Lemma live_now {E} m (Q : Machine X → result E N → Prop) :
  (∀ m', within (ms 1) m m' → Q m' (Ok (m_now m'))) → wp (instant_now orc (Some d)) m Q.
Proof. intros H. apply H. apply (advance_within 0). Qed.

Lemma live_sleep {E} e m (Q : Machine X → result E unit → Prop) :
  (∀ m', within (e + ms 1) m m' → m_now m + e ≤ m_now m' → Q m' (Ok tt)) →
  wp (thread_sleep orc (Some d) e) m Q.
Proof. intros H. apply H; [apply advance_within|apply advance_time]. Qed.

Lemma live_cancelled {E} m (Q : Machine X → result E bool → Prop) :
  (∀ m', within (ms 1) m m' → Q m' (Ok (m_cancelled m'))) → wp (is_cancelled orc (Some d)) m Q.
Proof. intros H. apply H. apply (advance_within 0). Qed.

(** A leader still running has not been killed long ago. *)
Lemma live_try_wait m Q :
  fit m →
  (∀ m' s, within (ms 1) m m' → gr_leader (m_group m') = Reaped s →
     (∀ t, m_killed m = Some t → t + d ≤ m_now m' → gone (m_group m') = true) → Q m' (Ok (Some s))) →
  (∀ m', within (ms 1) m m' → gr_leader (m_group m') = Running →
     (∀ t, m_killed m = Some t → m_now m' < t + d) → Q m' (Ok None)) →
  wp (try_wait orc (Some d)) m Q.
Proof.
  intros Hfit Hs Hr. unfold wp, try_wait. pose proof (advance_within 0 m) as Hw.
  pose proof (advance_dies 0 m) as Hd. rewrite (prompt_faults Hp). destruct (gr_leader _) eqn:E; cbn.
  - apply Hr; [done..|]. intros t Ht. apply N.nle_gt. intros Hle. by destruct (Hd t Ht Hle) as [? _].
  - apply Hs; [|done|].
    + destruct Hw as [Hl Ht Hf Hk]. split; [|done| |done].
      * by apply (reap_later orc (Reaped s) s).
      * intros Hfm. destruct (Hf Hfm) as [_ Hk']. by split.
    + intros t Ht Hle. destruct (Hd t Ht Hle) as (_ & H1 & H2).
      apply gone_spec. cbn. eauto.
  - apply Hs; [done..|]. intros t Ht Hle. destruct (Hd t Ht Hle) as (_ & H1 & H2).
    apply gone_spec. eauto.
  - destruct Hw as [_ _ Hf _]. destruct (Hf Hfit) as [Hf' _]. by rewrite E in Hf'.
Qed.

Lemma record_signal_within e s m m' : within e m m' → within e m (record_signal s m').
Proof.
  intros [Hl Ht Hf Hk]. split; [by apply record_signal_later|done| |].
  - intros Hfm. destruct (Hf Hfm) as [Hst Hk']. split; [done|]. cbn. intros t.
    destruct s, (m_killed m') as [t'|] eqn:Ek; cbn; intros [= <-]; try (by apply Hk'). done.
  - intros t Hkt. cbn. rewrite (Hk t Hkt). by destruct s.
Qed.

Lemma live_exists m Q :
  (∀ m', within (ms 1) m m' → gone (m_group m') = false → dies m m' → Q m' (Ok true)) →
  (∀ m', within (ms 1) m m' → gone (m_group m') = true →
     gr_leader (m_group m') = gr_leader (m_group m) → Q m' (Ok false)) →
  wp (process_group_exists orc (Some d)) m Q.
Proof.
  intros Ht Hf. unfold wp, process_group_exists, killpg. pose proof (advance_within 0 m) as Hw.
  rewrite (prompt_faults Hp). destruct (gone _) eqn:E; cbn.
  - apply Hf; [done..|]. by apply advance_reaped.
  - apply Ht; [by apply record_signal_within|done|]. apply (advance_dies 0 m).
Qed.

(** Signals are delivered, and a kill is recorded unless nothing is left. *)
Lemma live_signal_group s m Q :
  (∀ m', within (ms 1) m m' →
     (s = SIGKILL → gone (m_group m') = true ∨ is_Some (m_killed m')) → Q m' (Ok tt)) →
  wp (signal_group orc (Some d) s) m Q.
Proof.
  intros H. unfold wp, signal_group, killpg. pose proof (advance_within 0 m) as Hw.
  rewrite (prompt_faults Hp). destruct (gone _) eqn:E; cbn; apply H; [done|by left|by apply record_signal_within|].
  intros ->. right. cbn. by destruct (m_killed _).
Qed.

Lemma live_signal_process_group s m Q :
  (∀ m', within (ms 2) m m' → Q m' (Ok tt)) → wp (signal_process_group orc (Some d) s) m Q.
Proof.
  intros H. unfold wp, signal_process_group, killpg. pose proof (advance_within 0 m) as Hw.
  rewrite (prompt_faults Hp). destruct (gone _) eqn:E; cbn.
  - apply gone_spec in E as E'. unfold kill. pose proof (advance_within 0 (advance 0 m)) as Hw2.
    pose proof (advance_later orc (Some d) 0 (advance 0 m)) as [_ _ _ Hg _]. specialize (Hg E).
    apply gone_spec in Hg as [[[s' ->]| ->] _]; cbn; apply H; by apply (within_trans (ms 1) (ms 1) _ (advance 0 m)).
  - apply H. apply (within_mono (ms 1)); [done|]. by apply record_signal_within.
Qed.

(** * Bounded, successful waits *)

(** Succeeds within [e] in a machine still fit, with [P]. *)
Definition delivers {A} (e : N) (m : Machine X) (P : Machine X → A → Prop)
    (m' : Machine X) (r : result (halt io_error) A) : Prop :=
  within e m m' ∧ ∃ a, r = Ok a ∧ P m' a.

Lemma delivers_from {A} e e1 e2 m m1 (P : Machine X → A → Prop) m' r :
  within e1 m m1 → e1 + e2 ≤ e → delivers e2 m1 P m' r → delivers e m P m' r.
Proof. intros H1 He [H2 HP]. split; [|done]. eapply within_mono; [exact He|]. by eapply within_trans. Qed.

Lemma live_bind {A B} (c : eff (Machine X) (halt io_error) A)
    (k : A → eff (Machine X) (halt io_error) B) e1 e2 e m P Q :
  fit m → e1 + e2 ≤ e →
  wp c m (delivers e1 m P) →
  (∀ m1 a, fit m1 → within e1 m m1 → P m1 a → wp (k a) m1 (delivers e2 m1 Q)) →
  wp (c ≫= k) m (delivers e m Q).
Proof.
  intros Hfit He Hc Hk. apply wp_bind. eapply wp_mono; [exact Hc|].
  intros m1 r (Hw & a & -> & HP). eapply wp_mono; [apply Hk; [by apply (within_fit _ _ _ Hw)|done..]|].
  intros m2 r. by apply delivers_from with e1.
Qed.

Lemma live_ret {A} e m (P : Machine X → A → Prop) a : P m a → wp (mret a) m (delivers e m P).
Proof. intros HP. split; [|by eexists]. apply (within_mono 0); [lia|apply within_refl]. Qed.

Abbreviation GRACE := TIMEOUT_KILL_GRACE.

Lemma within_cap e e' m m' : within e m m' → m_now m' ≤ m_now m + e' → within e' m m'.
Proof. intros [] ?. by split. Qed.

(** Collects the times of the moves in the context. *)
Ltac times :=
  repeat match goal with
  | H : within ?e ?m ?m' |- _ =>
      lazymatch goal with
      | _ : m_now m' ≤ m_now m + e |- _ => fail
      | _ => pose proof (within_time _ _ _ H); pose proof (later_time _ _ _ (within_later _ _ _ H))
      end
  end;
  pose proof (prompt_kill Hp);
  unfold TIMEOUT_KILL_GRACE, ms, secs in *; lia.

Ltac chain :=
  match goal with
  | |- within _ ?m ?m => apply within_refl
  | H : within _ ?m ?m' |- within _ ?m ?m' => exact H
  | H : within _ ?m ?m1 |- within _ ?m ?m' => eapply within_trans; [exact H|]; clear H; chain
  end.

Ltac follows := eapply within_later; chain.

(** A move through the machines of the context, within the time they allow. *)
Ltac reach := eapply within_cap; [chain|times].

Lemma wait_for_group_live m :
  fit m →
  wp (wait_for_group_and_exit orc (Some d) GRACE) m
    (delivers (GRACE + ms 30) m (λ m' r,
      (r.2 = true → gone (m_group m') = true) ∧ (is_Some (m_killed m) ∨ gone (m_group m) = true → r.2 = true))).
Proof.
  intros Hfit. unfold wait_for_group_and_exit. apply wp_bind, live_now. intros m0 Hm0.
  pose proof (within_fit _ _ _ Hm0 Hfit) as Hfit0.
  apply (wp_poll_timeout _ _ (m_now m0) (λ m1 code,
    within (GRACE + ms 26) m0 m1 ∧ ∀ c, code = Some c → ∃ s, gr_leader (m_group m1) = Reaped s)).
  { done. }
  { done. }
  { split; [|done]. reach. }
  intros code m1 [Hm1 Hc]. pose proof (within_fit _ _ _ Hm1 Hfit0) as Hfit1. apply wp_bind.
  apply (wp_mono _ _ (λ m2 r, within (ms 1) m1 m2 ∧ ∃ code, r = Ok code ∧
    ((∃ c s, code = Some c ∧ gr_leader (m_group m2) = Reaped s) ∨
     code = None ∧ ∀ t, m_killed m = Some t → m_now m2 < t + d))).
  { destruct code as [c|].
    - apply wp_ret. split; [reach|]. destruct (Hc c) as [s Hs]; [done|]. eauto 10.
    - apply wp_bind, live_try_wait; [done|..].
      + intros m2 s Hw Hr _. apply wp_ret. split; [done|]. eexists. split; [done|]. left. cbn. eauto.
      + intros m2 Hw Hr Hk. apply wp_ret. split; [done|]. eexists. split; [done|]. right. split; [done|].
        intros t Ht. apply Hk. by apply (within_killed _ _ _ Hm1), (within_killed _ _ _ Hm0). }
  intros m2 r (Hm2 & code' & -> & Hcode). apply wp_bind, live_exists; cbn [negb].
  - intros m3 Hm3 Hg Hd. apply wp_bind, live_now. intros m4 Hm4.
    destruct (N.leb_spec GRACE (m_now m4 - m_now m0)) as [Hle|Hlt].
    + apply wp_ret. split; [reach|].
      exists (code', false). split; [done|]. cbn. split; [done|]. intros Hend. exfalso.
      destruct Hend as [[t Ht]|Hgone].
      2: { assert (later m m3) as Hl3 by follows.
           assert (gone (m_group m3) = true); [by apply (later_gone _ _ _ Hl3)|congruence]. }
      destruct Hfit as [_ Hkt]. specialize (Hkt t Ht).
      destruct Hcode as [(c & s & -> & Hs)|[-> Hk]].
      * assert (gone (m_group m3) = true); [|congruence]. apply gone_spec.
        destruct (Hd t) as (_ & ? & ?).
        { by apply (within_killed _ _ _ Hm2), (within_killed _ _ _ Hm1), (within_killed _ _ _ Hm0). }
        { times. }
        split; [|done]. left. exists s. by apply (later_leader _ _ _ (within_later _ _ _ Hm3)).
      * specialize (Hk t Ht). times.
    + apply wp_bind, live_sleep. intros m5 Hm5 Ht5. apply wp_ret.
      split_and!; [reach| |times|times].
      intros c ->. destruct Hcode as [(? & s & _ & Hs)|[? _]]; [|done]. exists s.
      assert (later m2 m5) as Hl5 by follows. by apply (later_leader _ _ _ Hl5).
  - intros m3 Hm3 Hg _. apply wp_ret. split; [reach|]. by eexists.
Qed.

Lemma terminate_process_live reason m :
  fit m →
  wp (terminate_process orc (Some d) reason) m
    (delivers (GRACE + GRACE + ms 70) m (λ _ _, True)).
Proof.
  intros Hfit. unfold terminate_process.
  eapply (live_bind _ _ (ms 2) (GRACE + GRACE + ms 68) _ _ (λ _ _, True)); [done|times|..].
  { apply wp_try, live_signal_process_group. intros m' Hw. split; [done|]. by eexists. }
  intros m1 _ Hf1 _ _.
  eapply (live_bind _ _ _ (GRACE + ms 38)); [done| |by apply wait_for_group_live|]; [times|].
  intros m2 [code ended] Hf2 _ _. cbn [fst snd].
  eapply (live_bind _ _ (GRACE + ms 37) (ms 1) _ _ (λ _ _, True)); [done|times|..].
  { destruct ended; cbn [negb]; [by apply live_ret|].
    eapply (live_bind _ _ (ms 1) (GRACE + ms 36) _ _
      (λ m' _, is_Some (m_killed m') ∨ gone (m_group m') = true)); [done|times|..].
    { apply wp_try, live_signal_group. intros m' Hw Hk. split; [done|]. eexists. split; [done|].
      destruct (Hk eq_refl); auto. }
    intros m3 _ Hf3 _ Hk3.
    eapply (live_bind _ _ _ 0); [done| |by apply wait_for_group_live|]; [times|].
    intros m4 [code' ended] _ _ [_ He]. cbn in He. rewrite He by done. by apply live_ret. }
  intros m3 [c|] Hf3 _ _.
  - by apply wp_bind, wp_ret, live_ret.
  - eapply (live_bind _ _ (ms 1) 0 _ _ (λ _ _, True)); [done|times| |by intros; apply live_ret].
    eapply (live_bind _ _ (ms 1) 0 _ _ (λ _ _, True)); [done|times| |by intros; apply live_ret].
    apply live_try_wait; [done|..]; intros; split; eauto.
Qed.

Lemma await_group_live m :
  fit m → gone (m_group m) = true ∨ (∃ s, gr_leader (m_group m) = Reaped s) →
  wp (await_group orc (Some d) GRACE) m
    (delivers (GRACE + ms 30) m (λ _ ended,
      is_Some (m_killed m) ∨ gone (m_group m) = true → ended = true)).
Proof.
  intros Hfit Hlead. unfold await_group. apply wp_bind, live_now. intros m0 Hm0.
  pose proof (within_fit _ _ _ Hm0 Hfit) as Hfit0.
  apply (wp_poll_timeout _ _ (m_now m0) (λ m1 _,
    within (GRACE + ms 27) m0 m1 ∧
    (is_Some (m_killed m) ∨ gone (m_group m) = true → m_now m1 < m_now m0 + GRACE - ms 1))).
  { done. }
  { done. }
  { split; [reach|]. intros _. times. }
  intros [] m1 [Hm1 Hk1]. apply wp_bind, live_now. intros m2 Hm2.
  destruct (N.leb_spec GRACE (m_now m2 - m_now m0)) as [Hle|Hlt].
  { apply wp_ret. split; [reach|]. eexists. split; [done|]. intros Hk. specialize (Hk1 Hk). times. }
  apply wp_bind, live_exists; cbn [negb].
  - intros m3 Hm3 Hg Hd. apply wp_bind, live_sleep. intros m4 Hm4 Ht4. apply wp_ret.
    split_and!; [reach| |times|times].
    assert (later m m3) as Hl3 by follows.
    intros [[t Ht]|Hgone].
    + destruct (N.lt_ge_cases (m_now m3) (t + d)) as [?|Hge].
      { destruct Hfit as [_ Hkt]. specialize (Hkt t Ht). times. }
      destruct (Hd t) as (Hr & ? & ?); [|done|].
      { by apply (within_killed _ _ _ Hm2), (within_killed _ _ _ Hm1), (within_killed _ _ _ Hm0). }
      exfalso. assert (gone (m_group m3) = true); [|congruence].
      destruct Hlead as [Hl|[s Hl]].
      * by apply (later_gone _ _ _ Hl3).
      * apply gone_spec. split; [|done]. left. exists s. by apply (later_leader _ _ _ Hl3).
    + exfalso. assert (gone (m_group m3) = true); [by apply (later_gone _ _ _ Hl3)|congruence].
  - intros m3 Hm3 Hg _. apply wp_ret. split; [reach|]. by eexists.
Qed.

Lemma terminate_remaining_live m :
  fit m → (∃ s, gr_leader (m_group m) = Reaped s) →
  wp (terminate_remaining_group orc (Some d)) m (delivers (GRACE + GRACE + ms 70) m (λ _ _, True)).
Proof.
  intros Hfit [s Hs]. unfold terminate_remaining_group.
  eapply (live_bind _ _ (ms 1) (GRACE + GRACE + ms 69) _ _ (λ _ _, True)); [done|times|..].
  { apply live_exists; intros; split; eauto. }
  intros m1 [] Hf1 Hm1 _; cbn [negb]; [|by apply live_ret].
  apply (later_leader _ _ _ (within_later _ _ _ Hm1)) in Hs.
  eapply (live_bind _ _ (ms 1) (GRACE + GRACE + ms 68) _ _ (λ _ _, True)); [done|times|..].
  { apply live_signal_group. intros; split; eauto. }
  intros m2 _ Hf2 Hm2 _. apply (later_leader _ _ _ (within_later _ _ _ Hm2)) in Hs.
  eapply (live_bind _ _ _ (GRACE + ms 38)); [done| |by apply await_group_live; eauto|]; [times|].
  intros m3 [] Hf3 Hm3 _; [by apply live_ret|].
  apply (later_leader _ _ _ (within_later _ _ _ Hm3)) in Hs.
  eapply (live_bind _ _ (ms 1) (GRACE + ms 37) _ _
    (λ m' _, is_Some (m_killed m') ∨ gone (m_group m') = true)); [done|times|..].
  { apply live_signal_group. intros m' Hw Hk. split; [done|]. eexists. split; [done|].
    destruct (Hk eq_refl); auto. }
  intros m4 _ Hf4 Hm4 Hk4. apply (later_leader _ _ _ (within_later _ _ _ Hm4)) in Hs.
  eapply (live_bind _ _ _ 0); [done| |by apply await_group_live; eauto|]; [times|].
  intros m5 ended _ _ He. rewrite He by done. by apply live_ret.
Qed.

(** Longest time from the start of a wait to its end. *)
Definition wait_bound (timeout_sec : N) : N := secs timeout_sec + GRACE + GRACE + ms 200.

Lemma wait_with_timeout_live timeout_sec m :
  fit m →
  wp (wait_with_timeout orc (Some d) timeout_sec) m
    (delivers (wait_bound timeout_sec) m (λ _ _, True)).
Proof.
  intros Hfit. unfold wait_with_timeout, wait_bound. apply wp_bind, live_now. intros m0 Hm0.
  pose proof (within_fit _ _ _ Hm0 Hfit) as Hfit0.
  eapply wp_mono with (Q := delivers (secs timeout_sec + GRACE + GRACE + ms 199) m0 (λ _ _, True)).
  2: { intros m' r. by apply (delivers_from _ (ms 1)); [|times]. }
  apply wp_bind.
  eapply wp_mono with (Q := λ m' r, ∃ o, r = Ok o ∧
    within (match o with Some _ => secs timeout_sec + GRACE + GRACE + ms 190
                       | None => secs timeout_sec + ms 105 end) m0 m').
  - apply (wp_poll_timeout _ _ (m_now m0) (λ m1 _, within (secs timeout_sec + ms 101) m0 m1)); [done..|reach|].
    intros [] m1 Hm1. pose proof (within_fit _ _ _ Hm1 Hfit0) as Hfit1.
    apply wp_bind, live_try_wait; [done|..].
    + intros m2 s Hm2 Hs _. apply wp_bind, live_now. intros m3 Hm3.
      assert (fit m3) as Hf3 by (apply (within_fit _ _ _ Hm3), (within_fit _ _ _ Hm2); done).
      apply (later_leader _ _ _ (within_later _ _ _ Hm3)) in Hs. apply wp_bind.
      eapply wp_mono; [by apply terminate_remaining_live; eauto|].
      intros m4 r (Hm4 & [] & -> & _). apply wp_ret. eexists. split; [done|]. reach.
    + intros m2 Hm2 _ _. apply wp_bind, live_cancelled. intros m3 Hm3.
      assert (fit m3) as Hf3 by (apply (within_fit _ _ _ Hm3), (within_fit _ _ _ Hm2); done).
      destruct (m_cancelled m3).
      * apply wp_bind. eapply wp_mono; [by apply terminate_process_live|].
        intros m4 r (Hm4 & c & -> & _). apply wp_ret. eexists. split; [done|]. reach.
      * apply wp_bind, live_now. intros m4 Hm4.
        destruct (N.leb_spec (secs timeout_sec) (m_now m4 - m_now m0)).
        -- apply wp_ret. eexists. split; [done|]. reach.
        -- apply wp_bind, live_sleep. intros m5 Hm5 Ht5. apply wp_ret. split_and!; [reach|times|times].
  - intros m1 r ([o|] & -> & Hm1).
    + apply wp_ret. split; [reach|]. by eexists.
    + pose proof (within_fit _ _ _ Hm1 Hfit0) as Hf1. apply wp_bind, live_now. intros m2 Hm2.
      pose proof (within_fit _ _ _ Hm2 Hf1) as Hf2. apply wp_bind.
      eapply wp_mono; [by apply terminate_process_live|].
      intros m3 r (Hm3 & c & -> & _). apply wp_ret. split; [reach|]. by eexists.
Qed.
End live.
