(* ===== verification/Accounts.v ===== *)
(** [src/src/user.rs]: the account database, read through libc's reentrant
    calls with a buffer that grows until the answer fits. *)
From Stdlib Require Import Ascii.
From stdpp Require Import base option strings numbers list.
From S2P Require Import Prelude RustStr.

Local Open Scope N_scope.

Record UserInfo := { ui_username : string; ui_uid : N; ui_gid : N; ui_home_dir : string }.

Inductive UserError :=
| UserLookupFailed (uid : N) (errno : N)
| UserNotFound (uid : N)
| UserNameLookupFailed (name : string) (errno : N)
| UserNameNotFound (name : string)
| GroupLookupFailed (name : string) (errno : N)
| GroupNotFound (name : string)
| InvalidGroupName (name : string)
| BufferTooSmall.

(** What a call of the [getpw*_r] family answers for a buffer of the given
    size: an entry, no entry, [ERANGE], or another error number. *)
Inductive reply (A : Type) :=
| Found (entry : A)
| NoEntry
| Erange
| Failed (errno : N).
Arguments Found {A} entry.
Arguments NoEntry {A}.
Arguments Erange {A}.
Arguments Failed {A} errno.

(** The C library and the account database behind it. *)
Class AccountDb := {
  sysconf_getpw_size : Z;
  sysconf_getgr_size : Z;
  getpwuid_r : N → N → reply UserInfo;
  getpwnam_r : string → N → reply UserInfo;
  getgrnam_r : string → N → reply N;
}.

Definition MAX_LOOKUP_BUFFER : N := 1024 * 1024.

Definition saturating_mul (a b : N) : N := N.min u64_max (a * b).

(** The buffer size a lookup starts with. *)
Definition initial_buffer (size : Z) : N :=
  if (size <? 0)%Z then 1024 else Z.to_N size.

(** The shape of the three loops: ask, and double the buffer on [ERANGE]. *)
Fixpoint lookup_loop {A} (fuel : nat) (ask : N → reply A) (missing : UserError)
    (failed : N → UserError) (buf_len : N) : result (halt UserError) A :=
  match fuel with
  | O => Err Diverged
  | S fuel =>
      match ask buf_len with
      | Found entry => Ok entry
      | NoEntry => Err (Raised missing)
      | Erange =>
          let buf_len := saturating_mul buf_len 2 in
          if MAX_LOOKUP_BUFFER <? buf_len then Err (Raised BufferTooSmall)
          else lookup_loop fuel ask missing failed buf_len
      | Failed errno => Err (Raised (failed errno))
      end
  end.

(** One byte doubled twenty times is the largest buffer tried. *)
Definition LOOKUP_FUEL : nat := 21.

(** [CString::new] refuses an interior NUL. *)
Definition cstring_ok (s : string) : bool := negb (contains_byte nul s).

Section lookups.
Context `{AccountDb}.

Definition lookup_user (uid : N) : result (halt UserError) UserInfo :=
  lookup_loop LOOKUP_FUEL (getpwuid_r uid) (UserNotFound uid) (UserLookupFailed uid)
    (initial_buffer sysconf_getpw_size).

Definition lookup_group_gid (name : string) : result (halt UserError) N :=
  if negb (cstring_ok name) then Err (Raised (UserNameNotFound name))
  else lookup_loop LOOKUP_FUEL (getgrnam_r name) (GroupNotFound name) (GroupLookupFailed name)
         (initial_buffer sysconf_getgr_size).

Definition lookup_user_by_name (name : string) : result (halt UserError) UserInfo :=
  if negb (cstring_ok name) then Err (Raised (InvalidGroupName name))
  else lookup_loop LOOKUP_FUEL (getpwnam_r name) (UserNameNotFound name) (UserNameLookupFailed name)
         (initial_buffer sysconf_getpw_size).
End lookups.

(** * Termination *)

Lemma lookup_loop_halts {A} fuel (ask : N → reply A) missing failed buf_len :
  (0 < fuel)%nat ∨ buf_len ≤ MAX_LOOKUP_BUFFER →
  MAX_LOOKUP_BUFFER < buf_len * 2 ^ N.of_nat fuel →
  lookup_loop fuel ask missing failed buf_len ≠ Err Diverged.
Proof.
  revert buf_len. induction fuel as [|fuel IH]; intros n Hn Hf; cbn [lookup_loop].
  - rewrite N.pow_0_r in Hf. destruct Hn; lia.
  - destruct (ask n); try done. destruct (N.ltb_spec MAX_LOOKUP_BUFFER (saturating_mul n 2)) as [|Hle]; [done|].
    assert (saturating_mul n 2 = n * 2) as E.
    { unfold saturating_mul in *. unfold MAX_LOOKUP_BUFFER, u64_max in *. lia. }
    rewrite E in *. apply IH; [by right|]. rewrite Nat2N.inj_succ, N.pow_succ_r' in Hf. lia.
Qed.

(** A lookup whose C library names a buffer size other than zero ends. *)
Lemma lookup_loop_ends {A} (ask : N → reply A) missing failed size :
  size ≠ 0%Z → lookup_loop LOOKUP_FUEL ask missing failed (initial_buffer size) ≠ Err Diverged.
Proof.
  intros Hs. apply lookup_loop_halts; [left; unfold LOOKUP_FUEL; lia|].
  assert (1 ≤ initial_buffer size) by (unfold initial_buffer; destruct (Z.ltb_spec size 0); lia).
  unfold MAX_LOOKUP_BUFFER, LOOKUP_FUEL. change (2 ^ N.of_nat 21) with 2097152. lia.
Qed.
