(* ===== verification/Config.v ===== *)
(** [src/src/config/mod.rs]: the configuration the daemon starts with and the
    validation it has to pass.

    [HashMap]s are [gmap]s; the loops over them run over [map_to_list].  An
    error is the configuration field it names and the requirement that failed
    (the numbers and quoted names the messages interpolate are left out).  The
    [glob] and [toml] crates, the file system and the environment are
    parameters. *)
From Stdlib Require Import Ascii.
From stdpp Require Import base option strings numbers gmap pretty list.
From S2P Require Import Prelude RustStr Validation Fs Protocol Logging.

Local Open Scope N_scope.

(** The [glob] crate: pattern compilation and matching. *)
Class Glob := {
  Pattern : Type;
  Pattern_new : string → result string Pattern;
  Pattern_matches : Pattern → string → bool;
}.

Definition DEFAULT_CONFIG_PATH : string := "/etc/indentured-server/config.toml".
Definition CONFIG_SCHEMA_VERSION : string := "12".
Definition SERVICE_READY_FD_ENV : string := "INDENTURED_SERVICE_READY_FD".
Definition SCRIPT_SHELL : string := "/bin/sh".
Definition MAX_SESSION_LIFETIME_SEC : N := u32_max.
Definition MAX_TASK_SCRIPT_BYTES : N := 65536.
Definition DEFAULT_SOURCE_TRANSFER_BYTES : N := 134217728.
Definition DEFAULT_SOURCE_UNCOMPRESSED_BYTES : N := DEFAULT_SOURCE_TRANSFER_BYTES * 10.
Definition DEFAULT_SOURCE_MAX_FILES : N := 50000.
Definition DEFAULT_SOURCE_MAX_DEPTH : N := 64.
Definition DEFAULT_SOURCE_UPLOAD_TIMEOUT_SEC : N := 120.
Definition MAX_SOURCE_UPLOAD_TIMEOUT_SEC : N := 3600.
Definition DEFAULT_OUTPUT_BYTES : N := 64 * 1024 * 1024.
Definition DEFAULT_ARTIFACT_TRANSFER_BYTES : N := 512 * 1024 * 1024.
Definition DEFAULT_ARTIFACT_UNCOMPRESSED_BYTES : N := 2 * 1024 * 1024 * 1024.
Definition DEFAULT_ARTIFACT_MAX_FILES : N := 10000.
Definition DEFAULT_ARTIFACT_MAX_DEPTH : N := 64.

(** * The configuration *)

Inductive ConfigError :=
| Io (path : string) (source : io_error)
| ParseToml (path : string) (line column : option N)
| Invalid (field requirement : string).

Inductive ConfigPathKind := Explicit | Env | Default.

Record SocketConfig := {
  sk_enabled : bool;
  sk_path : string;
  sk_group : option string;
  sk_mode : string;
}.
Definition SocketConfig_default : SocketConfig :=
  {| sk_enabled := false; sk_path := "/run/indentured-server/control/server.sock";
     sk_group := None; sk_mode := "0600" |}.

Record HttpAuthConfig := { au_type : string; au_required : bool; au_token_files : list string }.
Definition HttpAuthConfig_default : HttpAuthConfig :=
  {| au_type := "bearer"; au_required := false; au_token_files := [] |}.

Record HttpTlsConfig := { tls_enabled : bool; tls_cert_path : option string; tls_key_path : option string }.
Definition HttpTlsConfig_default : HttpTlsConfig :=
  {| tls_enabled := false; tls_cert_path := None; tls_key_path := None |}.

Record HttpConfig := {
  ht_enabled : bool;
  ht_listen_addr : string;
  ht_auth : HttpAuthConfig;
  ht_tls : HttpTlsConfig;
}.
Definition HttpConfig_default : HttpConfig :=
  {| ht_enabled := false; ht_listen_addr := "127.0.0.1:8080";
     ht_auth := HttpAuthConfig_default; ht_tls := HttpTlsConfig_default |}.

Record ServiceConfig := {
  sv_socket : SocketConfig;
  sv_http : HttpConfig;
  sv_max_concurrent_builds : N;
}.
Definition ServiceConfig_default : ServiceConfig :=
  {| sv_socket := SocketConfig_default; sv_http := HttpConfig_default;
     sv_max_concurrent_builds := 1 |}.

Record BuildConfig := {
  bc_workspace_root : string;
  bc_max_timeout_sec : N;
  bc_max_output_bytes : N;
  bc_run_as_user : option string;
  bc_run_as_group : option string;
}.
Definition BuildConfig_default : BuildConfig :=
  {| bc_workspace_root := "/var/lib/indentured-server/workspaces";
     bc_max_timeout_sec := 1800; bc_max_output_bytes := DEFAULT_OUTPUT_BYTES;
     bc_run_as_user := None; bc_run_as_group := None |}.

Record ArtifactSpec := { as_include : list string; as_exclude : list string }.

(** [ScriptText] is its text. *)
Record TaskSetupConfig := {
  su_script : option string;
  su_executable : option string;
  su_args : list string;
  su_timeout_sec : N;
}.

Record SourceUpdatesConfig := {
  up_timeout_sec : N;
  up_max_transfer_bytes : N;
  up_max_uncompressed_bytes : N;
  up_max_files : N;
  up_max_depth : N;
  up_include : list string;
  up_exclude : list string;
}.

Record SessionTeardownConfig := {
  te_script : option string;
  te_executable : option string;
  te_args : list string;
  te_timeout_sec : N;
}.

Record SessionServiceConfig := {
  se_script : option string;
  se_executable : option string;
  se_args : list string;
  se_startup_timeout_sec : N;
  se_shutdown_timeout_sec : N;
  se_diagnostic_tail_bytes : N;
}.

Record SessionActionConfig := {
  ac_script : option string;
  ac_executable : option string;
  ac_args : list string;
  ac_timeout_sec : N;
  ac_artifacts : ArtifactSpec;
}.

Record SessionActionPolicyOverride := {
  po_timeout_sec : option N;
  po_artifacts : option ArtifactSpec;
}.

Record SessionActionDispatcherConfig := {
  di_script : option string;
  di_executable : option string;
  di_args : list string;
  di_timeout_sec : N;
  di_artifacts : ArtifactSpec;
  di_allow_unlisted : bool;
  di_actions : gmap string SessionActionPolicyOverride;
}.

Record TaskSessionConfig := {
  sn_idle_timeout_sec : N;
  sn_max_lifetime_sec : N;
  sn_teardown : SessionTeardownConfig;
  sn_services : gmap string SessionServiceConfig;
  sn_actions : gmap string SessionActionConfig;
  sn_action_dispatcher : option SessionActionDispatcherConfig;
  sn_source_updates : option SourceUpdatesConfig;
}.

Inductive WorkspacePolicy := Fresh.

Record TaskConfig := {
  tk_script : option string;
  tk_executable : option string;
  tk_args : list string;
  tk_setup : option TaskSetupConfig;
  tk_session : option TaskSessionConfig;
  tk_cwd : string;
  tk_timeout_sec : N;
  tk_environment : gmap string string;
  tk_artifacts : ArtifactSpec;
  tk_workspace : WorkspacePolicy;
}.

Record HostObservationConfig := {
  ho_enabled : bool;
  ho_socket : option string;
  ho_peer_uid : option N;
}.

Record SourcesConfig := {
  so_max_transfer_bytes : N;
  so_max_uncompressed_bytes : N;
  so_max_files : N;
  so_max_depth : N;
  so_upload_timeout_sec : N;
}.
Definition SourcesConfig_default : SourcesConfig :=
  {| so_max_transfer_bytes := DEFAULT_SOURCE_TRANSFER_BYTES;
     so_max_uncompressed_bytes := DEFAULT_SOURCE_UNCOMPRESSED_BYTES;
     so_max_files := DEFAULT_SOURCE_MAX_FILES;
     so_max_depth := DEFAULT_SOURCE_MAX_DEPTH;
     so_upload_timeout_sec := DEFAULT_SOURCE_UPLOAD_TIMEOUT_SEC |}.

Record ArtifactsConfig := {
  ar_storage_root : string;
  ar_ttl_sec : option N;
  ar_gc_interval_sec : option N;
  ar_max_bytes : option N;
  ar_max_transfer_bytes : N;
  ar_max_uncompressed_bytes : N;
  ar_max_files : N;
  ar_max_depth : N;
  ar_restricted_patterns : list string;
}.
Definition ArtifactsConfig_default : ArtifactsConfig :=
  {| ar_storage_root := ""; ar_ttl_sec := None; ar_gc_interval_sec := None;
     ar_max_bytes := None; ar_max_transfer_bytes := DEFAULT_ARTIFACT_TRANSFER_BYTES;
     ar_max_uncompressed_bytes := DEFAULT_ARTIFACT_UNCOMPRESSED_BYTES;
     ar_max_files := DEFAULT_ARTIFACT_MAX_FILES;
     ar_max_depth := DEFAULT_ARTIFACT_MAX_DEPTH;
     ar_restricted_patterns := [] |}.

Definition LoggingConfig_default : LoggingConfig :=
  {| lc_directory := None; lc_level := "info"; lc_max_bytes := 104857600;
     lc_max_files := 5; lc_console := true |}.

Record Config := {
  cf_schema_version : string;
  cf_service : ServiceConfig;
  cf_build : BuildConfig;
  cf_tasks : gmap string TaskConfig;
  cf_host_observation : HostObservationConfig;
  cf_sources : SourcesConfig;
  cf_artifacts : ArtifactsConfig;
  cf_logging : LoggingConfig;
}.

(** * Execution shapes *)

Inductive TaskExecution :=
| Script (text : string)
| Executable (path : string) (args : list string).

(** [execution]; [None] is the [unreachable!] panic. *)
Definition execution (script executable : option string) (args : list string) :
    option TaskExecution :=
  match script, executable with
  | Some script, None => if is_nil args then Some (Script script) else None
  | None, Some path => Some (Executable path args)
  | _, _ => None
  end.

Definition TaskSetupConfig_execution (c : TaskSetupConfig) :=
  execution (su_script c) (su_executable c) (su_args c).
Definition SessionTeardownConfig_execution (c : SessionTeardownConfig) :=
  execution (te_script c) (te_executable c) (te_args c).
Definition SessionServiceConfig_execution (c : SessionServiceConfig) :=
  execution (se_script c) (se_executable c) (se_args c).
Definition SessionActionConfig_execution (c : SessionActionConfig) :=
  execution (ac_script c) (ac_executable c) (ac_args c).
Definition TaskConfig_execution (c : TaskConfig) :=
  execution (tk_script c) (tk_executable c) (tk_args c).

Definition resolve (d : SessionActionDispatcherConfig) (action_name : string) :
    option SessionActionConfig :=
  let policy := di_actions d !! action_name in
  if is_none policy && negb (di_allow_unlisted d) then None
  else Some {|
    ac_script := di_script d;
    ac_executable := di_executable d;
    ac_args := di_args d;
    ac_timeout_sec := default (di_timeout_sec d) (policy ≫= po_timeout_sec);
    ac_artifacts := default (di_artifacts d) (policy ≫= po_artifacts);
  |}.

(** [HashMap::values().any(p)]. *)
Definition any_value {A} (p : A → bool) (m : gmap string A) : bool :=
  existsb (λ kv, p kv.2) (map_to_list m).

Definition uses_script (t : TaskConfig) : bool :=
  is_some (tk_script t)
  || match tk_setup t with Some setup => is_some (su_script setup) | None => false end
  || match tk_session t with
     | Some session =>
         is_some (te_script (sn_teardown session))
         || any_value (λ s, is_some (se_script s)) (sn_services session)
         || any_value (λ a, is_some (ac_script a)) (sn_actions session)
         || match sn_action_dispatcher session with
            | Some d => is_some (di_script d)
            | None => false
            end
     | None => false
     end.

(** * Socket mode *)

Inductive SocketModeError := InvalidLength | InvalidDigit.

Definition parse_socket_mode (mode : string) : result SocketModeError N :=
  let value := trim mode in
  if negb (len value =? 4) then Err InvalidLength
  else
    let digits := trim_start_matches "0" value in
    if is_empty digits then Ok 0
    else ok_or (u32_from_str_radix digits 8) InvalidDigit.

Definition parse_mode (s : SocketConfig) : result SocketModeError N :=
  parse_socket_mode (sk_mode s).

Definition SocketModeError_to_string (e : SocketModeError) : string :=
  match e with
  | InvalidLength => "socket mode must be a 4-digit octal string"
  | InvalidDigit => "socket mode must be octal digits"
  end.

(** * Validation *)

Definition of_validation (e : ValidationError) : ConfigError :=
  match e with
  | CwdNotAbsolute => Invalid "cwd" "must be an absolute path"
  | PathNotRelative field => Invalid field "must be a relative path"
  | PathHasParent field => Invalid field "must not contain parent directory traversal"
  | EmptyValue field => Invalid field "must not be empty"
  | CwdOutsideRoot cwd root => Invalid cwd "is outside the allowed root"
  | InvalidPath flag _ => Invalid flag "is not a valid path"
  end.

(** [value == 0 || value > maximum]. *)
Definition out_of_range (value maximum : N) : bool := (value =? 0) || (maximum <? value).

Section validate.
Context `{Glob}.
(** [std::fs::metadata]. *)
Context (metadata : string → result io_error file_meta).

Definition validate_executable_file (path field : string) : result ConfigError unit :=
  _ ← reject_if (negb (is_absolute path)) (Invalid field "must be an absolute path");
  m ← map_err (λ _, Invalid field "is not accessible") (metadata path);
  reject_if (negb (is_file m) || negb (mode_has (fm_mode m) o111))
    (Invalid field "must be an executable regular file").

Definition validate_script (script field : string) (environment : gmap string string) :
    result ConfigError unit :=
  _ ← reject_if (is_empty script || (MAX_TASK_SCRIPT_BYTES <? len script) || is_blank script)
        (Invalid (field +:+ ".script") "must contain 1 to MAX_TASK_SCRIPT_BYTES bytes of non-whitespace text");
  _ ← reject_if (contains_byte nul script) (Invalid (field +:+ ".script") "must not contain NUL");
  let environment_field :=
    match split_once ".session" field with
    | None => default field (strip_suffix_str ".setup" field)
    | Some (task, _) => task
    end in
  path ← ok_or (environment !! "PATH")
           (Invalid (environment_field +:+ ".environment.PATH") "is required for script tasks");
  reject_if (is_empty path ||
             existsb (λ component, is_empty component || negb (is_absolute component))
               (split ":" path))
    (Invalid (environment_field +:+ ".environment.PATH")
       "must contain only nonempty absolute components").

Definition validate_execution (script executable : option string) (args : list string)
    (field : string) (environment : gmap string string) : result ConfigError unit :=
  match script, executable with
  | Some _, Some _ | None, None =>
      Err (Invalid field "must define exactly one of script or executable")
  | Some script, None =>
      _ ← reject_if (negb (is_nil args)) (Invalid (field +:+ ".args") "must be empty when script is set");
      validate_script script field environment
  | None, Some executable => validate_executable_file executable (field +:+ ".executable")
  end.

Definition validate_args (args : list string) (field : string) : result ConfigError unit :=
  reject_if (existsb (contains_byte nul) args) (Invalid field "must not contain NUL").

Definition validate_patterns (patterns : list string) (field : string) : result ConfigError unit :=
  for_each (λ pattern,
    _ ← map_err of_validation (validate_relative_pattern pattern field);
    _ ← map_err (λ _, Invalid field "invalid glob") (Pattern_new pattern);
    Ok tt) patterns.

Definition validate_artifact_spec (spec : ArtifactSpec) (field : string) : result ConfigError unit :=
  _ ← validate_patterns (as_include spec) (field +:+ ".include");
  validate_patterns (as_exclude spec) (field +:+ ".exclude").

Definition validate_session_execution (script executable : option string) (args : list string)
    (timeout_sec : N) (field : string) (environment : gmap string string)
    (max_timeout_sec : N) : result ConfigError unit :=
  _ ← validate_execution script executable args field environment;
  _ ← validate_args args (field +:+ ".args");
  reject_if (out_of_range timeout_sec max_timeout_sec)
    (Invalid (field +:+ ".timeout_sec") "must be between 1 and build.max_timeout_sec").

Definition SourceUpdatesConfig_validate (u : SourceUpdatesConfig) (field : string)
    (max_timeout_sec : N) (sources : SourcesConfig) : result ConfigError unit :=
  _ ← reject_if ((up_timeout_sec u =? 0) || (max_timeout_sec <? up_timeout_sec u)
                 || (so_upload_timeout_sec sources <? up_timeout_sec u))
        (Invalid (field +:+ ".timeout_sec")
           "must be between 1 and both build.max_timeout_sec and sources.upload_timeout_sec");
  let check '(name, value, maximum) :=
    reject_if (out_of_range value maximum)
      (Invalid (field +:+ "." +:+ name) "must be between 1 and the global limit") in
  _ ← for_each check
        [("max_transfer_bytes", up_max_transfer_bytes u, so_max_transfer_bytes sources);
         ("max_uncompressed_bytes", up_max_uncompressed_bytes u, so_max_uncompressed_bytes sources)];
  _ ← for_each check
        [("max_files", up_max_files u, so_max_files sources);
         ("max_depth", up_max_depth u, so_max_depth sources)];
  _ ← reject_if (is_nil (up_include u)) (Invalid (field +:+ ".include") "must not be empty");
  _ ← validate_patterns (up_include u) (field +:+ ".include");
  validate_patterns (up_exclude u) (field +:+ ".exclude").

(** One service of [TaskSessionConfig::validate]. *)
Definition validate_service (field : string) (environment : gmap string string)
    (max_timeout_sec max_output_bytes : N) (service_name : string)
    (service : SessionServiceConfig) : result ConfigError unit :=
  _ ← reject_if (negb (valid_task_id service_name))
        (Invalid (field +:+ ".services") "service name must match [A-Za-z0-9_-]+ and be at most 64 bytes");
  let service_field := field +:+ ".services." +:+ service_name in
  _ ← validate_execution (se_script service) (se_executable service) (se_args service)
        service_field environment;
  _ ← validate_args (se_args service) (service_field +:+ ".args");
  _ ← for_each (λ '(name, value),
        reject_if (out_of_range value max_timeout_sec)
          (Invalid (service_field +:+ "." +:+ name) "must be between 1 and build.max_timeout_sec"))
        [("startup_timeout_sec", se_startup_timeout_sec service);
         ("shutdown_timeout_sec", se_shutdown_timeout_sec service)];
  reject_if (out_of_range (se_diagnostic_tail_bytes service) max_output_bytes)
    (Invalid (service_field +:+ ".diagnostic_tail_bytes") "must be between 1 and build.max_output_bytes").

(** One named action of [TaskSessionConfig::validate]. *)
Definition validate_action (field : string) (environment : gmap string string)
    (max_timeout_sec : N) (action_name : string) (action : SessionActionConfig) :
    result ConfigError unit :=
  _ ← reject_if (negb (valid_task_id action_name))
        (Invalid (field +:+ ".actions") "action name must match [A-Za-z0-9_-]+ and be at most 64 bytes");
  let action_field := field +:+ ".actions." +:+ action_name in
  _ ← validate_session_execution (ac_script action) (ac_executable action) (ac_args action)
        (ac_timeout_sec action) action_field environment max_timeout_sec;
  validate_artifact_spec (ac_artifacts action) (action_field +:+ ".artifacts").

(** The policy override of one action name. *)
Definition validate_policy (dispatcher_field : string) (max_timeout_sec : N)
    (action_name : string) (policy : SessionActionPolicyOverride) : result ConfigError unit :=
  _ ← reject_if (negb (valid_task_id action_name))
        (Invalid (dispatcher_field +:+ ".actions")
           "action name must match [A-Za-z0-9_-]+ and be at most 64 bytes");
  let policy_field := dispatcher_field +:+ ".actions." +:+ action_name in
  _ ← match po_timeout_sec policy with
      | Some timeout_sec =>
          reject_if (out_of_range timeout_sec max_timeout_sec)
            (Invalid (policy_field +:+ ".timeout_sec") "must be between 1 and build.max_timeout_sec")
      | None => Ok tt
      end;
  match po_artifacts policy with
  | Some artifacts => validate_artifact_spec artifacts (policy_field +:+ ".artifacts")
  | None => Ok tt
  end.

Definition validate_dispatcher (field : string) (environment : gmap string string)
    (max_timeout_sec : N) (dispatcher : SessionActionDispatcherConfig) : result ConfigError unit :=
  let dispatcher_field := field +:+ ".action_dispatcher" in
  _ ← validate_session_execution (di_script dispatcher) (di_executable dispatcher)
        (di_args dispatcher) (di_timeout_sec dispatcher) dispatcher_field environment
        max_timeout_sec;
  _ ← validate_artifact_spec (di_artifacts dispatcher) (dispatcher_field +:+ ".artifacts");
  for_each (λ '(action_name, policy), validate_policy dispatcher_field max_timeout_sec action_name policy)
    (map_to_list (di_actions dispatcher)).

Definition TaskSessionConfig_validate (s : TaskSessionConfig) (task_name : string)
    (environment : gmap string string) (max_timeout_sec max_output_bytes : N)
    (sources : SourcesConfig) : result ConfigError unit :=
  let field := "tasks." +:+ task_name +:+ ".session" in
  _ ← reject_if (sn_idle_timeout_sec s =? 0)
        (Invalid (field +:+ ".idle_timeout_sec") "must be greater than zero");
  _ ← reject_if (sn_max_lifetime_sec s =? 0)
        (Invalid (field +:+ ".max_lifetime_sec") "must be greater than zero");
  _ ← reject_if (MAX_SESSION_LIFETIME_SEC <? sn_max_lifetime_sec s)
        (Invalid (field +:+ ".max_lifetime_sec") "must be no greater than MAX_SESSION_LIFETIME_SEC");
  _ ← reject_if (sn_max_lifetime_sec s <=? sn_idle_timeout_sec s)
        (Invalid (field +:+ ".idle_timeout_sec") "must be less than max_lifetime_sec");
  _ ← for_each (λ '(name, service),
        validate_service field environment max_timeout_sec max_output_bytes name service)
        (map_to_list (sn_services s));
  _ ← validate_session_execution (te_script (sn_teardown s)) (te_executable (sn_teardown s))
        (te_args (sn_teardown s)) (te_timeout_sec (sn_teardown s)) (field +:+ ".teardown")
        environment max_timeout_sec;
  _ ← reject_if (Bool.eqb (is_nil (map_to_list (sn_actions s))) (is_none (sn_action_dispatcher s)))
        (Invalid field "must configure exactly one of named actions or action_dispatcher");
  _ ← for_each (λ '(name, action),
        validate_action field environment max_timeout_sec name action)
        (map_to_list (sn_actions s));
  _ ← match sn_source_updates s with
      | Some updates =>
          SourceUpdatesConfig_validate updates (field +:+ ".source_updates") max_timeout_sec sources
      | None => Ok tt
      end;
  match sn_action_dispatcher s with
  | Some dispatcher => validate_dispatcher field environment max_timeout_sec dispatcher
  | None => Ok tt
  end.

(** One variable of the task environment. *)
Definition validate_variable (name key value : string) : result ConfigError unit :=
  _ ← reject_if (bool_decide (key = SERVICE_READY_FD_ENV))
        (Invalid ("tasks." +:+ name +:+ ".environment." +:+ SERVICE_READY_FD_ENV)
           "is reserved for managed services");
  reject_if (is_empty key || contains_byte "=" key || contains_byte nul key || contains_byte nul value)
    (Invalid ("tasks." +:+ name +:+ ".environment") "contains an invalid key or value").

(** The setup phase of [TaskConfig::validate]; the result is the total timeout. *)
Definition validate_setup (t : TaskConfig) (name : string) : result ConfigError N :=
  match tk_setup t with
  | Some setup =>
      _ ← validate_execution (su_script setup) (su_executable setup) (su_args setup)
            ("tasks." +:+ name +:+ ".setup") (tk_environment t);
      _ ← validate_args (su_args setup) ("tasks." +:+ name +:+ ".setup.args");
      _ ← reject_if (su_timeout_sec setup =? 0)
            (Invalid ("tasks." +:+ name +:+ ".setup.timeout_sec") "must be greater than zero");
      ok_or (checked_add (su_timeout_sec setup) (tk_timeout_sec t))
        (Invalid ("tasks." +:+ name) "phase timeouts overflow")
  | None => Ok (tk_timeout_sec t)
  end.

Definition TaskConfig_validate (t : TaskConfig) (name : string)
    (max_timeout_sec max_output_bytes : N) (sources : SourcesConfig) : result ConfigError unit :=
  _ ← reject_if (negb (valid_task_id name))
        (Invalid "tasks" "task name must match [A-Za-z0-9_-]+ and be at most 64 bytes");
  _ ← validate_execution (tk_script t) (tk_executable t) (tk_args t)
        ("tasks." +:+ name) (tk_environment t);
  _ ← validate_args (tk_args t) ("tasks." +:+ name +:+ ".args");
  _ ← map_err of_validation (validate_relative_path (tk_cwd t) ("tasks." +:+ name +:+ ".cwd"));
  _ ← reject_if (tk_timeout_sec t =? 0)
        (Invalid ("tasks." +:+ name +:+ ".timeout_sec") "must be greater than zero");
  total_timeout ← validate_setup t name;
  _ ← reject_if (max_timeout_sec <? total_timeout)
        (if is_some (tk_setup t)
         then Invalid ("tasks." +:+ name) "setup and run timeouts must total no more than build.max_timeout_sec"
         else Invalid ("tasks." +:+ name +:+ ".timeout_sec") "must be between 1 and build.max_timeout_sec");
  _ ← match tk_session t with
      | Some session =>
          TaskSessionConfig_validate session name (tk_environment t) max_timeout_sec
            max_output_bytes sources
      | None => Ok tt
      end;
  _ ← for_each (λ '(key, value), validate_variable name key value) (map_to_list (tk_environment t));
  validate_artifact_spec (tk_artifacts t) ("tasks." +:+ name +:+ ".artifacts").

Definition HostObservationConfig_validate (h : HostObservationConfig) : result ConfigError unit :=
  _ ← reject_if (ho_enabled h && (is_none (ho_socket h) || is_none (ho_peer_uid h)))
        (Invalid "host_observation" "requires socket and peer_uid when enabled");
  match ho_socket h with
  | Some socket =>
      reject_if (negb (is_absolute socket)
                 || is_none (file_name (components socket))
                 || existsb (λ c, negb (match c with RootDir | Normal _ => true | _ => false end))
                      (components socket))
        (Invalid "host_observation.socket" "must be an absolute socket path without traversal")
  | None => Ok tt
  end.

(** [if let Some(v) = value { if v == 0 { return Err(..) } }]. *)
Definition reject_zero (value : option N) (field : string) : result ConfigError unit :=
  match value with
  | Some v => reject_if (v =? 0) (Invalid field "must be greater than zero")
  | None => Ok tt
  end.

Definition ArtifactsConfig_validate (a : ArtifactsConfig) : result ConfigError unit :=
  _ ← reject_if (is_empty (ar_storage_root a)) (Invalid "artifacts.storage_root" "must not be empty");
  _ ← reject_if (negb (is_absolute (ar_storage_root a)))
        (Invalid "artifacts.storage_root" "must be an absolute path");
  _ ← reject_zero (ar_ttl_sec a) "artifacts.ttl_sec";
  _ ← reject_zero (ar_gc_interval_sec a) "artifacts.gc_interval_sec";
  _ ← reject_zero (ar_max_bytes a) "artifacts.max_bytes";
  _ ← reject_if ((ar_max_transfer_bytes a =? 0) || (ar_max_uncompressed_bytes a =? 0)
                 || (ar_max_files a =? 0) || (ar_max_depth a =? 0))
        (Invalid "artifacts" "transfer, uncompressed, file-count, and depth limits must be greater than zero");
  for_each (λ pattern,
    _ ← map_err of_validation (validate_relative_pattern pattern "artifacts.restricted_patterns");
    _ ← map_err (λ _, Invalid "artifacts.restricted_patterns" "invalid glob pattern") (Pattern_new pattern);
    Ok tt) (ar_restricted_patterns a).

(** The checks of [Config::validate] for the Unix socket listener. *)
Definition validate_socket (s : SocketConfig) : result ConfigError unit :=
  if sk_enabled s then
    _ ← match sk_group s with
        | Some group => reject_if (is_blank group)
                          (Invalid "service.socket.group" "must not be empty when set")
        | None => Ok tt
        end;
    _ ← reject_if (negb (is_absolute (sk_path s)))
          (Invalid "service.socket.path" "must be an absolute path");
    _ ← match parent (components (sk_path s)) with
        | Some path =>
            reject_if (bool_decide (path = components "/run") || bool_decide (path = components "/var/run")
                       || bool_decide (path = components "/private/var/run"))
              (Invalid "service.socket.path" "must use a dedicated protected runtime directory")
        | None => Ok tt
        end;
    _ ← map_err (λ e, Invalid "service.socket.mode" (SocketModeError_to_string e)) (parse_mode s);
    Ok tt
  else Ok tt.

(** One path of [service.http.auth.token_files]. *)
Definition validate_token_file (path : string) : result ConfigError unit :=
  _ ← reject_if (negb (is_absolute path))
        (Invalid "service.http.auth.token_files" "entries must be absolute paths");
  let runtime_path := path_starts_with path "/run" || path_starts_with path "/var/run"
                      || path_starts_with path "/private/var/run" in
  reject_if (path_starts_with path "/nix/store" || negb runtime_path)
    (Invalid "service.http.auth.token_files"
       "must reference /run, /var/run, or /private/var/run and never the Nix store").

(** The checks of [Config::validate] for the HTTP listener. *)
Definition validate_http (h : HttpConfig) : result ConfigError unit :=
  if ht_enabled h then
    _ ← reject_if (is_blank (ht_listen_addr h)) (Invalid "service.http.listen_addr" "must not be empty");
    _ ← reject_if (au_required (ht_auth h) && is_nil (au_token_files (ht_auth h)))
          (Invalid "service.http.auth.token_files" "must not be empty when auth is required");
    _ ← for_each validate_token_file (au_token_files (ht_auth h));
    _ ← reject_if (negb (bool_decide (au_type (ht_auth h) = "bearer")))
          (Invalid "service.http.auth.type" "must be 'bearer'");
    if tls_enabled (ht_tls h) then
      for_each (λ '(field, path),
        match path with
        | None => Err (Invalid ("service.http.tls." +:+ field) "must be set when built-in TLS is enabled")
        | Some path => reject_if (negb (is_absolute path))
                         (Invalid ("service.http.tls." +:+ field) "must be an absolute path")
        end)
        [("cert_path", tls_cert_path (ht_tls h)); ("key_path", tls_key_path (ht_tls h))]
    else Ok tt
  else Ok tt.

(** The loop over [tasks]; the result is [has_script_task]. *)
Definition validate_tasks (c : Config) : result ConfigError bool :=
  fold_each (λ has_script_task '(name, task),
      _ ← TaskConfig_validate task name (bc_max_timeout_sec (cf_build c))
            (bc_max_output_bytes (cf_build c)) (cf_sources c);
      Ok (has_script_task || uses_script task))
    false (map_to_list (cf_tasks c)).

Definition reject_blank (value : option string) (field : string) : result ConfigError unit :=
  match value with
  | Some v => reject_if (is_blank v) (Invalid field "must not be empty")
  | None => Ok tt
  end.

Definition Config_validate (c : Config) : result ConfigError unit :=
  _ ← reject_if (negb (bool_decide (cf_schema_version c = CONFIG_SCHEMA_VERSION)))
        (Invalid "schema_version" "unsupported schema_version");
  _ ← reject_if (negb (sk_enabled (sv_socket (cf_service c))) && negb (ht_enabled (sv_http (cf_service c))))
        (Invalid "service" "at least one of service.socket.enabled or service.http.enabled must be true");
  _ ← validate_socket (sv_socket (cf_service c));
  _ ← validate_http (sv_http (cf_service c));
  _ ← reject_if (negb (is_absolute (bc_workspace_root (cf_build c))))
        (Invalid "build.workspace_root" "must be an absolute path");
  _ ← reject_if (sv_max_concurrent_builds (cf_service c) =? 0)
        (Invalid "service.max_concurrent_builds" "must be greater than zero");
  _ ← reject_if (bc_max_timeout_sec (cf_build c) =? 0)
        (Invalid "build.max_timeout_sec" "must be greater than zero");
  _ ← reject_if (bc_max_output_bytes (cf_build c) =? 0)
        (Invalid "build.max_output_bytes" "must be greater than zero");
  _ ← reject_if (so_max_transfer_bytes (cf_sources c) =? 0)
        (Invalid "sources.max_transfer_bytes" "must be greater than zero");
  _ ← reject_if (so_max_uncompressed_bytes (cf_sources c) =? 0)
        (Invalid "sources.max_uncompressed_bytes" "must be greater than zero");
  _ ← reject_if ((so_max_files (cf_sources c) =? 0) || (so_max_depth (cf_sources c) =? 0))
        (Invalid "sources" "max_files and max_depth must be greater than zero");
  _ ← reject_if (out_of_range (so_upload_timeout_sec (cf_sources c)) MAX_SOURCE_UPLOAD_TIMEOUT_SEC)
        (Invalid "sources.upload_timeout_sec" "must be between 1 and MAX_SOURCE_UPLOAD_TIMEOUT_SEC");
  has_script_task ← validate_tasks c;
  _ ← (if has_script_task : bool then validate_executable_file SCRIPT_SHELL "script shell" else Ok tt);
  _ ← reject_blank (bc_run_as_user (cf_build c)) "build.run_as_user";
  _ ← reject_blank (bc_run_as_group (cf_build c)) "build.run_as_group";
  _ ← (if sk_enabled (sv_socket (cf_service c)) then
         _ ← reject_if (is_none (bc_run_as_user (cf_build c)))
               (Invalid "service.socket" "enabled unauthenticated socket requires a dedicated build.run_as_user");
         mode ← map_err (λ e, Invalid "service.socket.mode" (SocketModeError_to_string e))
                  (parse_mode (sv_socket (cf_service c)));
         reject_if (mode_has mode o077 || is_some (sk_group (sv_socket (cf_service c))))
           (Invalid "service.socket" "must use no group and mode 0600 or stricter")
       else Ok tt);
  _ ← HostObservationConfig_validate (cf_host_observation c);
  _ ← reject_if (ho_enabled (cf_host_observation c) && ht_enabled (sv_http (cf_service c))
                 && negb (au_required (ht_auth (sv_http (cf_service c)))))
        (Invalid "host_observation" "requires authenticated HTTP");
  _ ← ArtifactsConfig_validate (cf_artifacts c);
  _ ← map_err (λ _, Invalid "logging" "invalid logging settings") (from_config (cf_logging c));
  Ok tt.

(** * Loading *)

Definition newline : ascii := "010"%char.

(** The text after the last newline. *)
Definition last_line (s : string) : string := default "" (last (split newline s)).

(** [str::chars().count()]: bytes that are not UTF-8 continuation bytes. *)
Definition char_count (s : string) : N :=
  N.of_nat (length (List.filter (λ a, negb (in_range 128 191 a)) (String.list_ascii_of_string s))).

(** [&raw[..offset]] for an offset within the string. *)
Definition string_take (n : N) (s : string) : string := String.substring 0 (N.to_nat n) s.

Definition parse_error_location (raw : string) (offset : option N) : option N * option N :=
  match offset with
  | Some offset =>
      if offset <=? len raw then
        let prefix := string_take offset raw in
        let line := N.of_nat (length (split newline prefix) - 1) + 1 in
        let column := char_count (last_line prefix) + 1 in
        (Some line, Some column)
      else (None, None)
  | None => (None, None)
  end.

(** The process environment, the file system and [toml::from_str] (whose error
    carries the byte offset of its span). *)
Context (env_var : string → option string).
Context (read_to_string : string → result io_error string).
Context (toml_from_str : string → result (option N) Config).

Definition resolve_path (cli_path : option string) : string * ConfigPathKind :=
  match cli_path with
  | Some p => (p, Explicit)
  | None => match env_var "INDENTURED_SERVER_CONFIG" with
            | Some env_path => (env_path, Env)
            | None => (DEFAULT_CONFIG_PATH, Default)
            end
  end.

Definition set_level (l : LoggingConfig) (level : string) : LoggingConfig :=
  {| lc_directory := lc_directory l; lc_level := level; lc_max_bytes := lc_max_bytes l;
     lc_max_files := lc_max_files l; lc_console := lc_console l |}.

Definition apply_env_overrides (c : Config) : Config :=
  match env_var "INDENTURED_SERVER_LOG_LEVEL" with
  | Some level =>
      if is_blank level then c
      else {| cf_schema_version := cf_schema_version c; cf_service := cf_service c;
              cf_build := cf_build c; cf_tasks := cf_tasks c;
              cf_host_observation := cf_host_observation c; cf_sources := cf_sources c;
              cf_artifacts := cf_artifacts c; cf_logging := set_level (cf_logging c) level |}
  | None => c
  end.

Definition load_from_sources (cli_path : option string) : result ConfigError Config :=
  let '(path, _) := resolve_path cli_path in
  raw ← map_err (Io path) (read_to_string path);
  config ← map_err (λ offset,
             let '(line, column) := parse_error_location raw offset in
             ParseToml path line column) (toml_from_str raw);
  let config := apply_env_overrides config in
  _ ← Config_validate config;
  Ok config.
End validate.

(** * What a validated configuration guarantees *)

(** A program the daemon can start: [execution] does not reach its
    [unreachable!], an executable is an executable regular file at an absolute
    path, a script is non-blank text without NUL that runs under the checked
    shell with a [PATH] of absolute components. *)
Definition executable_file (metadata : string → result io_error file_meta) (path : string) : Prop :=
  is_absolute path = true ∧
  ∃ m, metadata path = Ok m ∧ is_file m = true ∧ mode_has (fm_mode m) o111 = true.

Definition runnable (metadata : string → result io_error file_meta)
    (environment : gmap string string) (e : option TaskExecution) : Prop :=
  match e with
  | Some (Script text) =>
      is_blank text = false ∧ len text ≤ MAX_TASK_SCRIPT_BYTES ∧ contains_byte nul text = false ∧
      executable_file metadata SCRIPT_SHELL ∧
      ∃ path, environment !! "PATH" = Some path ∧
        Forall (λ c, c ≠ "" ∧ is_absolute c = true) (split ":" path)
  | Some (Executable path args) =>
      executable_file metadata path ∧ Forall (λ a, contains_byte nul a = false) args
  | None => False
  end.

Definition within (value maximum : N) : Prop := 1 ≤ value ≤ maximum.

Lemma out_of_range_false value maximum : out_of_range value maximum = false ↔ within value maximum.
Proof. unfold out_of_range, within. rewrite orb_false_iff, N.eqb_neq, N.ltb_ge. lia. Qed.

(** Case analysis on the disjunctions that hold. *)
Ltac destruct_or_true :=
  repeat match goal with H : _ || _ = true |- _ => apply orb_true_iff in H as [H|H] end.

Section validated.
Context `{Glob} (metadata : string → result io_error file_meta).

Lemma validate_executable_file_Ok path field u :
  validate_executable_file metadata path field = Ok u → executable_file metadata path.
Proof.
  intros E. unfold validate_executable_file in E. unbind E. breflect.
  split; [done|]. eauto.
Qed.

Lemma existsb_Forall {A} (p : A → bool) l : existsb p l = false ↔ Forall (λ x, p x = false) l.
Proof. apply Protocol.existsb_false. Qed.

Lemma validate_script_Ok text field environment u :
  validate_script text field environment = Ok u →
  is_blank text = false ∧ len text ≤ MAX_TASK_SCRIPT_BYTES ∧ contains_byte nul text = false ∧
  ∃ path, environment !! "PATH" = Some path ∧
    Forall (λ c, c ≠ "" ∧ is_absolute c = true) (split ":" path).
Proof.
  intros E. unfold validate_script in E. unbind E. breflect. split_and!; try done.
  eexists; split; [done|]. apply existsb_Forall in H1.
  eapply Forall_impl; [done|]. cbn. intros c Hc. breflect. split; [by intros ->|done].
Qed.

(** A script's shell is checked once, for the whole configuration. *)
Lemma validate_execution_runnable script executable args field afield environment u v :
  validate_execution metadata script executable args field environment = Ok u →
  validate_args args afield = Ok v →
  (is_some script = true → executable_file metadata SCRIPT_SHELL) →
  runnable metadata environment (execution script executable args).
Proof.
  unfold validate_execution, validate_args, execution. intros He Ha Hs.
  apply reject_if_Ok, existsb_Forall in Ha.
  destruct script as [text|], executable as [path|]; try done.
  - unbind He. breflect. rewrite E. apply validate_script_Ok in He.
    destruct He as (?&?&?&?). split_and!; auto.
  - split; [by eapply validate_executable_file_Ok|done].
Qed.

Lemma validate_session_execution_runnable script executable args timeout field environment max u :
  validate_session_execution metadata script executable args timeout field environment max = Ok u →
  (is_some script = true → executable_file metadata SCRIPT_SHELL) →
  runnable metadata environment (execution script executable args) ∧ within timeout max.
Proof.
  intros E Hs. unfold validate_session_execution in E. unbind E.
  split; [by eapply validate_execution_runnable|]. by apply out_of_range_false.
Qed.

(** What [TaskSessionConfig::validate] guarantees of the programs a session runs. *)
Definition session_ok (environment : gmap string string) (max_timeout max_output : N)
    (sources : SourcesConfig) (s : TaskSessionConfig) : Prop :=
  (0 < sn_idle_timeout_sec s < sn_max_lifetime_sec s ∧ sn_max_lifetime_sec s ≤ u32_max) ∧
  (runnable metadata environment (SessionTeardownConfig_execution (sn_teardown s)) ∧
   within (te_timeout_sec (sn_teardown s)) max_timeout) ∧
  (∀ name service, sn_services s !! name = Some service →
     valid_task_id name = true ∧
     runnable metadata environment (SessionServiceConfig_execution service) ∧
     within (se_startup_timeout_sec service) max_timeout ∧
     within (se_shutdown_timeout_sec service) max_timeout ∧
     within (se_diagnostic_tail_bytes service) max_output) ∧
  ((∃ name, is_Some (sn_actions s !! name)) ↔ sn_action_dispatcher s = None) ∧
  (∀ name action,
     (sn_actions s !! name = Some action ∨
      ∃ d, sn_action_dispatcher s = Some d ∧ resolve d name = Some action) →
     runnable metadata environment (SessionActionConfig_execution action) ∧
     within (ac_timeout_sec action) max_timeout) ∧
  (∀ u, sn_source_updates s = Some u →
     within (up_timeout_sec u) (N.min max_timeout (so_upload_timeout_sec sources)) ∧
     within (up_max_transfer_bytes u) (so_max_transfer_bytes sources) ∧
     within (up_max_uncompressed_bytes u) (so_max_uncompressed_bytes sources) ∧
     within (up_max_files u) (so_max_files sources) ∧
     within (up_max_depth u) (so_max_depth sources) ∧
     up_include u ≠ []).

Lemma any_value_true {A} (p : A → bool) (m : gmap string A) k v :
  m !! k = Some v → p v = true → any_value p m = true.
Proof.
  intros Hk Hp. unfold any_value. apply existsb_exists. exists (k, v).
  split; [|done]. apply list_elem_of_In. by apply elem_of_map_to_list.
Qed.

Lemma updates_validate_ok u field max sources x :
  SourceUpdatesConfig_validate u field max sources = Ok x →
  within (up_timeout_sec u) (N.min max (so_upload_timeout_sec sources)) ∧
  within (up_max_transfer_bytes u) (so_max_transfer_bytes sources) ∧
  within (up_max_uncompressed_bytes u) (so_max_uncompressed_bytes sources) ∧
  within (up_max_files u) (so_max_files sources) ∧
  within (up_max_depth u) (so_max_depth sources) ∧ up_include u ≠ [].
Proof.
  intros E. unfold SourceUpdatesConfig_validate in E. unbind E.
  rewrite for_each_Ok in E1. rewrite for_each_Ok in E2. breflect.
  repeat match goal with
  | Hf : Forall _ (_ :: _) |- _ => apply Forall_cons_1 in Hf as [?%reject_if_Ok%out_of_range_false Hf]
  end.
  split_and!; try done; [unfold within; lia|].
  intros Hn. by rewrite Hn in E3.
Qed.

Lemma dispatcher_validate_ok field environment max d x name action :
  validate_dispatcher metadata field environment max d = Ok x →
  (is_some (di_script d) = true → executable_file metadata SCRIPT_SHELL) →
  resolve d name = Some action →
  runnable metadata environment (SessionActionConfig_execution action) ∧
  within (ac_timeout_sec action) max.
Proof.
  intros E Hs Hr. unfold validate_dispatcher in E. unbind E. rewrite for_each_map_Ok in E.
  eapply validate_session_execution_runnable in E0 as [Hrun Ht]; [|done].
  unfold resolve in Hr. destruct (_ && _); [done|]. injection Hr as <-.
  split; [exact Hrun|]. cbn.
  destruct (di_actions d !! name) as [policy|] eqn:Hp; [|done]. cbn.
  destruct (po_timeout_sec policy) as [t|] eqn:Hpt; [cbn|done].
  apply E in Hp. unfold validate_policy in Hp. rewrite Hpt in Hp. unbind Hp.
  by apply out_of_range_false.
Qed.

Lemma session_validate_ok s name environment max maxo sources u :
  TaskSessionConfig_validate metadata s name environment max maxo sources = Ok u →
  (is_some (te_script (sn_teardown s))
     || any_value (λ x, is_some (se_script x)) (sn_services s)
     || any_value (λ a, is_some (ac_script a)) (sn_actions s)
     || match sn_action_dispatcher s with Some d => is_some (di_script d) | None => false end = true →
   executable_file metadata SCRIPT_SHELL) →
  session_ok environment max maxo sources s.
Proof.
  intros E Hs. unfold TaskSessionConfig_validate in E. unbind E.
  rewrite for_each_map_Ok in E4. rewrite for_each_map_Ok in E7. breflect.
  split; [unfold MAX_SESSION_LIFETIME_SEC in *; lia|]. split.
  { eapply validate_session_execution_runnable; [done|].
    intros Hx. apply Hs. by rewrite Hx. }
  split.
  { intros sname service Hl. pose proof (E4 _ _ Hl) as Hv. unfold validate_service in Hv.
    unbind Hv. rewrite for_each_Ok in E12.
    apply Forall_cons_1 in E12 as [?%reject_if_Ok E12].
    apply Forall_cons_1 in E12 as [?%reject_if_Ok _]. breflect.
    split_and!; [done| |by apply out_of_range_false..].
    eapply validate_execution_runnable; [done..|]. intros Hx. apply Hs.
    rewrite (any_value_true (λ x, is_some (se_script x)) _ sname service) by done.
    by rewrite orb_true_r. }
  split.
  { apply Bool.eqb_false_iff in E6. split.
    - intros (an & a & Ha). destruct (sn_action_dispatcher s); [|done]. exfalso. apply E6.
      cbn. destruct (map_to_list (sn_actions s)) eqn:Hm; [|done].
      apply map_to_list_empty_iff in Hm. by rewrite Hm, lookup_empty in Ha.
    - intros Hd. rewrite Hd in E6. cbn in E6.
      destruct (map_to_list (sn_actions s)) as [|[k v] l] eqn:Hm; [done|].
      exists k, v. apply elem_of_map_to_list. rewrite Hm. by left. }
  split.
  { intros an action [Ha|(d & Hd & Hr)].
    - pose proof (E7 _ _ Ha) as Hv. unfold validate_action in Hv. unbind Hv.
      eapply validate_session_execution_runnable; [done|]. intros Hx. apply Hs.
      rewrite (any_value_true (λ x, is_some (ac_script x)) _ an action) by done.
      by rewrite !orb_true_r.
    - rewrite Hd in E, Hs. eapply dispatcher_validate_ok; [done| |done].
      intros Hx. apply Hs. by rewrite Hx, !orb_true_r. }
  intros up Hup. rewrite Hup in E8. by eapply updates_validate_ok.
Qed.

Lemma validate_tasks_Ok c b :
  validate_tasks metadata c = Ok b →
  ∀ name task, cf_tasks c !! name = Some task →
    TaskConfig_validate metadata task name (bc_max_timeout_sec (cf_build c))
      (bc_max_output_bytes (cf_build c)) (cf_sources c) = Ok tt ∧
    (uses_script task = true → b = true).
Proof.
  intros E name task Hl%elem_of_map_to_list. unfold validate_tasks in E.
  revert name task Hl.
  refine (fold_each_inv (λ b done, ∀ name task, (name, task) ∈ done →
    TaskConfig_validate metadata task name (bc_max_timeout_sec (cf_build c))
      (bc_max_output_bytes (cf_build c)) (cf_sources c) = Ok tt ∧
    (uses_script task = true → b = true)) _ _ _ [] _ _ _ E).
  - clear. intros b done [n t] b' Hi Hf n' t' Hin. unbind Hf. injection Hf as <-.
    apply elem_of_app in Hin as [Hin|Hin%list_elem_of_singleton].
    + destruct (Hi _ _ Hin) as [? Hu]. split; [done|]. intros ->%Hu. done.
    + simplify_eq. destruct x. split; [done|]. intros ->. by rewrite orb_true_r.
  - intros ?? []%not_elem_of_nil.
Qed.

(** What [TaskConfig::validate] guarantees of a task. *)
Definition task_ok (max_timeout max_output : N) (sources : SourcesConfig) (t : TaskConfig) : Prop :=
  runnable metadata (tk_environment t) (TaskConfig_execution t) ∧
  (∀ setup, tk_setup t = Some setup →
     runnable metadata (tk_environment t) (TaskSetupConfig_execution setup) ∧
     0 < su_timeout_sec setup) ∧
  (0 < tk_timeout_sec t ∧
   default 0 (su_timeout_sec <$> tk_setup t) + tk_timeout_sec t ≤ max_timeout) ∧
  (is_absolute (tk_cwd t) = false ∧ has_parent_dir (tk_cwd t) = false) ∧
  (∀ key value, tk_environment t !! key = Some value →
     key ≠ "" ∧ key ≠ SERVICE_READY_FD_ENV ∧ contains_byte "=" key = false ∧
     contains_byte nul key = false ∧ contains_byte nul value = false) ∧
  (∀ s, tk_session t = Some s →
     session_ok (tk_environment t) max_timeout max_output sources s).

Lemma validate_setup_Ok t name total :
  validate_setup metadata t name = Ok total →
  (uses_script t = true → executable_file metadata SCRIPT_SHELL) →
  (∀ setup, tk_setup t = Some setup →
     runnable metadata (tk_environment t) (TaskSetupConfig_execution setup) ∧
     0 < su_timeout_sec setup) ∧
  total = default 0 (su_timeout_sec <$> tk_setup t) + tk_timeout_sec t.
Proof.
  intros E Hs. unfold validate_setup in E.
  destruct (tk_setup t) as [setup|] eqn:Hsetup; cbn.
  - unbind E. apply checked_add_Some in E as [-> _]. split; [|lia].
    intros ? [= <-]. breflect. split; [|lia].
    eapply validate_execution_runnable; [done..|]. intros Hx. apply Hs.
    unfold uses_script. by rewrite Hsetup, Hx, orb_true_r.
  - injection E as <-. split; [done|lia].
Qed.

Lemma task_validate_ok t name max maxo sources u :
  TaskConfig_validate metadata t name max maxo sources = Ok u →
  (uses_script t = true → executable_file metadata SCRIPT_SHELL) →
  task_ok max maxo sources t.
Proof.
  intros E Hs. unfold TaskConfig_validate in E. unbind E.
  apply validate_setup_Ok in E5 as [Hsetup ->]; [|done].
  apply validate_relative_path_Ok in E3 as (-> & _ & ? & ?).
  rewrite for_each_map_Ok in E8. breflect.
  split; [|split; [done|]; split; [lia|]; split; [done|]; split].
  - eapply validate_execution_runnable; [done..|]. intros Hx. apply Hs.
    unfold uses_script. by rewrite Hx.
  - intros key value Hk. pose proof (E8 _ _ Hk) as Hv. unfold validate_variable in Hv.
    unbind Hv. breflect. split_and!; try done. by intros ->.
  - intros s Hsess. rewrite Hsess in E7. eapply session_validate_ok; [done|].
    intros Hx. apply Hs. unfold uses_script. rewrite Hsess. rewrite Hx. by rewrite !orb_true_r.
Qed.

(** The tasks of an accepted configuration. *)
Lemma config_task_ok c :
  Config_validate metadata c = Ok tt →
  ∀ name task, cf_tasks c !! name = Some task →
    valid_task_id name = true ∧
    task_ok (bc_max_timeout_sec (cf_build c)) (bc_max_output_bytes (cf_build c))
      (cf_sources c) task.
Proof.
  intros E name task Hl. unfold Config_validate in E. unbind E.
  destruct (validate_tasks_Ok _ _ E12 _ _ Hl) as [Hv Hu]. split.
  - unfold TaskConfig_validate in Hv. unbind Hv. by breflect.
  - eapply task_validate_ok; [done|]. intros Hx. rewrite (Hu Hx) in E13.
    by eapply validate_executable_file_Ok.
Qed.

(** C4: After [Config::validate] accepts a configuration, every program the daemon
    can be asked to start is runnable: each task, setup phase, teardown,
    service and action, and every action the dispatcher resolves a name to, has
    exactly one execution shape (so [execution] never reaches its
    [unreachable!]), its program file or shell and [PATH] were checked, and its
    timeouts and limits lie within the global ones. *)
Theorem validated_tasks_run c :
  Config_validate metadata c = Ok tt →
  ∀ name task, cf_tasks c !! name = Some task →
    valid_task_id name = true ∧
    task_ok (bc_max_timeout_sec (cf_build c)) (bc_max_output_bytes (cf_build c))
      (cf_sources c) task.
Proof. apply config_task_ok. Qed.

(** What an accepted configuration exposes: an enabled Unix socket (which does
    no authentication) is at an absolute path, has no group, a mode without
    any group or other bit, and tasks that run as another user; HTTP with
    required authentication has at least one credential file, all of them below
    the runtime directories; host observation over HTTP is authenticated; some
    listener is enabled and at least one build may run. *)
Theorem validated_exposure c :
  Config_validate metadata c = Ok tt →
  let socket := sv_socket (cf_service c) in
  let http := sv_http (cf_service c) in
  (sk_enabled socket = true ∨ ht_enabled http = true) ∧
  (sk_enabled socket = true →
     is_absolute (sk_path socket) = true ∧ sk_group socket = None ∧
     is_Some (bc_run_as_user (cf_build c)) ∧
     ∃ mode, parse_mode socket = Ok mode ∧ N.land mode o077 = 0) ∧
  (ht_enabled http = true →
     (au_required (ht_auth http) = true → au_token_files (ht_auth http) ≠ []) ∧
     Forall (λ p, path_starts_with p "/run" = true ∨ path_starts_with p "/var/run" = true ∨
                  path_starts_with p "/private/var/run" = true) (au_token_files (ht_auth http)) ∧
     (ho_enabled (cf_host_observation c) = true → au_required (ht_auth http) = true)) ∧
  0 < sv_max_concurrent_builds (cf_service c).
Proof.
  intros E socket http. unfold Config_validate in E. unbind E. breflect.
  fold socket in E1, E2, E16. fold http in E1, E3, E18. split; [|split; [|split]].
  - destruct (sk_enabled socket), (ht_enabled http); naive_solver.
  - intros Hen. rewrite Hen in E16. unbind E16.
    unfold validate_socket in E2. rewrite Hen in E2. unbind E2. breflect.
    split_and!; try done.
    + by destruct (sk_group socket).
    + by destruct (bc_run_as_user (cf_build c)).
    + eexists; split; [done|]. by apply mode_has_false.
  - intros Hen. unfold validate_http in E3. rewrite Hen in E3, E18. unbind E3.
    rewrite for_each_Ok in E22. split_and!.
    + intros Hr Hn. by rewrite Hr, Hn in E21.
    + eapply Forall_impl; [done|]. intros p Hp. unfold validate_token_file in Hp.
      unbind Hp. breflect. destruct_or_true; auto.
    + intros Ho. rewrite Ho in E18. cbn in E18. by breflect.
  - lia.
Qed.
End validated.

(** * A concrete configuration *)

(** Patterns without brackets, matching literally. *)
#[export] Instance demo_glob : Glob := {|
  Pattern := string;
  Pattern_new := λ p, if contains_byte "[" p then Err "unclosed bracket" else Ok p;
  Pattern_matches := λ p s, bool_decide (p = s);
|}.

Definition demo_metadata (path : string) : result io_error file_meta :=
  if bool_decide (path ∈ ["/bin/sh"; "/usr/bin/make"])
  then Ok (FileMeta Regular 0 0 493 1000 1 7)
  else Err (IoError NotFound "no such file").

Definition demo_session : TaskSessionConfig := {|
  sn_idle_timeout_sec := 60; sn_max_lifetime_sec := 3600;
  sn_teardown := {| te_script := Some "echo done"; te_executable := None; te_args := [];
                    te_timeout_sec := 10 |};
  sn_services := {["db" := {| se_script := None; se_executable := Some "/usr/bin/make";
                              se_args := ["db"]; se_startup_timeout_sec := 5;
                              se_shutdown_timeout_sec := 5; se_diagnostic_tail_bytes := 1024 |}]};
  sn_actions := ∅;
  sn_action_dispatcher := Some {|
    di_script := None; di_executable := Some "/usr/bin/make"; di_args := ["run"];
    di_timeout_sec := 100; di_artifacts := {| as_include := ["out/*"]; as_exclude := [] |};
    di_allow_unlisted := false;
    di_actions := {["test" := {| po_timeout_sec := Some 30; po_artifacts := None |}]} |};
  sn_source_updates := Some {|
    up_timeout_sec := 30; up_max_transfer_bytes := 1000; up_max_uncompressed_bytes := 2000;
    up_max_files := 10; up_max_depth := 8; up_include := ["src/*"]; up_exclude := [] |};
|}.

Definition demo_task : TaskConfig := {|
  tk_script := None; tk_executable := Some "/usr/bin/make"; tk_args := ["all"];
  tk_setup := Some {| su_script := Some "make deps"; su_executable := None; su_args := [];
                      su_timeout_sec := 600 |};
  tk_session := Some demo_session; tk_cwd := "."; tk_timeout_sec := 1200;
  tk_environment := {["PATH" := "/usr/bin:/bin"]};
  tk_artifacts := {| as_include := ["dist/*"]; as_exclude := [] |};
  tk_workspace := Fresh;
|}.

Definition demo_config : Config := {|
  cf_schema_version := "12";
  cf_service := {|
    sv_socket := {| sk_enabled := true; sk_path := "/run/indentured-server/control/server.sock";
                    sk_group := None; sk_mode := "0600" |};
    sv_http := {| ht_enabled := true; ht_listen_addr := "127.0.0.1:8080";
                  ht_auth := {| au_type := "bearer"; au_required := true;
                                au_token_files := ["/run/indentured/token"] |};
                  ht_tls := HttpTlsConfig_default |};
    sv_max_concurrent_builds := 1 |};
  cf_build := {| bc_workspace_root := "/var/lib/indentured-server/workspaces";
                 bc_max_timeout_sec := 1800; bc_max_output_bytes := DEFAULT_OUTPUT_BYTES;
                 bc_run_as_user := Some "builder"; bc_run_as_group := None |};
  cf_tasks := {["build" := demo_task]};
  cf_host_observation := {| ho_enabled := false; ho_socket := None; ho_peer_uid := None |};
  cf_sources := SourcesConfig_default;
  cf_artifacts := {| ar_storage_root := "/var/lib/indentured-server/artifacts";
                     ar_ttl_sec := Some 3600; ar_gc_interval_sec := None; ar_max_bytes := None;
                     ar_max_transfer_bytes := DEFAULT_ARTIFACT_TRANSFER_BYTES;
                     ar_max_uncompressed_bytes := DEFAULT_ARTIFACT_UNCOMPRESSED_BYTES;
                     ar_max_files := DEFAULT_ARTIFACT_MAX_FILES;
                     ar_max_depth := DEFAULT_ARTIFACT_MAX_DEPTH;
                     ar_restricted_patterns := ["*.pem"] |};
  cf_logging := LoggingConfig_default;
|}.

Lemma validated_tasks_run_witness :
  Config_validate (H:=demo_glob) demo_metadata demo_config = Ok tt ∧
  task_ok demo_metadata 1800 DEFAULT_OUTPUT_BYTES SourcesConfig_default demo_task.
Proof.
  split; [vm_compute; reflexivity|].
  apply (validated_tasks_run (H:=demo_glob) demo_metadata demo_config
    ltac:(vm_compute; reflexivity) "build" demo_task). vm_compute; reflexivity.
Defined.

Lemma validated_exposure_witness :
  Config_validate (H:=demo_glob) demo_metadata demo_config = Ok tt ∧
  0 < sv_max_concurrent_builds (cf_service demo_config) ∧
  ∃ mode, parse_mode (sv_socket (cf_service demo_config)) = Ok mode ∧ N.land mode o077 = 0.
Proof.
  destruct (validated_exposure (H:=demo_glob) demo_metadata demo_config
    ltac:(vm_compute; reflexivity)) as (_ & Hs & _ & Hn).
  split; [vm_compute; reflexivity|]. split; [exact Hn|]. apply Hs. reflexivity.
Defined.

(** A mode text that is not four octal digits is accepted: the sign that
    [u32::from_str_radix] takes survives the stripping of leading zeros. *)
Lemma socket_mode_accepts_sign : parse_socket_mode "0+60" = Ok 48.
Proof. vm_compute. reflexivity. Qed.
