(* ===== verification/RunAs.v ===== *)
(** The identity tasks run under: [resolve_run_as], the startup preflight, the
    child's environment and working directory, and the steps between [fork] and
    [exec] that drop the daemon's privileges ([src/src/build.rs]). *)
From Stdlib Require Import Ascii.
From stdpp Require Import base option strings numbers list gmap.
From S2P Require Import Prelude Effects RustStr Validation Archive Accounts Bearer Auth Protocol Logging Config.

Local Open Scope N_scope.

Abbreviation failure := (halt BuildError).

Definition fail {A} (code message : string) : result failure A :=
  Err (Raised (mkBuildError code message)).

Definition refuse_if (b : bool) (code message : string) : result failure unit :=
  if b then fail code message else Ok tt.

(** [map_err] on a lookup.  Messages keep the source's fixed text; the operating
    system's description of an error is left out. *)
Definition lookup_err {A} (code message : string) (r : result (halt UserError) A) :
    result failure A :=
  map_err (halt_map (λ _, mkBuildError code message)) r.

Record RunAs := { ra_user : UserInfo; ra_gid : N; ra_set_ids : bool }.

Section identity.
Context `{AccountDb}.
(** The daemon's real and effective user. *)
Context (getuid geteuid : N).

Definition resolve_run_as (config : Config) : result failure RunAs :=
  let build := cf_build config in
  let set_ids := is_some (bc_run_as_user build) || is_some (bc_run_as_group build) in
  user ← match bc_run_as_user build with
         | Some user => lookup_err "run_as_user" "failed to resolve run_as_user" (lookup_user_by_name user)
         | None => lookup_err "run_as_user" "failed to resolve service user" (lookup_user getuid)
         end;
  gid ← match bc_run_as_group build with
        | Some group => lookup_err "run_as_group" "failed to resolve run_as_group" (lookup_group_gid group)
        | None => Ok (ui_gid user)
        end;
  Ok {| ra_user := user; ra_gid := gid; ra_set_ids := set_ids |}.

Definition validate_run_as_uid (run_as : RunAs) (effective_uid : N) : result failure unit :=
  refuse_if ((effective_uid =? 0) && (ui_uid (ra_user run_as) =? 0))
    "run_as_user" "a root daemon must not execute tasks as UID 0".

Definition resolved_run_as_identity (config : Config) : result failure (option (N * string * N)) :=
  if is_none (bc_run_as_user (cf_build config)) && is_none (bc_run_as_group (cf_build config))
  then Ok None
  else
    run_as ← resolve_run_as config;
    Ok (Some (ui_uid (ra_user run_as), ui_username (ra_user run_as), ra_gid run_as)).

(** Some task of the configuration keeps services running in its sessions. *)
Definition has_session_services (config : Config) : bool :=
  any_value (λ task, match tk_session task with
                     | Some session => negb (bool_decide (sn_services session = ∅))
                     | None => false
                     end) (cf_tasks config).

(** The part of the preflight for an enabled Unix socket. *)
Definition preflight_socket (config : Config) (run_as : RunAs) (effective_uid : N) :
    result failure unit :=
  let uid := ui_uid (ra_user run_as) in
  let socket := sv_socket (cf_service config) in
  _ ← refuse_if (negb (ra_set_ids run_as)) "run_as_user"
        "enabled UDS requires a dedicated task execution identity";
  _ ← refuse_if ((uid =? 0) || (uid =? effective_uid)) "run_as_user"
        "enabled UDS requires a non-root task identity distinct from the daemon socket owner";
  _ ← refuse_if (negb (effective_uid =? 0)) "run_as_user"
        "enabled UDS privilege dropping requires a root daemon";
  mode ← map_err (λ e, Raised (mkBuildError "socket_mode" (SocketModeError_to_string e)))
           (parse_mode socket);
  refuse_if (Fs.mode_has mode Fs.o077 || is_some (sk_group socket)) "socket_mode"
    "enabled UDS must be owner-only with no socket group".

(** The part for an authenticated HTTP listener. *)
Definition preflight_http (run_as : RunAs) (effective_uid : N) : result failure unit :=
  _ ← refuse_if (negb (ra_set_ids run_as)) "run_as_user"
        "authenticated HTTP service requires build.run_as_user";
  _ ← refuse_if (ui_uid (ra_user run_as) =? 0) "run_as_user"
        "build.run_as_user must be a non-root identity";
  refuse_if (negb (effective_uid =? 0)) "run_as_user"
    "authenticated HTTP privilege dropping requires a root daemon".

Definition preflight_run_as_with_effective_uid (config : Config) (effective_uid : N) :
    result failure unit :=
  run_as ← resolve_run_as config;
  let uid := ui_uid (ra_user run_as) in
  let socket := sv_socket (cf_service config) in
  let http := sv_http (cf_service config) in
  let transport_enabled := sk_enabled socket || ht_enabled http in
  _ ← refuse_if (has_session_services config &&
                 (negb (effective_uid =? 0) || negb (ra_set_ids run_as) || (uid =? effective_uid)))
        "run_as_user"
        "managed session services require a configured task identity distinct from the daemon effective UID";
  _ ← refuse_if ((effective_uid =? 0) && transport_enabled &&
                 (negb (ra_set_ids run_as) || (uid =? 0) || (uid =? effective_uid)))
        "run_as_user"
        "a root daemon requires a configured distinct non-root task execution identity on every enabled transport";
  _ ← (if sk_enabled socket then preflight_socket config run_as effective_uid else Ok tt);
  if ht_enabled http && au_required (ht_auth http)
  then preflight_http run_as effective_uid else Ok tt.

Definition preflight_run_as (config : Config) : result failure unit :=
  preflight_run_as_with_effective_uid config geteuid.

(** * The child's environment and working directory *)

Definition build_env (task : TaskConfig) (user : UserInfo) : list (string * string) :=
  let default_var key value :=
    match tk_environment task !! key with Some _ => [] | None => [(key, value)] end in
  map_to_list (tk_environment task)
    ++ default_var "HOME" (ui_home_dir user)
    ++ default_var "USER" (ui_username user)
    ++ default_var "LOGNAME" (ui_username user).

Context (canonicalize : string → result io_error string).

(** The fixed text of each message; the quoted paths are left out. *)
Definition ValidationError_to_string (e : ValidationError) : string :=
  match e with
  | CwdNotAbsolute => "cwd must be an absolute path"
  | PathNotRelative field => field +:+ " must be a relative path"
  | PathHasParent field => field +:+ " must not contain parent directory references"
  | EmptyValue field => field +:+ " must not be empty"
  | CwdOutsideRoot _ _ => "cwd is outside allowed root"
  | InvalidPath flag _ => "invalid path for " +:+ flag
  end.

Definition to_validation_error (e : ValidationError) : failure :=
  Raised (mkBuildError "invalid_path" (ValidationError_to_string e)).

Definition resolve_cwd (root : string) (cwd : option string) : result failure string :=
  candidate ←
    match cwd with
    | None => Ok root
    | Some value =>
        if is_blank value then Ok root
        else
          rel ← map_err to_validation_error (validate_relative_path value "cwd");
          Ok (path_join root rel)
    end;
  map_err to_validation_error (validate_cwd canonicalize candidate root).

(** * Dropping privileges *)

(** [trait PrivilegeDropOps]: the three calls on a state [S]. *)
Class PrivilegeDropOps (S : Type) := {
  initgroups : string → N → eff S io_error unit;
  setgid : N → eff S io_error unit;
  setuid : N → eff S io_error unit;
}.

Definition apply_privilege_drop {S} `{PrivilegeDropOps S} (username : string) (gid uid : N) :
    eff S io_error unit :=
  _ ← initgroups username gid;
  _ ← setgid gid;
  setuid uid.

(** The credentials of a process. *)
Record cred := { cr_ruid : N; cr_euid : N; cr_gid : N; cr_groups : list N }.

(** The calls made between [fork] and [exec], which may fail. *)
Inductive pre_exec_call := CallSetpgid | CallInitgroups | CallSetgid | CallSetuid.

Context (fault : pre_exec_call → option io_error).
(** The groups the account database lists for a user, with the base group. *)
Context (group_list : string → N → list N).

Definition credential_call (c : pre_exec_call) (allowed : cred → bool) (f : cred → cred) :
    eff cred io_error unit := λ s,
  match fault c with
  | Some e => (s, Err e)
  | None => if allowed s then (f s, Ok tt)
            else (s, Err (IoError PermissionDenied "operation not permitted"))
  end.

Definition is_root (s : cred) : bool := cr_euid s =? 0.

(** [LibcPrivilegeDropOps]: a privileged process sets any identity, another one
    only the identity it has. *)
#[local] Instance LibcPrivilegeDropOps : PrivilegeDropOps cred := {|
  initgroups username gid := credential_call CallInitgroups is_root (λ s,
    {| cr_ruid := cr_ruid s; cr_euid := cr_euid s; cr_gid := cr_gid s;
       cr_groups := group_list username gid |});
  setgid gid := credential_call CallSetgid (λ s, is_root s || (cr_gid s =? gid)) (λ s,
    {| cr_ruid := cr_ruid s; cr_euid := cr_euid s; cr_gid := gid; cr_groups := cr_groups s |});
  setuid uid := credential_call CallSetuid
    (λ s, is_root s || (cr_ruid s =? uid)) (λ s,
    {| cr_ruid := if is_root s then uid else cr_ruid s; cr_euid := uid; cr_gid := cr_gid s;
       cr_groups := cr_groups s |});
|}.

(** The closure [configure_command] installs with [pre_exec], run in the child. *)
Definition pre_exec (run_as : RunAs) : eff cred io_error unit := λ s,
  match fault CallSetpgid with
  | Some e => (s, Err e)
  | None =>
      let uid := ui_uid (ra_user run_as) in
      if (cr_euid s =? 0) && (uid =? 0)
      then (s, Err (IoError PermissionDenied "a root daemon must not execute tasks as UID 0"))
      else if ra_set_ids run_as then
        if negb (cstring_ok (ui_username (ra_user run_as)))
        then (s, Err (IoError InvalidInput "invalid username"))
        else apply_privilege_drop (ui_username (ra_user run_as)) (ra_gid run_as) uid s
      else (s, Ok tt)
  end.

(** [configure_command]: the check made before the closure is installed. *)
Definition configure_command (run_as : RunAs) : result failure unit :=
  validate_run_as_uid run_as geteuid.
End identity.

(** * What the checks and the closure guarantee *)

Lemma refuse_if_Ok b code message u : refuse_if b code message = Ok u ↔ b = false.
Proof. destruct b, u; cbn; naive_solver. Qed.

Section guarantees.
Context `{AccountDb} (getuid : N) (config : Config).
Context (fault : pre_exec_call → option io_error) (group_list : string → N → list N).

Abbreviation transport_enabled :=
  (sk_enabled (sv_socket (cf_service config)) || ht_enabled (sv_http (cf_service config))).

(** What the closure leaves the child with, when it succeeds. *)
Lemma pre_exec_Ok run_as daemon child :
  pre_exec fault group_list run_as daemon = (child, Ok tt) →
  ¬ (cr_euid daemon = 0 ∧ ui_uid (ra_user run_as) = 0) ∧
  if ra_set_ids run_as
  then cr_euid daemon = 0 ∧
       child = {| cr_ruid := ui_uid (ra_user run_as); cr_euid := ui_uid (ra_user run_as);
                  cr_gid := ra_gid run_as;
                  cr_groups := group_list (ui_username (ra_user run_as)) (ra_gid run_as) |}
  else child = daemon.
Proof.
  unfold pre_exec. destruct (fault CallSetpgid); [done|].
  destruct (andb _ _) eqn:Er; [done|]. destruct (ra_set_ids run_as).
  - destruct (cstring_ok _); cbn; [|done].
    unfold apply_privilege_drop, mbind, eff_bind. cbn. unfold credential_call, is_root.
    destruct (fault CallInitgroups); [done|]. destruct (N.eqb_spec (cr_euid daemon) 0) as [E|]; [|done].
    destruct (fault CallSetgid); [done|]. cbn. rewrite E. cbn.
    destruct (fault CallSetuid); [done|]. cbn. intros [= <-].
    split; [|done]. intros [_ ?]. cbn in Er. by apply N.eqb_neq in Er.
  - intros [= <-]. split; [|done]. intros [E1 E2]. by rewrite E1, E2 in Er.
Qed.

(** What the preflight established about the identity it resolved. *)
Lemma preflight_Ok euid run_as :
  preflight_run_as_with_effective_uid getuid config euid = Ok tt →
  resolve_run_as getuid config = Ok run_as →
  (has_session_services config = true →
     euid = 0 ∧ ra_set_ids run_as = true ∧ ui_uid (ra_user run_as) ≠ euid) ∧
  (euid = 0 → transport_enabled = true →
     ra_set_ids run_as = true ∧ ui_uid (ra_user run_as) ≠ 0) ∧
  (sk_enabled (sv_socket (cf_service config)) = true →
     euid = 0 ∧ ra_set_ids run_as = true ∧ ui_uid (ra_user run_as) ≠ 0 ∧
     sk_group (sv_socket (cf_service config)) = None ∧
     ∃ mode, parse_mode (sv_socket (cf_service config)) = Ok mode ∧ N.land mode Fs.o077 = 0) ∧
  (ht_enabled (sv_http (cf_service config)) = true →
   au_required (ht_auth (sv_http (cf_service config))) = true →
     euid = 0 ∧ ra_set_ids run_as = true ∧ ui_uid (ra_user run_as) ≠ 0).
Proof.
  unfold preflight_run_as_with_effective_uid. intros Hp Hr. rewrite Hr in Hp. cbn in Hp.
  apply bind_Ok in Hp as ([] & Hsv%refuse_if_Ok & Hp).
  apply bind_Ok in Hp as ([] & Hroot%refuse_if_Ok & Hp).
  apply bind_Ok in Hp as ([] & Hsock & Hhttp).
  split_and!.
  - intros E. rewrite E in Hsv. cbn in Hsv. breflect. done.
  - intros -> E. rewrite E in Hroot. cbn in Hroot. breflect. done.
  - intros E. rewrite E in Hsock. unfold preflight_socket in Hsock.
    apply bind_Ok in Hsock as ([] & H1%refuse_if_Ok & Hsock).
    apply bind_Ok in Hsock as ([] & H2%refuse_if_Ok & Hsock).
    apply bind_Ok in Hsock as ([] & H3%refuse_if_Ok & Hsock).
    apply bind_Ok in Hsock as (mode & H4%map_err_Ok & H5%refuse_if_Ok).
    breflect. split_and!; [done..| |].
    + by destruct (sk_group _).
    + exists mode. split; [done|]. by apply Fs.mode_has_false.
  - intros E1 E2. rewrite E1, E2 in Hhttp. cbn in Hhttp. unfold preflight_http in Hhttp.
    apply bind_Ok in Hhttp as ([] & H1%refuse_if_Ok & Hhttp).
    apply bind_Ok in Hhttp as ([] & H2%refuse_if_Ok & H3%refuse_if_Ok).
    breflect. done.
Qed.

(** C31: Once the startup preflight has accepted a configuration with an enabled
    transport, no process a task starts runs as root: whatever system calls fail,
    a child that reaches [exec] has a non-zero effective user.  With a root daemon
    it has exactly the configured user, group and supplementary groups of that
    user, and so it has whenever the Unix socket, authenticated HTTP or session
    services are in use, none of which starts without a root daemon; its user then
    differs from the daemon's. *)
Theorem preflighted_tasks_unprivileged run_as daemon child :
  preflight_run_as_with_effective_uid getuid config (cr_euid daemon) = Ok tt →
  transport_enabled = true →
  resolve_run_as getuid config = Ok run_as →
  pre_exec fault group_list run_as daemon = (child, Ok tt) →
  cr_euid child ≠ 0 ∧
  (cr_euid daemon = 0 ∨ sk_enabled (sv_socket (cf_service config)) = true ∨
   au_required (ht_auth (sv_http (cf_service config))) = true ∧
     ht_enabled (sv_http (cf_service config)) = true ∨
   has_session_services config = true →
   cr_euid daemon = 0 ∧
   child = {| cr_ruid := ui_uid (ra_user run_as); cr_euid := ui_uid (ra_user run_as);
              cr_gid := ra_gid run_as;
              cr_groups := group_list (ui_username (ra_user run_as)) (ra_gid run_as) |}).
Proof.
  intros Hp Ht Hr Hx. destruct (preflight_Ok _ _ Hp Hr) as (Hs & Hroot & Hk & Hh).
  apply pre_exec_Ok in Hx as [Hne Hc]. split.
  - destruct (N.eq_dec (cr_euid daemon) 0) as [E|E].
    + destruct (Hroot E Ht) as [Hset ?]. rewrite Hset in Hc. by destruct Hc as [_ ->].
    + destruct (ra_set_ids run_as); [by destruct Hc|by subst].
  - intros Hany.
    assert (ra_set_ids run_as = true) as Hset.
    { destruct Hany as [?|[?|[[??]|?]]]; [by apply Hroot|by apply Hk|by apply Hh|by apply Hs]. }
    by rewrite Hset in Hc.
Qed.

(** A resolved identity names the configured user, and the configured group or
    the user's own. *)
Lemma resolve_run_as_Ok run_as :
  resolve_run_as getuid config = Ok run_as →
  ra_set_ids run_as =
    is_some (bc_run_as_user (cf_build config)) || is_some (bc_run_as_group (cf_build config)) ∧
  (match bc_run_as_user (cf_build config) with
   | Some user => lookup_user_by_name user
   | None => lookup_user getuid
   end = Ok (ra_user run_as)) ∧
  match bc_run_as_group (cf_build config) with
  | Some group => lookup_group_gid group = Ok (ra_gid run_as)
  | None => ra_gid run_as = ui_gid (ra_user run_as)
  end.
Proof.
  unfold resolve_run_as. intros (user & Hu & Hg)%bind_Ok.
  apply bind_Ok in Hg as (gid & Hg & [= <-]). cbn. split; [done|].
  split.
  - destruct (bc_run_as_user _); by apply map_err_Ok in Hu.
  - destruct (bc_run_as_group _); [by apply map_err_Ok in Hg|by injection Hg].
Qed.

(** The environment handed to a child: the task's variables, and the three account
    variables where the task does not set them. *)
Lemma build_env_lookup task user key :
  list_to_map (M := gmap string string) (build_env task user) !! key =
  match tk_environment task !! key with
  | Some value => Some value
  | None =>
      if bool_decide (key = "HOME") then Some (ui_home_dir user)
      else if bool_decide (key = "USER" ∨ key = "LOGNAME") then Some (ui_username user)
      else None
  end.
Proof.
  unfold build_env. rewrite list_to_map_app, list_to_map_to_list, lookup_union.
  destruct (tk_environment task !! key) as [v|] eqn:E; [by apply union_Some_l|].
  rewrite (left_id_L None _). rewrite !list_to_map_app, !lookup_union.
  assert (∀ k v, k ≠ key →
    list_to_map (M := gmap string string)
      (match tk_environment task !! k with Some _ => [] | None => [(k, v)] end) !! key = None) as Hne.
  { intros k v Hk. destruct (tk_environment task !! k); cbn; [apply lookup_empty|].
    by rewrite lookup_insert_ne. }
  assert (∀ v, list_to_map (M := gmap string string)
      (match tk_environment task !! key with Some _ => [] | None => [(key, v)] end) !! key = Some v) as Heq.
  { intros v. rewrite E. cbn. by rewrite lookup_insert_eq. }
  repeat case_bool_decide; subst.
  - by rewrite Heq, !Hne.
  - destruct H1 as [->| ->]; by rewrite Heq, !Hne.
  - rewrite !Hne; [done|naive_solver..].
Qed.
End guarantees.

(** * A concrete account database *)

Definition demo_builder : UserInfo :=
  {| ui_username := "builder"; ui_uid := 1000; ui_gid := 1000; ui_home_dir := "/home/builder" |}.

(** It needs a 2048-byte buffer and the C library suggests 1024. *)
#[export] Instance demo_accounts : AccountDb := {|
  sysconf_getpw_size := 1024;
  sysconf_getgr_size := (-1)%Z;
  getpwuid_r uid buf := if buf <? 2048 then Erange
                        else if uid =? 1000 then Found demo_builder else NoEntry;
  getpwnam_r name buf := if buf <? 2048 then Erange
                         else if bool_decide (name = "builder") then Found demo_builder else NoEntry;
  getgrnam_r name buf := NoEntry;
|}.

Definition demo_daemon : cred := {| cr_ruid := 0; cr_euid := 0; cr_gid := 0; cr_groups := [0] |}.

Lemma preflighted_tasks_unprivileged_witness :
  cr_euid {| cr_ruid := 1000; cr_euid := 1000; cr_gid := 1000; cr_groups := [1000; 27] |} ≠ 0.
Proof.
  apply (preflighted_tasks_unprivileged 0 demo_config (λ _, None) (λ _ gid, [gid; 27])
    {| ra_user := demo_builder; ra_gid := 1000; ra_set_ids := true |} demo_daemon).
  - by vm_compute.
  - by vm_compute.
  - by vm_compute.
  - by vm_compute.
Defined.
