(* ===== verification/Output.v ===== *)
(** What the threads of one running task share ([src/src/build.rs]): the bounded
    event channel to the client, the byte count of the output, the threads that
    relay the program's output, the ones that feed its input and the bridge that
    passes a session's events on to its client.

    Each thread is a state machine whose transitions are its atomic operations on
    the shared state; the transitions are interleaved with the calls of the thread
    that runs the task. *)
From Stdlib Require Import Ascii.
From stdpp Require Import base option strings numbers list gmap.
From S2P Require Import Prelude Effects RustStr Protocol Accounts Archive Config RunAs Process.

Local Open Scope N_scope.

Definition OUTPUT_CHUNK_SIZE : nat := 4096.
Definition OUTPUT_FORWARD_GRACE : N := secs 2.
Definition BRIDGE_SHUTDOWN_GRACE : N := secs 3.

Inductive StreamKind := Stdout | Stderr.

(** Where a relaying thread is in [stream_output]: reading; at the top of
    [forward_output]'s loop; about to [try_send]; about to set [output_exceeded];
    about to cancel; done. *)
Inductive reader_state :=
| Reading
| Checking (data : string) (deadline : N)
| Sending (data : string) (deadline : N)
| Exceeding
| Cancelling
| Done.

Record reader := Reader { rd_kind : StreamKind; rd_state : reader_state }.

(** A thread of [spawn_stdin_writer]: its input, how much of it has been written,
    whether it was told to stop and the result it sent. *)
Record writer := Writer {
  wr_input : string;
  wr_written : nat;
  wr_stop : bool;
  wr_result : option (result io_error unit);
}.

(** A program the daemon has started: what it runs, in which directory and
    environment and as whom; and the process group that existed just before. *)
Record image := Image {
  im_program : string;
  im_args : list string;
  im_cwd : string;
  im_env : gmap string string;
  im_stdin : bool;
  im_cred : cred;
  im_previous : group;
}.

(** What a session's client is sent, by its starting and by its actions. *)
Inductive session_item :=
| StartItem (event : SessionStartEvent)
| ActionItem (event : SessionActionEvent).

(** The bounded channel to a session's client: the events it accepted, how many
    of them the client has taken, and whether the client has left. *)
Record outbox := Outbox {
  ob_capacity : nat;
  ob_sent : list session_item;
  ob_taken : nat;
  ob_closed : bool;
}.

(** The thread that receives a session's phase events: it passes them on to the
    client of the start or of the action, or throws those of the teardown away. *)
Inductive bridge_kind := StartBridge | ActionBridge | TeardownDrain.

(** Where it is: about to [try_recv]; having found the channel empty; at the top of
    the loop that sends an event on; about to [try_send] it; about to cancel;
    returned. *)
Inductive bridge_state :=
| BridgeReceives
| BridgeIdles
| BridgeChecks (item : session_item) (deadline : N)
| BridgeOffers (item : session_item) (deadline : N)
| BridgeCancels
| BridgeReturned.

(** With the flag it is stopped by, and whether the task's own sender was dropped. *)
Record bridge := Bridge {
  br_kind : bridge_kind;
  br_stop : bool;
  br_dropped : bool;
  br_state : bridge_state;
}.

Record relay := Relay { rl_outbox : outbox; rl_bridge : option bridge }.

(** A build's client reads the channel itself. *)
Definition no_relay : relay := Relay (Outbox 0 [] 0 false) None.

Record Shared := mkShared {
  (** [output_bytes] and [output_exceeded] *)
  sh_bytes : N;
  sh_exceeded : bool;
  (** every event accepted by the channel, oldest first, and how many of them the
      client has taken *)
  sh_sent : list ResponseEvent;
  sh_taken : nat;
  sh_closed : bool;
  sh_readers : list reader;
  sh_writers : list writer;
  sh_images : list image;
  (** a session's client and the bridge to it *)
  sh_relay : relay;
}.

Definition set_bytes (n : N) (s : Shared) : Shared :=
  mkShared n (sh_exceeded s) (sh_sent s) (sh_taken s) (sh_closed s) (sh_readers s) (sh_writers s) (sh_images s) (sh_relay s).
Definition set_exceeded (s : Shared) : Shared :=
  mkShared (sh_bytes s) true (sh_sent s) (sh_taken s) (sh_closed s) (sh_readers s) (sh_writers s) (sh_images s) (sh_relay s).
Definition push_event (e : ResponseEvent) (s : Shared) : Shared :=
  mkShared (sh_bytes s) (sh_exceeded s) (sh_sent s ++ [e]) (sh_taken s) (sh_closed s) (sh_readers s)
    (sh_writers s) (sh_images s) (sh_relay s).
Definition set_taken (n : nat) (s : Shared) : Shared :=
  mkShared (sh_bytes s) (sh_exceeded s) (sh_sent s) n (sh_closed s) (sh_readers s) (sh_writers s) (sh_images s) (sh_relay s).
Definition set_closed (s : Shared) : Shared :=
  mkShared (sh_bytes s) (sh_exceeded s) (sh_sent s) (sh_taken s) true (sh_readers s) (sh_writers s) (sh_images s) (sh_relay s).
Definition set_readers (l : list reader) (s : Shared) : Shared :=
  mkShared (sh_bytes s) (sh_exceeded s) (sh_sent s) (sh_taken s) (sh_closed s) l (sh_writers s) (sh_images s) (sh_relay s).
Definition set_writers (l : list writer) (s : Shared) : Shared :=
  mkShared (sh_bytes s) (sh_exceeded s) (sh_sent s) (sh_taken s) (sh_closed s) (sh_readers s) l (sh_images s) (sh_relay s).
Definition push_image (i : image) (s : Shared) : Shared :=
  mkShared (sh_bytes s) (sh_exceeded s) (sh_sent s) (sh_taken s) (sh_closed s) (sh_readers s)
    (sh_writers s) (sh_images s ++ [i]) (sh_relay s).
Definition set_relay (r : relay) (s : Shared) : Shared :=
  mkShared (sh_bytes s) (sh_exceeded s) (sh_sent s) (sh_taken s) (sh_closed s) (sh_readers s)
    (sh_writers s) (sh_images s) r.

(** * The channel *)

Inductive send_outcome := SendOk | SendClosed | SendFull.

Section threads.
(** The channel's capacity and [build.max_output_bytes]. *)
Context (capacity : nat) (max_bytes : N).

Definition try_send (e : ResponseEvent) (s : Shared) : Shared * send_outcome :=
  if sh_closed s then (s, SendClosed)
  else if Nat.ltb (length (sh_sent s) - sh_taken s) capacity then (push_event e s, SendOk)
  else (s, SendFull).

(** * Relaying output *)

Definition output_event (kind : StreamKind) (chunk : string) : ResponseEvent :=
  match kind with
  | Stdout => RStdout (from_utf8_lossy chunk)
  | Stderr => RStderr (from_utf8_lossy chunk)
  end.

(** What [read] returns: bytes (none at the end of the stream) or an error. *)
Inductive read_result := ReadBytes (data : string) | ReadError.

(** [fetch_add] on an [AtomicU64] wraps around. *)
Definition wrapping_add (a b : N) : N := (a + b) mod (u64_max + 1).

(** One atomic step of [stream_output] and [forward_output]; the flag is the one
    the thread sees, and the result says whether it sets it. *)
Definition reader_step (now : N) (cancelled : bool) (input : read_result) (r : reader) (s : Shared) :
    reader * Shared * bool :=
  let goto st := Reader (rd_kind r) st in
  match rd_state r with
  | Reading =>
      match input with
      | ReadError => (goto Done, s, false)
      | ReadBytes data =>
          let data := String.substring 0 OUTPUT_CHUNK_SIZE data in
          if is_empty data then (goto Done, s, false)
          else
            let previous := sh_bytes s in
            let s := set_bytes (wrapping_add previous (len data)) s in
            if max_bytes <? saturating_add previous (len data) then (goto Exceeding, s, false)
            else (goto (Checking data (now + OUTPUT_FORWARD_GRACE)), s, false)
      end
  | Exceeding => (goto Cancelling, set_exceeded s, false)
  | Cancelling => (goto Done, s, true)
  | Checking data deadline =>
      if cancelled then (goto Cancelling, s, false) else (goto (Sending data deadline), s, false)
  | Sending data deadline =>
      match try_send (output_event (rd_kind r) data) s with
      | (s, SendOk) => (goto Reading, s, false)
      | (s, SendClosed) => (goto Cancelling, s, false)
      | (s, SendFull) =>
          if deadline <=? now then (goto Cancelling, s, false)
          else (goto (Checking data deadline), s, false)
      end
  | Done => (r, s, false)
  end.

(** * Feeding input *)

(** What a nonblocking [write] on the pipe answers. *)
Inductive write_answer := WriteBytes (n : nat) | BrokenPipe | WouldBlock | WriteError.

(** One iteration of the loop in [spawn_stdin_writer]. *)
Definition writer_step (cancelled : bool) (answer : write_answer) (w : writer) : writer :=
  let finish written r := Writer (wr_input w) written (wr_stop w) (Some r) in
  match wr_result w with
  | Some _ => w
  | None =>
      if wr_stop w || cancelled then finish (wr_written w) (Ok tt)
      else match answer with
           | WriteBytes n =>
               let n := Nat.min n (String.length (wr_input w) - wr_written w) in
               if Nat.eqb n 0 then finish (wr_written w) (Err (IoError WriteZero "task stdin closed"))
               else if Nat.eqb (wr_written w + n) (String.length (wr_input w))
                    then finish (wr_written w + n)%nat (Ok tt)
                    else Writer (wr_input w) (wr_written w + n) (wr_stop w) None
           | BrokenPipe => finish (wr_written w) (Ok tt)
           | WouldBlock => w
           | WriteError => finish (wr_written w) (Err (IoError OtherKind "write"))
           end
  end.

(** * Passing a session's events on *)

Definition start_item (e : ResponseEvent) : option session_item :=
  match e with
  | RBuild id status phase duration_ms exit_code timed_out =>
      if bool_decide (status = "phase_started")
      then Some (StartItem (SSession id PhaseStarted phase duration_ms exit_code timed_out))
      else if bool_decide (status = "phase_finished")
      then Some (StartItem (SSession id PhaseFinished phase duration_ms exit_code timed_out))
      else None
  | RStdout data => Some (StartItem (SStdout data))
  | RStderr data => Some (StartItem (SStderr data))
  | RError code message _ phase => Some (StartItem (SError code message phase))
  | RExit _ _ _ _ _ _ => None
  end.

Definition action_item (e : ResponseEvent) : option session_item :=
  match e with
  | RStdout data => Some (ActionItem (AStdout data))
  | RStderr data => Some (ActionItem (AStderr data))
  | _ => None
  end.

Definition bridge_item (kind : bridge_kind) : ResponseEvent → option session_item :=
  match kind with
  | StartBridge => start_item
  | ActionBridge => action_item
  | TeardownDrain => λ _, None
  end.

(** [try_send] on the client's channel. *)
Definition try_offer (item : session_item) (s : Shared) : Shared * send_outcome :=
  let o := rl_outbox (sh_relay s) in
  if ob_closed o then (s, SendClosed)
  else if Nat.ltb (length (ob_sent o) - ob_taken o) (ob_capacity o)
  then (set_relay (Relay (Outbox (ob_capacity o) (ob_sent o ++ [item]) (ob_taken o) (ob_closed o))
                     (rl_bridge (sh_relay s))) s, SendOk)
  else (s, SendFull).

Definition set_bridge (b : bridge) (s : Shared) : Shared :=
  set_relay (Relay (rl_outbox (sh_relay s)) (Some b)) s.

Definition bridged (s : Shared) : bool := is_some (rl_bridge (sh_relay s)).

(** Every sender of the channel is gone: the task's own and those of the threads
    that relay output. *)
Definition senders_gone (b : bridge) (s : Shared) : bool :=
  br_dropped b &&
  forallb (λ r, match rd_state r with Done => true | _ => false end) (sh_readers s).

(** One atomic step of the bridge; a bridge that returns drops its receiver. That
    [send_session_response] and [send_action_response] set the flag as well before
    the bridge does is one step here. *)
Definition bridge_step (now : N) (cancelled : bool) (b : bridge) (s : Shared) : Shared * bool :=
  let goto st s := set_bridge (Bridge (br_kind b) (br_stop b) (br_dropped b) st) s in
  let quit s := set_closed (goto BridgeReturned s) in
  match br_state b with
  | BridgeReceives =>
      match sh_sent s !! sh_taken s with
      | Some event =>
          let s := set_taken (S (sh_taken s)) s in
          match bridge_item (br_kind b) event with
          | Some item => (goto (BridgeChecks item (now + OUTPUT_FORWARD_GRACE)) s, false)
          | None => (goto BridgeReceives s, false)
          end
      | None => if senders_gone b s then (quit s, false) else (goto BridgeIdles s, false)
      end
  | BridgeIdles =>
      let leave := match br_kind b with TeardownDrain => br_stop b | _ => br_stop b || cancelled end in
      if leave then (quit s, false) else (goto BridgeReceives s, false)
  | BridgeChecks item deadline =>
      if cancelled then (goto BridgeCancels s, false) else (goto (BridgeOffers item deadline) s, false)
  | BridgeOffers item deadline =>
      match try_offer item s with
      | (s, SendOk) => (goto BridgeReceives s, false)
      | (s, SendClosed) => (goto BridgeCancels s, false)
      | (s, SendFull) =>
          if deadline <=? now then (goto BridgeCancels s, false)
          else (goto (BridgeChecks item deadline) s, false)
      end
  | BridgeCancels => (quit s, true)
  | BridgeReturned => (s, false)
  end.

Definition outbox_step (f : outbox → outbox) (s : Shared) : Shared :=
  set_relay (Relay (f (rl_outbox (sh_relay s))) (rl_bridge (sh_relay s))) s.

(** * The other threads together *)

Inductive thread_move :=
| ReaderMoves (i : nat) (input : read_result)
| WriterMoves (i : nat) (answer : write_answer)
| ClientTakes
| ClientDrains
| ClientLeaves
| FlagRaised
| BridgeMoves
| SessionTakes
| SessionLeaves.

Definition thread_step (now : N) (cs : bool * Shared) (mv : thread_move) : bool * Shared :=
  let '(c, s) := cs in
  match mv with
  | ReaderMoves i input =>
      match sh_readers s !! i with
      | None => (c, s)
      | Some r =>
          let '(r, s, set) := reader_step now c input r s in
          (c || set, set_readers (<[i := r]> (sh_readers s)) s)
      end
  | WriterMoves i answer =>
      match sh_writers s !! i with
      | None => (c, s)
      | Some w => (c, set_writers (<[i := writer_step c answer w]> (sh_writers s)) s)
      end
  (* the client of a build; a bridge has the receiver to itself *)
  | ClientTakes =>
      (c, if bridged s then s else set_taken (Nat.min (S (sh_taken s)) (length (sh_sent s))) s)
  | ClientDrains => (c, if bridged s then s else set_taken (length (sh_sent s)) s)
  | ClientLeaves => (c, if bridged s then s else set_closed s)
  | FlagRaised => (true, s)
  | BridgeMoves =>
      match rl_bridge (sh_relay s) with
      | None => (c, s)
      | Some b => let '(s, set) := bridge_step now c b s in (c || set, s)
      end
  | SessionTakes =>
      (c, outbox_step (λ o, Outbox (ob_capacity o) (ob_sent o)
                              (Nat.min (S (ob_taken o)) (length (ob_sent o))) (ob_closed o)) s)
  | SessionLeaves =>
      (c, outbox_step (λ o, Outbox (ob_capacity o) (ob_sent o) (ob_taken o) true) s)
  end.

(** What happens around one call of the task's thread. *)
Record task_move := TaskMove {
  tm_time : N;
  tm_events : list proc_event;
  tm_threads : list thread_move;
  tm_fault : option kill_fault;
}.

Definition move_of (t : task_move) : move Shared :=
  mkMove (tm_time t) (tm_events t)
    (λ now c s, let '(c', s') := foldl (thread_step now) (c, s) (tm_threads t) in (s', c'))
    (tm_fault t).
End threads.

(** What a step of the bridge leaves alone: all but the channels, and of the task's
    channel the events it holds. *)
Definition task_view (s : Shared) :=
  (sh_bytes s, sh_exceeded s, sh_sent s, sh_readers s, sh_writers s, sh_images s).

Lemma bridge_step_view now c b s : task_view (bridge_step now c b s).1 = task_view s.
Proof.
  unfold bridge_step. destruct (br_state b); try done.
  - destruct (_ !! _); [by destruct (bridge_item _ _)|by destruct (senders_gone _ _)].
  - by destruct (match br_kind b with TeardownDrain => _ | _ => _ end).
  - by destruct c.
  - unfold try_offer. destruct (ob_closed _); [done|]. destruct (Nat.ltb _ _); [done|]. by destruct (_ <=? _).
Qed.
