(* ===== verification/Artifacts.v ===== *)
(** [src/src/artifacts.rs]: selecting, opening and archiving the files a task
    leaves behind, and collecting old archives. *)
From Stdlib Require Import Ascii.
From stdpp Require Import base option strings numbers list gmap pretty sorting.
From S2P Require Import Prelude Effects RustStr Validation Fs Posix Protocol Accounts Archive Config RunAs.

Local Open Scope N_scope.

Inductive ArtifactError :=
| GlobMiss (pattern : string)
| GlobPattern (pattern : string) (source : string)
| OutsideRoot (path : string)
| ArtifactIo (context : string) (source : os_error)
| ZipFailed (source : string)
| InvalidPattern (message : string)
| TransferTooLarge (max_bytes : N)
| UncompressedTooLarge (max_bytes : N)
| TooManyFiles (max_files : N)
| TooDeep (max_depth : N)
| ArtifactCancelled
| UnsupportedFile (path : string).

Definition quote : string := String (ascii_of_N 34) EmptyString.
Definition debug_path (path : string) : string := quote +:+ path +:+ quote.

Definition os_error_message (e : os_error) : string :=
  match e with
  | ENOENT => "No such file or directory"
  | EEXIST => "File exists"
  | ENOTDIR => "Not a directory"
  | EISDIR => "Is a directory"
  | ELOOP => "Too many levels of symbolic links"
  | EIO => "Input/output error"
  | Other message => message
  end.

(** The messages [thiserror] derives ([{path:?}] quotes the path). *)
Definition ArtifactError_to_string (e : ArtifactError) : string :=
  match e with
  | GlobMiss pattern => "artifact pattern " +:+ pattern +:+ " matched nothing"
  | GlobPattern pattern source => "invalid artifact glob pattern " +:+ pattern +:+ ": " +:+ source
  | OutsideRoot path => "artifact path " +:+ debug_path path +:+ " is outside build root"
  | ArtifactIo context source => "artifact io error (" +:+ context +:+ "): " +:+ os_error_message source
  | ZipFailed source => "failed to zip artifacts: " +:+ source
  | InvalidPattern message => "invalid artifact pattern: " +:+ message
  | TransferTooLarge max_bytes =>
      "artifact archive exceeds artifacts.max_transfer_bytes (" +:+ pretty max_bytes +:+ " bytes)"
  | UncompressedTooLarge max_bytes =>
      "artifact contents exceed artifacts.max_uncompressed_bytes (" +:+ pretty max_bytes +:+ " bytes)"
  | TooManyFiles max_files => "artifact file count exceeds artifacts.max_files (" +:+ pretty max_files +:+ ")"
  | TooDeep max_depth => "artifact path depth exceeds artifacts.max_depth (" +:+ pretty max_depth +:+ ")"
  | ArtifactCancelled => "artifact snapshot cancelled"
  | UnsupportedFile path =>
      "artifact path " +:+ debug_path path +:+ " is a symlink or unsupported special file"
  end.

Record ArtifactCollection := {
  ac_archive : option ArtifactArchive;
  ac_restrictions : option ArtifactRestrictions;
}.

Definition INTERNAL_EXCLUDE_PATTERN : string := ".indentured-server/**".
Definition TRANSFER_LIMIT_SENTINEL : string := "artifacts.max_transfer_bytes exceeded".

(** * Relative paths

    A path relative to the workspace is its list of components: [PathBuf]s are
    equal, and hash alike, when their components do. *)

Abbreviation rel_path := (list component).

Definition component_str (c : component) : string :=
  match c with RootDir => "" | CurDir => "." | ParentDir => ".." | Normal n => n end.
(** The path as text: components separated by one slash. *)
Definition path_str (p : rel_path) : string := join slash (component_str <$> p).
(** [Path::to_string_lossy]. *)
Definition lossy (p : rel_path) : string := from_utf8_lossy (path_str p).

(** [Path::strip_prefix]. *)
Definition path_strip_prefix (base : string) (p : string) : option rel_path :=
  if path_starts_with p base then Some (drop (length (components base)) (components p)) else None.

(** [Path::starts_with]. *)
Definition rel_starts_with (p base : rel_path) : bool := bool_decide (take (length base) p = base).

(** [Ord] on paths: component by component, names by their bytes. *)
Definition component_rank (c : component) : N :=
  match c with RootDir => 0 | CurDir => 1 | ParentDir => 2 | Normal _ => 3 end.
Definition compare_components (c d : component) : comparison :=
  match c, d with
  | Normal m, Normal n => String.compare m n
  | _, _ => N.compare (component_rank c) (component_rank d)
  end.
Fixpoint compare_paths (p q : rel_path) : comparison :=
  match p, q with
  | [], [] => Eq
  | [], _ :: _ => Lt
  | _ :: _, [] => Gt
  | c :: p, d :: q =>
      match compare_components c d with
      | Eq => compare_paths p q
      | o => o
      end
  end.
Definition path_le (p q : rel_path) : Prop := compare_paths p q ≠ Gt.
#[export] Instance path_le_dec : RelDecision path_le.
Proof. intros p q. unfold path_le. destruct (compare_paths p q); [left|left|right]; congruence. Defined.

(** * Patterns *)

Section patterns.
Context `{Glob}.

Definition compile_pattern (field pattern : string) : result ArtifactError Pattern :=
  _ ← map_err (λ e, InvalidPattern (ValidationError_to_string e)) (validate_relative_pattern pattern field);
  map_err (GlobPattern pattern) (Pattern_new pattern).

Fixpoint compile_patterns (patterns : list string) (field : string) : result ArtifactError (list Pattern) :=
  match patterns with
  | [] => Ok []
  | pattern :: patterns =>
      glob ← compile_pattern field pattern;
      globs ← compile_patterns patterns field;
      Ok (glob :: globs)
  end.

Definition is_excluded (path : rel_path) (patterns : list Pattern) : bool :=
  existsb (λ pattern, Pattern_matches pattern (lossy path)) patterns.

Definition is_included (path : rel_path) (patterns : list Pattern) : bool :=
  existsb (λ pattern,
    existsb (λ candidate, Pattern_matches pattern (lossy candidate))
      (filter (λ ancestor : rel_path, ancestor ≠ []) (ancestors path))) patterns.
End patterns.

(** * The part of the workspace that is walked *)

Definition is_glob_byte (a : ascii) : bool :=
  byte_eqb a "*" || byte_eqb a "?" || byte_eqb a "[".
Definition has_glob_byte (s : string) : bool := negb (all_bytes (λ a, negb (is_glob_byte a)) s).

(** The literal components before the first one with a metacharacter. *)
Fixpoint literal_prefix (cs : list component) : rel_path :=
  match cs with
  | CurDir :: cs => literal_prefix cs
  | Normal part :: cs => if has_glob_byte part then [] else Normal part :: literal_prefix cs
  | _ => []
  end.

Definition shorter (p q : rel_path) : Prop := (length p ≤ length q)%nat.
#[export] Instance shorter_dec : RelDecision shorter := λ p q, decide (length p ≤ length q)%nat.

(** [for prefix in prefixes { if !minimal.any(..) { minimal.push(prefix) } }]. *)
Definition minimal_prefixes (prefixes : list rel_path) : list rel_path :=
  foldl (λ minimal prefix,
    if existsb (rel_starts_with prefix) minimal then minimal else minimal ++ [prefix]) [] prefixes.

Definition artifact_walk_prefixes (include_patterns : list string) : list rel_path :=
  minimal_prefixes (merge_sort shorter ((λ p, literal_prefix (components p)) <$> include_patterns)).

(** The predicate of [filter_entry]. *)
Definition walk_keeps (prefixes : list rel_path) (build_root path : string) : bool :=
  match path_strip_prefix build_root path with
  | None => true
  | Some rel =>
      bool_decide (rel = []) ||
      existsb (λ prefix, rel_starts_with prefix rel || rel_starts_with rel prefix) prefixes
  end.

(** * Limits *)

Record TraversalLimits := { tl_observed : gset rel_path; tl_max_files : N; tl_max_depth : N }.

Definition TraversalLimits_new (max_files max_depth : N) : TraversalLimits :=
  {| tl_observed := ∅; tl_max_files := max_files; tl_max_depth := max_depth |}.

Definition depth (p : rel_path) : N := N.of_nat (length p).

Definition observe (relative : rel_path) (t : TraversalLimits) : result ArtifactError TraversalLimits :=
  if tl_max_depth t <? depth relative then Err (TooDeep (tl_max_depth t))
  else if bool_decide (relative ∈ tl_observed t) then Ok t
  else if tl_max_files t <=? N.of_nat (size (tl_observed t)) then Err (TooManyFiles (tl_max_files t))
  else Ok {| tl_observed := {[ relative ]} ∪ tl_observed t; tl_max_files := tl_max_files t;
             tl_max_depth := tl_max_depth t |}.

(** The files found so far, with the identity each had. *)
Abbreviation matched := (gmap rel_path FileIdentity).

Definition fold_key (path : rel_path) : string := to_ascii_lowercase (lossy path).

Definition validate_artifact_count_and_depth (files : matched) (max_files max_depth : N) :
    result ArtifactError unit :=
  _ ← reject_if (max_files <? N.of_nat (size files)) (TooManyFiles max_files);
  _ ← reject_if (existsb (λ p, max_depth <? depth p) (map_to_list files).*1) (TooDeep max_depth);
  _ ← fold_each (λ (folded : gset string) path,
        if bool_decide (fold_key path ∈ folded) then Err (UnsupportedFile (path_str path))
        else Ok ({[ fold_key path ]} ∪ folded)) ∅ (map_to_list files).*1;
  Ok tt.

(** * Collecting *)

Record OpenedArtifact := {
  oa_file : FileIdentity;
  oa_relative : rel_path;
  oa_mode : N;
  oa_size : N;
}.

(** What [walkdir] yields for an entry: its path and type, or an error. *)
Abbreviation walk_item := (result string (string * file_kind)).

(** [stat] of an inode: its metadata and its length. *)
Definition stat_of (i : FileIdentity) (n : node) : TargetMetadata * N :=
  (metadata_of i n, len (nd_data n)).

Definition is_kind (k : file_kind) (m : TargetMetadata) : bool :=
  N.land (tg_mode m) o170000 =? kind_bits k.

Section collect.
Context `{Glob} (orc : nat → answer).
(** The kernel's resolution of a path whose last component is not followed. *)
Context (lresolve : string → FS → result os_error FileIdentity).
(** The [walkdir] crate: the entries below a path that a filter keeps. *)
Context (walk : string → (string → bool) → World → list walk_item).
(** Whether the caller's [cancelled] reads a flag ([collect_artifacts_zip] passes
    [|| false]). *)
Context (cancellable : bool).

Abbreviation io := (io (halt ArtifactError)).

Definition in_context {A} (context : string) (m : Posix.io os_error A) : io A :=
  io_map_err (λ e, Raised (ArtifactIo context e)) m.
Definition of_result {A} (r : result ArtifactError A) : io A := io_lift (map_err Raised r).

Definition check_cancelled : io unit :=
  if cancellable then
    cancelled ← flag_is_cancelled orc;
    io_reject cancelled (Raised ArtifactCancelled)
  else mret tt.

Definition lookup_node (i : FileIdentity) (fs : FS) : result os_error (TargetMetadata * N) :=
  match fs !! i with None => Err ENOENT | Some n => Ok (stat_of i n) end.

(** [fs::symlink_metadata]. *)
Definition symlink_metadata (path : string) : Posix.io os_error (TargetMetadata * N) :=
  syscall orc (λ _ fs, (fs, i ← lresolve path fs; lookup_node i fs)).

(** [open(O_DIRECTORY | O_NOFOLLOW)]. *)
Definition open_directory (path : string) : Posix.io os_error FileIdentity :=
  syscall orc (λ _ fs, (fs,
    i ← lresolve path fs;
    m ← lookup_node i fs;
    if is_kind Directory m.1 then Ok i else Err ENOTDIR)).

(** [File::metadata]. *)
Definition file_metadata (i : FileIdentity) : Posix.io os_error (TargetMetadata * N) :=
  syscall orc (λ _ fs, (fs, match fs !! i with None => Err EIO | Some n => Ok (stat_of i n) end)).

(** [openat(dir, name, O_RDONLY | O_NOFOLLOW)].  Opening a named pipe waits for a
    process that writes to it, and none may come. *)
Definition openat_file (d : FileIdentity) (name : string) : io FileIdentity := λ w,
  let '(w', r) := openat_read orc d name w in
  (w', match r with
       | Ok i => if bool_decide (nd_kind <$> w_fs w' !! i = Some Fifo) then Err Diverged else Ok i
       | Err e => Err (Raised (ArtifactIo "open artifact beneath root" e))
       end).

Definition require_regular_file (path : string) : io TargetMetadata :=
  m ← in_context "inspect artifact path" (symlink_metadata path);
  _ ← io_reject (negb (is_kind Regular m.1)) (Raised (UnsupportedFile path));
  mret m.1.

(** One entry of the walk. *)
Definition visit (build_root : string) (exclude_patterns include_patterns : list Pattern)
    (s : TraversalLimits * matched) (item : walk_item) : io (TraversalLimits * matched) :=
  let '(traversal, files) := s in
  _ ← check_cancelled;
  '(path, kind) ← of_result (map_err (λ e, ArtifactIo "walk artifact root" (Other e)) item);
  rel ← of_result (ok_or (path_strip_prefix build_root path) (OutsideRoot path));
  if bool_decide (rel = []) then mret (traversal, files)
  else
    traversal ← of_result (observe rel traversal);
    if bool_decide (kind = Directory) then mret (traversal, files)
    else if is_excluded rel exclude_patterns || negb (is_included rel include_patterns)
    then mret (traversal, files)
    else
      metadata ← require_regular_file path;
      mret (traversal, match files !! rel with
                       | Some _ => files
                       | None => <[rel := tg_identity metadata]> files
                       end).

(** Which of the files a restricted pattern matches. *)
Definition restricted_by (compiled : list Pattern) (path : rel_path) : list nat :=
  (filter (λ x : nat * Pattern, Pattern_matches x.2 (lossy path) = true) (imap pair compiled)).*1.

Definition apply_restricted_patterns (files : matched) (restricted_patterns : list string) (field : string) :
    io (matched * option ArtifactRestrictions) :=
  if bool_decide (restricted_patterns = []) || bool_decide (files = ∅) then mret (files, None)
  else
    compiled ← of_result (compile_patterns restricted_patterns field);
    '(restricted_paths, indexes) ←
      io_fold (λ '(paths, indexes) rel,
        _ ← check_cancelled;
        let hits := restricted_by compiled rel in
        mret (if bool_decide (hits = []) then paths else {[ rel ]} ∪ paths, list_to_set hits ∪ indexes))
        (∅ : gset rel_path, ∅ : gset nat) (map_to_list files).*1;
    if bool_decide (restricted_paths = ∅) then mret (files, None)
    else
      mret (filter (λ f, f.1 ∉ restricted_paths) files,
            Some {| omitted_count := N.of_nat (size restricted_paths);
                    matched_patterns :=
                      (filter (λ x : nat * string, x.1 ∈ indexes) (imap pair restricted_patterns)).*2 |}).

(** [open_file_beneath]: one [openat] per component, no symbolic link followed. *)
Fixpoint open_beneath (relative : rel_path) (names : rel_path) (current : FileIdentity) : io FileIdentity :=
  match names with
  | Normal name :: rest =>
      _ ← io_reject (negb (cstring_ok name)) (Raised (UnsupportedFile (path_str relative)));
      match rest with
      | [] => openat_file current name
      | _ :: _ =>
          opened ← in_context "open artifact beneath root" (openat_directory orc current name);
          metadata ← in_context "inspect artifact directory" (file_metadata opened);
          _ ← io_reject (negb (is_kind Directory metadata.1)) (Raised (UnsupportedFile (path_str relative)));
          open_beneath relative rest opened
      end
  | _ => io_fail Diverged
  end.

Definition open_file_beneath (root : FileIdentity) (relative : rel_path) : io FileIdentity :=
  _ ← io_reject (bool_decide (relative = []) || negb (forallb is_normal relative))
        (Raised (UnsupportedFile (path_str relative)));
  open_beneath relative relative root.

Definition open_matched (root : FileIdentity) (files : matched) (relative : rel_path) : io OpenedArtifact :=
  _ ← check_cancelled;
  file ← open_file_beneath root relative;
  metadata ← in_context "inspect opened artifact" (file_metadata file);
  expected ← io_lift (ok_or (files !! relative) Diverged);
  _ ← io_reject (negb (is_kind Regular metadata.1) || negb (bool_decide (tg_identity metadata.1 = expected)))
        (Raised (UnsupportedFile (path_str relative)));
  _ ← in_context "rewind opened artifact" (syscall orc (λ _ fs, (fs, Ok tt)));
  mret {| oa_file := file; oa_relative := relative; oa_mode := tg_mode metadata.1; oa_size := metadata.2 |}.

Definition open_matched_artifacts (root : FileIdentity) (files : matched) : io (list OpenedArtifact) :=
  io_fold (λ opened relative, artifact ← open_matched root files relative; mret (opened ++ [artifact])) []
    (merge_sort path_le (map_to_list files).*1).
End collect.
