(* ===== verification/ArtifactZip.v ===== *)
(** Writing and publishing an artifact archive ([src/src/artifacts.rs]). *)
From Stdlib Require Import Ascii.
From stdpp Require Import base option strings numbers list gmap sorting.
From S2P Require Import Prelude Effects RustStr Fs Posix Protocol Config Artifacts.

Local Open Scope N_scope.

(** * The archive file *)

(** What an archive writer does to the file beneath it. *)
Inductive file_op := OpWrite (data : string) | OpSeek (pos : N).

(** The [zip] crate's writer: the bytes each call writes, and where. *)
Class ZipWriter := {
  zip : Type;
  zip_new : zip;
  zip_start_file : string → N → zip → result string (zip * list file_op);
  zip_write : string → zip → zip * list file_op;
  zip_finish : zip → result string (list file_op);
}.

(** [LimitedWriter] over a file: the bytes written so far, the limit and the file
    position. *)
Record LimitedWriter := {
  lw_bytes_written : N;
  lw_max_bytes : N;
  lw_pos : N;
}.

(** [&s[pos..][..n]], as much of it as there is. *)
Definition slice (pos n : nat) (s : string) : string :=
  String.string_of_list_ascii (take n (drop pos (String.list_ascii_of_string s))).

(** The file after [chunk] was written at [pos]; a gap before it reads as zeros. *)
Definition overwrite (pos : N) (chunk data : string) : string :=
  let p := N.to_nat pos in
  let c := String.list_ascii_of_string chunk in
  let d := String.list_ascii_of_string data in
  String.string_of_list_ascii (take p d ++ replicate (p - length d) nul ++ c ++ drop (p + length c) d).

(** How many of [n] bytes a [write] takes: all of them, or the part the machine
    answers. *)
Definition taken (a : answer) (n : nat) : nat :=
  match an_partial a with O => n | S k => Nat.min (S k) n end.

(** [str::replace('\\', "/")]. *)
Fixpoint unbackslash (s : string) : string :=
  match s with
  | EmptyString => EmptyString
  | String a s => String (if code a =? 92 then slash else a) (unbackslash s)
  end.

Definition is_transfer_limit_error (e : os_error) : bool :=
  bool_decide (e = Other TRANSFER_LIMIT_SENTINEL).

(** A failing archive call, as the writer reports it. *)
Definition zip_io_error (max_transfer_bytes : N) (e : os_error) : ArtifactError :=
  if is_transfer_limit_error e then TransferTooLarge max_transfer_bytes
  else ZipFailed (os_error_message e).
Definition write_error (max_transfer_bytes : N) (e : os_error) : ArtifactError :=
  if is_transfer_limit_error e then TransferTooLarge max_transfer_bytes
  else ArtifactIo "write artifact" e.

Definition READ_BUFFER : nat := N.to_nat 8192.

Section zip.
Context `{Glob, ZipWriter} (orc : nat → answer) (euid egid : N).
Context (lresolve : string → FS → result os_error FileIdentity).
Context (walk : string → (string → bool) → World → list walk_item).
Context (cancellable : bool).

Abbreviation io := (eff World (halt ArtifactError)).
Abbreviation os := (eff World os_error).
Abbreviation check_cancelled := (check_cancelled orc cancellable).

(** * File calls in the daemon's own storage *)

(** [File::create]. *)
Definition store_truncate (path : string) : os unit :=
  private_call orc (λ _ st, (match st !! path with
    | Some s => <[path := Stored "" (st_uid s) (st_gid s) (st_mode s)]> st
    | None => <[path := Stored "" euid egid o644]> st
    end, Ok tt)).

(** One [write] at a position. *)
Definition store_write (path : string) (pos : N) (buf : string) : os nat :=
  private_call orc (λ a st,
    let n := taken a (String.length buf) in
    (alter (λ s, Stored (overwrite pos (slice 0 n buf) (st_data s)) (st_uid s) (st_gid s) (st_mode s))
       path st, Ok n)).

Definition store_len (path : string) : os N :=
  private_call orc (λ _ st, (st, match st !! path with None => Err ENOENT | Some s => Ok (len (st_data s)) end)).

Definition store_rename (from to : string) : os unit :=
  private_call orc (λ _ st,
    match st !! from with
    | None => (st, Err ENOENT)
    | Some s => (<[to := s]> (delete from st), Ok tt)
    end).

(** [let _ = fs::remove_file(path)]. *)
Definition store_remove_file {E} (path : string) : eff World E unit :=
  _ ← io_try (private_call orc (λ _ st, (delete path st, Ok tt))); mret tt.

(** * The limited writer *)

Definition limited_write (dest : string) (lw : LimitedWriter) (buf : string) : os (LimitedWriter * nat) :=
  _ ← io_reject (lw_max_bytes lw <? saturating_add (lw_bytes_written lw) (len buf))
        (Other TRANSFER_LIMIT_SENTINEL);
  written ← store_write dest (lw_pos lw) buf;
  mret ({| lw_bytes_written := saturating_add (lw_bytes_written lw) (N.of_nat written);
           lw_max_bytes := lw_max_bytes lw; lw_pos := lw_pos lw + N.of_nat written |}, written).

(** [Write::write_all]; every [write] of a nonempty buffer takes a byte, so its
    length bounds the number of calls. *)
Fixpoint limited_write_all (fuel : nat) (dest : string) (lw : LimitedWriter) (buf : string) :
    os LimitedWriter :=
  if is_empty buf then mret lw
  else
    match fuel with
    | O => io_fail (Other "failed to write whole buffer")
    | S fuel =>
        '(lw, written) ← limited_write dest lw buf;
        limited_write_all fuel dest lw (slice written (String.length buf) buf)
    end.

Definition run_op (dest : string) (lw : LimitedWriter) (op : file_op) : os LimitedWriter :=
  match op with
  | OpWrite data => limited_write_all (String.length data) dest lw data
  | OpSeek pos =>
      _ ← store_sync orc;
      mret {| lw_bytes_written := lw_bytes_written lw; lw_max_bytes := lw_max_bytes lw; lw_pos := pos |}
  end.

Definition run_ops (dest : string) (lw : LimitedWriter) (ops : list file_op) : os LimitedWriter :=
  io_fold (run_op dest) lw ops.

(** * One artifact *)

(** [read] at the file's position. *)
Definition read_at (file : FileIdentity) (pos : nat) : os string :=
  syscall orc (λ _ fs, (fs, match fs !! file with
    | None => Err EIO
    | Some n => Ok (slice pos READ_BUFFER (nd_data n))
    end)).

(** The writers and the bytes read so far. *)
Record progress := Progress { pg_zip : zip; pg_writer : LimitedWriter; pg_uncompressed : N }.

Definition start_file (dest : string) (artifact : OpenedArtifact) (p : progress) : io progress :=
  let name := unbackslash (lossy (oa_relative artifact)) in
  '(z, ops) ← of_result (map_err ZipFailed (zip_start_file name (oa_mode artifact) (pg_zip p)));
  lw ← io_map_err (λ e, Raised (zip_io_error (lw_max_bytes (pg_writer p)) e)) (run_ops dest (pg_writer p) ops);
  mret (Progress z lw (pg_uncompressed p)).

(** One turn of the loop that copies the file's bytes. *)
Definition copy_chunk (dest : string) (max_uncompressed_bytes : N) (file : FileIdentity) (s : progress * nat) :
    io ((progress * nat) + progress) :=
  let '(p, pos) := s in
  _ ← check_cancelled;
  bytes ← in_context "read artifact" (read_at file pos);
  if is_empty bytes then mret (inr p)
  else
    let uncompressed_bytes := saturating_add (pg_uncompressed p) (len bytes) in
    _ ← io_reject (max_uncompressed_bytes <? uncompressed_bytes)
          (Raised (UncompressedTooLarge max_uncompressed_bytes));
    let '(z, ops) := zip_write bytes (pg_zip p) in
    lw ← io_map_err (λ e, Raised (write_error (lw_max_bytes (pg_writer p)) e)) (run_ops dest (pg_writer p) ops);
    mret (inl (Progress z lw uncompressed_bytes, (pos + String.length bytes)%nat)).

Definition copy_artifact (dest : string) (max_uncompressed_bytes : N) (p : progress)
    (artifact : OpenedArtifact) : io progress :=
  _ ← check_cancelled;
  p ← start_file dest artifact p;
  _ ← in_context "rewind artifact" (syscall orc (λ _ fs, (fs, Ok tt)));
  io_loop (copy_chunk dest max_uncompressed_bytes (oa_file artifact)) (p, O).

Definition artifact_le (a b : OpenedArtifact) : Prop := path_le (oa_relative a) (oa_relative b).
#[export] Instance artifact_le_dec : RelDecision artifact_le :=
  λ a b, decide (path_le (oa_relative a) (oa_relative b)).

(** The closure of [write_artifacts_zip].  (An unfinished writer is dropped on an
    error and may then append to the file, which is removed next.) *)
Definition write_archive (dest : string) (opened_artifacts : list OpenedArtifact)
    (max_transfer_bytes max_uncompressed_bytes : N) : io N :=
  _ ← in_context "create artifacts.zip" (store_truncate dest);
  p ← io_fold (copy_artifact dest max_uncompressed_bytes)
        (Progress zip_new {| lw_bytes_written := 0; lw_max_bytes := max_transfer_bytes; lw_pos := 0 |} 0)
        (merge_sort artifact_le opened_artifacts);
  ops ← of_result (map_err ZipFailed (zip_finish (pg_zip p)));
  _ ← io_map_err (λ e, Raised (zip_io_error max_transfer_bytes e)) (run_ops dest (pg_writer p) ops);
  _ ← in_context "flush artifact archive" (store_sync orc);
  in_context "stat artifact archive" (store_len dest).

Definition write_artifacts_zip (dest : string) (opened_artifacts : list OpenedArtifact)
    (max_transfer_bytes max_uncompressed_bytes : N) : io N :=
  r ← io_try (write_archive dest opened_artifacts max_transfer_bytes max_uncompressed_bytes);
  match r with
  | Ok size => mret size
  | Err Diverged => io_fail Diverged
  | Err (Raised e) => _ ← store_remove_file dest; io_fail (Raised e)
  end.

(** * The collection *)

Definition publish (dest temp_dest : string) (config : ArtifactsConfig) (opened : list OpenedArtifact) : io N :=
  _ ← check_cancelled;
  size ← write_artifacts_zip temp_dest opened (ar_max_transfer_bytes config)
           (ar_max_uncompressed_bytes config);
  _ ← in_context "protect artifact archive" (store_chmod orc temp_dest o600);
  _ ← check_cancelled;
  _ ← in_context "publish artifact archive" (store_rename temp_dest dest);
  _ ← check_cancelled;
  mret size.

(** The files the walk selects, and what the restricted patterns leave out. *)
Definition select_artifacts (build_root : string) (spec : ArtifactSpec) (config : ArtifactsConfig) :
    io (matched * option ArtifactRestrictions) :=
  exclude_patterns ← of_result (compile_patterns (as_exclude spec ++ [INTERNAL_EXCLUDE_PATTERN])
                                  "artifacts.exclude");
  include_patterns ← of_result (compile_patterns (as_include spec) "artifacts.include");
  let walk_prefixes := artifact_walk_prefixes (as_include spec) in
  items ← (λ w, (w, Ok (walk build_root (walk_keeps walk_prefixes build_root) w)));
  '(_, files) ← io_fold (visit orc lresolve cancellable build_root exclude_patterns include_patterns)
                  (TraversalLimits_new (ar_max_files config) (ar_max_depth config), ∅) items;
  apply_restricted_patterns orc cancellable files (ar_restricted_patterns config)
    "artifacts.restricted_patterns".

Definition total_size (opened : list OpenedArtifact) : N :=
  foldl (λ total artifact, saturating_add total (oa_size artifact)) 0 opened.

Definition archive_path (config : ArtifactsConfig) (build_id : string) : string :=
  path_join (path_join (ar_storage_root config) build_id) "artifacts.zip".

Definition collect_artifacts_zip_controlled (build_root : string) (spec : ArtifactSpec)
    (config : ArtifactsConfig) (build_id : string) : io ArtifactCollection :=
  _ ← check_cancelled;
  if bool_decide (as_include spec = []) then mret {| ac_archive := None; ac_restrictions := None |}
  else
    root ← in_context "open artifact root" (open_directory orc lresolve build_root);
    _ ← check_cancelled;
    '(files, restrictions) ← select_artifacts build_root spec config;
    if bool_decide (files = ∅) then mret {| ac_archive := None; ac_restrictions := restrictions |}
    else
      _ ← of_result (validate_artifact_count_and_depth files (ar_max_files config) (ar_max_depth config));
      opened ← open_matched_artifacts orc cancellable root files;
      _ ← io_reject (ar_max_uncompressed_bytes config <? total_size opened)
            (Raised (UncompressedTooLarge (ar_max_uncompressed_bytes config)));
      let dest_dir := path_join (ar_storage_root config) build_id in
      _ ← in_context "create artifact directory" (store_create_dir orc);
      _ ← in_context "protect artifact directory" (store_create_dir orc);
      published ← io_try (publish (archive_path config build_id)
                            (path_join dest_dir ".artifacts.zip.tmp") config opened);
      match published with
      | Ok size =>
          mret {| ac_archive := Some {| aa_path := "/v1/builds/" +:+ build_id +:+ "/artifacts.zip";
                                        aa_size := size |};
                  ac_restrictions := restrictions |}
      | Err Diverged => io_fail Diverged
      | Err (Raised e) => _ ← store_remove_all orc dest_dir; io_fail (Raised e)
      end.
End zip.
