(* ===== verification/ArtifactFacts.v ===== *)
(** Rules for the steps of an artifact collection, and what the archive writer
    leaves in its file. *)
From Stdlib Require Import Ascii.
From stdpp Require Import base option strings numbers list gmap sorting.
From S2P Require Import Prelude Effects RustStr Fs Posix Protocol Config Artifacts ArtifactZip.

Local Open Scope N_scope.

(** * Strings as lists of bytes *)

Abbreviation s2l := String.list_ascii_of_string.
Abbreviation l2s := String.string_of_list_ascii.

Lemma s2l_l2s l : s2l (l2s l) = l.
Proof. apply String.list_ascii_of_string_of_list_ascii. Qed.
Lemma l2s_s2l s : l2s (s2l s) = s.
Proof. apply String.string_of_list_ascii_of_string. Qed.
Lemma s2l_length s : String.length s = length (s2l s).
Proof. induction s; cbn; congruence. Qed.
Lemma s2l_app s t : s2l (s +:+ t) = s2l s ++ s2l t.
Proof. induction s as [|a s IH]; [done|]. change (a :: s2l (s +:+ t) = a :: s2l s ++ s2l t). by rewrite IH. Qed.
Lemma s2l_inj s t : s2l s = s2l t → s = t.
Proof. intros E. by rewrite <-(l2s_s2l s), <-(l2s_s2l t), E. Qed.
Lemma is_empty_true s : is_empty s = true ↔ s = "".
Proof. by destruct s. Qed.

Lemma slice_cover pos n s : (String.length s ≤ pos + n)%nat → s2l (slice pos n s) = drop pos (s2l s).
Proof. intros Hl. unfold slice. rewrite s2l_l2s. apply take_ge. rewrite length_drop, <-s2l_length. lia. Qed.

Lemma slice_length pos n s : String.length (slice pos n s) = Nat.min n (String.length s - pos).
Proof. by rewrite s2l_length, !s2l_length; unfold slice; rewrite s2l_l2s, length_take, length_drop, <-s2l_length. Qed.

(** A chunk splits where a partial write ends. *)
Lemma slice_split n s : slice 0 n s +:+ slice n (String.length s) s = s.
Proof.
  apply s2l_inj. rewrite s2l_app, (slice_cover n) by lia. unfold slice. rewrite s2l_l2s. apply take_drop.
Qed.

Lemma overwrite_in pos c d : pos ≤ len d →
  s2l (overwrite pos c d) =
  take (N.to_nat pos) (s2l d) ++ s2l c ++ drop (N.to_nat pos + length (s2l c)) (s2l d).
Proof.
  unfold len, overwrite. rewrite s2l_length. intros Hp. rewrite s2l_l2s.
  replace (N.to_nat pos - length (s2l d))%nat with 0%nat by lia. done.
Qed.

Lemma overwrite_len pos c d : pos ≤ len d →
  pos + len c ≤ len (overwrite pos c d) ∧ len d ≤ len (overwrite pos c d) ∧
  len (overwrite pos c d) ≤ len d + len c.
Proof.
  intros Hp. unfold len in *. rewrite !s2l_length in *. rewrite overwrite_in by (unfold len; rewrite s2l_length; lia).
  rewrite !length_app, length_take, length_drop. lia.
Qed.

Lemma overwrite_app pos c1 c2 d : pos ≤ len d →
  overwrite (pos + len c1) c2 (overwrite pos c1 d) = overwrite pos (c1 +:+ c2) d.
Proof.
  intros Hp. pose proof (overwrite_len pos c1 d Hp) as (H1 & _ & _).
  apply s2l_inj. rewrite (overwrite_in (pos + len c1)) by lia. rewrite !overwrite_in by done.
  unfold len. rewrite s2l_app, s2l_length. unfold len in Hp. rewrite s2l_length in Hp.
  set (l := s2l d) in *. set (a := s2l c1). set (b := s2l c2). set (p := N.to_nat pos).
  replace (N.to_nat (pos + N.of_nat (length a))) with (p + length a)%nat by lia.
  assert (length (take p l) = p) as Hlen by (rewrite length_take; lia).
  rewrite (assoc (++) (take p l) a). rewrite take_app_length'; [|rewrite length_app; lia].
  rewrite drop_app_ge by (rewrite length_app; lia). rewrite drop_drop, length_app, Hlen.
  rewrite <-!(assoc (++)). do 3 f_equal. f_equal. rewrite length_app. lia.
Qed.

(** * Calls that leave the workspace alone *)

(** What the other processes keep of the shared files. *)
Definition stable (orc : nat → answer) (P : FS → Prop) : Prop := ∀ k fs, P fs → P (an_env (orc k) fs).

(** Only other processes have changed the shared files. *)
Definition same_files (orc : nat → answer) (w w' : World) : Prop :=
  ∀ P, stable orc P → P (w_fs w) → P (w_fs w').

#[export] Instance same_files_preorder orc : PreOrder (same_files orc).
Proof. split; [by intros w P|]. intros w1 w2 w3 H1 H2 P HP Hw. by apply H2, H1. Qed.

(** Without other processes they are as before. *)
Lemma same_files_quiet orc w w' : same_files orc w w' → quiet orc → w_fs w' = w_fs w.
Proof. intros Hs Hq. apply (Hs (λ fs, fs = w_fs w)); [|done]. intros k fs ->. apply Hq. Qed.

Section rules.
Context (orc : nat → answer).
Abbreviation same_files := (same_files orc).

(** A call that only looks at the shared files. *)
Lemma wp_look {A} (f : FS → result os_error A) w (Q : World → result os_error A → Prop) :
  (∀ w' r, same_files w w' → w_store w' = w_store w → r = Err EIO ∨ r = f (w_fs w') → Q w' r) →
  wp (syscall orc (λ _ fs, (fs, f fs))) w Q.
Proof.
  intros HQ. unfold wp, syscall, next_answer.
  destruct (an_fault _); apply HQ; auto; intros P HP; apply HP.
Qed.

(** A call on the daemon's storage. *)
Lemma wp_stored {A} (f : answer → gmap string stored → gmap string stored * result os_error A) w
    (Q : World → result os_error A → Prop) :
  (∀ w', same_files w w' → w_store w' = w_store w → Q w' (Err EIO)) →
  (∀ w' a, same_files w w' → w_store w' = (f a (w_store w)).1 → Q w' (f a (w_store w)).2) →
  wp (private_call orc f) w Q.
Proof.
  intros He HQ. unfold wp, private_call, next_answer. destruct (an_fault _).
  - apply He; [intros P HP; apply HP|done].
  - specialize (HQ (mkWorld (an_env (orc (w_tick w)) (w_fs w)) (f (orc (w_tick w)) (w_store w)).1 (S (w_tick w)))
      (orc (w_tick w))). destruct (f _ (w_store w)). apply HQ; [intros P HP; apply HP|done].
Qed.

Lemma wp_check_cancelled cancellable w (Q : World → result (halt ArtifactError) unit → Prop) :
  (∀ w' r, same_files w w' → w_store w' = w_store w → r = Ok tt ∨ r = Err (Raised ArtifactCancelled) → Q w' r) →
  wp (check_cancelled orc cancellable) w Q.
Proof.
  intros HQ. unfold check_cancelled. destruct cancellable; [|apply wp_ret, HQ; auto; done].
  apply wp_bind. unfold wp, flag_is_cancelled, next_answer. cbn.
  destruct (an_cancelled _); cbn; apply HQ; auto; intros P HP; apply HP.
Qed.

(** A step that succeeds or fails, leaving the storage alone. *)
Definition idle {A} (w w' : World) (r : result (halt ArtifactError) A) : Prop :=
  same_files w w' ∧ w_store w' = w_store w ∧ r ≠ Err Diverged.

Lemma idle_check cancellable w (Q : World → result (halt ArtifactError) unit → Prop) :
  (∀ w' r, idle w w' r → Q w' r) → wp (check_cancelled orc cancellable) w Q.
Proof. intros HQ. apply wp_check_cancelled. intros w' r Hs Hst Hr. apply HQ. split_and!; [done..|]. by destruct Hr as [->| ->]. Qed.

Lemma idle_look {A} context (f : FS → result os_error A) w (Q : World → result (halt ArtifactError) A → Prop) :
  (∀ w' r, idle w w' r → (∀ a, r = Ok a → f (w_fs w') = Ok a) → Q w' r) →
  wp (in_context context (syscall orc (λ _ fs, (fs, f fs)))) w Q.
Proof.
  intros HQ. unfold in_context. apply wp_map_err, wp_look. intros w' r Hs Hst Hr.
  apply HQ; [split_and!; [done..|by destruct r]|]. intros a Ha. destruct r as [x|]; [|done].
  injection Ha as ->. by destruct Hr as [| ->].
Qed.

Lemma idle_of_result {A} (r : result ArtifactError A) w (Q : World → result (halt ArtifactError) A → Prop) :
  (∀ e, r = Err e → Q w (Err (Raised e))) → (∀ a, r = Ok a → Q w (Ok a)) → wp (of_result r) w Q.
Proof. intros He Ha. unfold of_result. apply wp_lift. destruct r; cbn; auto. Qed.
End rules.

(** * The archive format *)

(** The file beneath a writer, with its position; [None] when a seek leaves a
    gap. *)
Definition apply_op (op : file_op) (f : N * string) : option (N * string) :=
  match op with
  | OpWrite data => Some (f.1 + len data, overwrite f.1 data f.2)
  | OpSeek pos => if pos <=? len f.2 then Some (pos, f.2) else None
  end.
Fixpoint apply_ops (ops : list file_op) (f : N * string) : option (N * string) :=
  match ops with
  | [] => Some f
  | op :: ops => f' ← apply_op op f; apply_ops ops f'
  end.

(** A member of an archive: its name, mode and content. *)
Record member := Member { mb_name : string; mb_mode : N; mb_content : string }.

Fixpoint extend_last (bytes : string) (l : list member) : list member :=
  match l with
  | [] => []
  | [m] => [Member (mb_name m) (mb_mode m) (mb_content m +:+ bytes)]
  | m :: l => m :: extend_last bytes l
  end.

(** What the [zip] crate promises: the writer knows its file and never seeks past
    its end, and the finished file unpacks to the members written. *)
Class ZipLaws `{ZipWriter} := {
  zip_file : zip → N * string;
  zip_members : zip → list member;
  unzip : string → option (list member);
  zip_new_law : zip_file zip_new = (0, "") ∧ zip_members zip_new = [];
  zip_start_law : ∀ name mode z z' ops, zip_start_file name mode z = Ok (z', ops) →
    apply_ops ops (zip_file z) = Some (zip_file z') ∧
    zip_members z' = zip_members z ++ [Member name mode ""];
  zip_write_law : ∀ bytes z z' ops, zip_write bytes z = (z', ops) →
    apply_ops ops (zip_file z) = Some (zip_file z') ∧
    zip_members z' = extend_last bytes (zip_members z);
  zip_finish_law : ∀ z ops, zip_finish z = Ok ops →
    ∃ pos data, apply_ops ops (zip_file z) = Some (pos, data) ∧ unzip data = Some (zip_members z);
}.

Lemma extend_last_app bytes l m :
  extend_last bytes (l ++ [m]) = l ++ [Member (mb_name m) (mb_mode m) (mb_content m +:+ bytes)].
Proof. induction l as [|x l IH]; [done|]. cbn. destruct (l ++ [m]) eqn:E; [by destruct l|]. by rewrite <-IH. Qed.

(** * The writer *)

Section writer.
Context `{Glob, ZipWriter} (orc : nat → answer) (euid egid : N) (cancellable : bool) (dest : string).
Abbreviation same_files := (same_files orc).

(** The file at [dest] and the writer over it agree: the position, and no more
    bytes in the file than were counted, which are within the limit. *)
Definition file_is (max : N) (w : World) (lw : LimitedWriter) (f : N * string) : Prop :=
  lw_max_bytes lw = max ∧ lw_pos lw = f.1 ∧ st_data <$> w_store w !! dest = Some f.2 ∧
  f.1 ≤ len f.2 ∧ len f.2 ≤ lw_bytes_written lw ∧ lw_bytes_written lw ≤ max.

Lemma taken_bounds a n : (taken a n ≤ n)%nat ∧ (n ≠ 0 → taken a n ≠ 0)%nat.
Proof. unfold taken. destruct (an_partial a); lia. Qed.

Lemma file_is_store max w w' lw f : w_store w' = w_store w → file_is max w lw f → file_is max w' lw f.
Proof. unfold file_is. by intros ->. Qed.

(** What a step of the writer leaves. *)
Definition writes (max : N) (w : World) (f : N * string) (w' : World) (r : result os_error LimitedWriter) : Prop :=
  same_files w w' ∧ ∀ lw, r = Ok lw → file_is max w' lw f.

Lemma limited_write_all_spec max fuel lw buf f w :
  max < u64_max → (String.length buf ≤ fuel)%nat → file_is max w lw f →
  wp (limited_write_all orc fuel dest lw buf) w (writes max w (f.1 + len buf, overwrite f.1 buf f.2)).
Proof.
  intros Hmax. revert buf lw f w. induction fuel as [|fuel IH]; intros buf lw f w Hlen Hf; cbn [limited_write_all].
  - destruct buf; [|cbn in Hlen; lia]. cbn [is_empty bool_decide]. apply wp_ret. split; [done|].
    intros lw' [= <-]. destruct f as [pos d]. unfold file_is in *. cbn in *.
    assert (overwrite pos "" d = d) as ->; [|rewrite N.add_0_r; tauto].
    apply s2l_inj. rewrite overwrite_in by tauto. cbn. rewrite Nat.add_0_r. apply take_drop.
  - destruct (is_empty buf) eqn:Eb.
    { apply is_empty_true in Eb as ->. specialize (IH "" lw f w ltac:(cbn; lia) Hf). by destruct fuel. }
    assert (String.length buf ≠ 0%nat) as Hne by (by destruct buf).
    destruct Hf as (Em & Ep & Ed & Hp & Hl & Hb). apply wp_bind, wp_bind, wp_lift.
    destruct (N.ltb_spec (lw_max_bytes lw) (saturating_add (lw_bytes_written lw) (len buf))) as [|Hfit]; cbn; [done|].
    rewrite Em in Hfit. unfold saturating_add in Hfit.
    apply wp_bind, wp_stored; [by intros w' Hs _; split|].
    intros w1 a Hs Hst. cbn in Hst |- *.
    set (n := taken a (String.length buf)) in *. destruct (taken_bounds a (String.length buf)) as [Hn Hn0].
    specialize (Hn0 Hne). fold n in Hn, Hn0.
    assert (len (slice 0 n buf) = N.of_nat n) as Hln by (unfold len; rewrite slice_length; lia).
    destruct f as [pos d]. cbn [fst snd] in *.
    pose proof (overwrite_len pos (slice 0 n buf) d Hp) as (H1 & H2 & H3). rewrite Hln in *.
    eapply wp_mono; [apply (IH _ _ (pos + N.of_nat n, overwrite pos (slice 0 n buf) d))|].
    + rewrite slice_length. lia.
    + unfold file_is, saturating_add. cbn. unfold len in Hfit. split_and!; try lia.
      rewrite Hst, lookup_alter, decide_True by done. destruct (w_store w !! dest); [|done]. cbn in *. by simplify_eq.
    + cbn [fst snd]. intros w' r [Hs' Hr]. split; [by trans w1|]. intros lw' Hlw. specialize (Hr lw' Hlw).
      assert (len (slice n (String.length buf) buf) = len buf - N.of_nat n) as Hln2.
      { unfold len. rewrite slice_length. lia. }
      rewrite Hln2 in Hr. rewrite <-Hln in Hr at 3. rewrite overwrite_app, slice_split in Hr by done.
      replace (pos + N.of_nat n + (len buf - N.of_nat n)) with (pos + len buf) in Hr by (unfold len; lia). done.
Qed.

Lemma run_ops_spec max ops lw f f' w :
  max < u64_max → file_is max w lw f → apply_ops ops f = Some f' →
  wp (run_ops orc dest lw ops) w (writes max w f').
Proof.
  intros Hmax. unfold run_ops. revert lw f w. induction ops as [|op ops IH]; intros lw f w Hf Ha; cbn [io_fold].
  - injection Ha as <-. apply wp_ret. split; [done|]. by intros lw' [= <-].
  - cbn in Ha. apply bind_Some in Ha as (f1 & Hf1 & Ha). apply wp_bind.
    eapply wp_mono with (Q := writes max w f1).
    + destruct op as [data|pos]; cbn in Hf1 |- *.
      * injection Hf1 as <-. by apply limited_write_all_spec.
      * destruct (N.leb_spec pos (len f.2)); [|done]. injection Hf1 as <-.
        apply wp_bind, wp_stored; [by intros w' Hs _; split|]. intros w' a Hs Hst. cbn in *.
        apply wp_ret. split; [done|]. intros lw' [= <-].
        apply (file_is_store max w); [done|]. unfold file_is in *. cbn. tauto.
    + intros w1 [lw1|e] [Hs Hr]; [|by split]. specialize (Hr lw1 eq_refl).
      eapply wp_mono; [by apply (IH lw1 f1)|]. intros w2 r [Hs2 Hr2]. split; [by trans w1|done].
Qed.

(** * Copying *)

Context `{!ZipLaws} (max max_uncompressed : N) (Hmax : max < u64_max) (Hunc : max_uncompressed < u64_max).

Definition contents (l : list member) : N := sum_of (λ m, len (mb_content m)) l.

(** The archive so far holds [members]. *)
Definition holds (w : World) (p : progress) (members : list member) : Prop :=
  file_is max w (pg_writer p) (zip_file (pg_zip p)) ∧ zip_members (pg_zip p) = members ∧
  pg_uncompressed p = contents members ∧ contents members ≤ max_uncompressed.

Lemma holds_store w w' p l : w_store w' = w_store w → holds w p l → holds w' p l.
Proof. intros Hs (? & ?). split; [by apply (file_is_store _ w)|done]. Qed.

Lemma contents_app l1 l2 : contents (l1 ++ l2) = contents l1 + contents l2.
Proof. apply sum_of_app. Qed.

(** The members an artifact may give: its name and mode, and its content if no
    other process moves. *)
Definition member_of (w : World) (a : OpenedArtifact) (m : member) : Prop :=
  mb_name m = unbackslash (lossy (oa_relative a)) ∧ mb_mode m = oa_mode a ∧
  (quiet orc → nd_data <$> w_fs w !! oa_file a = Some (mb_content m)).

(** A computation that returns, with [P] of its result and the workspace left. *)
Definition ends {A} (w : World) (P : World → A → Prop) (w' : World) (r : result (halt ArtifactError) A) : Prop :=
  same_files w w' ∧ r ≠ Err Diverged ∧ ∀ a, r = Ok a → P w' a.

Lemma ends_err {A} w w' (P : World → A → Prop) e : same_files w w' → ends w P w' (Err (Raised e)).
Proof. by split. Qed.
Lemma ends_ok {A} w w' (P : World → A → Prop) a : same_files w w' → P w' a → ends w P w' (Ok a).
Proof. intros. split_and!; [done..|]. by intros ? [= <-]. Qed.
Lemma ends_from {A} w w1 (P : World → A → Prop) w' r : same_files w w1 → ends w1 P w' r → ends w P w' r.
Proof. intros ? (? & ?). split; [by trans w1|done]. Qed.

(** Steps of the writer under their error. *)
Lemma ends_ops lw ops f f' w (g : os_error → ArtifactError) :
  file_is max w lw f → apply_ops ops f = Some f' →
  wp (io_map_err (λ e, Raised (g e)) (run_ops orc dest lw ops)) w (ends w (λ w' lw', file_is max w' lw' f')).
Proof.
  intros Hf Ha. apply wp_map_err. eapply wp_mono; [by apply (run_ops_spec max ops lw f f' w)|].
  intros w' [lw'|e] [Hs Hr]; cbn; [by apply ends_ok; auto|by apply ends_err].
Qed.

Lemma start_file_spec a p members w :
  holds w p members →
  wp (start_file orc dest a p) w
    (ends w (λ w' p', holds w' p' (members ++ [Member (unbackslash (lossy (oa_relative a))) (oa_mode a) ""]))).
Proof.
  intros (Hf & Hm & Hu & Hc). unfold start_file. apply wp_bind, idle_of_result; [by intros; apply ends_err|].
  intros [z ops] Hz. apply map_err_Ok, zip_start_law in Hz as [Ho Hz].
  apply wp_bind. eapply wp_mono; [apply (ends_ops _ _ _ _ _ _ Hf Ho)|].
  intros w' [lw|[e|]] (Hs & Hd & Hl); [|by apply ends_err|done]. apply wp_ret, ends_ok; [done|].
  unfold holds. cbn. rewrite Hz, Hm, contents_app. cbn. rewrite N.add_0_r. split_and!; try done. by apply Hl.
Qed.

Lemma slice_next pos n s :
  slice 0 pos s +:+ slice pos n s = slice 0 (pos + String.length (slice pos n s)) s.
Proof.
  apply s2l_inj. rewrite s2l_app, slice_length, s2l_length. unfold slice. rewrite !s2l_l2s, !drop_0, take_take_drop.
  set (l := s2l s). destruct (decide (n ≤ length l - pos)%nat).
  - f_equal. lia.
  - rewrite !take_ge; [done|lia..].
Qed.

Lemma slice_end pos n s : (0 < n)%nat → slice pos n s = "" → slice 0 pos s = s.
Proof.
  intros Hn He. apply s2l_inj. unfold slice. rewrite s2l_l2s, drop_0. apply take_ge.
  rewrite <-s2l_length. apply (f_equal String.length) in He. rewrite slice_length in He. cbn in He. lia.
Qed.

(** Where the copy of an artifact is: so much of it is in the archive. *)
Definition copying (w0 : World) (a : OpenedArtifact) (members : list member) (w : World) (s : progress * nat) : Prop :=
  same_files w0 w ∧ ∃ content,
    holds w s.1 (members ++ [Member (unbackslash (lossy (oa_relative a))) (oa_mode a) content]) ∧
    (quiet orc → ∀ n, w_fs w0 !! oa_file a = Some n → content = slice 0 s.2 (nd_data n)).

Lemma copy_chunk_spec w0 a members w s :
  copying w0 a members w s →
  wp (copy_chunk orc cancellable dest max_uncompressed (oa_file a) s) w (λ w' r,
    match r with
    | Ok (inl s') => copying w0 a members w' s' ∧
        u64_max - pg_uncompressed s'.1 < u64_max - pg_uncompressed s.1
    | Ok (inr p) => ends w0 (λ w' p, ∃ m, holds w' p (members ++ [m]) ∧ member_of w0 a m) w' (Ok p)
    | Err e => ends (A := progress) w0 (λ w' p, ∃ m, holds w' p (members ++ [m]) ∧ member_of w0 a m) w' (Err e)
    end).
Proof.
  destruct s as [p pos]. intros (Hs & content & Hh & Hq). cbn [fst snd] in *. unfold copy_chunk.
  apply wp_bind, idle_check. intros w1 [[]|[e|]] (Hs1 & Hst1 & Hr1); [|by apply ends_err; trans w|done].
  assert (same_files w0 w1) as Hs01 by (by trans w). apply (holds_store w w1) in Hh; [|done].
  apply wp_bind, idle_look. intros w2 r (Hs2 & Hst2 & Hr2) Hdata.
  assert (same_files w0 w2) as Hs02 by (by trans w1). apply (holds_store w1 w2) in Hh; [|done].
  destruct r as [bytes|[e|]]; [|by apply ends_err|done]. specialize (Hdata bytes eq_refl).
  destruct (w_fs w2 !! oa_file a) as [n2|] eqn:En; [|done]. injection Hdata as Hb.
  assert (quiet orc → ∃ n, w_fs w0 !! oa_file a = Some n ∧ bytes = slice pos READ_BUFFER (nd_data n)) as Hbytes.
  { intros Hq'. exists n2. by rewrite <-(same_files_quiet _ _ _ Hs02 Hq'), En. }
  destruct (is_empty bytes) eqn:Ee.
  - apply is_empty_true in Ee. apply wp_ret, ends_ok; [done|]. eexists. split; [exact Hh|].
    split_and!; [done..|]. intros Hq'. destruct (Hbytes Hq') as (n & Hn & Hbn). rewrite Hn. cbn.
    rewrite (Hq Hq' n Hn). f_equal. symmetry. apply (slice_end _ READ_BUFFER); [unfold READ_BUFFER; lia|congruence].
  - apply wp_bind, wp_lift. destruct (N.ltb_spec max_uncompressed (saturating_add (pg_uncompressed p) (len bytes)))
      as [|Hfit]; cbn; [by apply ends_err|].
    destruct Hh as (Hf & Hm & Hu & Hc). destruct (zip_write bytes (pg_zip p)) as [z ops] eqn:Ez.
    apply zip_write_law in Ez as [Ho Hz]. rewrite Hm, extend_last_app in Hz. cbn in Hz.
    apply wp_bind. eapply wp_mono; [apply (ends_ops _ _ _ _ _ _ Hf Ho)|].
    intros w3 [lw|[e|]] (Hs3 & Hd & Hl); [|by apply ends_err; trans w2|done]. apply wp_ret.
    assert (len bytes ≠ 0) as Hne by (unfold len; destruct bytes; cbn in *; [done|lia]).
    assert (contents (members ++ [Member (unbackslash (lossy (oa_relative a))) (oa_mode a) (content +:+ bytes)]) =
      saturating_add (pg_uncompressed p) (len bytes)) as Hcon.
    { rewrite Hu. unfold saturating_add in *. rewrite Hu in Hfit. rewrite !contents_app in *. cbn in *.
      rewrite len_app. lia. }
    split.
    + split; [by trans w2|]. exists (content +:+ bytes). split.
      * split_and!; [by apply Hl|done|done|]. rewrite Hcon. done.
      * intros Hq' n Hn. cbn. destruct (Hbytes Hq') as (n' & Hn' & ->). simplify_eq.
        rewrite (Hq Hq' n Hn). apply slice_next.
    + cbn. unfold saturating_add in *. lia.
Qed.

Lemma member_of_from w w1 a m : same_files w w1 → member_of w1 a m → member_of w a m.
Proof. intros Hs (? & ? & Hc). split_and!; [done..|]. intros Hq. rewrite <-(same_files_quiet _ _ _ Hs Hq). auto. Qed.

(** One artifact adds its member. *)
Lemma copy_artifact_spec a p members w :
  holds w p members →
  wp (copy_artifact orc cancellable dest max_uncompressed p a) w
    (ends w (λ w' p', ∃ m, holds w' p' (members ++ [m]) ∧ member_of w a m)).
Proof.
  intros Hh. unfold copy_artifact.
  apply wp_bind, idle_check. intros w1 [[]|[e|]] (Hs1 & Hst1 & Hd1); [|by apply ends_err|done].
  apply (holds_store w w1) in Hh; [|done]. apply wp_bind. eapply wp_mono; [by apply start_file_spec|].
  intros w2 [p2|[e|]] (Hs2 & Hd2 & Hp); [|by apply ends_err; trans w1|done]. specialize (Hp p2 eq_refl).
  assert (same_files w w2) as Hs02 by (by trans w1).
  apply wp_bind, (idle_look _ _ (λ _, Ok tt)). intros w3 [[]|[e|]] (Hs3 & Hst3 & Hd) _;
    [|by apply ends_err; trans w2|done].
  apply (holds_store w2 w3) in Hp; [|done].
  apply (wp_loop _ (copying w a members) (λ s, u64_max - pg_uncompressed s.1)).
  - intros s w' Hc. by apply copy_chunk_spec.
  - split; [by trans w2|]. exists "". by split.
  - unfold u64_max. lia.
Qed.

Lemma copy_all_spec artifacts p w :
  holds w p [] →
  wp (io_fold (copy_artifact orc cancellable dest max_uncompressed) p artifacts) w
    (ends w (λ w' p', ∃ ms, holds w' p' ms ∧ Forall2 (member_of w) artifacts ms)).
Proof.
  intros Hh. eapply wp_mono.
  - apply (wp_fold _ (λ w' p' dn, same_files w w' ∧ ∃ ms, holds w' p' ms ∧ Forall2 (member_of w) dn ms)
      (λ w' e, same_files w w' ∧ e ≠ Diverged) artifacts [] p w).
    + intros p1 dn a w1 _ (Hs & ms & Hms & Hf). eapply wp_mono; [by apply copy_artifact_spec|].
      intros w2 [p2|e] (Hs2 & Hd & Hp).
      * destruct (Hp p2 eq_refl) as (m & Hm & Hmem). split; [by trans w1|]. exists (ms ++ [m]). split; [done|].
        apply Forall2_app; [done|]. constructor; [|done]. by eapply member_of_from.
      * split; [by trans w1|congruence].
    + split; [done|]. by exists [].
  - intros w' [p'|e].
    + intros (Hs & Hms). by apply ends_ok.
    + intros [Hs He]. split_and!; [done|congruence|done].
Qed.

(** The finished archive. *)
Definition archived (w : World) (artifacts : list OpenedArtifact) (w' : World) (size : N) : Prop :=
  ∃ data ms, st_data <$> w_store w' !! dest = Some data ∧ unzip data = Some ms ∧
    Forall2 (member_of w) artifacts ms ∧ contents ms ≤ max_uncompressed ∧ size = len data ∧ size ≤ max.

Lemma write_archive_spec opened w :
  wp (write_archive orc euid egid cancellable dest opened max max_uncompressed) w
    (ends w (archived w (merge_sort artifact_le opened))).
Proof.
  unfold write_archive. apply wp_bind. unfold in_context at 1. apply wp_map_err, wp_stored.
  { intros w1 Hs _. by apply ends_err. }
  intros w1 a Hs1 Hst1. cbn [snd map_err].
  assert (holds w1 (Progress zip_new {| lw_bytes_written := 0; lw_max_bytes := max; lw_pos := 0 |} 0) []) as Hh.
  { destruct zip_new_law as [Hf Hm]. unfold holds, file_is. cbn. rewrite Hf, Hm. cbn. split_and!; try done; try lia.
    rewrite Hst1. cbn. by destruct (w_store w !! dest); rewrite lookup_insert_eq. }
  apply wp_bind. eapply wp_mono; [by apply copy_all_spec|].
  intros w2 [p|[e|]] (Hs2 & Hd2 & Hp); [|by apply ends_err; trans w1|done].
  destruct (Hp p eq_refl) as (ms & (Hf & Hm & Hu & Hc) & Hall).
  assert (same_files w w2) as Hs02 by (by trans w1).
  apply wp_bind, idle_of_result; [by intros; apply ends_err|]. intros ops Hz. apply map_err_Ok in Hz.
  apply zip_finish_law in Hz as (pos & data & Ho & Hz). apply wp_bind.
  eapply wp_mono; [apply (ends_ops _ _ _ _ _ _ Hf Ho)|].
  intros w3 [lw|[e|]] (Hs3 & Hd3 & Hl); [|by apply ends_err; trans w2|done]. specialize (Hl lw eq_refl).
  assert (same_files w w3) as Hs03 by (by trans w2).
  apply wp_bind. unfold in_context at 1. apply wp_map_err, wp_stored; [intros; by apply ends_err; trans w3|].
  intros w4 a4 Hs4 Hst4. cbn in Hst4 |- *. assert (same_files w w4) as Hs04 by (by trans w3).
  unfold in_context. apply wp_map_err, wp_stored; [intros; apply ends_err; by trans w4|].
  intros w5 a5 Hs5 Hst5. cbn in Hst5 |- *. rewrite Hst4 in *.
  destruct Hl as (_ & _ & Hd & _ & Hle & Hlm). cbn in Hd.
  destruct (w_store w3 !! dest) as [st|] eqn:Est; [|done]. injection Hd as Hd. cbn.
  apply ends_ok; [by trans w4|]. exists data, ms. rewrite Hst5, Est. cbn. rewrite Hd. split_and!; try done.
  - congruence.
  - eapply Forall2_impl; [exact Hall|]. intros. by apply (member_of_from w w1).
  - cbn in *. lia.
Qed.
End writer.

(** * Which files an artifact collection selects and opens. *)

(** A step that leaves the storage alone, with [P] of its result if it has one. *)
Definition gives {A} (orc : nat → answer) (w : World) (P : World → A → Prop) (w' : World)
    (r : result (halt ArtifactError) A) : Prop :=
  same_files orc w w' ∧ w_store w' = w_store w ∧ ∀ a, r = Ok a → P w' a.

Section rules.
Context (orc : nat → answer).
Abbreviation gives := (gives orc).

Lemma gives_err {A} w w' (P : World → A → Prop) e :
  same_files orc w w' → w_store w' = w_store w → gives w P w' (Err e).
Proof. by split. Qed.
Lemma gives_ok {A} w w' (P : World → A → Prop) a :
  same_files orc w w' → w_store w' = w_store w → P w' a → gives w P w' (Ok a).
Proof. intros. split_and!; [done..|]. by intros ? [= <-]. Qed.

Lemma wp_gives_ret {A} w (P : World → A → Prop) a : P w a → wp (mret a) w (gives w P).
Proof. intros. by apply wp_ret, gives_ok. Qed.
Lemma wp_gives_lift {A} w (P : World → A → Prop) (r : result (halt ArtifactError) A) :
  (∀ a, r = Ok a → P w a) → wp (io_lift r) w (gives w P).
Proof. intros. by apply wp_lift. Qed.
Lemma wp_gives_reject w b e (P : World → unit → Prop) :
  (b = false → P w tt) → wp (io_reject b (Raised e)) w (gives w P).
Proof. intros Hb. apply wp_gives_lift. intros [] Hr. apply Hb. by destruct b. Qed.
Lemma wp_gives_of_result {A} w (P : World → A → Prop) (r : result ArtifactError A) :
  (∀ a, r = Ok a → P w a) → wp (of_result r) w (gives w P).
Proof. intros Hr. apply wp_gives_lift. intros a Ha. apply Hr. by apply map_err_Ok in Ha. Qed.

Lemma wp_gives_exact {A} w (r : result ArtifactError A) : wp (of_result r) w (gives w (λ _ a, r = Ok a)).
Proof. by apply wp_gives_of_result. Qed.

Lemma wp_gives_bind {A B} (c : eff World (halt ArtifactError) A) (k : A → eff World (halt ArtifactError) B)
    w P Q :
  wp c w (gives w P) →
  (∀ w' a, same_files orc w w' → P w' a → wp (k a) w' (gives w' Q)) →
  wp (c ≫= k) w (gives w Q).
Proof.
  intros Hc Hk. apply wp_bind. eapply wp_mono; [exact Hc|].
  intros w' [a|e] (Hs & Hst & HP); [|by apply gives_err].
  eapply wp_mono; [by apply Hk; [|apply HP]|]. intros w'' r (Hs' & Hst' & HQ).
  split_and!; [by trans w'|congruence|done].
Qed.

Lemma wp_gives_mono {A} (c : eff World (halt ArtifactError) A) w (P Q : World → A → Prop) :
  wp c w (gives w P) → (∀ w' a, same_files orc w w' → P w' a → Q w' a) → wp c w (gives w Q).
Proof. intros Hc HPQ. eapply wp_mono; [exact Hc|]. intros w' r (Hs & Hst & HP). split_and!; auto. Qed.

Lemma wp_gives_check cancellable w : wp (check_cancelled orc cancellable) w (gives w (λ _ _, True)).
Proof. apply idle_check. intros w' r (? & ? & _). by split. Qed.

Lemma wp_gives_look {A} context (f : FS → result os_error A) w :
  wp (in_context context (syscall orc (λ _ fs, (fs, f fs)))) w (gives w (λ w' a, f (w_fs w') = Ok a)).
Proof. apply idle_look. intros w' r (? & ? & _) Hr. by split. Qed.

(** An invariant of a loop. *)
Lemma wp_gives_fold {A S} (f : S → A → eff World (halt ArtifactError) S) (I : S → list A → Prop) l s w :
  (∀ s dn x w', x ∈ l → same_files orc w w' → I s dn → wp (f s x) w' (gives w' (λ _ s', I s' (dn ++ [x])))) →
  I s [] → wp (io_fold f s l) w (gives w (λ _ s', I s' l)).
Proof.
  intros Hf Hi. eapply wp_mono.
  - apply (wp_fold f (λ w' s dn, same_files orc w w' ∧ w_store w' = w_store w ∧ I s dn)
      (λ w' _, same_files orc w w' ∧ w_store w' = w_store w) l [] s w); [|done].
    intros s1 dn x w1 Hx (Hs & Hst & Hi1). eapply wp_mono; [by apply (Hf _ dn)|].
    intros w2 [s2|e] (Hs2 & Hst2 & HP).
    + split_and!; [by trans w1|congruence|by apply HP].
    + split; [by trans w1|congruence].
  - intros w' [s'|e]; cbn.
    + intros (? & ? & ?). by apply gives_ok.
    + intros (? & ?). by apply gives_err.
Qed.
End rules.

(** * Selection *)

Section selection.
Context `{Glob} (orc : nat → answer) (lresolve : string → FS → result os_error FileIdentity).
Context (walk : string → (string → bool) → World → list walk_item) (cancellable : bool).
Context (spec : ArtifactSpec) (config : ArtifactsConfig).
Abbreviation gives := (gives orc).

(** The server's rules allow a file into an archive. *)
Definition allowed (rel : rel_path) : Prop :=
  (∃ patterns, compile_patterns (as_include spec) "artifacts.include" = Ok patterns ∧
     is_included rel patterns = true) ∧
  (∃ patterns, compile_patterns (as_exclude spec ++ [INTERNAL_EXCLUDE_PATTERN]) "artifacts.exclude" = Ok patterns ∧
     is_excluded rel patterns = false) ∧
  (∃ patterns, compile_patterns (ar_restricted_patterns config) "artifacts.restricted_patterns" = Ok patterns ∧
     is_excluded rel patterns = false) ∧
  depth rel ≤ ar_max_depth config.

(** The walk lists a file at [rel]. *)
Definition listed (build_root : string) (items : list walk_item) (rel : rel_path) : Prop :=
  ∃ path kind, Ok (path, kind) ∈ items ∧ path_strip_prefix build_root path = Some rel ∧ rel ≠ [] ∧
    kind ≠ Directory.

Lemma listed_app build_root items items' rel :
  listed build_root (items ++ items') rel ↔ listed build_root items rel ∨ listed build_root items' rel.
Proof. unfold listed. setoid_rewrite elem_of_app. naive_solver. Qed.

(** The files found are the listed ones that are included and not excluded. *)
Definition found (build_root : string) (excludes includes : list Pattern) (items : list walk_item)
    (files : matched) : Prop :=
  ∀ rel, (is_Some (files !! rel) ↔
      listed build_root items rel ∧ is_included rel includes = true ∧ is_excluded rel excludes = false) ∧
    (is_Some (files !! rel) → depth rel ≤ ar_max_depth config).

(** An entry that is not selected changes nothing. *)
Lemma found_skip build_root excludes includes items files item :
  (∀ rel, listed build_root [item] rel →
     ¬ (is_included rel includes = true ∧ is_excluded rel excludes = false)) →
  found build_root excludes includes items files → found build_root excludes includes (items ++ [item]) files.
Proof. intros Hno Hf rel. destruct (Hf rel) as [Hi Hd]. split; [|done]. rewrite Hi, listed_app. naive_solver. Qed.

Lemma found_take build_root excludes includes items files path kind rel i :
  path_strip_prefix build_root path = Some rel → rel ≠ [] → kind ≠ Directory →
  is_included rel includes = true → is_excluded rel excludes = false → depth rel ≤ ar_max_depth config →
  found build_root excludes includes items files →
  found build_root excludes includes (items ++ [Ok (path, kind)])
    (match files !! rel with Some _ => files | None => <[rel := i]> files end).
Proof.
  intros Hp Hne Hk Hin Hex Hd Hf r. destruct (Hf r) as [Hi Hdr]. rewrite listed_app.
  assert (listed build_root [Ok (path, kind)] r ↔ r = rel) as ->.
  { unfold listed. setoid_rewrite list_elem_of_singleton. split; [naive_solver|]. intros ->. by exists path, kind. }
  destruct (decide (r = rel)) as [->|Hr].
  - assert (is_Some ((match files !! rel with Some _ => files | None => <[rel:=i]> files end) !! rel)) as Hs.
    { destruct (files !! rel) eqn:E; [by rewrite E|rewrite lookup_insert_eq; by eexists]. }
    split; [|done]. split; [|done]. intros _. split_and!; [by right|done..].
  - assert ((match files !! rel with Some _ => files | None => <[rel:=i]> files end) !! r = files !! r) as ->.
    { destruct (files !! rel); [done|by rewrite lookup_insert_ne]. }
    split; [|done]. rewrite Hi. naive_solver.
Qed.

Lemma observe_Ok rel t t' : observe rel t = Ok t' →
  depth rel ≤ tl_max_depth t ∧ tl_max_depth t' = tl_max_depth t.
Proof.
  unfold observe. destruct (N.ltb_spec (tl_max_depth t) (depth rel)); [done|].
  case_bool_decide; [by intros [= <-]|]. destruct (_ <=? _); [done|]. by intros [= <-].
Qed.

Lemma visit_spec build_root excludes includes t files dn item w :
  found build_root excludes includes dn files ∧ tl_max_depth t = ar_max_depth config →
  wp (visit orc lresolve cancellable build_root excludes includes (t, files) item) w
    (gives w (λ _ s, found build_root excludes includes (dn ++ [item]) s.2 ∧
       tl_max_depth s.1 = ar_max_depth config)).
Proof.
  intros [Hf Ht]. unfold visit.
  eapply wp_gives_bind; [apply wp_gives_check|]. intros w1 _ _ _.
  eapply wp_gives_bind; [apply wp_gives_exact|]. intros w2 [path kind] _ Hitem%map_err_Ok. subst item.
  eapply wp_gives_bind; [apply wp_gives_exact|]. intros w3 rel _ Hrel%ok_or_Ok.
  assert (∀ r, listed build_root [Ok (path, kind)] r → r = rel ∧ rel ≠ [] ∧ kind ≠ Directory) as Hl.
  { intros r (path' & kind' & [= -> ->]%list_elem_of_singleton & Hr & ?). by simplify_eq. }
  case_bool_decide as Hne; [apply wp_gives_ret; split; [|done]; apply found_skip; [naive_solver|done]|].
  eapply wp_gives_bind; [apply wp_gives_exact|].
  intros w4 t' _ [Hd Ht']%observe_Ok. rewrite Ht in *.
  case_bool_decide as Hk; [apply wp_gives_ret; split; [|done]; apply found_skip; [naive_solver|done]|].
  destruct (is_excluded rel excludes) eqn:Ee.
  { apply wp_gives_ret. split; [|done]. apply found_skip; [|done]. intros r [-> _]%Hl [_ ?]. congruence. }
  destruct (is_included rel includes) eqn:Ei; cbn [orb negb].
  2: { apply wp_gives_ret. split; [|done]. apply found_skip; [|done]. intros r [-> _]%Hl [? _]. congruence. }
  eapply (wp_gives_bind _ _ _ _ (λ _ _, True)).
  { unfold require_regular_file. eapply wp_gives_bind; [apply wp_gives_look|]. intros w5 m _ _.
    eapply (wp_gives_bind _ _ _ _ (λ _ _, True)); [by apply wp_gives_reject|]. intros. by apply wp_gives_ret. }
  intros w5 m _ _. apply wp_gives_ret. split; [|done]. by apply found_take.
Qed.

(** No pattern of [compiled] matches a file that [restricted_by] does not list. *)
Lemma restricted_by_nil compiled rel : restricted_by compiled rel = [] ↔ is_excluded rel compiled = false.
Proof.
  unfold restricted_by, is_excluded. split.
  - intros Hf%fmap_nil_inv. apply not_true_is_false. intros (p & Hp & Hm)%existsb_exists.
    apply list_elem_of_In, list_elem_of_lookup in Hp as [i Hi].
    assert ((i, p) ∈ filter (λ x : nat * Pattern, Pattern_matches x.2 (lossy rel) = true) (imap pair compiled)) as Hin.
    { apply list_elem_of_filter. split; [done|]. apply list_elem_of_lookup. exists i.
      by rewrite list_lookup_imap, Hi. }
    rewrite Hf in Hin. by apply not_elem_of_nil in Hin.
  - intros He. apply elem_of_nil_inv. intros i Hin. apply list_elem_of_fmap in Hin as ([i' p] & -> & Hin). apply list_elem_of_filter in Hin as [Hm Hin].
    apply list_elem_of_lookup in Hin as [j Hj]. rewrite list_lookup_imap in Hj.
    destruct (compiled !! j) as [q|] eqn:Eq; [|done]. cbn in Hj. simplify_eq.
    assert (existsb (λ p, Pattern_matches p (lossy rel)) compiled = true); [|congruence].
    apply existsb_exists. exists p. split; [|done]. apply list_elem_of_In. by eapply list_elem_of_lookup_2.
Qed.

(** No restricted pattern matches. *)
Definition unrestricted (rel : rel_path) : Prop :=
  ∃ patterns, compile_patterns (ar_restricted_patterns config) "artifacts.restricted_patterns" = Ok patterns ∧
    is_excluded rel patterns = false.

Lemma apply_restricted_spec files w :
  wp (apply_restricted_patterns orc cancellable files (ar_restricted_patterns config)
        "artifacts.restricted_patterns") w
    (gives w (λ _ s, ∀ rel i, s.1 !! rel = Some i ↔ files !! rel = Some i ∧ unrestricted rel)).
Proof.
  unfold apply_restricted_patterns, unrestricted. case_bool_decide as Hn.
  { apply wp_gives_ret. intros rel i. split; [|by intros [? _]]. intros Hr. split; [done|]. exists []. by rewrite Hn. }
  cbn [orb]. case_bool_decide as Hem.
  { apply wp_gives_ret. intros rel i. cbn. rewrite Hem, lookup_empty. naive_solver. }
  eapply wp_gives_bind; [apply wp_gives_exact|]. intros w1 compiled _ Hc.
  eapply (wp_gives_bind _ _ _ _ (λ _ s, ∀ rel, rel ∈ (map_to_list files).*1 →
    rel ∈ s.1 ↔ is_excluded rel compiled = true)).
  { eapply wp_gives_mono.
    - apply (wp_gives_fold _ _ (λ s dn, ∀ rel, rel ∈ s.1 ↔ rel ∈ dn ∧ is_excluded rel compiled = true));
        [|intros rel; cbn; rewrite elem_of_nil; set_solver].
      intros [paths indexes] dn x w2 _ _ Hi. eapply wp_gives_bind; [apply wp_gives_check|].
      intros w3 _ _ _. apply wp_gives_ret. cbn [fst] in *. intros rel. specialize (Hi rel).
      rewrite elem_of_app, list_elem_of_singleton. case_bool_decide as Hh.
      + apply restricted_by_nil in Hh. rewrite Hi. split; [naive_solver|]. intros [[?| ->] ?]; [done|congruence].
      + assert (is_excluded x compiled = true) as Hx.
        { destruct (is_excluded x compiled) eqn:E; [done|]. by apply restricted_by_nil in E. }
        rewrite elem_of_union, elem_of_singleton, Hi. naive_solver.
    - intros w2 s _ Hs rel Hr. cbn beta in Hs. rewrite (Hs rel). naive_solver. }
  intros w2 [paths indexes] _ Hp. cbn in Hp.
  assert (∀ rel i, files !! rel = Some i → rel ∉ paths ↔ is_excluded rel compiled = false) as Hout.
  { intros rel i Hr. rewrite <-not_true_iff_false, Hp; [done|]. apply list_elem_of_fmap. exists (rel, i).
    split; [done|]. by apply elem_of_map_to_list. }
  assert (∀ rel i, files !! rel = Some i ∧ rel ∉ paths ↔ files !! rel = Some i ∧
    ∃ patterns, compile_patterns (ar_restricted_patterns config) "artifacts.restricted_patterns" = Ok patterns ∧
      is_excluded rel patterns = false) as Hiff.
  { intros rel i. split; intros [Hr Hx]; (split; [done|]); [exists compiled; split; [done|]|]; [by apply (Hout _ i)|].
    destruct Hx as (patterns & Hpat & Hx). cbn in Hc. rewrite Hc in Hpat. injection Hpat as <-. by apply (Hout _ i). }
  case_bool_decide as Hpe; apply wp_gives_ret; intros rel i; cbn [fst]; rewrite <-Hiff.
  - split; [|by intros [? _]]. intros ?. split; [done|]. rewrite Hpe. apply not_elem_of_empty.
  - by rewrite map_lookup_filter_Some.
Qed.

(** The files that are selected are those the walk lists and the rules allow. *)
Definition selection (build_root : string) (w : World) (files : matched) : Prop :=
  (∀ rel, is_Some (files !! rel) → depth rel ≤ ar_max_depth config) ∧
  ∃ w1, same_files orc w w1 ∧ ∀ rel, is_Some (files !! rel) ↔
    listed build_root (walk build_root (walk_keeps (artifact_walk_prefixes (as_include spec)) build_root) w1) rel ∧
    allowed rel.

Lemma selection_from build_root w w1 files :
  same_files orc w w1 → selection build_root w1 files → selection build_root w files.
Proof. intros Hs (Hd & w2 & Hs2 & Hsel). split; [done|]. exists w2. split; [by trans w1|done]. Qed.

Lemma select_spec build_root w :
  wp (select_artifacts orc lresolve walk cancellable build_root spec config) w
    (gives w (λ _ s, selection build_root w s.1)).
Proof.
  unfold select_artifacts.
  eapply wp_gives_bind; [apply wp_gives_exact|].
  intros w1 excludes Hs1 He. cbn in He.
  eapply wp_gives_bind; [apply wp_gives_exact|].
  intros w2 includes Hs2 Hi. cbn in Hi.
  set (listing := walk build_root (walk_keeps (artifact_walk_prefixes (as_include spec)) build_root)).
  eapply (wp_gives_bind _ _ _ _ (λ _ items, items = listing w2)); [by apply gives_ok|]. intros w3 items _ ->.
  eapply (wp_gives_bind _ _ _ _ (λ _ s, found build_root excludes includes (listing w2) s.2 ∧
    tl_max_depth s.1 = ar_max_depth config)).
  { apply (wp_gives_fold _ _ (λ s dn, found build_root excludes includes dn s.2 ∧
      tl_max_depth s.1 = ar_max_depth config)).
    - intros [t files] dn x w4 _ _ Hf. by apply visit_spec.
    - split; [|done]. intros rel. cbn. rewrite lookup_empty. split; [|by intros [? ?]]. split; [by intros [? ?]|].
      by intros [(? & ? & ?%not_elem_of_nil & _) _]. }
  intros w4 [t files] _ [Hf _]. cbn in Hf. eapply wp_gives_mono; [apply apply_restricted_spec|].
  intros w5 [files' restrictions] _ Hr. cbn in Hr |- *. split.
  - intros rel [i Hi']. apply Hr in Hi' as [Hin _]. apply (Hf rel). by eexists.
  - exists w2. split; [by trans w1|]. intros rel. destruct (Hf rel) as [Hiff Hd]. split.
    + intros [i [Hin Hx]%Hr]. assert (is_Some (files !! rel)) as Hs by (by eexists).
      destruct (proj1 Hiff Hs) as (Hl & ? & ?). split; [done|]. split_and!; [by eexists|by eexists|done|by apply Hd].
    + intros [Hl ((incl & Ei & Hin) & (excl & Ee & Hex) & Hun & _)].
      rewrite Hi in Ei. rewrite He in Ee. injection Ei as <-. injection Ee as <-.
      destruct (proj2 Hiff) as [i Hi']; [done|]. exists i. by apply Hr.
Qed.
End selection.

(** What [validate_artifact_count_and_depth] accepts: few enough files, and no two
    that differ only in case. *)
Lemma count_and_depth_Ok files max_files max_depth u :
  validate_artifact_count_and_depth files max_files max_depth = Ok u →
  N.of_nat (size files) ≤ max_files ∧ NoDup (fold_key <$> (map_to_list files).*1).
Proof.
  unfold validate_artifact_count_and_depth. intros Hv. unbind Hv. breflect. split; [lia|].
  apply (fold_each_inv (λ folded dn, NoDup (fold_key <$> dn) ∧ ∀ k, k ∈ fold_key <$> dn → k ∈ folded))
    with (done := []) in E1; [by destruct E1| |split; [constructor|by intros ? ?%not_elem_of_nil]].
  intros folded dn path folded' [Hn Hf] Hs. case_bool_decide as Hk; [done|]. injection Hs as <-.
  rewrite fmap_app. cbn. split.
  - apply NoDup_app. split_and!; [done| |apply NoDup_singleton]. intros k Hk1 ->%list_elem_of_singleton. auto.
  - intros k [Hk'| ->%list_elem_of_singleton]%elem_of_app; set_solver.
Qed.
