(* ===== verification/ArtifactTheorems.v ===== *)
(** What an artifact archive may hold: the files the server's rules allow, opened
    beneath the workspace, within the configured limits. *)
From Stdlib Require Import Ascii.
From stdpp Require Import base option strings numbers list gmap sorting.
From S2P Require Import Prelude Effects RustStr Fs Posix Protocol Config Artifacts ArtifactZip ArtifactFacts.

Local Open Scope N_scope.

Lemma is_kind_node k i n : is_kind k (metadata_of i n) = bool_decide (nd_kind n = k).
Proof.
  unfold is_kind, stat_mode. cbn [tg_mode metadata_of]. unfold stat_mode.
  rewrite N.land_lor_distr_l, <-N.land_assoc. change (N.land o7777 o170000) with 0.
  rewrite N.land_0_r, N.lor_0_r. by destruct (nd_kind n), k.
Qed.

Lemma Forall2_fmap_r {A B} (f : B → A) (P : A → B → Prop) l k :
  Forall2 P l k → (∀ x y, P x y → f y = x) → f <$> k = l.
Proof. intros Hall Hf. induction Hall as [|x y l k Hxy _ IH]; [done|]. cbn. by rewrite IH, (Hf _ _ Hxy). Qed.

(** * Opening *)

Section opening.
Context (orc : nat → answer) (cancellable : bool) (w0 : World) (root : FileIdentity).
Abbreviation same_files := (same_files orc).
Abbreviation gives := (gives orc).

(** What holds of the workspace's root and of every entry, not a symbolic link, of
    a directory it holds of, in any state of the files other processes leave. *)
Context (R : rel_path → FileIdentity → Prop).
Context (Hroot : R [] root).
Context (Hhop : ∀ w pre d name i n, same_files w0 w → R pre d → entry (w_fs w) d name = Some i →
  w_fs w !! i = Some n → nd_kind n ≠ Symlink → R (pre ++ [Normal name]) i).

Lemma open_beneath_spec relative names pre current w :
  same_files w0 w → R pre current →
  wp (open_beneath orc relative names current) w (gives w (λ _ i, R (pre ++ names) i)).
Proof.
  revert pre current w. induction names as [|c names IH]; intros pre current w Hw HR; [by apply gives_err|].
  destruct c as [| | |name]; try (by apply gives_err). cbn [open_beneath].
  eapply (wp_gives_bind _ _ _ _ (λ _ _, True)); [by apply wp_gives_reject|]. intros w1 _ Hs1 _.
  assert (same_files w0 w1) as Hw1 by (by trans w). destruct names as [|c' names].
  - unfold wp, openat_file. pose proof (wp_look orc (λ fs, match entry fs current name with
      | None => Err ENOENT
      | Some i => match fs !! i with
                  | None => Err ENOENT
                  | Some n => match nd_kind n with Symlink => Err ELOOP | _ => Ok i end
                  end end) w1 (λ w' r, same_files w1 w' ∧ w_store w' = w_store w1 ∧
        ∀ i, r = Ok i → R (pre ++ [Normal name]) i)) as Hl.
    unfold wp in Hl. unfold openat_read.
    destruct (syscall orc _ w1) as [w2 r]. cbn in Hl |- *.
    destruct Hl as (Hs2 & Hst2 & Hr).
    { intros w' r' Hs' Hst' Hr. split_and!; [done..|]. intros i ->. destruct Hr as [|Hr]; [done|].
      destruct (entry _ _ _) as [j|] eqn:Ee; [|done]. destruct (w_fs w' !! j) as [n|] eqn:En; [|done].
      assert (i = j ∧ nd_kind n ≠ Symlink) as [-> Hk] by (by destruct (nd_kind n); simplify_eq).
      by apply (Hhop w' pre current name j n); [trans w1|..]. }
    split_and!; [done..|]. intros i Hi. apply Hr. destruct r as [j|]; [|done]. by case_bool_decide; simplify_eq.
  - eapply wp_gives_bind; [unfold openat_directory; apply wp_gives_look|].
    intros w2 i Hs2 Hi. cbn in Hi. assert (same_files w0 w2) as Hw2 by (by trans w1).
    destruct (entry _ _ _) as [j|] eqn:Ee; [|done]. destruct (w_fs w2 !! j) as [n|] eqn:En; [|done].
    assert (i = j ∧ nd_kind n ≠ Symlink) as [-> Hk] by (by destruct (nd_kind n); simplify_eq).
    eapply wp_gives_bind; [unfold file_metadata; apply wp_gives_look|]. intros w3 m Hs3 _.
    eapply (wp_gives_bind _ _ _ _ (λ _ _, True)); [by apply wp_gives_reject|]. intros w4 _ Hs4 _.
    change (Normal name :: c' :: names) with ([Normal name] ++ c' :: names). rewrite (app_assoc pre). apply IH; [by trans w2; [|trans w3]|].
    by apply (Hhop w2 pre current name j n).
Qed.

(** An opened artifact is the file that was matched, regular when it was opened. *)
Definition opened_as (files : matched) (relative : rel_path) (a : OpenedArtifact) : Prop :=
  oa_relative a = relative ∧ files !! relative = Some (oa_file a) ∧ R relative (oa_file a) ∧
  ∃ w n, same_files w0 w ∧ w_fs w !! oa_file a = Some n ∧ nd_kind n = Regular ∧ oa_mode a = stat_mode n.

Lemma open_matched_spec files relative w :
  same_files w0 w →
  wp (open_matched orc cancellable root files relative) w (gives w (λ _ a, opened_as files relative a)).
Proof.
  intros Hw. unfold open_matched, open_file_beneath.
  eapply wp_gives_bind; [apply wp_gives_check|]. intros w1 _ Hs1 _. assert (same_files w0 w1) as Hw1 by (by trans w).
  eapply (wp_gives_bind _ _ _ _ (λ _ i, R relative i)).
  { eapply (wp_gives_bind _ _ _ _ (λ _ _, True)); [by apply wp_gives_reject|]. intros w2 _ Hs2 _.
    apply (open_beneath_spec relative relative []); [by trans w1|done]. }
  intros w2 file Hs2 HR. eapply wp_gives_bind; [unfold file_metadata; apply wp_gives_look|].
  intros w3 m Hs3 Hm. cbn in Hm. destruct (w_fs w3 !! file) as [n|] eqn:En; [|done]. injection Hm as <-.
  assert (same_files w0 w3) as Hw3 by (by trans w1; [|trans w2]).
  eapply (wp_gives_bind _ _ _ _ (λ _ e, files !! relative = Some e)).
  { apply wp_gives_lift. intros e He. by apply ok_or_Ok in He. }
  intros w4 expected _ He. eapply (wp_gives_bind _ _ _ _ (λ _ _, nd_kind n = Regular ∧ expected = file)).
  { apply wp_gives_reject. cbn [stat_of fst]. rewrite is_kind_node. cbn. intros Hb. breflect. done. }
  intros w5 _ _ [Hk ->]. eapply wp_gives_bind; [apply (wp_gives_look _ _ (λ _, Ok tt))|]. intros w6 _ _ _.
  apply wp_gives_ret. split_and!; [done..|]. by exists w3, n.
Qed.

Lemma open_all_spec files w :
  same_files w0 w →
  wp (open_matched_artifacts orc cancellable root files) w
    (gives w (λ _ opened, Forall2 (opened_as files) (merge_sort path_le (map_to_list files).*1) opened)).
Proof.
  intros Hw. unfold open_matched_artifacts.
  apply (wp_gives_fold _ _ (λ opened dn, Forall2 (opened_as files) dn opened)); [|done].
  intros opened dn relative w1 _ Hs Hall. eapply wp_gives_bind; [apply open_matched_spec; by trans w|].
  intros w2 a _ Ha. apply wp_gives_ret. apply Forall2_app; [done|]. by constructor.
Qed.
End opening.

(** * Confinement *)

(** No directory of the workspace leads out of it except through a symbolic
    link. *)
Definition closed (inside : FileIdentity → Prop) (fs : FS) : Prop :=
  ∀ d name i n, inside d → entry fs d name = Some i → fs !! i = Some n → nd_kind n ≠ Symlink → inside i.

(** C36: Every file an archive is made from lies inside the workspace, is the very
    file the walk selected, and was a regular file when it was opened, whatever the
    task's processes do to the workspace in the meantime, as long as they cannot
    bring foreign files into it other than by symbolic links. *)
Theorem opened_artifacts_confined (orc : nat → answer) cancellable inside root files w w' opened :
  stable orc (closed inside) → closed inside (w_fs w) → inside root →
  open_matched_artifacts orc cancellable root files w = (w', Ok opened) →
  Forall (λ a, inside (oa_file a) ∧ files !! oa_relative a = Some (oa_file a)) opened ∧
  oa_relative <$> opened ≡ₚ (map_to_list files).*1.
Proof.
  intros Hst Hc Hr Ho.
  pose proof (open_all_spec orc cancellable w root (λ _ i, inside i) Hr) as Hs.
  specialize (Hs ltac:(intros w1 pre d name i n Hs1 Hd He Hn Hk; by apply (Hs1 _ Hst Hc d name i n)) files w).
  specialize (Hs ltac:(done)). eapply wp_run in Hs; [|exact Ho]. destruct Hs as (_ & _ & Hall).
  specialize (Hall opened eq_refl). split.
  - eapply Forall2_Forall_r; [exact Hall|]. apply Forall_true. by intros rel a (<- & ? & ? & _).
  - rewrite (Forall2_fmap_r oa_relative _ _ _ Hall) by (by intros ? ? [? _]). apply merge_sort_Permutation.
Qed.

(** * Publishing *)

Section publishing.
Context `{Glob, ZipLaws} (orc : nat → answer) (euid egid : N).
Context (lresolve : string → FS → result os_error FileIdentity).
Context (walk : string → (string → bool) → World → list walk_item) (cancellable : bool).
Context (build_root : string) (spec : ArtifactSpec) (config : ArtifactsConfig) (build_id : string).
Context (Hmax : ar_max_transfer_bytes config < u64_max) (Hunc : ar_max_uncompressed_bytes config < u64_max).
Abbreviation max := (ar_max_transfer_bytes config).
Abbreviation max_uncompressed := (ar_max_uncompressed_bytes config).
Abbreviation same_files := (same_files orc).

(** The archive at [dest]. *)
Definition published (w : World) (artifacts : list OpenedArtifact) (dest : string) (w' : World) (size : N) : Prop :=
  ∃ file ms, w_store w' !! dest = Some file ∧ st_mode file = o600 ∧ unzip (st_data file) = Some ms ∧
    Forall2 (member_of orc w) artifacts ms ∧ contents ms ≤ max_uncompressed ∧
    size = len (st_data file) ∧ size ≤ max.

Lemma write_artifacts_zip_spec dest opened w :
  wp (write_artifacts_zip orc euid egid cancellable dest opened max max_uncompressed) w
    (ends orc w (archived orc dest max max_uncompressed w (merge_sort artifact_le opened))).
Proof.
  unfold write_artifacts_zip. apply wp_bind, wp_try. eapply wp_mono; [by apply write_archive_spec|].
  intros w1 [size|[e|]] (Hs & Hd & Ha); [apply wp_ret, ends_ok; auto| |done].
  unfold store_remove_file. apply wp_bind, wp_bind, wp_try, wp_stored.
  - intros w2 Hs2 _. apply wp_ret, wp_fail, ends_err. by trans w1.
  - intros w2 a Hs2 _. apply wp_ret, wp_fail, ends_err. by trans w1.
Qed.

Lemma publish_spec dest temp opened w :
  wp (publish orc euid egid cancellable dest temp config opened) w
    (ends orc w (published w (merge_sort artifact_le opened) dest)).
Proof.
  unfold publish. apply wp_bind, idle_check. intros w1 [[]|[e|]] (Hs1 & Hst1 & Hd1); [|by apply ends_err|done].
  apply wp_bind. eapply wp_mono; [apply write_artifacts_zip_spec|].
  intros w2 [size|[e|]] (Hs2 & Hd2 & Ha); [|by apply ends_err; trans w1|done].
  destruct (Ha size eq_refl) as (data & ms & Hdata & Hz & Hall & Hc & Hsz & Hle).
  assert (same_files w w2) as Hs02 by (by trans w1).
  apply wp_bind. unfold in_context at 1. apply wp_map_err, wp_stored; [intros; apply ends_err; by trans w2|].
  intros w3 a3 Hs3 Hst3. cbn in Hst3 |- *. assert (same_files w w3) as Hs03 by (by trans w2).
  apply wp_bind, idle_check. intros w4 [[]|[e|]] (Hs4 & Hst4 & Hd4); [|by apply ends_err; trans w3|done].
  assert (same_files w w4) as Hs04 by (by trans w3).
  apply wp_bind. unfold in_context. apply wp_map_err, wp_stored; [intros; apply ends_err; by trans w4|].
  intros w5 a5 Hs5 Hst5. rewrite Hst4, Hst3 in *. assert (same_files w w5) as Hs05 by (by trans w4).
  destruct (w_store w2 !! temp) as [file|] eqn:Ef; [|done]. injection Hdata as Hdata.
  rewrite lookup_alter, decide_True, Ef in * by done. cbn in Hst5 |- *.
  apply wp_bind, idle_check. intros w6 [[]|[e|]] (Hs6 & Hst6 & Hd6); [|by apply ends_err; trans w5|done].
  apply wp_ret, ends_ok; [by trans w5|]. unfold published. rewrite Hst6, Hst5.
  eexists _, ms. rewrite lookup_insert_eq. cbn. rewrite Hdata. split_and!; try done.
  eapply Forall2_impl; [exact Hall|]. intros. by apply (member_of_from orc w w1).
Qed.

(** * The whole collection *)

(** The file a relative path names beneath [root]. *)
Definition beneath (fs : FS) (root : FileIdentity) (rel : rel_path) : option FileIdentity :=
  foldl (λ d c, d ≫= λ d, match c with Normal name => entry fs d name | _ => None end) (Some root) rel.

Lemma beneath_app fs root pre name :
  beneath fs root (pre ++ [Normal name]) = beneath fs root pre ≫= λ d, entry fs d name.
Proof. unfold beneath. by rewrite foldl_app. Qed.

(** A member is the regular file its path names beneath the workspace. *)
Definition copy_of (fs : FS) (rel : rel_path) (m : member) : Prop :=
  ∃ root i n, lresolve build_root fs = Ok root ∧ beneath fs root rel = Some i ∧ fs !! i = Some n ∧
    nd_kind n = Regular ∧ mb_mode m = stat_mode n ∧ mb_content m = nd_data n.

(** The published archive has one member for each file that the walk of the
    workspace listed and the rules allow, and no other, within the limits. *)
Definition archive_ok (w w' : World) (a : ArtifactArchive) : Prop :=
  ∃ file ms rels w1,
    w_store w' !! archive_path config build_id = Some file ∧ st_mode file = o600 ∧
    aa_size a = len (st_data file) ∧ aa_size a ≤ max ∧
    unzip (st_data file) = Some ms ∧ contents ms ≤ max_uncompressed ∧
    N.of_nat (length ms) ≤ ar_max_files config ∧
    same_files w w1 ∧
    (∀ rel, rel ∈ rels ↔
       listed build_root (walk build_root (walk_keeps (artifact_walk_prefixes (as_include spec)) build_root) w1) rel ∧
       allowed spec config rel) ∧
    NoDup (fold_key <$> rels) ∧
    Forall2 (λ rel m, mb_name m = unbackslash (lossy rel) ∧ (quiet orc → copy_of (w_fs w) rel m)) rels ms.

Definition artifact_of (w : World) (root : FileIdentity) (files : matched) : rel_path → OpenedArtifact → Prop :=
  opened_as orc w (λ pre i, quiet orc → beneath (w_fs w) root pre = Some i) files.

Lemma collected_archive w0 w root files opened w1 w' size a :
  same_files w0 w → same_files w w1 → lresolve build_root (w_fs w) = Ok root →
  selection orc walk spec config build_root w0 files →
  validate_artifact_count_and_depth files (ar_max_files config) (ar_max_depth config) = Ok tt →
  Forall2 (artifact_of w root files) (merge_sort path_le (map_to_list files).*1) opened →
  published w1 (merge_sort artifact_le opened) (archive_path config build_id) w' size →
  aa_size a = size → archive_ok w0 w' a.
Proof.
  intros Hs0 Hs1 Hroot Hall Hv Hop (file & ms & Hf & Hmode & Hz & Hms & Hc & Hsz & Hle) Ha.
  apply count_and_depth_Ok in Hv as [Hcount Hnd].
  assert (oa_relative <$> opened = merge_sort path_le (map_to_list files).*1) as Hrel.
  { apply (Forall2_fmap_r oa_relative _ _ _ Hop). by intros ? ? [? _]. }
  assert (oa_relative <$> merge_sort artifact_le opened ≡ₚ (map_to_list files).*1) as Hperm.
  { rewrite merge_sort_Permutation, Hrel. apply merge_sort_Permutation. }
  destruct Hall as (_ & w3 & Hs3 & Hsel).
  exists file, ms, (oa_relative <$> merge_sort artifact_le opened), w3. rewrite Ha. split_and!; try done.
  - rewrite <-(Forall2_length _ _ _ Hms), <-(length_fmap oa_relative), Hperm, length_fmap.
    by rewrite length_map_to_list.
  - intros rel. rewrite Hperm, <-Hsel, list_elem_of_fmap. split.
    + intros ([r i] & -> & Hi). apply elem_of_map_to_list in Hi. by eexists.
    + intros [i Hi]. exists (rel, i). split; [done|]. by apply elem_of_map_to_list.
  - by rewrite Hperm.
  - assert (Forall (λ o, artifact_of w root files (oa_relative o) o) (merge_sort artifact_le opened)) as Hfs.
    { rewrite merge_sort_Permutation. eapply Forall2_Forall_r; [exact Hop|]. apply Forall_true.
      intros rel o Ho. pose proof Ho as (-> & _). done. }
    apply Forall2_fmap_l, Forall2_same_length_lookup_2; [by apply Forall2_length in Hms|].
    intros k o m Ho Hm. pose proof (Forall2_lookup_lr _ _ _ _ _ _ Hms Ho Hm) as (Hn & Hmd & Hco).
    split; [done|]. intros Hq. pose proof (Forall_lookup_1 _ _ _ _ Hfs Ho) as (_ & _ & Hb & w2 & n & Hs2 & En & Hk & Hom).
    rewrite (same_files_quiet _ _ _ Hs2 Hq) in En. specialize (Hco Hq).
    rewrite (same_files_quiet _ _ _ Hs1 Hq), En in Hco. injection Hco as Hco.
    exists root, (oa_file o), n. rewrite <-(same_files_quiet _ _ _ Hs0 Hq). split_and!; try done; [by apply Hb|congruence].
Qed.

Lemma wp_gives_then {A B} (c : eff World (halt ArtifactError) A) (k : A → eff World (halt ArtifactError) B) w P
    (Q : World → result (halt ArtifactError) B → Prop) :
  wp c w (gives orc w P) → (∀ w' e, Q w' (Err e)) →
  (∀ w' a, same_files w w' → P w' a → wp (k a) w' Q) → wp (c ≫= k) w Q.
Proof.
  intros Hc He Hk. apply wp_bind. eapply wp_mono; [exact Hc|]. intros w' [a|e] (Hs & _ & HP); auto.
Qed.

(** C35: An artifact archive that is published holds exactly one member per selected
    file: the files are all those the walk of the workspace listed that the server's
    include, exclude and restricted patterns and depth limit allow, and no others;
    no two names differ only in case, and the number of members,
    their uncompressed bytes and the archive's size are within the configured
    limits; the file is private to the daemon and its size is the one announced.
    When no other process touches the workspace meanwhile, every member is the
    content and mode of the regular file its path names beneath the workspace, with
    no symbolic link on the way. *)
Theorem archive_is_selection w w' a restrictions :
  collect_artifacts_zip_controlled orc euid egid lresolve walk cancellable build_root spec config build_id w =
    (w', Ok {| ac_archive := Some a; ac_restrictions := restrictions |}) →
  archive_ok w w' a.
Proof.
  intros Hrun. revert Hrun. generalize restrictions. cut (wp (collect_artifacts_zip_controlled orc euid egid lresolve
    walk cancellable build_root spec config build_id) w (λ w' r, ∀ a restrictions,
    r = Ok {| ac_archive := Some a; ac_restrictions := restrictions |} → archive_ok w w' a)).
  { intros Hw restr Hrun. by apply (wp_run _ _ _ _ _ Hw Hrun a restr). }
  clear a restrictions w'. unfold collect_artifacts_zip_controlled.
  eapply wp_gives_then; [apply wp_gives_check|done|]. intros w1 _ Hs1 _.
  case_bool_decide; [by apply wp_ret|].
  eapply wp_gives_then; [unfold open_directory; apply wp_gives_look|done|]. intros w2 root Hs2 Hroot.
  assert (lresolve build_root (w_fs w2) = Ok root) as Hres.
  { apply bind_Ok in Hroot as (i & -> & Hm). apply bind_Ok in Hm as (m & _ & Hm). by destruct (is_kind _ _); simplify_eq. }
  eapply wp_gives_then; [apply wp_gives_check|done|]. intros w3 _ Hs3 _.
  eapply wp_gives_then; [apply select_spec|done|]. intros w4 [files restr] Hs4 Hall. cbn in Hall.
  case_bool_decide; [by apply wp_ret|].
  eapply wp_gives_then; [apply wp_gives_exact|done|]. intros w5 [] Hs5 Hv.
  assert (same_files w2 w5) as Hs25 by (by trans w3; [|trans w4]).
  eapply wp_gives_then; [apply (open_all_spec orc cancellable w2 root
    (λ pre i, quiet orc → beneath (w_fs w2) root pre = Some i)); [done| |done]|done|].
  { intros w6 pre d name i n Hs6 Hb He _ _ Hq. rewrite beneath_app, (Hb Hq). cbn.
    by rewrite <-(same_files_quiet _ _ _ Hs6 Hq). }
  intros w6 opened Hs6 Hop.
  eapply (wp_gives_then _ _ _ (λ _ _, True)); [by apply wp_gives_reject|done|]. intros w7 _ Hs7 _.
  apply wp_bind. unfold in_context at 1. apply wp_map_err, wp_stored; [done|]. intros w8 a8 Hs8 _. cbn [snd store_create_dir map_err].
  apply wp_bind. unfold in_context at 1. apply wp_map_err, wp_stored; [done|]. intros w9 a9 Hs9 _. cbn [snd map_err].
  apply wp_bind, wp_try. eapply wp_mono; [apply publish_spec|]. intros w10 [size|[e|]] (Hs10 & Hd & Hp).
  - apply wp_ret. intros a restrictions [= <- <-].
    assert (same_files w w2) as Hs02 by (by trans w1).
    assert (same_files w2 w9) as Hs29 by (trans w5; [done|]; trans w6; [done|]; trans w7; [done|]; by trans w8).
    eapply (collected_archive w w2 root files opened w9 w10 size); try done; [|by apply Hp].
    apply (selection_from _ _ _ _ _ _ w3); [by trans w2|done].
  - apply wp_bind. unfold wp, store_remove_all. by destruct (an_fault _).
  - done.
Qed.
End publishing.
