(* ===== verification/ArtifactWalk.v ===== *)
(** The walk for artifacts skips only what no include pattern can match; and a
    concrete workspace, archive format and walk, with a swap that stalls a
    collection. *)
From Stdlib Require Import Ascii.
From stdpp Require Import base option strings numbers list gmap sorting.
From S2P Require Import Prelude Effects RustStr Validation Fs Posix Protocol Config Artifacts ArtifactZip ArtifactFacts ArtifactTheorems.

Local Open Scope N_scope.

(** The bytes of a pattern before its first metacharacter. *)
Fixpoint literal_head (p : string) : string :=
  match p with
  | EmptyString => EmptyString
  | String a p => if is_glob_byte a then EmptyString else String a (literal_head p)
  end.

(** What the [glob] crate documents of the other characters: they match
    themselves. *)
Definition literal_bytes_match `{Glob} : Prop :=
  ∀ p g s, Pattern_new p = Ok g → Pattern_matches g s = true →
    starts_with (literal_head p) s = true ∧ (has_glob_byte p = false → s = p).

(** A file name: not empty, [.] or [..], and without a slash. *)
Definition plain_name (n : string) : Prop := classify n = [Normal n] ∧ contains_byte slash n = false.

(** * Text *)

Lemma starts_with_app a b s :
  starts_with (a +:+ b) s = true → ∃ s', s = a +:+ s' ∧ starts_with b s' = true.
Proof.
  intros (t & ->)%starts_with_true. exists (b +:+ t). rewrite string_app_assoc. split; [done|].
  apply starts_with_true. by eexists.
Qed.

Lemma literal_head_app a b : has_glob_byte a = false → literal_head (a +:+ b) = a +:+ literal_head b.
Proof.
  unfold has_glob_byte. intros H%negb_false_iff. induction a as [|x a IH]; [done|]. cbn in H.
  apply andb_true_iff in H as [Hx%negb_true_iff Ha]. rewrite !string_app_cons. cbn. rewrite Hx. f_equal. by apply IH.
Qed.

Lemma has_glob_app a b : has_glob_byte (a +:+ b) = has_glob_byte a || has_glob_byte b.
Proof.
  unfold has_glob_byte. rewrite <-negb_andb. f_equal. induction a as [|x a IH]; [done|].
  rewrite string_app_cons. cbn. by rewrite IH, andb_assoc.
Qed.

Lemma lossy_valid s : utf8_valid s = true → from_utf8_lossy s = s.
Proof.
  assert (∀ n s, (String.length s ≤ n)%nat → utf8_valid s = true → from_utf8_lossy s = s) as H; [|by eapply H].
  intros n. induction n as [|n IH]; intros [|a s1] Hn Hv; cbn in Hn; try done; try lia.
  cbn in Hv |- *. destruct (is_ascii_byte a); [f_equal; apply IH; [lia|done]|].
  destruct (in_range 194 223 a).
  { destruct s1 as [|b s2]; [done|]. apply andb_true_iff in Hv as [-> Hv]. cbn in Hn.
    do 2 f_equal. apply IH; [lia|done]. }
  destruct (in_range 224 239 a).
  { destruct s1 as [|b [|c s3]]; try done. apply andb_true_iff in Hv as [Hv Hr].
    apply andb_true_iff in Hv as [-> ->]. cbn in Hn. do 3 f_equal. apply IH; [lia|done]. }
  destruct (in_range 240 244 a); [|done]. destruct s1 as [|b [|c [|d s4]]]; try done.
  apply andb_true_iff in Hv as [Hv Hr]. apply andb_true_iff in Hv as [Hv ->].
  apply andb_true_iff in Hv as [-> ->]. cbn in Hn. do 4 f_equal. apply IH; [lia|done].
Qed.

Lemma split_no c t : contains_byte c t = false → split c t = [t].
Proof.
  rewrite contains_byte_false. induction t as [|a t IH]; [done|]. cbn.
  intros [Ha%negb_true_iff Ht]%andb_true_iff. rewrite Ha, IH by done. done.
Qed.

Lemma split_join c l : l ≠ [] → Forall (λ t, contains_byte c t = false) l → split c (join c l) = l.
Proof.
  intros Hne Hl. induction Hl as [|t l Ht Hl IH]; [done|]. destruct l as [|u l].
  - cbn. by apply split_no.
  - change (join c (t :: u :: l)) with (t +:+ String c (join c (u :: l))).
    rewrite split_app, IH by done. by rewrite split_no.
Qed.

(** * Literal prefixes *)

(** A match of a pattern lies below the pattern's literal components. *)
Lemma literal_parts_match parts p s :
  split slash p = parts → Forall plain_name (split slash s) →
  starts_with (literal_head p) s = true → (has_glob_byte p = false → s = p) →
  literal_prefix (parts ≫= classify) `prefix_of` (Normal <$> split slash s).
Proof.
  revert p s. induction parts as [|part rest IH]; intros p s Hp Hs Hh Hx; [by apply split_ne in Hp|].
  pose proof (split_no_sep slash p) as Hno. rewrite Hp in Hno. apply Forall_cons_1 in Hno as [Hpart Hrest].
  destruct (has_glob_byte part) eqn:Hg.
  { assert (literal_prefix ((part :: rest) ≫= classify) = []) as ->; [|apply prefix_nil].
    cbn. unfold classify at 1. repeat case_bool_decide; subst; try done. cbn. by rewrite Hg. }
  assert (∀ l, part :: l = split slash s → classify part = [Normal part]) as Hcl.
  { intros l Hl. rewrite <-Hl in Hs. by apply Forall_cons_1 in Hs as [[? _] _]. }
  pose proof (join_split slash p) as Hj. rewrite Hp in Hj. destruct rest as [|u rest].
  - cbn in Hj. subst part. assert (s = p) as -> by auto. rewrite (split_no slash p) in * by done.
    specialize (Hcl [] eq_refl). cbn [mbind list_bind]. rewrite Hcl. cbn. by rewrite Hg.
  - change (join slash (part :: u :: rest)) with (part +:+ String slash (join slash (u :: rest))) in Hj.
    set (p' := join slash (u :: rest)) in *. rewrite <-Hj in Hh, Hx.
    assert (literal_head (String slash p') = String slash (literal_head p')) as Hsl by done.
    rewrite literal_head_app, Hsl in Hh by done.
    change (part +:+ String slash (literal_head p')) with (part +:+ ("/" +:+ literal_head p')) in Hh.
    apply starts_with_app in Hh as (s1 & -> & Hh). apply starts_with_app in Hh as (s' & -> & Hh).
    change (part +:+ ("/" +:+ s')) with (part +:+ String slash s') in *.
    rewrite split_app, (split_no slash part) in * by done. cbn [app] in *.
    apply Forall_cons_1 in Hs as [[Hc _] Hs]. cbn [mbind list_bind]. rewrite Hc. cbn [app literal_prefix]. rewrite Hg.
    apply prefix_cons. apply (IH p'); [apply split_join; done|done|done|].
    intros Hg'. rewrite has_glob_app, Hg in Hx. assert (has_glob_byte (String slash p') = has_glob_byte p') as Hp' by done.
    rewrite Hp' in Hx. specialize (Hx Hg'). apply string_app_inj_l in Hx. by injection Hx.
Qed.

Lemma literal_prefix_skip p : literal_prefix (components p) `prefix_of` literal_prefix (split slash p ≫= classify).
Proof.
  unfold components, leading. destruct (is_absolute p); [apply prefix_nil|].
  by case_bool_decide.
Qed.

(** * Ancestors *)

Lemma removelast_prefix {A} (l : list A) : removelast l `prefix_of` l.
Proof.
  induction l as [|x l IH]; [done|]. destruct l as [|y l]; [apply prefix_nil|].
  change (removelast (x :: y :: l)) with (x :: removelast (y :: l)). by apply prefix_cons.
Qed.

Lemma ancestors_prefix cs a : a ∈ ancestors cs → a `prefix_of` cs.
Proof.
  unfold ancestors. generalize (length cs) as n. intros n. revert cs. induction n as [|n IH]; intros cs Ha; cbn in Ha.
  - by apply list_elem_of_singleton in Ha as ->.
  - apply elem_of_cons in Ha as [->|Ha]; [done|]. unfold parent in Ha.
    destruct (last cs) as [[]|]; try (by apply not_elem_of_nil in Ha);
      etrans; [apply IH, Ha|apply removelast_prefix|apply IH, Ha|apply removelast_prefix|apply IH, Ha|apply removelast_prefix].
Qed.

Lemma rel_starts_with_true p base : rel_starts_with p base = true ↔ base `prefix_of` p.
Proof.
  unfold rel_starts_with. rewrite bool_decide_eq_true. split.
  - intros E. exists (drop (length base) p). by rewrite <-E at 1; rewrite take_drop.
  - intros [k ->]. apply take_app_length.
Qed.

(** * Prefixes of the walk *)

Lemma minimal_covers prefixes q :
  q ∈ prefixes → ∃ m, m ∈ minimal_prefixes prefixes ∧ m `prefix_of` q.
Proof.
  unfold minimal_prefixes. set (f := λ minimal prefix, _).
  assert (∀ l acc m, m ∈ acc → m ∈ foldl f acc l) as Hgrow.
  { induction l as [|x l IH]; intros acc m Hm; [done|]. cbn. apply IH. unfold f.
    destruct (existsb _ _); [done|]. apply elem_of_app. by left. }
  generalize (@nil rel_path) as acc. induction prefixes as [|x l IH]; intros acc Hq; [by apply not_elem_of_nil in Hq|].
  apply elem_of_cons in Hq as [->|Hq]; [|by apply IH]. cbn. unfold f at 2.
  destruct (existsb (rel_starts_with x) acc) eqn:E.
  - apply existsb_exists in E as (m & Hm%list_elem_of_In & Hs%rel_starts_with_true). exists m. auto.
  - exists x. split; [|done]. apply Hgrow, elem_of_app. right. apply list_elem_of_here.
Qed.

Section walk.
Context `{Glob} (Hglob : literal_bytes_match) (build_root : string) (Hroot : build_root ≠ "").
Context (include : list string) (patterns : list Pattern).
Context (Hcompile : compile_patterns include "artifacts.include" = Ok patterns).

Lemma compiled_from g : g ∈ patterns → ∃ p, p ∈ include ∧ Pattern_new p = Ok g.
Proof.
  revert patterns Hcompile. induction include as [|p ps IH]; intros globs Hc Hg; cbn in Hc.
  - injection Hc as <-. by apply not_elem_of_nil in Hg.
  - unbind Hc. unfold compile_pattern in E. unbind E. injection Hc as <-.
    apply elem_of_cons in Hg as [->|Hg]; [exists p; split; [apply list_elem_of_here|done]|].
    destruct (IH _ E0 Hg) as (q & ? & ?). exists q. split; [by apply list_elem_of_further|done].
Qed.

Lemma plain_split names : Forall plain_name names → names ≠ [] →
  split slash (path_str (Normal <$> names)) = names.
Proof.
  intros Hn Hne. unfold path_str. rewrite <-list_fmap_compose. cbn.
  rewrite (list_fmap_ext _ id), list_fmap_id by done. apply split_join; [done|].
  eapply Forall_impl; [exact Hn|]. by intros n [_ ?].
Qed.

Lemma plain_classify names : Forall plain_name names → names ≫= classify = Normal <$> names.
Proof. induction 1 as [|n names [Hc _] _ IH]; [done|]. cbn. by rewrite Hc, <-IH. Qed.

(** The walk strips the workspace from a path it built from names. *)
Lemma strip_walked names : Forall plain_name names →
  path_strip_prefix build_root (path_join build_root (path_str (Normal <$> names))) = Some (Normal <$> names).
Proof.
  intros Hn. assert (split slash (path_str (Normal <$> names)) ≫= classify = Normal <$> names) as Hs.
  { destruct names as [|n names]; [done|]. by rewrite plain_split, plain_classify. }
  assert (is_absolute (path_str (Normal <$> names)) = false) as Ha.
  { destruct names as [|n names]; [done|]. unfold is_absolute. apply not_true_is_false.
    intros (t & Ht)%starts_with_true.
    apply (f_equal (split slash)) in Ht. rewrite plain_split in Ht by done.
    change ("/" +:+ t) with (String slash t) in Ht. rewrite split_cons_eq in Ht. injection Ht as -> ->.
    by apply Forall_cons_1 in Hn as [[? _] _]. }
  pose proof (components_join build_root _ Hroot Ha) as Hj. rewrite Hs in Hj.
  unfold path_strip_prefix, path_starts_with. rewrite Hj, take_app_length, bool_decide_true by done.
  by rewrite drop_app_length.
Qed.

(** Walking only the literal prefixes of the include patterns loses no artifact:
    every file the patterns include, and every directory on the way to it, passes
    the walk's filter. *)
Theorem pruned_walk_complete names k :
  Forall plain_name names → (∀ j, utf8_valid (path_str (Normal <$> take j names)) = true) →
  is_included (Normal <$> names) patterns = true →
  walk_keeps (artifact_walk_prefixes include) build_root
    (path_join build_root (path_str (Normal <$> take k names))) = true.
Proof.
  intros Hn Hutf (g & Hg%list_elem_of_In & Hc)%existsb_exists.
  apply existsb_exists in Hc as (c & Hc%list_elem_of_In & Hm).
  apply list_elem_of_filter in Hc as [Hcne Hc%ancestors_prefix].
  destruct (compiled_from g Hg) as (p & Hp & Hnew).
  assert (∃ j, c = Normal <$> take j names) as [j ->].
  { exists (length c). destruct Hc as [l Hl]. rewrite fmap_take, Hl. by rewrite take_app_length. }
  unfold lossy in Hm. rewrite lossy_valid in Hm by done.
  destruct (Hglob p g _ Hnew Hm) as [Hh Hx].
  assert (Forall plain_name (take j names)) as Hj by (by apply Forall_take).
  assert (take j names ≠ []) as Hjne by (intros E; by rewrite E in Hcne).
  pose proof (literal_parts_match _ p (path_str (Normal <$> take j names)) eq_refl) as Hlit. rewrite plain_split in Hlit by done.
  specialize (Hlit Hj Hh Hx).
  destruct (minimal_covers (merge_sort shorter ((λ p, literal_prefix (components p)) <$> include))
    (literal_prefix (components p))) as (m & Hmin & Hmp).
  { rewrite merge_sort_Permutation. apply list_elem_of_fmap. by exists p. }
  assert (m `prefix_of` (Normal <$> names)) as Hmn.
  { etrans; [exact Hmp|]. etrans; [apply literal_prefix_skip|]. by etrans. }
  unfold walk_keeps. rewrite strip_walked by (by apply Forall_take). apply orb_true_iff. right.
  apply existsb_exists. exists m. split; [by apply list_elem_of_In|]. apply orb_true_iff.
  rewrite !rel_starts_with_true. rewrite fmap_take.
  destruct (prefix_weak_total (take k (Normal <$> names)) m (Normal <$> names)); [|done|by left|by right].
  exists (drop k (Normal <$> names)). by rewrite take_drop.
Qed.
End walk.

(** * Collecting old artifact archives ([src/src/artifacts.rs]). *)

Definition DEFAULT_GC_INTERVAL_SECS : N := 3600.

(** * The storage root *)

Definition denied (context message : string) : ArtifactError := ArtifactIo context (Other message).

Section root.
Context (euid : N).

(** [prepare_artifact_storage_root], with what each of its calls answers: the
    root's new mode. *)
Definition prepare_artifact_storage_root (created : result os_error unit)
    (metadata : result os_error file_meta) (protected : result os_error unit) : result ArtifactError N :=
  _ ← map_err (ArtifactIo "create artifacts root") created;
  m ← map_err (ArtifactIo "inspect artifacts root") metadata;
  _ ← reject_if (is_symlink m || negb (is_dir m) || negb (fm_uid m =? euid))
        (denied "validate artifacts root ownership"
           "artifact storage root must be a daemon-owned real directory");
  _ ← map_err (ArtifactIo "protect artifacts root") protected;
  Ok o700.

Definition validate_gc_root (metadata : result os_error file_meta) : result ArtifactError unit :=
  m ← map_err (ArtifactIo "inspect artifact gc root") metadata;
  reject_if (is_symlink m || negb (is_dir m) || negb (fm_uid m =? euid) ||
             negb (N.land (fm_mode m) o777 =? o700))
    (denied "validate artifact gc root protection"
       "artifact gc root must be a daemon-owned, mode-0700 real directory").

(** [spawn_gc_task]: the interval of the thread it starts, if any. *)
Definition spawn_gc_task (config : ArtifactsConfig) (metadata : result os_error file_meta) :
    result ArtifactError (option N) :=
  _ ← validate_gc_root metadata;
  if is_none (ar_ttl_sec config) && is_none (ar_max_bytes config) then Ok None
  else Ok (Some (default DEFAULT_GC_INTERVAL_SECS (ar_gc_interval_sec config))).
End root.

(** * Scanning *)

Record ArtifactEntry := { ae_path : string; ae_size : N; ae_modified : N }.

(** A file below a build's directory, as the walk and [stat] see it: its type, and
    its length and modification time. *)
Record scanned_file := { sf_kind : file_kind; sf_stat : result string (N * option N) }.

Definition scan_step (acc : N * N) (entry : result string scanned_file) : result ArtifactError (N * N) :=
  let '(total, newest) := acc in
  entry ← map_err (λ e, ArtifactIo "walk artifacts" (Other e)) entry;
  if negb (bool_decide (sf_kind entry = Regular)) then Ok (total, newest)
  else
    '(size, modified) ← map_err (λ e, ArtifactIo "stat artifacts" (Other e)) (sf_stat entry);
    Ok (saturating_add total size,
        match modified with Some t => if newest <? t then t else newest | None => newest end).

(** The size of an archive directory and the time of its newest file. *)
Definition scan_entry (files : list (result string scanned_file)) : result ArtifactError (N * N) :=
  fold_each scan_step (0, 0) files.

(** An entry of the storage root: its path, its type and the files below it. *)
Record storage_entry := {
  se_path : string;
  se_kind : result os_error file_kind;
  se_files : list (result string scanned_file);
}.

Definition scan_storage (entries : list ArtifactEntry) (entry : result os_error storage_entry) :
    result ArtifactError (list ArtifactEntry) :=
  entry ← map_err (ArtifactIo "read artifacts entry") entry;
  kind ← map_err (ArtifactIo "stat artifacts entry") (se_kind entry);
  if negb (bool_decide (kind = Directory)) then Ok entries
  else
    '(size, modified) ← scan_entry (se_files entry);
    Ok (entries ++ [{| ae_path := se_path entry; ae_size := size; ae_modified := modified |}]).

Definition scan_artifact_entries (read_dir : result os_error (list (result os_error storage_entry))) :
    result ArtifactError (list ArtifactEntry) :=
  match read_dir with
  | Ok listing => fold_each scan_storage [] listing
  | Err ENOENT => Ok []
  | Err e => Err (ArtifactIo "read artifacts root" e)
  end.

(** * Removing *)

Section gc.
(** The removals that fail, and the current time in seconds since the epoch. *)
Context (stuck : string → bool) (now : N).

(** The state is the list of removed directories. *)
Abbreviation io := (eff (list string)).

Definition remove_dir_all (path : string) : io os_error unit := λ removed,
  if stuck path then (removed, Err EIO) else (removed ++ [path], Ok tt).

(** [entries.retain(..)]: whether an entry stays. *)
Definition expire (cutoff : N) (entry : ArtifactEntry) : io ArtifactError bool :=
  if ae_modified entry <? cutoff then
    r ← io_try (remove_dir_all (ae_path entry));
    mret (match r with Ok _ => false | Err _ => true end)
  else mret true.

Definition retain_fresh (cutoff : N) (entries : list ArtifactEntry) : io ArtifactError (list ArtifactEntry) :=
  io_fold (λ kept entry, stays ← expire cutoff entry; mret (if stays : bool then kept ++ [entry] else kept))
    [] entries.

(** [map(|e| e.size).sum()]: the sum wraps around in a release build. *)
Definition sum_sizes (entries : list ArtifactEntry) : N := sum_of ae_size entries mod (u64_max + 1).

Definition older (a b : ArtifactEntry) : Prop := ae_modified a ≤ ae_modified b.
#[export] Instance older_dec : RelDecision older := λ a b, decide (ae_modified a ≤ ae_modified b).

(** [for entry in entries { if total <= max_bytes { break; } .. }]. *)
Fixpoint shrink (max_bytes total : N) (entries : list ArtifactEntry) : io ArtifactError unit :=
  match entries with
  | [] => mret tt
  | entry :: entries =>
      if total <=? max_bytes then mret tt
      else
        r ← io_try (remove_dir_all (ae_path entry));
        match r with
        | Err _ => shrink max_bytes total entries
        | Ok _ => shrink max_bytes (saturating_sub total (ae_size entry)) entries
        end
  end.

Definition gc_artifacts (euid : N) (config : ArtifactsConfig) (metadata : result os_error file_meta)
    (read_dir : result os_error (list (result os_error storage_entry))) : io ArtifactError unit :=
  _ ← io_lift (validate_gc_root euid metadata);
  entries ← io_lift (scan_artifact_entries read_dir);
  if bool_decide (length entries = 0%nat) then mret tt
  else
    entries ← match ar_ttl_sec config with
              | Some ttl_sec => retain_fresh (now - ttl_sec) entries
              | None => mret entries
              end;
    match ar_max_bytes config with
    | Some max_bytes =>
        let total := sum_sizes entries in
        if max_bytes <? total then shrink max_bytes total (merge_sort older entries) else mret tt
    | None => mret tt
    end.

(** * What is removed *)

Abbreviation paths := (fmap (M := list) ae_path).

(** Expired entries, in the order they were found, when no removal fails. *)
Lemma retain_fresh_spec cutoff entries removed :
  (∀ p, stuck p = false) →
  retain_fresh cutoff entries removed =
    (removed ++ paths (filter (λ e, ae_modified e < cutoff) entries),
     Ok (filter (λ e, ¬ ae_modified e < cutoff) entries)).
Proof.
  intros Hok. unfold retain_fresh.
  assert (∀ l kept removed, io_fold (λ kept entry, stays ← expire cutoff entry;
      mret (if stays : bool then kept ++ [entry] else kept)) kept l removed =
    (removed ++ paths (filter (λ e, ae_modified e < cutoff) l),
     Ok (kept ++ filter (λ e, ¬ ae_modified e < cutoff) l))) as H; [|by rewrite H].
  induction l as [|e l IH]; intros kept rem; cbn [io_fold].
  { cbn. by rewrite !app_nil_r. }
  unfold mbind, eff_bind, expire. destruct (N.ltb_spec (ae_modified e) cutoff).
  - unfold mbind, eff_bind, io_try, remove_dir_all. rewrite Hok. cbn [mret eff_ret]. unfold mbind, eff_bind in IH.
    rewrite IH, filter_cons_True, filter_cons_False by (done || auto). by rewrite <-(assoc (++)).
  - cbn [mret eff_ret]. unfold mbind, eff_bind in IH.
    rewrite IH, filter_cons_False, filter_cons_True by lia. by rewrite <-(assoc (++)).
Qed.

(** The oldest entries, as many as it takes and no more. *)
Definition trims (max_bytes total : N) (entries pre post : list ArtifactEntry) : Prop :=
  entries = pre ++ post ∧ (total - sum_of ae_size pre ≤ max_bytes ∨ post = []) ∧
  ∀ pre' e, pre = pre' ++ [e] → max_bytes < total - sum_of ae_size pre'.

Lemma shrink_spec max_bytes total entries removed :
  (∀ p, stuck p = false) →
  ∃ pre post, trims max_bytes total entries pre post ∧
    shrink max_bytes total entries removed = (removed ++ paths pre, Ok tt).
Proof.
  intros Hok. revert total removed. induction entries as [|e l IH]; intros total removed; cbn [shrink].
  { exists [], []. cbn. rewrite app_nil_r. split; [|done]. split_and!; [done|by right|].
    intros [|] ? Hp; by rewrite ?app_nil in Hp. }
  destruct (N.leb_spec total max_bytes).
  { exists [], (e :: l). cbn. rewrite app_nil_r. split; [|done]. split_and!; [done|left; lia|].
    intros [|] ? Hp; by rewrite ?app_nil in Hp. }
  unfold mbind, eff_bind, io_try, remove_dir_all. rewrite Hok.
  destruct (IH (saturating_sub total (ae_size e)) (removed ++ [ae_path e])) as (pre & post & (-> & Hs & Hmin) & ->).
  exists (e :: pre), post. cbn. rewrite <-(assoc (++)). split; [|done]. unfold saturating_sub in *.
  split_and!; [done|destruct Hs; [left; change (total - (ae_size e + sum_of ae_size pre) ≤ max_bytes); lia|by right]|].
  intros [|e' pre'] x Hp; cbn in Hp.
  - cbn. lia.
  - injection Hp as <- ->. cbn. specialize (Hmin pre' x eq_refl). lia.
Qed.

Lemma sum_of_Permutation {A} (f : A → N) l k : l ≡ₚ k → sum_of f l = sum_of f k.
Proof. induction 1; cbn; lia. Qed.

Lemma sum_of_filter {A} (f : A → N) (P : A → Prop) `{∀ x, Decision (P x)} l : sum_of f (filter P l) ≤ sum_of f l.
Proof.
  induction l as [|x l IH]; [done|]. destruct (decide (P x)).
  - rewrite filter_cons_True by done. cbn [sum_of]. lia.
  - rewrite filter_cons_False by done. cbn [sum_of]. lia.
Qed.

Section policy.
Context (euid : N) (config : ArtifactsConfig) (metadata : result os_error file_meta).
Context (read_dir : result os_error (list (result os_error storage_entry))) (entries : list ArtifactEntry).
Context (ttl : N) (Httl : ar_ttl_sec config = Some ttl) (Hok : ∀ p, stuck p = false).
Context (Hroot : validate_gc_root euid metadata = Ok tt) (Hscan : scan_artifact_entries read_dir = Ok entries).

Abbreviation expired := (filter (λ e, ae_modified e < now - ttl) entries).
Abbreviation fresh := (filter (λ e, ¬ ae_modified e < now - ttl) entries).

(** A garbage collection whose removals succeed removes the expired archives
    and then, oldest first, exactly as many others as it takes to get the rest
    within [artifacts.max_bytes]: what stays is the newest part of the archives,
    within the limit, and one archive fewer would not have been enough. *)
Theorem gc_enforces_policy max_bytes :
  ar_max_bytes config = Some max_bytes → sum_of ae_size entries ≤ u64_max →
  ∃ old new, merge_sort older fresh = old ++ new ∧
    gc_artifacts euid config metadata read_dir [] = (paths expired ++ paths old, Ok tt) ∧
    sum_of ae_size new ≤ max_bytes ∧
    ∀ old' e, old = old' ++ [e] → max_bytes < ae_size e + sum_of ae_size new.
Proof.
  intros Hmax Hfit. unfold gc_artifacts, mbind, eff_bind, io_lift. rewrite Hroot, Hscan.
  case_bool_decide as Hn.
  { apply nil_length_inv in Hn as ->. exists [], []. cbn. split_and!; [done..|lia|]. by intros [|] ?. }
  rewrite Httl, retain_fresh_spec, Hmax by done.
  pose proof (merge_sort_Permutation older fresh) as Hperm. apply (sum_of_Permutation ae_size) in Hperm.
  pose proof (sum_of_filter ae_size (λ e, ¬ ae_modified e < now - ttl) entries).
  assert (sum_sizes fresh = sum_of ae_size fresh) as -> by (unfold sum_sizes; apply N.mod_small; lia).
  destruct (N.ltb_spec max_bytes (sum_of ae_size fresh)).
  - destruct (shrink_spec max_bytes (sum_of ae_size fresh) (merge_sort older fresh) (paths expired) Hok)
      as (old & new & (E & Hs & Hmin) & Hrun).
    exists old, new. rewrite E, sum_of_app in Hperm. cbn [app]. rewrite Hrun. split_and!; [done..| |].
    + destruct Hs as [Hs| ->]; [lia|cbn; lia].
    + intros old' e ->. specialize (Hmin old' e eq_refl). rewrite sum_of_app in Hperm. cbn in Hperm. lia.
  - exists [], (merge_sort older fresh). cbn [app fmap list_fmap]. rewrite app_nil_r. split_and!; [done..|lia|].
    by intros [|] ?.
Qed.

(** Every directory of the storage root is scanned. *)
Lemma scanned_in listing e size modified :
  read_dir = Ok listing → Ok e ∈ listing → se_kind e = Ok Directory → scan_entry (se_files e) = Ok (size, modified) →
  {| ae_path := se_path e; ae_size := size; ae_modified := modified |} ∈ entries.
Proof.
  intros -> Hin Hk Hs. cbn in Hscan.
  eapply (fold_each_inv (λ acc dn, Ok e ∈ dn →
    {| ae_path := se_path e; ae_size := size; ae_modified := modified |} ∈ acc) scan_storage) with (done := []);
    [|by intros ?%not_elem_of_nil|exact Hscan|exact Hin].
  intros acc dn x acc' Hi Hx Hin'. unfold scan_storage in Hx. unbind Hx. subst.
  apply elem_of_app in Hin' as [Hin'|Heq%list_elem_of_singleton].
  - specialize (Hi Hin'). case_bool_decide; cbn in Hx; [|by simplify_eq].
    destruct (scan_entry (se_files x0)) as [[]|]; [|done]. cbn in Hx; simplify_eq. apply elem_of_app. by left.
  - injection Heq as <-. rewrite Hk in E0. injection E0 as <-. rewrite bool_decide_true in Hx by done. cbn in Hx.
    rewrite Hs in Hx. cbn in Hx; simplify_eq. apply elem_of_app. right. apply list_elem_of_here.
Qed.

(** A build directory that holds no file yet counts as older than every
    archive: the collection removes it at once, however new it is, and so the
    directory that an artifact collection has just created for its archive can
    disappear under it. *)
Theorem empty_directory_collected listing e :
  read_dir = Ok listing → Ok e ∈ listing → se_kind e = Ok Directory → se_files e = [] → ttl < now →
  se_path e ∈ (gc_artifacts euid config metadata read_dir []).1.
Proof.
  intros Hr Hin Hk Hf Hnow. pose proof (scanned_in listing e 0 0 Hr Hin Hk ltac:(by rewrite Hf)) as He.
  assert (se_path e ∈ paths expired) as Hex.
  { apply list_elem_of_fmap. eexists. split; [|apply list_elem_of_filter; split; [|exact He]]; cbn; [done|lia]. }
  unfold gc_artifacts, mbind, eff_bind, io_lift. rewrite Hroot, Hscan.
  case_bool_decide as Hn; [apply nil_length_inv in Hn; rewrite Hn in He; by apply not_elem_of_nil in He|].
  rewrite Httl, retain_fresh_spec by done. destruct (ar_max_bytes config) as [max_bytes|]; [|done].
  destruct (_ <? _); [|done].
  destruct (shrink_spec max_bytes (sum_sizes fresh) (merge_sort older fresh) (paths expired) Hok)
    as (old & new & _ & Hrun). cbn [app]. rewrite Hrun. cbn. apply elem_of_app. by left.
Qed.
End policy.
End gc.

(** * A collection *)

Definition demo_storage : list (result os_error storage_entry) :=
  let dir path size time :=
    Ok {| se_path := path; se_kind := Ok Directory;
          se_files := [Ok {| sf_kind := Directory; sf_stat := Ok (4096, Some time) |};
                       Ok {| sf_kind := Regular; sf_stat := Ok (size, Some time) |}] |} in
  [dir "/artifacts/bld_a" 700 9500; dir "/artifacts/bld_b" 300 100; dir "/artifacts/bld_c" 500 9000;
   Ok {| se_path := "/artifacts/bld_d"; se_kind := Ok Directory; se_files := [] |}].

Definition demo_artifacts : ArtifactsConfig := {|
  ar_storage_root := "/artifacts"; ar_ttl_sec := Some 3600; ar_gc_interval_sec := None;
  ar_max_bytes := Some 1000; ar_max_transfer_bytes := 4096; ar_max_uncompressed_bytes := 8192;
  ar_max_files := 10; ar_max_depth := 8; ar_restricted_patterns := ["dist/secret"] |}.

Definition demo_root : result os_error file_meta := Ok (FileMeta Directory 0 0 o700 4096 1 2).

Definition demo_entries : list ArtifactEntry :=
  Eval vm_compute in match scan_artifact_entries (Ok demo_storage) with Ok l => l | Err _ => [] end.

Lemma gc_enforces_policy_witness :
  ∃ old new,
    gc_artifacts (λ _, false) 10000 0 demo_artifacts demo_root (Ok demo_storage) [] =
      (["/artifacts/bld_b"; "/artifacts/bld_d"] ++ (ae_path <$> old), Ok tt) ∧
    sum_of ae_size new ≤ 1000.
Proof.
  destruct (gc_enforces_policy (λ _, false) 10000 0 demo_artifacts demo_root (Ok demo_storage) demo_entries 3600
    eq_refl (λ _, eq_refl) eq_refl eq_refl 1000 eq_refl) as (old & new & _ & Hrun & Hsum & _); [by vm_compute|].
  exists old, new. split; [exact Hrun|exact Hsum].
Defined.

Lemma empty_directory_collected_witness :
  "/artifacts/bld_d" ∈ (gc_artifacts (λ _, false) 10000 0 demo_artifacts demo_root (Ok demo_storage) []).1.
Proof.
  apply (empty_directory_collected (λ _, false) 10000 0 demo_artifacts demo_root (Ok demo_storage) demo_entries 3600
    eq_refl (λ _, eq_refl) eq_refl eq_refl demo_storage
    {| se_path := "/artifacts/bld_d"; se_kind := Ok Directory; se_files := [] |} eq_refl);
    [|reflexivity..|lia].
  apply list_elem_of_In. cbn. tauto.
Defined.

(** * A concrete workspace, archive format and walk; and a swap that stalls a
    collection. *)

(** * An archive format: the members, written when the archive is finished *)

Definition pack_members (ms : list member) : string :=
  pos_bits (countable.encode ((λ m, (mb_name m, mb_mode m, mb_content m)) <$> ms)).
Definition unpack_members (s : string) : option (list member) :=
  match countable.decode (A := list (string * N * string)) (bits_pos s) with
  | Some l => Some ((λ m : string * N * string, Member m.1.1 m.1.2 m.2) <$> l)
  | None => None
  end.

Lemma members_unpack ms : unpack_members (pack_members ms) = Some ms.
Proof.
  unfold unpack_members, pack_members. rewrite bits_pos_bits, countable.decode_encode. cbn. f_equal.
  rewrite <-list_fmap_compose. rewrite <-(list_fmap_id ms) at 2. apply list_fmap_ext. by intros _ [] _.
Qed.

#[export] Instance demo_zip : ZipWriter := {|
  zip := list member;
  zip_new := [];
  zip_start_file name mode z := Ok (z ++ [Member name mode ""], []);
  zip_write bytes z := (extend_last bytes z, []);
  zip_finish z := Ok [OpSeek 0; OpWrite (pack_members z)];
|}.

#[export, refine] Instance demo_zip_laws : ZipLaws := {|
  zip_file _ := (0, "");
  zip_members z := z;
  unzip := unpack_members;
|}.
Proof.
  - done.
  - intros name mode z z' ops [= <- <-]. done.
  - intros bytes z z' ops [= <- <-]. done.
  - intros z ops [= <-]. exists (len (pack_members z)), (pack_members z). split; [|apply members_unpack].
    assert (overwrite 0 (pack_members z) "" = pack_members z) as E.
    { apply s2l_inj. rewrite overwrite_in by done. cbn. by rewrite drop_nil, app_nil_r. }
    change (Some (0 + len (pack_members z), overwrite 0 (pack_members z) "") = Some (len (pack_members z), pack_members z)). by rewrite E.
Defined.

(** * A workspace *)

Definition inode_at (n : N) : FileIdentity := {| device := 1; inode := n |}.

Definition demo_workspace : FS :=
  list_to_map [
    (inode_at 1, Node Directory 1000 1000 493 "" {["dist" := inode_at 2]});
    (inode_at 2, Node Directory 1000 1000 493 "" (list_to_map [("app", inode_at 3); ("secret", inode_at 4)]));
    (inode_at 3, Node Regular 1000 1000 493 "binary" ∅);
    (inode_at 4, Node Regular 1000 1000 384 "key" ∅)].

Definition demo_lresolve (path : string) (fs : FS) : result os_error FileIdentity :=
  ok_or (rel ← path_strip_prefix "/ws" path; beneath fs (inode_at 1) rel) ENOENT.

Definition demo_walk (root : string) (keep : string → bool) (w : World) : list walk_item :=
  Ok <$> filter (λ e, keep e.1 = true)
    [("/ws", Directory); ("/ws/dist", Directory); ("/ws/dist/app", Regular); ("/ws/dist/secret", Regular);
     ("/ws/node_modules", Directory)].

Definition calm (k : nat) : answer := mkAnswer id false 0 "" 3 false.

Definition demo_spec : ArtifactSpec := {| as_include := ["dist/app"; "dist/secret"]; as_exclude := [] |}.

Definition demo_world : World := mkWorld demo_workspace ∅ 0.

Abbreviation demo_collect :=
  (collect_artifacts_zip_controlled calm 0 0 demo_lresolve demo_walk true "/ws" demo_spec demo_artifacts "bld_1"
     demo_world).

Definition demo_collected : World := Eval vm_compute in demo_collect.1.
Definition demo_archive : ArtifactArchive :=
  Eval vm_compute in match demo_collect.2 with
                     | Ok {| ac_archive := Some a |} => a
                     | _ => {| aa_path := ""; aa_size := 0 |}
                     end.

Lemma demo_collect_ends :
  demo_collect = (demo_collected, Ok {| ac_archive := Some demo_archive;
    ac_restrictions := Some {| omitted_count := 1; matched_patterns := ["dist/secret"] |} |}).
Proof. by vm_compute. Qed.

Lemma archive_is_selection_witness :
  archive_ok calm demo_lresolve demo_walk "/ws" demo_spec demo_artifacts "bld_1" demo_world demo_collected demo_archive ∧
  (file ← w_store demo_collected !! "/artifacts/bld_1/artifacts.zip"; unpack_members (st_data file)) =
    Some [Member "dist/app" 33261 "binary"].
Proof.
  split; [|by vm_compute].
  apply (archive_is_selection calm 0 0 demo_lresolve demo_walk true "/ws" demo_spec demo_artifacts "bld_1"
    ltac:(by vm_compute) ltac:(by vm_compute) demo_world demo_collected demo_archive
    (Some {| omitted_count := 1; matched_patterns := ["dist/secret"] |})).
  exact demo_collect_ends.
Defined.

(** * Confinement *)

Definition demo_files : matched := {[ [Normal "dist"; Normal "app"] := inode_at 3 ]}.
Definition demo_opened : World * list OpenedArtifact :=
  Eval vm_compute in match open_matched_artifacts calm true (inode_at 1) demo_files demo_world with
                     | (w, Ok l) => (w, l)
                     | (w, Err _) => (w, [])
                     end.

Lemma opened_artifacts_confined_witness :
  Forall (λ a, (inode (oa_file a) ≤ 4) ∧ demo_files !! oa_relative a = Some (oa_file a)) demo_opened.2.
Proof.
  apply (opened_artifacts_confined calm true (λ i, inode i ≤ 4) (inode_at 1) demo_files demo_world demo_opened.1).
  - intros k fs Hc. exact Hc.
  - intros d name i n _ He _ _. unfold entry in He. cbn in He. apply bind_Some in He as (nd & Hd & Hn).
    unfold demo_workspace in Hd. cbn in Hd.
    repeat (apply lookup_insert_Some in Hd as [[<- <-]|[_ Hd]]); [..|by rewrite lookup_empty in Hd]; cbn in Hn.
    1: apply lookup_singleton_Some in Hn as [_ <-]; by vm_compute.
    all: repeat (apply lookup_insert_Some in Hn as [[_ <-]|[_ Hn]]; [by vm_compute|]); by rewrite lookup_empty in Hn.
  - by vm_compute.
  - by vm_compute.
Defined.

(** * The walk *)

Lemma demo_glob_literal : literal_bytes_match (H := demo_glob).
Proof.
  intros p g s Hn Hm. cbn in *. destruct (contains_byte "[" p); [done|]. injection Hn as <-.
  apply bool_decide_eq_true in Hm as ->. split; [|done]. apply starts_with_true.
  induction s as [|a s [t IH]]; [by exists ""|]. cbn. destruct (is_glob_byte a); [by exists (String a s)|].
  exists t. by rewrite string_app_cons, <-IH.
Qed.

Lemma pruned_walk_complete_witness :
  walk_keeps (artifact_walk_prefixes ["dist/app"; "logs/*.txt"]) "/ws" "/ws/dist" = true.
Proof.
  apply (pruned_walk_complete (H := demo_glob) demo_glob_literal "/ws" ltac:(done) ["dist/app"; "logs/*.txt"]
    ["dist/app"; "logs/*.txt"] ltac:(by vm_compute) ["dist"; "app"] 1).
  - repeat constructor.
  - intros [|[|[|j]]]; by vm_compute.
  - by vm_compute.
Defined.

(** * A stalled collection *)

(** A process of the session replaces the selected file by a named pipe between
    the walk and the open: the open waits for a writer that never comes. *)
Definition swap (k : nat) : answer :=
  mkAnswer (λ fs, if bool_decide (8 ≤ k)%nat then <[inode_at 3 := Node Fifo 1000 1000 384 "" ∅]> fs else fs)
    false 0 "" 0 false.

(** An artifact collection can hang: a process that still runs in the workspace
    (a service of the session) replaces a selected file by a named pipe after the
    walk has checked its type, and [openat] without [O_NONBLOCK] then waits for a
    writer. *)
Theorem swapped_pipe_stalls_collection :
  (collect_artifacts_zip_controlled swap 0 0 demo_lresolve demo_walk true "/ws" demo_spec demo_artifacts "bld_1"
     demo_world).2 = Err Diverged.
Proof. by vm_compute. Qed.
