(* ===== verification/Tasks.v ===== *)
(** Running a task ([src/src/build.rs]): one phase with its threads and its
    deadline, the setup and run phases of a build, the event stream a build answers
    with, and the start, the actions and the teardown of a session. *)
From Stdlib Require Import Ascii.
From stdpp Require Import base option strings numbers list gmap pretty.
From S2P Require Import Prelude Effects RustStr Validation Protocol Accounts Archive Config RunAs Process Posix Artifacts Output.

Local Open Scope N_scope.

(** [BuildError] with the fields the phases add to it. *)
Record TaskError := mkTaskError {
  er_error : BuildError;
  er_pattern : option string;
  er_phase : option BuildPhase;
  er_phases : list PhaseResult;
}.

Definition task_error (e : BuildError) : TaskError := mkTaskError e None None [].
Definition new_error (code message : string) : TaskError := task_error (mkBuildError code message).
Definition with_pattern (code message pattern : string) : TaskError :=
  mkTaskError (mkBuildError code message) (Some pattern) None [].
Definition in_phase (phase : BuildPhase) (e : TaskError) : TaskError :=
  mkTaskError (er_error e) (er_pattern e) (Some phase) (er_phases e).
Definition with_phases (phases : list PhaseResult) (e : TaskError) : TaskError :=
  mkTaskError (er_error e) (er_pattern e) (er_phase e) phases.

Definition stream_closed : TaskError := new_error "stream_closed" "client disconnected".

Definition map_artifact_error (e : ArtifactError) : TaskError :=
  match e with
  | GlobMiss pattern =>
      with_pattern "artifact_glob_miss" "artifact pattern matched nothing" pattern
  | _ => new_error "artifact_collection_failed" (ArtifactError_to_string e)
  end.

Record ValidatedRequest := {
  vr_request_id : option string;
  vr_task_id : string;
  vr_task : TaskConfig;
}.

Definition validate_request (request : Request) (config : Config) : result BuildError ValidatedRequest :=
  if negb (bool_decide (rq_schema_version request = REQUEST_SCHEMA_VERSION))
  then Err (mkBuildError "schema_version"
              ("unsupported schema_version " +:+ rq_schema_version request))
  else
    task ← ok_or (cf_tasks config !! rq_task request)
             (mkBuildError "unknown_task" ("unknown task " +:+ rq_task request));
    Ok {| vr_request_id := rq_request_id request; vr_task_id := rq_task request; vr_task := task |}.

(** * Handing the workspace to the task's user *)

(** The owners of paths, and how many checks and calls were made. *)
Record owners := Owners { ow_owners : gmap string (N * N); ow_checks : nat; ow_calls : nat }.

Section ownership.
(** What the checks of the flag and the deadline find, and which calls fail. *)
Context (g : guard) (faults : nat → option io_error).

Definition ownership_error (message : string) : BuildError := mkBuildError "workspace_ownership" message.

Definition check_owning : eff owners BuildError unit := λ w,
  (Owners (ow_owners w) (S (ow_checks w)) (ow_calls w), check_guard g (ow_checks w)).

(** [lchown] does not follow a symbolic link. *)
Definition lchown (path : string) (uid gid : N) : eff owners BuildError unit := λ w,
  match faults (ow_calls w) with
  | Some e => (Owners (ow_owners w) (ow_checks w) (S (ow_calls w)),
               Err (ownership_error ("failed to assign fresh workspace to task user: " +:+ io_error_message e)))
  | None => (Owners (<[path := (uid, gid)]> (ow_owners w)) (ow_checks w) (S (ow_calls w)), Ok tt)
  end.

Definition own_entry (run_as : RunAs) (entry : result string string) : eff owners BuildError unit :=
  _ ← check_owning;
  path ← io_lift (map_err (λ e, ownership_error ("failed to inspect fresh workspace: " +:+ e)) entry);
  _ ← io_reject (contains_byte nul path) (ownership_error "workspace path contains NUL");
  lchown path (ui_uid (ra_user run_as)) (ra_gid run_as).

(** [walk] is what [WalkDir] yields, without following links. *)
Definition prepare_workspace_ownership_inner (walk : list (result string string)) (run_as : RunAs) :
    eff owners BuildError unit :=
  _ ← check_owning;
  if negb (ra_set_ids run_as) then mret tt else io_each (own_entry run_as) walk.
End ownership.

Section tasks.
Context `{AccountDb}.
(** The machine: the moves around every call, the failures between [fork] and
    [exec], and how soon a killed group is gone. *)
Context (capacity : nat).
Context (orc : nat → task_move) (pre_faults : nat → pre_exec_call → option io_error).
Context (kill_delay : option N).
(** The daemon's identity, the group database and the file system. *)
Context (daemon : cred) (group_list : string → N → list N).
Context (canonicalize : string → result io_error string).
Context (config : Config).

Abbreviation max_output := (bc_max_output_bytes (cf_build config)).
Abbreviation machine_moves := (λ k, move_of capacity max_output (orc k)).
Abbreviation io := (eff (Machine Shared)).
Abbreviation instant_now := (instant_now machine_moves kill_delay).
Abbreviation thread_sleep := (thread_sleep machine_moves kill_delay).
Abbreviation is_cancelled := (is_cancelled machine_moves kill_delay).
Abbreviation atomically := (atomically machine_moves kill_delay).
Abbreviation poll_shared := (poll_shared machine_moves kill_delay).
Abbreviation advance := (advance machine_moves kill_delay).

(** * Sending events *)

(** [send_response]: whether the channel accepted the event. *)
Definition send_response (event : ResponseEvent) : io (halt TaskError) bool :=
  poll_shared OUTPUT_FORWARD_GRACE (ms 10) (λ _, try_send capacity event)
    (λ sent, match sent with SendOk => Some true | SendClosed => Some false | SendFull => None end)
    false.

(** [send_response(..).map_err(..)?]. *)
Definition send_or (error : TaskError) (event : ResponseEvent) : io (halt TaskError) unit :=
  sent ← send_response event;
  io_reject (negb sent) (Raised error).

(** * Threads *)

Definition add_reader (kind : StreamKind) (s : Shared) : Shared * nat :=
  (set_readers (sh_readers s ++ [Reader kind Reading]) s, length (sh_readers s)).
Definition spawn_output_thread (kind : StreamKind) : io (halt TaskError) nat :=
  atomically (λ _, add_reader kind).

Definition reader_done (i : nat) (s : Shared) : bool :=
  match sh_readers s !! i with
  | Some r => match rd_state r with Done => true | _ => false end
  | None => true
  end.

(** [while !handle.is_finished() && Instant::now() < deadline]; a thread that
    outlives the deadline is left behind. *)
Definition join_thread (grace : N) (finished : Shared → bool) : io (halt TaskError) unit :=
  poll_shared grace (ms 10) (λ _ s, (s, finished s)) (λ ended, if ended then Some tt else None) tt.

Definition join_output_thread (i : nat) : io (halt TaskError) unit :=
  join_thread OUTPUT_FORWARD_GRACE (reader_done i).

Definition writer_result (i : nat) (s : Shared) : option (result io_error unit) :=
  sh_writers s !! i ≫= wr_result.

Definition join_bounded_thread (i : nat) : io (halt TaskError) unit :=
  join_thread BRIDGE_SHUTDOWN_GRACE (λ s, is_some (writer_result i s)).

Definition add_writer (input : string) (s : Shared) : Shared * nat :=
  (set_writers (sh_writers s ++ [Writer input 0 false None]) s, length (sh_writers s)).

Definition fault_message (f : kill_fault) : string :=
  match f with NotPermitted => "operation not permitted" | OtherFault => "operation failed" end.

(** A call that only succeeds or fails: [fcntl] on the pipe. *)
Definition make_nonblocking : io (halt TaskError) unit := λ m,
  let fault := tm_fault (orc (m_tick m)) in
  (advance 0 m,
   match fault with
   | None => Ok tt
   | Some f => Err (Raised (new_error "stdin_write_failed"
                 ("failed to make task stdin nonblocking: " +:+ fault_message f)))
   end).

Definition spawn_stdin_writer (input : string) : io (halt TaskError) nat :=
  _ ← make_nonblocking;
  atomically (λ _, add_writer input).

Definition tell_writer (i : nat) (s : Shared) : Shared :=
  set_writers (alter (λ w, Writer (wr_input w) (wr_written w) true (wr_result w)) i (sh_writers s)) s.

(** [recv_timeout]: the value that arrives before the timeout. *)
Definition recv_timeout (timeout : N) (i : nat) : io (halt TaskError) (option (result io_error unit)) :=
  poll_shared timeout (ms 1) (λ _ s, (s, writer_result i s)) (option_map Some) None.

Definition finish_stdin_writer (i : nat) : io (halt TaskError) (result io_error unit) :=
  _ ← atomically (λ _ s, (tell_writer i s, tt));
  received ← recv_timeout OUTPUT_FORWARD_GRACE i;
  _ ← join_bounded_thread i;
  mret (default (Err (IoError TimedOut "stdin writer did not stop")) received).

(** * Starting a program *)

(** The argument vector of [Command]. *)
Definition command_line (execution : TaskExecution) : string * list string :=
  match execution with
  | Script script => (SCRIPT_SHELL, ["-eu"; "-c"; script])
  | Executable path args => (path, args)
  end.

Definition spawned (i : image) (m : Machine Shared) : Machine Shared :=
  mkMachine (m_now m) (m_tick m) (Group Running 0 0) None (m_signals m) (m_cancelled m)
    (push_image i (m_shared m)).

(** [spawn_command]: fork, the [pre_exec] closure, exec. *)
Definition spawn_command (program : string) (args : list string) (cwd : string)
    (env : gmap string string) (stdin : bool) (run_as : RunAs) : io io_error unit := λ m,
  let tick := m_tick m in
  let m := advance 0 m in
  match tm_fault (orc tick) with
  | Some f => (m, Err (IoError OtherKind (fault_message f)))
  | None =>
      match pre_exec (pre_faults tick) group_list run_as daemon with
      | (child, Ok _) => (spawned (Image program args cwd env stdin child (m_group m)) m, Ok tt)
      | (_, Err e) => (m, Err e)
      end
  end.

(** * One phase *)

Definition phase_name (phase : BuildPhase) : string :=
  match phase with Setup => "setup" | Run => "run" end.

Definition u64_millis (d : N) : N := N.min u64_max (as_millis d).

(** The handles taken from the child, and the thread for its input. *)
Definition io_setup (phase : BuildPhase) (stdin : option string) : io (halt TaskError) (option nat) :=
  match stdin with
  | Some input =>
      i ← io_map_err (halt_map (in_phase phase)) (spawn_stdin_writer input);
      mret (Some i)
  | None => mret None
  end.

(** What is reported once the program is gone and its threads are joined. *)
Definition report_phase (phase : BuildPhase) (build_id : string) (outcome : WaitOutcome) :
    io (halt TaskError) PhaseResult :=
  exceeded ← atomically (λ _ s, (s, sh_exceeded s));
  if exceeded : bool then
    io_fail (Raised (in_phase phase
      (new_error "output_limit" ("task output exceeds build.max_output_bytes (" +:+
                                 pretty max_output +:+ " bytes)"))))
  else
    match outcome with
    | Cancelled => io_fail (Raised (in_phase phase stream_closed))
    | Exited code timed_out duration =>
        let duration_ms := u64_millis duration in
        _ ← send_or (in_phase phase stream_closed)
              (RBuild build_id "phase_finished" (Some phase) (Some duration_ms) (Some code)
                 (Some timed_out));
        mret {| ph_phase := phase; ph_duration_ms := duration_ms; ph_exit_code := code;
                ph_timed_out := timed_out |}
    end.

(** Joining the threads of a program that is gone. *)
Definition join_phase_threads (phase : BuildPhase) (stdout stderr : nat) (stdin_writer : option nat) :
    io (halt TaskError) unit :=
  _ ← join_output_thread stdout;
  _ ← join_output_thread stderr;
  match stdin_writer with
  | None => mret tt
  | Some i =>
      written ← finish_stdin_writer i;
      io_lift (map_err (λ e, Raised (in_phase phase
        (new_error "stdin_write_failed" ("failed to write task stdin: " +:+ io_error_message e)))) written)
  end.

(** From the start of the program to the end of its threads. *)
Definition supervise_phase (phase : BuildPhase) (timeout_sec : N) (stdin : option string) :
    io (halt TaskError) WaitOutcome :=
  setup ← io_try (io_setup phase stdin);
  match setup with
  | Err Diverged => io_fail Diverged
  | Err (Raised err) =>
      cleanup ← io_try (terminate_process machine_moves kill_delay ReasonCancelled);
      match cleanup with
      | Err Diverged => io_fail Diverged
      | Ok _ => io_fail (Raised err)
      | Err (Raised cleanup) =>
          io_fail (Raised (mkTaskError
            (mkBuildError (be_code (er_error err))
               (be_message (er_error err) +:+ "; process cleanup failed: " +:+ io_error_message cleanup))
            (er_pattern err) (er_phase err) (er_phases err)))
      end
  | Ok stdin_writer =>
      stdout ← spawn_output_thread Stdout;
      stderr ← spawn_output_thread Stderr;
      outcome ← io_map_err (halt_map (λ e,
                    in_phase phase (new_error "wait_failed" (io_error_message e))))
                  (wait_with_timeout machine_moves kill_delay timeout_sec);
      _ ← join_phase_threads phase stdout stderr stdin_writer;
      mret outcome
  end.

Definition run_phase (execution : option TaskExecution) (timeout_sec : N) (phase : BuildPhase)
    (run_as : RunAs) (cwd build_id : string) (env : list (string * string))
    (stdin : option string) : io (halt TaskError) PhaseResult :=
  match execution with
  | None => io_fail Diverged
  | Some execution =>
      cancelled ← is_cancelled;
      _ ← io_reject cancelled (Raised (in_phase phase stream_closed));
      _ ← send_or (in_phase phase stream_closed)
            (RBuild build_id "phase_started" (Some phase) None None None);
      _ ← io_lift (map_err (halt_map (λ e, in_phase phase (task_error e)))
                     (configure_command (cr_euid daemon) run_as));
      let '(program, args) := command_line execution in
      _ ← io_map_err (λ e, Raised (in_phase phase
              (new_error "spawn_failed" ("failed to spawn " +:+ phase_name phase +:+ " phase: " +:+
                                         io_error_message e))))
            (spawn_command program args cwd (list_to_map (rev env)) (is_some stdin) run_as);
      outcome ← supervise_phase phase timeout_sec stdin;
      report_phase phase build_id outcome
  end.

(** * The phases of a task *)

Record TaskPhasesOutcome := {
  tp_phases : list PhaseResult;
  tp_exit_code : Z;
  tp_timed_out : bool;
  tp_failed_phase : option BuildPhase;
}.

(** [result.exit_code != 0 || result.timed_out]. *)
Definition phase_failed (r : PhaseResult) : bool :=
  negb (ph_exit_code r =? 0)%Z || ph_timed_out r.

Definition outcome_after (phases : list PhaseResult) (r : PhaseResult) : TaskPhasesOutcome :=
  {| tp_phases := phases ++ [r]; tp_exit_code := ph_exit_code r; tp_timed_out := ph_timed_out r;
     tp_failed_phase := if phase_failed r then Some (ph_phase r) else None |}.

Definition of_failure {A} (r : result failure A) : io (halt TaskError) A :=
  io_lift (map_err (halt_map task_error) r).

Definition run_task_phases (task : TaskConfig) (run_as : RunAs) (workspace_root build_id : string) :
    io (halt TaskError) TaskPhasesOutcome :=
  cwd ← of_failure (resolve_cwd canonicalize workspace_root (Some (tk_cwd task)));
  let env := build_env task (ra_user run_as) in
  setup ← match tk_setup task with
          | None => mret None
          | Some setup =>
              r ← run_phase (TaskSetupConfig_execution setup) (su_timeout_sec setup) Setup run_as cwd
                    build_id env None;
              mret (Some r)
          end;
  match setup with
  | Some r =>
      if phase_failed r then mret (outcome_after [] r)
      else
        run ← io_map_err (halt_map (with_phases [r]))
                (run_phase (TaskConfig_execution task) (tk_timeout_sec task) Run run_as cwd build_id env None);
        mret (outcome_after [r] run)
  | None =>
      run ← io_map_err (halt_map (with_phases []))
              (run_phase (TaskConfig_execution task) (tk_timeout_sec task) Run run_as cwd build_id env None);
      mret (outcome_after [] run)
  end.

(** * A build *)

(** What the file system answers during a build: creating the workspace root and
    a fresh directory in it, extracting the upload, handing the tree to the task's
    user, and collecting artifacts at the end.  Collecting opens files of a tree that
    the task's processes may still change, and may block in such a call: [Diverged]. *)
Record build_files := {
  bf_create_root : result io_error unit;
  bf_tempdir : result io_error string;
  bf_extract : string → result BuildError unit;
  bf_ownership : string → RunAs → result BuildError unit;
  bf_collect : string → ArtifactSpec → string → result (halt ArtifactError) ArtifactCollection;
}.

Definition finish_build (files : build_files) (task : TaskConfig) (workspace_root build_id : string)
    (outcome : TaskPhasesOutcome) : io (halt TaskError) unit :=
  let exit_code := tp_exit_code outcome in
  let timed_out := tp_timed_out outcome in
  match bf_collect files workspace_root (tk_artifacts task) build_id with
  | Ok artifacts =>
      send_or stream_closed
        (RExit exit_code timed_out (ac_archive artifacts) (ac_restrictions artifacts)
           (tp_failed_phase outcome) (tp_phases outcome))
  | Err Diverged => io_fail Diverged
  | Err (Raised e) =>
      let build_err := map_artifact_error e in
      _ ← send_or stream_closed
            (RError (be_code (er_error build_err)) (Some (be_message (er_error build_err)))
               (er_pattern build_err) None);
      send_or stream_closed
        (RExit (if (exit_code =? 0)%Z && negb timed_out then 1%Z else exit_code) timed_out None None
           (tp_failed_phase outcome) (tp_phases outcome))
  end.

Definition run_build_in_workspace (files : build_files) (task : TaskConfig) (run_as : RunAs)
    (workspace_root build_id : string) : io (halt TaskError) unit :=
  outcome ← run_task_phases task run_as workspace_root build_id;
  finish_build files task workspace_root build_id outcome.

Definition workspace_create_failed (message : string) : halt TaskError :=
  Raised (new_error "workspace_create_failed" message).

Definition run_build (files : build_files) (getuid : N) (validated : ValidatedRequest)
    (build_id : string) : io (halt TaskError) unit :=
  _ ← send_or stream_closed (RBuild build_id "started" None None None None);
  run_as ← of_failure (resolve_run_as getuid config);
  _ ← of_failure (validate_run_as_uid run_as (cr_euid daemon));
  _ ← io_lift (map_err (λ e, workspace_create_failed ("failed to create workspace root: " +:+ io_error_message e))
                 (bf_create_root files));
  workspace ← io_lift (map_err (λ e, workspace_create_failed ("failed to create fresh workspace: " +:+ io_error_message e))
                         (bf_tempdir files));
  _ ← io_lift (map_err (λ e, Raised (task_error e)) (bf_extract files workspace));
  _ ← io_lift (map_err (λ e, Raised (task_error e)) (bf_ownership files workspace run_as));
  run_build_in_workspace files (vr_task validated) run_as workspace build_id.

Definition execute_build (files : build_files) (getuid : N) (validated : ValidatedRequest)
    (build_id : string) : io (halt TaskError) unit :=
  r ← io_try (run_build files getuid validated build_id);
  match r with
  | Ok _ => mret tt
  | Err Diverged => io_fail Diverged
  | Err (Raised err) =>
      _ ← send_response (RError (be_code (er_error err)) (Some (be_message (er_error err)))
            (er_pattern err) (er_phase err));
      _ ← send_response (RExit 1 false None None (er_phase err) (er_phases err));
      mret tt
  end.

(** * Sessions *)

Abbreviation cancel := (cancel machine_moves kill_delay).

(** The loop of [send_session_response] and [send_action_response], which word a
    cancellation differently. *)
Definition send_item (cancelled_message : string) (item : session_item) : io (halt TaskError) unit :=
  start ← instant_now;
  poll (polls OUTPUT_FORWARD_GRACE (ms 10)) (λ _ : unit,
    cancelled ← is_cancelled;
    _ ← io_reject cancelled (Raised (new_error "stream_closed" cancelled_message));
    sent ← atomically (λ _, try_offer item);
    match sent with
    | SendOk => mret (inr tt)
    | SendClosed => _ ← cancel; io_fail (Raised stream_closed)
    | SendFull =>
        now ← instant_now;
        if start + OUTPUT_FORWARD_GRACE <=? now then
          _ ← cancel;
          io_fail (Raised (new_error "stream_closed" "client is not reading output"))
        else _ ← thread_sleep (ms 10); mret (inl tt)
    end) tt.

Definition send_session_response (event : SessionStartEvent) : io (halt TaskError) unit :=
  send_item "client disconnected" (StartItem event).
Definition send_action_response (event : SessionActionEvent) : io (halt TaskError) unit :=
  send_item "session action cancelled" (ActionItem event).

Definition check_initialization_cancel (deadline : N) : io (halt TaskError) unit :=
  cancelled ← is_cancelled;
  _ ← io_reject cancelled (Raised (new_error "stream_closed" "session initialization was cancelled"));
  now ← instant_now;
  io_reject (deadline <=? now)
    (Raised (new_error "session_lifetime" "session maximum lifetime expired during initialization")).

Definition spawn_bridge (kind : bridge_kind) : io (halt TaskError) unit :=
  atomically (λ _ s, (set_bridge (Bridge kind false false BridgeReceives) s, tt)).

Definition tell_bridge (f : bridge → bridge) (s : Shared) : Shared :=
  match rl_bridge (sh_relay s) with Some b => set_bridge (f b) s | None => s end.

Definition stop_bridge (b : bridge) : bridge := Bridge (br_kind b) true (br_dropped b) (br_state b).
Definition drop_sender (b : bridge) : bridge := Bridge (br_kind b) (br_stop b) true (br_state b).

Definition bridge_done (s : Shared) : bool :=
  match rl_bridge (sh_relay s) with
  | Some b => match br_state b with BridgeReturned => true | _ => false end
  | None => true
  end.

(** The task's work with a bridge beside it, which is stopped, sees the sender
    dropped and is joined, whatever became of the work. *)
Definition with_bridge {A} (kind : bridge_kind) (work : io (halt TaskError) A) : io (halt TaskError) A :=
  _ ← spawn_bridge kind;
  r ← io_try work;
  _ ← atomically (λ _ s, (tell_bridge stop_bridge s, tt));
  _ ← atomically (λ _ s, (tell_bridge drop_sender s, tt));
  _ ← join_thread BRIDGE_SHUTDOWN_GRACE bridge_done;
  io_lift r.

(** A call that is answered by the file system. *)
Definition answered {A} (r : result (halt TaskError) A) : io (halt TaskError) A := λ m, (advance 0 m, r).

(** What the file system answers while a session is initialized: creating the
    workspace, extracting the upload into it and handing it to the task's user. *)
Record session_files := {
  sf_create_dir : string → result io_error unit;
  sf_extract : string → result BuildError unit;
  sf_ownership : string → RunAs → result BuildError unit;
}.

(** [SessionInitializationOutcome] has the fields of [TaskPhasesOutcome]. *)
Definition initialize_session (files : session_files) (getuid : N) (task : TaskConfig)
    (workspace session_id : string) (deadline : N) : io (halt TaskError) TaskPhasesOutcome :=
  _ ← send_session_response (SSession session_id Started None None None None);
  _ ← check_initialization_cancel deadline;
  run_as ← of_failure (resolve_run_as getuid config);
  _ ← of_failure (validate_run_as_uid run_as (cr_euid daemon));
  _ ← check_initialization_cancel deadline;
  _ ← answered (map_err (λ e, workspace_create_failed
                  ("failed to create fresh session workspace: " +:+ io_error_message e))
                  (sf_create_dir files workspace));
  _ ← check_initialization_cancel deadline;
  _ ← answered (map_err (λ e, Raised (task_error e)) (sf_extract files workspace));
  _ ← check_initialization_cancel deadline;
  _ ← answered (map_err (λ e, Raised (task_error e)) (sf_ownership files workspace run_as));
  _ ← check_initialization_cancel deadline;
  with_bridge StartBridge (run_task_phases task run_as workspace session_id).

(** What an action and a teardown run: one phase in the session's workspace. *)
Definition session_phase (kind : bridge_kind) (getuid : N) (task : TaskConfig)
    (execution : option TaskExecution) (timeout_sec : N) (workspace id : string)
    (stdin : option string) : io (halt TaskError) PhaseResult :=
  run_as ← of_failure (resolve_run_as getuid config);
  _ ← of_failure (validate_run_as_uid run_as (cr_euid daemon));
  cwd ← of_failure (resolve_cwd canonicalize workspace (Some (tk_cwd task)));
  with_bridge kind
    (run_phase execution timeout_sec Run run_as cwd id (build_env task (ra_user run_as)) stdin).

Record SessionActionRunOutcome := { ao_code : Z; ao_timed_out : bool }.

Definition run_session_action (getuid : N) (task : TaskConfig) (action : SessionActionConfig)
    (workspace session_id action_id action_name workspace_revision input : string) :
    io (halt TaskError) SessionActionRunOutcome :=
  _ ← send_action_response (AAction session_id action_id action_name workspace_revision ActionStarted);
  r ← session_phase ActionBridge getuid task (SessionActionConfig_execution action)
        (ac_timeout_sec action) workspace action_id (Some input);
  mret {| ao_code := ph_exit_code r; ao_timed_out := ph_timed_out r |}.

(** The flag of a teardown is its own: nobody has set it. *)
Definition new_flag : io (halt TaskError) unit := λ m,
  (mkMachine (m_now m) (m_tick m) (m_group m) (m_killed m) (m_signals m) false (m_shared m), Ok tt).

Definition run_session_teardown (getuid : N) (task : TaskConfig) (workspace session_id : string) :
    io (halt TaskError) SessionTeardownResult :=
  started ← instant_now;
  r ← io_try (
    session ← io_lift (ok_or (tk_session task)
                (Raised (new_error "session_config_missing" "session configuration missing")));
    _ ← new_flag;
    session_phase TeardownDrain getuid task (SessionTeardownConfig_execution (sn_teardown session))
      (te_timeout_sec (sn_teardown session)) workspace session_id None);
  match r with
  | Ok r =>
      mret {| td_duration_ms := ph_duration_ms r; td_exit_code := Some (ph_exit_code r);
              td_timed_out := ph_timed_out r; td_error_code := None |}
  | Err Diverged => io_fail Diverged
  | Err (Raised err) =>
      now ← instant_now;
      mret {| td_duration_ms := u64_millis (now - started); td_exit_code := None;
              td_timed_out := false; td_error_code := Some (be_code (er_error err)) |}
  end.
End tasks.
