(* ===== verification/TaskFacts.v ===== *)
(** Rules for the computations of [Tasks], and that every one of them returns. *)
From Stdlib Require Import Ascii.
From stdpp Require Import base option strings numbers list gmap relations.
From S2P Require Import Prelude Effects RustStr Validation Protocol Accounts Archive Config RunAs Process ProcessFacts MachineRules Posix Artifacts Output Tasks.

Local Open Scope N_scope.

(** * The task's computations return *)


Section returning.
Context `{AccountDb} (capacity : nat) (orc : nat → task_move).
Context (pre_faults : nat → pre_exec_call → option io_error) (kill_delay : option N).
Context (daemon : cred) (group_list : string → N → list N).
Context (canonicalize : string → result io_error string) (config : Config).

Abbreviation moves := (λ k, move_of capacity (bc_max_output_bytes (cf_build config)) (orc k)).

Lemma returns_wait timeout_sec : returns (wait_with_timeout moves kill_delay timeout_sec).
Proof.
  intros m. pose proof (wait_with_timeout_spec moves kill_delay timeout_sec m) as [_ Hr].
  by destruct (wait_with_timeout _ _ _ _) as [? [|[]]].
Qed.

Lemma terminate_process_returns reason : returns (terminate_process moves kill_delay reason).
Proof.
  intros m. pose proof (terminate_process_spec moves kill_delay reason m) as [_ Hr].
  by destruct (terminate_process _ _ _ _) as [? [|[]]].
Qed.

Lemma returns_send event : returns (send_response capacity orc kill_delay config event).
Proof. by apply returns_poll_shared. Qed.

Lemma returns_send_or e event : returns (send_or capacity orc kill_delay config e event).
Proof. unfold send_or. returns_tac. apply returns_send. Qed.

Lemma returns_stdin_writer input : returns (spawn_stdin_writer capacity orc kill_delay config input).
Proof.
  unfold spawn_stdin_writer. returns_tac. intros m. unfold make_nonblocking. cbn. by destruct (tm_fault _).
Qed.

Lemma returns_supervise phase timeout_sec stdin :
  returns (supervise_phase capacity orc kill_delay config phase timeout_sec stdin).
Proof.
  unfold supervise_phase, join_phase_threads, finish_stdin_writer, recv_timeout, spawn_output_thread, join_output_thread,
    join_bounded_thread, join_thread.
  apply returns_bind_try.
  { unfold io_setup. returns_tac. apply returns_stdin_writer. }
  intros [writer|[err|]] Hw; [|apply returns_bind_try; [apply terminate_process_returns|]|done].
  - returns_tac; try apply returns_wait. apply returns_lift. by destruct a4.
  - intros [|[]] ?; returns_tac. done.
Qed.

Lemma returns_run_phase execution timeout_sec phase run_as cwd build_id env stdin :
  is_Some execution →
  returns (run_phase capacity orc pre_faults kill_delay daemon group_list config execution
             timeout_sec phase run_as cwd build_id env stdin).
Proof.
  intros [ex ->]. unfold run_phase, report_phase. returns_tac; try apply returns_send_or.
  - apply returns_lift. unfold configure_command, validate_run_as_uid, refuse_if. by destruct (andb _ _).
  - destruct (command_line ex). returns_tac; try apply returns_supervise; apply returns_send_or.
Qed.

(** The task's programs are of one of the two shapes. *)
Definition executable_task (task : TaskConfig) : Prop :=
  is_Some (TaskConfig_execution task) ∧
  ∀ setup, tk_setup task = Some setup → is_Some (TaskSetupConfig_execution setup).

Lemma validated_executable `{Glob} metadata name task :
  Config_validate metadata config = Ok tt → cf_tasks config !! name = Some task →
  executable_task task.
Proof.
  intros Hv Hl. destruct (config_task_ok metadata config Hv name task Hl) as (_ & Hr & Hs & _).
  assert (∀ e, runnable metadata (tk_environment task) e → is_Some e) as Hsome.
  { intros [e|]; [by eexists|done]. }
  split; [by apply Hsome|]. intros setup Hset. by apply Hsome, Hs.
Qed.

Lemma returns_cwd workspace task :
  returns (of_failure (resolve_cwd canonicalize workspace (Some (tk_cwd task)))).
Proof.
  apply returns_lift. unfold resolve_cwd. destruct (is_blank _); cbn.
  - by destruct (validate_cwd _ _ _).
  - destruct (validate_relative_path _ _); cbn; [|done]. by destruct (validate_cwd _ _ _).
Qed.

Lemma returns_uid_check run_as : returns (of_failure (validate_run_as_uid run_as (cr_euid daemon))).
Proof. apply returns_lift. unfold validate_run_as_uid, refuse_if. by destruct (andb _ _). Qed.

Lemma returns_run_task_phases task run_as workspace_root build_id :
  executable_task task →
  returns (run_task_phases capacity orc pre_faults kill_delay daemon group_list canonicalize config
             task run_as workspace_root build_id).
Proof.
  intros [Ht Hs]. unfold run_task_phases. apply returns_bind; [apply returns_cwd|intros cwd].
  apply returns_bind.
  { destruct (tk_setup task) eqn:E; returns_tac. by apply returns_run_phase, Hs. }
  intros setup. returns_tac; by apply returns_run_phase.
Qed.

Lemma lookup_err_returns {A} code message (r : result (halt UserError) A) :
  r ≠ Err Diverged → lookup_err code message r ≠ Err Diverged.
Proof. by destruct r as [|[]]. Qed.

(** An account lookup returns when the C library suggests a positive buffer. *)
Lemma resolve_run_as_returns getuid :
  sysconf_getpw_size ≠ 0%Z → sysconf_getgr_size ≠ 0%Z →
  resolve_run_as getuid config ≠ Err Diverged.
Proof.
  intros Hp Hg. unfold resolve_run_as. intros Hd. apply bind_Err in Hd as [Hu|(user & _ & Hd)].
  - destruct (bc_run_as_user _); apply lookup_err_returns in Hu; try done.
    + unfold lookup_user_by_name. destruct (negb _); [done|]. by apply lookup_loop_ends.
    + by apply lookup_loop_ends.
  - apply bind_Err in Hd as [Hd|(? & _ & ?)]; [|done].
    destruct (bc_run_as_group _); [|done]. apply lookup_err_returns in Hd; [done|].
    unfold lookup_group_gid. destruct (negb _); [done|]. by apply lookup_loop_ends.
Qed.

Lemma returns_run_as getuid :
  sysconf_getpw_size ≠ 0%Z → sysconf_getgr_size ≠ 0%Z →
  returns (of_failure (resolve_run_as getuid config)).
Proof.
  intros Hp Hg. apply returns_lift. pose proof (resolve_run_as_returns getuid Hp Hg).
  by destruct (resolve_run_as _ _) as [|[]].
Qed.

(** Collecting the artifacts of a build in its workspace never comes back. *)
Definition collection_blocks (files : build_files) (task : TaskConfig) (build_id : string) : Prop :=
  ∃ workspace, bf_tempdir files = Ok workspace ∧
    bf_collect files workspace (tk_artifacts task) build_id = Err Diverged.

#[export] Instance collection_blocks_dec files task build_id : Decision (collection_blocks files task build_id).
Proof.
  unfold collection_blocks. destruct (bf_tempdir files) as [w|]; [|by right; intros (? & ? & _)].
  destruct (bf_collect files w (tk_artifacts task) build_id) as [|[]] eqn:E;
    [right; intros (? & [= <-] & ?); congruence..|left; by exists w].
Defined.

Lemma returns_finish_build files task root id outcome :
  bf_collect files root (tk_artifacts task) id ≠ Err Diverged →
  returns (finish_build capacity orc kill_delay config files task root id outcome).
Proof.
  intros Hc. unfold finish_build.
  destruct (bf_collect _ _ _ _) as [|[]]; [..|done]; returns_tac; apply returns_send_or.
Qed.

Lemma returns_run_build files getuid validated build_id :
  executable_task (vr_task validated) → ¬ collection_blocks files (vr_task validated) build_id →
  sysconf_getpw_size ≠ 0%Z → sysconf_getgr_size ≠ 0%Z →
  returns (run_build capacity orc pre_faults kill_delay daemon group_list canonicalize config files
             getuid validated build_id).
Proof.
  intros Ht Hf Hp Hg. unfold run_build, run_build_in_workspace.
  apply returns_bind; [apply returns_send_or|intros _].
  apply returns_bind; [by apply returns_run_as|intros run_as].
  apply returns_bind; [apply returns_uid_check|intros _].
  apply returns_bind_lift; [by destruct (bf_create_root files)|intros _ _].
  apply returns_bind_lift; [by destruct (bf_tempdir files)|intros workspace Hw].
  apply returns_bind_lift; [by destruct (bf_extract files _)|intros _ _].
  apply returns_bind_lift; [by destruct (bf_ownership files _ _)|intros _ _].
  apply returns_bind; [by apply returns_run_task_phases|intros outcome].
  apply returns_finish_build. intros Hd. apply Hf. exists workspace.
  by destruct (bf_tempdir files); simplify_eq/=.
Qed.

Lemma returns_execute_build files getuid validated build_id :
  executable_task (vr_task validated) → ¬ collection_blocks files (vr_task validated) build_id →
  sysconf_getpw_size ≠ 0%Z → sysconf_getgr_size ≠ 0%Z →
  returns (execute_build capacity orc pre_faults kill_delay daemon group_list canonicalize config files
             getuid validated build_id).
Proof.
  intros Ht Hc Hp Hg. unfold execute_build.
  apply returns_bind_try; [by apply returns_run_build|]. intros [|[err|]] Hr; [done| |done].
  returns_tac; apply returns_send.
Qed.
End returning.

(** * Relations kept by the phases of a task *)

Definition is_output (e : ResponseEvent) : bool :=
  match e with RStdout _ | RStderr _ => true | _ => false end.

Section keeping.
Context `{AccountDb} (capacity : nat) (orc : nat → task_move).
Context (pre_faults : nat → pre_exec_call → option io_error) (kill_delay : option N).
Context (daemon : cred) (group_list : string → N → list N).
Context (canonicalize : string → result io_error string) (config : Config).

Abbreviation moves := (λ k, move_of capacity (bc_max_output_bytes (cf_build config)) (orc k)).

Context (R : relation (Machine Shared)) `{!PreOrder R}.
Context (Hlater : ∀ m m', later moves m m' → R m m').
(** The operations of the task's thread on the shared state. *)
Context (Hreader : ∀ kind m, R m (set_shared (add_reader kind (m_shared m)).1 m)).
Context (Hwriter : ∀ input m, R m (set_shared (add_writer input (m_shared m)).1 m)).
Context (Htell : ∀ i m, R m (set_shared (tell_writer i (m_shared m)) m)).

Lemma keeps_shared_refl (m : Machine Shared) : R m (set_shared (m_shared m) m).
Proof. by destruct m. Qed.

Ltac keeps_tac :=
  repeat match goal with
  | |- keeps _ (mbind _ _) => apply keeps_bind; [done| |intros ?]
  | |- keeps _ (mret _) => apply keeps_ret; done
  | |- keeps _ (io_lift _) => apply keeps_lift; done
  | |- keeps _ (io_fail _) => apply (keeps_lift _ (Err _)); done
  | |- keeps _ (io_reject _ _) => apply keeps_lift; done
  | |- keeps _ (io_try _) => apply keeps_try
  | |- keeps _ (io_map_err _ _) => apply keeps_map_err
  | |- keeps _ (instant_now _ _) => apply keeps_now; done
  | |- keeps _ (is_cancelled _ _) => apply keeps_cancelled; done
  | |- keeps _ (poll_shared _ _ _ _ _ _ _) =>
      apply keeps_poll_shared; [done|done|done|intros; apply keeps_shared_refl]
  | |- keeps _ (wait_with_timeout _ _ _) =>
      apply (keeps_settles moves _ Hlater _ _ (wait_with_timeout_spec moves kill_delay _))
  | |- keeps _ (terminate_process _ _ _) =>
      apply (keeps_settles moves _ Hlater _ _ (terminate_process_spec moves kill_delay _))
  | |- keeps _ (atomically _ _ _) => apply keeps_atomically; [done|done|intros];
      first [apply keeps_shared_refl|apply Hreader|apply Hwriter|apply Htell]
  | |- keeps _ (match ?x with _ => _ end) => destruct x
  end.

Lemma keeps_join phase stdout stderr writer :
  keeps R (join_phase_threads capacity orc kill_delay config phase stdout stderr writer).
Proof.
  unfold join_phase_threads, finish_stdin_writer, recv_timeout, join_output_thread, join_bounded_thread,
    join_thread. keeps_tac.
Qed.

Lemma keeps_supervise phase timeout_sec stdin :
  keeps R (supervise_phase capacity orc kill_delay config phase timeout_sec stdin).
Proof.
  unfold supervise_phase, io_setup, spawn_stdin_writer, spawn_output_thread.
  keeps_tac; try apply keeps_join. intros m. apply Hlater. apply (advance_later moves kill_delay 0 m).
Qed.

(** ** With the events and the programs of the task's thread *)

Context (Hsend : ∀ event m, is_output event = false →
  R m (set_shared (try_send capacity event (m_shared m)).1 m)).

Lemma keeps_send event : is_output event = false →
  keeps R (send_response capacity orc kill_delay config event).
Proof. intros He. apply keeps_poll_shared; [done|done|done|]. intros now m. by apply Hsend. Qed.

Lemma keeps_send_or e event : is_output event = false →
  keeps R (send_or capacity orc kill_delay config e event).
Proof. intros He. unfold send_or. keeps_tac. by apply keeps_send. Qed.

Lemma keeps_report phase id outcome : keeps R (report_phase capacity orc kill_delay config phase id outcome).
Proof. unfold report_phase. keeps_tac. by apply keeps_send_or. Qed.

Context (Hspawn : ∀ i m, R m (spawned i m)).

Lemma keeps_spawn program args cwd env stdin run_as :
  keeps R (spawn_command capacity orc pre_faults kill_delay daemon group_list config program args cwd env
             stdin run_as).
Proof.
  intros m. unfold spawn_command. pose proof (Hlater _ _ (advance_later moves kill_delay 0 m)) as Hm.
  destruct (tm_fault _); [done|]. destruct (pre_exec _ _ _ _) as [child []]; [|done].
  etrans; [exact Hm|apply Hspawn].
Qed.

Lemma keeps_run_phase execution timeout_sec phase run_as cwd id env stdin :
  keeps R (run_phase capacity orc pre_faults kill_delay daemon group_list config execution timeout_sec
             phase run_as cwd id env stdin).
Proof.
  unfold run_phase. destruct execution as [ex|]; [|by apply (keeps_lift _ (Err _))].
  keeps_tac; [by apply keeps_send_or|apply keeps_spawn|apply keeps_supervise|apply keeps_report].
Qed.

Lemma keeps_run_task_phases task run_as workspace id :
  keeps R (run_task_phases capacity orc pre_faults kill_delay daemon group_list canonicalize config task
             run_as workspace id).
Proof. unfold run_task_phases, of_failure. keeps_tac; apply keeps_run_phase. Qed.

(** A build is its first event and a rest that keeps the relation. *)
Lemma keeps_started_build files getuid validated id : ∃ rest,
  run_build capacity orc pre_faults kill_delay daemon group_list canonicalize config files getuid validated id =
  (send_or capacity orc kill_delay config stream_closed (RBuild id "started" None None None None) ≫= rest) ∧
  ∀ u, keeps R (rest u).
Proof.
  eexists. split; [reflexivity|]. intros u. cbv beta. unfold run_build_in_workspace, finish_build, of_failure.
  keeps_tac; first [by apply keeps_send_or|by apply keeps_send|apply keeps_run_task_phases].
Qed.

Lemma keeps_execute_build files getuid validated id :
  keeps R (execute_build capacity orc pre_faults kill_delay daemon group_list canonicalize config files
             getuid validated id).
Proof.
  unfold execute_build, run_build, run_build_in_workspace, finish_build, of_failure.
  keeps_tac; first [by apply keeps_send_or|by apply keeps_send|apply keeps_run_task_phases].
Qed.
End keeping.
