(* ===== verification/TaskStream.v ===== *)
(** The event stream of a build follows its protocol. *)
From Stdlib Require Import Ascii.
From stdpp Require Import base option strings numbers list gmap relations.
From S2P Require Import Prelude Effects RustStr Validation Protocol Accounts Archive Config RunAs Process ProcessFacts MachineRules Posix Artifacts Output Tasks TaskFacts.

Local Open Scope N_scope.

(** * The protocol *)

#[export] Instance phase_result_eq_dec : EqDecision PhaseResult.
Proof. solve_decision. Defined.

(** Where a stream is: nothing sent; between phases, with the results reported so
    far; inside a phase; after an error; after the exit event. *)
Inductive stream_state :=
| Fresh
| Between (phases : list PhaseResult)
| Inside (phases : list PhaseResult) (phase : BuildPhase)
| Failing (phases : list PhaseResult)
| Ended.

#[export] Instance stream_state_eq_dec : EqDecision stream_state.
Proof. solve_decision. Defined.

Definition reported (st : stream_state) : list PhaseResult :=
  match st with
  | Between ps | Inside ps _ | Failing ps => ps
  | Fresh | Ended => []
  end.

(** Setup comes first, once; run comes once, and not after a failed setup. *)
Definition may_start (ps : list PhaseResult) (phase : BuildPhase) : bool :=
  match ps, phase with
  | [], _ => true
  | [r], Run => bool_decide (ph_phase r = Setup) && negb (phase_failed r)
  | _, _ => false
  end.

(** The exit event of a build whose last phase was [r]. *)
Definition exit_reports (ps : list PhaseResult) (r : PhaseResult) (code : Z) (timed_out : bool)
    (failed_phase : option BuildPhase) (phases : list PhaseResult) : bool :=
  bool_decide (code = ph_exit_code r ∧ timed_out = ph_timed_out r ∧
    failed_phase = (if phase_failed r then Some (ph_phase r) else None) ∧ phases = ps) &&
  (bool_decide (ph_phase r = Run) || phase_failed r).

(** The exit event of a build that met an error: never a success. *)
Definition exit_fails (ps : list PhaseResult) (code : Z) (timed_out : bool)
    (artifacts : option ArtifactArchive) (phases : list PhaseResult) : bool :=
  (negb (code =? 0)%Z || timed_out) && is_none artifacts &&
  (bool_decide (phases = ps) || bool_decide (phases = [])).

(** The stream of the build [id] accepts an event. *)
Definition stream_step (id : string) (st : stream_state) (e : ResponseEvent) : option stream_state :=
  match st, e with
  | Ended, _ | Fresh, (RStdout _ | RStderr _) => None
  | _, RStdout _ | _, RStderr _ => Some st
  | Fresh, RBuild i status None None None None =>
      if bool_decide (i = id ∧ status = "started") then Some (Between []) else None
  | Between ps, RBuild i status (Some phase) None None None =>
      if bool_decide (i = id ∧ status = "phase_started") && may_start ps phase
      then Some (Inside ps phase) else None
  | Inside ps phase, RBuild i status (Some phase') (Some duration) (Some code) (Some timed_out) =>
      if bool_decide (i = id ∧ status = "phase_finished" ∧ phase' = phase)
      then Some (Between (ps ++ [{| ph_phase := phase; ph_duration_ms := duration;
                                    ph_exit_code := code; ph_timed_out := timed_out |}]))
      else None
  | _, RBuild _ _ _ _ _ _ => None
  | _, RError _ message _ _ => if is_some message then Some (Failing (reported st)) else None
  | _, RExit code timed_out artifacts _ failed_phase phases =>
      if exit_fails (reported st) code timed_out artifacts phases ||
         match st, last (reported st) with
         | Between ps, Some r => exit_reports ps r code timed_out failed_phase phases
         | _, _ => false
         end
      then Some Ended else None
  end.

Definition stream_run (id : string) (events : list ResponseEvent) : option stream_state :=
  foldl (λ st e, st ≫= λ st, stream_step id st e) (Some Fresh) events.

Lemma stream_run_app id l e : stream_run id (l ++ [e]) = stream_run id l ≫= λ st, stream_step id st e.
Proof. unfold stream_run. by rewrite foldl_app. Qed.

(** * The events the task's own thread sends *)

Definition control (m : Machine Shared) : list ResponseEvent :=
  filter (λ e, is_output e = false) (sh_sent (m_shared m)).

(** A client that stays and reads everything it is sent. *)
Definition attentive (orc : nat → task_move) : Prop :=
  ∀ k, (∃ l, tm_threads (orc k) = l ++ [ClientDrains]) ∧ ClientLeaves ∉ tm_threads (orc k).

Section drift.
Context (capacity : nat) (max_bytes : N) (orc : nat → task_move) (kill_delay : option N).
Abbreviation moves := (λ k, move_of capacity max_bytes (orc k)).

Lemma thread_step_flag now x mv : (thread_step capacity max_bytes now (true, x) mv).1 = true.
Proof.
  destruct mv; try done; unfold thread_step.
  - destruct (_ !! _); [|done]. by destruct (reader_step _ _ _ _ _ _ _) as [[? ?] ?].
  - by destruct (_ !! _).
  - destruct (rl_bridge _); [|done]. by destruct (bridge_step _ _ _ _).
Qed.

Lemma threads_flag now x l : (foldl (thread_step capacity max_bytes now) (true, x) l).1 = true.
Proof.
  revert x. induction l as [|mv l IH]; intros x; [done|]. cbn [foldl].
  pose proof (thread_step_flag now x mv) as Hf. destruct (thread_step _ _ _ _ _) as [c x'].
  cbn in Hf. by subst.
Qed.

Lemma threads_keep (P : bool * Shared → Prop) now l cs :
  (∀ cs mv, mv ∈ l → P cs → P (thread_step capacity max_bytes now cs mv)) →
  P cs → P (foldl (thread_step capacity max_bytes now) cs l).
Proof.
  revert cs. induction l as [|mv l IH]; intros cs Hs HP; [done|]. cbn [foldl].
  apply IH; [intros; apply Hs; [by right|done]|]. apply Hs; [by left|done].
Qed.

(** The flag and the shared state after a move, as [advance] computes them. *)
Lemma advance_threads e m :
  let m' := advance moves kill_delay e m in
  let now := m_now m + e + tm_time (orc (m_tick m)) in
  m_now m' = now ∧
  (m_cancelled m', m_shared m') =
  foldl (thread_step capacity max_bytes now) (m_cancelled m, m_shared m) (tm_threads (orc (m_tick m))).
Proof.
  cbn zeta. unfold advance. cbn [mv_threads move_of mv_time].
  pose proof (threads_flag (m_now m + e + tm_time (orc (m_tick m))) (m_shared m)
    (tm_threads (orc (m_tick m)))) as Hf.
  destruct (m_cancelled m).
  - destruct (foldl _ _ (tm_threads _)) as [c x]. cbn in *. by subst.
  - clear Hf. by destruct (foldl _ _ (tm_threads _)) as [c x].
Qed.

(** What every thread keeps is kept while the task's thread waits. *)
Lemma later_keeps (P : bool * Shared → Prop) (m m' : Machine Shared) :
  (∀ k now cs mv, mv ∈ tm_threads (orc k) → P cs → P (thread_step capacity max_bytes now cs mv)) →
  later moves m m' → P (m_cancelled m, m_shared m) → P (m_cancelled m', m_shared m').
Proof.
  intros Hstep [Hd _ _ _].
  assert (∀ v v' : N * bool * Shared, rtc (drift_step moves) v v' → P (v.1.2, v.2) → P (v'.1.2, v'.2)) as Hr.
  { induction 1 as [|[[n c] x] v v' (k & e & Hs) _ IH]; [done|]. intros HP. apply IH. clear IH.
    cbn [fst snd] in HP. cbn [mv_threads move_of mv_time] in Hs.
    pose proof (threads_keep P (n + e + tm_time (orc k)) (tm_threads (orc k)) (c, x)
      (λ cs mv Hin, Hstep k _ cs mv Hin) HP) as Hk.
    pose proof (threads_flag (n + e + tm_time (orc k)) x (tm_threads (orc k))) as Hf.
    destruct c; destruct (foldl _ _ _) as [c' x']; cbn in *; subst; done. }
  apply (Hr (view_of m) (view_of m') Hd).
Qed.
End drift.

Section stream.
Context `{AccountDb} (capacity : nat) (orc : nat → task_move).
Context (pre_faults : nat → pre_exec_call → option io_error) (kill_delay : option N).
Context (daemon : cred) (group_list : string → N → list N).
Context (canonicalize : string → result io_error string) (config : Config).

Abbreviation max_output := (bc_max_output_bytes (cf_build config)).
Abbreviation moves := (λ k, move_of capacity max_output (orc k)).
Abbreviation later := (later moves).
Abbreviation send_response := (send_response capacity orc kill_delay config).

(** The client listens: it reads everything and has not left. *)
Definition listening (m : Machine Shared) : Prop :=
  (0 < capacity)%nat ∧ attentive orc ∧ sh_closed (m_shared m) = false ∧ bridged (m_shared m) = false.

Definition control_of (s : Shared) : list ResponseEvent :=
  filter (λ e, is_output e = false) (sh_sent s).

Lemma reader_step_control now c input r s :
  control_of (reader_step capacity max_output now c input r s).1.2 = control_of s ∧
  sh_closed (reader_step capacity max_output now c input r s).1.2 = sh_closed s ∧
  sh_relay (reader_step capacity max_output now c input r s).1.2 = sh_relay s.
Proof.
  unfold reader_step. destruct (rd_state r); try done.
  - destruct input; [|done]. destruct (is_empty _); [done|]. by destruct (_ <? _).
  - by destruct c.
  - unfold try_send. destruct (sh_closed s) eqn:Ec; [done|].
    destruct (Nat.ltb _ _); cbn; [|by destruct (_ <=? _)].
    split; [|done]. unfold control_of. cbn. rewrite filter_app. cbn.
    destruct (rd_kind r); cbn; by rewrite app_nil_r.
Qed.

Lemma bridge_step_bridged now c b s :
  bridged s = true → bridged (bridge_step now c b s).1 = true.
Proof.
  intros Hb. unfold bridge_step. destruct (br_state b); try done.
  - destruct (_ !! _); [by destruct (bridge_item _ _)|by destruct (senders_gone _ _)].
  - by destruct (match br_kind b with TeardownDrain => _ | _ => _ end).
  - by destruct c.
  - unfold try_offer. destruct (ob_closed _); [done|]. destruct (Nat.ltb _ _); [done|]. by destruct (_ <=? _).
Qed.

Lemma thread_step_bridged now cs mv :
  bridged (thread_step capacity max_output now cs mv).2 = bridged cs.2.
Proof.
  destruct cs as [c s]. destruct mv as [i input|i answer| | | | | | |]; cbn; try done.
  - destruct (_ !! _) as [r|]; [|done]. pose proof (reader_step_control now c input r s) as (_ & _ & Hr).
    destruct (reader_step _ _ _ _ _ _ _) as [[? ?] ?]. unfold bridged in *. cbn in *. by rewrite Hr.
  - by destruct (_ !! _).
  - by destruct (bridged s) eqn:?.
  - by destruct (bridged s) eqn:?.
  - by destruct (bridged s) eqn:?.
  - destruct (rl_bridge _) as [b|] eqn:E; [|done].
    assert (bridged s = true) as Hb by (unfold bridged; by rewrite E).
    pose proof (bridge_step_bridged now c b s Hb). destruct (bridge_step _ _ _ _). cbn in *. congruence.
Qed.

Lemma thread_step_control now cs mv :
  control_of (thread_step capacity max_output now cs mv).2 = control_of cs.2 ∧
  (mv ≠ ClientLeaves → bridged cs.2 = false →
     sh_closed (thread_step capacity max_output now cs mv).2 = sh_closed cs.2).
Proof.
  destruct cs as [c s]. destruct mv as [i input|i answer| | | | | | |]; cbn; try done.
  - destruct (_ !! _) as [r|]; [|done]. pose proof (reader_step_control now c input r s) as (H1 & H2 & _).
    by destruct (reader_step _ _ _ _ _ _ _) as [[? ?] ?].
  - by destruct (_ !! _).
  - by destruct (bridged s).
  - by destruct (bridged s).
  - by destruct (bridged s).
  - unfold bridged. destruct (rl_bridge _) as [b|]; [|done]. pose proof (bridge_step_view now c b s) as Hv.
    destruct (bridge_step _ _ _ _). injection Hv as _ _ Hv _. split; [|done]. unfold control_of. cbn in *. by rewrite Hv.
Qed.

Lemma later_control m m' : later m m' → control m' = control m.
Proof.
  intros Hl. apply (later_keeps capacity max_output orc (λ cs, control_of cs.2 = control m) m m'); [|done..].
  intros k now cs mv _ Hc. by rewrite (proj1 (thread_step_control now cs mv)).
Qed.

Lemma later_listening m m' : later m m' → listening m → listening m'.
Proof.
  intros Hl (Hc & Ha & Ho). split; [done|]. split; [done|].
  apply (later_keeps capacity max_output orc (λ cs, sh_closed cs.2 = false ∧ bridged cs.2 = false) m m'); [|done..].
  intros k now cs mv Hin [Hcl Hb]. rewrite thread_step_bridged, (proj2 (thread_step_control now cs mv)); [done| |done].
  intros ->. by destruct (Ha k).
Qed.

Lemma advance_drained m : attentive orc → bridged (m_shared (advance moves kill_delay 0 m)) = false →
  sh_taken (m_shared (advance moves kill_delay 0 m)) =
  length (sh_sent (m_shared (advance moves kill_delay 0 m))).
Proof.
  intros Ha Hb. destruct (advance_threads capacity max_output orc kill_delay 0 m) as [_ Ht].
  destruct (Ha (m_tick m)) as [[l Hl] _]. rewrite Hl, foldl_app in Ht.
  destruct (foldl _ _ l) as [c s]. cbn in Ht. injection Ht as _ Hs. rewrite Hs in *.
  revert Hb. destruct (bridged s) eqn:E; [congruence|done].
Qed.

(** Sending an event of the task's own. *)
Lemma send_spec event m : is_output event = false →
  wp (send_response event) m (λ m' r, ∃ sent : bool, r = Ok sent ∧
    control m' = control m ++ (if sent then [event] else []) ∧
    (listening m → sent = true ∧ listening m')).
Proof.
  intros Hev. apply wp_poll_shared with
    (I := λ m1, control m1 = control m ∧ (listening m → listening m1))
    (J := λ m1, control m1 = control m ∧ ¬ listening m); [done|done|..].
  - intros m1 m2 [Hc Hl] H12. split; [by rewrite (later_control _ _ H12)|].
    intros. by apply (later_listening m1); auto.
  - intros m1 m2 [Hc Hl] H12. split; [by rewrite (later_control _ _ H12)|done].
  - naive_solver.
  - intros m0 m1 [Hc Hl]. pose proof (advance_drained m0) as Hd. fold m1 in Hd.
    unfold try_send. destruct (sh_closed (m_shared m1)) eqn:Ecl.
    + exists false. split; [done|]. rewrite app_nil_r. split; [done|].
      intros Hlm. destruct (Hl Hlm) as (_ & _ & ? & _). congruence.
    + destruct (Nat.ltb_spec (length (sh_sent (m_shared m1)) - sh_taken (m_shared m1)) capacity); cbn.
      * exists true. split; [done|]. split.
        -- rewrite <-Hc. unfold control. cbn. by rewrite filter_app, filter_cons_True by done.
        -- intros Hlm. split; [done|]. destruct (Hl Hlm) as (? & ? & ? & ?). by split_and!.
      * split; [done|]. intros Hlm. destruct (Hl Hlm) as (? & Ha & _ & Hb). specialize (Hd Ha Hb). lia.
  - intros m1 [Hc Hl]. exists false. split; [done|]. by rewrite app_nil_r.
Qed.

(** * Computations that send nothing of their own *)

Definition same (m m' : Machine Shared) : Prop :=
  control m' = control m ∧ (listening m → listening m').

#[local] Instance same_preorder : PreOrder same.
Proof. split; [done|]. intros m1 m2 m3 [E1 L1] [E2 L2]. split; [by rewrite E2|auto]. Qed.

Lemma later_same m m' : later m m' → same m m'.
Proof. intros Hl. split; [by apply later_control|]. by apply later_listening. Qed.

Abbreviation silent := (keeps same).

Lemma silent_spawn program args cwd env stdin run_as :
  silent (spawn_command capacity orc pre_faults kill_delay daemon group_list config program args cwd env
            stdin run_as).
Proof.
  intros m. unfold spawn_command. pose proof (later_same _ _ (advance_later moves kill_delay 0 m)) as Hs.
  destruct (tm_fault _); [done|]. destruct (pre_exec _ _ _ _) as [child [|]]; [|done].
  etrans; [exact Hs|]. split; [done|]. intros (? & ? & ? & ?). by split_and!.
Qed.

(** An update of the shared state that leaves the channel alone. *)
Lemma off_channel_same (f : Shared → Shared) m :
  (∀ s, sh_sent (f s) = sh_sent s ∧ sh_closed (f s) = sh_closed s ∧ sh_relay (f s) = sh_relay s) →
  same m (set_shared (f (m_shared m)) m).
Proof.
  intros Hf. destruct (Hf (m_shared m)) as (H1 & H2 & H3). split.
  - unfold control. cbn. by rewrite H1.
  - intros (? & ? & ? & Hb). unfold listening, bridged in *. cbn. rewrite H2, H3. by split_and!.
Qed.

Lemma silent_supervise phase timeout_sec stdin :
  silent (supervise_phase capacity orc kill_delay config phase timeout_sec stdin).
Proof.
  apply keeps_supervise; [apply _|apply later_same|..]; intros.
  - by apply (off_channel_same (λ s, (add_reader kind s).1)).
  - by apply (off_channel_same (λ s, (add_writer input s).1)).
  - by apply (off_channel_same (tell_writer i)).
Qed.

(** * What the phases send *)

(** The task's thread has sent the events [l] in between. *)
Definition emits (l : list ResponseEvent) (m m' : Machine Shared) : Prop :=
  control m' = control m ++ l ∧ (listening m → listening m').

Lemma same_emits m m' : same m m' → emits [] m m'.
Proof. intros [E L]. split; [by rewrite app_nil_r|done]. Qed.

Lemma emits_trans l1 l2 m1 m2 m3 : emits l1 m1 m2 → emits l2 m2 m3 → emits (l1 ++ l2) m1 m3.
Proof. intros [E1 L1] [E2 L2]. split; [by rewrite E2, E1, (assoc (++))|auto]. Qed.

Lemma wp_silent {E A} (c : eff (Machine Shared) E A) m Q :
  silent c → (∀ m' r, emits [] m m' → Q m' r) → wp c m Q.
Proof. intros Hc HQ. apply HQ, same_emits, Hc. Qed.

Lemma wp_send event m Q : is_output event = false →
  (∀ m', emits [event] m m' → Q m' (Ok true)) →
  (∀ m', emits [] m m' → ¬ listening m → Q m' (Ok false)) →
  wp (send_response event) m Q.
Proof.
  intros Hev Ht Hf. eapply wp_mono; [by apply send_spec|].
  intros m' r ([] & -> & Hc & Hl); [apply Ht|apply Hf].
  - split; [done|]. intros Hm. by destruct (Hl Hm).
  - split; [done|]. intros Hm. by destruct (Hl Hm).
  - intros Hm. by destruct (Hl Hm).
Qed.

Lemma wp_send_or e event m Q : is_output event = false →
  (∀ m', emits [event] m m' → Q m' (Ok tt)) →
  (∀ m', emits [] m m' → ¬ listening m → Q m' (Err (Raised e))) →
  wp (send_or capacity orc kill_delay config e event) m Q.
Proof.
  intros Hev Ht Hf. unfold send_or. apply wp_bind, wp_send; [done|..].
  - intros m' Hm'. by apply wp_lift, Ht.
  - intros m' Hm' Hl. by apply wp_lift, Hf.
Qed.

Definition phase_started (id : string) (phase : BuildPhase) : ResponseEvent :=
  RBuild id "phase_started" (Some phase) None None None.
Definition phase_finished (id : string) (r : PhaseResult) : ResponseEvent :=
  RBuild id "phase_finished" (Some (ph_phase r)) (Some (ph_duration_ms r)) (Some (ph_exit_code r))
    (Some (ph_timed_out r)).

(** An error raised inside a phase names it and no finished phase. *)
Definition phase_error (phase : BuildPhase) (e : TaskError) : Prop :=
  er_phase e = Some phase ∧ er_phases e = [].

Lemma supervise_throws phase timeout_sec stdin :
  throws (phase_error phase) (supervise_phase capacity orc kill_delay config phase timeout_sec stdin).
Proof.
  unfold supervise_phase.
  apply (throws_bind_try _ (phase_error phase)).
  { unfold io_setup. destruct stdin; [|done]. apply throws_bind; [|done].
    apply (throws_map_err_from _ (λ e, er_phases e = [])); [|done].
    apply throws_bind; [|intros; apply throws_atomically].
    intros m e. unfold make_nonblocking. destruct (tm_fault _); cbn; [by intros [= <-]|done]. }
  intros [writer|[err|]] Hr; [|apply throws_bind; [apply throws_try|]|done].
  - unfold spawn_output_thread, join_phase_threads, finish_stdin_writer, recv_timeout, join_output_thread,
      join_bounded_thread, join_thread. throws_tac.
    + by apply throws_map_err.
    + apply throws_lift. match goal with r : result _ _ |- _ => destruct r end; cbn; [done|]. by intros ? [= <-].
  - destruct (Hr err eq_refl). intros [a|[e|]]; [by apply throws_fail..|done].
Qed.

(** A silent computation whose errors satisfy [P]. *)
Lemma wp_silent_throws {E A} (P : E → Prop) (c : eff (Machine Shared) (halt E) A) m Q :
  silent c → throws P c →
  (∀ m' a, emits [] m m' → Q m' (Ok a)) → (∀ m' e, emits [] m m' → P e → Q m' (Err (Raised e))) →
  (∀ m', Q m' (Err Diverged)) → wp c m Q.
Proof.
  intros Hs Ht Hok Herr Hd. unfold wp. specialize (Hs m). specialize (Ht m).
  apply same_emits in Hs. destruct (c m) as [m' [a|[e|]]]; cbn in *; eauto.
Qed.

(** What a phase may have sent, with its result. *)
Definition phase_sends (id : string) (phase : BuildPhase) (m m' : Machine Shared)
    (r : result (halt TaskError) PhaseResult) : Prop :=
  match r with
  | Ok res => ph_phase res = phase ∧ emits [phase_started id phase; phase_finished id res] m m'
  | Err (Raised e) =>
      phase_error phase e ∧ (emits [] m m' ∨ emits [phase_started id phase] m m')
  | Err Diverged => True
  end.

Lemma report_phase_sends phase id outcome m0 m :
  emits [phase_started id phase] m0 m →
  wp (report_phase capacity orc kill_delay config phase id outcome) m (phase_sends id phase m0).
Proof.
  intros H0. unfold report_phase. apply wp_bind.
  apply (wp_silent_throws (λ _, False)); [|apply throws_atomically|..|done|done].
  { apply keeps_atomically; [apply _|apply later_same|]. intros. by apply (off_channel_same (λ s, s)). }
  intros m1 [] H1; pose proof (emits_trans _ _ _ _ _ H0 H1) as H01; cbn in H01.
  { apply wp_fail. split; [done|]. by right. }
  destruct outcome as [code timed_out duration|]; [|apply wp_fail; split; [done|]; by right].
  apply wp_bind, wp_send_or; [done|..].
  - intros m2 H2. apply wp_ret. split; [done|]. by apply (emits_trans _ _ _ _ _ H01 H2).
  - intros m2 H2 _. split; [done|]. right. by apply (emits_trans _ _ _ _ _ H01 H2).
Qed.

Lemma run_phase_sends execution timeout_sec phase run_as cwd id env stdin m :
  wp (run_phase capacity orc pre_faults kill_delay daemon group_list config execution timeout_sec phase
        run_as cwd id env stdin) m (phase_sends id phase m).
Proof.
  unfold run_phase. destruct execution as [ex|]; [|by apply wp_fail].
  apply wp_bind, (wp_silent_throws (λ _, False)); [|done|..|done|done].
  { apply keeps_cancelled, later_same. }
  intros m1 cancelled H1. apply wp_bind, wp_lift. destruct cancelled; cbn.
  { split; [done|]. by left. }
  apply wp_bind, wp_send_or; [done| |].
  2: { intros m2 H2 _. split; [done|]. left. apply (emits_trans _ _ _ _ _ H1 H2). }
  intros m2 H2. pose proof (emits_trans _ _ _ _ _ H1 H2) as H12. cbn in H12.
  assert (∀ m3, emits [] m2 m3 → emits [phase_started id phase] m m3) as Hmore.
  { intros m3 H3. apply (emits_trans _ _ _ _ _ H12 H3). }
  apply wp_bind, (wp_silent_throws (phase_error phase)); [by apply keeps_lift, _| |..|done].
  { apply throws_lift. destruct (configure_command _ _) as [|[]]; cbn; [done|by intros ? [= <-]|done]. }
  2: { intros m3 e H3 He. split; [done|]. right. auto. }
  intros m3 [] H3. destruct (command_line ex) as [program args].
  apply wp_bind, (wp_silent_throws (phase_error phase)); [apply keeps_map_err, silent_spawn|by apply throws_raise|..|done].
  2: { intros m4 e H4 He. split; [done|]. right. apply Hmore, (emits_trans _ _ _ _ _ H3 H4). }
  intros m4 [] H4. pose proof (emits_trans _ _ _ _ _ H3 H4) as H34. cbn in H34.
  apply wp_bind, (wp_silent_throws (phase_error phase)); [apply silent_supervise|apply supervise_throws|..|done].
  2: { intros m5 e H5 He. split; [done|]. right. apply Hmore, (emits_trans _ _ _ _ _ H34 H5). }
  intros m5 outcome H5. apply report_phase_sends, Hmore, (emits_trans _ _ _ _ _ H34 H5).
Qed.

(** * The stream follows the protocol *)

Definition reach (id : string) (m : Machine Shared) (st : stream_state) : Prop :=
  stream_run id (control m) = Some st.

Lemma reach_emits id m m' st l st' :
  reach id m st → emits l m m' →
  foldl (λ st e, st ≫= λ st, stream_step id st e) (Some st) l = Some st' → reach id m' st'.
Proof. unfold reach, stream_run. intros Hm [-> _] Hl. by rewrite foldl_app, Hm. Qed.

Lemma reach_silent id m m' st : reach id m st → emits [] m m' → reach id m' st.
Proof. intros Hm He. by eapply reach_emits. Qed.

Lemma started_accepted id ps phase :
  may_start ps phase = true →
  stream_step id (Between ps) (phase_started id phase) = Some (Inside ps phase).
Proof. intros Hs. cbn. rewrite bool_decide_true by done. by rewrite Hs. Qed.

Lemma finished_accepted id ps r :
  stream_step id (Inside ps (ph_phase r)) (phase_finished id r) = Some (Between (ps ++ [r])).
Proof. cbn. rewrite bool_decide_true by done. by destruct r. Qed.

(** A phase takes the stream from one pause to the next. *)
Lemma phase_reaches id ps phase m m' r :
  may_start ps phase = true → reach id m (Between ps) → phase_sends id phase m m' r →
  match r with
  | Ok res => ph_phase res = phase ∧ reach id m' (Between (ps ++ [res]))
  | Err (Raised e) => phase_error phase e ∧
      ∃ st, reach id m' st ∧ st ≠ Ended ∧ reported st = ps
  | Err Diverged => True
  end.
Proof.
  intros Hs Hm Hr. destruct r as [res|[e|]]; [| |done].
  - destruct Hr as [<- He]. split; [done|]. eapply reach_emits; [exact Hm|exact He|].
    cbn [foldl mbind option_bind]. rewrite started_accepted by done. apply finished_accepted.
  - destruct Hr as [Hp [He|He]]; (split; [done|]).
    + exists (Between ps). by split; [apply (reach_silent id m)|].
    + exists (Inside ps phase). split; [|done]. eapply reach_emits; [exact Hm|exact He|].
      cbn [foldl mbind option_bind]. by apply started_accepted.
Qed.

(** A finished list of phases, with the outcome it gives. *)
Definition completes (o : TaskPhasesOutcome) : Prop :=
  ∃ ps r, o = outcome_after ps r ∧ (ph_phase r = Run ∨ phase_failed r = true).

Definition erred (id : string) (m : Machine Shared) (e : TaskError) : Prop :=
  ∃ st, reach id m st ∧ st ≠ Ended ∧ (er_phases e = reported st ∨ er_phases e = []).

(** The stream while the phases of a task run; the client's attention is kept. *)
Definition reaches {A} (id : string) (m : Machine Shared) (P : Machine Shared → A → Prop)
    (m' : Machine Shared) (r : result (halt TaskError) A) : Prop :=
  (r ≠ Err Diverged → listening m → listening m') ∧
  match r with
  | Ok a => P m' a
  | Err (Raised e) => erred id m' e
  | Err Diverged => True
  end.

Lemma phase_sends_listening id phase m m' r :
  phase_sends id phase m m' r → r ≠ Err Diverged → listening m → listening m'.
Proof. destruct r as [|[]]; cbn; [intros [_ []]|intros [_ [[]|[]]]|]; done. Qed.

Lemma wp_reaches_bind {A B} id (c : eff (Machine Shared) (halt TaskError) A) k m P (Q : _ → B → Prop) :
  wp c m (reaches id m P) → (∀ m1 a, P m1 a → wp (k a) m1 (reaches id m1 Q)) →
  wp (c ≫= k) m (reaches id m Q).
Proof.
  intros Hc Hk. apply wp_bind. eapply wp_mono; [exact Hc|]. intros m1 [a|e] [Hl HP].
  - eapply wp_mono; [by apply Hk|]. intros m2 r [Hl2 HQ]. split; [|done].
    intros Hr Hm. by apply Hl2, Hl.
  - split; [|done]. intros He. apply Hl. by intros [= ->].
Qed.

Lemma run_phase_reaches id ps execution timeout_sec phase run_as cwd env stdin m :
  may_start ps phase = true → reach id m (Between ps) →
  wp (io_map_err (halt_map (with_phases ps))
        (run_phase capacity orc pre_faults kill_delay daemon group_list config execution timeout_sec phase
           run_as cwd id env stdin)) m
    (reaches id m (λ m' r, ph_phase r = phase ∧ reach id m' (Between (ps ++ [r])))).
Proof.
  intros Hs Hm. apply wp_map_err. eapply wp_mono; [apply run_phase_sends|].
  intros m' r Hr. pose proof (phase_sends_listening _ _ _ _ _ Hr) as Hl.
  apply (phase_reaches id ps) in Hr; [|done..]. destruct r as [res|[e|]]; [| |by split].
  - split; [intros _; by apply Hl|done].
  - split; [intros _; by apply Hl|]. destruct Hr as (_ & st & H1 & H2 & H3).
    exists st. split_and!; [done..|]. left. by rewrite H3.
Qed.

Lemma run_task_phases_reaches id task run_as workspace_root m :
  reach id m (Between []) →
  wp (run_task_phases capacity orc pre_faults kill_delay daemon group_list canonicalize config task
        run_as workspace_root id) m
    (reaches id m (λ m' o, reach id m' (Between (tp_phases o)) ∧ completes o)).
Proof.
  intros Hm. unfold run_task_phases.
  eapply (wp_reaches_bind _ _ _ _ (λ m' _, reach id m' (Between []))).
  { apply wp_lift. destruct (resolve_cwd _ _ _) as [|[e|]]; cbn; split; try done.
    exists (Between []). split_and!; auto; done. }
  intros m1 cwd Hm1.
  eapply (wp_reaches_bind _ _ _ _ (λ m' o, match o with
    | None => reach id m' (Between [])
    | Some r => ph_phase r = Setup ∧ reach id m' (Between [r])
    end)).
  { destruct (tk_setup task) as [setup|]; [|by apply wp_ret].
    eapply (wp_reaches_bind _ _ _ _ (λ m' r, ph_phase r = Setup ∧ reach id m' (Between [r]))).
    - eapply wp_mono; [apply run_phase_sends|]. intros m' r Hr. pose proof (phase_sends_listening _ _ _ _ _ Hr) as Hl.
      apply (phase_reaches id []) in Hr; [|done..]. destruct r as [res|[e|]]; [| |by split].
      + split; [intros _; by apply Hl|done].
      + split; [intros _; by apply Hl|]. destruct Hr as ([_ Hp] & st & H1 & H2 & H3).
        exists st. split_and!; auto.
    - intros m2 r Hr. apply wp_ret. by split. }
  intros m2 [r|] Hm2.
  - destruct Hm2 as [Hp Hm2]. destruct (phase_failed r) eqn:Hf.
    + apply wp_ret. split; [done|]. split; [done|]. exists [], r. auto.
    + eapply wp_reaches_bind; [apply (run_phase_reaches id [r]); [|done]|].
      * cbn. by rewrite bool_decide_true, Hf.
      * intros m3 run [Hrun Hm3]. apply wp_ret. split; [done|]. split; [done|].
        exists [r], run. auto.
  - eapply wp_reaches_bind; [by apply (run_phase_reaches id [])|].
    intros m3 run [Hrun Hm3]. apply wp_ret. split; [done|]. split; [done|]. exists [], run. auto.
Qed.

(** Sending one event the protocol allows next. *)
Lemma send_or_reaches id e event st st' m :
  is_output event = false → reach id m st → st ≠ Ended → er_phases e = [] →
  stream_step id st event = Some st' →
  wp (send_or capacity orc kill_delay config e event) m (reaches id m (λ m' _, reach id m' st')).
Proof.
  intros Ho Hm Hst He Hs. apply wp_send_or; [done|..].
  - intros m' Hm'. split; [intros _; apply Hm'|]. eapply reach_emits; [exact Hm|exact Hm'|done].
  - intros m' Hm' Hl. split; [by intros _ ?|]. exists st. split_and!; auto. by apply (reach_silent id m).
Qed.

Lemma completes_exit id o art restr :
  completes o →
  stream_step id (Between (tp_phases o))
    (RExit (tp_exit_code o) (tp_timed_out o) art restr (tp_failed_phase o) (tp_phases o)) = Some Ended.
Proof.
  intros (ps & r & -> & Hr). cbn. rewrite last_snoc. unfold exit_reports.
  rewrite bool_decide_true by done.
  assert (bool_decide (ph_phase r = Run) || phase_failed r = true) as ->.
  { destruct Hr as [?| ->]; [by rewrite bool_decide_true|by rewrite orb_true_r]. }
  by rewrite orb_true_r.
Qed.

Lemma fails_exit id st code timed_out restr fp phases :
  st ≠ Ended → code ≠ 0%Z ∨ timed_out = true → phases = reported st ∨ phases = [] →
  stream_step id st (RExit code timed_out None restr fp phases) = Some Ended.
Proof.
  intros Hst Hc Hp.
  assert (exit_fails (reported st) code timed_out None phases = true) as He.
  { unfold exit_fails. cbn. rewrite andb_true_r. apply andb_true_iff. split.
    - destruct Hc as [?| ->]; [|by rewrite orb_true_r]. by rewrite (proj2 (Z.eqb_neq _ _)).
    - destruct Hp as [->| ->]; [by rewrite bool_decide_true|].
      by rewrite (bool_decide_true ([] = [])), orb_true_r. }
  destruct st; cbn [stream_step]; try done; by rewrite He.
Qed.

Lemma finish_build_reaches id files task root bid o m :
  reach id m (Between (tp_phases o)) → completes o →
  wp (finish_build capacity orc kill_delay config files task root bid o) m (reaches id m (λ m' _, reach id m' Ended)).
Proof.
  intros Hm Ho. unfold finish_build. destruct (bf_collect files _ _ _) as [artifacts|[e|]]; [..|by apply wp_fail].
  - eapply send_or_reaches; [done..|]. by apply completes_exit.
  - eapply (wp_reaches_bind _ _ _ _ (λ m' _, reach id m' (Failing (tp_phases o)))).
    + by eapply send_or_reaches.
    + intros m1 _ Hm1. eapply send_or_reaches; [done..|]. apply fails_exit; [done| |by left].
      destruct (Z.eqb_spec (tp_exit_code o) 0), (tp_timed_out o); cbn; auto.
Qed.

(** Steps of a build that only consult the file system or the accounts. *)
Lemma lift_reaches {A} id st m (r : result (halt TaskError) A) :
  reach id m st → st ≠ Ended → (∀ e, r = Err (Raised e) → er_phases e = []) →
  wp (io_lift r) m (reaches id m (λ m' _, reach id m' st)).
Proof.
  intros Hm Hst He. apply wp_lift. destruct r as [a|[e|]]; split; try done.
  exists st. split_and!; auto.
Qed.

Ltac lift_error :=
  intros e He;
  match type of He with
  | map_err (halt_map _) ?r = _ => by destruct r as [|[]]; cbn in He; simplify_eq
  | map_err _ ?r = _ => by destruct r; cbn in He; simplify_eq
  end.

Lemma run_build_reaches id files getuid validated m :
  control m = [] →
  wp (run_build capacity orc pre_faults kill_delay daemon group_list canonicalize config files getuid
        validated id) m (reaches id m (λ m' _, reach id m' Ended)).
Proof.
  intros Hm. unfold run_build, run_build_in_workspace, of_failure.
  assert (reach id m Fresh) as H0 by (unfold reach; by rewrite Hm).
  eapply (wp_reaches_bind _ _ _ _ (λ m' _, reach id m' (Between []))).
  { eapply send_or_reaches; [done..|]. cbn. by rewrite bool_decide_true. }
  intros m1 _ H1.
  repeat (eapply wp_reaches_bind; [apply (lift_reaches id (Between [])); [done|done|lift_error]|intros ???]).
  eapply wp_reaches_bind; [by apply run_task_phases_reaches|].
  intros m' o [? Ho]. by apply finish_build_reaches.
Qed.

Lemma execute_build_reaches id files getuid validated m :
  control m = [] →
  wp (execute_build capacity orc pre_faults kill_delay daemon group_list canonicalize config files getuid
        validated id) m
    (λ m' r, r ≠ Err Diverged → ∃ st, reach id m' st ∧ (listening m → st = Ended)).
Proof.
  intros Hm. unfold execute_build. apply wp_bind, wp_try.
  eapply wp_mono; [by apply run_build_reaches|]. intros m1 [[]|[e|]] [Hl Hr]; [|..|by apply wp_fail].
  { apply wp_ret. intros _. by exists Ended. }
  destruct Hr as (st & Hst & Hne & Hp). specialize (Hl ltac:(done)).
  apply wp_bind, wp_send; [done|..].
  - intros m2 H2. assert (reach id m2 (Failing (reported st))) as H2'.
    { eapply reach_emits; [exact Hst|exact H2|]. by destruct st. }
    apply wp_bind, wp_send; [done|..].
    + intros m3 H3. apply wp_ret. intros _. exists Ended. split; [|done].
      eapply reach_emits; [exact H2'|exact H3|]. apply fails_exit; [done|by left|done].
    + intros m3 H3 Hnl. apply wp_ret. intros _. exists (Failing (reported st)).
      split; [by apply (reach_silent id m2)|]. intros Hlm. by destruct Hnl; apply H2, Hl.
  - intros m2 H2 Hnl. apply wp_bind, wp_send; [done|..].
    + intros m3 H3. apply wp_ret. intros _. exists Ended. split; [|done].
      eapply reach_emits; [by apply (reach_silent id m1)|exact H3|]. apply fails_exit; [done|by left|done].
    + intros m3 H3 _. apply wp_ret. intros _. exists st.
      split; [by apply (reach_silent id m2), H3; apply (reach_silent id m1)|].
      intros Hlm. by destruct Hnl; apply Hl.
Qed.

(** * Output in the stream *)

(** Every event the channel accepted, output included, and the events it had
    accepted before. *)
Definition extends (m m' : Machine Shared) : Prop := sh_sent (m_shared m) `prefix_of` sh_sent (m_shared m').

#[local] Instance extends_preorder : PreOrder extends.
Proof. unfold extends. split; [by intros m|intros m1 m2 m3; apply transitivity]. Qed.

Lemma try_send_prefix e s : sh_sent s `prefix_of` sh_sent (try_send capacity e s).1.
Proof. unfold try_send. destruct (sh_closed s); [done|]. destruct (Nat.ltb _ _); [by eexists|done]. Qed.

Lemma reader_step_prefix now c input r s :
  sh_sent s `prefix_of` sh_sent (reader_step capacity max_output now c input r s).1.2.
Proof.
  unfold reader_step. destruct (rd_state r) as [|data ?|data ?| | |]; try done.
  - destruct input; [|done]. destruct (is_empty _); [done|]. by destruct (_ <? _).
  - by destruct c.
  - pose proof (try_send_prefix (output_event (rd_kind r) data) s) as Hp.
    destruct (try_send _ _ _) as [s' []]; [done..|]. by destruct (_ <=? _).
Qed.

(** Only the threads that relay output add to the stream on their own. *)
Lemma thread_step_sent now cs mv :
  sh_sent cs.2 `prefix_of` sh_sent (thread_step capacity max_output now cs mv).2 ∧
  (sh_readers cs.2 = [] → sh_readers (thread_step capacity max_output now cs mv).2 = [] ∧
     sh_sent (thread_step capacity max_output now cs mv).2 = sh_sent cs.2).
Proof.
  destruct cs as [c s]. destruct mv as [i input|i answer| | | | | | |]; cbn; try done.
  - destruct (_ !! _) as [r|] eqn:Hi; [|done]. pose proof (reader_step_prefix now c input r s) as Hp.
    destruct (reader_step _ _ _ _ _ _ _) as [[? ?] ?]. split; [done|]. intros Hr. by rewrite Hr in Hi.
  - by destruct (_ !! _).
  - by destruct (bridged s).
  - by destruct (bridged s).
  - by destruct (bridged s).
  - destruct (rl_bridge _) as [b|]; [|done]. pose proof (bridge_step_view now c b s) as Hv.
    destruct (bridge_step _ _ _ _). injection Hv as _ _ Hs Hr _ _. cbn in *. by rewrite Hs, Hr.
Qed.

Lemma later_extends m m' : later m m' → extends m m'.
Proof.
  intros Hl. apply (later_keeps capacity max_output orc (λ cs, sh_sent (m_shared m) `prefix_of` sh_sent cs.2) m m');
    [|done..].
  intros k now cs mv _ Hp. etrans; [exact Hp|apply thread_step_sent].
Qed.

(** Either nothing was sent and nothing relays output yet, or the first event is
    not output. *)
Definition opened (m : Machine Shared) : Prop :=
  ∃ e l, sh_sent (m_shared m) = e :: l ∧ is_output e = false.
Definition opens (m : Machine Shared) : Prop :=
  (sh_sent (m_shared m) = [] ∧ sh_readers (m_shared m) = []) ∨ opened m.

Lemma opened_extends m m' : opened m → extends m m' → opened m'.
Proof. intros (e & l & E & He) [k Hk]. rewrite E in Hk. by eexists e, _. Qed.

Lemma later_opens m m' : later m m' → opens m → opens m'.
Proof.
  intros Hl [[Hs Hr]|Ho]; [left|right; by eapply opened_extends, later_extends].
  apply (later_keeps capacity max_output orc (λ cs, sh_sent cs.2 = [] ∧ sh_readers cs.2 = []) m m'); [|done..].
  intros k now cs mv _ [Hs' Hr']. destruct (thread_step_sent now cs mv) as [_ Ht].
  destruct (Ht Hr') as [-> ->]. done.
Qed.

#[local] Instance opens_preorder : PreOrder (λ m m', opens m → opens m').
Proof. split; [by intros m|intros m1 m2 m3; auto]. Qed.

Lemma send_opens event : is_output event = false →
  keeps (λ m m', opens m → opens m') (send_response event).
Proof.
  intros He. apply keeps_send; [apply _|apply later_opens| |done].
  intros e m Ho Hm. unfold try_send. destruct (sh_closed _) eqn:Ec; [by destruct m|].
  destruct (Nat.ltb _ _); [|by destruct m]. right.
  destruct Hm as [[Hs _]|(e' & l & Hs & He')]; unfold opened; cbn; rewrite Hs; [by eexists e, []|by eexists e', _].
Qed.

Lemma run_build_opens id files getuid validated m :
  opens m → control m = [] →
  wp (run_build capacity orc pre_faults kill_delay daemon group_list canonicalize config files getuid
        validated id) m (λ m' _, opens m').
Proof.
  intros Ho Hc.
  destruct (keeps_started_build capacity orc pre_faults kill_delay daemon group_list canonicalize config extends
    later_extends (λ _ m, reflexivity (sh_sent (m_shared m))) (λ _ m, reflexivity (sh_sent (m_shared m)))
    (λ _ m, reflexivity (sh_sent (m_shared m))) (λ e m _, try_send_prefix e (m_shared m))
    (λ _ m, reflexivity (sh_sent (m_shared m))) files getuid validated id) as (rest & -> & Hrest).
  apply wp_bind. unfold send_or. apply wp_bind.
  pose proof (send_opens (RBuild id "started" None None None None) eq_refl m) as Hk.
  pose proof (send_spec (RBuild id "started" None None None None) m eq_refl) as Hs. unfold wp in Hs |- *.
  destruct (Tasks.send_response _ _ _ _ _ m) as [m1 r]. cbn [fst] in Hk. specialize (Hk Ho).
  destruct Hs as ([] & -> & Hs & _); [|done].
  assert (opened m1) as Hm1.
  { destruct Hk as [[E _]|]; [|done]. rewrite Hc in Hs. unfold control in Hs. cbn [fst] in Hs. by rewrite E in Hs. }
  right. eapply opened_extends; [exact Hm1|]. apply Hrest.
Qed.

Lemma execute_build_opens id files getuid validated m :
  opens m → control m = [] →
  wp (execute_build capacity orc pre_faults kill_delay daemon group_list canonicalize config files getuid
        validated id) m (λ m' _, opens m').
Proof.
  intros Ho Hc. unfold execute_build. apply wp_bind, wp_try. eapply wp_mono; [by apply run_build_opens|].
  intros m1 [[]|[e|]] H1; [done| |done].
  apply wp_bind, (wp_keeps (λ m m', opens m → opens m')); [by apply send_opens|]. intros m2 [] H2; [|by apply H2].
  apply wp_bind, (wp_keeps (λ m m', opens m → opens m')); [by apply send_opens|]. intros m3 [] H3; by apply H3, H2.
Qed.
End stream.

(** * From the events of the task's thread to the whole stream *)

Lemma stream_step_output id st e :
  is_output e = true → st ≠ Fresh → st ≠ Ended → stream_step id st e = Some st.
Proof. by destruct e, st. Qed.

Lemma stream_step_fresh id st e : stream_step id st e ≠ Some Fresh.
Proof. destruct st, e; cbn; repeat case_match; congruence. Qed.

(** A stream that does not begin with output is a word of the protocol, if the
    events of the task's own thread are, and after it only output. *)
Lemma stream_split id l st :
  (∀ e, head l = Some e → is_output e = false) →
  stream_run id (filter (λ e, is_output e = false) l) = Some st →
  ∃ word late, l = word ++ late ∧ stream_run id word = Some st ∧
    Forall (λ e, is_output e = true) late ∧ (late ≠ [] → st = Ended).
Proof.
  revert st. induction l as [|e l IH] using rev_ind; intros st Hh Hr.
  { exists [], []. by split_and!. }
  rewrite filter_app in Hr. destruct (is_output e) eqn:He.
  - rewrite filter_cons_False, filter_nil, app_nil_r in Hr by congruence.
    assert (l ≠ []) as Hne by (intros ->; specialize (Hh e eq_refl); congruence).
    destruct (IH st) as (word & late & -> & Hw & Hl & Hst); [|done|].
    { intros e' He'. apply Hh. by destruct l. }
    destruct (decide (st = Ended)) as [->|Hend].
    { exists word, (late ++ [e]). rewrite (assoc_L (++)). split_and!; [done..| |done].
      apply Forall_app. by repeat constructor. }
    assert (late = []) as -> by (destruct late; [done|]; by destruct Hend; apply Hst).
    rewrite app_nil_r in *. exists (word ++ [e]), []. rewrite app_nil_r. split_and!; [done| |done..].
    rewrite stream_run_app, Hw. apply stream_step_output; [done| |done].
    intros ->. destruct word as [|w word _] using rev_ind; [done|].
    rewrite stream_run_app in Hw. apply bind_Some in Hw as (? & _ & Hw). by eapply stream_step_fresh.
  - rewrite filter_cons_True, filter_nil, stream_run_app in Hr by done.
    apply bind_Some in Hr as (st0 & Hr & Hs).
    destruct (IH st0) as (word & late & -> & Hw & Hl & Hst); [|done|].
    { intros e' He'. apply Hh. by destruct l. }
    assert (late = []) as ->.
    { destruct late; [done|]. rewrite Hst in Hs by done. done. }
    rewrite app_nil_r in *. exists (word ++ [e]), []. rewrite app_nil_r. split_and!; [done| |done..].
    by rewrite stream_run_app, Hw.
Qed.
