(* ===== verification/TaskOutput.v ===== *)
(** The output limit of a build holds in every interleaving of its threads. *)
From Stdlib Require Import Ascii.
From stdpp Require Import base option strings numbers list gmap relations.
From S2P Require Import Prelude Effects RustStr Validation Protocol Accounts Archive Config RunAs Process ProcessFacts MachineRules Posix Artifacts Output Tasks TaskFacts TaskStream.

Local Open Scope N_scope.

(** * Bytes on their way *)

(** Counted and not yet handed to the channel. *)
Definition in_flight (r : reader) : N :=
  match rd_state r with Checking data _ | Sending data _ => len data | _ => 0 end.

Definition stopped (r : reader) : N :=
  match rd_state r with Exceeding | Cancelling | Done => 1 | _ => 0 end.

Definition chunk_size (c : StreamKind * string) : N := len c.2.

Abbreviation outputs := (filter (λ e, is_output e = true)).

(** The output events sent are those of some chunks of the program's output,
    which together with the chunks in flight stay within the limit and the count;
    the count exceeds the limit only by the last chunks of stopped threads. *)
Definition accounted (max_bytes : N) (s : Shared) : Prop :=
  max_bytes + 4096 * N.of_nat (length (sh_readers s)) ≤ u64_max →
  ∃ chunks,
    outputs (sh_sent s) = (λ c, output_event c.1 c.2) <$> chunks ∧
    sum_of chunk_size chunks + sum_of in_flight (sh_readers s) ≤ max_bytes ∧
    sum_of chunk_size chunks + sum_of in_flight (sh_readers s) ≤ sh_bytes s ∧
    sh_bytes s ≤ max_bytes + 4096 * sum_of stopped (sh_readers s).

Lemma stopped_le (l : list reader) : sum_of stopped l ≤ N.of_nat (length l).
Proof.
  rewrite <-sum_of_one. apply sum_of_le. intros r. unfold stopped. by destruct (rd_state r).
Qed.

Lemma substring_len n s : len (String.substring 0 n s) ≤ N.of_nat n.
Proof.
  revert s. induction n as [|n IH]; intros [|a s]; cbn [String.substring]; unfold len in *; cbn [String.length]; try lia.
  specialize (IH s). lia.
Qed.

Section accounting.
Context (capacity : nat) (max_bytes : N).

(** Replacing a thread by its successor. *)
Lemma sums_insert (s : Shared) i r r' : sh_readers s !! i = Some r →
  length (<[i := r']> (sh_readers s)) = length (sh_readers s) ∧
  sum_of in_flight (<[i := r']> (sh_readers s)) + in_flight r = sum_of in_flight (sh_readers s) + in_flight r' ∧
  sum_of stopped (<[i := r']> (sh_readers s)) + stopped r = sum_of stopped (sh_readers s) + stopped r'.
Proof. intros Hi. split_and!; [apply length_insert|by apply sum_of_insert..]. Qed.

(** A step of a relaying thread keeps the account. *)
Lemma reader_step_accounted now c input i r s :
  sh_readers s !! i = Some r → accounted max_bytes s →
  let '(r', s', _) := reader_step capacity max_bytes now c input r s in
  accounted max_bytes (set_readers (<[i := r']> (sh_readers s')) s').
Proof.
  intros Hi Ha. pose proof (stopped_le (sh_readers s)) as Hst. pose proof (lookup_lt_Some _ _ _ Hi) as Hpos.
  assert (∀ st, let r' := Reader (rd_kind r) st in
    in_flight r' ≤ in_flight r → stopped r ≤ stopped r' →
    accounted max_bytes (set_readers (<[i := r']> (sh_readers s)) s)) as Hmove.
  { intros st r' Hf Hs Hb. destruct (sums_insert s i r r' Hi) as (Hlen & F & S). cbn in Hb. rewrite Hlen in Hb.
    destruct (Ha Hb) as (cs & ? & ? & ? & ?). exists cs. cbn. split_and!; [done|lia..]. }
  unfold reader_step.
  destruct (rd_state r) as [|data deadline|data deadline| | |] eqn:Er;
    unfold in_flight at 2, stopped at 1 in Hmove; rewrite Er in Hmove.
  - destruct input as [data|]; [|by apply Hmove].
    pose proof (substring_len OUTPUT_CHUNK_SIZE data) as Hsz.
    set (chunk := String.substring 0 OUTPUT_CHUNK_SIZE data) in *.
    destruct (is_empty chunk); [by apply Hmove|]. unfold OUTPUT_CHUNK_SIZE in Hsz.
    assert (in_flight r = 0 ∧ stopped r = 0) as [Fr Sr] by (unfold in_flight, stopped; by rewrite Er).
    destruct (N.ltb_spec max_bytes (saturating_add (sh_bytes s) (len chunk))) as [Hex|Hin]; intros Hb; cbn in Hb.
    + destruct (sums_insert s i r (Reader (rd_kind r) Exceeding) Hi) as (Hlen & F & S).
      pose proof (stopped_le (<[i := Reader (rd_kind r) Exceeding]> (sh_readers s))). rewrite Hlen in *.
      destruct (Ha Hb) as (cs & ? & ? & ? & ?). exists cs. cbn in *.
      unfold wrapping_add. rewrite N.mod_small by lia. split_and!; [done|lia..].
    + destruct (sums_insert s i r (Reader (rd_kind r) (Checking chunk (now + OUTPUT_FORWARD_GRACE))) Hi) as (Hlen & F & S).
      rewrite Hlen in Hb. destruct (Ha Hb) as (cs & ? & ? & ? & ?). exists cs. cbn in *.
      unfold saturating_add in Hin. unfold wrapping_add. rewrite N.mod_small by lia. split_and!; [done|lia..].
  - destruct c; apply Hmove; unfold in_flight, stopped; cbn; lia.
  - unfold try_send. destruct (sh_closed s); [apply Hmove; unfold in_flight, stopped; cbn; lia|].
    destruct (Nat.ltb _ _); [|destruct (_ <=? _); apply Hmove; unfold in_flight, stopped; cbn; lia].
    intros Hb. destruct (sums_insert s i r (Reader (rd_kind r) Reading) Hi) as (Hlen & F & S). cbn in Hb.
    rewrite Hlen in Hb. destruct (Ha Hb) as (cs & Hcs & ? & ? & ?).
    assert (in_flight r = len data ∧ stopped r = 0) as [Fr Sr] by (unfold in_flight, stopped; by rewrite Er).
    exists (cs ++ [(rd_kind r, data)]). cbn in *. rewrite sum_of_app. cbn. unfold chunk_size at 2 4. cbn.
    split_and!; [|lia..]. rewrite filter_app, Hcs, fmap_app. f_equal. by destruct (rd_kind r).
  - intros Hb. by apply (Hmove Cancelling).
  - by apply Hmove.
  - rewrite list_insert_id by done. by destruct s.
Qed.

Lemma thread_step_accounted now cs mv :
  accounted max_bytes cs.2 → accounted max_bytes (thread_step capacity max_bytes now cs mv).2.
Proof.
  destruct cs as [c s]. intros Ha. destruct mv as [i input|i answer| | | | | | |]; cbn; try done.
  - destruct (sh_readers s !! i) as [r|] eqn:Hi; [|done].
    pose proof (reader_step_accounted now c input i r s Hi Ha) as Hr.
    by destruct (reader_step _ _ _ _ _ _ _) as [[? ?] ?].
  - by destruct (sh_writers s !! i).
  - by destruct (bridged s).
  - by destruct (bridged s).
  - by destruct (bridged s).
  - destruct (rl_bridge _) as [b|]; [|done]. pose proof (bridge_step_view now c b s) as Hv.
    destruct (bridge_step _ _ _ _) as [s' ?]. injection Hv as Hb _ Hs Hr _ _. unfold accounted in *. cbn in *.
    by rewrite Hb, Hs, Hr.
Qed.
End accounting.

Section limit.
Context `{AccountDb} (capacity : nat) (orc : nat → task_move).
Context (pre_faults : nat → pre_exec_call → option io_error) (kill_delay : option N).
Context (daemon : cred) (group_list : string → N → list N).
Context (canonicalize : string → result io_error string) (config : Config).

Abbreviation max_output := (bc_max_output_bytes (cf_build config)).
Abbreviation moves := (λ k, move_of capacity max_output (orc k)).

Definition keeps_account (m m' : Machine Shared) : Prop :=
  accounted max_output (m_shared m) → accounted max_output (m_shared m').

#[local] Instance keeps_account_preorder : PreOrder keeps_account.
Proof. split; [by intros m Ha|intros m1 m2 m3 H1 H2 Ha; auto]. Qed.

Lemma later_account m m' : later moves m m' → keeps_account m m'.
Proof.
  intros Hl Ha. apply (later_keeps capacity max_output orc (λ cs, accounted max_output cs.2) m m'); [|done..].
  intros k now cs mv _. apply thread_step_accounted.
Qed.

Lemma send_account event s : is_output event = false →
  accounted max_output s → accounted max_output (try_send capacity event s).1.
Proof.
  intros He Ha. unfold try_send. destruct (sh_closed s); [done|]. destruct (Nat.ltb _ _); [|done].
  intros Hb. destruct (Ha Hb) as (cs & Hcs & ?). exists cs. split; [|done]. cbn.
  rewrite filter_app, filter_cons_False by (by rewrite He). by rewrite Hcs, app_nil_r.
Qed.

Lemma reader_account kind s :
  accounted max_output s → accounted max_output (add_reader kind s).1.
Proof.
  intros Ha Hb. cbn in *. rewrite length_app in Hb. cbn in Hb.
  destruct Ha as (cs & ? & ? & ? & ?); [lia|]. exists cs. cbn. rewrite !sum_of_app. cbn.
  split_and!; [done|lia..].
Qed.

(** C29: However the threads of a build are interleaved, and however long threads
    it has left behind go on, the output it relays is cut from at most
    [build.max_output_bytes] bytes of the program's output, counted over both
    streams and both phases (as long as the limit is not within a few kilobytes of
    the counter's range). *)
Theorem output_within_limit files getuid validated id m m' r m'' :
  sh_sent (m_shared m) = [] → sh_readers (m_shared m) = [] → sh_bytes (m_shared m) = 0 →
  execute_build capacity orc pre_faults kill_delay daemon group_list canonicalize config files getuid
    validated id m = (m', r) →
  later moves m' m'' →
  max_output + 4096 * N.of_nat (length (sh_readers (m_shared m''))) ≤ u64_max →
  ∃ chunks,
    outputs (sh_sent (m_shared m'')) = (λ c, output_event c.1 c.2) <$> chunks ∧
    sum_of chunk_size chunks ≤ max_output.
Proof.
  intros Hs Hr Hb He Hl Hmax.
  assert (accounted max_output (m_shared m)) as Ha.
  { intros _. exists []. rewrite Hs, Hr, Hb. cbn. split_and!; [done|lia..]. }
  assert (keeps_account m m') as Hk.
  { pose proof (keeps_execute_build capacity orc pre_faults kill_delay daemon group_list canonicalize config
      keeps_account later_account) as Hk.
    specialize (Hk (λ kind m, reader_account kind (m_shared m))).
    specialize (Hk (λ input m Ha, Ha) (λ i m Ha, Ha)).
    specialize (Hk (λ event m Hev, send_account event (m_shared m) Hev) (λ i m Ha, Ha)).
    specialize (Hk files getuid validated id m). by rewrite He in Hk. }
  destruct (later_account _ _ Hl (Hk Ha) Hmax) as (cs & Hcs & Hle & _). exists cs. split; [done|lia].
Qed.
End limit.
