(* ===== verification/TaskPrograms.v ===== *)
(** Which programs a build starts, in what order, as whom, and with nothing left
    of the one before. *)
From Stdlib Require Import Ascii.
From stdpp Require Import base option strings numbers list gmap relations.
From S2P Require Import Prelude Effects RustStr Validation Protocol Accounts Archive Config RunAs Process ProcessFacts MachineRules Posix Artifacts Output Tasks TaskFacts TaskStream.

Local Open Scope N_scope.

Section programs.
Context `{AccountDb} (capacity : nat) (orc : nat → task_move).
Context (pre_faults : nat → pre_exec_call → option io_error) (kill_delay : option N).
Context (daemon : cred) (group_list : string → N → list N).
Context (canonicalize : string → result io_error string) (config : Config).

Abbreviation max_output := (bc_max_output_bytes (cf_build config)).
Abbreviation moves := (λ k, move_of capacity max_output (orc k)).
Abbreviation images m := (sh_images (m_shared m)).

(** The program of [execution], started in [cwd] with exactly [env], as the
    identity the [pre_exec] closure leaves, when no process of the previous
    program was left. *)
Definition started_as (execution : TaskExecution) (cwd : string) (env : list (string * string))
    (run_as : RunAs) (i : image) : Prop :=
  (im_program i, im_args i) = command_line execution ∧ im_cwd i = cwd ∧
  im_env i = list_to_map (rev env) ∧ gone (im_previous i) = true ∧
  ∃ faults, pre_exec faults group_list run_as daemon = (im_cred i, Ok tt).

(** * Parts of a phase that start nothing *)

Definition same_images (m m' : Machine Shared) : Prop :=
  images m' = images m ∧ (gone (m_group m) = true → gone (m_group m') = true).

#[export] Instance same_images_preorder : PreOrder same_images.
Proof.
  split; [done|]. intros m1 m2 m3 [E1 G1] [E2 G2]. split; [by rewrite E2|auto].
Qed.

Lemma thread_step_images now cs mv :
  sh_images (thread_step capacity max_output now cs mv).2 = sh_images cs.2.
Proof.
  destruct cs as [c s]. destruct mv as [i input|i answer| | | | | | |]; cbn; try done.
  - destruct (sh_readers s !! i) as [r|]; [|done].
    assert (sh_images (reader_step capacity max_output now c input r s).1.2 = sh_images s) as Hr.
    { unfold reader_step, try_send. destruct (rd_state r); try done.
      - destruct input; [|done]. destruct (is_empty _); [done|]. by destruct (_ <? _).
      - by destruct c.
      - destruct (sh_closed s); [done|]. destruct (Nat.ltb _ _); [done|]. by destruct (_ <=? _). }
    by destruct (reader_step _ _ _ _ _ _ _) as [[? ?] ?].
  - by destruct (sh_writers s !! i).
  - by destruct (bridged s).
  - by destruct (bridged s).
  - by destruct (bridged s).
  - destruct (rl_bridge _) as [b|]; [|done]. pose proof (bridge_step_view now c b s) as Hv.
    destruct (bridge_step _ _ _ _). by injection Hv.
Qed.

Lemma later_images m m' : later moves m m' → same_images m m'.
Proof.
  intros Hl. split; [|by apply (later_gone _ _ _ Hl)].
  apply (later_keeps capacity max_output orc (λ cs, sh_images cs.2 = images m) m m'); [|done..].
  intros k now cs mv _ Hc. by rewrite thread_step_images.
Qed.

Lemma send_images event s : sh_images (try_send capacity event s).1 = sh_images s.
Proof. unfold try_send. destruct (sh_closed s); [done|]. by destruct (Nat.ltb _ _). Qed.

Lemma supervise_images phase timeout_sec stdin :
  keeps same_images (supervise_phase capacity orc kill_delay config phase timeout_sec stdin).
Proof. apply keeps_supervise; [apply _|apply later_images|done..]. Qed.

Lemma send_or_images e event : is_output event = false →
  keeps same_images (send_or capacity orc kill_delay config e event).
Proof.
  intros He. apply keeps_send_or; [apply _|apply later_images| |done].
  intros ev m _. split; [apply send_images|done].
Qed.

Lemma report_images phase id outcome :
  keeps same_images (report_phase capacity orc kill_delay config phase id outcome).
Proof.
  apply keeps_report; [apply _|apply later_images|..]; try done.
  intros ev m _. split; [apply send_images|done].
Qed.

(** * A phase *)

(** The program is gone when the phase's supervision ends well. *)
Lemma supervise_gone phase timeout_sec stdin m :
  wp (supervise_phase capacity orc kill_delay config phase timeout_sec stdin) m
    (λ m' r, ∀ outcome, r = Ok outcome → gone (m_group m') = true).
Proof.
  unfold supervise_phase. apply wp_bind, wp_try. unfold wp at 1.
  destruct (io_setup _ _ _ _ _ _ _) as [m1 [writer|[err|]]]; cbn [fst snd]; [| |done].
  2: { apply wp_bind, wp_try. unfold wp. by destruct (terminate_process _ _ _ _) as [m2 [|[]]]. }
  apply wp_bind, wp_atomically. intros m2 _. apply wp_bind, wp_atomically. intros m3 _.
  apply wp_bind, wp_map_err. eapply wp_mono; [apply wait_with_timeout_spec|].
  intros m4 [outcome|e] [_ Ho]; cbn; [|done]. destruct Ho as [Hg _].
  apply wp_bind. unfold wp at 1. match goal with |- context [join_phase_threads _ _ _ _ ?p ?a ?b ?w _] =>
    assert (keeps same_images (join_phase_threads capacity orc kill_delay config p a b w)) as Hk end.
  { apply keeps_join; [apply _|apply later_images|done]. }
  specialize (Hk m4). destruct (join_phase_threads _ _ _ _ _ _ _ _ _) as [m5 []]; cbn in *; [|done].
  intros o _. by apply Hk.
Qed.

(** The programs of [exs] were started between [m] and [m'], in this order. *)
Definition started_all {B} (P : B → image → Prop) (exs : list B) (m m' : Machine Shared) : Prop :=
  ∃ ims, images m' = images m ++ ims ∧ Forall2 P exs ims.

(** Some first part of them was. *)
Definition started_some {B} (P : B → image → Prop) (exs : list B) (m m' : Machine Shared) : Prop :=
  ∃ pre, pre `prefix_of` exs ∧ started_all P pre m m'.

Lemma started_none {B} (P : B → image → Prop) exs m m' : images m' = images m → started_some P exs m m'.
Proof. intros E. exists []. split; [apply prefix_nil|]. exists []. by rewrite E, app_nil_r. Qed.

Lemma started_some_all {B} (P : B → image → Prop) exs m m' : started_all P exs m m' → started_some P exs m m'.
Proof. intros Ha. exists exs. by split. Qed.

Lemma started_app {B} (P : B → image → Prop) l1 l2 m1 m2 m3 :
  started_all P l1 m1 m2 → started_some P l2 m2 m3 → started_some P (l1 ++ l2) m1 m3.
Proof.
  intros (ims1 & E1 & F1) (pre & Hp & ims2 & E2 & F2). exists (l1 ++ pre). split; [by apply prefix_app|].
  exists (ims1 ++ ims2). split; [by rewrite E2, E1, (assoc (++))|by apply Forall2_app].
Qed.

Lemma started_same {B} (P : B → image → Prop) exs m1 m2 m3 :
  started_some P exs m1 m2 → images m3 = images m2 → started_some P exs m1 m3.
Proof. intros (pre & Hp & ims & E & F) E3. exists pre. split; [done|]. exists ims. by rewrite E3. Qed.

(** What a phase leaves: its program at most, and that program gone when the
    phase reports a result. *)
Definition runs_programs {B E A} (P : B → image → Prop) (exs : list B) (m m' : Machine Shared)
    (r : result E A) : Prop :=
  match r with
  | Ok _ => started_all P exs m m' ∧ gone (m_group m') = true
  | Err _ => started_some P exs m m'
  end.

Section phases.
Context (cwd : string) (env : list (string * string)) (run_as : RunAs).

Definition phase_program (execution : option TaskExecution) (i : image) : Prop :=
  ∃ ex, execution = Some ex ∧ started_as ex cwd env run_as i.

Lemma run_phase_programs execution timeout_sec phase id stdin m :
  gone (m_group m) = true →
  wp (run_phase capacity orc pre_faults kill_delay daemon group_list config execution timeout_sec phase
        run_as cwd id env stdin) m (runs_programs phase_program [execution] m).
Proof.
  intros Hg. unfold run_phase. destruct execution as [ex|]; [|by apply wp_fail, started_none].
  apply wp_bind, (wp_keeps same_images); [apply keeps_cancelled, later_images|].
  intros m1 [cancelled|] H1; [|apply started_none, H1]. apply wp_bind, wp_lift.
  destruct cancelled; cbn; [apply started_none, H1|].
  apply wp_bind, (wp_keeps same_images); [by apply send_or_images|].
  intros m2 r H2'. assert (same_images m m2) as H2 by (by trans m1).
  destruct r as [[]|]; [|apply started_none, H2].
  apply wp_bind, wp_lift. destruct (map_err _ _) as [[]|]; [|apply started_none, H2].
  destruct (command_line ex) as [program args] eqn:Hcmd.
  apply wp_bind, wp_map_err. unfold wp at 1, spawn_command.
  pose proof (later_images _ _ (advance_later moves kill_delay 0 m2)) as H3'.
  set (m3 := advance moves kill_delay 0 m2) in *. assert (same_images m m3) as [H3 G3] by (by trans m2).
  destruct (tm_fault _); [by apply started_none|].
  destruct (pre_exec _ _ _ _) as [child [[]|]] eqn:Hpre; [|by apply started_none]. cbn [fst snd map_err].
  set (i := Image _ _ _ _ _ _ _).
  assert (phase_program (Some ex) i) as Hi.
  { exists ex. split; [done|]. split_and!; [done..|by apply G3|]. by eexists. }
  assert (∀ m', images m' = images (spawned i m3) → started_all phase_program [Some ex] m m') as Hall.
  { intros m' Em. exists [i]. split; [rewrite Em; cbn; by rewrite H3|]. by constructor. }
  apply wp_bind.
  pose proof (supervise_images phase timeout_sec stdin (spawned i m3)) as [H4 _].
  pose proof (supervise_gone phase timeout_sec stdin (spawned i m3)) as Hgone.
  unfold wp in *. destruct (supervise_phase _ _ _ _ _ _ _ _) as [m4 [outcome|e]]; cbn [fst snd] in *.
  - specialize (Hgone _ eq_refl). pose proof (report_images phase id outcome m4) as [H5 G5].
    destruct (report_phase _ _ _ _ _ _ _ _) as [m5 []]; cbn [fst snd] in *; [split; [|auto]|];
      [|apply started_some_all]; apply Hall; congruence.
  - by apply started_some_all, Hall.
Qed.
End phases.

(** * A build *)

(** The programs of a task, in the order they run. *)
Definition task_programs (task : TaskConfig) : list (option TaskExecution) :=
  match tk_setup task with
  | Some setup => [TaskSetupConfig_execution setup; TaskConfig_execution task]
  | None => [TaskConfig_execution task]
  end.

(** A program of the task in its workspace. *)
Definition task_program (task : TaskConfig) (run_as : RunAs) (workspace : string)
    (execution : option TaskExecution) (i : image) : Prop :=
  ∃ cwd, resolve_cwd canonicalize workspace (Some (tk_cwd task)) = Ok cwd ∧
    phase_program cwd (build_env task (ra_user run_as)) run_as execution i.

Lemma runs_mono {B E A} (P P' : B → image → Prop) exs m m' (r : result E A) :
  (∀ b i, P b i → P' b i) → runs_programs P exs m m' r → runs_programs P' exs m m' r.
Proof.
  intros HP. destruct r; cbn.
  - intros [(ims & ? & ?) ?]. split; [|done]. exists ims. split; [done|]. by eapply Forall2_impl.
  - intros (pre & ? & ims & ? & ?). exists pre. split; [done|]. exists ims. split; [done|]. by eapply Forall2_impl.
Qed.

Lemma run_task_phases_programs task run_as workspace id m :
  gone (m_group m) = true →
  wp (run_task_phases capacity orc pre_faults kill_delay daemon group_list canonicalize config task
        run_as workspace id) m
    (λ m' _, started_some (task_program task run_as workspace) (task_programs task) m m').
Proof.
  intros Hg. unfold run_task_phases, task_programs, of_failure.
  destruct (resolve_cwd _ _ _) as [cwd|] eqn:Hcwd; [|by apply started_none].
  apply wp_bind, wp_lift. cbn [map_err].
  assert (∀ b i, phase_program cwd (build_env task (ra_user run_as)) run_as b i →
    task_program task run_as workspace b i) as HP by (intros b i ?; by exists cwd).
  assert (∀ (execution : option TaskExecution) timeout phase m, gone (m_group m) = true →
    wp (run_phase capacity orc pre_faults kill_delay daemon group_list config execution timeout phase
          run_as cwd id (build_env task (ra_user run_as)) None) m
      (runs_programs (task_program task run_as workspace) [execution] m)) as Hrun.
  { intros ex timeout phase m0 Hm0. eapply wp_mono; [by apply run_phase_programs|].
    intros m' r. by apply runs_mono. }
  destruct (tk_setup task) as [setup|].
  - apply wp_bind, wp_bind. eapply wp_mono; [by apply Hrun|].
    intros m1 [r|e] H1; cbn in H1.
    + destruct H1 as [H1 G1]. apply wp_ret. destruct (phase_failed r).
      * apply wp_ret. apply (started_app _ [_] [_] m m1); [done|by apply started_none].
      * apply wp_bind, wp_map_err. eapply wp_mono; [by apply Hrun|].
        intros m2 [r2|e] H2; cbn in H2; apply (started_app _ [_] [_] m m1 m2); try done.
        by apply started_some_all, H2.
    + destruct H1 as (pre & Hp & Hs). exists pre. split; [|done]. etrans; [exact Hp|by eexists].
  - apply wp_bind, wp_ret, wp_bind, wp_map_err. eapply wp_mono; [by apply Hrun|].
    intros m2 [r2|e] H2; cbn in H2; [|done]. by apply started_some_all, H2.
Qed.

(** The run program of a task that has a setup program is started only after a setup
    phase that reported success, and what is returned lists that phase. *)
Definition setup_passed (task : TaskConfig) (run_as : RunAs) (id : string) (m m' : Machine Shared)
    (r : result (halt TaskError) TaskPhasesOutcome) : Prop :=
  ∀ setup, tk_setup task = Some setup → (length (images m) + 2 ≤ length (images m'))%nat →
  ∃ cwd m1 m2 s,
    run_phase capacity orc pre_faults kill_delay daemon group_list config (TaskSetupConfig_execution setup)
      (su_timeout_sec setup) Setup run_as cwd id (build_env task (ra_user run_as)) None m1 = (m2, Ok s) ∧
    images m1 = images m ∧ phase_failed s = false ∧
    match r with
    | Ok o => ∃ run, tp_phases o = [s; run]
    | Err (Raised e) => er_phases e = [s]
    | Err Diverged => True
    end.

Lemma setup_passed_same task run_as id m0 m m1 m' r :
  images m = images m0 → images m' = images m1 →
  setup_passed task run_as id m m1 r → setup_passed task run_as id m0 m' r.
Proof. unfold setup_passed. by intros -> ->. Qed.

Lemma started_length {B} (P : B → image → Prop) exs m m' :
  started_some P exs m m' → (length (images m') ≤ length (images m) + length exs)%nat.
Proof.
  intros (pre & Hp & ims & -> & F). apply prefix_length in Hp. apply Forall2_length in F.
  rewrite length_app. lia.
Qed.

Lemma run_task_phases_setup task run_as workspace id m :
  gone (m_group m) = true →
  wp (run_task_phases capacity orc pre_faults kill_delay daemon group_list canonicalize config task
        run_as workspace id) m (setup_passed task run_as id m).
Proof.
  intros Hg. destruct (tk_setup task) as [setup|] eqn:Es; [|unfold wp, setup_passed; by rewrite Es].
  assert (∀ m' r, (length (images m') ≤ length (images m) + 1)%nat → setup_passed task run_as id m m' r) as Hno.
  { intros m' r Hle setup' _ Hl. lia. }
  unfold run_task_phases, of_failure. rewrite Es.
  destruct (resolve_cwd _ _ _) as [cwd|]; [|apply wp_bind, wp_lift, Hno; lia].
  apply wp_bind, wp_lift. cbn [map_err]. apply wp_bind, wp_bind.
  pose proof (run_phase_programs cwd (build_env task (ra_user run_as)) run_as (TaskSetupConfig_execution setup)
    (su_timeout_sec setup) Setup id None m Hg) as Hp. unfold wp at 1. unfold wp in Hp.
  destruct (run_phase _ _ _ _ _ _ _ _ _ _ _ _ _ _ _ m) as [m1 [s|e]] eqn:E; cbn [fst snd] in *.
  2: { by apply Hno, (started_length _ [_] _ _ Hp). }
  apply wp_ret. destruct Hp as [Hp%started_some_all%(started_length _ [_]) _].
  destruct (phase_failed s) eqn:Hf; [by apply wp_ret, Hno|].
  apply wp_bind, wp_map_err. unfold wp at 1.
  destruct (run_phase _ _ _ _ _ _ _ _ _ _ _ _ _ _ _ m1) as [m2 [run|[e|]]]; cbn [fst snd map_err].
  all: intros setup' Es' _; rewrite Es in Es'; injection Es' as <-; exists cwd, m, m1, s;
    split_and!; try done. by exists run.
Qed.

(** The programs a build has started. *)
Definition build_programs (files : build_files) (getuid : N) (task : TaskConfig) (m' : Machine Shared) : Prop :=
  images m' = [] ∨
  ∃ run_as workspace programs,
    resolve_run_as getuid config = Ok run_as ∧ bf_tempdir files = Ok workspace ∧
    programs `prefix_of` task_programs task ∧
    Forall2 (task_program task run_as workspace) programs (images m').

Lemma build_programs_same files getuid task m m' :
  build_programs files getuid task m → images m' = images m → build_programs files getuid task m'.
Proof. unfold build_programs. by intros ? ->. Qed.

Lemma finish_build_images files task root id outcome :
  keeps same_images (finish_build capacity orc kill_delay config files task root id outcome).
Proof.
  unfold finish_build.
  destruct (bf_collect files _ _ _) as [|[]]; [by apply send_or_images| |by apply (keeps_lift _ (Err _))].
  apply keeps_bind; [apply _|by apply send_or_images|]. intros. by apply send_or_images.
Qed.

Lemma run_build_programs files getuid validated id m :
  gone (m_group m) = true → images m = [] →
  wp (run_build capacity orc pre_faults kill_delay daemon group_list canonicalize config files getuid
        validated id) m (λ m' _, build_programs files getuid (vr_task validated) m').
Proof.
  intros Hg Hm. unfold run_build, run_build_in_workspace, of_failure.
  apply wp_bind, (wp_keeps same_images); [by apply send_or_images|].
  intros m1 r [E1 G1]. rewrite Hm in E1. specialize (G1 Hg). destruct r as [[]|]; [|by left].
  destruct (resolve_run_as getuid config) as [run_as|] eqn:Hra; [|by left]. apply wp_bind, wp_lift. cbn [map_err].
  apply wp_bind, wp_lift. destruct (map_err _ _); [|by left].
  apply wp_bind, wp_lift. destruct (map_err _ _); [|by left].
  destruct (bf_tempdir files) as [workspace|] eqn:Hw; [|by left]. apply wp_bind, wp_lift. cbn [map_err].
  apply wp_bind, wp_lift. destruct (map_err _ _); [|by left].
  apply wp_bind, wp_lift. destruct (map_err _ _); [|by left].
  apply wp_bind. eapply wp_mono; [by apply run_task_phases_programs|].
  intros m2 r (pre & Hp & ims & E2 & F2). rewrite E1 in E2. cbn in E2.
  assert (build_programs files getuid (vr_task validated) m2) as Hb.
  { right. exists run_as, workspace, pre. rewrite E2. done. }
  destruct r as [o|]; [|done]. apply (wp_keeps same_images); [apply finish_build_images|].
  intros m3 r [E3 _]. by eapply build_programs_same.
Qed.

(** C28: A build starts no program but those its task configures: the setup program
    first if the task has one, then the run program, each at most once, with the
    configured arguments, in the task's working directory below the fresh
    workspace, in exactly the task's environment, and as the identity
    [resolve_run_as] names; and whenever a program is started, no process is left
    in the group of the one before it. *)
Theorem only_task_programs_run files getuid validated id m m' r :
  gone (m_group m) = true → images m = [] →
  execute_build capacity orc pre_faults kill_delay daemon group_list canonicalize config files getuid
    validated id m = (m', r) →
  build_programs files getuid (vr_task validated) m'.
Proof.
  intros Hg Hm He.
  cut (wp (execute_build capacity orc pre_faults kill_delay daemon group_list canonicalize config files
    getuid validated id) m (λ m' _, build_programs files getuid (vr_task validated) m')).
  { unfold wp. by rewrite He. }
  unfold execute_build. apply wp_bind, wp_try. eapply wp_mono; [by apply run_build_programs|].
  intros m1 [[]|[e|]] H1; [done| |done].
  assert (∀ event, is_output event = false →
    keeps same_images (send_response capacity orc kill_delay config event)) as Hsend.
  { intros ev Hev. apply keeps_send; [apply _|apply later_images|intros ? ? _; split; [apply send_images|done]|done]. }
  apply wp_bind, (wp_keeps same_images); [by apply Hsend|].
  intros m2 r2 [E2 _]. apply (build_programs_same _ _ _ _ _ H1) in E2. destruct r2; [|done].
  apply wp_bind, (wp_keeps same_images); [by apply Hsend|].
  intros m3 r3 [E3 _]. apply (build_programs_same _ _ _ _ _ E2) in E3. by destruct r3.
Qed.
End programs.
