(* ===== verification/TaskTheorems.v ===== *)
(** What a build guarantees: it returns, its event stream follows the protocol and
    reports success only for phases that succeeded, and the programs it waits for
    are stopped in time; with a build on a concrete machine. *)
From Stdlib Require Import Ascii.
From stdpp Require Import base option strings numbers list gmap relations.
From S2P Require Import Prelude Effects RustStr Validation Protocol Accounts Archive Config RunAs Process ProcessFacts MachineRules ProcessLive Fs Posix Artifacts Output Tasks TaskFacts TaskStream TaskOutput TaskPrograms.

Local Open Scope N_scope.

(** * Waiting for a program *)

(** C39: Whatever a program and its descendants do, waiting for it ends.  When the
    wait reports an outcome no process of the program's group is left; an exit code
    is the one the program's own process was reaped with; a timeout is reported only
    after the configured time; and a cancellation only when the flag was set. *)
Theorem wait_reports_truth {X} (orc : nat → move X) kill_delay timeout_sec m :
  let '(m', r) := wait_with_timeout orc kill_delay timeout_sec m in
  r ≠ Err Diverged ∧
  ∀ outcome, r = Ok outcome →
    gone (m_group m') = true ∧
    match outcome with
    | Exited code timed_out duration =>
        reaped_with m' code ∧ m_now m + duration ≤ m_now m' ∧
        (timed_out = true → secs timeout_sec ≤ duration)
    | Cancelled => m_cancelled m' = true
    end.
Proof.
  pose proof (wait_with_timeout_spec orc kill_delay timeout_sec m) as Hw. unfold wp in Hw.
  destruct (wait_with_timeout _ _ _ _) as [m' r]. destruct Hw as [_ Hr]. split; [by intros ->|].
  by intros o ->.
Qed.

(** C30: On a machine whose calls answer promptly and where a killed group dies
    within four seconds, the wait reports an outcome, at most 10.2 seconds after the
    timeout: the program cannot hold the daemon by ignoring the timeout, by ignoring
    [SIGTERM] or by leaving descendants behind. *)
Theorem program_stopped_in_time {X} (orc : nat → move X) d timeout_sec m :
  prompt orc d → fit m →
  ∃ m' outcome, wait_with_timeout orc (Some d) timeout_sec m = (m', Ok outcome) ∧
    m_now m' ≤ m_now m + wait_bound timeout_sec.
Proof.
  intros Hp Hf. pose proof (wait_with_timeout_live orc d Hp timeout_sec m Hf) as Hw. unfold wp in Hw.
  destruct (wait_with_timeout _ _ _ _) as [m' r] eqn:E. cbn in Hw. destruct Hw as (Hw & o & -> & _).
  exists m', o. split; [done|]. exact (within_time _ _ _ _ Hw).
Qed.

(** A program that spawns a child every millisecond, never exits and ignores
    [SIGTERM]. *)
Definition stubborn (k : nat) : move unit := mkMove (ms 1) [MemberForks] (λ _ _ _, (tt, false)) None.

Definition stubborn_machine : Machine unit := mkMachine 0 0 (Group Running 0 0) None [] false tt.

Lemma program_stopped_in_time_witness :
  ∃ m' outcome, wait_with_timeout stubborn (Some (secs 4)) 30 stubborn_machine = (m', Ok outcome) ∧
    m_now m' ≤ ms 40200.
Proof.
  apply (program_stopped_in_time stubborn (secs 4) 30 stubborn_machine).
  - split; intros; by vm_compute.
  - split; [done|]. intros t Ht. discriminate Ht.
Defined.

(** * What the protocol says about success *)

(** The results reported before a stream ended: nothing, a setup phase, or a run
    phase with the successful setup phase before it. *)
Definition in_order (ps : list PhaseResult) : Prop :=
  match ps with
  | [] => True
  | [_] => True
  | [s; r] => ph_phase s = Setup ∧ phase_failed s = false ∧ ph_phase r = Run
  | _ => False
  end.

Definition orderly (st : stream_state) : Prop :=
  in_order (reported st) ∧ match st with Inside ps phase => may_start ps phase = true | _ => True end.

Lemma orderly_step id st e st' : orderly st → stream_step id st e = Some st' → orderly st'.
Proof.
  intros [Ho Hi] Hs. unfold stream_step in Hs.
  destruct st as [|ps|ps phase|ps|], e; try done; repeat (case_match; try done); simplify_eq/=; split; try done.
  - by apply andb_true_iff in H3 as [_ ?].
  - destruct ps as [|s [|]]; [done| |destruct phase; cbn in Hi; try done; by destruct l].
    destruct phase; [done|]. cbn in Hi. apply andb_true_iff in Hi as [Hs Hf].
    apply bool_decide_eq_true in Hs. by apply negb_true_iff in Hf.
Qed.

Lemma stream_run_orderly id l st : stream_run id l = Some st → orderly st.
Proof.
  revert st. induction l as [|e l IH] using rev_ind; intros st Hr.
  - by injection Hr as <-.
  - rewrite stream_run_app in Hr. apply bind_Some in Hr as (st0 & H0 & Hs). by eapply orderly_step; eauto.
Qed.

Lemma stream_run_prefix id l l' st :
  stream_run id l' = Some st → l `prefix_of` l' → is_Some (stream_run id l).
Proof.
  intros Hr [k ->]. revert st Hr. induction k as [|e k IH] using rev_ind; intros st Hr.
  - rewrite app_nil_r in Hr. by eexists.
  - rewrite (assoc (++)), stream_run_app in Hr. apply bind_Some in Hr as (? & ? & _). by eapply IH.
Qed.

(** An accepted exit event that reports success ends a stream whose every phase,
    the run phase included, succeeded. *)
Lemma accepted_success id l artifacts restrictions failed_phase phases st :
  stream_run id (l ++ [RExit 0 false artifacts restrictions failed_phase phases]) = Some st →
  failed_phase = None ∧ Forall (λ r, phase_failed r = false) phases ∧
  ph_phase <$> last phases = Some Run.
Proof.
  rewrite stream_run_app. intros (st0 & H0 & Hs)%bind_Some.
  pose proof (stream_run_orderly _ _ _ H0) as [Ho _].
  destruct st0 as [|ps|ps phase|ps|]; cbn in Hs; try done; try (destruct artifacts; cbn in Hs; done).
  destruct (last ps) as [r|] eqn:Hl; [|done]. destruct (exit_reports _ _ _ _ _ _) eqn:He; [|done].
  apply andb_true_iff in He as [(Hc & Ht & -> & ->)%bool_decide_eq_true Hr].
  assert (phase_failed r = false) as Hf by (unfold phase_failed; by rewrite <-Hc, <-Ht).
  rewrite Hf in *. rewrite orb_false_r in Hr. apply bool_decide_eq_true in Hr.
  split; [done|]. rewrite Hl. cbn. rewrite Hr. split; [|done].
  destruct ps as [|s [|s' []]]; try done; cbn in Hl; simplify_eq; [by repeat constructor|].
  destruct Ho as (_ & ? & _). by repeat constructor.
Qed.

(** * A build *)

Section builds.
Context `{Glob, AccountDb} (capacity : nat) (orc : nat → task_move).
Context (pre_faults : nat → pre_exec_call → option io_error) (kill_delay : option N).
Context (daemon : cred) (group_list : string → N → list N).
Context (canonicalize : string → result io_error string).
Context (metadata : string → result io_error file_meta) (config : Config).
Context (files : build_files) (getuid : N) (request : Request) (validated : ValidatedRequest).

Abbreviation execute_build :=
  (execute_build capacity orc pre_faults kill_delay daemon group_list canonicalize config files getuid
     validated).

Lemma validated_request_task :
  Config_validate metadata config = Ok tt → validate_request request config = Ok validated →
  executable_task (vr_task validated).
Proof.
  intros Hc Hv. unfold validate_request in Hv. destruct (negb _); [done|].
  destruct (cf_tasks config !! rq_task request) as [task|] eqn:Et; [|done]. injection Hv as <-.
  by eapply validated_executable.
Qed.

(** Nothing is raised past [execute_build]. *)
Lemma execute_build_catches id : throws (λ _, False) (execute_build id).
Proof.
  unfold Tasks.execute_build. apply throws_bind; [apply throws_try|].
  intros [|[err|]]; [done| |done].
  apply throws_bind; [apply throws_poll_shared|intros _].
  apply throws_bind; [apply throws_poll_shared|done].
Qed.

(** C26: A build accepted under a validated configuration returns, whatever the
    programs, the client and the account database do, whatever errors the file
    system gives and however the threads are interleaved (provided the C library
    suggests some buffer size for account lookups): no loop of it runs forever and
    no [unwrap] of it panics.  The one exception is spelled out: a build that does
    not return is one whose artifact collection blocked in its own workspace. *)
Theorem build_returns id m :
  Config_validate metadata config = Ok tt → validate_request request config = Ok validated →
  sysconf_getpw_size ≠ 0%Z → sysconf_getgr_size ≠ 0%Z →
  ∃ m' r, execute_build id m = (m', r) ∧
    (r = Ok tt ∨ r = Err Diverged ∧ collection_blocks files (vr_task validated) id).
Proof.
  intros Hc Hv Hp Hg. pose proof (validated_request_task Hc Hv) as Ht.
  pose proof (execute_build_catches id m) as Hd.
  destruct (execute_build id m) as [m' r] eqn:E. exists m', r. split; [done|].
  destruct (decide (collection_blocks files (vr_task validated) id)) as [|Hb].
  { destruct r as [[]|[e|]]; [by left|by destruct (Hd e)|by right]. }
  pose proof (returns_execute_build capacity orc pre_faults kill_delay daemon group_list canonicalize config
    files getuid validated id Ht Hb Hp Hg m) as Hr. rewrite E in Hr.
  destruct r as [[]|[e|]]; [by left|by destruct (Hd e)|done].
Qed.

(** C27: Everything a build's client is sent, output included, however the threads
    are interleaved and up to any moment after the build returned, is a word of the
    stream protocol ([started] first, each phase opened and closed in order, setup
    before run, an exit event last); after an exit event only output can follow, of
    a program whose relaying thread the daemon gave up waiting for.  And a client
    that keeps reading gets a whole word, exit event included, whatever went
    wrong. *)
Theorem build_stream_follows_protocol id m m' m'' :
  sh_sent (m_shared m) = [] → sh_readers (m_shared m) = [] →
  execute_build id m = (m', Ok tt) →
  later (λ k, move_of capacity (bc_max_output_bytes (cf_build config)) (orc k)) m' m'' →
  ∃ word late st,
    sh_sent (m_shared m'') = word ++ late ∧ stream_run id word = Some st ∧
    Forall (λ e, is_output e = true) late ∧ (late ≠ [] → st = Ended) ∧
    (listening capacity orc m → st = Ended).
Proof.
  intros Hs Hr He Hl. assert (control m = []) as Hm by (unfold control; by rewrite Hs).
  pose proof (execute_build_reaches capacity orc pre_faults kill_delay daemon group_list
    canonicalize config id files getuid validated m Hm) as Hw.
  pose proof (execute_build_opens capacity orc pre_faults kill_delay daemon group_list
    canonicalize config id files getuid validated m (or_introl (conj Hs Hr)) Hm) as Ho.
  unfold wp in Hw, Ho. rewrite He in Hw, Ho. destruct (Hw ltac:(done)) as (st & Hst & Hend).
  unfold reach in Hst. cbn [fst] in Hst, Ho. rewrite <-(later_control _ _ _ _ _ Hl) in Hst.
  destruct (stream_split id (sh_sent (m_shared m'')) st) as (word & late & ? & ? & ? & ?); [|done|].
  - pose proof (later_opens _ _ _ _ _ Hl Ho) as [[E _]|(e & l & E & ?)]; rewrite E; [done|]. by intros ? [= <-].
  - by exists word, late, st.
Qed.

(** A build tells its client that it succeeded (exit code 0, no timeout) only
    if every phase it reports succeeded and the last of them is the run phase; no
    failed phase is named. *)
Theorem reported_success_is_real id m m' r artifacts restrictions failed_phase phases :
  control m = [] → execute_build id m = (m', r) → r ≠ Err Diverged →
  RExit 0 false artifacts restrictions failed_phase phases ∈ control m' →
  failed_phase = None ∧ Forall (λ p, phase_failed p = false) phases ∧
  ph_phase <$> last phases = Some Run.
Proof.
  intros Hm He Hr Hin. pose proof (execute_build_reaches capacity orc pre_faults kill_delay daemon group_list
    canonicalize config id files getuid validated m Hm) as Hw. unfold wp in Hw.
  rewrite He in Hw. destruct (Hw Hr) as (st & Hst & _). unfold reach in Hst. cbn [fst] in Hst.
  apply list_elem_of_split in Hin as (l1 & l2 & E). rewrite E in Hst.
  rewrite cons_middle, (assoc (++)) in Hst.
  eapply stream_run_prefix in Hst as [st1 H1]; [by eapply accepted_success|by eexists].
Qed.
End builds.

(** * A build on a concrete machine *)

(** Programs exit at once with code 0 after writing two bytes, calls take a
    millisecond, and the client reads everything. *)
Definition demo_moves (k : nat) : task_move :=
  TaskMove (ms 1) [LeaderExits (ExitCode 0)]
    [ReaderMoves 0 (ReadBytes "ok"); ReaderMoves 0 (ReadBytes ""); ReaderMoves 0 (ReadBytes "");
     ReaderMoves 0 (ReadBytes ""); ReaderMoves 1 ReadError; ReaderMoves 2 ReadError;
     ReaderMoves 3 ReadError; ClientDrains] None.

Definition demo_idle : Machine Shared :=
  mkMachine 0 0 (Group (Reaped NoStatus) 0 0) None [] false (mkShared 0 false [] 0 false [] [] [] no_relay).

Definition demo_files : build_files := {|
  bf_create_root := Ok tt; bf_tempdir := Ok "/var/lib/indentured-server/workspaces/build-1";
  bf_extract _ := Ok tt; bf_ownership _ _ := Ok tt;
  bf_collect _ _ _ := Ok {| ac_archive := None; ac_restrictions := None |};
|}.

Definition demo_request : Request :=
  {| rq_schema_version := REQUEST_SCHEMA_VERSION; rq_request_id := None; rq_task := "build";
     rq_source := {| format := Zip |} |}.

Definition demo_validated : ValidatedRequest :=
  {| vr_request_id := None; vr_task_id := "build"; vr_task := demo_task |}.

Abbreviation demo_build :=
  (execute_build 128 demo_moves (λ _ _, None) (Some (ms 1)) demo_daemon (λ _ gid, [gid]) Ok demo_config
     demo_files 0 demo_validated "b1" demo_idle).

Definition demo_ended : Machine Shared := Eval vm_compute in demo_build.1.

Lemma demo_build_ended : demo_build = (demo_ended, Ok tt).
Proof. by vm_compute. Qed.

Lemma demo_listening : listening 128 demo_moves demo_idle.
Proof.
  split_and!; [lia| |done..]. intros k. cbn. split; [|set_solver].
  by exists [ReaderMoves 0 (ReadBytes "ok"); ReaderMoves 0 (ReadBytes ""); ReaderMoves 0 (ReadBytes "");
    ReaderMoves 0 (ReadBytes ""); ReaderMoves 1 ReadError; ReaderMoves 2 ReadError; ReaderMoves 3 ReadError].
Qed.

Lemma build_returns_witness :
  demo_build.2 = Ok tt ∧
  ∃ m' r, demo_build = (m', r) ∧
    (r = Ok tt ∨ r = Err Diverged ∧ collection_blocks demo_files demo_task "b1").
Proof.
  split; [by vm_compute|].
  apply (build_returns (H := demo_glob) 128 demo_moves (λ _ _, None) (Some (ms 1)) demo_daemon
    (λ _ gid, [gid]) Ok demo_metadata demo_config demo_files 0 demo_request demo_validated);
    by vm_compute.
Defined.

Lemma build_stream_follows_protocol_witness :
  ∃ word late st,
    sh_sent (m_shared demo_ended) = word ++ late ∧ stream_run "b1" word = Some st ∧
    Forall (λ e, is_output e = true) late ∧ (late ≠ [] → st = Ended) ∧
    (listening 128 demo_moves demo_idle → st = Ended).
Proof.
  apply (build_stream_follows_protocol 128 demo_moves (λ _ _, None) (Some (ms 1)) demo_daemon
    (λ _ gid, [gid]) Ok demo_config demo_files 0 demo_validated "b1" demo_idle demo_ended); [done|done| |done].
  exact demo_build_ended.
Defined.

(** The demonstration's stream has output in it, and nothing comes after its end. *)
Example demo_stream :
  stream_run "b1" (sh_sent (m_shared demo_ended)) = Some Ended ∧
  RStdout "ok" ∈ sh_sent (m_shared demo_ended).
Proof. split; [by vm_compute|]. apply list_elem_of_In. vm_compute. tauto. Qed.

Definition demo_exit : ResponseEvent := Eval vm_compute in default (RStdout "") (last (control demo_ended)).

Lemma demo_exit_sent : demo_exit ∈ control demo_ended.
Proof. apply last_Some_elem_of. by vm_compute. Qed.

Lemma reported_success_is_real_witness :
  match demo_exit with
  | RExit 0 false _ _ _ phases => length phases = 2%nat ∧ Forall (λ p, phase_failed p = false) phases
  | _ => False
  end.
Proof.
  split; [done|].
  eapply (reported_success_is_real 128 demo_moves (λ _ _, None) (Some (ms 1)) demo_daemon
    (λ _ gid, [gid]) Ok demo_config demo_files 0 demo_validated "b1" demo_idle demo_ended (Ok tt));
    [done|exact demo_build_ended|done|exact demo_exit_sent].
Defined.

Lemma output_within_limit_witness :
  ∃ chunks, outputs (sh_sent (m_shared demo_ended)) = (λ c, output_event c.1 c.2) <$> chunks ∧
    sum_of chunk_size chunks ≤ DEFAULT_OUTPUT_BYTES.
Proof.
  apply (output_within_limit 128 demo_moves (λ _ _, None) (Some (ms 1)) demo_daemon
    (λ _ gid, [gid]) Ok demo_config demo_files 0 demo_validated "b1" demo_idle demo_ended (Ok tt)); try done.
Defined.

Lemma only_task_programs_run_witness :
  build_programs demo_daemon (λ _ gid, [gid]) Ok demo_config demo_files 0 demo_task demo_ended ∧
  length (sh_images (m_shared demo_ended)) = 2%nat.
Proof.
  split; [|done].
  apply (only_task_programs_run 128 demo_moves (λ _ _, None) (Some (ms 1)) demo_daemon
    (λ _ gid, [gid]) Ok demo_config demo_files 0 demo_validated "b1" demo_idle demo_ended (Ok tt)); try done.
Defined.
