(* ===== verification/TaskSessions.v ===== *)
(** The programs of a session ([src/src/build.rs]): its start, its actions and its
    teardown return, start no program but their own, and pass the program's events
    on in order. *)
From Stdlib Require Import Ascii.
From stdpp Require Import base option strings numbers list gmap relations.
From S2P Require Import Prelude Effects RustStr Validation Protocol Accounts Archive Config RunAs Process ProcessFacts MachineRules Posix Artifacts Output Tasks TaskFacts TaskStream TaskOutput TaskPrograms TaskTheorems.

Local Open Scope N_scope.

(** * Handing the workspace over *)

(** The paths of [done], and no others, have changed hands. *)
Definition handed_over (run_as : RunAs) (done : list string) (w w' : owners) : Prop :=
  ∀ p, ow_owners w' !! p =
    if bool_decide (p ∈ done) then Some (ui_uid (ra_user run_as), ra_gid run_as) else ow_owners w !! p.

Lemma own_entry_spec g faults run_as entry w :
  wp (own_entry g faults run_as entry) w (λ w' r,
    match r with
    | Ok _ => ∃ path, entry = Ok path ∧ handed_over run_as [path] w w'
    | Err _ => handed_over run_as [] w w'
    end).
Proof.
  unfold own_entry. apply wp_bind. unfold wp at 1, check_owning. cbn [fst snd].
  destruct (check_guard _ _); [|by intros p]. apply wp_bind, wp_lift.
  destruct entry as [path|]; cbn [map_err]; [|by intros p]. apply wp_bind, wp_lift.
  destruct (contains_byte _ _); [by intros p|]. unfold wp, lchown. destruct (faults _); [by intros p|].
  cbn. exists path. split; [done|]. intros p. cbn. case_bool_decide as Hp.
  - apply list_elem_of_singleton in Hp as ->. by rewrite lookup_insert_eq.
  - rewrite lookup_insert_ne; [done|]. intros ->. by apply Hp, list_elem_of_singleton.
Qed.

Lemma own_all_spec g faults run_as walk w :
  wp (io_each (own_entry g faults run_as) walk) w (λ w' r,
    ∃ done, (Ok <$> done) `prefix_of` walk ∧ handed_over run_as done w w' ∧ (r = Ok tt → Ok <$> done = walk)).
Proof.
  revert w. induction walk as [|entry walk IH]; intros w.
  { exists []. split; [done|]. split; [by intros p|done]. }
  cbn [io_each]. apply wp_bind. eapply wp_mono; [apply own_entry_spec|].
  intros w1 [[]|e] H1.
  - destruct H1 as (path & -> & H1). eapply wp_mono; [apply IH|].
    intros w2 r (done & Hp & H2 & Hr). exists (path :: done). split; [by apply prefix_cons|]. split.
    + intros p. rewrite H2, H1. repeat case_bool_decide; set_solver.
    + intros ->. cbn. by rewrite Hr.
  - exists []. split; [apply prefix_nil|]. by split.
Qed.

(** Handing a workspace over gives the task's user every path the walk yields and
    changes the owner of nothing else, or stops at the first path it cannot look at
    or change, or at the first check that finds the session cancelled; without a
    change of identity it changes nothing. *)
Theorem ownership_handed_over g faults walk run_as w w' r :
  prepare_workspace_ownership_inner g faults walk run_as w = (w', r) →
  ∃ done, (Ok <$> done) `prefix_of` walk ∧ handed_over run_as done w w' ∧
    (ra_set_ids run_as = false → done = []) ∧
    (r = Ok tt → ra_set_ids run_as = true → Ok <$> done = walk).
Proof.
  intros Hr.
  cut (wp (prepare_workspace_ownership_inner g faults walk run_as) w (λ w' r,
    ∃ done, (Ok <$> done) `prefix_of` walk ∧ handed_over run_as done w w' ∧
      (ra_set_ids run_as = false → done = []) ∧
      (r = Ok tt → ra_set_ids run_as = true → Ok <$> done = walk))).
  { unfold wp. by rewrite Hr. }
  unfold prepare_workspace_ownership_inner. apply wp_bind. unfold wp at 1, check_owning. cbn [fst snd].
  destruct (check_guard _ _).
  - destruct (ra_set_ids run_as); cbn [negb].
    + eapply wp_mono; [apply own_all_spec|]. intros w2 r2 (done & Hp & Ho & Hd). exists done. split_and!; naive_solver.
    + apply wp_ret. exists []. split; [apply prefix_nil|]. by split_and!.
  - exists []. split; [apply prefix_nil|]. by split_and!.
Qed.

Lemma ownership_handed_over_witness :
  ∃ done, (Ok <$> done) `prefix_of` [Ok "/w"; Ok "/w/a"; Err "gone"] ∧
    handed_over {| ra_user := {| ui_username := "task"; ui_uid := 7; ui_gid := 7; ui_home_dir := "/" |};
                   ra_gid := 8; ra_set_ids := true |} done (Owners ∅ 0 0)
      (Owners {[ "/w" := (7, 8); "/w/a" := (7, 8) ]} 4 2).
Proof.
  destruct (ownership_handed_over None (λ _, None) [Ok "/w"; Ok "/w/a"; Err "gone"]
    {| ra_user := {| ui_username := "task"; ui_uid := 7; ui_gid := 7; ui_home_dir := "/" |};
       ra_gid := 8; ra_set_ids := true |} (Owners ∅ 0 0)
    (Owners {[ "/w" := (7, 8); "/w/a" := (7, 8) ]} 4 2)
    (Err (ownership_error "failed to inspect fresh workspace: gone"))) as (done & H1 & H2 & _);
    [by vm_compute|]. by exists done.
Defined.

Section sessions.
Context `{AccountDb} (capacity : nat) (orc : nat → task_move).
Context (pre_faults : nat → pre_exec_call → option io_error) (kill_delay : option N).
Context (daemon : cred) (group_list : string → N → list N).
Context (canonicalize : string → result io_error string) (config : Config).

Abbreviation max_output := (bc_max_output_bytes (cf_build config)).
Abbreviation moves := (λ k, move_of capacity max_output (orc k)).
Abbreviation send_item := (send_item capacity orc kill_delay config).
Abbreviation session_phase :=
  (session_phase capacity orc pre_faults kill_delay daemon group_list canonicalize config).
Abbreviation run_session_action :=
  (run_session_action capacity orc pre_faults kill_delay daemon group_list canonicalize config).
Abbreviation run_session_teardown :=
  (run_session_teardown capacity orc pre_faults kill_delay daemon group_list canonicalize config).
Abbreviation initialize_session :=
  (initialize_session capacity orc pre_faults kill_delay daemon group_list canonicalize config).

(** * Sending to the session's client *)

Lemma set_shared_id (m : Machine Shared) : set_shared (m_shared m) m = m.
Proof. by destruct m. Qed.

(** An event is accepted once, or the send fails with nothing accepted and the
    flag set. *)
Lemma send_item_spec (I J : Machine Shared → Prop) message item m :
  I m → (∀ m m', I m → later moves m m' → I m') → (∀ m, I m → I (set_cancelled m)) →
  (∀ m, I m → (try_offer item (m_shared m)).2 = SendOk →
     J (set_shared (try_offer item (m_shared m)).1 m)) →
  wp (send_item message item) m (λ m' r,
    match r with
    | Ok _ => J m'
    | Err (Raised e) => I m' ∧ m_cancelled m' = true ∧ be_code (er_error e) = "stream_closed"
    | Err Diverged => False
    end).
Proof.
  intros HI Hl Hc Hok. unfold Tasks.send_item. apply wp_bind, wp_now. intros m0 Hm0.
  apply (wp_poll_timeout _ _ (m_now m0) (λ m1 _, I m1 ∧ m_now m0 ≤ m_now m1)); [done..|by eauto|].
  intros [] m1 [HI1 Ht1]. apply wp_bind, wp_is_cancelled. intros m2 Hm2. apply wp_bind, wp_lift.
  specialize (Hl m1 m2 HI1 Hm2) as HI2. destruct (m_cancelled m2) eqn:Ec; cbn; [done|].
  apply wp_bind, wp_atomically. intros m3 Hm3. specialize (Hl m2 m3 HI2 Hm3) as HI3.
  pose proof (later_time _ _ _ Hm2). pose proof (later_time _ _ _ Hm3).
  specialize (Hok m3 HI3). unfold try_offer in *.
  destruct (ob_closed _); cbn [fst snd] in *; rewrite ?set_shared_id.
  { apply wp_bind. split; [|done]. apply Hc. eapply Hl; [exact HI3|apply advance_later]. }
  destruct (Nat.ltb _ _); cbn [fst snd] in *; rewrite ?set_shared_id; [by apply wp_ret, Hok|].
  apply wp_bind, wp_now. intros m4 Hm4. specialize (Hl m3 m4 HI3 Hm4) as HI4. pose proof (later_time _ _ _ Hm4).
  destruct (N.leb_spec (m_now m0 + OUTPUT_FORWARD_GRACE) (m_now m4)).
  - apply wp_bind. split; [|done]. apply Hc. eapply Hl; [exact HI4|apply advance_later].
  - apply wp_bind, wp_sleep. intros m5 Hm5 Ht5. apply wp_ret. split_and!; [by eapply Hl|lia..].
Qed.

(** * Everything returns *)

Lemma returns_send_item message item : returns (send_item message item).
Proof.
  apply returns_wp. intros m.
  eapply wp_mono; [by apply (send_item_spec (λ _, True) (λ _, True))|].
  by intros m' [|[]].
Qed.

Lemma returns_with_bridge {A} kind (work : eff (Machine Shared) (halt TaskError) A) :
  returns work → returns (with_bridge capacity orc kill_delay config kind work).
Proof.
  intros Hw. unfold with_bridge, spawn_bridge, join_thread.
  apply returns_bind; [returns_tac|intros _]. apply returns_bind_try; [done|]. intros r Hr. returns_tac. by apply returns_lift.
Qed.

Lemma returns_check deadline :
  returns (check_initialization_cancel capacity orc kill_delay config deadline).
Proof. unfold check_initialization_cancel. returns_tac. Qed.

Lemma returns_answered {A} (r : result (halt TaskError) A) :
  r ≠ Err Diverged → returns (answered capacity orc kill_delay config r).
Proof. by intros ? m. Qed.

Context (Hpw : sysconf_getpw_size ≠ 0%Z) (Hgr : sysconf_getgr_size ≠ 0%Z).

Lemma returns_session_phase kind getuid task execution timeout_sec workspace id stdin :
  is_Some execution → returns (session_phase kind getuid task execution timeout_sec workspace id stdin).
Proof.
  intros Hex. unfold Tasks.session_phase.
  apply returns_bind; [by apply returns_run_as|intros run_as].
  apply returns_bind; [apply returns_uid_check|intros _].
  apply returns_bind; [apply returns_cwd|intros cwd].
  by apply returns_with_bridge, returns_run_phase.
Qed.

Lemma returns_initialize files getuid task workspace id deadline :
  executable_task task → returns (initialize_session files getuid task workspace id deadline).
Proof.
  intros Ht. unfold Tasks.initialize_session.
  repeat (apply returns_bind; [first
    [apply returns_send_item|apply returns_check|by apply returns_run_as|apply returns_uid_check
    |apply returns_answered; by destruct (sf_create_dir _ _)
    |apply returns_answered; by destruct (sf_extract _ _)
    |apply returns_answered; by destruct (sf_ownership _ _ _)]|intros ?]).
  by apply returns_with_bridge, returns_run_task_phases.
Qed.

Lemma returns_action getuid task action workspace session_id action_id name revision input :
  is_Some (SessionActionConfig_execution action) →
  returns (run_session_action getuid task action workspace session_id action_id name revision input).
Proof.
  intros Ha. unfold Tasks.run_session_action.
  apply returns_bind; [apply returns_send_item|intros _].
  apply returns_bind; [by apply returns_session_phase|done].
Qed.

(** A task whose session's teardown has a program. *)
Definition executable_teardown (task : TaskConfig) : Prop :=
  ∀ s, tk_session task = Some s → is_Some (SessionTeardownConfig_execution (sn_teardown s)).

Lemma returns_teardown getuid task workspace id :
  executable_teardown task → returns (run_session_teardown getuid task workspace id).
Proof.
  intros Ht. unfold Tasks.run_session_teardown. apply returns_bind; [auto with s2|intros started].
  apply returns_bind_try; [|intros [|[]] ?; by returns_tac].
  apply returns_wp. intros m. apply wp_bind, wp_lift.
  destruct (tk_session task) as [s|] eqn:Es; cbn; [|done].
  apply (returns_bind _ (λ _, session_phase TeardownDrain getuid task _ _ workspace id None)); [done|].
  intros _. by apply returns_session_phase, Ht.
Qed.

(** The start of a session and every action its configuration offers return, under
    a validated configuration, whatever the programs, the client, the file system
    and the other threads do. *)
Theorem session_work_returns `{Glob} metadata name task :
  Config_validate metadata config = Ok tt → cf_tasks config !! name = Some task →
  (∀ files getuid workspace id deadline m,
     (initialize_session files getuid task workspace id deadline m).2 ≠ Err Diverged) ∧
  (∀ session action_name action, tk_session task = Some session →
     (sn_actions session !! action_name = Some action ∨
      ∃ d, sn_action_dispatcher session = Some d ∧ resolve d action_name = Some action) →
     ∀ getuid workspace session_id action_id revision input m,
       (run_session_action getuid task action workspace session_id action_id action_name revision input m).2
         ≠ Err Diverged).
Proof.
  intros Hc Ht. split.
  - intros. by apply returns_initialize, (validated_executable config metadata name).
  - intros session action_name action Hs Ha. intros. apply returns_action.
    destruct (config_task_ok metadata config Hc name task Ht) as (_ & _ & _ & _ & _ & _ & Hok).
    destruct (Hok session Hs) as (_ & _ & _ & _ & Hact & _). destruct (Hact action_name action Ha) as [Hr _].
    by destruct (SessionActionConfig_execution action).
Qed.

Lemma teardown_throws getuid task workspace id :
  throws (λ _, False) (run_session_teardown getuid task workspace id).
Proof.
  unfold Tasks.run_session_teardown. apply throws_bind; [done|intros started].
  apply throws_bind; [apply throws_try|]. by intros [|[]].
Qed.

(** * The programs that are started *)

Abbreviation images m := (sh_images (m_shared m)).
Abbreviation with_bridge := (with_bridge capacity orc kill_delay config).
Abbreviation run_task_phases :=
  (run_task_phases capacity orc pre_faults kill_delay daemon group_list canonicalize config).
Abbreviation setup_passed := (setup_passed capacity orc pre_faults kill_delay daemon group_list config).

Definition bridged_with (kind : bridge_kind) (m : Machine Shared) : Machine Shared :=
  set_shared (set_bridge (Bridge kind false false BridgeReceives) (m_shared m)) m.

Lemma wp_join (R : relation (Machine Shared)) `{!PreOrder R} grace finished m Q :
  (∀ m m', later moves m m' → R m m') → (∀ m', R m m' → Q m' (Ok tt)) →
  wp (join_thread capacity orc kill_delay config grace finished) m Q.
Proof.
  intros Hl HQ. unfold join_thread.
  apply wp_poll_shared with (I := R m) (J := R m); try done.
  - intros m1 m2 ? ?%Hl. by trans m1.
  - intros m1 m2 ? ?%Hl. by trans m1.
  - intros m0 m1 Hm1. cbn [fst snd]. rewrite set_shared_id. destruct (finished _); [by apply HQ|done].
Qed.

(** The work runs beside a bridge that was just started; what follows it is
    covered by a relation that waits and signals to the bridge keep. *)
Lemma wp_with_bridge (R : relation (Machine Shared)) `{!PreOrder R} {A} kind
    (work : eff (Machine Shared) (halt TaskError) A) m Q :
  (∀ m m', later moves m m' → R m m') →
  (∀ f m, f = stop_bridge ∨ f = drop_sender → R m (set_shared (tell_bridge f (m_shared m)) m)) →
  (∀ m0, later moves m m0 → wp work (bridged_with kind m0) (λ m1 r, ∀ m2, R m1 m2 → Q m2 r)) →
  wp (with_bridge kind work) m Q.
Proof.
  intros Hl Ht Hw. unfold Tasks.with_bridge, spawn_bridge. apply wp_bind, wp_atomically. intros m0 Hm0.
  apply wp_bind, wp_try. eapply wp_mono; [by apply Hw|]. cbn beta. intros m1 r Hr.
  apply wp_bind, wp_atomically. intros m2 Hm2. apply wp_bind, wp_atomically. intros m3 Hm3. cbn [fst snd].
  apply wp_bind, (wp_join R); [done|]. intros m4 Hm4. apply wp_lift, Hr.
  etrans; [apply Hl, Hm2|]. etrans; [apply (Ht stop_bridge); by left|].
  etrans; [apply Hl, Hm3|]. etrans; [apply (Ht drop_sender); by right|done].
Qed.

Lemma tell_bridge_same f m : same_images m (set_shared (tell_bridge f (m_shared m)) m).
Proof. unfold tell_bridge. split; [|done]. cbn. by destruct (rl_bridge _). Qed.

Lemma runs_same {B E A} (P : B → image → Prop) exs m0 m1 m2 m3 (r : result E A) :
  same_images m0 m1 → runs_programs P exs m1 m2 r → same_images m2 m3 → runs_programs P exs m0 m3 r.
Proof.
  intros [E1 _] Hr [E3 G3]. destruct r; cbn in *.
  - destruct Hr as [(ims & E2 & F) Hg]. split; [|auto]. exists ims. by rewrite E3, E2, E1.
  - destruct Hr as (pre & Hp & ims & E2 & F). exists pre. split; [done|]. exists ims. by rewrite E3, E2, E1.
Qed.

Lemma same_started {B E A} (P : B → image → Prop) exs m m' (e : E) :
  same_images m m' → runs_programs P exs m m' (Err (A := A) e).
Proof. intros [E1 _]. by apply started_none. Qed.

(** A program started in a session's workspace for its task, as the user the
    daemon's configuration names. *)
Definition session_program (getuid : N) (task : TaskConfig) (workspace : string)
    (execution : option TaskExecution) (i : image) : Prop :=
  ∃ run_as, resolve_run_as getuid config = Ok run_as ∧
    task_program daemon group_list canonicalize task run_as workspace execution i.

Lemma session_phase_programs kind getuid task execution timeout_sec workspace id stdin m :
  gone (m_group m) = true →
  wp (session_phase kind getuid task execution timeout_sec workspace id stdin) m
    (runs_programs (session_program getuid task workspace) [execution] m).
Proof.
  intros Hg. unfold Tasks.session_phase, of_failure.
  destruct (resolve_run_as getuid config) as [run_as|] eqn:Hra; [|by apply started_none].
  apply wp_bind, wp_lift. cbn [map_err].
  apply wp_bind, wp_lift. destruct (map_err _ _); [|by apply started_none].
  destruct (resolve_cwd _ _ _) as [cwd|] eqn:Hcwd; [|by apply started_none].
  apply wp_bind, wp_lift. cbn [map_err].
  apply (wp_with_bridge same_images); [apply later_images|intros; apply tell_bridge_same|].
  intros m0 Hm0%later_images. eapply wp_mono; [apply run_phase_programs; by apply Hm0|].
  intros m1 r H1 m2 H2. apply (runs_same _ _ m (bridged_with kind m0) m1); [exact Hm0| |done].
  eapply runs_mono; [|exact H1]. intros ex i Hi. exists run_as. split; [done|]. by exists cwd.
Qed.

Lemma offer_view item s : task_view (try_offer item s).1 = task_view s.
Proof. unfold try_offer. destruct (ob_closed _); [done|]. by destruct (Nat.ltb _ _). Qed.

Lemma send_item_images message item : keeps same_images (send_item message item).
Proof.
  intros m. apply (wp_mono _ _ _ (λ m' _, same_images m m')
    (send_item_spec (same_images m) (same_images m) message item m ltac:(done)
       (λ m1 m2 H1 H2, transitivity H1 (later_images capacity orc config m1 m2 H2)) (λ m1 H1, H1)
       ltac:(intros m1 [E G] _; split; [cbn; pose proof (offer_view item (m_shared m1)) as Hv;
               injection Hv as _ _ _ _ _ ->; done|done]))).
  intros m' [|[]]; [done|by intros [? _]|done].
Qed.

(** An action of a session starts no program but its own, once, in the task's
    working directory below the session's workspace, in the task's environment and
    as the user the configuration names; when it reports an exit code the program
    ran and no process of it is left. *)
Theorem action_runs_its_program getuid task action workspace session_id action_id name revision input m m' r :
  gone (m_group m) = true →
  run_session_action getuid task action workspace session_id action_id name revision input m = (m', r) →
  runs_programs (session_program getuid task workspace) [SessionActionConfig_execution action] m m' r.
Proof.
  intros Hg Hr.
  cut (wp (run_session_action getuid task action workspace session_id action_id name revision input) m
    (runs_programs (session_program getuid task workspace) [SessionActionConfig_execution action] m)).
  { unfold wp. by rewrite Hr. }
  unfold Tasks.run_session_action. apply wp_bind, (wp_keeps same_images); [apply send_item_images|].
  intros m1 [[]|e] H1; [|by apply same_started].
  apply wp_bind. eapply wp_mono; [apply session_phase_programs; by apply H1|].
  intros m2 [r2|e] H2; [apply wp_ret|]; by apply (runs_same _ _ m m1 m2).
Qed.

(** What the result of a teardown says of its program: an exit code, that it ran
    and no process of it is left; no exit code, an error. *)
Definition teardown_told (P : option TaskExecution → image → Prop) (program : option TaskExecution)
    (m m' : Machine Shared) (result : SessionTeardownResult) : Prop :=
  match td_exit_code result with
  | Some _ => td_error_code result = None ∧ gone (m_group m') = true ∧ started_all P [program] m m'
  | None => is_Some (td_error_code result) ∧ started_some P [program] m m'
  end.

Lemma teardown_programs task session getuid workspace id m :
  tk_session task = Some session → gone (m_group m) = true →
  wp (run_session_teardown getuid task workspace id) m (λ m' r, ∀ result, r = Ok result →
    teardown_told (session_program getuid task workspace)
      (SessionTeardownConfig_execution (sn_teardown session)) m m' result).
Proof.
  intros Hs Hg. unfold Tasks.run_session_teardown. apply wp_bind, wp_now. intros m1 Hm1%later_images.
  apply wp_bind, wp_try, wp_bind, wp_lift. rewrite Hs. cbn [ok_or]. apply wp_bind.
  unfold wp at 1, new_flag. cbn [fst snd].
  eapply wp_mono; [apply session_phase_programs; by apply Hm1|].
  intros m2 r H2. apply (runs_same _ _ m _ m2 m2) in H2; [|exact Hm1|done].
  destruct r as [r|[e|]]; [| |done].
  - apply wp_ret. intros ? [= <-]. unfold teardown_told. cbn. by destruct H2.
  - apply wp_bind, wp_now. intros m3 Hm3%later_images. apply wp_ret. intros ? [= <-]. unfold teardown_told. cbn.
    split; [by eexists|]. apply (started_same _ _ _ m2); [done|by apply Hm3].
Qed.

Lemma validated_teardown `{Glob} metadata name task :
  Config_validate metadata config = Ok tt → cf_tasks config !! name = Some task →
  executable_teardown task.
Proof.
  intros Hc Ht s Es. destruct (config_task_ok metadata config Hc name task Ht) as (_ & _ & _ & _ & _ & _ & Hok).
  destruct (Hok s Es) as (_ & [Hr _] & _). by destruct (SessionTeardownConfig_execution _).
Qed.

(** C25: A teardown reports a result whatever the machine does: an exit code only if
    its own program ran, as the configured user and in the session's workspace, and
    no process of it is left; and otherwise the error that kept it from running or
    from being waited for. *)
Theorem teardown_reports `{Glob} metadata name task session getuid workspace id m :
  Config_validate metadata config = Ok tt → cf_tasks config !! name = Some task →
  tk_session task = Some session → gone (m_group m) = true →
  ∃ m' result, run_session_teardown getuid task workspace id m = (m', Ok result) ∧
    teardown_told (session_program getuid task workspace)
      (SessionTeardownConfig_execution (sn_teardown session)) m m' result.
Proof.
  intros Hc Ht Hs Hg.
  pose proof (returns_teardown getuid task workspace id (validated_teardown metadata name task Hc Ht) m) as Hret.
  pose proof (teardown_throws getuid task workspace id m) as Hthr.
  pose proof (teardown_programs task session getuid workspace id m Hs Hg) as Hw. unfold wp in Hw.
  destruct (run_session_teardown _ _ _ _ _) as [m' [result|[e|]]]; cbn in *;
    [|by destruct (Hthr e)|done].
  exists m', result. split; [done|]. by apply Hw.
Qed.

(** The files of a session are in place. *)
Definition session_prepared (files : session_files) (getuid : N) (workspace : string) : Prop :=
  sf_create_dir files workspace = Ok tt ∧ sf_extract files workspace = Ok tt ∧
  ∃ run_as, resolve_run_as getuid config = Ok run_as ∧ sf_ownership files workspace run_as = Ok tt.

Section quiet.
Context (R : relation (Machine Shared)) `{!PreOrder R} (Hlater : ∀ m m', later moves m m' → R m m').

Lemma keeps_check deadline :
  keeps R (check_initialization_cancel capacity orc kill_delay config deadline).
Proof.
  unfold check_initialization_cancel.
  apply keeps_bind; [done|by apply keeps_cancelled|intros c].
  apply keeps_bind; [done|by apply keeps_lift|intros _].
  apply keeps_bind; [done|by apply keeps_now|intros now]. by apply keeps_lift.
Qed.

Lemma keeps_answered {A} (r : result (halt TaskError) A) :
  keeps R (answered capacity orc kill_delay config r).
Proof. intros m. apply Hlater, (advance_later moves). Qed.
End quiet.

(** A check that passes: the flag was not set, and then the deadline not reached. *)
Lemma wp_check_passed deadline m Q :
  (∀ m' e, later moves m m' → Q m' (Err e)) →
  (∀ mA mB, later moves m mA → m_cancelled mA = false → later moves mA mB → m_now mB < deadline →
     Q mB (Ok tt)) →
  wp (check_initialization_cancel capacity orc kill_delay config deadline) m Q.
Proof.
  intros He Hok. unfold check_initialization_cancel. apply wp_bind. unfold wp at 1, is_cancelled.
  pose proof (advance_later moves kill_delay 0 m) as Hl. set (mA := advance _ _ _ _) in *. cbn [fst snd].
  apply wp_bind. destruct (m_cancelled mA) eqn:Hc; [by apply He|]. apply wp_ret.
  apply wp_bind, wp_now. intros mB HB. destruct (N.leb_spec deadline (m_now mB)).
  - apply He. by trans mA.
  - by apply (Hok mA).
Qed.

(** A step that starts nothing, after others that started nothing. *)
Lemma wp_quiet {A B} (c : eff (Machine Shared) (halt TaskError) A)
    (k : A → eff (Machine Shared) (halt TaskError) B) m0 m Q :
  keeps same_images c → same_images m0 m →
  (∀ m' e, images m' = images m0 → Q m' (Err e)) →
  (∀ a m', same_images m0 m' → (c m).2 = Ok a → wp (k a) m' Q) →
  wp (c ≫= k) m Q.
Proof.
  intros Hc H0 He Hk. apply wp_bind. unfold wp at 1. specialize (Hc m).
  destruct (c m) as [m' [a|e]]; cbn in *; assert (same_images m0 m') as H1 by (by trans m).
  - by apply Hk.
  - apply He, H1.
Qed.

Lemma of_failure_Ok {A} (r : result failure A) m a : (of_failure r m).2 = Ok a → r = Ok a.
Proof. destruct r; cbn; congruence. Qed.

Lemma answered_Ok {E A} (f : E → halt TaskError) (r : result E A) m a :
  (answered capacity orc kill_delay config (map_err f r) m).2 = Ok a → r = Ok a.
Proof. destruct r; cbn; congruence. Qed.

(** The phases of a session's start beside its bridge. *)
Lemma prepared_phases getuid task run_as workspace id m mB :
  resolve_run_as getuid config = Ok run_as → gone (m_group m) = true → same_images m mB →
  wp (with_bridge StartBridge (run_task_phases task run_as workspace id)) mB (λ m' r,
    started_some (session_program getuid task workspace) (task_programs task) m m' ∧
    setup_passed task run_as id m m' r ∧
    with_bridge StartBridge (run_task_phases task run_as workspace id) mB = (m', r)).
Proof.
  intros Hra Hg [EB GB].
  assert (wp (with_bridge StartBridge (run_task_phases task run_as workspace id)) mB (λ m' r,
    started_some (session_program getuid task workspace) (task_programs task) m m' ∧
    setup_passed task run_as id m m' r)) as Hw.
  2: { unfold wp in *. destruct Hw. split_and!; [done..|]. by destruct (with_bridge _ _ _). }
  apply (wp_with_bridge same_images); [apply later_images|intros; apply tell_bridge_same|].
  intros m3 [E3 G3]%later_images.
  assert (gone (m_group (bridged_with StartBridge m3)) = true) as Hg3 by (cbn; auto).
  pose proof (run_task_phases_programs capacity orc pre_faults kill_delay daemon group_list canonicalize config
    task run_as workspace id _ Hg3) as (pre & Hp & ims & E4 & F4).
  pose proof (run_task_phases_setup capacity orc pre_faults kill_delay daemon group_list canonicalize config
    task run_as workspace id _ Hg3) as Hpass.
  unfold wp in *. intros m5 [E5 _]. split.
  - exists pre. split; [done|]. exists ims. cbn in E4. split; [by rewrite E5, E4, E3, EB|].
    eapply Forall2_impl; [exact F4|]. intros ex im Him. by exists run_as.
  - eapply setup_passed_same; [|exact E5|exact Hpass]. cbn. by rewrite E3.
Qed.

(** C24: The start of a session starts the programs of its task only in a workspace
    that was created for it, filled from the upload and handed to the task's user,
    after a last look at the cancellation flag and the deadline; setup first, and the
    run program only if the setup phase reported success. *)
Theorem initialization_runs_prepared files getuid task workspace id deadline m m' r :
  gone (m_group m) = true →
  initialize_session files getuid task workspace id deadline m = (m', r) →
  images m' = images m ∨
  session_prepared files getuid workspace ∧
  started_some (session_program getuid task workspace) (task_programs task) m m' ∧
  ∃ run_as mA mB,
    resolve_run_as getuid config = Ok run_as ∧
    m_cancelled mA = false ∧ later moves mA mB ∧ m_now mB < deadline ∧ images mB = images m ∧
    with_bridge StartBridge (run_task_phases task run_as workspace id) mB = (m', r) ∧
    setup_passed task run_as id m m' r.
Proof.
  intros Hg Hr.
  assert (∀ m1, same_images m m1 →
    wp (initialize_session files getuid task workspace id deadline) m1 (λ m' r,
      images m' = images m ∨
      session_prepared files getuid workspace ∧
      started_some (session_program getuid task workspace) (task_programs task) m m' ∧
      ∃ run_as mA mB,
        resolve_run_as getuid config = Ok run_as ∧
        m_cancelled mA = false ∧ later moves mA mB ∧ m_now mB < deadline ∧ images mB = images m ∧
        with_bridge StartBridge (run_task_phases task run_as workspace id) mB = (m', r) ∧
        setup_passed task run_as id m m' r)) as Hw.
  2: { specialize (Hw m ltac:(done)). unfold wp in Hw. by rewrite Hr in Hw. }
  clear Hr. intros m1 Hm1. unfold Tasks.initialize_session.
  do 10 (eapply (wp_quiet _ _ m); [first
    [apply send_item_images|apply keeps_lift, _
    |apply keeps_check; [apply _|apply later_images]|apply keeps_answered, later_images]|eassumption
    |by left|intros ????]).
  rename select ((of_failure (resolve_run_as _ _) _).2 = _) into Hra. apply of_failure_Ok in Hra.
  rename select ((answered _ _ _ _ (map_err _ (sf_create_dir _ _)) _).2 = _) into Hd. apply answered_Ok in Hd.
  rename select ((answered _ _ _ _ (map_err _ (sf_extract _ _)) _).2 = _) into Hx. apply answered_Ok in Hx.
  rename select ((answered _ _ _ _ (map_err _ (sf_ownership _ _ _)) _).2 = _) into Ho. apply answered_Ok in Ho.
  match type of Hra with _ = Ok ?u => rename u into run_as end.
  match goal with |- wp _ ?m2 _ => assert (same_images m m2) as Hm2 by done end.
  apply wp_bind, wp_check_passed.
  { intros m3 e [E3 _]%later_images. left. rewrite E3. apply Hm2. }
  intros mA mB HA Hc HB Hd'. assert (same_images m mB) as HmB.
  { etrans; [exact Hm2|]. etrans; [eapply later_images; exact HA|eapply later_images; exact HB]. }
  eapply wp_mono; [by apply prepared_phases|]. intros m5 r5 (Hs & Hpass & Hrun). right. split_and!; [|done|].
  - repeat match goal with a : unit |- _ => destruct a end. split_and!; [done..|]. by exists run_as.
  - exists run_as, mA, mB. split_and!; [done..|apply HmB|done|done].
Qed.

(** * The events that reach the session's client *)

Abbreviation received s := (ob_sent (rl_outbox (sh_relay s))).

(** The bridge has passed on the events it took, in order: all of them but the one
    it is holding, or held when it gave up, which it does only by setting the flag. *)
Definition relayed (kind : bridge_kind) (base : list session_item) (cs : bool * Shared) : Prop :=
  ∃ b pending, let s := cs.2 in
    rl_bridge (sh_relay s) = Some b ∧ br_kind b = kind ∧ (sh_taken s ≤ length (sh_sent s))%nat ∧
    received s ++ option_list pending = base ++ omap (bridge_item kind) (take (sh_taken s) (sh_sent s)) ∧
    match br_state b with
    | BridgeReceives | BridgeIdles => pending = None
    | BridgeChecks item _ | BridgeOffers item _ => pending = Some item
    | BridgeCancels => True
    | BridgeReturned => pending = None ∨ cs.1 = true
    end.

(** The task's channel may grow, the flag may be set. *)
Lemma relayed_grow kind base c c' s s' :
  sh_relay s' = sh_relay s → sh_taken s' = sh_taken s → sh_sent s `prefix_of` sh_sent s' → (c = true → c' = true) →
  relayed kind base (c, s) → relayed kind base (c', s').
Proof.
  intros Er Et [l El] Hc (b & pending & Hb & Hk & Hle & Heq & Hst). exists b, pending. cbn in *.
  rewrite Er, Et, El, length_app, take_app_le by done. split_and!; [done|done|lia|done|].
  destruct (br_state b); naive_solver.
Qed.

Lemma reader_step_channel now c input r s :
  let s' := (reader_step capacity max_output now c input r s).1.2 in
  sh_relay s' = sh_relay s ∧ sh_taken s' = sh_taken s ∧ sh_sent s `prefix_of` sh_sent s'.
Proof.
  unfold reader_step, try_send. destruct (rd_state r); try done.
  - destruct input; [|done]. destruct (is_empty _); [done|]. by destruct (_ <? _).
  - by destruct c.
  - destruct (sh_closed s); [done|]. destruct (Nat.ltb _ _); [|by destruct (_ <=? _)].
    split_and!; [done..|by eexists].
Qed.

Lemma bridge_step_relayed kind base now c b s :
  rl_bridge (sh_relay s) = Some b → relayed kind base (c, s) →
  relayed kind base (c || (bridge_step now c b s).2, (bridge_step now c b s).1).
Proof.
  intros Hb (b' & pending & Hb' & Hk & Hle & Heq & Hst). cbn in *. simplify_eq.
  unfold bridge_step. destruct (br_state b) eqn:Es.
  - subst pending. destruct (sh_sent s !! sh_taken s) as [event|] eqn:El.
    + pose proof (lookup_lt_Some _ _ _ El) as Hlt.
      assert (omap (bridge_item (br_kind b)) (take (S (sh_taken s)) (sh_sent s)) =
        omap (bridge_item (br_kind b)) (take (sh_taken s) (sh_sent s)) ++
        option_list (bridge_item (br_kind b) event)) as Hom.
      { rewrite (take_S_r _ _ _ El), omap_app. cbn. by destruct (bridge_item _ _). }
      destruct (bridge_item (br_kind b) event) as [item|].
      * exists (Bridge (br_kind b) (br_stop b) (br_dropped b) (BridgeChecks item (now + OUTPUT_FORWARD_GRACE))), (Some item).
        cbn. rewrite Hom. cbn in Heq. rewrite app_nil_r in Heq. rewrite Heq, (assoc (++)).
        split_and!; done.
      * exists (Bridge (br_kind b) (br_stop b) (br_dropped b) BridgeReceives), None.
        cbn. rewrite Hom, app_nil_r. cbn in Heq. rewrite app_nil_r in Heq. 
        split_and!; first [done|lia|by rewrite app_nil_r].
    + destruct (senders_gone b s); cbn; do 2 eexists; cbn; split_and!; try done. by left.
  - subst pending. destruct (match br_kind b with TeardownDrain => _ | _ => _ end); cbn; do 2 eexists; cbn; split_and!; try done.
    by left.
  - subst pending. destruct c; cbn; do 2 eexists; cbn; split_and!; try done.
  - subst pending. unfold try_offer. destruct (ob_closed _); [do 2 eexists; cbn; split_and!; done|].
    destruct (Nat.ltb _ _); cbn.
    + do 2 eexists; cbn. rewrite <-Heq. split_and!; try done. by rewrite app_nil_r.
    + destruct (_ <=? _); cbn; do 2 eexists; cbn; split_and!; done.
  - do 2 eexists; cbn; split_and!; try done. right. by rewrite orb_true_r.
  - exists b, pending. cbn. rewrite Es, orb_false_r. done.
Qed.

Lemma thread_step_relayed kind base now cs mv :
  relayed kind base cs → relayed kind base (thread_step capacity max_output now cs mv).
Proof.
  destruct cs as [c s]. intros Hr. assert (bridged s = true) as Hbr.
  { destruct Hr as (b & ? & Hb & _). unfold bridged. cbn in Hb. by rewrite Hb. }
  destruct mv as [i input|i answer| | | | | | |]; cbn; rewrite ?Hbr; try done.
  - destruct (_ !! _) as [r|]; [|done]. pose proof (reader_step_channel now c input r s) as (H1 & H2 & H3).
    destruct (reader_step _ _ _ _ _ _ _) as [[? ?] ?]. eapply relayed_grow; [..|exact Hr]; try done. by intros ->.
  - destruct (_ !! _); [|done]. by eapply relayed_grow; [..|exact Hr].
  - by eapply relayed_grow; [..|exact Hr].
  - destruct (rl_bridge _) as [b|] eqn:Hb; [|done]. pose proof (bridge_step_relayed kind base now c b s Hb Hr) as Hs.
    by destruct (bridge_step _ _ _ _).
Qed.

(** Before there is a bridge: nothing has been sent but [base]. *)
Definition fresh (base : list session_item) (s : Shared) : Prop :=
  rl_bridge (sh_relay s) = None ∧ sh_sent s = [] ∧ sh_taken s = O ∧ sh_readers s = [] ∧ received s = base.

Lemma thread_step_fresh base now cs mv :
  fresh base cs.2 → fresh base (thread_step capacity max_output now cs mv).2.
Proof.
  destruct cs as [c s]. intros Hf. pose proof Hf as (H1 & H2 & H3 & H4 & H5). cbn in *.
  destruct mv as [i input|i answer| | | | | | |]; cbn; try done.
  - by rewrite H4.
  - by destruct (_ !! _).
  - destruct (bridged s); [done|]. split_and!; try done. cbn. by rewrite H2, H3.
  - destruct (bridged s); [done|]. split_and!; try done. cbn. by rewrite H2.
  - by destruct (bridged s).
  - by rewrite H1.
Qed.

(** Between the first event of a session's stream and its end: the first event
    could not be sent and the flag is set, or it was and the bridge follows. *)
Definition streaming (kind : bridge_kind) (first : session_item) (m : Machine Shared) : Prop :=
  (fresh [] (m_shared m) ∧ m_cancelled m = true) ∨ fresh [first] (m_shared m) ∨
  relayed kind [first] (m_cancelled m, m_shared m).

Lemma later_fresh base m m' : later moves m m' → fresh base (m_shared m) → fresh base (m_shared m').
Proof.
  intros Hl Hf. apply (later_keeps capacity max_output orc (λ cs, fresh base cs.2) m m'); [|done..].
  intros k now cs mv _. apply thread_step_fresh.
Qed.

Definition keeps_relayed (kind : bridge_kind) (base : list session_item) (m m' : Machine Shared) : Prop :=
  relayed kind base (m_cancelled m, m_shared m) → relayed kind base (m_cancelled m', m_shared m').

#[local] Instance keeps_relayed_preorder kind base : PreOrder (keeps_relayed kind base).
Proof. split; [by intros m Hr|intros m1 m2 m3 H1 H2 Hr; by apply H2, H1]. Qed.

Lemma later_relayed kind base m m' : later moves m m' → keeps_relayed kind base m m'.
Proof.
  intros Hl Hr. apply (later_keeps capacity max_output orc (relayed kind base) m m'); [|done..].
  intros k now cs mv _. apply thread_step_relayed.
Qed.

Lemma later_streaming kind first m m' : later moves m m' → streaming kind first m → streaming kind first m'.
Proof.
  intros Hl [[Hf Hc]|[Hf|Hr]].
  - left. split; [by apply (later_fresh _ m)|]. by apply (later_cancelled _ _ _ Hl).
  - right; left. by apply (later_fresh _ m).
  - right; right. by apply (later_relayed _ _ m).
Qed.

Lemma tell_relayed kind base f m :
  f = stop_bridge ∨ f = drop_sender →
  keeps_relayed kind base m (set_shared (tell_bridge f (m_shared m)) m).
Proof.
  intros Hf (b & pending & Hb & ?). cbn in Hb. exists (f b), pending. unfold tell_bridge. cbn. rewrite Hb. cbn.
  by destruct Hf as [-> | ->].
Qed.

Lemma grow_relayed kind base x m :
  sh_relay x = sh_relay (m_shared m) → sh_taken x = sh_taken (m_shared m) →
  sh_sent (m_shared m) `prefix_of` sh_sent x → keeps_relayed kind base m (set_shared x m).
Proof. intros ??? Hr. by eapply relayed_grow; [..|exact Hr]. Qed.

Lemma send_relayed kind base event m :
  keeps_relayed kind base m (set_shared (try_send capacity event (m_shared m)).1 m).
Proof.
  unfold try_send. destruct (sh_closed _); [by apply grow_relayed|]. destruct (Nat.ltb _ _); [|by apply grow_relayed].
  apply grow_relayed; try done. by eexists.
Qed.

Lemma run_phase_relayed kind base execution timeout_sec phase run_as cwd id env stdin :
  keeps (keeps_relayed kind base)
    (run_phase capacity orc pre_faults kill_delay daemon group_list config execution timeout_sec phase run_as
       cwd id env stdin).
Proof.
  apply keeps_run_phase; [apply _|apply later_relayed|intros; by apply grow_relayed..|intros; apply send_relayed|].
  intros i m Hr. by eapply relayed_grow; [..|exact Hr].
Qed.

Lemma run_task_phases_relayed kind base task run_as workspace id :
  keeps (keeps_relayed kind base)
    (run_task_phases task run_as workspace id).
Proof.
  apply keeps_run_task_phases; [apply _|apply later_relayed|intros; by apply grow_relayed..|intros; apply send_relayed|].
  intros i m Hr. by eapply relayed_grow; [..|exact Hr].
Qed.

(** The first event of a stream is sent, or the flag is set. *)
Lemma send_first kind message first m :
  fresh [] (m_shared m) →
  wp (send_item message first) m (λ m' r,
    streaming kind first m' ∧ ∀ a, r = Ok a → fresh [first] (m_shared m')).
Proof.
  intros Hf. eapply wp_mono.
  - apply (send_item_spec (λ m, fresh [] (m_shared m)) (λ m, fresh [first] (m_shared m))); [done| |done|].
    + intros m1 m2 H1 H2. by apply (later_fresh _ m1).
    + intros m1 (H1 & H2 & H3 & H4 & H5). unfold try_offer. destruct (ob_closed _); [done|].
      destruct (Nat.ltb _ _); [|done]. intros _. split_and!; try done. cbn. by rewrite H5.
  - intros m' [a|[e|]] Hm'; [|destruct Hm' as (? & ? & _)|done].
    + split; [|done]. right; by left.
    + split; [|done]. by left.
Qed.

Lemma with_bridge_streaming {A} kind first (work : eff (Machine Shared) (halt TaskError) A) m :
  keeps (keeps_relayed kind [first]) work → fresh [first] (m_shared m) →
  wp (with_bridge kind work) m (λ m' _, streaming kind first m').
Proof.
  intros Hk Hf. apply (wp_with_bridge (keeps_relayed kind [first])); [apply later_relayed|apply tell_relayed|].
  intros m0 Hm0. pose proof (later_fresh _ _ _ Hm0 Hf) as (H1 & H2 & H3 & H4 & H5).
  apply (wp_keeps (keeps_relayed kind [first])); [done|]. intros m1 r H01 m2 H12. right; right. apply H12, H01.
  exists (Bridge kind false false BridgeReceives), None. cbn. rewrite H2, H3, H5. done.
Qed.

(** What the client of a session has been told: its first event and then the
    events of the program, in order, none twice and none left out in between; and
    while the flag is clear a bridge that has returned has passed on all it took. *)
Definition client_told (kind : bridge_kind) (first : session_item) (m : Machine Shared) : Prop :=
  let s := m_shared m in
  received s `prefix_of` first :: omap (bridge_item kind) (sh_sent s) ∧
  (m_cancelled m = false → bridge_done s = true →
     received s = first :: omap (bridge_item kind) (take (sh_taken s) (sh_sent s))).

Lemma streaming_told kind first m : streaming kind first m → client_told kind first m.
Proof.
  intros [[(H1 & H2 & H3 & H4 & H5) Hc]|[(H1 & H2 & H3 & H4 & H5)|(b & pending & H1 & H2 & H3 & H4 & H5)]];
    unfold client_told.
  - rewrite H5. split; [apply prefix_nil|]. by rewrite Hc.
  - rewrite H2, H5. split; [done|]. by rewrite take_nil.
  - cbn in *. split.
    + trans (first :: omap (bridge_item kind) (take (sh_taken (m_shared m)) (sh_sent (m_shared m)))).
      * rewrite <-H4. by eexists.
      * apply prefix_cons. rewrite <-(take_drop (sh_taken (m_shared m)) (sh_sent (m_shared m))) at 2.
        rewrite omap_app. by eexists.
    + intros Hc Hd. unfold bridge_done in Hd. rewrite H1 in Hd. rewrite <-H4.
      destruct (br_state b); try done. destruct H5 as [-> |?]; [by rewrite app_nil_r|congruence].
Qed.

(** C23: However the program, the threads and the client interleave, and however long
    threads that were left behind go on, the client of an action receives the
    [started] event and then the program's output, in order, without gaps and
    without repetition; and unless the action was cancelled it receives all the
    output its bridge took. *)
Theorem action_output_in_order getuid task action workspace session_id action_id name revision input m m' r m'' :
  fresh [] (m_shared m) →
  run_session_action getuid task action workspace session_id action_id name revision input m = (m', r) →
  later moves m' m'' →
  client_told ActionBridge (ActionItem (AAction session_id action_id name revision ActionStarted)) m''.
Proof.
  intros Hf Hr Hl. apply streaming_told, (later_streaming _ _ m'); [done|].
  cut (wp (run_session_action getuid task action workspace session_id action_id name revision input) m
    (λ m' _, streaming ActionBridge (ActionItem (AAction session_id action_id name revision ActionStarted)) m')).
  { unfold wp. by rewrite Hr. }
  unfold Tasks.run_session_action. apply wp_bind. eapply wp_mono; [by apply (send_first ActionBridge)|].
  intros m1 [[]|e] [Hs H1]; [|done]. specialize (H1 tt eq_refl).
  apply wp_bind. eapply (wp_mono _ _ (λ m2 _, streaming ActionBridge _ m2)); [|by intros m2 [] ?].
  unfold Tasks.session_phase, of_failure.
  apply wp_bind, wp_lift. destruct (map_err _ _) as [run_as|]; [|done].
  apply wp_bind, wp_lift. destruct (map_err _ _); [|done].
  apply wp_bind, wp_lift. destruct (map_err _ _) as [cwd|]; [|done].
  apply with_bridge_streaming; [apply run_phase_relayed|done].
Qed.

Definition keeps_fresh (base : list session_item) (m m' : Machine Shared) : Prop :=
  fresh base (m_shared m) → fresh base (m_shared m').

#[local] Instance keeps_fresh_preorder base : PreOrder (keeps_fresh base).
Proof. split; [by intros m Hf|intros m1 m2 m3 H1 H2 Hf; by apply H2, H1]. Qed.

Lemma later_keeps_fresh base m m' : later moves m m' → keeps_fresh base m m'.
Proof. intros Hl Hf. by apply (later_fresh _ m). Qed.

(** A step of the initialization that sends nothing. *)
Lemma wp_fresh {A B} (c : eff (Machine Shared) (halt TaskError) A)
    (k : A → eff (Machine Shared) (halt TaskError) B) base m Q :
  keeps (keeps_fresh base) c → fresh base (m_shared m) →
  (∀ m' e, fresh base (m_shared m') → Q m' (Err e)) →
  (∀ a m', fresh base (m_shared m') → wp (k a) m' Q) →
  wp (c ≫= k) m Q.
Proof.
  intros Hc Hf He Hk. apply wp_bind. unfold wp at 1. specialize (Hc m Hf).
  destruct (c m) as [m' [a|e]]; [by apply Hk|by apply He].
Qed.

(** The client of a session's start receives the [started] event and then the
    progress and the output of the setup and run phases, in order, without gaps and
    without repetition. *)
Theorem start_events_in_order files getuid task workspace id deadline m m' r m'' :
  fresh [] (m_shared m) →
  initialize_session files getuid task workspace id deadline m = (m', r) →
  later moves m' m'' →
  client_told StartBridge (StartItem (SSession id Started None None None None)) m''.
Proof.
  intros Hf Hr Hl. apply streaming_told, (later_streaming _ _ m'); [done|].
  cut (wp (initialize_session files getuid task workspace id deadline) m
    (λ m' _, streaming StartBridge (StartItem (SSession id Started None None None None)) m')).
  { unfold wp. by rewrite Hr. }
  unfold Tasks.initialize_session. apply wp_bind. eapply wp_mono; [by apply (send_first StartBridge)|].
  intros m1 [[]|e] [Hs H1]; [|done]. specialize (H1 tt eq_refl). clear Hs Hr Hf.
  repeat (eapply wp_fresh; [first
    [apply keeps_lift, _|apply keeps_check; [apply _|apply later_keeps_fresh]
    |apply keeps_answered, later_keeps_fresh]|eassumption
    |intros; right; by left|intros ? m2 H2; clear dependent m1; rename m2 into m1, H2 into H1]).
  apply with_bridge_streaming; [apply run_task_phases_relayed|done].
Qed.
End sessions.

(** * On a concrete machine *)

(** A program that writes two bytes and exits with code 0, and a bridge that moves
    at the calls [bridge_at] names. *)
Definition session_moves (bridge_at : nat → bool) (k : nat) : task_move :=
  TaskMove (ms 1) [LeaderExits (ExitCode 0)]
    ([ReaderMoves 0 (ReadBytes "ok"); ReaderMoves 0 (ReadBytes ""); ReaderMoves 0 (ReadBytes "");
      ReaderMoves 0 (ReadBytes ""); ReaderMoves 1 ReadError; WriterMoves 0 (WriteBytes 1);
      ReaderMoves 2 ReadError; ReaderMoves 3 ReadError] ++
     (if bridge_at k then [BridgeMoves; BridgeMoves; BridgeMoves; SessionTakes] else [])) None.

Definition demo_session_idle : Machine Shared :=
  mkMachine 0 0 (Group (Reaped NoStatus) 0 0) None [] false
    (mkShared 0 false [] 0 false [] [] [] (Relay (Outbox 16 [] 0 false) None)).

Definition demo_action : SessionActionConfig := {|
  ac_script := Some "echo ok"; ac_executable := None; ac_args := []; ac_timeout_sec := 60;
  ac_artifacts := tk_artifacts demo_task |}.

Definition demo_action_started : session_item :=
  ActionItem (AAction "s1" "a1" "test" "rev_0" ActionStarted).

Abbreviation demo_action_run orc :=
  (run_session_action 128 orc (λ _ _, None) (Some (ms 1)) demo_daemon (λ _ gid, [gid]) Ok demo_config
     0 demo_task demo_action "/w" "s1" "a1" "test" "rev_0" "x" demo_session_idle).

Definition steady_moves : nat → task_move := session_moves (λ _, true).
Definition demo_acted : Machine Shared := Eval vm_compute in (demo_action_run steady_moves).1.

Lemma demo_action_acted :
  demo_action_run steady_moves = (demo_acted, Ok {| ao_code := 0; ao_timed_out := false |}).
Proof. by vm_compute. Qed.

Lemma action_output_in_order_witness :
  client_told ActionBridge demo_action_started demo_acted ∧
  ob_sent (rl_outbox (sh_relay (m_shared demo_acted))) = [demo_action_started; ActionItem (AStdout "ok")].
Proof.
  split; [|done].
  apply (action_output_in_order 128 steady_moves (λ _ _, None) (Some (ms 1)) demo_daemon (λ _ gid, [gid]) Ok
    demo_config 0 demo_task demo_action "/w" "s1" "a1" "test" "rev_0" "x" demo_session_idle demo_acted
    (Ok {| ao_code := 0; ao_timed_out := false |})); [done|exact demo_action_acted|done].
Defined.

Lemma action_runs_its_program_witness :
  runs_programs (session_program demo_daemon (λ _ gid, [gid]) Ok demo_config 0 demo_task "/w")
    [SessionActionConfig_execution demo_action] demo_session_idle demo_acted
    (Ok (E := halt TaskError) {| ao_code := 0; ao_timed_out := false |}).
Proof.
  apply (action_runs_its_program 128 steady_moves (λ _ _, None) (Some (ms 1)) demo_daemon (λ _ gid, [gid]) Ok
    demo_config 0 demo_task demo_action "/w" "s1" "a1" "test" "rev_0" "x" demo_session_idle demo_acted);
    [done|exact demo_action_acted].
Defined.

(** The bridge looks at the channel once, before the program has written anything,
    and goes on only after it was told to stop. *)
Definition late_moves : nat → task_move := session_moves (λ k, bool_decide (k = 4)%nat || Nat.leb 40 k).

(** A bridge that found the channel empty does not look again when it is told to
    stop: an action can report success, with its flag clear and its client reading,
    while output the channel had accepted never reaches the client. *)
Theorem action_output_can_be_lost :
  let '(m, r) := demo_action_run late_moves in
  r = Ok {| ao_code := 0; ao_timed_out := false |} ∧ m_cancelled m = false ∧
  RStdout "ok" ∈ sh_sent (m_shared m) ∧ bridge_done (m_shared m) = true ∧
  ob_closed (rl_outbox (sh_relay (m_shared m))) = false ∧
  ob_sent (rl_outbox (sh_relay (m_shared m))) = [demo_action_started].
Proof. vm_compute. split_and!; try done. by right; left. Qed.

Definition demo_session_files : session_files := {|
  sf_create_dir _ := Ok tt; sf_extract _ := Ok tt; sf_ownership _ _ := Ok tt |}.

Abbreviation demo_start_run :=
  (initialize_session 128 steady_moves (λ _ _, None) (Some (ms 1)) demo_daemon (λ _ gid, [gid]) Ok demo_config
     demo_session_files 0 demo_task "/w" "s1" (secs 60) demo_session_idle).

Lemma initialization_runs_prepared_witness :
  let m := demo_start_run.1 in
  length (sh_images (m_shared m)) = 2%nat ∧
  (sh_images (m_shared m) = [] ∨
   session_prepared demo_config demo_session_files 0 "/w" ∧
   started_some (session_program demo_daemon (λ _ gid, [gid]) Ok demo_config 0 demo_task "/w")
     (task_programs demo_task) demo_session_idle m ∧
   ∃ run_as mA mB,
     resolve_run_as 0 demo_config = Ok run_as ∧
     m_cancelled mA = false ∧
     later (λ k, move_of 128 (bc_max_output_bytes (cf_build demo_config)) (steady_moves k)) mA mB ∧
     m_now mB < secs 60 ∧ sh_images (m_shared mB) = [] ∧
     with_bridge 128 steady_moves (Some (ms 1)) demo_config StartBridge
       (run_task_phases 128 steady_moves (λ _ _, None) (Some (ms 1)) demo_daemon (λ _ gid, [gid]) Ok demo_config
          demo_task run_as "/w" "s1") mB = (m, demo_start_run.2) ∧
     setup_passed 128 steady_moves (λ _ _, None) (Some (ms 1)) demo_daemon (λ _ gid, [gid]) demo_config
       demo_task run_as "s1" demo_session_idle m demo_start_run.2).
Proof.
  split; [by vm_compute|].
  apply (initialization_runs_prepared 128 steady_moves (λ _ _, None) (Some (ms 1)) demo_daemon
    (λ _ gid, [gid]) Ok demo_config demo_session_files 0 demo_task "/w" "s1" (secs 60) demo_session_idle
    demo_start_run.1 demo_start_run.2); [done|by destruct demo_start_run].
Defined.

Lemma start_events_in_order_witness :
  client_told StartBridge (StartItem (SSession "s1" Started None None None None)) demo_start_run.1.
Proof.
  apply (start_events_in_order 128 steady_moves (λ _ _, None) (Some (ms 1)) demo_daemon
    (λ _ gid, [gid]) Ok demo_config demo_session_files 0 demo_task "/w" "s1" (secs 60) demo_session_idle
    demo_start_run.1 demo_start_run.2); [done|by destruct demo_start_run|done].
Defined.

Abbreviation demo_teardown_run :=
  (run_session_teardown 128 steady_moves (λ _ _, None) (Some (ms 1)) demo_daemon (λ _ gid, [gid]) Ok demo_config
     0 demo_task "/w" "s1" demo_session_idle).

Lemma teardown_reports_witness :
  ∃ m' result, demo_teardown_run = (m', Ok result) ∧
    teardown_told (session_program demo_daemon (λ _ gid, [gid]) Ok demo_config 0 demo_task "/w")
      (SessionTeardownConfig_execution (sn_teardown demo_session)) demo_session_idle m' result.
Proof.
  apply (teardown_reports (H := demo_accounts) (H0 := demo_glob) 128 steady_moves (λ _ _, None) (Some (ms 1))
    demo_daemon (λ _ gid, [gid]) Ok demo_config ltac:(by vm_compute) ltac:(by vm_compute) demo_metadata "build" demo_task demo_session); by vm_compute.
Defined.

Lemma session_work_returns_witness : (demo_start_run).2 ≠ Err Diverged.
Proof.
  apply (session_work_returns (H := demo_accounts) (H0 := demo_glob) 128 steady_moves (λ _ _, None) (Some (ms 1))
    demo_daemon (λ _ gid, [gid]) Ok demo_config ltac:(by vm_compute) ltac:(by vm_compute) demo_metadata "build");
    by vm_compute.
Defined.
