(* ===== verification/ServiceStatus.v ===== *)
(** The status line protocol between the daemon and the supervisor of a service
    ([src/src/services.rs]): one JSON object per line on a pipe, read without
    blocking and with a bounded buffer. *)
From Stdlib Require Import Ascii.
From stdpp Require Import base option strings numbers list gmap countable.
From S2P Require Import Prelude RustStr.

Local Open Scope N_scope.

Definition MAX_STATUS_BYTES : nat := 4096.

Inductive SupervisorStatus :=
| StSpawned (pid : N) (pgid : Z)
| StExited (code : Z)
| StStopped
| StFailed (message : string).

#[export] Instance SupervisorStatus_eq_dec : EqDecision SupervisorStatus.
Proof. solve_decision. Defined.

(** [serde_json]'s encoding of a status. *)
Class StatusCodec := {
  encode_status : SupervisorStatus → list ascii;
  decode_status : list ascii → result io_error SupervisorStatus;
}.

(** What is documented of it: the reader inverts the writer, and the compact
    writer emits no line break (strings have theirs escaped). *)
Class StatusCodecLaws `{StatusCodec} := {
  decode_encode s : decode_status (encode_status s) = Ok s;
  encode_one_line s : "010"%char ∉ encode_status s;
}.

Section reader.
Context `{StatusCodec}.

(** The line [write_status] puts on the pipe. *)
Definition status_line (s : SupervisorStatus) : list ascii := encode_status s ++ ["010"%char].

(** The first line of the buffer, without its end, and what follows. *)
Definition take_line (buffer : list ascii) : option (list ascii * list ascii) :=
  match list_find (λ b, b = "010"%char) buffer with
  | Some (i, _) => Some (take i buffer, drop (S i) buffer)
  | None => None
  end.

(** What one [read] of the nonblocking pipe returns; [Chunk []] is the end. *)
Inductive pipe_read := Chunk (data : list ascii) | ReadFailed (e : io_error).

(** The state of a reader is its buffer and the results the next reads will have;
    when these run out the pipe has nothing more yet. *)
Record StatusReader := mkStatusReader { sr_buffer : list ascii; sr_reads : list pipe_read }.

Fixpoint read_status (buffer : list ascii) (reads : list pipe_read) :
    StatusReader * result io_error (option SupervisorStatus) :=
  match take_line buffer with
  | Some (line, rest) => (mkStatusReader rest reads, Some <$> decode_status line)
  | None =>
      if Nat.leb MAX_STATUS_BYTES (length buffer)
      then (mkStatusReader buffer reads,
            Err (IoError InvalidData "service supervisor status exceeded its bound"))
      else
        match reads with
        | [] => (mkStatusReader buffer [], Ok None)
        | ReadFailed e :: reads =>
            (mkStatusReader buffer reads,
             if bool_decide (io_error_kind e = WouldBlock) then Ok None else Err e)
        | Chunk [] :: reads =>
            (mkStatusReader buffer reads, Err (IoError UnexpectedEof "service supervisor status closed"))
        | Chunk data :: reads => read_status (buffer ++ data) reads
        end
  end.

Definition try_read_status (r : StatusReader) :
    StatusReader * result io_error (option SupervisorStatus) :=
  read_status (sr_buffer r) (sr_reads r).
End reader.

(** * Reading back what was written *)

Section round_trip.
Context `{StatusCodecLaws}.

Definition data_of (reads : list pipe_read) : list ascii :=
  reads ≫= λ r, match r with Chunk data => data | ReadFailed _ => [] end.

(** Reads of a pipe that is open: bytes, or none yet. *)
Definition healthy (r : pipe_read) : Prop :=
  match r with
  | Chunk data => data ≠ []
  | ReadFailed e => io_error_kind e = WouldBlock
  end.

(** [try_read_status] called again while there is no status: what
    [wait_initial_status] and the monitor's loop do, their sleeps left out. *)
Fixpoint next_status (polls : nat) (r : StatusReader) :
    StatusReader * result io_error (option SupervisorStatus) :=
  match polls with
  | O => (r, Ok None)
  | S polls =>
      match try_read_status r with
      | (r, Ok None) => next_status polls r
      | outcome => outcome
      end
  end.

(** The statuses read one after the other, up to the first failure. *)
Fixpoint receive (n polls : nat) (r : StatusReader) : list SupervisorStatus * option io_error :=
  match n with
  | O => ([], None)
  | S n =>
      match next_status polls r with
      | (r, Ok (Some s)) => let '(ss, e) := receive n polls r in (s :: ss, e)
      | (_, Ok None) => ([], None)
      | (_, Err e) => ([], Some e)
      end
  end.

Lemma take_line_spec buffer more line rest :
  buffer ++ more = line ++ "010"%char :: rest → "010"%char ∉ line →
  (∃ rest', take_line buffer = Some (line, rest') ∧ rest' ++ more = rest) ∨
  (take_line buffer = None ∧ (length buffer ≤ length line)%nat).
Proof.
  intros Heq Hl. unfold take_line. destruct (list_find _ buffer) as [[i c]|] eqn:Ef.
  - left. apply list_find_Some in Ef as (Hi & -> & Hfirst).
    assert (i = length line) as ->.
    { destruct (Nat.lt_trichotomy i (length line)) as [Hlt|[?|Hgt]]; [|done|].
      - apply (lookup_app_l_Some _ more) in Hi. rewrite Heq, lookup_app_l in Hi by done.
        by apply list_elem_of_lookup_2 in Hi.
      - assert (buffer !! length line = Some "010"%char) as Hn.
        { assert (length line < length buffer)%nat.
          { apply lookup_lt_Some in Hi. lia. }
          rewrite <-(lookup_app_l _ more), Heq by done. by apply list_lookup_middle. }
        exfalso. by apply (Hfirst _ _ Hn). }
    assert (length line < length buffer)%nat by (by apply lookup_lt_Some in Hi).
    exists (drop (S (length line)) buffer). split.
    + f_equal. f_equal. apply (f_equal (take (length line))) in Heq.
      by rewrite take_app_le, take_app_length in Heq by lia.
    + apply (f_equal (drop (S (length line)))) in Heq.
      rewrite drop_app_le in Heq by lia.
      by rewrite cons_middle, (assoc (++)), drop_app_length' in Heq by (rewrite length_app; cbn; lia).
  - right. split; [done|]. apply list_find_None in Ef.
    destruct (decide (length buffer ≤ length line)%nat) as [|Hgt]; [done|exfalso].
    assert (buffer !! length line = Some "010"%char) as Hn.
    { rewrite <-(lookup_app_l _ more), Heq by lia. by apply list_lookup_middle. }
    rewrite Forall_lookup in Ef. by apply (Ef _ _ Hn).
Qed.

(** Reads that follow: [tail] is left for later. *)
Lemma read_status_spec reads tail buffer s rest :
  Forall healthy reads → (length (encode_status s) < MAX_STATUS_BYTES)%nat →
  buffer ++ data_of reads = status_line s ++ rest →
  ∃ buffer' reads' o, read_status buffer (reads ++ tail) = (mkStatusReader buffer' (reads' ++ tail), Ok o) ∧
    Forall healthy reads' ∧ (length reads' ≤ length reads)%nat ∧
    match o with
    | Some s' => s' = s ∧ buffer' ++ data_of reads' = rest
    | None => buffer' ++ data_of reads' = status_line s ++ rest ∧ (length reads' < length reads)%nat
    end.
Proof.
  intros Hh Hlen. revert buffer. induction Hh as [|x reads Hx Hh IH]; intros buffer Heq;
    pose proof Heq as Hline; unfold status_line in Hline; rewrite <-(assoc (++)) in Hline; cbn in Hline;
    (apply take_line_spec in Hline as [(rest' & Hline & Hrest)|[Hline Hle]]; [|..|apply encode_one_line]).
  - exists rest', [], (Some s). destruct tail; cbn [app read_status]; rewrite Hline, decode_encode; auto.
  - exfalso. cbn in Heq. rewrite app_nil_r in Heq. subst buffer.
    unfold status_line in Hle. rewrite !length_app in Hle. cbn in Hle. lia.
  - exists rest', (x :: reads), (Some s). cbn [app read_status]. rewrite Hline, decode_encode. auto.
  - cbn [app read_status]. rewrite Hline.
    destruct (Nat.leb_spec MAX_STATUS_BYTES (length buffer)); [lia|].
    destruct x as [[|b data]|e]; [done| |].
    + destruct (IH (buffer ++ b :: data)) as (b' & r' & o & -> & Hh' & Hl' & Ho).
      { by rewrite <-(assoc (++)). }
      exists b', r', o. cbn [length]. destruct o; intuition lia.
    + exists buffer, reads, None. rewrite bool_decide_true by done. cbn [length]. auto with lia.
Qed.

Lemma next_status_spec polls reads tail buffer s rest :
  Forall healthy reads → (length (encode_status s) < MAX_STATUS_BYTES)%nat →
  buffer ++ data_of reads = status_line s ++ rest → (length reads < polls)%nat →
  ∃ buffer' reads', next_status polls (mkStatusReader buffer (reads ++ tail)) =
      (mkStatusReader buffer' (reads' ++ tail), Ok (Some s)) ∧
    Forall healthy reads' ∧ (length reads' ≤ length reads)%nat ∧ buffer' ++ data_of reads' = rest.
Proof.
  revert buffer reads. induction polls as [|polls IH]; intros buffer reads Hh Hlen Heq Hp; [lia|].
  destruct (read_status_spec reads tail buffer s rest) as (b & rs & o & Hr & Hh' & Hle & Ho); [done..|].
  cbn [next_status]. unfold try_read_status. cbn [sr_buffer sr_reads]. rewrite Hr.
  destruct o as [s'|]; [destruct Ho as [-> ?]; eauto 10|]. destruct Ho as [Heq' Hlt].
  destruct (IH b rs) as (b2 & rs2 & ? & ? & ? & ?); [done..|lia|]. exists b2, rs2. eauto with lia.
Qed.

(** An unfinished line and then the end of the pipe. *)
Lemma next_status_closed polls reads buffer :
  Forall healthy reads → "010"%char ∉ buffer ++ data_of reads →
  (length (buffer ++ data_of reads) < MAX_STATUS_BYTES)%nat → (length reads < polls)%nat →
  (next_status polls (mkStatusReader buffer (reads ++ [Chunk []]))).2 =
    Err (IoError UnexpectedEof "service supervisor status closed").
Proof.
  revert buffer polls. induction reads as [|x reads IH]; intros buffer polls Hh Hn Hlen Hp;
    (destruct polls as [|polls]; [cbn in Hp; lia|]).
  all: assert (take_line buffer = None) as Hline
    by (unfold take_line; destruct (list_find _ buffer) as [[i c]|] eqn:Ef; [|done];
        apply list_find_Some in Ef as (Hi%list_elem_of_lookup_2 & -> & _); set_solver).
  all: assert (length buffer < MAX_STATUS_BYTES)%nat as Hlen' by (rewrite length_app in Hlen; lia).
  all: cbn [next_status]; unfold try_read_status; cbn [sr_buffer sr_reads app read_status]; rewrite Hline;
    destruct (Nat.leb_spec MAX_STATUS_BYTES (length buffer)); [lia|].
  - done.
  - apply Forall_cons_1 in Hh as [Hx Hh]. destruct x as [[|b data]|e]; [done| |].
    + specialize (IH (buffer ++ b :: data) (S polls)). rewrite <-(assoc (++)) in IH.
      specialize (IH Hh Hn Hlen ltac:(cbn in Hp; lia)). exact IH.
    + rewrite bool_decide_true by done. apply (IH buffer polls); [done..|cbn in Hp; lia].
Qed.

Lemma receive_spec ss reads tail buffer polls partial :
  Forall (λ s, length (encode_status s) < MAX_STATUS_BYTES)%nat ss → Forall healthy reads →
  buffer ++ data_of reads = (ss ≫= status_line) ++ partial → (length reads < polls)%nat →
  ∃ buffer' reads', Forall healthy reads' ∧ (length reads' < polls)%nat ∧
    buffer' ++ data_of reads' = partial ∧
    ∀ n, receive (length ss + n) polls (mkStatusReader buffer (reads ++ tail)) =
      let '(ss', e) := receive n polls (mkStatusReader buffer' (reads' ++ tail)) in (ss ++ ss', e).
Proof.
  intros Hlen. revert reads buffer. induction Hlen as [|s ss Hs _ IH]; intros reads buffer Hh Heq Hp.
  - exists buffer, reads. split_and!; [done..|]. intros n. cbn. by destruct (receive _ _ _).
  - cbn in Heq. rewrite <-(assoc (++)) in Heq.
    destruct (next_status_spec polls reads tail buffer s _ Hh Hs Heq Hp) as (b & rs & Hr & Hh' & Hle & Heq').
    destruct (IH rs b) as (b2 & rs2 & ? & ? & ? & Hrec); [done..|lia|].
    exists b2, rs2. split_and!; [done..|]. intros n. cbn [length Nat.add receive]. rewrite Hr, Hrec.
    by destruct (receive n _ _).
Qed.
End round_trip.

(** The statuses a supervisor writes are the statuses the daemon reads, in
    order, however the pipe cuts the bytes into reads and however often it has none
    yet, as long as every encoded status is shorter than [MAX_STATUS_BYTES]; and a
    supervisor that dies in the middle of a status is reported as a closed pipe,
    never as a status. *)
Theorem statuses_round_trip `{StatusCodecLaws} ss reads polls partial :
  Forall (λ s, length (encode_status s) < MAX_STATUS_BYTES)%nat ss → Forall healthy reads →
  data_of reads = (ss ≫= status_line) ++ partial →
  "010"%char ∉ partial → (length partial < MAX_STATUS_BYTES)%nat → (length reads + 1 < polls)%nat →
  receive (length ss) polls (mkStatusReader [] reads) = (ss, None) ∧
  receive (S (length ss)) polls (mkStatusReader [] (reads ++ [Chunk []])) =
    (ss, Some (IoError UnexpectedEof "service supervisor status closed")).
Proof.
  intros Hlen Hh Heq Hn Hp Hpolls.
  split.
  - destruct (receive_spec ss reads [] [] polls partial) as (b & rs & _ & _ & _ & Hr); [done..|lia|].
    specialize (Hr 0%nat). rewrite Nat.add_0_r, !app_nil_r in Hr. rewrite Hr. cbn. by rewrite app_nil_r.
  - destruct (receive_spec ss reads [Chunk []] [] polls partial) as (b & rs & Hh' & Hl & He & Hr);
      [done..|lia|].
    replace (S (length ss)) with (length ss + 1)%nat by lia. rewrite Hr. cbn [receive].
    pose proof (next_status_closed polls rs b) as Hc. rewrite He in Hc.
    destruct (next_status _ _) as [r o]. cbn in Hc. rewrite Hc by done. by rewrite app_nil_r.
Qed.
