(* ===== verification/ServiceProcess.v ===== *)
(** Stopping the process group of a service ([src/src/services.rs]): what the
    supervisor does to the service and the daemon to the supervisor. *)
From Stdlib Require Import Ascii.
From stdpp Require Import base option strings numbers list relations.
From S2P Require Import Prelude Effects Process ProcessFacts.

Local Open Scope N_scope.

Definition POLL_INTERVAL : N := ms 10.
Definition PROCESS_KILL_GRACE : N := secs 5.

(** Which child of the group a [waitpid] finds: an adopted one, or another, or,
    when neither is there, whether the caller has any child in the group. *)
Inductive wait_pick := PickOrphan | PickOther (children : bool).

Section processes.
Context {X : Type} (orc : nat → move X) (picks : nat → wait_pick) (kill_delay : option N).

Abbreviation io := (eff (Machine X)).
Abbreviation instant_now := (instant_now orc kill_delay).
Abbreviation thread_sleep := (thread_sleep orc kill_delay).
Abbreviation advance := (advance orc kill_delay).
Abbreviation try_wait := (try_wait orc kill_delay).
Abbreviation process_group_exists := (process_group_exists orc kill_delay).
Abbreviation signal_group := (signal_group orc kill_delay).

(** * Waiting for adopted children *)

(** [waitpid(-pgid, WNOHANG)]: whether a child of the group was reaped; [None] is
    [ECHILD].  It reaps the service itself like any other child. *)
Definition waitpid_group : io (halt io_error) (option bool) := λ m,
  let fault := mv_fault (orc (m_tick m)) in
  let pick := picks (m_tick m) in
  let m := advance 0 m in
  let g := m_group m in
  match fault with
  | Some _ => (m, Err (Raised (IoError OtherKind "waitpid")))
  | None =>
      match pick, gr_zombies g, gr_leader g with
      | PickOrphan, S n, _ => (set_group (Group (gr_leader g) (gr_live g) n) m, Ok (Some true))
      | _, _, Zombie _ => (set_group (Group Stolen (gr_live g) (gr_zombies g)) m, Ok (Some true))
      | _, _, Running => (m, Ok (Some false))
      | PickOther true, _, _ => (m, Ok (if gone g then None else Some false))
      | _, _, _ => (m, Ok None)
      end
  end.

Definition reap_turns (deadline : N) (fuel : nat) : io (halt io_error) unit :=
  poll fuel (λ _ : unit,
    now ← instant_now;
    if deadline <=? now then mret (inr tt)
    else
      reaped ← waitpid_group;
      match reaped with
      | Some true => mret (inl tt)
      | Some false | None => mret (inr tt)
      end) tt.

(** More turns than the group has members: each turn but the last reaps one, and a
    group sent [SIGKILL] gets no new ones. *)
Definition reap_adopted_children : io (halt io_error) unit :=
  now ← instant_now;
  (λ m, reap_turns (now + ms 50) (S (group_size (m_group m))) m) : io (halt io_error) unit.

(** * Stopping the service's group *)

(** [while Instant::now() < deadline { .. }]: whether the group disappeared. *)
Definition await_end (timeout : N) (wait : bool) : io (halt io_error) bool :=
  start ← instant_now;
  poll (polls timeout (ms 25)) (λ _ : unit,
    now ← instant_now;
    if start + timeout <=? now then mret (inr false)
    else
      _ ← (if wait then _ ← try_wait; mret tt else mret tt);
      alive ← process_group_exists;
      if negb alive then
        _ ← (if wait then _ ← try_wait; mret tt else mret tt);
        mret (inr true)
      else _ ← thread_sleep (ms 25); mret (inl tt)) tt.

(** The loop after [SIGKILL]. *)
Definition await_killed (wait reap : bool) (survived : string) : io (halt io_error) unit :=
  start ← instant_now;
  poll (polls PROCESS_KILL_GRACE (ms 25)) (λ _ : unit,
    _ ← (if wait then _ ← try_wait; mret tt else mret tt);
    _ ← (if reap then reap_adopted_children else mret tt);
    alive ← process_group_exists;
    if negb alive then mret (inr tt)
    else
      now ← instant_now;
      if start + PROCESS_KILL_GRACE <=? now then io_fail (Raised (IoError TimedOut survived))
      else _ ← thread_sleep (ms 25); mret (inl tt)) tt.

Definition stop_service_child (shutdown_timeout_sec : N) : io (halt io_error) unit :=
  _ ← signal_group SIGTERM;
  ended ← await_end (secs shutdown_timeout_sec) true;
  if ended : bool then mret tt
  else
    _ ← signal_group SIGKILL;
    await_killed true true "service process group survived bounded SIGKILL cleanup".

Definition terminate_service_group_with_reaping (shutdown_timeout_sec : N) (reap_adopted : bool) :
    io (halt io_error) unit :=
  alive ← process_group_exists;
  if negb alive then mret tt
  else
    _ ← signal_group SIGTERM;
    ended ← await_end (secs shutdown_timeout_sec) false;
    if ended : bool then mret tt
    else
      _ ← signal_group SIGKILL;
      await_killed false reap_adopted "service descendants survived bounded SIGKILL cleanup".

Definition terminate_service_group (shutdown_timeout_sec : N) : io (halt io_error) unit :=
  terminate_service_group_with_reaping shutdown_timeout_sec true.

(** The daemon is no parent of the service and leaves the waiting to others. *)
Definition terminate_recorded_service_group (shutdown_timeout_sec : N) : io (halt io_error) unit :=
  terminate_service_group_with_reaping shutdown_timeout_sec false.

Definition wait_child_bounded (timeout : N) : io (halt io_error) bool :=
  start ← instant_now;
  poll (polls timeout (ms 25)) (λ _ : unit,
    status ← try_wait;
    if is_some status then mret (inr true)
    else
      now ← instant_now;
      if start + timeout <=? now then mret (inr false)
      else _ ← thread_sleep (ms 25); mret (inl tt)) tt.

(** * Stopping a single process *)

Definition i32_max : N := 2147483647.

Definition signal_process (pid : N) (s : signal) : io (halt io_error) unit := λ m,
  if i32_max <? pid then (m, Err (Raised (IoError InvalidInput "process ID out of range")))
  else
    let '(m, r) := kill orc kill_delay s m in
    (m, match r with
        | Ok _ | Err ESRCH => Ok tt
        | Err _ => Err (Raised (IoError OtherKind "kill"))
        end).

(** Whether the supervisor, which is the machine's child here, was reaped. *)
Definition stop_supervisor_process (pid expected : N) : io (halt io_error) bool :=
  reaped ← wait_child_bounded expected;
  if reaped : bool then mret true
  else
    _ ← signal_process pid SIGTERM;
    reaped ← wait_child_bounded PROCESS_KILL_GRACE;
    if reaped : bool then mret true
    else
      _ ← signal_process pid SIGKILL;
      wait_child_bounded PROCESS_KILL_GRACE.

(** * The loops end, and end with the group gone *)

Abbreviation later := (later orc).
Abbreviation settles := (settles orc).

(** * Reaping *)

Lemma orphan_later n m m' :
  gr_zombies (m_group m') = S n → later m m' →
  later m (set_group (Group (gr_leader (m_group m')) (gr_live (m_group m')) n) m').
Proof.
  intros Hz [H1 H2 H3 H4 H5]. split; cbn; [done..| |].
  - intros Hg%H4. apply gone_spec in Hg as (_ & _ & Hz'). congruence.
  - intros [[Hd|Hg] Hs]%H5.
    + split; [by left|]. unfold group_size in *. cbn. lia.
    + apply gone_spec in Hg as (_ & _ & Hz'). congruence.
Qed.

Lemma wp_waitpid m Q :
  (∀ m' e, later m m' → Q m' (Err (Raised e))) →
  (∀ m' r, later m m' →
     (r = Some true → doomed m → (group_size (m_group m') < group_size (m_group m))%nat) → Q m' (Ok r)) →
  wp (waitpid_group) m Q.
Proof.
  intros He Ho. unfold wp, waitpid_group. pose proof (advance_later orc kill_delay 0 m) as Hl.
  set (m1 := advance 0 m) in *. clearbody m1.
  destruct (mv_fault _); [by apply He|].
  assert (∀ m2, later m m2 → (group_size (m_group m2) < group_size (m_group m1))%nat →
            Q m2 (Ok (Some true))) as Hreap.
  { intros m2 Hm2 Hs. apply Ho; [done|]. intros _ Hd. apply (later_doomed _ _ _ Hl) in Hd as [_ ?]. lia. }
  assert (∀ b, b = true → gr_leader (m_group m1) ≠ Running → ∀ s, gr_leader (m_group m1) = Zombie s →
     Q (set_group (Group Stolen (gr_live (m_group m1)) (gr_zombies (m_group m1))) m1) (Ok (Some b))) as Hsteal.
  { intros b -> _ s E. apply Hreap; [by apply (reap_later orc Stolen s)|].
    unfold group_size. cbn. rewrite E. lia. }
  destruct (picks _) as [|[]], (gr_zombies (m_group m1)) as [|n] eqn:Ez,
    (gr_leader (m_group m1)) as [|s|s|] eqn:El; cbn;
    try (by apply Ho; [|destruct (gone _)]); try (by apply Ho); try (by eapply Hsteal).
  all: rewrite <-El; apply Hreap; [by apply orphan_later|unfold group_size; cbn; rewrite Ez; lia].
Qed.

Lemma reap_turns_spec deadline fuel m :
  doomed m → (group_size (m_group m) < fuel)%nat →
  wp (reap_turns deadline fuel) m (settles m (λ _ _, True)).
Proof.
  unfold reap_turns. revert m. induction fuel as [|fuel IH]; intros m Hd Hs; [lia|]. cbn [poll].
  apply wp_bind, wp_bind, wp_now. intros m1 Hm1. pose proof (later_doomed _ _ _ Hm1 Hd) as [Hd1 Hs1].
  destruct (deadline <=? m_now m1); [by split|].
  apply wp_bind, wp_waitpid; [intros m2 e Hm2; split; [by trans m1|done]|].
  intros m2 r Hm2 Hr. assert (later m m2) by (by trans m1).
  destruct r as [[]|]; [|by split..]. apply wp_ret. eapply wp_mono.
  - apply IH; [by apply (later_doomed _ _ _ Hm2)|]. specialize (Hr eq_refl Hd1). lia.
  - intros m3 r3. by apply settled_trans.
Qed.

Lemma reap_adopted_spec m :
  doomed m → wp (reap_adopted_children) m (settles m (λ _ _, True)).
Proof.
  intros Hd. unfold reap_adopted_children. apply wp_bind, wp_now. intros m1 Hm1.
  pose proof (later_doomed _ _ _ Hm1 Hd) as [Hd1 _].
  eapply wp_mono; [apply (reap_turns_spec _ _ m1 Hd1); lia|].
  intros m2 r. by apply settled_trans.
Qed.

(** * Stopping *)


Lemma wait_settles (b : bool) m :
  wp (if b then _ ← try_wait; mret tt else mret tt) m (settles m (λ _ _, True)).
Proof.
  destruct b; [|by apply wp_settles_ret]. apply wp_bind, wp_try_wait; by split.
Qed.

Lemma await_end_spec timeout wait m :
  wp (await_end timeout wait) m (settles m (λ m' ended, ended = true → gone (m_group m') = true)).
Proof.
  unfold await_end. apply wp_bind, wp_now. intros m0 Hm0.
  apply (wp_poll_timeout _ _ (m_now m0) (λ m1 _, later m m1 ∧ m_now m0 ≤ m_now m1)); [done..|].
  intros [] m1 [Hm1 Ht1]. apply wp_bind, wp_now. intros m2 Hm2. pose proof (later_time _ _ _ Hm2).
  destruct (N.leb_spec (m_now m0 + timeout) (m_now m2)).
  { apply wp_ret. split; [by etrans|done]. }
  assert (later m m2) as Hm by (by etrans).
  apply wp_bind. eapply wp_mono; [apply wait_settles|].
  intros m3 [[]|[]] [Hm3 Hr]; [|by split; [etrans|]|done]. pose proof (later_time _ _ _ Hm3).
  assert (later m m3) as Hm' by (by etrans).
  apply wp_bind, wp_exists; cbn [negb].
  - intros m4 e Hm4. split; [by etrans|done].
  - intros m4 Hm4. apply wp_bind, wp_sleep. intros m5 Hm5 Ht5. apply wp_ret.
    pose proof (later_time _ _ _ Hm4). split_and!; [by do 2 (etrans; [done|])|lia..].
  - intros m4 Hm4 Hg _. assert (later m m4) as Hm'' by (by etrans).
    apply wp_bind. eapply wp_mono; [apply wait_settles|].
    intros m5 [[]|[]] [Hm5 Hr5]; [|by split; [etrans|]|done]. apply wp_ret. split; [by etrans|].
    intros _. by apply (later_gone _ _ _ Hm5).
Qed.

Lemma await_killed_spec wait reap message m :
  doomed m →
  wp (await_killed wait reap message) m (settles m (λ m' _, gone (m_group m') = true)).
Proof.
  intros Hd. unfold await_killed. apply wp_bind, wp_now. intros m0 Hm0.
  apply (wp_poll_timeout _ _ (m_now m0) (λ m1 _, later m m1 ∧ m_now m0 ≤ m_now m1)); [done..|].
  intros [] m1 [Hm1 Ht1]. apply wp_bind. eapply wp_mono; [apply wait_settles|].
  intros m2 [[]|[]] [Hm2 Hr2]; [|by split; [etrans|]|done]. assert (later m m2) as Hm by (by etrans).
  apply wp_bind. apply (wp_mono _ _ (settles m2 (λ _ _, True))).
  { destruct reap; [|by apply wp_settles_ret]. apply reap_adopted_spec. by apply (later_doomed _ _ _ Hm). }
  intros m3 [[]|[]] [Hm3 Hr3]; [|by split; [etrans|]|done]. assert (later m m3) as Hm' by (by etrans).
  pose proof (later_time _ _ _ Hm2). pose proof (later_time _ _ _ Hm3).
  apply wp_bind, wp_exists; cbn [negb].
  - intros m4 e Hm4. split; [by etrans|done].
  - intros m4 Hm4. apply wp_bind, wp_now. intros m5 Hm5.
    pose proof (later_time _ _ _ Hm4). pose proof (later_time _ _ _ Hm5).
    assert (later m m5) as Hm'' by (by do 2 (etrans; [done|])).
    destruct (N.leb_spec (m_now m0 + PROCESS_KILL_GRACE) (m_now m5)); [by apply wp_fail|].
    apply wp_bind, wp_sleep. intros m6 Hm6 Ht6. apply wp_ret. split_and!; [by etrans|lia..].
  - intros m4 Hm4 Hg _. apply wp_ret. split; [by etrans|done].
Qed.

Lemma wp_kill_group m :
  wp (signal_group SIGKILL) m (settles m (λ m' _, doomed m')).
Proof.
  unfold wp, signal_group, killpg. pose proof (advance_later orc kill_delay 0 m) as Hl.
  destruct (gone _) eqn:Eg; cbn; [by split; [|right]|].
  destruct (mv_fault _) as [[]|]; cbn; [by split..|].
  split; [by apply record_signal_later|]. left. cbn. by destruct (m_killed _).
Qed.

Lemma signal_settles s m : wp (signal_group s) m (settles m (λ _ _, True)).
Proof. apply wp_signal_group. intros m' [|[]] ??; by split. Qed.

(** [SIGTERM], the service's own time, [SIGKILL]. *)
Lemma stop_phases_spec timeout wait reap message m :
  wp (_ ← signal_group SIGTERM;
      ended ← await_end timeout wait;
      if ended : bool then mret tt
      else _ ← signal_group SIGKILL; await_killed wait reap message) m
     (settles m (λ m' _, gone (m_group m') = true)).
Proof.
  eapply wp_settles_bind; [apply signal_settles|]. intros m1 _ _ _.
  eapply wp_settles_bind; [apply await_end_spec|]. intros m2 [] _ Hg; [apply wp_settles_ret; auto|].
  eapply wp_settles_bind; [apply wp_kill_group|]. intros m3 [] _ Hd. by apply await_killed_spec.
Qed.

Lemma stop_service_child_spec t m :
  wp (stop_service_child t) m (settles m (λ m' _, gone (m_group m') = true)).
Proof. apply stop_phases_spec. Qed.

Lemma terminate_with_reaping_spec t reap m :
  wp (terminate_service_group_with_reaping t reap) m (settles m (λ m' _, gone (m_group m') = true)).
Proof.
  unfold terminate_service_group_with_reaping.
  eapply (wp_settles_bind _ _ _ _ (λ m' alive, alive = false → gone (m_group m') = true)).
  { apply wp_exists; by split. }
  intros m1 [] _ Hg; cbn [negb]; [|apply wp_settles_ret; auto]. apply stop_phases_spec.
Qed.

Lemma wait_child_bounded_spec timeout m :
  wp (wait_child_bounded timeout) m
    (settles m (λ m' reaped, reaped = true → ∃ s, gr_leader (m_group m') = Reaped s)).
Proof.
  unfold wait_child_bounded. apply wp_bind, wp_now. intros m0 Hm0.
  apply (wp_poll_timeout _ _ (m_now m0) (λ m1 _, later m m1 ∧ m_now m0 ≤ m_now m1)); [done..|].
  intros [] m1 [Hm1 Ht1]. apply wp_bind, wp_try_wait; cbn [is_some].
  - intros m2 e Hm2. split; [by etrans|done].
  - intros m2 s Hm2 Hs. apply wp_ret. split; [by etrans|]. eauto.
  - intros m2 Hm2 _. apply wp_bind, wp_now. intros m3 Hm3.
    pose proof (later_time _ _ _ Hm2). pose proof (later_time _ _ _ Hm3).
    assert (later m m3) as Hm by (by do 2 (etrans; [done|])).
    destruct (N.leb_spec (m_now m0 + timeout) (m_now m3)); [by apply wp_ret; split|].
    apply wp_bind, wp_sleep. intros m4 Hm4 Ht4. apply wp_ret. split_and!; [by etrans|lia..].
Qed.

Lemma signal_process_settles pid s m : wp (signal_process pid s) m (settles m (λ _ _, True)).
Proof.
  unfold wp, signal_process. destruct (i32_max <? pid); [by split|].
  pose proof (kill_later orc kill_delay s m) as Hl. destruct (kill _ _ _ _) as [m' r].
  split; [done|]. by destruct r as [|[]].
Qed.

Lemma stop_supervisor_process_spec pid expected m :
  wp (stop_supervisor_process pid expected) m
    (settles m (λ m' reaped, reaped = true → ∃ s, gr_leader (m_group m') = Reaped s)).
Proof.
  unfold stop_supervisor_process.
  eapply wp_settles_bind; [apply wait_child_bounded_spec|]. intros m1 [] _ Hr; [by apply wp_settles_ret|].
  eapply wp_settles_bind; [apply signal_process_settles|]. intros m2 _ _ _.
  eapply wp_settles_bind; [apply wait_child_bounded_spec|]. intros m3 [] _ Hr3; [by apply wp_settles_ret|].
  eapply wp_settles_bind; [apply signal_process_settles|]. intros m4 _ _ _. apply wait_child_bounded_spec.
Qed.
End processes.
