(* ===== verification/Supervisor.v ===== *)
(** The supervisor of one service ([src/src/services.rs]): a process of its own
    that starts the service, adopts the descendants the service leaves behind, and
    stops the whole process group when the service exits, when the daemon closes
    the control pipe or when anything goes wrong. *)
From Stdlib Require Import Ascii.
From stdpp Require Import base option strings numbers list gmap pretty.
From S2P Require Import Prelude Effects RustStr Accounts Archive Config RunAs Process Output ServiceStatus ServiceProcess.

Local Open Scope N_scope.

Definition READY_MESSAGE : string := "ready" +:+ String "010" "".

Inductive OwnedExecution :=
| OwnedScript (script : string)
| OwnedExecutable (path : string) (args : list string).

Record SupervisorSpec := {
  ss_execution : OwnedExecution;
  ss_cwd : string;
  ss_environment : list (string * string);
  ss_username : string;
  ss_home_dir : string;
  ss_uid : N;
  ss_gid : N;
  ss_set_ids : bool;
  ss_shutdown_timeout_sec : N;
  ss_readiness_fd : Z;
}.

(** A status the supervisor set out to write: how many bytes of the line went out,
    and the service's process group at that moment. *)
Record status_write := StatusWrite {
  sw_status : SupervisorStatus;
  sw_bytes : nat;
  sw_group : group;
}.

(** What the supervisor shares with the rest of the machine: whether the daemon
    has closed (or written to) the control pipe, the status pipe, and the programs
    started. *)
Record SupState := mkSup {
  su_stop : bool;
  su_writes : list status_write;
  su_images : list image;
}.

Definition push_write (w : status_write) (x : SupState) : SupState :=
  mkSup (su_stop x) (su_writes x ++ [w]) (su_images x).
Definition start_image (i : image) (x : SupState) : SupState :=
  mkSup (su_stop x) (su_writes x) (su_images x ++ [i]).

(** What happens around one of the supervisor's calls.  The supervisor has one
    thread; only the daemon's end of the control pipe changes under it.
    [vm_wait] decides which child a [waitpid] on the group finds. *)
Record sup_move := SupMove {
  vm_time : N;
  vm_events : list proc_event;
  vm_stop : bool;
  vm_fault : option kill_fault;
  vm_written : nat;
  vm_wait : wait_pick;
}.

Definition sup_threads (stop : bool) (x : SupState) : SupState :=
  mkSup (su_stop x || stop) (su_writes x) (su_images x).

Definition sup_move_of (v : sup_move) : move SupState :=
  mkMove (vm_time v) (vm_events v) (λ _ _ x, (sup_threads (vm_stop v) x, false)) (vm_fault v).

Section supervisor.
Context `{StatusCodec}.
Context (orc : nat → sup_move) (pre_faults : nat → pre_exec_call → option io_error).
(** The supervisor is the subreaper of the group: nobody else waits for the
    processes [SIGKILL] leaves behind. *)
Abbreviation kill_delay := (@None N).
(** The supervisor's credentials, which are the daemon's, and the group database. *)
Context (daemon : cred) (group_list : string → N → list N).

Abbreviation moves := (λ k, sup_move_of (orc k)).
Abbreviation io := (eff (Machine SupState)).
Abbreviation instant_now := (instant_now moves kill_delay).
Abbreviation thread_sleep := (thread_sleep moves kill_delay).
Abbreviation advance := (advance moves kill_delay).
Abbreviation try_wait := (try_wait moves kill_delay).
Abbreviation process_group_exists := (process_group_exists moves kill_delay).
Abbreviation picks := (λ k, vm_wait (orc k)).
Abbreviation stop_service_child := (stop_service_child moves picks kill_delay).
Abbreviation terminate_service_group := (terminate_service_group moves picks kill_delay).
Abbreviation wait_child_bounded := (wait_child_bounded moves kill_delay).


(** * The supervisor *)

(** A system call that only succeeds or fails. *)
Definition sys (name : string) : io (halt io_error) unit := λ m,
  let fault := vm_fault (orc (m_tick m)) in
  (advance 0 m, match fault with
                | None => Ok tt
                | Some _ => Err (Raised (IoError OtherKind name))
                end).

(** The line, or part of it when the pipe breaks. *)
Definition write_status (s : SupervisorStatus) : io (halt io_error) unit := λ m,
  let v := orc (m_tick m) in
  let m := advance 0 m in
  let written n := set_shared (push_write (StatusWrite s n (m_group m)) (m_shared m)) m in
  match vm_fault v with
  | None => (written (length (status_line s)), Ok tt)
  | Some _ => (written (Nat.min (vm_written v) (length (encode_status s))),
               Err (Raised (IoError Prelude.BrokenPipe "broken pipe")))
  end.

(** A [read] of one byte from the nonblocking control pipe: whether it returned,
    at the end of the pipe or with a byte, or would have blocked. *)
Definition read_control : io (halt io_error) bool := λ m,
  let fault := vm_fault (orc (m_tick m)) in
  let m := advance 0 m in
  (m, match fault with
      | Some _ => Err (Raised (IoError OtherKind "read"))
      | None => Ok (su_stop (m_shared m))
      end).

Definition spawn_service_command (program : string) (args : list string) (cwd : string)
    (env : gmap string string) (run_as : RunAs) : io (halt io_error) unit := λ m,
  let tick := m_tick m in
  let m := advance 0 m in
  match vm_fault (orc tick) with
  | Some _ => (m, Err (Raised (IoError OtherKind "spawn")))
  | None =>
      match pre_exec (pre_faults tick) group_list run_as daemon with
      | (child, Ok _) =>
          (mkMachine (m_now m) (m_tick m) (Group Running 0 0) None (m_signals m) (m_cancelled m)
             (start_image (Image program args cwd env false child (m_group m)) (m_shared m)), Ok tt)
      | (_, Err e) => (m, Err (Raised e))
      end
  end.

(** [SupervisedServiceChild::finish]; its destructor then does nothing. *)
Definition finish : io (halt io_error) unit :=
  alive ← process_group_exists;
  _ ← io_reject alive (Raised (IoError OtherKind
        "service process group still exists at supervisor completion"));
  reaped ← wait_child_bounded 0;
  io_reject (negb reaped) (Raised (IoError OtherKind
    "service child was not reaped at supervisor completion")).

(** The destructor of an unfinished [SupervisedServiceChild] stops the service; a
    failure is only logged. *)
Definition guarded (shutdown_timeout_sec : N) {A} (body : io (halt io_error) A) : io (halt io_error) A :=
  r ← io_try body;
  match r with
  | Err (Raised e) => _ ← io_try (stop_service_child shutdown_timeout_sec); io_fail (Raised e)
  | _ => io_lift r
  end.

(** The supervision loop; it runs for as long as the service does. *)
Definition supervise_loop (shutdown_timeout_sec : N) (fuel : nat) : io (halt io_error) unit :=
  poll fuel (λ _ : unit,
    exit ← try_wait;
    match exit with
    | Some exit =>
        _ ← terminate_service_group shutdown_timeout_sec;
        _ ← write_status (StExited (exit_code exit));
        _ ← finish;
        mret (inr tt)
    | None =>
        stop ← read_control;
        if stop : bool then
          _ ← stop_service_child shutdown_timeout_sec;
          _ ← write_status StStopped;
          _ ← finish;
          mret (inr tt)
        else
          _ ← thread_sleep POLL_INTERVAL;
          mret (inl tt)
    end) tt.

Definition owned_command_line (execution : OwnedExecution) : string * list string :=
  match execution with
  | OwnedScript script => (SCRIPT_SHELL, ["-eu"; "-c"; script])
  | OwnedExecutable path args => (path, args)
  end.

(** [Command::env] in order: a later value replaces an earlier one. *)
Definition service_environment (spec : SupervisorSpec) (readiness_fd : Z) : gmap string string :=
  <[SERVICE_READY_FD_ENV := pretty readiness_fd]> (list_to_map (rev (ss_environment spec))).

Definition spec_run_as (spec : SupervisorSpec) : RunAs :=
  {| ra_user := {| ui_username := ss_username spec; ui_uid := ss_uid spec; ui_gid := ss_gid spec;
                   ui_home_dir := ss_home_dir spec |};
     ra_gid := ss_gid spec; ra_set_ids := ss_set_ids spec |}.

(** [u32 as i32]. *)
Definition pid_as_i32 (pid : N) : Z :=
  let z := Z.of_N (pid mod 4294967296) in
  if (z <? 2147483648)%Z then z else (z - 4294967296)%Z.

Definition supervise_service (fuel : nat) (pid : N) (spec : SupervisorSpec) (readiness_fd : Z)
    (inject_post_spawn_error : bool) : io (halt io_error) unit :=
  let run_as := spec_run_as spec in
  let '(program, args) := owned_command_line (ss_execution spec) in
  let env := service_environment spec readiness_fd in
  _ ← io_lift (map_err (halt_map (λ e : BuildError, IoError OtherKind (be_message e)))
                 (configure_command (cr_euid daemon) run_as));
  _ ← spawn_service_command program args (ss_cwd spec) env run_as;
  guarded (ss_shutdown_timeout_sec spec) (
    _ ← write_status (StSpawned pid (pid_as_i32 pid));
    _ ← io_reject inject_post_spawn_error
          (Raised (IoError OtherKind "injected post-spawn supervisor failure"));
    _ ← sys "fcntl";
    supervise_loop (ss_shutdown_timeout_sec spec) fuel).

(** [own_group]: the supervisor already leads its process group; [input]: the
    specification parsed from standard input. *)
Definition run_supervisor (fuel : nat) (pid : N) (own_group : bool)
    (input : result io_error SupervisorSpec) (readiness_fd : Z) : io (halt io_error) unit :=
  _ ← sys "fcntl";
  _ ← sys "fcntl";
  r ← io_try (
    _ ← (if own_group then mret tt else sys "setpgid");
    spec ← io_lift (map_err Raised input);
    _ ← io_reject (negb (Z.eqb (ss_readiness_fd spec) readiness_fd))
          (Raised (IoError InvalidInput "readiness FD mismatch"));
    _ ← sys "prctl";
    supervise_service fuel pid spec readiness_fd false);
  match r with
  | Err (Raised e) => _ ← io_try (write_status (StFailed (io_error_message e))); io_lift r
  | _ => io_lift r
  end.
End supervisor.
