(* ===== verification/SupervisorTheorems.v ===== *)
(** A supervisor reports the end of a service only when nothing of it is left, and
    returns once its control pipe is closed. *)
From Stdlib Require Import Ascii.
From stdpp Require Import base option strings numbers list gmap relations.
From S2P Require Import Prelude Effects RustStr Archive Process ProcessFacts Accounts Config RunAs Output ServiceStatus ServiceProcess Supervisor.

Local Open Scope N_scope.

(** What a status claims about the process group it was written on. *)
Definition truthful (w : status_write) : Prop :=
  match sw_status w with
  | StStopped => gone (sw_group w) = true
  | StExited code =>
      gone (sw_group w) = true ∧ ∃ s, gr_leader (sw_group w) = Reaped s ∧ code = exit_code s
  | StSpawned _ _ | StFailed _ => True
  end.

(** The last status written, in full, is the end of the service. *)
Definition ended_with `{StatusCodec} (x : SupState) : Prop :=
  ∃ ws w, su_writes x = ws ++ [w] ∧ sw_bytes w = length (status_line (sw_status w)) ∧
    match sw_status w with StStopped | StExited _ => True | _ => False end.

Section theorems.
Context `{StatusCodec}.
Context (orc : nat → sup_move) (pre_faults : nat → pre_exec_call → option io_error).
Context (daemon : cred) (group_list : string → N → list N).

Abbreviation moves := (λ k, sup_move_of (orc k)).
Abbreviation later := (later moves).
Abbreviation settles := (settles moves).
Abbreviation machine := (Machine SupState).
Abbreviation kill_delay := (@None N).
Abbreviation picks := (λ k, vm_wait (orc k)).
Abbreviation writes m := (su_writes (m_shared m)).

Lemma later_writes m m' : later m m' → writes m' = writes m.
Proof.
  intros Hl. pose proof (later_drift _ _ _ Hl) as Hd.
  change (su_writes (view_of m').2 = su_writes (view_of m).2).
  induction Hd as [|[[n c] x] v2 v3 (k & e & Hs) _ IH]; [done|]. cbn in Hs. subst. by rewrite IH.
Qed.

(** The service and everything it started are gone, and it was waited for. *)
Definition finished (m : machine) : Prop :=
  gone (m_group m) = true ∧ ∃ s, gr_leader (m_group m) = Reaped s.

Lemma finish_spec m : wp (finish orc) m (settles m (λ m' _, finished m')).
Proof.
  unfold finish. eapply (wp_settles_bind _ _ _ _ (λ m' alive, alive = false → gone (m_group m') = true)).
  { apply wp_exists; by split. }
  intros m1 alive _ Hg. eapply (wp_settles_bind _ _ _ _ (λ m' _, gone (m_group m') = true)).
  { destruct alive; [by apply wp_fail|]. apply wp_settles_ret. auto. }
  intros m2 _ _ Hg2. eapply wp_settles_bind; [apply wait_child_bounded_spec|].
  intros m3 [] Hm3 Hr; [|by apply wp_fail]. apply wp_settles_ret. split; [|auto].
  by apply (later_gone _ _ _ Hm3).
Qed.

(** * Truthful reports *)

(** What was written stays true, and a result satisfies [P]. *)
Definition reports {A} (m : machine) (P : machine → A → Prop) (m' : machine)
    (r : result (halt io_error) A) : Prop :=
  (Forall truthful (writes m) → Forall truthful (writes m')) ∧
  match r with Ok a => P m' a | Err _ => True end.

Lemma settles_reports {A} m (P : machine → A → Prop) m' r : settles m P m' r → reports m P m' r.
Proof.
  intros [Hl HP]. split; [by rewrite (later_writes _ _ Hl)|]. by destruct r.
Qed.

Lemma reports_bind {A B} (c : eff machine (halt io_error) A) (k : A → eff machine (halt io_error) B) m P Q :
  wp c m (reports m P) → (∀ m1 a, P m1 a → wp (k a) m1 (reports m1 Q)) →
  wp (c ≫= k) m (reports m Q).
Proof.
  intros Hc Hk. apply wp_bind. eapply wp_mono; [exact Hc|]. intros m1 [a|e] [Ht HP]; [|by split].
  eapply wp_mono; [by apply Hk|]. intros m2 r [Ht2 HQ]. split; auto.
Qed.

Lemma reports_settled {A B} (c : eff machine (halt io_error) A) (k : A → eff machine (halt io_error) B) m P Q :
  wp c m (settles m P) → (∀ m1 a, later m m1 → P m1 a → wp (k a) m1 (reports m1 Q)) →
  wp (c ≫= k) m (reports m Q).
Proof.
  intros Hc Hk. apply (reports_bind _ _ _ (λ m1 a, later m m1 ∧ P m1 a)).
  - eapply wp_mono; [exact Hc|]. intros m1 r [Hl HP]. apply settles_reports. split; [done|].
    by destruct r as [|[]].
  - intros m1 a []. by apply Hk.
Qed.

Lemma reports_ret {A} m (P : machine → A → Prop) a : P m a → wp (mret a) m (reports m P).
Proof. by split. Qed.
Lemma reports_fail {A} m (P : machine → A → Prop) e : wp (io_fail e) m (reports m P).
Proof. by split. Qed.

Lemma sys_settles name m : wp (sys orc name) m (settles m (λ _ _, True)).
Proof. unfold wp, sys. split; [apply (advance_later moves)|]. by destruct (vm_fault _). Qed.

(** Writing a status that is true while the group stays as it is. *)
Lemma write_status_reports s m :
  (∀ m', later m m' → truthful (StatusWrite s 0 (m_group m'))) →
  wp (write_status orc s) m (reports m (λ m' _,
    (match s with StStopped | StExited _ => True | _ => False end → ended_with (m_shared m')) ∧
    (gone (m_group m) = true → gone (m_group m') = true))).
Proof.
  intros Hs. pose proof (advance_later moves kill_delay 0 m) as Hl. specialize (Hs _ Hl).
  unfold wp, write_status.
  assert (∀ n, Forall truthful (writes m) → Forall truthful (writes (advance moves kill_delay 0 m) ++
            [StatusWrite s n (m_group (advance moves kill_delay 0 m))])) as Ht.
  { intros n Hw. rewrite (later_writes _ _ Hl). apply Forall_app_2; [done|]. constructor; [|done]. exact Hs. }
  destruct (vm_fault _); cbn [fst snd]; [by split; [apply Ht|]|].
  split; [apply Ht|]. split; [|apply (later_gone _ _ _ Hl)].
  intros Hm. eexists _, _. split_and!; [done..|]. by destruct s.
Qed.

(** The end of a supervision: the group is gone; the status is written; the handle
    is checked. *)
Lemma report_end s m :
  gone (m_group m) = true →
  (∀ m', later m m' → truthful (StatusWrite s 0 (m_group m'))) →
  match s with StStopped | StExited _ => True | _ => False end →
  wp (_ ← write_status orc s; _ ← finish orc; mret (inr tt : () + ())) m
    (reports m (λ m' r, r = inr tt → finished m' ∧ ended_with (m_shared m'))).
Proof.
  intros Hg Hs Hend. eapply reports_bind; [by apply write_status_reports|].
  intros m1 _ [He Hg1]. eapply reports_settled; [apply finish_spec|].
  intros m2 [] Hm2 Hf. apply reports_ret. intros _. split; [done|].
  destruct He as (ws & w & Hw & Hb & Hst); [done|]. exists ws, w.
  by rewrite (later_writes _ _ Hm2).
Qed.

Lemma read_control_settles m : wp (read_control orc) m (settles m (λ _ _, True)).
Proof. unfold wp, read_control. split; [apply (advance_later moves)|]. by destruct (vm_fault _). Qed.

Lemma try_wait_settles m :
  wp (try_wait moves kill_delay) m (settles m (λ m' r,
    match r with
    | Some s => gr_leader (m_group m') = Reaped s
    | None => True
    end)).
Proof. apply wp_try_wait; by split. Qed.

Lemma supervise_body_reports t m :
  wp (exit ← try_wait moves kill_delay;
      match exit with
      | Some exit =>
          _ ← terminate_service_group moves picks kill_delay t;
          _ ← write_status orc (StExited (exit_code exit));
          _ ← finish orc;
          mret (inr tt)
      | None =>
          stop ← read_control orc;
          if stop : bool then
            _ ← stop_service_child moves picks kill_delay t;
            _ ← write_status orc StStopped;
            _ ← finish orc;
            mret (inr tt)
          else _ ← thread_sleep moves kill_delay POLL_INTERVAL; mret (inl tt)
      end) m (reports m (λ m' r, r = inr tt → finished m' ∧ ended_with (m_shared m'))).
Proof.
  eapply reports_settled; [apply try_wait_settles|]. intros m1 [s|] _ Hs.
  - eapply reports_settled; [apply terminate_with_reaping_spec|]. intros m2 [] Hm2 Hg.
    apply report_end; [done| |done]. intros m3 Hm3. split.
    + by apply (later_gone _ _ _ Hm3).
    + exists s. split; [|done]. by apply (later_leader _ _ _ Hm3), (later_leader _ _ _ Hm2).
  - eapply reports_settled; [apply read_control_settles|]. intros m2 [] _ _.
    + eapply reports_settled; [apply stop_service_child_spec|]. intros m3 [] _ Hg.
      apply report_end; [done| |done]. intros m4 Hm4. by apply (later_gone _ _ _ Hm4).
    + eapply (reports_settled _ _ _ (λ _ _, True)).
      { apply wp_sleep. intros m3 Hm3 _. by split. }
      intros m3 _ _ _. by apply reports_ret.
Qed.

Lemma supervise_loop_reports t fuel m :
  wp (supervise_loop orc t fuel) m (reports m (λ m' _, finished m' ∧ ended_with (m_shared m'))).
Proof.
  unfold supervise_loop. revert m. induction fuel as [|fuel IH]; intros m; [apply reports_fail|].
  cbn [poll]. eapply reports_bind; [apply supervise_body_reports|].
  intros m1 [[]|[]] Hr; [apply IH|]. apply reports_ret. auto.
Qed.

Lemma guarded_reports {A} t (body : eff machine (halt io_error) A) m P :
  wp body m (reports m P) → wp (guarded orc t body) m (reports m P).
Proof.
  intros Hb. unfold guarded.
  eapply (reports_bind _ _ _ (λ m' r, match r with Ok a => P m' a | Err _ => True end)).
  - apply wp_try. eapply wp_mono; [exact Hb|]. intros m1 r [Ht HP]. by split.
  - intros m1 [a|[e|]] HP; [by split| |by split].
    eapply (reports_settled _ _ _ (λ _ _, True)).
    + apply wp_try. eapply wp_mono; [apply stop_service_child_spec|]. intros m2 r [Hl _]. by split.
    + intros m2 _ _ _. apply reports_fail.
Qed.

Lemma spawn_reports program args cwd env run_as m :
  wp (spawn_service_command orc pre_faults daemon group_list program args cwd env run_as) m
    (reports m (λ _ _, True)).
Proof.
  unfold wp, spawn_service_command. pose proof (later_writes _ _ (advance_later moves kill_delay 0 m)) as Hw.
  revert Hw. generalize (advance moves kill_delay 0 m). intros m1 Hw.
  destruct (vm_fault _); [by split; [cbn; rewrite Hw|]|].
  destruct (pre_exec _ _ _ _) as [child []]; (split; [cbn; by rewrite Hw|done]).
Qed.

Lemma supervise_service_reports fuel pid spec fd inject m :
  wp (supervise_service orc pre_faults daemon group_list fuel pid spec fd inject) m
    (reports m (λ m' _, finished m' ∧ ended_with (m_shared m'))).
Proof.
  unfold supervise_service. destruct (owned_command_line _) as [program args].
  eapply (reports_bind _ _ _ (λ _ _, True)); [by apply wp_lift; split; [|destruct (map_err _ _)]|].
  intros m1 _ _. eapply reports_bind; [apply spawn_reports|]. intros m2 _ _.
  apply guarded_reports. eapply reports_bind; [by apply write_status_reports|]. intros m3 _ _.
  eapply (reports_bind _ _ _ (λ _ _, True)); [by destruct inject; split|]. intros m4 _ _.
  eapply reports_settled; [apply sys_settles|]. intros m5 _ _ _. apply supervise_loop_reports.
Qed.

(** C32: Whatever the service, its descendants, the daemon and the system calls do,
    a supervisor writes [Stopped] or [Exited] only at a moment when no process of
    the service's group is left, and [Exited] with the exit code the service really
    had; and when the supervisor returns without an error, the service has been
    waited for, its group is gone and one of the two was the last status, written
    completely. *)
Theorem supervisor_reports_truth fuel pid own_group input fd m m' r :
  run_supervisor orc pre_faults daemon group_list fuel pid own_group input fd m = (m', r) →
  writes m = [] →
  Forall truthful (writes m') ∧ (r = Ok tt → finished m' ∧ ended_with (m_shared m')).
Proof.
  intros Hrun Hw.
  assert (wp (run_supervisor orc pre_faults daemon group_list fuel pid own_group input fd) m
    (reports m (λ m' _, finished m' ∧ ended_with (m_shared m')))) as Hwp.
  { unfold run_supervisor. eapply reports_settled; [apply sys_settles|]. intros ma _ _ _.
    eapply reports_settled; [apply sys_settles|]. intros mb _ _ _.
    eapply (reports_bind _ _ _ (λ m' r, match r with Ok a => finished m' ∧ ended_with (m_shared m') | Err _ => True end)).
    - apply wp_try. eapply (wp_mono _ _ (reports _ (λ m' _, finished m' ∧ ended_with (m_shared m')))).
      2: { intros m1 r1 [Ht HP]. by split. }
      eapply (reports_settled _ _ _ (λ _ _, True)); [destruct own_group; [by apply wp_settles_ret|apply sys_settles]|].
      intros m1 _ _ _. eapply (reports_bind _ _ _ (λ _ _, True)); [by apply wp_lift; split; [|destruct (map_err _ _)]|].
      intros m2 spec _. eapply (reports_bind _ _ _ (λ _ _, True)); [by apply wp_lift; split; [|destruct (reject_if _ _)]|].
      intros m3 _ _. eapply reports_settled; [apply sys_settles|]. intros m4 _ _ _. apply supervise_service_reports.
    - intros m1 [[]|[e|]] HP; [by split| |by split].
      eapply (reports_bind _ _ _ (λ _ _, True)); [|intros; by apply wp_lift; split].
      apply wp_try. eapply wp_mono; [by apply write_status_reports|]. intros m2 r2 [Ht _]. by split. }
  destruct (wp_run _ _ _ _ _ Hwp Hrun) as [Ht HP]. rewrite Hw in Ht. split; [by apply Ht|].
  intros ->. exact HP.
Qed.

(** * Termination *)

(** The control pipe is closed during the [k]-th call of the machine. *)
Context (k : nat) (Hclose : vm_stop (orc k) = true).

Definition sees_stop (m : machine) : Prop := (k < m_tick m)%nat → su_stop (m_shared m) = true.

(** Does not diverge, and a result satisfies [P]. *)
Definition halts {A} (P : machine → A → Prop) (m' : machine) (r : result (halt io_error) A) : Prop :=
  match r with Ok a => P m' a | Err Diverged => False | Err _ => True end.

Lemma halts_bind {A B} (c : eff machine (halt io_error) A) (f : A → eff machine (halt io_error) B) m P Q :
  wp c m (halts P) → (∀ m1 a, P m1 a → wp (f a) m1 (halts Q)) → wp (c ≫= f) m (halts Q).
Proof.
  intros Hc Hf. apply wp_bind. eapply wp_mono; [exact Hc|]. intros m1 [a|[e|]] HP; [by apply Hf|done..].
Qed.

Lemma settles_returns {A} m (P : machine → A → Prop) m' r : settles m P m' r → halts P m' r.
Proof. by intros [_ ?]. Qed.

Lemma halts_settled {A B} (c : eff machine (halt io_error) A) (f : A → eff machine (halt io_error) B) m P Q :
  wp c m (settles m P) → (∀ m1 a, P m1 a → wp (f a) m1 (halts Q)) → wp (c ≫= f) m (halts Q).
Proof.
  intros Hc. apply halts_bind. eapply wp_mono; [exact Hc|]. apply settles_returns.
Qed.

Lemma advance_sees e m : sees_stop m → sees_stop (advance moves kill_delay e m).
Proof.
  unfold sees_stop. cbn. intros Hm Hk. destruct (decide (m_tick m = k)) as [->|]; [by rewrite Hclose, orb_true_r|].
  rewrite Hm by lia. done.
Qed.

Abbreviation sees n := (λ m _, sees_stop m ∧ (n < m_tick m)%nat).

Lemma sys_sees name m : sees_stop m → wp (sys orc name) m (halts (λ m' _, sees_stop m')).
Proof. intros Hm. unfold wp, sys. destruct (vm_fault _); [done|]. by apply advance_sees. Qed.

Lemma sleep_sees e m : sees_stop m → wp (thread_sleep moves kill_delay e) m (halts (sees (m_tick m))).
Proof. intros Hm. split; [by apply advance_sees|]. cbn. lia. Qed.

Lemma try_wait_sees m :
  sees_stop m → wp (try_wait moves kill_delay) m (halts (sees (m_tick m))).
Proof.
  intros Hm%(advance_sees 0). unfold wp, try_wait. pose proof (Nat.lt_succ_diag_r (m_tick m)) as Ht.
  change (S (m_tick m)) with (m_tick (advance moves kill_delay 0 m)) in Ht.
  destruct (gr_leader _) eqn:E; [destruct (mv_fault _); cbn [fst snd halts]; try done..|done|done].
Qed.

Lemma read_control_sees m :
  sees_stop m → wp (read_control orc) m (halts (λ m' stop,
    sees_stop m' ∧ (m_tick m < m_tick m')%nat ∧ (stop = false → ¬ k < m_tick m)%nat)).
Proof.
  intros Hm%(advance_sees 0). unfold wp, read_control. destruct (vm_fault _); [done|]. split_and!; [done|cbn; lia|].
  cbn [fst snd]. intros Hs Hk. unfold sees_stop in Hm. rewrite Hm in Hs; [done|]. cbn. lia.
Qed.

Lemma write_status_sees s m : sees_stop m → wp (write_status orc s) m (halts (λ m' _, sees_stop m')).
Proof. intros Hm%(advance_sees 0). unfold wp, write_status. destruct (vm_fault _); [done|]. exact Hm. Qed.

Lemma write_status_returns s m : wp (write_status orc s) m (halts (λ _ _, True)).
Proof. unfold wp, write_status. by destruct (vm_fault _). Qed.

Lemma end_returns s m :
  wp (_ ← write_status orc s; _ ← finish orc; mret (inr tt : () + ())) m (halts (λ _ r, r = inr tt)).
Proof.
  eapply halts_bind; [apply write_status_returns|]. intros m1 _ _.
  by eapply halts_settled; [apply finish_spec|].
Qed.

Lemma supervise_loop_returns t fuel m :
  sees_stop m → (0 < fuel)%nat → (k < m_tick m + pred fuel)%nat →
  wp (supervise_loop orc t fuel) m (halts (λ _ _, True)).
Proof.
  unfold supervise_loop. revert m. induction fuel as [|fuel IH]; intros m Hm Hf Hk; [lia|]. cbn [poll].
  eapply (halts_bind _ _ _ (λ m' r, r = inl tt → sees_stop m' ∧ m_tick m < m_tick m' ∧ m_tick m ≤ k)%nat).
  - eapply halts_bind; [by apply try_wait_sees|]. intros m1 [s|] [Hm1 Ht1].
    { eapply halts_settled; [apply terminate_with_reaping_spec|]. intros m2 _ _.
      eapply wp_mono; [apply end_returns|]. intros m3 [|[]]; naive_solver. }
    eapply halts_bind; [by apply read_control_sees|]. intros m2 [] (Hm2 & Ht2 & Hs).
    { eapply halts_settled; [apply stop_service_child_spec|]. intros m3 _ _.
      eapply wp_mono; [apply end_returns|]. intros m4 [|[]]; naive_solver. }
    eapply halts_bind; [by apply sleep_sees|]. intros m3 [] [Hm3 Ht3]. apply wp_ret. cbn. intros _.
    specialize (Hs eq_refl). split_and!; [done|lia..].
  - intros m1 [[]|[]] Hr; [|done]. destruct (Hr eq_refl) as (Hm1 & Ht & Hle). cbn [pred] in Hk.
    apply IH; [done|lia..].
Qed.

Lemma guarded_returns {A} t (body : eff machine (halt io_error) A) m P :
  wp body m (halts P) → wp (guarded orc t body) m (halts P).
Proof.
  intros Hb. unfold guarded. apply wp_bind, wp_try. eapply wp_mono; [exact Hb|].
  intros m1 [a|[e|]] HP; [exact HP| |done]. apply wp_bind, wp_try.
  eapply wp_mono; [apply stop_service_child_spec|]. done.
Qed.

Lemma spawn_sees program args cwd env run_as m :
  sees_stop m →
  wp (spawn_service_command orc pre_faults daemon group_list program args cwd env run_as) m
    (halts (λ m' _, sees_stop m')).
Proof.
  intros Hm%(advance_sees 0). unfold wp, spawn_service_command. destruct (vm_fault _); [done|].
  by destruct (pre_exec _ _ _ _) as [child [|e]].
Qed.

Lemma lift_returns {A} (r : result (halt io_error) A) m :
  sees_stop m → r ≠ Err Diverged → wp (io_lift r) m (halts (λ m' _, sees_stop m')).
Proof. intros Hm Hr. unfold wp. cbn. by destruct r as [|[]]. Qed.

Lemma supervise_service_returns fuel pid spec fd inject m :
  sees_stop m → (S k < fuel)%nat →
  wp (supervise_service orc pre_faults daemon group_list fuel pid spec fd inject) m (halts (λ _ _, True)).
Proof.
  intros Hm Hf. unfold supervise_service. destruct (owned_command_line _) as [program args].
  eapply halts_bind; [apply lift_returns; [done|]|].
  { unfold configure_command, validate_run_as_uid, refuse_if, fail. by case_match. }
  intros m1 [] Hm1. eapply halts_bind; [by apply spawn_sees|]. intros m2 [] Hm2. apply guarded_returns.
  eapply halts_bind; [by apply write_status_sees|]. intros m3 [] Hm3.
  eapply halts_bind; [apply lift_returns; [done|by destruct inject]|]. intros m4 [] Hm4.
  eapply halts_bind; [by apply sys_sees|]. intros m5 [] Hm5. apply supervise_loop_returns; [done|lia..].
Qed.

(** A supervisor halts: once the daemon's end of the control pipe is closed,
    which a crash of the daemon does as well, neither the service nor its
    descendants nor failing system calls can keep the supervisor running. *)
Theorem closed_supervisor_returns fuel pid own_group input fd m :
  (m_tick m ≤ k)%nat → (S k < fuel)%nat →
  (run_supervisor orc pre_faults daemon group_list fuel pid own_group input fd m).2 ≠ Err Diverged.
Proof.
  intros Ht Hf. assert (sees_stop m) as Hm by (unfold sees_stop; lia).
  assert (wp (run_supervisor orc pre_faults daemon group_list fuel pid own_group input fd) m
            (halts (λ _ _, True))) as Hwp.
  { unfold run_supervisor. eapply halts_bind; [by apply sys_sees|]. intros m1 [] Hm1.
    eapply halts_bind; [by apply sys_sees|]. intros m2 [] Hm2. apply wp_bind, wp_try.
    apply (wp_mono _ _ (halts (λ _ _, True))).
    - eapply (halts_bind _ _ _ (λ m _, sees_stop m)); [destruct own_group; [exact Hm2|by apply sys_sees]|]. intros m3 [] Hm3.
      eapply halts_bind; [apply lift_returns; [done|by destruct input]|]. intros m4 spec Hm4.
      eapply halts_bind; [apply lift_returns; [done|by destruct (negb _)]|]. intros m5 [] Hm5.
      eapply halts_bind; [by apply sys_sees|]. intros m6 [] Hm6. by apply supervise_service_returns.
    - intros m3 [a|[e|]] Hr; [done| |done]. apply wp_bind, wp_try.
      eapply wp_mono; [apply write_status_returns|]. done. }
  unfold wp in Hwp. intros He. by rewrite He in Hwp.
Qed.
End theorems.

(** * Descendants that the service leaves behind: a supervisor adopts them but waits
    for them only after [SIGKILL]. *)

Section orphans.
Context (orc : nat → sup_move).
(** Nobody but the supervisor waits for the descendants. *)
Context (Hadopted : ∀ k, ZombieReaped ∉ vm_events (orc k)).

Abbreviation moves := (λ k, sup_move_of (orc k)).
Abbreviation later := (later moves).
Abbreviation machine := (Machine SupState).
Abbreviation picks := (λ k, vm_wait (orc k)).
Abbreviation kill_delay := (@None N).

(** An exited descendant is waiting to be reaped. *)
Definition haunted (m : machine) : Prop := (0 < gr_zombies (m_group m))%nat.

Lemma advance_haunted e m : haunted m → haunted (advance moves kill_delay e m).
Proof.
  unfold haunted. intros Hm. cbn. specialize (Hadopted (m_tick m)). revert Hm.
  generalize (m_group m). induction (vm_events (orc (m_tick m))) as [|ev es IH]; intros g Hg; [done|].
  cbn. apply IH; [set_solver|].
  destruct ev; cbn; repeat case_match; cbn; try lia. set_solver.
Qed.

Lemma haunted_not_gone m : haunted m → gone (m_group m) = false.
Proof. intros Hm. apply not_true_iff_false. intros (_ & _ & Hz)%gone_spec. unfold haunted in Hm. lia. Qed.

(** Runs on with the descendant still there. *)
Definition haunts {A} (m : machine) (P : machine → A → Prop) (m' : machine)
    (r : result (halt io_error) A) : Prop :=
  match r with Ok a => haunted m' ∧ m_now m ≤ m_now m' ∧ P m' a | Err _ => True end.

Lemma haunts_bind {A B} (c : eff machine (halt io_error) A) (f : A → eff machine (halt io_error) B) m P Q :
  wp c m (haunts m P) → (∀ m1 a, haunted m1 → m_now m ≤ m_now m1 → P m1 a → wp (f a) m1 (haunts m1 Q)) →
  wp (c ≫= f) m (haunts m Q).
Proof.
  intros Hc Hf. apply wp_bind. eapply wp_mono; [exact Hc|]. intros m1 [a|e]; [|done]. intros (Hh & Ht & HP).
  eapply wp_mono; [by apply Hf|]. intros m2 [b|e]; [|done]. intros (? & ? & ?). split_and!; [done|lia|done].
Qed.

Lemma advance_now e m : m_now m + e ≤ m_now (advance moves kill_delay e m).
Proof. apply (advance_time moves). Qed.

Lemma now_haunts m :
  haunted m → wp (instant_now moves kill_delay) m (haunts (A := N) m (λ m' now, now = m_now m')).
Proof. intros Hm. split_and!; [by apply advance_haunted|pose proof (advance_now 0 m); cbn in *; lia|done]. Qed.

Lemma sleep_haunts e m :
  haunted m → wp (thread_sleep moves kill_delay e) m (haunts (A := ()) m (λ _ _, True)).
Proof. intros Hm. split_and!; [by apply advance_haunted|pose proof (advance_now e m); cbn in *; lia|done]. Qed.

Lemma signal_haunts s m :
  haunted m → wp (signal_group moves kill_delay s) m (haunts m (λ _ _, True)).
Proof.
  intros Hm%(advance_haunted 0). pose proof (advance_now 0 m). unfold wp, signal_group, killpg.
  rewrite haunted_not_gone by done. destruct (mv_fault _) as [[]|]; try done.
  split_and!; [done|cbn in *; lia|done].
Qed.

Lemma exists_haunts m :
  haunted m → wp (process_group_exists moves kill_delay) m (haunts m (λ _ alive, alive = true)).
Proof.
  intros Hm%(advance_haunted 0). pose proof (advance_now 0 m). unfold wp, process_group_exists, killpg.
  rewrite haunted_not_gone by done. destruct (mv_fault _) as [[]|]; cbn; try done.
  all: split_and!; [done|cbn in *; lia|done].
Qed.

Lemma wait_haunts m :
  haunted m →
  wp (_ ← try_wait moves kill_delay; mret tt) m (haunts m (λ _ _, True)).
Proof.
  intros Hm%(advance_haunted 0). pose proof (advance_now 0 m) as Ht. apply wp_bind. unfold wp, try_wait.
  revert Hm Ht. generalize (advance moves kill_delay 0 m). intros m1 Hm Ht.
  destruct (gr_leader _); [destruct (mv_fault _)..| |]; try done; (split_and!; [done|cbn in *; lia|done]).
Qed.

Lemma await_end_haunts timeout m :
  haunted m →
  wp (await_end moves kill_delay timeout true) m (haunts m (λ m' ended, ended = false ∧ m_now m + timeout ≤ m_now m')).
Proof.
  intros Hm. unfold await_end. eapply haunts_bind; [by apply now_haunts|]. intros m0 ? H0 Ht0 ->.
  generalize (polls timeout (ms 25)). intros fuel.
  enough (∀ m1, haunted m1 → wp (poll fuel _ tt) m1
    (haunts m1 (λ m' ended, ended = false ∧ m_now m + timeout ≤ m_now m'))) as Hp by by apply Hp.
  induction fuel as [|fuel IH]; intros m1 H1; [by apply wp_fail|]. cbn [poll].
  eapply (haunts_bind _ _ _ (λ m' r, r = inl tt ∨ r = inr false ∧ m_now m + timeout ≤ m_now m')).
  - eapply haunts_bind; [by apply now_haunts|]. intros m2 ? H2 Ht2 ->.
    destruct (N.leb_spec (m_now m0 + timeout) (m_now m2)).
    { apply wp_ret. split_and!; [done..|]. right. split; [done|lia]. }
    eapply haunts_bind; [by apply wait_haunts|]. intros m3 _ H3 _ _.
    eapply haunts_bind; [by apply exists_haunts|]. intros m4 ? H4 _ ->. cbn [negb].
    eapply haunts_bind; [by apply sleep_haunts|]. intros m5 _ H5 _ _. apply wp_ret. split_and!; auto with lia.
  - intros m2 r H2 _ [->|[-> Ht]]; [by apply IH|]. apply wp_ret. by split_and!.
Qed.

(** Stopping a service always takes the whole [shutdown_timeout_sec] when one of
    its descendants has exited and nobody but the supervisor, which adopted it, can
    wait for it: the adopted children are waited for only after [SIGKILL], so until
    then the group seems to be alive, however promptly every process obeyed
    [SIGTERM]. *)
Theorem orphans_delay_stop shutdown_timeout_sec m m' :
  (0 < gr_zombies (m_group m))%nat →
  stop_service_child moves picks kill_delay shutdown_timeout_sec m = (m', Ok tt) →
  m_now m + secs shutdown_timeout_sec ≤ m_now m' ∧ gone (m_group m') = true.
Proof.
  intros Hm Hrun.
  assert (wp (stop_service_child moves picks kill_delay shutdown_timeout_sec) m (λ m' r, r = Ok tt →
    m_now m + secs shutdown_timeout_sec ≤ m_now m')) as Ht.
  { unfold stop_service_child. apply wp_bind. eapply wp_mono; [by apply signal_haunts|].
    intros m1 [[]|e]; [|done]. intros (H1 & Ht1 & _). apply wp_bind.
    eapply wp_mono; [by apply await_end_haunts|]. intros m2 [ended|e]; [|done].
    intros (H2 & Ht2 & -> & Htime). apply wp_bind. eapply wp_mono; [apply wp_kill_group|].
    intros m3 [[]|e] [Hl Hd]; [|done]. eapply wp_mono; [by apply await_killed_spec|].
    intros m4 r [Hl4 _] _. apply later_time in Hl, Hl4. lia. }
  pose proof (wp_run _ _ _ _ _ (stop_service_child_spec moves picks kill_delay shutdown_timeout_sec m) Hrun) as [_ Hg].
  by split; [apply (wp_run _ _ _ _ _ Ht Hrun)|].
Qed.
End orphans.
