(* ===== verification/Services.v ===== *)
(** The daemon's side of a service ([src/src/services.rs]): starting its
    supervisor, watching it, waiting for readiness, keeping the end of its output,
    and stopping it. *)
From Stdlib Require Import Ascii.
From stdpp Require Import base option strings numbers list gmap relations pretty.
From S2P Require Import Prelude Effects RustStr Validation Accounts Archive Protocol Config RunAs Process Output ServiceStatus ServiceProcess Supervisor.

Local Open Scope N_scope.

(** * The threads of a running service *)

(** The monitor: waiting for a status and the end of the supervisor; its outcome
    stored; done, or panicked. *)
Inductive monitor_state := MonWatching | MonReported | MonDone | MonPanicked.

(** The channel the readiness thread answers on. *)
Inductive ready_state := RdPending | RdSent (r : result string unit) | RdTaken.

(** A thread handle: running, or finished with or without a panic. *)
Inductive thread_state := ThRunning | ThFinished | ThPanicked.

Definition is_finished (t : thread_state) : bool :=
  match t with ThRunning => false | _ => true end.

(** The parts of [RunningService] that its threads share; [rs_supervisor_signals]
    are the signals sent to the supervisor. *)
Record ServiceState := mkService {
  rs_control : bool;
  rs_stopping : bool;
  rs_failed : bool;
  rs_output_failed : bool;
  rs_monitor : monitor_state;
  rs_outcome : option (result string unit);
  rs_ready : ready_state;
  rs_ready_thread : thread_state;
  rs_output_threads : list thread_state;
  rs_startup_sender : bool;
  rs_supervisor_signals : list signal;
}.

Definition set_control v x := mkService v (rs_stopping x) (rs_failed x) (rs_output_failed x)
  (rs_monitor x) (rs_outcome x) (rs_ready x) (rs_ready_thread x) (rs_output_threads x)
  (rs_startup_sender x) (rs_supervisor_signals x).
Definition set_stopping x := mkService (rs_control x) true (rs_failed x) (rs_output_failed x)
  (rs_monitor x) (rs_outcome x) (rs_ready x) (rs_ready_thread x) (rs_output_threads x)
  (rs_startup_sender x) (rs_supervisor_signals x).
Definition set_failed v x := mkService (rs_control x) (rs_stopping x) v (rs_output_failed x)
  (rs_monitor x) (rs_outcome x) (rs_ready x) (rs_ready_thread x) (rs_output_threads x)
  (rs_startup_sender x) (rs_supervisor_signals x).
Definition set_output_failed x := mkService (rs_control x) (rs_stopping x) (rs_failed x) true
  (rs_monitor x) (rs_outcome x) (rs_ready x) (rs_ready_thread x) (rs_output_threads x)
  (rs_startup_sender x) (rs_supervisor_signals x).
Definition set_monitor v x := mkService (rs_control x) (rs_stopping x) (rs_failed x) (rs_output_failed x)
  v (rs_outcome x) (rs_ready x) (rs_ready_thread x) (rs_output_threads x)
  (rs_startup_sender x) (rs_supervisor_signals x).
Definition set_outcome v x := mkService (rs_control x) (rs_stopping x) (rs_failed x) (rs_output_failed x)
  (rs_monitor x) v (rs_ready x) (rs_ready_thread x) (rs_output_threads x)
  (rs_startup_sender x) (rs_supervisor_signals x).
Definition set_ready v x := mkService (rs_control x) (rs_stopping x) (rs_failed x) (rs_output_failed x)
  (rs_monitor x) (rs_outcome x) v (rs_ready_thread x) (rs_output_threads x)
  (rs_startup_sender x) (rs_supervisor_signals x).
Definition set_ready_thread v x := mkService (rs_control x) (rs_stopping x) (rs_failed x) (rs_output_failed x)
  (rs_monitor x) (rs_outcome x) (rs_ready x) v (rs_output_threads x)
  (rs_startup_sender x) (rs_supervisor_signals x).
Definition set_output_threads v x := mkService (rs_control x) (rs_stopping x) (rs_failed x) (rs_output_failed x)
  (rs_monitor x) (rs_outcome x) (rs_ready x) (rs_ready_thread x) v
  (rs_startup_sender x) (rs_supervisor_signals x).
Definition set_startup_sender v x := mkService (rs_control x) (rs_stopping x) (rs_failed x) (rs_output_failed x)
  (rs_monitor x) (rs_outcome x) (rs_ready x) (rs_ready_thread x) (rs_output_threads x)
  v (rs_supervisor_signals x).
Definition push_supervisor_signal s x := mkService (rs_control x) (rs_stopping x) (rs_failed x) (rs_output_failed x)
  (rs_monitor x) (rs_outcome x) (rs_ready x) (rs_ready_thread x) (rs_output_threads x)
  (rs_startup_sender x) (rs_supervisor_signals x ++ [s]).

(** ** The monitor's verdict *)

(** [{other:?}] of a status. *)
Definition status_debug (s : SupervisorStatus) : string :=
  match s with
  | StSpawned pid pgid => "Spawned { pid: " +:+ pretty pid +:+ ", pgid: " +:+ pretty pgid +:+ " }"
  | StExited code => "Exited { code: " +:+ pretty code +:+ " }"
  | StStopped => "Stopped"
  | StFailed message => "Failed { message: " +:+ message +:+ " }"
  end.

Definition monitor_outcome (name : string) (status : result io_error SupervisorStatus)
    (reaped : result io_error bool) : result string unit :=
  match status, reaped with
  | Ok StStopped, Ok true => Ok tt
  | Ok (StExited code), Ok true => Err (name +:+ " exited (" +:+ pretty code +:+ ")")
  | Ok (StFailed message), Ok true => Err (name +:+ ": " +:+ message)
  | Ok other, Ok true => Err (name +:+ ": unexpected supervisor status " +:+ status_debug other)
  | _, Ok false => Err (name +:+ ": supervisor reap was not proven")
  | _, Err e => Err (name +:+ ": supervisor reap failed: " +:+ io_error_message e)
  | Err e, Ok true => Err (name +:+ ": supervisor status failed: " +:+ io_error_message e)
  end.

(** ** Readiness *)

(** What the readiness thread makes of the pipe: at most one byte more than the
    message is read; [Err] is a read error. *)
Definition readiness_result (input : result string string) : result string unit :=
  match input with
  | Err e => Err ("readiness read failed: " +:+ e)
  | Ok data =>
      let bytes := String.substring 0 (S (String.length READY_MESSAGE)) data in
      if bool_decide (bytes = READY_MESSAGE) then Ok tt
      else Err "readiness channel must contain exactly ready\n and then close"
  end.

(** ** What the other threads do *)

Inductive service_step :=
| MonitorReports (status : result io_error SupervisorStatus) (reaped : result io_error bool)
| MonitorFlags
| MonitorPanics
| ReadyAnswers (input : result string string)
| ReadyEnds (panicked : bool)
| OutputFails
| OutputEnds (i : nat) (panicked : bool).

Definition thread_ended (panicked : bool) : thread_state := if panicked then ThPanicked else ThFinished.

Definition service_thread_step (name : string) (x : ServiceState) (s : service_step) : ServiceState :=
  match s with
  | MonitorReports status reaped =>
      match rs_monitor x with
      | MonWatching => set_monitor MonReported (set_outcome (Some (monitor_outcome name status reaped)) x)
      | _ => x
      end
  | MonitorFlags =>
      match rs_monitor x with
      | MonReported => set_monitor MonDone (if rs_stopping x then x else set_failed true x)
      | _ => x
      end
  | MonitorPanics =>
      match rs_monitor x with MonWatching => set_monitor MonPanicked x | _ => x end
  | ReadyAnswers input =>
      match rs_ready x, rs_ready_thread x with
      | RdPending, ThRunning => set_ready (RdSent (readiness_result input)) x
      | _, _ => x
      end
  | ReadyEnds panicked =>
      match rs_ready_thread x with ThRunning => set_ready_thread (thread_ended panicked) x | _ => x end
  | OutputFails => set_output_failed x
  | OutputEnds i panicked =>
      set_output_threads (alter (λ t, if is_finished t then t else thread_ended panicked) i (rs_output_threads x)) x
  end.

Record service_move := ServiceMove {
  wm_time : N;
  wm_events : list proc_event;
  wm_steps : list service_step;
  wm_cancel : bool;
  wm_fault : option kill_fault;
}.

Definition service_move_of (name : string) (v : service_move) : move ServiceState :=
  mkMove (wm_time v) (wm_events v)
    (λ _ _ x, (foldl (service_thread_step name) x (wm_steps v), wm_cancel v)) (wm_fault v).

(** * Operations of a running service *)

Section running.
(** The service's [DurableServiceProcess]. *)
Context (name : string) (shutdown_timeout_sec : N) (supervisor_pid : N) (service_pgid : Z).
Context (orc : nat → service_move) (kill_delay : option N).

Abbreviation moves := (λ k, service_move_of name (orc k)).
Abbreviation picks := (λ _ : nat, PickOther false).
Abbreviation io := (eff (Machine ServiceState)).
Abbreviation instant_now := (instant_now moves kill_delay).
Abbreviation thread_sleep := (thread_sleep moves kill_delay).
Abbreviation is_cancelled := (is_cancelled moves kill_delay).
Abbreviation atomically := (atomically moves kill_delay).
Abbreviation poll_shared := (poll_shared moves kill_delay).

Definition load {A} (f : ServiceState → A) : io (halt BuildError) A := atomically (λ _ x, (x, f x)).

Definition retain_output : io (halt BuildError) unit :=
  atomically (λ _ x, (set_startup_sender false x, tt)).

(** [while !handle.is_finished() && Instant::now() < deadline], and then whether it
    is finished. *)
Definition wait_thread_finished {E} (thread : ServiceState → bool) (timeout : N) : io (halt E) bool :=
  _ ← poll_shared timeout POLL_INTERVAL (λ _ x, (x, thread x)) (λ b, if b then Some tt else None) tt;
  atomically (λ _ x, (x, thread x)).

(** [join] of a finished thread reports whether it panicked. *)
Definition join_thread_bounded {E} (thread : ServiceState → thread_state) (timeout : N) :
    io (halt E) bool :=
  finished ← wait_thread_finished (λ x, is_finished (thread x)) timeout;
  if negb finished then mret false
  else t ← atomically (λ _ x, (x, thread x));
       mret (match t with ThPanicked => false | _ => true end).

Definition monitor_thread (x : ServiceState) : thread_state :=
  match rs_monitor x with
  | MonDone => ThFinished
  | MonPanicked => ThPanicked
  | MonWatching | MonReported => ThRunning
  end.

Definition output_thread (i : nat) (x : ServiceState) : thread_state :=
  default ThFinished (rs_output_threads x !! i).

(** ** Waiting for readiness *)

Inductive recv_result := Received (r : result string unit) | RecvTimeout | Disconnected.

Definition take_ready (x : ServiceState) : ServiceState * recv_result :=
  match rs_ready x with
  | RdSent r => (set_ready RdTaken x, Received r)
  | RdPending | RdTaken =>
      (x, if is_finished (rs_ready_thread x) then Disconnected else RecvTimeout)
  end.

(** [recv_timeout(POLL_INTERVAL)]. *)
Definition recv_ready : io (halt BuildError) recv_result :=
  r ← atomically (λ _, take_ready);
  match r with
  | RecvTimeout => _ ← thread_sleep POLL_INTERVAL; atomically (λ _, take_ready)
  | _ => mret r
  end.

Definition service_error (code message : string) : halt BuildError := Raised (mkBuildError code message).

Definition wait_ready_turn (deadline session_deadline : N) : io (halt BuildError) (unit + unit) :=
  failed ← load rs_failed;
  _ ← io_reject failed (service_error "service_exited"
        ("service " +:+ name +:+ " exited before readiness"));
  output_failed ← load rs_output_failed;
  _ ← io_reject output_failed (service_error "service_output_failed"
        ("service " +:+ name +:+ " startup output drain failed"));
  cancelled ← is_cancelled;
  _ ← io_reject cancelled (service_error "service_start_cancelled" "service startup was cancelled");
  now ← instant_now;
  if deadline <=? now then
    now ← instant_now;
    io_fail (service_error
      (if session_deadline <=? now then "session_lifetime" else "service_start_timeout")
      ("service " +:+ name +:+ " did not become ready"))
  else
    r ← recv_ready;
    match r with
    | Received (Ok _) =>
        failed ← load rs_failed;
        if failed : bool then mret (inl tt)
        else
          joined ← join_thread_bounded rs_ready_thread PROCESS_KILL_GRACE;
          _ ← io_reject (negb joined) (service_error "service_readiness"
                "service readiness monitor did not finish within its bound");
          mret (inr tt)
    | Received (Err message) =>
        io_fail (service_error "service_readiness" ("service " +:+ name +:+ ": " +:+ message))
    | RecvTimeout => mret (inl tt)
    | Disconnected =>
        io_fail (service_error "service_readiness"
          ("service " +:+ name +:+ " readiness monitor failed"))
    end.

(** The turns before the deadline, and the one that follows a [continue]. *)
Definition wait_ready (startup_deadline session_deadline : N) : io (halt BuildError) unit := λ m,
  let deadline := N.min startup_deadline session_deadline in
  poll (S (polls (deadline - m_now m) POLL_INTERVAL))
    (λ _ : unit, wait_ready_turn deadline session_deadline) tt m.

(** ** Stopping *)

Record ServiceStopError := { se_message : string; se_cleanup_unproven : bool }.

(** The errors so far and [cleanup_unproven]. *)
Abbreviation findings := (list string * bool)%type.
Definition note (message : string) (unproven : bool) (f : findings) : findings :=
  (f.1 ++ [message], f.2 || unproven).

(** [let _ = signal_process(supervisor_pid, ..)]: what becomes of the supervisor
    is seen through its monitor only. *)
Definition signal_supervisor (s : signal) : io (halt BuildError) unit :=
  if i32_max <? supervisor_pid then mret tt
  else atomically (λ _ x, (push_supervisor_signal s x, tt)).

Definition stop_monitor (expected : N) (f : findings) : io (halt BuildError) findings :=
  finished ← wait_thread_finished (λ x, is_finished (monitor_thread x)) expected;
  _ ← (if negb finished then
         _ ← signal_supervisor SIGTERM;
         finished ← wait_thread_finished (λ x, is_finished (monitor_thread x)) PROCESS_KILL_GRACE;
         if negb finished then signal_supervisor SIGKILL else mret tt
       else mret tt);
  joined ← join_thread_bounded monitor_thread PROCESS_KILL_GRACE;
  mret (if joined : bool then f
        else note "supervisor was not reaped within its bounded cleanup" true f).

Definition take_outcome (x : ServiceState) : ServiceState * option (result string unit) :=
  (set_outcome None x, rs_outcome x).

Definition judge_outcome (outcome : option (result string unit)) (f : findings) : findings :=
  match outcome with
  | Some (Ok _) => f
  | Some (Err e) => note e false f
  | None => note "supervisor produced no bounded cleanup outcome" true f
  end.

Definition stop_group (f : findings) : io (halt BuildError) findings :=
  r ← io_try (terminate_recorded_service_group moves picks kill_delay shutdown_timeout_sec);
  match r with
  | Ok _ => mret f
  | Err (Raised e) =>
      mret (note ("service group " +:+ pretty service_pgid +:+ " cleanup was not proven: " +:+
                  io_error_message e) true f)
  | Err Diverged => io_fail Diverged
  end.

Definition join_or_note (thread : ServiceState → thread_state) (message : string) (f : findings) :
    io (halt BuildError) findings :=
  joined ← join_thread_bounded thread PROCESS_KILL_GRACE;
  mret (if joined : bool then f else note message false f).

(** [ready_joined]: [wait_ready] has joined the readiness thread already. *)
Definition stop_service (ready_joined : bool) (outputs : nat) :
    io (halt BuildError) (result ServiceStopError unit) :=
  _ ← atomically (λ _ x, (set_stopping x, tt));
  _ ← atomically (λ _ x, (set_control false x, tt));
  let expected := secs shutdown_timeout_sec + PROCESS_KILL_GRACE + secs 1 in
  f ← stop_monitor expected ([], false);
  outcome ← atomically (λ _, take_outcome);
  f ← stop_group (judge_outcome outcome f);
  f ← (if ready_joined then mret f
       else join_or_note rs_ready_thread "readiness drain did not stop within its bound" f);
  f ← io_fold (λ f i, join_or_note (output_thread i) "service output drain did not stop within its bound" f)
        f (seq 0 outputs);
  mret (if is_nil f.1 then Ok tt
        else Err {| se_message := String.concat "; " f.1; se_cleanup_unproven := f.2 |}).
End running.
