(* ===== verification/ServiceTheorems.v ===== *)
(** What the daemon knows of a service: when it is ready, and that it is gone when
    it has been stopped. *)
From Stdlib Require Import Ascii.
From stdpp Require Import base option strings numbers list gmap relations pretty.
From S2P Require Import Prelude Effects RustStr Validation Accounts Archive Protocol Config RunAs Process ProcessFacts MachineRules Output ServiceStatus ServiceProcess Supervisor Services.

Local Open Scope N_scope.

Section service.
Context (name : string) (shutdown_timeout_sec : N) (supervisor_pid : N) (service_pgid : Z).
Context (orc : nat → service_move) (kill_delay : option N).

Abbreviation moves := (λ k, service_move_of name (orc k)).
Abbreviation picks := (λ _ : nat, PickOther false).
Abbreviation machine := (Machine ServiceState).
Abbreviation later := (later moves).
Abbreviation stop := (stop_service name shutdown_timeout_sec supervisor_pid service_pgid orc kill_delay).
Abbreviation stop_monitor := (stop_monitor name supervisor_pid orc kill_delay).
Abbreviation stop_group := (stop_group name shutdown_timeout_sec service_pgid orc kill_delay).
Abbreviation join_or_note := (join_or_note name orc kill_delay).

(** * Facts that stay *)

(** The monitor of some interleaving read [Stopped] and waited for the supervisor. *)
Definition reported_stopped : Prop :=
  ∃ k, MonitorReports (Ok StStopped) (Ok true) ∈ wm_steps (orc k).

(** Across the daemon's calls a group that is gone stays gone, the flag of a failed
    service stays set, and an outcome that says [Ok] is the monitor's. *)
Definition witnessed (m : machine) : Prop :=
  rs_outcome (m_shared m) = Some (Ok tt) →
  reported_stopped.

Record stays (m m' : machine) : Prop := {
  stays_gone : gone (m_group m) = true → gone (m_group m') = true;
  stays_witnessed : witnessed m → witnessed m';
  stays_failed : rs_failed (m_shared m) = true → rs_failed (m_shared m') = true;
}.

#[local] Instance stays_preorder : PreOrder stays.
Proof. split; [by split|]. intros m1 m2 m3 [] []. split; auto. Qed.

Lemma monitor_outcome_Ok status reaped :
  monitor_outcome name status reaped = Ok tt → status = Ok StStopped ∧ reaped = Ok true.
Proof. destruct status as [[]|], reaped as [[]|]; cbn; naive_solver. Qed.

Lemma steps_stay k l x :
  l ⊆ wm_steps (orc k) → (rs_outcome x = Some (Ok tt) → reported_stopped) →
  rs_outcome (foldl (service_thread_step name) x l) = Some (Ok tt) → reported_stopped.
Proof.
  revert x. induction l as [|s l IH]; intros x Hl Hx; [done|]. cbn. apply IH; [set_solver|].
  assert (s ∈ wm_steps (orc k)) as Hs by set_solver.
  destruct s; cbn; repeat case_match; cbn; try done.
  intros [= [-> ->]%monitor_outcome_Ok]. by exists k.
Qed.

Lemma steps_failed l x : rs_failed x = true → rs_failed (foldl (service_thread_step name) x l) = true.
Proof.
  revert x. induction l as [|s l IH]; intros x Hx; [done|]. cbn. apply IH.
  destruct s; cbn; repeat case_match; cbn; done.
Qed.

Lemma drift_stays v v' :
  rtc (drift_step moves) v v' →
  ((rs_outcome v.2 = Some (Ok tt) → reported_stopped) →
   rs_outcome v'.2 = Some (Ok tt) → reported_stopped) ∧
  (rs_failed v.2 = true → rs_failed v'.2 = true).
Proof.
  induction 1 as [|[[n c] x] v2 v3 (k & e & Hs) _ [IH1 IH2]]; [done|]. cbn in *. subst. cbn in *. split.
  - intros Hx. apply IH1. by apply (steps_stay k).
  - intros Hx. by apply IH2, steps_failed.
Qed.

Lemma later_stays m m' : later m m' → stays m m'.
Proof.
  intros Hl. pose proof (later_drift _ _ _ Hl) as [Hw Hf]%drift_stays. split; [|done..].
  apply (later_gone _ _ _ Hl).
Qed.

Lemma wait_thread_stays {E} thread timeout :
  keeps (E := halt E) stays (wait_thread_finished name orc kill_delay thread timeout).
Proof.
  unfold wait_thread_finished. apply keeps_bind; [apply _| |intros _].
  - apply keeps_poll_shared; [apply _|apply later_stays|done|]. by intros.
  - apply keeps_atomically; [apply _|apply later_stays|]. by intros.
Qed.

Lemma join_thread_stays {E} thread timeout :
  keeps (E := halt E) stays (join_thread_bounded name orc kill_delay thread timeout).
Proof.
  unfold join_thread_bounded. apply keeps_bind; [apply _|apply wait_thread_stays|].
  intros []; cbn [negb]; [|intros ?; cbn; reflexivity]. apply keeps_bind; [apply _| |intros ? ?; cbn; reflexivity].
  apply keeps_atomically; [apply _|apply later_stays|]. by intros.
Qed.

(** ** The parts of [stop] return *)

Lemma returns_wait_thread {E} thread timeout :
  returns (E := E) (wait_thread_finished name orc kill_delay thread timeout).
Proof. unfold wait_thread_finished. returns_tac. Qed.

Lemma returns_join_thread {E} thread timeout :
  returns (E := E) (join_thread_bounded name orc kill_delay thread timeout).
Proof. unfold join_thread_bounded. apply returns_bind; [apply returns_wait_thread|]. intros []; returns_tac. Qed.

Lemma throws_wait_thread {E} (P : E → Prop) thread timeout :
  throws P (wait_thread_finished name orc kill_delay thread timeout).
Proof. unfold wait_thread_finished. throws_tac. Qed.
Lemma throws_join_thread {E} (P : E → Prop) thread timeout :
  throws P (join_thread_bounded name orc kill_delay thread timeout).
Proof.
  unfold join_thread_bounded. apply throws_bind; [apply throws_wait_thread|]. intros []; cbn [negb]; throws_tac.
Qed.

(** Always an answer, and one that satisfies [P]. *)
Definition answers {A} (m : machine) (P : machine → A → Prop) (m' : machine)
    (r : result (halt BuildError) A) : Prop :=
  stays m m' ∧ match r with Ok a => P m' a | Err _ => False end.

Lemma answers_bind {A B} (c : eff machine (halt BuildError) A) (k : A → eff machine (halt BuildError) B)
    m P Q :
  wp c m (answers m P) → (∀ m1 a, stays m m1 → P m1 a → wp (k a) m1 (answers m1 Q)) →
  wp (c ≫= k) m (answers m Q).
Proof.
  intros Hc Hk. apply wp_bind. eapply wp_mono; [exact Hc|]. intros m1 [a|e] [Hs HP]; [|done].
  eapply wp_mono; [by apply Hk|]. intros m2 r [Hs2 HQ]. split; [by trans m1|done].
Qed.

Lemma answers_ret {A} m (P : machine → A → Prop) a : P m a → wp (mret a) m (answers m P).
Proof. by split. Qed.

Lemma answers_of {A} (c : eff machine (halt BuildError) A) m :
  keeps stays c → returns c → throws (λ _, False) c → wp c m (answers m (λ _ _, True)).
Proof.
  intros Hk Hr Ht. unfold wp. specialize (Hk m). specialize (Hr m). specialize (Ht m).
  destruct (c m) as [m' [a|[e|]]]; cbn in *; (split; [done|]); [done|by eapply Ht|done].
Qed.

Lemma atomically_answers {A} (f : N → ServiceState → ServiceState * A) m P :
  (∀ now m', stays m m' → stays m' (set_shared (f now (m_shared m')).1 m') ∧
     P (set_shared (f now (m_shared m')).1 m') (f now (m_shared m')).2) →
  wp (atomically moves kill_delay f) m (answers m P).
Proof.
  intros Hf. apply wp_atomically. intros m' Hl%later_stays. destruct (Hf (m_now m') m' Hl).
  split; [by trans m'|done].
Qed.

(** * Stopping *)

Lemma join_answers (thread : ServiceState → thread_state) timeout m :
  wp (join_thread_bounded name orc kill_delay thread timeout) m (answers m (λ _ _, True)).
Proof. apply answers_of; [apply join_thread_stays|apply returns_join_thread|apply throws_join_thread]. Qed.

Lemma wait_answers thread timeout m :
  wp (wait_thread_finished name orc kill_delay thread timeout) m (answers m (λ _ _, True)).
Proof. apply answers_of; [apply wait_thread_stays|apply returns_wait_thread|apply throws_wait_thread]. Qed.

Lemma signal_supervisor_answers s m :
  wp (signal_supervisor name supervisor_pid orc kill_delay s) m (answers m (λ _ _, True)).
Proof.
  unfold signal_supervisor. destruct (_ <? _); [by apply answers_ret|].
  apply atomically_answers. intros now m' _. split; [by split|done].
Qed.

(** Findings only grow. *)
Definition extends (f f' : list string * bool) : Prop :=
  (∃ l, f'.1 = f.1 ++ l ∧ (l = [] → f'.2 = f.2)) ∧ (f.2 = true → f'.2 = true).

#[local] Instance extends_preorder : PreOrder extends.
Proof.
  split.
  - intros f. split; [exists []; by rewrite app_nil_r|done].
  - intros f1 f2 f3 [(l & Hl & Hb) H1] [(l' & Hl' & Hb') H2]. split; [|auto].
    exists (l ++ l'). rewrite Hl', Hl, (assoc (++)). split; [done|].
    intros [-> ->]%app_nil. by rewrite Hb', Hb.
Qed.

Lemma note_extends message b f : extends f (note message b f).
Proof. split; [by eexists|]. cbn. by intros ->. Qed.

Lemma stop_monitor_answers expected f m :
  wp (stop_monitor expected f) m (answers m (λ _ f', extends f f')).
Proof.
  unfold Services.stop_monitor. eapply answers_bind; [apply wait_answers|]. intros m1 finished _ _.
  eapply (answers_bind _ _ _ (λ _ _, True)).
  { destruct finished; cbn; [by apply answers_ret|].
    eapply answers_bind; [apply signal_supervisor_answers|]. intros m2 _ _ _.
    eapply answers_bind; [apply wait_answers|]. intros m3 [] _ _; cbn; [by apply answers_ret|].
    apply signal_supervisor_answers. }
  intros m2 _ _ _. eapply answers_bind; [apply join_answers|]. intros m3 [] _ _; apply answers_ret; [done|].
  apply note_extends.
Qed.

Lemma stop_group_answers f m :
  wp (stop_group f) m (answers m (λ m' f', extends f f' ∧ (f'.2 = false → gone (m_group m') = true))).
Proof.
  unfold Services.stop_group. apply wp_bind, wp_try. eapply wp_mono; [apply terminate_with_reaping_spec|].
  intros m1 [a|[e|]] [Hl%later_stays Hr]; [..|done]; apply wp_ret; (split; [done|]).
  - by split.
  - split; [apply note_extends|]. cbn. by rewrite orb_true_r.
Qed.

Lemma join_or_note_answers thread message f m :
  wp (join_or_note thread message f) m (answers m (λ _ f', extends f f')).
Proof.
  unfold Services.join_or_note. eapply answers_bind; [apply join_answers|].
  intros m1 [] _ _; apply answers_ret; [done|apply note_extends].
Qed.

Lemma join_outputs_answers message l f m :
  wp (io_fold (λ f i, join_or_note (output_thread i) message f) f l) m (answers m (λ _ f', extends f f')).
Proof.
  revert f m. induction l as [|i l IH]; intros f m; cbn [io_fold]; [by apply answers_ret|].
  eapply answers_bind; [apply join_or_note_answers|]. intros m1 f1 _ H1.
  eapply wp_mono; [apply IH|]. intros m2 [f2|] [Hs H2]; [|done]. split; [done|by trans f1].
Qed.

Lemma judge_extends outcome f : extends f (judge_outcome outcome f).
Proof. destruct outcome as [[]|]; cbn; [done|apply note_extends..]. Qed.

Lemma judge_nil outcome f : (judge_outcome outcome f).1 = [] → outcome = Some (Ok tt).
Proof. destruct outcome as [[[]|]|]; cbn; [done|by destruct f.1..]. Qed.

(** C33: Stopping a service always returns, whatever the supervisor, the service and
    the other threads do and whatever the service's monitor has reported before.
    When it succeeds, or fails without [cleanup_unproven], no process is left in the
    service's process group; and it succeeds only if the monitor had stored a success
    before, or reads [Stopped] from the supervisor and then waits for it. *)
Theorem stopped_service_is_gone ready_joined outputs m m' r :
  stop ready_joined outputs m = (m', r) →
  ∃ answer, r = Ok answer ∧
    match answer with
    | Ok _ => gone (m_group m') = true ∧
              (rs_outcome (m_shared m) = Some (Ok tt) ∨ reported_stopped)
    | Err e => se_cleanup_unproven e = false → gone (m_group m') = true
    end.
Proof.
  intros Hrun.
  assert (wp (stop ready_joined outputs) m (answers m (λ m' answer,
    match answer with
    | Ok _ => gone (m_group m') = true ∧ (witnessed m → reported_stopped)
    | Err e => se_cleanup_unproven e = false → gone (m_group m') = true
    end))) as Hwp.
  { unfold stop_service.
    eapply (answers_bind _ _ _ (λ _ _, True)); [apply atomically_answers; intros; by split|]. intros m1 _ H1 _.
    eapply (answers_bind _ _ _ (λ _ _, True)); [apply atomically_answers; intros; by split|]. intros m2 _ H2 _.
    eapply answers_bind; [apply stop_monitor_answers|]. intros m3 f H3 Hf.
    eapply (answers_bind _ _ _ (λ m' outcome, witnessed m3 → outcome = Some (Ok tt) →
      reported_stopped)).
    { apply atomically_answers. intros now m4 [_ H4 _]. split; [by split|]. intros Hm3 Ho. by apply H4. }
    intros m4 outcome H4 Ho. eapply answers_bind; [apply stop_group_answers|]. intros m5 f5 H5 [Hf5 Hg5].
    eapply (answers_bind _ _ _ (λ _ f6, extends f5 f6)).
    { destruct ready_joined; [by apply answers_ret|apply join_or_note_answers]. }
    intros m6 f6 H6 Hf6. eapply answers_bind; [apply join_outputs_answers|]. intros m7 f7 H7 Hf7.
    assert (extends f5 f7) as Hf57 by (by trans f6).
    assert (f7.2 = false → gone (m_group m7) = true) as Hg.
    { intros Hb. apply (stays_gone _ _ H7), (stays_gone _ _ H6), Hg5. destruct Hf57 as [_ Ht].
      destruct f5 as [? []]; [by rewrite Ht in Hb|done]. }
    apply answers_ret. destruct (is_nil f7.1) eqn:En; [|done].
    assert (f7.1 = []) as Hnil by (by destruct f7 as [[] ?]).
    assert (extends (judge_outcome outcome f) f7) as [(l & Hl & _) _] by (by trans f5).
    rewrite Hnil in Hl. symmetry in Hl. apply app_nil in Hl as [Hl _].
    assert (extends ([], false) f7) as [(l' & Hl' & Hb) _].
    { trans f; [done|]. trans (judge_outcome outcome f); [apply judge_extends|]. by trans f5. }
    rewrite Hnil in Hl'. cbn in Hl'. subst l'. split; [by apply Hg, Hb|]. intros Hm.
    apply Ho; [|by apply judge_nil in Hl]. by apply (stays_witnessed _ _ H3), (stays_witnessed _ _ H2), (stays_witnessed _ _ H1). }
  destruct (wp_run _ _ _ _ _ Hwp Hrun) as [_ HP]. destruct r as [answer|]; [|done].
  exists answer. split; [done|]. destruct answer as [[]|e]; [|done]. destruct HP as [Hg Hw].
  split; [done|]. unfold witnessed in Hw. destruct (rs_outcome (m_shared m)) as [[[]|]|]; auto; right; by apply Hw.
Qed.
End service.
