(* ===== verification/ServiceStart.v ===== *)
(** Starting a service ([src/src/services.rs], [spawn_service]): the checks, the
    supervisor process, its first status, the monitor thread and the threads that
    drain the service's output. *)
From Stdlib Require Import Ascii.
From stdpp Require Import base option strings numbers list gmap relations pretty.
From S2P Require Import Prelude Effects RustStr Validation Archive Protocol Process ProcessFacts MachineRules Accounts Config RunAs Output ServiceStatus ServiceProcess Supervisor SupervisorTheorems Services.

Local Open Scope N_scope.

(** * Draining the service's output *)

(** What the two drains of a service share: the diagnostic tail, the flag, the
    events sent to the starting client and the exit callbacks made. *)
Record DrainState := mkDrain {
  dr_tail : list ascii;
  dr_failed : bool;
  dr_events : list SessionStartEvent;
  dr_callbacks : list string;
}.

(** [while tail.len() > tail_limit { tail.pop_front(); }]. *)
Fixpoint trim_tail (tail_limit : nat) (tail : list ascii) : list ascii :=
  match tail with
  | [] => []
  | _ :: rest => if Nat.ltb tail_limit (length tail) then trim_tail tail_limit rest else tail
  end.

(** One turn of a drain, and whether it goes on: [read] is what [read] returned
    ([Ok ""] at the end), [retaining] and [stopping] the flags it loads, [sending]
    whether the startup sender is still there and accepts the event. *)
Definition drain_turn (tail_limit : nat) (stderr : bool) (name : string) (retaining stopping : bool)
    (sending : option bool) (read : result io_error string) (s : DrainState) : DrainState * bool :=
  let broken message :=
    (mkDrain (dr_tail s) true (dr_events s)
       (if stopping then dr_callbacks s else dr_callbacks s ++ [message]), false) in
  match read with
  | Ok "" => (s, false)
  | Ok data =>
      if retaining
      then (mkDrain (trim_tail tail_limit (dr_tail s ++ String.list_ascii_of_string data)) (dr_failed s)
              (dr_events s) (dr_callbacks s), true)
      else
        let data := from_utf8_lossy data in
        let event := if stderr then SStderr data else SStdout data in
        match sending with
        | Some false => broken (name +:+ " startup output could not be drained")
        | Some true => (mkDrain (dr_tail s) (dr_failed s) (dr_events s ++ [event]) (dr_callbacks s), true)
        | None => (s, true)
        end
  | Err e => broken (name +:+ " output read failed: " +:+ io_error_message e)
  end.

(** * The supervisor process *)

(** The daemon's end of a supervisor that is starting: the status pipe, the
    specification sent, and whether the control pipe is open. *)
Record StartState := mkStart {
  st_reader : StatusReader;
  st_spec : option SupervisorSpec;
  st_control : bool;
}.

Record start_move := StartMove {
  xm_time : N;
  xm_events : list proc_event;
  xm_reads : list pipe_read;
  xm_cancel : bool;
  xm_fault : option kill_fault;
}.

Definition arrive (reads : list pipe_read) (x : StartState) : StartState :=
  mkStart (mkStatusReader (sr_buffer (st_reader x)) (sr_reads (st_reader x) ++ reads))
    (st_spec x) (st_control x).

Definition start_move_of (v : start_move) : move StartState :=
  mkMove (xm_time v) (xm_events v) (λ _ _ x, (arrive (xm_reads v) x, xm_cancel v)) (xm_fault v).

Section start.
Context `{StatusCodec, AccountDb}.
Context (orc : nat → start_move) (kill_delay : option N).
(** The daemon's identity, the file system, and the process id of the supervisor. *)
Context (daemon : cred) (canonicalize : string → result io_error string) (supervisor_pid : N).

Abbreviation moves := (λ k, start_move_of (orc k)).
Abbreviation io := (eff (Machine StartState)).
Abbreviation instant_now := (instant_now moves kill_delay).
Abbreviation thread_sleep := (thread_sleep moves kill_delay).
Abbreviation is_cancelled := (is_cancelled moves kill_delay).
Abbreviation atomically := (atomically moves kill_delay).
Abbreviation advance := (advance moves kill_delay).
Abbreviation stop_supervisor_process := (stop_supervisor_process moves kill_delay).

Definition poll_status (x : StartState) : StartState * result io_error (option SupervisorStatus) :=
  let '(reader, r) := try_read_status (st_reader x) in
  (mkStart reader (st_spec x) (st_control x), r).

Definition wait_initial_status (name : string) (startup_deadline session_deadline : N) :
    io failure SupervisorStatus := λ m,
  poll (polls (N.min startup_deadline session_deadline - m_now m) POLL_INTERVAL) (λ _ : unit,
    cancelled ← is_cancelled;
    _ ← io_reject cancelled (service_error "service_start_cancelled"
          ("service " +:+ name +:+ " supervisor startup was cancelled"));
    now ← instant_now;
    _ ← io_reject ((startup_deadline <=? now) || (session_deadline <=? now))
          (service_error
             (if session_deadline <=? now then "session_lifetime" else "service_start_timeout")
             ("service " +:+ name +:+ " supervisor did not report its process identity"));
    status ← atomically (λ _, poll_status);
    match status with
    | Ok (Some status) => mret (inr status)
    | Ok None => _ ← thread_sleep POLL_INTERVAL; mret (inl tt)
    | Err e => io_fail (service_error "service_spawn_failed"
                 ("service " +:+ name +:+ " supervisor failed before spawn: " +:+ io_error_message e))
    end) tt m.

(** The monitor thread: the next status, the end of the supervisor, the outcome.
    It watches for as long as the service runs. *)
Definition monitor (fuel : nat) (name : string) : io (halt io_error) (result string unit) :=
  status ← poll fuel (λ _ : unit,
    status ← atomically (λ _, poll_status);
    match status with
    | Ok (Some status) => mret (inr (Ok status))
    | Ok None => _ ← thread_sleep POLL_INTERVAL; mret (inl tt)
    | Err e => mret (inr (Err e))
    end) tt;
  reaped ← io_try (stop_supervisor_process supervisor_pid PROCESS_KILL_GRACE);
  match reaped with
  | Ok b => mret (monitor_outcome name status (Ok b))
  | Err (Raised e) => mret (monitor_outcome name status (Err e))
  | Err Diverged => io_fail Diverged
  end.

(** A system call that only succeeds or fails. *)
Definition sys_or (error : BuildError) : io failure unit := λ m,
  let fault := xm_fault (orc (m_tick m)) in
  (advance 0 m, match fault with None => Ok tt | Some _ => Err (Raised error) end).

Definition service_io_error (message : string) : BuildError := mkBuildError "service_io" message.

Definition owned_execution (execution : TaskExecution) : OwnedExecution :=
  match execution with
  | Script script => OwnedScript script
  | Executable path args => OwnedExecutable path args
  end.

(** The checks and the specification, before any process is started. *)
Definition service_spec (config : Config) (task : TaskConfig) (service : SessionServiceConfig)
    (workspace : string) (readiness_fd : Z) : result failure SupervisorSpec :=
  run_as ← resolve_run_as (cr_ruid daemon) config;
  let daemon_uid := cr_euid daemon in
  _ ← validate_run_as_uid run_as daemon_uid;
  _ ← refuse_if (negb (ra_set_ids run_as) || (ui_uid (ra_user run_as) =? daemon_uid)) "run_as_user"
        "managed session services require a configured task identity distinct from the daemon effective UID";
  cwd ← resolve_cwd canonicalize workspace (Some (tk_cwd task));
  execution ← ok_or (SessionServiceConfig_execution service) Diverged;
  Ok {| ss_execution := owned_execution execution;
        ss_cwd := cwd;
        ss_environment := build_env task (ra_user run_as);
        ss_username := ui_username (ra_user run_as);
        ss_home_dir := ui_home_dir (ra_user run_as);
        ss_uid := ui_uid (ra_user run_as);
        ss_gid := ra_gid run_as;
        ss_set_ids := ra_set_ids run_as;
        ss_shutdown_timeout_sec := se_shutdown_timeout_sec service;
        ss_readiness_fd := readiness_fd |}.

(** [Command::spawn] of the daemon's own executable. *)
Definition spawn_supervisor (name : string) : io failure unit := λ m,
  let fault := xm_fault (orc (m_tick m)) in
  let m := advance 0 m in
  match fault with
  | Some _ => (m, Err (service_error "service_spawn_failed"
                ("failed to spawn supervisor for service " +:+ name)))
  | None =>
      (mkMachine (m_now m) (m_tick m) (Group Running 0 0) None (m_signals m) (m_cancelled m)
         (mkStart (mkStatusReader [] []) None true), Ok tt)
  end.

(** The specification on the supervisor's standard input. *)
Definition send_supervisor_spec (spec : SupervisorSpec) : io failure unit :=
  _ ← sys_or (service_io_error "failed to configure service supervisor");
  atomically (λ _ x, (mkStart (st_reader x) (Some spec) (st_control x), tt)).

(** The destructor of [PendingSupervisor]: the control pipe is closed, and the
    supervisor waited for; a failure is only logged. *)
Definition drop_pending (shutdown_timeout_sec : N) : io failure unit :=
  _ ← atomically (λ _ x, (mkStart (st_reader x) (st_spec x) false, tt));
  _ ← io_try (F := failure)
        (stop_supervisor_process supervisor_pid
           (secs shutdown_timeout_sec + PROCESS_KILL_GRACE + secs 1));
  mret tt.

(** What is done while the supervisor is pending: the pid and the process group of
    the service. *)
Definition configure_supervisor (name : string) (spec : SupervisorSpec)
    (startup_deadline session_deadline : N) : io failure (N * Z) :=
  _ ← send_supervisor_spec spec;
  _ ← sys_or (service_io_error "fcntl");
  status ← wait_initial_status name startup_deadline session_deadline;
  match status with
  | StSpawned pid pgid => mret (pid, pgid)
  | StFailed message => io_fail (service_error "service_spawn_failed" message)
  | other => io_fail (service_error "service_spawn_failed"
               ("unexpected service supervisor status: " +:+ status_debug other))
  end.

(** On a 64-bit platform every [diagnostic_tail_bytes] fits. *)
Definition spawn_service (name : string) (service : SessionServiceConfig) (task : TaskConfig)
    (config : Config) (workspace : string) (readiness_fd : Z) (startup_deadline session_deadline : N) :
    io failure (N * Z) :=
  spec ← io_lift (service_spec config task service workspace readiness_fd);
  _ ← io_each (λ _, sys_or (service_io_error "pipe2")) [1; 2; 3];
  _ ← sys_or (service_io_error "current_exe");
  _ ← spawn_supervisor name;
  r ← io_try (configure_supervisor name spec startup_deadline session_deadline);
  match r with
  | Err (Raised e) => _ ← drop_pending (se_shutdown_timeout_sec service); io_fail (Raised e)
  | _ => io_lift r
  end.
End start.

(** * Which program a service runs, and as whom. *)

Section identity.
Context `{StatusCodec, AccountDb}.
Context (orc : nat → sup_move) (pre_faults : nat → pre_exec_call → option io_error).
Context (daemon : cred) (group_list : string → N → list N).

Abbreviation moves := (λ k, sup_move_of (orc k)).
Abbreviation picks := (λ k, vm_wait (orc k)).
Abbreviation machine := (Machine SupState).
Abbreviation kill_delay := (@None N).
Abbreviation images m := (su_images (m_shared m)).

(** * Only the spawn starts a program *)

Definition same_service_images (m m' : machine) : Prop := images m' = images m.

#[local] Instance same_service_images_preorder : PreOrder same_service_images.
Proof. split; [done|]. intros m1 m2 m3. unfold same_service_images. congruence. Qed.

Lemma later_service_images m m' : later moves m m' → same_service_images m m'.
Proof.
  intros Hl. pose proof (later_drift _ _ _ Hl) as Hd.
  change (su_images (view_of m').2 = su_images (view_of m).2).
  induction Hd as [|[[n c] x] v2 v3 (k & e & Hs) _ IH]; [done|]. cbn in Hs. subst. by rewrite IH.
Qed.

Lemma settles_images {A} (c : eff machine (halt io_error) A) P :
  (∀ m, wp c m (settles moves m (P m))) → keeps same_service_images c.
Proof. apply keeps_settles, later_service_images. Qed.

Lemma write_status_images s : keeps same_service_images (write_status orc s).
Proof.
  intros m. pose proof (later_service_images _ _ (advance_later moves kill_delay 0 m)) as Hl.
  unfold write_status. by destruct (vm_fault _).
Qed.

Lemma end_images s :
  keeps same_service_images (_ ← write_status orc s; _ ← finish orc; mret (inr tt : () + ())).
Proof.
  apply keeps_bind; [apply _|apply write_status_images|intros _].
  apply keeps_bind; [apply _|by eapply settles_images, finish_spec|done].
Qed.

Lemma supervise_loop_images t fuel : keeps same_service_images (supervise_loop orc t fuel).
Proof.
  unfold supervise_loop. induction fuel as [|fuel IH]; [by intros m|]. cbn [poll].
  apply keeps_bind; [apply _| |by intros [[]|]]. apply keeps_bind; [apply _|by eapply settles_images, try_wait_settles|].
  intros [s|].
  - apply keeps_bind; [apply _|by eapply settles_images, terminate_with_reaping_spec|intros _; apply end_images].
  - apply keeps_bind; [apply _|by eapply settles_images, read_control_settles|]. intros [].
    + apply keeps_bind; [apply _|by eapply settles_images, stop_service_child_spec|intros _; apply end_images].
    + apply keeps_bind; [apply _| |done]. intros m. apply later_service_images, (advance_later moves kill_delay).
Qed.

Lemma guarded_images {A} t (body : eff machine (halt io_error) A) :
  keeps same_service_images body → keeps same_service_images (guarded orc t body).
Proof.
  intros Hb. unfold guarded. apply keeps_bind; [apply _|by apply keeps_try|]. intros [a|[e|]]; [done| |done].
  apply keeps_bind; [apply _|apply keeps_try; by eapply settles_images, stop_service_child_spec|done].
Qed.

(** * The program of the specification *)

(** [i] is the specification's program, with the credentials its [pre_exec] closure
    left it. *)
Definition specified (spec : SupervisorSpec) (fd : Z) (i : image) : Prop :=
  (im_program i, im_args i) = owned_command_line (ss_execution spec) ∧
  im_cwd i = ss_cwd spec ∧ im_env i = service_environment spec fd ∧
  ∃ tick, pre_exec (pre_faults tick) group_list (spec_run_as spec) daemon = (im_cred i, Ok tt).

(** At most one program was started, and it is the specified one. *)
Definition starts (spec : SupervisorSpec) (fd : Z) (m m' : machine) : Prop :=
  images m' = images m ∨ ∃ i, images m' = images m ++ [i] ∧ specified spec fd i.

Lemma spawn_starts spec fd program args m :
  owned_command_line (ss_execution spec) = (program, args) →
  starts spec fd m (spawn_service_command orc pre_faults daemon group_list program args (ss_cwd spec)
                      (service_environment spec fd) (spec_run_as spec) m).1.
Proof.
  intros Hc. unfold spawn_service_command. pose proof (later_service_images _ _ (advance_later moves kill_delay 0 m)) as Hi.
  unfold same_service_images in Hi. revert Hi. generalize (advance moves kill_delay 0 m). intros m1 Hi.
  destruct (vm_fault _); [by left|].
  destruct (pre_exec _ _ _ _) as [child [[]|e]] eqn:Ep; [right|by left].
  eexists. cbn. rewrite Hi. split; [done|]. unfold specified. cbn. by eauto.
Qed.

Lemma starts_keeps {A} spec fd (c : eff machine (halt io_error) A) m0 m :
  keeps same_service_images c → starts spec fd m0 m → starts spec fd m0 (c m).1.
Proof. intros Hc [Hs|(i & Hs & Hi)]; [left|right]; specialize (Hc m); unfold same_service_images in Hc; rewrite Hc; eauto. Qed.

Lemma starts_before {A B} spec fd (c : eff machine (halt io_error) A) (k : A → eff machine (halt io_error) B) m :
  keeps same_service_images c → (∀ a m1, starts spec fd m1 (k a m1).1) → starts spec fd m ((c ≫= k) m).1.
Proof.
  intros Hc Hk. unfold mbind, eff_bind. specialize (Hc m). unfold same_service_images in Hc.
  destruct (c m) as [m1 [a|e]]; cbn in *; [|by left].
  destruct (Hk a m1) as [Hs|(i & Hs & Hi)]; [left|right]; rewrite Hs, Hc; eauto.
Qed.

Lemma starts_after {A B} spec fd (c : eff machine (halt io_error) A) (k : A → eff machine (halt io_error) B) m :
  starts spec fd m (c m).1 → (∀ a, keeps same_service_images (k a)) → starts spec fd m ((c ≫= k) m).1.
Proof.
  intros Hc Hk. unfold mbind, eff_bind. destruct (c m) as [m1 [a|e]]; [|done].
  by apply (starts_keeps spec fd (k a)).
Qed.

Lemma supervise_service_starts fuel pid spec fd inject m :
  starts spec fd m (supervise_service orc pre_faults daemon group_list fuel pid spec fd inject m).1.
Proof.
  unfold supervise_service. destruct (owned_command_line _) as [program args] eqn:Ec.
  apply starts_before; [apply keeps_lift; apply _|]. intros _ m1.
  apply starts_after; [by apply spawn_starts|]. intros _. apply guarded_images.
  apply keeps_bind; [apply _|apply write_status_images|intros _].
  apply keeps_bind; [apply _|by intros ?; destruct inject|intros _].
  apply keeps_bind; [apply _|by eapply settles_images, sys_settles|intros _]. apply supervise_loop_images.
Qed.

Lemma lift_Ok_bind {A B} (a : A) (k : A → eff machine (halt io_error) B) m :
  (io_lift (map_err Raised (Ok (E := io_error) a)) ≫= k) m = k a m.
Proof. done. Qed.

Lemma run_supervisor_starts fuel pid own_group spec fd m :
  starts spec fd m (run_supervisor orc pre_faults daemon group_list fuel pid own_group (Ok spec) fd m).1.
Proof.
  unfold run_supervisor. apply starts_before; [by eapply settles_images, sys_settles|]. intros _ m1.
  apply starts_before; [by eapply settles_images, sys_settles|]. intros _ m2.
  apply starts_after.
  - unfold io_try. match goal with |- context [let '(_, _) := ?c m2 in _] =>
      enough (starts spec fd m2 (c m2).1) as Hs by (by destruct (c m2)) end.
    apply starts_before; [destruct own_group; [by intros ?|by eapply settles_images, sys_settles]|]. intros _ m3.
    rewrite lift_Ok_bind. apply starts_before; [apply keeps_lift; apply _|]. intros _ m5.
    apply starts_before; [by eapply settles_images, sys_settles|]. intros _ m6. apply supervise_service_starts.
  - intros [a|[e|]]; [done| |done].
    apply keeps_bind; [apply _|apply keeps_try, write_status_images|done].
Qed.

(** A service runs exactly the command its configuration names, in the directory
    and environment of its task, and as the configured task user: never as root, and
    never as the user the daemon runs as. *)
Theorem service_runs_as_task_user canonicalize config task service workspace fd spec run_as
    fuel pid own_group m :
  service_spec daemon canonicalize config task service workspace fd = Ok spec →
  resolve_run_as (cr_ruid daemon) config = Ok run_as →
  images m = [] →
  ∀ i, i ∈ images (run_supervisor orc pre_faults daemon group_list fuel pid own_group (Ok spec) fd m).1 →
    Some (im_program i, im_args i) = owned_command_line ∘ owned_execution <$> SessionServiceConfig_execution service ∧
    im_cwd i = ss_cwd spec ∧
    im_env i = <[SERVICE_READY_FD_ENV := pretty fd]> (list_to_map (rev (build_env task (ra_user run_as)))) ∧
    im_cred i = {| cr_ruid := ui_uid (ra_user run_as); cr_euid := ui_uid (ra_user run_as);
                   cr_gid := ra_gid run_as;
                   cr_groups := group_list (ui_username (ra_user run_as)) (ra_gid run_as) |} ∧
    cr_euid (im_cred i) ≠ 0 ∧ cr_euid (im_cred i) ≠ cr_euid daemon.
Proof.
  intros Hspec Hrun Hm i Hi. unfold service_spec in Hspec.
  apply bind_Ok in Hspec as (ra & Hra & Hspec). rewrite Hrun in Hra. injection Hra as <-.
  apply bind_Ok in Hspec as ([] & _ & Hspec). apply bind_Ok in Hspec as ([] & Er & Hspec).
  apply refuse_if_Ok in Er. breflect.
  apply bind_Ok in Hspec as (cwd & _ & Hspec). apply bind_Ok in Hspec as (execution & He & Hspec).
  apply ok_or_Ok in He. rewrite He. injection Hspec as Hspec.
  destruct (run_supervisor_starts fuel pid own_group spec fd m) as [Hs|(j & Hs & Hj)]; rewrite Hs, Hm in Hi; [by set_solver|].
  apply list_elem_of_singleton in Hi as ->. destruct Hj as (Hp & Hcwd & Henv & tick & Hpre). subst spec.
  apply pre_exec_Ok in Hpre as [_ Hpre]. unfold spec_run_as in Hpre. cbn in *. replace (ra_set_ids run_as) with true in Hpre by done.
  destruct Hpre as [Hroot ->]. cbn in *. rewrite <-Hp. split_and!; [done..| |done]. lia.
Qed.
End identity.
