(* ===== verification/ServiceExamples.v ===== *)
(** A concrete status encoding, a service that obeys [SIGTERM], one that has to be
    killed, and what happens when waiting for adopted children takes the service's
    own exit status. *)
From Stdlib Require Import Ascii.
From stdpp Require Import base option strings numbers list gmap relations pretty countable.
From S2P Require Import Prelude Effects RustStr Validation Accounts Archive Protocol Config RunAs Process ProcessFacts MachineRules Output ServiceStatus ServiceProcess Supervisor SupervisorTheorems Services ServiceTheorems ServiceStart.

Local Open Scope N_scope.

(** * A status encoding *)

#[export] Instance SupervisorStatus_countable : Countable SupervisorStatus.
Proof.
  refine (inj_countable'
    (λ s, match s with
          | StSpawned pid pgid => inl (inl (pid, pgid))
          | StExited code => inl (inr code)
          | StStopped => inr (inl tt)
          | StFailed message => inr (inr message)
          end)
    (λ s, match s with
          | inl (inl (pid, pgid)) => StSpawned pid pgid
          | inl (inr code) => StExited code
          | inr (inl _) => StStopped
          | inr (inr message) => StFailed message
          end) _).
  by intros [].
Defined.

Fixpoint bits_of (p : positive) : list ascii :=
  match p with
  | xH => []
  | xO p => "0"%char :: bits_of p
  | xI p => "1"%char :: bits_of p
  end.

Fixpoint of_bits (l : list ascii) : positive :=
  match l with
  | [] => xH
  | b :: l => if bool_decide (b = "0"%char) then xO (of_bits l) else xI (of_bits l)
  end.

#[local] Instance demo_codec : StatusCodec := {|
  encode_status s := bits_of (encode s);
  decode_status l := match decode (of_bits l) with
                     | Some s => Ok s
                     | None => Err (IoError InvalidData "status")
                     end;
|}.

Lemma of_bits_of p : of_bits (bits_of p) = p.
Proof.
  induction p as [p IH|p IH|]; cbn [bits_of of_bits]; [| |done].
  - rewrite bool_decide_false by done. by rewrite IH.
  - rewrite bool_decide_true by done. by rewrite IH.
Qed.

#[local] Instance demo_codec_laws : StatusCodecLaws.
Proof.
  split.
  - intros s. cbn. by rewrite of_bits_of, countable.decode_encode.
  - intros s. cbn. induction (encode s); cbn; set_solver.
Qed.

Definition demo_statuses : list SupervisorStatus := [StSpawned 7 7; StStopped].

(** The two lines, cut into reads of three bytes with a pause after each. *)
Fixpoint demo_cut (fuel : nat) (l : list ascii) : list pipe_read :=
  match fuel, l with
  | O, _ | _, [] => []
  | S fuel, _ => Chunk (take 3 l) :: ReadFailed (IoError Prelude.WouldBlock "") :: demo_cut fuel (drop 3 l)
  end.

Definition demo_reads : list pipe_read := demo_cut 100 (demo_statuses ≫= status_line).

Lemma statuses_round_trip_witness :
  receive 2 200 (mkStatusReader [] demo_reads) = (demo_statuses, None) ∧
  receive 3 200 (mkStatusReader [] (demo_reads ++ [Chunk []])) =
    (demo_statuses, Some (IoError UnexpectedEof "service supervisor status closed")).
Proof.
  apply (statuses_round_trip demo_statuses demo_reads 200 []).
  - do 2 (apply List.Forall_cons; [by apply Nat.ltb_lt; vm_compute|]); done.
  - vm_compute. repeat constructor; done.
  - vm_compute. done.
  - set_solver.
  - by apply Nat.ltb_lt; vm_compute.
  - by apply Nat.ltb_lt; vm_compute.
Defined.

(** * A service that obeys *)

Definition demo_service : SessionServiceConfig :=
  {| se_script := Some "exec server"; se_executable := None; se_args := [];
     se_startup_timeout_sec := 10; se_shutdown_timeout_sec := 1; se_diagnostic_tail_bytes := 4096 |}.

Definition demo_service_spec : result failure SupervisorSpec :=
  service_spec demo_daemon Ok demo_config demo_task demo_service "/w" 9.

(** The daemon closes the control pipe at the seventh call, and the service exits
    during the twelfth. *)
Definition demo_sup_moves (k : nat) : sup_move :=
  SupMove (ms 1) (if Nat.eqb k 12 then [LeaderExits (Signalled 15)] else []) (Nat.eqb k 7) None 0
    (PickOther false).

Definition demo_idle_sup : Machine SupState :=
  mkMachine 0 0 (Group (Reaped (ExitCode 0)) 0 0) None [] false (mkSup false [] []).

Definition demo_supervision : Machine SupState * result (halt io_error) unit :=
  match demo_service_spec with
  | Ok spec => run_supervisor demo_sup_moves (λ _ _, None) demo_daemon (λ _ gid, [gid]) 20 7 true (Ok spec) 9
                 demo_idle_sup
  | Err _ => (demo_idle_sup, Err Diverged)
  end.

Example demo_supervision_ends :
  demo_supervision.2 = Ok tt ∧
  map sw_status (su_writes (m_shared demo_supervision.1)) = demo_statuses ∧
  gone (m_group demo_supervision.1) = true.
Proof. vm_compute. done. Qed.

Definition demo_running_spec : SupervisorSpec :=
  {| ss_execution := OwnedScript "exec server"; ss_cwd := "/w/."; ss_environment := build_env demo_task demo_builder;
     ss_username := "builder"; ss_home_dir := "/home/builder"; ss_uid := 1000; ss_gid := 1000;
     ss_set_ids := true; ss_shutdown_timeout_sec := 1; ss_readiness_fd := 9 |}.

Abbreviation demo_run :=
  (run_supervisor demo_sup_moves (λ _ _, None) demo_daemon (λ _ gid, [gid]) 20 7 true (Ok demo_running_spec) 9
     demo_idle_sup).

Lemma supervisor_reports_truth_witness :
  Forall truthful (su_writes (m_shared demo_run.1)) ∧ finished demo_run.1 ∧ ended_with (m_shared demo_run.1).
Proof.
  destruct (supervisor_reports_truth demo_sup_moves (λ _ _, None) demo_daemon (λ _ gid, [gid]) 20 7 true
    (Ok demo_running_spec) 9 demo_idle_sup demo_run.1 demo_run.2) as [Ht Hf].
  - vm_compute. done.
  - done.
  - split; [exact Ht|apply Hf]. vm_compute. done.
Defined.

Lemma closed_supervisor_returns_witness : demo_run.2 ≠ Err Diverged.
Proof.
  apply (closed_supervisor_returns demo_sup_moves (λ _ _, None) demo_daemon (λ _ gid, [gid]) 7).
  - done.
  - cbn. lia.
  - lia.
Defined.

Lemma service_runs_as_task_user_witness :
  Forall (λ i, cr_euid (im_cred i) ≠ 0 ∧ im_program i = "/bin/sh") (su_images (m_shared demo_run.1)).
Proof.
  apply Forall_forall. intros i Hi.
  destruct (service_runs_as_task_user demo_sup_moves (λ _ _, None) demo_daemon (λ _ gid, [gid]) Ok demo_config
    demo_task demo_service "/w" 9 demo_running_spec
    {| ra_user := demo_builder; ra_gid := 1000; ra_set_ids := true |} 20 7 true demo_idle_sup)
    with (i := i) as (Hp & _ & _ & _ & Hroot & _).
  - vm_compute. done.
  - vm_compute. done.
  - done.
  - by apply list_elem_of_In.
  - split; [exact Hroot|]. cbn in Hp. by injection Hp.
Defined.

(** * Descendants left behind *)

(** The service and a descendant; both exit at once on [SIGTERM], but only the
    supervisor can wait for the descendant, and it does so after [SIGKILL]. *)
Definition demo_orphan_moves (k : nat) : sup_move :=
  SupMove (ms 30) (if Nat.eqb k 1 then [LeaderExits (Signalled 15); MemberExits] else []) false None 0 PickOrphan.

Definition demo_orphaned : Machine SupState :=
  mkMachine 0 0 (Group Running 1 1) None [] false (mkSup true [] []).

Abbreviation demo_orphan_stop :=
  (stop_service_child (λ k, sup_move_of (demo_orphan_moves k)) (λ k, vm_wait (demo_orphan_moves k)) None 1
     demo_orphaned).

Lemma orphans_delay_stop_witness :
  0 + secs 1 ≤ m_now demo_orphan_stop.1 ∧ gone (m_group demo_orphan_stop.1) = true.
Proof.
  apply (orphans_delay_stop demo_orphan_moves) with (m := demo_orphaned).
  - intros k. unfold demo_orphan_moves. cbn. destruct (Nat.eqb k 1); set_solver.
  - cbn. lia.
  - vm_compute. done.
Defined.

(** * Stopping from the daemon *)

(** The supervisor stops the service, and everything ends, during the fourth call. *)
Definition demo_service_moves (k : nat) : service_move :=
  ServiceMove (ms 1) (if Nat.eqb k 4 then [MemberExits; ZombieReaped] else [])
    (if Nat.eqb k 4
     then [MonitorReports (Ok StStopped) (Ok true); MonitorFlags; OutputEnds 0 false; OutputEnds 1 false]
     else []) false None.

Definition demo_serving : Machine ServiceState :=
  mkMachine 0 0 (Group Stolen 1 0) None [] false
    (mkService true false false false MonWatching None RdTaken ThFinished [ThRunning; ThRunning] false []).

Abbreviation demo_stop := (stop_service "db" 1 6 7 demo_service_moves None true 2 demo_serving).

Lemma stopped_service_is_gone_witness :
  demo_stop.2 = Ok (Ok tt) ∧ gone (m_group demo_stop.1) = true.
Proof.
  destruct (stopped_service_is_gone "db" 1 6 7 demo_service_moves None true 2 demo_serving demo_stop.1 demo_stop.2)
    as (answer & Hr & Ha).
  - vm_compute. done.
  - assert (demo_stop.2 = Ok (Ok tt)) as Hok by (vm_compute; done).
    split; [exact Hok|]. rewrite Hok in Hr. injection Hr as <-. apply Ha.
Defined.

(** A service that exited on its own: its monitor has reported that already, and
    stopping it says so, with the cleanup proven. *)
Example exited_service_stopped :
  (stop_service "db" 1 6 7 demo_service_moves None true 2
    (mkMachine 0 0 (Group Stolen 0 0) None [] false
      (mkService true false true false MonDone (Some (Err "db exited (1)")) RdTaken ThFinished
         [ThFinished; ThFinished] false []))).2 =
  Ok (Err {| se_message := "db exited (1)"; se_cleanup_unproven := false |}).
Proof. vm_compute. done. Qed.

(** * A stolen exit status *)

(** The service survives [SIGTERM] and dies of [SIGKILL] just before the supervisor
    waits for adopted children, while a descendant is still there. *)
Definition demo_stolen_moves (k : nat) : sup_move :=
  SupMove (if Nat.ltb k 16 then ms 600 else ms 1)
    (if Nat.eqb k 6 then [MemberForks] else if Nat.eqb k 20 then [LeaderExits (Signalled 9)] else [])
    (Nat.eqb k 7) None 0 (PickOther false).

Abbreviation demo_stolen :=
  (run_supervisor demo_stolen_moves (λ _ _, None) demo_daemon (λ _ gid, [gid]) 20 7 true (Ok demo_running_spec) 9
     demo_idle_sup).

(** Waiting for adopted children takes the service's own exit status, so the next
    [try_wait] fails and the stop is abandoned a few milliseconds after [SIGKILL],
    with a descendant still alive. *)
Example stolen_status_abandons_stop :
  demo_stolen.2 = Err (Raised (IoError OtherKind "ECHILD")) ∧
  m_group demo_stolen.1 = Group Stolen 1 0 ∧
  map sw_status (su_writes (m_shared demo_stolen.1)) = [StSpawned 7 7; StFailed "ECHILD"].
Proof. vm_compute. done. Qed.
