(* ===== verification/Sessions.v ===== *)
(** [src/src/sessions.rs]: the operations of the session manager.

    Every operation holds the session's state lock while it decides, so each is
    a function from the entry it finds to the entry it leaves, together with
    what its thread does after the lock is dropped ([next]).  [Instant::now] is
    the argument [now] (nanoseconds on a monotonic clock; one reading per
    critical section).  A [CancellationFlag] is shared by the state and the
    worker: the entry keeps the set of operation ids whose flag is set.  The
    entry also carries its place in the registry, its build permit, its
    workspace directory and its durable metadata file. *)
From Stdlib Require Import Ascii.
From stdpp Require Import base option strings numbers gmap pretty list.
From S2P Require Import Prelude RustStr Fs Protocol Logging Config.

Local Open Scope N_scope.

Definition METADATA_VERSION : N := 3.
Definition METADATA_DIRECTORY : string := ".sessions".

(** * State *)

Inductive CleanupOwner := Initializer | ActionOwner | UpdateOwner | Requester.

#[export] Instance cleanup_owner_eq_dec : EqDecision CleanupOwner.
Proof. solve_decision. Defined.

Record Termination := { tm_explicit : bool; tm_owner : CleanupOwner }.

Inductive SessionState :=
| Initializing (worker_started : bool)
| Ready (last_activity : N)
| Action (action_id : string)
| Updating (update_id : string)
| Terminating (t : Termination)
| Terminated (response : SessionStopResponse).

Record SuccessfulUpdate := {
  sf_request_id : string;
  sf_request_digest : string;
  sf_response : SessionUpdateResponse;
}.

(** [services::DurableServiceProcess]. *)
Record DurableServiceProcess := {
  dp_name : string;
  dp_supervisor_pid : N;
  dp_service_pid : N;
  dp_service_pgid : Z;
  dp_shutdown_timeout_sec : N;
}.

Inductive DurableSessionState := DStartingServices | DReady.

Record DurableSessionMetadata := {
  dm_version : N;
  dm_session_id : string;
  dm_task_id : string;
  dm_workspace_revision : N;
  dm_state : DurableSessionState;
  dm_services : list DurableServiceProcess;
}.

(** [en_permit], [en_registered]: the build permit is held, the entry is in the
    registry; [en_workspace]: its directory exists; [en_metadata]: the file at
    its metadata path. *)
Record SessionEntry := {
  en_id : string;
  en_request_id : option string;
  en_task_id : string;
  en_task : TaskConfig;
  en_deadline : N;
  en_state : SessionState;
  en_init_cancelled : bool;
  en_cancelled : gset string;
  en_permit : bool;
  en_registered : bool;
  en_revision : N;
  en_last_success : option SuccessfulUpdate;
  en_services : list DurableServiceProcess;
  en_retaining_output : bool;
  en_workspace : bool;
  en_metadata : option DurableSessionMetadata;
}.

Definition set_state (v : SessionState) (e : SessionEntry) : SessionEntry :=
    {| en_id := en_id e; en_request_id := en_request_id e; en_task_id := en_task_id e; en_task :=
     en_task e; en_deadline := en_deadline e; en_state := v; en_init_cancelled :=
     en_init_cancelled e; en_cancelled := en_cancelled e; en_permit := en_permit e; en_registered
     := en_registered e; en_revision := en_revision e; en_last_success := en_last_success e;
     en_services := en_services e; en_retaining_output := en_retaining_output e; en_workspace :=
     en_workspace e; en_metadata := en_metadata e |}.
Definition set_init_cancelled (v : bool) (e : SessionEntry) : SessionEntry :=
    {| en_id := en_id e; en_request_id := en_request_id e; en_task_id := en_task_id e; en_task :=
     en_task e; en_deadline := en_deadline e; en_state := en_state e; en_init_cancelled := v;
     en_cancelled := en_cancelled e; en_permit := en_permit e; en_registered := en_registered e;
     en_revision := en_revision e; en_last_success := en_last_success e; en_services :=
     en_services e; en_retaining_output := en_retaining_output e; en_workspace := en_workspace e;
     en_metadata := en_metadata e |}.
Definition set_cancelled (v : gset string) (e : SessionEntry) : SessionEntry :=
    {| en_id := en_id e; en_request_id := en_request_id e; en_task_id := en_task_id e; en_task :=
     en_task e; en_deadline := en_deadline e; en_state := en_state e; en_init_cancelled :=
     en_init_cancelled e; en_cancelled := v; en_permit := en_permit e; en_registered :=
     en_registered e; en_revision := en_revision e; en_last_success := en_last_success e;
     en_services := en_services e; en_retaining_output := en_retaining_output e; en_workspace :=
     en_workspace e; en_metadata := en_metadata e |}.
Definition set_permit (v : bool) (e : SessionEntry) : SessionEntry :=
    {| en_id := en_id e; en_request_id := en_request_id e; en_task_id := en_task_id e; en_task :=
     en_task e; en_deadline := en_deadline e; en_state := en_state e; en_init_cancelled :=
     en_init_cancelled e; en_cancelled := en_cancelled e; en_permit := v; en_registered :=
     en_registered e; en_revision := en_revision e; en_last_success := en_last_success e;
     en_services := en_services e; en_retaining_output := en_retaining_output e; en_workspace :=
     en_workspace e; en_metadata := en_metadata e |}.
Definition set_registered (v : bool) (e : SessionEntry) : SessionEntry :=
    {| en_id := en_id e; en_request_id := en_request_id e; en_task_id := en_task_id e; en_task :=
     en_task e; en_deadline := en_deadline e; en_state := en_state e; en_init_cancelled :=
     en_init_cancelled e; en_cancelled := en_cancelled e; en_permit := en_permit e; en_registered
     := v; en_revision := en_revision e; en_last_success := en_last_success e; en_services :=
     en_services e; en_retaining_output := en_retaining_output e; en_workspace := en_workspace e;
     en_metadata := en_metadata e |}.
Definition set_revision (v : N) (e : SessionEntry) : SessionEntry :=
    {| en_id := en_id e; en_request_id := en_request_id e; en_task_id := en_task_id e; en_task :=
     en_task e; en_deadline := en_deadline e; en_state := en_state e; en_init_cancelled :=
     en_init_cancelled e; en_cancelled := en_cancelled e; en_permit := en_permit e; en_registered
     := en_registered e; en_revision := v; en_last_success := en_last_success e; en_services :=
     en_services e; en_retaining_output := en_retaining_output e; en_workspace := en_workspace e;
     en_metadata := en_metadata e |}.
Definition set_last_success (v : option SuccessfulUpdate) (e : SessionEntry) : SessionEntry :=
    {| en_id := en_id e; en_request_id := en_request_id e; en_task_id := en_task_id e; en_task :=
     en_task e; en_deadline := en_deadline e; en_state := en_state e; en_init_cancelled :=
     en_init_cancelled e; en_cancelled := en_cancelled e; en_permit := en_permit e; en_registered
     := en_registered e; en_revision := en_revision e; en_last_success := v; en_services :=
     en_services e; en_retaining_output := en_retaining_output e; en_workspace := en_workspace e;
     en_metadata := en_metadata e |}.
Definition set_services (v : list DurableServiceProcess) (e : SessionEntry) : SessionEntry :=
    {| en_id := en_id e; en_request_id := en_request_id e; en_task_id := en_task_id e; en_task :=
     en_task e; en_deadline := en_deadline e; en_state := en_state e; en_init_cancelled :=
     en_init_cancelled e; en_cancelled := en_cancelled e; en_permit := en_permit e; en_registered
     := en_registered e; en_revision := en_revision e; en_last_success := en_last_success e;
     en_services := v; en_retaining_output := en_retaining_output e; en_workspace := en_workspace
     e; en_metadata := en_metadata e |}.
Definition set_retaining_output (v : bool) (e : SessionEntry) : SessionEntry :=
    {| en_id := en_id e; en_request_id := en_request_id e; en_task_id := en_task_id e; en_task :=
     en_task e; en_deadline := en_deadline e; en_state := en_state e; en_init_cancelled :=
     en_init_cancelled e; en_cancelled := en_cancelled e; en_permit := en_permit e; en_registered
     := en_registered e; en_revision := en_revision e; en_last_success := en_last_success e;
     en_services := en_services e; en_retaining_output := v; en_workspace := en_workspace e;
     en_metadata := en_metadata e |}.
Definition set_workspace (v : bool) (e : SessionEntry) : SessionEntry :=
    {| en_id := en_id e; en_request_id := en_request_id e; en_task_id := en_task_id e; en_task :=
     en_task e; en_deadline := en_deadline e; en_state := en_state e; en_init_cancelled :=
     en_init_cancelled e; en_cancelled := en_cancelled e; en_permit := en_permit e; en_registered
     := en_registered e; en_revision := en_revision e; en_last_success := en_last_success e;
     en_services := en_services e; en_retaining_output := en_retaining_output e; en_workspace :=
     v; en_metadata := en_metadata e |}.
Definition set_metadata (v : option DurableSessionMetadata) (e : SessionEntry) : SessionEntry :=
    {| en_id := en_id e; en_request_id := en_request_id e; en_task_id := en_task_id e; en_task :=
     en_task e; en_deadline := en_deadline e; en_state := en_state e; en_init_cancelled :=
     en_init_cancelled e; en_cancelled := en_cancelled e; en_permit := en_permit e; en_registered
     := en_registered e; en_revision := en_revision e; en_last_success := en_last_success e;
     en_services := en_services e; en_retaining_output := en_retaining_output e; en_workspace :=
     en_workspace e; en_metadata := v |}.

(** What the calling thread does once it has dropped the state lock:
    return, run [cleanup_entry], or wait for [Terminated]. *)
Inductive next := Return | Cleanup (explicit : bool) | Wait.

Definition terminate (explicit : bool) (owner : CleanupOwner) (e : SessionEntry) : SessionEntry :=
  set_state (Terminating {| tm_explicit := explicit; tm_owner := owner |}) e.
Definition cancel_initialization (e : SessionEntry) : SessionEntry := set_init_cancelled true e.
Definition cancel_operation (op : string) (e : SessionEntry) : SessionEntry :=
  set_cancelled ({[ op ]} ∪ en_cancelled e) e.
Definition is_cancelled (op : string) (e : SessionEntry) : bool :=
  bool_decide (op ∈ en_cancelled e).

Definition is_initializing (s : SessionState) : bool :=
  match s with Initializing _ => true | _ => false end.

Definition session_config (e : SessionEntry) : option TaskSessionConfig := tk_session (en_task e).

(** * Reservation and initialization *)

(** [SessionManager::reserve], for a session id that is fresh; [None] is one of
    its panics ([expect], [assert!]). *)
Definition reserve (session_id : string) (request_id : option string) (task_id : string)
    (task : TaskConfig) (now : N) : option SessionEntry :=
  session ← tk_session task;
  if sn_max_lifetime_sec session <=? MAX_SESSION_LIFETIME_SEC then
    Some {|
      en_id := session_id; en_request_id := request_id; en_task_id := task_id; en_task := task;
      en_deadline := now + sn_max_lifetime_sec session * 1000000000;
      en_state := Initializing false; en_init_cancelled := false; en_cancelled := ∅;
      en_permit := true; en_registered := true; en_revision := 0; en_last_success := None;
      en_services := []; en_retaining_output := false; en_workspace := false; en_metadata := None;
    |}
  else None.

Definition remaining_lifetime (now : N) (e : SessionEntry) : N := saturating_sub (en_deadline e) now.

Definition begin_initialization (now : N) (e : SessionEntry) : SessionEntry * bool * next :=
  match en_state e with
  | Initializing false =>
      if negb (en_init_cancelled e) && (now <? en_deadline e)
      then (set_state (Initializing true) e, true, Return)
      else (terminate false Requester (cancel_initialization e), false, Cleanup false)
  | _ => (e, false, Return)
  end.

Definition cancel_upload (e : SessionEntry) : SessionEntry * next :=
  match en_state e with
  | Initializing false => (terminate false Requester (cancel_initialization e), Cleanup false)
  | _ => (e, Return)
  end.

(** The first check of [initialize] after the services are up: may the
    metadata be committed? *)
Definition precommit_check (now : N) (e : SessionEntry) : SessionEntry * bool :=
  if negb (is_initializing (en_state e)) || en_init_cancelled e || (en_deadline e <=? now) then
    (if is_initializing (en_state e) then terminate false Initializer e else e, false)
  else (e, true).

Definition metadata_version (e : SessionEntry) : N :=
  match session_config e with
  | Some session => if is_nil (map_to_list (sn_services session)) then 2 else METADATA_VERSION
  | None => 2
  end.

Definition durable_metadata (version revision : N) (state : DurableSessionState) (e : SessionEntry) :
    DurableSessionMetadata :=
  {| dm_version := version; dm_session_id := en_id e; dm_task_id := en_task_id e;
     dm_workspace_revision := revision; dm_state := state; dm_services := en_services e |}.

(** Where [write_metadata] fails: the file at the final path has changed
    exactly when [rename] succeeded. *)
Inductive write_fault :=
| PrepareFault | CreateFault | WriteFault | SyncFault | RenameFault | SyncDirectoryFault.

Definition write_metadata (fault : option write_fault) (m : DurableSessionMetadata)
    (e : SessionEntry) : SessionEntry * bool :=
  match fault with
  | None => (set_metadata (Some m) e, true)
  | Some SyncDirectoryFault => (set_metadata (Some m) e, false)
  | Some _ => (e, false)
  end.

(** The lock section after a failed commit. *)
Definition commit_failed (e : SessionEntry) : SessionEntry :=
  if is_initializing (en_state e) then terminate false Initializer e else e.

(** The election that ends [initialize]: [true] when the session is ready. *)
Definition commit_election (now : N) (e : SessionEntry) : SessionEntry * bool :=
  if is_initializing (en_state e) && negb (en_init_cancelled e) && (now <? en_deadline e)
  then (set_retaining_output true (set_state (Ready now) e), true)
  else (commit_failed e, false).

Definition remove_metadata (e : SessionEntry) : SessionEntry := set_metadata None e.

Definition initializer_cleanup (default_explicit : bool) (e : SessionEntry) : SessionEntry * next :=
  match en_state e with
  | Initializing _ => (terminate default_explicit Initializer e, Cleanup default_explicit)
  | Terminating t =>
      if bool_decide (tm_owner t = Initializer) then (e, Cleanup (tm_explicit t)) else (e, Return)
  | _ => (e, Return)
  end.

(** One spawned service is pushed before its metadata is written. *)
Definition push_service (process : DurableServiceProcess) (e : SessionEntry) : SessionEntry :=
  set_services (en_services e ++ [process]) e.

(** * Events that may end a session *)

Definition service_failed (e : SessionEntry) : SessionEntry * next :=
  match en_state e with
  | Initializing _ => (terminate false Initializer (cancel_initialization e), Return)
  | Ready _ => (terminate false Requester e, Cleanup false)
  | Action op => (terminate false ActionOwner (cancel_operation op e), Return)
  | Updating op => (terminate false UpdateOwner (cancel_operation op e), Return)
  | Terminating _ | Terminated _ => (e, Return)
  end.

Definition disconnect (e : SessionEntry) : SessionEntry * next :=
  if negb (en_registered e) then (e, Return)
  else match en_state e with
  | Initializing true => (terminate false Initializer (cancel_initialization e), Return)
  | Initializing false => (terminate false Requester (cancel_initialization e), Cleanup false)
  | Ready _ | Action _ | Updating _ | Terminating _ | Terminated _ => (e, Return)
  end.

Inductive StopError := StopNotFound | StopConflict.

(** The entry is looked up in the same section: one that is unregistered between the
    lookup and its lock answers [StopNotFound] here, and a conflict in the source. *)
Definition stop (e : SessionEntry) : SessionEntry * result StopError next :=
  if negb (en_registered e) then (e, Err StopNotFound)
  else match en_state e with
  | Initializing true => (terminate true Initializer (cancel_initialization e), Ok Wait)
  | Action op => (terminate true ActionOwner (cancel_operation op e), Ok Wait)
  | Updating op => (terminate true UpdateOwner (cancel_operation op e), Ok Wait)
  | Initializing false | Ready _ =>
      (terminate true Requester (cancel_initialization e), Ok (Cleanup true))
  | Terminating _ | Terminated _ => (e, Err StopConflict)
  end.

Definition expire_lifetime (e : SessionEntry) : SessionEntry * next :=
  if negb (en_registered e) then (e, Return)
  else match en_state e with
  | Initializing true => (terminate false Initializer (cancel_initialization e), Return)
  | Action op => (terminate false ActionOwner (cancel_operation op e), Return)
  | Updating op => (terminate false UpdateOwner (cancel_operation op e), Return)
  | Initializing false | Ready _ =>
      (terminate false Requester (cancel_initialization e), Cleanup false)
  | Terminating _ | Terminated _ => (e, Return)
  end.

Definition expire_idle (now idle : N) (e : SessionEntry) : SessionEntry * next :=
  if negb (en_registered e) then (e, Return)
  else match en_state e with
  | Ready last_activity =>
      if idle <=? saturating_sub now last_activity
      then (terminate false Requester e, Cleanup false) else (e, Return)
  | _ => (e, Return)
  end.

Definition idle_remaining (now idle : N) (e : SessionEntry) : option N :=
  if negb (en_registered e) then None
  else match en_state e with
  | Ready last_activity => Some (saturating_sub idle (saturating_sub now last_activity))
  | _ => None
  end.

(** * Source updates *)

Inductive UpdateAdmissionError :=
| UpdateNotFound
| OperationConflict
| RevisionConflict (current_revision : string)
| RequestConflict.

Record SessionUpdateReservation := {
  rv_update_id : string;
  rv_request_id : string;
  rv_request_digest : string;
  rv_base_revision : N;
}.

Inductive SessionUpdateAdmission :=
| Start (r : SessionUpdateReservation)
| Retry (response : SessionUpdateResponse).

Definition update_policy (e : SessionEntry) : option SourceUpdatesConfig :=
  session_config e ≫= sn_source_updates.

Definition update_upload_context (now : N) (e : SessionEntry) :
    result UpdateAdmissionError (SourceUpdatesConfig * N) :=
  if negb (en_registered e) then Err UpdateNotFound
  else match update_policy e with
  | None => Err UpdateNotFound
  | Some policy =>
      match en_state e with
      | Ready _ | Action _ | Updating _ =>
          if now <? en_deadline e then Ok (policy, remaining_lifetime now e)
          else Err UpdateNotFound
      | _ => Err UpdateNotFound
      end
  end.

Definition start_update (now : N) (request_id request_digest : string) (base_revision : N)
    (update_id : string) (e : SessionEntry) :
    SessionEntry * result UpdateAdmissionError SessionUpdateAdmission :=
  if negb (en_registered e) then (e, Err UpdateNotFound)
  else if is_none (update_policy e) then (e, Err UpdateNotFound)
  else match en_state e with
  | Ready _ =>
      if now <? en_deadline e then
        let admission :=
          if negb (en_revision e =? base_revision)
          then (e, Err (RevisionConflict (format_revision (en_revision e))))
          else (set_state (Updating update_id) e,
                Ok (Start {| rv_update_id := update_id; rv_request_id := request_id;
                             rv_request_digest := request_digest;
                             rv_base_revision := base_revision |})) in
        match en_last_success e with
        | Some last =>
            if bool_decide (sf_request_id last = request_id) then
              if bool_decide (sf_request_digest last = request_digest)
              then (e, Ok (Retry (sf_response last))) else (e, Err RequestConflict)
            else admission
        | None => admission
        end
      else (e, Err UpdateNotFound)
  | Terminating _ | Terminated _ => (e, Err UpdateNotFound)
  | Initializing _ | Action _ | Updating _ => (e, Err OperationConflict)
  end.

Inductive UpdateErrorKind := UBadRequest | ULimit | UCancelled | UInternal.
Record UpdateError := { ue_kind : UpdateErrorKind; ue_rollback_proven : bool }.

Definition finish_update_error (now : N) (update_id : string) (err : UpdateError)
    (e : SessionEntry) : SessionEntry * next :=
  match en_state e with
  | Terminating t =>
      if bool_decide (tm_owner t = UpdateOwner) then (e, Cleanup (tm_explicit t)) else (e, Return)
  | Updating active =>
      if bool_decide (active = update_id) then
        if negb (ue_rollback_proven err)
        then (terminate false UpdateOwner e, Cleanup false)
        else (set_state (Ready now) e, Return)
      else (e, Return)
  | _ => (e, Return)
  end.

(** The answer [execute_update] builds from the reservation and the evidence. *)
Definition update_response (e : SessionEntry) (r : SessionUpdateReservation) (next_revision : N)
    (changed deleted : list SessionUpdateEvidence) : SessionUpdateResponse :=
  {| ur_session_id := en_id e; ur_update_id := rv_update_id r; ur_request_id := rv_request_id r;
     ur_base_revision := format_revision (rv_base_revision r);
     ur_workspace_revision := format_revision next_revision;
     ur_changed := changed; ur_deleted := deleted |}.

(** The lock section of [execute_update] after [apply_update] succeeded. *)
Definition finish_update_success (now : N) (r : SessionUpdateReservation) (next_revision : N)
    (changed deleted : list SessionUpdateEvidence) (e : SessionEntry) :
    SessionEntry * next * result UpdateError SessionUpdateResponse :=
  let response := update_response e r next_revision changed deleted in
  match en_state e with
  | Updating update_id =>
      if bool_decide (update_id = rv_update_id r) && negb (is_cancelled update_id e)
         && (now <? en_deadline e) then
        (set_state (Ready now)
           (set_last_success (Some {| sf_request_id := rv_request_id r;
                                      sf_request_digest := rv_request_digest r;
                                      sf_response := response |})
              (set_revision next_revision e)), Return, Ok response)
      else (terminate false UpdateOwner e, Cleanup false,
            Err {| ue_kind := UCancelled; ue_rollback_proven := true |})
  | Terminating t =>
      if bool_decide (tm_owner t = UpdateOwner)
      then (e, Cleanup (tm_explicit t), Err {| ue_kind := UCancelled; ue_rollback_proven := true |})
      else (e, Return, Err {| ue_kind := UInternal; ue_rollback_proven := false |})
  | _ => (e, Return, Err {| ue_kind := UInternal; ue_rollback_proven := false |})
  end.

Definition update_worker_panicked (e : SessionEntry) : SessionEntry * next :=
  if negb (en_registered e) then (e, Return)
  else match en_state e with
  | Updating op => (terminate false Requester (cancel_operation op e), Cleanup false)
  | Terminating t =>
      if bool_decide (tm_owner t = UpdateOwner) then (e, Cleanup (tm_explicit t)) else (e, Return)
  | _ => (e, Return)
  end.

(** * Actions *)

Inductive ActionError := ActionNotFound | UnknownAction | ActionConflict.
Inductive SessionActionMode := Named | Dispatcher.

Record SessionActionReservation := {
  sr_action_id : string;
  sr_action_name : string;
  sr_action : SessionActionConfig;
  sr_mode : SessionActionMode;
  sr_workspace_revision : string;
}.

Definition find_action (session : TaskSessionConfig) (action_name : string) :
    result ActionError (SessionActionConfig * SessionActionMode) :=
  match sn_actions session !! action_name with
  | Some action => Ok (action, Named)
  | None =>
      match sn_action_dispatcher session with
      | Some dispatcher =>
          action ← ok_or (resolve dispatcher action_name) UnknownAction;
          Ok (action, Dispatcher)
      | None => Err UnknownAction
      end
  end.

Definition start_action (now : N) (action_name action_id : string) (e : SessionEntry) :
    SessionEntry * result ActionError SessionActionReservation :=
  if negb (en_registered e) then (e, Err ActionNotFound)
  else match session_config e with
  | None => (e, Err ActionNotFound)
  | Some session =>
      match find_action session action_name with
      | Err err => (e, Err err)
      | Ok (action, mode) =>
          match en_state e with
          | Ready _ =>
              if now <? en_deadline e then
                (set_state (Action action_id) e,
                 Ok {| sr_action_id := action_id; sr_action_name := action_name;
                       sr_action := action; sr_mode := mode;
                       sr_workspace_revision := format_revision (en_revision e) |})
              else (e, Err ActionNotFound)
          | Terminating _ | Terminated _ => (e, Err ActionNotFound)
          | Initializing _ | Action _ | Updating _ => (e, Err ActionConflict)
          end
      end
  end.

(** What the program reads on its standard input. *)
Definition encode_input (r : SessionActionReservation) (input : list (string * json)) : json :=
  match sr_mode r with
  | Named => JObject input
  | Dispatcher => JObject [("schema_version", JString SESSION_ACTION_DISPATCH_SCHEMA_VERSION);
                           ("action", JString (sr_action_name r)); ("input", JObject input)]
  end.

Definition action_can_publish (now : N) (action_id : string) (e : SessionEntry) : bool :=
  match en_state e with
  | Action active =>
      bool_decide (active = action_id) && negb (is_cancelled active e) && (now <? en_deadline e)
  | _ => false
  end.

Definition finish_action (now : N) (action_id : string) (reusable : bool) (e : SessionEntry) :
    SessionEntry * next :=
  match en_state e with
  | Action active =>
      if bool_decide (active = action_id) then
        if reusable then (set_state (Ready now) e, Return)
        else (terminate false ActionOwner e, Cleanup false)
      else (e, Return)
  | Terminating t =>
      if bool_decide (tm_owner t = ActionOwner) then (e, Cleanup (tm_explicit t)) else (e, Return)
  | _ => (e, Return)
  end.

Definition acknowledge_action_delivery (now : N) (action_id : string) (e : SessionEntry) :
    SessionEntry * bool :=
  if negb (en_registered e) then (e, false)
  else match en_state e with
  | Action active =>
      if bool_decide (active = action_id) then
        if negb (is_cancelled active e) && (now <? en_deadline e)
        then (set_state (Ready now) e, true)
        else (terminate false ActionOwner (cancel_operation active e), false)
      else (e, false)
  | _ => (e, false)
  end.

Definition disconnect_action (action_id : string) (e : SessionEntry) : SessionEntry :=
  if negb (en_registered e) then e
  else match en_state e with
  | Action active =>
      if bool_decide (active = action_id)
      then terminate false ActionOwner (cancel_operation active e) else e
  | _ => e
  end.

(** * Cleanup

    [cleanup_entry] takes no state lock until its last step; its parts below are
    separate steps of the thread that runs it. *)

(** The results of stopping the services, last started first: [None] is
    success, [Some u] an error whose [cleanup_unproven()] is [u].  The answer is
    [(service_cleanup_failed, service_identity_cleanup_unproven)]. *)
Definition stop_services (results : list (option bool)) : bool * bool :=
  foldl (λ '(failed, unproven) r,
           match r with
           | None => (failed, unproven)
           | Some u => (true, unproven || u)
           end) (false, false) results.

Definition set_error_code (code : string) (t : SessionTeardownResult) : SessionTeardownResult :=
  {| td_duration_ms := td_duration_ms t; td_exit_code := td_exit_code t;
     td_timed_out := td_timed_out t; td_error_code := Some code |}.
Definition error_code_or (b : bool) (code : string) (t : SessionTeardownResult) :
    SessionTeardownResult :=
  if b && is_none (td_error_code t) then set_error_code code t else t.

Definition workspace_missing : SessionTeardownResult :=
  {| td_duration_ms := 0; td_exit_code := None; td_timed_out := false;
     td_error_code := Some "workspace_missing" |}.

(** What the environment answers during cleanup: whether the workspace is a
    directory before the teardown and after it, the teardown's result, the
    final artifact collection ([None] is its error), and whether the workspace
    and the metadata file could be removed. *)
Record cleanup_outcome := {
  co_stops : list (option bool);
  co_is_dir : bool;
  co_teardown : SessionTeardownResult;
  co_is_dir_after : bool;
  co_collection : option (option ArtifactArchive * option ArtifactRestrictions);
  co_workspace_removed : bool;
  co_metadata_removed : bool;
}.

Definition cleanup_response (session_id : string) (explicit : bool) (o : cleanup_outcome) :
    SessionStopResponse :=
  let '(failed, _) := stop_services (co_stops o) in
  let teardown := if co_is_dir o then co_teardown o else workspace_missing in
  let teardown := error_code_or failed "service_cleanup_failed" teardown in
  let collect := explicit && co_is_dir_after o in
  let '(teardown, artifacts, restrictions) :=
    if collect then
      match co_collection o with
      | Some (archive, restrictions) => (teardown, archive, restrictions)
      | None => (error_code_or true "artifact_collection_failed" teardown, None, None)
      end
    else (teardown, None, None) in
  {| sp_session_id := session_id; sp_teardown := teardown; sp_artifacts := artifacts;
     sp_artifact_restrictions := restrictions |}.

(** Taking the services out of the entry and silencing them. *)
Definition cleanup_take_services (e : SessionEntry) : SessionEntry :=
  set_services [] (set_retaining_output true e).

(** Removing the workspace, and the metadata unless a service identity may
    still be alive. *)
Definition cleanup_remove (o : cleanup_outcome) (e : SessionEntry) : SessionEntry :=
  let '(_, unproven) := stop_services (co_stops o) in
  let e := set_workspace (en_workspace e && negb (co_workspace_removed o)) e in
  if unproven || negb (co_metadata_removed o) then e else remove_metadata e.

Definition cleanup_unregister (e : SessionEntry) : SessionEntry := set_registered false e.
Definition cleanup_release (e : SessionEntry) : SessionEntry := set_permit false e.
Definition cleanup_finish (response : SessionStopResponse) (e : SessionEntry) : SessionEntry :=
  set_state (Terminated response) e.

(** The whole of [cleanup_entry], run without interference. *)
Definition cleanup_entry (explicit : bool) (o : cleanup_outcome) (e : SessionEntry) :
    SessionEntry * SessionStopResponse :=
  let response := cleanup_response (en_id e) explicit o in
  (cleanup_finish response
     (cleanup_release (cleanup_unregister (cleanup_remove o (cleanup_take_services e)))),
   response).

(** * Startup reconciliation *)

(** [await_stale_service_shutdown] once the waits are over: which recorded
    processes are still alive is given by the operating system. *)
Definition await_stale_service_shutdown (process_exists : N → bool)
    (process_group_exists : Z → result io_error bool) (m : DurableSessionMetadata) :
    result io_error unit :=
  for_each (λ service,
    _ ← reject_if (process_exists (dp_supervisor_pid service))
          (IoError WouldBlock "recorded service supervisor is still live; refusing unsafe stale cleanup");
    let group_live := match process_group_exists (dp_service_pgid service) with
                      | Ok b => b | Err _ => true end in
    reject_if (process_exists (dp_service_pid service) || group_live)
      (IoError WouldBlock "recorded service survived its supervisor; refusing PID-reuse-unsafe stale cleanup"))
    (rev (dm_services m)).

(** [file_stem] of a name whose [extension] is [json]: a name that is nothing but
    the suffix has no extension. *)
Definition stale_session_id (name : string) : option string :=
  match strip_suffix_str ".json" name with
  | Some stem => if is_empty stem then None else Some stem
  | None => None
  end.

Definition accept_metadata (session_id : string) (m : DurableSessionMetadata) : bool :=
  ((dm_version m =? 2) || (dm_version m =? METADATA_VERSION))
  && bool_decide (dm_session_id m = session_id).

(** What reconciliation does with one directory entry. *)
Inductive reconcile_action :=
| RemoveUnrecognized (name : string)
| RemoveSession (session_id : string) (teardown : option string)
| RemoveWorkspace (name : string).

(** [read] is [read_metadata] (its owner and mode checks included);
    [is_dir id] says whether that session's workspace is a directory. *)
Definition reconcile_one (process_exists : N → bool)
    (process_group_exists : Z → result io_error bool)
    (read : string → result io_error DurableSessionMetadata)
    (is_dir : string → bool) (tasks : gmap string TaskConfig) (name : string) :
    result io_error reconcile_action :=
  match stale_session_id name with
  | None => Ok (RemoveUnrecognized name)
  | Some session_id =>
      match result_ok (read name) with
      | Some m =>
          if accept_metadata session_id m then
            _ ← await_stale_service_shutdown process_exists process_group_exists m;
            let teardown :=
              match tasks !! dm_task_id m with
              | Some task =>
                  if is_some (tk_session task) && is_dir session_id then Some (dm_task_id m) else None
              | None => None
              end in
            Ok (RemoveSession session_id teardown)
          else Ok (RemoveSession session_id None)
      | None => Ok (RemoveSession session_id None)
      end
  end.

(** What [read_dir] answers, and every step of its iterator. *)
Abbreviation dir_listing := (result io_error (list (result io_error string))).

(** The loop over the metadata directory: the actions done before it ends, and
    the error it ends with. *)
Fixpoint reconcile_entries (process_exists : N → bool)
    (process_group_exists : Z → result io_error bool)
    (read : string → result io_error DurableSessionMetadata)
    (is_dir : string → bool) (tasks : gmap string TaskConfig) (names : list (result io_error string)) :
    list reconcile_action * result io_error unit :=
  match names with
  | [] => ([], Ok tt)
  | Err err :: _ => ([], Err err)
  | Ok name :: names =>
      match reconcile_one process_exists process_group_exists read is_dir tasks name with
      | Ok a =>
          let '(l, r) := reconcile_entries process_exists process_group_exists read is_dir tasks names in
          (a :: l, r)
      | Err err => ([], Err err)
      end
  end.

(** [validate_protected_directory] and the checks of [read_metadata]. *)
Definition protected_directory (daemon_uid : N) (m : file_meta) : bool :=
  negb (is_symlink m) && is_dir m && (fm_uid m =? daemon_uid) && negb (mode_has (fm_mode m) o077).
Definition protected_metadata (daemon_uid : N) (m : file_meta) : bool :=
  is_file m && (fm_uid m =? daemon_uid) && negb (mode_has (fm_mode m) o077).

(** The pass over the metadata directory, of which [metadata_root] is what
    [symlink_metadata] says and [listing] what [read_dir] does. *)
Definition reconcile_metadata (process_exists : N → bool)
    (process_group_exists : Z → result io_error bool)
    (read : string → result io_error DurableSessionMetadata)
    (is_dir : string → bool) (tasks : gmap string TaskConfig) (daemon_uid : N)
    (metadata_root : result io_error file_meta) (listing : dir_listing) :
    list reconcile_action * result io_error unit :=
  match metadata_root with
  | Ok m =>
      if protected_directory daemon_uid m
      then match listing with
           | Ok names => reconcile_entries process_exists process_group_exists read is_dir tasks names
           | Err err => ([], Err err)
           end
      else ([], Err (IoError PermissionDenied
                       "session metadata root must be a daemon-owned mode-0700 real directory"))
  | Err err => ([], if bool_decide (io_error_kind err = NotFound) then Ok tt else Err err)
  end.

(** The loop over the workspace root. *)
Fixpoint remove_workspaces (names : list (result io_error string)) :
    list reconcile_action * result io_error unit :=
  match names with
  | [] => ([], Ok tt)
  | Err err :: _ => ([], Err err)
  | Ok name :: names =>
      let '(l, r) := remove_workspaces names in
      (if starts_with "session-ses_" name then RemoveWorkspace name :: l else l, r)
  end.

(** The whole pass: [workspaces] lists the workspace root ([None] if it does not
    exist); what is left of sessions that were never committed is removed last. *)
Definition reconcile_stale_sessions (process_exists : N → bool)
    (process_group_exists : Z → result io_error bool)
    (read : string → result io_error DurableSessionMetadata)
    (is_dir : string → bool) (tasks : gmap string TaskConfig) (daemon_uid : N)
    (metadata_root : result io_error file_meta) (listing : dir_listing)
    (workspaces : option dir_listing) : list reconcile_action * result io_error unit :=
  let '(acts, r) := reconcile_metadata process_exists process_group_exists read is_dir tasks
                      daemon_uid metadata_root listing in
  match r with
  | Ok _ =>
      match workspaces with
      | None => (acts, Ok tt)
      | Some (Err err) => (acts, Err err)
      | Some (Ok names) => let '(removed, r) := remove_workspaces names in (acts ++ removed, r)
      end
  | Err err => (acts, Err err)
  end.
