(* ===== verification/Updates.v ===== *)
(** Source updates of a running session ([source_updates.rs]): checking and
    staging an uploaded archive, and applying it to the workspace as one
    transaction that is rolled back on any failure. *)
From Stdlib Require Import Ascii.
From stdpp Require Import base option strings numbers gmap fin_maps pretty list.
From S2P Require Import Prelude Effects RustStr Fs Posix Protocol Config Sessions.

Local Open Scope N_scope.

(** The [sha2] crate, with the digest printed in lowercase hexadecimal. *)
Class Sha256 := { sha256_hex : string → string }.

Definition bad : UpdateError := {| ue_kind := UBadRequest; ue_rollback_proven := true |}.
Definition limit : UpdateError := {| ue_kind := ULimit; ue_rollback_proven := true |}.
Definition internal : UpdateError := {| ue_kind := UInternal; ue_rollback_proven := true |}.
Definition update_cancelled : UpdateError := {| ue_kind := UCancelled; ue_rollback_proven := true |}.
(** Also what a panicking worker is reported as. *)
Definition worker_panicked : UpdateError := {| ue_kind := UInternal; ue_rollback_proven := false |}.

Inductive PreparedKind := PFile (staged sha256 : string) | PDelete.
Record PreparedChange := { pc_path : string; pc_kind : PreparedKind }.
Record PreparedUpdate := { pu_root : string; pu_changes : list PreparedChange }.

Record Backup := {
  bk_path : string;
  bk_staged : option string;
  bk_original : option FileIdentity;
  bk_uid : N;
  bk_gid : N;
  bk_mode : N;
  bk_sha256 : option string;
}.

Record AppliedEvidence := {
  ae_changed : list SessionUpdateEvidence;
  ae_deleted : list SessionUpdateEvidence;
}.

(** * Preparing *)

Section prepare.
Context (orc : nat → answer) (euid egid : N).
Context `{Glob, Sha256}.

Definition compile_patterns (patterns : list string) : result UpdateError (list Pattern) :=
  fold_each (λ ps p, p' ← map_err (λ _, internal) (Pattern_new p); Ok (ps ++ [p'])) [] patterns.

(** The allowlist test on one change. *)
Definition outside_allowlist (includes excludes : list Pattern) (path : string) : bool :=
  negb (existsb (λ p, Pattern_matches p path) includes) ||
  existsb (λ p, Pattern_matches p path) excludes.

(** [declared_files]: collected into a map, the last declaration of a path wins. *)
Definition declared_files (changes : list SessionUpdateChange) : gmap string string :=
  foldl (λ m c, match c with File path sha256 => <[path := sha256]> m | Delete _ => m end) ∅ changes.

(** The loop that copies one entry to its staged file, counting and hashing. *)
Fixpoint copy_entry (staged : string) (max total size actual : N) (hashed : string)
    (reads : list (result unit string)) : io UpdateError string :=
  match reads with
  | [] => mret hashed
  | Err _ :: _ => io_fail bad
  | Ok chunk :: reads =>
      if is_empty chunk then mret hashed
      else
        let actual := saturating_add actual (len chunk) in
        _ ← io_reject (max <? saturating_add (saturating_sub total size) actual) limit;
        _ ← io_map_err (λ _, internal) (store_append orc staged chunk);
        copy_entry staged max total size actual (hashed +:+ chunk) reads
  end.

Record staging := {
  sg_seen : gset string;
  sg_folded : gset string;
  sg_staged : gmap string (string * string);
  sg_total : N;
}.

(** One iteration of the loop over the archive's entries. *)
Definition stage_entry (root : string) (declared : gmap string string) (policy : SourceUpdatesConfig)
    (s : staging) (indexed : nat * option zip_entry) : io UpdateError staging :=
  let '(index, e) := indexed in
  e ← option_expect e bad;
  let name := ze_name e in
  _ ← io_reject (bool_decide (name ∈ sg_seen s) ||
                 bool_decide (to_ascii_lowercase name ∈ sg_folded s)) bad;
  expected_hash ← option_expect (declared !! name) bad;
  _ ← io_reject (ze_is_dir e || ze_is_symlink e) bad;
  _ ← match ze_unix_mode e with
      | Some mode =>
          let kind := N.land mode o170000 in
          io_reject ((negb (kind =? 0) && negb (kind =? o100000)) || mode_has mode o111) bad
      | None => mret tt
      end;
  let total := saturating_add (sg_total s) (ze_size e) in
  _ ← io_reject (up_max_uncompressed_bytes policy <? total) limit;
  let staged := path_join root ("file-" +:+ pretty index) in
  _ ← io_map_err (λ _, internal) (store_create orc euid egid staged);
  hashed ← copy_entry staged (up_max_uncompressed_bytes policy) total (ze_size e) 0 "" (ze_reads e);
  _ ← io_map_err (λ _, internal) (store_sync orc);
  let actual_hash := sha256_hex hashed in
  _ ← io_reject (negb (bool_decide (actual_hash = expected_hash))) bad;
  mret {| sg_seen := {[name]} ∪ sg_seen s;
          sg_folded := {[to_ascii_lowercase name]} ∪ sg_folded s;
          sg_staged := <[name := (staged, actual_hash)]> (sg_staged s);
          sg_total := total |}.

(** One iteration of the loop over the declared changes. *)
Definition match_change (s : list PreparedChange * gmap string (string * string))
    (change : SessionUpdateChange) :
    result UpdateError (list PreparedChange * gmap string (string * string)) :=
  let '(changes, staged_by_path) := s in
  match change with
  | File path _ =>
      p ← ok_or (staged_by_path !! path) worker_panicked;
      Ok (changes ++ [{| pc_path := path; pc_kind := PFile p.1 p.2 |}],
          delete path staged_by_path)
  | Delete path => Ok (changes ++ [{| pc_path := path; pc_kind := PDelete |}], staged_by_path)
  end.

(** [archive] is what [ZipArchive::new] makes of the uploaded file. *)
Definition prepare_archive (archive : option (list (option zip_entry))) (root : string)
    (request : SessionUpdateRequest) (policy : SourceUpdatesConfig) :
    io UpdateError (list PreparedChange) :=
  let declared := declared_files (su_changes request) in
  _ ← io_map_err (λ _, internal) (store_open orc);
  archive ← option_expect archive bad;
  _ ← io_reject (up_max_files policy <? N.of_nat (length archive)) limit;
  _ ← io_reject (negb (length archive =? size declared)%nat) bad;
  s ← io_fold (stage_entry root declared policy)
        {| sg_seen := ∅; sg_folded := ∅; sg_staged := ∅; sg_total := 0 |}
        (imap pair archive);
  r ← io_lift (fold_each match_change ([], sg_staged s) (su_changes request));
  mret r.1.

Definition staging_root (metadata_root session_id uuid : string) : string :=
  path_join metadata_root ("." +:+ session_id +:+ ".update-" +:+ uuid).

Definition prepare_update (archive : option (list (option zip_entry)))
    (metadata_root session_id : string) (request : SessionUpdateRequest)
    (policy : SourceUpdatesConfig) : io UpdateError PreparedUpdate :=
  includes ← io_lift (compile_patterns (up_include policy));
  excludes ← io_lift (compile_patterns (up_exclude policy));
  _ ← io_lift (for_each (λ change, reject_if
                 (outside_allowlist includes excludes (change_path change)) bad) (su_changes request));
  uuid ← draw_uuid orc;
  let root := staging_root metadata_root session_id uuid in
  _ ← io_map_err (λ _, internal) (store_create_dir orc);
  _ ← io_map_err (λ _, internal) (store_create_dir orc);
  result ← io_try (prepare_archive archive root request policy);
  match result with
  | Ok changes => mret {| pu_root := root; pu_changes := changes |}
  | Err err => _ ← store_remove_all orc root; io_fail err
  end.
End prepare.

(** * Applying *)

Section apply.
Context (orc : nat → answer) (euid egid : N).
Context `{Sha256}.
(** The directory an absolute path leads to. *)
Context (resolve : string → option FileIdentity).

(** [CString::new]. *)
Definition c_string (s message : string) : io os_error string :=
  if contains_byte nul s then io_fail (Other message) else mret s.

Definition open_workspace_root (workspace : string) : io UpdateError FileIdentity :=
  _ ← io_reject (contains_byte nul workspace) bad;
  io_map_err (λ _, internal) (syscall orc (λ _ fs, (fs,
    match resolve workspace with
    | None => Err ENOENT
    | Some i =>
        match fs !! i with
        | Some n => match nd_kind n with Directory => Ok i | _ => Err ENOTDIR end
        | None => Err ENOENT
        end
    end))).

(** The loop over the components but the last. *)
Fixpoint open_ancestors (parent : FileIdentity) (comps : list string) : io os_error FileIdentity :=
  match comps with
  | [] => mret parent
  | component :: comps =>
      component ← c_string component "path component contains NUL";
      fd ← openat_directory orc parent component;
      open_ancestors fd comps
  end.

Definition open_workspace_parent (root_fd : FileIdentity) (relative : string) :
    io os_error (FileIdentity * string) :=
  let comps := split slash relative in
  final_name ← option_expect (last comps) (Other "empty path");
  final_name ← c_string final_name "path contains NUL";
  duplicated ← dup orc root_fd;
  parent ← open_ancestors duplicated (removelast comps);
  mret (parent, final_name).

Definition inspect_target (parent : FileIdentity) (name : string) :
    io os_error (option TargetMetadata) := λ w,
  match fstatat orc parent name w with
  | (w, Ok m) => (w, Ok (Some m))
  | (w, Err ENOENT) => (w, Ok None)
  | (w, Err e) => (w, Err e)
  end.

Definition open_regular_at (parent : FileIdentity) (name : string) (expected : TargetMetadata) :
    io os_error FileIdentity :=
  file ← openat_read orc parent name;
  metadata ← fstat orc file;
  metadata' ← fstat orc file;
  _ ← io_reject (negb (is_regular_mode (tg_mode metadata)) ||
                 negb (bool_decide (tg_identity metadata' = tg_identity expected)))
        (Other "target identity changed");
  mret file.

Definition validate_target_at (parent : FileIdentity) (name : string) (backup : Backup) :
    io UpdateError unit :=
  current ← io_map_err (λ _, internal) (inspect_target parent name);
  match bk_original backup, current with
  | Some expected, Some current =>
      io_reject (negb (bool_decide (tg_identity current = expected) &&
                       is_regular_mode (tg_mode current))) bad
  | None, None => mret tt
  | _, _ => io_fail bad
  end.

Definition verify_parent_still_beneath (root_fd : FileIdentity) (relative : string)
    (held_parent : FileIdentity) : io UpdateError unit :=
  current ← io_map_err (λ _, bad) (open_workspace_parent root_fd relative);
  held ← io_map_err (λ _, internal) (fstat orc held_parent);
  current ← io_map_err (λ _, internal) (fstat orc current.1);
  io_reject (negb (bool_decide (tg_identity held = tg_identity current))) bad.

(** [set_fd_owner_mode]; [mode_t] holds every [u32]. *)
Definition set_fd_owner_mode (fd : FileIdentity) (uid gid mode : N) : io os_error unit :=
  _ ← fchown orc fd uid gid;
  fchmod orc fd mode.

Definition temp_name (uuid : string) : string := ".indentured-update-" +:+ uuid +:+ ".tmp".

(** The steps of [atomic_copy_at] before its clean-up. *)
Definition atomic_copy_steps (source : string) (parent : FileIdentity) (temp target : string)
    (uid gid mode : N) : io os_error unit :=
  data ← store_read orc source;
  output ← openat_create orc euid egid parent temp;
  _ ← write_all orc output data;
  _ ← fsync orc output;
  _ ← set_fd_owner_mode output uid gid mode;
  _ ← fsync orc output;
  _ ← renameat orc parent temp target;
  fsync orc parent.

Definition atomic_copy_at (source : string) (parent : FileIdentity) (target : string)
    (uid gid mode : N) : io os_error unit :=
  uuid ← draw_uuid orc;
  let temp := temp_name uuid in
  result ← io_try (atomic_copy_steps source parent temp target uid gid mode);
  match result with
  | Ok _ => mret tt
  | Err err =>
      _ ← io_try (F := os_error) (unlinkat orc parent temp);
      io_fail err
  end.

Definition unlink_file_at (parent : FileIdentity) (name : string) : io os_error unit :=
  _ ← unlinkat orc parent name;
  fsync orc parent.

(** [copy_open_file_and_hash]. *)
Definition copy_open_file_and_hash (source : FileIdentity) (destination : string) :
    io os_error string :=
  _ ← store_create orc euid egid destination;
  data ← read_to_end orc source;
  _ ← store_append orc destination data;
  _ ← store_sync orc;
  mret (sha256_hex data).

(** [prepare_staged_file]. *)
Definition prepare_staged_file (path : string) (uid gid : N) : io os_error unit :=
  _ ← store_read orc path;
  _ ← store_chown orc path uid gid;
  store_chmod orc path o644.

(** One iteration of [rollback]. *)
Definition rollback_one (b : Backup) (parent : FileIdentity) : io os_error unit :=
  name ← option_expect (last (split slash (bk_path b))) (Other "empty rollback path");
  name ← c_string name "rollback path contains NUL";
  match bk_staged b with
  | Some staged =>
      current ← inspect_target parent name;
      _ ← io_reject (match current with
                     | Some m => negb (is_regular_mode (tg_mode m))
                     | None => false
                     end) (Other "rollback target is not a regular file");
      atomic_copy_at staged parent name (bk_uid b) (bk_gid b) (bk_mode b)
  | None =>
      current ← inspect_target parent name;
      match current with
      | Some m =>
          if is_regular_mode (tg_mode m) then unlink_file_at parent name
          else io_fail (Other "rollback target is not a regular file")
      | None => mret tt
      end
  end.

Definition rollback (backups : list Backup) (parents : list FileIdentity) : io os_error unit :=
  io_each (λ p, rollback_one p.1 p.2) (reverse (zip backups parents)).

(** The checks of the backup loop on what the target is. *)
Definition check_target (kind : PreparedKind) (metadata : option TargetMetadata) :
    result UpdateError unit :=
  _ ← match metadata with
      | Some m =>
          _ ← reject_if (negb (is_regular_mode (tg_mode m))) bad;
          reject_if (mode_has (tg_mode m) o111) bad
      | None => Ok tt
      end;
  reject_if (match kind with PDelete => is_none metadata | PFile _ _ => false end) bad.

(** One iteration of the backup loop. *)
Definition back_up (root_fd : FileIdentity) (backups_root : string) (task_uid task_gid : N)
    (backups : list Backup) (change : PreparedChange) : io UpdateError (list Backup) :=
  let index := length backups in
  parent_name ← io_map_err (λ _, bad) (open_workspace_parent root_fd (pc_path change));
  metadata ← io_map_err (λ _, internal) (inspect_target parent_name.1 parent_name.2);
  _ ← io_lift (check_target (pc_kind change) metadata);
  let backup_path := metadata ≫= λ _, Some (path_join backups_root ("backup-" +:+ pretty index)) in
  sha256 ← match metadata, backup_path with
           | Some m, Some path =>
               source ← io_map_err (λ _, bad) (open_regular_at parent_name.1 parent_name.2 m);
               h ← io_map_err (λ _, internal) (copy_open_file_and_hash source path);
               mret (Some h)
           | _, _ => mret None
           end;
  mret (backups ++
    [{| bk_path := pc_path change;
        bk_staged := backup_path;
        bk_original := tg_identity <$> metadata;
        bk_uid := from_option tg_uid task_uid metadata;
        bk_gid := from_option tg_gid task_gid metadata;
        bk_mode := from_option (λ m, N.land (tg_mode m) o777) o644 metadata;
        bk_sha256 := sha256 |}]).

Definition check_cancelled : io UpdateError unit :=
  b ← flag_is_cancelled orc;
  io_reject b update_cancelled.

(** The mutation loop up to the point where the parent is pushed. *)
Definition locate (root_fd : FileIdentity) (change : PreparedChange) (backup : Backup) :
    io UpdateError (FileIdentity * string) :=
  _ ← check_cancelled;
  parent_name ← io_map_err (λ _, bad) (open_workspace_parent root_fd (pc_path change));
  _ ← validate_target_at parent_name.1 parent_name.2 backup;
  mret parent_name.

(** The mutation itself. *)
Definition install (task_uid task_gid : N) (change : PreparedChange) (parent : FileIdentity)
    (name : string) : io UpdateError unit :=
  io_map_err (λ _, internal)
    (match pc_kind change with
     | PFile staged _ => atomic_copy_at staged parent name task_uid task_gid o644
     | PDelete => unlink_file_at parent name
     end).

(** The mutation loop; the parents pushed so far survive an error. *)
Fixpoint mutation_loop (root_fd : FileIdentity) (task_uid task_gid : N)
    (work : list (PreparedChange * Backup)) (parents : list FileIdentity) (w : World) :
    World * (list FileIdentity * result UpdateError unit) :=
  match work with
  | [] => (w, (parents, Ok tt))
  | (change, backup) :: work =>
      match locate root_fd change backup w with
      | (w, Err e) => (w, (parents, Err e))
      | (w, Ok (parent, name)) =>
          match install task_uid task_gid change parent name w with
          | (w, Err e) => (w, (parents ++ [parent], Err e))
          | (w, Ok _) => mutation_loop root_fd task_uid task_gid work (parents ++ [parent]) w
          end
      end
  end.

(** What follows the mutation loop inside the closure. *)
Definition conclude (root_fd : FileIdentity) (changes : list PreparedChange)
    (parents : list FileIdentity) (commit_metadata : io os_error unit) : io UpdateError unit :=
  _ ← io_each (λ p, verify_parent_still_beneath root_fd (pc_path p.1) p.2) (zip changes parents);
  _ ← check_cancelled;
  io_map_err (λ _, worker_panicked) commit_metadata.

Definition mutation (root_fd : FileIdentity) (task_uid task_gid : N)
    (changes : list PreparedChange) (backups : list Backup) (commit_metadata : io os_error unit)
    (w : World) : World * (list FileIdentity * result UpdateError unit) :=
  match mutation_loop root_fd task_uid task_gid (zip changes backups) [] w with
  | (w, (parents, Err e)) => (w, (parents, Err e))
  | (w, (parents, Ok _)) =>
      let '(w, r) := conclude root_fd changes parents commit_metadata w in (w, (parents, r))
  end.

(** The evidence of one change. *)
Definition add_evidence (ev : AppliedEvidence) (p : PreparedChange * Backup) :
    result UpdateError AppliedEvidence :=
  match pc_kind p.1 with
  | PFile _ sha256 =>
      Ok {| ae_changed := ae_changed ev ++ [{| ev_path := pc_path p.1; ev_sha256 := sha256 |}];
            ae_deleted := ae_deleted ev |}
  | PDelete =>
      sha256 ← ok_or (bk_sha256 p.2) worker_panicked;
      Ok {| ae_changed := ae_changed ev;
            ae_deleted := ae_deleted ev ++ [{| ev_path := pc_path p.1; ev_sha256 := sha256 |}] |}
  end.

(** [err.rollback_proven = false] when the rollback failed. *)
Definition after_rollback (err : UpdateError) (r : result os_error unit) : UpdateError :=
  {| ue_kind := ue_kind err; ue_rollback_proven := ue_rollback_proven err && is_ok r |}.

(** The mutation, then its rollback or its evidence. *)
Definition transact (root_fd : FileIdentity) (task_uid task_gid : N) (changes : list PreparedChange)
    (backups : list Backup) (commit_metadata : io os_error unit) : io UpdateError AppliedEvidence :=
  λ w,
  match mutation root_fd task_uid task_gid changes backups commit_metadata w with
  | (w, (parents, Err err)) =>
      let '(w, r) := rollback (take (length parents) backups) parents w in
      (w, Err (after_rollback err r))
  | (w, (_, Ok _)) =>
      (w, fold_each add_evidence {| ae_changed := []; ae_deleted := [] |} (zip changes backups))
  end.

Definition apply_update_inner (prepared : PreparedUpdate) (workspace : string)
    (task_uid task_gid : N) (commit_metadata : io os_error unit) : io UpdateError AppliedEvidence :=
  _ ← check_cancelled;
  root_fd ← open_workspace_root workspace;
  let backups_root := path_join (pu_root prepared) "backups" in
  _ ← io_map_err (λ _, internal) (store_create_dir orc);
  _ ← io_map_err (λ _, internal) (store_create_dir orc);
  _ ← io_each (λ change,
        match pc_kind change with
        | PFile staged _ => io_map_err (λ _, internal) (prepare_staged_file staged task_uid task_gid)
        | PDelete => mret tt
        end) (pu_changes prepared);
  backups ← io_fold (back_up root_fd backups_root task_uid task_gid) [] (pu_changes prepared);
  transact root_fd task_uid task_gid (pu_changes prepared) backups commit_metadata.

(** The staged files and backups are removed when [prepared] is dropped. *)
Definition apply_update (prepared : PreparedUpdate) (workspace : string) (task_uid task_gid : N)
    (commit_metadata : io os_error unit) : io UpdateError AppliedEvidence := λ w,
  let '(w, r) := apply_update_inner prepared workspace task_uid task_gid commit_metadata w in
  let '(w, _) := store_remove_all (E := UpdateError) orc (pu_root prepared) w in
  (w, r).
End apply.
