(* ===== verification/UpdateFrames.v ===== *)
(** What one mutation of an update may touch: a directory slot and temporary
    names, and how sequences of such mutations compare with the heap before. *)
From Stdlib Require Import Ascii.
From stdpp Require Import base option strings numbers gmap fin_maps list.
From S2P Require Import Prelude Effects RustStr Fs Posix Updates.

Local Open Scope N_scope.

(** Every directory entry leads to an inode. *)
Definition closed (fs : FS) : Prop := ∀ d n i, entry fs d n = Some i → is_Some (fs !! i).

(** An inode but for its directory entries. *)
Definition attrs (n : node) : node := with_entries n ∅.

(** What a reader of a path sees: type, owner, permission bits and content. *)
Definition view (n : node) : file_kind * N * N * N * string :=
  (nd_kind n, nd_uid n, nd_gid n, N.land (nd_mode n) o777, nd_data n).

(** Following a chain of names through directories only. *)
Fixpoint walk (fs : FS) (d : FileIdentity) (comps : list string) : option FileIdentity :=
  match comps with
  | [] => Some d
  | c :: comps =>
      i ← entry fs d c;
      n ← fs !! i;
      match nd_kind n with Directory => walk fs i comps | _ => None end
  end.

(** The directory and name a relative path leads to. *)
Definition target_slot (fs : FS) (root : FileIdentity) (path : string) :
    option (FileIdentity * string) :=
  d ← walk fs root (removelast (split slash path));
  n ← last (split slash path);
  Some (d, n).

(** The inode at a relative path. *)
Definition lookup_path (fs : FS) (root : FileIdentity) (path : string) : option node :=
  '(d, n) ← target_slot fs root path;
  i ← entry fs d n;
  fs !! i.

Lemma walk_dir fs d comps d' : is_Some (fs !! d) → walk fs d comps = Some d' → is_Some (fs !! d').
Proof.
  revert d. induction comps as [|c comps IH]; intros d Hd; cbn; [by intros [= <-]|].
  destruct (entry fs d c) as [i|]; [|done]. cbn. destruct (fs !! i) as [a|] eqn:Ea; [|done]. cbn.
  destruct (nd_kind a); try done. apply IH. eauto.
Qed.

Lemma target_slot_Some fs root path d n :
  target_slot fs root path = Some (d, n) ↔
  walk fs root (removelast (split slash path)) = Some d ∧ last (split slash path) = Some n.
Proof.
  unfold target_slot. destruct (walk _ _ _), (last _); cbn; naive_solver.
Qed.

Lemma Forall_removelast {A} (P : A → Prop) l : Forall P l → Forall P (removelast l).
Proof. induction 1 as [|c [|c' l] ? ? IH]; [done|done|]. by constructor. Qed.

Section frames.
(** The temporary names. *)
Context (T : string → Prop).

(** [fs'] differs from [fs] at most at slot [(d, n)], at temporary names and by
    new inodes. *)
Record Touch (d : FileIdentity) (n : string) (fs fs' : FS) : Prop := {
  to_nodes : ∀ i a, fs !! i = Some a → ∃ b, fs' !! i = Some b ∧ attrs b = attrs a;
  to_entries : ∀ d' n', ¬ T n' → (d', n') ≠ (d, n) → entry fs' d' n' = entry fs d' n';
  to_closed : closed fs';
}.

Lemma Touch_refl d n fs : closed fs → Touch d n fs fs.
Proof. split; [eauto|done|done]. Qed.

Lemma lookup_set_entry d n o fs i a :
  fs !! i = Some a → ∃ b, set_entry d n o fs !! i = Some b ∧ attrs b = attrs a.
Proof.
  intros Hi. unfold set_entry. destruct (decide (d = i)) as [->|Hd].
  - rewrite lookup_alter_eq, Hi. eexists. by split.
  - rewrite lookup_alter_ne by done. eauto.
Qed.

Lemma closed_set_entry d n o fs :
  closed fs → (∀ i, o = Some i → is_Some (fs !! i)) → closed (set_entry d n o fs).
Proof.
  intros Hc Ho d' n' i. rewrite entry_set_entry. intros Hi.
  assert (is_Some (fs !! i)) as [a Ha].
  { case_bool_decide; [|eauto]. destruct (fs !! d); [by apply Ho|done]. }
  destruct (lookup_set_entry d n o fs i a Ha) as (b & Hb & _). eauto.
Qed.

Lemma Touch_set_entry d n fs fs' n' o :
  Touch d n fs fs' → T n' ∨ n' = n → (∀ i, o = Some i → is_Some (fs' !! i)) →
  Touch d n fs (set_entry d n' o fs').
Proof.
  intros [Hn He Hc] Hn' Ho. split.
  - intros i a (b & Hb & Hab)%Hn. destruct (lookup_set_entry d n' o fs' i b Hb) as (c & ? & ?).
    exists c. split; [done|congruence].
  - intros d'' n'' ? ?. rewrite entry_set_entry. case_bool_decide as Hdn; [|by apply He].
    naive_solver.
  - by apply closed_set_entry.
Qed.

Lemma Touch_new d n fs fs' j nd :
  Touch d n fs fs' → fs' !! j = None → nd_entries nd = ∅ → Touch d n fs (<[j := nd]> fs').
Proof.
  intros [Hn He Hc] Hj Hnd. split.
  - intros i a (b & Hb & ?)%Hn. exists b. rewrite lookup_insert_ne by congruence. done.
  - intros d' n' ? ?. rewrite <-He by done. unfold entry.
    destruct (decide (j = d')) as [->|]; [|by rewrite lookup_insert_ne].
    rewrite lookup_insert_eq, Hj. cbn. by rewrite Hnd.
  - intros d' n' i Hi. destruct (decide (j = i)) as [->|]; [by rewrite lookup_insert_eq|].
    rewrite lookup_insert_ne by done. apply (Hc d' n'). revert Hi. unfold entry.
    destruct (decide (j = d')) as [->|]; [|by rewrite lookup_insert_ne].
    rewrite lookup_insert_eq. cbn. by rewrite Hnd, lookup_empty.
Qed.

Lemma Touch_alter d n fs fs' j (f : node → node) :
  Touch d n fs fs' → fs !! j = None → (∀ a, nd_entries (f a) = nd_entries a) →
  Touch d n fs (alter f j fs').
Proof.
  intros [Hn He Hc] Hj Hf.
  assert (∀ d' n', entry (alter f j fs') d' n' = entry fs' d' n') as Hent.
  { intros d' n'. unfold entry. destruct (decide (j = d')) as [->|]; [|by rewrite lookup_alter_ne].
    rewrite lookup_alter_eq. destruct (fs' !! d'); cbn; by rewrite ?Hf. }
  split.
  - intros i a Hi. destruct (Hn i a Hi) as (b & Hb & ?). exists b.
    rewrite lookup_alter_ne by congruence. done.
  - intros d' n' ? ?. rewrite Hent. by apply He.
  - intros d' n' i. rewrite Hent. intros [a Ha]%Hc.
    destruct (decide (j = i)) as [->|]; [rewrite lookup_alter_eq, Ha; cbn; eauto|].
    rewrite lookup_alter_ne by done. eauto.
Qed.

(** * Sequences of mutations *)

(** [fs] differs from [fs0] only at the slots [S], temporary names and by new
    inodes. *)
Record Off (S : list (FileIdentity * string)) (fs0 fs : FS) : Prop := {
  off_nodes : ∀ i a, fs0 !! i = Some a → ∃ b, fs !! i = Some b ∧ attrs b = attrs a;
  off_entries : ∀ d n, ¬ T n → (d, n) ∉ S → entry fs d n = entry fs0 d n;
  off_closed : closed fs;
}.

Lemma Off_refl fs : closed fs → Off [] fs fs.
Proof. split; [eauto|done|done]. Qed.

Lemma Off_touch S fs0 fs fs' d n :
  Off S fs0 fs → Touch d n fs fs' → Off ((d, n) :: S) fs0 fs'.
Proof.
  intros [Hn He Hc] [Hn' He' Hc']. split; [|intros d' n' ? [? ?]%not_elem_of_cons|done].
  - intros i a (b & (c & ? & ?)%Hn' & ?)%Hn. exists c. split; [done|congruence].
  - rewrite He', He by done. done.
Qed.

Lemma Off_weaken S S' fs0 fs : Off S fs0 fs → (∀ x, x ∈ S → x ∈ S') → Off S' fs0 fs.
Proof. intros [Hn He Hc] HS. split; [done| |done]. intros d n ? ?. apply He; [done|]. naive_solver. Qed.

(** The slot shows the same inode, or a regular file of the same view. *)
Definition same_slot (fs0 fs : FS) (d : FileIdentity) (n : string) : Prop :=
  match entry fs0 d n, entry fs d n with
  | None, None => True
  | Some i, Some j =>
      i = j ∨ ∃ a b, fs0 !! i = Some a ∧ fs !! j = Some b ∧ nd_kind a = Regular ∧ view a = view b
  | _, _ => False
  end.

(** Every slot outside [S] shows the same. *)
Record Restored (S : list (FileIdentity * string)) (fs0 fs : FS) : Prop := {
  re_nodes : ∀ i a, fs0 !! i = Some a → ∃ b, fs !! i = Some b ∧ attrs b = attrs a;
  re_slots : ∀ d n, ¬ T n → (d, n) ∉ S → same_slot fs0 fs d n;
  re_closed : closed fs;
}.

Lemma Off_Restored S fs0 fs : Off S fs0 fs → Restored S fs0 fs.
Proof.
  intros [Hn He Hc]. split; [done| |done]. intros d n Ht Hs. unfold same_slot.
  rewrite He by done. destruct (entry fs0 d n); auto.
Qed.

Lemma attrs_view a b : attrs a = attrs b → view a = view b.
Proof. destruct a, b. by intros [= -> -> -> -> ->]. Qed.

(** Undoing the last dirty slot. *)
Lemma Restored_step S fs0 fs fs' d n :
  Restored ((d, n) :: S) fs0 fs → Touch d n fs fs' → same_slot fs0 fs' d n → Restored S fs0 fs'.
Proof.
  intros [Hn Hs Hc] [Hn' He' Hc'] Hdn. split; [| |done].
  - intros i a (b & (c & ? & ?)%Hn' & ?)%Hn. exists c. split; [done|congruence].
  - intros d' n' Ht Hnin. destruct (decide ((d', n') = (d, n))) as [[= -> ->]|Hne]; [done|].
    specialize (Hs d' n' Ht ltac:(set_solver)). unfold same_slot in *. rewrite He' by done.
    destruct (entry fs0 d' n'), (entry fs d' n'); try done.
    destruct Hs as [?|(a & b & ? & Hb & ? & ?)]; [by left|right].
    destruct (Hn' _ _ Hb) as (c & ? & ?%attrs_view). exists a, c. split_and!; try done. congruence.
Qed.

(** Following a path sees the same things once every slot shows the same. *)
Definition look (fs : FS) (d : FileIdentity) (comps : list string) :
    option (file_kind * N * N * N * string) :=
  d' ← walk fs d (removelast comps);
  i ← match last comps with None => Some d' | Some n => entry fs d' n end;
  view <$> fs !! i.

Lemma Restored_slot_view S fs0 fs d n :
  Restored S fs0 fs → closed fs0 → ¬ T n → (d, n) ∉ S →
  (i ← entry fs d n; view <$> fs !! i) = (i ← entry fs0 d n; view <$> fs0 !! i).
Proof.
  intros [Hn Hs Hc] Hc0 Ht Hnin. specialize (Hs d n Ht Hnin). unfold same_slot in Hs.
  destruct (entry fs0 d n) as [i|] eqn:Ei, (entry fs d n) as [j|] eqn:Ej; try done. cbn.
  destruct Hs as [<-|(a & b & -> & -> & _ & Hv)]; [|cbn; by rewrite Hv].
  destruct (Hc0 _ _ _ Ei) as [a Ha]. destruct (Hn _ _ Ha) as (b & -> & ?%attrs_view).
  rewrite Ha. cbn. congruence.
Qed.

(** Slots that hold no directory now cannot be walked through. *)
Lemma walk_back S fs0 fs comps d d' :
  Restored S fs0 fs → closed fs0 → Forall (λ c, ¬ T c) comps →
  (∀ d n, (d, n) ∈ S → ∀ i a, entry fs d n = Some i → fs !! i = Some a → nd_kind a ≠ Directory) →
  walk fs d comps = Some d' → walk fs0 d comps = Some d'.
Proof.
  intros HR Hc0 HT HS. revert d. induction HT as [|c comps Hc HT IH]; intros d; [done|]. cbn.
  destruct (entry fs d c) as [i|] eqn:Ei; [|done]. cbn.
  destruct (fs !! i) as [a|] eqn:Ea; [|done]. cbn.
  destruct (nd_kind a) eqn:Ek; try done. intros Hw.
  destruct (decide ((d, c) ∈ S)) as [Hin|Hnin]; [by destruct (HS _ _ Hin _ _ Ei Ea)|].
  pose proof (re_slots _ _ _ HR d c Hc Hnin) as Hs. unfold same_slot in Hs. rewrite Ei in Hs.
  destruct (entry fs0 d c) as [i0|] eqn:Ei0; [|done]. cbn.
  destruct Hs as [->|(a0 & b & Ha0 & Hb & Hk & Hv)].
  - destruct (Hc0 _ _ _ Ei0) as [a0 Ha0]. rewrite Ha0. cbn.
    destruct (re_nodes _ _ _ HR _ _ Ha0) as (b & Hb & Hab%attrs_view).
    simplify_eq. unfold view in Hab. assert (nd_kind a0 = Directory) as -> by congruence. by apply IH.
  - simplify_eq. unfold view in Hv. congruence.
Qed.

(** Slots that held no directory before were not walked through. *)
Lemma walk_forward S fs0 fs comps d d' :
  Restored S fs0 fs → Forall (λ c, ¬ T c) comps →
  (∀ d n, (d, n) ∈ S → ∀ i a, entry fs0 d n = Some i → fs0 !! i = Some a → nd_kind a ≠ Directory) →
  walk fs0 d comps = Some d' → walk fs d comps = Some d'.
Proof.
  intros HR HT HS. revert d. induction HT as [|c comps Hc HT IH]; intros d; [done|]. cbn.
  destruct (entry fs0 d c) as [i|] eqn:Ei; [|done]. cbn.
  destruct (fs0 !! i) as [a|] eqn:Ea; [|done]. cbn.
  destruct (nd_kind a) eqn:Ek; try done. intros Hw.
  destruct (decide ((d, c) ∈ S)) as [Hin|Hnin]; [by destruct (HS _ _ Hin _ _ Ei Ea)|].
  pose proof (re_slots _ _ _ HR d c Hc Hnin) as Hs. unfold same_slot in Hs.
  rewrite Ei in Hs. destruct (entry fs d c) as [j|] eqn:Ej; [|done]. cbn.
  destruct Hs as [->|(a0 & b & Ha0 & Hb & Hk & Hv)]; [|congruence].
  destruct (re_nodes _ _ _ HR _ _ Ea) as (b & Hb & Hab%attrs_view).
  rewrite Hb. cbn. unfold view in Hab. assert (nd_kind b = Directory) as -> by congruence.
  by apply IH.
Qed.

Lemma walk_restored fs0 fs comps d :
  Restored [] fs0 fs → closed fs0 → Forall (λ c, ¬ T c) comps → walk fs d comps = walk fs0 d comps.
Proof.
  intros HR Hc0 HT. apply option_eq. intros d'. split.
  - apply (walk_back []); [done..|]. set_solver.
  - apply (walk_forward []); [done..|]. set_solver.
Qed.

Lemma look_restored fs0 fs d comps :
  Restored [] fs0 fs → closed fs0 → is_Some (fs0 !! d) → Forall (λ c, ¬ T c) comps →
  look fs d comps = look fs0 d comps.
Proof.
  intros HR Hc0 [a Ha] HT. unfold look.
  pose proof (Forall_removelast _ _ HT).
  rewrite (walk_restored fs0 fs) by done. destruct (last comps) as [n|] eqn:El.
  - destruct (walk fs0 d (removelast comps)) as [d'|]; [|done].
    apply (Restored_slot_view [] fs0 fs d' n); [done..| |set_solver].
    rewrite Forall_forall in HT. apply HT, last_Some_elem_of, El.
  - apply last_None in El as ->. cbn.
    destruct (re_nodes _ _ _ HR _ _ Ha) as (b & -> & ?%attrs_view). rewrite Ha. cbn. congruence.
Qed.
End frames.
