(* ===== verification/UpdateApply.v ===== *)
(** Applying an update: what a successful application leaves in the workspace
    and what a rolled back one does. *)
From Stdlib Require Import Ascii.
From stdpp Require Import base option strings numbers gmap fin_maps pretty list.
From S2P Require Import Prelude Effects RustStr Fs Posix Protocol Sessions Updates UpdateFrames.

Local Open Scope N_scope.

Lemma regular_mode a : is_regular_mode (stat_mode a) = bool_decide (nd_kind a = Regular).
Proof.
  unfold is_regular_mode, stat_mode. rewrite N.land_lor_distr_l, <-N.land_assoc.
  change (N.land o7777 o170000) with 0. rewrite N.land_0_r, N.lor_0_r.
  destruct (nd_kind a); reflexivity.
Qed.

Lemma permission_bits a : N.land (stat_mode a) o777 = N.land (nd_mode a) o777.
Proof.
  unfold stat_mode. rewrite N.land_lor_distr_l, <-N.land_assoc.
  change (N.land o7777 o777) with o777. by destruct (nd_kind a).
Qed.

(** Neither the shared files nor the staged ones changed. *)
Definition still (w w' : World) : Prop := w_fs w' = w_fs w ∧ w_store w' = w_store w.

Lemma still_trans w1 w2 w3 : still w1 w2 → still w2 w3 → still w1 w3.
Proof. unfold still. intuition congruence. Qed.

Section apply_spec.
Context (orc : nat → answer) (Hq : quiet orc) (euid egid : N) `{Sha256}.
Context (resolve : string → option FileIdentity).

(** The names drawn for temporary files. *)
Definition drawn (n : string) : Prop := ∃ k, n = temp_name (an_uuid (orc k)).

(** ** Calls that only read *)

Lemma dup_spec d w : wp (dup orc d) w (λ w' r, still w w' ∧ ∀ p, r = Ok p → p = d).
Proof. apply wp_syscall; [done|done|]. intros _ t. split; [done|]. by intros ? [= <-]. Qed.

Lemma open_ancestors_spec comps : ∀ d w,
  wp (open_ancestors orc d comps) w
    (λ w' r, still w w' ∧ ∀ p, r = Ok p → walk (w_fs w) d comps = Some p).
Proof.
  induction comps as [|c comps IH]; intros d w; cbn [open_ancestors].
  - apply wp_ret. split; [done|]. naive_solver.
  - apply wp_bind. unfold c_string. destruct (contains_byte nul c); [by apply wp_fail|].
    apply wp_ret, wp_bind, wp_syscall; [done|by intros|]. intros _ t. cbn [walk].
    destruct (entry (w_fs w) d c) as [i|]; [|done]. cbn.
    destruct (w_fs w !! i) as [a|]; [|done]. cbn.
    destruct (nd_kind a); try done.
    eapply wp_mono; [apply IH|]. by intros w' r [? ?].
Qed.

Lemma open_workspace_parent_spec root path w :
  wp (open_workspace_parent orc root path) w
    (λ w' r, still w w' ∧ ∀ p, r = Ok p → target_slot (w_fs w) root path = Some p).
Proof.
  unfold open_workspace_parent, target_slot. apply wp_bind, wp_lift.
  destruct (last (split slash path)) as [n|]; cbn [ok_or]; [|done].
  apply wp_bind. unfold c_string. destruct (contains_byte nul n); [by apply wp_fail|]. apply wp_ret.
  apply wp_bind. eapply wp_mono; [apply dup_spec|]. intros w1 [d|] [Hs Hd]; [|done].
  rewrite (Hd d eq_refl). apply wp_bind. eapply wp_mono; [apply open_ancestors_spec|].
  intros w2 [p|] [Hs' Hp]; [|split; [by eapply still_trans|done]].
  apply wp_ret. split; [by eapply still_trans|]. intros ? [= <-].
  destruct Hs as [<- _]. by rewrite (Hp p eq_refl).
Qed.

(** What [inspect_target] reports of a slot. *)
Definition reported (fs : FS) (d : FileIdentity) (n : string) (m : option TargetMetadata) : Prop :=
  match m with
  | Some m => ∃ i a, entry fs d n = Some i ∧ fs !! i = Some a ∧ m = metadata_of i a
  | None => entry fs d n = None
  end.

Lemma inspect_target_spec d n w :
  closed (w_fs w) →
  wp (inspect_target orc d n) w
    (λ w' r, still w w' ∧ ∀ m, r = Ok m → reported (w_fs w) d n m).
Proof.
  intros Hc. unfold inspect_target.
  assert (wp (fstatat orc d n) w (λ w' r, still w w' ∧
    match r with
    | Ok m => reported (w_fs w) d n (Some m)
    | Err ENOENT => reported (w_fs w) d n None
    | Err _ => True
    end)) as Hf.
  { apply wp_syscall; [done|done|]. intros _ t. cbn.
    destruct (entry (w_fs w) d n) as [i|] eqn:Ei; [|done]. destruct (Hc _ _ _ Ei) as [a Ha].
    rewrite Ha. split; [done|]. by exists i, a. }
  unfold wp in *. destruct (fstatat orc d n w) as [w' [m|[]]]; cbn in *;
    destruct Hf as [? ?]; (split; [done|]); intros ? [= <-]; done.
Qed.

Lemma open_regular_spec d n m w :
  wp (open_regular_at orc d n m) w
    (λ w' r, still w w' ∧ ∀ f, r = Ok f → entry (w_fs w) d n = Some f).
Proof.
  unfold open_regular_at. apply wp_bind, wp_syscall; [done|done|]. intros _ t.
  destruct (entry (w_fs w) d n) as [i|]; [|done]. destruct (w_fs w !! i) as [a|]; [|done].
  assert (∀ w1, still w w1 → wp (metadata ← fstat orc i; metadata' ← fstat orc i;
    _ ← io_reject (negb (is_regular_mode (tg_mode metadata)) ||
                 negb (bool_decide (tg_identity metadata' = tg_identity m)))
        (Other "target identity changed"); mret i) w1
    (λ w' r, still w w' ∧ ∀ f, r = Ok f → Some i = Some f)) as Hrest.
  { intros w1 H1. apply wp_bind, wp_syscall; [done|done|]. intros _ t1.
    destruct (w_fs w1 !! i) as [b|]; [|done].
    apply wp_bind, wp_syscall; [done|done|]. cbn. intros _ t2.
    destruct (w_fs w1 !! i); [|done].
    apply wp_bind, wp_lift. destruct (_ || _); [done|]. apply wp_ret. split; [done|]. naive_solver. }
  destruct (nd_kind a); try done; by apply Hrest.
Qed.

Lemma validate_target_spec d n b w :
  closed (w_fs w) →
  wp (validate_target_at orc d n b) w (λ w' r, still w w' ∧
    (r = Ok tt → entry (w_fs w) d n = bk_original b)).
Proof.
  intros Hc. unfold validate_target_at. apply wp_bind, wp_map_err.
  eapply wp_mono; [by apply inspect_target_spec|]. intros w' [m|] [Hs Hm]; cbn; [|done].
  specialize (Hm m eq_refl). destruct (bk_original b) as [i|], m as [m|]; cbn in Hm; try done.
  destruct Hm as (j & a & Hj & Ha & ->). apply wp_lift. split; [done|]. cbn.
  intros Hr%reject_if_Ok. breflect. congruence.
Qed.

(** ** Installing a file *)

(** A new regular file at the slot. *)
Definition placed (fs fs' : FS) (d : FileIdentity) (n : string) (nd : node) : Prop :=
  ∃ j, fs !! j = None ∧ entry fs' d n = Some j ∧ fs' !! j = Some nd.

(** The heap while the temporary file [j] is being written. *)
Record Wip (fs : FS) (d : FileIdentity) (n temp : string) (j : FileIdentity) (nd : node) (f : FS) :
    Prop := {
  wip_touch : Touch drawn d n fs f;
  wip_temp : entry f d temp = Some j;
  wip_file : f !! j = Some nd;
  wip_dir : is_Some (f !! d);
}.

Lemma Wip_alter fs d n temp j nd f (g : node → node) :
  Wip fs d n temp j nd f → fs !! j = None → (∀ a, nd_entries (g a) = nd_entries a) →
  Wip fs d n temp j (g nd) (alter g j f).
Proof.
  intros [Ht He Hf Hd] Hj Hg. split.
  - by apply Touch_alter.
  - unfold entry in *. destruct (decide (j = d)) as [->|]; [|by rewrite lookup_alter_ne].
    rewrite lookup_alter_eq. rewrite Hf in *. cbn in *. by rewrite Hg.
  - by rewrite lookup_alter_eq, Hf.
  - destruct (decide (j = d)) as [->|]; [rewrite lookup_alter_eq, Hf; cbn; eauto|].
    by rewrite lookup_alter_ne.
Qed.

Lemma Wip_create fs d n temp k nd :
  closed fs → is_Some (fs !! d) → drawn temp → nd_entries nd = ∅ →
  Wip fs d n temp (new_inode fs d k) nd
    (set_entry d temp (Some (new_inode fs d k)) (<[new_inode fs d k := nd]> fs)).
Proof.
  intros Hc [a Hd] Ht Hnd. pose proof (new_inode_fresh fs d k) as Hj.
  set (j := new_inode fs d k) in *. assert (j ≠ d) by congruence.
  assert (<[j := nd]> fs !! d = Some a) as Hd' by (by rewrite lookup_insert_ne).
  split.
  - apply Touch_set_entry; [|by left|].
    + apply Touch_new; [by apply Touch_refl|done|done].
    + intros i [= <-]. by rewrite lookup_insert_eq.
  - rewrite entry_set_entry, bool_decide_eq_true_2 by done. by rewrite Hd'.
  - unfold set_entry. rewrite lookup_alter_ne by done. apply lookup_insert_eq.
  - unfold set_entry. rewrite lookup_alter_eq, Hd'. cbn. eauto.
Qed.

Lemma Wip_rename fs d n temp j nd f :
  Wip fs d n temp j nd f → fs !! j = None → is_Some (fs !! d) → drawn temp →
  let f' := set_entry d n (Some j) (set_entry d temp None f) in
  Touch drawn d n fs f' ∧ placed fs f' d n nd.
Proof.
  intros [Ht He Hf [a Hd]] Hj [b Hd0] Htmp f'. assert (j ≠ d) by congruence.
  assert (set_entry d temp None f !! j = Some nd) as Hj'
    by (unfold set_entry; by rewrite lookup_alter_ne).
  split.
  - apply Touch_set_entry; [|by right|intros i [= <-]; eauto].
    apply Touch_set_entry; [done|by left|done].
  - exists j. split; [done|]. subst f'. split; [|unfold set_entry; by rewrite lookup_alter_ne].
    rewrite entry_set_entry, bool_decide_eq_true_2 by done.
    unfold set_entry. rewrite lookup_alter_eq, Hd. done.
Qed.

Section copy.
Context (w0 : World) (source : string) (d : FileIdentity) (n temp : string) (uid gid mode : N).
Context (Hc : closed (w_fs w0)) (Hd : is_Some (w_fs w0 !! d)) (Htmp : drawn temp).

(** The outcome of installing a file. *)
Definition copied (w : World) (r : result os_error unit) : Prop :=
  Touch drawn d n (w_fs w0) (w_fs w) ∧ w_store w = w_store w0 ∧
  (r = Ok tt → ∃ s, w_store w0 !! source = Some s ∧
     placed (w_fs w0) (w_fs w) d n (Node Regular uid gid mode (st_data s) ∅)).

Lemma copy_rename j s w :
  Wip (w_fs w0) d n temp j (Node Regular uid gid mode (st_data s) ∅) (w_fs w) →
  w_fs w0 !! j = None → w_store w = w_store w0 → w_store w0 !! source = Some s →
  wp (_ ← renameat orc d temp n; fsync orc d) w copied.
Proof.
  intros Hw Hj Hst Hsrc. pose proof (Wip_rename _ _ _ _ _ _ _ Hw Hj Hd Htmp) as [HT HP].
  assert (∀ f t, Touch drawn d n (w_fs w0) f →
    placed (w_fs w0) f d n (Node Regular uid gid mode (st_data s) ∅) →
    wp (fsync orc d) (mkWorld f (w_store w) t) copied) as Hsync.
  { intros f t HTf HPf. apply wp_syscall; [done|..]; intros; cbn; split_and!; try done. eauto. }
  destruct Hw as [Ht He Hf Hd'].
  apply wp_bind, wp_syscall; [done|by intros; split_and!|]. intros _ t. cbn. rewrite He.
  destruct (entry (w_fs w) d n) as [j2|] eqn:Ej; [|by apply Hsync].
  case_bool_decide as Hjj; [subst j2; apply Hsync; [done|by exists j]|].
  case_bool_decide; [by split_and!|by apply Hsync].
Qed.

Lemma atomic_copy_steps_spec w :
  still w0 w →
  wp (atomic_copy_steps orc euid egid source d temp n uid gid mode) w copied.
Proof.
  intros [Hfs Hst]. unfold atomic_copy_steps.
  assert (Touch drawn d n (w_fs w0) (w_fs w)) as HT by (rewrite Hfs; by apply Touch_refl).
  apply wp_bind, wp_private; [done|by intros; split_and!|]. intros _ t0.
  destruct (w_store w !! source) as [s|] eqn:Es; [|by split_and!]. rewrite Hst in Es.
  apply wp_bind, wp_syscall; [done|by intros; split_and!|]. intros a t1. cbn [w_fs w_store].
  destruct (entry (w_fs w) d temp); [by split_and!|]. rewrite Hfs.
  pose proof (new_inode_fresh (w_fs w0) d (an_ino a)) as Hj.
  pose proof (Wip_create (w_fs w0) d n temp (an_ino a) (Node Regular euid egid o600 "" ∅) Hc Hd
    Htmp eq_refl) as Hw.
  set (j := new_inode _ _ _) in *. set (f := set_entry _ _ _ _) in *. clearbody f j.
  apply wp_bind, wp_write; [done|intros t s'|intros t].
  { split_and!; [|done|done]. eapply wip_touch, (Wip_alter _ _ _ _ _ _ _ _ Hw); done. }
  cbn [w_fs w_store]. apply (Wip_alter _ _ _ _ _ _ _
    (λ n, Node (nd_kind n) (nd_uid n) (nd_gid n) (nd_mode n) (st_data s) (nd_entries n))) in Hw;
    [|done|done]. fold (set_data j (st_data s) f) in Hw. cbn in Hw.
  set (f2 := set_data j (st_data s) f) in *. clearbody f2.
  apply wp_bind, wp_syscall; [done|by intros; destruct Hw; split_and!|]. intros _ t2.
  unfold set_fd_owner_mode. apply wp_bind, wp_bind, wp_syscall;
    [done|by intros; destruct Hw; split_and!|]. intros _ t3. cbn [w_fs w_store].
  apply (Wip_alter _ _ _ _ _ _ _
    (λ n, Node (nd_kind n) uid gid (nd_mode n) (nd_data n) (nd_entries n))) in Hw; [|done|done].
  fold (set_owner j uid gid f2) in Hw. cbn in Hw. set (f3 := set_owner _ _ _ _) in *. clearbody f3.
  apply wp_syscall; [done|by intros; destruct Hw; split_and!|]. intros _ t4. cbn [w_fs w_store].
  apply (Wip_alter _ _ _ _ _ _ _
    (λ n, Node (nd_kind n) (nd_uid n) (nd_gid n) mode (nd_data n) (nd_entries n))) in Hw; [|done|done].
  fold (set_mode j mode f3) in Hw. cbn in Hw. set (f4 := set_mode _ _ _) in *. clearbody f4.
  apply wp_bind, wp_syscall; [done|by intros; destruct Hw; split_and!|]. intros _ t5.
  by apply (copy_rename j s).
Qed.
End copy.

Lemma atomic_copy_spec source d n uid gid mode w :
  closed (w_fs w) → is_Some (w_fs w !! d) →
  wp (atomic_copy_at orc euid egid source d n uid gid mode) w (copied w source d n uid gid mode).
Proof.
  intros Hc Hd. unfold atomic_copy_at. apply wp_bind, wp_uuid; [done|]. intros k t.
  assert (drawn (temp_name (an_uuid (orc k)))) as Htmp by (by exists k).
  apply wp_bind, wp_try. eapply wp_mono; [by apply atomic_copy_steps_spec|].
  intros w' [[]|e] (HT & Hst & Hok); [by apply wp_ret|].
  apply wp_bind, wp_try, wp_syscall; [done|by intros; split_and!|]. intros _ t'. cbn.
  destruct (entry (w_fs w') d _); [|by split_and!]. case_bool_decide; [by split_and!|].
  split_and!; [|done|done]. apply Touch_set_entry; [done|by left|done].
Qed.

Lemma unlink_file_spec d n w :
  closed (w_fs w) →
  wp (unlink_file_at orc d n) w (λ w' r,
    Touch drawn d n (w_fs w) (w_fs w') ∧ w_store w' = w_store w ∧
    (r = Ok tt → entry (w_fs w') d n = None)).
Proof.
  intros Hc. unfold unlink_file_at. pose proof (Touch_refl drawn d n _ Hc) as HT.
  apply wp_bind, wp_syscall; [done|by intros; split_and!|]. intros _ t.
  destruct (entry (w_fs w) d n) as [i|]; [|by split_and!]. case_bool_decide; [by split_and!|].
  assert (Touch drawn d n (w_fs w) (set_entry d n None (w_fs w)))
    by (apply Touch_set_entry; [done|by right|done]).
  apply wp_syscall; [done|..]; intros; (split_and!; [done..|]); intros; [done|]. cbn.
  rewrite entry_set_entry, bool_decide_eq_true_2 by done. by destruct (w_fs w !! d).
Qed.

(** ** Undoing *)

Section undo.
Context (fs0 : FS) (st0 : gmap string stored) (Hc0 : closed fs0).

(** The backup describes slot [(d, n)] of [fs0]. *)
Record backed_up (b : Backup) (d : FileIdentity) (n : string) : Prop := {
  bu_name : last (split slash (bk_path b)) = Some n;
  bu_original : bk_original b = entry fs0 d n;
  bu_staged : match bk_staged b with
              | Some p => ∃ i a s, entry fs0 d n = Some i ∧ fs0 !! i = Some a ∧
                  nd_kind a = Regular ∧ st0 !! p = Some s ∧ st_data s = nd_data a ∧
                  bk_uid b = nd_uid a ∧ bk_gid b = nd_gid a ∧ bk_mode b = N.land (nd_mode a) o777 ∧
                  bk_sha256 b = Some (sha256_hex (nd_data a))
              | None => entry fs0 d n = None
              end;
}.

Lemma rollback_one_spec S b d n w :
  Restored drawn ((d, n) :: S) fs0 (w_fs w) → is_Some (fs0 !! d) → backed_up b d n →
  w_store w = st0 →
  wp (rollback_one orc euid egid b d) w (λ w' r,
    w_store w' = st0 ∧ (r = Ok tt → Restored drawn S fs0 (w_fs w'))).
Proof.
  intros HR Hd [Hn Ho Hb] Hst. pose proof (re_closed _ _ _ _ HR) as Hc.
  assert (is_Some (w_fs w !! d)) as Hd'
    by (destruct Hd as [a Ha]; destruct (re_nodes _ _ _ _ HR _ _ Ha) as (? & ? & _); eauto).
  unfold rollback_one. rewrite Hn. apply wp_bind, wp_lift. cbn [ok_or].
  apply wp_bind. unfold c_string. destruct (contains_byte nul n); [by apply wp_fail|]. apply wp_ret.
  destruct (bk_staged b) as [p|].
  - apply wp_bind. eapply wp_mono; [by apply inspect_target_spec|].
    intros w1 [m|] [Hs1 Hm]; [|destruct Hs1; split; congruence]. destruct Hs1 as [Hf1 Hst1].
    apply wp_bind, wp_lift. destruct (match m with Some _ => _ | None => _ end); [split; congruence|].
    cbn [reject_if]. eapply wp_mono; [apply atomic_copy_spec; by rewrite Hf1|].
    intros w2 r (HT & Hst2 & Hok). split; [congruence|]. intros (s & Hs & j & Hj & Hej & Hfj)%Hok.
    rewrite Hf1 in *. eapply Restored_step; [done|done|].
    destruct Hb as (i & a & s' & Hi & Ha & Hk & Hs' & Hdat & Hu & Hg & Hmo & _).
    assert (s' = s) as -> by congruence.
    unfold same_slot. rewrite Hi, Hej. right. do 2 eexists. split_and!; [done..|].
    unfold view. cbn. rewrite Hk, Hdat, Hu, Hg, Hmo. by rewrite <-N.land_assoc, N.land_diag.
  - apply wp_bind. eapply wp_mono; [by apply inspect_target_spec|].
    intros w1 [m|] [Hs1 Hm]; [|destruct Hs1; split; congruence]. specialize (Hm m eq_refl).
    destruct Hs1 as [Hf1 Hst1]. destruct m as [m|]; cbn in Hm.
    + destruct (is_regular_mode _); [|apply wp_fail; split; congruence].
      eapply wp_mono; [apply unlink_file_spec; by rewrite Hf1|]. intros w2 r (HT & Hst2 & Hok).
      split; [congruence|]. intros Hnone%Hok. rewrite Hf1 in HT. eapply Restored_step; [done|done|].
      unfold same_slot. by rewrite Hb, Hnone.
    + apply wp_ret. split; [congruence|]. intros _. rewrite Hf1.
      eapply Restored_step; [done|by apply Touch_refl|]. unfold same_slot. by rewrite Hb, Hm.
Qed.

Lemma rollback_spec (l : list (Backup * FileIdentity)) (slots : list (FileIdentity * string)) w :
  Restored drawn slots fs0 (w_fs w) → w_store w = st0 →
  Forall2 (λ p s, p.2 = s.1 ∧ backed_up p.1 s.1 s.2 ∧ is_Some (fs0 !! s.1)) l slots →
  wp (io_each (λ p, rollback_one orc euid egid p.1 p.2) l) w (λ w' r,
    r = Ok tt → Restored drawn [] fs0 (w_fs w')).
Proof.
  intros HR Hst Hl. revert w HR Hst.
  induction Hl as [|[b d] [d' n] l slots (Hd & Hb & Hdom) Hl IH]; intros w HR Hst;
    [by apply wp_ret; intros _|].
  cbn in *. subst d'. apply wp_bind. eapply wp_mono; [by eapply rollback_one_spec|].
  intros w' [[]|] [Hst' HR']; [|done]. cbn. apply IH; [by apply HR'|done].
Qed.
End undo.

(** ** Mutating *)

Section mutate.
Context (fs0 : FS) (st0 : gmap string stored) (Hc0 : closed fs0).
Context (root : FileIdentity) (Hroot : is_Some (fs0 !! root)) (uid gid : N).

(** A change that is backed up and ready to be made. *)
Record ready_change (c : PreparedChange) (b : Backup) (d : FileIdentity) (n : string) : Prop := {
  rc_slot : target_slot fs0 root (pc_path c) = Some (d, n);
  rc_backup : backed_up fs0 st0 b d n;
  rc_delete : pc_kind c = PDelete → is_Some (entry fs0 d n);
  rc_names : Forall (λ c, ¬ drawn c) (split slash (pc_path c));
}.

(** What the slot holds once the change is made. *)
Definition settled (fs : FS) (c : PreparedChange) (s : FileIdentity * string) : Prop :=
  match pc_kind c with
  | PFile staged _ => ∃ j a f, st0 !! staged = Some f ∧ entry fs s.1 s.2 = Some j ∧
      fs0 !! j = None ∧ fs !! j = Some a ∧ attrs a = Node Regular uid gid o644 (st_data f) ∅
  | PDelete => entry fs s.1 s.2 = None ∧ is_Some (entry fs0 s.1 s.2)
  end.

(** A change with its backup and its slot. *)
Abbreviation progress := (list (PreparedChange * Backup * (FileIdentity * string))).
Definition slots_of (P : progress) : list (FileIdentity * string) := reverse P.*2.
Definition ready_item (x : PreparedChange * Backup * (FileIdentity * string)) : Prop :=
  ready_change x.1.1 x.1.2 x.2.1 x.2.2.

Record Made (P : progress) (w : World) : Prop := {
  ma_off : Off drawn (slots_of P) fs0 (w_fs w);
  ma_store : w_store w = st0;
  ma_ready : Forall ready_item P;
  ma_settled : Forall (λ x, settled (w_fs w) x.1.1 x.2) P;
}.

Lemma Made_still P w w' : Made P w → still w w' → Made P w'.
Proof. intros [? ? ? ?] [Hf Hst]. split; rewrite ?Hf, ?Hst; done. Qed.

Lemma settled_file_or_none fs c s i a :
  settled fs c s → entry fs s.1 s.2 = Some i → fs !! i = Some a → nd_kind a ≠ Directory.
Proof.
  unfold settled. destruct (pc_kind c); [|intros [-> _]; done].
  intros (j & b & f & _ & -> & _ & Hb & Ha) [= <-] Hi. rewrite Hi in Hb. injection Hb as <-.
  destruct a. injection Ha as -> _. done.
Qed.

(** Walking again finds the slot that was backed up. *)
Lemma Made_slot P w c b d n d' n' :
  Made P w → ready_change c b d n → target_slot (w_fs w) root (pc_path c) = Some (d', n') →
  (d', n') = (d, n).
Proof.
  intros [Ho _ _ Hset] [Hs _ _ Hn] [Hw Hl]%target_slot_Some.
  assert (walk fs0 root (removelast (split slash (pc_path c))) = Some d') as Hw0.
  { eapply (walk_back drawn); [by apply Off_Restored|done|by apply Forall_removelast| |done].
    intros d1 n1 Hin i a. unfold slots_of in Hin.
    apply elem_of_reverse, list_elem_of_fmap in Hin as (x & Hx & Hin).
    rewrite Forall_forall in Hset. specialize (Hset _ Hin). rewrite <-Hx in Hset.
    exact (settled_file_or_none _ _ (d1, n1) i a Hset). }
  assert (target_slot fs0 root (pc_path c) = Some (d', n')) as Hs'
    by (by apply target_slot_Some). congruence.
Qed.

(** The recheck rules out a slot that was already changed. *)
Lemma Made_new_slot P w c b d n :
  Made P w → ready_change c b d n → entry (w_fs w) d n = bk_original b → (d, n) ∉ slots_of P.
Proof.
  intros [_ _ _ Hset] [_ [_ Hb _] _ _] He. rewrite Hb in He. unfold slots_of.
  intros Hin. apply elem_of_reverse, list_elem_of_fmap in Hin as (x & Hx & Hin).
  rewrite Forall_forall in Hset. specialize (Hset _ Hin). cbn beta in Hset. rewrite <-Hx in Hset.
  unfold settled in Hset. cbn in Hset. destruct (pc_kind x.1.1).
  - destruct Hset as (j & a & f & _ & Hj & Hj0 & _). rewrite He in Hj.
    destruct (Hc0 _ _ _ Hj). congruence.
  - destruct Hset as [Hnone [i Hi]]. congruence.
Qed.

Lemma settled_touch fs fs' c s d n :
  settled fs c s → Touch drawn d n fs fs' → ¬ drawn s.2 → s ≠ (d, n) → settled fs' c s.
Proof.
  destruct s as [d1 n1]. intros Hs [Hn He _] Hd Hne. unfold settled in *. cbn in *.
  rewrite He by done. destruct (pc_kind c); [|done].
  destruct Hs as (j & a & f & ? & ? & ? & (b & ? & ?)%Hn & ?). exists j, b, f. split_and!; try done.
  congruence.
Qed.

Lemma ready_name c b d n : ready_change c b d n → ¬ drawn n.
Proof.
  intros [[_ Hl]%target_slot_Some _ _ Hn]. rewrite Forall_forall in Hn.
  apply Hn. by apply last_Some_elem_of.
Qed.

(** One mutation: whatever happens only its slot is touched; if it succeeds the
    slot holds the change. *)
Lemma install_spec P w c b d n :
  Made P w → ready_change c b d n → (d, n) ∉ slots_of P →
  wp (install orc euid egid uid gid c d n) w (λ w' r,
    Off drawn (slots_of (P ++ [(c, b, (d, n))])) fs0 (w_fs w') ∧ w_store w' = st0 ∧
    (r = Ok tt → Made (P ++ [(c, b, (d, n))]) w')).
Proof.
  intros HM Hr Hnew. pose proof HM as [Ho Hst Hrd Hset]. pose proof (off_closed _ _ _ _ Ho) as Hc.
  pose proof (rc_slot _ _ _ _ Hr) as [Hw _]%target_slot_Some.
  destruct (walk_dir _ _ _ _ Hroot Hw) as [dn0 Hdn0].
  destruct (off_nodes _ _ _ _ Ho _ _ Hdn0) as (dn1 & Hdn1 & _).
  assert (∀ w' r, Touch drawn d n (w_fs w) (w_fs w') ∧ w_store w' = w_store w ∧
    (r = Ok tt → settled (w_fs w') c (d, n)) →
    Off drawn (slots_of (P ++ [(c, b, (d, n))])) fs0 (w_fs w') ∧ w_store w' = st0 ∧
    (map_err (λ _ : os_error, internal) r = Ok tt → Made (P ++ [(c, b, (d, n))]) w')) as Hfin.
  { intros w' r (HT & Hst' & Hok).
    assert (Off drawn (slots_of (P ++ [(c, b, (d, n))])) fs0 (w_fs w')) as Ho'.
    { eapply Off_weaken; [by eapply Off_touch|]. unfold slots_of.
      intros x. rewrite fmap_app, reverse_app. done. }
    split_and!; [done|congruence|]. intros Hrok%map_err_Ok. split; [done|congruence|..].
    - apply Forall_app. split; [done|]. by constructor.
    - apply Forall_app. split; [|constructor; [by apply Hok|done]].
      rewrite Forall_forall in *. intros x Hx. eapply settled_touch; [by apply Hset|done|..].
      + eapply ready_name, (Hrd _ Hx).
      + intros Hs. apply Hnew. rewrite <-Hs. apply elem_of_reverse, list_elem_of_fmap. eauto. }
  unfold install. apply wp_map_err. unfold settled in Hfin. destruct (pc_kind c) as [staged h|] eqn:Ek.
  - eapply wp_mono; [apply atomic_copy_spec; [done|by eexists]|].
    intros w' r (HT & Hst' & Hok). apply Hfin. split_and!; [done|done|].
    intros (f & Hf & j & Hj & Hej & Hfj)%Hok. exists j. do 2 eexists. rewrite Hst in Hf.
    split_and!; try done. destruct (fs0 !! j) as [a|] eqn:Ej; [|done].
    destruct (off_nodes _ _ _ _ Ho _ _ Ej) as (? & ? & _). congruence.
  - eapply wp_mono; [by apply unlink_file_spec|]. intros w' r (HT & Hst' & Hok). apply Hfin.
    split_and!; [done|done|]. intros Hnone%Hok. split; [done|]. by apply (rc_delete _ _ _ _ Hr).
Qed.

Lemma locate_spec P w c b d n :
  Made P w → ready_change c b d n →
  wp (locate orc root c b) w (λ w' r, still w w' ∧
    ∀ x, r = Ok x → x = (d, n) ∧ (d, n) ∉ slots_of P).
Proof.
  intros HM Hr. unfold locate, check_cancelled. apply wp_bind, wp_bind, wp_flag; [done|].
  intros cancelled t. apply wp_lift. destruct cancelled; [done|]. cbn [reject_if].
  apply wp_bind, wp_map_err. eapply wp_mono; [apply open_workspace_parent_spec|].
  intros w1 [[d' n']|] [Hs Hp]; cbn; [|done]. specialize (Hp _ eq_refl). cbn in Hp.
  pose proof (Made_slot _ _ _ _ _ _ _ _ HM Hr Hp) as [= -> ->].
  assert (closed (w_fs w)) as Hc by apply (off_closed _ _ _ _ (ma_off _ _ HM)).
  destruct Hs as [Hf1 Hst1]. cbn in Hf1, Hst1.
  apply wp_bind. eapply wp_mono; [apply validate_target_spec; by rewrite Hf1|].
  intros w2 [[]|] [[Hf2 Hst2] Hv]; [|by split; [split; congruence|]].
  apply wp_ret. split; [split; congruence|]. intros x [= <-]. split; [done|].
  rewrite Hf1 in Hv. by apply (Made_new_slot P w c b d n HM Hr), Hv.
Qed.

(** The loop: on an error the slots of the pushed parents are the only ones
    touched; if it completes every change is made. *)
Lemma mutation_loop_spec work : ∀ P w w' parents r,
  Made P w →
  Forall (λ x, ∃ d n, ready_change x.1 x.2 d n) work →
  mutation_loop orc euid egid root uid gid work (P.*2.*1) w = (w', (parents, r)) →
  ∃ Q, parents = Q.*2.*1 ∧ Q.*1 `prefix_of` P.*1 ++ work ∧
    Off drawn (slots_of Q) fs0 (w_fs w') ∧ w_store w' = st0 ∧ Forall ready_item Q ∧
    (r = Ok tt → Made Q w' ∧ Q.*1 = P.*1 ++ work).
Proof.
  induction work as [|[c b] work IH]; intros P w w' parents r HM Hwork; cbn.
  { intros [= <- <- <-]. destruct HM. exists P. rewrite app_nil_r. by split_and!. }
  apply Forall_cons in Hwork as [(d & n & Hr) Hwork]. cbn in Hr.
  pose proof (locate_spec P w c b d n HM Hr) as Hl. unfold wp in Hl.
  destruct (locate orc root c b w) as [w1 [[d' n']|e]]; cbn in Hl; destruct Hl as [Hs Hl];
    pose proof (Made_still _ _ _ HM Hs) as HM1.
  2: { intros [= <- <- <-]. destruct HM1. exists P. split_and!; try done.
       by apply prefix_app_r. }
  destruct (Hl _ eq_refl) as [[= -> ->] Hnew].
  pose proof (install_spec P w1 c b d n HM1 Hr Hnew) as Hi. unfold wp in Hi.
  destruct (install orc euid egid uid gid c d n w1) as [w2 [[]|e]]; cbn in Hi;
    destruct Hi as (Ho & Hst & Hok);
    assert (P.*2.*1 ++ [d] = (P ++ [(c, b, (d, n))]).*2.*1) as -> by (by rewrite !fmap_app);
    assert (P.*1 ++ (c, b) :: work = (P ++ [(c, b, (d, n))]).*1 ++ work) as ->
      by (by rewrite fmap_app, <-(assoc (++))).
  - apply IH; [by apply Hok|done].
  - intros [= <- <- <-]. exists (P ++ [(c, b, (d, n))]). split_and!; try done.
    + by apply prefix_app_r.
    + apply Forall_app. split; [apply (ma_ready _ _ HM)|]. by constructor.
Qed.

Lemma verify_parent_spec path held w :
  wp (verify_parent_still_beneath orc root path held) w (λ w' _, still w w').
Proof.
  unfold verify_parent_still_beneath. apply wp_bind, wp_map_err.
  eapply wp_mono; [apply open_workspace_parent_spec|]. intros w1 [p|] [Hs _]; cbn; [|done].
  assert (∀ i w2 (k : TargetMetadata → io UpdateError unit), still w w2 →
    (∀ m w3, still w w3 → wp (k m) w3 (λ w' _, still w w')) →
    wp (m ← io_map_err (λ _, internal) (fstat orc i); k m) w2 (λ w' _, still w w')) as Hstat.
  { intros i w2 k H2 Hk. apply wp_bind, wp_map_err, wp_syscall; [done|done|]. intros _ t.
    destruct (w_fs w2 !! i); [by apply Hk|done]. }
  apply Hstat; [done|]. intros m w2 H2. apply Hstat; [done|]. intros m' w3 H3. by apply wp_lift.
Qed.

(** After the loop only the commit can change anything, and its failure is
    never reported as rolled back. *)
Lemma conclude_spec changes parents (commit : io os_error unit) w :
  wp (conclude orc root changes parents commit) w (λ w' r,
    match r with
    | Ok _ => ∃ w1, still w w1 ∧ commit w1 = (w', Ok tt)
    | Err e => still w w' ∨ ue_rollback_proven e = false
    end).
Proof.
  unfold conclude, check_cancelled. apply wp_bind.
  eapply wp_mono; [apply (wp_each _ (still w)); [|done]|].
  { intros [c d] w1 _ H1. eapply wp_mono; [apply verify_parent_spec|]. intros w2 r ?.
    by eapply still_trans. }
  intros w1 [[]|] H1; cbn; [|by left]. apply wp_bind, wp_bind, wp_flag; [done|].
  intros b t. apply wp_lift. destruct b; cbn [reject_if]; [by left|].
  unfold wp, io_map_err. destruct (commit _) as [w2 [[]|]] eqn:Ecom; cbn; [|by right].
  eexists. split; [|done]. done.
Qed.
End mutate.

(** ** Backing up *)

(** Files already staged keep their place and content. *)
Definition grows (st st' : gmap string stored) : Prop :=
  ∀ p s, st !! p = Some s → ∃ s', st' !! p = Some s' ∧ st_data s' = st_data s.

Lemma grows_trans st1 st2 st3 : grows st1 st2 → grows st2 st3 → grows st1 st3.
Proof.
  intros H1 H2 p s (s2 & (s3 & ? & ?)%H2 & ?)%H1. exists s3. split; [done|congruence].
Qed.

Lemma grows_fresh st p s : st !! p = None → grows st (<[p := s]> st).
Proof. intros Hp p' s' Hs'. exists s'. by rewrite lookup_insert_ne by congruence. Qed.

Lemma copy_open_file_spec i destination w :
  wp (copy_open_file_and_hash orc euid egid i destination) w (λ w' r,
    w_fs w' = w_fs w ∧ grows (w_store w) (w_store w') ∧
    ∀ h, r = Ok h → ∃ a s, w_fs w !! i = Some a ∧ h = sha256_hex (nd_data a) ∧
      w_store w' !! destination = Some s ∧ st_data s = nd_data a).
Proof.
  assert (grows (w_store w) (w_store w)) as Hrefl by (intros ? s ?; by exists s).
  unfold copy_open_file_and_hash. apply wp_bind, wp_private; [done|by intros; split_and!|].
  intros _ t. destruct (w_store w !! destination) eqn:Ed; [by split_and!|].
  pose proof (grows_fresh (w_store w) destination (Stored "" euid egid o600) Ed) as Hg.
  apply wp_bind, wp_syscall; [done|by intros; split_and!|]. intros _ t1. cbn.
  destruct (w_fs w !! i) as [a|]; [|by split_and!].
  apply wp_bind, wp_private; [done|by intros; split_and!|]. intros _ t2. cbn.
  rewrite alter_insert_eq. cbn.
  pose proof (grows_fresh (w_store w) destination (Stored (nd_data a) euid egid o600) Ed) as Hg'.
  apply wp_bind, wp_private; [done|by intros; split_and!|]. intros _ t3.
  apply wp_ret. split_and!; [done|done|]. intros h [= <-]. exists a, (Stored (nd_data a) euid egid o600).
  cbn. by rewrite lookup_insert_eq.
Qed.

Lemma backed_up_grows fs0 st st' b d n :
  backed_up fs0 st b d n → grows st st' → backed_up fs0 st' b d n.
Proof.
  intros [Hn Ho Hb] Hg. split; [done|done|]. destruct (bk_staged b) as [p|]; [|done].
  destruct Hb as (i & a & s & ? & ? & ? & (s' & ? & ?)%Hg & ? & Hrest). exists i, a, s'.
  destruct_and!. split_and!; try done. congruence.
Qed.

Section backups.
Context (fs0 : FS) (Hc0 : closed fs0) (root : FileIdentity) (uid gid : N) (backups_root : string).

Record BackedUp (st : gmap string stored) (backups : list Backup) (dn : list PreparedChange)
    (w : World) : Prop := {
  bd_fs : w_fs w = fs0;
  bd_store : grows st (w_store w);
  bd_ready : Forall2 (λ c b, ∃ d n, ready_change fs0 (w_store w) root c b d n) dn backups;
}.

Lemma check_target_Ok kind m :
  check_target kind m = Ok tt →
  (∀ x, m = Some x → is_regular_mode (tg_mode x) = true) ∧ (kind = PDelete → m ≠ None).
Proof.
  unfold check_target. destruct m as [x|]; cbn.
  - destruct (is_regular_mode _) eqn:Er; cbn; [|done]. intros _. naive_solver.
  - intros Hk%reject_if_Ok. destruct kind; naive_solver.
Qed.

Lemma ready_change_grows st st' c b d n :
  ready_change fs0 st root c b d n → grows st st' → ready_change fs0 st' root c b d n.
Proof. intros [? ? ? ?] ?. split; [done|by eapply backed_up_grows|done|done]. Qed.

Lemma BackedUp_step st backups dn w w' c b d n :
  BackedUp st backups dn w → w_fs w' = fs0 → grows (w_store w) (w_store w') →
  ready_change fs0 (w_store w') root c b d n →
  BackedUp st (backups ++ [b]) (dn ++ [c]) w'.
Proof.
  intros [Hf Hs Hr] Hf' Hg Hc. split; [done|by eapply grows_trans|].
  apply Forall2_app; [|constructor; [by exists d, n|done]].
  eapply Forall2_impl; [done|]. intros c' b' (d' & n' & ?). exists d', n'.
  by eapply ready_change_grows.
Qed.

Lemma back_up_spec st backups dn c w :
  BackedUp st backups dn w → Forall (λ c, ¬ drawn c) (split slash (pc_path c)) →
  wp (back_up orc euid egid root backups_root uid gid backups c) w (λ w' r,
    match r with
    | Ok backups' => BackedUp st backups' (dn ++ [c]) w'
    | Err e => w_fs w' = fs0
    end).
Proof.
  intros HB Hnames. pose proof HB as [Hf _ _]. unfold back_up.
  apply wp_bind, wp_map_err. eapply wp_mono; [apply open_workspace_parent_spec|].
  intros w1 [[d n]|] [[Hf1 Hst1] Hp]; cbn [map_err]; [|congruence].
  specialize (Hp _ eq_refl). rewrite Hf in *.
  apply wp_bind, wp_map_err. eapply wp_mono; [apply inspect_target_spec; by rewrite Hf1|].
  intros w2 [m|] [[Hf2 Hst2] Hm]; cbn [map_err]; [|congruence]. specialize (Hm _ eq_refl).
  rewrite Hf1 in *. apply wp_bind, wp_lift. destruct (check_target _ m) as [[]|] eqn:Ec; [|congruence].
  apply check_target_Ok in Ec as [Hreg Hdel]. pose proof Hp as [_ Hl]%target_slot_Some.
  destruct m as [m|]; cbn in Hm.
  - destruct Hm as (i & a & Hi & Ha & ->). cbn.
    apply wp_bind, wp_bind, wp_map_err. eapply wp_mono; [apply open_regular_spec|].
    intros w3 [f|] [[Hf3 Hst3] Hop]; cbn [map_err]; [|congruence]. specialize (Hop f eq_refl).
    rewrite Hf2 in *. assert (f = i) as -> by congruence.
    apply wp_bind, wp_map_err. eapply wp_mono; [apply copy_open_file_spec|].
    intros w4 [h|] (Hf4 & Hg4 & Hh); cbn [map_err]; [|congruence].
    destruct (Hh h eq_refl) as (a' & s & Ha' & -> & Hs & Hdata). rewrite Hf3 in *. simplify_eq.
    apply wp_ret, wp_ret. rewrite Hst3, Hst2, Hst1 in Hg4.
    eapply BackedUp_step; [done|congruence|done|]. split; [done| |by intros; eexists|done].
    specialize (Hreg _ eq_refl). cbn in Hreg. rewrite regular_mode in Hreg. breflect.
    split; cbn; [done|done|]. exists i, a, s. rewrite permission_bits. by split_and!.
  - apply wp_bind, wp_ret, wp_ret. cbn.
    eapply BackedUp_step; [done|congruence|rewrite Hst2, Hst1; intros p s ?; by exists s|].
    split; [done| |by intros ?%Hdel|done]. split; done.
Qed.
End backups.

(** ** The whole transaction *)

Section transaction.
Context (fs0 : FS) (Hc0 : closed fs0) (root : FileIdentity) (Hroot : is_Some (fs0 !! root)).
Context (uid gid : N) (st0 : gmap string stored).

(** The slots pushed by the mutation loop can be rolled back. *)
Lemma rollback_inputs (Q : list (PreparedChange * Backup * (FileIdentity * string))) changes backups :
  Forall (ready_item fs0 st0 root) Q → length changes = length backups →
  Q.*1 `prefix_of` zip changes backups →
  Forall2 (λ p s, p.2 = s.1 ∧ backed_up fs0 st0 p.1 s.1 s.2 ∧ is_Some (fs0 !! s.1))
    (reverse (zip (take (length Q.*2.*1) backups) Q.*2.*1)) (slots_of Q).
Proof.
  intros HQ Hlen [k Hk]. unfold slots_of. apply Forall2_reverse.
  assert (take (length Q.*2.*1) backups = Q.*1.*2) as ->.
  { rewrite !length_fmap. apply (f_equal (λ l, (l : list (PreparedChange * Backup)).*2)) in Hk.
    rewrite snd_zip in Hk by lia. rewrite Hk, fmap_app, take_app_length'; [done|].
    by rewrite !length_fmap. }
  clear Hk Hlen. induction HQ as [|[[c b] [d n]] Q Hx HQ IH]; [constructor|]. cbn.
  constructor; [|apply IH]. destruct Hx as [[Hw _]%target_slot_Some Hb _ _]. split_and!; [done..|].
  by eapply walk_dir.
Qed.

Lemma ready_zip changes backups :
  Forall2 (λ c b, ∃ d n, ready_change fs0 st0 root c b d n) changes backups →
  Forall (λ x, ∃ d n, ready_change fs0 st0 root x.1 x.2 d n) (zip changes backups).
Proof. induction 1; constructor; done. Qed.

Lemma mutation_spec changes backups commit w w' parents r :
  w_fs w = fs0 → w_store w = st0 →
  Forall2 (λ c b, ∃ d n, ready_change fs0 st0 root c b d n) changes backups →
  mutation orc euid egid root uid gid changes backups commit w = (w', (parents, r)) →
  ∃ Q, parents = Q.*2.*1 ∧ Q.*1 `prefix_of` zip changes backups ∧
    Forall (ready_item fs0 st0 root) Q ∧
    match r with
    | Ok _ => Q.*1 = zip changes backups ∧
        ∃ w1, Made fs0 st0 root uid gid Q w1 ∧ commit w1 = (w', Ok tt)
    | Err e => ue_rollback_proven e = true →
        Off drawn (slots_of Q) fs0 (w_fs w') ∧ w_store w' = st0
    end.
Proof.
  intros Hf Hst Hr. unfold mutation.
  destruct (mutation_loop _ _ _ _ _ _ _ _ w) as [w1 [ps [[]|e]]] eqn:El;
    apply (mutation_loop_spec fs0 st0 Hc0 root Hroot uid gid (zip changes backups) []) in El as
      (Q & -> & Hpre & Ho & Hst1 & HQ & Hok); try (by apply ready_zip);
    try (split; [rewrite Hf; by apply Off_refl|done|constructor|constructor]).
  - destruct (Hok eq_refl) as [HM Hall]. pose proof (conclude_spec root changes Q.*2.*1 commit w1) as Hc.
    destruct (conclude _ _ _ _ _ w1) as [w2 r2] eqn:Ec. eapply wp_run in Hc; [|done].
    intros [= <- <- <-]. exists Q. split_and!; [done..|]. destruct r2 as [[]|e].
    + destruct Hc as (w3 & Hs3 & Hcom). split; [done|]. exists w3. split; [|done].
      by eapply Made_still.
    + destruct Hc as [[Hf2 Hst2]|Hfalse]; [|congruence]. rewrite Hf2, Hst2. done.
  - intros [= <- <- <-]. by exists Q.
Qed.

Lemma evidence_error ev l e :
  fold_each add_evidence ev l = Err e → ue_rollback_proven e = false.
Proof.
  revert ev. induction l as [|[c b] l IH]; intros ev; [done|].
  rewrite fold_each_cons. intros [Hadd|(ev' & _ & ?)]%bind_Err; [|eauto]. revert Hadd.
  unfold add_evidence. destruct (pc_kind _); [done|]. destruct (bk_sha256 _); [done|]. by intros [= <-].
Qed.

Lemma transact_error changes backups commit w w' e :
  w_fs w = fs0 → w_store w = st0 →
  Forall2 (λ c b, ∃ d n, ready_change fs0 st0 root c b d n) changes backups →
  transact orc euid egid root uid gid changes backups commit w = (w', Err e) →
  ue_rollback_proven e = true → Restored drawn [] fs0 (w_fs w').
Proof.
  intros Hf Hst Hr. unfold transact.
  destruct (mutation _ _ _ _ _ _ _ _ _ w) as [w1 [ps [[]|e1]]] eqn:Em;
    apply mutation_spec in Em as (Q & -> & Hpre & HQ & Hres); try done.
  - intros [= <- Hev%evidence_error]. congruence.
  - destruct (rollback _ _ _ _ _ w1) as [w2 r2] eqn:Er. intros [= <- <-] Hp. cbn in Hp. breflect.
    destruct Hres as [Ho Hst1]; [done|].
    eapply (wp_run _ _ (λ w' r, r = Ok tt → Restored drawn [] fs0 (w_fs w')));
      [|exact Er|by destruct r2 as [[]|]].
    eapply rollback_spec; [by apply Off_Restored|done|].
    apply (rollback_inputs _ changes); [done| |done]. by eapply Forall2_length.
Qed.

(** The evidence a successful application reports. *)
Definition evidence_changed (c : PreparedChange) : option SessionUpdateEvidence :=
  match pc_kind c with
  | PFile _ sha256 => Some {| ev_path := pc_path c; ev_sha256 := sha256 |}
  | PDelete => None
  end.
Definition evidence_deleted (c : PreparedChange) : option SessionUpdateEvidence :=
  match pc_kind c with
  | PFile _ _ => None
  | PDelete => a ← lookup_path fs0 root (pc_path c);
               Some {| ev_path := pc_path c; ev_sha256 := sha256_hex (nd_data a) |}
  end.

Lemma evidence_spec changes backups ev ev' :
  Forall2 (λ c b, ∃ d n, ready_change fs0 st0 root c b d n) changes backups →
  fold_each add_evidence ev (zip changes backups) = Ok ev' →
  ae_changed ev' = ae_changed ev ++ omap evidence_changed changes ∧
  ae_deleted ev' = ae_deleted ev ++ omap evidence_deleted changes.
Proof.
  intros Hr. revert ev. induction Hr as [|c b changes backups (d & n & Hr) Hrs IH]; intros ev.
  { intros [= <-]. by rewrite !app_nil_r. }
  cbn [zip zip_with]. rewrite fold_each_cons. intros (ev1 & Hadd & [-> ->]%IH)%bind_Ok.
  revert Hadd. unfold add_evidence. cbn. unfold evidence_changed at 2, evidence_deleted at 2.
  destruct (pc_kind c) as [p h|] eqn:Ek; cbn.
  - intros [= <-]. cbn. by rewrite <-(assoc (++)).
  - destruct Hr as [Hs [_ _ Hb] Hdel _]. unfold lookup_path. rewrite Hs. cbn.
    destruct (Hdel Ek) as [i Hi]. rewrite Hi. cbn. destruct (bk_staged b) as [p|]; [|congruence].
    destruct Hb as (i' & a & s & Hi' & Ha & _ & _ & _ & _ & _ & _ & ->). cbn.
    assert (i' = i) as -> by congruence. rewrite Ha. cbn.
    intros [= <-]. cbn. by rewrite <-(assoc (++)).
Qed.

(** What the workspace shows of a change that was made. *)
Definition change_made (fs : FS) (st : gmap string stored) (c : PreparedChange) : Prop :=
  match pc_kind c with
  | PFile staged _ => ∃ f, st !! staged = Some f ∧
      attrs <$> lookup_path fs root (pc_path c) = Some (Node Regular uid gid o644 (st_data f) ∅)
  | PDelete => lookup_path fs root (pc_path c) = None ∧
      ∃ a, lookup_path fs0 root (pc_path c) = Some a ∧ nd_kind a = Regular
  end.

(** Nothing but the slots of [changes] differs. *)
Definition only_changed (fs : FS) (changes : list PreparedChange) : Prop :=
  (∀ i a, fs0 !! i = Some a → ∃ b, fs !! i = Some b ∧ attrs b = attrs a) ∧
  (∀ d n, ¬ drawn n → Forall (λ c, target_slot fs0 root (pc_path c) ≠ Some (d, n)) changes →
    entry fs d n = entry fs0 d n).

Lemma Made_change_made Q w c b d n :
  Made fs0 st0 root uid gid Q w → (c, b, (d, n)) ∈ Q → change_made (w_fs w) st0 c.
Proof.
  intros [Ho _ Hr Hs] Hin. rewrite Forall_forall in Hr, Hs.
  destruct (Hr _ Hin) as [Hslot [_ _ Hb] _ Hn]. specialize (Hs _ Hin). cbn in *.
  assert (target_slot (w_fs w) root (pc_path c) = Some (d, n)) as Hslot'.
  { apply target_slot_Some in Hslot as [Hw Hl]. apply target_slot_Some. split; [|done].
    eapply (walk_forward drawn); [by apply Off_Restored|by apply Forall_removelast| |done].
    unfold slots_of. intros d1 n1 Hin1 i a Hi Ha.
    apply elem_of_reverse, list_elem_of_fmap in Hin1 as (x & Hx & Hin1).
    destruct (Hr _ Hin1) as [_ [_ _ Hb1] _ _]. rewrite <-Hx in Hb1. cbn in Hb1.
    destruct (bk_staged x.1.2); [|congruence].
    destruct Hb1 as (i1 & a1 & s1 & ? & ? & ? & _). congruence. }
  unfold settled, change_made, lookup_path in *. rewrite Hslot, Hslot'. cbn in *.
  destruct (pc_kind c).
  - destruct Hs as (j & a & f & ? & -> & _ & Ha & Hat). exists f. cbn. by rewrite Ha, <-Hat.
  - destruct Hs as [-> [i Hi]]. split; [done|]. destruct (bk_staged b); [|congruence].
    destruct Hb as (i1 & a1 & s1 & -> & Ha1 & ? & _). cbn. eauto.
Qed.

Lemma transact_ok changes backups (commit : io os_error unit) w w' ev :
  (∀ w w', commit w = (w', Ok tt) → w_fs w' = w_fs w) →
  w_fs w = fs0 → w_store w = st0 →
  Forall2 (λ c b, ∃ d n, ready_change fs0 st0 root c b d n) changes backups →
  transact orc euid egid root uid gid changes backups commit w = (w', Ok ev) →
  Forall (change_made (w_fs w') st0) changes ∧ only_changed (w_fs w') changes ∧
  ev = {| ae_changed := omap evidence_changed changes;
          ae_deleted := omap evidence_deleted changes |} ∧
  ∃ w1, commit w1 = (w', Ok tt).
Proof.
  intros Hcom Hf Hst Hr. unfold transact.
  destruct (mutation _ _ _ _ _ _ _ _ _ w) as [w1 [ps [[]|e1]]] eqn:Em;
    apply mutation_spec in Em as (Q & -> & Hpre & HQ & Hres); try done.
  2: { by destruct (rollback _ _ _ _ _ w1). }
  intros [= <- Hev]. destruct Hres as (Hall & w2 & HM & Hc). rewrite (Hcom _ _ Hc).
  assert (Q.*1.*1 = changes) as Hch.
  { rewrite Hall, fst_zip; [done|]. by erewrite Forall2_length. }
  split_and!; [| |apply (evidence_spec changes backups) in Hev as [? ?]; [|done]|eauto].
  - rewrite <-Hch. rewrite Forall_fmap, Forall_fmap, Forall_forall. intros [[c b] [d n]] Hin.
    by eapply Made_change_made.
  - split; [apply (off_nodes _ _ _ _ (ma_off _ _ _ _ _ _ _ HM))|]. intros d n Hd Hnot.
    apply (off_entries _ _ _ _ (ma_off _ _ _ _ _ _ _ HM)); [done|]. unfold slots_of. intros Hin.
    apply elem_of_reverse, list_elem_of_fmap in Hin as ([[c b] s] & Hs & Hin). cbn in Hs. subst s.
    rewrite Forall_forall in HQ. rewrite Forall_forall in Hnot.
    apply (Hnot c); [|apply (rc_slot _ _ _ _ _ _ _ (HQ _ Hin))]. rewrite <-Hch.
    by apply (list_elem_of_fmap_2 (λ x, x.1) _ (c, b)), (list_elem_of_fmap_2 (λ x, x.1) _ (c, b, (d, n))).
  - destruct ev. cbn in *. by subst.
Qed.
End transaction.

(** ** Applying an update *)

Lemma open_workspace_root_spec workspace w :
  wp (open_workspace_root orc resolve workspace) w (λ w' r, still w w' ∧
    ∀ root, r = Ok root → resolve workspace = Some root ∧ is_Some (w_fs w !! root)).
Proof.
  unfold open_workspace_root. apply wp_bind, wp_lift.
  destruct (contains_byte _ _); [done|]. cbn [reject_if].
  apply wp_map_err, wp_syscall; [done|done|]. intros _ t.
  destruct (resolve workspace) as [i|]; [|done]. destruct (w_fs w !! i) as [a|] eqn:Ea; [|done].
  destruct (nd_kind a); try done. split; [done|]. intros root [= <-]. rewrite Ea. eauto.
Qed.

Lemma prepare_staged_spec path uid gid w :
  wp (prepare_staged_file orc path uid gid) w (λ w' _,
    w_fs w' = w_fs w ∧ grows (w_store w) (w_store w')).
Proof.
  assert (∀ st (g : stored → stored), (∀ s, st_data (g s) = st_data s) → grows st (alter g path st))
    as Hg.
  { intros st g Hg p s Hs. destruct (decide (path = p)) as [->|].
    - rewrite lookup_alter_eq, Hs. cbn. eauto.
    - rewrite lookup_alter_ne by done. eauto. }
  assert (∀ st, grows st st) as Hrefl by (intros st p s ?; by exists s).
  unfold prepare_staged_file. apply wp_bind, wp_private; [done|done|]. intros _ t.
  destruct (w_store w !! path); [|done].
  apply wp_bind, wp_private; [done|done|]. intros _ t1.
  apply wp_private; [done|..]; intros; cbn; (split; [done|]); [by apply Hg|].
  eapply grows_trans; by apply Hg.
Qed.

(** The names of a prepared change are none of the temporary names drawn. *)
Definition unreserved (c : PreparedChange) : Prop :=
  Forall (λ c, ¬ drawn c) (split slash (pc_path c)).

(** An application either stops before the first mutation or runs its
    transaction on a workspace that is completely backed up. *)
Lemma apply_inner_spec prepared workspace uid gid commit w :
  closed (w_fs w) → Forall unreserved (pu_changes prepared) →
  wp (apply_update_inner orc euid egid resolve prepared workspace uid gid commit) w (λ w' r,
    (w_fs w' = w_fs w ∧ ∃ e, r = Err e) ∨
    ∃ root backups w1, resolve workspace = Some root ∧ is_Some (w_fs w !! root) ∧
      w_fs w1 = w_fs w ∧ grows (w_store w) (w_store w1) ∧
      Forall2 (λ c b, ∃ d n, ready_change (w_fs w) (w_store w1) root c b d n)
        (pu_changes prepared) backups ∧
      transact orc euid egid root uid gid (pu_changes prepared) backups commit w1 = (w', r)).
Proof.
  intros Hc Hun. unfold apply_update_inner, check_cancelled.
  apply wp_bind, wp_bind, wp_flag; [done|]. intros b t. apply wp_lift.
  destruct b; cbn [reject_if]; [by left; eauto|].
  apply wp_bind. eapply wp_mono; [apply open_workspace_root_spec|].
  intros w1 [root|] [[Hf1 Hst1] Hroot]; [|by left; eauto]. destruct (Hroot root eq_refl) as [Hres Hdir].
  apply wp_bind, wp_map_err, wp_private; [done|by left; eauto|]. intros _ t1.
  apply wp_bind, wp_map_err, wp_private; [done|by left; eauto|]. intros _ t2. cbn [map_err w_fs w_store].
  apply wp_bind. eapply wp_mono; [apply (wp_each _ (λ w', w_fs w' = w_fs w ∧ grows (w_store w) (w_store w')))|].
  { intros c w2 _ [Hf2 Hg2]. destruct (pc_kind c); [|by apply wp_ret].
    apply wp_map_err. eapply wp_mono; [apply prepare_staged_spec|]. intros w3 r [Hf3 Hg3].
    split; [congruence|by eapply grows_trans]. }
  { cbn. split; [done|]. rewrite Hst1. intros p s ?. by exists s. }
  intros w2 [[]|] [Hf2 Hg2]; [|by left; eauto]. apply wp_bind.
  eapply wp_mono; [apply (wp_fold _ (λ w' bs dn, BackedUp (w_fs w) root (w_store w2) bs dn w')
    (λ w' _, w_fs w' = w_fs w) (pu_changes prepared) [])|].
  { intros bs dn c w3 Hin HB. rewrite Forall_forall in Hun. apply back_up_spec; [done|done|by apply Hun]. }
  { split; [done|intros p s ?; by exists s|constructor]. }
  intros w3 [backups|] HB; [|by left; eauto]. destruct HB as [Hf3 Hg3 Hr].
  right. exists root, backups, w3. split_and!; try done; [by eapply grows_trans|].
  apply surjective_pairing.
Qed.
End apply_spec.
