(* ===== verification/UpdatePrepare.v ===== *)
(** Preparing an update: exactly the declared files are staged, with the declared
    content, within the limits that can be trusted. *)
From Stdlib Require Import Ascii.
From stdpp Require Import base option strings numbers gmap fin_maps pretty list.
From S2P Require Import Prelude Effects RustStr Fs Posix Protocol Config Sessions Updates.

Local Open Scope N_scope.

(** An entry that may be staged: a regular file without execute permission. *)
Definition plain_entry (e : zip_entry) : bool :=
  negb (ze_is_dir e) && negb (ze_is_symlink e) &&
  match ze_unix_mode e with
  | Some mode => ((N.land mode o170000 =? 0) || (N.land mode o170000 =? o100000)) &&
                 negb (mode_has mode o111)
  | None => true
  end.

Section prepare_spec.
Context (orc : nat → answer) (euid egid : N) `{Glob, Sha256}.

Lemma alter_others {A} (f : A → A) (m : gmap string A) p q : q ≠ p → alter f p m !! q = m !! q.
Proof. intros ?. by apply lookup_alter_ne. Qed.

(** Copying an entry stages its content and counts every byte of it. *)
Lemma copy_entry_spec staged max total size reads : ∀ actual hashed f w,
  w_store w !! staged = Some f → st_data f = hashed →
  (max < u64_max → actual = len hashed ∧ (total - size) + len hashed ≤ max) →
  wp (copy_entry orc staged max total size actual hashed reads) w (λ w' r,
    (∀ p, p ≠ staged → w_store w' !! p = w_store w !! p) ∧
    match r with
    | Ok h => h = hashed +:+ content reads ∧ st_data <$> w_store w' !! staged = Some h ∧
              (max < u64_max → (total - size) + len h ≤ max)
    | Err e => ue_rollback_proven e = true
    end).
Proof.
  induction reads as [|[chunk|] reads IH]; intros actual hashed f w Hf Hd Hmax;
    cbn [copy_entry content]; [|destruct (is_empty chunk) eqn:Ee|done].
  1, 2: apply wp_ret; rewrite Hf; cbn; rewrite Hd, string_app_nil; naive_solver.
  apply wp_bind, wp_lift. destruct (max <? _) eqn:El; [done|]. cbn [reject_if]. breflect.
  apply wp_bind, wp_map_err, wp_private_any; [done|]. intros _ fs t. cbn [map_err w_store].
  eapply wp_mono.
  - eapply IH; [cbn; by rewrite lookup_alter_eq, Hf|cbn; by rewrite Hd|].
    intros Hu. destruct (Hmax Hu) as [-> Hle]. rewrite len_app. unfold saturating_sub in El.
    apply saturating_add_le in El; [|done]. unfold saturating_add in *. lia.
  - cbn. intros w' r [Hp Hr]. split; [intros p ?; by rewrite Hp, alter_others|].
    destruct r; [|done]. by rewrite string_app_assoc in Hr.
Qed.

(** * One entry *)

Section stage.
Context (w0 : World) (root : string) (changes : list SessionUpdateChange)
  (policy : SourceUpdatesConfig).

Definition staged_path (k : nat) : string := path_join root ("file-" +:+ pretty k).

(** The staged file of an entry: new, with the entry's content, of the declared
    hash. *)
Record staged_file (w : World) (e : zip_entry) (staged h : string) : Prop := {
  sf_new : w_store w0 !! staged = None;
  sf_data : st_data <$> w_store w !! staged = Some (content (ze_reads e));
  sf_hash : h = sha256_hex (content (ze_reads e));
  sf_declared : declared_files changes !! ze_name e = Some h;
  sf_plain : plain_entry e = true;
  sf_len : up_max_uncompressed_bytes policy < u64_max →
           len (content (ze_reads e)) ≤ up_max_uncompressed_bytes policy;
}.

Definition declared_sizes (es : list zip_entry) : N := foldr N.add 0 (ze_size <$> es).

Record Staged (es : list zip_entry) (s : staging) (w : World) : Prop := {
  sd_kept : ∀ p f, w_store w0 !! p = Some f → w_store w !! p = Some f;
  sd_files : ∀ name, sg_staged s !! name = None ∨ ∃ e staged h, e ∈ es ∧ ze_name e = name ∧
    sg_staged s !! name = Some (staged, h) ∧ staged_file w e staged h;
  sd_names : ∀ name, name ∈ sg_seen s ↔ name ∈ ze_name <$> es;
  sd_folded : ∀ name, name ∈ sg_folded s ↔ name ∈ to_ascii_lowercase ∘ ze_name <$> es;
  sd_nodup : NoDup (to_ascii_lowercase ∘ ze_name <$> es);
  sd_dom : dom (sg_staged s) = sg_seen s;
  sd_size : size (sg_staged s) = length es;
  sd_total : up_max_uncompressed_bytes policy < u64_max →
    sg_total s = declared_sizes es ∧ sg_total s ≤ up_max_uncompressed_bytes policy;
}.

(** The modes [stage_entry] rejects are those [plain_entry] does. *)
Lemma mode_check e :
  match ze_unix_mode e with
  | Some mode => (negb (N.land mode o170000 =? 0) && negb (N.land mode o170000 =? o100000))
                 || mode_has mode o111
  | None => false
  end = false →
  ze_is_dir e || ze_is_symlink e = false → plain_entry e = true.
Proof.
  intros Hm [Hd Hl]%orb_false_iff. unfold plain_entry. rewrite Hd, Hl. cbn. destruct (ze_unix_mode e) as [mode|]; [|done].
  apply orb_false_iff in Hm as [Hk ->]. rewrite andb_true_r. revert Hk.
  by destruct (_ =? 0), (_ =? o100000).
Qed.

Lemma staged_file_mono w w' e staged h :
  staged_file w e staged h → w_store w' !! staged = w_store w !! staged →
  staged_file w' e staged h.
Proof. intros [? Hd ? ? ? ?] Hs. split; try done. by rewrite Hs. Qed.

(** Adding a staged entry. *)
Lemma Staged_add es s w w' e staged h :
  Staged es s w →
  ze_name e ∉ sg_seen s → to_ascii_lowercase (ze_name e) ∉ sg_folded s →
  w_store w !! staged = None → (∀ p, p ≠ staged → w_store w' !! p = w_store w !! p) →
  staged_file w' e staged h →
  (up_max_uncompressed_bytes policy < u64_max →
     saturating_add (sg_total s) (ze_size e) ≤ up_max_uncompressed_bytes policy) →
  Staged (es ++ [e])
    {| sg_seen := {[ze_name e]} ∪ sg_seen s;
       sg_folded := {[to_ascii_lowercase (ze_name e)]} ∪ sg_folded s;
       sg_staged := <[ze_name e := (staged, h)]> (sg_staged s);
       sg_total := saturating_add (sg_total s) (ze_size e) |} w'.
Proof.
  intros [Hk Hf Hn Hfo Hnd Hdom Hsz Htot] Hnew Hfnew Hst Hoth Hfile Hmax.
  assert (sg_staged s !! ze_name e = None) as Hnone
    by (apply not_elem_of_dom; by rewrite Hdom).
  split; cbn.
  - intros p f Hp. pose proof (Hk _ _ Hp). rewrite Hoth by congruence. done.
  - intros name. destruct (decide (ze_name e = name)) as [<-|Hne].
    + right. exists e, staged, h. rewrite lookup_insert_eq. split_and!; try done. set_solver.
    + rewrite lookup_insert_ne by done. destruct (Hf name) as [?|(e' & st' & h' & ? & ? & ? & Hfi)];
        [by left|right]. exists e', st', h'. split_and!; try done; [set_solver|].
      eapply staged_file_mono; [done|]. apply Hoth. intros ->.
      pose proof (sf_data _ _ _ _ Hfi) as Hx. by rewrite Hst in Hx.
  - intros name. rewrite elem_of_union, elem_of_singleton, Hn, fmap_app, elem_of_app. set_solver.
  - intros name. rewrite elem_of_union, elem_of_singleton, Hfo, fmap_app, elem_of_app. set_solver.
  - rewrite fmap_app. apply NoDup_app. split_and!; [done| |by apply NoDup_singleton].
    intros x Hx%Hfo. cbn. set_solver.
  - by rewrite dom_insert_L, Hdom.
  - by rewrite map_size_insert_None, Hsz, length_app, Nat.add_comm.
  - intros Hu. specialize (Hmax Hu). destruct (Htot Hu) as [Ht _]. split; [|done].
    assert (declared_sizes (es ++ [e]) = declared_sizes es + ze_size e) as ->.
    { unfold declared_sizes. rewrite fmap_app, foldr_app. cbn. clear.
      induction (ze_size <$> es) as [|x l IH]; cbn; [lia|]. rewrite IH. lia. }
    rewrite <-Ht. unfold saturating_add in *. lia.
Qed.

Lemma stage_entry_spec es s w k oe :
  Staged es s w →
  wp (stage_entry orc euid egid root (declared_files changes) policy s (k, oe)) w (λ w' r,
    match r with
    | Ok s' => ∃ e, oe = Some e ∧ Staged (es ++ [e]) s' w'
    | Err e => ue_rollback_proven e = true
    end).
Proof.
  intros HS. unfold stage_entry. apply wp_bind, wp_lift. destruct oe as [e|]; [|done]. cbn [ok_or].
  apply wp_bind, wp_lift. destruct (_ || _) eqn:Edup; [done|]. cbn [reject_if]. breflect.
  apply wp_bind, wp_lift. destruct (declared_files changes !! ze_name e) as [eh|] eqn:Eh; [|done].
  cbn [ok_or]. apply wp_bind, wp_lift. destruct (ze_is_dir e || _) eqn:Ed; [done|]. cbn [reject_if].
  apply wp_bind. apply (wp_mono _ _ (λ w' r, w' = w ∧
    match r with Ok _ => plain_entry e = true | Err e => ue_rollback_proven e = true end)).
  { destruct (ze_unix_mode e) as [mode|] eqn:Em.
    - apply wp_lift. split; [done|]. destruct (_ || mode_has mode o111) eqn:Eo; [done|]. apply mode_check; [|done].
      by rewrite Em.
    - apply wp_ret. split; [done|]. apply mode_check; [|done]. by rewrite Em. }
  intros ? [[]|?] [-> Hplain]; [|done]. apply wp_bind, wp_lift.
  destruct (_ <? _) eqn:Et; [done|]. cbn [reject_if]. breflect.
  apply wp_bind, wp_map_err, wp_private_any; [done|]. intros _ fs t. fold (staged_path k).
  destruct (w_store w !! staged_path k) eqn:Est; [done|]. cbn [map_err].
  apply wp_bind. eapply wp_mono; [eapply copy_entry_spec; [by apply lookup_insert_eq|done|]|].
  { intros Hu. split; [done|]. destruct (sd_total _ _ _ HS Hu). cbn. unfold len, saturating_add in *. cbn. lia. }
  intros w1 [h|] [Hoth Hr]; [|done]. destruct Hr as (-> & Hdata & Hlen). cbn [w_store] in Hoth.
  apply wp_bind, wp_map_err, wp_private_any; [done|]. intros _ fs1 t1. cbn [map_err].
  apply wp_bind, wp_lift. cbn [String.app]. change ("" +:+ ?x) with x in *.
  case_bool_decide as Hhash; [|done]. cbn [negb reject_if]. apply wp_ret.
  exists e. split; [done|]. eapply Staged_add; try done.
  - intros p Hp. cbn. rewrite Hoth by done. by rewrite lookup_insert_ne.
  - subst eh. split; try done.
    + destruct (w_store w0 !! staged_path k) eqn:E0; [|done].
      pose proof (sd_kept _ _ _ HS _ _ E0). congruence.
    + intros Hu. specialize (Hlen Hu). lia.
Qed.
End stage.

(** * Matching declarations and entries *)

Lemma declared_files_snoc cs c :
  declared_files (cs ++ [c]) =
  match c with File p h => <[p := h]> (declared_files cs) | Delete _ => declared_files cs end.
Proof. unfold declared_files. by rewrite foldl_app. Qed.

Lemma declared_files_lookup cs p h :
  NoDup (change_path <$> cs) → declared_files cs !! p = Some h ↔ File p h ∈ cs.
Proof.
  revert h. induction cs as [|c cs IH] using rev_ind; intros h Hnd; [by rewrite elem_of_nil|].
  rewrite fmap_app in Hnd. apply NoDup_app in Hnd as (Hnd & Hdis & _).
  rewrite declared_files_snoc, elem_of_app, list_elem_of_singleton, <-IH by done.
  destruct c as [p' h'|p']; [|naive_solver]. rewrite lookup_insert_Some.
  split; [naive_solver|]. intros [Hin|[= -> ->]]; [|by left]. right. split; [|done].
  intros ->. apply IH in Hin; [|done]. apply (Hdis p); [|by left].
  by apply (list_elem_of_fmap_2 change_path _ (File p h)).
Qed.

Definition matched (m : gmap string (string * string)) (c : SessionUpdateChange)
    (pc : PreparedChange) : Prop :=
  match c with
  | File p _ => ∃ st h, m !! p = Some (st, h) ∧ pc = {| pc_path := p; pc_kind := PFile st h |}
  | Delete p => pc = {| pc_path := p; pc_kind := PDelete |}
  end.

Lemma match_changes cs : ∀ pcs m,
  NoDup (change_path <$> cs) → (∀ p h, File p h ∈ cs → is_Some (m !! p)) →
  ∃ pcs' m', fold_each match_change (pcs, m) cs = Ok (pcs ++ pcs', m') ∧
    Forall2 (matched m) cs pcs'.
Proof.
  induction cs as [|c cs IH]; intros pcs m Hnd Hm.
  { exists [], m. by rewrite app_nil_r. }
  apply NoDup_cons in Hnd as [Hc Hnd]. rewrite fold_each_cons. destruct c as [p h|p]; cbn.
  - destruct (Hm p h) as [[st h'] Hp]; [by left|]. rewrite Hp. cbn.
    destruct (IH (pcs ++ [{| pc_path := p; pc_kind := PFile st h' |}]) (delete p m)) as
      (pcs' & m' & -> & Hall); [done| |].
    { intros q k Hq. rewrite lookup_delete_ne; [apply (Hm q k); by right|].
      intros ->. apply Hc. by apply (list_elem_of_fmap_2 change_path _ (File q k)). }
    eexists (_ :: pcs'), m'. rewrite <-(assoc (++)). split; [done|]. constructor; [by exists st, h'|].
    eapply Forall2_impl; [done|]. intros [q k|q] pc; cbn; [|done].
    intros (st1 & h1 & Hl & ->). apply lookup_delete_Some in Hl as [_ ?]. eauto.
  - destruct (IH (pcs ++ [{| pc_path := p; pc_kind := PDelete |}]) m) as (pcs' & m' & -> & Hall);
      [done|intros q k Hq; apply (Hm q k); by right|].
    eexists (_ :: pcs'), m'. rewrite <-(assoc (++)). split; [done|]. by constructor.
Qed.

Lemma imap_pair_snd {A} (l : list A) : (imap pair l).*2 = l.
Proof.
  apply list_eq. intros i. rewrite list_lookup_fmap, list_lookup_imap. by destruct (l !! i).
Qed.

(** * The archive *)

(** A change prepared from an archive of entries [es]. *)
Definition prepared_from (w0 w : World) (es : list zip_entry) (c : SessionUpdateChange)
    (pc : PreparedChange) : Prop :=
  match c with
  | File p h => ∃ e staged, e ∈ es ∧ ze_name e = p ∧
      pc = {| pc_path := p; pc_kind := PFile staged h |} ∧
      w_store w0 !! staged = None ∧
      st_data <$> w_store w !! staged = Some (content (ze_reads e)) ∧
      sha256_hex (content (ze_reads e)) = h
  | Delete p => pc = {| pc_path := p; pc_kind := PDelete |}
  end.

(** The entries an archive must have for a request under a policy. *)
Record fits (policy : SourceUpdatesConfig) (changes : list SessionUpdateChange)
    (es : list zip_entry) : Prop := {
  fi_names : ∀ n, n ∈ ze_name <$> es ↔ ∃ h, File n h ∈ changes;
  fi_nodup : NoDup (to_ascii_lowercase ∘ ze_name <$> es);
  fi_plain : Forall (λ e, plain_entry e = true) es;
  fi_count : N.of_nat (length es) ≤ up_max_files policy;
  fi_sizes : up_max_uncompressed_bytes policy < u64_max →
    declared_sizes es ≤ up_max_uncompressed_bytes policy ∧
    Forall (λ e, len (content (ze_reads e)) ≤ up_max_uncompressed_bytes policy) es;
}.

Lemma Staged_dom w0 changes policy es s w :
  Staged w0 changes policy es s w → size (declared_files changes) = length es →
  dom (sg_staged s) = dom (declared_files changes).
Proof.
  intros HS Hsz. apply set_subseteq_size_eq.
  - intros n [[st h] Hn]%elem_of_dom.
    destruct (sd_files _ _ _ _ _ _ HS n) as [?|(e & ? & ? & _ & <- & _ & Hf)]; [congruence|].
    apply elem_of_dom. eexists. apply (sf_declared _ _ _ _ _ _ _ Hf).
  - rewrite !size_dom, Hsz, (sd_size _ _ _ _ _ _ HS). done.
Qed.

Lemma Staged_fits w0 changes policy es s w :
  NoDup (change_path <$> changes) → Staged w0 changes policy es s w →
  size (declared_files changes) = length es → N.of_nat (length es) ≤ up_max_files policy →
  fits policy changes es.
Proof.
  intros Hnd HS Hsz Hcnt. pose proof (Staged_dom _ _ _ _ _ _ HS Hsz) as Hdom.
  assert (∀ e, e ∈ es → ∃ staged h, staged_file w0 changes policy w e staged h) as Hfile.
  { intros e He. assert (ze_name e ∈ dom (sg_staged s)) as Hin.
    { rewrite (sd_dom _ _ _ _ _ _ HS). apply (sd_names _ _ _ _ _ _ HS). by apply list_elem_of_fmap_2. }
    apply elem_of_dom in Hin as [x Hx].
    destruct (sd_files _ _ _ _ _ _ HS (ze_name e)) as [?|(e' & st & h & He' & Hn & _ & Hf)]; [congruence|].
    assert (e' = e) as ->; [|eauto]. pose proof (sd_nodup _ _ _ _ _ _ HS) as Hl.
    apply list_elem_of_lookup in He as [i Hi]. apply list_elem_of_lookup in He' as [j Hj].
    assert (i = j) as ->; [|congruence].
    eapply (NoDup_lookup _ i j (to_ascii_lowercase (ze_name e)) Hl).
    - by rewrite list_lookup_fmap, Hi.
    - rewrite list_lookup_fmap, Hj. cbn. by rewrite Hn. }
  split; try done.
  - intros n. rewrite <-(sd_names _ _ _ _ _ _ HS), <-(sd_dom _ _ _ _ _ _ HS), Hdom, elem_of_dom.
    split; [intros [h Hh]|intros [h Hh]]; exists h; by apply declared_files_lookup.
  - apply (sd_nodup _ _ _ _ _ _ HS).
  - apply Forall_forall. intros e (st & h & Hf)%Hfile. apply (sf_plain _ _ _ _ _ _ _ Hf).
  - intros Hu. destruct (sd_total _ _ _ _ _ _ HS Hu) as [-> ?]. split; [done|].
    apply Forall_forall. intros e (st & h & Hf)%Hfile. by apply (sf_len _ _ _ _ _ _ _ Hf).
Qed.

Lemma matched_prepared w0 w policy changes es s cs pcs :
  NoDup (change_path <$> changes) → Staged w0 changes policy es s w →
  Forall2 (matched (sg_staged s)) cs pcs → Forall (.∈ changes) cs →
  Forall2 (prepared_from w0 w es) cs pcs.
Proof.
  intros Hnd HS Hm Hin. induction Hm as [|c pc cs pcs Hc Hm IH]; [constructor|].
  apply Forall_cons in Hin as [Hc' Hin]. constructor; [|by apply IH].
  destruct c as [p h|p]; [|done]. destruct Hc as (st & h' & Hst & ->).
  destruct (sd_files _ _ _ _ _ _ HS p) as [?|(e & st' & h1 & He & Hn & Hl & Hf)]; [congruence|].
  exists e, st'. destruct Hf as [Hnew Hd Hh Hdec _ _]. rewrite Hn in Hdec.
  apply declared_files_lookup in Hc'; [|done]. assert (h1 = h ∧ h' = h ∧ st' = st) as (-> & -> & ->).
  { split_and!; congruence. }
  by split_and!.
Qed.

Lemma prepare_archive_spec archive root request policy w :
  NoDup (change_path <$> su_changes request) →
  wp (prepare_archive orc euid egid archive root request policy) w (λ w' r,
    match r with
    | Ok pcs => ∃ es, archive = Some (Some <$> es) ∧ fits policy (su_changes request) es ∧
        Forall2 (prepared_from w w' es) (su_changes request) pcs
    | Err e => ue_rollback_proven e = true
    end).
Proof.
  intros Hnd. unfold prepare_archive.
  apply wp_bind, wp_map_err, wp_private_any; [done|]. intros _ fs t. cbn [map_err].
  apply wp_bind, wp_lift. destruct archive as [entries|]; [|done]. cbn [ok_or].
  apply wp_bind, wp_lift. destruct (_ <? _) eqn:Ec; [done|]. cbn [reject_if]. breflect.
  apply wp_bind, wp_lift. destruct (Nat.eqb_spec (length entries) (size (declared_files (su_changes request))))
    as [Hsz|]; [|done]. cbn [negb reject_if].
  set (w1 := mkWorld fs (w_store w) t).
  apply wp_bind. eapply wp_mono; [apply (wp_fold _
    (λ w' s dn, ∃ es, dn.*2 = Some <$> es ∧ Staged w1 (su_changes request) policy es s w')
    (λ _ e, ue_rollback_proven e = true) (imap pair entries) [])|].
  - intros s dn [k oe] w2 _ (es & Hes & HS). eapply wp_mono; [by apply stage_entry_spec|].
    intros w3 [s'|e]; [|done]. intros (e & -> & HS'). exists (es ++ [e]). split; [|done].
    by rewrite !fmap_app, Hes.
  - exists []. split; [done|]. split; cbn; try done; try set_solver.
    + constructor.
    + intros Hu. split; [done|]. lia.
  - intros w2 [s|e]; [|done]. intros (es & Hes & HS). cbn in Hes. rewrite imap_pair_snd in Hes.
    subst entries. rewrite length_fmap in *.
    pose proof (Staged_dom _ _ _ _ _ _ HS (eq_sym Hsz)) as Hdom.
    destruct (match_changes (su_changes request) [] (sg_staged s) Hnd) as (pcs & m & Hm & Hall).
    { intros p h Hp%declared_files_lookup; [|done]. apply elem_of_dom. rewrite Hdom.
      by apply elem_of_dom_2 in Hp. }
    apply wp_bind, wp_lift. rewrite Hm. apply wp_ret. cbn. exists es. split; [done|].
    split; [by eapply Staged_fits|]. apply (matched_prepared w1 w2 policy (su_changes request) _ s); [done..|].
    by apply Forall_forall.
Qed.

(** * The whole preparation *)

Lemma fold_each_Err {E A S} (f : S → A → result E S) (P : E → Prop) l s e :
  (∀ s x e, f s x = Err e → P e) → fold_each f s l = Err e → P e.
Proof.
  intros Hf. revert s. induction l as [|x l IH]; intros s; [done|]. rewrite fold_each_cons.
  intros [?|(? & _ & ?)]%bind_Err; eauto.
Qed.

Lemma compile_patterns_error ps e : compile_patterns ps = Err e → ue_rollback_proven e = true.
Proof.
  apply (fold_each_Err _ (λ e, ue_rollback_proven e = true)). intros s x e'.
  destruct (Pattern_new x); [done|]. by intros [= <-].
Qed.

Lemma prepare_update_spec archive metadata_root session_id request policy w :
  NoDup (change_path <$> su_changes request) →
  wp (prepare_update orc euid egid archive metadata_root session_id request policy) w (λ w' r,
    match r with
    | Ok prepared => ∃ es includes excludes,
        archive = Some (Some <$> es) ∧ fits policy (su_changes request) es ∧
        compile_patterns (up_include policy) = Ok includes ∧
        compile_patterns (up_exclude policy) = Ok excludes ∧
        Forall (λ c, outside_allowlist includes excludes (change_path c) = false) (su_changes request) ∧
        Forall2 (prepared_from w w' es) (su_changes request) (pu_changes prepared)
    | Err e => ue_rollback_proven e = true
    end).
Proof.
  pose proof compile_patterns_error as Hcomp.
  intros Hnd. unfold prepare_update. apply wp_bind, wp_lift.
  destruct (compile_patterns (up_include policy)) as [includes|] eqn:Ei; [|by eapply Hcomp].
  apply wp_bind, wp_lift.
  destruct (compile_patterns (up_exclude policy)) as [excludes|] eqn:Ee; [|by eapply Hcomp].
  apply wp_bind, wp_lift. destruct (for_each _ _) as [u|e] eqn:Ef.
  2: { assert (∀ l (e : UpdateError), for_each (λ change, reject_if
         (outside_allowlist includes excludes (change_path change)) bad) l = Err e → e = bad) as Hb.
       { intros l. induction l as [|x l IH]; intros e'; [done|]. rewrite for_each_cons.
         intros [[_ <-]%reject_if_Err|(? & _ & ?)]%bind_Err; auto. }
       by rewrite (Hb _ _ Ef). }
  apply for_each_Ok in Ef. apply wp_bind. unfold draw_uuid, wp at 1. cbn [fst snd].
  apply wp_bind, wp_map_err, wp_private_any; [done|]. intros _ fs t. cbn [map_err w_store].
  apply wp_bind, wp_map_err, wp_private_any; [done|]. intros _ fs1 t1. cbn [map_err w_store].
  apply wp_bind, wp_try. eapply wp_mono; [by apply prepare_archive_spec|]. cbn.
  intros w1 [pcs|e]; [|by unfold wp, store_remove_all, mbind, eff_bind; cbn; destruct (an_fault _)].
  intros (es & -> & Hfits & Hall). apply wp_ret. exists es, includes, excludes. split_and!; try done.
  eapply Forall_impl; [done|]. by intros c Hc%reject_if_Ok.
Qed.
End prepare_spec.
