(* ===== verification/UpdateConfine.v ===== *)
(** Confinement of updates: whatever other processes do to the workspace while an
    update is applied, symbolic links and moved directories included, nothing
    outside the workspace changes. *)
From Stdlib Require Import Ascii.
From stdpp Require Import base option strings numbers gmap fin_maps pretty list.
From S2P Require Import Prelude Effects RustStr Fs Posix Protocol Sessions Updates.

Local Open Scope N_scope.

Section confine.
(** The inodes outside the workspace. *)
Context (foreign : FileIdentity → Prop).

(** The outside exists, and no entry of a directory inside, its parent link
    apart, leads to a directory outside (a symbolic link may name one, a hard
    link may share a file). *)
Record separate (fs : FS) : Prop := {
  se_exists : ∀ i, foreign i → is_Some (fs !! i);
  se_entries : ∀ d n i a, ¬ foreign d → n ≠ ".." → entry fs d n = Some i → fs !! i = Some a →
    nd_kind a = Directory → ¬ foreign i;
}.

(** A change of the heap that keeps the outside as it is. *)
Definition respects (fs fs' : FS) : Prop :=
  separate fs → separate fs' ∧ ∀ i, foreign i → fs' !! i = fs !! i.

Lemma respects_refl fs : respects fs fs.
Proof. done. Qed.
Lemma respects_trans fs1 fs2 fs3 : respects fs1 fs2 → respects fs2 fs3 → respects fs1 fs3.
Proof.
  intros H1 H2 [H2s H2e]%H1. destruct (H2 H2s) as [? H3]. split; [done|]. intros i Hi.
  by rewrite H3, H2e.
Qed.

Lemma respects_set_entry fs d n o :
  ¬ foreign d →
  (∀ i a, o = Some i → n ≠ ".." → fs !! i = Some a → nd_kind a = Directory → ¬ foreign i) →
  respects fs (set_entry d n o fs).
Proof.
  intros Hd Ho [Hex Hse].
  assert (∀ i, d ≠ i → set_entry d n o fs !! i = fs !! i) as Hne
    by (intros i ?; unfold set_entry; by rewrite lookup_alter_ne).
  split; [split|].
  - intros i Hi. rewrite Hne by (by intros ->). auto.
  - intros d' n' i b Hd' Hn' He Hb Hk.
    assert (∃ a, fs !! i = Some a ∧ nd_kind a = Directory) as (a & Ha & Hka).
    { destruct (decide (d = i)) as [->|]; [|rewrite Hne in Hb by done; eauto]. revert Hb.
      unfold set_entry. rewrite lookup_alter_eq. destruct (fs !! i) as [a|]; [|done].
      intros [= <-]. eauto. }
    rewrite entry_set_entry in He. case_bool_decide as Hdn; [|eauto].
    destruct Hdn as [<- <-]. destruct (fs !! d); [|done]. cbn in He. eauto.
  - intros i Hi. apply Hne. by intros ->.
Qed.

Lemma respects_alter fs j (f : node → node) :
  ¬ foreign j → (∀ a, nd_entries (f a) = nd_entries a ∧ nd_kind (f a) = nd_kind a) →
  respects fs (alter f j fs).
Proof.
  intros Hj Hf [Hex Hse].
  assert (∀ i, foreign i → alter f j fs !! i = fs !! i) as Hne
    by (intros i ?; rewrite lookup_alter_ne; [done|by intros ->]).
  split; [split|done].
  - intros i Hi. rewrite Hne by done. auto.
  - intros d n i b Hd Hn He Hb Hk.
    assert (entry fs d n = Some i) as He'.
    { revert He. unfold entry. destruct (decide (j = d)) as [->|]; [|by rewrite lookup_alter_ne].
      rewrite lookup_alter_eq. destruct (fs !! d) as [a|]; cbn; [|done]. by destruct (Hf a) as [-> _]. }
    destruct (decide (j = i)) as [->|]; [done|]. rewrite lookup_alter_ne in Hb by done. eauto.
Qed.

Lemma respects_new fs j nd :
  fs !! j = None → nd_entries nd = ∅ → nd_kind nd ≠ Directory → respects fs (<[j := nd]> fs).
Proof.
  intros Hj Hnd Hk [Hex Hse].
  assert (∀ i, foreign i → <[j := nd]> fs !! i = fs !! i) as Hne.
  { intros i Hi. apply lookup_insert_ne. intros ->. destruct (Hex i Hi). congruence. }
  split; [split|done].
  - intros i Hi. rewrite Hne by done. auto.
  - intros d n i b Hd Hn He Hb Hkb. destruct (decide (j = i)) as [->|].
    + rewrite lookup_insert_eq in Hb. congruence.
    + rewrite lookup_insert_ne in Hb by done. revert He. unfold entry.
      destruct (decide (j = d)) as [->|].
      * rewrite lookup_insert_eq. cbn. by rewrite Hnd, lookup_empty.
      * rewrite lookup_insert_ne by done. intros He. eapply (Hse d n); done.
Qed.

Context (orc : nat → answer) (euid egid : N) `{Sha256}.
(** The other processes cannot write outside the workspace either. *)
Context (Henv : ∀ k fs, respects fs (an_env (orc k) fs)).
Context (resolve : string → option FileIdentity).

(** [m] keeps the outside as it is, and what it returns satisfies [R]. *)
Definition confined {E A} (m : io E A) (R : A → Prop) : Prop :=
  ∀ w, separate (w_fs w) →
    (separate (w_fs (m w).1) ∧ ∀ i, foreign i → w_fs (m w).1 !! i = w_fs w !! i) ∧
    ∀ a, (m w).2 = Ok a → R a.

Lemma confined_bind {E A B} (m : io E A) (k : A → io E B) R R' :
  confined m R → (∀ a, R a → confined (k a) R') → confined (m ≫= k) R'.
Proof.
  intros Hm Hk w Hw. destruct (Hm w Hw) as [[Hs He] Hr]. unfold mbind, eff_bind.
  destruct (m w) as [w1 [a|e]]; cbn in *; [|done].
  destruct (Hk a (Hr a eq_refl) w1 Hs) as [[Hs' He'] Hr']. split; [split; [done|]|done].
  intros i Hi. by rewrite He', He.
Qed.

Lemma confined_ret {E A} (a : A) (R : A → Prop) : R a → confined (E := E) (mret a) R.
Proof. intros ? w ?. cbn. naive_solver. Qed.
Lemma confined_fail {E A} (e : E) (R : A → Prop) : confined (io_fail e) R.
Proof. intros w ?. done. Qed.
Lemma confined_lift {E A} (r : result E A) (R : A → Prop) :
  (∀ a, r = Ok a → R a) → confined (io_lift r) R.
Proof. intros ? w ?. done. Qed.
Lemma confined_map_err {E F A} (f : E → F) (m : io E A) R :
  confined m R → confined (io_map_err f m) R.
Proof.
  intros Hm w Hw. specialize (Hm w Hw). unfold io_map_err. destruct (m w) as [w1 [a|e]]; cbn in *;
    destruct Hm as [? Hr]; (split; [done|]); intros a' [=]. subst. by apply Hr.
Qed.
Lemma confined_try {E F A} (m : io E A) R :
  confined m R → confined (io_try (F := F) m) (λ r, ∀ a, r = Ok a → R a).
Proof.
  intros Hm w Hw. specialize (Hm w Hw). unfold io_try. destruct (m w) as [w1 r]; cbn in *.
  destruct Hm as [? Hr]. split; [done|]. intros a [= <-]. exact Hr.
Qed.

Lemma confined_each {E A} (f : A → io E unit) l :
  (∀ x, x ∈ l → confined (f x) (λ _, True)) → confined (io_each f l) (λ _, True).
Proof.
  induction l as [|x l IH]; intros Hf; [by apply confined_ret|].
  eapply confined_bind; [apply Hf; by left|]. intros _ _. apply IH. intros; apply Hf; by right.
Qed.

Lemma confined_fold {E A S} (f : S → A → io E S) s l :
  (∀ s x, x ∈ l → confined (f s x) (λ _, True)) → confined (io_fold f s l) (λ _, True).
Proof.
  revert s. induction l as [|x l IH]; intros s Hf; [by apply confined_ret|].
  eapply confined_bind; [apply Hf; by left|]. intros s' _. apply IH. intros; apply Hf; by right.
Qed.

Lemma confined_syscall {A} (f : answer → FS → FS * result os_error A) (R : A → Prop) :
  (∀ a fs, separate fs → respects fs (f a fs).1 ∧ ∀ x, (f a fs).2 = Ok x → R x) →
  confined (syscall orc f) R.
Proof.
  intros Hf w Hw. unfold syscall, next_answer.
  destruct (Henv (w_tick w) (w_fs w) Hw) as [Hs He]. destruct (an_fault _); [done|].
  destruct (Hf (orc (w_tick w)) _ Hs) as [Hr Hx]. destruct (Hr Hs) as [Hs' He'].
  destruct (f _ _) as [fs' r]; cbn in *. split; [split; [done|]|done].
  intros i Hi. by rewrite He', He.
Qed.

(** A call that does not touch the shared files. *)
Lemma confined_private {A} (f : answer → gmap string stored → gmap string stored * result os_error A) :
  confined (private_call orc f) (λ _, True).
Proof.
  intros w Hw. unfold private_call, next_answer. pose proof (Henv (w_tick w) (w_fs w) Hw).
  destruct (an_fault _); [done|]. by destruct (f _ _).
Qed.
Lemma confined_uuid {E} : confined (E := E) (draw_uuid orc) (λ _, True).
Proof. intros w Hw. unfold draw_uuid, next_answer. by pose proof (Henv (w_tick w) (w_fs w) Hw). Qed.
Lemma confined_flag {E} : confined (E := E) (flag_is_cancelled orc) (λ _, True).
Proof. intros w Hw. unfold flag_is_cancelled, next_answer. by pose proof (Henv (w_tick w) (w_fs w) Hw). Qed.

(** ** The calls of an update *)

Lemma confined_write j data : ¬ foreign j → confined (write_all orc j data) (λ _, True).
Proof.
  intros Hj w Hw. unfold write_all, next_answer. destruct (Henv (w_tick w) (w_fs w) Hw) as [Hs He].
  set (fs := an_env _ _) in *.
  assert (∀ d, respects fs (set_data j d fs)) as Hd by (intros d; by apply respects_alter).
  destruct (an_fault _); cbn; (split; [|done]);
    match goal with |- context [set_data j ?d fs] => destruct (Hd d Hs) as [? He'] end;
    (split; [done|]); intros i Hi; by rewrite He', He.
Qed.

(** A call that reads the shared files only. *)
Lemma confined_read {A} (f : answer → FS → result os_error A) :
  confined (syscall orc (λ a fs, (fs, f a fs))) (λ _, True).
Proof. apply confined_syscall. intros a fs _. split; [apply respects_refl|done]. Qed.

Lemma confined_openat_directory d n :
  ¬ foreign d → n ≠ ".." → confined (openat_directory orc d n) (λ i, ¬ foreign i).
Proof.
  intros Hd Hn. apply confined_syscall. intros a fs Hs. split; [apply respects_refl|]. cbn.
  intros i. destruct (entry fs d n) as [j|] eqn:Ej; [|done]. destruct (fs !! j) as [b|] eqn:Eb; [|done].
  destruct (nd_kind b) eqn:Ek; try done. intros [= <-]. by eapply (se_entries _ Hs d n j b).
Qed.

Lemma confined_create d n :
  ¬ foreign d → confined (openat_create orc euid egid d n) (λ j, ¬ foreign j).
Proof.
  intros Hd. apply confined_syscall. intros a fs Hs. destruct (entry fs d n); [done|]. cbn.
  pose proof (new_inode_fresh fs d (an_ino a)) as Hj.
  set (j := new_inode _ _ _) in *. split.
  - apply (respects_trans _ (<[j := Node Regular euid egid o600 "" ∅]> fs)); [by apply respects_new|].
    apply respects_set_entry; [done|].
    intros i b [= <-] _. rewrite lookup_insert_eq. by intros [= <-].
  - intros x [= <-] Hf. destruct (se_exists _ Hs _ Hf). congruence.
Qed.

Lemma confined_rename d from to :
  ¬ foreign d → from ≠ ".." → confined (renameat orc d from to) (λ _, True).
Proof.
  intros Hd Hfrom. apply confined_syscall. intros a fs Hs. split; [|done].
  destruct (entry fs d from) as [i|] eqn:Ei; [|apply respects_refl].
  assert (respects fs (set_entry d to (Some i) (set_entry d from None fs))) as Hr.
  { apply (respects_trans _ (set_entry d from None fs)); [by apply respects_set_entry|].
    apply respects_set_entry; [done|]. intros j b [= <-] _ Hb Hk. destruct (decide (d = i)) as [->|]; [done|].
    unfold set_entry in Hb. rewrite lookup_alter_ne in Hb by done.
    by eapply (se_entries _ Hs d from). }
  destruct (entry fs d to); [|done]. repeat case_bool_decide; done.
Qed.

Lemma confined_unlink d n : ¬ foreign d → confined (unlinkat orc d n) (λ _, True).
Proof.
  intros Hd. apply confined_syscall. intros a fs Hs. split; [|done].
  destruct (entry fs d n) as [i|]; [|apply respects_refl].
  case_bool_decide; [apply respects_refl|]. by apply respects_set_entry.
Qed.

(** ** The operations *)

Lemma confined_set_owner_mode j uid gid mode :
  ¬ foreign j → confined (set_fd_owner_mode orc j uid gid mode) (λ _, True).
Proof.
  intros Hj. unfold set_fd_owner_mode.
  eapply confined_bind with (R := λ _, True); [|intros _ _];
    apply confined_syscall; intros a fs Hs; (split; [by apply respects_alter|done]).
Qed.

Lemma confined_ancestors comps d :
  ¬ foreign d → Forall (λ c, c ≠ "..") comps →
  confined (open_ancestors orc d comps) (λ i, ¬ foreign i).
Proof.
  intros Hd Hc. revert d Hd. induction Hc as [|c comps Hc Hcs IH]; intros d Hd; cbn [open_ancestors].
  - by apply confined_ret.
  - eapply (confined_bind _ _ (λ c', c' = c)).
    + unfold c_string. destruct (contains_byte _ _); [apply confined_fail|by apply confined_ret].
    + intros ? ->. eapply confined_bind; [by apply confined_openat_directory|]. intros i Hi. by apply IH.
Qed.

(** No component of the path is a parent link. *)
Definition downward (path : string) : Prop := Forall (λ c, c ≠ "..") (split slash path).

Lemma confined_parent root path :
  ¬ foreign root → downward path →
  confined (open_workspace_parent orc root path) (λ p, ¬ foreign p.1).
Proof.
  intros Hr Hp. unfold open_workspace_parent.
  eapply (confined_bind _ _ (λ _, True)); [by apply confined_lift|]. intros n _.
  eapply (confined_bind _ _ (λ _, True)).
  { unfold c_string. destruct (contains_byte _ _); [apply confined_fail|by apply confined_ret]. }
  intros n' _. eapply (confined_bind _ _ (λ i, i = root)).
  { apply confined_syscall. intros a fs _. split; [apply respects_refl|]. by intros x [= <-]. }
  intros ? ->. eapply confined_bind.
  { apply confined_ancestors; [done|]. unfold downward in Hp. clear -Hp.
    induction Hp as [|c [|c' l] ? ? IH]; [done|done|]. by constructor. }
  intros i Hi. by apply confined_ret.
Qed.

Lemma confined_inspect d n : confined (inspect_target orc d n) (λ _, True).
Proof.
  intros w Hw. unfold inspect_target.
  destruct (confined_read (λ _ fs,
    match entry fs d n with
    | None => Err ENOENT
    | Some i => match fs !! i with None => Err ENOENT | Some n => Ok (metadata_of i n) end
    end) w Hw) as [Hf _]. fold (fstatat orc d n) in Hf.
  destruct (fstatat orc d n w) as [w' [m|[]]]; done.
Qed.

Lemma confined_copy source d n uid gid mode :
  ¬ foreign d → confined (atomic_copy_at orc euid egid source d n uid gid mode) (λ _, True).
Proof.
  intros Hd. unfold atomic_copy_at. eapply confined_bind; [apply confined_uuid|]. intros uuid _.
  assert (temp_name uuid ≠ "..") as Htmp by done.
  eapply confined_bind; [apply confined_try|intros [u|e] _; [by apply confined_ret|]].
  - unfold atomic_copy_steps. eapply confined_bind; [apply confined_private|]. intros data _.
    eapply confined_bind; [by apply confined_create|]. intros j Hj.
    eapply confined_bind; [by apply confined_write|]. intros _ _.
    eapply confined_bind; [apply confined_read|]. intros _ _.
    eapply confined_bind; [by apply confined_set_owner_mode|]. intros _ _.
    eapply confined_bind; [apply confined_read|]. intros _ _.
    eapply confined_bind; [by apply confined_rename|]. intros _ _. apply confined_read.
  - eapply confined_bind; [apply confined_try; by apply confined_unlink|]. intros _ _.
    apply confined_fail.
Qed.

Lemma confined_unlink_file d n : ¬ foreign d → confined (unlink_file_at orc d n) (λ _, True).
Proof.
  intros Hd. eapply confined_bind; [by apply confined_unlink|]. intros _ _. apply confined_read.
Qed.

Lemma confined_rollback_one b d : ¬ foreign d → confined (rollback_one orc euid egid b d) (λ _, True).
Proof.
  intros Hd. unfold rollback_one. eapply (confined_bind _ _ (λ _, True)); [by apply confined_lift|].
  intros n _. eapply (confined_bind _ _ (λ _, True)).
  { unfold c_string. destruct (contains_byte _ _); [apply confined_fail|by apply confined_ret]. }
  intros n' _. destruct (bk_staged b).
  - eapply confined_bind; [apply confined_inspect|]. intros m _.
    eapply (confined_bind _ _ (λ _, True)); [by apply confined_lift|]. intros _ _. by apply confined_copy.
  - eapply confined_bind; [apply confined_inspect|]. intros [m|] _; [|by apply confined_ret].
    destruct (is_regular_mode _); [by apply confined_unlink_file|apply confined_fail].
Qed.

Lemma confined_fstat i : confined (fstat orc i) (λ _, True).
Proof. apply confined_read. Qed.

Lemma confined_open_regular d n m : confined (open_regular_at orc d n m) (λ _, True).
Proof.
  unfold open_regular_at. eapply confined_bind; [apply confined_read|]. intros i _.
  eapply confined_bind; [apply confined_fstat|]. intros m1 _.
  eapply confined_bind; [apply confined_fstat|]. intros m2 _.
  eapply (confined_bind _ _ (λ _, True)); [by apply confined_lift|]. intros _ _. by apply confined_ret.
Qed.

Lemma confined_copy_open i p : confined (copy_open_file_and_hash orc euid egid i p) (λ _, True).
Proof.
  unfold copy_open_file_and_hash. eapply confined_bind; [apply confined_private|]. intros _ _.
  eapply confined_bind; [apply confined_read|]. intros data _.
  eapply confined_bind; [apply confined_private|]. intros _ _.
  eapply confined_bind; [apply confined_private|]. intros _ _. by apply confined_ret.
Qed.

Lemma confined_back_up root backups_root uid gid backups c :
  ¬ foreign root → downward (pc_path c) →
  confined (back_up orc euid egid root backups_root uid gid backups c) (λ _, True).
Proof.
  intros Hr Hp. unfold back_up.
  eapply confined_bind; [by apply confined_map_err, confined_parent|]. intros [d n] _.
  eapply confined_bind; [apply confined_map_err, confined_inspect|]. intros m _.
  eapply (confined_bind _ _ (λ _, True)); [by apply confined_lift|]. intros _ _.
  eapply (confined_bind _ _ (λ _, True)); [|intros h _; by apply confined_ret].
  destruct m as [m|]; [|by apply confined_ret]. cbn.
  eapply confined_bind; [apply confined_map_err, confined_open_regular|]. intros i _.
  eapply confined_bind; [apply confined_map_err, confined_copy_open|]. intros h _. by apply confined_ret.
Qed.

Lemma confined_check_cancelled : confined (check_cancelled orc) (λ _, True).
Proof. eapply confined_bind; [apply confined_flag|]. intros b _. by apply confined_lift. Qed.

Lemma confined_validate d n b : confined (validate_target_at orc d n b) (λ _, True).
Proof.
  unfold validate_target_at. eapply confined_bind; [apply confined_map_err, confined_inspect|].
  intros m _. destruct (bk_original b), m;
    first [by apply confined_lift|by apply confined_ret|apply confined_fail].
Qed.

Lemma confined_locate root c b :
  ¬ foreign root → downward (pc_path c) → confined (locate orc root c b) (λ p, ¬ foreign p.1).
Proof.
  intros Hr Hp. unfold locate. eapply confined_bind; [apply confined_check_cancelled|]. intros _ _.
  eapply confined_bind; [by apply confined_map_err, confined_parent|]. intros p Hp'.
  eapply confined_bind; [apply confined_validate|]. intros _ _. by apply confined_ret.
Qed.

Lemma confined_install uid gid c d n :
  ¬ foreign d → confined (install orc euid egid uid gid c d n) (λ _, True).
Proof.
  intros Hd. apply confined_map_err.
  destruct (pc_kind c); [by apply confined_copy|by apply confined_unlink_file].
Qed.

Lemma confined_loop root uid gid work : ∀ parents w,
  ¬ foreign root → Forall (λ x, downward (pc_path x.1)) work →
  Forall (λ d, ¬ foreign d) parents → separate (w_fs w) →
  let out := mutation_loop orc euid egid root uid gid work parents w in
  separate (w_fs out.1) ∧ (∀ i, foreign i → w_fs out.1 !! i = w_fs w !! i) ∧
  Forall (λ d, ¬ foreign d) out.2.1.
Proof.
  induction work as [|[c b] work IH]; intros parents w Hr Hw Hps Hs; cbn [mutation_loop]; [done|].
  apply Forall_cons in Hw as [Hc Hw]. destruct (confined_locate root c b Hr Hc w Hs) as [[Hs1 He1] Hd].
  destruct (locate orc root c b w) as [w1 [[d n]|e]]; cbn [fst snd] in *; [|done].
  specialize (Hd _ eq_refl). cbn in Hd.
  assert (Forall (λ d, ¬ foreign d) (parents ++ [d])) as Hps'
    by (apply Forall_app; split; [done|by constructor]).
  destruct (confined_install uid gid c d n Hd w1 Hs1) as [[Hs2 He2] _].
  destruct (install orc euid egid uid gid c d n w1) as [w2 [[]|e]]; cbn [fst snd] in *.
  - destruct (IH _ w2 Hr Hw Hps' Hs2) as (Hs3 & He3 & Hps3). split_and!; try done.
    intros i Hi. by rewrite He3, He2, He1.
  - split_and!; try done. intros i Hi. by rewrite He2, He1.
Qed.

Lemma confined_verify root path held :
  ¬ foreign root → downward path →
  confined (verify_parent_still_beneath orc root path held) (λ _, True).
Proof.
  intros Hr Hp. unfold verify_parent_still_beneath.
  eapply confined_bind; [by apply confined_map_err, confined_parent|]. intros p _.
  eapply confined_bind; [apply confined_map_err, confined_fstat|]. intros h _.
  eapply confined_bind; [apply confined_map_err, confined_fstat|]. intros h' _. by apply confined_lift.
Qed.

Lemma confined_conclude root changes parents commit :
  ¬ foreign root → Forall (λ c, downward (pc_path c)) changes → confined commit (λ _, True) →
  confined (conclude orc root changes parents commit) (λ _, True).
Proof.
  intros Hr Hch Hc. unfold conclude. eapply confined_bind.
  { apply confined_each. intros [c d] Hin. apply confined_verify; [done|].
    rewrite Forall_forall in Hch. apply Hch. by apply elem_of_zip_l in Hin. }
  intros _ _. eapply confined_bind; [apply confined_check_cancelled|]. intros _ _.
  by apply confined_map_err.
Qed.

Lemma confined_transact root uid gid changes backups commit :
  ¬ foreign root → Forall (λ c, downward (pc_path c)) changes → confined commit (λ _, True) →
  confined (transact orc euid egid root uid gid changes backups commit) (λ _, True).
Proof.
  intros Hr Hch Hc w Hs. split; [|done]. unfold transact, mutation.
  pose proof (confined_loop root uid gid (zip changes backups) [] w Hr) as Hl.
  destruct (mutation_loop _ _ _ _ _ _ _ _ w) as [w1 [ps r]]. cbn in Hl.
  destruct Hl as (Hs1 & He1 & Hps); [|constructor|done|].
  { apply Forall_forall. intros [c b] Hin%elem_of_zip_l. rewrite Forall_forall in Hch. by apply Hch. }
  assert (∀ w2 (e : UpdateError), separate (w_fs w2) → (∀ i, foreign i → w_fs w2 !! i = w_fs w !! i) →
    let out := rollback orc euid egid (take (length ps) backups) ps w2 in
    separate (w_fs out.1) ∧ ∀ i, foreign i → w_fs out.1 !! i = w_fs w !! i) as Hroll.
  { intros w2 _ Hs2 He2. destruct (confined_each (λ p, rollback_one orc euid egid p.1 p.2)
      (reverse (zip (take (length ps) backups) ps))) with (w := w2) as [[Hs3 He3] _]; [|done|].
    - intros [b d] Hin. apply confined_rollback_one. rewrite Forall_forall in Hps.
      apply Hps. rewrite elem_of_reverse in Hin. by apply elem_of_zip_r in Hin.
    - split; [done|]. intros i Hi. unfold rollback. by rewrite He3, He2. }
  destruct r as [[]|e].
  - destruct (confined_conclude root changes ps commit Hr Hch Hc w1 Hs1) as [[Hs2 He2] _].
    destruct (conclude _ _ _ _ _ w1) as [w2 [[]|e]]; cbn in *.
    + split; [done|]. intros i Hi. by rewrite He2, He1.
    + specialize (Hroll w2 e Hs2). destruct (rollback _ _ _ _ _ w2). apply Hroll.
      intros i Hi. by rewrite He2, He1.
  - specialize (Hroll w1 e Hs1 He1). by destruct (rollback _ _ _ _ _ w1).
Qed.

Lemma confined_apply prepared workspace uid gid commit :
  (∀ root, resolve workspace = Some root → ¬ foreign root) →
  Forall (λ c, downward (pc_path c)) (pu_changes prepared) → confined commit (λ _, True) →
  confined (apply_update_inner orc euid egid resolve prepared workspace uid gid commit) (λ _, True).
Proof.
  intros Hroot Hch Hc. unfold apply_update_inner.
  eapply confined_bind; [apply confined_check_cancelled|]. intros _ _.
  eapply (confined_bind _ _ (λ i, ¬ foreign i)).
  { unfold open_workspace_root. eapply (confined_bind _ _ (λ _, True)); [by apply confined_lift|].
    intros _ _. apply confined_map_err, confined_syscall. intros a fs _.
    split; [apply respects_refl|]. cbn. intros i. destruct (resolve workspace) as [j|] eqn:Ej; [|done].
    destruct (fs !! j) as [b|]; [|done]. destruct (nd_kind b); try done. intros [= <-]. by apply Hroot. }
  intros root Hr. eapply confined_bind; [apply confined_map_err, confined_private|]. intros _ _.
  eapply confined_bind; [apply confined_map_err, confined_private|]. intros _ _.
  eapply confined_bind.
  { apply confined_each. intros c _. destruct (pc_kind c); [|by apply confined_ret].
    apply confined_map_err. unfold prepare_staged_file.
    eapply confined_bind; [apply confined_private|]. intros _ _.
    eapply confined_bind; [apply confined_private|]. intros _ _. apply confined_private. }
  intros _ _. eapply confined_bind.
  { apply confined_fold. intros bs c Hin. apply confined_back_up; [done|].
    rewrite Forall_forall in Hch. by apply Hch. }
  intros bs _. by apply confined_transact.
Qed.
End confine.
