(* ===== verification/UpdateTheorems.v ===== *)
(** What an update guarantees: the request is installed exactly, or the workspace
    is as it was, and nothing outside the workspace is ever written. *)
From Stdlib Require Import Ascii.
From stdpp Require Import base option strings numbers gmap fin_maps pretty list.
From S2P Require Import Prelude Effects RustStr Fs Posix Protocol Config Sessions Updates UpdateFrames UpdateApply UpdatePrepare UpdateConfine.

Local Open Scope N_scope.

Section theorems.
Context (orc : nat → answer) (euid egid : N) `{Glob, Sha256}.
Context (resolve : string → option FileIdentity).

(** Dropping the staging directory does not touch the workspace. *)
Lemma apply_update_run prepared workspace uid gid commit w w' r :
  apply_update orc euid egid resolve prepared workspace uid gid commit w = (w', r) →
  ∃ w1, apply_update_inner orc euid egid resolve prepared workspace uid gid commit w = (w1, r) ∧
        w_fs w' = an_env (orc (w_tick w1)) (w_fs w1).
Proof.
  unfold apply_update. destruct (apply_update_inner _ _ _ _ _ _ _ _ _ w) as [w1 r1].
  unfold store_remove_all, next_answer. destruct (an_fault _); intros [= <- <-]; eauto.
Qed.

(** C6: The transaction on a well-formed file system that no other process touches,
    under any pattern of I/O failures and cancellation: if an update whose declared
    paths are none of its own temporary names fails and reports its rollback as
    proven, every path without a temporary name in it shows the type, owner,
    permission bits and content it showed before.  A temporary file whose removal
    failed may be left under its own name. *)
Theorem failed_update_restores prepared workspace uid gid commit w w' e d comps :
  quiet orc → closed (w_fs w) → Forall (unreserved orc) (pu_changes prepared) →
  apply_update orc euid egid resolve prepared workspace uid gid commit w = (w', Err e) →
  ue_rollback_proven e = true →
  is_Some (w_fs w !! d) → Forall (λ c, ¬ drawn orc c) comps →
  look (w_fs w') d comps = look (w_fs w) d comps.
Proof.
  intros Hq Hc Hun (w1 & Hrun & Hfs)%apply_update_run Hp Hd Hcomps. rewrite Hfs, Hq.
  eapply wp_run in Hrun; [|by apply apply_inner_spec].
  destruct Hrun as [[-> _]|(root & backups & w2 & Hres & Hroot & Hf2 & Hg & Hr & Ht)]; [done|].
  apply (look_restored (drawn orc)); [|done..].
  by eapply (transact_error orc Hq euid egid (w_fs w) Hc root Hroot uid gid (w_store w2)).
Qed.

(** What the workspace must show of a declared change. *)
Definition change_installed (uid gid : N) (fs0 fs : FS) (root : FileIdentity)
    (c : SessionUpdateChange) : Prop :=
  match c with
  | File p h => ∃ a, lookup_path fs root p = Some a ∧ nd_kind a = Regular ∧ nd_uid a = uid ∧
      nd_gid a = gid ∧ nd_mode a = o644 ∧ sha256_hex (nd_data a) = h
  | Delete p => lookup_path fs root p = None ∧
      ∃ a, lookup_path fs0 root p = Some a ∧ nd_kind a = Regular
  end.

(** The evidence that answers a request. *)
Definition request_changed (c : SessionUpdateChange) : option SessionUpdateEvidence :=
  match c with File p h => Some {| ev_path := p; ev_sha256 := h |} | Delete _ => None end.
Definition request_deleted (fs0 : FS) (root : FileIdentity) (c : SessionUpdateChange) :
    option SessionUpdateEvidence :=
  match c with
  | File _ _ => None
  | Delete p => a ← lookup_path fs0 root p;
                Some {| ev_path := p; ev_sha256 := sha256_hex (nd_data a) |}
  end.

(** The directory slots a request names. *)
Definition untouched (fs0 fs : FS) (root : FileIdentity) (changes : list SessionUpdateChange) : Prop :=
  (∀ i a, fs0 !! i = Some a → ∃ b, fs !! i = Some b ∧ attrs b = attrs a) ∧
  (∀ d n, ¬ drawn orc n → Forall (λ c, target_slot fs0 root (change_path c) ≠ Some (d, n)) changes →
    entry fs d n = entry fs0 d n).

Lemma prepared_path w0 w es c pc : prepared_from w0 w es c pc → pc_path pc = change_path c.
Proof. destruct c; cbn; [by intros (? & ? & _ & _ & -> & _)|by intros ->]. Qed.

(** The evidence and the contents, in terms of the request. *)
Lemma request_evidence w0 w es cs pcs fs0 root :
  Forall2 (prepared_from w0 w es) cs pcs →
  omap evidence_changed pcs = omap request_changed cs ∧
  omap (evidence_deleted fs0 root) pcs = omap (request_deleted fs0 root) cs.
Proof.
  induction 1 as [|c pc cs pcs Hc Hall [IH1 IH2]]; [done|]. cbn.
  destruct c as [p h|p]; cbn in *.
  - destruct Hc as (e & st & _ & _ & -> & _). cbn. by rewrite IH1, IH2.
  - rewrite Hc. cbn. by rewrite IH1, IH2.
Qed.

Lemma request_installed w0 w es cs pcs fs0 fs root uid gid st :
  Forall2 (prepared_from w0 w es) cs pcs → grows (w_store w) st →
  Forall (change_made fs0 root uid gid fs st) pcs →
  Forall (change_installed uid gid fs0 fs root) cs.
Proof.
  intros Hall Hg. induction Hall as [|c pc cs pcs Hc Hall IH]; [done|].
  intros [Hm Hms]%Forall_cons. constructor; [|by apply IH]. unfold change_made in Hm.
  destruct c as [p h|p]; cbn [prepared_from change_installed] in *; [|by subst pc].
  destruct Hc as (e & staged & _ & _ & -> & _ & Hd & Hh). cbn [pc_kind pc_path] in Hm.
  destruct Hm as (f & Hf & Hl). destruct (w_store w !! staged) as [f0|] eqn:E0; [|done].
  destruct (Hg _ _ E0) as (f1 & Hf1 & Hd1). assert (f1 = f) as -> by congruence.
  cbn in Hd. injection Hd as Hd. destruct (lookup_path fs root p) as [a|]; [|done].
  exists a. cbn in Hl. injection Hl as Hk Hu Hgi Hmo Hda. split_and!; try done. congruence.
Qed.

(** C7: From archive to workspace: once an update prepared from a request whose
    paths are distinct has been applied to a workspace no other process touches,
    every declared file is there as a regular file owned by the task with mode
    0644 and the declared hash, every declared deletion is gone (and was a regular
    file), every other directory entry and inode is unchanged, and the evidence
    lists the declared hashes of the files and the original hashes of the
    deletions. *)
Theorem update_installs_request archive metadata_root session_id request policy
    workspace uid gid (commit : io os_error unit) w w1 w2 prepared ev :
  quiet orc → closed (w_fs w1) → NoDup (change_path <$> su_changes request) →
  (∀ c, c ∈ su_changes request → Forall (λ n, ¬ drawn orc n) (split slash (change_path c))) →
  (∀ w w', commit w = (w', Ok tt) → w_fs w' = w_fs w) →
  prepare_update orc euid egid archive metadata_root session_id request policy w = (w1, Ok prepared) →
  apply_update orc euid egid resolve prepared workspace uid gid commit w1 = (w2, Ok ev) →
  ∃ root, resolve workspace = Some root ∧
    Forall (change_installed uid gid (w_fs w1) (w_fs w2) root) (su_changes request) ∧
    untouched (w_fs w1) (w_fs w2) root (su_changes request) ∧
    ae_changed ev = omap request_changed (su_changes request) ∧
    ae_deleted ev = omap (request_deleted (w_fs w1) root) (su_changes request).
Proof.
  intros Hq Hc Hnd Hun Hcom Hprep (w3 & Hrun & Hfs)%apply_update_run.
  eapply wp_run in Hprep; [|by apply prepare_update_spec].
  destruct Hprep as (es & _ & _ & _ & _ & _ & _ & _ & Hall).
  assert (Forall (unreserved orc) (pu_changes prepared)) as Hun'.
  { apply Forall_forall. intros pc (i & Hi)%list_elem_of_lookup.
    destruct (Forall2_lookup_r _ _ _ _ _ Hall Hi) as (c & Hc' & Hpc). unfold unreserved.
    rewrite (prepared_path _ _ _ _ _ Hpc). apply Hun. by eapply list_elem_of_lookup_2. }
  rewrite Hfs, Hq. eapply wp_run in Hrun; [|by apply apply_inner_spec].
  destruct Hrun as [[_ [? ?]]|(root & backups & w4 & Hres & Hroot & Hf4 & Hg & Hr & Ht)]; [done|].
  apply (transact_ok orc Hq euid egid (w_fs w1) Hc root Hroot uid gid (w_store w4)) in Ht as
    (Hmade & [Hnodes Hentries] & -> & _); [|done..].
  exists root. destruct (request_evidence _ _ _ _ _ (w_fs w1) root Hall) as [<- <-].
  split_and!; [done|by eapply request_installed| |done|done].
  split; [done|]. intros d n Hd Hno. apply Hentries; [done|].
  apply Forall_forall. intros pc (i & Hi)%list_elem_of_lookup.
  destruct (Forall2_lookup_r _ _ _ _ _ Hall Hi) as (c & Hc' & Hpc).
  rewrite (prepared_path _ _ _ _ _ Hpc). rewrite Forall_forall in Hno. apply Hno.
  by eapply list_elem_of_lookup_2.
Qed.

(** C8: Whatever other processes do to the workspace meanwhile, applying an update
    whose paths contain no parent link leaves every inode outside the workspace
    as it was. *)
Theorem update_stays_in_workspace foreign prepared workspace uid gid (commit : io os_error unit) w :
  (∀ k fs, respects foreign fs (an_env (orc k) fs)) → separate foreign (w_fs w) →
  (∀ root, resolve workspace = Some root → ¬ foreign root) →
  Forall (λ c, downward (pc_path c)) (pu_changes prepared) →
  (∀ w, w_fs (commit w).1 = w_fs w) →
  ∀ i, foreign i →
  w_fs (apply_update orc euid egid resolve prepared workspace uid gid commit w).1 !! i = w_fs w !! i.
Proof.
  intros Henv Hs Hroot Hdown Hcom i Hi.
  destruct (apply_update _ _ _ _ _ _ _ _ _ w) as [w' r] eqn:Hrun.
  apply apply_update_run in Hrun as (w1 & Hrun & Hfs). cbn. rewrite Hfs.
  destruct (confined_apply foreign orc euid egid Henv resolve prepared workspace uid gid commit Hroot Hdown)
    with (w := w) as [[Hs1 He1] _]; [|done|].
  { intros w0 Hs0. rewrite Hcom. done. }
  rewrite Hrun in Hs1, He1. destruct (Henv (w_tick w1) _ Hs1) as [_ ->]; [|done]. by apply He1.
Qed.

(** An update is prepared only from an archive whose entries are exactly the
    declared files, distinct ignoring case, regular and not executable, allowed by
    the configured patterns, within [max_files] and, by their declared sizes,
    within [max_uncompressed_bytes], each file also by its content; every declared
    file is then newly staged with the content of its entry, whose hash is the
    declared one.  Otherwise the error is one that leaves nothing to roll back. *)
Theorem prepared_update_is_declared archive metadata_root session_id request policy w w' r :
  NoDup (change_path <$> su_changes request) →
  prepare_update orc euid egid archive metadata_root session_id request policy w = (w', r) →
  match r with
  | Ok prepared => ∃ es includes excludes,
      archive = Some (Some <$> es) ∧ fits policy (su_changes request) es ∧
      compile_patterns (up_include policy) = Ok includes ∧
      compile_patterns (up_exclude policy) = Ok excludes ∧
      Forall (λ c, outside_allowlist includes excludes (change_path c) = false) (su_changes request) ∧
      Forall2 (prepared_from w w' es) (su_changes request) (pu_changes prepared)
  | Err e => ue_rollback_proven e = true
  end.
Proof. intros Hnd Hrun. eapply wp_run in Hrun; [exact Hrun|by apply prepare_update_spec]. Qed.
End theorems.

(** * Concrete updates: a request that replaces one file, adds one and deletes one,
    applied, interrupted and raced. *)

Definition demo_sha : Sha256 := {| sha256_hex := λ s, "h:" +:+ s |}.

(** The machine: calls answered in order, the ones in [faults] failing, the flag
    set from [cancel] on, and the workspace changed by [env] at one call. *)
Definition demo_orc (faults : list nat) (cancel : nat) (env : nat → FS → FS) (k : nat) : answer :=
  mkAnswer (env k) (bool_decide (k ∈ faults)) (100 + N.of_nat k) (pretty k) 0 (cancel <=? k)%nat.

Definition calm : nat → FS → FS := λ _ fs, fs.

Definition ino (n : N) : FileIdentity := {| device := 1; inode := n |}.

(** [/outside/secret], and the workspace [/ws] with [src/lib.rs] and [old.txt]. *)
Definition demo_fs : FS := list_to_map
  [(ino 1, Node Directory 0 0 493 "" (list_to_map [("secret", ino 2); (".", ino 1)]));
   (ino 2, Node Regular 0 0 384 "secret" ∅);
   (ino 10, Node Directory 0 0 493 ""
      (list_to_map [("src", ino 11); ("old.txt", ino 13); ("..", ino 1); ("link", ino 14)]));
   (ino 11, Node Directory 500 500 493 "" (list_to_map [("lib.rs", ino 12); ("..", ino 10)]));
   (ino 12, Node Regular 500 500 420 "before" ∅);
   (ino 13, Node Regular 500 501 416 "bye" ∅);
   (ino 14, Node Symlink 500 500 511 "/outside" ∅)].

Definition demo_resolve (p : string) : option FileIdentity :=
  if bool_decide (p = "/ws") then Some (ino 10) else None.

Definition demo_update : SessionUpdateRequest :=
  {| su_schema_version := "1"; su_request_id := "u1"; su_base_revision := "rev_0";
     su_source := {| format := Zip |};
     su_changes := [File "src/lib.rs" "h:after"; File "src/new.rs" "h:new"; Delete "old.txt"] |}.

Definition demo_policy : SourceUpdatesConfig :=
  {| up_timeout_sec := 60; up_max_transfer_bytes := 100; up_max_uncompressed_bytes := 10;
     up_max_files := 4; up_max_depth := 4;
     up_include := ["src/lib.rs"; "src/new.rs"; "old.txt"]; up_exclude := [] |}.

Definition demo_entry (name : string) (size : N) (chunks : list string) : zip_entry :=
  {| ze_name := name; ze_is_dir := false; ze_is_symlink := false; ze_unix_mode := Some 33188;
     ze_size := size; ze_reads := Ok <$> chunks |}.

Definition demo_archive : option (list (option zip_entry)) :=
  Some [Some (demo_entry "src/new.rs" 3 ["ne"; "w"]); Some (demo_entry "src/lib.rs" 5 ["after"])].

Definition demo_world : World := mkWorld demo_fs ∅ 0.
Definition demo_prepare (orc : nat → answer) : World * result UpdateError PreparedUpdate :=
  prepare_update (H := demo_glob) (H0 := demo_sha) orc 0 0 demo_archive "/meta" "s1" demo_update
    demo_policy demo_world.
Definition demo_prepared : PreparedUpdate :=
  match demo_prepare (demo_orc [] 1000 calm) with
  | (_, Ok p) => p
  | _ => {| pu_root := ""; pu_changes := [] |}
  end.
Definition demo_staged : World := (demo_prepare (demo_orc [] 1000 calm)).1.
Definition demo_commit : io os_error unit := λ w, (w, Ok tt).
Definition demo_apply (orc : nat → answer) : World * result UpdateError AppliedEvidence :=
  apply_update (H := demo_sha) orc 0 0 demo_resolve demo_prepared "/ws" 500 500 demo_commit demo_staged.

(** * Deciding the hypotheses *)

Definition closed_b (fs : FS) : bool :=
  forallb (λ dn, forallb (λ ni, is_some (fs !! ni.2)) (map_to_list (nd_entries dn.2)))
    (map_to_list fs).

Lemma closed_b_true fs : closed_b fs = true → closed fs.
Proof.
  unfold closed_b. rewrite forallb_forall. intros Hb d n i. unfold entry.
  destruct (fs !! d) as [nd|] eqn:Ed; [|done]. cbn. intros Hi.
  specialize (Hb (d, nd)). rewrite <-list_elem_of_In, elem_of_map_to_list in Hb. specialize (Hb Ed).
  rewrite forallb_forall in Hb. specialize (Hb (n, i)).
  rewrite <-list_elem_of_In, elem_of_map_to_list in Hb. specialize (Hb Hi). cbn in Hb.
  by destruct (fs !! i).
Qed.

Definition outside (i : FileIdentity) : Prop := i ∈ [ino 1; ino 2].

Definition separate_b (fs : FS) : bool :=
  forallb (λ i, is_some (fs !! i)) [ino 1; ino 2] &&
  forallb (λ dn, bool_decide (dn.1 ∈ [ino 1; ino 2]) ||
    forallb (λ ni, bool_decide (ni.1 = "..") || negb (bool_decide (ni.2 ∈ [ino 1; ino 2])))
      (map_to_list (nd_entries dn.2)))
    (map_to_list fs).

Lemma separate_b_true fs : separate_b fs = true → separate outside fs.
Proof.
  unfold separate_b. rewrite andb_true_iff, !forallb_forall. intros [Hex Hb]. split.
  - intros i Hi. specialize (Hex i). rewrite <-list_elem_of_In in Hex. specialize (Hex Hi).
    by destruct (fs !! i).
  - intros d n i a Hd Hn He _ _. unfold entry in He. destruct (fs !! d) as [nd|] eqn:Ed; [|done].
    cbn in He. specialize (Hb (d, nd)). rewrite <-list_elem_of_In, elem_of_map_to_list in Hb.
    specialize (Hb Ed). cbn in Hb. rewrite bool_decide_eq_false_2 in Hb by done. cbn in Hb.
    rewrite forallb_forall in Hb. specialize (Hb (n, i)).
    rewrite <-list_elem_of_In, elem_of_map_to_list in Hb. specialize (Hb He). cbn in Hb.
    rewrite bool_decide_eq_false_2 in Hb by done. cbn in Hb. by breflect.
Qed.

Lemma not_drawn faults cancel env n : starts_with "." n = false → ¬ drawn (demo_orc faults cancel env) n.
Proof. intros Hn [k ->]. discriminate Hn. Qed.

(** * The theorems at work *)

(** The tenth call of the deletion's transaction fails: everything is undone. *)
Definition interrupted : nat → answer := demo_orc [75%nat] 1000 calm.

Lemma failed_update_restores_witness :
  look (w_fs (demo_apply interrupted).1) (ino 10) ["src"; "lib.rs"] =
    Some (Regular, 500, 500, 420, "before") ∧
  entry (w_fs (demo_apply interrupted).1) (ino 11) "lib.rs" ≠ Some (ino 12).
Proof.
  split; [|vm_compute; discriminate].
  rewrite (failed_update_restores (H0 := demo_sha) interrupted 0 0 demo_resolve demo_prepared "/ws" 500 500
    demo_commit demo_staged (demo_apply interrupted).1
    {| ue_kind := UInternal; ue_rollback_proven := true |} (ino 10) ["src"; "lib.rs"]).
  - vm_compute; reflexivity.
  - done.
  - apply closed_b_true. vm_compute; reflexivity.
  - vm_compute pu_changes.
    repeat constructor; apply not_drawn; vm_compute; reflexivity.
  - vm_compute; reflexivity.
  - reflexivity.
  - vm_compute. eauto.
  - repeat constructor; apply not_drawn; vm_compute; reflexivity.
Defined.

Lemma update_installs_request_witness :
  ∃ root, demo_resolve "/ws" = Some root ∧
    Forall (change_installed (H0 := demo_sha) 500 500 demo_fs
      (w_fs (demo_apply (demo_orc [] 1000 calm)).1) root) (su_changes demo_update).
Proof.
  destruct (update_installs_request (H := demo_glob) (H0 := demo_sha) (demo_orc [] 1000 calm) 0 0
    demo_resolve demo_archive "/meta" "s1" demo_update demo_policy "/ws" 500 500 demo_commit
    demo_world demo_staged (demo_apply (demo_orc [] 1000 calm)).1 demo_prepared
    {| ae_changed := [{| ev_path := "src/lib.rs"; ev_sha256 := "h:after" |};
                      {| ev_path := "src/new.rs"; ev_sha256 := "h:new" |}];
       ae_deleted := [{| ev_path := "old.txt"; ev_sha256 := "h:bye" |}] |})
    as (root & Hr & Hi & _).
  - done.
  - apply closed_b_true. vm_compute; reflexivity.
  - apply (bool_decide_unpack _). vm_compute; exact I.
  - apply Forall_forall. repeat constructor; apply not_drawn; vm_compute; reflexivity.
  - by intros w w' [= <-].
  - vm_compute; reflexivity.
  - vm_compute; reflexivity.
  - exists root. split; [exact Hr|]. exact Hi.
Defined.

Lemma prepared_update_is_declared_witness :
  ∃ es includes excludes,
    demo_archive = Some (Some <$> es) ∧ fits demo_policy (su_changes demo_update) es ∧
    compile_patterns (H := demo_glob) (up_include demo_policy) = Ok includes ∧
    compile_patterns (H := demo_glob) (up_exclude demo_policy) = Ok excludes ∧
    Forall (λ c, outside_allowlist includes excludes (change_path c) = false) (su_changes demo_update) ∧
    Forall2 (prepared_from (H0 := demo_sha) demo_world demo_staged es) (su_changes demo_update)
      (pu_changes demo_prepared).
Proof.
  apply (prepared_update_is_declared (H := demo_glob) (H0 := demo_sha) (demo_orc [] 1000 calm) 0 0
    demo_archive "/meta" "s1" demo_update demo_policy demo_world demo_staged (Ok demo_prepared)).
  - apply (bool_decide_unpack _). vm_compute; exact I.
  - vm_compute; reflexivity.
Defined.

(** A task that replaces [src] by a link out of the workspace while the update runs. *)
Definition swap_for_link (k : nat) (fs : FS) : FS :=
  if (k =? 52)%nat then set_entry (ino 10) "src" (Some (ino 14)) fs else fs.
Definition raced : nat → answer := demo_orc [] 1000 swap_for_link.

Lemma swap_respects k fs : respects outside fs (an_env (raced k) fs).
Proof.
  cbn. unfold swap_for_link. destruct (k =? 52)%nat; [|apply respects_refl].
  apply respects_set_entry; [unfold outside, ino; set_solver|].
  intros i a [= <-] _ _ _. unfold outside, ino. set_solver.
Qed.

Lemma update_stays_in_workspace_witness :
  w_fs (demo_apply raced).1 !! ino 2 = Some (Node Regular 0 0 384 "secret" ∅) ∧
  w_fs (demo_apply raced).1 !! ino 1 = demo_fs !! ino 1 ∧
  (demo_apply raced).2 = Err {| ue_kind := UBadRequest; ue_rollback_proven := true |}.
Proof.
  assert (∀ i, outside i → w_fs (demo_apply raced).1 !! i = w_fs demo_staged !! i) as Hout.
  { intros i Hi.
    apply (update_stays_in_workspace (H0 := demo_sha) raced 0 0 demo_resolve outside demo_prepared
      "/ws" 500 500 demo_commit demo_staged).
    - exact swap_respects.
    - apply separate_b_true. vm_compute; reflexivity.
    - unfold demo_resolve. intros root [= <-]. unfold outside, ino. set_solver.
    - vm_compute pu_changes. repeat constructor; vm_compute; discriminate.
    - done.
    - exact Hi. }
  split_and!; [rewrite Hout by (by left + by right; left)|rewrite Hout by (by left)|]; vm_compute; reflexivity.
Defined.

(** * Sizes an archive understates *)

Definition staged_bytes (w : World) : N :=
  foldr N.add 0 ((λ p, len (st_data p.2)) <$> map_to_list (w_store w)).

Definition understating_archive : option (list (option zip_entry)) :=
  Some [Some (demo_entry "src/lib.rs" 0 ["0123456789"]); Some (demo_entry "src/new.rs" 0 ["abcdefghij"])].
Definition understating_update : SessionUpdateRequest :=
  {| su_schema_version := "1"; su_request_id := "u1"; su_base_revision := "rev_0";
     su_source := {| format := Zip |};
     su_changes := [File "src/lib.rs" "h:0123456789"; File "src/new.rs" "h:abcdefghij"] |}.

(** The running total of [prepare_archive] adds the sizes the archive declares,
    not the bytes read: an archive that declares two entries of size 0 is accepted
    under [max_uncompressed_bytes = 10] although its two files hold 20 bytes. *)
Theorem understated_sizes_exceed_limit :
  let out := prepare_update (H := demo_glob) (H0 := demo_sha) (demo_orc [] 1000 calm) 0 0
    understating_archive "/meta" "s1" understating_update demo_policy demo_world in
  is_ok out.2 = true ∧ staged_bytes out.1 = 20 ∧ up_max_uncompressed_bytes demo_policy = 10.
Proof. vm_compute. split_and!; reflexivity. Qed.
