(* ===== verification/SessionSystem.v ===== *)
(** The concurrent behaviour of one managed session ([src/src/sessions.rs] with
    the event streams of [src/src/http.rs] that drive it).

    The threads that touch a session (the initialization worker, one worker per
    admitted action or update, the threads that run [cleanup_entry], the callers
    blocked in [stop]) interleave at their lock sections.  [exec] runs one
    event, one critical section or one step of a thread, on the state of the
    whole system; [step] is its graph, and the theorems hold for every
    interleaving of events from the moment the session is reserved. *)
From Stdlib Require Import Ascii.
From stdpp Require Import base option strings numbers gmap pretty relations list.
From S2P Require Import Prelude RustStr Protocol Config Sessions.

Local Open Scope N_scope.

(** * Threads *)

(** [initialize]: running the setup phases and starting services; about to
    write the metadata; about to hold the election; lost it; about to call
    [initializer_cleanup]. *)
Inductive init_pc := IRunning | IChecked | IWritten | IRemoving | IFailing.

(** [execute_action]: up to the final event; waiting for its
    acknowledgement; about to call [finish_action(.., false)]. *)
Inductive action_pc := ARunning | AWaiting | AFinishing.

(** [execute_update]: applying; applied; failed; caught panicking. *)
Inductive update_pc :=
| URunning
| UApplied (changed deleted : list SessionUpdateEvidence)
| UFailed (err : UpdateError)
| UPanicked.

(** [cleanup_entry]. *)
Inductive clean_pc :=
| CStart
| CServices
| CRemove (o : cleanup_outcome)
| CUnregister (o : cleanup_outcome)
| CRelease (o : cleanup_outcome)
| CFinish (o : cleanup_outcome)
| CDone (response : SessionStopResponse).

Inductive thread :=
| TInit (pc : init_pc)
| TAction (action_id : string) (pc : action_pc)
| TUpdate (r : SessionUpdateReservation) (pc : update_pc)
| TCleanup (explicit : bool) (pc : clean_pc)
| TWaiter
| TStopped (response : SessionStopResponse)
| TDone.

(** [sy_final]: actions whose final event is with the stream, its
    acknowledgement not sent; [sy_acks]: the value in an action's acknowledgement
    channel; [sy_acked], [sy_gave_up] (history): actions whose delivery was
    acknowledged with [true], and whose worker stopped waiting at the
    acknowledgement deadline; [sy_archives]: actions whose archive is stored. *)
Record Sys := {
  sy_entry : SessionEntry;
  sy_now : N;
  sy_threads : gmap nat thread;
  sy_used : gset string;
  sy_final : gset string;
  sy_acks : gmap string bool;
  sy_acked : gset string;
  sy_gave_up : gset string;
  sy_archives : gset string;
  sy_services_started : bool;
}.

Definition put_entry (v : SessionEntry) (s : Sys) : Sys :=
  {| sy_entry := v; sy_now := sy_now s; sy_threads := sy_threads s; sy_used := sy_used s;
     sy_final := sy_final s; sy_acks := sy_acks s; sy_acked := sy_acked s; sy_gave_up :=
     sy_gave_up s; sy_archives := sy_archives s; sy_services_started := sy_services_started s
     |}.
Definition put_now (v : N) (s : Sys) : Sys :=
  {| sy_entry := sy_entry s; sy_now := v; sy_threads := sy_threads s; sy_used := sy_used s;
     sy_final := sy_final s; sy_acks := sy_acks s; sy_acked := sy_acked s; sy_gave_up :=
     sy_gave_up s; sy_archives := sy_archives s; sy_services_started := sy_services_started s
     |}.
Definition put_threads (v : gmap nat thread) (s : Sys) : Sys :=
  {| sy_entry := sy_entry s; sy_now := sy_now s; sy_threads := v; sy_used := sy_used s;
     sy_final := sy_final s; sy_acks := sy_acks s; sy_acked := sy_acked s; sy_gave_up :=
     sy_gave_up s; sy_archives := sy_archives s; sy_services_started := sy_services_started s
     |}.
Definition put_used (v : gset string) (s : Sys) : Sys :=
  {| sy_entry := sy_entry s; sy_now := sy_now s; sy_threads := sy_threads s; sy_used := v;
     sy_final := sy_final s; sy_acks := sy_acks s; sy_acked := sy_acked s; sy_gave_up :=
     sy_gave_up s; sy_archives := sy_archives s; sy_services_started := sy_services_started s
     |}.
Definition put_final (v : gset string) (s : Sys) : Sys :=
  {| sy_entry := sy_entry s; sy_now := sy_now s; sy_threads := sy_threads s; sy_used :=
     sy_used s; sy_final := v; sy_acks := sy_acks s; sy_acked := sy_acked s; sy_gave_up :=
     sy_gave_up s; sy_archives := sy_archives s; sy_services_started := sy_services_started s
     |}.
Definition put_acks (v : gmap string bool) (s : Sys) : Sys :=
  {| sy_entry := sy_entry s; sy_now := sy_now s; sy_threads := sy_threads s; sy_used :=
     sy_used s; sy_final := sy_final s; sy_acks := v; sy_acked := sy_acked s; sy_gave_up :=
     sy_gave_up s; sy_archives := sy_archives s; sy_services_started := sy_services_started s
     |}.
Definition put_acked (v : gset string) (s : Sys) : Sys :=
  {| sy_entry := sy_entry s; sy_now := sy_now s; sy_threads := sy_threads s; sy_used :=
     sy_used s; sy_final := sy_final s; sy_acks := sy_acks s; sy_acked := v; sy_gave_up :=
     sy_gave_up s; sy_archives := sy_archives s; sy_services_started := sy_services_started s
     |}.
Definition put_gave_up (v : gset string) (s : Sys) : Sys :=
  {| sy_entry := sy_entry s; sy_now := sy_now s; sy_threads := sy_threads s; sy_used :=
     sy_used s; sy_final := sy_final s; sy_acks := sy_acks s; sy_acked := sy_acked s;
     sy_gave_up := v; sy_archives := sy_archives s; sy_services_started := sy_services_started
     s |}.
Definition put_archives (v : gset string) (s : Sys) : Sys :=
  {| sy_entry := sy_entry s; sy_now := sy_now s; sy_threads := sy_threads s; sy_used :=
     sy_used s; sy_final := sy_final s; sy_acks := sy_acks s; sy_acked := sy_acked s;
     sy_gave_up := sy_gave_up s; sy_archives := v; sy_services_started := sy_services_started
     s |}.
Definition put_services_started (v : bool) (s : Sys) : Sys :=
  {| sy_entry := sy_entry s; sy_now := sy_now s; sy_threads := sy_threads s; sy_used :=
     sy_used s; sy_final := sy_final s; sy_acks := sy_acks s; sy_acked := sy_acked s;
     sy_gave_up := sy_gave_up s; sy_archives := sy_archives s; sy_services_started := v |}.

Definition modify (f : SessionEntry → SessionEntry) (s : Sys) : Sys :=
  put_entry (f (sy_entry s)) s.
Definition put_thread (t : nat) (th : thread) (s : Sys) : Sys :=
  put_threads (<[t := th]> (sy_threads s)) s.

(** The thread goes on as its lock section decided. *)
Definition continue_as (n : next) : thread :=
  match n with
  | Return => TDone
  | Cleanup explicit => TCleanup explicit CStart
  | Wait => TWaiter
  end.

Definition proceed (t : nat) (r : SessionEntry * next) (s : Sys) : Sys :=
  put_thread t (continue_as r.2) (put_entry r.1 s).

(** * Thread steps *)

Inductive init_step :=
| IFail
| IWorkspace
| IStartServices (fault : option write_fault)
| ISpawn (process : DurableServiceProcess) (fault : option write_fault)
| ICheck
| IWrite (fault : option write_fault)
| IElect
| IRemove
| ICleanup.

Definition exec_init (t : nat) (pc : init_pc) (a : init_step) (s : Sys) : option Sys :=
  let e := sy_entry s in
  match pc, a with
  | IRunning, IFail => Some (put_thread t (TInit IFailing) s)
  | IRunning, IWorkspace => Some (modify (set_workspace true) s)
  | IRunning, IStartServices fault =>
      let '(e, ok) := write_metadata fault (durable_metadata METADATA_VERSION 0 DStartingServices
                                              (set_services [] e)) e in
      Some (put_thread t (TInit (if ok then IRunning else IFailing))
              (put_services_started true (put_entry e s)))
  | IRunning, ISpawn process fault =>
      if sy_services_started s then
        let e := push_service process e in
        let '(e, ok) := write_metadata fault (durable_metadata METADATA_VERSION 0 DStartingServices e) e in
        Some (put_thread t (TInit (if ok then IRunning else IFailing)) (put_entry e s))
      else None
  | IRunning, ICheck =>
      let '(e, ok) := precommit_check (sy_now s) e in
      Some (put_thread t (TInit (if ok then IChecked else IFailing)) (put_entry e s))
  | IChecked, IWrite fault =>
      let '(e, ok) := write_metadata fault (durable_metadata (metadata_version e) 0 DReady e) e in
      if ok then Some (put_thread t (TInit IWritten) (put_entry e s))
      else Some (put_thread t (TInit IFailing) (put_entry (commit_failed e) s))
  | IWritten, IElect =>
      let '(e, ready) := commit_election (sy_now s) e in
      Some (put_thread t (if ready then TDone else TInit IRemoving) (put_entry e s))
  | IRemoving, IRemove => Some (put_thread t (TInit IFailing) (modify remove_metadata s))
  | IFailing, ICleanup => Some (proceed t (initializer_cleanup false e) s)
  | _, _ => None
  end.

Inductive action_step :=
| AFail
| APublish
| AReceive
| ACancelled
| ADisconnected
| ATimeout
| AFinish.

(** [AFail] is any path of [execute_action] that fails before publication;
    [APublish] tests [action_can_publish] and sends the final event, the archive
    being stored by then; while waiting, [AReceive] takes the acknowledgement,
    [ACancelled] and [ADisconnected] are the early exits of
    [deliver_final_action_event], and [ATimeout] is the deadline, tested after
    the channel was found empty and so racing with the acknowledgement. *)
Definition exec_action (t : nat) (a : string) (pc : action_pc) (st : action_step) (s : Sys) :
    option Sys :=
  let e := sy_entry s in
  let abandon s := put_thread t (TAction a AFinishing) (put_archives (sy_archives s ∖ {[ a ]}) s) in
  match pc, st with
  | ARunning, AFail => Some (put_thread t (TAction a AFinishing) s)
  | ARunning, APublish =>
      if action_can_publish (sy_now s) a e
      then Some (put_thread t (TAction a AWaiting)
             (put_final ({[ a ]} ∪ sy_final s) (put_archives ({[ a ]} ∪ sy_archives s) s)))
      else Some (put_thread t (TAction a AFinishing) s)
  | AWaiting, AReceive =>
      match sy_acks s !! a with
      | Some true => Some (put_thread t TDone s)
      | Some false => Some (abandon s)
      | None => None
      end
  | AWaiting, ACancelled => if is_cancelled a e then Some (abandon s) else None
  | AWaiting, ADisconnected =>
      if bool_decide (a ∈ sy_final s) then None
      else match sy_acks s !! a with None => Some (abandon s) | Some _ => None end
  | AWaiting, ATimeout => Some (put_gave_up ({[ a ]} ∪ sy_gave_up s) (abandon s))
  | AFinishing, AFinish => Some (proceed t (finish_action (sy_now s) a false e) s)
  | _, _ => None
  end.

Inductive update_step :=
| UEarlyError (err : UpdateError)
| UCommit (fault : option write_fault)
| UApply (changed deleted : list SessionUpdateEvidence)
| UError (err : UpdateError)
| UPanic
| UFinish.

(** [UEarlyError] covers the exits of [execute_update] before [apply_update];
    [UCommit] is its commit callback, which writes the metadata of the next
    revision; [UApply] and [UError] are its results. *)
Definition exec_update (t : nat) (r : SessionUpdateReservation) (pc : update_pc)
    (st : update_step) (s : Sys) : option Sys :=
  let e := sy_entry s in
  match checked_add (rv_base_revision r) 1, pc, st with
  | None, URunning, UEarlyError err =>
      if ue_rollback_proven err then None else Some (put_thread t (TUpdate r (UFailed err)) s)
  | Some next_revision, URunning, UEarlyError err =>
      if ue_rollback_proven err then None else Some (put_thread t (TUpdate r (UFailed err)) s)
  | Some next_revision, URunning, UCommit fault =>
      Some (put_entry (write_metadata fault
              (durable_metadata (metadata_version e) next_revision DReady e) e).1 s)
  | Some next_revision, URunning, UApply changed deleted =>
      Some (put_thread t (TUpdate r (UApplied changed deleted)) s)
  | Some next_revision, URunning, UError err => Some (put_thread t (TUpdate r (UFailed err)) s)
  | Some next_revision, URunning, UPanic => Some (put_thread t (TUpdate r UPanicked) s)
  | Some next_revision, UApplied changed deleted, UFinish =>
      let '(e, n, _) := finish_update_success (sy_now s) r next_revision changed deleted e in
      Some (proceed t (e, n) s)
  | _, UFailed err, UFinish =>
      Some (proceed t (finish_update_error (sy_now s) (rv_update_id r) err e) s)
  | _, UPanicked, UFinish => Some (proceed t (update_worker_panicked e) s)
  | _, _, _ => None
  end.

Inductive clean_step := CNext | COutcome (o : cleanup_outcome).

Definition exec_cleanup (t : nat) (explicit : bool) (pc : clean_pc) (st : clean_step) (s : Sys) :
    option Sys :=
  let go pc' s := Some (put_thread t (TCleanup explicit pc') s) in
  match pc, st with
  | CStart, CNext => go CServices (modify cleanup_take_services s)
  | CServices, COutcome o => go (CRemove o) s
  | CRemove o, CNext => go (CUnregister o) (modify (cleanup_remove o) s)
  | CUnregister o, CNext => go (CRelease o) (modify cleanup_unregister s)
  | CRelease o, CNext => go (CFinish o) (modify cleanup_release s)
  | CFinish o, CNext =>
      let response := cleanup_response (en_id (sy_entry s)) explicit o in
      go (CDone response) (modify (cleanup_finish response) s)
  | _, _ => None
  end.

(** * Events *)

Inductive event :=
| Tick (d : N)
| Begin (t : nat)
| CancelUpload (t : nat)
| Disconnect (t : nat)
| Stop (t : nat)
| ExpireLifetime (t : nat)
| ExpireIdle (t : nat)
| ServiceFailed (t : nat)
| StartAction (t : nat) (name action_id : string)
| StartUpdate (t : nat) (request_id digest : string) (base : N) (update_id : string)
| Acknowledge (action_id : string)
| DisconnectAction (action_id : string)
| InitStep (t : nat) (a : init_step)
| ActionStep (t : nat) (a : action_step)
| UpdateStep (t : nat) (a : update_step)
| CleanStep (t : nat) (a : clean_step)
| Wake (t : nat).

Definition fresh_thread (t : nat) (s : Sys) : bool := is_none (sy_threads s !! t).

(** A request thread: it exists from its first lock section on. *)
Definition request (t : nat) (r : SessionEntry * next) (s : Sys) : option Sys :=
  if fresh_thread t s then Some (proceed t r s) else None.

Definition idle_timeout (e : SessionEntry) : N :=
  match session_config e with
  | Some session => sn_idle_timeout_sec session * 1000000000
  | None => 0
  end.

(** One event.  Operation ids are fresh ([Uuid::new_v4]); the lifetime timer
    fires at the deadline; services fail only once some were started; the
    stream acknowledges a final event it received and drops its sender with
    itself. *)
Definition exec (ev : event) (s : Sys) : option Sys :=
  let e := sy_entry s in
  match ev with
  | Tick d => Some (put_now (sy_now s + d) s)
  | Begin t =>
      let '(e', begun, n) := begin_initialization (sy_now s) e in
      if fresh_thread t s
      then Some (if begun : bool then put_thread t (TInit IRunning) (put_entry e' s)
                 else proceed t (e', n) s)
      else None
  | CancelUpload t => request t (cancel_upload e) s
  | Disconnect t => request t (disconnect e) s
  | Stop t =>
      match stop e with
      | (e', Ok n) => request t (e', n) s
      | (e', Err _) => request t (e', Return) s
      end
  | ExpireLifetime t =>
      if en_deadline e <=? sy_now s then request t (expire_lifetime e) s else None
  | ExpireIdle t => request t (expire_idle (sy_now s) (idle_timeout e) e) s
  | ServiceFailed t => if sy_services_started s then request t (service_failed e) s else None
  | StartAction t name a =>
      if fresh_thread t s && negb (bool_decide (a ∈ sy_used s)) then
        match start_action (sy_now s) name a e with
        | (e', Ok r) =>
            Some (put_thread t (TAction (sr_action_id r) ARunning)
                    (put_used ({[ a ]} ∪ sy_used s) (put_entry e' s)))
        | (e', Err _) => Some (put_thread t TDone (put_entry e' s))
        end
      else None
  | StartUpdate t request_id digest base u =>
      if fresh_thread t s && negb (bool_decide (u ∈ sy_used s)) then
        match start_update (sy_now s) request_id digest base u e with
        | (e', Ok (Start r)) =>
            Some (put_thread t (TUpdate r URunning)
                    (put_used ({[ u ]} ∪ sy_used s) (put_entry e' s)))
        | (e', _) => Some (put_thread t TDone (put_entry e' s))
        end
      else None
  | Acknowledge a =>
      if bool_decide (a ∈ sy_final s) then
        let '(e', accepted) := acknowledge_action_delivery (sy_now s) a e in
        let s := put_acks (<[a := accepted]> (sy_acks s))
                   (put_final (sy_final s ∖ {[ a ]}) (put_entry e' s)) in
        Some (if accepted : bool then put_acked ({[ a ]} ∪ sy_acked s) s else s)
      else None
  | DisconnectAction a =>
      Some (put_final (sy_final s ∖ {[ a ]}) (put_entry (disconnect_action a e) s))
  | InitStep t a =>
      match sy_threads s !! t with Some (TInit pc) => exec_init t pc a s | _ => None end
  | ActionStep t st =>
      match sy_threads s !! t with Some (TAction a pc) => exec_action t a pc st s | _ => None end
  | UpdateStep t st =>
      match sy_threads s !! t with Some (TUpdate r pc) => exec_update t r pc st s | _ => None end
  | CleanStep t st =>
      match sy_threads s !! t with
      | Some (TCleanup explicit pc) => exec_cleanup t explicit pc st s
      | _ => None
      end
  | Wake t =>
      match sy_threads s !! t, en_state e with
      | Some TWaiter, Terminated response => Some (put_thread t (TStopped response) s)
      | _, _ => None
      end
  end.

Definition step (s s' : Sys) : Prop := ∃ ev, exec ev s = Some s'.

(** The system right after [reserve]. *)
Definition initial (now : N) (e : SessionEntry) : Sys :=
  {| sy_entry := e; sy_now := now; sy_threads := ∅; sy_used := ∅; sy_final := ∅; sy_acks := ∅;
     sy_acked := ∅; sy_gave_up := ∅; sy_archives := ∅; sy_services_started := false |}.

Definition reachable (s : Sys) : Prop :=
  ∃ id request_id task_id task now e,
    reserve id request_id task_id task now = Some e ∧ rtc step (initial now e) s.

(** A run of listed events. *)
Fixpoint run (evs : list event) (s : Sys) : option Sys :=
  match evs with
  | [] => Some s
  | ev :: evs => exec ev s ≫= run evs
  end.
