(* ===== verification/SessionInv.v ===== *)
(** The invariants of [SessionSystem]: how each lock section moves the session's
    state, and which thread is responsible for finishing it. *)
From stdpp Require Import base option strings numbers gmap pretty relations list.
From S2P Require Import Prelude RustStr Protocol Config Sessions SessionSystem.

Local Open Scope N_scope.

(** * Effects of the lock sections *)

(** The parts of an entry that no lock section outside cleanup touches. *)
Definition same_resources (e e' : SessionEntry) : Prop :=
  en_id e' = en_id e ∧ en_deadline e' = en_deadline e ∧ en_task e' = en_task e ∧
  en_permit e' = en_permit e ∧ en_registered e' = en_registered e ∧
  en_workspace e' = en_workspace e ∧ en_metadata e' = en_metadata e ∧
  en_services e' = en_services e.

Definition terminating (owner : CleanupOwner) (e : SessionEntry) : Prop :=
  ∃ explicit, en_state e = Terminating {| tm_explicit := explicit; tm_owner := owner |}.

Definition is_cleanup (n : next) : bool := match n with Cleanup _ => true | _ => false end.

(** What a request (not a worker of the session) may do: nothing; ask the
    operation in progress to stop and leave the cleanup to its worker; or take
    an idle session and clean up itself. *)
Inductive request_effect (e e' : SessionEntry) : next → Prop :=
| req_none :
    e' = e → request_effect e e' Return
| req_stop_init n :
    en_state e = Initializing true → terminating Initializer e' →
    en_cancelled e' = en_cancelled e → is_cleanup n = false → request_effect e e' n
| req_stop_action n a :
    en_state e = Action a → terminating ActionOwner e' →
    en_cancelled e' = {[ a ]} ∪ en_cancelled e → is_cleanup n = false → request_effect e e' n
| req_stop_update n u :
    en_state e = Updating u → terminating UpdateOwner e' →
    en_cancelled e' = {[ u ]} ∪ en_cancelled e → is_cleanup n = false → request_effect e e' n
| req_take explicit :
    (en_state e = Initializing false ∨ ∃ l, en_state e = Ready l) →
    en_state e' = Terminating {| tm_explicit := explicit; tm_owner := Requester |} →
    en_cancelled e' = en_cancelled e → request_effect e e' (Cleanup explicit).

#[export] Hint Constructors request_effect : s2.
#[export] Hint Unfold terminating : s2.

Ltac solve_effect e :=
  destruct (en_state e) as [[]| | | | |] eqn:?;
  repeat case_match; simplify_eq/=; split; try (by repeat split);
  solve [ by apply req_none
        | eapply req_stop_init; [done|by eexists|done..]
        | eapply req_stop_action; [done|by eexists|done..]
        | eapply req_stop_update; [done|by eexists|done..]
        | eapply req_take; eauto ].

Definition request_ok (e : SessionEntry) (r : SessionEntry * next) : Prop :=
  same_resources e r.1 ∧ request_effect e r.1 r.2.

Lemma cancel_upload_ok e : request_ok e (cancel_upload e).
Proof. unfold request_ok, cancel_upload. solve_effect e. Qed.

Lemma disconnect_ok e : request_ok e (disconnect e).
Proof. unfold request_ok, disconnect. solve_effect e. Qed.

Lemma expire_lifetime_ok e : request_ok e (expire_lifetime e).
Proof. unfold request_ok, expire_lifetime. solve_effect e. Qed.

Lemma expire_idle_ok now idle e : request_ok e (expire_idle now idle e).
Proof. unfold request_ok, expire_idle. solve_effect e. Qed.

Lemma service_failed_ok e :
  en_state e ≠ Initializing false → request_ok e (service_failed e).
Proof. intros ?. unfold request_ok, service_failed. solve_effect e. Qed.

Lemma stop_ok e :
  request_ok e (match stop e with (e', Ok n) => (e', n) | (e', Err _) => (e', Return) end).
Proof. unfold request_ok, stop. solve_effect e. Qed.

Lemma disconnect_action_ok a e : request_ok e (disconnect_action a e, Return).
Proof. unfold request_ok, disconnect_action. solve_effect e. Qed.

(** * Operation ids, acknowledgements and cancellation flags *)

Definition sy_state (s : Sys) : SessionState := en_state (sy_entry s).

(** The bookkeeping of operations, which holds in every execution. *)
Record Ids (s : Sys) : Prop := {
  id_action : ∀ t a pc, sy_threads s !! t = Some (TAction a pc) → a ∈ sy_used s;
  id_unique : ∀ t1 t2 a pc1 pc2, sy_threads s !! t1 = Some (TAction a pc1) →
    sy_threads s !! t2 = Some (TAction a pc2) → t1 = t2;
  id_used : sy_acked s ∪ en_cancelled (sy_entry s) ∪ sy_final s ∪ dom (sy_acks s) ⊆ sy_used s;
  id_running : ∀ t a, sy_threads s !! t = Some (TAction a ARunning) →
    (a ∉ sy_final s) ∧ sy_acks s !! a = None;
  id_final : ∀ a, a ∈ sy_final s → sy_acks s !! a = None;
  id_acked : ∀ a, a ∈ sy_acked s ↔ sy_acks s !! a = Some true;
  id_acked_live : ∀ a, a ∈ sy_acked s → a ∉ en_cancelled (sy_entry s);
  id_current : ∀ a, sy_state s = Action a ∨ sy_state s = Updating a →
    a ∈ sy_used s ∧ (a ∉ sy_acked s) ∧ a ∉ en_cancelled (sy_entry s);
  id_finishing : ∀ t a, sy_threads s !! t = Some (TAction a AFinishing) →
    a ∈ sy_final s ∨ a ∈ sy_acked s → a ∈ sy_gave_up s ∨ a ∈ en_cancelled (sy_entry s);
  id_init : ∀ t pc, sy_threads s !! t = Some (TInit pc) → sy_state s ≠ Initializing false;
  id_services : sy_services_started s = true → sy_state s ≠ Initializing false;
}.

Lemma Ids_initial now e : en_cancelled e = ∅ → en_state e = Initializing false → Ids (initial now e).
Proof.
  intros Hc Hs. split; cbn; unfold sy_state; cbn; rewrite ?Hc, ?Hs; try done; try set_solver.
Qed.

(** The new thread of a step is not an action worker. *)
Definition tame (s' : Sys) (th : thread) : Prop :=
  match th with
  | TAction _ _ => False
  | TInit _ => sy_state s' ≠ Initializing false
  | _ => True
  end.

(** No operation becomes current. *)
Definition no_new_operation (s s' : Sys) : Prop :=
  (sy_state s' = sy_state s ∧ en_cancelled (sy_entry s') = en_cancelled (sy_entry s)) ∨
  ((∀ a, sy_state s' ≠ Action a ∧ sy_state s' ≠ Updating a) ∧ sy_state s' ≠ Initializing false ∧
   (en_cancelled (sy_entry s') = en_cancelled (sy_entry s) ∨
    ∃ a, (sy_state s = Action a ∨ sy_state s = Updating a) ∧
         en_cancelled (sy_entry s') = {[ a ]} ∪ en_cancelled (sy_entry s))).

Lemma no_new_cancelled s s' :
  no_new_operation s s' →
  en_cancelled (sy_entry s') = en_cancelled (sy_entry s) ∨
  ∃ a, (sy_state s = Action a ∨ sy_state s = Updating a) ∧
       en_cancelled (sy_entry s') = {[ a ]} ∪ en_cancelled (sy_entry s).
Proof. intros [[??]|(?&?&?)]; auto. Qed.

(** Most steps: one thread is replaced by one that is not an action worker, the
    state moves, the flag of the current operation may be set. *)
Lemma Ids_step s s' t th :
  Ids s → tame s' th →
  sy_threads s' = <[t := th]> (sy_threads s) →
  sy_used s' = sy_used s → sy_final s' = sy_final s → sy_acks s' = sy_acks s →
  sy_acked s' = sy_acked s → sy_gave_up s' = sy_gave_up s →
  no_new_operation s s' →
  (sy_services_started s' = true → sy_services_started s = true ∨ sy_state s' ≠ Initializing false) →
  Ids s'.
Proof.
  intros [I1 I2 I3 I4 I5 I6 I7 I8 I9 I10 I11] Ht Eth Eu Ef Ea Ead Eg Hno Hv.
  assert (∀ t' a pc, sy_threads s' !! t' = Some (TAction a pc) →
    sy_threads s !! t' = Some (TAction a pc)) as Hact.
  { intros t' a pc. rewrite Eth, lookup_insert_Some. intros [[<- ->]|[? ?]]; [|done]. by destruct Ht. }
  pose proof (no_new_cancelled _ _ Hno) as Hc.
  split; rewrite ?Eu, ?Ef, ?Ea, ?Ead, ?Eg.
  - eauto.
  - eauto.
  - destruct Hc as [->|(a & Ha & ->)]; [done|]. apply I8 in Ha as (Hu & _). set_solver.
  - intros t' a ?%Hact. eauto.
  - done.
  - done.
  - intros a Ha. destruct Hc as [->|(b & Hb & ->)]; [eauto|].
    apply I8 in Hb as (_ & ? & _). pose proof (I7 a Ha). set_solver.
  - intros a Ha. destruct Hno as [[Hs ->]|(Hs & _)].
    + apply I8. by rewrite <-Hs.
    + destruct (Hs a) as (? & ?). by destruct Ha.
  - intros t' a ?%Hact Ho. destruct (I9 _ _ H Ho); [by left|right].
    destruct Hc as [->|(? & _ & ->)]; set_solver.
  - intros t' pc Hpc. rewrite Eth, lookup_insert_Some in Hpc.
    destruct Hpc as [[<- ->]|[_ ?]]; [done|].
    destruct Hno as [[-> _]|(_ & ? & _)]; [eauto|done].
  - intros Hst. destruct (Hv Hst) as [Hold|?]; [|done].
    destruct Hno as [[-> _]|(_ & ? & _)]; [eauto|done].
Qed.

Lemma request_no_new s r :
  request_ok (sy_entry s) r → ∀ s', sy_entry s' = r.1 → no_new_operation s s'.
Proof.
  intros [_ He] s' Hs'. unfold no_new_operation, sy_state. rewrite Hs'.
  destruct He as [->|n ? [? ->]|n a ? [? ->]|n u ? [? ->]|x ? ->]; [by left|right..];
    (split; [done|split; [done|]]); eauto.
Qed.

Lemma continue_tame s' n : tame s' (continue_as n).
Proof. by destruct n. Qed.

Lemma Ids_request s t r :
  Ids s → request_ok (sy_entry s) r → Ids (proceed t r s).
Proof.
  intros HI Hr. eapply (Ids_step s); try done; [apply continue_tame| |by left].
  by eapply request_no_new.
Qed.

(** Lock sections of workers: the state stays, or becomes ready or ends. *)
Definition settles (e e' : SessionEntry) : Prop :=
  en_cancelled e' = en_cancelled e ∧
  (en_state e' = en_state e ∨
   match en_state e' with Ready _ | Terminating _ | Terminated _ => True | _ => False end).

Lemma settles_no_new s s' : settles (sy_entry s) (sy_entry s') → no_new_operation s s'.
Proof.
  intros [Hc Hs]. unfold no_new_operation, sy_state.
  destruct Hs as [Hs|Hs]; [by left|right]. destruct (en_state (sy_entry s')); naive_solver.
Qed.

Ltac solve_settles :=
  unfold settles; cbn;
  repeat first [progress cbn | case_match; simplify_eq/=];
  first [done | by split; [done|auto] | by split; [done|right]].

Lemma write_metadata_state f m e :
  en_state (write_metadata f m e).1 = en_state e ∧
  en_cancelled (write_metadata f m e).1 = en_cancelled e.
Proof. by destruct f as [[]|]. Qed.

Lemma write_metadata_settles f m e : settles e (write_metadata f m e).1.
Proof. destruct (write_metadata_state f m e). split; auto. Qed.

Lemma commit_failed_settles e : settles e (commit_failed e).
Proof. unfold commit_failed. solve_settles. Qed.

Lemma precommit_check_settles now e : settles e (precommit_check now e).1.
Proof. unfold precommit_check. solve_settles. Qed.

Lemma commit_election_settles now e : settles e (commit_election now e).1.
Proof. unfold commit_election, commit_failed. solve_settles. Qed.

Lemma initializer_cleanup_settles d e : settles e (initializer_cleanup d e).1.
Proof. unfold initializer_cleanup. solve_settles. Qed.

Lemma finish_action_settles now a r e : settles e (finish_action now a r e).1.
Proof. unfold finish_action. solve_settles. Qed.

Lemma finish_update_error_settles now u err e : settles e (finish_update_error now u err e).1.
Proof. unfold finish_update_error. solve_settles. Qed.

Lemma finish_update_success_settles now r n c d e :
  settles e (finish_update_success now r n c d e).1.1.
Proof. unfold finish_update_success. solve_settles. Qed.

Lemma cleanup_remove_settles o e : settles e (cleanup_remove o e).
Proof. unfold cleanup_remove. solve_settles. Qed.

Lemma settles_trans e1 e2 e3 : settles e1 e2 → settles e2 e3 → settles e1 e3.
Proof.
  unfold settles. intros [Hc1 Hs1] [Hc2 Hs2]. split; [congruence|].
  destruct Hs2 as [->|]; auto.
Qed.

#[export] Hint Resolve write_metadata_settles commit_failed_settles precommit_check_settles
  commit_election_settles initializer_cleanup_settles finish_action_settles
  finish_update_error_settles finish_update_success_settles cleanup_remove_settles : s2.

Lemma update_worker_panicked_no_new s s' :
  sy_entry s' = (update_worker_panicked (sy_entry s)).1 → no_new_operation s s'.
Proof.
  intros Hs'. unfold no_new_operation, sy_state. rewrite Hs'. unfold update_worker_panicked.
  destruct (en_registered (sy_entry s)); cbn; [|by left].
  destruct (en_state (sy_entry s)) as [| | |u|t|] eqn:E; cbn; auto.
  - right. split; [done|]. split; [done|]. eauto.
  - case_match; cbn; by left.
Qed.

Lemma settles_started s e' t pc :
  Ids s → sy_threads s !! t = Some (TInit pc) → settles (sy_entry s) e' →
  en_state e' ≠ Initializing false.
Proof.
  intros HI Ht [_ [->|Hs]]; [by eapply id_init|]. by destruct (en_state e').
Qed.

Lemma Ids_worker s s' t th :
  Ids s → tame s' th → sy_threads s' = <[t := th]> (sy_threads s) →
  sy_used s' = sy_used s → sy_final s' = sy_final s → sy_acks s' = sy_acks s →
  sy_acked s' = sy_acked s → sy_gave_up s' = sy_gave_up s →
  sy_services_started s' = sy_services_started s → no_new_operation s s' → Ids s'.
Proof. intros ???????? E ?. by eapply Ids_step; eauto; rewrite E; auto. Qed.

Lemma push_service_settles p e : settles e (push_service p e).
Proof. split; by auto. Qed.
#[export] Hint Resolve push_service_settles : s2.

Lemma Ids_init s t pc st s' :
  Ids s → sy_threads s !! t = Some (TInit pc) → exec_init t pc st s = Some s' → Ids s'.
Proof.
  intros HI Ht. set (e := sy_entry s) in *.
  assert (∀ e' th, settles e e' → tame (put_thread t th (put_entry e' s)) th →
    Ids (put_thread t th (put_entry e' s))) as Hgen.
  { intros e' th He Hth. eapply Ids_worker; eauto. by apply settles_no_new. }
  assert (∀ e' pc', settles e e' → Ids (put_thread t (TInit pc') (put_entry e' s))) as Hinit.
  { intros e' pc' He. apply Hgen; [done|]. cbn. by eapply (settles_started s). }
  destruct pc, st; cbn; try discriminate; fold e.
  - intros [= <-]. apply (Hinit e IFailing). by split; auto.
  - intros [= <-]. pose proof (Hinit (set_workspace true e) IRunning ltac:(by split; auto)) as H.
    unfold put_thread in H. cbn in H. by rewrite (insert_id _ _ _ Ht) in H.
  - destruct (write_metadata _ _ e) as [e' ok] eqn:Ew. intros [= <-].
    assert (settles e e') as He by (replace e' with (e', ok).1 by done; rewrite <-Ew; auto with s2).
    pose proof (settles_started _ _ _ _ HI Ht He) as Hns.
    apply (Ids_step s _ t (TInit (if ok then IRunning else IFailing))); try done;
      [by apply settles_no_new|by right].
  - destruct (sy_services_started s); [|done].
    destruct (write_metadata _ _ (push_service process e)) as [e' ok] eqn:Ew. intros [= <-].
    apply Hinit. eapply settles_trans; [apply push_service_settles|].
    replace e' with (e', ok).1 by done. rewrite <-Ew. auto with s2.
  - destruct (precommit_check _ e) as [e' ok] eqn:Ew. intros [= <-].
    apply Hinit. replace e' with (e', ok).1 by done. rewrite <-Ew. auto with s2.
  - destruct (write_metadata _ _ e) as [e' ok] eqn:Ew.
    assert (settles e e') as He by (replace e' with (e', ok).1 by done; rewrite <-Ew; auto with s2).
    destruct ok; intros [= <-]; apply Hinit; [done|].
    eapply settles_trans; [done|]. auto with s2.
  - destruct (commit_election _ e) as [e' ok] eqn:Ew. intros [= <-].
    assert (settles e e') as He by (replace e' with (e', ok).1 by done; rewrite <-Ew; auto with s2).
    destruct ok; [by apply Hgen|by apply Hinit].
  - intros [= <-]. apply (Hinit (remove_metadata e)). by split; auto.
  - intros [= <-]. unfold proceed. apply Hgen; [auto with s2|apply continue_tame].
Qed.

(** An action worker moves on. *)
Lemma Ids_action_move s s' t a pc pc' :
  Ids s → sy_threads s !! t = Some (TAction a pc) →
  sy_threads s' = <[t := TAction a pc']> (sy_threads s) →
  sy_entry s' = sy_entry s → sy_used s' = sy_used s → sy_acks s' = sy_acks s →
  sy_acked s' = sy_acked s → sy_services_started s' = sy_services_started s →
  sy_gave_up s ⊆ sy_gave_up s' → pc' ≠ ARunning →
  (sy_final s' = sy_final s ∨ pc = ARunning ∧ sy_final s' = {[ a ]} ∪ sy_final s) →
  (pc' = AFinishing → a ∈ sy_final s' ∨ a ∈ sy_acked s →
     a ∈ sy_gave_up s' ∨ a ∈ en_cancelled (sy_entry s)) →
  Ids s'.
Proof.
  intros [I1 I2 I3 I4 I5 I6 I7 I8 I9 I10 I11] Ht Eth Ee Eu Ea Ead Es Hg Hpc Hf Hfin.
  assert (∀ t' b q, sy_threads s' !! t' = Some (TAction b q) →
    t' = t ∧ b = a ∧ q = pc' ∨ t' ≠ t ∧ sy_threads s !! t' = Some (TAction b q)) as Hact.
  { intros t' b q. rewrite Eth, lookup_insert_Some. naive_solver. }
  assert (∀ t' b q, t' ≠ t → sy_threads s !! t' = Some (TAction b q) → b ≠ a) as Hother.
  { intros t' b q Hne Hb ->. apply Hne. eauto. }
  split; unfold sy_state; rewrite ?Ee, ?Eu, ?Ea, ?Ead, ?Es; try done.
  - intros t' b q [(-> & -> & ->)|[_ ?]]%Hact; eauto.
  - intros t1 t2 b q1 q2 [(-> & -> & ->)|[? H1]]%Hact [(-> & ? & ->)|[? H2]]%Hact; subst; auto;
      [by edestruct (Hother _ _ _ H H2)|by edestruct (Hother _ _ _ H H1)|eauto].
  - destruct Hf as [->|[_ ->]]; [done|]. pose proof (I1 _ _ _ Ht). set_solver.
  - intros t' b [(_ & _ & ?)|[Hne Hb]]%Hact; [by subst|].
    destruct (I4 _ _ Hb). split; [|done]. pose proof (Hother _ _ _ Hne Hb).
    destruct Hf as [->|[_ ->]]; set_solver.
  - intros b. destruct Hf as [->|[-> ->]]; [auto|]. destruct (I4 _ _ Ht). set_solver.
  - intros t' b [(-> & -> & <-)|[Hne Hb]]%Hact; [auto|]. pose proof (Hother _ _ _ Hne Hb).
    intros Ho. destruct (I9 _ _ Hb); [|set_solver|by right].
    destruct Hf as [<-|[_ Hf]]; [done|]. rewrite Hf in Ho. set_solver.
  - intros t' q. rewrite Eth, lookup_insert_Some. intros [[_ ?]|[_ ?]]; [done|eauto].
Qed.

Lemma Ids_action s t a pc st s' :
  Ids s → sy_threads s !! t = Some (TAction a pc) → exec_action t a pc st s = Some s' → Ids s'.
Proof.
  intros HI Ht.
  assert (∀ pc' g ar, sy_gave_up s ⊆ g → pc' = AFinishing →
    (a ∈ sy_final s ∨ a ∈ sy_acked s → a ∈ g ∨ a ∈ en_cancelled (sy_entry s)) →
    Ids (put_gave_up g (put_thread t (TAction a pc') (put_archives ar s)))) as Hgive.
  { intros pc' g ar Hg -> Hfin. eapply Ids_action_move; eauto. }
  assert (∀ pc', pc = ARunning → pc' = AFinishing → Ids (put_thread t (TAction a pc') s)) as Hfail.
  { intros pc' -> ->. destruct (id_running _ HI _ _ Ht) as [? Hack].
    eapply Ids_action_move; eauto; try done. intros _ [?|Ha]; [done|].
    apply (id_acked _ HI) in Ha. congruence. }
  destruct pc, st; cbn; try discriminate.
  - intros [= <-]. by apply Hfail.
  - destruct (action_can_publish _ _ _); intros [= <-]; [|by apply Hfail].
    eapply Ids_action_move; eauto; try done; by right.
  - destruct (sy_acks s !! a) as [[]|] eqn:Hk; intros [= <-].
    + eapply Ids_worker; eauto; try done. by apply settles_no_new; split; auto.
    + apply (Hgive _ (sy_gave_up s)); [done..|]. intros [Hf|Ha].
      * apply (id_final _ HI) in Hf. congruence.
      * apply (id_acked _ HI) in Ha. congruence.
  - destruct (is_cancelled a _) eqn:Hc; intros [= <-]. unfold is_cancelled in Hc. breflect.
    apply (Hgive _ (sy_gave_up s)); auto.
  - case_bool_decide; [done|]. destruct (sy_acks s !! a) eqn:Hk; intros [= <-].
    apply (Hgive _ (sy_gave_up s)); [done..|]. intros [?|Ha]; [done|].
    apply (id_acked _ HI) in Ha. congruence.
  - intros [= <-]. apply (Hgive _ ({[ a ]} ∪ sy_gave_up s)); [set_solver|done|set_solver].
  - intros [= <-]. eapply (Ids_worker s); eauto using continue_tame.
    apply settles_no_new. apply finish_action_settles.
Qed.

Lemma Ids_update s t r pc st s' :
  Ids s → sy_threads s !! t = Some (TUpdate r pc) → exec_update t r pc st s = Some s' → Ids s'.
Proof.
  intros HI Ht.
  assert (∀ pc', Ids (put_thread t (TUpdate r pc') s)) as Hmove.
  { intros pc'. eapply Ids_worker; eauto; try done. by apply settles_no_new; split; auto. }
  assert (∀ e' n, no_new_operation s (put_entry e' s) → Ids (proceed t (e', n) s)) as Hgo.
  { intros e' n Hno. by eapply (Ids_worker s _ t); eauto using continue_tame. }
  unfold exec_update. destruct (checked_add (rv_base_revision r) 1) as [next_revision|], pc, st;
    try discriminate.
  - destruct (ue_rollback_proven err); [done|]. intros [= <-]. auto.
  - intros [= <-].
    assert (Ids (put_thread t (TUpdate r URunning) (put_entry
      (write_metadata fault (durable_metadata (metadata_version (sy_entry s)) next_revision DReady
         (sy_entry s)) (sy_entry s)).1 s))) as H.
    { eapply Ids_worker; eauto; try done. apply settles_no_new, write_metadata_settles. }
    unfold put_thread in H. cbn in H. by rewrite (insert_id _ _ _ Ht) in H.
  - intros [= <-]. auto.
  - intros [= <-]. auto.
  - intros [= <-]. auto.
  - destruct (finish_update_success _ _ _ _ _ _) as [[e' n] res] eqn:E. intros [= <-].
    apply Hgo, settles_no_new. cbn. replace e' with (e', n, res).1.1 by done. rewrite <-E. auto with s2.
  - intros [= <-]. rewrite (surjective_pairing (finish_update_error _ _ _ _)).
    apply Hgo, settles_no_new, finish_update_error_settles.
  - intros [= <-]. rewrite (surjective_pairing (update_worker_panicked _)).
    apply Hgo. by apply update_worker_panicked_no_new.
  - destruct (ue_rollback_proven err); [done|]. intros [= <-]. auto.
  - intros [= <-]. rewrite (surjective_pairing (finish_update_error _ _ _ _)).
    apply Hgo, settles_no_new, finish_update_error_settles.
  - intros [= <-]. rewrite (surjective_pairing (update_worker_panicked _)).
    apply Hgo. by apply update_worker_panicked_no_new.
Qed.

Lemma Ids_cleanup s t x pc st s' :
  Ids s → sy_threads s !! t = Some (TCleanup x pc) → exec_cleanup t x pc st s = Some s' → Ids s'.
Proof.
  intros HI Ht.
  assert (∀ f pc', settles (sy_entry s) (f (sy_entry s)) →
    Ids (put_thread t (TCleanup x pc') (modify f s))) as Hgo.
  { intros f pc' Hf. eapply Ids_worker; eauto; try done. by apply settles_no_new. }
  destruct pc, st; cbn; try discriminate; intros [= <-].
  - apply Hgo. by split; auto.
  - apply (Hgo id). by split; auto.
  - apply Hgo. auto with s2.
  - apply Hgo. by split; auto.
  - apply Hgo. by split; auto.
  - apply Hgo. by split; [|right].
Qed.

(** A new operation is admitted: its id is fresh and the session was ready. *)
Lemma Ids_admit s s' t th a :
  Ids s → sy_threads s !! t = None → (a ∉ sy_used s) →
  (th = TAction a ARunning ∧ sy_state s' = Action a ∨
   (∃ r pc, th = TUpdate r pc) ∧ sy_state s' = Updating a) →
  sy_threads s' = <[t := th]> (sy_threads s) →
  sy_used s' = {[ a ]} ∪ sy_used s → sy_final s' = sy_final s → sy_acks s' = sy_acks s →
  sy_acked s' = sy_acked s → sy_gave_up s' = sy_gave_up s →
  en_cancelled (sy_entry s') = en_cancelled (sy_entry s) →
  Ids s'.
Proof.
  intros [I1 I2 I3 I4 I5 I6 I7 I8 I9 I10 I11] Hnew Hfresh Hth Eth Eu Ef Ea Ead Eg Ec.
  assert (∀ t' b q, sy_threads s' !! t' = Some (TAction b q) →
    t' = t ∧ b = a ∧ q = ARunning ∨ sy_threads s !! t' = Some (TAction b q)) as Hact.
  { intros t' b q. rewrite Eth, lookup_insert_Some. intros [[<- ->]|[? ?]]; [|auto].
    destruct Hth as [[? _]|[(? & ? & ?) _]]; naive_solver. }
  assert (a ∉ sy_acked s ∪ en_cancelled (sy_entry s) ∪ sy_final s ∪ dom (sy_acks s)) as Ha
    by (intros Ha; by apply Hfresh, I3).
  rewrite !not_elem_of_union, not_elem_of_dom in Ha. destruct Ha as [[[Ha1 Ha2] Ha3] Ha4].
  split; rewrite ?Eu, ?Ef, ?Ea, ?Ead, ?Eg, ?Ec; try done.
  - intros t' b q [(-> & -> & ->)|?]%Hact; [set_solver|]. apply elem_of_union_r. eauto.
  - intros t1 t2 b q1 q2 [(-> & -> & ->)|H1]%Hact [(-> & ? & ->)|H2]%Hact; subst; eauto.
    + by destruct Hfresh; eauto.
    + by destruct Hfresh; eauto.
  - etrans; [exact I3|apply union_subseteq_r].
  - intros t' b [(-> & -> & _)|?]%Hact; eauto.
  - intros b Hb. destruct Hth as [[_ E]|[_ E]]; rewrite E in Hb; destruct Hb as [[= <-]|[= <-]]; set_solver.
  - intros t' b [(_ & _ & ?)|?]%Hact; [done|]. eauto.
  - intros t' q _ E. destruct Hth as [[_ ?]|[_ ?]]; congruence.
  - intros _ E. destruct Hth as [[_ ?]|[_ ?]]; congruence.
Qed.

(** The three outcomes of an acknowledgement. *)
Lemma acknowledge_cases now a e e' accepted :
  acknowledge_action_delivery now a e = (e', accepted) →
  same_resources e e' ∧
  ((e' = e ∧ accepted = false) ∨
   (en_state e = Action a ∧ en_registered e = true ∧ en_state e' = Ready now ∧
    en_cancelled e' = en_cancelled e ∧ accepted = true ∧ now < en_deadline e) ∨
   (en_state e = Action a ∧ terminating ActionOwner e' ∧
    en_cancelled e' = {[ a ]} ∪ en_cancelled e ∧ accepted = false)).
Proof.
  unfold acknowledge_action_delivery. intros E.
  destruct (en_registered e) eqn:Hr; cbn in E; [|by simplify_eq; split; [by repeat split|auto]].
  destruct (en_state e) as [| |b| | |] eqn:Est;
    try (by simplify_eq; split; [by repeat split|auto]).
  case_bool_decide; [subst b|by simplify_eq; split; [by repeat split|auto]].
  destruct (_ && _) eqn:Hb; simplify_eq/=; (split; [by repeat split|right]); [left|right].
  - breflect. by split_and!.
  - split; [done|]. split; [by eexists|done].
Qed.

(** One operation's acknowledgement is recorded. *)
Lemma Ids_ack s s' a accepted :
  Ids s → a ∈ sy_final s →
  sy_threads s' = sy_threads s → sy_used s' = sy_used s → sy_gave_up s' = sy_gave_up s →
  sy_services_started s' = sy_services_started s →
  sy_final s' = sy_final s ∖ {[ a ]} → sy_acks s' = <[a := accepted]> (sy_acks s) →
  sy_acked s' = (if accepted : bool then {[ a ]} ∪ sy_acked s else sy_acked s) →
  no_new_operation s s' → (accepted = true → sy_state s = Action a ∧ sy_state s' ≠ Action a ∧
    en_cancelled (sy_entry s') = en_cancelled (sy_entry s)) →
  Ids s'.
Proof.
  intros [I1 I2 I3 I4 I5 I6 I7 I8 I9 I10 I11] Hfin Eth Eu Eg Es Ef Ea Ead Hno Hacc.
  assert (sy_acks s !! a = None) as Hnone by auto.
  assert (a ∈ sy_used s) as Hu by (apply I3; set_solver).
  assert (a ∉ sy_acked s) as Hna by (rewrite I6; congruence).
  assert (∀ b, b ∈ sy_acked s' → b = a ∧ accepted = true ∨ b ∈ sy_acked s) as Had.
  { rewrite Ead. destruct accepted; set_solver. }
  pose proof (no_new_cancelled _ _ Hno) as Hc.
  assert (∀ b, b ∈ en_cancelled (sy_entry s) → b ∈ en_cancelled (sy_entry s')) as Hcm.
  { destruct Hc as [->|(? & _ & ->)]; set_solver. }
  split; rewrite ?Eth, ?Eu, ?Eg, ?Es, ?Ef, ?Ea; try done.
  - intros b Hb. rewrite dom_insert_L in Hb. rewrite !elem_of_union, elem_of_singleton in Hb.
    assert (∀ b, b ∈ en_cancelled (sy_entry s') → b ∈ sy_used s) as Hcu.
    { intros c Hin. destruct Hc as [Hc|(d & Hd & Hc)]; rewrite Hc in Hin; [apply I3; set_solver|].
      apply I8 in Hd as [? _]. apply elem_of_union in Hin as [->%elem_of_singleton|]; [done|].
      apply I3; set_solver. }
    destruct Hb as [[[Hb|?]|Hb]|[->|Hb]]; [|by auto|apply I3; set_solver|done|apply I3; set_solver].
    apply Had in Hb as [[-> _]|]; [done|apply I3; set_solver].
  - intros t b Ht. destruct (I4 _ _ Ht). split; [set_solver|].
    rewrite lookup_insert_ne by (intros <-; done). done.
  - intros b Hb. rewrite lookup_insert_ne by set_solver. set_solver.
  - intros b. rewrite Ead. destruct (decide (b = a)) as [->|].
    + rewrite lookup_insert_eq. destruct accepted; [|naive_solver]. set_solver.
    + rewrite lookup_insert_ne, <-I6 by done. destruct accepted; set_solver.
  - intros b [[-> Hacc']|Hb]%Had.
    + destruct (Hacc Hacc') as (Hs & _ & ->). apply I8. by left.
    + destruct Hc as [->|(d & Hd & ->)]; [auto|]. apply I8 in Hd as (_ & ? & _).
      pose proof (I7 _ Hb). set_solver.
  - intros b Hb. destruct Hno as [[Hs Hcc]|(Hs & _)].
    + rewrite Hcc. destruct (I8 b) as (? & ? & ?); [by rewrite <-Hs|]. split_and!; [done| |done].
      intros [[-> Hacc']|?]%Had; [|done]. destruct (Hacc Hacc') as (Hs1 & Hs2 & _). congruence.
    + destruct (Hs b). by destruct Hb.
  - intros t b Ht Hb. assert (b ∈ sy_final s ∨ b ∈ sy_acked s) as Hold.
    { destruct Hb as [?|[[-> _]|]%Had]; set_solver. }
    destruct (I9 _ _ Ht Hold); auto.
  - intros t pc Ht. destruct Hno as [[-> _]|(_ & ? & _)]; [eauto|done].
  - intros Hst. destruct Hno as [[-> _]|(_ & ? & _)]; [eauto|done].
Qed.

(** Dropping the stream forgets a final event. *)
Lemma Ids_forget s s' a :
  Ids s →
  sy_threads s' = sy_threads s → sy_used s' = sy_used s → sy_gave_up s' = sy_gave_up s →
  sy_services_started s' = sy_services_started s →
  sy_final s' = sy_final s ∖ {[ a ]} → sy_acks s' = sy_acks s → sy_acked s' = sy_acked s →
  no_new_operation s s' → Ids s'.
Proof.
  intros [I1 I2 I3 I4 I5 I6 I7 I8 I9 I10 I11] Eth Eu Eg Es Ef Ea Ead Hno.
  pose proof (no_new_cancelled _ _ Hno) as Hc.
  split; rewrite ?Eth, ?Eu, ?Eg, ?Es, ?Ef, ?Ea, ?Ead; try done.
  - intros b Hb. rewrite !elem_of_union in Hb.
    destruct Hb as [[[Hb|Hb]|Hb]|Hb]; [apply I3; set_solver| |apply I3; set_solver|apply I3; set_solver].
    destruct Hc as [Hc|(d & Hd & Hc)]; rewrite Hc in Hb; [apply I3; set_solver|].
    apply I8 in Hd as [? _]. apply elem_of_union in Hb as [->%elem_of_singleton|]; [done|].
    apply I3; set_solver.
  - intros t b Ht. destruct (I4 _ _ Ht). set_solver.
  - intros b Hb. apply I5. set_solver.
  - intros b Hb. destruct Hc as [->|(d & Hd & ->)]; [auto|]. apply I8 in Hd as (_ & ? & _).
    pose proof (I7 _ Hb). set_solver.
  - intros b Hb. destruct Hno as [[Hs Hcc]|(Hs & _)].
    + rewrite Hcc. apply I8. by rewrite <-Hs.
    + destruct (Hs b). by destruct Hb.
  - intros t b Ht Hb. destruct (I9 _ _ Ht); [set_solver|auto|right].
    destruct Hc as [->|(? & _ & ->)]; set_solver.
  - intros t pc Ht. destruct Hno as [[-> _]|(_ & ? & _)]; [eauto|done].
  - intros Hst. destruct Hno as [[-> _]|(_ & ? & _)]; [eauto|done].
Qed.

Lemma begin_initialization_cases now e e' begun n :
  begin_initialization now e = (e', begun, n) →
  (begun = true ∧ n = Return ∧ en_state e = Initializing false ∧
   e' = set_state (Initializing true) e) ∨
  (begun = false ∧ request_ok e (e', n)).
Proof.
  unfold begin_initialization. intros E.
  destruct (en_state e) as [[]| | | | |] eqn:Est; simplify_eq/=;
    try (right; split; [done|]; split; [by repeat split|by apply req_none]).
  destruct (_ && _); simplify_eq/=; [by left|right].
  split; [done|]. split; [by repeat split|]. apply req_take; auto.
Qed.

Lemma start_action_cases now name a e e' res :
  start_action now name a e = (e', res) →
  (∃ err, res = Err err ∧ e' = e) ∨
  (∃ r l, res = Ok r ∧ sr_action_id r = a ∧ en_state e = Ready l ∧ now < en_deadline e ∧
     en_registered e = true ∧ e' = set_state (Action a) e).
Proof.
  unfold start_action. intros E.
  repeat case_match; simplify_eq/=; breflect; eauto 10.
Qed.

Lemma start_update_cases now rid d base u e e' res :
  start_update now rid d base u e = (e', res) →
  (e' = e ∧ ∀ r, res ≠ Ok (Start r)) ∨
  (∃ r l, res = Ok (Start r) ∧ rv_update_id r = u ∧ rv_base_revision r = base ∧
     en_revision e = base ∧ en_state e = Ready l ∧ now < en_deadline e ∧
     en_registered e = true ∧ e' = set_state (Updating u) e).
Proof.
  unfold start_update. intros E.
  repeat case_match; simplify_eq/=; breflect; try (by left); right; eauto 10.
  all: do 2 eexists; split_and!; done.
Qed.

Lemma fresh_thread_None t s : fresh_thread t s = true ↔ sy_threads s !! t = None.
Proof. unfold fresh_thread. by destruct (sy_threads s !! t). Qed.

Lemma request_Some t r s s' :
  request t r s = Some s' ↔ sy_threads s !! t = None ∧ s' = proceed t r s.
Proof.
  unfold request. rewrite <-fresh_thread_None. destruct (fresh_thread t s); naive_solver.
Qed.

Lemma same_entry_no_new s s' : sy_entry s' = sy_entry s → no_new_operation s s'.
Proof. intros E. left. unfold sy_state. by rewrite E. Qed.

(** The requests: every event whose thread exists only for it. *)
Definition request_of (ev : event) (s : Sys) : option (nat * (SessionEntry * next)) :=
  let e := sy_entry s in
  match ev with
  | CancelUpload t => Some (t, cancel_upload e)
  | Disconnect t => Some (t, disconnect e)
  | Stop t => Some (t, match stop e with (e', Ok n) => (e', n) | (e', Err _) => (e', Return) end)
  | ExpireLifetime t => if en_deadline e <=? sy_now s then Some (t, expire_lifetime e) else None
  | ExpireIdle t => Some (t, expire_idle (sy_now s) (idle_timeout e) e)
  | ServiceFailed t => if sy_services_started s then Some (t, service_failed e) else None
  | _ => None
  end.

Lemma request_of_exec ev s t r :
  request_of ev s = Some (t, r) → exec ev s = request t r s.
Proof.
  destruct ev; cbn; intros E; repeat case_match; simplify_eq/=; try done;
    by destruct (stop (sy_entry s)) as [? []].
Qed.

Lemma request_of_ok ev s t r :
  Ids s → request_of ev s = Some (t, r) → request_ok (sy_entry s) r.
Proof.
  intros HI. destruct ev; cbn; try discriminate.
  - intros [= <- <-]. apply cancel_upload_ok.
  - intros [= <- <-]. apply disconnect_ok.
  - intros [= <- <-]. apply stop_ok.
  - destruct (_ <=? _); [|done]. intros [= <- <-]. apply expire_lifetime_ok.
  - intros [= <- <-]. apply expire_idle_ok.
  - destruct (sy_services_started s) eqn:?; [|done]. intros [= <- <-].
    by apply service_failed_ok, (id_services _ HI).
Qed.

Lemma Ids_exec ev s s' : Ids s → exec ev s = Some s' → Ids s'.
Proof.
  intros HI Hex. destruct (request_of ev s) as [[t r]|] eqn:Hreq.
  { rewrite (request_of_exec _ _ _ _ Hreq) in Hex. apply request_Some in Hex as [_ ->].
    apply Ids_request; [done|]. by eapply request_of_ok. }
  destruct ev; cbn in Hreq; try done.
  - simplify_eq/=. destruct HI. by split.
  - cbn in Hex. destruct (begin_initialization _ _) as [[e' begun] n] eqn:E.
    destruct (fresh_thread t s); [|done]. simplify_eq/=.
    apply begin_initialization_cases in E as [(-> & -> & Hs & ->)|[-> Hr]].
    + apply (Ids_step s _ t (TInit IRunning)); try done; [|by left].
      right. split; [done|]. split; [done|]. by left.
    + by apply Ids_request.
  - cbn in Hex. by destruct (_ <=? _).
  - cbn in Hex. by destruct (sy_services_started s).
  - cbn in Hex. destruct (fresh_thread t s) eqn:Hf; [|done]. apply fresh_thread_None in Hf.
    case_bool_decide as Hu; [done|]. cbn in Hex.
    destruct (start_action _ _ _ _) as [e' res] eqn:E.
    apply start_action_cases in E as [(err & -> & ->)|(r & l & -> & <- & Hs & _ & _ & ->)]; simplify_eq.
    + apply (Ids_worker s _ t TDone); try done. by apply same_entry_no_new.
    + eapply (Ids_admit s _ t); try done. by left.
  - cbn in Hex. destruct (fresh_thread t s) eqn:Hf; [|done]. apply fresh_thread_None in Hf.
    case_bool_decide as Hu; [done|]. cbn in Hex.
    destruct (start_update _ _ _ _ _ _) as [e' res] eqn:E.
    apply start_update_cases in E as [[-> Hno]|(r & l & -> & <- & _ & _ & Hs & _ & _ & ->)].
    + assert (s' = put_thread t TDone (put_entry (sy_entry s) s)) as ->.
      { destruct res as [[r|]|]; simplify_eq; try done. by destruct (Hno r). }
      apply (Ids_worker s _ t TDone); try done. by apply same_entry_no_new.
    + simplify_eq. eapply (Ids_admit s _ t); try done. right. eauto.
  - cbn in Hex. case_bool_decide as Hfin; [|done].
    destruct (acknowledge_action_delivery _ _ _) as [e' accepted] eqn:E. simplify_eq.
    apply acknowledge_cases in E as [_ [[-> ->]|[(Hs & _ & Hs' & Hc & -> & _)|(Hs & [x Hs'] & Hc & ->)]]].
    + eapply (Ids_ack s _ action_id false); try done. by apply same_entry_no_new.
    + eapply (Ids_ack s _ action_id true); try done.
      * right. unfold sy_state. cbn. rewrite Hs'. split; [done|]. split; [done|]. by left.
      * unfold sy_state. cbn. rewrite Hs'. done.
    + eapply (Ids_ack s _ action_id false); try done.
      right. unfold sy_state. cbn. rewrite Hs'. split; [done|]. split; [done|]. eauto.
  - simplify_eq/=. eapply (Ids_forget s _ action_id); try done.
    by eapply request_no_new; [apply (disconnect_action_ok action_id)|].
  - cbn in Hex. destruct (sy_threads s !! t) as [[]|] eqn:Ht; try done. by eapply Ids_init.
  - cbn in Hex. destruct (sy_threads s !! t) as [[]|] eqn:Ht; try done. by eapply Ids_action.
  - cbn in Hex. destruct (sy_threads s !! t) as [[]|] eqn:Ht; try done. by eapply Ids_update.
  - cbn in Hex. destruct (sy_threads s !! t) as [[]|] eqn:Ht; try done. by eapply Ids_cleanup.
  - cbn in Hex. destruct (sy_threads s !! t) as [[]|] eqn:Ht; try done.
    destruct (en_state (sy_entry s)); simplify_eq/=.
    eapply (Ids_worker s _ t (TStopped _)); try done. by apply same_entry_no_new.
Qed.
