(* ===== verification/SessionOwner.v ===== *)
(** Who finishes a session: in every reachable state a thread exists that will
    end the operation or the session in progress, and, unless an
    acknowledgement raced with its worker's deadline, exactly one. *)
From stdpp Require Import base option strings numbers gmap pretty relations list.
From S2P Require Import Prelude RustStr Protocol Config Sessions SessionSystem SessionInv.

Local Open Scope N_scope.

Definition ended (st : SessionState) : Prop :=
  match st with Terminating _ | Terminated _ => True | _ => False end.

Definition clean_done (pc : clean_pc) : bool :=
  match pc with CDone _ => true | _ => false end.
Definition is_cleaner (th : thread) : bool :=
  match th with TCleanup _ _ => true | _ => false end.

(** The thread has to move the session on from this state. *)
Definition responsible (acked : gset string) (st : SessionState) (th : thread) : Prop :=
  match st with
  | Initializing true => match th with TInit _ => True | _ => False end
  | Action a => match th with TAction b _ => b = a ∧ a ∉ acked | _ => False end
  | Updating u => match th with TUpdate r _ => rv_update_id r = u | _ => False end
  | Terminating t =>
      match th with
      | TInit _ => tm_owner t = Initializer
      | TAction a _ => tm_owner t = ActionOwner ∧ a ∉ acked
      | TUpdate _ _ => tm_owner t = UpdateOwner
      | TCleanup _ pc => clean_done pc = false
      | _ => False
      end
  | _ => False
  end.

Definition needs (st : SessionState) : Prop :=
  match st with
  | Initializing true | Action _ | Updating _ | Terminating _ => True
  | _ => False
  end.

Record Resp (s : Sys) : Prop := {
  rs_exists : needs (sy_state s) →
    ∃ t th, sy_threads s !! t = Some th ∧ responsible (sy_acked s) (sy_state s) th;
  rs_ended : ∀ t x pc, sy_threads s !! t = Some (TCleanup x pc) → ended (sy_state s);
  rs_done : ∀ t x response, sy_threads s !! t = Some (TCleanup x (CDone response)) →
    ∃ r, sy_state s = Terminated r;
  rs_registered : en_registered (sy_entry s) = false →
    (∃ r, sy_state s = Terminated r) ∨
    ∃ t x pc, sy_threads s !! t = Some (TCleanup x pc) ∧ clean_done pc = false;
}.

Lemma Resp_initial now e :
  en_state e = Initializing false → en_registered e = true → Resp (initial now e).
Proof. intros Hs Hr. split; unfold sy_state; cbn; rewrite ?Hs, ?Hr; done. Qed.

(** How a step moves the responsibility from the thread's old position to its
    new one. *)
Definition hands_over (acked : gset string) (st st' : SessionState) (old : option thread)
    (th' : thread) : Prop :=
  (ended st → ended st' ∧ ((∃ r, st = Terminated r) → ∃ r, st' = Terminated r)) ∧
  (is_cleaner th' = true → ended st' ∧ ∀ x r, th' ≠ TCleanup x (CDone r)) ∧
  (((needs st' → needs st) ∧ (∀ th, responsible acked st th → responsible acked st' th) ∧
    ∀ th, old = Some th → responsible acked st th → responsible acked st' th') ∨
   responsible acked st' th' ∨ ¬ needs st').

Lemma Resp_worker s s' t old th' :
  Resp s → sy_threads s !! t = old → (∀ x pc, old ≠ Some (TCleanup x pc)) →
  sy_threads s' = <[t := th']> (sy_threads s) → sy_acked s' = sy_acked s →
  en_registered (sy_entry s') = en_registered (sy_entry s) →
  hands_over (sy_acked s) (sy_state s) (sy_state s') old th' → Resp s'.
Proof.
  intros [R1 R2 R2' R3] Hold Hnc Eth Ea Er (Hend & Hcl & Hmv).
  assert (∀ t' x pc, sy_threads s !! t' = Some (TCleanup x pc) →
    sy_threads s' !! t' = Some (TCleanup x pc)) as Hkeep.
  { intros t' x pc Ht'. rewrite Eth, lookup_insert_ne; [done|]. intros <-.
    rewrite Ht' in Hold. by destruct (Hnc x pc). }
  split; rewrite ?Ea, ?Er.
  - intros Hn. destruct Hmv as [(Hs & Hm & Hr)|[Hr|?]]; [| |done].
    + destruct (R1 (Hs Hn)) as (t' & th & Ht' & Hth).
      destruct (decide (t' = t)) as [->|].
      * exists t, th'. rewrite Eth, lookup_insert_eq. split; [done|]. apply (Hr th); congruence.
      * exists t', th. rewrite Eth, lookup_insert_ne by done. auto.
    + exists t, th'. by rewrite Eth, lookup_insert_eq.
  - intros t' x pc. rewrite Eth, lookup_insert_Some. intros [[_ ->]|[_ ?]]; [by apply Hcl|].
    apply Hend. eauto.
  - intros t' x r. rewrite Eth, lookup_insert_Some. intros [[_ ->]|[_ Ht']].
    + destruct Hcl as [_ H]; [done|]. by destruct (H x r).
    + pose proof (R2 _ _ _ Ht') as He. apply Hend in He as [_ He]. eauto.
  - intros Hf. destruct (R3 Hf) as [[r Hr]|(t' & x & pc & Ht' & Hpc)].
    + left. assert (ended (sy_state s)) as He by by rewrite Hr. apply Hend in He as [_ He]. eauto.
    + right. eauto 10.
Qed.

Lemma same_hands_over acked st old th' :
  is_cleaner th' = false → (∀ th, old = Some th → responsible acked st th → responsible acked st th') →
  hands_over acked st st old th'.
Proof. intros Hc Hr. split; [by auto|]. split; [by rewrite Hc|]. left. auto. Qed.

Lemma request_hands_over acked e r :
  request_ok e r → (∀ a, en_state e = Action a → a ∉ acked) →
  hands_over acked (en_state e) (en_state r.1) None (continue_as r.2).
Proof.
  intros [_ He] Ha. destruct He as [->|n Hs [x ->] _ Hn|n a Hs [x ->] _ Hn|n u Hs [x ->] _ Hn|x Hs -> _].
  - by apply same_hands_over.
  - rewrite Hs. split; [done|]. split; [by destruct n|]. left.
    split; [done|]. split; [|done]. by intros [].
  - rewrite Hs. split; [done|]. split; [by destruct n|]. left.
    split; [done|]. split; [|done]. intros []; try done. cbn. naive_solver.
  - rewrite Hs. split; [done|]. split; [by destruct n|]. left.
    split; [done|]. split; [|done]. by intros [].
  - split; [by destruct Hs as [->|[? ->]]|]. split; [done|]. right. by left.
Qed.

Lemma Resp_request s t r :
  Ids s → Resp s → sy_threads s !! t = None → request_ok (sy_entry s) r → Resp (proceed t r s).
Proof.
  intros HI HR Ht Hr. eapply (Resp_worker s _ t None); try done.
  - by destruct Hr as [(_ & _ & _ & _ & ? & _) _].
  - apply (request_hands_over _ (sy_entry s) r); [done|]. intros a Hs. apply (id_current _ HI). by left.
Qed.

Lemma commit_failed_cases e :
  (commit_failed e = e ∧ is_initializing (en_state e) = false) ∨
  (is_initializing (en_state e) = true ∧ terminating Initializer (commit_failed e)).
Proof.
  unfold commit_failed. destruct (is_initializing _); [right|left]; [|done].
  split; [done|]. by eexists.
Qed.

Lemma precommit_check_cases now e :
  let '(e', ok) := precommit_check now e in
  (e' = e ∧ (ok = true → is_initializing (en_state e) = true)) ∨
  (is_initializing (en_state e) = true ∧ terminating Initializer e' ∧ ok = false).
Proof.
  unfold precommit_check. destruct (is_initializing (en_state e)) eqn:Hi; cbn; [|by left].
  destruct (_ || _); [right|by left]. split; [done|]. split; [by eexists|done].
Qed.

Lemma commit_election_cases now e :
  let '(e', ready) := commit_election now e in
  (ready = true ∧ en_state e' = Ready now ∧ is_initializing (en_state e) = true ∧ now < en_deadline e) ∨
  (ready = false ∧ e' = commit_failed e).
Proof.
  unfold commit_election. destruct (_ && _) eqn:E; [left|right]; [breflect|done]. by split_and!.
Qed.

Lemma initializer_cleanup_cases x e :
  let '(e', n) := initializer_cleanup x e in
  (is_initializing (en_state e) = true ∧ terminating Initializer e' ∧ n = Cleanup x) ∨
  (e' = e ∧ terminating Initializer e ∧ is_cleanup n = true) ∨
  (e' = e ∧ n = Return ∧ is_initializing (en_state e) = false ∧ ¬ terminating Initializer e).
Proof.
  unfold initializer_cleanup, terminating.
  destruct (en_state e) as [| | | |[y o]|]; cbn; try (right; right; split_and!; [done..|naive_solver]).
  - left. split_and!; [done|by eexists|done].
  - case_bool_decide; cbn in *; subst; right; [left|right]; split_and!; try done; [by eexists|naive_solver].
Qed.

Lemma not_initializing_ended st : ended st → is_initializing st = false.
Proof. by destruct st. Qed.

(** * One owner *)

(** The thread will still act on the session: every worker and cleaner, except
    an action worker whose delivery was acknowledged. *)
Definition obliged (acked : gset string) (th : thread) : Prop :=
  match th with
  | TInit _ | TUpdate _ _ | TCleanup _ _ => True
  | TAction a _ => a ∉ acked
  | _ => False
  end.

Definition matches (acked : gset string) (st : SessionState) (th : thread) : Prop :=
  responsible acked st th ∨ ∃ x r, st = Terminated r ∧ th = TCleanup x (CDone r).

(** At most one obliged thread, and it fits the state. *)
Definition Own (s : Sys) : Prop :=
  ∀ t th, sy_threads s !! t = Some th → obliged (sy_acked s) th →
    matches (sy_acked s) (sy_state s) th ∧
    ∀ t' th', sy_threads s !! t' = Some th' → obliged (sy_acked s) th' → t' = t.

Lemma Own_replace s s' t th th' :
  Own s → sy_threads s !! t = Some th → obliged (sy_acked s) th →
  sy_threads s' = <[t := th']> (sy_threads s) → sy_acked s' = sy_acked s →
  (matches (sy_acked s) (sy_state s) th → obliged (sy_acked s) th' →
     matches (sy_acked s) (sy_state s') th') →
  Own s'.
Proof.
  intros HO Ht Hob Eth Ea Hm. destruct (HO _ _ Ht Hob) as [Hma Hu].
  assert (∀ t1 th1, sy_threads s' !! t1 = Some th1 → obliged (sy_acked s) th1 → t1 = t ∧ th1 = th').
  { intros t1 th1. rewrite Eth, lookup_insert_Some. intros [[<- <-]|[Hne H1]] Ho1; [done|].
    destruct Hne. symmetry. eauto. }
  intros t1 th1 H1 Ho1. rewrite Ea in Ho1. destruct (H _ _ H1 Ho1) as [-> ->]. rewrite Ea.
  split; [auto|]. intros t2 th2 H2 Ho2. by destruct (H _ _ H2 Ho2).
Qed.

(** A thread that is not obliged, before and after. *)
Lemma Own_idle s s' t th' :
  Own s → (∀ th, sy_threads s !! t = Some th → ¬ obliged (sy_acked s) th) →
  ¬ obliged (sy_acked s) th' →
  sy_threads s' = <[t := th']> (sy_threads s) → sy_acked s' = sy_acked s →
  (∀ th, matches (sy_acked s) (sy_state s) th → matches (sy_acked s) (sy_state s') th) →
  Own s'.
Proof.
  intros HO Ht Hno Eth Ea Hm.
  assert (∀ t1 th1, sy_threads s' !! t1 = Some th1 → obliged (sy_acked s) th1 →
    sy_threads s !! t1 = Some th1) as Hold.
  { intros t1 th1. rewrite Eth, lookup_insert_Some. by intros [[_ <-]|[_ ?]] ?. }
  intros t1 th1 H1 Ho1. rewrite Ea in Ho1 |- *. apply Hold in H1; [|done].
  destruct (HO _ _ H1 Ho1) as [? Hu]. split; [auto|].
  intros t2 th2 H2 Ho2. apply (Hu _ th2); [by apply Hold|done].
Qed.

(** A new thread where no obliged one can be. *)
Lemma Own_new s s' t th' :
  Own s → (∀ th, ¬ matches (sy_acked s) (sy_state s) th) →
  sy_threads s' = <[t := th']> (sy_threads s) → sy_acked s' = sy_acked s →
  matches (sy_acked s) (sy_state s') th' → Own s'.
Proof.
  intros HO Hnone Eth Ea Hm.
  assert (∀ t1 th1, sy_threads s' !! t1 = Some th1 → obliged (sy_acked s) th1 → t1 = t ∧ th1 = th').
  { intros t1 th1. rewrite Eth, lookup_insert_Some. intros [[<- <-]|[_ H1]] Ho1; [done|].
    destruct (HO _ _ H1 Ho1) as [Hx _]. by destruct (Hnone th1). }
  intros t1 th1 H1 Ho1. rewrite Ea in Ho1 |- *. destruct (H _ _ H1 Ho1) as [-> ->].
  split; [done|]. intros t2 th2 H2 Ho2. by destruct (H _ _ H2 Ho2).
Qed.

Lemma ready_no_match acked st th :
  (st = Initializing false ∨ ∃ l, st = Ready l) → ¬ matches acked st th.
Proof. intros [->|[l ->]] [[]|(?&?&?&?)]; done. Qed.

Lemma request_own s t r :
  Ids s → Own s → sy_threads s !! t = None → request_ok (sy_entry s) r → Own (proceed t r s).
Proof.
  destruct r as [e' nx]. intros HI HO Ht [_ He]. cbn in He.
  assert (∀ n, is_cleanup n = false → ¬ obliged (sy_acked s) (continue_as n)) as Hn
    by (intros []; cbn; naive_solver).
  assert (∀ x o, sy_state s = Initializing true ∧ o = Initializer ∨
      (∃ a, sy_state s = Action a) ∧ o = ActionOwner ∨ (∃ u, sy_state s = Updating u) ∧ o = UpdateOwner →
    ∀ th, matches (sy_acked s) (sy_state s) th →
    matches (sy_acked s) (Terminating {| tm_explicit := x; tm_owner := o |}) th) as Hstop.
  { intros x o Ho th. destruct Ho as [[-> ->]|[[[a ->] ->]|[[u ->] ->]]];
      (intros [Hr|(? & ? & ? & _)]; [left|done]); destruct th; cbn in *; naive_solver. }
  destruct He as [E|n Hs [x Hs'] _ Hc|n a Hs [x Hs'] _ Hc|n u Hs [x Hs'] _ Hc|x Hs Hs' _].
  - eapply (Own_idle s _ t TDone); [done| |by intros []|done..|]; [by rewrite Ht|].
    intros th. unfold sy_state. cbn. by rewrite E.
  - eapply (Own_idle s _ t (continue_as n)); [done| |by apply Hn|done..|]; [by rewrite Ht|].
    unfold sy_state in *. cbn. rewrite Hs'. apply Hstop; auto.
  - eapply (Own_idle s _ t (continue_as n)); [done| |by apply Hn|done..|]; [by rewrite Ht|].
    unfold sy_state in *. cbn. rewrite Hs'. apply Hstop; eauto.
  - eapply (Own_idle s _ t (continue_as n)); [done| |by apply Hn|done..|]; [by rewrite Ht|].
    unfold sy_state in *. cbn. rewrite Hs'. apply Hstop; eauto.
  - eapply (Own_new s _ t (TCleanup x CStart)); [done| |done..|].
    + intros th. by apply ready_no_match.
    + left. unfold sy_state. cbn. by rewrite Hs'.
Qed.

(** * Steps of the workers *)

Definition advances (acked : gset string) (st st' : SessionState) (th th' : thread) : Prop :=
  hands_over acked st st' (Some th) th' ∧
  (matches acked st th → obliged acked th' → matches acked st' th').

(** What one step of thread [t], at [th], does to the system. *)
Definition worker_step (s s' : Sys) (t : nat) (th : thread) : Prop :=
  ∃ th', sy_threads s' = <[t := th']> (sy_threads s) ∧ sy_acked s' = sy_acked s ∧
    en_registered (sy_entry s') = en_registered (sy_entry s) ∧
    advances (sy_acked s) (sy_state s) (sy_state s') th th'.

(** The state stays and so does the thread's role. *)
Lemma advances_same acked st th th' :
  is_cleaner th' = false → is_cleaner th = false →
  (responsible acked st th → obliged acked th' → responsible acked st th') →
  (responsible acked st th → obliged acked th') →
  advances acked st st th th'.
Proof.
  intros Hc Hc0 H1 H2. split.
  - apply same_hands_over; [done|]. intros ? [= <-]. auto.
  - intros [?|(x & r & _ & ->)] ?; [left; auto|done].
Qed.

(** The thread turns to cleaning up, or the session becomes ready and the
    thread is done. *)
Lemma advances_cleanup acked st o x y th :
  (ended st → ∃ z, st = Terminating {| tm_explicit := z; tm_owner := o |}) →
  advances acked st (Terminating {| tm_explicit := x; tm_owner := o |}) th (TCleanup y CStart).
Proof.
  intros He. split; [|by intros _ _; left]. split; [|split; [done|right; by left]].
  intros [z ->]%He. split; [done|]. naive_solver.
Qed.

Lemma advances_ready acked st n th :
  ¬ ended st → advances acked st (Ready n) th TDone.
Proof. intros He. split; [|done]. split; [done|]. split; [done|]. right; right. by intros []. Qed.

Lemma advances_abort acked st x pc pc' :
  is_initializing st = true →
  advances acked st (Terminating {| tm_explicit := x; tm_owner := Initializer |}) (TInit pc) (TInit pc').
Proof.
  intros Hi. split; [|by left]. split; [by destruct st|]. split; [done|]. right; by left.
Qed.

Lemma advances_init acked st pc pc' : advances acked st st (TInit pc) (TInit pc').
Proof. by apply advances_same. Qed.

Lemma init_worker_step s t pc a s' :
  sy_threads s !! t = Some (TInit pc) → exec_init t pc a s = Some s' →
  worker_step s s' t (TInit pc).
Proof.
  intros Ht. set (e := sy_entry s).
  assert (∀ e' th' b, en_registered e' = en_registered e →
    advances (sy_acked s) (en_state e) (en_state e') (TInit pc) th' →
    worker_step s (put_thread t th' (put_services_started b (put_entry e' s))) t (TInit pc)) as Hgo.
  { intros e' th' b Hr Ha. exists th'. done. }
  assert (∀ e' th', en_registered e' = en_registered e →
    advances (sy_acked s) (en_state e) (en_state e') (TInit pc) th' →
    worker_step s (put_thread t th' (put_entry e' s)) t (TInit pc)) as Hgo'.
  { intros e' th' Hr Ha. exists th'. done. }
  assert (∀ f m e0, en_registered (write_metadata f m e0).1 = en_registered e0) as Hwr by by intros [[]|].
  assert (∀ e', en_state e' = en_state e → en_registered e' = en_registered e →
    ∀ pc', worker_step s (put_thread t (TInit pc') (put_entry (commit_failed e') s)) t (TInit pc)) as Hcf.
  { intros e' Hs Hr pc'. destruct (commit_failed_cases e') as [[-> Hi]|[Hi [x Hx]]].
    - apply Hgo'; [done|]. rewrite Hs. apply advances_init.
    - apply Hgo'; [by unfold commit_failed; rewrite Hi|]. rewrite Hx. apply advances_abort. by rewrite <-Hs. }
  destruct pc, a; cbn; try discriminate; fold e.
  - intros [= <-]. apply (Hgo' e); [done|apply advances_init].
  - intros [= <-]. exists (TInit IRunning). split_and!; try done; [|apply advances_init].
    cbn. by rewrite insert_id.
  - destruct (write_metadata _ _ e) as [e' ok] eqn:Ew. intros [= <-].
    replace e' with (e', ok).1 by done. rewrite <-Ew. apply Hgo; [apply Hwr|].
    rewrite (proj1 (write_metadata_state _ _ _)). apply advances_init.
  - destruct (sy_services_started s); [|done].
    destruct (write_metadata _ _ (push_service process e)) as [e' ok] eqn:Ew. intros [= <-].
    replace e' with (e', ok).1 by done. rewrite <-Ew. apply Hgo'; [by rewrite Hwr|].
    rewrite (proj1 (write_metadata_state _ _ _)). apply advances_init.
  - pose proof (precommit_check_cases (sy_now s) e) as Hp.
    assert (en_registered (precommit_check (sy_now s) e).1 = en_registered e) as Hr
      by (unfold precommit_check; by repeat case_match).
    destruct (precommit_check _ e) as [e' ok]. intros [= <-].
    destruct Hp as [[-> _]|(Hi & [x Hx] & ->)].
    + apply (Hgo' e); [done|apply advances_init].
    + apply Hgo'; [done|]. rewrite Hx. by apply advances_abort.
  - destruct (write_metadata _ _ e) as [e' ok] eqn:Ew.
    assert (en_state e' = en_state e ∧ en_registered e' = en_registered e) as [Hs Hr].
    { replace e' with (e', ok).1 by done. rewrite <-Ew, Hwr. by rewrite (proj1 (write_metadata_state _ _ _)). }
    destruct ok; intros [= <-]; [|by apply Hcf].
    apply Hgo'; [done|]. rewrite Hs. apply advances_init.
  - pose proof (commit_election_cases (sy_now s) e) as Hc.
    assert (en_registered (commit_election (sy_now s) e).1 = en_registered e) as Hr
      by (unfold commit_election, commit_failed; by repeat case_match).
    destruct (commit_election _ e) as [e' ready]. intros [= <-].
    destruct Hc as [(-> & Hs & Hi & _)|[-> ->]]; [|by apply Hcf].
    apply Hgo'; [done|]. rewrite Hs. apply advances_ready.
    intros ?%not_initializing_ended. congruence.
  - intros [= <-]. apply (Hgo' (remove_metadata e)); [done|apply advances_init].
  - pose proof (initializer_cleanup_cases false e) as Hc.
    assert (en_registered (initializer_cleanup false e).1 = en_registered e) as Hr
      by (unfold initializer_cleanup; by repeat case_match).
    destruct (initializer_cleanup false e) as [e' n]. intros [= <-]. apply Hgo'; [done|].
    destruct Hc as [(Hi & [x Hx] & ->)|[(-> & [x Hx] & Hn)|(-> & -> & Hi & Hnt)]].
    + cbn [fst snd continue_as]. rewrite Hx. apply advances_cleanup. intros ?%not_initializing_ended. congruence.
    + cbn. rewrite Hx. destruct n; try done. apply advances_cleanup. eauto.
    + apply advances_same; try done; cbn;
        destruct (en_state e) as [| | | |[y o]|] eqn:E; cbn in *; try done;
        intros ->; destruct Hnt; by eexists.
Qed.

Lemma responsible_action acked st a pc :
  responsible acked st (TAction a pc) → a ∉ acked.
Proof. by destruct st as [[]| | | | |]; cbn; intros H; try done; destruct H as [? ?]; subst. Qed.

Lemma advances_action acked st a pc pc' : advances acked st st (TAction a pc) (TAction a pc').
Proof. apply advances_same; try done. by intros ?%responsible_action. Qed.

(** The thread leaves without a role. *)
Lemma advances_leave acked st th :
  is_cleaner th = false → ¬ responsible acked st th → advances acked st st th TDone.
Proof. intros ??. by apply advances_same. Qed.

Lemma finish_action_cases now a e :
  let '(e', n) := finish_action now a false e in
  (en_state e = Action a ∧ terminating ActionOwner e' ∧ n = Cleanup false) ∨
  (e' = e ∧ terminating ActionOwner e ∧ is_cleanup n = true) ∨
  (e' = e ∧ n = Return ∧ en_state e ≠ Action a ∧ ¬ terminating ActionOwner e).
Proof.
  unfold finish_action, terminating.
  destruct (en_state e) as [| |b| |[y o]|]; cbn; try (right; right; split_and!; [done..|naive_solver]);
    case_bool_decide; cbn in *; subst.
  - left. split_and!; [done|by eexists|done].
  - right; right. split_and!; [done..|congruence|naive_solver].
  - right; left. split_and!; [done|by eexists|done].
  - right; right. split_and!; [done..|naive_solver].
Qed.

Lemma finish_action_registered now a r e :
  en_registered (finish_action now a r e).1 = en_registered e.
Proof. unfold finish_action. by repeat case_match. Qed.

Lemma action_worker_step s t a pc st s' :
  Ids s → sy_threads s !! t = Some (TAction a pc) → exec_action t a pc st s = Some s' →
  worker_step s s' t (TAction a pc).
Proof.
  intros HI Ht. set (e := sy_entry s) in *.
  assert (∀ pc' s', sy_threads s' = <[t := TAction a pc']> (sy_threads s) →
    sy_acked s' = sy_acked s → sy_entry s' = sy_entry s → worker_step s s' t (TAction a pc)) as Hgo.
  { intros pc' s1 H1 H2 H3. exists (TAction a pc'). unfold sy_state. rewrite H3.
    split_and!; try done. apply advances_action. }
  destruct pc, st; cbn; try discriminate; fold e.
  - intros [= <-]. by eapply Hgo.
  - destruct (action_can_publish _ a e); intros [= <-]; by eapply Hgo.
  - destruct (sy_acks s !! a) as [[]|] eqn:Hk; intros [= <-]; [|by eapply Hgo].
    exists TDone. split_and!; try done. apply advances_leave; [done|].
    intros Hr%responsible_action. by apply Hr, (id_acked _ HI).
  - destruct (is_cancelled a e); intros [= <-]. by eapply Hgo.
  - case_bool_decide; [done|]. destruct (sy_acks s !! a); intros [= <-]. by eapply Hgo.
  - intros [= <-]. by eapply Hgo.
  - pose proof (finish_action_cases (sy_now s) a e) as Hc.
    pose proof (finish_action_registered (sy_now s) a false e) as Hr.
    destruct (finish_action _ a false e) as [e' n]. intros [= <-]. cbn in Hr.
    exists (continue_as n). split_and!; [done..|]. unfold sy_state; cbn; fold e.
    destruct Hc as [(Hi & [x Hx] & ->)|[(-> & [x Hx] & Hn)|(-> & -> & Hi & Hnt)]].
    + rewrite Hx, Hi. by apply advances_cleanup.
    + rewrite Hx. destruct n; try done. apply advances_cleanup. eauto.
    + apply advances_leave; [done|]. intros Hresp.
      destruct (en_state e) as [[]| | | |[y o]|] eqn:E; cbn in *; try done.
      * destruct Hresp as [-> _]. done.
      * destruct Hresp as [-> _]. destruct Hnt; by eexists.
Qed.

Lemma finish_update_success_cases now r nr c d e :
  let '(e', n, _) := finish_update_success now r nr c d e in
  (∃ u, en_state e = Updating u ∧
     ((u = rv_update_id r ∧ en_state e' = Ready now ∧ n = Return) ∨
      (terminating UpdateOwner e' ∧ n = Cleanup false))) ∨
  (e' = e ∧ terminating UpdateOwner e ∧ is_cleanup n = true) ∨
  (e' = e ∧ n = Return ∧ (∀ u, en_state e ≠ Updating u) ∧ ¬ terminating UpdateOwner e).
Proof.
  unfold finish_update_success, terminating.
  destruct (en_state e) as [| | |u|[y o]|]; cbn; try (right; right; split_and!; [done..|naive_solver]).
  - destruct (_ && _) eqn:E; left; exists u; (split; [done|]); [left|right; split; [by eexists|done]].
    by breflect.
  - case_bool_decide; cbn in *; subst; right; [left|right]; split_and!; try done; [by eexists|naive_solver].
Qed.

Lemma finish_update_error_cases now u err e :
  let '(e', n) := finish_update_error now u err e in
  (en_state e = Updating u ∧
     ((ue_rollback_proven err = true ∧ en_state e' = Ready now ∧ n = Return) ∨
      (ue_rollback_proven err = false ∧ terminating UpdateOwner e' ∧ n = Cleanup false))) ∨
  (e' = e ∧ terminating UpdateOwner e ∧ is_cleanup n = true) ∨
  (e' = e ∧ n = Return ∧ en_state e ≠ Updating u ∧ ¬ terminating UpdateOwner e).
Proof.
  unfold finish_update_error, terminating.
  destruct (en_state e) as [| | |b|[y o]|]; cbn; try (right; right; split_and!; [done..|naive_solver]);
    case_bool_decide; cbn in *; subst.
  - destruct (ue_rollback_proven err); cbn; left; (split; [done|]); [by left|right].
    split_and!; [done|by eexists|done].
  - right; right. split_and!; [done..|congruence|naive_solver].
  - right; left. split_and!; [done|by eexists|done].
  - right; right. split_and!; [done..|naive_solver].
Qed.

Lemma update_worker_panicked_cases e :
  let '(e', n) := update_worker_panicked e in
  (en_registered e = true ∧ (∃ u, en_state e = Updating u) ∧ terminating Requester e' ∧ n = Cleanup false) ∨
  (e' = e ∧ terminating UpdateOwner e ∧ is_cleanup n = true) ∨
  (e' = e ∧ n = Return ∧
     (en_registered e = false ∨ (∀ u, en_state e ≠ Updating u) ∧ ¬ terminating UpdateOwner e)).
Proof.
  unfold update_worker_panicked, terminating. destruct (en_registered e) eqn:Hr; cbn;
    [|right; right; split_and!; [done..|by left]].
  destruct (en_state e) as [| | |u|[y o]|]; cbn;
    try (right; right; split_and!; [done..|right; split; [done|naive_solver]]).
  - left. split_and!; [done|eauto|by eexists|done].
  - case_bool_decide; cbn in *; subst; right; [left|right]; split_and!; try done; [by eexists|].
    right. split; [done|naive_solver].
Qed.

Lemma advances_update acked st r pc pc' : advances acked st st (TUpdate r pc) (TUpdate r pc').
Proof. by apply advances_same. Qed.

(** The lock section leaves [e'] and the worker goes on as [n]. *)
Lemma update_proceeds s t r pc e' n :
  en_registered e' = en_registered (sy_entry s) →
  advances (sy_acked s) (sy_state s) (en_state e') (TUpdate r pc) (continue_as n) →
  worker_step s (proceed t (e', n) s) t (TUpdate r pc).
Proof. intros H1 H2. by exists (continue_as n). Qed.

(** The cases the three endings of an update share: the session is being
    terminated for the update, or the update has no part in it any more. *)
Lemma update_owner_advances acked st r pc x n :
  is_cleanup n = true → st = Terminating {| tm_explicit := x; tm_owner := UpdateOwner |} →
  advances acked st st (TUpdate r pc) (continue_as n).
Proof. intros Hn ->. destruct n; try done. apply advances_cleanup. eauto. Qed.

Lemma update_leaves acked e r pc :
  en_state e ≠ Updating (rv_update_id r) → ¬ terminating UpdateOwner e →
  advances acked (en_state e) (en_state e) (TUpdate r pc) TDone.
Proof.
  intros Hs Hnt. apply advances_leave; [done|]. intros Hresp.
  destruct (en_state e) as [[]| | |u|[y o]|] eqn:Es; cbn in *; try done; [congruence|].
  subst o. destruct Hnt; by eexists.
Qed.

Lemma update_error_step s t r pc err :
  worker_step s (proceed t (finish_update_error (sy_now s) (rv_update_id r) err (sy_entry s)) s) t
    (TUpdate r pc).
Proof.
  pose proof (finish_update_error_cases (sy_now s) (rv_update_id r) err (sy_entry s)) as Hc.
  assert (en_registered (finish_update_error (sy_now s) (rv_update_id r) err (sy_entry s)).1 =
    en_registered (sy_entry s)) as Hr by (unfold finish_update_error; by repeat case_match).
  destruct (finish_update_error _ _ _ _) as [e' n]. apply update_proceeds; [done|]. unfold sy_state.
  destruct Hc as [(Hs & [(_ & -> & ->)|(_ & [x ->] & ->)])|[(-> & [x Hx] & Hn)|(-> & -> & Hs & Hnt)]].
  - rewrite Hs. apply advances_ready. by intros [].
  - rewrite Hs. by apply advances_cleanup.
  - by eapply update_owner_advances.
  - by apply update_leaves.
Qed.

Lemma update_success_step s t r pc nr changed deleted :
  let '(e', n, _) := finish_update_success (sy_now s) r nr changed deleted (sy_entry s) in
  worker_step s (proceed t (e', n) s) t (TUpdate r pc).
Proof.
  pose proof (finish_update_success_cases (sy_now s) r nr changed deleted (sy_entry s)) as Hc.
  assert (en_registered (finish_update_success (sy_now s) r nr changed deleted (sy_entry s)).1.1 =
    en_registered (sy_entry s)) as Hr by (unfold finish_update_success; by repeat case_match).
  destruct (finish_update_success _ _ _ _ _ _) as [[e' n] res].
  apply update_proceeds; [done|]. unfold sy_state.
  destruct Hc as [(u & Hs & [(-> & -> & ->)|([x ->] & ->)])|[(-> & [x Hx] & Hn)|(-> & -> & Hs & Hnt)]].
  - rewrite Hs. apply advances_ready. by intros [].
  - rewrite Hs. by apply advances_cleanup.
  - by eapply update_owner_advances.
  - by apply update_leaves.
Qed.

(** A panicked worker of a session that is no longer registered leaves: another
    thread is past its unregistration. *)
Lemma update_panic_step s t r pc :
  let s' := proceed t (update_worker_panicked (sy_entry s)) s in
  worker_step s s' t (TUpdate r pc) ∨
  (en_registered (sy_entry s) = false ∧ s' = put_thread t TDone (put_entry (sy_entry s) s)).
Proof.
  pose proof (update_worker_panicked_cases (sy_entry s)) as Hc.
  assert (en_registered (update_worker_panicked (sy_entry s)).1 = en_registered (sy_entry s)) as Hr
    by (unfold update_worker_panicked; by repeat case_match).
  destruct (update_worker_panicked (sy_entry s)) as [e' n]. cbn in Hr. cbv zeta.
  destruct Hc as [(_ & [u Hs] & [x Hx'] & ->)|[(-> & [x Hx'] & Hn)|(-> & -> & [Hrf|[Hs Hnt]])]].
  - left. apply update_proceeds; [done|]. unfold sy_state. rewrite Hx', Hs. by apply advances_cleanup.
  - left. apply update_proceeds; [done|]. by eapply update_owner_advances.
  - by right.
  - left. apply update_proceeds; [done|]. by apply update_leaves.
Qed.

Lemma update_worker_step s t r pc a s' :
  sy_threads s !! t = Some (TUpdate r pc) → exec_update t r pc a s = Some s' →
  worker_step s s' t (TUpdate r pc) ∨
  (en_registered (sy_entry s) = false ∧ s' = put_thread t TDone (put_entry (sy_entry s) s)).
Proof.
  intros Ht.
  assert (∀ pc', worker_step s (put_thread t (TUpdate r pc') s) t (TUpdate r pc)) as Hgo.
  { intros pc'. exists (TUpdate r pc'). split_and!; try done. apply advances_update. }
  unfold exec_update. destruct (checked_add (rv_base_revision r) 1) as [nr|] eqn:Hadd, pc, a;
    try discriminate.
  - destruct (ue_rollback_proven err); [done|]. intros [= <-]. by left.
  - intros [= <-]. left. exists (TUpdate r URunning). split_and!; try done.
    + cbn. by rewrite insert_id.
    + by destruct fault as [[]|].
    + unfold sy_state; cbn. rewrite (proj1 (write_metadata_state _ _ _)). apply advances_update.
  - intros [= <-]. by left.
  - intros [= <-]. by left.
  - intros [= <-]. by left.
  - pose proof (update_success_step s t r (UApplied changed deleted) nr changed deleted) as H.
    destruct (finish_update_success _ _ _ _ _ _) as [[e' n] res]. intros [= <-]. by left.
  - intros [= <-]. left. apply update_error_step.
  - intros [= <-]. apply update_panic_step.
  - destruct (ue_rollback_proven err); [done|]. intros [= <-]. by left.
  - intros [= <-]. left. apply update_error_step.
  - intros [= <-]. apply update_panic_step.
Qed.

(** * Steps of the cleaners *)

Lemma Resp_cleanup s t x pc a s' :
  Resp s → sy_threads s !! t = Some (TCleanup x pc) → exec_cleanup t x pc a s = Some s' → Resp s'.
Proof.
  intros HR Ht.
  assert (∀ f pc', clean_done pc = false → clean_done pc' = false →
    en_state (f (sy_entry s)) = sy_state s →
    Resp (put_thread t (TCleanup x pc') (modify f s))) as Hgo.
  { intros f pc' Hd Hd' Hf. pose proof (rs_ended _ HR _ _ _ Ht) as He. destruct HR as [R1 R2 R2' R3].
    split; unfold sy_state; cbn; rewrite ?Hf.
    - intros Hn. exists t, (TCleanup x pc'). rewrite lookup_insert_eq. split; [done|].
      by destruct (sy_state s).
    - intros t' y q _. done.
    - intros t' y q. rewrite lookup_insert_Some. intros [[_ [= <- ->]]|[_ ?]]; [done|eauto].
    - intros _. right. exists t, x, pc'. by rewrite lookup_insert_eq. }
  destruct pc, a; cbn; try discriminate; intros [= <-]; try (by apply Hgo).
  - by apply (Hgo id).
  - apply Hgo; try done. unfold cleanup_remove. by repeat case_match.
  - split; unfold sy_state; cbn; [done|done|eauto|eauto].
Qed.

Lemma Own_cleanup s t x pc a s' :
  Own s → sy_threads s !! t = Some (TCleanup x pc) → exec_cleanup t x pc a s = Some s' → Own s'.
Proof.
  intros HO Ht.
  assert (∀ f pc', clean_done pc = false → clean_done pc' = false →
    en_state (f (sy_entry s)) = sy_state s →
    Own (put_thread t (TCleanup x pc') (modify f s))) as Hgo.
  { intros f pc' Hd Hd' Hf. eapply Own_replace; [done|done|done..|]. unfold sy_state at 2. cbn.
    rewrite Hf. intros [Hm|(y & r & _ & [= <- ->])]; [|done]. left.
    by destruct (sy_state s) as [[]| | | | |]. }
  destruct pc, a; cbn; try discriminate; intros [= <-]; try (by apply Hgo).
  - by apply (Hgo id).
  - apply Hgo; try done. unfold cleanup_remove. by repeat case_match.
  - eapply Own_replace; [done|done|done..|]. intros _ _. right. eauto.
Qed.

(** * Every event *)

(** No worker gave up waiting for an acknowledgement that was given. *)
Definition timely (s : Sys) : Prop := sy_acked s ## sy_gave_up s.

Lemma Resp_step s s' t th :
  Resp s → sy_threads s !! t = Some th → is_cleaner th = false → worker_step s s' t th → Resp s'.
Proof.
  intros HR Ht Hc (th' & Eth & Ea & Er & [Hh _]). eapply Resp_worker; try done.
  by intros x pc [= ->].
Qed.

(** The unregistered panic case: the cleaner remains. *)
Lemma Resp_drop s t :
  Resp s → en_registered (sy_entry s) = false →
  (∀ x pc, sy_threads s !! t ≠ Some (TCleanup x pc)) →
  Resp (put_thread t TDone (put_entry (sy_entry s) s)).
Proof.
  intros HR Hr Hnc. destruct (rs_registered _ HR Hr) as [[r Hs]|(t' & x & pc & Ht' & Hpc)].
  - eapply (Resp_worker s _ t); try done. split; [done|]. split; [done|]. right; right.
    unfold sy_state in *. cbn. rewrite Hs. cbn. tauto.
  - assert (t' ≠ t) as Hne by (intros ->; by destruct (Hnc x pc)).
    pose proof (rs_ended _ HR _ _ _ Ht') as He. destruct HR as [R1 R2 R2' R3].
    assert (sy_threads (put_thread t TDone (put_entry (sy_entry s) s)) !! t' = Some (TCleanup x pc))
      as Hk by (cbn; by rewrite lookup_insert_ne).
    split; unfold sy_state; cbn.
    + intros Hn. exists t', (TCleanup x pc). split; [done|].
      unfold sy_state in He. by destruct (en_state (sy_entry s)).
    + done.
    + intros t1 y q. rewrite lookup_insert_Some. intros [[_ ?]|[_ ?]]; [done|eauto].
    + eauto 10.
Qed.

Lemma Resp_acknowledge s a s' :
  Ids s → Resp s → exec (Acknowledge a) s = Some s' → Resp s'.
Proof.
  intros HI [R1 R2 R2' R3]. cbn. case_bool_decide as Hfin; [|done].
  destruct (acknowledge_action_delivery _ _ _) as [e' accepted] eqn:E. intros [= <-].
  apply acknowledge_cases in E as
    [(_ & _ & _ & _ & Hr & _) [[-> ->]|[(Hs & Hreg & Hs' & Hc & -> & _)|(Hs & [x Hs'] & Hc & ->)]]].
  - by split.
  - split; unfold sy_state in *; cbn; rewrite ?Hs', ?Hr, ?Hreg; try done.
    + intros t x pc Ht. apply R2 in Ht. by rewrite Hs in Ht.
    + intros t x r [? Hx]%R2'. congruence.
  - split; unfold sy_state in *; cbn; rewrite ?Hs', ?Hr; try done.
    + intros _. destruct R1 as (t & th & Ht & Hth); [by rewrite Hs|]. exists t, th. split; [done|].
      rewrite Hs in Hth. destruct th; try done. cbn in *. naive_solver.
    + intros t x' r [? Hx]%R2'. congruence.
    + intros [[? ?]|?]%R3; [congruence|by right].
Qed.

Lemma Resp_disconnect_action s a :
  Resp s → Resp (put_final (sy_final s ∖ {[ a ]}) (put_entry (disconnect_action a (sy_entry s)) s)).
Proof.
  intros [R1 R2 R2' R3].
  assert (disconnect_action a (sy_entry s) = sy_entry s ∨
    sy_state s = Action a ∧ en_registered (sy_entry s) = true ∧
    en_registered (disconnect_action a (sy_entry s)) = true ∧
    terminating ActionOwner (disconnect_action a (sy_entry s))) as [E|(Hs & Hr & Hr' & [x Hs'])].
  { unfold disconnect_action, sy_state. destruct (en_registered (sy_entry s)) eqn:Hr; [cbn|by left].
    destruct (en_state (sy_entry s)) as [| |b| | |] eqn:Hs; try (by left).
    case_bool_decide; [subst b; right|by left]. split_and!; try done. by eexists. }
  - rewrite E. by split.
  - split; unfold sy_state in *; cbn; rewrite ?Hr', ?Hs'; try done.
    + intros _. destruct R1 as (t & th & Ht & Hth); [by rewrite Hs|]. exists t, th. split; [done|].
      rewrite Hs in Hth. destruct th; try done. cbn in *. naive_solver.
    + intros t y r [? Hx]%R2'. congruence.
Qed.

Lemma Resp_exec ev s s' : Ids s → Resp s → exec ev s = Some s' → Resp s'.
Proof.
  intros HI HR Hex. destruct (request_of ev s) as [[t r]|] eqn:Hreq.
  { rewrite (request_of_exec _ _ _ _ Hreq) in Hex. apply request_Some in Hex as [? ->].
    apply Resp_request; [done..|]. by eapply request_of_ok. }
  assert (∀ t, sy_threads s !! t = None → Resp (put_thread t TDone (put_entry (sy_entry s) s))) as Hidle.
  { intros t Ht. eapply (Resp_worker s _ t None); try done. by apply same_hands_over. }
  destruct ev; cbn in Hreq; try done.
  - simplify_eq/=. destruct HR. by split.
  - cbn in Hex. destruct (begin_initialization _ _) as [[e' begun] n] eqn:E.
    destruct (fresh_thread t s) eqn:Hf; [|done]. apply fresh_thread_None in Hf. simplify_eq/=.
    apply begin_initialization_cases in E as [(-> & -> & Hs & ->)|[-> Hr]]; [|by apply Resp_request].
    eapply (Resp_worker s _ t None); try done. unfold sy_state. cbn. rewrite Hs.
    split; [done|]. split; [done|]. right. by left.
  - cbn in Hex. by destruct (_ <=? _).
  - cbn in Hex. by destruct (sy_services_started s).
  - cbn in Hex. destruct (fresh_thread t s) eqn:Hf; [|done]. apply fresh_thread_None in Hf.
    case_bool_decide as Hu; [done|]. cbn in Hex.
    destruct (start_action _ _ _ _) as [e' res] eqn:E.
    apply start_action_cases in E as [(err & -> & ->)|(r & l & -> & <- & Hs & _ & _ & ->)]; simplify_eq;
      [by auto|].
    eapply (Resp_worker s _ t None); try done. unfold sy_state. cbn. rewrite Hs.
    split; [done|]. split; [done|]. right. left. cbn. split; [done|].
    intros Ha. apply Hu, (id_used _ HI). set_solver.
  - cbn in Hex. destruct (fresh_thread t s) eqn:Hf; [|done]. apply fresh_thread_None in Hf.
    case_bool_decide as Hu; [done|]. cbn in Hex.
    destruct (start_update _ _ _ _ _ _) as [e' res] eqn:E.
    apply start_update_cases in E as [[-> Hno]|(r & l & -> & <- & _ & _ & Hs & _ & _ & ->)].
    + assert (s' = put_thread t TDone (put_entry (sy_entry s) s)) as ->; [|by auto].
      destruct res as [[r|]|]; simplify_eq; try done. by destruct (Hno r).
    + simplify_eq. eapply (Resp_worker s _ t None); try done. unfold sy_state. cbn. rewrite Hs.
      split; [done|]. split; [done|]. right. by left.
  - by eapply Resp_acknowledge.
  - simplify_eq/=. by apply Resp_disconnect_action.
  - cbn in Hex. destruct (sy_threads s !! t) as [[]|] eqn:Ht; try done.
    eapply Resp_step; try done. by eapply init_worker_step.
  - cbn in Hex. destruct (sy_threads s !! t) as [[]|] eqn:Ht; try done.
    eapply Resp_step; try done. by eapply action_worker_step.
  - cbn in Hex. destruct (sy_threads s !! t) as [[]|] eqn:Ht; try done.
    eapply update_worker_step in Hex as [?|[? ->]]; [by eapply Resp_step| |done].
    apply Resp_drop; [done..|]. by rewrite Ht.
  - cbn in Hex. destruct (sy_threads s !! t) as [[]|] eqn:Ht; try done. by eapply Resp_cleanup.
  - cbn in Hex. destruct (sy_threads s !! t) as [[]|] eqn:Ht; try done.
    destruct (en_state (sy_entry s)) eqn:Hs; simplify_eq/=.
    eapply (Resp_worker s _ t); try done. unfold sy_state; cbn. rewrite Hs.
    split; [done|]. split; [done|]. right; right. by intros [].
Qed.

Lemma Own_initial now e : Own (initial now e).
Proof. intros t th H. cbn in H. by rewrite lookup_empty in H. Qed.

Lemma Own_step s s' t th :
  Own s → sy_threads s !! t = Some th → obliged (sy_acked s) th → worker_step s s' t th → Own s'.
Proof.
  intros HO Ht Hob (th' & Eth & Ea & Er & [_ Hm]). by eapply Own_replace.
Qed.

(** An acknowledged action worker can only leave, unless it raced with its
    deadline. *)
Lemma acked_worker_leaves s t a pc st s' :
  Ids s → timely s' → sy_threads s !! t = Some (TAction a pc) → a ∈ sy_acked s →
  exec_action t a pc st s = Some s' → s' = put_thread t TDone s.
Proof.
  intros HI Htl Ht Ha. pose proof (proj1 (id_acked _ HI a) Ha) as Hack.
  pose proof (id_acked_live _ HI a Ha) as Hlive.
  assert (pc ≠ ARunning).
  { intros ->. destruct (id_running _ HI _ _ Ht). congruence. }
  assert (pc = AFinishing → a ∈ sy_gave_up s).
  { intros ->. destruct (id_finishing _ HI _ _ Ht); auto. done. }
  destruct pc, st; cbn; try discriminate; try done.
  - rewrite Hack. by intros [= <-].
  - unfold is_cancelled. case_bool_decide; [done|discriminate].
  - rewrite Hack. by case_bool_decide.
  - intros [= <-]. exfalso. apply (Htl a); cbn; set_solver.
  - intros [= <-]. exfalso. apply (Htl a); cbn; [done|auto].
Qed.

Lemma Own_action s t a pc st s' :
  Ids s → Own s → timely s' → sy_threads s !! t = Some (TAction a pc) →
  exec_action t a pc st s = Some s' → Own s'.
Proof.
  intros HI HO Htl Ht Hex. destruct (decide (a ∈ sy_acked s)) as [Ha|Ha].
  - rewrite (acked_worker_leaves s t a pc st s' HI Htl Ht Ha Hex).
    eapply (Own_idle s _ t TDone); try done; [|by intros []].
    intros th Hth. rewrite Ht in Hth. injection Hth as <-. cbn. tauto.
  - eapply Own_step; try done. by eapply action_worker_step.
Qed.

Lemma Own_acknowledge s a s' :
  Own s → exec (Acknowledge a) s = Some s' → Own s'.
Proof.
  intros HO. cbn. case_bool_decide as Hfin; [|done].
  destruct (acknowledge_action_delivery _ _ _) as [e' accepted] eqn:E. intros [= <-].
  apply acknowledge_cases in E as
    [_ [[-> ->]|[(Hs & Hreg & Hs' & Hc & -> & _)|(Hs & [x Hs'] & Hc & ->)]]].
  - done.
  - intros t th Ht Hob. cbn in Ht, Hob.
    assert (obliged (sy_acked s) th) as Hob' by (destruct th; cbn in *; set_solver).
    destruct (HO _ _ Ht Hob') as [Hm _]. unfold sy_state in Hm. rewrite Hs in Hm.
    destruct Hm as [Hm|(? & ? & ? & _)]; [|done].
    destruct th; cbn in Hm, Hob; try done. destruct Hm as [-> _]. set_solver.
  - intros t th Ht Hob. destruct (HO _ _ Ht Hob) as [Hm Hu]. split; [|done].
    unfold sy_state in *. cbn. rewrite Hs'. rewrite Hs in Hm.
    destruct Hm as [Hm|(? & ? & ? & _)]; [left|done]. destruct th; cbn in *; naive_solver.
Qed.

Lemma Own_exec ev s s' :
  Ids s → Own s → timely s' → exec ev s = Some s' → Own s'.
Proof.
  intros HI HO Htl Hex. destruct (request_of ev s) as [[t r]|] eqn:Hreq.
  { rewrite (request_of_exec _ _ _ _ Hreq) in Hex. apply request_Some in Hex as [? ->].
    apply request_own; [done..|]. by eapply request_of_ok. }
  assert (∀ t, sy_threads s !! t = None → Own (put_thread t TDone (put_entry (sy_entry s) s))) as Hidle.
  { intros t Ht. eapply (Own_idle s _ t TDone); try done; [by rewrite Ht|by intros []]. }
  destruct ev; cbn in Hreq; try done.
  - by simplify_eq/=.
  - cbn in Hex. destruct (begin_initialization _ _) as [[e' begun] n] eqn:E.
    destruct (fresh_thread t s) eqn:Hf; [|done]. apply fresh_thread_None in Hf. simplify_eq/=.
    apply begin_initialization_cases in E as [(-> & -> & Hs & ->)|[-> Hr]]; [|by apply request_own].
    eapply (Own_new s _ t); try done; [|by left]. intros th. apply ready_no_match. by left.
  - cbn in Hex. by destruct (_ <=? _).
  - cbn in Hex. by destruct (sy_services_started s).
  - cbn in Hex. destruct (fresh_thread t s) eqn:Hf; [|done]. apply fresh_thread_None in Hf.
    case_bool_decide as Hu; [done|]. cbn in Hex.
    destruct (start_action _ _ _ _) as [e' res] eqn:E.
    apply start_action_cases in E as [(err & -> & ->)|(r & l & -> & <- & Hs & _ & _ & ->)]; simplify_eq;
      [by auto|].
    eapply (Own_new s _ t); try done; [intros th; apply ready_no_match; right; by eexists|].
    left. cbn. split; [done|]. intros Ha. apply Hu, (id_used _ HI). set_solver.
  - cbn in Hex. destruct (fresh_thread t s) eqn:Hf; [|done]. apply fresh_thread_None in Hf.
    case_bool_decide as Hu; [done|]. cbn in Hex.
    destruct (start_update _ _ _ _ _ _) as [e' res] eqn:E.
    apply start_update_cases in E as [[-> Hno]|(r & l & -> & <- & _ & _ & Hs & _ & _ & ->)].
    + assert (s' = put_thread t TDone (put_entry (sy_entry s) s)) as ->; [|by auto].
      destruct res as [[r|]|]; simplify_eq; try done. by destruct (Hno r).
    + simplify_eq. eapply (Own_new s _ t); try done; [|by left].
      intros th; apply ready_no_match; right; by eexists.
  - by eapply Own_acknowledge.
  - simplify_eq/=. intros t th Ht Hob. destruct (HO _ _ Ht Hob) as [Hm Hu]. split; [|done].
    unfold sy_state in *; cbn. destruct (disconnect_action_ok action_id (sy_entry s)) as [_ He].
    cbn in He. inversion He as [E|n Hs [x Hs'] _ _|n a Hs [x Hs'] _ _|n u Hs [x Hs'] _ _|]; subst;
      [by rewrite E|..]; rewrite Hs'; rewrite Hs in Hm;
      (destruct Hm as [Hm|(? & ? & ? & _)]; [left|done]); destruct th; cbn in *; naive_solver.
  - cbn in Hex. destruct (sy_threads s !! t) as [[]|] eqn:Ht; try done.
    eapply Own_step; try done. by eapply init_worker_step.
  - cbn in Hex. destruct (sy_threads s !! t) as [[]|] eqn:Ht; try done. by eapply Own_action.
  - cbn in Hex. destruct (sy_threads s !! t) as [[]|] eqn:Ht; try done.
    eapply update_worker_step in Hex as [?|[? ->]]; [by eapply Own_step| |done].
    by eapply (Own_replace s _ t).
  - cbn in Hex. destruct (sy_threads s !! t) as [[]|] eqn:Ht; try done. by eapply Own_cleanup.
  - cbn in Hex. destruct (sy_threads s !! t) as [[]|] eqn:Ht; try done.
    destruct (en_state (sy_entry s)) eqn:Hs; simplify_eq/=.
    eapply (Own_idle s _ t); try done; [|by intros []].
    intros th Hth. rewrite Ht in Hth. injection Hth as <-. by intros [].
Qed.

(** The history sets only grow, so a timely state was timely all along. *)
Lemma history_grows ev s s' :
  exec ev s = Some s' → sy_acked s ⊆ sy_acked s' ∧ sy_gave_up s ⊆ sy_gave_up s'.
Proof.
  destruct ev as [| | | | | | | | | | | | | |t a| |]; cbn; unfold request, exec_init, exec_action,
    exec_update, exec_cleanup; intros Hex;
    repeat (case_match; simplify_eq/=; try done); set_solver.
Qed.
