(* ===== verification/SessionSafety.v ===== *)
(** What holds of a managed session in every interleaving: cleanup runs once,
    operations exclude each other, nothing restarts an ended session, and its
    resources are given back. *)
From Stdlib Require Import Ascii.
From stdpp Require Import base option strings numbers gmap pretty relations list.
From S2P Require Import Prelude RustStr Protocol Config Sessions SessionSystem SessionInv SessionOwner.

Local Open Scope N_scope.

(** * Invariants of the reachable states *)

Lemma reserve_fresh id rid tid task now e :
  reserve id rid tid task now = Some e →
  en_state e = Initializing false ∧ en_registered e = true ∧ en_permit e = true ∧
  en_cancelled e = ∅ ∧ en_revision e = 0 ∧ en_last_success e = None.
Proof.
  unfold reserve. destruct (tk_session task); [cbn|done]. case_match; [|done].
  by intros [= <-].
Qed.

(** An invariant that holds after [reserve] and is preserved by every event. *)
Lemma reachable_ind (P : Sys → Prop) :
  (∀ id rid tid task now e, reserve id rid tid task now = Some e → P (initial now e)) →
  (∀ ev s s', reachable s → P s → exec ev s = Some s' → P s') →
  ∀ s, reachable s → P s.
Proof.
  intros Hi Hs s (id & rid & tid & task & now & e & He & Hrun).
  assert (∀ s, rtc step (initial now e) s → P s) as H; [|auto].
  clear s Hrun. apply (rtc_ind_r (λ s, P s)); [eauto|].
  intros s1 s2 Hr [ev Hev] HP. eapply Hs; [|done..]. exists id, rid, tid, task, now, e. done.
Qed.

Lemma reachable_exec s ev s' : reachable s → exec ev s = Some s' → reachable s'.
Proof.
  intros (id & rid & tid & task & now & e & He & Hr) Hex. exists id, rid, tid, task, now, e.
  split; [done|]. eapply rtc_r; [done|]. by exists ev.
Qed.

Lemma reachable_Ids s : reachable s → Ids s.
Proof.
  apply reachable_ind.
  - intros * (?&?&?&?&?&?)%reserve_fresh. by apply Ids_initial.
  - intros. by eapply Ids_exec.
Qed.

Lemma reachable_Resp s : reachable s → Resp s.
Proof.
  apply reachable_ind.
  - intros * (?&?&?&?&?&?)%reserve_fresh. by apply Resp_initial.
  - intros. eapply Resp_exec; [by apply reachable_Ids|done..].
Qed.

Lemma timely_before ev s s' : exec ev s = Some s' → timely s' → timely s.
Proof. intros [??]%history_grows ?. unfold timely in *. set_solver. Qed.

Lemma reachable_Own s : reachable s → timely s → Own s.
Proof.
  apply (reachable_ind (λ s, timely s → Own s)).
  - intros. apply Own_initial.
  - intros ev s1 s2 Hr IH Hex Ht. eapply Own_exec; [by apply reachable_Ids| |done..].
    by eapply IH, timely_before.
Qed.

(** * Cleanup runs once *)

(** C2: Cleanup runs at most once, and alone.  In every interleaving in which no
    action worker gave up on an acknowledgement that was given, at most one thread
    ever enters [cleanup_entry], and from then on no initialization, no update
    and no unacknowledged action is running, so the teardown never races with the
    work of the session. *)
Theorem cleanup_runs_once s t x pc :
  reachable s → timely s → sy_threads s !! t = Some (TCleanup x pc) →
  ended (sy_state s) ∧
  (∀ t' y q, sy_threads s !! t' = Some (TCleanup y q) → t' = t) ∧
  (∀ t' q, sy_threads s !! t' ≠ Some (TInit q)) ∧
  (∀ t' r q, sy_threads s !! t' ≠ Some (TUpdate r q)) ∧
  (∀ t' a q, sy_threads s !! t' = Some (TAction a q) → a ∈ sy_acked s).
Proof.
  intros Hr Ht Hc. pose proof (reachable_Own s Hr Ht) as HO.
  destruct (HO _ _ Hc I) as [_ Hu].
  split; [by eapply rs_ended; [apply reachable_Resp|]|].
  split_and!.
  - intros t' y q H'. by eapply Hu.
  - intros t' q H'. assert (t' = t) as -> by by eapply Hu. congruence.
  - intros t' r q H'. assert (t' = t) as -> by by eapply Hu. congruence.
  - intros t' a q H'. destruct (decide (a ∈ sy_acked s)); [done|].
    assert (t' = t) as -> by by eapply Hu. congruence.
Qed.

(** Operations exclude each other: in every interleaving without such a race,
    two workers that still have to finish their operation are the same thread,
    and an action or update runs only while the session's state names it. *)
Theorem operations_exclusive s t1 t2 th1 th2 :
  reachable s → timely s →
  sy_threads s !! t1 = Some th1 → sy_threads s !! t2 = Some th2 →
  obliged (sy_acked s) th1 → obliged (sy_acked s) th2 →
  t1 = t2 ∧ th1 = th2 ∧
  (∀ a pc, th1 = TAction a pc → sy_state s = Action a ∨ ended (sy_state s)) ∧
  (∀ r pc, th1 = TUpdate r pc → sy_state s = Updating (rv_update_id r) ∨ ended (sy_state s)).
Proof.
  intros Hr Ht H1 H2 Ho1 Ho2. pose proof (reachable_Own s Hr Ht) as HO.
  destruct (HO _ _ H1 Ho1) as [Hm Hu]. assert (t2 = t1) as -> by eauto. simplify_eq.
  split_and!; try done.
  - intros a pc ->. destruct Hm as [Hm|(? & ? & -> & _)]; [|by right].
    destruct (sy_state s) as [[]| | | | |]; cbn in Hm; try done; [|by right].
    left. by destruct Hm as [<- _].
  - intros r pc ->. destruct Hm as [Hm|(? & ? & -> & _)]; [|by right].
    destruct (sy_state s) as [[]| | | | |]; cbn in Hm; try done; [|by right].
    left. by rewrite Hm.
Qed.

(** * No way back *)

Definition stays_ended (st st' : SessionState) : Prop :=
  ended st → ended st' ∧ ((∃ r, st = Terminated r) → ∃ r, st' = Terminated r).

Lemma stays_ended_refl st : stays_ended st st.
Proof. done. Qed.

Lemma request_stays_ended e r : request_ok e r → stays_ended (en_state e) (en_state r.1).
Proof.
  intros [_ He]. destruct He as [->|n Hs _ _ _|n a Hs _ _ _|n u Hs _ _ _|x [Hs|[l Hs]] _ _];
    [apply stays_ended_refl|by rewrite Hs..].
Qed.

Lemma worker_stays_ended s s' t th :
  worker_step s s' t th → stays_ended (sy_state s) (sy_state s').
Proof. by intros (th' & _ & _ & _ & [[H _] _]). Qed.

Lemma cleanup_stays_ended t x pc a s s' :
  exec_cleanup t x pc a s = Some s' → stays_ended (sy_state s) (sy_state s').
Proof.
  destruct pc, a; cbn; try discriminate; intros [= <-]; unfold sy_state; cbn; try apply stays_ended_refl.
  - unfold cleanup_remove. repeat case_match; apply stays_ended_refl.
  - intros _. split; [done|eauto].
Qed.

Lemma exec_stays_ended ev s s' :
  Ids s → exec ev s = Some s' → stays_ended (sy_state s) (sy_state s').
Proof.
  intros HI Hex. destruct (request_of ev s) as [[t r]|] eqn:Hreq.
  { rewrite (request_of_exec _ _ _ _ Hreq) in Hex. apply request_Some in Hex as [? ->].
    apply request_stays_ended. by eapply request_of_ok. }
  destruct ev; cbn in Hreq; try done; cbn in Hex.
  - by simplify_eq/=.
  - destruct (begin_initialization _ _) as [[e' begun] n] eqn:E.
    destruct (fresh_thread t s); [|done]. simplify_eq/=.
    apply begin_initialization_cases in E as [(-> & -> & Hs & ->)|[-> Hr]].
    + unfold sy_state. by rewrite Hs.
    + by apply (request_stays_ended _ _ Hr).
  - by destruct (_ <=? _).
  - by destruct (sy_services_started s).
  - destruct (_ && _); [|done]. destruct (start_action _ _ _ _) as [e' res] eqn:E.
    apply start_action_cases in E as [(err & -> & ->)|(r & l & -> & _ & Hs & _ & _ & ->)]; simplify_eq;
      [done|]. unfold sy_state. by rewrite Hs.
  - destruct (_ && _); [|done]. destruct (start_update _ _ _ _ _ _) as [e' res] eqn:E.
    apply start_update_cases in E as [[-> Hno]|(r & l & -> & _ & _ & _ & Hs & _ & _ & ->)].
    + destruct res as [[r|]|]; simplify_eq; try done.
    + simplify_eq. unfold sy_state. by rewrite Hs.
  - case_bool_decide; [|done]. destruct (acknowledge_action_delivery _ _ _) as [e' b] eqn:E. simplify_eq.
    apply acknowledge_cases in E as [_ [[-> ->]|[(Hs & _ & _ & _ & -> & _)|(Hs & _ & _ & ->)]]];
      [done|unfold sy_state; by rewrite Hs..].
  - simplify_eq. apply (request_stays_ended _ _ (disconnect_action_ok action_id _)).
  - destruct (sy_threads s !! t) as [[]|] eqn:Ht; try done.
    eapply worker_stays_ended. by eapply init_worker_step.
  - destruct (sy_threads s !! t) as [[]|] eqn:Ht; try done.
    eapply worker_stays_ended. by eapply action_worker_step.
  - destruct (sy_threads s !! t) as [[]|] eqn:Ht; try done.
    eapply update_worker_step in Hex as [?|[_ ->]]; [by eapply worker_stays_ended|done..].
  - destruct (sy_threads s !! t) as [[]|] eqn:Ht; try done. by eapply cleanup_stays_ended.
  - destruct (sy_threads s !! t) as [[]|] eqn:Ht; try done.
    by destruct (en_state (sy_entry s)); simplify_eq/=.
Qed.

Lemma steps_stay_ended s s' :
  reachable s → rtc step s s' → stays_ended (sy_state s) (sy_state s').
Proof.
  intros Hr H. revert Hr. induction H as [s|s s1 s2 [ev Hex] _ IH]; [done|].
  intros Hr He. pose proof (exec_stays_ended _ _ _ (reachable_Ids _ Hr) Hex He) as [He1 Ht1].
  destruct (IH (reachable_exec _ _ _ Hr Hex) He1) as [He2 Ht2]. auto.
Qed.

(** A session that has begun to end never comes back: whatever happens
    afterwards it is terminating or terminated, a terminated session stays so,
    and every later attempt to start an action or an update is refused with
    not-found and changes nothing. *)
Theorem ended_sessions_admit_nothing s s' now name a rid d base u :
  reachable s → ended (sy_state s) → rtc step s s' →
  ended (sy_state s') ∧
  ((∃ r, sy_state s = Terminated r) → ∃ r, sy_state s' = Terminated r) ∧
  (∃ err, start_action now name a (sy_entry s') = (sy_entry s', Err err) ∧ err ≠ ActionConflict) ∧
  start_update now rid d base u (sy_entry s') = (sy_entry s', Err UpdateNotFound).
Proof.
  intros Hr He H. destruct (steps_stay_ended _ _ Hr H He) as [He' Ht']. split_and!; [done..| |].
  - unfold start_action, find_action. unfold sy_state in He'.
    destruct (en_registered (sy_entry s')); cbn; [|by eexists].
    destruct (session_config (sy_entry s')) as [c|]; [|by eexists].
    destruct (sn_actions c !! name); [|destruct (sn_action_dispatcher c) as [dsp|]; [|by eexists]];
      [|destruct (resolve dsp name); cbn; [|by eexists]];
      destruct (en_state (sy_entry s')); try done; by eexists.
  - unfold start_update. unfold sy_state in He'.
    destruct (en_registered (sy_entry s')); cbn; [|done].
    destruct (update_policy (sy_entry s')); cbn; [|done].
    by destruct (en_state (sy_entry s')).
Qed.

(** * Resources *)

(** All the branches of one event. *)
Ltac exec_cases Hex :=
  cbn in Hex;
  unfold request, begin_initialization, cancel_upload, disconnect, stop, expire_lifetime, expire_idle,
    service_failed, start_action, start_update, acknowledge_action_delivery, disconnect_action,
    exec_init, exec_action, exec_update, exec_cleanup, write_metadata, precommit_check,
    commit_election, commit_failed, initializer_cleanup, finish_action, finish_update_error,
    finish_update_success, update_worker_panicked, modify, cleanup_remove in Hex;
  simplify_eq/=; repeat (case_match; simplify_eq/=; try discriminate).

Definition is_clean_step (ev : event) : bool :=
  match ev with CleanStep _ _ => true | _ => false end.

(** Only cleanup gives resources back and terminates. *)
Definition quiet (s s' : Sys) : Prop :=
  en_registered (sy_entry s') = en_registered (sy_entry s) ∧
  en_permit (sy_entry s') = en_permit (sy_entry s) ∧
  (∀ r, sy_state s' = Terminated r → sy_state s = Terminated r) ∧
  (∀ t x pc, sy_threads s' !! t = Some (TCleanup x pc) →
     pc = CStart ∨ sy_threads s !! t = Some (TCleanup x pc)).

Lemma quiet_events ev s s' :
  is_clean_step ev = false → exec ev s = Some s' → quiet s s'.
Proof.
  unfold quiet, sy_state. intros Hc Hex. destruct ev; try done; exec_cases Hex;
    (split; [done|split; [done|split; [intros ?; cbn; congruence|]]]);
    intros ???; cbn; rewrite ?lookup_insert_Some; naive_solver.
Qed.

Record Res (s : Sys) : Prop := {
  re_release : ∀ t x o, sy_threads s !! t = Some (TCleanup x (CRelease o)) →
    en_registered (sy_entry s) = false;
  re_finish : ∀ t x o, sy_threads s !! t = Some (TCleanup x (CFinish o)) →
    en_registered (sy_entry s) = false ∧ en_permit (sy_entry s) = false;
  re_terminated : ∀ r, sy_state s = Terminated r →
    en_registered (sy_entry s) = false ∧ en_permit (sy_entry s) = false;
  re_permit : en_permit (sy_entry s) = false → en_registered (sy_entry s) = false;
}.

(** A cleaner goes on: what it has given back stays given back. *)
Lemma Res_advance s t x pc' f :
  Res s →
  (en_registered (sy_entry s) = false → en_registered (f (sy_entry s)) = false) →
  (en_permit (sy_entry s) = false → en_permit (f (sy_entry s)) = false) →
  (∀ o, pc' = CRelease o → en_registered (f (sy_entry s)) = false) →
  (∀ o, pc' = CFinish o → en_registered (f (sy_entry s)) = false ∧ en_permit (f (sy_entry s)) = false) →
  (∀ r, en_state (f (sy_entry s)) = Terminated r → sy_state s = Terminated r ∨
     en_registered (f (sy_entry s)) = false ∧ en_permit (f (sy_entry s)) = false) →
  (en_permit (f (sy_entry s)) = false → en_registered (f (sy_entry s)) = false) →
  Res (put_thread t (TCleanup x pc') (modify f s)).
Proof.
  intros [R1 R2 R3 R4] Hr Hp H1 H2 H3 H4. split; unfold sy_state in *; cbn.
  - intros t' y o. rewrite lookup_insert_Some. intros [[_ [= _ ?]]|[_ ?]]; eauto.
  - intros t' y o. rewrite lookup_insert_Some. intros [[_ [= _ ?]]|[_ Ht]]; [eauto|].
    destruct (R2 _ _ _ Ht). auto.
  - intros r [[??]%R3|?]%H3; auto.
  - done.
Qed.

Lemma cleanup_remove_keeps o e :
  en_registered (cleanup_remove o e) = en_registered e ∧
  en_permit (cleanup_remove o e) = en_permit e ∧ en_state (cleanup_remove o e) = en_state e.
Proof. unfold cleanup_remove. by repeat case_match. Qed.

Lemma Res_cleanup s t x pc a s' :
  Res s → sy_threads s !! t = Some (TCleanup x pc) → exec_cleanup t x pc a s = Some s' → Res s'.
Proof.
  intros HR Ht. pose proof HR as [R1 R2 R3 R4].
  destruct pc, a; cbn; try discriminate; intros [= <-].
  - apply Res_advance; unfold cleanup_take_services; cbn; auto; done.
  - apply (Res_advance _ _ _ _ id); cbn; auto; done.
  - destruct (cleanup_remove_keeps o (sy_entry s)) as (Er & Ep & Es).
    apply Res_advance; rewrite ?Er, ?Ep, ?Es; auto; done.
  - by apply Res_advance; cbn; auto.
  - pose proof (R1 _ _ _ Ht). by apply Res_advance; cbn; auto.
  - destruct (R2 _ _ _ Ht). apply Res_advance; cbn; auto; done.
Qed.

Lemma reachable_Res s : reachable s → Res s.
Proof.
  apply reachable_ind.
  - intros * (Hs & Hr & Hp & _)%reserve_fresh.
    split; unfold sy_state; cbn; rewrite ?Hs, ?Hp; try done; intros ???; by rewrite lookup_empty.
  - intros ev s1 s2 _ HR Hex. destruct (is_clean_step ev) eqn:Hc.
    + destruct ev; try done. cbn in Hex.
      destruct (sy_threads s1 !! t) as [[]|] eqn:Ht; try done. by eapply Res_cleanup.
    + destruct (quiet_events _ _ _ Hc Hex) as (Er & Ep & Ht & Hth). destruct HR as [R1 R2 R3 R4].
      split; rewrite ?Er, ?Ep; [|intros t x o Hx|by intros r ?%Ht; eauto|done].
      * intros t x o Hx. apply Hth in Hx as [?|?]; [done|eauto].
      * apply Hth in Hx as [?|?]; [done|eauto].
Qed.

(** A terminated session holds nothing back: it is out of the registry (so a
    second [stop] finds nothing) and its build permit is released; and the
    permit is never released while the session can still be looked up. *)
Theorem terminated_releases s :
  reachable s →
  (∀ r, sy_state s = Terminated r →
     en_registered (sy_entry s) = false ∧ en_permit (sy_entry s) = false ∧
     stop (sy_entry s) = (sy_entry s, Err StopNotFound)) ∧
  (en_permit (sy_entry s) = false → en_registered (sy_entry s) = false).
Proof.
  intros Hr. destruct (reachable_Res s Hr) as [_ _ R3 R4]. split; [|done].
  intros r [Hg Hp]%R3. split_and!; [done..|]. unfold stop. by rewrite Hg.
Qed.
