(* ===== verification/SessionProgress.v ===== *)
(** Progress of a managed session: ending always can complete, and a blocked
    [stop] can always be answered. *)
From Stdlib Require Import Ascii.
From stdpp Require Import base option strings numbers gmap pretty relations list.
From S2P Require Import Prelude RustStr Protocol Config Sessions SessionSystem SessionInv SessionOwner SessionSafety.

Local Open Scope N_scope.

(** * Progress *)

Lemma new_waiter ev s s' t :
  exec ev s = Some s' → sy_threads s' !! t = Some TWaiter →
  sy_threads s !! t = Some TWaiter ∨ ended (sy_state s').
Proof.
  unfold sy_state. intros Hex. destruct ev; exec_cases Hex; rewrite ?lookup_insert_Some; naive_solver.
Qed.

Lemma waiter_ended s t : reachable s → sy_threads s !! t = Some TWaiter → ended (sy_state s).
Proof.
  intros Hr. revert t. pattern s. revert s Hr. apply reachable_ind.
  - intros * _ t. cbn. by rewrite lookup_empty.
  - intros ev s1 s2 Hr IH Hex t Ht. destruct (new_waiter _ _ _ _ Hex Ht) as [Ht1|?]; [|done].
    by apply (exec_stays_ended _ _ _ (reachable_Ids _ Hr) Hex), (IH t).
Qed.

Lemma new_applied ev s s' t r c d :
  exec ev s = Some s' → sy_threads s' !! t = Some (TUpdate r (UApplied c d)) →
  sy_threads s !! t = Some (TUpdate r (UApplied c d)) ∨ is_Some (checked_add (rv_base_revision r) 1).
Proof.
  intros Hex. destruct ev; exec_cases Hex; rewrite ?lookup_insert_Some; naive_solver.
Qed.

Lemma applied_fits s t r c d :
  reachable s → sy_threads s !! t = Some (TUpdate r (UApplied c d)) →
  is_Some (checked_add (rv_base_revision r) 1).
Proof.
  intros Hr. revert t r c d. pattern s. revert s Hr. apply reachable_ind.
  - intros * _ t. cbn. by rewrite lookup_empty.
  - intros ev s1 s2 Hr IH Hex t r c d Ht. destruct (new_applied _ _ _ _ _ _ _ Hex Ht); eauto.
Qed.

(** [s'] is reached by steps of thread [t] alone. *)
Definition alone (t : nat) (s s' : Sys) : Prop :=
  rtc step s s' ∧ ∀ t', t' ≠ t → sy_threads s' !! t' = sy_threads s !! t'.

Lemma alone_refl t s : alone t s s.
Proof. by split. Qed.

Lemma alone_exec t ev s s1 s' th :
  exec ev s = Some s1 → sy_threads s1 = <[t := th]> (sy_threads s) →
  alone t s1 s' → alone t s s'.
Proof.
  intros Hex Hk [Hr Hk']. split; [eapply rtc_l; [by exists ev|done]|].
  intros t' Hne. by rewrite Hk', Hk, lookup_insert_ne.
Qed.

Definition some_outcome : cleanup_outcome :=
  {| co_stops := []; co_is_dir := false; co_teardown := workspace_missing; co_is_dir_after := false;
     co_collection := None; co_workspace_removed := true; co_metadata_removed := true |}.

(** How far a cleaner is from its end. *)
Definition clean_rank (pc : clean_pc) : nat :=
  match pc with
  | CStart => 6 | CServices => 5 | CRemove _ => 4 | CUnregister _ => 3 | CRelease _ => 2
  | CFinish _ => 1 | CDone _ => 0
  end.

Lemma clean_next s t x pc :
  sy_threads s !! t = Some (TCleanup x pc) → clean_done pc = false →
  ∃ a s1 pc', exec (CleanStep t a) s = Some s1 ∧
    sy_threads s1 = <[t := TCleanup x pc']> (sy_threads s) ∧
    (clean_rank pc' < clean_rank pc)%nat ∧
    (clean_done pc' = true → ∃ r, sy_state s1 = Terminated r).
Proof.
  intros Ht Hd.
  exists (match pc with CServices => COutcome some_outcome | _ => CNext end).
  destruct pc; try done; cbn; rewrite Ht; do 2 eexists; split_and!; try reflexivity; cbn; try lia;
    try done.
  unfold sy_state. cbn. eauto.
Qed.

(** A cleaner alone terminates the session. *)
Lemma cleaner_terminates s t x pc :
  sy_threads s !! t = Some (TCleanup x pc) → clean_done pc = false →
  ∃ s', alone t s s' ∧ ∃ r, sy_state s' = Terminated r.
Proof.
  remember (clean_rank pc) as n eqn:Hn. revert s pc Hn.
  induction (lt_wf n) as [n _ IH]. intros s pc -> Ht Hd.
  destruct (clean_next s t x pc Ht Hd) as (a & s1 & pc' & Hex & Hth & Hlt & Hend).
  destruct (clean_done pc') eqn:Hd'.
  - exists s1. split; [|auto]. eapply alone_exec; [done|done|apply alone_refl].
  - destruct (IH _ Hlt s1 pc' eq_refl) as (s' & Ha & Hs'); [by rewrite Hth, lookup_insert_eq|done|].
    exists s'. split; [|done]. by eapply alone_exec.
Qed.

(** One step of a worker, after which the rest of the path is known. *)
Lemma worker_terminates ev s s1 t th :
  exec ev s = Some s1 → sy_threads s1 = <[t := th]> (sy_threads s) →
  (∃ s', alone t s1 s' ∧ ∃ r, sy_state s' = Terminated r) →
  ∃ s', alone t s s' ∧ ∃ r, sy_state s' = Terminated r.
Proof. intros ?? (s' & ? & ?). exists s'. split; [|done]. by eapply alone_exec. Qed.

Lemma init_terminates s t pc x :
  sy_threads s !! t = Some (TInit pc) →
  sy_state s = Terminating {| tm_explicit := x; tm_owner := Initializer |} →
  ∃ s', alone t s s' ∧ ∃ r, sy_state s' = Terminated r.
Proof.
  unfold sy_state. intros Ht Hs.
  assert (∀ s, sy_threads s !! t = Some (TInit IFailing) →
    en_state (sy_entry s) = Terminating {| tm_explicit := x; tm_owner := Initializer |} →
    ∃ s', alone t s s' ∧ ∃ r, en_state (sy_entry s') = Terminated r) as Hfail.
  { clear. intros s Ht Hs.
    eapply (worker_terminates (InitStep t ICleanup)); [cbn; rewrite Ht; reflexivity|reflexivity|].
    cbn. unfold initializer_cleanup. rewrite Hs. cbn.
    eapply cleaner_terminates; [cbn; by rewrite lookup_insert_eq|done]. }
  assert (∀ s, sy_threads s !! t = Some (TInit IRemoving) →
    en_state (sy_entry s) = Terminating {| tm_explicit := x; tm_owner := Initializer |} →
    ∃ s', alone t s s' ∧ ∃ r, en_state (sy_entry s') = Terminated r) as Hrem.
  { intros s0 Ht0 Hs0.
    eapply (worker_terminates (InitStep t IRemove)); [cbn; rewrite Ht0; reflexivity|reflexivity|].
    apply Hfail; [cbn; by rewrite lookup_insert_eq|done]. }
  destruct pc; auto.
  - eapply (worker_terminates (InitStep t IFail)); [cbn; rewrite Ht; reflexivity|reflexivity|].
    apply Hfail; [cbn; by rewrite lookup_insert_eq|done].
  - eapply (worker_terminates (InitStep t (IWrite (Some PrepareFault))));
      [cbn; rewrite Ht; reflexivity|reflexivity|].
    apply Hfail; [cbn; by rewrite lookup_insert_eq|]. cbn. unfold commit_failed. by rewrite Hs.
  - eapply (worker_terminates (InitStep t IElect));
      [cbn; rewrite Ht; cbn; unfold commit_election; rewrite Hs; reflexivity|reflexivity|].
    apply Hrem; [cbn; by rewrite lookup_insert_eq|]. cbn. unfold commit_failed. by rewrite Hs.
Qed.

Lemma action_terminates s t a pc x :
  sy_threads s !! t = Some (TAction a pc) →
  sy_state s = Terminating {| tm_explicit := x; tm_owner := ActionOwner |} →
  ∃ s', alone t s s' ∧ ∃ r, sy_state s' = Terminated r.
Proof.
  unfold sy_state. intros Ht Hs.
  assert (∀ s, sy_threads s !! t = Some (TAction a AFinishing) →
    en_state (sy_entry s) = Terminating {| tm_explicit := x; tm_owner := ActionOwner |} →
    ∃ s', alone t s s' ∧ ∃ r, en_state (sy_entry s') = Terminated r) as Hfin.
  { clear. intros s Ht Hs.
    eapply (worker_terminates (ActionStep t AFinish)); [cbn; rewrite Ht; reflexivity|reflexivity|].
    unfold finish_action. rewrite Hs. cbn.
    eapply cleaner_terminates; [cbn; by rewrite lookup_insert_eq|done]. }
  destruct pc; auto.
  - eapply (worker_terminates (ActionStep t AFail)); [cbn; rewrite Ht; reflexivity|reflexivity|].
    apply Hfin; [cbn; by rewrite lookup_insert_eq|done].
  - eapply (worker_terminates (ActionStep t ATimeout)); [cbn; rewrite Ht; reflexivity|reflexivity|].
    apply Hfin; [cbn; by rewrite lookup_insert_eq|done].
Qed.

Lemma update_terminates s t r pc x :
  reachable s → sy_threads s !! t = Some (TUpdate r pc) →
  sy_state s = Terminating {| tm_explicit := x; tm_owner := UpdateOwner |} →
  en_registered (sy_entry s) = true →
  ∃ s', alone t s s' ∧ ∃ r, sy_state s' = Terminated r.
Proof.
  unfold sy_state. intros Hr Ht Hs Hreg.
  assert (∀ s err, sy_threads s !! t = Some (TUpdate r (UFailed err)) →
    en_state (sy_entry s) = Terminating {| tm_explicit := x; tm_owner := UpdateOwner |} →
    ∃ s', alone t s s' ∧ ∃ r, en_state (sy_entry s') = Terminated r) as Hfail.
  { clear. intros s err Ht Hs.
    eapply (worker_terminates (UpdateStep t UFinish));
      [cbn; rewrite Ht; unfold exec_update; destruct (checked_add _ _); reflexivity|reflexivity|].
    unfold finish_update_error. rewrite Hs. cbn.
    eapply cleaner_terminates; [cbn; by rewrite lookup_insert_eq|done]. }
  destruct pc as [|c d|err|]; [| |by eauto|].
  - pose (err := {| ue_kind := UInternal; ue_rollback_proven := false |}).
    eapply (worker_terminates (UpdateStep t (UEarlyError err)));
      [cbn; rewrite Ht; unfold exec_update; destruct (checked_add _ _); reflexivity|reflexivity|].
    eapply Hfail; [cbn; by rewrite lookup_insert_eq|done].
  - destruct (applied_fits _ _ _ _ _ Hr Ht) as [nr Hnr].
    eapply (worker_terminates (UpdateStep t UFinish));
      [cbn; rewrite Ht; unfold exec_update, finish_update_success; rewrite Hnr, Hs; cbn;
       reflexivity|reflexivity|].
    eapply cleaner_terminates; [cbn; by rewrite lookup_insert_eq|done].
  - eapply (worker_terminates (UpdateStep t UFinish));
      [cbn; rewrite Ht; unfold exec_update; destruct (checked_add _ _); reflexivity|reflexivity|].
    unfold update_worker_panicked. rewrite Hreg, Hs. cbn.
    eapply cleaner_terminates; [cbn; by rewrite lookup_insert_eq|done].
Qed.

(** A thread exists that terminates an ending session by its own steps. *)
Lemma ending_terminates s x :
  reachable s → sy_state s = Terminating x →
  ∃ t th s', sy_threads s !! t = Some th ∧ th ≠ TWaiter ∧ alone t s s' ∧
    ∃ r, sy_state s' = Terminated r.
Proof.
  intros Hr Hs. destruct x as [x o]. pose proof (reachable_Resp s Hr) as HR.
  destruct (en_registered (sy_entry s)) eqn:Hreg.
  - destruct (rs_exists _ HR) as (t & th & Ht & Hth); [by rewrite Hs|].
    rewrite Hs in Hth. exists t, th.
    destruct th; cbn in Hth; try done;
      [subst o; edestruct init_terminates as (s' & ? & ?)
      |destruct Hth as [-> _]; edestruct action_terminates as (s' & ? & ?)
      |subst o; edestruct update_terminates as (s' & ? & ?)
      |edestruct cleaner_terminates as (s' & ? & ?)]; eauto 10.
  - destruct (rs_registered _ HR Hreg) as [[r ?]|(t & y & pc & Ht & Hpc)]; [congruence|].
    exists t, (TCleanup y pc). edestruct cleaner_terminates as (s' & ? & ?); eauto 10.
Qed.

(** Ending is never stuck.  From every reachable state in which the session
    is being ended there is a thread whose own steps, without the help of any
    client, timer or other worker, lead to the terminated state. *)
Theorem ending_completes s x :
  reachable s → sy_state s = Terminating x →
  ∃ t s', alone t s s' ∧ ∃ r, sy_state s' = Terminated r.
Proof. intros Hr Hs. destruct (ending_terminates s x Hr Hs) as (t & th & s' & _ & _ & ? & ?). eauto. Qed.

(** C3: A blocked [stop] can always be answered: whenever a caller waits for the
    end of a session, the system can reach a state in which that caller has
    returned the response the session terminated with. *)
Theorem stop_is_answered s t :
  reachable s → sy_threads s !! t = Some TWaiter →
  ∃ s' r, rtc step s s' ∧ sy_threads s' !! t = Some (TStopped r) ∧ sy_state s' = Terminated r.
Proof.
  intros Hr Ht. pose proof (waiter_ended _ _ Hr Ht) as He.
  assert (∃ s1 r, rtc step s s1 ∧ sy_threads s1 !! t = Some TWaiter ∧ sy_state s1 = Terminated r)
    as (s1 & r & Hrun & Ht1 & Hs1).
  { destruct (sy_state s) as [| | | |x|r] eqn:Hs; try done; [|by exists s, r].

    destruct (ending_terminates s x Hr Hs) as (t' & th & s1 & Ht' & Hne & [Hrun Hk] & r & Hs1).
    exists s1, r. split_and!; [done| |done]. rewrite Hk; [done|].
    intros <-. rewrite Ht in Ht'. by injection Ht' as <-. }
  exists (put_thread t (TStopped r) s1), r. split_and!; [|cbn; by rewrite lookup_insert_eq|done].
  eapply rtc_r; [done|]. exists (Wake t). cbn. rewrite Ht1. unfold sy_state in Hs1. by rewrite Hs1.
Qed.

(** * A concrete session and its runs, evaluated by [exec]. *)

Definition demo_run_session : TaskSessionConfig := {|
  sn_idle_timeout_sec := 60; sn_max_lifetime_sec := 3600;
  sn_teardown := sn_teardown demo_session; sn_services := ∅; sn_actions := ∅;
  sn_action_dispatcher := sn_action_dispatcher demo_session;
  sn_source_updates := sn_source_updates demo_session;
|}.
Definition demo_run_task : TaskConfig := {|
  tk_script := tk_script demo_task; tk_executable := tk_executable demo_task;
  tk_args := tk_args demo_task; tk_setup := tk_setup demo_task; tk_session := Some demo_run_session;
  tk_cwd := tk_cwd demo_task; tk_timeout_sec := tk_timeout_sec demo_task;
  tk_environment := tk_environment demo_task; tk_artifacts := tk_artifacts demo_task;
  tk_workspace := Fresh;
|}.
Definition demo_run_entry : SessionEntry :=
  default {| en_id := ""; en_request_id := None; en_task_id := ""; en_task := demo_run_task;
             en_deadline := 0; en_state := Initializing false; en_init_cancelled := false;
             en_cancelled := ∅; en_permit := true; en_registered := true; en_revision := 0;
             en_last_success := None; en_services := []; en_retaining_output := false;
             en_workspace := false; en_metadata := None |}
    (reserve "ses_1" None "build" demo_run_task 0).

Definition get_ready : list event :=
  [Begin 0; InitStep 0 IWorkspace; InitStep 0 ICheck; InitStep 0 (IWrite None); InitStep 0 IElect].

Lemma run_reachable evs s s' : reachable s → run evs s = Some s' → reachable s'.
Proof.
  revert s. induction evs as [|ev evs IH]; intros s Hr; cbn; [by intros [= <-]|].
  destruct (exec ev s) as [s1|] eqn:E; [cbn|done]. by apply IH, (reachable_exec _ _ _ Hr E).
Qed.

Lemma demo_run_start : reachable (initial 0 demo_run_entry).
Proof.
  exists "ses_1", None, "build", demo_run_task, 0, demo_run_entry. split; [vm_compute; reflexivity|constructor].
Qed.

(** A run from the reservation exists and its final state passes the test. *)
Definition passes (evs : list event) (p : Sys → bool) : bool :=
  match run evs (initial 0 demo_run_entry) with Some s => p s | None => false end.

Lemma passes_reachable evs p : passes evs p = true → ∃ s, reachable s ∧ p s = true.
Proof.
  unfold passes. destruct (run evs _) as [s|] eqn:E; [|done]. intros Hp.
  exists s. split; [|done]. by eapply run_reachable; [apply demo_run_start|].
Qed.

Definition timely_b (s : Sys) : bool := bool_decide (sy_acked s ∩ sy_gave_up s = ∅).
Lemma timely_b_true s : timely_b s = true → timely s.
Proof. unfold timely_b, timely. intros ?%bool_decide_eq_true. set_solver. Qed.

Definition thread_is (t : nat) (p : thread → bool) (s : Sys) : bool :=
  match sy_threads s !! t with Some th => p th | None => false end.
Lemma thread_is_true t p s :
  thread_is t p s = true → ∃ th, sy_threads s !! t = Some th ∧ p th = true.
Proof. unfold thread_is. destruct (sy_threads s !! t); eauto. done. Qed.

(** * Delivery of an action's final event: the archive of an acknowledged action is
    kept unless the acknowledgement raced with its worker's deadline, and what
    that race does. *)

Definition delivery_event (ev : event) : bool :=
  match ev with ActionStep _ _ | Acknowledge _ | DisconnectAction _ => true | _ => false end.

Lemma other_delivery ev s s' :
  delivery_event ev = false → exec ev s = Some s' →
  sy_archives s' = sy_archives s ∧ sy_final s' = sy_final s ∧ sy_acked s' = sy_acked s ∧
  sy_gave_up s' = sy_gave_up s.
Proof. intros Hd Hex. destruct ev; try done; exec_cases Hex; done. Qed.

Lemma cancelled_grows ev s s' :
  exec ev s = Some s' → en_cancelled (sy_entry s) ⊆ en_cancelled (sy_entry s').
Proof. intros Hex. destruct ev; exec_cases Hex; set_solver. Qed.

(** Where the archive of an action that may be acknowledged is. *)
Record Arch (s : Sys) : Prop := {
  ar_final : ∀ a, a ∈ sy_final s →
    a ∈ sy_archives s ∨ a ∈ sy_gave_up s ∨ a ∈ en_cancelled (sy_entry s);
  ar_acked : ∀ a, a ∈ sy_acked s → a ∈ sy_archives s ∨ a ∈ sy_gave_up s;
}.

Lemma Arch_give_up s s' a :
  Ids s → Arch s →
  sy_archives s' = sy_archives s ∖ {[ a ]} → sy_final s' = sy_final s →
  sy_acked s' = sy_acked s → sy_gave_up s ⊆ sy_gave_up s' →
  en_cancelled (sy_entry s') = en_cancelled (sy_entry s) →
  (a ∈ sy_final s ∨ a ∈ sy_acked s → a ∈ sy_gave_up s' ∨ a ∈ en_cancelled (sy_entry s)) →
  Arch s'.
Proof.
  intros HI [A1 A2] Ea Ef Ek Hg Ec Ha. split; rewrite ?Ea, ?Ef, ?Ek, ?Ec.
  - intros b Hb. destruct (decide (b = a)) as [->|]; [right; by apply Ha; left|].
    destruct (A1 b Hb) as [?|[?|?]]; set_solver.
  - intros b Hb. destruct (decide (b = a)) as [->|].
    + destruct Ha as [?|?]; [by right|by right|]. by destruct (id_acked_live _ HI a Hb).
    + destruct (A2 b Hb); set_solver.
Qed.

Lemma Arch_action s t a pc st s' :
  Ids s → Arch s → sy_threads s !! t = Some (TAction a pc) → exec_action t a pc st s = Some s' → Arch s'.
Proof.
  intros HI HA Ht. pose proof HA as [A1 A2]. destruct pc, st; cbn; try discriminate.
  - intros [= <-]. by split.
  - destruct (action_can_publish _ _ _); intros [= <-]; [|by split].
    split; cbn; intros b; [rewrite elem_of_union, elem_of_singleton|].
    + intros [->|Hb]; [set_solver|]. destruct (A1 b Hb); set_solver.
    + intros Hb. destruct (A2 b Hb); set_solver.
  - destruct (sy_acks s !! a) as [[]|] eqn:Hk; intros [= <-]; [by split|].
    eapply (Arch_give_up s); try done. intros [Hf|Hf].
    + apply (id_final _ HI) in Hf. congruence.
    + apply (id_acked _ HI) in Hf. congruence.
  - destruct (is_cancelled a _) eqn:Hc; intros [= <-]. unfold is_cancelled in Hc. breflect.
    eapply (Arch_give_up s); try done. by right.
  - case_bool_decide; [done|]. destruct (sy_acks s !! a) eqn:Hk; intros [= <-].
    eapply (Arch_give_up s); try done. intros [?|Hf]; [done|].
    apply (id_acked _ HI) in Hf. congruence.
  - intros [= <-]. eapply (Arch_give_up s); try done; cbn; set_solver.
  - intros [= <-]. pose proof (finish_action_settles (sy_now s) a false (sy_entry s)) as [Hc _].
    split; cbn; rewrite ?Hc; done.
Qed.

Lemma Arch_exec ev s s' : Ids s → Arch s → exec ev s = Some s' → Arch s'.
Proof.
  intros HI HA Hex. destruct (delivery_event ev) eqn:Hd.
  - pose proof (cancelled_grows _ _ _ Hex) as Hcg. destruct ev; try done; cbn in Hex.
    + case_bool_decide as Hf; [|done].
      destruct (acknowledge_action_delivery _ _ _) as [e' accepted] eqn:E. simplify_eq.
      apply acknowledge_cases in E as [_ Hcase]. destruct HA as [A1 A2].
      split; intros b Hb.
      * destruct (A1 b) as [?|[?|Hc]]; [by destruct accepted; cbn in Hb; set_solver|..];
          [left|right; left|right; right; apply Hcg, Hc]; by destruct accepted.
      * assert (b ∈ sy_acked s ∨ b = action_id ∧ accepted = true) as [Hb'|[-> ->]]
          by (destruct accepted; cbn in Hb; set_solver).
        -- destruct (A2 b Hb'); [left|right]; by destruct accepted.
        -- cbn. destruct (A1 action_id Hf) as [?|[?|Hc]]; auto.
           destruct Hcase as [[_ ?]|[(Hs & _)|(_ & _ & _ & ?)]]; try done.
           by destruct (id_current _ HI action_id) as (_ & _ & ?); [left|].
    + destruct HA as [A1 A2]. simplify_eq. split; cbn; [|done].
      intros b Hb. destruct (A1 b) as [?|[?|Hc]]; [set_solver|by auto|by auto|].
      right; right. by apply Hcg.
    + destruct (sy_threads s !! t) as [[]|] eqn:Ht; try done. by eapply Arch_action.
  - destruct (other_delivery _ _ _ Hd Hex) as (Ea & Ef & Ek & Eg).
    pose proof (cancelled_grows _ _ _ Hex). destruct HA as [A1 A2].
    split; rewrite ?Ea, ?Ef, ?Ek, ?Eg; [|done]. intros a [?|[?|?]]%A1; auto.
Qed.

Lemma reachable_Arch s : reachable s → Arch s.
Proof.
  apply reachable_ind; [|intros; eapply Arch_exec; [by apply reachable_Ids|done..]].
  intros * _. by split.
Qed.

(** An acknowledged delivery is durable: unless its worker gave up at the same
    time, the archive of every action whose final event the client's stream
    accepted stays stored. *)
Theorem acknowledged_archive_kept s a :
  reachable s → timely s → a ∈ sy_acked s → a ∈ sy_archives s.
Proof.
  intros Hr Ht Ha. destruct (ar_acked _ (reachable_Arch s Hr) a Ha) as [?|Hg]; [done|].
  by destruct (Ht a).
Qed.

(** * The race between acknowledgement and deadline *)

(** The worker of [act_1] reaches its acknowledgement deadline; before it calls
    [finish_action] the stream acknowledges; a second action starts and is
    disconnected; both workers then find the session terminating for an action. *)
Definition late_ack : list event :=
  get_ready ++
  [StartAction 1 "test" "act_1"; ActionStep 1 APublish; ActionStep 1 ATimeout; Acknowledge "act_1";
   StartAction 2 "test" "act_2"; DisconnectAction "act_2"; ActionStep 1 AFinish;
   ActionStep 2 AFail; ActionStep 2 AFinish].

Definition starts_cleanup (o : option thread) : bool :=
  match o with Some (TCleanup false CStart) => true | _ => false end.
Lemma starts_cleanup_true o : starts_cleanup o = true → o = Some (TCleanup false CStart).
Proof. by destruct o as [[| | |[] []| | |]|]. Qed.

(** C38: The acknowledgement race has consequences: there is an execution in which an
    action was acknowledged although its worker gave up, its archive is gone, and
    two threads run [cleanup_entry] for the same session at once. *)
Theorem late_acknowledgement_cleans_twice :
  ∃ s, reachable s ∧ "act_1" ∈ sy_acked s ∧ ("act_1" ∉ sy_archives s) ∧
    sy_threads s !! 1%nat = Some (TCleanup false CStart) ∧
    sy_threads s !! 2%nat = Some (TCleanup false CStart).
Proof.
  assert (match run late_ack (initial 0 demo_run_entry) with
          | Some s => bool_decide ("act_1" ∈ sy_acked s) && negb (bool_decide ("act_1" ∈ sy_archives s))
                      && starts_cleanup (sy_threads s !! 1%nat) && starts_cleanup (sy_threads s !! 2%nat)
          | None => false
          end = true) as H by (vm_compute; reflexivity).
  destruct (run late_ack (initial 0 demo_run_entry)) as [s|] eqn:E; [|done].
  exists s. split; [exact (run_reachable _ _ _ demo_run_start E)|].
  breflect. split_and!; [done..| |]; by apply starts_cleanup_true.
Qed.
