(* ===== verification/SessionDurable.v ===== *)
(** Durable metadata: a session that can be used is recorded on disk, and what the
    next start of the daemon does with the records it finds. *)
From Stdlib Require Import Ascii.
From stdpp Require Import base option strings numbers gmap pretty relations list.
From S2P Require Import Prelude RustStr Fs Protocol Config Sessions SessionSystem SessionInv SessionOwner SessionSafety.

Local Open Scope N_scope.

Definition usable (st : SessionState) : bool :=
  match st with Ready _ | Action _ | Updating _ => true | _ => false end.

(** The metadata file describes the entry: a restarted daemon finds its task and
    every service process it has to wait for. *)
Definition recorded (e : SessionEntry) : Prop :=
  ∃ m, en_metadata e = Some m ∧ dm_state m = DReady ∧ dm_session_id m = en_id e ∧
    dm_task_id m = en_task_id e ∧ dm_services m = en_services e.

Definition same_record (e e' : SessionEntry) : Prop :=
  en_metadata e' = en_metadata e ∧ en_services e' = en_services e ∧ en_id e' = en_id e ∧
  en_task_id e' = en_task_id e.

Lemma same_recorded e e' : same_record e e' → recorded e → recorded e'.
Proof. intros (? & ? & ? & ?) (m & ? & ? & ? & ? & ?). exists m. split_and!; congruence. Qed.

(** Events other than the initialization, the commit of an update and cleanup
    leave the record alone and do not make a session usable. *)
Lemma record_kept ev s s' :
  exec ev s = Some s' →
  (∃ t a, ev = InitStep t a) ∨ (∃ t a, ev = CleanStep t a) ∨
  (∃ t f, ev = UpdateStep t (UCommit f)) ∨
  (same_record (sy_entry s) (sy_entry s') ∧
   (usable (sy_state s') = true → usable (sy_state s) = true) ∧
   ∀ t, sy_threads s' !! t = Some (TInit IWritten) → sy_threads s !! t = Some (TInit IWritten)).
Proof.
  unfold sy_state, same_record. intros Hex.
  destruct ev as [| | | | | | | | | | | |t a|t a|t a|t a|];
    [..|left; by eauto| |destruct a; [|right; right; left; by eauto|..]|right; left; by eauto|];
    exec_cases Hex; right; right; right;
    (split; [done|]; split;
     [cbn; intros; try done; by repeat match goal with E : en_state _ = _ |- _ => rewrite E in * end
     |intros ?; rewrite ?lookup_insert_Some; naive_solver]).
Qed.

Record Meta (s : Sys) : Prop := {
  me_usable : usable (sy_state s) = true → recorded (sy_entry s);
  me_written : ∀ t, sy_threads s !! t = Some (TInit IWritten) → recorded (sy_entry s);
}.

Lemma matches_init acked st pc :
  matches acked st (TInit pc) → usable st = false ∧ (is_initializing st = true ∨ ended st).
Proof.
  intros [Hm|(? & ? & _ & ?)]; [|done]. destruct st as [[]| | | | |]; cbn in *; auto; done.
Qed.

(** After a step of the initializer: usable only if it won the election. *)
Lemma Meta_init s t pc a s' :
  Own s → Meta s → sy_threads s !! t = Some (TInit pc) → exec_init t pc a s = Some s' → Meta s'.
Proof.
  intros HO [M1 M2] Ht Hex.
  destruct (HO _ _ Ht I) as [Hm Hu]. apply matches_init in Hm as [Hnu Hst].
  assert (∀ t' th, sy_threads (put_thread t th s) !! t' = Some (TInit IWritten) → t' = t ∧ th = TInit IWritten)
    as Honly.
  { intros t' th. cbn. rewrite lookup_insert_Some. intros [[<- ?]|[Hne Ht']]; [done|].
    destruct Hne. symmetry. by apply (Hu _ _ Ht'). }
  unfold sy_state in *.
  destruct pc, a; unfold exec_init in Hex; try discriminate.
  - simplify_eq/=. split; unfold sy_state; cbn; [congruence|]. by intros t' [_ ?]%Honly.
  - simplify_eq/=. split; unfold sy_state; cbn; [congruence|]. intros t' Ht'.
    assert (t' = t) as -> by by apply (Hu _ _ Ht'). congruence.
  - destruct (write_metadata _ _ _) as [e' ok] eqn:Ew. simplify_eq/=.
    assert (en_state e' = en_state (sy_entry s)) as Es.
    { replace e' with (e', ok).1 by done. rewrite <-Ew. apply write_metadata_state. }
    split; unfold sy_state; cbn; [congruence|]. intros t' [_ ?]%Honly. by destruct ok.
  - destruct (sy_services_started s); [|done].
    destruct (write_metadata _ _ _) as [e' ok] eqn:Ew. simplify_eq/=.
    assert (en_state e' = en_state (sy_entry s)) as Es.
    { replace e' with (e', ok).1 by done. rewrite <-Ew. by rewrite (proj1 (write_metadata_state _ _ _)). }
    split; unfold sy_state; cbn; [congruence|]. intros t' [_ ?]%Honly. by destruct ok.
  - pose proof (precommit_check_cases (sy_now s) (sy_entry s)) as Hp.
    destruct (precommit_check _ _) as [e' ok]. simplify_eq/=.
    split; unfold sy_state; cbn; [|intros t' [_ ?]%Honly; by destruct ok].
    destruct Hp as [[-> _]|(_ & [x Hx] & _)]; [congruence|]. by rewrite Hx.
  - destruct (write_metadata _ _ _) as [e' ok] eqn:Ew.
    assert (en_state e' = en_state (sy_entry s)) as Es.
    { replace e' with (e', ok).1 by done. rewrite <-Ew. apply write_metadata_state. }
    destruct ok; simplify_eq/=; split; unfold sy_state; cbn.
    + congruence.
    + intros t' [_ _]%Honly. destruct fault as [[]|]; simplify_eq/=. eexists. by split_and!.
    + destruct (commit_failed_cases e') as [[-> _]|[_ [x Hx]]]; [congruence|by rewrite Hx].
    + by intros t' [_ ?]%Honly.
  - pose proof (commit_election_cases (sy_now s) (sy_entry s)) as Hc.
    assert (same_record (sy_entry s) (commit_election (sy_now s) (sy_entry s)).1) as Hsame
      by (unfold commit_election, commit_failed, same_record; by repeat case_match).
    destruct (commit_election _ _) as [e' ready]. simplify_eq/=.
    split; unfold sy_state; cbn; [|intros t' [_ ?]%Honly; by destruct ready].
    intros _. eapply same_recorded; [done|]. eauto.
  - simplify_eq/=. split; unfold sy_state; cbn; [congruence|]. by intros t' [_ ?]%Honly.
  - pose proof (initializer_cleanup_cases false (sy_entry s)) as Hc.
    destruct (initializer_cleanup false (sy_entry s)) as [e' n]. simplify_eq/=.
    split; unfold sy_state; cbn; [|intros t' [_ ?]%Honly; by destruct n].
    destruct Hc as [(_ & [x ->] & _)|[(-> & _ & _)|(-> & _ & _ & _)]]; [done|congruence..].
Qed.

Lemma Meta_exec ev s s' :
  Resp s → Own s → Meta s → exec ev s = Some s' → Meta s'.
Proof.
  intros HR HO HM Hex.
  destruct (record_kept _ _ _ Hex) as [(t & a & ->)|[(t & a & ->)|[(t & f & ->)|(Hsame & Hu & Hw)]]].
  - cbn in Hex. destruct (sy_threads s !! t) as [[]|] eqn:Ht; try done. by eapply Meta_init.
  - cbn in Hex. destruct (sy_threads s !! t) as [[| | |x pc| | |]|] eqn:Ht; try done.
    pose proof (cleanup_stays_ended _ _ _ _ _ _ Hex (rs_ended _ HR _ _ _ Ht)) as [He _].
    destruct (HO _ _ Ht I) as [_ Hu].
    split; [by destruct (sy_state s')|]. intros t' Ht'.
    assert (sy_threads s !! t' = Some (TInit IWritten)) as Ht0.
    { destruct pc, a; simplify_eq/=; rewrite lookup_insert_Some in Ht'; by destruct Ht' as [[_ ?]|[_ ?]]. }
    assert (t' = t) as -> by by apply (Hu _ _ Ht0). congruence.
  - cbn in Hex. destruct (sy_threads s !! t) as [[]|] eqn:Ht; try done.
    unfold exec_update in Hex.
    destruct (checked_add _ _) as [nr|], pc; try done. simplify_eq/=. destruct HM as [M1 M2].
    assert (recorded (sy_entry s) → recorded (write_metadata f (durable_metadata
      (metadata_version (sy_entry s)) nr DReady (sy_entry s)) (sy_entry s)).1) as Hrec.
    { intros Hr. destruct f as [[]|]; cbn; try done; eexists; by split_and!. }
    split; unfold sy_state in *; cbn.
    + rewrite (proj1 (write_metadata_state _ _ _)). auto.
    + eauto.
  - destruct HM as [M1 M2].
    split; [intros Hus|intros t Ht]; (eapply same_recorded; [done|]); eauto.
Qed.

Lemma reachable_Meta s : reachable s → timely s → Meta s.
Proof.
  apply (reachable_ind (λ s, timely s → Meta s)).
  - intros * (Hs & _)%reserve_fresh _. split; unfold sy_state; cbn; [by rewrite Hs|].
    intros t. by rewrite lookup_empty.
  - intros ev s1 s2 Hr IH Hex Ht. pose proof (timely_before _ _ _ Hex Ht) as Ht1.
    eapply Meta_exec; [by apply reachable_Resp|by apply reachable_Own|auto|done].
Qed.

(** A session that clients can use is recorded durably: whenever a session is
    ready, running an action or applying an update, its metadata file exists,
    marks it ready, names its task and lists exactly its service processes, so a
    daemon that restarts at any such moment finds it. *)
Theorem usable_session_recorded s :
  reachable s → timely s → usable (sy_state s) = true → recorded (sy_entry s).
Proof. intros Hr Ht. apply (me_usable _ (reachable_Meta s Hr Ht)). Qed.

(** * Startup *)

Section startup.
Context (process_exists : N → bool) (process_group_exists : Z → result io_error bool).

(** Every process a record names is known to be gone. *)
Definition all_gone (m : DurableSessionMetadata) : Prop :=
  Forall (λ p, process_exists (dp_supervisor_pid p) = false ∧
               process_exists (dp_service_pid p) = false ∧
               process_group_exists (dp_service_pgid p) = Ok false) (dm_services m).

Lemma await_Ok m u :
  await_stale_service_shutdown process_exists process_group_exists m = Ok u ↔ all_gone m.
Proof.
  unfold await_stale_service_shutdown, all_gone. rewrite for_each_Ok, rev_alt.
  change (rev_append (dm_services m) []) with (reverse (dm_services m)). rewrite Forall_reverse.
  apply Forall_iff. intros p.
  destruct (process_exists (dp_supervisor_pid p)); cbn; [naive_solver|].
  destruct (process_exists (dp_service_pid p)); cbn; [naive_solver|].
  destruct (process_group_exists (dp_service_pgid p)) as [[]|]; cbn; naive_solver.
Qed.

Context (read : string → result io_error DurableSessionMetadata)
        (is_dir : string → bool) (tasks : gmap string TaskConfig).

Lemma stale_session_id_Some name id : stale_session_id name = Some id → name = id +:+ ".json".
Proof.
  unfold stale_session_id. destruct (strip_suffix_str ".json" name) as [stem|] eqn:E; [|done].
  apply strip_suffix_str_Some in E. case_match; [done|]. by intros [= <-].
Qed.

(** A readable record of a known version that names its own session. *)
Definition own_record (id : string) (m : DurableSessionMetadata) : Prop :=
  read (id +:+ ".json") = Ok m ∧ dm_session_id m = id ∧ (dm_version m = 2 ∨ dm_version m = 3).

Lemma accept_metadata_true id m :
  read (id +:+ ".json") = Ok m → accept_metadata id m = true ↔ own_record id m.
Proof.
  intros Hr. unfold accept_metadata, own_record. rewrite andb_true_iff, orb_true_iff, !N.eqb_eq,
    bool_decide_eq_true. unfold METADATA_VERSION. naive_solver.
Qed.

Definition teardown_of (id : string) (m : DurableSessionMetadata) : option string :=
  match tasks !! dm_task_id m with
  | Some task => if is_some (tk_session task) && is_dir id then Some (dm_task_id m) else None
  | None => None
  end.

(** What one step of the reconciliation does. *)
Lemma reconcile_one_Ok name id td :
  reconcile_one process_exists process_group_exists read is_dir tasks name = Ok (RemoveSession id td) →
  name = id +:+ ".json" ∧
  ((∃ m, own_record id m ∧ all_gone m ∧ td = teardown_of id m) ∨
   (∀ m, ¬ own_record id m) ∧ td = None).
Proof.
  unfold reconcile_one. destruct (stale_session_id name) as [sid|] eqn:Hs; [|done].
  apply stale_session_id_Some in Hs. destruct (read name) as [m|] eqn:Hread; cbn.
  - rewrite Hs in Hread. pose proof (accept_metadata_true _ _ Hread) as Hacc.
    destruct (accept_metadata sid m).
    + intros ([] & Haw%await_Ok & [= <- <-])%bind_Ok. split; [done|]. left. exists m.
      split_and!; [by apply Hacc|done|done].
    + intros [= <- <-]. split; [done|]. right. split; [|done]. intros m' Hm.
      pose proof Hm as [Hr' _]. assert (m' = m) as -> by congruence. by apply Hacc in Hm.
  - intros [= <- <-]. split; [done|]. right. split; [|done]. intros m [Hr _]. congruence.
Qed.

Lemma reconcile_one_own name id m :
  name = id +:+ ".json" → id ≠ "" → own_record id m →
  is_ok (reconcile_one process_exists process_group_exists read is_dir tasks name) = true → all_gone m.
Proof.
  intros -> Hne Hm. unfold reconcile_one.
  assert (stale_session_id (id +:+ ".json") = Some id) as ->.
  { unfold stale_session_id. rewrite (proj2 (strip_suffix_str_Some _ _ id)) by done. by destruct id. }
  pose proof Hm as [Hr _]. rewrite Hr. cbn. rewrite (proj2 (accept_metadata_true _ _ Hr) Hm).
  destruct (await_stale_service_shutdown _ _ m) eqn:Haw; [|done]. intros _. by apply await_Ok in Haw.
Qed.

Lemma reconcile_entries_spec names acts res :
  reconcile_entries process_exists process_group_exists read is_dir tasks names = (acts, res) →
  (∀ id td, RemoveSession id td ∈ acts →
     (∃ m, own_record id m ∧ all_gone m ∧ td = teardown_of id m) ∨
     (∀ m, ¬ own_record id m) ∧ td = None) ∧
  (∀ id m, id ≠ "" → Ok (id +:+ ".json") ∈ names → own_record id m → res = Ok tt → all_gone m) ∧
  (∀ name, RemoveWorkspace name ∉ acts).
Proof.
  revert acts res. induction names as [|[name|err] names IH]; intros acts res; cbn.
  { intros [= <- <-]. split_and!; intros; set_solver. }
  2: { intros [= <- <-]. split_and!; intros; set_solver. }
  destruct (reconcile_one _ _ _ _ _ name) as [a|] eqn:Hone.
  - destruct (reconcile_entries _ _ _ _ _ names) as [l r] eqn:Hl. intros [= <- <-].
    destruct (IH _ _ eq_refl) as (IH1 & IH2 & IH3). split_and!.
    + intros id td [<-|Hin]%elem_of_cons; [by apply reconcile_one_Ok in Hone as [_ ?]|by apply IH1].
    + intros id m Hne [[= Heq]|Hin]%elem_of_cons Hm Hres; [|by eapply IH2].
      eapply (reconcile_one_own name); [done|done|done|]. by rewrite Hone.
    + intros w [<-|Hin]%elem_of_cons; [|by apply (IH3 w)]. revert Hone. unfold reconcile_one.
      destruct (stale_session_id name); [|done]. destruct (result_ok (read name)); [|done].
      destruct (accept_metadata _ _); [|done]. by intros ([] & _ & ?)%bind_Ok.
  - intros [= <- <-]. split_and!; intros; set_solver.
Qed.

(** The recorded sessions of a protected metadata directory: none of them has a
    process that may be alive. *)
Definition recorded_gone (daemon_uid : N) (metadata_root : result io_error file_meta)
    (listing : dir_listing) : Prop :=
  ∀ dir id m names, metadata_root = Ok dir → listing = Ok names → id ≠ "" → Ok (id +:+ ".json") ∈ names →
    own_record id m → protected_directory daemon_uid dir = true ∧ all_gone m.

Lemma reconcile_metadata_spec daemon_uid metadata_root listing acts res :
  reconcile_metadata process_exists process_group_exists read is_dir tasks daemon_uid
    metadata_root listing = (acts, res) →
  (∀ id td, RemoveSession id td ∈ acts →
     (∃ m, own_record id m ∧ all_gone m ∧ td = teardown_of id m) ∨
     (∀ m, ¬ own_record id m) ∧ td = None) ∧
  (res = Ok tt → recorded_gone daemon_uid metadata_root listing) ∧
  (∀ name, RemoveWorkspace name ∉ acts).
Proof.
  unfold reconcile_metadata, recorded_gone. destruct metadata_root as [dir|err].
  2: { intros [= <- <-]. split_and!; intros; set_solver. }
  destruct (protected_directory daemon_uid dir) eqn:Hp.
  2: { intros [= <- <-]. split_and!; intros; set_solver. }
  destruct listing as [names|]; [|intros [= <- <-]; split_and!; intros; set_solver].
  intros (H1 & H2 & H3)%reconcile_entries_spec. split_and!; [done| |done].
  intros Hres dir' id m names' [= <-] [= <-] ? ? ?. split; [done|]. by eapply H2.
Qed.

Lemma remove_workspaces_spec names acts res :
  remove_workspaces names = (acts, res) →
  (∀ id td, RemoveSession id td ∉ acts) ∧
  (∀ name, RemoveWorkspace name ∈ acts → Ok name ∈ names ∧ starts_with "session-ses_" name = true) ∧
  (res = Ok tt → ∀ name, Ok name ∈ names → starts_with "session-ses_" name = true →
     RemoveWorkspace name ∈ acts).
Proof.
  revert acts res. induction names as [|[name|err] names IH]; intros acts res; cbn.
  { intros [= <- <-]. split_and!; intros; set_solver. }
  2: { intros [= <- <-]. split_and!; intros; set_solver. }
  destruct (remove_workspaces names) as [l r]. destruct (IH _ _ eq_refl) as (IH1 & IH2 & IH3).
  intros [= <- <-]. destruct (starts_with "session-ses_" name) eqn:Hs; split_and!.
  - intros id td [?|Hin]%elem_of_cons; [done|by apply (IH1 id td)].
  - intros n [[= ->]|Hin]%elem_of_cons; [by split; [left|]|]. destruct (IH2 n Hin). split; [by right|done].
  - intros Hr n [[= ->]|Hin]%elem_of_cons Hn; [by left|]. right. by apply IH3.
  - done.
  - intros n Hin. destruct (IH2 n Hin). split; [by right|done].
  - intros Hr n [[= ->]|Hin]%elem_of_cons Hn; [congruence|]. by apply IH3.
Qed.

End startup.
