(* ===== verification/SessionAdmission.v ===== *)
(** Functional behaviour of the session operations: admission, idle expiry and the
    outcome of cleanup. *)
From Stdlib Require Import Ascii.
From stdpp Require Import base option strings numbers gmap pretty relations list.
From S2P Require Import Prelude RustStr Fs Protocol Config Sessions SessionSystem SessionInv SessionOwner SessionSafety.

Local Open Scope N_scope.

(** * Admission *)

Lemma find_action_Ok session name action mode :
  find_action session name = Ok (action, mode) →
  sn_actions session !! name = Some action ∨
  ∃ d, sn_action_dispatcher session = Some d ∧ resolve d name = Some action.
Proof.
  unfold find_action. destruct (sn_actions session !! name); [by intros [= <- _]; left|].
  destruct (sn_action_dispatcher session) as [d|]; [|done].
  intros Hb. apply bind_Ok in Hb as (a & Ha & [= <- _]). step_ok Ha. eauto.
Qed.

Section admission.
Context `{Glob} (metadata : string → result io_error file_meta).

(** From configuration to execution: under a configuration that passed
    validation, reserving a session of a configured task cannot panic, and every
    action such a session admits is one of the task's (or resolved by its
    dispatcher), is runnable as the configuration promised, runs within the
    global timeout, and was admitted before the session's deadline at the
    revision it reports. *)
Theorem admitted_action_runs c task_id task session id rid now0 e0 e e' name a r now :
  Config_validate metadata c = Ok tt → cf_tasks c !! task_id = Some task →
  tk_session task = Some session → reserve id rid task_id task now0 = Some e0 →
  en_task e = en_task e0 →
  start_action now name a e = (e', Ok r) →
  runnable metadata (tk_environment task) (SessionActionConfig_execution (sr_action r)) ∧
  within (ac_timeout_sec (sr_action r)) (bc_max_timeout_sec (cf_build c)) ∧
  now < en_deadline e ∧ en_state e' = Action a ∧
  sr_workspace_revision r = format_revision (en_revision e).
Proof.
  intros Hv Ht Hs Hres Htask Hst.
  destruct (config_task_ok metadata c Hv _ _ Ht) as [_ (_ & _ & _ & _ & _ & Hsess)].
  destruct (Hsess _ Hs) as (_ & _ & _ & _ & Hact & _).
  assert (en_task e0 = task) as Ht0.
  { unfold reserve in Hres. rewrite Hs in Hres. cbn in Hres. by case_match; simplify_eq. }
  unfold start_action, session_config in Hst. rewrite Htask, Ht0, Hs in Hst.
  destruct (en_registered e); cbn in Hst; [|done].
  destruct (find_action session name) as [[action mode]|] eqn:Hf; [|done].
  destruct (en_state e); simplify_eq. destruct (now <? en_deadline e) eqn:Hd; simplify_eq/=.
  apply find_action_Ok in Hf. destruct (Hact _ _ Hf). breflect. done.
Qed.

(** A session of a validated task can be reserved. *)
Lemma validated_session_reserves c task_id task session id rid now :
  Config_validate metadata c = Ok tt → cf_tasks c !! task_id = Some task →
  tk_session task = Some session → is_Some (reserve id rid task_id task now).
Proof.
  intros Hv Ht Hs. destruct (config_task_ok metadata c Hv _ _ Ht) as [_ (_&_&_&_&_&Hsess)].
  destruct (Hsess _ Hs) as ([_ Hl] & _). unfold reserve. rewrite Hs. cbn.
  unfold MAX_SESSION_LIFETIME_SEC. apply N.leb_le in Hl. by rewrite Hl.
Qed.
End admission.

(** * Idle expiry *)

(** The idle timer and the expiry agree: the remaining time is zero exactly
    when expiry would end the session; otherwise expiry changes nothing, and the
    remaining time is the exact wait after which an untouched session is due, no
    sooner and no later; sessions that are not ready are never expired as
    idle. *)
Theorem idle_expiry_agrees now idle e :
  (∀ l, en_state e = Ready l → l ≤ now) →
  (idle_remaining now idle e = Some 0 ↔ (expire_idle now idle e).2 = Cleanup false) ∧
  (idle_remaining now idle e ≠ Some 0 → expire_idle now idle e = (e, Return)) ∧
  (∀ rest, idle_remaining now idle e = Some rest →
     idle_remaining (now + rest) idle e = Some 0 ∧
     ∀ d, d < rest → idle_remaining (now + d) idle e ≠ Some 0).
Proof.
  unfold idle_remaining, expire_idle, saturating_sub. intros Hl.
  destruct (en_registered e); cbn; [|by split_and!].
  destruct (en_state e) as [|l| | | |]; try by split_and!.
  specialize (Hl l eq_refl).
  destruct (idle <=? now - l) eqn:E; breflect; cbn; split_and!; try done.
  - split; [done|]. intros _. f_equal. lia.
  - intros Hne. destruct Hne. f_equal. lia.
  - intros rest [= <-]. split; [f_equal; lia|]. intros d Hd [= ?]. lia.
  - split; [intros [= ?]; lia|done].
  - intros rest [= <-]. split; [f_equal; lia|]. intros d Hd [= ?]. lia.
Qed.

Lemma idle_expiry_agrees_witness :
  let e := set_state (Ready 5) (default (Build_SessionEntry "" None "" demo_task 0 (Ready 0) false ∅
             true true 0 None [] false true None) (reserve "ses_1" None "build" demo_task 0)) in
  idle_remaining 7 10 e = Some 8 ∧ idle_remaining (7 + 8) 10 e = Some 0 ∧
  (expire_idle 15 10 e).2 = Cleanup false.
Proof.
  split; [vm_compute; reflexivity|]. split; [|vm_compute; reflexivity].
  apply (idle_expiry_agrees 7 10 (set_state (Ready 5) (default (Build_SessionEntry "" None "" demo_task
    0 (Ready 0) false ∅ true true 0 None [] false true None) (reserve "ses_1" None "build" demo_task 0)))).
  - cbn. intros l [= <-]. lia.
  - vm_compute. reflexivity.
Defined.

(** * Cleanup *)

Lemma stop_services_spec results :
  stop_services results = (existsb is_some results, existsb (λ r, bool_decide (r = Some true)) results).
Proof.
  unfold stop_services.
  assert (∀ f u, foldl (λ '(failed, unproven) r,
      match r with None => (failed, unproven) | Some u => (true, unproven || u) end) (f, u) results =
    (f || existsb is_some results, u || existsb (λ r, bool_decide (r = Some true)) results)) as Hgen.
  { induction results as [|[[]|] l IH]; intros f u; cbn; rewrite ?IH;
      by rewrite ?orb_false_r, ?orb_true_r; destruct f, u. }
  by rewrite Hgen.
Qed.

(** What cleanup reports and keeps.  The error code is the teardown's own (a
    missing workspace counts as one), else a failed service stop, else a failed
    final collection; artifacts are collected only for an explicit stop with a
    workspace left; and afterwards the session is terminated with that very
    response, unregistered and its permit released, its metadata kept exactly
    when some service identity could not be proven gone (or the file could not
    be removed). *)
Theorem cleanup_outcome_spec explicit o e :
  let '(e', r) := cleanup_entry explicit o e in
  td_error_code (sp_teardown r) =
    (match (if co_is_dir o then td_error_code (co_teardown o) else Some "workspace_missing") with
     | Some code => Some code
     | None => if existsb is_some (co_stops o) then Some "service_cleanup_failed"
               else if explicit && co_is_dir_after o && is_none (co_collection o)
               then Some "artifact_collection_failed" else None
     end) ∧
  (explicit && co_is_dir_after o = false → sp_artifacts r = None ∧ sp_artifact_restrictions r = None) ∧
  en_state e' = Terminated r ∧ sp_session_id r = en_id e ∧
  en_registered e' = false ∧ en_permit e' = false ∧ en_services e' = [] ∧
  en_metadata e' = (if existsb (λ x, bool_decide (x = Some true)) (co_stops o) || negb (co_metadata_removed o)
                    then en_metadata e else None).
Proof.
  unfold cleanup_entry, cleanup_response, cleanup_remove. rewrite stop_services_spec.
  unfold error_code_or, set_error_code, workspace_missing.
  split_and!; try done.
  - destruct (co_is_dir o), (existsb is_some (co_stops o)), (explicit && co_is_dir_after o),
      (co_collection o) as [[]|], (td_error_code (co_teardown o)) eqn:E; cbn; rewrite ?E; cbn; done.
  - intros ->. done.
  - cbn. by destruct (explicit && co_is_dir_after o), (co_collection o) as [[]|].
  - cbn. by case_match.
  - cbn. by case_match.
Qed.

(** * The workspace revision of a managed session and the idempotence of updates. *)

(** * Revisions *)

Lemma used_grows ev s s' : exec ev s = Some s' → sy_used s ⊆ sy_used s'.
Proof. intros Hex. destruct ev; exec_cases Hex; set_solver. Qed.

(** The revision moves only when an update that owns the session finishes. *)
Lemma revision_moves ev s s' :
  exec ev s = Some s' →
  (en_revision (sy_entry s') = en_revision (sy_entry s) ∧
   en_last_success (sy_entry s') = en_last_success (sy_entry s)) ∨
  (∃ t r c d nr, ev = UpdateStep t UFinish ∧ sy_threads s !! t = Some (TUpdate r (UApplied c d)) ∧
     sy_state s = Updating (rv_update_id r) ∧ checked_add (rv_base_revision r) 1 = Some nr ∧
     en_revision (sy_entry s') = nr ∧
     en_last_success (sy_entry s') =
       Some {| sf_request_id := rv_request_id r; sf_request_digest := rv_request_digest r;
               sf_response := update_response (sy_entry s) r nr c d |} ∧
     sy_state s' = Ready (sy_now s)).
Proof.
  unfold sy_state. intros Hex. destruct ev; exec_cases Hex; try (by left).
  all: right; breflect; subst; do 5 eexists; split_and!; done.
Qed.

(** An update worker was there before, or was just admitted at the current revision. *)
Lemma new_update ev s s' t r pc' :
  exec ev s = Some s' → sy_threads s' !! t = Some (TUpdate r pc') →
  (∃ pc, sy_threads s !! t = Some (TUpdate r pc)) ∨
  (rv_update_id r ∉ sy_used s) ∧ rv_update_id r ∈ sy_used s' ∧
  rv_base_revision r = en_revision (sy_entry s).
Proof.
  intros Hex. destruct ev; exec_cases Hex; rewrite ?lookup_insert_Some; try naive_solver.
  all: intros [[_ [= <- _]]|[_ ?]]; [right|by eauto]; cbn; breflect; set_solver.
Qed.

Lemma new_updating ev s s' u :
  exec ev s = Some s' → sy_state s' = Updating u → sy_state s = Updating u ∨ u ∉ sy_used s.
Proof.
  unfold sy_state. intros Hex. destruct ev; exec_cases Hex; intros; simplify_eq/=; auto;
    first [left; congruence|right; by breflect].
Qed.

Record Rev (s : Sys) : Prop := {
  rv_used : ∀ t r pc, sy_threads s !! t = Some (TUpdate r pc) → rv_update_id r ∈ sy_used s;
  rv_base : ∀ t r pc, sy_threads s !! t = Some (TUpdate r pc) →
    sy_state s = Updating (rv_update_id r) → rv_base_revision r = en_revision (sy_entry s);
  rv_last : ∀ l, en_last_success (sy_entry s) = Some l →
    1 ≤ en_revision (sy_entry s) ∧
    ur_workspace_revision (sf_response l) = format_revision (en_revision (sy_entry s)) ∧
    ur_base_revision (sf_response l) = format_revision (en_revision (sy_entry s) - 1) ∧
    ur_request_id (sf_response l) = sf_request_id l;
}.

Lemma Rev_exec ev s s' : Rev s → exec ev s = Some s' → Rev s'.
Proof.
  intros [R1 R2 R3] Hex. pose proof (used_grows _ _ _ Hex) as Hu.
  destruct (revision_moves _ _ _ Hex) as [[Er El]|(t & r & c & d & nr & -> & Ht & Hs & Hnr & Er & El & Hs')].
  - split; rewrite ?Er, ?El; [..|done].
    + intros t r pc' Ht. destruct (new_update _ _ _ _ _ _ Hex Ht) as [[pc ?]|(_ & ? & _)]; eauto.
    + intros t r pc' Ht Hup. destruct (new_update _ _ _ _ _ _ Hex Ht) as [[pc Ht0]|(Hn & _ & ?)]; [|done].
      destruct (new_updating _ _ _ _ Hex Hup) as [?|Hnu]; [eauto|]. by destruct Hnu; eauto.
  - split.
    + intros t' r' pc' Ht'. destruct (new_update _ _ _ _ _ _ Hex Ht') as [[pc ?]|(_ & ? & _)]; eauto.
    + intros t' r' pc' _ Hup. congruence.
    + intros l. rewrite El, Er. intros [= <-]. apply checked_add_Some in Hnr as [-> _].
      cbn. rewrite (R2 _ _ _ Ht Hs). split_and!; [lia|done| |done]. f_equal. lia.
Qed.

Lemma reachable_Rev s : reachable s → Rev s.
Proof.
  apply reachable_ind; [|intros; by eapply Rev_exec].
  intros * (_ & _ & _ & _ & _ & Hl)%reserve_fresh.
  split; cbn; [intros ???; by rewrite lookup_empty..|]. by rewrite Hl.
Qed.

(** C34: The workspace revision advances by exactly one per successful update and
    never otherwise; the update that advances it was admitted at the revision it
    replaces, owned the session when it finished, and its recorded answer names
    both revisions; the session is then ready again. *)
Theorem revision_advances_by_one s ev s' :
  reachable s → exec ev s = Some s' →
  en_revision (sy_entry s') = en_revision (sy_entry s) ∨
  (en_revision (sy_entry s') = en_revision (sy_entry s) + 1 ∧ sy_state s' = Ready (sy_now s) ∧
   ∃ t r c d l, ev = UpdateStep t UFinish ∧ sy_threads s !! t = Some (TUpdate r (UApplied c d)) ∧
     sy_state s = Updating (rv_update_id r) ∧ rv_base_revision r = en_revision (sy_entry s) ∧
     en_last_success (sy_entry s') = Some l ∧
     ur_base_revision (sf_response l) = format_revision (en_revision (sy_entry s)) ∧
     ur_workspace_revision (sf_response l) = format_revision (en_revision (sy_entry s'))).
Proof.
  intros Hr Hex.
  destruct (revision_moves _ _ _ Hex) as [[? _]|(t & r & c & d & nr & -> & Ht & Hs & Hnr & Er & El & Hs')];
    [by left|right].
  pose proof (rv_base _ (reachable_Rev s Hr) _ _ _ Ht Hs) as Hb.
  apply checked_add_Some in Hnr as [-> _]. rewrite Er, Hb. split_and!; [done..|].
  exists t, r, c, d. eexists. rewrite El. split_and!; try done; cbn; by rewrite Hb.
Qed.

(** Retrying an update is harmless: while the session is ready, a request
    with the id and the content digest of the last successful update is answered
    with the very response recorded for it, whatever base revision it names,
    and changes nothing; the same id with other content is refused. *)
Theorem update_retry_idempotent s l now base u d la :
  reachable s → sy_state s = Ready la → now < en_deadline (sy_entry s) →
  en_registered (sy_entry s) = true → is_Some (update_policy (sy_entry s)) →
  en_last_success (sy_entry s) = Some l →
  start_update now (sf_request_id l) d base u (sy_entry s) =
    (sy_entry s, if bool_decide (d = sf_request_digest l)
                 then Ok (Retry (sf_response l)) else Err RequestConflict) ∧
  ur_request_id (sf_response l) = sf_request_id l ∧
  ur_workspace_revision (sf_response l) = format_revision (en_revision (sy_entry s)).
Proof.
  intros Hr Hs Hd Hreg [p Hp] Hl. destruct (rv_last _ (reachable_Rev s Hr) _ Hl) as (_ & ? & _ & ?).
  split; [|done]. unfold start_update, sy_state in *. rewrite Hreg, Hp, Hs, Hl. cbn.
  apply N.ltb_lt in Hd. rewrite Hd, bool_decide_eq_true_2 by done.
  destruct (decide (d = sf_request_digest l)) as [->|].
  - by rewrite !bool_decide_eq_true_2.
  - by rewrite !bool_decide_eq_false_2 by congruence.
Qed.
