(* ===== verification/SessionSpec.v ===== *)
(** The life of a session as its clients may rely on it, and that the concurrent
    session manager implements it: every step of the system is a step of the
    specification or invisible to it. *)
From Stdlib Require Import Ascii.
From stdpp Require Import base option strings numbers gmap pretty relations list.
From S2P Require Import Prelude RustStr Protocol Config Sessions SessionSystem SessionInv SessionOwner SessionSafety SessionAdmission.

Local Open Scope N_scope.

(** * The specification *)

Inductive phase := Starting | Idle | Acting (id : string) | Changing (id : string) | Ending | Ended.

(** What a client can find out: the phase, the revision of the workspace, the ids
    of the operations admitted so far, whether the session can be looked up, and
    whether it takes one of the daemon's slots. *)
Record lifecycle := Lifecycle {
  lc_phase : phase;
  lc_revision : N;
  lc_admitted : gset string;
  lc_listed : bool;
  lc_slot : bool;
}.

Definition lifecycle_start : lifecycle := Lifecycle Starting 0 ∅ true true.

Definition live (p : phase) : Prop := match p with Ending | Ended => False | _ => True end.

Inductive lifecycle_step : lifecycle → lifecycle → Prop :=
| lc_started n used : lifecycle_step (Lifecycle Starting n used true true) (Lifecycle Idle n used true true)
| lc_admit_action id n used : id ∉ used →
    lifecycle_step (Lifecycle Idle n used true true) (Lifecycle (Acting id) n ({[id]} ∪ used) true true)
| lc_action_done id n used :
    lifecycle_step (Lifecycle (Acting id) n used true true) (Lifecycle Idle n used true true)
| lc_admit_update id n used : id ∉ used →
    lifecycle_step (Lifecycle Idle n used true true) (Lifecycle (Changing id) n ({[id]} ∪ used) true true)
| lc_update_applied id n used :
    lifecycle_step (Lifecycle (Changing id) n used true true) (Lifecycle Idle (n + 1) used true true)
| lc_update_undone id n used :
    lifecycle_step (Lifecycle (Changing id) n used true true) (Lifecycle Idle n used true true)
| lc_close p n used : live p →
    lifecycle_step (Lifecycle p n used true true) (Lifecycle Ending n used true true)
| lc_unlist n used : lifecycle_step (Lifecycle Ending n used true true) (Lifecycle Ending n used false true)
| lc_release n used : lifecycle_step (Lifecycle Ending n used false true) (Lifecycle Ending n used false false)
| lc_end n used : lifecycle_step (Lifecycle Ending n used false false) (Lifecycle Ended n used false false).

(** * The refinement map *)

Definition phase_of (st : SessionState) : phase :=
  match st with
  | Initializing _ => Starting
  | Ready _ => Idle
  | Action a => Acting a
  | Updating u => Changing u
  | Terminating _ => Ending
  | Terminated _ => Ended
  end.

Definition lifecycle_of (s : Sys) : lifecycle :=
  Lifecycle (phase_of (sy_state s)) (en_revision (sy_entry s)) (sy_used s)
    (en_registered (sy_entry s)) (en_permit (sy_entry s)).

(** What one event other than a step of the cleanup does to phase and ids. *)
Lemma phase_moves ev s s' :
  is_clean_step ev = false → exec ev s = Some s' →
  let p := phase_of (sy_state s) in
  let p' := phase_of (sy_state s') in
  (p' = p ∧ sy_used s' = sy_used s) ∨
  (live p ∧ p' = Ending ∧ sy_used s' = sy_used s) ∨
  (p = Starting ∧ p' = Idle ∧ sy_used s' = sy_used s) ∨
  (∃ id, (p = Acting id ∨ p = Changing id) ∧ p' = Idle ∧ sy_used s' = sy_used s) ∨
  (∃ id, p = Idle ∧ (p' = Acting id ∨ p' = Changing id) ∧ (id ∉ sy_used s) ∧ sy_used s' = {[id]} ∪ sy_used s).
Proof.
  unfold sy_state. intros Hc Hex. destruct ev; try done; exec_cases Hex; breflect; simplify_eq/=.
  all: try match goal with H : is_initializing ?st = true |- _ =>
    destruct st eqn:?; cbn in H; try discriminate H end.
  all: repeat match goal with H : en_state _ = _ |- _ => rewrite H in *; clear H end; cbn in *.
  all: solve [by left | right; by left | by right; right; left | right; right; right; left; eauto
             | right; right; right; right; eauto 7].
Qed.

Definition refines_step (s s' : Sys) : Prop :=
  lifecycle_of s' = lifecycle_of s ∨ lifecycle_step (lifecycle_of s) (lifecycle_of s').

(** Before the end the session is listed and has its slot. *)
Lemma live_holds s :
  Resp s → Res s → live (phase_of (sy_state s)) →
  en_registered (sy_entry s) = true ∧ en_permit (sy_entry s) = true.
Proof.
  intros HP HR Hl.
  assert (en_registered (sy_entry s) = true) as Hreg.
  { destruct (en_registered (sy_entry s)) eqn:Er; [done|].
    destruct (rs_registered _ HP Er) as [[r Hs]|(t & x & pc & Ht & _)].
    - by rewrite Hs in Hl.
    - pose proof (rs_ended _ HP _ _ _ Ht) as He. destruct (sy_state s); done. }
  split; [done|]. destruct (en_permit (sy_entry s)) eqn:Ep; [done|].
  by rewrite (re_permit _ HR Ep) in Hreg.
Qed.

Lemma event_refines ev s s' :
  Resp s → Res s → Rev s → is_clean_step ev = false → exec ev s = Some s' → refines_step s s'.
Proof.
  intros HP HR HV Hc Hex. unfold refines_step, lifecycle_of.
  destruct (quiet_events _ _ _ Hc Hex) as (Er & Ep & _). rewrite Er, Ep.
  pose proof (live_holds s HP HR) as Hlive. pose proof (phase_moves _ _ _ Hc Hex) as Hp. cbn zeta in Hp.
  destruct (revision_moves _ _ _ Hex) as [[-> _]|(t & r & c & d & nr & -> & Ht & Hs & Hnr & -> & _ & Hs')].
  - destruct Hp as [[-> ->]|[(Hl & -> & ->)|[(Hp & -> & ->)|[(id & Hp & -> & ->)|(id & Hp & Hp' & Hn & ->)]]]];
      [by left|right..].
    + destruct (Hlive Hl) as [-> ->]. by constructor.
    + rewrite Hp in *. destruct (Hlive I) as [-> ->]. constructor.
    + destruct Hp as [Hp|Hp]; rewrite Hp in *; destruct (Hlive I) as [-> ->]; constructor.
    + rewrite Hp in *. destruct (Hlive I) as [-> ->]. by destruct Hp' as [-> | ->]; constructor.
  - right. rewrite Hs, Hs' in *. cbn in *. destruct (Hlive I) as [-> ->].
    apply checked_add_Some in Hnr as [-> _]. rewrite (rv_base _ HV _ _ _ Ht Hs).
    destruct Hp as [[? _]|[(_ & ? & _)|[(? & _)|[(id & _ & _ & ->)|(id & ? & _)]]]]; try done. constructor.
Qed.

Lemma cleanup_refines t x pc a s s' :
  Resp s → Res s → sy_threads s !! t = Some (TCleanup x pc) → exec_cleanup t x pc a s = Some s' →
  refines_step s s'.
Proof.
  intros HP HR Ht. pose proof (rs_ended _ HP _ _ _ Ht) as He. pose proof HR as [R1 R2 R3 R4].
  unfold refines_step, lifecycle_of, sy_state in *.
  destruct pc, a; cbn [exec_cleanup]; try discriminate; intros [= <-]; cbn; try (by left).
  - destruct (cleanup_remove_keeps o (sy_entry s)) as (-> & -> & ->). left. f_equal.
    unfold cleanup_remove. by repeat case_match.
  - destruct (en_registered (sy_entry s)) eqn:Er; [right|by left].
    destruct (en_permit (sy_entry s)) eqn:Ep; [|by specialize (R4 eq_refl)].
    destruct (en_state (sy_entry s)); try done; [constructor|]. by destruct (R3 _ eq_refl).
  - rewrite (R1 _ _ _ Ht). destruct (en_permit (sy_entry s)) eqn:Ep; [right|by left].
    destruct (en_state (sy_entry s)); try done; [constructor|]. by destruct (R3 _ eq_refl).
  - destruct (R2 _ _ _ Ht) as [-> ->]. destruct (en_state (sy_entry s)); try done; [right; constructor|by left].
Qed.

Lemma exec_refines ev s s' : reachable s → exec ev s = Some s' → refines_step s s'.
Proof.
  intros Hr Hex. pose proof (reachable_Resp s Hr) as HP. pose proof (reachable_Res s Hr) as HR.
  destruct (is_clean_step ev) eqn:Hc; [|by eapply event_refines; [..|apply reachable_Rev|done|]].
  destruct ev; try done. cbn in Hex. destruct (sy_threads s !! t) as [[]|] eqn:Ht; try done.
  by eapply cleanup_refines.
Qed.

(** C1: The concurrent session manager implements the session's specification: in
    every reachable state of the interleaved threads, each step of the system maps
    to one step of the lifecycle or leaves what clients see unchanged, so every
    state is reached by a run of the specification.  There a session is admitted
    to one operation at a time under an id never used before, its revision moves
    by one with an applied update only, it is unlisted only once it ends, gives its
    slot back after that, and has ended only after both. *)
Theorem session_refines_lifecycle s :
  reachable s →
  rtc lifecycle_step lifecycle_start (lifecycle_of s) ∧
  ∀ ev s', exec ev s = Some s' →
    lifecycle_of s' = lifecycle_of s ∨ lifecycle_step (lifecycle_of s) (lifecycle_of s').
Proof.
  intros Hr. split; [|intros ev s'; by apply exec_refines]. revert s Hr. apply reachable_ind.
  - intros * (Hs & Hl & Hp & _ & Hn & _)%reserve_fresh. unfold lifecycle_of, sy_state. cbn.
    by rewrite Hs, Hl, Hp, Hn.
  - intros ev s s' Hr IH Hex. destruct (exec_refines _ _ _ Hr Hex) as [->|Hstep]; [done|by eapply rtc_r].
Qed.
