(* ===== verification/SessionExamples.v ===== *)
(** Concrete runs at which the theorems about sessions apply. *)
From Stdlib Require Import Ascii.
From stdpp Require Import base option strings numbers gmap pretty relations list.
From S2P Require Import Prelude RustStr Fs Protocol Config Sessions SessionSystem SessionInv SessionOwner SessionSafety SessionProgress SessionAdmission SessionDurable SessionSpec.

Local Open Scope N_scope.

(** An explicit stop of a ready session, up to the removal of its files. *)
Definition stopping : list event := get_ready ++ [Stop 1; CleanStep 1 CNext; CleanStep 1 (COutcome some_outcome)].

(** The same to its end. *)
Definition stopped : list event :=
  stopping ++ [CleanStep 1 CNext; CleanStep 1 CNext; CleanStep 1 CNext; CleanStep 1 CNext].

(** A stop that waits for a running action. *)
Definition waiting : list event := get_ready ++ [StartAction 1 "test" "act_1"; Stop 2].

(** An action that ran and was acknowledged. *)
Definition acknowledged : list event :=
  get_ready ++ [StartAction 1 "test" "act_1"; ActionStep 1 APublish; Acknowledge "act_1"].

(** An update up to its last lock section, and past it. *)
Definition applied : list event :=
  get_ready ++ [StartUpdate 1 "req" "digest" 0 "upd_1"; UpdateStep 1 (UCommit None);
                UpdateStep 1 (UApply [] [])].
Definition updated : list event := applied ++ [UpdateStep 1 UFinish].

Definition ended_b (s : Sys) : bool :=
  match sy_state s with Terminating _ | Terminated _ => true | _ => false end.
Lemma ended_b_true s : ended_b s = true → ended (sy_state s).
Proof. unfold ended_b. by destruct (sy_state s). Qed.

Lemma cleanup_runs_once_witness :
  ∃ s x pc, reachable s ∧ timely s ∧ sy_threads s !! 1%nat = Some (TCleanup x pc) ∧
    ∀ t' y q, sy_threads s !! t' = Some (TCleanup y q) → t' = 1%nat.
Proof.
  destruct (passes_reachable stopping (λ s, timely_b s && thread_is 1 is_cleaner s)
    ltac:(vm_compute; reflexivity)) as (s & Hr & Hp).
  apply andb_true_iff in Hp as [Ht%timely_b_true Hth].
  apply thread_is_true in Hth as ([| | |x pc| | |] & H1 & Hc); try discriminate.
  exists s, x, pc. split; [exact Hr|]. split; [exact Ht|]. split; [exact H1|].
  apply (cleanup_runs_once s 1%nat x pc Hr Ht H1).
Defined.

Definition is_action (th : thread) : bool := match th with TAction _ _ => true | _ => false end.

Definition unacknowledged (s : Sys) : bool :=
  timely_b s && thread_is 1 is_action s && bool_decide (sy_acked s = ∅).

Lemma operations_exclusive_witness :
  ∃ s a pc, reachable s ∧ sy_threads s !! 1%nat = Some (TAction a pc) ∧
    (sy_state s = Action a ∨ ended (sy_state s)).
Proof.
  destruct (passes_reachable waiting unacknowledged ltac:(vm_compute; reflexivity)) as (s & Hr & Hp).
  unfold unacknowledged in Hp. apply andb_true_iff in Hp as [Hp Ha%bool_decide_eq_true].
  apply andb_true_iff in Hp as [Ht%timely_b_true Hth].
  apply thread_is_true in Hth as ([|a pc| | | | |] & H1 & Hc); try discriminate.
  exists s, a, pc. split; [exact Hr|]. split; [exact H1|].
  assert (obliged (sy_acked s) (TAction a pc)) as Ho by (cbn; rewrite Ha; apply not_elem_of_empty).
  destruct (operations_exclusive s 1%nat 1%nat _ _ Hr Ht H1 H1 Ho Ho) as (_ & _ & H & _).
  apply (H a pc eq_refl).
Defined.

Lemma ended_sessions_admit_nothing_witness :
  ∃ s, reachable s ∧ ended (sy_state s) ∧
    start_update 1 "r" "d" 0 "u" (sy_entry s) = (sy_entry s, Err UpdateNotFound).
Proof.
  destruct (passes_reachable stopping ended_b ltac:(vm_compute; reflexivity)) as (s & Hr & He%ended_b_true).
  exists s. split; [exact Hr|]. split; [exact He|].
  apply (ended_sessions_admit_nothing s s 1 "test" "a" "r" "d" 0 "u" Hr He (rtc_refl _ _)).
Defined.

Definition terminated_b (s : Sys) : bool := match sy_state s with Terminated _ => true | _ => false end.

Lemma terminated_releases_witness :
  ∃ s r, reachable s ∧ sy_state s = Terminated r ∧ en_permit (sy_entry s) = false.
Proof.
  destruct (passes_reachable stopped terminated_b ltac:(vm_compute; reflexivity)) as (s & Hr & Ht).
  unfold terminated_b in Ht. destruct (sy_state s) as [| | | | |r] eqn:Hs; try discriminate.
  exists s, r. split; [exact Hr|]. split; [exact Hs|].
  apply (proj1 (terminated_releases s Hr) r Hs).
Defined.

Lemma session_refines_lifecycle_witness :
  ∃ s, reachable s ∧ lc_phase (lifecycle_of s) = Ended ∧ rtc lifecycle_step lifecycle_start (lifecycle_of s).
Proof.
  destruct (passes_reachable stopped terminated_b ltac:(vm_compute; reflexivity)) as (s & Hr & Ht).
  exists s. split_and!; [done| |by apply (session_refines_lifecycle s)].
  unfold lifecycle_of, terminated_b in *. cbn. by destruct (sy_state s).
Defined.

Definition terminating_b (s : Sys) : bool := match sy_state s with Terminating _ => true | _ => false end.

Lemma ending_completes_witness :
  ∃ s x, reachable s ∧ sy_state s = Terminating x ∧
    ∃ t s', alone t s s' ∧ ∃ r, sy_state s' = Terminated r.
Proof.
  destruct (passes_reachable waiting terminating_b ltac:(vm_compute; reflexivity)) as (s & Hr & Ht).
  unfold terminating_b in Ht. destruct (sy_state s) as [| | | |x|] eqn:Hs; try discriminate.
  exists s, x. split; [exact Hr|]. split; [exact Hs|]. apply (ending_completes s x Hr Hs).
Defined.

Definition is_waiter (th : thread) : bool := match th with TWaiter => true | _ => false end.

Lemma stop_is_answered_witness :
  ∃ s s' r, reachable s ∧ sy_threads s !! 2%nat = Some TWaiter ∧
    sy_threads s' !! 2%nat = Some (TStopped r).
Proof.
  destruct (passes_reachable waiting (thread_is 2 is_waiter) ltac:(vm_compute; reflexivity)) as (s & Hr & Hp).
  apply thread_is_true in Hp as ([] & Ht & Hw); try discriminate.
  destruct (stop_is_answered s 2%nat Hr Ht) as (s' & r & _ & Ht' & _). exists s, s', r.
  split; [exact Hr|]. split; [exact Ht|exact Ht'].
Defined.

Lemma revision_advances_by_one_witness :
  ∃ s s', reachable s ∧ exec (UpdateStep 1 UFinish) s = Some s' ∧
    en_revision (sy_entry s) = 0 ∧ en_revision (sy_entry s') = en_revision (sy_entry s) + 1.
Proof.
  destruct (passes_reachable applied (λ s, (en_revision (sy_entry s) =? 0) &&
    match exec (UpdateStep 1 UFinish) s with Some s' => en_revision (sy_entry s') =? 1 | None => false end)
    ltac:(vm_compute; reflexivity)) as (s & Hr & Hp).
  apply andb_true_iff in Hp as [H0%N.eqb_eq Hp].
  destruct (exec (UpdateStep 1 UFinish) s) as [s'|] eqn:E; [|discriminate]. apply N.eqb_eq in Hp.
  exists s, s'. split; [exact Hr|]. split; [exact E|]. split; [exact H0|].
  destruct (revision_advances_by_one s (UpdateStep 1 UFinish) s' Hr E) as [H|[H _]]; [|exact H].
  rewrite Hp, H0 in H. discriminate.
Defined.

Definition ready_at (now : N) (s : Sys) : bool :=
  match sy_state s with Ready _ => true | _ => false end && (now <? en_deadline (sy_entry s))
  && en_registered (sy_entry s) && is_some (update_policy (sy_entry s))
  && is_some (en_last_success (sy_entry s)).

Lemma update_retry_idempotent_witness :
  ∃ s l, reachable s ∧ en_last_success (sy_entry s) = Some l ∧
    start_update 1 (sf_request_id l) (sf_request_digest l) 7 "upd_2" (sy_entry s) =
      (sy_entry s, Ok (Retry (sf_response l))).
Proof.
  destruct (passes_reachable updated (ready_at 1) ltac:(vm_compute; reflexivity)) as (s & Hr & Hp).
  unfold ready_at in Hp. rewrite !andb_true_iff in Hp.
  destruct Hp as [[[[Hs Hd%N.ltb_lt] Hreg] Hpol] Hl].
  destruct (sy_state s) as [|la| | | |] eqn:Est; try discriminate.
  destruct (update_policy (sy_entry s)) as [p|] eqn:Ep; [|discriminate].
  destruct (en_last_success (sy_entry s)) as [l|] eqn:El; [|discriminate].
  exists s, l. split; [exact Hr|]. split; [exact El|].
  destruct (update_retry_idempotent s l 1 7 "upd_2" (sf_request_digest l) la Hr Est Hd Hreg
    ltac:(rewrite Ep; eauto) El) as [H _].
  rewrite bool_decide_eq_true_2 in H by reflexivity. exact H.
Defined.

Definition timely_acknowledged (s : Sys) : bool :=
  timely_b s && bool_decide ("act_1" ∈ sy_acked s).

Lemma acknowledged_archive_kept_witness :
  ∃ s, reachable s ∧ timely s ∧ "act_1" ∈ sy_acked s ∧ "act_1" ∈ sy_archives s.
Proof.
  destruct (passes_reachable acknowledged timely_acknowledged
    ltac:(vm_compute; reflexivity)) as (s & Hr & Hp).
  unfold timely_acknowledged in Hp. apply andb_true_iff in Hp as [Ht%timely_b_true Ha%bool_decide_eq_true].
  exists s. split; [exact Hr|]. split; [exact Ht|]. split; [exact Ha|].
  apply (acknowledged_archive_kept s "act_1" Hr Ht Ha).
Defined.

Lemma usable_session_recorded_witness :
  ∃ s, reachable s ∧ usable (sy_state s) = true ∧ recorded (sy_entry s).
Proof.
  destruct (passes_reachable applied (λ s, timely_b s && usable (sy_state s))
    ltac:(vm_compute; reflexivity)) as (s & Hr & Hp).
  apply andb_true_iff in Hp as [Ht%timely_b_true Hu].
  exists s. split; [exact Hr|]. split; [exact Hu|].
  apply (usable_session_recorded s Hr Ht Hu).
Defined.

(** A stale record with one service whose processes are gone. *)
Definition stale_record : DurableSessionMetadata :=
  {| dm_version := 3; dm_session_id := "ses_1"; dm_task_id := "build"; dm_workspace_revision := 0;
     dm_state := DReady;
     dm_services := [{| dp_name := "db"; dp_supervisor_pid := 10; dp_service_pid := 11;
                        dp_service_pgid := 11; dp_shutdown_timeout_sec := 5 |}] |}.
Definition stale_read (name : string) : result io_error DurableSessionMetadata :=
  if bool_decide (name = "ses_1.json") then Ok stale_record else Err (IoError NotFound "").

Definition demo_tasks : gmap string TaskConfig := {["build" := demo_task]}.

(** The daemon's metadata directory, mode 0700. *)
Definition metadata_directory : result io_error file_meta :=
  Ok {| fm_kind := Directory; fm_uid := 0; fm_gid := 0; fm_mode := o700; fm_len := 0; fm_dev := 1; fm_ino := 5 |}.


Lemma admitted_action_runs_witness :
  ∃ e0 e' r, reserve "ses_1" None "build" demo_task 0 = Some e0 ∧
    start_action 1 "test" "act_1" (set_state (Ready 0) e0) = (e', Ok r) ∧
    within (ac_timeout_sec (sr_action r)) 1800.
Proof.
  destruct (reserve "ses_1" None "build" demo_task 0) as [e0|] eqn:He; [|vm_compute in He; discriminate].
  assert (match start_action 1 "test" "act_1" (set_state (Ready 0) e0) with (_, Ok _) => true | _ => false end = true)
    as Hb by (injection He as <-; vm_compute; reflexivity).
  destruct (start_action 1 "test" "act_1" (set_state (Ready 0) e0)) as [e' [r|]] eqn:Hs; [|discriminate].
  exists e0, e', r. split; [reflexivity|]. split; [exact Hs|].
  apply (admitted_action_runs (H:=demo_glob) demo_metadata demo_config "build" demo_task demo_session
    "ses_1" None 0 e0 (set_state (Ready 0) e0) e' "test" "act_1" r 1
    ltac:(vm_compute; reflexivity) ltac:(vm_compute; reflexivity) eq_refl He eq_refl Hs).
Defined.
