(* ===== verification/Http.v ===== *)
(** The HTTP service ([src/src/http.rs]): the handlers of its endpoints from the
    request to the answer, with what each of them takes from the daemon (a build
    slot, a temporary file, a session, a worker).

    Requests are served concurrently.  Wherever a handler waits, other requests and
    workers may change the slots and the sessions, its timer may fire, its session
    may be cancelled and its future may be dropped: an environment indexed by the
    number of calls made decides, and a theorem about every environment is a
    theorem about every interleaving.  The [axum] crate's view of a request (headers,
    path parameters, the fields of a multipart body as they arrive) is input. *)
From Stdlib Require Import Ascii.
From stdpp Require Import base option strings numbers list gmap pretty.
From S2P Require Import Prelude Effects RustStr Fs Bearer Auth Protocol Config Archive Tasks Sessions.

Local Open Scope N_scope.

(** * Answers *)

(** The bodies other than [ErrorResponse]; a stream is named by what it reads from. *)
Inductive body :=
| BuildEvents (build : ValidatedRequest)
| SessionEvents (session_id : string)
| ActionEvents (session_id action_id : string)
| UpdateJson (r : SessionUpdateResponse)
| StopJson (r : SessionStopResponse)
| ConflictJson (error : string) (current_revision : option string)
| ZipFile (content : string).

Abbreviation reply := (response body).

Definition OK : N := 200.
Definition BAD_REQUEST : N := 400.
Definition NOT_FOUND : N := 404.
Definition REQUEST_TIMEOUT : N := 408.
Definition CONFLICT : N := 409.
Definition PAYLOAD_TOO_LARGE : N := 413.
Definition INTERNAL_SERVER_ERROR : N := 500.
Definition SERVICE_UNAVAILABLE : N := 503.

Definition bad_request (message : string) : reply := JsonError BAD_REQUEST message.
Definition payload_too_large (message : string) : reply := JsonError PAYLOAD_TOO_LARGE message.
Definition source_upload_timeout : reply := JsonError REQUEST_TIMEOUT "source_upload_timeout".
Definition session_lifetime_timeout : reply := JsonError REQUEST_TIMEOUT "session_lifetime".
Definition server_error (message : string) : reply := JsonError INTERNAL_SERVER_ERROR "internal error".
Definition busy_response : reply := RetryAfter SERVICE_UNAVAILABLE "busy" 0.
Definition managed_sessions_unavailable : reply :=
  JsonError SERVICE_UNAVAILABLE "managed_sessions_unavailable".
Definition conflict_response (error : string) (current_revision : option string) : reply :=
  Payload (ConflictJson error current_revision).
Definition not_found : reply := StatusOnly NOT_FOUND.

Definition status_of (r : reply) : N :=
  match r with
  | StatusOnly status | JsonError status _ | RetryAfter status _ _ => status
  | Payload (ConflictJson _ _) => CONFLICT
  | Payload _ => OK
  end.

Definition valid_build_id (value : string) : bool :=
  match strip_prefix "bld_" value with
  | Some rest => (len value =? 36) && all_bytes is_ascii_hexdigit rest
  | None => false
  end.

Definition managed_session_authority_available (daemon_uid : N) (task_uid : option N) : bool :=
  (daemon_uid =? 0) && match task_uid with Some uid => negb (uid =? 0) | None => false end.

(** [build_router]: the limit on a whole body. *)
Definition max_body (max_transfer_bytes : N) : N := saturating_add max_transfer_bytes 1048576.

(** * Requests *)

(** A multipart body as it arrives: fields with their chunks, or an error. *)
Record part := { pt_name : option string; pt_chunks : list (result string string) }.
Abbreviation multipart := (list (result string part)).

Definition next_field (m : multipart) : result string (option (part * multipart)) :=
  match m with
  | [] => Ok None
  | Err e :: _ => Err e
  | Ok p :: m => Ok (Some (p, m))
  end.

Definition field_named (name : string) (p : part) : bool := bool_decide (pt_name p = Some name).

(** * The daemon *)

(** What a request takes and gives, in order. *)
Inductive deed :=
| PermitTaken
| PermitReturned
| TempCreated (path : string)
| TempRemoved (path : string)
| Reserved (session_id : string)
| BuildSpawned (build : ValidatedRequest) (source : string)
| InitSpawned (session_id source : string)
| ActionSpawned (session_id : string) (r : SessionActionReservation) (input : json)
| UpdateSpawned (session_id : string) (r : SessionUpdateReservation).

(** [hs_permits]: the free slots of [build_slots]; [hs_sessions]: every entry,
    listed or not; [hs_temps]: the content of this request's temporary files;
    [hs_deeds]: what this request did. *)
Record daemon := Daemon {
  hs_calls : nat;
  hs_now : N;
  hs_permits : N;
  hs_sessions : gmap string SessionEntry;
  hs_temps : gmap string string;
  hs_deeds : list deed;
}.

Record AppState := {
  as_config : Config;
  as_auth : AuthSecrets;
  as_auth_required : bool;
  as_managed_sessions_enabled : bool;
}.

(** What may happen to a waiting handler. *)
Inductive signal := Goes | TimerFires | SessionCancelled | FutureDropped.

(** What the next call finds: how the others have changed the clock, the slots and
    the sessions; the signal; a failing file call; a fresh id; the outcome of
    verifying and of applying an update, of a worker's end, of a cleanup; and the
    file system. *)
Record HttpEnv := {
  he_others : N * N * gmap string SessionEntry → N * N * gmap string SessionEntry;
  he_signal : signal;
  he_fault : option string;
  he_fresh : string;
  he_prepare : string → SessionUpdateRequest → result (UpdateErrorKind * string) unit;
  he_update : result (UpdateErrorKind * string) SessionUpdateResponse;
  he_panicked : bool;
  he_join_error : option string;
  he_stopped : SessionStopResponse;
  he_outcome : cleanup_outcome;
  he_canonicalize : string → result io_error string;
  he_open : string → result io_error string;
}.

(** How a handler leaves early: with an answer, or because of a signal; a panic
    leaves it without an answer. *)
Inductive leave := Answer (r : reply) | TimedOut | Cancelled | Dropped | Panicked.

Section handlers.
Context `{AuthCrates, Serde} (env : nat → HttpEnv) (st : AppState).

Abbreviation http := (eff daemon leave).

Definition answer_early {A} (r : reply) : http A := io_fail (Answer r).

Definition ask {A} (f : HttpEnv → A) : http A := λ s,
  (Daemon (S (hs_calls s)) (hs_now s) (hs_permits s) (hs_sessions s) (hs_temps s) (hs_deeds s),
   Ok (f (env (hs_calls s)))).

(** Reading and changing the daemon's state in one step. *)
Definition look {A} (f : daemon → A) : http A := λ s, (s, Ok (f s)).
Definition edit (f : daemon → daemon) : http unit := λ s, (f s, Ok tt).

Definition note (d : deed) : http unit := edit (λ s,
  Daemon (hs_calls s) (hs_now s) (hs_permits s) (hs_sessions s) (hs_temps s) (hs_deeds s ++ [d])).

(** The others run. *)
Definition interleave : http unit := λ s,
  let '(now, permits, sessions) :=
    he_others (env (hs_calls s)) (hs_now s, hs_permits s, hs_sessions s) in
  (Daemon (hs_calls s) now permits sessions (hs_temps s) (hs_deeds s), Ok tt).

(** [.await]; [timer] and [cancellable] say which signals are armed. *)
Definition await (timer cancellable : bool) : http unit :=
  _ ← interleave;
  signal ← ask he_signal;
  match signal with
  | Goes => mret tt
  | TimerFires => if timer then io_fail TimedOut else mret tt
  | SessionCancelled => if cancellable then io_fail Cancelled else mret tt
  | FutureDropped => io_fail Dropped
  end.

(** A file call that only succeeds or fails. *)
Definition file_call (context : string) : http unit :=
  fault ← ask he_fault;
  match fault with
  | Some err => answer_early (server_error (context +:+ err))
  | None => mret tt
  end.

Definition put_temp (path content : string) : http unit := edit (λ s,
  Daemon (hs_calls s) (hs_now s) (hs_permits s) (hs_sessions s) (<[path := content]> (hs_temps s)) (hs_deeds s)).
Definition remove_temp (path : string) : http unit := edit (λ s,
  Daemon (hs_calls s) (hs_now s) (hs_permits s) (hs_sessions s) (delete path (hs_temps s))
    (hs_deeds s ++ [TempRemoved path])).

(** [Drop] of what a scope owns: on an early exit, or on every exit. *)
Definition or_else {A} (cleanup : http unit) (m : http A) : http A :=
  r ← io_try m;
  match r with
  | Ok a => mret a
  | Err e => _ ← cleanup; io_fail e
  end.
Definition finally {A} (cleanup : http unit) (m : http A) : http A :=
  r ← io_try m;
  _ ← cleanup;
  io_lift r.

(** * Slots and sessions *)

(** [try_acquire_owned]. *)
Definition try_acquire : http bool := λ s,
  if hs_permits s =? 0 then (s, Ok false)
  else (Daemon (hs_calls s) (hs_now s) (hs_permits s - 1) (hs_sessions s) (hs_temps s)
          (hs_deeds s ++ [PermitTaken]), Ok true).
Definition return_permit : http unit := edit (λ s,
  Daemon (hs_calls s) (hs_now s) (hs_permits s + 1) (hs_sessions s) (hs_temps s)
    (hs_deeds s ++ [PermitReturned])).

(** One lock section on the session's entry; an id that was never issued has none. *)
Definition on_session {A} (session_id : string) (missing : A) (f : N → SessionEntry → SessionEntry * A) :
    http A := λ s,
  match hs_sessions s !! session_id with
  | None => (s, Ok missing)
  | Some e =>
      let '(e', a) := f (hs_now s) e in
      (Daemon (hs_calls s) (hs_now s) (hs_permits s) (<[session_id := e']> (hs_sessions s)) (hs_temps s)
         (hs_deeds s), Ok a)
  end.

(** [cleanup_entry], run by this thread: the slot goes back with the session's
    permit. *)
Definition clean_up (session_id : string) (explicit : bool) : http SessionStopResponse :=
  _ ← interleave;
  outcome ← ask he_outcome;
  permit ← on_session session_id false (λ _ e, ((cleanup_entry explicit outcome e).1, en_permit e));
  _ ← edit (λ s, Daemon (hs_calls s) (hs_now s) (hs_permits s + (if permit : bool then 1 else 0))
                   (hs_sessions s) (hs_temps s) (hs_deeds s));
  mret (cleanup_response session_id explicit outcome).

(** What follows a lock section that may have made this thread the cleaner. *)
Definition follow (session_id : string) (n : next) : http unit :=
  match n with
  | Cleanup explicit => _ ← clean_up session_id explicit; mret tt
  | Return | Wait => mret tt
  end.

(** [SessionManager::reserve], which takes the permit over; [None] is a panic. *)
Definition reserve_session (validated : ValidatedRequest) : http SessionEntry :=
  session_id ← ask (λ e, "ses_" +:+ he_fresh e);
  now ← look hs_now;
  match reserve session_id (vr_request_id validated) (vr_task_id validated) (vr_task validated) now with
  | None => io_fail Panicked
  | Some entry =>
      _ ← edit (λ s, Daemon (hs_calls s) (hs_now s) (hs_permits s) (<[session_id := entry]> (hs_sessions s))
                       (hs_temps s) (hs_deeds s ++ [Reserved session_id]));
      mret entry
  end.

(** * Reading a request *)

Definition MAX_METADATA_BYTES : N := 65536.

Fixpoint read_metadata (data : string) (chunks : list (result string string)) : http string :=
  _ ← await false false;
  match chunks with
  | [] => mret data
  | Err err :: _ => answer_early (bad_request ("failed to read metadata: " +:+ err))
  | Ok chunk :: chunks =>
      if MAX_METADATA_BYTES <? saturating_add (len data) (len chunk)
      then answer_early (payload_too_large "metadata exceeds 65536 bytes")
      else read_metadata (data +:+ chunk) chunks
  end.

(** The first field, and what follows it. *)
Definition metadata_field (m : multipart) : http (string * multipart) :=
  _ ← await false false;
  match next_field m with
  | Ok (Some (p, m)) =>
      if field_named "metadata" p
      then data ← read_metadata "" (pt_chunks p); mret (data, m)
      else answer_early (bad_request "metadata must be the first multipart field")
  | Ok None => answer_early (bad_request "missing metadata field")
  | Err err => answer_early (bad_request ("invalid multipart metadata field: " +:+ err))
  end.

(** The loop that stores the archive; [what] names it in the errors. *)
Fixpoint store_chunks (cancellable : bool) (what too_large path : string) (max : N) (bytes : N)
    (data : string) (chunks : list (result string string)) : http string :=
  _ ← await true cancellable;
  match chunks with
  | [] => mret data
  | Err err :: _ => answer_early (bad_request ("failed to read " +:+ what +:+ ": " +:+ err))
  | Ok chunk :: chunks =>
      let bytes := saturating_add bytes (len chunk) in
      if max <? bytes then answer_early (payload_too_large too_large)
      else
        _ ← file_call ("failed to write " +:+ what +:+ ": ");
        _ ← put_temp path (data +:+ chunk);
        store_chunks cancellable what too_large path max bytes (data +:+ chunk) chunks
  end.

(** The second and last field, stored in a temporary file that this request owns. *)
Definition receive_upload (cancellable : bool) (what too_large : string) (max : N) (m : multipart) :
    http (string * string) :=
  _ ← await true cancellable;
  match next_field m with
  | Err err => answer_early (bad_request ("invalid multipart source field: " +:+ err))
  | Ok None => answer_early (bad_request "missing source field")
  | Ok (Some (p, m)) =>
      if negb (field_named "source" p) then answer_early (bad_request "source must follow metadata")
      else
        _ ← file_call "failed to create workspace root: ";
        _ ← file_call ("failed to create " +:+ what +:+ " temp file: ");
        path ← ask he_fresh;
        _ ← note (TempCreated path);
        _ ← put_temp path "";
        or_else (remove_temp path)
          (data ← store_chunks cancellable what too_large path max 0 "" (pt_chunks p);
           _ ← await true cancellable;
           match next_field m with
           | Ok None => mret (path, data)
           | Ok (Some (p, _)) =>
               answer_early (bad_request ("unexpected or duplicate multipart field " +:+
                                          default "unnamed" (pt_name p)))
           | Err err => answer_early (bad_request ("invalid multipart trailer: " +:+ err))
           end)
  end.

Definition receive_source_upload (cancellable : bool) (m : multipart) : http (string * string) :=
  receive_upload cancellable "source" "source archive exceeds sources.max_transfer_bytes"
    (so_max_transfer_bytes (cf_sources (as_config st))) m.

(** With the digest of what was stored. *)
Definition receive_update_upload (max_transfer_bytes : N) (m : multipart) : http (string * string * string) :=
  '(path, data) ← receive_upload false "update" "update archive exceeds configured max_transfer_bytes"
                    max_transfer_bytes m;
  mret (path, data, sha256 data).

(** * Builds *)

Definition authorized (headers : list (string * string)) : http unit :=
  match authorize headers (as_auth st) (as_auth_required st) with
  | Some response => answer_early response
  | None => mret tt
  end.

Definition start_build (headers : list (string * string)) (m : multipart) : http reply :=
  _ ← authorized headers;
  '(metadata, m) ← metadata_field m;
  request ← io_lift (map_err (λ e, Answer (bad_request (request_error_message e)))
                       (parse_request_metadata metadata));
  validated ← io_lift (map_err (λ e, Answer (bad_request (be_message e)))
                         (validate_request request (as_config st)));
  permit ← try_acquire;
  if negb permit then answer_early busy_response
  else
    upload ← io_try (or_else return_permit (receive_source_upload false m));
    match upload with
    | Err TimedOut => mret source_upload_timeout
    | Err e => io_fail e
    | Ok (source_path, _) =>
        _ ← note (BuildSpawned validated source_path);
        mret (Payload (BuildEvents validated))
    end.

(** * Sessions *)

Definition session_task (request : SessionStartRequest) : result leave TaskConfig :=
  match cf_tasks (as_config st) !! ss_task request with
  | Some task =>
      if is_some (tk_session task) then Ok task
      else Err (Answer (bad_request "task does not configure managed sessions"))
  | None => Err (Answer (bad_request ("unknown task " +:+ ss_task request)))
  end.

(** The answer to an upload that did not complete, if there is one to give. *)
Definition upload_failure (lifetime_limits_upload : bool) (e : leave) : option reply :=
  match e with
  | Answer r => Some r
  | TimedOut => Some (if lifetime_limits_upload then session_lifetime_timeout else source_upload_timeout)
  | Cancelled => Some session_lifetime_timeout
  | Dropped | Panicked => None
  end.

Definition start_session (headers : list (string * string)) (m : multipart) : http reply :=
  _ ← authorized headers;
  if negb (as_managed_sessions_enabled st) then mret managed_sessions_unavailable
  else
    '(metadata, m) ← metadata_field m;
    request ← io_lift (map_err (λ e, Answer (bad_request (request_error_message e)))
                         (parse_session_start_metadata metadata));
    task ← io_lift (session_task request);
    let validated := {| vr_request_id := ss_request_id request; vr_task_id := ss_task request;
                        vr_task := task |} in
    permit ← try_acquire;
    if negb permit then answer_early busy_response
    else
      entry ← or_else return_permit (reserve_session validated);
      let session_id := en_id entry in
      now ← look hs_now;
      let lifetime_limits_upload :=
        remaining_lifetime now entry <=?
          so_upload_timeout_sec (cf_sources (as_config st)) * 1000000000 in
      upload ← io_try (receive_source_upload true m);
      match upload with
      | Err e =>
          match upload_failure lifetime_limits_upload e with
          | None => io_fail e
          | Some response =>
              n ← on_session session_id Return (λ _ e, cancel_upload e);
              _ ← follow session_id n;
              mret response
          end
      | Ok (source_path, _) =>
          '(begun, n) ← on_session session_id (false, Return)
                          (λ now e, let '(e, begun, n) := begin_initialization now e in (e, (begun, n)));
          _ ← follow session_id n;
          if negb begun then _ ← remove_temp source_path; mret session_lifetime_timeout
          else
            _ ← note (InitSpawned session_id source_path);
            mret (Payload (SessionEvents session_id))
      end.

Definition update_context (session_id : string) : http (SourceUpdatesConfig * N) :=
  r ← on_session session_id (Err UpdateNotFound) (λ now e, (e, update_upload_context now e));
  match r with
  | Ok context => mret context
  | Err UpdateNotFound => answer_early not_found
  | Err _ => io_fail Panicked
  end.

(** [message.contains(..)]. *)
Definition limit_exceeded (message : string) : bool := is_some (split_once "exceeds configured" message).

Definition update_failure (kind : UpdateErrorKind) (message : string) : reply :=
  match kind with
  | UBadRequest => bad_request message
  | ULimit => payload_too_large message
  | UCancelled => not_found
  | UInternal => server_error message
  end.

Definition prepare_failure (kind : UpdateErrorKind) (message : string) : reply :=
  match kind with
  | ULimit => payload_too_large message
  | UBadRequest => bad_request message
  | _ => server_error message
  end.

Definition admission_failure (e : UpdateAdmissionError) : reply :=
  match e with
  | UpdateNotFound => not_found
  | OperationConflict => conflict_response "session_conflict" None
  | RequestConflict => conflict_response "request_conflict" None
  | RevisionConflict current_revision => conflict_response "revision_conflict" (Some current_revision)
  end.

(** The worker of an admitted update and its answer. *)
Definition run_update (session_id : string) (r : SessionUpdateReservation) : http reply :=
  _ ← note (UpdateSpawned session_id r);
  _ ← await false false;
  join ← ask he_join_error;
  panicked ← ask he_panicked;
  result ← ask he_update;
  match join with
  | Some err => mret (server_error ("source update task failed: " +:+ err))
  | None =>
      if panicked : bool then
        n ← on_session session_id Return (λ _ e, update_worker_panicked e);
        _ ← follow session_id n;
        mret (update_failure UInternal "source update worker panicked")
      else
        match result with
        | Ok response => mret (Payload (UpdateJson response))
        | Err (kind, message) => mret (update_failure kind message)
        end
  end.

(** From the stored archive to the answer. *)
Definition verify_and_update (session_id metadata : string) (request : SessionUpdateRequest) (data digest : string) :
    http reply :=
  let request_digest := sha256 (sha256 metadata +:+ digest) in
  _ ← await false false;
  join ← ask he_join_error;
  prepared ← ask (λ e, he_prepare e data request);
  match join, prepared with
  | Some err, _ => mret (server_error ("update verification task failed: " +:+ err))
  | None, Err (kind, message) => mret (prepare_failure kind message)
  | None, Ok _ =>
      base_revision ← io_lift (ok_or (parse_revision (su_base_revision request)) Panicked);
      update_id ← ask (λ e, "upd_" +:+ he_fresh e);
      admission ← on_session session_id (Err UpdateNotFound) (λ now e,
                    start_update now (su_request_id request) request_digest base_revision update_id e);
      match admission with
      | Err e => mret (admission_failure e)
      | Ok (Retry response) => mret (Payload (UpdateJson response))
      | Ok (Start r) => run_update session_id r
      end
  end.

Definition update_session_source (headers : list (string * string)) (session_id : string) (m : multipart) :
    http reply :=
  _ ← authorized headers;
  if negb (as_managed_sessions_enabled st) || negb (valid_session_id session_id) then mret not_found
  else
    '(policy, remaining) ← update_context session_id;
    '(metadata, m) ← metadata_field m;
    request ← io_lift (map_err (λ e, Answer ((if limit_exceeded (request_error_message e)
                                               then payload_too_large else bad_request)
                                              (request_error_message e)))
                         (parse_session_update_metadata metadata (up_max_files policy) (up_max_depth policy)));
    let lifetime_limits_upload := remaining <=? up_timeout_sec policy * 1000000000 in
    upload ← io_try (receive_update_upload (up_max_transfer_bytes policy) m);
    match upload with
    | Err TimedOut => mret (if lifetime_limits_upload then session_lifetime_timeout else source_upload_timeout)
    | Err e => io_fail e
    | Ok (path, data, digest) =>
        finally (remove_temp path) (verify_and_update session_id metadata request data digest)
    end.

(** * Actions *)

Definition CONTENT_TYPE : string := "content-type".

(** The media type of the first [Content-Type] header. *)
Definition json_content_type (headers : list (string * string)) : bool :=
  let content_type := default "" (head (get_all CONTENT_TYPE headers) ≫= header_to_str) in
  eq_ignore_ascii_case (trim (default "" (head (split ";" content_type)))) "application/json".

(** [to_bytes]: the body, unless it is longer than the limit or fails. *)
Fixpoint read_body (max : N) (data : string) (chunks : list (result string string)) : http string :=
  _ ← await false false;
  match chunks with
  | [] => mret data
  | Err _ :: _ => answer_early (payload_too_large "session action body exceeds 65536 bytes")
  | Ok chunk :: chunks =>
      if max <? len data + len chunk
      then answer_early (payload_too_large "session action body exceeds 65536 bytes")
      else read_body max (data +:+ chunk) chunks
  end.

Definition action_failure (e : ActionError) : reply :=
  match e with
  | ActionNotFound => not_found
  | UnknownAction => JsonError NOT_FOUND "unknown_action"
  | ActionConflict => JsonError CONFLICT "session_conflict"
  end.

Definition run_session_action (headers : list (string * string)) (session_id action : string)
    (chunks : list (result string string)) : http reply :=
  _ ← authorized headers;
  if negb (as_managed_sessions_enabled st) then mret managed_sessions_unavailable
  else if negb (valid_session_id session_id) then mret not_found
  else if negb (valid_task_id action) then mret not_found
  else if negb (json_content_type headers)
  then mret (bad_request "session action body must use application/json")
  else
    body ← read_body MAX_SESSION_ACTION_BODY_BYTES "" chunks;
    request ← io_lift (map_err (λ e, Answer (bad_request (action_request_error_message e)))
                         (parse_session_action_request body));
    action_id ← ask (λ e, "act_" +:+ he_fresh e);
    reservation ← on_session session_id (Err ActionNotFound) (λ now e, start_action now action action_id e);
    match reservation with
    | Err e => mret (action_failure e)
    | Ok r =>
        _ ← note (ActionSpawned session_id r (encode_input r (sa_input request)));
        mret (Payload (ActionEvents session_id (sr_action_id r)))
    end.

Definition stop_failure (e : StopError) : reply :=
  match e with StopNotFound => not_found | StopConflict => JsonError CONFLICT "session_conflict" end.

(** The blocking task of a stop; a caller that waits is woken with the answer. *)
Definition stop_session (headers : list (string * string)) (session_id : string) : http reply :=
  _ ← authorized headers;
  if negb (as_managed_sessions_enabled st) then mret managed_sessions_unavailable
  else if negb (valid_session_id session_id) then mret not_found
  else
    _ ← interleave;
    stopped ← on_session session_id (Err StopNotFound) (λ _ e, stop e);
    answer ← match stopped with
             | Err e => mret (Err e)
             | Ok (Cleanup explicit) => response ← clean_up session_id explicit; mret (Ok response)
             | Ok _ => response ← ask he_stopped; mret (Ok response)
             end;
    _ ← await false false;
    join ← ask he_join_error;
    match join, answer with
    | Some err, _ => mret (server_error ("session stop task failed: " +:+ err))
    | None, Ok response => mret (Payload (StopJson response))
    | None, Err e => mret (stop_failure e)
    end.

(** * Artifacts *)

Definition read_artifact (artifact_id : string) : http reply :=
  let root := path_join (ar_storage_root (cf_artifacts (as_config st))) artifact_id in
  let candidate := path_join root "artifacts.zip" in
  resolved_root ← ask (λ e, he_canonicalize e root);
  match resolved_root with
  | Err _ => mret not_found
  | Ok resolved_root =>
      resolved ← ask (λ e, he_canonicalize e candidate);
      match resolved with
      | Err _ => mret not_found
      | Ok resolved =>
          if negb (path_starts_with resolved resolved_root) then mret not_found
          else
            _ ← await false false;
            file ← ask (λ e, he_open e resolved);
            match file with
            | Err _ => mret not_found
            | Ok content => mret (Payload (ZipFile content))
            end
      end
  end.

Definition get_artifact (headers : list (string * string)) (build_id : string) : http reply :=
  _ ← authorized headers;
  if negb (valid_build_id build_id) then mret not_found else read_artifact build_id.

(** * Routes *)

(** What axum's extractors make of a request before its handler runs: a path
    parameter that is not UTF-8, or an upload whose content type names no multipart
    boundary ([None]), is answered 400, with a text of axum's. *)
Definition extracted {S E A P} (args : option A) (handler : A → eff S E (response P)) : eff S E (response P) :=
  match args with Some a => handler a | None => mret (StatusOnly BAD_REQUEST) end.

(** The routes of [build_router] but the two of the host. *)
Inductive http_endpoint :=
| PostBuilds (upload : option multipart)
| GetBuildArtifacts (build_id : option string)
| PostSessions (upload : option multipart)
| DeleteSession (session_id : option string)
| PostUpdates (args : option (string * multipart))
| PostActions (args : option (string * string)) (chunks : list (result string string)).

Definition serve_http (headers : list (string * string)) (ep : http_endpoint) : http reply :=
  match ep with
  | PostBuilds upload => extracted upload (start_build headers)
  | GetBuildArtifacts build_id => extracted build_id (get_artifact headers)
  | PostSessions upload => extracted upload (start_session headers)
  | DeleteSession session_id => extracted session_id (stop_session headers)
  | PostUpdates args => extracted args (λ '(session_id, m), update_session_source headers session_id m)
  | PostActions args chunks =>
      extracted args (λ '(session_id, action), run_session_action headers session_id action chunks)
  end.
End handlers.
