(* ===== verification/ClientSource.v ===== *)
(** The client's source packages ([src/src/client_source.rs]): which paths may be
    submitted, the plan of a package, its manifest and the Jujutsu listing it is
    made from. *)
From Stdlib Require Import Ascii.
From stdpp Require Import base option strings numbers list gmap pretty sorting.
From S2P Require Import Prelude Effects RustStr Fs Protocol Archive Config.

Local Open Scope N_scope.

Definition MAX_FILES : nat := N.to_nat 50000.
Definition MAX_DEPTH : nat := 64.
Definition MAX_UNCOMPRESSED_BYTES : N := 1342177280.
Definition MAX_JJ_OUTPUT : nat := N.to_nat 8388608.
Definition MAX_JJ_STDERR : nat := N.to_nat 8192.

Inductive EntryKind := EkFile | EkSymlink.

#[export] Instance EntryKind_eq_dec : EqDecision EntryKind.
Proof. solve_decision. Defined.

Record SourceEntry := {
  se_path : string;
  se_kind : EntryKind;
  se_mode : N;
  se_size : N;
  se_sha256 : string;
}.

Record SourceManifest := {
  mf_schema_version : N;
  mf_entries : list SourceEntry;
  mf_entry_count : N;
  mf_uncompressed_bytes : N;
  mf_aggregate_sha256 : string;
}.

Record SourceIdentity := {
  id_mode : string;
  id_root : string;
  id_jj_version : option string;
  id_jj_commit_id : option string;
  id_initial_snapshot_atomicity : string;
  id_archive_sha256 : string;
  id_archive_bytes : N;
}.

(** The archive is the content of its temporary file. *)
Record SourcePackage := { pk_archive : string; pk_manifest : SourceManifest; pk_identity : SourceIdentity }.
Record UpdateSourcePackage := {
  up_archive : string;
  up_entries : list SourceEntry;
  up_identity : SourceIdentity;
}.

Record FilesystemPatterns := { fp_include : list string; fp_exclude : list string }.

Record JjEntry := {
  jj_path : string;
  jj_file_type : string;
  jj_executable : bool;
  jj_conflict : bool;
}.

Record PlannedEntry := Planned {
  pe_path : string;
  pe_kind : EntryKind;
  pe_executable : bool;
  pe_symlink_target : option string;
}.

#[export] Instance PlannedEntry_eq_dec : EqDecision PlannedEntry.
Proof. solve_decision. Defined.

Definition invalid_data (message : string) : io_error := IoError InvalidData message.
Definition invalid_input (message : string) : io_error := IoError InvalidInput message.
Definition other_error (message : string) : io_error := IoError OtherKind message.

(** [limit]. *)
Definition client_limit (message : string) : io_error := invalid_data message.

(** * Paths *)

Definition unsafe_component (component : string) : bool :=
  is_empty component || bool_decide (component = ".") || bool_decide (component = "..") ||
  eq_ignore_ascii_case component ".git" || eq_ignore_ascii_case component ".jj".

Definition validate_archive_path (path : string) : result io_error unit :=
  _ ← reject_if (is_empty path || (4096 <? len path) || negb (is_ascii path) ||
                 (contains_byte "\" path || contains_byte nul path))
        (invalid_data "source path is not a portable ASCII relative path");
  let components := split slash path in
  reject_if (Nat.ltb MAX_DEPTH (length components) || existsb unsafe_component components ||
             existsb (λ c, negb (is_normal c)) (RustStr.components path))
    (invalid_data "source path is unsafe or exceeds the client depth limit").

(** [a.path.as_bytes().cmp(b.path.as_bytes())]. *)
Definition path_before (a b : PlannedEntry) : Prop := String.compare (pe_path a) (pe_path b) ≠ Gt.
#[export] Instance path_before_dec : RelDecision path_before.
Proof. intros a b. unfold path_before. destruct (String.compare _ _); [left|left|right]; congruence. Defined.

Definition sort_entries (entries : list PlannedEntry) : list PlannedEntry := merge_sort path_before entries.

(** The sets of the validation loop; [files] and [directories] hold folded paths. *)
Record plan_state := PlanState {
  ps_exact : gset string;
  ps_folded : gset string;
  ps_files : gset string;
  ps_directories : gset string;
}.

Definition plan_collision : io_error := invalid_data "source contains a file/directory path collision".

(** The loop over the components but the last. *)
Fixpoint plan_ancestors (ancestor : string) (comps : list string) (s : plan_state) :
    result io_error plan_state :=
  match comps with
  | [] => Ok s
  | component :: comps =>
      let ancestor := (if is_empty ancestor then "" else ancestor +:+ "/") +:+ component in
      let folded_ancestor := to_ascii_lowercase ancestor in
      _ ← reject_if (bool_decide (folded_ancestor ∈ ps_files s)) plan_collision;
      plan_ancestors ancestor comps
        (PlanState (ps_exact s) (ps_folded s) (ps_files s) ({[folded_ancestor]} ∪ ps_directories s))
  end.

Definition plan_entry (s : plan_state) (entry : PlannedEntry) : result io_error plan_state :=
  let path := pe_path entry in
  _ ← validate_archive_path path;
  let lower := to_ascii_lowercase path in
  _ ← reject_if (bool_decide (path ∈ ps_exact s) || bool_decide (lower ∈ ps_folded s))
        (invalid_data "source contains duplicate or case-colliding paths");
  s ← plan_ancestors "" (removelast (split slash path))
        (PlanState ({[path]} ∪ ps_exact s) ({[lower]} ∪ ps_folded s) (ps_files s) (ps_directories s));
  _ ← reject_if (bool_decide (lower ∈ ps_directories s)) plan_collision;
  Ok (PlanState (ps_exact s) (ps_folded s) ({[lower]} ∪ ps_files s) (ps_directories s)).

(** The entries in the order they are packaged. *)
Definition validate_planned_entries (entries : list PlannedEntry) : result io_error (list PlannedEntry) :=
  _ ← reject_if (Nat.ltb MAX_FILES (length entries))
        (client_limit "source entry count exceeds the client limit");
  let entries := sort_entries entries in
  _ ← fold_each plan_entry (PlanState ∅ ∅ ∅ ∅) entries;
  Ok entries.

(** The checks on the paths of an update. *)
Definition update_path_step (s : gset string * gset string) (path : string) :
    result io_error (gset string * gset string) :=
  let '(exact, folded) := s in
  _ ← map_err (λ e, invalid_input (request_error_message e)) (validate_update_path path (N.of_nat MAX_DEPTH));
  _ ← reject_if (bool_decide (path ∈ exact) || bool_decide (to_ascii_lowercase path ∈ folded))
        (invalid_input "update contains duplicate or case-colliding paths");
  Ok ({[path]} ∪ exact, {[to_ascii_lowercase path]} ∪ folded).

Definition check_update_paths (files deletes : list string) : result io_error unit :=
  _ ← reject_if (is_nil files && is_nil deletes)
        (invalid_input "at least one update file or delete is required");
  _ ← fold_each update_path_step (∅, ∅) (files ++ deletes);
  Ok tt.

(** * Patterns *)

Section globs.
Context `{Glob}.

Fixpoint compile_globs (values : list string) : result io_error (list Pattern) :=
  match values with
  | [] => Ok []
  | value :: values =>
      glob ← map_err invalid_input (Pattern_new value);
      globs ← compile_globs values;
      Ok (glob :: globs)
  end.
End globs.

(** * Sizes and digests *)

Definition add_total (total amount : N) : result io_error N :=
  let total := saturating_add total amount in
  _ ← reject_if (MAX_UNCOMPRESSED_BYTES <? total) (client_limit "source bytes exceed the client limit");
  Ok total.

(** [u64::to_le_bytes]. *)
Fixpoint le_bytes (n : nat) (v : N) : string :=
  match n with
  | O => EmptyString
  | S n => String (ascii_of_N (v mod 256)) (le_bytes n (v / 256))
  end.
Definition to_le_bytes (v : N) : string := le_bytes 8 v.

(** What [update_aggregate] adds to the hash. *)
Definition aggregate_record (path : string) (kind : EntryKind) (size : N) (digest : string) : string :=
  to_le_bytes (len path) +:+ path +:+
  String (match kind with EkFile => "000" | EkSymlink => "001" end)%char "" +:+
  to_le_bytes size +:+ digest.

Definition hex_digit (n : N) : ascii := ascii_of_N (if n <? 10 then 48 + n else 87 + n).
Fixpoint hex (s : string) : string :=
  match s with
  | EmptyString => EmptyString
  | String a s => String (hex_digit (code a / 16)) (String (hex_digit (code a mod 16)) (hex s))
  end.

(** * Output of Jujutsu *)

(** Drops trailing carriage returns and line feeds. *)
Definition is_line_end (a : ascii) : bool := byte_eqb a "013" || byte_eqb a "010".
Fixpoint trim_line_end (s : string) : string :=
  match s with
  | EmptyString => EmptyString
  | String a s =>
      match trim_line_end s with
      | EmptyString => if is_line_end a then EmptyString else String a EmptyString
      | t => String a t
      end
  end.

Definition one_line (value : string) (max : nat) (label : string) : result io_error string :=
  let trimmed := trim_line_end value in
  _ ← reject_if (is_empty trimmed || Nat.ltb max (String.length trimmed) ||
                 (contains_byte "013" trimmed || contains_byte "010" trimmed || contains_byte nul trimmed))
        (invalid_data ("invalid " +:+ label));
  Ok trimmed.

Definition check_commit_id (pin : string) : result io_error unit :=
  reject_if (Nat.ltb (String.length pin) 40 || negb (all_bytes is_ascii_hexdigit pin))
    (invalid_data "Jujutsu did not return one full hexadecimal commit id").

(** [str::lines]: a terminated line loses its [\n] or [\r\n]; what follows the last
    [\n] is a line when it is not empty. *)
Definition strip_cr (s : string) : string := default s (strip_suffix "013" s).
Definition lines (s : string) : list string :=
  let parts := split "010" s in
  (strip_cr <$> removelast parts) ++ filter (λ l, l ≠ "") [List.last parts ""].

(** [serde_json] on a line of the listing. *)
Class JjCodec := { jj_entry_from_str : string → result string JjEntry }.

Section listing.
Context `{JjCodec}.

Definition parse_jj_entry (line : string) : result io_error JjEntry :=
  map_err (λ e, invalid_data ("invalid jj manifest JSON: " +:+ e)) (jj_entry_from_str line).

Definition jj_kind (entry : JjEntry) : result io_error EntryKind :=
  if bool_decide (jj_file_type entry = "file") then Ok EkFile
  else if bool_decide (jj_file_type entry = "symlink") then Ok EkSymlink
  else if bool_decide (jj_file_type entry = "git-submodule")
  then Err (invalid_data "Jujutsu tree contains unsupported git submodule")
  else Err (invalid_data ("Jujutsu tree contains unsupported " +:+ jj_file_type entry +:+ " entry")).

Definition jj_conflicted (entry : JjEntry) : bool :=
  jj_conflict entry || bool_decide (jj_file_type entry = "conflict").

Definition plan_jj_line (planned : list PlannedEntry) (line : string) : result io_error (list PlannedEntry) :=
  if is_empty line then Ok planned
  else
    entry ← parse_jj_entry line;
    _ ← reject_if (jj_conflicted entry) (invalid_data "Jujutsu tree contains a conflict");
    kind ← jj_kind entry;
    _ ← validate_archive_path (jj_path entry);
    Ok (planned ++ [Planned (jj_path entry) kind (jj_executable entry) None]).

Definition plan_jj (listing : string) : result io_error (list PlannedEntry) :=
  _ ← reject_if (Nat.ltb MAX_JJ_OUTPUT (String.length listing))
        (client_limit "Jujutsu manifest output exceeded the client limit");
  planned ← fold_each plan_jj_line [] (lines listing);
  validate_planned_entries planned.

Definition jj_tree_line (tree : gmap string JjEntry) (line : string) : result io_error (gmap string JjEntry) :=
  entry ← parse_jj_entry line;
  _ ← reject_if (is_some (tree !! jj_path entry)) (invalid_data "Jujutsu tree contains duplicate paths");
  Ok (<[jj_path entry := entry]> tree).

Definition jj_tree (listing : string) : result io_error (gmap string JjEntry) :=
  fold_each jj_tree_line ∅ (filter (λ l, l ≠ "") (lines listing)).

(** The entry of a [--file] path. *)
Definition jj_update_entry (tree : gmap string JjEntry) (path : string) : result io_error JjEntry :=
  entry ← ok_or (tree !! path) (IoError NotFound "--file path is missing at pinned revision");
  _ ← reject_if (jj_conflicted entry) (invalid_data "Jujutsu tree contains a conflict");
  _ ← reject_if (negb (bool_decide (jj_file_type entry = "file")))
        (invalid_data "--file path is not a regular file at pinned revision");
  _ ← reject_if (jj_executable entry) (invalid_data "--file path is executable at pinned revision");
  Ok entry.
End listing.

(** * Bounded reading of a pipe *)

(** The bytes kept, and whether some were dropped. *)
Fixpoint drain_bounded (limit : nat) (kept : string) (overflow : bool)
    (reads : list (result io_error string)) : result io_error (string * bool) :=
  match reads with
  | [] => Ok (kept, overflow)
  | Err e :: _ => Err e
  | Ok data :: reads =>
      if is_empty data then Ok (kept, overflow)
      else
        let keep := Nat.min (limit - String.length kept) (String.length data) in
        drain_bounded limit (kept +:+ String.substring 0 keep data)
          (overflow || Nat.ltb keep (String.length data)) reads
  end.

Definition read_and_drain_bounded (reads : list (result io_error string)) (limit : nat) :
    result io_error (string * bool) :=
  drain_bounded limit "" false reads.
