(* ===== verification/ClientPackage.v ===== *)
(** Packaging the client's sources ([src/src/client_source.rs]): from a pinned
    Jujutsu tree or from a directory, into a zip archive with its manifest.

    Other processes may change the directory at any time, so every call asks an
    environment indexed by the number of calls made; a theorem about every
    environment is a theorem about every interleaving.  A run of [jj] is one answer
    of the environment: what its pipes deliver and how waiting for it ends, be it
    by exit, by cancellation or by a time limit.  Error texts that quote a path are
    given without it. *)
From Stdlib Require Import Ascii.
From stdpp Require Import base option strings numbers list gmap pretty sorting.
From S2P Require Import Prelude Effects RustStr Fs Protocol Archive Config Artifacts ArtifactZip ClientSource.

Local Open Scope N_scope.

(** [Metadata] with the fields that are compared. *)
Record smeta := {
  sm_kind : file_kind;
  sm_mode : N;
  sm_len : N;
  sm_dev : N;
  sm_ino : N;
  sm_mtime : Z;
  sm_mtime_nsec : Z;
}.

#[export] Instance smeta_eq_dec : EqDecision smeta.
Proof. solve_decision. Defined.

(** A run of [jj]: whether it could be started, what its pipes deliver, and how
    waiting for it ended (whether it succeeded). *)
Record jj_run := {
  jr_spawn : result io_error unit;
  jr_stdout : list (result io_error string);
  jr_stderr : list (result io_error string);
  jr_wait : result io_error bool;
}.

(** What the next call would answer.  [ev_openat] names a directory descriptor by
    the root and the components opened so far; [ev_reads] is what reading the file
    opened at a path returns, chunk by chunk. *)
Record SourceEnv := {
  ev_cancelled : bool;
  ev_canonicalize : string → result io_error string;
  ev_lstat : string → result io_error smeta;
  ev_fstat : string → result io_error smeta;
  ev_open : string → result io_error unit;
  ev_open_root : string → result io_error unit;
  ev_openat : string → list string → bool → result io_error unit;
  ev_reads : string → list (result io_error string);
  ev_read_link : string → result io_error string;
  ev_walk : string → (string → file_kind → bool) → list (result io_error (string * file_kind));
  ev_fault : option io_error;
  ev_jj : string → list string → jj_run;
}.

(** The [zip] crate's writer on the package's temporary file. *)
Class PackageZip := {
  pz : Type;
  pz_new : pz;
  pz_start_file : string → N → pz → result string pz;
  pz_write : string → pz → pz;
  pz_add_symlink : string → string → pz → result string pz;
  pz_finish : pz → result string string;
}.

(** The calls made so far, and the [jj] commands started with their directory. *)
Record client := Client { cl_calls : nat; cl_jj : list (string * list string) }.

Definition quoted (s : string) : string := Artifacts.quote +:+ s +:+ Artifacts.quote.

(** The template of one line of the listing: a JSON object. *)
Definition escaped (s : string) : string := "\" +:+ Artifacts.quote +:+ s +:+ "\" +:+ Artifacts.quote.
Definition JJ_MANIFEST_TEMPLATE : string :=
  quoted ("{" +:+ escaped "path" +:+ ":") +:+ " ++ json(path) ++ " +:+
  quoted ("," +:+ escaped "type" +:+ ":") +:+ " ++ file_type.escape_json() ++ " +:+
  quoted ("," +:+ escaped "executable" +:+ ":") +:+ " ++ executable ++ " +:+
  quoted ("," +:+ escaped "conflict" +:+ ":") +:+ " ++ conflict ++ " +:+
  quoted "}\n".

Section package.
Context `{Glob, PackageZip, JjCodec} (sha256 : string → string) (env : nat → SourceEnv).

Abbreviation io := (eff client io_error).

Definition ask {A} (f : SourceEnv → result io_error A) : io A := λ c,
  (Client (S (cl_calls c)) (cl_jj c), f (env (cl_calls c))).

(** [SourceCancellation::check]. *)
Definition check : io unit :=
  ask (λ e, if ev_cancelled e then Err (IoError Interrupted "source packaging interrupted") else Ok tt).

(** A call that only succeeds or fails: the temporary file, and the writes to it. *)
Definition store : io unit := ask (λ e, match ev_fault e with Some e => Err e | None => Ok tt end).

Definition of_zip {A} (r : result string A) : io A := io_lift (map_err other_error r).

(** * Finding the repository *)

(** The loop that goes up from a directory; [fuel] bounds its components. *)
Fixpoint find_jj_from (fuel : nat) (cursor : list component) : io (option (list component)) :=
  match fuel with
  | O => mret None
  | S fuel =>
      r ← io_try (ask (λ e, ev_lstat e (path_join (Artifacts.path_str cursor) ".jj")));
      match r with
      | Ok metadata =>
          _ ← io_reject (bool_decide (sm_kind metadata = Symlink))
                (invalid_data "refusing symlinked Jujutsu marker");
          mret (Some cursor)
      | Err e =>
          _ ← io_reject (negb (bool_decide (io_error_kind e = NotFound))) e;
          match cursor with
          | [] | [RootDir] => mret None
          | _ => find_jj_from fuel (removelast cursor)
          end
      end
  end.

Definition find_jj_root (start : string) : io (option string) :=
  cursor ← ask (λ e, ev_canonicalize e start);
  r ← find_jj_from (S (length (components cursor))) (components cursor);
  mret (Artifacts.path_str <$> r).

(** * Running Jujutsu *)

Definition spawn_jj (cwd : string) (args : list string) : io jj_run := λ c,
  let run := ev_jj (env (cl_calls c)) cwd args in
  match jr_spawn run with
  | Err e => (Client (S (cl_calls c)) (cl_jj c), Err e)
  | Ok _ => (Client (S (cl_calls c)) (cl_jj c ++ [(cwd, args)]), Ok run)
  end.

Definition jj_not_executed (e : io_error) : io_error :=
  IoError (io_error_kind e) ("failed to execute jj in detected Jujutsu repository: " +:+ io_error_message e).

(** [checked] is the cancellation the command is run under: the caller's, or a
    fresh one during cleanup. *)
Definition run_jj_bounded (cwd : string) (args : list string) (checked : bool) : io string :=
  _ ← (if checked then check else mret tt);
  run ← io_map_err jj_not_executed (spawn_jj cwd args);
  success ← io_lift (jr_wait run);
  '(stdout, overflow) ← io_lift (read_and_drain_bounded (jr_stdout run) MAX_JJ_OUTPUT);
  '(stderr, _) ← io_lift (read_and_drain_bounded (jr_stderr run) MAX_JJ_STDERR);
  _ ← io_reject overflow (client_limit "Jujutsu output exceeded the client limit");
  _ ← io_reject (negb success) (other_error ("jj command failed: " +:+ from_utf8_lossy stderr));
  option_expect (from_utf8 stdout) (invalid_data "jj output was not UTF-8").

Definition jj_version (root : string) : io string :=
  output ← run_jj_bounded root ["--version"] true;
  io_lift (one_line output 256 "jj version").

Definition jj_pin (invocation_dir : string) : io string :=
  output ← run_jj_bounded invocation_dir
             ["--no-pager"; "log"; "--no-graph"; "-r"; "@"; "-T"; "commit_id ++ " +:+ quoted "\n"] true;
  pin ← io_lift (one_line output 128 "Jujutsu commit id");
  _ ← io_lift (check_commit_id pin);
  mret pin.

Definition jj_listing (root pin : string) : io string :=
  run_jj_bounded root
    ["--ignore-working-copy"; "--no-pager"; "file"; "list"; "-r"; pin; "-T"; JJ_MANIFEST_TEMPLATE] true.

(** [serde_json::to_string] of a path. *)
Context (json_string : string → string).

(** The archive being written, the bytes it holds and the hash of the current
    file. *)
Record stream := Stream { sw_zip : pz; sw_total : N; sw_data : string }.

Definition write_chunk (s : stream) (chunk : string) : io stream :=
  total ← io_lift (add_total (sw_total s) (len chunk));
  _ ← store;
  mret (Stream (pz_write chunk (sw_zip s)) total (sw_data s +:+ chunk)).

(** The loop over the chunks of a file, or over those the reader of a pipe sends (a
    turn that times out does nothing). *)
Fixpoint stream_reads (s : stream) (reads : list (result io_error string)) : io stream :=
  _ ← check;
  match reads with
  | [] => mret s
  | Err e :: _ => io_fail e
  | Ok chunk :: reads =>
      if is_empty chunk then mret s
      else s ← write_chunk s chunk; stream_reads s reads
  end.

Definition stream_jj_file (root pin fileset : string) (s : stream) : io stream :=
  _ ← check;
  run ← spawn_jj root
          ["--ignore-working-copy"; "--no-pager"; "file"; "show"; "-r"; pin; "-T"; ""; fileset];
  streamed ← io_try (stream_reads s (jr_stdout run));
  '(stderr, _) ← io_lift (read_and_drain_bounded (jr_stderr run) MAX_JJ_STDERR);
  s ← io_lift streamed;
  success ← io_lift (jr_wait run);
  _ ← io_reject (negb success) (other_error ("jj file show failed: " +:+ from_utf8_lossy stderr));
  mret s.

(** * The entries of a package *)

Definition file_mode (executable : bool) : N := if executable then 493 else 420.
Definition file_entry_mode (executable : bool) : N := o100000 + file_mode executable.
Definition link_entry_mode : N := o120000 + o777.

(** The archive, the entries written, the total and the bytes hashed into the
    aggregate. *)
Record packing := Packing {
  pg_zip : pz;
  pg_entries : list SourceEntry;
  pg_total : N;
  pg_aggregate : string;
}.

Definition push_entry (entry : PlannedEntry) (mode size : N) (digest : string) (z : pz) (total : N)
    (p : packing) : packing :=
  Packing z
    (pg_entries p ++ [{| se_path := pe_path entry; se_kind := pe_kind entry; se_mode := mode;
                         se_size := size; se_sha256 := hex digest |}])
    total (pg_aggregate p +:+ aggregate_record (pe_path entry) (pe_kind entry) size digest).

(** A regular file, whose content [source] streams into the archive. *)
Definition pack_file (entry : PlannedEntry) (source : stream → io stream) (p : packing) : io packing :=
  _ ← store;
  z ← of_zip (pz_start_file (pe_path entry) (file_mode (pe_executable entry)) (pg_zip p));
  s ← source (Stream z (pg_total p) "");
  mret (push_entry entry (file_entry_mode (pe_executable entry)) (len (sw_data s)) (sha256 (sw_data s))
          (sw_zip s) (sw_total s) p).

Definition pack_link (entry : PlannedEntry) (target : string) (p : packing) : io packing :=
  total ← io_lift (add_total (pg_total p) (len target));
  _ ← store;
  z ← of_zip (pz_add_symlink (pe_path entry) target (pg_zip p));
  mret (push_entry entry link_entry_mode (len target) (sha256 target) z total p).

Definition start_packing : packing := Packing pz_new [] 0 "".

Definition finish_package (bytes : string) (p : packing) (root mode : string)
    (jj_version jj_commit_id : option string) : io SourcePackage :=
  _ ← store;
  mret {| pk_archive := bytes;
          pk_manifest := {| mf_schema_version := 1; mf_entries := pg_entries p;
                            mf_entry_count := N.of_nat (length (pg_entries p));
                            mf_uncompressed_bytes := pg_total p;
                            mf_aggregate_sha256 := hex (sha256 (pg_aggregate p)) |};
          pk_identity := {| id_mode := mode; id_root := root; id_jj_version := jj_version;
                            id_jj_commit_id := jj_commit_id;
                            id_initial_snapshot_atomicity := "not-guaranteed";
                            id_archive_sha256 := hex (sha256 bytes);
                            id_archive_bytes := len bytes |} |}.

(** * Jujutsu packages *)

Definition retry_advice (name : string) : string :=
  "; run `jj workspace forget " +:+ name +:+ "` before retrying".

(** [WorkspaceCleanupGuard::finish]: the workspace is forgotten whatever happened. *)
Definition forget_workspace {A} (root name : string) (result : result io_error A) : io A :=
  cleanup ← io_try (run_jj_bounded root ["--no-pager"; "workspace"; "forget"; name] false);
  match result, cleanup with
  | Ok value, Ok _ => mret value
  | Err e, Ok _ => io_fail e
  | Ok _, Err e => io_fail (other_error ("jj workspace cleanup failed (" +:+ io_error_message e +:+ ")" +:+
                                   retry_advice name))
  | Err export, Err e =>
      io_fail (IoError (io_error_kind export)
        (io_error_message export +:+ "; jj workspace cleanup also failed (" +:+ io_error_message e +:+ ")" +:+
         retry_advice name))
  end.

(** The target of one materialized link. *)
Definition populate_target (workspace : string) (entry : PlannedEntry) : io PlannedEntry :=
  if negb (bool_decide (pe_kind entry = EkSymlink)) then mret entry
  else
    _ ← check;
    let link := path_join workspace (pe_path entry) in
    metadata ← ask (λ e, ev_lstat e link);
    _ ← io_reject (negb (bool_decide (sm_kind metadata = Symlink)))
          (invalid_data "Jujutsu workspace did not materialize a symlink");
    target ← ask (λ e, ev_read_link e link);
    target ← option_expect (from_utf8 target) (invalid_data "symlink target is not UTF-8");
    _ ← io_lift (validate_symlink_target (pe_path entry) target);
    mret (Planned (pe_path entry) (pe_kind entry) (pe_executable entry) (Some target)).

(** [name] is the fresh workspace name, [workspace] its directory. *)
Definition populate_jj_symlink_targets (root pin name workspace : string) (entries : list PlannedEntry) :
    io (list PlannedEntry) :=
  if negb (existsb (λ e, bool_decide (pe_kind e = EkSymlink)) entries) then mret entries
  else
    _ ← store;
    path ← option_expect (from_utf8 workspace) (invalid_data "temporary workspace path is not UTF-8");
    add ← io_try (run_jj_bounded root
            ["--no-pager"; "workspace"; "add"; "--name"; name; "--sparse-patterns"; "full"; "--revision"; pin;
             path] true);
    match add with
    | Err e => forget_workspace root name
                 (Err (IoError (io_error_kind e)
                    ("jj workspace add failed while materializing symlinks: " +:+ io_error_message e)))
    | Ok _ =>
        populated ← io_try (io_fold (λ done entry,
                      entry ← populate_target workspace entry; mret (done ++ [entry])) [] entries);
        forget_workspace root name populated
    end.

Definition pack_jj_entry (root pin : string) (p : packing) (entry : PlannedEntry) : io packing :=
  _ ← check;
  match pe_kind entry with
  | EkFile =>
      pack_file entry (stream_jj_file root pin ("root-file:" +:+ json_string (pe_path entry))) p
  | EkSymlink =>
      target ← option_expect (pe_symlink_target entry) (invalid_data "missing Jujutsu symlink target");
      pack_link entry target p
  end.

Definition package_jj (root invocation_dir name workspace : string) : io SourcePackage :=
  version ← jj_version root;
  pin ← jj_pin invocation_dir;
  listing ← jj_listing root pin;
  planned ← io_lift (plan_jj listing);
  planned ← populate_jj_symlink_targets root pin name workspace planned;
  _ ← store;
  p ← io_fold (pack_jj_entry root pin) start_packing planned;
  bytes ← of_zip (pz_finish (pg_zip p));
  finish_package bytes p root "jujutsu" (Some version) (Some pin).

(** * Directory packages *)

Definition file_name (path : string) : string := List.last (split slash path) "".

(** The predicate of [filter_entry]. *)
Definition source_keeps (path : string) (kind : file_kind) : bool :=
  negb (bool_decide (kind = Directory) &&
        (eq_ignore_ascii_case (file_name path) ".git" || eq_ignore_ascii_case (file_name path) ".jj")).

Definition visit_source (root : string) (includes excludes : list Pattern) (entries : list PlannedEntry)
    (item : result io_error (string * file_kind)) : io (list PlannedEntry) :=
  _ ← check;
  '(full, _) ← io_lift (map_err (λ e, other_error (io_error_message e)) item);
  relative ← option_expect (path_strip_prefix root full) (other_error "prefix not found");
  text ← option_expect (from_utf8 (path_str relative)) (invalid_data "filesystem path is not UTF-8");
  let path := unbackslash text in
  if existsb (λ part, bool_decide (part = ".git") || bool_decide (part = ".jj")) (split slash path)
  then mret entries
  else if negb (existsb (λ g, Pattern_matches g path) includes) || existsb (λ g, Pattern_matches g path) excludes
  then mret entries
  else
    metadata ← ask (λ e, ev_lstat e full);
    match sm_kind metadata with
    | Directory => mret entries
    | Regular =>
        _ ← io_lift (validate_archive_path path);
        mret (entries ++ [Planned path EkFile (mode_has (sm_mode metadata) o111) None])
    | Symlink =>
        _ ← io_lift (validate_archive_path path);
        target ← ask (λ e, ev_read_link e full);
        target ← option_expect (from_utf8 target) (invalid_data "symlink target is not UTF-8");
        _ ← io_lift (validate_symlink_target path target);
        mret (entries ++ [Planned path EkSymlink (mode_has (sm_mode metadata) o111) (Some target)])
    | _ => io_fail (invalid_data "unsupported special source file")
    end.

Definition enumerate_filesystem (root : string) (patterns : FilesystemPatterns) : io (list PlannedEntry) :=
  includes ← io_lift (compile_globs (fp_include patterns));
  excludes ← io_lift (compile_globs (fp_exclude patterns));
  if is_nil includes then mret []
  else
    items ← ask (λ e, Ok (ev_walk e root source_keeps));
    entries ← io_fold (visit_source root includes excludes) [] items;
    mret (sort_entries entries).

Definition changed_while_packaged : io_error := other_error "source changed while it was being packaged".

(** [dev], [ino], [len] and the modification time. *)
Definition same_times (a b : smeta) : bool :=
  (sm_len a =? sm_len b) && bool_decide (sm_mtime a = sm_mtime b) &&
  bool_decide (sm_mtime_nsec a = sm_mtime_nsec b).
Definition same_identity (a b : smeta) : bool := (sm_dev a =? sm_dev b) && (sm_ino a =? sm_ino b).

(** The content of the opened file, which must not change meanwhile. *)
Definition stream_file (source : string) (same : smeta → bool) (s : stream) : io stream :=
  reads ← ask (λ e, Ok (ev_reads e source));
  s ← stream_reads s reads;
  after ← ask (λ e, ev_fstat e source);
  _ ← io_reject (negb (same after)) changed_while_packaged;
  mret s.

Definition pack_fs_entry (root : string) (p : packing) (entry : PlannedEntry) : io packing :=
  _ ← check;
  let source := path_join root (pe_path entry) in
  match pe_kind entry with
  | EkFile =>
      before ← ask (λ e, ev_lstat e source);
      _ ← ask (λ e, ev_open e source);
      opened ← ask (λ e, ev_fstat e source);
      _ ← io_reject (negb (same_identity before opened) || negb (bool_decide (sm_kind opened = Regular)))
            changed_while_packaged;
      pack_file entry (stream_file source (same_times opened)) p
  | EkSymlink =>
      target ← ask (λ e, ev_read_link e source);
      target ← option_expect (from_utf8 target) (invalid_data "symlink target is not UTF-8");
      _ ← io_reject (negb (bool_decide (pe_symlink_target entry = Some target)))
            (other_error "source symlink changed while it was being packaged");
      _ ← io_lift (validate_symlink_target (pe_path entry) target);
      pack_link entry target p
  end.

Definition manifest_changed : io_error :=
  other_error "filesystem source manifest changed concurrently; retry after writers are quiescent".

Definition package_filesystem_cancellable (root : string) (patterns : FilesystemPatterns) : io SourcePackage :=
  _ ← check;
  root ← ask (λ e, ev_canonicalize e root);
  enumerated ← enumerate_filesystem root patterns;
  first ← io_lift (validate_planned_entries enumerated);
  _ ← store;
  p ← io_fold (pack_fs_entry root) start_packing first;
  bytes ← of_zip (pz_finish (pg_zip p));
  _ ← check;
  second ← enumerate_filesystem root patterns;
  _ ← io_reject (negb (bool_decide (first = second))) manifest_changed;
  finish_package bytes p root "filesystem" None None.

Definition package_source_cancellable (invocation_dir filesystem_root name workspace : string)
    (patterns : FilesystemPatterns) : io SourcePackage :=
  _ ← check;
  root ← find_jj_root invocation_dir;
  match root with
  | Some root =>
      _ ← io_reject (negb (is_nil (fp_include patterns)) || negb (is_nil (fp_exclude patterns)))
            (invalid_input "--source/--source-exclude and sources config are not allowed in a Jujutsu repository; the complete pinned @ tree is submitted");
      package_jj root invocation_dir name workspace
  | None => package_filesystem_cancellable filesystem_root patterns
  end.

(** * Updates *)

(** One [openat] per component, no symbolic link followed. *)
Fixpoint open_components (root : string) (opened rest : list string) : io unit :=
  match rest with
  | [] => mret tt
  | [name] => ask (λ e, ev_openat e root (opened ++ [name]) false)
  | component :: rest =>
      _ ← ask (λ e, ev_openat e root (opened ++ [component]) true);
      open_components root (opened ++ [component]) rest
  end.

Definition open_relative_nofollow (root path : string) : io unit :=
  _ ← ask (λ e, ev_open_root e root);
  open_components root [] (split slash path).

Definition require_absent_nofollow (root path : string) : io unit :=
  r ← io_try (open_relative_nofollow root path);
  match r with
  | Err e =>
      if bool_decide (io_error_kind e = NotFound) then mret tt
      else io_fail (IoError (io_error_kind e)
             ("failed to prove --delete path absent: " +:+ io_error_message e))
  | Ok _ => io_fail (invalid_input "--delete path exists")
  end.

(** [paths.sort_by(..)]. *)
Definition path_le_bytes (a b : string) : Prop := String.compare a b ≠ Gt.
#[local] Instance path_le_bytes_dec : RelDecision path_le_bytes.
Proof. intros a b. unfold path_le_bytes. destruct (String.compare _ _); [left|left|right]; congruence. Defined.
Definition sort_paths (paths : list string) : list string := merge_sort path_le_bytes paths.

Definition update_entry (path : string) : PlannedEntry := Planned path EkFile false None.

(** The packing and the snapshot of each file. *)
Definition pack_update_file (root : string) (s : packing * gmap string smeta) (path : string) :
    io (packing * gmap string smeta) :=
  let '(p, snapshots) := s in
  _ ← check;
  _ ← open_relative_nofollow root path;
  let source := path_join root path in
  before ← ask (λ e, ev_fstat e source);
  _ ← io_reject (negb (bool_decide (sm_kind before = Regular))) (invalid_data "--file path is not a regular file");
  _ ← io_reject (mode_has (sm_mode before) o111) (invalid_data "--file path is executable");
  p ← pack_file (update_entry path)
        (stream_file source (λ after, same_identity before after && same_times before after)) p;
  mret (p, <[path := before]> snapshots).

(** The files once more, after the archive is complete. *)
Definition recheck_update_file (root : string) (snapshots : gmap string smeta) (entry : SourceEntry) : io unit :=
  _ ← open_relative_nofollow root (se_path entry);
  metadata ← ask (λ e, ev_fstat e (path_join root (se_path entry)));
  match snapshots !! se_path entry with
  | None => io_fail manifest_changed
  | Some first =>
      io_reject (negb (bool_decide (sm_kind metadata = Regular)) || mode_has (sm_mode metadata) o111 ||
                 negb (same_identity first metadata) || negb (same_times first metadata)) manifest_changed
  end.

Definition finish_update_package (bytes : string) (entries : list SourceEntry) (mode root : string)
    (jj_version jj_commit_id : option string) : io UpdateSourcePackage :=
  _ ← store;
  mret {| up_archive := bytes; up_entries := entries;
          up_identity := {| id_mode := mode; id_root := root; id_jj_version := jj_version;
                            id_jj_commit_id := jj_commit_id;
                            id_initial_snapshot_atomicity := "not-guaranteed";
                            id_archive_sha256 := hex (sha256 bytes);
                            id_archive_bytes := len bytes |} |}.

Definition package_filesystem_update (root : string) (files deletes : list string) : io UpdateSourcePackage :=
  root ← ask (λ e, ev_canonicalize e root);
  _ ← io_each (require_absent_nofollow root) deletes;
  _ ← store;
  '(p, snapshots) ← io_fold (pack_update_file root) (start_packing, ∅) (sort_paths files);
  bytes ← of_zip (pz_finish (pg_zip p));
  _ ← check;
  _ ← io_each (recheck_update_file root snapshots) (pg_entries p);
  _ ← io_each (require_absent_nofollow root) deletes;
  finish_update_package bytes (pg_entries p) "filesystem" root None None.

Definition pack_jj_update_file (root pin : string) (tree : gmap string JjEntry) (p : packing) (path : string) :
    io packing :=
  _ ← check;
  _ ← io_lift (jj_update_entry tree path);
  pack_file (update_entry path) (stream_jj_file root pin ("root-file:" +:+ json_string path)) p.

Definition package_jj_update (root invocation_dir : string) (files deletes : list string) :
    io UpdateSourcePackage :=
  version ← jj_version root;
  pin ← jj_pin invocation_dir;
  listing ← jj_listing root pin;
  tree ← io_lift (jj_tree listing);
  _ ← io_each (λ path, io_reject (is_some (tree !! path))
                 (invalid_input "--delete path is present at pinned revision")) deletes;
  _ ← store;
  p ← io_fold (pack_jj_update_file root pin tree) start_packing (sort_paths files);
  bytes ← of_zip (pz_finish (pg_zip p));
  finish_update_package bytes (pg_entries p) "jujutsu" root (Some version) (Some pin).

Definition package_update_source_cancellable (invocation_dir filesystem_root : string)
    (files deletes : list string) : io UpdateSourcePackage :=
  _ ← check;
  _ ← io_lift (check_update_paths files deletes);
  root ← find_jj_root invocation_dir;
  match root with
  | Some root => package_jj_update root invocation_dir files deletes
  | None => package_filesystem_update filesystem_root files deletes
  end.
End package.
