(* ===== verification/ClientFacts.v ===== *)
(** What a packaged source is made of: the members the archive writer was given,
    the manifest they determine, and that the server's preflight accepts every
    plan the client accepts; and the entries of an update's package. *)
From Stdlib Require Import Ascii.
From stdpp Require Import base option strings numbers list gmap pretty sorting.
From S2P Require Import Prelude Effects RustStr Fs Protocol Archive ArchiveExtract Config Artifacts ArtifactZip ClientSource ClientPackage.

Local Open Scope N_scope.

(** * Archives *)

(** What is put into an archive: a file with its permissions, or a link. *)
Inductive member := FileMember (name : string) (mode : N) (data : string) | LinkMember (name target : string).

#[export] Instance member_eq_dec : EqDecision member.
Proof. solve_decision. Defined.

Definition member_name (m : member) : string :=
  match m with FileMember name _ _ | LinkMember name _ => name end.
Definition member_data (m : member) : string :=
  match m with FileMember _ _ data => data | LinkMember _ target => target end.
Definition member_mode (m : member) : N :=
  match m with FileMember _ mode _ => N.lor o100000 mode | LinkMember _ _ => N.lor o120000 o777 end.
Definition is_link (m : member) : bool := match m with FileMember _ _ _ => false | LinkMember _ _ => true end.

(** Data goes to the file started last. *)
Fixpoint append_data (data : string) (ms : list member) : list member :=
  match ms with
  | [] => []
  | [FileMember name mode d] => [FileMember name mode (d +:+ data)]
  | m :: ms => m :: append_data data ms
  end.

(** How a reader presents a member: names that end in [/] are directories. *)
Record presents (m : member) (e : zip_entry) : Prop := {
  pr_name : ze_name e = member_name m;
  pr_dir : ze_is_dir e = ends_with "/" (member_name m);
  pr_link : ze_is_symlink e = is_link m;
  pr_mode : ze_unix_mode e = Some (member_mode m);
  pr_size : ze_size e = len (member_data m);
  pr_readable : readable (ze_reads e) = true;
  pr_content : content (ze_reads e) = member_data m;
}.

(** The [zip] crate reads back what it wrote. *)
Class PackageZipLaws `{PackageZip} (read_archive : string → option (list (option zip_entry))) := {
  pz_members : pz → list member;
  pz_members_new : pz_members pz_new = [];
  pz_members_start name mode z z' :
    pz_start_file name mode z = Ok z' → pz_members z' = pz_members z ++ [FileMember name mode ""];
  pz_members_write data z : pz_members (pz_write data z) = append_data data (pz_members z);
  pz_members_link name target z z' :
    pz_add_symlink name target z = Ok z' → pz_members z' = pz_members z ++ [LinkMember name target];
  pz_finish_reads z bytes :
    pz_finish z = Ok bytes →
    ∃ es, read_archive bytes = Some (Some <$> es) ∧ Forall2 presents (pz_members z) es;
}.

(** The manifest entry of a member. *)
Definition manifest_entry (sha256 : string → string) (m : member) : SourceEntry :=
  {| se_path := member_name m; se_kind := if is_link m then EkSymlink else EkFile;
     se_mode := member_mode m; se_size := len (member_data m);
     se_sha256 := hex (sha256 (member_data m)) |}.

(** The member a planned entry becomes. *)
Record packs (e : PlannedEntry) (m : member) : Prop := {
  pa_name : pe_path e = member_name m;
  pa_kind : pe_kind e = if is_link m then EkSymlink else EkFile;
  pa_mode : member_mode m = if is_link m then link_entry_mode else file_entry_mode (pe_executable e);
  pa_target : is_link m = true →
    validate_symlink_target (pe_path e) (member_data m) = Ok tt ∧
    from_utf8 (member_data m) = Some (member_data m);
}.

(** * Computations that return what they promise *)

Definition yields {A} (m : eff client io_error A) (Q : A → Prop) : Prop :=
  ∀ c, wp m c (λ _ r, match r with Ok a => Q a | Err _ => True end).

Section yields.
Context {A B : Type}.
Implicit Types (m : eff client io_error A) (Q : A → Prop).

Lemma yields_bind m (k : A → eff client io_error B) Q (R : B → Prop) :
  yields m Q → (∀ a, Q a → yields (k a) R) → yields (m ≫= k) R.
Proof.
  intros Hm Hk c. apply wp_bind. eapply wp_mono; [apply Hm|]. intros c' [a|e] Ha; [|done]. by apply Hk.
Qed.
Lemma yields_any m (k : A → eff client io_error B) (R : B → Prop) :
  (∀ a, yields (k a) R) → yields (m ≫= k) R.
Proof. intros Hk. apply (yields_bind m k (λ _, True)); [|auto]. intros c. unfold wp. by destruct (_.2). Qed.
Lemma yields_mono m Q (R : A → Prop) : yields m Q → (∀ a, Q a → R a) → yields m R.
Proof. intros Hm HR c. eapply wp_mono; [apply Hm|]. intros c' [a|e]; [apply HR|done]. Qed.
Lemma yields_ret (a : A) Q : Q a → yields (mret a) Q.
Proof. by intros ? c. Qed.
Lemma yields_fail e Q : yields (io_fail e) Q.
Proof. by intros c. Qed.
Lemma yields_lift (r : result io_error A) Q : (∀ a, r = Ok a → Q a) → yields (io_lift r) Q.
Proof. intros Hr c. apply wp_lift. destruct r; auto. Qed.
Lemma yields_try m Q : yields m Q → yields (io_try m) (λ r, ∀ a, r = Ok a → Q a).
Proof. intros Hm c. apply wp_try. eapply wp_mono; [apply Hm|]. intros c' [a|e] Ha; naive_solver. Qed.
Lemma yields_run m Q c c' a : yields m Q → m c = (c', Ok a) → Q a.
Proof. intros Hm Hrun. by pose proof (wp_run _ _ _ _ _ (Hm c) Hrun). Qed.
End yields.

Lemma yields_reject b (e : io_error) (Q : unit → Prop) : (b = false → Q tt) → yields (io_reject b e) Q.
Proof. intros Hb. apply yields_lift. intros [] ?%reject_if_Ok. auto. Qed.
Lemma yields_expect {A} (o : option A) (e : io_error) (Q : A → Prop) :
  (∀ a, o = Some a → Q a) → yields (option_expect o e) Q.
Proof. intros Ho. apply yields_lift. intros a ?%ok_or_Ok. auto. Qed.
Lemma yields_fold {A S} (f : S → A → eff client io_error S) (I : S → list A → Prop) l dn s :
  (∀ s dn x, x ∈ l → I s dn → yields (f s x) (λ s', I s' (dn ++ [x]))) →
  I s dn → yields (io_fold f s l) (λ s', I s' (dn ++ l)).
Proof.
  intros Hf Hi c.
  apply (wp_mono _ _ (λ _ r, match r with Ok s' => I s' (dn ++ l) | Err _ => True end)); [|by intros ? []].
  apply (wp_fold f (λ _ s dn, I s dn) (λ _ _, True)); [|done]. intros. by apply Hf.
Qed.

(** * Reading a link back *)

Lemma len_nat s n : len s ≤ N.of_nat n → (String.length s ≤ n)%nat.
Proof. unfold len. lia. Qed.

Lemma read_limited_content limit reads :
  readable reads = true → (String.length (content reads) < limit)%nat →
  read_limited limit reads = Ok (content reads).
Proof.
  revert limit. induction reads as [|[chunk|e] reads IH]; intros limit; cbn [readable content read_limited]; try done.
  destruct (is_empty chunk) eqn:He; cbn; [done|]. rewrite string_length_app. intros Hr Hl.
  destruct (Nat.leb_spec limit (String.length chunk)); [lia|]. rewrite IH by (done || lia). done.
Qed.

Lemma validate_symlink_target_len p t : validate_symlink_target p t = Ok tt → len t ≤ MAX_SYMLINK_TARGET.
Proof.
  unfold validate_symlink_target. intros H. unbind H.
  repeat match goal with H : _ || _ = false |- _ => apply orb_false_iff in H as [H ?] end. by apply N.ltb_ge.
Qed.

(** * The server's preflight accepts what the client plans *)

Lemma existsb_false_Forall_2 {A} (p : A → bool) l : Forall (λ x, p x = false) l → existsb p l = false.
Proof. induction 1 as [|x l Hx _ IH]; cbn; [done|]. by rewrite Hx, IH. Qed.

Section preflight.
Context (max max_files max_depth : N).
Context (Hdepth : N.of_nat MAX_DEPTH ≤ max_depth).

Lemma client_path_normalized path :
  validate_archive_path path = Ok tt →
  normalized_zip_path path false max_depth = Ok path ∧ ends_with "/" path = false.
Proof.
  unfold validate_archive_path. intros Hv. unbind Hv. breflect.
  match goal with H : existsb unsafe_component _ = false |- _ => apply existsb_false_Forall in H as Hu end.
  match goal with H : existsb _ (components _) = false |- _ => apply existsb_false_Forall in H as Hn end.
  match goal with H : Nat.ltb _ _ = false |- _ => apply Nat.ltb_ge in H as Hl end. split.
  - unfold normalized_zip_path.
    rewrite !reject_if_pass; [done|..].
    + apply N.ltb_ge. lia.
    + apply existsb_false_Forall_2. eapply Forall_impl; [exact Hn|]. by intros [].
    + apply orb_false_intro; [done|]. apply existsb_false_Forall_2. eapply Forall_impl; [exact Hu|].
      intros c Hc. unfold unsafe_component in Hc. breflect. apply orb_false_intro; [done|].
      by apply bool_decide_eq_false.
    + repeat apply orb_false_intro; try done. by apply negb_false_iff.
  - unfold ends_with. destruct (strip_suffix_str "/" path) as [t|] eqn:Es; [|done].
    apply strip_suffix_str_Some in Es as ->. exfalso.
    pose proof (split_app slash t "") as Hs. change (String slash "") with "/" in Hs. rewrite Hs in Hu.
    apply Forall_app in Hu as [_ Hu]. by apply Forall_inv in Hu.
Qed.

(** The server's sets hold the client's. *)
Record plan_sim (ps : plan_state) (s : preflight) : Prop := {
  si_exact : pf_exact s = ps_exact ps;
  si_folded : pf_folded s = ps_folded ps;
  si_files : pf_folded_files s = ps_files ps;
  si_directories : pf_folded_directories s = ps_directories ps;
  si_known_files : ∀ p, p ∈ pf_files s → to_ascii_lowercase p ∈ ps_files ps;
  si_known_directories : ∀ p, p ∈ pf_directories s → to_ascii_lowercase p ∈ ps_directories ps;
}.

Lemma known_file_sim ps s p :
  plan_sim ps s → to_ascii_lowercase p ∉ ps_files ps → known_file p s = false.
Proof.
  intros [] Hp. unfold known_file. apply orb_false_intro; apply bool_decide_eq_false; [by intros ?%si_known_files0|].
  by rewrite si_files0.
Qed.
Lemma known_directory_sim ps s p :
  plan_sim ps s → to_ascii_lowercase p ∉ ps_directories ps → known_directory p s = false.
Proof.
  intros [] Hp. unfold known_directory.
  apply orb_false_intro; apply bool_decide_eq_false; [by intros ?%si_known_directories0|]. by rewrite si_directories0.
Qed.

Lemma plan_ancestors_sim comps : ∀ ancestor ps ps' s,
  plan_ancestors ancestor comps ps = Ok ps' → plan_sim ps s →
  ∃ s', check_ancestors ancestor comps s = Ok s' ∧ plan_sim ps' s' ∧
        pf_declared_bytes s' = pf_declared_bytes s ∧ pf_entry_count s' = pf_entry_count s.
Proof.
  induction comps as [|c comps IH]; intros ancestor ps ps' s; cbn [plan_ancestors check_ancestors].
  { intros [= <-] Hs. by exists s. }
  set (a := (if is_empty ancestor then "" else ancestor +:+ "/") +:+ c). intros Hrun Hs. unbind Hrun. breflect.
  rewrite reject_if_pass by by eapply known_file_sim.
  apply (IH a _ _ (add_directory a s)) in Hrun as (s' & Hc & Hs' & Hb & Hn); [by exists s'|].
  destruct Hs. split; cbn; try done; [by f_equal|]. intros p. rewrite !elem_of_union, !elem_of_singleton.
  intros [->|?]; auto.
Qed.

(** Room for one more entry. *)
Definition room (s : preflight) (e : zip_entry) : Prop :=
  pf_entry_count s + 1 ≤ max_files ∧ max_files < u64_max ∧
  pf_declared_bytes s + ze_size e ≤ max ∧ max < u64_max.

Lemma member_type m mode :
  member_mode m = (if is_link m then link_entry_mode else file_entry_mode mode) →
  validate_zip_type (Some (member_mode m)) false (is_link m) = Ok tt.
Proof. intros ->. destruct (is_link m), mode; vm_compute; done. Qed.

Lemma presents_target p m e :
  presents m e → is_link m = true → validate_symlink_target p (member_data m) = Ok tt →
  from_utf8 (member_data m) = Some (member_data m) →
  preflight_target p e = Ok (member_data m) ∧ link_target e = member_data m.
Proof.
  intros [] Hl Hv Hu. pose proof (validate_symlink_target_len _ _ Hv) as Hlen.
  assert (read_limited 4097 (ze_reads e) = Ok (member_data m)) as Hr.
  { rewrite read_limited_content, pr_content0; [done|done|].
    apply (len_nat _ (N.to_nat 4096)) in Hlen. rewrite pr_content0.
    eapply Nat.le_lt_trans; [exact Hlen|]. apply Nat.ltb_lt. by vm_compute. }
  unfold preflight_target, link_target. rewrite Hr. cbn [map_err mbind result_bind].
  split; [|done]. rewrite reject_if_pass by by apply N.ltb_ge. by rewrite Hu; cbn; rewrite Hv.
Qed.

Lemma plan_entry_sim ps ps' s pe m e :
  plan_entry ps pe = Ok ps' → packs pe m → presents m e → plan_sim ps s → room s e →
  ∃ s', preflight_entry max max_files max_depth s (Some e) = Ok s' ∧ plan_sim ps' s' ∧
        pf_declared_bytes s' = pf_declared_bytes s + ze_size e ∧ pf_entry_count s' = pf_entry_count s + 1.
Proof.
  unfold plan_entry. intros Hrun Hpa Hpr Hs (Hn & Hnu & Hb & Hbu). unbind Hrun. injection Hrun as <-.
  destruct x. breflect. pose proof (client_path_normalized _ E) as [Hnorm Hdir].
  pose proof Hpa as [Hname Hkind Hmode Htarget]. pose proof Hpr as [Rname Rdir Rlink Rmode Rsize _ _].
  rewrite Hname in *. rewrite Hdir in Rdir.
  assert (saturating_add (pf_entry_count s) 1 = pf_entry_count s + 1) as Hc by (unfold saturating_add; lia).
  assert (saturating_add (pf_declared_bytes s) (ze_size e) = pf_declared_bytes s + ze_size e) as Hd
    by (unfold saturating_add; lia).
  unfold preflight_entry. cbn [ok_or mbind result_bind]. rewrite Hc.
  rewrite reject_if_pass by (apply N.ltb_ge; lia). rewrite Rname, Rdir, Hnorm. cbn [mbind result_bind].
  rewrite Rmode, Rlink, (member_type _ _ Hmode). cbn [mbind result_bind].
  rewrite reject_if_pass.
  2: { apply orb_false_intro; apply bool_decide_eq_false; [by rewrite (si_exact _ _ Hs)|by rewrite (si_folded _ _ Hs)]. }
  match goal with |- context [check_ancestors _ _ ?s0] => set (s1 := s0) end.
  apply (plan_ancestors_sim _ _ _ _ s1) in E1 as (s2 & Hca & Hs2 & Hb2 & Hn2).
  2: { destruct Hs. subst s1. split; cbn; try done; by f_equal. }
  rewrite Hca. cbn [mbind result_bind]. rewrite reject_if_pass by by eapply known_directory_sim.
  rewrite Hb2. change (pf_declared_bytes s1) with (pf_declared_bytes s).
  assert ((if is_link m then target ← preflight_target (member_name m) e;
                             Ok (saturating_add (pf_declared_bytes s) (len target))
           else Ok (saturating_add (pf_declared_bytes s) (ze_size e))) =
          Ok (E := BuildError) (pf_declared_bytes s + ze_size e)) as ->.
  { destruct (is_link m) eqn:Hl; [|by rewrite Hd]. destruct (Htarget eq_refl) as [Hv Hu].
    destruct (presents_target (member_name m) m e) as [-> _]; try done. cbn. by rewrite <-Rsize, Hd. }
  cbn [mbind result_bind]. rewrite reject_if_pass by by apply N.ltb_ge.
  eexists. split; [done|]. cbn. split_and!; [|done|by rewrite Hn2]. destruct Hs2. split; cbn; try done; [by f_equal|].
  intros p. rewrite !elem_of_union, !elem_of_singleton. intros [->|?]; auto.
Qed.

Lemma plan_preflight planned : ∀ ps ps' s ms es (l : list (nat * option zip_entry)),
  fold_each plan_entry ps planned = Ok ps' → Forall2 packs planned ms → Forall2 presents ms es →
  l.*2 = Some <$> es → plan_sim ps s →
  pf_entry_count s + N.of_nat (length planned) ≤ max_files → max_files < u64_max →
  pf_declared_bytes s + sum_of ze_size es ≤ max → max < u64_max →
  ∃ s', fold_each (λ s '(k, e), _ ← check_guard None k; preflight_entry max max_files max_depth s e) s l = Ok s'.
Proof.
  induction planned as [|pe planned IH]; intros ps ps' s ms es l Hrun Hpa Hpr Hl Hs Hn Hnu Hb Hbu.
  - apply Forall2_nil_inv_l in Hpa as ->. apply Forall2_nil_inv_l in Hpr as ->.
    apply fmap_nil_inv in Hl as ->. by exists s.
  - apply Forall2_cons_inv_l in Hpa as (m & ms' & Hm & Hpa & ->).
    apply Forall2_cons_inv_l in Hpr as (e & es' & He & Hpr & ->).
    destruct l as [|[k oe] l]; [done|]. injection Hl as -> Hl. cbn [length sum_of] in *.
    rewrite fold_each_cons in Hrun. apply bind_Ok in Hrun as (ps1 & Hstep & Hrun).
    destruct (plan_entry_sim ps ps1 s pe m e) as (s1 & H1 & Hs1 & Hb1 & Hn1); try done.
    { unfold room. lia. }
    edestruct (IH ps1 ps' s1 ms' es' l) as (s' & Hs'); try done; [lia|lia|].
    exists s'. cbn [fold_each check_guard mbind result_bind]. by rewrite H1.
Qed.
End preflight.

(** Only the paths of a plan are checked. *)
Definition same_paths (a b : list PlannedEntry) : Prop := pe_path <$> a = pe_path <$> b.

Lemma fold_plan_paths a : ∀ b ps, same_paths a b → fold_each plan_entry ps a = fold_each plan_entry ps b.
Proof.
  unfold same_paths. induction a as [|x a IH]; intros [|y b] ps; try done. cbn [fmap list_fmap]. intros [= Hx Hab].
  rewrite !fold_each_cons. assert (plan_entry ps x = plan_entry ps y) as -> by (unfold plan_entry; by rewrite Hx).
  destruct (plan_entry ps y); cbn [mbind result_bind]; [by apply IH|done].
Qed.

Lemma planned_paths entries validated planned :
  validate_planned_entries entries = Ok validated → same_paths validated planned →
  (length planned ≤ MAX_FILES)%nat ∧ Forall (λ e, validate_archive_path (pe_path e) = Ok tt) planned ∧
  ∃ ps, fold_each plan_entry (PlanState ∅ ∅ ∅ ∅) planned = Ok ps.
Proof.
  unfold validate_planned_entries. intros Hp Hs. unbind Hp. injection Hp as <-. apply Nat.ltb_ge in E.
  rewrite (fold_plan_paths _ _ _ Hs) in E0. split_and!; [| |by eexists].
  - apply (f_equal length) in Hs. rewrite !length_fmap in Hs. rewrite <-Hs. unfold sort_entries.
    by rewrite merge_sort_Permutation.
  - apply (fold_each_inv (λ _ dn, Forall (λ e, validate_archive_path (pe_path e) = Ok tt) dn) _)
      with (done := []) in E0; [done| |done].
    intros ps dn e ps' Hdn Hrun. apply Forall_app. split; [done|]. constructor; [|done].
    unfold plan_entry in Hrun. apply bind_Ok in Hrun as ([] & Hv & _). done.
Qed.

(** The whole plan, from the start. *)
Lemma planned_preflight max max_files max_depth ps planned ms es :
  fold_each plan_entry (PlanState ∅ ∅ ∅ ∅) planned = Ok ps → (length planned ≤ MAX_FILES)%nat →
  Forall2 packs planned ms → Forall2 presents ms es →
  N.of_nat MAX_FILES ≤ max_files → max_files < u64_max → N.of_nat MAX_DEPTH ≤ max_depth →
  sum_of (λ m, len (member_data m)) ms ≤ max → max < u64_max →
  ∃ s, preflight_source_archive (Some (Some <$> es)) max max_files max_depth None 1 = Ok s.
Proof.
  intros Hp Hl Hpa Hpr Hf Hfu Hd Hb Hbu. unfold preflight_source_archive. cbn [ok_or mbind result_bind].
  eapply (plan_preflight max max_files max_depth Hd); try done.
  - apply list_eq. intros i. rewrite list_lookup_fmap, list_lookup_imap. by destruct ((Some <$> es) !! i).
  - cbn. lia.
  - cbn. etrans; [|exact Hb]. clear -Hpr. induction Hpr as [|m e ms es He _ IH]; cbn; [done|].
    rewrite (pr_size _ _ He). lia.
Qed.

(** * The files of an update *)

Lemma hex_digit_lower n : n < 16 → is_ascii_digit (hex_digit n) || in_range 97 102 (hex_digit n) = true.
Proof.
  intros Hn. assert (H : forallb (λ k, is_ascii_digit (hex_digit (N.of_nat k)) ||
    in_range 97 102 (hex_digit (N.of_nat k))) (seq 0 16) = true) by by vm_compute.
  rewrite forallb_forall in H. rewrite <-(N2Nat.id n). apply H, in_seq. lia.
Qed.

Lemma hex_valid digest : String.length digest = 32%nat → valid_sha256_hex (hex digest) = true.
Proof.
  intros Hl. unfold valid_sha256_hex. apply andb_true_iff. split.
  - apply N.eqb_eq. unfold len. assert (∀ s, String.length (hex s) = (2 * String.length s)%nat) as ->; [|lia].
    intros s. induction s as [|a s IH]; [done|]. cbn. lia.
  - clear Hl. induction digest as [|a s IH]; [done|]. cbn [hex all_bytes].
    assert (code a < 256) as Ha by apply N_ascii_bounded.
    rewrite !hex_digit_lower; [done| |]; [apply N.mod_lt; lia|apply N.Div0.div_lt_upper_bound; lia].
Qed.

Section updates.
Context `{PackageZip, JjCodec} (sha256 : string → string) (env : nat → SourceEnv) (json_string : string → string).
Hypothesis sha256_length : ∀ s, String.length (sha256 s) = 32%nat.

(** The packed entries are those of [paths], each with a digest. *)
Definition packed_update (p : packing) (paths : list string) : Prop :=
  se_path <$> pg_entries p = paths ∧ Forall (λ e, valid_sha256_hex (se_sha256 e) = true) (pg_entries p).

Lemma pack_update_entry path source p paths :
  packed_update p paths →
  yields (pack_file sha256 env (update_entry path) source p) (λ p', packed_update p' (paths ++ [path])).
Proof.
  intros [<- Hs]. unfold pack_file. apply yields_any. intros []. apply yields_any. intros z. apply yields_any. intros s.
  apply yields_ret. unfold packed_update, push_entry. cbn [pg_entries].
  rewrite fmap_app. split; [done|]. apply Forall_app. repeat constructor; [done|]. by apply hex_valid.
Qed.

(** The package of an update has one entry for each file, and each has a digest. *)
Lemma update_package_entries invocation_dir root files deletes :
  yields (package_update_source_cancellable sha256 env json_string invocation_dir root files deletes) (λ pkg,
    se_path <$> up_entries pkg ≡ₚ files ∧ Forall (λ e, valid_sha256_hex (se_sha256 e) = true) (up_entries pkg)).
Proof.
  assert (∀ p, packed_update p (sort_paths files) →
    se_path <$> pg_entries p ≡ₚ files ∧ Forall (λ e, valid_sha256_hex (se_sha256 e) = true) (pg_entries p)) as Hend.
  { intros p [-> ?]. split; [apply merge_sort_Permutation|done]. }
  unfold package_update_source_cancellable. do 2 (apply yields_any; intros []). apply yields_any. intros [jj|].
  - unfold package_jj_update. do 4 (apply yields_any; intros ?). do 2 (apply yields_any; intros []).
    eapply yields_bind; [apply (yields_fold _ packed_update _ []); [|done]|].
    + intros p dn path _ Hp. apply yields_any. intros []. apply yields_any. intros _. by apply pack_update_entry.
    + cbn [app]. intros p Hp%Hend. apply yields_any. intros bytes. apply yields_any. intros []. by apply yields_ret.
  - unfold package_filesystem_update. apply yields_any; intros ?. do 2 (apply yields_any; intros []).
    eapply yields_bind; [apply (yields_fold _ (λ s, packed_update s.1) _ []); [|done]|].
    + intros [p snapshots] dn path _ Hp. do 2 (apply yields_any; intros []). apply yields_any. intros before.
      do 2 (apply yields_any; intros []). eapply yields_bind; [by apply pack_update_entry|].
      intros p' Hp'. by apply yields_ret.
    + cbn [app]. intros [p snapshots] Hp%Hend. apply yields_any. intros bytes. do 4 (apply yields_any; intros []).
      by apply yields_ret.
Qed.
End updates.
