(* ===== verification/ClientTheorems.v ===== *)
(** Packages of sources: what the server extracts is what the client's manifest
    says, and no temporary workspace is left behind. *)
From Stdlib Require Import Ascii.
From stdpp Require Import base option strings numbers list gmap pretty sorting.
From S2P Require Import Prelude Effects RustStr Fs Protocol Archive ArchiveExtract Config Artifacts ArtifactZip ClientSource ClientPackage ClientFacts.

Local Open Scope N_scope.

Abbreviation total_of := (sum_of (λ m, len (member_data m))).

Lemma append_data_snoc data ms name mode d :
  append_data data (ms ++ [FileMember name mode d]) = ms ++ [FileMember name mode (d +:+ data)].
Proof.
  induction ms as [|m ms IH]; [done|]. cbn. rewrite IH. destruct m; by destruct ms.
Qed.

Lemma add_total_Ok total amount t :
  add_total total amount = Ok t → t = total + amount ∧ t ≤ MAX_UNCOMPRESSED_BYTES.
Proof.
  unfold add_total. intros H. unbind H. injection H as <-. breflect.
  unfold saturating_add, u64_max, MAX_UNCOMPRESSED_BYTES in *. lia.
Qed.

Section package.
Context `{Glob, PackageZip, JjCodec} (sha256 : string → string) (env : nat → SourceEnv).
Context (json_string : string → string).
Context (read_archive : string → option (list (option zip_entry))) `{!PackageZipLaws read_archive}.

(** * The members written *)

Record Packed (ms : list member) (planned : list PlannedEntry) (p : packing) : Prop := {
  pk_members : pz_members (pg_zip p) = ms;
  pk_entries : pg_entries p = manifest_entry sha256 <$> ms;
  pk_planned : Forall2 packs planned ms;
  pk_total : pg_total p = total_of ms;
  pk_bounded : pg_total p ≤ MAX_UNCOMPRESSED_BYTES;
}.

Record Streaming (ms : list member) (name : string) (mode : N) (s : stream) : Prop := {
  sg_members : pz_members (sw_zip s) = ms ++ [FileMember name mode (sw_data s)];
  sg_total : sw_total s = total_of ms + len (sw_data s);
  sg_bounded : sw_total s ≤ MAX_UNCOMPRESSED_BYTES;
}.

Definition streams (source : stream → eff client io_error stream) : Prop :=
  ∀ ms name mode s, Streaming ms name mode s → yields (source s) (Streaming ms name mode).

Lemma stream_reads_spec reads : streams (λ s, stream_reads env s reads).
Proof.
  induction reads as [|[chunk|e] reads IH]; intros ms name mode s Hs; cbn [stream_reads]; apply yields_any; intros [].
  - by apply yields_ret.
  - destruct (is_empty chunk); [by apply yields_ret|].
    apply (yields_bind _ _ (Streaming ms name mode)); [|intros s' Hs'; by apply IH].
    unfold write_chunk. eapply yields_bind; [apply yields_lift; intros t; apply add_total_Ok|].
    intros t [-> Ht]. apply yields_any. intros []. apply yields_ret. destruct Hs as [Hm Htot _].
    split; cbn; [by rewrite pz_members_write, Hm, append_data_snoc|rewrite Htot, len_app; lia|done].
  - apply yields_fail.
Qed.

Lemma stream_jj_file_spec root pin fileset : streams (stream_jj_file env root pin fileset).
Proof.
  intros ms name mode s Hs. unfold stream_jj_file. apply yields_any. intros []. apply yields_any. intros run.
  eapply yields_bind; [apply yields_try, stream_reads_spec, Hs|]. intros r Hr. apply yields_any. intros [stderr ?].
  eapply yields_bind; [apply yields_lift, Hr|]. intros s' Hs'. apply yields_any. intros success.
  apply yields_any. intros []. by apply yields_ret.
Qed.

Lemma stream_file_spec source same : streams (stream_file env source same).
Proof.
  intros ms name mode s Hs. unfold stream_file. apply yields_any. intros reads.
  eapply yields_bind; [apply stream_reads_spec, Hs|]. intros s' Hs'. apply yields_any. intros after.
  apply yields_any. intros []. by apply yields_ret.
Qed.

Lemma pack_file_spec entry source ms planned p :
  pe_kind entry = EkFile → streams source → Packed ms planned p →
  yields (pack_file sha256 env entry source p) (λ p', ∃ m, Packed (ms ++ [m]) (planned ++ [entry]) p').
Proof.
  intros Hk Hsrc [Hm He Hp Ht Hb]. unfold pack_file. apply yields_any. intros [].
  eapply yields_bind; [apply yields_lift; intros z Hz%map_err_Ok; exact Hz|]. intros z Hz%pz_members_start.
  eapply yields_bind.
  { eapply (Hsrc ms (pe_path entry) (file_mode (pe_executable entry))). split; cbn.
    - by rewrite Hz, Hm.
    - rewrite Ht. unfold len. cbn. lia.
    - done. }
  intros s [Sm St Sb]. apply yields_ret.
  exists (FileMember (pe_path entry) (file_mode (pe_executable entry)) (sw_data s)).
  assert (N.lor o100000 (file_mode (pe_executable entry)) = file_entry_mode (pe_executable entry)) as Hmode
    by by destruct (pe_executable entry).
  split; cbn [push_entry pg_zip pg_entries pg_total].
  - done.
  - rewrite fmap_app, He. unfold manifest_entry. cbn. by rewrite Hmode, Hk.
  - apply Forall2_app; [done|]. constructor; [|done]. by split.
  - rewrite sum_of_app, St. cbn. lia.
  - done.
Qed.

Lemma pack_link_spec entry target ms planned p :
  pe_kind entry = EkSymlink → validate_symlink_target (pe_path entry) target = Ok tt →
  from_utf8 target = Some target → Packed ms planned p →
  yields (pack_link sha256 env entry target p) (λ p', ∃ m, Packed (ms ++ [m]) (planned ++ [entry]) p').
Proof.
  intros Hk Hv Hu [Hm He Hp Ht Hb]. unfold pack_link.
  eapply yields_bind; [apply yields_lift; intros t; apply add_total_Ok|]. intros t [-> Hb']. apply yields_any. intros [].
  eapply yields_bind; [apply yields_lift; intros z Hz%map_err_Ok; exact Hz|]. intros z Hz%pz_members_link.
  apply yields_ret. exists (LinkMember (pe_path entry) target).
  split; cbn [push_entry pg_zip pg_entries pg_total].
  - by rewrite Hz, Hm.
  - rewrite fmap_app, He. cbn. by rewrite Hk.
  - apply Forall2_app; [done|]. constructor; [|done]. by split.
  - rewrite sum_of_app, Ht. cbn. lia.
  - done.
Qed.

Lemma Packed_start : Packed [] [] start_packing.
Proof. split; cbn; try done. apply pz_members_new. Qed.

(** * Plans with their targets *)

(** What is known of a planned link. *)
Definition target_checked (e : PlannedEntry) : Prop :=
  ∀ t, pe_symlink_target e = Some t →
    validate_symlink_target (pe_path e) t = Ok tt ∧ from_utf8 t = Some t.

Lemma from_utf8_Some s t : from_utf8 s = Some t → t = s ∧ from_utf8 t = Some t.
Proof. unfold from_utf8. destruct (utf8_valid s) eqn:Hu; [|done]. intros [= <-]. by rewrite Hu. Qed.

Lemma pack_jj_entry_spec root pin entry ms planned p :
  target_checked entry → Packed ms planned p →
  yields (pack_jj_entry sha256 env json_string root pin p entry)
    (λ p', ∃ m, Packed (ms ++ [m]) (planned ++ [entry]) p').
Proof.
  intros Hc Hp. unfold pack_jj_entry. apply yields_any. intros []. destruct (pe_kind entry) eqn:Hk.
  - by apply pack_file_spec; [|apply stream_jj_file_spec|].
  - eapply yields_bind; [apply yields_expect; intros t Ht; exact (Hc t Ht)|]. intros t [Hv Hu].
    by apply pack_link_spec.
Qed.

Lemma pack_fs_entry_spec root entry ms planned p :
  Packed ms planned p →
  yields (pack_fs_entry sha256 env root p entry) (λ p', ∃ m, Packed (ms ++ [m]) (planned ++ [entry]) p').
Proof.
  intros Hp. unfold pack_fs_entry. apply yields_any. intros []. destruct (pe_kind entry) eqn:Hk.
  - do 4 (apply yields_any; intros ?). by apply pack_file_spec; [|apply stream_file_spec|].
  - apply yields_any. intros raw. eapply yields_bind; [apply yields_expect; intros t; apply from_utf8_Some|].
    intros t [_ Hu]. apply yields_any. intros [].
    apply (yields_bind _ _ (λ _, validate_symlink_target (pe_path entry) t = Ok tt)).
    + apply yields_lift. by intros [].
    + intros [] Hv. by apply pack_link_spec.
Qed.

Lemma pack_all_spec pack planned :
  (∀ entry ms dn p, entry ∈ planned → Packed ms dn p →
     yields (pack p entry) (λ p', ∃ m, Packed (ms ++ [m]) (dn ++ [entry]) p')) →
  yields (io_fold pack start_packing planned) (λ p, ∃ ms, Packed ms planned p).
Proof.
  intros Hpack. change planned with ([] ++ planned) at 2.
  apply (yields_fold _ (λ p dn, ∃ ms, Packed ms dn p)); [|exists []; apply Packed_start].
  intros p dn x Hx [ms Hp]. eapply yields_mono; [by apply (Hpack x ms)|]. intros p' [m Hm]. by exists (ms ++ [m]).
Qed.

(** * Jujutsu plans *)

Lemma forget_workspace_spec {A} root name (r : result io_error A) (Q : A → Prop) :
  (∀ a, r = Ok a → Q a) → yields (forget_workspace env root name r) Q.
Proof.
  intros Hr. unfold forget_workspace. apply yields_any. intros [cleanup|e]; destruct r; try apply yields_fail.
  apply yields_ret. by apply Hr.
Qed.

Lemma populate_target_spec workspace entry :
  target_checked entry →
  yields (populate_target env workspace entry) (λ e, pe_path e = pe_path entry ∧ target_checked e).
Proof.
  intros Hc. unfold populate_target. case_bool_decide; cbn [negb]; [|by apply yields_ret].
  apply yields_any. intros []. do 3 (apply yields_any; intros ?).
  eapply yields_bind; [apply yields_expect; intros t; apply from_utf8_Some|]. intros t [_ Hu].
  apply (yields_bind _ _ (λ _, validate_symlink_target (pe_path entry) t = Ok tt)).
  { apply yields_lift. by intros []. }
  intros [] Hv. apply yields_ret. split; [done|]. by intros t' [= <-].
Qed.

Lemma populate_spec root pin name workspace entries :
  Forall target_checked entries →
  yields (populate_jj_symlink_targets env root pin name workspace entries)
    (λ es, same_paths entries es ∧ Forall target_checked es).
Proof.
  intros Hc. unfold populate_jj_symlink_targets. destruct (existsb _ _); cbn [negb]; [|by apply yields_ret].
  do 2 (apply yields_any; intros ?). apply yields_any. intros [added|e]; [|by apply forget_workspace_spec].
  apply (yields_bind _ _ (λ r, ∀ es, r = Ok es → same_paths entries es ∧ Forall target_checked es)).
  { apply yields_try.
    apply (yields_fold _ (λ es dn, same_paths dn es ∧ Forall target_checked es) entries []); [|done].
    intros es dn x Hx [Hs Hf]. rewrite Forall_forall in Hc.
    eapply yields_bind; [apply populate_target_spec, Hc, Hx|]. intros x' [Hp Hx']. apply yields_ret. split.
    - unfold same_paths in *. by rewrite !fmap_app, Hs; cbn; rewrite Hp.
    - apply Forall_app. by split; [|constructor]. }
  intros r Hr. apply forget_workspace_spec. exact Hr.
Qed.

Lemma plan_jj_targets listing planned : plan_jj listing = Ok planned → Forall target_checked planned.
Proof.
  unfold plan_jj. intros Hp. unbind Hp. unfold validate_planned_entries in Hp. unbind Hp. injection Hp as <-.
  unfold sort_entries. rewrite merge_sort_Permutation.
  apply (fold_each_inv (λ es _, Forall target_checked es) _) with (done := []) in E0; [done| |done].
  clear. intros es dn line es' Hes. unfold plan_jj_line. destruct (is_empty line); [by intros [= <-]|].
  intros Hl. unbind Hl. injection Hl as <-. apply Forall_app. split; [done|]. constructor; [|done]. done.
Qed.

Lemma plan_jj_validated listing planned :
  plan_jj listing = Ok planned → ∃ entries, validate_planned_entries entries = Ok planned.
Proof. unfold plan_jj. intros Hp. unbind Hp. eauto. Qed.

(** * Both kinds of package *)

(** What every package is. *)
Record Packaged (planned : list PlannedEntry) (ms : list member) (pkg : SourcePackage) : Prop := {
  pd_plan : ∃ entries validated, validate_planned_entries entries = Ok validated ∧ same_paths validated planned;
  pd_planned : Forall2 packs planned ms;
  pd_manifest : mf_entries (pk_manifest pkg) = manifest_entry sha256 <$> ms;
  pd_total : mf_uncompressed_bytes (pk_manifest pkg) = total_of ms;
  pd_bounded : total_of ms ≤ MAX_UNCOMPRESSED_BYTES;
  pd_count : mf_entry_count (pk_manifest pkg) = N.of_nat (length ms);
  pd_read : ∃ es, read_archive (pk_archive pkg) = Some (Some <$> es) ∧ Forall2 presents ms es;
}.

Lemma finish_package_spec planned p root mode version commit bytes entries validated :
  (∃ ms, Packed ms planned p) → validate_planned_entries entries = Ok validated → same_paths validated planned →
  pz_finish (pg_zip p) = Ok bytes →
  yields (finish_package sha256 env bytes p root mode version commit) (λ pkg, ∃ ms, Packaged planned ms pkg).
Proof.
  intros [ms [Hm He Hp Ht Hb]] Hv Hs Hf. unfold finish_package. apply yields_any. intros []. apply yields_ret.
  exists ms. split; cbn; try done.
  - by eexists _, _.
  - by rewrite <-Ht.
  - by rewrite He, length_fmap.
  - rewrite <-Hm. by apply pz_finish_reads.
Qed.

Lemma package_jj_spec root invocation_dir name workspace :
  yields (package_jj sha256 env json_string root invocation_dir name workspace)
    (λ pkg, ∃ planned ms, Packaged planned ms pkg).
Proof.
  unfold package_jj. do 3 (apply yields_any; intros ?).
  eapply yields_bind; [apply yields_lift; intros planned Hp; exact Hp|]. intros planned Hplan.
  pose proof (plan_jj_validated _ _ Hplan) as [entries Hv].
  eapply yields_bind; [apply populate_spec, (plan_jj_targets _ _ Hplan)|]. intros es [Hs Hc].
  apply yields_any. intros []. eapply yields_bind.
  { apply (pack_all_spec (pack_jj_entry sha256 env json_string root _)). intros entry ms dn p He.
    rewrite Forall_forall in Hc. by apply pack_jj_entry_spec, Hc. }
  intros p Hp. eapply yields_bind; [apply yields_lift; intros bytes Hb%map_err_Ok; exact Hb|]. intros bytes Hb.
  eapply yields_mono; [by eapply (finish_package_spec es)|]. intros pkg [ms Hm]. by exists es, ms.
Qed.

Lemma package_filesystem_spec root patterns :
  yields (package_filesystem_cancellable sha256 env root patterns) (λ pkg, ∃ planned ms, Packaged planned ms pkg).
Proof.
  unfold package_filesystem_cancellable. do 3 (apply yields_any; intros ?).
  eapply yields_bind; [apply yields_lift; intros planned Hp; exact Hp|]. intros planned Hplan.
  apply yields_any. intros []. eapply yields_bind.
  { apply (pack_all_spec (pack_fs_entry sha256 env _)). intros entry ms dn p _. by apply pack_fs_entry_spec. }
  intros p Hp. eapply yields_bind; [apply yields_lift; intros bytes Hb%map_err_Ok; exact Hb|]. intros bytes Hb.
  do 3 (apply yields_any; intros ?).
  eapply yields_mono; [eapply (finish_package_spec planned); [exact Hp|exact Hplan|done|exact Hb]|].
  intros pkg [ms Hm]. by exists planned, ms.
Qed.

Lemma package_source_spec invocation_dir filesystem_root name workspace patterns :
  yields (package_source_cancellable sha256 env json_string invocation_dir filesystem_root name workspace patterns)
    (λ pkg, ∃ planned ms, Packaged planned ms pkg).
Proof.
  unfold package_source_cancellable. do 2 (apply yields_any; intros ?).
  match goal with |- yields (match ?o with _ => _ end) _ => destruct o end.
  - apply yields_any. intros []. apply package_jj_spec.
  - apply package_filesystem_spec.
Qed.

(** * Extraction of a package *)

(** The tree shows the manifest's entry. *)
Definition shows (entry : SourceEntry) (n : tnode) : Prop :=
  match n with
  | TDir _ => False
  | TFile data mode =>
      se_kind entry = EkFile ∧ len data = se_size entry ∧ hex (sha256 data) = se_sha256 entry ∧
      mode = Some (N.land (se_mode entry) o777)
  | TLink target =>
      se_kind entry = EkSymlink ∧ len target = se_size entry ∧ hex (sha256 target) = se_sha256 entry
  end.

Definition extracted_exactly (entries : list SourceEntry) (t : tree) : Prop :=
  (∀ entry, entry ∈ entries → ∃ n, t !! split slash (se_path entry) = Some n ∧ shows entry n) ∧
  (∀ p n, p ≠ [] → t !! p = Some n →
     (∃ entry, entry ∈ entries ∧ p = split slash (se_path entry)) ∨
     (n = TDir None ∧ ∃ entry, entry ∈ entries ∧ above p (split slash (se_path entry)))).

Lemma presents_node pe m e :
  packs pe m → presents m e → ze_is_dir e = false →
  shows (manifest_entry sha256 m) (node_of e) ∧ extracted_of e = len (member_data m).
Proof.
  intros Hpa Hpr Hd. unfold node_of, extracted_of, entry_mode. rewrite Hd, (pr_link _ _ Hpr), (pr_mode _ _ Hpr).
  destruct (is_link m) eqn:Hl.
  - destruct (pa_target _ _ Hpa Hl) as [Hv Hu]. destruct (presents_target (pe_path pe) m e) as [_ ->]; try done.
    unfold shows, manifest_entry. cbn. by rewrite Hl.
  - rewrite (pr_content _ _ Hpr). unfold shows, manifest_entry. cbn. by rewrite Hl.
Qed.

Lemma described_item items i max max_files max_depth :
  accepted max max_files max_depth items → i ∈ items → described items (comps_of i) = Some (node_of i.1).
Proof.
  intros HA Hi. unfold described. destruct (find _ items) as [j|] eqn:Ef.
  - apply find_Some_elem in Ef as [Hj Hc]. breflect. apply list_elem_of_lookup in Hi as [a Ha].
    apply list_elem_of_lookup in Hj as [a' Ha']. pose proof (items_distinct _ _ _ _ HA _ _ _ _ Ha' Ha Hc) as ->. congruence.
  - apply (List.find_none _ _) with (x := i) in Ef; [|by apply list_elem_of_In]. by breflect.
Qed.

Lemma described_inv items p n :
  described items p = Some n →
  (∃ i, i ∈ items ∧ p = comps_of i) ∨ (n = TDir None ∧ ∃ i, i ∈ items ∧ above p (comps_of i)).
Proof.
  unfold described. destruct (find _ items) as [j|] eqn:Ef.
  - intros _. apply find_Some_elem in Ef as [Hj Hc]. breflect. eauto.
  - destruct (existsb _ items) eqn:Ee; [|done]. intros [= <-]. right. split; [done|].
    apply List.existsb_exists in Ee as (i & Hi & Ha). breflect. exists i. split; [by apply list_elem_of_In|done].
Qed.

Lemma presents_length ms es : Forall2 presents ms es → total_of ms = sum_of ze_size es.
Proof. induction 1 as [|m e ms es He _ IH]; cbn; [done|]. by rewrite (pr_size _ _ He), IH. Qed.

(** Entry by entry: the member, its plan and what is read back. *)
Lemma packaged_entries planned ms es :
  Forall2 packs planned ms → Forall2 presents ms es →
  Forall (λ e, validate_archive_path (pe_path e) = Ok tt) planned →
  Forall2 (λ m e, ze_name e = member_name m ∧ ze_is_dir e = false ∧ readable (ze_reads e) = true ∧
                  shows (manifest_entry sha256 m) (node_of e) ∧ extracted_of e = len (member_data m)) ms es.
Proof.
  intros Hpa. revert es. induction Hpa as [|pe m planned ms Hm _ IH]; intros es Hpr Hv.
  { apply Forall2_nil_inv_l in Hpr as ->. constructor. }
  apply Forall2_cons_inv_l in Hpr as (e & es' & He & Hpr & ->). apply Forall_cons in Hv as [Hv Hvs].
  constructor; [|by apply IH].
  destruct (client_path_normalized (N.of_nat MAX_DEPTH) (N.le_refl _) _ Hv) as [_ Hd].
  assert (ze_is_dir e = false) as Hf by by rewrite (pr_dir _ _ He), <-(pa_name _ _ Hm).
  destruct (presents_node pe m e) as [H2 H3]; try done. split_and!; try done; [apply He|apply He].
Qed.

Lemma extracted_package items ms x max max_files max_depth :
  accepted max max_files max_depth items →
  Forall2 (λ m e, ze_name e = member_name m ∧ ze_is_dir e = false ∧ readable (ze_reads e) = true ∧
                  shows (manifest_entry sha256 m) (node_of e) ∧ extracted_of e = len (member_data m)) ms items.*1 →
  (∀ c, c ≠ [] → x !! c = described items c) →
  extracted_exactly (manifest_entry sha256 <$> ms) x.
Proof.
  intros HA Hms Hx.
  assert (∀ i, i ∈ items → ze_is_dir i.1 = false → i.2 = ze_name i.1) as Hname.
  { intros i Hi Hd. pose proof (ac_paths _ _ _ _ HA) as Hp. rewrite Forall_forall in Hp. specialize (Hp i Hi).
    rewrite Hd in Hp. by apply normalized_zip_path_Ok in Hp as [-> _]. }
  split.
  - intros entry (m & -> & (k & Hk)%list_elem_of_lookup)%list_elem_of_fmap.
    destruct (Forall2_lookup_l _ _ _ _ _ Hms Hk) as (e & He & Hn & Hd & _ & Hs & _).
    rewrite list_lookup_fmap in He. destruct (items !! k) as [i|] eqn:Hi; [|done]. injection He as <-.
    apply list_elem_of_lookup_2 in Hi. exists (node_of i.1). split; [|done]. cbn.
    rewrite <-Hn, <-(Hname i Hi Hd), Hx by apply split_ne. by eapply described_item.
  - intros p n Hp. rewrite Hx by done.
    assert (∀ i, i ∈ items → ∃ entry, entry ∈ manifest_entry sha256 <$> ms ∧ comps_of i = split slash (se_path entry)) as Hent.
    { intros i Hi. pose proof Hi as [k Hk]%list_elem_of_lookup.
      destruct (Forall2_lookup_r _ _ _ k i.1 Hms) as (m & Hm & Hn & Hd & _); [by rewrite list_lookup_fmap, Hk|].
      exists (manifest_entry sha256 m). split.
      { apply list_elem_of_fmap. exists m. split; [done|by eapply list_elem_of_lookup_2]. }
      unfold comps_of. cbn. by rewrite (Hname i Hi Hd), Hn. }
    intros [(i & Hi & ->)|(-> & i & Hi & Ha)]%described_inv; destruct (Hent i Hi) as (entry & He & Hc).
    + left. eauto.
    + right. split; [done|]. exists entry. by rewrite <-Hc.
Qed.

Lemma manifest_total ms : sum_of se_size (manifest_entry sha256 <$> ms) = total_of ms.
Proof. induction ms as [|m ms IH]; cbn; [done|]. by rewrite IH. Qed.

Lemma package_extraction planned ms pkg max max_files max_depth :
  Packaged planned ms pkg →
  N.of_nat MAX_FILES ≤ max_files → max_files < u64_max → N.of_nat MAX_DEPTH ≤ max_depth →
  MAX_UNCOMPRESSED_BYTES ≤ max → max < u64_max →
  ∃ x, extract_source_archive_inner (λ _, false) None (read_archive (pk_archive pkg)) max max_files max_depth
         fresh_destination = (x, Ok tt) ∧
       extracted_exactly (mf_entries (pk_manifest pkg)) (xs_tree x).
Proof.
  intros [(entries & validated & Hv & Hs) Hpa Hman _ Hb _ (es & Hread & Hpr)] Hf Hfu Hd Hm Hmu.
  destruct (planned_paths _ _ _ Hv Hs) as (Hl & Hpaths & ps & Hps).
  pose proof (packaged_entries _ _ _ Hpa Hpr Hpaths) as Hes.
  destruct (planned_preflight max max_files max_depth ps planned ms es) as [s Hpf]; try done; [lia|].
  assert ((extract_source_archive_inner (λ _, false) None (Some (Some <$> es)) max max_files max_depth
             fresh_destination).2 = Ok tt) as Hok.
  { eapply extraction_succeeds; try done.
    - unfold total_extracted. etrans; [|etrans; [exact Hb|exact Hm]]. clear -Hes.
      induction Hes as [|m e ms es (_ & _ & _ & _ & He) _ IH]; cbn in *; [done|]. rewrite He. lia.
    - clear -Hes. induction Hes as [|m e ms es (_ & _ & Hr & _) _ IH]; constructor; auto. }
  rewrite Hread, Hman. destruct (extract_source_archive_inner _ _ _ _ _ _ _) as [x r] eqn:Hrun. cbn in Hok. subst r.
  exists x. split; [done|].
  destruct (wp_run _ _ _ _ _ (extract_source_archive_spec _ _ _ _ _ _) Hrun) as [_ Hex].
  destruct (Hex eq_refl) as (items & Heq & HA & Htree & _). injection Heq as Heq%(inj (fmap Some)).
  subst es. by eapply extracted_package.
Qed.

(** C12: A source package, whether of a Jujutsu revision or of a directory and
    whatever happens around the client while it is made, is accepted by a server
    whose limits are at least the client's: extracting its archive succeeds, and
    the workspace then holds exactly the manifest, each file with the size, digest
    and permissions of its entry, each link with the target of its entry, and
    nothing else but the directories above them.  The manifest counts its entries
    and their bytes, which are within the client's limit. *)
Theorem package_is_extracted invocation_dir filesystem_root name workspace patterns c c' pkg
    max max_files max_depth :
  package_source_cancellable sha256 env json_string invocation_dir filesystem_root name workspace patterns c
    = (c', Ok pkg) →
  N.of_nat MAX_FILES ≤ max_files → max_files < u64_max → N.of_nat MAX_DEPTH ≤ max_depth →
  MAX_UNCOMPRESSED_BYTES ≤ max → max < u64_max →
  let entries := mf_entries (pk_manifest pkg) in
  (∃ x, extract_source_archive_inner (λ _, false) None (read_archive (pk_archive pkg)) max max_files max_depth
          fresh_destination = (x, Ok tt) ∧ extracted_exactly entries (xs_tree x)) ∧
  mf_entry_count (pk_manifest pkg) = N.of_nat (length entries) ∧
  mf_uncompressed_bytes (pk_manifest pkg) = sum_of se_size entries ∧
  sum_of se_size entries ≤ MAX_UNCOMPRESSED_BYTES.
Proof.
  intros Hrun Hf Hfu Hd Hm Hmu entries.
  destruct (yields_run _ _ _ _ _ (package_source_spec invocation_dir filesystem_root name workspace patterns) Hrun)
    as (planned & ms & Hp).
  split; [by eapply package_extraction|]. subst entries. destruct Hp as [_ _ -> -> Hb -> _].
  by rewrite length_fmap, manifest_total.
Qed.
End package.
