(* ===== verification/ClientCleanup.v ===== *)
(** The temporary Jujutsu workspace: it is forgotten whatever happens. *)
From Stdlib Require Import Ascii.
From stdpp Require Import base option strings numbers list gmap pretty sorting countable.
From S2P Require Import Prelude Effects RustStr Fs Archive ArchiveExtract Protocol Config Artifacts ArtifactZip ClientSource ClientPackage ClientFacts ClientTheorems.

Abbreviation command := (string * list string)%type.

(** A command that adds a workspace, and the one that forgets it. *)
Definition adds_workspace (cmd : command) : Prop := take 3 cmd.2 = ["--no-pager"; "workspace"; "add"].
Definition names_workspace (name : string) (cmd : command) : Prop :=
  take 5 cmd.2 = ["--no-pager"; "workspace"; "add"; "--name"; name].
Definition forget_command (root name : string) : command := (root, ["--no-pager"; "workspace"; "forget"; name]).

Abbreviation adds_none := (Forall (λ cmd : command, ¬ adds_workspace cmd)).

Definition reports_cleanup (e : io_error) : Prop :=
  ∃ before after, io_error_message e = before +:+ "jj workspace cleanup" +:+ after.

(** What the commands of a run are: no workspace is added, or one is and is
    forgotten next, or the error says that it could not be. *)
Definition tidy {A} (name : string) (cmds : list command) (r : result io_error A) : Prop :=
  adds_none cmds ∨
  (∃ pre root add post, cmds = pre ++ [(root, add); forget_command root name] ++ post ∧
     names_workspace name (root, add) ∧ adds_none pre ∧ adds_none post) ∨
  (∃ pre root add e, cmds = pre ++ [(root, add)] ∧ names_workspace name (root, add) ∧ adds_none pre ∧
     r = Err e ∧ reports_cleanup e).

Lemma tidy_before {A} name a b (r : result io_error A) : adds_none a → tidy name b r → tidy name (a ++ b) r.
Proof.
  intros Ha [Hb|[(pre & root & add & post & -> & Hn & Hpre & Hpost)|(pre & root & add & e & -> & Hn & Hpre & He)]];
    [left|right; left|right; right].
  - by apply Forall_app_2.
  - exists (a ++ pre), root, add, post. split_and!; try done; [by rewrite <-!(assoc (++))|by apply Forall_app_2].
  - exists (a ++ pre), root, add, e. split_and!; try apply He; [by rewrite <-!(assoc (++))|done|by apply Forall_app_2].
Qed.

Lemma tidy_after {A B} name a b (v : A) (r : result io_error B) :
  tidy name a (Ok v) → adds_none b → tidy name (a ++ b) r.
Proof.
  intros [Ha|[(pre & root & add & post & -> & Hn & Hpre & Hpost)|(? & ? & ? & ? & _ & _ & _ & ? & _)]] Hb; [left|right; left|done].
  - by apply Forall_app_2.
  - exists pre, root, add, (post ++ b). split_and!; try done; [by rewrite <-!(assoc (++))|by apply Forall_app_2].
Qed.

(** A computation starts commands with this property. *)
Definition starts {A} (m : eff client io_error A) (P : list command → result io_error A → Prop) : Prop :=
  ∀ c, wp m c (λ c' r, ∃ cmds, cl_jj c' = cl_jj c ++ cmds ∧ P cmds r).

(** Only commands of a kind, none that adds a workspace, none at all. *)
Abbreviation only P m := (starts m (λ cmds _, Forall P cmds)).
Abbreviation quiet m := (only (λ cmd, ¬ adds_workspace cmd) m).
Abbreviation silent m := (only (λ _, False) m).

Section rules.
Context {A B : Type} (name : string) (P : command → Prop).
Implicit Types (m : eff client io_error A) (k : A → eff client io_error B).

Lemma only_bind m k : only P m → (∀ a, only P (k a)) → only P (m ≫= k).
Proof.
  intros Hm Hk c. apply wp_bind. eapply wp_mono; [apply Hm|]. intros c1 [a|e] (cmds & H1 & Hn); [|eauto].
  eapply wp_mono; [apply Hk|]. intros c2 r (cmds2 & H2 & Hn2). exists (cmds ++ cmds2).
  rewrite H2, H1, (assoc (++)). split; [done|by apply Forall_app_2].
Qed.
Lemma tidy_bind_quiet m k : quiet m → (∀ a, starts (k a) (tidy name)) → starts (m ≫= k) (tidy name).
Proof.
  intros Hm Hk c. apply wp_bind. eapply wp_mono; [apply Hm|]. intros c1 [a|e] (cmds & H1 & Hn).
  - eapply wp_mono; [apply Hk|]. intros c2 r (cmds2 & H2 & Hn2). exists (cmds ++ cmds2).
    rewrite H2, H1, (assoc (++)). split; [done|by apply tidy_before].
  - exists cmds. split; [done|by left].
Qed.
Lemma tidy_bind m k : starts m (tidy name) → (∀ a, quiet (k a)) → starts (m ≫= k) (tidy name).
Proof.
  intros Hm Hk c. apply wp_bind. eapply wp_mono; [apply Hm|]. intros c1 [a|e] (cmds & H1 & Hn).
  - eapply wp_mono; [apply Hk|]. intros c2 r (cmds2 & H2 & Hn2). exists (cmds ++ cmds2).
    rewrite H2, H1, (assoc (++)). split; [done|by eapply tidy_after].
  - exists cmds. split; [done|]. destruct Hn as [?|[?|(pre & root & add & e' & ? & ? & ? & [= <-] & ?)]]; [by left|right; by left|].
    right; right. by exists pre, root, add, e.
Qed.
Lemma starts_mono m (R Q : list command → result io_error A → Prop) :
  starts m R → (∀ cmds r, R cmds r → Q cmds r) → starts m Q.
Proof. intros Hm HQ c. eapply wp_mono; [apply Hm|]. intros c' r (cmds & ? & ?). eauto. Qed.
Lemma quiet_tidy m : quiet m → starts m (tidy name).
Proof. intros Hm. eapply starts_mono; [exact Hm|]. intros. by left. Qed.
Lemma only_same m : (∀ c, cl_jj (m c).1 = cl_jj c) → only P m.
Proof. intros Hm c. exists []. rewrite app_nil_r. split; [apply Hm|constructor]. Qed.
Lemma only_map_err f m : only P m → only P (io_map_err f m).
Proof. intros Hm c. apply wp_map_err. eapply wp_mono; [apply Hm|]. eauto. Qed.
Lemma only_try m : only P m → only P (io_try (F := io_error) m).
Proof. intros Hm c. apply wp_try. eapply wp_mono; [apply Hm|]. eauto. Qed.
End rules.

Lemma only_fold {A S} (P : command → Prop) (f : S → A → eff client io_error S) s l :
  (∀ s x, only P (f s x)) → only P (io_fold f s l).
Proof.
  intros Hf. revert s. induction l as [|x l IH]; intros s; cbn [io_fold]; [by apply only_same|].
  by apply only_bind.
Qed.

Create HintDb quiet discriminated.

(** Follows a computation down to the commands it starts. *)
Ltac quietly :=
  repeat first
    [ progress cbn beta
    | solve [eauto 1 with quiet nocore]
    | lazymatch goal with
      | |- starts (mbind _ _) _ => apply only_bind; [|intros ?]
      | |- starts (io_try _) _ => apply only_try
      | |- starts (io_map_err _ _) _ => apply only_map_err
      | |- starts (io_fold _ _ _) _ => apply only_fold; intros ? ?
      | |- starts (match ?x with _ => _ end) _ => destruct x
      | |- starts _ _ => solve [by apply only_same]
      end ].

Section package.
Context `{Glob, PackageZip, JjCodec} (sha256 : string → string) (env : nat → SourceEnv).
Context (json_string : string → string).

Lemma spawn_jj_starts cwd args :
  starts (spawn_jj env cwd args) (λ cmds r,
    cmds = [] ∧ (∃ e, r = Err e) ∨ cmds = [(cwd, args)] ∧ ∃ run, r = Ok run).
Proof.
  intros c. unfold wp, spawn_jj. destruct (jr_spawn _); cbn; [exists [(cwd, args)]|exists []]; [naive_solver|].
  rewrite app_nil_r. naive_solver.
Qed.

Lemma spawn_jj_quiet cwd args : ¬ adds_workspace (cwd, args) → quiet (spawn_jj env cwd args).
Proof.
  intros Ha. eapply starts_mono; [apply spawn_jj_starts|]. intros cmds r [[-> _]|[-> _]]; by repeat constructor.
Qed.

Lemma run_jj_quiet cwd args checked : ¬ adds_workspace (cwd, args) → quiet (run_jj_bounded env cwd args checked).
Proof. intros Ha. pose proof (spawn_jj_quiet cwd args Ha). unfold run_jj_bounded. quietly. Qed.

Lemma find_jj_root_quiet start : quiet (find_jj_root env start).
Proof.
  unfold find_jj_root. quietly. generalize (components a) at 2. generalize (S (length (components a))).
  intros fuel. induction fuel as [|fuel IH]; intros cursor; cbn [find_jj_from]; quietly; apply IH.
Qed.
Lemma jj_version_quiet root : quiet (jj_version env root).
Proof. unfold jj_version. quietly. by apply run_jj_quiet. Qed.
Lemma jj_pin_quiet dir : quiet (jj_pin env dir).
Proof. unfold jj_pin. quietly. by apply run_jj_quiet. Qed.
Lemma jj_listing_quiet root pin : quiet (jj_listing env root pin).
Proof. unfold jj_listing. quietly. by apply run_jj_quiet. Qed.

Lemma stream_reads_quiet s reads : quiet (stream_reads env s reads).
Proof.
  revert s. induction reads as [|[chunk|e] reads IH]; intros s; cbn [stream_reads]; unfold write_chunk; quietly.
Qed.
Lemma stream_jj_file_quiet root pin fileset s : quiet (stream_jj_file env root pin fileset s).
Proof. unfold stream_jj_file. pose proof stream_reads_quiet. quietly. by apply spawn_jj_quiet. Qed.
Lemma stream_file_quiet source same s : quiet (stream_file env source same s).
Proof. unfold stream_file. quietly. apply stream_reads_quiet. Qed.
Lemma pack_file_quiet entry source p :
  (∀ s, quiet (source s)) → quiet (pack_file sha256 env entry source p).
Proof. intros Hs. unfold pack_file. quietly. Qed.
Lemma pack_jj_entry_quiet root pin p entry : quiet (pack_jj_entry sha256 env json_string root pin p entry).
Proof.
  unfold pack_jj_entry, pack_link. quietly. apply pack_file_quiet. intros s. apply stream_jj_file_quiet.
Qed.
Lemma pack_fs_entry_quiet root p entry : quiet (pack_fs_entry sha256 env root p entry).
Proof. unfold pack_fs_entry, pack_link. quietly. apply pack_file_quiet. intros s. apply stream_file_quiet. Qed.

Lemma visit_source_quiet root includes excludes entries item :
  quiet (visit_source env root includes excludes entries item).
Proof. unfold visit_source. quietly. Qed.
Lemma enumerate_quiet root patterns : quiet (enumerate_filesystem env root patterns).
Proof. unfold enumerate_filesystem. pose proof visit_source_quiet. quietly. Qed.
Lemma package_filesystem_quiet root patterns : quiet (package_filesystem_cancellable sha256 env root patterns).
Proof.
  unfold package_filesystem_cancellable, finish_package. pose proof enumerate_quiet. pose proof pack_fs_entry_quiet.
  quietly.
Qed.
Lemma populate_target_silent workspace entry : silent (populate_target env workspace entry).
Proof. unfold populate_target. quietly. Qed.

(** A command is started at most once; when it is not, the run fails. *)
Lemma run_jj_starts cwd args checked :
  starts (run_jj_bounded env cwd args checked) (λ cmds r,
    cmds = [(cwd, args)] ∨ cmds = [] ∧ ∃ e, r = Err e).
Proof.
  intros c. unfold run_jj_bounded. apply wp_bind.
  apply (wp_mono _ _ (λ c1 _, cl_jj c1 = cl_jj c)); [by destruct checked|].
  intros c1 [[]|e] Hc1; [|exists []; rewrite app_nil_r; naive_solver].
  apply wp_bind, wp_map_err. eapply wp_mono; [apply spawn_jj_starts|].
  intros c2 r (cmds & H2 & [[-> [e ->]]|[-> [run ->]]]); rewrite Hc1 in H2; cbn [map_err]; [exists []; naive_solver|].
  match goal with |- wp ?m c2 _ => assert (cl_jj (m c2).1 = cl_jj c2) as Hrest end.
  { unfold mbind, eff_bind, io_lift. destruct (jr_wait run); [|done].
    destruct (read_and_drain_bounded (jr_stdout run) _) as [[]|]; [|done].
    destruct (read_and_drain_bounded (jr_stderr run) _) as [[]|]; [|done].
    unfold io_reject, option_expect, io_lift. by repeat destruct (reject_if _ _). }
  unfold wp. rewrite Hrest, H2. eauto.
Qed.

(** The end of a workspace: it is forgotten, or the error says it was not. *)
Lemma forget_workspace_starts {A} root name (r0 : result io_error A) :
  starts (forget_workspace env root name r0) (λ cmds r,
    cmds = [forget_command root name] ∨ cmds = [] ∧ ∃ e, r = Err e ∧ reports_cleanup e).
Proof.
  intros c. unfold forget_workspace. apply wp_bind, wp_try.
  eapply wp_mono; [apply run_jj_starts|]. intros c1 r (cmds & Hlog & [->|[-> [e ->]]]).
  - exists [forget_command root name]. split; [|by left]. by destruct r, r0.
  - exists []. split; [by destruct r0|]. right. split; [done|]. destruct r0 as [v|e0].
    + eexists. split; [done|]. exists "". eexists. done.
    + eexists. split; [done|]. exists (io_error_message e0 +:+ "; "), (" also failed (" +:+ io_error_message e +:+ ")" +:+ retry_advice name).
      cbn. by rewrite !string_app_assoc.
Qed.

Lemma forget_workspace_quiet {A} root name (r0 : result io_error A) : quiet (forget_workspace env root name r0).
Proof.
  eapply starts_mono; [apply forget_workspace_starts|]. intros cmds r [->|[-> _]]; by repeat constructor.
Qed.

Lemma populate_tidy root pin name workspace entries :
  starts (populate_jj_symlink_targets env root pin name workspace entries) (tidy name).
Proof.
  unfold populate_jj_symlink_targets. destruct (negb _); [apply quiet_tidy; quietly|].
  apply tidy_bind_quiet; [quietly|]. intros []. apply tidy_bind_quiet; [quietly|]. intros path c. apply wp_bind, wp_try.
  eapply wp_mono; [apply run_jj_starts|]. intros c1 r (cmds & Hlog & [->|[-> [e ->]]]).
  - (* the command was started: whatever follows, it is forgotten next *)
    assert (∀ (r0 : result io_error (list PlannedEntry)) c2, cl_jj c2 = cl_jj c1 →
      wp (forget_workspace env root name r0) c2
        (λ c' r, ∃ cmds, cl_jj c' = cl_jj c ++ cmds ∧ tidy name cmds r)) as Hend.
    { intros r0 c2 H2. eapply wp_mono; [apply forget_workspace_starts|]. intros c3 r3 (cmds & H3 & Hc).
      eexists (_ :: cmds). rewrite H3, H2, Hlog, <-(assoc (++)). split; [done|].
      destruct Hc as [->|[-> (e & -> & He)]]; right; [left; by eexists [], root, _, []|].
      right. by eexists [], root, _, e. }
    destruct r as [out|e]; [|by apply Hend]. apply wp_bind, wp_try. eapply wp_mono.
    { apply only_fold. intros es entry. pose proof populate_target_silent. quietly. }
    intros c2 r (none & H2 & Hnone). apply Hend. destruct none; [by rewrite app_nil_r in H2|].
    by apply Forall_inv in Hnone.
  - eapply wp_mono; [apply forget_workspace_quiet|]. intros c2 r2 (cmds & H2 & Hq). exists cmds.
    rewrite H2, Hlog, app_nil_r. split; [done|by left].
Qed.

Lemma package_jj_tidy root invocation_dir name workspace :
  starts (package_jj sha256 env json_string root invocation_dir name workspace) (tidy name).
Proof.
  unfold package_jj. pose proof pack_jj_entry_quiet.
  apply tidy_bind_quiet; [apply jj_version_quiet|intros version].
  apply tidy_bind_quiet; [apply jj_pin_quiet|intros pin].
  apply tidy_bind_quiet; [apply jj_listing_quiet|intros listing].
  apply tidy_bind_quiet; [quietly|intros planned].
  apply tidy_bind; [apply populate_tidy|intros populated]. unfold finish_package. quietly.
Qed.

(** Packaging never leaves its temporary Jujutsu workspace registered in the
    user's repository: in every run, however [jj] answers, whatever calls fail and
    whenever the user interrupts, either no workspace is added, or exactly one is,
    under the run's own name, and the very next command forgets that name in the
    same repository, or that command cannot be started and the run fails with an
    error that reports the cleanup. *)
Theorem workspace_forgotten invocation_dir filesystem_root name workspace patterns c c' r :
  package_source_cancellable sha256 env json_string invocation_dir filesystem_root name workspace patterns c
    = (c', r) →
  ∃ cmds, cl_jj c' = cl_jj c ++ cmds ∧ tidy name cmds r.
Proof.
  intros Hrun.
  assert (starts (package_source_cancellable sha256 env json_string invocation_dir filesystem_root name
    workspace patterns) (tidy name)) as Hs; [clear|exact (wp_run _ _ _ _ _ (Hs c) Hrun)].
  unfold package_source_cancellable. apply tidy_bind_quiet; [quietly|intros []].
  apply tidy_bind_quiet; [apply find_jj_root_quiet|intros [root|]].
  - apply tidy_bind_quiet; [quietly|intros []]. apply package_jj_tidy.
  - apply quiet_tidy, package_filesystem_quiet.
Qed.
End package.

(** * A repository packaged and extracted: an executable and a link to it. *)

Local Open Scope N_scope.

(** * An archive format *)

#[export] Instance member_countable : Countable member.
Proof.
  refine (inj_countable'
    (λ m, match m with FileMember name mode data => inl (name, mode, data) | LinkMember name target => inr (name, target) end)
    (λ x, match x with inl (name, mode, data) => FileMember name mode data | inr (name, target) => LinkMember name target end) _).
  by intros [].
Defined.

#[local] Instance demo_zip : PackageZip := {|
  pz := list member;
  pz_new := [];
  pz_start_file name mode ms := Ok (ms ++ [FileMember name mode ""]);
  pz_write data ms := append_data data ms;
  pz_add_symlink name target ms := Ok (ms ++ [LinkMember name target]);
  pz_finish ms := Ok (pos_bits (encode ms));
|}.

Definition demo_entry (m : member) : zip_entry :=
  {| ze_name := member_name m; ze_is_dir := ends_with "/" (member_name m); ze_is_symlink := is_link m;
     ze_unix_mode := Some (member_mode m); ze_size := len (member_data m); ze_reads := [Ok (member_data m)] |}.

Definition demo_read (bytes : string) : option (list (option zip_entry)) :=
  (λ ms : list member, Some ∘ demo_entry <$> ms) <$> decode (bits_pos bytes).

Lemma demo_entry_presents m : presents m (demo_entry m).
Proof.
  split; try done; cbn; destruct (member_data m); try done; cbn. by rewrite string_app_nil.
Qed.

#[local] Instance demo_zip_laws : PackageZipLaws demo_read.
Proof.
  refine (@Build_PackageZipLaws demo_zip demo_read (λ ms, ms) _ _ _ _ _); try (cbn; congruence).
  intros ms bytes [= <-]. exists (demo_entry <$> ms). split.
  - unfold demo_read. rewrite bits_pos_bits, decode_encode. cbn. by rewrite <-list_fmap_compose.
  - apply Forall2_fmap_r, Forall2_same_length_lookup_2; [done|]. intros i x y Hx Hy. simplify_eq. apply demo_entry_presents.
Qed.

(** * A repository *)

(** Lines of the listing: [x path] an executable, [l path] a link, [f path] a file. *)
#[local] Instance demo_jj_codec : JjCodec := {|
  jj_entry_from_str line :=
    match line with
    | String kind (String _ path) =>
        Ok {| jj_path := path; jj_file_type := if byte_eqb kind "l" then "symlink" else "file";
              jj_executable := byte_eqb kind "x"; jj_conflict := false |}
    | _ => Err "not an entry"
    end
|}.

Definition answered (out : string) : jj_run :=
  {| jr_spawn := Ok tt; jr_stdout := [Ok out]; jr_stderr := []; jr_wait := Ok true |}.

Definition newline : string := String "010" "".
Definition demo_pin : string := "00112233445566778899aabbccddeeff00112233".

Definition demo_answer (args : list string) : string :=
  match args with
  | ["--version"] => "jj 0.30.0" +:+ newline
  | _ :: "log" :: _ => demo_pin +:+ newline
  | _ :: _ :: "file" :: "list" :: _ => "x bin/run" +:+ newline +:+ "l tool" +:+ newline
  | _ :: _ :: "file" :: "show" :: _ => "echo hello"
  | _ => ""
  end.

Definition demo_meta (kind : file_kind) : smeta :=
  {| sm_kind := kind; sm_mode := 493; sm_len := 10; sm_dev := 1; sm_ino := 1; sm_mtime := 0; sm_mtime_nsec := 0 |}.

Definition demo_env (_ : nat) : SourceEnv := {|
  ev_cancelled := false;
  ev_canonicalize := Ok;
  ev_lstat p := Ok (demo_meta (if bool_decide (p = "/ws/tool") then Symlink else Directory));
  ev_fstat _ := Ok (demo_meta Regular);
  ev_open _ := Ok tt;
  ev_open_root _ := Ok tt;
  ev_openat _ _ _ := Ok tt;
  ev_reads _ := [];
  ev_read_link _ := Ok "bin/run";
  ev_walk _ _ := [];
  ev_fault := None;
  ev_jj _ args := answered (demo_answer args);
|}.

Abbreviation demo_package :=
  (package_source_cancellable (λ s, s) demo_env id "/repo" "/repo" "ws-1" "/ws"
     {| fp_include := []; fp_exclude := [] |} (Client 0 [])).

Definition demo_pkg : SourcePackage :=
  match demo_package.2 with
  | Ok pkg => pkg
  | Err _ => {| pk_archive := ""; pk_manifest := {| mf_schema_version := 0; mf_entries := []; mf_entry_count := 0;
                  mf_uncompressed_bytes := 0; mf_aggregate_sha256 := "" |};
                pk_identity := {| id_mode := ""; id_root := ""; id_jj_version := None; id_jj_commit_id := None;
                  id_initial_snapshot_atomicity := ""; id_archive_sha256 := ""; id_archive_bytes := 0 |} |}
  end.

Example demo_manifest :
  mf_entries (pk_manifest demo_pkg) =
    [{| se_path := "bin/run"; se_kind := EkFile; se_mode := 33261; se_size := 10; se_sha256 := hex "echo hello" |};
     {| se_path := "tool"; se_kind := EkSymlink; se_mode := 41471; se_size := 7; se_sha256 := hex "bin/run" |}].
Proof. vm_compute. reflexivity. Qed.

Lemma package_is_extracted_witness :
  (∃ x, extract_source_archive_inner (λ _, false) None (demo_read (pk_archive demo_pkg))
          MAX_UNCOMPRESSED_BYTES 50000 64 fresh_destination = (x, Ok tt) ∧
        extracted_exactly (λ s, s) (mf_entries (pk_manifest demo_pkg)) (xs_tree x)) ∧
  mf_entry_count (pk_manifest demo_pkg) = 2.
Proof.
  destruct (package_is_extracted (λ s, s) demo_env id demo_read "/repo" "/repo" "ws-1" "/ws"
    {| fp_include := []; fp_exclude := [] |} (Client 0 []) demo_package.1 demo_pkg
    MAX_UNCOMPRESSED_BYTES 50000 64) as (Hx & Hn & _).
  - vm_compute. reflexivity.
  - by vm_compute.
  - by vm_compute.
  - by vm_compute.
  - done.
  - by vm_compute.
  - split; [exact Hx|]. rewrite Hn. vm_compute. reflexivity.
Defined.

Lemma workspace_forgotten_witness :
  ∃ cmds, cl_jj demo_package.1 = [] ++ cmds ∧ tidy "ws-1" cmds demo_package.2.
Proof.
  apply (workspace_forgotten (λ s, s) demo_env id "/repo" "/repo" "ws-1" "/ws"
    {| fp_include := []; fp_exclude := [] |} (Client 0 [])).
  apply surjective_pairing.
Defined.

(** The commands of that run. *)
Example demo_commands :
  (λ cmd : string * list string, take 3 cmd.2) <$> cl_jj demo_package.1 =
    [["--version"]; ["--no-pager"; "log"; "--no-graph"]; ["--ignore-working-copy"; "--no-pager"; "file"];
     ["--no-pager"; "workspace"; "add"]; ["--no-pager"; "workspace"; "forget"];
     ["--ignore-working-copy"; "--no-pager"; "file"]].
Proof. vm_compute. reflexivity. Qed.
