(* ===== verification/HostPng.v ===== *)
(** The check of a captured image ([src/src/host_observation.rs], [validate_png]
    and [crc32]): PNG framing, dimensions, chunk order and checksums. *)
From Stdlib Require Import Ascii Btauto.
From stdpp Require Import base option strings numbers list sets.
From S2P Require Import Prelude RustStr.

Local Open Scope N_scope.

(** [&[u8]] as the list of its byte values. *)
Definition codes (s : string) : list N := code <$> String.list_ascii_of_string s.

(** * CRC-32 *)

(** One turn of the inner loop: [(crc >> 1) ^ (0xedb88320 & 0u32.wrapping_sub(crc & 1))]. *)
Definition crc_bit (crc : N) : N :=
  N.lxor (N.shiftr crc 1) (N.land 3988292384 ((2 ^ 32 - N.land crc 1) mod 2 ^ 32)).

(** [CRC_TABLE]. *)
Definition crc_entry (index : nat) : N := Nat.iter 8 crc_bit (N.of_nat index).
Definition CRC_TABLE : list N := crc_entry <$> seq 0 256.

Definition crc_byte (crc byte : N) : N :=
  N.lxor (N.shiftr crc 8) (nth (N.to_nat (N.land (N.lxor crc byte) 255)) CRC_TABLE 0).

(** [!x] on [u32]. *)
Definition not32 (x : N) : N := N.lxor x u32_max.

Definition crc32 (bytes : list N) : N := not32 (fold_left crc_byte bytes (not32 0)).

(** * The image *)

Definition SIGNATURE : list N := [137; 80; 78; 71; 13; 10; 26; 10].
Definition IHDR : list N := [73; 72; 68; 82].
Definition IDAT : list N := [73; 68; 65; 84].
Definition IEND : list N := [73; 69; 78; 68].

(** [u32::from_be_bytes]. *)
Definition from_be (bytes : list N) : N := fold_left (λ acc b, acc * 256 + b) bytes 0.

(** [&bytes[from..to]]. *)
Definition range (from to : N) (bytes : list N) : list N :=
  take (N.to_nat (to - from)) (drop (N.to_nat from) bytes).

Definition invalid_png : string := "capture is not a valid nonempty PNG".
Definition unsupported_png : string := "PNG format/dimensions unsupported (maximum 100 million pixels)".

Definition byte_at (i : nat) (payload : list N) : N := nth i payload 0.

Definition valid_depth (color depth : N) : bool :=
  if bool_decide (color = 0) then bool_decide (depth ∈ [1; 2; 4; 8; 16])
  else if bool_decide (color ∈ [2; 4; 6]) then bool_decide (depth ∈ [8; 16])
  else if bool_decide (color = 3) then bool_decide (depth ∈ [1; 2; 4; 8])
  else false.

(** The format and the dimensions of the image header. *)
Definition supported_header (payload : list N) : bool :=
  let width := from_be (range 0 4 payload) in
  let height := from_be (range 4 8 payload) in
  negb (negb (valid_depth (byte_at 9 payload) (byte_at 8 payload))
        || negb (byte_at 10 payload =? 0) || negb (byte_at 11 payload =? 0)
        || (1 <? byte_at 12 payload) || (32768 <? width) || (32768 <? height)
        || (100000000 <? width * height)).

(** One turn of the loop over the chunks, at [offset]: the state of the next turn
    (the offset, whether the header and whether data was seen), or the verdict. *)
Definition png_chunk (bytes : list N) (offset : N) (header data : bool) :
    result string (N * bool * bool + unit) :=
  let size := N.of_nat (length bytes) in
  let length := from_be (range offset (offset + 4) bytes) in
  end_ ← ok_or (checked_add offset 12 ≫= λ n, checked_add n length) invalid_png;
  _ ← reject_if (size <? end_) invalid_png;
  let kind := range (offset + 4) (offset + 8) bytes in
  let payload := range (offset + 8) (end_ - 4) bytes in
  let crc := from_be (range (end_ - 4) end_ bytes) in
  _ ← reject_if (negb (crc32 (range (offset + 4) (end_ - 4) bytes) =? crc)) invalid_png;
  _ ← (if negb header then
         _ ← reject_if (negb (bool_decide (kind = IHDR)) || negb (length =? 13)
                        || bool_decide (range 0 4 payload = [0; 0; 0; 0])
                        || bool_decide (range 4 8 payload = [0; 0; 0; 0])) invalid_png;
         reject_if (negb (supported_header payload)) unsupported_png
       else reject_if (bool_decide (kind = IHDR)) invalid_png);
  let data := data || (bool_decide (kind = IDAT) && (0 <? length)) in
  if bool_decide (kind = IEND) then
    if (length =? 0) && data && (end_ =? size) then Ok (inr tt) else Err invalid_png
  else Ok (inl (end_, true, data)).

(** The loop; a turn advances by at least 12 bytes, so the number of bytes bounds
    the turns. *)
Fixpoint png_chunks (fuel : nat) (bytes : list N) (offset : N) (header data : bool) :
    result string unit :=
  match fuel with
  | O => Err invalid_png
  | S fuel =>
      if match checked_add offset 12 with
         | Some n => n <=? N.of_nat (length bytes)
         | None => false
         end
      then
        next ← png_chunk bytes offset header data;
        match next with
        | inl (offset, header, data) => png_chunks fuel bytes offset header data
        | inr _ => Ok tt
        end
      else Err invalid_png
  end.

Definition validate_png (bytes : string) : result string unit :=
  let bytes := codes bytes in
  if negb (bool_decide (take 8 bytes = SIGNATURE)) then Err invalid_png
  else png_chunks (S (length bytes)) bytes 8 false false.

(** * What a PNG is *)

(** The checksum of the PNG specification, bit by bit and without a table. *)
Definition crc_shift (crc : N) : N :=
  if N.testbit crc 0 then N.lxor (N.shiftr crc 1) 3988292384 else N.shiftr crc 1.
Definition crc32_reference (bytes : list N) : N :=
  N.lxor (fold_left (λ crc b, Nat.iter 8 crc_shift (N.lxor crc b)) bytes u32_max) u32_max.

Fixpoint to_be (k : nat) (n : N) : list N :=
  match k with
  | O => []
  | S k => to_be k (n / 256) ++ [n mod 256]
  end.

Record chunk := Chunk { ck_kind : list N; ck_payload : list N }.

Definition encode_chunk (c : chunk) : list N :=
  to_be 4 (N.of_nat (length (ck_payload c))) ++ ck_kind c ++ ck_payload c
  ++ to_be 4 (crc32_reference (ck_kind c ++ ck_payload c)).

(** The color types with the bit depths the format allows for each. *)
Definition color_depths : list (N * list N) :=
  [(0, [1; 2; 4; 8; 16]); (2, [8; 16]); (3, [1; 2; 4; 8]); (4, [8; 16]); (6, [8; 16])].

(** An image header: width, height, depth, color type, compression, filter and
    interlace method. *)
Definition header_payload (w h depth color interlace : N) : list N :=
  to_be 4 w ++ to_be 4 h ++ [depth; color; 0; 0; interlace].

Record good_header (w h depth color interlace : N) : Prop := {
  gh_width : 0 < w ≤ 32768;
  gh_height : 0 < h ≤ 32768;
  gh_pixels : w * h ≤ 100000000;
  gh_depth : ∃ depths, (color, depths) ∈ color_depths ∧ depth ∈ depths;
  gh_interlace : interlace ≤ 1;
}.

Record good_chunk (c : chunk) : Prop := {
  gc_kind : length (ck_kind c) = 4%nat;
  gc_length : N.of_nat (length (ck_payload c)) ≤ u32_max;
}.

(** A PNG: the signature, a header chunk, chunks among which one holds data, and the
    end chunk, and nothing after it. *)
Definition is_png (bytes : list N) : Prop :=
  ∃ w h depth color interlace body,
    good_header w h depth color interlace ∧
    Forall (λ c, good_chunk c ∧ ck_kind c ≠ IHDR ∧ ck_kind c ≠ IEND) body ∧
    Exists (λ c, ck_kind c = IDAT ∧ ck_payload c ≠ []) body ∧
    bytes = SIGNATURE ++ encode_chunk (Chunk IHDR (header_payload w h depth color interlace))
            ++ concat (encode_chunk <$> body) ++ encode_chunk (Chunk IEND []).

(** * The check of a captured image accepts exactly the PNG files within its limits. *)

(** * The checksum *)

Lemma crc_bit_shift x : crc_bit x = crc_shift x.
Proof.
  unfold crc_bit, crc_shift. change 1 with (N.ones 1) at 2. rewrite N.land_ones.
  change (2 ^ 1) with 2. rewrite <-N.bit0_mod. by destruct (N.testbit x 0); [|rewrite N.lxor_0_r].
Qed.

Lemma crc_shift_lxor a b : crc_shift (N.lxor a b) = N.lxor (crc_shift a) (crc_shift b).
Proof.
  unfold crc_shift. rewrite N.lxor_spec, N.shiftr_lxor. apply N.bits_inj. intros i.
  destruct (N.testbit a 0), (N.testbit b 0); cbn [xorb]; rewrite !N.lxor_spec;
    repeat destruct (N.testbit _ i); done.
Qed.

Lemma crc_shift_shiftl y k : crc_shift (N.shiftl y (N.succ k)) = N.shiftl y k.
Proof.
  unfold crc_shift. rewrite N.shiftl_spec_low by lia.
  by rewrite N.shiftr_shiftl_l by lia; replace (N.succ k - 1) with k by lia.
Qed.

Lemma iter_crc_lxor n a b :
  Nat.iter n crc_shift (N.lxor a b) = N.lxor (Nat.iter n crc_shift a) (Nat.iter n crc_shift b).
Proof. induction n as [|n IH]; [done|]. by rewrite !Nat.iter_succ, IH, crc_shift_lxor. Qed.

Lemma iter_crc_shiftl n y : Nat.iter n crc_shift (N.shiftl y (N.of_nat n)) = y.
Proof.
  induction n as [|n IH]; [apply N.shiftl_0_r|].
  rewrite Nat.iter_succ_r. by rewrite Nat2N.inj_succ, crc_shift_shiftl.
Qed.

Lemma iter_crc_bit n x : Nat.iter n crc_bit x = Nat.iter n crc_shift x.
Proof. induction n as [|n IH]; [done|]. by rewrite !Nat.iter_succ, IH, crc_bit_shift. Qed.

Lemma byte_split x : N.lxor (N.land x 255) (N.shiftl (N.shiftr x 8) 8) = x.
Proof.
  apply N.bits_inj. intros i. rewrite N.lxor_spec, N.land_spec. change 255 with (N.ones 8).
  destruct (N.lt_ge_cases i 8).
  - rewrite N.ones_spec_low, N.shiftl_spec_low by done. by destruct (N.testbit x i).
  - rewrite N.ones_spec_high, N.shiftl_spec_high' by done. rewrite N.shiftr_spec'.
    replace (i - 8 + 8) with i by lia. by destruct (N.testbit x i).
Qed.

(** A turn of the table-driven loop is eight turns of the bitwise one. *)
Lemma crc_byte_shift crc b : b < 256 → crc_byte crc b = Nat.iter 8 crc_shift (N.lxor crc b).
Proof.
  intros Hb. unfold crc_byte. set (x := N.lxor crc b).
  rewrite <-(byte_split x) at 2. rewrite iter_crc_lxor.
  change 8 with (N.of_nat 8) at 3. rewrite iter_crc_shiftl, N.lxor_comm. f_equal.
  - assert (Hi : (N.to_nat (N.land x 255) < 256)%nat).
    { change 255 with (N.ones 8). rewrite N.land_ones. pose proof (N.mod_lt x (2 ^ 8) ltac:(done)).
      change (2 ^ 8) with 256 in *. lia. }
    apply nth_lookup_Some. unfold CRC_TABLE. rewrite list_lookup_fmap, lookup_seq_lt by done.
    cbn [fmap option_fmap option_map Nat.add]. unfold crc_entry. by rewrite N2Nat.id, iter_crc_bit.
  - unfold x. rewrite N.shiftr_lxor. replace (N.shiftr b 8) with 0; [by rewrite N.lxor_0_r|].
    symmetry. rewrite N.shiftr_div_pow2. by apply N.div_small.
Qed.

Lemma crc32_is_reference bytes : Forall (λ b, b < 256) bytes → crc32 bytes = crc32_reference bytes.
Proof.
  intros Hb. unfold crc32, crc32_reference, not32. rewrite N.lxor_0_l. f_equal.
  generalize u32_max. induction Hb as [|b bytes Hb _ IH]; intros crc; [done|].
  cbn [fold_left]. by rewrite crc_byte_shift, IH.
Qed.

Lemma lxor_bound k a b : a < 2 ^ k → b < 2 ^ k → N.lxor a b < 2 ^ k.
Proof.
  intros Ha Hb. replace (N.lxor a b) with (N.lxor a b mod 2 ^ k); [by apply N.mod_lt, N.pow_nonzero|].
  rewrite <-N.land_ones. apply N.bits_inj. intros i. rewrite N.land_spec, N.lxor_spec.
  destruct (N.lt_ge_cases i k); [by rewrite N.ones_spec_low, andb_true_r by done|].
  rewrite N.ones_spec_high, andb_false_r by done.
  rewrite <-(N.mod_small a (2 ^ k)), <-(N.mod_small b (2 ^ k)) by done.
  by rewrite !N.mod_pow2_bits_high.
Qed.

Lemma crc_shift_bound x : x < 2 ^ 32 → crc_shift x < 2 ^ 32.
Proof.
  intros Hx. unfold crc_shift.
  assert (N.shiftr x 1 < 2 ^ 32) by (rewrite N.shiftr_div_pow2; apply N.Div0.div_lt_upper_bound; lia).
  destruct (N.testbit x 0); [by apply lxor_bound|done].
Qed.

Lemma crc32_reference_bound bytes : Forall (λ b, b < 256) bytes → crc32_reference bytes < 2 ^ 32.
Proof.
  intros Hb. unfold crc32_reference. apply lxor_bound; [|done].
  assert (Hs : u32_max < 2 ^ 32) by done. revert Hs. generalize u32_max.
  induction Hb as [|b bytes Hb _ IH]; intros crc Hc; [done|]. cbn [fold_left]. apply IH.
  do 8 (rewrite Nat.iter_succ; apply crc_shift_bound). apply lxor_bound; [done|].
  eapply N.lt_trans; [exact Hb|done].
Qed.

(** * Numbers *)

Lemma to_be_length k n : length (to_be k n) = k.
Proof. revert n. induction k as [|k IH]; intros n; [done|]. cbn. rewrite length_app, IH. cbn. lia. Qed.

Lemma to_be_bytes k n : Forall (λ b, b < 256) (to_be k n).
Proof.
  revert n. induction k as [|k IH]; intros n; [constructor|]. cbn. apply Forall_app. split; [done|].
  repeat constructor. by apply N.mod_lt.
Qed.

Lemma from_be_snoc l b : from_be (l ++ [b]) = from_be l * 256 + b.
Proof. unfold from_be. by rewrite fold_left_app. Qed.

Lemma from_to_be k n : n < 256 ^ N.of_nat k → from_be (to_be k n) = n.
Proof.
  revert n. induction k as [|k IH]; intros n Hn; [cbn in *; lia|].
  cbn [to_be]. rewrite from_be_snoc, IH.
  - rewrite (N.div_mod n 256) at 3 by done. lia.
  - rewrite Nat2N.inj_succ, N.pow_succ_r' in Hn. apply N.Div0.div_lt_upper_bound. lia.
Qed.

Lemma to_from_be l : Forall (λ b, b < 256) l → to_be (length l) (from_be l) = l.
Proof.
  induction l as [|b l IH] using rev_ind; intros Hl; [done|].
  apply Forall_app in Hl as [Hl Hb]. rewrite Forall_singleton in Hb.
  rewrite length_app, Nat.add_comm. cbn [length Nat.add to_be]. rewrite from_be_snoc.
  rewrite N.div_add_l, (N.div_small b 256 Hb), N.add_0_r, IH by done. do 2 f_equal.
  by rewrite N.add_comm, N.Div0.mod_add, N.mod_small.
Qed.

Lemma from_be_bound l : Forall (λ b, b < 256) l → from_be l < 256 ^ N.of_nat (length l).
Proof.
  induction l as [|b l IH] using rev_ind; intros Hl; [done|].
  apply Forall_app in Hl as [Hl Hb]. rewrite Forall_singleton in Hb. specialize (IH Hl).
  rewrite from_be_snoc, length_app, Nat.add_comm. cbn [length Nat.add].
  rewrite Nat2N.inj_succ, N.pow_succ_r'. lia.
Qed.

(** * Slices *)

Lemma range_shift o a b bytes : range (o + a) (o + b) bytes = range a b (drop (N.to_nat o) bytes).
Proof. unfold range. rewrite drop_drop. do 2 f_equal; lia. Qed.

Lemma range_mid a b pre mid post :
  length pre = N.to_nat a → (N.to_nat a + length mid)%nat = N.to_nat b →
  range a b (pre ++ mid ++ post) = mid.
Proof.
  intros Ha Hb. unfold range. rewrite drop_app_length' by done.
  apply take_app_length'. lia.
Qed.

Lemma range_bytes a b bytes : Forall (λ b, b < 256) bytes → Forall (λ b, b < 256) (range a b bytes).
Proof. intros H. by apply Forall_take, Forall_drop. Qed.

Lemma range_length a b bytes :
  a ≤ b → b ≤ N.of_nat (length bytes) → length (range a b bytes) = N.to_nat (b - a).
Proof. intros. unfold range. rewrite length_take, length_drop. lia. Qed.

(** A list cut into consecutive slices. *)
Lemma range_cut a b bytes :
  a ≤ b → drop (N.to_nat a) bytes = range a b bytes ++ drop (N.to_nat b) bytes.
Proof.
  intros. unfold range. rewrite <-(take_drop (N.to_nat (b - a)) (drop (N.to_nat a) bytes)) at 1.
  f_equal. rewrite drop_drop. f_equal. lia.
Qed.

(** * Chunks *)

Definition is_byte (b : N) : Prop := b < 256.

(** One turn of the loop on a chunk that is framed correctly: [at_end] says whether
    the file ends with it, [next] where the next chunk starts. *)
Definition chunk_step (c : chunk) (at_end : bool) (next : N) (header data : bool) :
    result string (N * bool * bool + unit) :=
  let length := N.of_nat (length (ck_payload c)) in
  _ ← (if negb header then
         _ ← reject_if (negb (bool_decide (ck_kind c = IHDR)) || negb (length =? 13)
                        || bool_decide (range 0 4 (ck_payload c) = [0; 0; 0; 0])
                        || bool_decide (range 4 8 (ck_payload c) = [0; 0; 0; 0])) invalid_png;
         reject_if (negb (supported_header (ck_payload c))) unsupported_png
       else reject_if (bool_decide (ck_kind c = IHDR)) invalid_png);
  let data := data || (bool_decide (ck_kind c = IDAT) && (0 <? length)) in
  if bool_decide (ck_kind c = IEND) then
    if (length =? 0) && data && at_end then Ok (inr tt) else Err invalid_png
  else Ok (inl (next, true, data)).

Lemma encode_chunk_length c :
  good_chunk c → N.of_nat (length (encode_chunk c)) = 12 + N.of_nat (length (ck_payload c)).
Proof. intros [Hk _]. unfold encode_chunk. rewrite !length_app, !to_be_length, Hk. lia. Qed.

Section chunks.
Context (bytes : list N) (Hbytes : Forall is_byte bytes) (Hsize : N.of_nat (length bytes) ≤ u64_max).

Lemma drop_length o l : drop (N.to_nat o) bytes = l → o ≤ N.of_nat (length bytes) →
  N.of_nat (length bytes) = o + N.of_nat (length l).
Proof. intros <- Ho. rewrite length_drop. lia. Qed.

Lemma png_chunk_encoded o c rest header data :
  o ≤ N.of_nat (length bytes) → good_chunk c →
  drop (N.to_nat o) bytes = encode_chunk c ++ rest →
  png_chunk bytes o header data =
    chunk_step c (is_nil rest) (o + N.of_nat (length (encode_chunk c))) header data.
Proof.
  intros Ho Hc Hd. pose proof (drop_length o _ Hd Ho) as Hlen. rewrite length_app in Hlen.
  pose proof (encode_chunk_length c Hc) as He. destruct Hc as [Hk Hl].
  set (n := N.of_nat (length (ck_payload c))) in *.
  set (crc := crc32_reference (ck_kind c ++ ck_payload c)).
  assert (Hd' : drop (N.to_nat o) bytes = to_be 4 n ++ ck_kind c ++ ck_payload c ++ to_be 4 crc ++ rest).
  { rewrite Hd. unfold encode_chunk. by rewrite <-!(assoc (++)). }
  assert (Hb : Forall is_byte (ck_kind c ++ ck_payload c)).
  { eapply (Forall_drop _ (N.to_nat o)) in Hbytes. rewrite Hd' in Hbytes.
    repeat (apply Forall_app in Hbytes as [? Hbytes]). by apply Forall_app. }
  assert (R1 : range o (o + 4) bytes = to_be 4 n).
  { rewrite <-(N.add_0_r o) at 1. rewrite range_shift, Hd'. by apply (range_mid 0 4 []). }
  assert (R2 : range (o + 4) (o + 8) bytes = ck_kind c).
  { rewrite range_shift, Hd'. apply range_mid; [by rewrite to_be_length|]. rewrite Hk. done. }
  assert (R3 : range (o + 8) (o + (8 + n)) bytes = ck_payload c).
  { rewrite range_shift, Hd', (assoc (++)). apply range_mid; rewrite ?length_app, ?to_be_length, ?Hk; lia. }
  assert (R4 : range (o + (8 + n)) (o + (12 + n)) bytes = to_be 4 crc).
  { rewrite range_shift, Hd', (assoc (++)), (assoc (++)).
    apply range_mid; rewrite ?length_app, ?to_be_length, ?Hk; lia. }
  assert (R5 : range (o + 4) (o + (8 + n)) bytes = ck_kind c ++ ck_payload c).
  { rewrite range_shift, Hd', (assoc (++) (ck_kind c)).
    apply range_mid; rewrite ?length_app, ?to_be_length, ?Hk; lia. }
  unfold png_chunk, chunk_step. fold n. rewrite R1, from_to_be by (change (256 ^ _) with (2 ^ 32); unfold u32_max in *; lia).
  rewrite (proj2 (checked_add_Some o 12 (o + 12))) by lia.
  cbn [mbind option_bind]. rewrite (proj2 (checked_add_Some (o + 12) n (o + 12 + n))) by lia.
  cbn [ok_or]. change (Ok ?x ≫= ?k) with (k x). cbv beta.
  rewrite reject_if_pass by (apply N.ltb_ge; lia).
  replace (o + 12 + n) with (o + (12 + n)) by lia. replace (o + (12 + n) - 4) with (o + (8 + n)) by lia.
  rewrite R2, R3, R4, R5, crc32_is_reference by done. fold crc.
  rewrite from_to_be by (by apply crc32_reference_bound).
  rewrite reject_if_pass by (by rewrite N.eqb_refl). rewrite He.
  replace (o + (12 + n) =? N.of_nat (length bytes)) with (is_nil rest); [done|].
  destruct rest as [|? rest]; cbn [length is_nil] in *; [by rewrite (proj2 (N.eqb_eq _ _)) by lia|].
  symmetry. apply N.eqb_neq. lia.
Qed.

Lemma png_chunk_framed o header data r :
  o + 12 ≤ N.of_nat (length bytes) → png_chunk bytes o header data = Ok r →
  ∃ c rest, good_chunk c ∧ drop (N.to_nat o) bytes = encode_chunk c ++ rest.
Proof.
  intros Ho H. unfold png_chunk in H. set (n := from_be (range o (o + 4) bytes)) in H.
  apply bind_Ok in H as (end_ & E1 & H). apply ok_or_Ok in E1.
  apply bind_Ok in H as (u & E2 & H). apply reject_if_Ok in E2.
  apply bind_Ok in H as (u' & E3 & _). apply reject_if_Ok in E3. breflect.
  apply bind_Some in E1 as (? & [-> ?]%checked_add_Some & [-> ?]%checked_add_Some).
  replace (o + 12 + n - 4) with (o + (8 + n)) in E3 by lia.
  pose proof (λ a b, range_bytes a b bytes Hbytes) as Hr.
  assert (Hn : n ≤ u32_max).
  { unfold n. pose proof (from_be_bound _ (Hr o (o + 4))) as Hf. rewrite range_length in Hf by lia.
    replace (N.to_nat (o + 4 - o)) with 4%nat in Hf by lia. change (256 ^ _) with (2 ^ 32) in Hf. unfold u32_max. lia. }
  set (c := Chunk (range (o + 4) (o + 8) bytes) (range (o + 8) (o + (8 + n)) bytes)).
  assert (Hp : N.of_nat (length (ck_payload c)) = n) by (cbn; rewrite range_length by lia; lia).
  assert (Hkp : ck_kind c ++ ck_payload c = range (o + 4) (o + (8 + n)) bytes).
  { cbn. apply (app_inv_tail (drop (N.to_nat (o + (8 + n))) bytes)).
    rewrite <-(assoc (++)), <-!range_cut by lia. done. }
  exists c, (drop (N.to_nat (o + 12 + n)) bytes). split; [split; [cbn; rewrite range_length; lia|lia]|].
  unfold encode_chunk. rewrite Hp. rewrite <-!(assoc (++)), (range_cut o (o + 4)) by lia. f_equal.
  { rewrite <-(to_from_be (range o (o + 4) bytes)) by apply Hr.
    rewrite range_length by lia. by replace (N.to_nat (o + 4 - o)) with 4%nat by lia. }
  rewrite (assoc (++)), Hkp, (range_cut (o + 4) (o + (8 + n))) by lia. f_equal.
  rewrite <-crc32_is_reference, E3 by apply Hr.
  rewrite (range_cut (o + (8 + n)) (o + 12 + n)) by lia. f_equal.
  rewrite <-(to_from_be (range _ _ bytes)) at 1 by apply Hr.
  rewrite range_length by lia. by replace (N.to_nat (o + 12 + n - (o + (8 + n)))) with 4%nat by lia.
Qed.

(** What follows the header. *)
Definition png_tail (data : bool) (l : list N) : Prop :=
  ∃ body,
    Forall (λ c, good_chunk c ∧ ck_kind c ≠ IHDR ∧ ck_kind c ≠ IEND) body ∧
    (data = true ∨ Exists (λ c, ck_kind c = IDAT ∧ ck_payload c ≠ []) body) ∧
    l = concat (encode_chunk <$> body) ++ encode_chunk (Chunk IEND []).

Lemma end_chunk_good : good_chunk (Chunk IEND []).
Proof. by split. Qed.

Lemma png_tail_chunk data l :
  png_tail data l ↔ ∃ c rest, good_chunk c ∧ l = encode_chunk c ++ rest ∧ ck_kind c ≠ IHDR ∧
    if bool_decide (ck_kind c = IEND) then ck_payload c = [] ∧ data = true ∧ rest = []
    else png_tail (data || bool_decide (ck_kind c = IDAT) && (0 <? N.of_nat (length (ck_payload c)))) rest.
Proof.
  assert (Hd : ∀ c, bool_decide (ck_kind c = IDAT) && (0 <? N.of_nat (length (ck_payload c))) = true ↔
                     ck_kind c = IDAT ∧ ck_payload c ≠ []).
  { intros c. rewrite andb_true_iff, bool_decide_eq_true, N.ltb_lt. destruct (ck_payload c); cbn; naive_solver lia. }
  split.
  - intros (body & Hf & He & ->). destruct body as [|c body].
    + exists (Chunk IEND []), []. split_and!; [apply end_chunk_good|by rewrite app_nil_r|done|].
      cbn. split_and!; [done| |done]. destruct He as [?|He]; [done|inversion He].
    + apply Forall_cons in Hf as [(Hg & Hh & Hi) Hf]. exists c, (concat (encode_chunk <$> body) ++ encode_chunk (Chunk IEND [])).
      split_and!; [done|by rewrite fmap_cons; cbn [concat]; rewrite <-(assoc (++))|done|]. rewrite bool_decide_false by done.
      exists body. split_and!; [done| |done]. rewrite orb_true_iff, Hd, Exists_cons in *. tauto.
  - intros (c & rest & Hg & -> & Hh & Hc). case_bool_decide as Hi.
    + destruct Hc as (Hp & -> & ->). exists []. split_and!; [done|by left|].
      destruct c as [k p]. cbn in *. subst. by rewrite app_nil_r.
    + destruct Hc as (body & Hf & He & ->). exists (c :: body). split_and!; [by constructor| |by rewrite fmap_cons; cbn [concat]; rewrite <-(assoc (++))].
      rewrite orb_true_iff, Hd, Exists_cons in *. tauto.
Qed.

Lemma png_turn fuel o header data :
  o ≤ N.of_nat (length bytes) →
  png_chunks (S fuel) bytes o header data = Ok tt ↔
  ∃ c rest next, good_chunk c ∧ drop (N.to_nat o) bytes = encode_chunk c ++ rest ∧
    chunk_step c (is_nil rest) (o + N.of_nat (length (encode_chunk c))) header data = Ok next ∧
    match next with
    | inl (o', header, data) => png_chunks fuel bytes o' header data = Ok tt
    | inr _ => True
    end.
Proof.
  intros Ho. cbn [png_chunks].
  assert (Hg : match checked_add o 12 with Some n => n <=? N.of_nat (length bytes) | None => false end = true ↔
               o + 12 ≤ N.of_nat (length bytes)).
  { unfold checked_add. destruct (N.leb_spec (o + 12) u64_max); [apply N.leb_le|]. split; [done|lia]. }
  destruct (match checked_add o 12 with Some _ => _ | None => _ end).
  - assert (Hlt : o + 12 ≤ N.of_nat (length bytes)) by by apply Hg. split.
    + intros (next & Hn & Hr)%bind_Ok. destruct (png_chunk_framed o _ _ _ Hlt Hn) as (c & rest & Hc & Hd).
      rewrite (png_chunk_encoded o c rest) in Hn by done. exists c, rest, next. split_and!; try done.
      by destruct next as [[[??]?]|].
    + intros (c & rest & next & Hc & Hd & Hs & Hr). rewrite (png_chunk_encoded o c rest) by done.
      rewrite Hs. by destruct next as [[[??]?]|[]].
  - split; [done|]. intros (c & rest & _ & Hc & Hd & _). exfalso. apply diff_false_true, Hg.
    apply drop_length in Hd; [|done]. rewrite length_app in Hd. pose proof (encode_chunk_length c Hc). lia.
Qed.

Lemma drop_chunk o c rest :
  o ≤ N.of_nat (length bytes) → drop (N.to_nat o) bytes = encode_chunk c ++ rest →
  o + N.of_nat (length (encode_chunk c)) ≤ N.of_nat (length bytes) ∧
  drop (N.to_nat (o + N.of_nat (length (encode_chunk c)))) bytes = rest.
Proof.
  intros Ho Hd. pose proof (drop_length o _ Hd Ho) as Hl. rewrite length_app in Hl. split; [lia|].
  rewrite N2Nat.inj_add, <-drop_drop, Hd, Nat2N.id. by apply drop_app_length.
Qed.

Lemma png_chunks_tail fuel o data :
  o ≤ N.of_nat (length bytes) → (length (drop (N.to_nat o) bytes) < fuel)%nat →
  png_chunks fuel bytes o true data = Ok tt ↔ png_tail data (drop (N.to_nat o) bytes).
Proof.
  revert o data. induction fuel as [|fuel IH]; intros o data Ho Hf; [lia|].
  rewrite png_turn, png_tail_chunk by done.
  split; [intros (c & rest & next & Hc & Hd & Hs & Hr)|intros (c & rest & Hc & Hd & Hi & Hr)];
    destruct (drop_chunk o c rest Ho Hd) as [Ho' Hd']; pose proof (encode_chunk_length c Hc) as Hl;
    assert (Hfuel : (length rest < fuel)%nat) by (rewrite Hd, length_app in Hf; lia).
  - exists c, rest. split_and!; [done..| |];
      unfold chunk_step in Hs; cbn [negb] in Hs; unbind Hs; breflect; [done|].
    case_bool_decide as Hk.
    + destruct (_ && _ && _) eqn:E2; [|done]. breflect. split_and!.
      * destruct (ck_payload c); [done|cbn in *; lia].
      * rewrite Hk in *. by destruct data.
      * by destruct rest.
    + injection Hs as <-. rewrite <-Hd'. apply IH; [done| |done]. by rewrite Hd'.
  - exists c, rest. unfold chunk_step. cbn [negb]. rewrite (bool_decide_false (ck_kind c = IHDR)) by done.
    cbn [reject_if]. change (Ok tt ≫= ?k) with (k tt). cbv beta. case_bool_decide as Hk.
    + destruct Hr as (-> & -> & ->). eexists. split_and!; [done..|].  done.
    + eexists. split_and!; [done..|]. cbn beta iota. apply IH; [done|by rewrite Hd'|by rewrite Hd'].
Qed.
End chunks.

(** * The header *)

Lemma valid_depth_spec color depth :
  valid_depth color depth = true ↔ ∃ depths, (color, depths) ∈ color_depths ∧ depth ∈ depths.
Proof.
  unfold valid_depth. split.
  - repeat case_bool_decide; intros Hd; try done; eexists; (split; [|eassumption]); unfold color_depths;
      subst; try set_solver.
  - intros (depths & Hc & Hd). unfold color_depths in Hc.
    repeat (apply elem_of_cons in Hc as [Hc|Hc]; [injection Hc as -> ->;
      repeat (apply elem_of_cons in Hd as [->|Hd]; [reflexivity|]); by apply elem_of_nil in Hd|]).
    by apply elem_of_nil in Hc.
Qed.

Lemma from_be_zero l : Forall is_byte l → length l = 4%nat → 0 < from_be l ↔ l ≠ [0; 0; 0; 0].
Proof.
  intros Hb Hl. split; [by intros H ->|]. intros Hn. apply N.neq_0_lt_0. intros H0. apply Hn.
  rewrite <-(to_from_be l Hb), Hl, H0. done.
Qed.

Lemma header_accepted payload :
  Forall is_byte payload → length payload = 13%nat →
  range 0 4 payload ≠ [0; 0; 0; 0] ∧ range 4 8 payload ≠ [0; 0; 0; 0] ∧ supported_header payload = true ↔
  ∃ w h depth color interlace, good_header w h depth color interlace ∧
    payload = header_payload w h depth color interlace.
Proof.
  intros Hb Hl. pose proof (λ a b, range_bytes a b payload Hb) as Hr.
  set (w := from_be (range 0 4 payload)). set (h := from_be (range 4 8 payload)).
  assert (Hw : to_be 4 w = range 0 4 payload).
  { rewrite <-(to_from_be (range 0 4 payload)) by apply Hr. rewrite range_length; rewrite ?Hl; done. }
  assert (Hh : to_be 4 h = range 4 8 payload).
  { rewrite <-(to_from_be (range 4 8 payload)) by apply Hr. rewrite range_length; rewrite ?Hl; done. }
  rewrite <-!from_be_zero by (apply Hr || (rewrite range_length; rewrite ?Hl; done)). fold w h.
  split.
  - intros (Hw0 & Hh0 & Hs). unfold supported_header in Hs. fold w h in Hs. breflect.
    exists w, h, (byte_at 8 payload), (byte_at 9 payload), (byte_at 12 payload). split.
    + split; [lia|lia|lia|by apply valid_depth_spec|lia].
    + unfold header_payload. rewrite Hw, Hh. destruct payload as [|? [|? [|? [|? [|? [|? [|? [|? [|? [|? [|? [|? [|? [|??]]]]]]]]]]]]]];
        try discriminate Hl. cbn in *. by subst.
  - intros (w' & h' & depth & color & interlace & [Gw Gh Gp Gd Gi] & Hp).
    assert (Ew : w = w').
    { unfold w. rewrite Hp. change (header_payload ?w ?h ?d ?c ?i) with ([] ++ to_be 4 w ++ to_be 4 h ++ [d; c; 0; 0; i]).
      rewrite range_mid by (by rewrite ?to_be_length). apply from_to_be. change (256 ^ _) with (2 ^ 32). lia. }
    assert (Eh : h = h').
    { unfold h. rewrite Hp. unfold header_payload. rewrite range_mid by (by rewrite ?to_be_length).
      apply from_to_be. change (256 ^ _) with (2 ^ 32). lia. }
    split_and!; [lia..|]. unfold supported_header. fold w h. rewrite Ew, Eh. apply valid_depth_spec in Gd.
    assert (byte_at 8 payload = depth ∧ byte_at 9 payload = color ∧ byte_at 10 payload = 0 ∧
            byte_at 11 payload = 0 ∧ byte_at 12 payload = interlace) as (-> & -> & -> & -> & ->) by by rewrite Hp.
    rewrite Gd. repeat rewrite (proj2 (N.ltb_ge _ _)) by lia. done.
Qed.

Lemma chunk_step_header c at_end next r :
  Forall is_byte (ck_payload c) →
  chunk_step c at_end next false false = Ok r ↔
  ck_kind c = IHDR ∧ r = inl (next, true, false) ∧
  ∃ w h depth color interlace, good_header w h depth color interlace ∧
    ck_payload c = header_payload w h depth color interlace.
Proof.
  intros Hb. unfold chunk_step. cbn [negb].
  assert (Hl : ∀ w h depth color interlace, length (header_payload w h depth color interlace) = 13%nat).
  { intros. unfold header_payload. by rewrite !length_app, !to_be_length. }
  split.
  - intros H. apply bind_Ok in H as (u & H & Hr). apply bind_Ok in H as (u' & E & E2).
    apply reject_if_Ok in E, E2. breflect.
    match goal with H : ck_kind c = IHDR |- _ => rewrite H in Hr |- * end. cbn in Hr.
    split_and!; [done|by injection Hr|]. apply header_accepted; [done|lia|done].
  - intros (Hk & -> & (w & h & d & co & i & Hg & Hp)).
    assert (Hn : length (ck_payload c) = 13%nat) by (rewrite Hp; apply Hl).
    destruct (proj2 (header_accepted _ Hb Hn)) as (H1 & H2 & H3); [eauto 8|].
    rewrite Hk, Hn, H3. rewrite !(bool_decide_false _ H1), !(bool_decide_false _ H2). done.
Qed.

Lemma codes_bytes s : Forall is_byte (codes s).
Proof.
  unfold codes. apply Forall_fmap, Forall_true. intros a. unfold is_byte, compose, code. by apply N_ascii_bounded.
Qed.

Lemma codes_length s : length (codes s) = String.length s.
Proof. unfold codes. rewrite length_fmap. induction s; cbn; auto. Qed.

(** [validate_png] accepts exactly the PNG files. *)
Lemma validate_png_spec s :
  len s ≤ u64_max → validate_png s = Ok tt ↔ is_png (codes s).
Proof.
  intros Hs. unfold validate_png. pose proof (codes_bytes s) as Hb.
  assert (Hlen : N.of_nat (length (codes s)) ≤ u64_max) by by rewrite codes_length.
  generalize dependent (codes s). clear s Hs. intros bytes Hb Hlen.
  assert (Hcut : is_png bytes ↔ is_png (take 8 bytes ++ drop 8 bytes)) by by rewrite take_drop.
  rewrite Hcut. case_bool_decide as Hsig; cbn [negb].
  - assert (H8 : 8 ≤ N.of_nat (length bytes)).
    { apply (f_equal length) in Hsig. rewrite length_take in Hsig. cbn [SIGNATURE length] in Hsig. lia. }
    rewrite Hsig.
    rewrite png_turn by done. change (N.to_nat 8) with 8%nat. split.
    + intros (c & rest & next & Hc & Hd & Hst & Hr).
      destruct (drop_chunk bytes Hlen 8 c rest H8 Hd) as [Ho Hd'].
      assert (Forall is_byte (ck_payload c)) as Hcb.
      { eapply (Forall_drop _ 8) in Hb. rewrite Hd in Hb. apply Forall_app in Hb as [Hb _].
        unfold encode_chunk in Hb. rewrite !Forall_app in Hb. tauto. }
      apply chunk_step_header in Hst as (Hk & -> & w & h & d & co & i & Hg & Hp); [|done].
      apply png_chunks_tail in Hr; [|done|done|done|rewrite length_drop; lia].
      rewrite Hd' in Hr. destruct Hr as (body & Hbody & [?|Hex] & ->); [done|].
      exists w, h, d, co, i, body. split_and!; [done..|]. rewrite Hd. destruct c as [k p]; cbn in Hk, Hp. by subst.
    + intros (w & h & d & co & i & body & Hg & Hbody & Hex & Heq). apply app_inv_head in Heq.
      set (c := Chunk IHDR (header_payload w h d co i)) in *.
      assert (Hc : good_chunk c).
      { split; [done|]. unfold c, header_payload; cbn [ck_payload]. rewrite !length_app, !to_be_length. done. }
      exists c, (concat (encode_chunk <$> body) ++ encode_chunk (Chunk IEND [])). eexists.
      destruct (drop_chunk bytes Hlen 8 c _ H8 Heq) as [Ho Hd'].
      split_and!; [done|done| |].
      * apply chunk_step_header; [|split_and!; [done..|eauto 8]].
        eapply (Forall_drop _ 8) in Hb. rewrite Heq in Hb. apply Forall_app in Hb as [Hb _].
        unfold encode_chunk in Hb. rewrite !Forall_app in Hb. tauto.
      * cbn beta iota. apply png_chunks_tail; [done|done|done|rewrite length_drop; lia|].
        rewrite Hd'. exists body. split_and!; [done|by right|done].
  - split; [done|]. intros (w & h & d & co & i & body & _ & _ & _ & Heq). destruct Hsig.
    rewrite take_drop in Heq. by rewrite Heq.
Qed.
