(* ===== verification/HostObservation.v ===== *)
(** Observing the desktop ([src/src/host_observation.rs]): the requests, the broker
    that lists and captures windows and displays, and the archive it answers with.

    The broker runs in the desktop session and asks the operating system through a
    backend; windows open, close and change owner at any time, so every call asks an
    environment indexed by the number of calls made. *)
From Stdlib Require Import Ascii SpecFloat.
From stdpp Require Import base option strings numbers list gmap pretty.
From S2P Require Import Prelude Effects RustStr Fs HostPng.

Local Open Scope N_scope.

Definition MAX_REQUEST : N := 4096.
Definition MAX_ARCHIVE : N := 64 * 1024 * 1024.
Definition MAX_MANIFEST : N := 1024 * 1024.
Definition MAX_IMAGES : nat := 32.
Definition OPERATION_TIMEOUT : N := 45 * 1000000000.

(** * Data *)

Inductive Target :=
| TDesktop
| TApplication (pid : N)
| TWindow (pid window_id : N).

#[export] Instance target_eq_dec : EqDecision Target.
Proof. solve_decision. Defined.

Inductive HostRequest := RList | RCapture (target : Target).

#[export] Instance host_request_eq_dec : EqDecision HostRequest.
Proof. solve_decision. Defined.

Definition validate_host_request (request : HostRequest) : result string unit :=
  let check pid window :=
    reject_if ((pid =? 0) || (2147483647 <? pid) || bool_decide (window = Some 0))
      "pid must be a positive signed 32-bit process ID; window_id must be nonzero" in
  match request with
  | RList | RCapture TDesktop => Ok tt
  | RCapture (TApplication pid) => check pid None
  | RCapture (TWindow pid window_id) => check pid (Some window_id)
  end.

Record Application := {
  ap_pid : N;
  ap_name : string;
  ap_bundle_id : option string;
  ap_hidden : bool;
}.

(** An [f64] is a [spec_float]: its [==] is [SFeqb], which no NaN satisfies and which
    does not tell the two zeros apart. *)
Record Bounds := { bo_x : spec_float; bo_y : spec_float; bo_width : spec_float; bo_height : spec_float }.

Definition bounds_eqb (a b : Bounds) : bool :=
  SFeqb (bo_x a) (bo_x b) && SFeqb (bo_y a) (bo_y b)
  && SFeqb (bo_width a) (bo_width b) && SFeqb (bo_height a) (bo_height b).

Record Window := {
  wn_window_id : N;
  wn_pid : N;
  wn_title : string;
  wn_on_screen : bool;
  wn_layer : Z;
  wn_bounds : Bounds;
  wn_capturable : bool;
}.

Record Display := { ds_display_id : N; ds_bounds : Bounds }.

Definition display_eqb (a b : Display) : bool :=
  (ds_display_id a =? ds_display_id b) && bounds_eqb (ds_bounds a) (ds_bounds b).

(** [==] on vectors of displays. *)
Fixpoint displays_eqb (l k : list Display) : bool :=
  match l, k with
  | [], [] => true
  | a :: l, b :: k => display_eqb a b && displays_eqb l k
  | _, _ => false
  end.

Record Inventory := {
  iv_applications : list Application;
  iv_windows : list Window;
  iv_displays : list Display;
}.

Record Image := {
  im_path : string;
  im_pid : option N;
  im_window_id : option N;
  im_display_id : option N;
}.

Record Manifest := {
  mf_schema_version : string;
  mf_observation_id : string;
  mf_captured_at : string;
  mf_status : string;
  mf_inventory : option Inventory;
  mf_images : list Image;
  mf_errors : list string;
}.

Inductive Capture :=
| CaptureWindow (pid window_id : N)
| CaptureDisplay (display_id : N) (bounds : Bounds).

(** * Selection *)

Definition window_capture (w : Window) : Capture := CaptureWindow (wn_pid w) (wn_window_id w).
Definition display_capture (d : Display) : Capture := CaptureDisplay (ds_display_id d) (ds_bounds d).

Definition select (inventory : Inventory) (target : Target) : result string (list Capture) :=
  selected ← match target with
    | TDesktop => Ok (display_capture <$> iv_displays inventory)
    | TApplication pid =>
        _ ← reject_if (negb (existsb (λ app, ap_pid app =? pid) (iv_applications inventory)))
              ("application PID " +:+ pretty pid +:+ " is no longer running; list again");
        Ok ((λ w, CaptureWindow pid (wn_window_id w)) <$>
              filter (λ w, is_true ((wn_pid w =? pid) && wn_capturable w)) (iv_windows inventory))
    | TWindow pid window_id =>
        window ← ok_or (List.find (λ w, wn_window_id w =? window_id) (iv_windows inventory))
                   "window is stale or unavailable; list again";
        _ ← reject_if (negb (wn_pid window =? pid)) "window owner changed; refusing capture; list again";
        _ ← reject_if (negb (wn_capturable window))
              "window is hidden, minimized, off-screen, on a nonzero layer, or not capturable; no desktop fallback";
        Ok [CaptureWindow pid window_id]
    end;
  _ ← reject_if (is_nil selected)
        "no capturable windows/displays; ensure the user is logged in, unlocked, and the app has visible windows";
  _ ← reject_if (Nat.ltb MAX_IMAGES (length selected))
        ("capture exceeds " +:+ pretty (N.of_nat MAX_IMAGES) +:+ " image limit; select individual windows instead");
  Ok selected.

(** [sort_by_key]: stable. *)
Fixpoint insert_by {A} (key : A → N) (x : A) (l : list A) : list A :=
  match l with
  | [] => [x]
  | y :: l => if key x <=? key y then x :: y :: l else y :: insert_by key x l
  end.
Definition sort_by_key {A} (key : A → N) (l : list A) : list A := foldr (insert_by key) [] l.

Definition check_display_topology (expected current : Inventory) : result string unit :=
  reject_if (negb (displays_eqb (sort_by_key ds_display_id (iv_displays current)) (iv_displays expected)))
    "display topology changed; list again".

Definition sort_inventory (inventory : Inventory) : Inventory :=
  {| iv_applications := sort_by_key ap_pid (iv_applications inventory);
     iv_windows := sort_by_key wn_window_id (iv_windows inventory);
     iv_displays := sort_by_key ds_display_id (iv_displays inventory) |}.

(** * The crates *)

(** An archive as the [zip] crate's reader presents it: its entries by index, and
    the lookup of a name. *)
Record zip_view := {
  zv_entries : list (result string zip_entry);
  zv_by_name : string → result string zip_entry;
}.

(** The [zip] crate's writer in memory and its reader. *)
Class ObservationZip := {
  oz : Type;
  oz_new : oz;
  oz_start_file : string → N → oz → result string oz;
  oz_write : string → oz → result string oz;
  oz_finish : oz → result string string;
  oz_open : string → result string zip_view;
  oz_read_error : string;
}.

(** The [serde_json] and [uuid] crates: [uuid_parse] is [Uuid::parse_str] followed by
    [to_string]. *)
Class HostCodec := {
  encode_manifest : Manifest → result string string;
  decode_manifest : string → result string Manifest;
  encode_host_request : HostRequest → result string string;
  decode_host_request : string → result string HostRequest;
  uuid_parse : string → result string string;
}.

(** Bounded, identity-only request shared by the host API and the broker. *)
Definition parse_request `{HostCodec} (bytes : string) : result string HostRequest :=
  _ ← reject_if (MAX_REQUEST <? len bytes) "host request exceeds 4096 bytes";
  request ← decode_host_request bytes;
  _ ← validate_host_request request;
  Ok request.

Definition valid_observation_id `{HostCodec} (value : string) : bool :=
  match strip_prefix "host-" value with
  | Some s => match uuid_parse s with
              | Ok id => bool_decide (value = "host-" +:+ id)
              | Err _ => false
              end
  | None => false
  end.

(** * The broker *)

(** What the next call would answer.  [hv_now] is the clock in nanoseconds. *)
Record HostEnv := {
  hv_now : N;
  hv_uuid : string;
  hv_timestamp : string;
  hv_inventory : result string Inventory;
  hv_capture : Capture → string → result string unit;
  hv_tempdir : result string string;
  hv_lstat : string → result string file_meta;
  hv_read : string → result string string;
}.

Inductive host_event :=
| Listed (inventory : Inventory)
| Captured (capture : Capture) (path : string)
| TempMade (path : string)
| TempRemoved (path : string).

(** The calls made so far, and what the broker did. *)
Record broker := Broker { bk_calls : nat; bk_log : list host_event }.

Definition deadline_exceeded : string := "host observation exceeded 45 second deadline".

(** [format!("image-{index:04}.png")]. *)
Definition image_name (index : nat) : string :=
  let digits := pretty (N.of_nat index) in
  "image-" +:+ repeat_byte "0" (4 - String.length digits) +:+ digits +:+ ".png".

Definition capture_image (path : string) (capture : Capture) : Image :=
  match capture with
  | CaptureWindow pid window_id =>
      {| im_path := path; im_pid := Some pid; im_window_id := Some window_id; im_display_id := None |}
  | CaptureDisplay display_id _ =>
      {| im_path := path; im_pid := None; im_window_id := None; im_display_id := Some display_id |}
  end.

Section broker.
Context `{ObservationZip, HostCodec} (env : nat → HostEnv).

Abbreviation host := (eff broker string).

Definition ask {A} (f : HostEnv → A) : host A := λ b,
  (Broker (S (bk_calls b)) (bk_log b), Ok (f (env (bk_calls b)))).
Definition note (e : host_event) : host unit := λ b, (Broker (bk_calls b) (bk_log b ++ [e]), Ok tt).

(** [backend.inventory] and [backend.capture]. *)
Definition backend_inventory : host Inventory :=
  r ← ask hv_inventory; inventory ← io_lift r; _ ← note (Listed inventory); mret inventory.
Definition backend_capture (capture : Capture) (path : string) : host unit :=
  _ ← note (Captured capture path); r ← ask (λ e, hv_capture e capture path); io_lift r.

Definition check_deadline (deadline : N) : host unit :=
  now ← ask hv_now; io_reject (deadline <=? now) deadline_exceeded.

(** [Manifest::new] and [Manifest::fail]. *)
Definition new_manifest : host Manifest :=
  uuid ← ask hv_uuid;
  captured_at ← ask hv_timestamp;
  mret {| mf_schema_version := "1"; mf_observation_id := "host-" +:+ uuid; mf_captured_at := captured_at;
          mf_status := "succeeded"; mf_inventory := None; mf_images := []; mf_errors := [] |}.
Definition fail (error : string) (m : Manifest) : Manifest :=
  {| mf_schema_version := mf_schema_version m; mf_observation_id := mf_observation_id m;
     mf_captured_at := mf_captured_at m; mf_status := "failed"; mf_inventory := mf_inventory m;
     mf_images := mf_images m; mf_errors := mf_errors m ++ [error] |}.

(** What the loop has captured: the images with their bytes, and their total size. *)
Record capturing := { cp_images : list Image; cp_bytes : list (string * string); cp_total : N }.

(** The check of owner and visibility right before a capture. *)
Definition recheck (inventory current : Inventory) (capture : Capture) : result string unit :=
  match capture with
  | CaptureWindow pid window_id => _ ← select current (TWindow pid window_id); Ok tt
  | CaptureDisplay _ _ => check_display_topology inventory current
  end.

Definition capture_one (inventory : Inventory) (directory : string) (deadline : N) (s : capturing)
    (item : nat * Capture) : host capturing :=
  let '(index, capture) := item in
  _ ← check_deadline deadline;
  let name := image_name index in
  let path := path_join directory name in
  current ← backend_inventory;
  _ ← io_lift (recheck inventory current capture);
  _ ← backend_capture capture path;
  _ ← match capture with
      | CaptureDisplay _ _ =>
          current ← backend_inventory; io_lift (check_display_topology inventory current)
      | CaptureWindow _ _ => mret tt
      end;
  _ ← check_deadline deadline;
  r ← ask (λ e, hv_lstat e path);
  metadata ← io_lift (map_err (λ e, "capture did not produce an image: " +:+ e) r);
  _ ← io_reject (negb (is_file metadata) || (MAX_ARCHIVE <? fm_len metadata))
        "capture is not a bounded regular PNG";
  r ← ask (λ e, hv_read e path);
  bytes ← io_lift r;
  _ ← io_lift (validate_png bytes);
  let total := cp_total s + len bytes in
  _ ← io_reject (MAX_ARCHIVE - MAX_MANIFEST <? total) "capture images exceed 63 MiB transfer budget";
  mret {| cp_images := cp_images s ++ [capture_image name capture];
          cp_bytes := cp_bytes s ++ [(name, bytes)]; cp_total := total |}.

(** Runs a computation with a private temporary directory, removed at the end. *)
Definition with_private_temp {A} (f : string → host A) : host A :=
  r ← ask hv_tempdir;
  directory ← io_lift r;
  _ ← note (TempMade directory);
  result ← io_try (f directory);
  _ ← note (TempRemoved directory);
  io_lift result.

Definition capture_target (inventory : Inventory) (deadline : N) (target : Target) : host capturing :=
  captures ← io_lift (select inventory target);
  with_private_temp (λ directory,
    io_fold (capture_one inventory directory deadline) {| cp_images := []; cp_bytes := []; cp_total := 0 |}
      (zip (seq 0 (length captures)) captures)).

(** * The archive *)

Definition add_archive_file (z : oz) (file : string * string) : result string oz :=
  z ← oz_start_file file.1 384 z; oz_write file.2 z.

Definition encode_archive (manifest : Manifest) (images : list (string * string)) : result string string :=
  json ← encode_manifest manifest;
  _ ← reject_if (MAX_MANIFEST <? len json) "observation inventory exceeds 1 MiB manifest limit";
  z ← fold_each add_archive_file oz_new (("manifest.json", json) :: images);
  bytes ← oz_finish z;
  _ ← reject_if (MAX_ARCHIVE <? len bytes) "observation archive exceeds 64 MiB";
  Ok bytes.

Definition error_archive (error : string) : host string :=
  manifest ← new_manifest;
  io_lift (encode_archive (fail error manifest) []).

Definition with_inventory (inventory : Inventory) (images : list Image) (m : Manifest) : Manifest :=
  {| mf_schema_version := mf_schema_version m; mf_observation_id := mf_observation_id m;
     mf_captured_at := mf_captured_at m; mf_status := mf_status m; mf_inventory := Some inventory;
     mf_images := images; mf_errors := mf_errors m |}.

(** The closure of [build_observation], with the images it captured; a failure keeps
    the inventory that was listed and drops the images. *)
Definition observe_target (request : HostRequest) (deadline : N) (manifest : Manifest) :
    host (Manifest * list (string * string)) :=
  listed ← io_try backend_inventory;
  match listed with
  | Err error => mret (fail error manifest, [])
  | Ok inventory =>
      let inventory := sort_inventory inventory in
      match request with
      | RList => mret (with_inventory inventory [] manifest, [])
      | RCapture target =>
          captured ← io_try (capture_target inventory deadline target);
          match captured with
          | Err error => mret (fail error (with_inventory inventory [] manifest), [])
          | Ok s => mret (with_inventory inventory (cp_images s) manifest, cp_bytes s)
          end
      end
  end.

Definition build_observation (request : HostRequest) : host string :=
  _ ← io_lift (validate_host_request request);
  manifest ← new_manifest;
  now ← ask hv_now;
  '(manifest, images) ← observe_target request (now + OPERATION_TIMEOUT) manifest;
  io_lift (encode_archive manifest images).

(** The answer to one connection: [frame] is the request that was read, or why none
    could be. *)
Definition respond (frame : result string string) : host string :=
  response ← io_try (bytes ← io_lift frame;
                     request ← io_lift (decode_host_request bytes);
                     build_observation request);
  match response with
  | Ok bytes => mret bytes
  | Err error => error_archive error
  end.

(** ** Reading it back *)

(** [entry.take(limit).read_to_end]. *)
Fixpoint read_up_to (limit : N) (reads : list (result unit string)) : result string string :=
  match reads with
  | [] => Ok ""
  | Err _ :: _ => if limit =? 0 then Ok "" else Err oz_read_error
  | Ok chunk :: reads =>
      if is_empty chunk then Ok ""
      else if limit <=? len chunk then Ok (String.substring 0 (N.to_nat limit) chunk)
      else rest ← read_up_to (limit - len chunk) reads; Ok (chunk +:+ rest)
  end.

(** The entries: distinct names, regular files, bounded sizes. *)
Definition check_entry (names : gset string) (entry : result string zip_entry) : result string (gset string) :=
  entry ← entry;
  _ ← reject_if (bool_decide (ze_name entry ∈ names) || ze_is_dir entry || ze_is_symlink entry
                 || (MAX_ARCHIVE <? ze_size entry))
        "observation archive has duplicate, special, or oversized entries";
  _ ← match ze_unix_mode entry with
      | Some mode =>
          reject_if (negb (N.land mode o170000 =? 0) && negb (N.land mode o170000 =? o100000))
            "observation archive contains a non-regular entry"
      | None => Ok tt
      end;
  Ok ({[ze_name entry]} ∪ names).

Definition check_manifest (manifest : Manifest) : result string unit :=
  id ← ok_or (strip_prefix "host-" (mf_observation_id manifest)) "invalid observation ID";
  parsed ← uuid_parse id;
  _ ← reject_if (negb (bool_decide (parsed = id)) || negb (bool_decide (mf_schema_version manifest = "1"))
                 || negb (bool_decide (mf_status manifest ∈ ["succeeded"; "failed"])))
        "invalid observation manifest identity/status";
  reject_if ((bool_decide (mf_status manifest = "failed")
              && (is_nil (mf_errors manifest) || negb (is_nil (mf_images manifest))))
             || (bool_decide (mf_status manifest = "succeeded") && negb (is_nil (mf_errors manifest))))
    "inconsistent observation manifest status".

Definition read_image (view : zip_view) (s : list string * N) (item : nat * Image) :
    result string (list string * N) :=
  let '(images, total) := s in
  let '(index, image) := item in
  _ ← reject_if (negb (bool_decide (im_path image = image_name index))) "invalid observation image path";
  entry ← zv_by_name view (im_path image);
  bytes ← read_up_to (MAX_ARCHIVE - total + 1) (ze_reads entry);
  let total := total + len bytes in
  _ ← reject_if (MAX_ARCHIVE - MAX_MANIFEST <? total) "decoded images exceed transfer budget";
  _ ← validate_png bytes;
  Ok (images ++ [bytes], total).

Definition decode_archive (bytes : string) : result string (Manifest * list string) :=
  _ ← reject_if (MAX_ARCHIVE <? len bytes) "observation archive exceeds 64 MiB";
  view ← oz_open bytes;
  let count := length (zv_entries view) in
  _ ← reject_if ((count =? 0)%nat || (MAX_IMAGES + 1 <? count)%nat) "invalid observation archive file count";
  _ ← fold_each check_entry ∅ (zv_entries view);
  entry ← zv_by_name view "manifest.json";
  json ← read_up_to (MAX_MANIFEST + 1) (ze_reads entry);
  _ ← reject_if (MAX_MANIFEST <? len json) "manifest exceeds 1 MiB";
  manifest ← decode_manifest json;
  _ ← check_manifest manifest;
  _ ← reject_if (negb (count =? length (mf_images manifest) + 1)%nat) "archive does not match manifest";
  '(images, _) ← fold_each (read_image view) ([], 0)
                   (zip (seq 0 (length (mf_images manifest))) (mf_images manifest));
  Ok (manifest, images).
End broker.
