(* ===== verification/HostFacts.v ===== *)
(** What the broker's archive holds and that the daemon reads it back. *)
From Stdlib Require Import Ascii SpecFloat.
From stdpp Require Import base option strings numbers list gmap pretty sets.
From S2P Require Import Prelude Effects RustStr Fs HostPng HostObservation.

Local Open Scope N_scope.

(** * What the crates promise *)

(** A number that printing and parsing keep: an integer of at most 53 bits. *)
Definition exact_number (v : spec_float) : bool :=
  valid_binary 53 1024 v &&
  match v with
  | S754_zero _ => true
  | S754_finite _ m e =>
      if (e <? 0)%Z then (Zpos m mod 2 ^ (- e) =? 0)%Z && (Zpos m / 2 ^ (- e) <=? 2 ^ 53)%Z
      else (Zpos m * 2 ^ e <=? 2 ^ 53)%Z
  | _ => false
  end.
Definition exact_bounds (b : Bounds) : bool :=
  exact_number (bo_x b) && exact_number (bo_y b) && exact_number (bo_width b) && exact_number (bo_height b).
Definition exact_inventory (i : Inventory) : Prop :=
  Forall (λ w, exact_bounds (wn_bounds w) = true) (iv_windows i) ∧
  Forall (λ d, exact_bounds (ds_bounds d) = true) (iv_displays i).
Definition exact_manifest (m : Manifest) : Prop :=
  match mf_inventory m with Some i => exact_inventory i | None => True end.

(** The [serde_json] crate reads back the manifests and requests it wrote; a request
    is a short object. *)
Class HostCodecLaws `{HostCodec} : Prop := {
  manifest_round_trip m json : exact_manifest m → encode_manifest m = Ok json → decode_manifest json = Ok m;
  request_round_trip r json : encode_host_request r = Ok json → decode_host_request json = Ok r;
  request_size r json : encode_host_request r = Ok json → 0 < len json ≤ MAX_REQUEST;
}.

(** A file in an archive: its name, the permissions asked for, and its content. *)
Record member := Member { mb_name : string; mb_mode : N; mb_data : string }.

Fixpoint extend_last (data : string) (l : list member) : list member :=
  match l with
  | [] => []
  | [m] => [Member (mb_name m) (mb_mode m) (mb_data m +:+ data)]
  | m :: l => m :: extend_last data l
  end.

(** How the reader presents a file: names that end in [/] are directories, and the
    mode is that of a regular file. *)
Record presents (m : member) (e : zip_entry) : Prop := {
  pr_name : ze_name e = mb_name m;
  pr_dir : ze_is_dir e = ends_with "/" (mb_name m);
  pr_link : ze_is_symlink e = false;
  pr_mode : ze_unix_mode e = Some (N.lor o100000 (N.land (mb_mode m) o777));
  pr_size : ze_size e = len (mb_data m);
  pr_readable : readable (ze_reads e) = true;
  pr_content : content (ze_reads e) = mb_data m;
}.

(** The [zip] crate reads back what it wrote, when no name was used twice. *)
Class ObservationZipLaws `{ObservationZip} := {
  oz_members : oz → list member;
  oz_members_new : oz_members oz_new = [];
  oz_members_start name mode z z' :
    oz_start_file name mode z = Ok z' → oz_members z' = oz_members z ++ [Member name mode ""];
  oz_members_write data z z' :
    oz_write data z = Ok z' → oz_members z' = extend_last data (oz_members z);
  oz_nonempty z bytes : oz_finish z = Ok bytes → 0 < len bytes;
  oz_reads z bytes :
    oz_finish z = Ok bytes → NoDup (mb_name <$> oz_members z) →
    ∃ view es, oz_open bytes = Ok view ∧ zv_entries view = Ok <$> es ∧
      Forall2 presents (oz_members z) es ∧ (∀ e, e ∈ es → zv_by_name view (ze_name e) = Ok e);
}.

Lemma host_extend_last_app data l m :
  extend_last data (l ++ [m]) = l ++ [Member (mb_name m) (mb_mode m) (mb_data m +:+ data)].
Proof. induction l as [|x l IH]; [done|]. cbn. destruct (l ++ [m]) eqn:E; [by destruct l|]. by rewrite <-IH. Qed.

Lemma ok_bind {E A B} (a : A) (k : A → result E B) : (Ok a ≫= k) = k a.
Proof. done. Qed.

(** * Names *)

Lemma image_name_inj i j : image_name i = image_name j → (i < 33)%nat → (j < 33)%nat → i = j.
Proof.
  intros H Hi Hj. assert (Hall : Forall (λ k, Forall (λ l, image_name k = image_name l → k = l) (seq 0 33)) (seq 0 33)).
  { refine (bool_decide_unpack _ _). by vm_compute. }
  rewrite Forall_forall in Hall. specialize (Hall i ltac:(apply elem_of_seq; lia)).
  rewrite Forall_forall in Hall. apply Hall; [apply elem_of_seq; lia|done].
Qed.

Lemma image_name_plain i : (i < 33)%nat →
  image_name i ≠ "manifest.json" ∧ ends_with "/" (image_name i) = false.
Proof.
  intros Hi. assert (Hall : Forall (λ k, image_name k ≠ "manifest.json" ∧ ends_with "/" (image_name k) = false) (seq 0 33)).
  { refine (bool_decide_unpack _ _). by vm_compute. }
  rewrite Forall_forall in Hall. apply Hall, elem_of_seq. lia.
Qed.

(** The names of the files of an archive with [n] images. *)
Definition image_names (n : nat) : list string := image_name <$> seq 0 n.

Lemma image_names_NoDup n : (n ≤ 32)%nat → NoDup ("manifest.json" :: image_names n).
Proof.
  intros Hn. apply NoDup_cons. split.
  - intros (i & He & Hi%elem_of_seq)%list_elem_of_fmap. by destruct (image_name_plain i); [lia|].
  - apply NoDup_fmap_2_strong; [|apply NoDup_seq].
    intros i j Hi%elem_of_seq Hj%elem_of_seq He. apply image_name_inj; [done|lia..].
Qed.

(** * Writing and reading an archive *)

Section archive.
Context `{ObservationZip, HostCodec, !ObservationZipLaws, !HostCodecLaws}.

Lemma read_up_to_content limit reads :
  readable reads = true → len (content reads) < limit → read_up_to limit reads = Ok (content reads).
Proof.
  revert limit. induction reads as [|[chunk|e] reads IH]; intros limit; cbn [readable content read_up_to]; try done.
  destruct (is_empty chunk) eqn:He; cbn; [done|]. rewrite len_app. intros Hr Hl.
  destruct (N.leb_spec limit (len chunk)); [lia|]. rewrite IH by (done || lia). done.
Qed.

Lemma add_files files z z' :
  fold_each add_archive_file z files = Ok z' →
  oz_members z' = oz_members z ++ ((λ f, Member f.1 384 f.2) <$> files).
Proof.
  revert z. induction files as [|[name data] files IH]; intros z Hz.
  - injection Hz as <-. by rewrite app_nil_r.
  - rewrite fold_each_cons in Hz. apply bind_Ok in Hz as (z1 & Ha & Hz).
    unfold add_archive_file in Ha. apply bind_Ok in Ha as (z2 & Hs & Hw). cbn [fst snd] in *.
    rewrite (IH z1) by done. rewrite (oz_members_write _ _ _ Hw), (oz_members_start _ _ _ _ Hs), host_extend_last_app.
    by rewrite <-(assoc (++)).
Qed.

(** An observation that may be sent: its identity, a status that agrees with its
    errors, its images by name, and the limits. *)
Record good_observation (m : Manifest) (images : list (string * string)) : Prop := {
  go_id : ∃ u, mf_observation_id m = "host-" +:+ u ∧ uuid_parse u = Ok u;
  go_schema : mf_schema_version m = "1";
  go_status : (mf_status m = "failed" ∧ mf_errors m ≠ [] ∧ mf_images m = []) ∨
              (mf_status m = "succeeded" ∧ mf_errors m = []);
  go_paths : im_path <$> mf_images m = images.*1;
  go_names : images.*1 = image_names (length images);
  go_count : (length images ≤ MAX_IMAGES)%nat;
  go_png : Forall (λ f, validate_png f.2 = Ok tt) images;
  go_total : sum_of (λ f, len f.2) images ≤ MAX_ARCHIVE - MAX_MANIFEST;
  go_exact : exact_manifest m;
}.

Lemma good_manifest m images : good_observation m images → check_manifest m = Ok tt.
Proof.
  intros [(u & Hid & Hu) Hs Hst _ _ _ _ _ _]. unfold check_manifest. rewrite Hid.
  rewrite (proj2 (strip_prefix_Some _ _ u) eq_refl). cbn [ok_or]. rewrite ok_bind.
  rewrite Hu. rewrite ok_bind. rewrite Hs.
  rewrite (bool_decide_true (u = u)) by done.
  destruct Hst as [(-> & He & ->)|(-> & ->)]; [by destruct (mf_errors m)|done].
Qed.

(** An entry that may be in an archive. *)
Definition good_entry (e : zip_entry) : Prop :=
  ze_is_dir e = false ∧ ze_is_symlink e = false ∧ ze_size e ≤ MAX_ARCHIVE ∧
  ∃ p, ze_unix_mode e = Some (N.lor o100000 (N.land p o777)).

Lemma check_good_entry names e :
  good_entry e → ze_name e ∉ names → check_entry names (Ok e) = Ok ({[ze_name e]} ∪ names).
Proof.
  intros (Hdir & Hlink & Hsz & p & Hmode) Hn. unfold check_entry. rewrite ok_bind.
  rewrite (bool_decide_false _ Hn), Hdir, Hlink, Hmode, (proj2 (N.ltb_ge _ _) Hsz). cbn [orb].
  rewrite reject_if_pass by done. rewrite reject_if_pass; [done|].
  apply andb_false_iff. right. apply negb_false_iff, N.eqb_eq.
  rewrite N.land_lor_distr_l, <-N.land_assoc. change (N.land o777 o170000) with 0. by rewrite N.land_0_r.
Qed.

Lemma check_entries es names :
  Forall good_entry es → NoDup (ze_name <$> es) → (∀ e, e ∈ es → ze_name e ∉ names) →
  ∃ names', fold_each check_entry names (Ok <$> es) = Ok names'.
Proof.
  revert names. induction es as [|e es IH]; intros names Hf Hn Hd; [by eexists|].
  apply Forall_cons in Hf as [He Hf]. rewrite fmap_cons in Hn. apply NoDup_cons in Hn as [Hni Hn].
  rewrite fmap_cons, fold_each_cons, check_good_entry, ok_bind by (done || (apply Hd; by left)).
  apply IH; [done|done|]. intros e' He'. apply not_elem_of_union. split; [|apply Hd; by right].
  intros Heq%elem_of_singleton. apply Hni. apply list_elem_of_fmap. eauto.
Qed.

(** A file that the archive gives back. *)
Definition found (view : zip_view) (f : string * string) : Prop :=
  ∃ e, zv_by_name view f.1 = Ok e ∧ readable (ze_reads e) = true ∧ content (ze_reads e) = f.2.

Lemma read_good_image view dn total index image data :
  im_path image = image_name index → found view (image_name index, data) →
  validate_png data = Ok tt → total + len data ≤ MAX_ARCHIVE - MAX_MANIFEST →
  read_image view (dn, total) (index, image) = Ok (dn ++ [data], total + len data).
Proof.
  intros Hp (e & He & Hre & Hco) Hv Ht. cbn [fst snd] in *. unfold read_image.
  rewrite reject_if_pass by by rewrite bool_decide_true.
  rewrite Hp, He, ok_bind, read_up_to_content, Hco, ok_bind;
    [|done|rewrite Hco; unfold MAX_ARCHIVE, MAX_MANIFEST in *; lia].
  cbv zeta. rewrite reject_if_pass by (apply N.ltb_ge; lia). by rewrite Hv.
Qed.

Lemma read_images view files images k dn total :
  im_path <$> images = files.*1 → files.*1 = image_name <$> seq k (length files) →
  Forall (found view) files → Forall (λ f, validate_png f.2 = Ok tt) files →
  total + sum_of (λ f, len f.2) files ≤ MAX_ARCHIVE - MAX_MANIFEST →
  fold_each (read_image view) (dn, total) (zip (seq k (length images)) images) =
    Ok (dn ++ files.*2, total + sum_of (λ f, len f.2) files).
Proof.
  revert files k dn total. induction images as [|image images IH]; intros files k dn total Hp Hn Hr Hv Ht.
  - destruct files; [|done]. cbn [length seq zip zip_with fold_each sum_of fmap list_fmap].
    by rewrite app_nil_r, N.add_0_r.
  - destruct files as [|[name data] files]; [done|]. rewrite !fmap_cons in Hp. cbn [fst length seq] in *.
    injection Hp as Hp1 Hp. rewrite !fmap_cons in Hn. injection Hn as Hn1 Hn. rewrite Hn1 in *.
    apply Forall_cons in Hr as [Hf Hr]. apply Forall_cons in Hv as [Hv1 Hv]. cbn [fst snd sum_of] in *.
    cbn [zip zip_with]. rewrite fold_each_cons, (read_good_image view dn total k image data), ok_bind by (done || lia).
    rewrite (IH files) by (done || lia). rewrite fmap_cons, <-(assoc (++)). do 2 f_equal. lia.
Qed.

(** The files of an archive. *)
Definition files_of (json : string) (images : list (string * string)) : list (string * string) :=
  ("manifest.json", json) :: images.
Definition file_member (f : string * string) : member := Member f.1 384 f.2.

Lemma files_good json images :
  images.*1 = image_names (length images) → (length images ≤ MAX_IMAGES)%nat → len json ≤ MAX_MANIFEST →
  sum_of (λ f, len f.2) images ≤ MAX_ARCHIVE - MAX_MANIFEST →
  Forall (λ f, ends_with "/" f.1 = false ∧ len f.2 ≤ MAX_ARCHIVE) (files_of json images).
Proof.
  intros Hn Hc Hj Ht. constructor; [split; [done|]; cbn [snd]; unfold MAX_ARCHIVE, MAX_MANIFEST in *; lia|].
  apply Forall_forall. intros [name data] Hin. cbn [fst snd]. split.
  - assert (Hin' : name ∈ images.*1) by (apply list_elem_of_fmap; by exists (name, data)).
    rewrite Hn in Hin'. apply list_elem_of_fmap in Hin' as (i & -> & Hi%elem_of_seq).
    unfold MAX_IMAGES in Hc. destruct (image_name_plain i); [lia|done].
  - apply list_elem_of_lookup in Hin as [i Hi]. clear Hn Hc.
    assert (len data ≤ sum_of (λ f, len f.2) images); [|lia]. clear Ht. revert i Hi.
    induction images as [|f images IH]; intros [|i] Hi; try done; cbn [sum_of].
    + injection Hi as ->. cbn [snd]. lia.
    + specialize (IH i Hi). lia.
Qed.

Lemma entries_good files es :
  Forall2 presents (file_member <$> files) es →
  Forall (λ f, ends_with "/" f.1 = false ∧ len f.2 ≤ MAX_ARCHIVE) files → Forall good_entry es.
Proof.
  revert es. induction files as [|f files IH]; intros es Hp Hf; [by inversion Hp|].
  rewrite fmap_cons in Hp. apply Forall2_cons_inv_l in Hp as (e & es' & [] & Hp & ->).
  apply Forall_cons in Hf as [[Hd Hl] Hf]. constructor; [|by apply IH]. cbn in *.
  split_and!; [congruence|done|congruence|by eexists].
Qed.

Lemma presented_names ms es : Forall2 presents ms es → ze_name <$> es = mb_name <$> ms.
Proof. induction 1 as [|?? ?? []]; [done|]. rewrite !fmap_cons. by f_equal. Qed.

(** The daemon reads back the observation the broker wrote. *)
Lemma archive_decodes m images bytes :
  good_observation m images → encode_archive m images = Ok bytes → decode_archive bytes = Ok (m, images.*2).
Proof.
  intros Hgood He. pose proof (good_manifest _ _ Hgood) as Hm.
  destruct Hgood as [_ _ _ Hpa Hna Hcount Hpng Htot Hex].
  unfold encode_archive in He. apply bind_Ok in He as (json & Hj & He).
  apply bind_Ok in He as (? & Hjl & He). apply reject_if_Ok in Hjl.
  apply bind_Ok in He as (z & Hz & He). apply bind_Ok in He as (b & Hf & He).
  apply bind_Ok in He as (? & Hbl & He). apply reject_if_Ok in Hbl. injection He as <-. breflect.
  pose proof (add_files _ _ _ Hz) as Hmem. rewrite oz_members_new, app_nil_l in Hmem.
  change (oz_members z = file_member <$> files_of json images) in Hmem.
  assert (Hnames : mb_name <$> oz_members z = "manifest.json" :: image_names (length images)).
  { rewrite Hmem, <-list_fmap_compose. unfold files_of. rewrite fmap_cons, <-Hna. done. }
  assert (Hnd : NoDup (mb_name <$> oz_members z)) by (rewrite Hnames; by apply image_names_NoDup).
  destruct (oz_reads z b Hf Hnd) as (view & es & Hopen & Hes & Hpr & Hby).
  pose proof (presented_names _ _ Hpr) as Hen.
  assert (Hlen : length (zv_entries view) = S (length images)).
  { rewrite Hes, length_fmap, <-(length_fmap ze_name), Hen, Hnames. cbn. unfold image_names.
    by rewrite length_fmap, length_seq. }
  assert (Hfind : Forall (found view) (files_of json images)).
  { apply Forall_forall. intros f Hin. assert (Hin' : file_member f ∈ oz_members z).
    { rewrite Hmem. apply list_elem_of_fmap. eauto. }
    apply list_elem_of_lookup in Hin' as [i Hi].
    destruct (Forall2_lookup_l _ _ _ _ _ Hpr Hi) as (e & Hei & [Hn _ _ _ _ Hrd Hco]).
    exists e. cbn in Hn. rewrite <-Hn. split_and!; [|done|done]. apply Hby. by eapply list_elem_of_lookup_2. }
  apply Forall_cons in Hfind as [(e & Hby1 & Hrd & Hco) Hfind].
  destruct (check_entries es ∅) as [names Hck]; [|by rewrite Hen|set_solver|].
  { eapply entries_good; [by rewrite <-Hmem|]. by apply files_good. }
  assert (Hli : length (mf_images m) = length images) by (by rewrite <-(length_fmap im_path), Hpa, length_fmap).
  unfold decode_archive. rewrite reject_if_pass by by apply N.ltb_ge. rewrite Hopen, ok_bind. cbv zeta.
  rewrite reject_if_pass; [|rewrite Hlen; apply orb_false_iff; split; [done|apply Nat.ltb_ge; lia]].
  rewrite Hes, Hck, ok_bind. cbn [fst snd] in *. rewrite Hby1, ok_bind.
  rewrite read_up_to_content, Hco, ok_bind by (rewrite ?Hco; unfold MAX_MANIFEST in *; done || lia).
  rewrite reject_if_pass by by apply N.ltb_ge. rewrite (manifest_round_trip m json), ok_bind, Hm, ok_bind by done.
  rewrite <-Hes, reject_if_pass; [|rewrite Hlen, Hli; apply negb_false_iff, Nat.eqb_eq; lia].
  rewrite (read_images view images) by done. done.
Qed.
End archive.

(** * What the broker does for a request: it captures only what was selected and
    confirmed, and answers with a complete observation or a failure. *)

(** * The log *)

(** Every capture directly follows a listing that satisfies [P] with it. *)
Definition confirmed (P : Capture → Inventory → Prop) (log : list host_event) : Prop :=
  ∀ i c p, log !! i = Some (Captured c p) →
    ∃ j current, i = S j ∧ log !! j = Some (Listed current) ∧ P c current.

Definition is_capture (e : host_event) : bool := match e with Captured _ _ => true | _ => false end.

Lemma confirmed_snoc P log e : is_capture e = false → confirmed P log → confirmed P (log ++ [e]).
Proof.
  intros He Hc i c p Hi. apply lookup_app_Some in Hi as [Hi|[Hl Hi]].
  - destruct (Hc _ _ _ Hi) as (j & cur & -> & Hj & HP). exists j, cur. split_and!; [done| |done].
    by apply lookup_app_l_Some.
  - destruct (i - length log)%nat as [|k]; [by injection Hi as ->|by destruct k].
Qed.

Lemma confirmed_capture P log current c p :
  confirmed P (log ++ [Listed current]) → P c current →
  confirmed P ((log ++ [Listed current]) ++ [Captured c p]).
Proof.
  intros Hc HP i c' p' Hi. apply lookup_app_Some in Hi as [Hi|[Hl Hi]].
  - destruct (Hc _ _ _ Hi) as (j & cur & -> & Hj & HP'). exists j, cur. split_and!; [done| |done].
    by apply lookup_app_l_Some.
  - rewrite length_app in Hl, Hi. cbn in Hl, Hi. destruct (i - (length log + 1))%nat as [|k] eqn:Hk; [|by destruct k].
    injection Hi as <- <-. exists (length log), current. split_and!; [lia| |done].
    apply lookup_app_l_Some. by apply list_lookup_middle.
Qed.

(** * What was captured *)

(** The loop after the captures [dn]: one image for each, by its name, a PNG, within
    the budget. *)
Record captured_all (s : capturing) (dn : list (nat * Capture)) : Prop := {
  ca_images : cp_images s = (λ x, capture_image (image_name x.1) x.2) <$> dn;
  ca_names : (cp_bytes s).*1 = (λ x, image_name x.1) <$> dn;
  ca_png : Forall (λ f, validate_png f.2 = Ok tt) (cp_bytes s);
  ca_total : cp_total s = sum_of (λ f, len f.2) (cp_bytes s);
  ca_budget : cp_total s ≤ MAX_ARCHIVE - MAX_MANIFEST;
}.

Section broker.
Context (env : nat → HostEnv).

Lemma wp_ask {A} (f : HostEnv → A) b Q :
  (∀ k n, Q (Broker n (bk_log b)) (Ok (f (env k)))) → wp (ask env f) b Q.
Proof. intros H. apply H. Qed.

Lemma wp_note e b Q : (∀ n, Q (Broker n (bk_log b ++ [e])) (Ok tt)) → wp (note e) b Q.
Proof. intros H. apply H. Qed.

Lemma wp_inventory b Q :
  (∀ n k e, hv_inventory (env k) = Err e → Q (Broker n (bk_log b)) (Err e)) →
  (∀ n k inv, hv_inventory (env k) = Ok inv → Q (Broker n (bk_log b ++ [Listed inv])) (Ok inv)) →
  wp (backend_inventory env) b Q.
Proof.
  intros He Ho. apply wp_bind, wp_ask. intros k n. apply wp_bind, wp_lift.
  destruct (hv_inventory (env k)) as [inv|e] eqn:Hk; [|by eapply He].
  apply wp_bind, wp_note. intros n'. apply wp_ret. by eapply Ho.
Qed.

Lemma wp_check_deadline deadline b Q :
  (∀ n e, Q (Broker n (bk_log b)) (Err e)) → (∀ n, Q (Broker n (bk_log b)) (Ok tt)) →
  wp (check_deadline env deadline) b Q.
Proof.
  intros He Ho. apply wp_bind, wp_ask. intros k n. apply wp_lift. by destruct (deadline <=? hv_now (env k)); cbn.
Qed.

(** A step that may fail, leaving the log as it is. *)
Lemma wp_ask_lift {A B} (f : HostEnv → A) (g : A → result string B) b Q :
  (∀ n e, Q (Broker n (bk_log b)) (Err e)) →
  (∀ n k x, g (f (env k)) = Ok x → Q (Broker n (bk_log b)) (Ok x)) →
  wp (r ← ask env f; io_lift (g r)) b Q.
Proof.
  intros He Ho. apply wp_bind, wp_ask. intros k n. apply wp_lift.
  destruct (g (f (env k))) eqn:Hg; [by eapply Ho|apply He].
Qed.

(** The invariant of the captures selected from the inventory [first], with the
    temporary directory [temp]. *)
Definition capture_inv (first : Inventory) (captures : list Capture) (temp : string)
    (log : list host_event) : Prop :=
  log !! 0%nat = Some (Listed first) ∧
  confirmed (λ c current, c ∈ captures ∧ recheck (sort_inventory first) current c = Ok tt) log ∧
  (∀ d, TempMade d ∈ log → d = temp).

Lemma made_snoc (P : string → Prop) log e :
  (∀ d, TempMade d ∈ log → P d) → (∀ d, e = TempMade d → P d) → ∀ d, TempMade d ∈ log ++ [e] → P d.
Proof. intros Hl He d [Hd|Hd%list_elem_of_singleton]%elem_of_app; eauto. Qed.

Lemma capture_inv_listed first captures temp log current :
  capture_inv first captures temp log → capture_inv first captures temp (log ++ [Listed current]).
Proof.
  intros (Hh & Hc & Ht). split_and!; [by apply lookup_app_l_Some|by apply confirmed_snoc|].
  by apply made_snoc.
Qed.

(** One capture: the listing before it confirms it, and its image is kept. *)
Lemma capture_one_spec first captures temp directory deadline s index capture dn b :
  capture ∈ captures → capture_inv first captures temp (bk_log b) → captured_all s dn →
  wp (capture_one env (sort_inventory first) directory deadline s (index, capture)) b (λ b' r,
    capture_inv first captures temp (bk_log b') ∧
    match r with Ok s' => captured_all s' (dn ++ [(index, capture)]) | Err _ => True end).
Proof.
  intros Hin Hinv Hs. unfold capture_one.
  apply wp_bind, wp_check_deadline; [by intros; split|]. intros n0. cbn [bk_log].
  apply wp_bind, wp_inventory; [by intros; split|]. intros n1 k1 current _. cbn [bk_log].
  apply wp_bind, wp_lift. destruct (recheck _ current capture) as [[]|e] eqn:Hre;
    [|split; [by apply capture_inv_listed|done]].
  assert (Hcap : ∀ p, capture_inv first captures temp ((bk_log b ++ [Listed current]) ++ [Captured capture p])).
  { intros p. destruct (capture_inv_listed _ _ _ _ current Hinv) as (Hh & Hc & Ht).
    split_and!; [by apply lookup_app_l_Some|by apply confirmed_capture|by apply made_snoc]. }
  apply wp_bind. unfold backend_capture. apply wp_bind, wp_note. intros n2. apply wp_ask_lift; [by intros; split; [apply Hcap|]|].
  intros n3 _ _ _. cbn [bk_log]. specialize (Hcap (path_join directory (image_name index))).
  revert Hcap. generalize ((bk_log b ++ [Listed current]) ++ [Captured capture (path_join directory (image_name index))]).
  intros log Hlog. apply wp_bind.
  set (Q := λ (b' : broker) (r : result string unit), capture_inv first captures temp (bk_log b') ∧ (r = Ok tt ∨ ∃ e, r = Err e)).
  eapply (wp_mono _ _ Q).
  { destruct capture; [by apply wp_ret; split; auto|]. apply wp_bind, wp_inventory; [by intros; split; eauto|].
    intros n4 k4 cur _. apply wp_lift. split; [by apply capture_inv_listed|].
    destruct (check_display_topology _ cur) as [[]|]; eauto. }
  clear n3 log Hlog. intros [n3 log] r [Hlog [->|[e ->]]]; cbn [bk_log] in *; [|by split].
  apply wp_bind, wp_check_deadline; [by intros; split|]. intros n4. cbn [bk_log].
  apply wp_bind, wp_ask. intros k5 n5. cbn [bk_log]. apply wp_bind, wp_lift. destruct (map_err _ _) as [metadata|]; [|by split].
  apply wp_bind, wp_lift. destruct (reject_if _ _); [|by split].
  apply wp_bind, wp_ask. intros k6 n6. cbn [bk_log]. apply wp_bind, wp_lift. destruct (hv_read _ _) as [bytes|]; [|by split].
  apply wp_bind, wp_lift. destruct (validate_png bytes) as [[]|] eqn:Hpng; [|by split].
  apply wp_bind, wp_lift. destruct (reject_if _ _) as [[]|] eqn:Hb; [|by split]. apply reject_if_Ok in Hb. breflect.
  apply wp_ret. cbn [bk_log]. split; [done|]. destruct Hs as [Hi Hn Hp Ht _].
  split; cbn [cp_images cp_bytes cp_total]; rewrite ?fmap_app, ?sum_of_app; cbn [sum_of].
  - by rewrite Hi.
  - by rewrite Hn.
  - by apply Forall_app; split; [|constructor].
  - rewrite Ht. cbn [snd]. lia.
  - done.
Qed.

(** * A whole observation *)

(** What holds of the log of an observation: every capture is one that the request
    selects from the first listing, and the listing right before it shows it
    unchanged; and every temporary directory is removed. *)
Definition log_confirmed (request : option HostRequest) (log : list host_event) : Prop :=
  (∀ i c p, log !! i = Some (Captured c p) →
    ∃ first target captures j current,
      log !! 0%nat = Some (Listed first) ∧ request = Some (RCapture target) ∧
      select (sort_inventory first) target = Ok captures ∧ c ∈ captures ∧
      i = S j ∧ log !! j = Some (Listed current) ∧ recheck (sort_inventory first) current c = Ok tt) ∧
  (∀ d, TempMade d ∈ log → TempRemoved d ∈ log).

Lemma no_captures request log :
  Forall (λ e, ∃ inv, e = Listed inv) log → log_confirmed request log.
Proof.
  intros Hl. rewrite Forall_forall in Hl. split.
  - intros i c p Hi%list_elem_of_lookup_2. by destruct (Hl _ Hi).
  - intros d Hd. by destruct (Hl _ Hd).
Qed.

Lemma capture_inv_final first target captures temp log :
  select (sort_inventory first) target = Ok captures → capture_inv first captures temp log →
  log_confirmed (Some (RCapture target)) (log ++ [TempRemoved temp]).
Proof.
  intros Hsel (Hh & Hc & Ht). split.
  - intros i c p Hi. apply (confirmed_snoc _ _ (TempRemoved temp)) in Hc; [|done].
    destruct (Hc _ _ _ Hi) as (j & cur & -> & Hj & Hin & Hre).
    exists first, target, captures, j, cur. split_and!; try done. by apply lookup_app_l_Some.
  - intros d [Hd|Hd%list_elem_of_singleton]%elem_of_app; [|done].
    apply Ht in Hd as ->. apply elem_of_app. right. by apply list_elem_of_singleton.
Qed.

Lemma capture_target_spec first deadline target b :
  bk_log b = [Listed first] →
  wp (capture_target env (sort_inventory first) deadline target) b (λ b' r,
    bk_log b' !! 0%nat = Some (Listed first) ∧ log_confirmed (Some (RCapture target)) (bk_log b') ∧
    match r with
    | Ok s => ∃ captures, select (sort_inventory first) target = Ok captures ∧
                captured_all s (zip (seq 0 (length captures)) captures)
    | Err _ => True
    end).
Proof.
  intros Hb. unfold capture_target.
  assert (Hone : log_confirmed (Some (RCapture target)) [Listed first]) by (apply no_captures; eauto).
  apply wp_bind, wp_lift. destruct (select _ target) as [captures|e] eqn:Hsel; [|by rewrite Hb].
  unfold with_private_temp. apply wp_bind, wp_ask. intros k n. apply wp_bind, wp_lift.
  destruct (hv_tempdir (env k)) as [temp|e]; [|by cbn; rewrite Hb].
  apply wp_bind, wp_note. intros n1. cbn [bk_log]. rewrite Hb. apply wp_bind, wp_try.
  eapply wp_mono.
  { apply (wp_fold _ (λ b s dn, capture_inv first captures temp (bk_log b) ∧ captured_all s dn)
             (λ b _, capture_inv first captures temp (bk_log b)) _ []).
    - intros s dn [index c] w Hin [Hinv Hs]. eapply wp_mono; [apply capture_one_spec; [|done..]|].
      + by apply elem_of_zip_r in Hin.
      + intros w' [s'|e]; naive_solver.
    - split; [|split; cbn; done || constructor]. split_and!; [done| |].
      + intros [|[|i]] c p Hi; try done. 
      + intros d Hd. set_solver. }
  intros [n2 log] r Hr. apply wp_bind, wp_note. intros n3. apply wp_lift. cbn [bk_log] in *.
  assert (capture_inv first captures temp log) as Hinv by (destruct r; naive_solver).
  split_and!; [by apply lookup_app_l_Some, Hinv|by eapply capture_inv_final|]. destruct r; naive_solver.
Qed.

(** ** The manifest *)

Context `{HostCodec}.

(** The UUIDs drawn are canonical, and the numbers the backend lists survive JSON. *)
Definition sane : Prop :=
  (∀ k, uuid_parse (hv_uuid (env k)) = Ok (hv_uuid (env k))) ∧
  (∀ k inv, hv_inventory (env k) = Ok inv → exact_inventory inv).

Lemma insert_by_perm {A} (key : A → N) x l : insert_by key x l ≡ₚ x :: l.
Proof.
  induction l as [|y l IH]; [done|]. cbn. destruct (key x <=? key y); [done|]. rewrite IH. by apply Permutation_swap.
Qed.
Lemma sort_by_key_perm {A} (key : A → N) l : sort_by_key key l ≡ₚ l.
Proof. induction l as [|x l IH]; [done|]. cbn. by rewrite insert_by_perm, IH. Qed.

Lemma sort_inventory_exact inv : exact_inventory inv → exact_inventory (sort_inventory inv).
Proof. intros [Hw Hd]. by split; cbn; rewrite sort_by_key_perm. Qed.

(** What a manifest with its images says about a request. *)
Definition observed (request : option HostRequest) (log : list host_event) (m : Manifest) (images : list string) :
    Prop :=
  (mf_status m = "failed" ∧ mf_errors m ≠ [] ∧ images = []) ∨
  (mf_status m = "succeeded" ∧ mf_errors m = [] ∧ ∃ first,
     log !! 0%nat = Some (Listed first) ∧ mf_inventory m = Some (sort_inventory first) ∧
     match request with
     | Some RList => mf_images m = [] ∧ images = []
     | Some (RCapture target) =>
         ∃ captures, select (sort_inventory first) target = Ok captures ∧
           mf_images m = (λ x, capture_image (image_name x.1) x.2) <$> zip (seq 0 (length captures)) captures ∧
           length images = length captures
     | None => False
     end).

(** A manifest as [Manifest::new] makes it. *)
Definition fresh_manifest (m : Manifest) : Prop :=
  ∃ u t, (sane → uuid_parse u = Ok u) ∧
    m = {| mf_schema_version := "1"; mf_observation_id := "host-" +:+ u; mf_captured_at := t;
           mf_status := "succeeded"; mf_inventory := None; mf_images := []; mf_errors := [] |}.

Lemma new_manifest_spec b :
  wp (new_manifest env) b (λ b' r, bk_log b' = bk_log b ∧ ∃ m, r = Ok m ∧ fresh_manifest m).
Proof.
  apply wp_bind, wp_ask. intros k n. apply wp_bind, wp_ask. intros k' n'. apply wp_ret.
  split; [done|]. eexists. split; [done|]. eexists _, _. split; [intros [Hu _]; apply Hu|done].
Qed.

Lemma failed_good error m o :
  sane → fresh_manifest m → match o with Some inv => exact_inventory inv | None => True end →
  good_observation (fail error match o with Some inv => with_inventory inv [] m | None => m end) [].
Proof.
  intros Hsane (u & t & Hu & ->) Ho. specialize (Hu Hsane). split; destruct o; cbn; eauto; try done; lia.
Qed.

Lemma select_length inv target captures :
  select inv target = Ok captures → (length captures ≤ MAX_IMAGES)%nat.
Proof.
  unfold select. intros H'. apply bind_Ok in H' as (l & _ & H'). apply bind_Ok in H' as (? & _ & H').
  apply bind_Ok in H' as (? & Hl & H'). apply reject_if_Ok in Hl. apply Nat.ltb_ge in Hl. by injection H' as <-.
Qed.

Lemma captured_good s captures inv m :
  fresh_manifest m → (length captures ≤ MAX_IMAGES)%nat →
  captured_all s (zip (seq 0 (length captures)) captures) →
  length (cp_bytes s) = length captures ∧
  (sane → exact_inventory inv → good_observation (with_inventory inv (cp_images s) m) (cp_bytes s)).
Proof.
  intros (u & t & Hu & ->) Hl [Hi Hn Hp Ht Hb].
  assert (Hseq : (zip (seq 0 (length captures)) captures).*1 = seq 0 (length captures)).
  { apply fst_zip. by rewrite length_seq. }
  assert (Hlen : length (cp_bytes s) = length captures).
  { rewrite <-(length_fmap fst (cp_bytes s)), Hn, length_fmap, <-(length_fmap fst), Hseq. apply length_seq. }
  assert (Hnames : (cp_bytes s).*1 = image_names (length (cp_bytes s))).
  { rewrite Hn, Hlen. transitivity (image_name <$> (zip (seq 0 (length captures)) captures).*1);
      [by rewrite <-list_fmap_compose|by rewrite Hseq]. }
  split; [done|]. intros Hsane Hex. split; cbn; eauto; [|lia..].
  rewrite Hi, Hn, <-list_fmap_compose. apply list_fmap_ext. intros _ [i c] _. by destruct c.
Qed.

Lemma observe_target_spec request deadline m b :
  bk_log b = [] → fresh_manifest m →
  wp (observe_target env request deadline m) b (λ b' r,
    log_confirmed (Some request) (bk_log b') ∧
    ∃ m' images, r = Ok (m', images) ∧ (sane → good_observation m' images) ∧
      observed (Some request) (bk_log b') m' images.*2).
Proof.
  intros Hb Hm. unfold observe_target. apply wp_bind, wp_try, wp_inventory.
  - intros n k e _. apply wp_ret. cbn [bk_log]. rewrite Hb. split; [by apply no_captures|].
    eexists _, _. split; [done|]. split; [by intros; apply (failed_good e m None)|].
    left. destruct Hm as (u & t & Hu & ->). done.
  - intros n k inv Hk. rewrite Hb. cbn [app]. 
    assert (Hex : sane → exact_inventory (sort_inventory inv)).
    { intros [_ Hex]. by eapply sort_inventory_exact, Hex. }
    destruct request as [|target].
    + apply wp_ret. cbn [bk_log]. split; [apply no_captures; eauto|]. eexists _, _. split; [done|]. split.
      * destruct Hm as (u & t & Hu & ->). intros Hsane. specialize (Hu Hsane). specialize (Hex Hsane).
        split; cbn; eauto; try done; lia.
      * right. destruct Hm as (u & t & Hu & ->). split_and!; [done..|]. by exists inv.
    + apply wp_bind, wp_try. eapply wp_mono; [by apply capture_target_spec|].
      intros b' [s|e] (Hh & Hlog & Hr); apply wp_ret; (split; [done|]); eexists _, _; (split; [done|]).
      * destruct Hr as (captures & Hsel & Hs). pose proof (select_length _ _ _ Hsel) as Hl.
        destruct (captured_good s captures (sort_inventory inv) m) as [Hlen Hgood]; [done..|]. split; [by auto|].
        right. destruct Hm as (u & t & Hu & ->). split_and!; [done..|]. exists inv. split_and!; [done..|].
        exists captures. split_and!; [done|apply Hs|by rewrite length_fmap].
      * split; [by intros; apply (failed_good e m (Some (sort_inventory inv))); auto|]. left.
        destruct Hm as (u & t & Hu & ->). done.
Qed.

Context `{ObservationZip}.

(** An answer of the broker: an archive of an observation that may be sent. *)
Definition answers (request : option HostRequest) (b : broker) (bytes : string) : Prop :=
  ∃ m images, encode_archive m images = Ok bytes ∧ (sane → good_observation m images) ∧
    observed request (bk_log b) m images.*2.

Lemma build_observation_spec request b :
  bk_log b = [] →
  wp (build_observation env request) b (λ b' r,
    log_confirmed (Some request) (bk_log b') ∧
    match r with Ok bytes => answers (Some request) b' bytes | Err _ => True end).
Proof.
  intros Hb. unfold build_observation.
  assert (Hnil : log_confirmed (Some request) []) by by apply no_captures.
  apply wp_bind, wp_lift. destruct (validate_host_request request); [|by rewrite Hb].
  apply wp_bind. eapply wp_mono; [apply new_manifest_spec|]. intros b1 r [Hb1 (m & -> & Hm)].
  apply wp_bind, wp_ask. intros k n. apply wp_bind.
  eapply wp_mono; [apply observe_target_spec; [by rewrite Hb1|done]|].
  intros b2 r [Hlog (m' & images & -> & Hgood & Hobs)]. apply wp_lift. split; [done|].
  destruct (encode_archive m' images) eqn:He; [|done]. by exists m', images.
Qed.

Lemma error_archive_spec request error b :
  wp (error_archive env error) b (λ b' r, bk_log b' = bk_log b ∧
    match r with Ok bytes => answers request b' bytes | Err _ => True end).
Proof.
  unfold error_archive. apply wp_bind. eapply wp_mono; [apply new_manifest_spec|].
  intros b1 r [Hb1 (m & -> & Hm)]. apply wp_lift. split; [done|].
  destruct (encode_archive _ _) eqn:He; [|done]. eexists _, []. split; [done|].
  split; [by intros; apply (failed_good error m None)|]. left. by destruct Hm as (u & t & Hu & ->).
Qed.

(** The request in a frame, when there is one. *)
Definition request_of (frame : result string string) : option HostRequest :=
  match frame with Ok bytes => result_ok (decode_host_request bytes) | Err _ => None end.

Lemma respond_spec frame b :
  bk_log b = [] →
  wp (respond env frame) b (λ b' r,
    log_confirmed (request_of frame) (bk_log b') ∧
    match r with Ok bytes => answers (request_of frame) b' bytes | Err _ => True end).
Proof.
  intros Hb. unfold respond. apply wp_bind, wp_try.
  eapply (wp_mono _ _ (λ b' r, log_confirmed (request_of frame) (bk_log b') ∧
    match r with Ok bytes => answers (request_of frame) b' bytes | Err _ => True end)).
  - assert (Hnil : ∀ o, log_confirmed o (bk_log b)) by (intros; rewrite Hb; by apply no_captures).
    apply wp_bind, wp_lift. destruct frame as [bytes|e]; [|by split].
    apply wp_bind, wp_lift. cbn. destruct (decode_host_request bytes) as [request|e]; [|by split].
    by apply build_observation_spec.
  - intros b' [bytes|e] [Hlog Hr]; [by apply wp_ret|].
    eapply wp_mono; [apply (error_archive_spec (request_of frame))|]. intros b2 r [-> Hr2]. done.
Qed.
End broker.
