(* ===== verification/HostTransport.v ===== *)
(** The socket between the daemon and the broker ([src/src/host_observation.rs] and
    [host_observation/socket_access.rs]): who may use it, frames of a bounded size
    with a deadline, and the exchange of a request for an observation. *)
From Stdlib Require Import Ascii.
From stdpp Require Import base option strings numbers list gmap pretty sets.
From S2P Require Import Prelude Effects RustStr Fs HostPng HostObservation HostFacts.

Local Open Scope N_scope.

(** * Transfers with a deadline *)

(** What happens to a nonblocking transfer between two readings of the clock.
    [Moved]: the kernel takes or gives bytes; [NotReady]: it has none, and after a
    second reading of the clock [poll] returns; [Signalled]: [EINTR]; [Broken]: any
    other error. *)
Inductive transfer (A : Type) :=
| Moved (a : A)
| NotReady (now : N) (poll : result io_error unit)
| Signalled
| Broken (e : io_error).
Arguments Moved {A} a.
Arguments NotReady {A} now poll.
Arguments Signalled {A}.
Arguments Broken {A} e.

(** The clock and what happens, in order.  A script that ends stands for a peer
    that stays silent until the deadline has passed. *)
Definition script (A : Type) : Type := list (N * transfer A).

Definition transfer_timed_out : io_error := IoError TimedOut "observation transfer deadline exceeded".

(** [retry_io]: up to the first transfer, with the rest of the script. *)
Fixpoint retry_io {A} (deadline : N) (events : script A) : script A * result io_error (N * A) :=
  match events with
  | [] => ([], Err transfer_timed_out)
  | (now, event) :: events =>
      if deadline <=? now then (events, Err transfer_timed_out)
      else match event with
           | Moved a => (events, Ok (now, a))
           | Signalled => retry_io deadline events
           | Broken e => (events, Err e)
           | NotReady now poll =>
               if deadline <=? now then (events, Err transfer_timed_out)
               else match poll with
                    | Err e => if bool_decide (io_error_kind e = Interrupted) then retry_io deadline events
                               else (events, Err e)
                    | Ok _ => retry_io deadline events
                    end
           end
  end.

(** [Read::read] into a buffer of [n] bytes: the bytes that do not fit stay. *)
Definition stream_read (deadline : N) (n : N) : eff (script string) io_error string := λ events,
  let '(events, r) := retry_io deadline events in
  match r with
  | Err e => (events, Err e)
  | Ok (now, data) =>
      if len data <=? n then (events, Ok data)
      else let k := N.to_nat n in
           ((now, Moved (String.substring k (String.length data - k) data)) :: events,
            Ok (String.substring 0 k data))
  end.

(** [Read::read_exact]; every read that does not end it returns a byte, so [fuel] is
    the number of bytes wanted. *)
Fixpoint read_exact (fuel : nat) (deadline : N) (n : N) (acc : string) : eff (script string) io_error string :=
  match fuel with
  | O => mret acc
  | S fuel =>
      if n =? 0 then mret acc
      else
        data ← stream_read deadline n;
        if is_empty data then io_fail (IoError UnexpectedEof "failed to fill whole buffer")
        else read_exact fuel deadline (n - len data) (acc +:+ data)
  end.

Definition read_n (deadline n : N) : eff (script string) io_error string :=
  read_exact (N.to_nat n) deadline n "".

Definition prefix_error (what : string) (e : io_error) : io_error :=
  IoError (io_error_kind e) (what +:+ io_error_message e).

Definition read_frame (deadline max : N) : eff (script string) io_error string :=
  size ← io_map_err (prefix_error "read observation frame: ") (read_n deadline 4);
  let size := from_be (codes size) in
  _ ← io_reject ((size =? 0) || (max <? size)) (IoError InvalidData "observation frame exceeds allowed size");
  io_map_err (prefix_error "read observation payload: ") (read_n deadline size).

(** The bytes a stream has taken, and what its next sends do: the kernel takes as
    many bytes as it likes of those offered. *)
Record outgoing := Outgoing { og_sent : string; og_script : script N }.

(** [Write::write_all]; a send that takes nothing is an error, so [fuel] is the
    number of bytes. *)
Fixpoint write_all_loop (fuel : nat) (deadline : N) (data : string) : eff outgoing io_error unit := λ o,
  match fuel with
  | O => (o, Ok tt)
  | S fuel =>
      if is_empty data then (o, Ok tt)
      else
        let '(events, r) := retry_io deadline (og_script o) in
        match r with
        | Err e => (Outgoing (og_sent o) events, Err e)
        | Ok (_, taken) =>
            let k := Nat.min (N.to_nat taken) (String.length data) in
            if (k =? 0)%nat
            then (Outgoing (og_sent o) events, Err (IoError WriteZero "failed to write whole buffer"))
            else write_all_loop fuel deadline (String.substring k (String.length data - k) data)
                   (Outgoing (og_sent o +:+ String.substring 0 k data) events)
        end
  end.
Definition stream_write_all (deadline : N) (data : string) : eff outgoing io_error unit :=
  write_all_loop (String.length data) deadline data.

(** [u32::to_be_bytes]. *)
Definition be_bytes (n : N) : string := bytes (to_be 4 n).

Definition write_frame (deadline : N) (data : string) : eff outgoing string unit :=
  _ ← io_reject (u32_max <? len data) "out of range integral type conversion attempted";
  io_map_err (λ e, "write observation frame: " +:+ io_error_message e)
    (_ ← stream_write_all deadline (be_bytes (len data)); stream_write_all deadline data).

(** * Who may connect *)

Definition check_peer (peer_uid : result string N) (expected_uid : N) : result string unit :=
  uid ← peer_uid;
  reject_if (negb (uid =? expected_uid))
    ("host observation peer is not the authorized UID " +:+ pretty expected_uid).

(** ** [socket_access]

    [lstat] is [fs::symlink_metadata] of a path given by its components, [uid] the
    caller's effective user.  The path that an error text quotes is left out. *)
Section socket_access.
Context (lstat : list component → result string file_meta) (uid : N).

Definition o710 : N := 456.
Definition o660 : N := 432.
Definition o600 : N := 384.
Definition o7777 : N := 4095.

(** One turn of the loop over the components of the parent directory. *)
Definition check_socket_ancestor (owner : N) (current : list component) (c : component) :
    result string (list component) :=
  _ ← match c with
      | RootDir | Normal _ => Ok tt
      | _ => Err "socket path must not contain traversal components"
      end;
  let current := current ++ [c] in
  metadata ← map_err (λ e, "inspect socket directory: " +:+ e) (lstat current);
  _ ← reject_if (negb (is_dir metadata) || (negb (fm_uid metadata =? owner) && negb (fm_uid metadata =? 0)))
        "socket ancestors must be real directories owned by root or the GUI helper UID";
  let root_sticky := (fm_uid metadata =? 0) && mode_has (fm_mode metadata) o1000 in
  _ ← reject_if (mode_has (fm_mode metadata) o022 && negb root_sticky)
        "socket ancestors must not be group/other writable";
  Ok current.

Definition check_socket_parent (socket : string) (owner : N) (group : option N) : result string unit :=
  let path := components socket in
  _ ← reject_if (negb (is_absolute socket) || is_none (file_name path)) "--socket must be an absolute file path";
  parent ← ok_or (RustStr.parent path) "socket has no parent";
  _ ← fold_each (check_socket_ancestor owner) [] parent;
  metadata ← lstat parent;
  let expected_mode := if is_some group then o710 else o700 in
  reject_if (negb (fm_uid metadata =? owner) || negb (N.land (fm_mode metadata) o7777 =? expected_mode)
             || match group with Some gid => negb (fm_gid metadata =? gid) | None => false end)
    ("socket parent must be owned by GUI UID " +:+ pretty owner +:+ ", mode " +:+
     (if is_some group then "0710" else "0700") +:+ ", with the configured observation group").

(** [socket_access::server]. *)
Definition check_server (socket : string) (allow_uid : N) (group : option N) : result string unit :=
  _ ← reject_if (negb (allow_uid =? uid) && is_none group)
        "cross-UID observation requires --socket-group and a pre-provisioned mode-0710 directory; do not change the task account";
  check_socket_parent socket uid group.

(** [socket_access::client]. *)
Definition check_client (socket : string) (owner : N) : result string unit :=
  metadata ← map_err (λ e, "GUI helper socket unavailable: " +:+ e +:+
                           "; start its LaunchAgent in the selected graphical session")
               (lstat (components socket));
  _ ← reject_if (negb (bool_decide (fm_kind metadata = Socket)) || negb (fm_uid metadata =? owner))
        "GUI helper endpoint must be a real socket owned by the configured GUI peer UID";
  let mode := N.land (fm_mode metadata) o7777 in
  group ← (if (mode =? o600) && (owner =? uid) then Ok None
           else if mode =? o660 then Ok (Some (fm_gid metadata))
           else Err "GUI helper socket requires mode 0600 (same UID) or 0660 (explicit observation group)");
  check_socket_parent socket owner group.
End socket_access.

(** * The broker's side of a connection *)

(** A connection as the broker finds it: the peer's user, the clock when each
    transfer starts (or why it cannot), and what the transfers meet. *)
Record connection := {
  cn_peer : result string N;
  cn_read_start : result string N;
  cn_reads : script string;
  cn_write_start : result string N;
  cn_sends : script N;
}.

Definition seconds (n : N) : N := n * 1000000000.

Section exchange.
Context `{ObservationZip, HostCodec} (env : nat → HostEnv).

(** The request that is read from a connection. *)
Definition read_request (c : connection) : result string string :=
  start ← cn_read_start c;
  map_err io_error_message (read_frame (start + seconds 5) MAX_REQUEST (cn_reads c)).2.

(** What is sent and how handling ends. *)
Definition handle_connection (allow_uid : N) (c : connection) (b : broker) :
    broker * string * result string unit :=
  match check_peer (cn_peer c) allow_uid with
  | Err e => (b, "", Err e)
  | Ok _ =>
      let '(b, response) := respond env (read_request c) b in
      match response with
      | Err e => (b, "", Err e)
      | Ok response =>
          match cn_write_start c with
          | Err e => (b, "", Err e)
          | Ok start =>
              let '(o, r) := write_frame (start + seconds 10) response (Outgoing "" (cn_sends c)) in
              (b, og_sent o, r)
          end
      end
  end.

(** One turn of the accept loop: whether [STOP] was set, and what [accept] returned
    (a connection with the outcome of making it blocking). *)
Inductive accepted :=
| Accepted (blocking : result string unit) (c : connection)
| AcceptInterrupted
| AcceptNone
| AcceptFailed (e : string).

(** The accept loop, and what each connection was sent; it ends when it is stopped
    or fails.  A list of turns that ends stands for [STOP]. *)
Fixpoint serve_loop (allow_uid : N) (turns : list (bool * accepted)) (b : broker) :
    broker * list (connection * string) * result string unit :=
  match turns with
  | [] => (b, [], Ok tt)
  | (true, _) :: _ => (b, [], Ok tt)
  | (false, a) :: turns =>
      match a with
      | Accepted (Err e) _ => (b, [], Err e)
      | Accepted (Ok _) c =>
          let '(b, sent, _) := handle_connection allow_uid c b in
          let '(b, rest, r) := serve_loop allow_uid turns b in
          (b, (c, sent) :: rest, r)
      | AcceptInterrupted | AcceptNone => serve_loop allow_uid turns b
      | AcceptFailed e => (b, [], Err e)
      end
  end.

(** * The daemon's side *)

(** The daemon's connection: what [connect_bounded] returned, and the rest as above. *)
Record dialled := {
  di_connect : result string unit;
  di_peer : result string N;
  di_write_start : result string N;
  di_sends : script N;
  di_read_start : result string N;
  di_reads : script string;
}.

Definition broker_closed (uid : N) (e : io_error) : string :=
  if bool_decide (io_error_kind e ∈ [UnexpectedEof; ConnectionReset]) then
    io_error_message e +:+ "; broker connection closed: inspect the GUI helper log and verify --allow-uid matches the daemon service UID (" +:+ pretty uid +:+ ")"
  else io_error_message e.

(** [connect]: what was sent to the broker and the answer. *)
Definition connect (lstat : list component → result string file_meta) (uid : N) (socket : string)
    (request : HostRequest) (peer_uid : N) (d : dialled) : string * result string string :=
  match (_ ← check_client lstat uid socket peer_uid;
         _ ← di_connect d;
         _ ← check_peer (di_peer d) peer_uid;
         start ← di_write_start d;
         json ← encode_host_request request;
         Ok (start, json)) with
  | Err e => ("", Err e)
  | Ok (start, json) =>
      let '(o, written) := write_frame (start + seconds 5) json (Outgoing "" (di_sends d)) in
      (og_sent o,
       _ ← written;
       start ← di_read_start d;
       map_err (broker_closed uid) (read_frame (start + seconds 60) MAX_ARCHIVE (di_reads d)).2)
  end.

End exchange.

(** * What is sent in a frame is what is received, in whatever pieces it travels. *)

(** * Strings in pieces *)

Lemma substring_all s : String.substring 0 (String.length s) s = s.
Proof. induction s as [|a s IH]; [done|]. cbn. by rewrite IH. Qed.

Lemma substring_app s t :
  String.substring 0 (String.length s) (s +:+ t) = s ∧
  String.substring (String.length s) (String.length (s +:+ t) - String.length s) (s +:+ t) = t.
Proof.
  induction s as [|a s [IH1 IH2]].
  - split; [by destruct t|]. cbn [String.length]. rewrite Nat.sub_0_r. apply substring_all.
  - rewrite string_app_cons. cbn [String.length String.substring Nat.sub]. by rewrite IH1.
Qed.

(** The first [k] bytes and the rest. *)
Lemma string_cut k s : (k ≤ String.length s)%nat →
  s = String.substring 0 k s +:+ String.substring k (String.length s - k) s ∧
  String.length (String.substring 0 k s) = k.
Proof.
  revert k. induction s as [|a s IH]; intros [|k] Hk; cbn in *; try done; try lia.
  - split; [|done]. by rewrite substring_all.
  - destruct (IH k) as [H1 H2]; [lia|]. split; [by rewrite string_app_cons, <-H1|by rewrite H2].
Qed.

Lemma codes_app s t : codes (s +:+ t) = codes s ++ codes t.
Proof.
  unfold codes. rewrite <-fmap_app. f_equal. induction s as [|a s IH]; [done|].
  rewrite string_app_cons. cbn. by rewrite IH.
Qed.

Lemma codes_bytes_of l : Forall is_byte l → codes (bytes l) = l.
Proof.
  induction 1 as [|b l Hb _ IH]; [done|]. unfold bytes, codes in *. cbn.
  rewrite <-IH at 2. unfold fmap at 1, list_fmap at 1. f_equal. by apply N_ascii_embedding.
Qed.

(** * Streams *)

(** A script in which nothing fails before the deadline, and what arrives in it. *)
Definition timely {A} (deadline : N) (x : N * transfer A) : Prop :=
  x.1 < deadline ∧
  match x.2 with
  | Moved _ | Signalled => True
  | NotReady now poll => now < deadline ∧
      match poll with Err e => io_error_kind e = Interrupted | Ok _ => True end
  | Broken _ => False
  end.

Fixpoint arrived (events : script string) : string :=
  match events with
  | [] => ""
  | (_, Moved data) :: events => data +:+ arrived events
  | _ :: events => arrived events
  end.

Definition delivers (deadline : N) (events : script string) : Prop :=
  Forall (timely deadline) events ∧ Forall (λ x, x.2 ≠ Moved "") events.

Lemma retry_delivers deadline events :
  delivers deadline events → arrived events ≠ "" →
  ∃ events' now data, retry_io deadline events = (events', Ok (now, data)) ∧ data ≠ "" ∧ now < deadline ∧
    delivers deadline events' ∧ arrived events = data +:+ arrived events'.
Proof.
  intros [Ht Hn]. induction events as [|[now event] events IH]; [done|].
  apply Forall_cons in Ht as [[Hnow He] Ht], Hn as [Hn1 Hn]. cbn [fst snd] in *.
  cbn [retry_io]. rewrite (proj2 (N.leb_gt _ _) Hnow). destruct event as [data|now2 poll| |e]; cbn [arrived]; [| | |done].
  - intros _. exists events, now, data. split_and!; try done. by intros ->.
  - destruct He as [Hnow2 Hp]. rewrite (proj2 (N.leb_gt _ _) Hnow2). destruct poll as [[]|e]; [by apply IH|].
    rewrite Hp, bool_decide_true by done. by apply IH.
  - by apply IH.
Qed.

Lemma read_delivers deadline n events :
  0 < n → delivers deadline events → arrived events ≠ "" →
  ∃ events' data, stream_read deadline n events = (events', Ok data) ∧ data ≠ "" ∧ len data ≤ n ∧
    delivers deadline events' ∧ arrived events = data +:+ arrived events'.
Proof.
  intros Hn Hd Ha. destruct (retry_delivers deadline events Hd Ha) as (events' & now & data & Hr & Hne & Hnow & Hd' & Heq).
  unfold stream_read. rewrite Hr. destruct (N.leb_spec (len data) n) as [Hl|Hl].
  { exists events', data. split_and!; done. }
  destruct (string_cut (N.to_nat n) data) as [Hcut Hlen]; [unfold len in Hl; lia|].
  set (rest := String.substring (N.to_nat n) (String.length data - N.to_nat n) data) in *.
  set (got := String.substring 0 (N.to_nat n) data) in *.
  eexists _, got. split_and!; [done| |unfold len; lia| |].
  - intros Hg. rewrite Hg in Hlen. cbn in Hlen. lia.
  - destruct Hd' as [Ht Hn']. split; constructor; try done. cbn [snd]. intros [= Hrest].
    rewrite Hcut, Hrest, string_app_nil in Hl. unfold len in Hl. lia.
  - cbn [arrived]. rewrite Heq, Hcut at 1. apply string_app_assoc.
Qed.

Lemma read_exact_delivers deadline fuel n acc want rest events :
  (N.to_nat n ≤ fuel)%nat → len want = n → delivers deadline events → arrived events = want +:+ rest →
  ∃ events', read_exact fuel deadline n acc events = (events', Ok (acc +:+ want)) ∧
    delivers deadline events' ∧ arrived events' = rest.
Proof.
  revert n acc want events. induction fuel as [|fuel IH]; intros n acc want events Hf Hw Hd Ha.
  - destruct want; [|unfold len in Hw; cbn in Hw; lia]. exists events. by rewrite string_app_nil.
  - cbn [read_exact]. destruct (N.eqb_spec n 0) as [->|Hn].
    { destruct want; [|unfold len in Hw; cbn in Hw; lia]. exists events. by rewrite string_app_nil. }
    destruct (read_delivers deadline n events) as (events' & data & Hr & Hne & Hl & Hd' & Heq); [lia|done| |].
    { rewrite Ha. destruct want; [unfold len in Hw; cbn in Hw; lia|done]. }
    assert (∃ want', want = data +:+ want') as [want' ->].
    { destruct (string_cut (String.length data) want) as [Hcut Hlen]; [unfold len in *; lia|].
      rewrite Ha in Heq. rewrite Hcut, string_app_assoc in Heq. eexists. rewrite Hcut at 1. f_equal.
      assert (Hs := f_equal (String.substring 0 (String.length data)) Heq).
      rewrite <-Hlen in Hs at 1. rewrite (proj1 (substring_app _ _)), (proj1 (substring_app _ _)) in Hs. done. }
    unfold mbind, eff_bind. rewrite Hr. destruct data as [|a data]; [done|]. cbn [is_empty].
    rewrite Ha, string_app_assoc in Heq. apply string_app_inj_l in Heq. rewrite len_app in Hw.
    destruct (IH (n - len (String a data)) (acc +:+ String a data) want' events') as (events2 & Hr2 & Hd2 & Ha2);
      [unfold len; cbn; lia|lia|done|done|].
    exists events2. rewrite Hr2. split_and!; [|done|done]. by rewrite <-string_app_assoc.
Qed.

(** A frame that arrives in time is received, however it was cut into pieces. *)
Lemma read_frame_delivers deadline max data rest events :
  0 < len data ≤ max → max ≤ u32_max → delivers deadline events →
  arrived events = be_bytes (len data) +:+ data +:+ rest →
  ∃ events', read_frame deadline max events = (events', Ok data) ∧ arrived events' = rest.
Proof.
  intros Hl Hm Hd Ha. unfold read_frame, read_n.
  assert (Hbe : codes (be_bytes (len data)) = to_be 4 (len data)) by (apply codes_bytes_of, to_be_bytes).
  destruct (read_exact_delivers deadline (N.to_nat 4) 4 "" (be_bytes (len data)) (data +:+ rest) events)
    as (events1 & Hr1 & Hd1 & Ha1); [done| |done|done|].
  { change (N.of_nat (String.length (be_bytes (len data))) = 4). by rewrite <-codes_length, Hbe, to_be_length. }
  destruct (read_exact_delivers deadline (N.to_nat (len data)) (len data) "" data rest events1)
    as (events2 & Hr2 & Hd2 & Ha2); [done|done|done|done|].
  exists events2. split; [|done]. unfold mbind, eff_bind, io_map_err. rewrite Hr1. cbn [map_err].
  change ("" +:+ be_bytes (len data)) with (be_bytes (len data)). rewrite Hbe, from_to_be; [|change (256 ^ _) with (2 ^ 32); unfold u32_max in *; lia].
  rewrite (proj2 (N.eqb_neq _ _)), (proj2 (N.ltb_ge _ _)) by lia. cbn [orb io_reject reject_if io_lift].
  by rewrite Hr2.
Qed.

(** A frame that was written is the size and the bytes. *)
Lemma write_all_sends fuel deadline data o o' :
  (String.length data ≤ fuel)%nat → write_all_loop fuel deadline data o = (o', Ok tt) →
  og_sent o' = og_sent o +:+ data.
Proof.
  revert data o. induction fuel as [|fuel IH]; intros data o Hf; cbn [write_all_loop].
  - intros [= <-]. destruct data; [by rewrite string_app_nil|cbn in Hf; lia].
  - destruct (is_empty data) eqn:He.
    { intros [= <-]. destruct data; [by rewrite string_app_nil|done]. }
    destruct (retry_io deadline (og_script o)) as [events [[now taken]|e]]; [|done].
    set (k := Nat.min (N.to_nat taken) (String.length data)). destruct (Nat.eqb_spec k 0) as [|Hk]; [done|].
    destruct (string_cut k data) as [Hcut Hlen]; [unfold k; lia|]. intros Hw.
    apply IH in Hw; [|rewrite Hcut, string_length_app, Hlen in Hf; lia].
    rewrite Hw. cbn [og_sent]. by rewrite string_app_assoc, <-Hcut.
Qed.

Lemma write_frame_sends deadline data script o :
  write_frame deadline data (Outgoing "" script) = (o, Ok tt) →
  og_sent o = be_bytes (len data) +:+ data ∧ len data ≤ u32_max.
Proof.
  unfold write_frame. intros Hw. apply eff_bind_Ok in Hw as (o1 & [] & Hre & Hw).
  unfold io_reject, io_lift in Hre. injection Hre as <- Hre. apply reject_if_Ok in Hre. breflect.
  unfold io_map_err in Hw. lazymatch type of Hw with context [let '(_, _) := ?m in _] => destruct m as [o2 r] eqn:E end.
  destruct r as [[]|]; [|done]. injection Hw as ->. apply eff_bind_Ok in E as (o3 & [] & E1 & E2).
  apply write_all_sends in E1, E2; [|done..]. split; [|done]. by rewrite E2, E1.
Qed.

(** * What host observation guarantees: only confirmed captures for the authorized
    peer, whole observations or failures, and images that are PNG files. *)

(** * Images *)

(** The image check with its table-driven checksum accepts exactly the PNG files
    of the specification within the limits on size and pixels: the signature, a
    header chunk with a supported format, chunks whose bitwise CRC is right with data
    among them, and the end chunk with nothing after it. *)
Theorem accepted_images_are_png s :
  len s ≤ u64_max → validate_png s = Ok tt ↔ is_png (codes s).
Proof. apply validate_png_spec. Qed.

(** * Captures *)

(** What the listing before a capture shows of it. *)
Definition shows (first current : Inventory) (c : Capture) : Prop :=
  match c with
  | CaptureWindow pid window_id =>
      ∃ w, w ∈ iv_windows current ∧ wn_window_id w = window_id ∧ wn_pid w = pid ∧ wn_capturable w = true
  | CaptureDisplay _ _ =>
      displays_eqb (sort_by_key ds_display_id (iv_displays current))
        (sort_by_key ds_display_id (iv_displays first)) = true
  end.

Lemma recheck_shows first current c :
  recheck (sort_inventory first) current c = Ok tt → shows first current c.
Proof.
  destruct c as [pid window_id|id bounds]; cbn [recheck shows].
  - intros (l & Hs & _)%bind_Ok. unfold select in Hs. apply bind_Ok in Hs as (sel & Hs & _).
    apply bind_Ok in Hs as (w & Hf & Hs). apply ok_or_Ok in Hf. unbind Hs. breflect.
    apply find_some in Hf as [Hin Heq%N.eqb_eq]. exists w. split_and!; try done. by apply list_elem_of_In.
  - unfold check_display_topology. intros H%reject_if_Ok. by breflect.
Qed.

Section host.
Context `{ObservationZip, HostCodec} (env : nat → HostEnv).

(** For any behaviour of the desktop and of the peer, a connection from another
    user than the authorized one is answered nothing and causes no listing and no
    capture; for the authorized one, every capture is of a window or display that
    the request selects from the first listing, and directly follows a listing that
    still shows the window under the same owner and capturable, or the same
    displays; and every temporary directory is removed. *)
Theorem captures_are_confirmed allow_uid c n b' sent r :
  handle_connection env allow_uid c (Broker n []) = (b', sent, r) →
  (cn_peer c ≠ Ok allow_uid → bk_log b' = [] ∧ sent = "" ∧ r ≠ Ok tt) ∧
  (∀ i capture p, bk_log b' !! i = Some (Captured capture p) →
     ∃ text target first captures j current,
       read_request c = Ok text ∧ decode_host_request text = Ok (RCapture target) ∧
       bk_log b' !! 0%nat = Some (Listed first) ∧
       select (sort_inventory first) target = Ok captures ∧ capture ∈ captures ∧
       i = S j ∧ bk_log b' !! j = Some (Listed current) ∧ shows first current capture) ∧
  (∀ d, TempMade d ∈ bk_log b' → TempRemoved d ∈ bk_log b').
Proof.
  intros Hh. unfold handle_connection in Hh.
  destruct (check_peer (cn_peer c) allow_uid) as [[]|e] eqn:Hpeer.
  - assert (Hok : cn_peer c = Ok allow_uid).
    { unfold check_peer in Hpeer. apply bind_Ok in Hpeer as (uid & -> & Hu). apply reject_if_Ok in Hu. breflect. by subst. }
    destruct (respond env (read_request c) (Broker n [])) as [b2 response] eqn:Hr.
    pose proof (respond_spec env (read_request c) (Broker n []) eq_refl) as Hspec.
    apply (wp_run _ _ _ _ _ Hspec) in Hr as [[Hcap Htemp] _].
    assert (b' = b2) as ->.
    { destruct response; [|by injection Hh]. destruct (cn_write_start c); [|by injection Hh].
      destruct (write_frame _ _ _). by injection Hh. }
    split; [by intros []|]. split; [|done]. intros i capture p Hi.
    destruct (Hcap _ _ _ Hi) as (first & target & captures & j & current & Hf & Hq & Hsel & Hin & -> & Hj & Hre).
    unfold request_of in Hq. destruct (read_request c) as [text|] eqn:Ht; [|done].
    destruct (decode_host_request text) as [request|] eqn:Hd; [|done]. injection Hq as ->.
    exists text, target, first, captures, j, current. split_and!; try done. by apply recheck_shows.
  - injection Hh as <- <- <-. split_and!; [done|done|]. by intros d Hd%elem_of_nil.
Qed.

(** * The exchange *)

Context `{!ObservationZipLaws, !HostCodecLaws}.

(** The steps of the daemon before it reads the answer succeed, sending [asked]. *)
Definition asks (lstat : list component → result string file_meta) (uid : N) (socket : string)
    (request : HostRequest) (peer_uid : N) (d : dialled) (json : string) : Prop :=
  check_client lstat uid socket peer_uid = Ok tt ∧ di_connect d = Ok tt ∧ di_peer d = Ok peer_uid ∧
  encode_host_request request = Ok json ∧
  ∃ start, di_write_start d = Ok start ∧
    (write_frame (start + seconds 5) json (Outgoing "" (di_sends d))).2 = Ok tt.

Lemma connect_asks lstat uid socket request peer_uid d json :
  asks lstat uid socket request peer_uid d json →
  connect lstat uid socket request peer_uid d =
    (be_bytes (len json) +:+ json,
     start ← di_read_start d;
     map_err (broker_closed uid) (read_frame (start + seconds 60) MAX_ARCHIVE (di_reads d)).2).
Proof.
  intros (Hc & Hco & Hp & He & start & Hs & Hw). unfold connect, check_peer.
  rewrite Hc, ok_bind, Hco, ok_bind, Hp, ok_bind, N.eqb_refl. cbn [negb reject_if].
  rewrite ok_bind, Hs, ok_bind, He, ok_bind.
  destruct (write_frame _ _ _) as [o r] eqn:E. cbn [snd] in Hw. subst r.
  by rewrite (proj1 (write_frame_sends _ _ _ _ E)), ok_bind.
Qed.

(** C18: When the broker has sent its answer and both sides' bytes arrive in time, in
    whatever pieces, the daemon decodes exactly one observation of its own request:
    a failure with no image, or the inventory with one image, named in order and a
    PNG, for every window or display the request selects. *)
Theorem observation_arrives lstat uid socket request peer_uid d json allow_uid c n b' sent start start' :
  sane env → handle_connection env allow_uid c (Broker n []) = (b', sent, Ok tt) →
  asks lstat uid socket request peer_uid d json →
  cn_read_start c = Ok start → delivers (start + seconds 5) (cn_reads c) →
  arrived (cn_reads c) = (connect lstat uid socket request peer_uid d).1 →
  di_read_start d = Ok start' → delivers (start' + seconds 60) (di_reads d) → arrived (di_reads d) = sent →
  ∃ bytes m images,
    (connect lstat uid socket request peer_uid d).2 = Ok bytes ∧ decode_archive bytes = Ok (m, images) ∧
    observed (Some request) (bk_log b') m images ∧ Forall (λ i, validate_png i = Ok tt) images.
Proof.
  intros Hsane Hh Hasks Hstart Hdel Harr Hstart' Hdel' Harr'.
  rewrite (connect_asks _ _ _ _ _ _ _ Hasks) in *. destruct Hasks as (_ & _ & _ & He & _). cbn [fst snd] in *.
  destruct (request_size _ _ He) as [Hj0 Hj1].
  assert (Hreq : request_of (read_request c) = Some request).
  { destruct (read_frame_delivers (start + seconds 5) MAX_REQUEST json "" (cn_reads c)) as (ev & Hr & _);
      [done|done|done|by rewrite string_app_nil|].
    unfold read_request. rewrite Hstart, ok_bind, Hr. cbn. by rewrite (request_round_trip _ _ He). }
  unfold handle_connection in Hh. destruct (check_peer (cn_peer c) allow_uid); [|done].
  destruct (respond env (read_request c) (Broker n [])) as [b2 [bytes|e]] eqn:Hr; [|done].
  pose proof (respond_spec env (read_request c) (Broker n []) eq_refl) as Hspec.
  apply (wp_run _ _ _ _ _ Hspec) in Hr as [_ (m & images & Henc & Hgood & Hobs)]. specialize (Hgood Hsane). rewrite Hreq in Hobs.
  destruct (cn_write_start c) as [w|]; [|done]. destruct (write_frame _ _ _) as [o r] eqn:Hw.
  injection Hh as <- Hsent ->. apply write_frame_sends in Hw as [Hog _]. rewrite Hsent in Hog.
  assert (Hlen : 0 < len bytes ≤ MAX_ARCHIVE).
  { unfold encode_archive in Henc. unbind Henc. breflect. injection Henc as <-. split; [|done]. by eapply oz_nonempty. }
  destruct (read_frame_delivers (start' + seconds 60) MAX_ARCHIVE bytes "" (di_reads d)) as (ev & Hread & _);
    [done|done|done|by rewrite string_app_nil, Harr'|].
  exists bytes, m, images.*2. rewrite Hstart', ok_bind, Hread. split_and!; [done| |done|].
  - by apply archive_decodes.
  - apply Forall_fmap. by destruct Hgood.
Qed.
End host.
