(* ===== verification/HostPublish.v ===== *)
(** The daemon's copy of an observation ([src/src/host_observation.rs]): it is
    decoded, given an identity of the daemon's own and published in a scratch
    directory.

    The scratch directory is new and private to the daemon, so nothing else changes
    it; but every call on it may fail.  Publication only touches its directory
    [observations]: the model keeps the directories in it with their files. *)
From Stdlib Require Import Ascii.
From stdpp Require Import base option strings numbers list gmap.
From S2P Require Import Prelude Effects RustStr Fs HostPng HostObservation HostTransport.

Local Open Scope N_scope.

(** An entry of [observations]: a directory with its files, or something else. *)
Inductive obs_entry := ODir (files : gmap string string) | OOther.

(** What stands at [observations]: nothing, something that cannot be used (no
    directory, or another user's), or the daemon's directory. *)
Inductive obs_slot := SlotNone | SlotBad (error : string) | SlotDir (entries : gmap string obs_entry).

(** The scratch directory, the files written into the staging directory so far,
    whether it has been published, and the calls made. *)
Record scratch := Scratch {
  sc_slot : obs_slot;
  sc_names : list string;
  sc_published : bool;
  sc_calls : nat;
}.

(** What the next call does: whether it fails, how much a failing write leaves, and
    the UUID and the time it draws. *)
Record PublishEnv := {
  pv_fault : option string;
  pv_partial : nat;
  pv_uuid : string;
  pv_timestamp : string;
}.

Section publish.
Context `{ObservationZip, HostCodec} (env : nat → PublishEnv).

Abbreviation pub := (eff scratch string).

Definition tick (s : scratch) : scratch := Scratch (sc_slot s) (sc_names s) (sc_published s) (S (sc_calls s)).
Definition set_slot (slot : obs_slot) (s : scratch) : scratch :=
  Scratch slot (sc_names s) (sc_published s) (sc_calls s).

(** A call that may fail without effect, and otherwise acts on [observations]. *)
Definition call {A} (f : obs_slot → obs_slot * result string A) : pub A := λ s,
  match pv_fault (env (sc_calls s)) with
  | Some e => (tick s, Err e)
  | None => let '(slot, r) := f (sc_slot s) in (set_slot slot (tick s), r)
  end.
Definition plain_call : pub unit := call (λ slot, (slot, Ok tt)).
Definition draw (f : PublishEnv → string) : pub string := λ s, (tick s, Ok (f (env (sc_calls s)))).

(** [c_name]. *)
Definition c_name (name : string) : pub string :=
  if contains_byte nul name then io_fail "nul byte found in provided data" else mret name.

Definition in_observations {A} (f : gmap string obs_entry → gmap string obs_entry * result string A)
    (slot : obs_slot) : obs_slot * result string A :=
  match slot with
  | SlotDir entries => let '(entries, r) := f entries in (SlotDir entries, r)
  | _ => (slot, Err "No such file or directory")
  end.

(** [open_directory]: one descriptor after the other from the root. *)
Definition open_step (c : component) : pub unit :=
  match c with
  | RootDir => mret tt
  | Normal name => _ ← c_name name; plain_call
  | _ => io_fail "artifact cwd contains traversal components"
  end.
Definition open_directory (path : string) : pub unit :=
  if negb (is_absolute path) then io_fail "artifact cwd must be absolute"
  else _ ← plain_call; io_each open_step (components path).

(** Opening the directory that was made, and reading its metadata. *)
Definition open_made : pub unit := _ ← plain_call; plain_call.

(** [mkdir_at(cwd, "observations", true)]. *)
Definition mkdir_observations : pub unit :=
  _ ← call (λ slot, match slot with
                    | SlotNone => (SlotDir ∅, Ok tt)
                    | _ => (slot, Ok tt)
                    end);
  _ ← open_made;
  call (λ slot, match slot with SlotBad e => (slot, Err e) | _ => (slot, Ok tt) end).

(** [mkdir_at(parent, name, false)]. *)
Definition mkdir_new (name : string) : pub unit :=
  name ← c_name name;
  _ ← call (in_observations (λ entries,
        match entries !! name with
        | Some _ => (entries, Err "File exists")
        | None => (<[name := ODir ∅]> entries, Ok tt)
        end));
  open_made.

Definition in_directory {A} (directory : string)
    (f : gmap string string → gmap string string * result string A) :
    obs_slot → obs_slot * result string A :=
  in_observations (λ entries,
    match entries !! directory with
    | Some (ODir files) => let '(files, r) := f files in (<[directory := ODir files]> entries, r)
    | _ => (entries, Err "No such file or directory")
    end).

(** Writing a new file; a write that fails leaves a part of it. *)
Definition write_data (directory name data : string) : pub unit := λ s,
  let e := env (sc_calls s) in
  let kept := match pv_fault e with Some _ => String.substring 0 (pv_partial e) data | None => data end in
  let '(slot, _) := in_directory directory (λ files, (<[name := kept]> files, Ok tt)) (sc_slot s) in
  (set_slot slot (tick s), match pv_fault e with Some e => Err e | None => Ok tt end).

Definition write_file_at (directory name data : string) : pub unit :=
  name ← c_name name;
  _ ← call (in_directory directory (λ files,
        match files !! name with
        | Some _ => (files, Err "File exists")
        | None => (<[name := EmptyString]> files, Ok tt)
        end));
  _ ← write_data directory name data;
  plain_call.

Definition push_name (name : string) : pub unit := λ s,
  (Scratch (sc_slot s) (sc_names s ++ [name]) (sc_published s) (sc_calls s), Ok tt).
Definition set_published : pub unit := λ s, (Scratch (sc_slot s) (sc_names s) true (sc_calls s), Ok tt).

(** [unlinkat] of a file, and of an empty directory. *)
Definition unlink_file (directory name : string) : pub unit :=
  call (in_directory directory (λ files, (delete name files, Ok tt))).
Definition remove_directory (name : string) : pub unit :=
  call (in_observations (λ entries,
    match entries !! name with
    | Some (ODir files) => if bool_decide (files = ∅) then (delete name entries, Ok tt)
                           else (entries, Err "Directory not empty")
    | _ => (entries, Err "Not a directory")
    end)).

(** [renameat] of the staging directory onto the reserved one. *)
Definition rename_directory (old new : string) : pub unit :=
  call (in_observations (λ entries,
    match entries !! old, entries !! new with
    | Some (ODir files), Some (ODir there) =>
        if bool_decide (there = ∅) then (<[new := ODir files]> (delete old entries), Ok tt)
        else (entries, Err "Directory not empty")
    | Some (ODir files), None => (<[new := ODir files]> (delete old entries), Ok tt)
    | _, _ => (entries, Err "Not a directory")
    end)).

(** A call whose outcome is not looked at. *)
Definition ignore (m : pub unit) : pub unit := λ s, ((m s).1, Ok tt).

(** [Staging::drop]. *)
Definition drop_staging (name : string) : pub unit := λ s,
  if sc_published s then (s, Ok tt)
  else (_ ← io_each (λ file, ignore (file ← c_name file; unlink_file name file)) (sc_names s);
        ignore (name ← c_name name; remove_directory name)) s.

(** A new [Staging]. *)
Definition new_staging : pub unit := λ s, (Scratch (sc_slot s) [] false (sc_calls s), Ok tt).

Definition with_path (path : string) (image : Image) : Image :=
  {| im_path := path; im_pid := im_pid image; im_window_id := im_window_id image;
     im_display_id := im_display_id image |}.

(** One turn of the loop over the images. *)
Definition publish_image (directory relative : string) (published : list Image) (item : Image * string) :
    pub (list Image) :=
  let '(image, data) := item in
  _ ← push_name (im_path image);
  _ ← write_file_at directory (im_path image) data;
  mret (published ++ [with_path (relative +:+ "/" +:+ im_path image) image]).

Definition with_images (images : list Image) (m : Manifest) : Manifest :=
  {| mf_schema_version := mf_schema_version m; mf_observation_id := mf_observation_id m;
     mf_captured_at := mf_captured_at m; mf_status := mf_status m; mf_inventory := mf_inventory m;
     mf_images := images; mf_errors := mf_errors m |}.

(** What happens while the staging directory is guarded. *)
Definition publish_staged (directory : string) (manifest : Manifest) (images : list string) : pub Manifest :=
  let relative := "observations/" +:+ mf_observation_id manifest in
  renamed ← io_fold (publish_image directory relative) [] (zip (mf_images manifest) images);
  let manifest := with_images (renamed ++ drop (length renamed) (mf_images manifest)) manifest in
  _ ← push_name "manifest.json";
  json ← io_lift (encode_manifest manifest);
  _ ← write_file_at directory "manifest.json" json;
  _ ← plain_call;
  _ ← mkdir_new (mf_observation_id manifest);
  old ← c_name directory;
  new ← c_name (mf_observation_id manifest);
  moved ← io_try (rename_directory old new);
  match moved with
  | Err e => _ ← ignore (remove_directory new); io_fail e
  | Ok _ =>
      _ ← set_published;
      _ ← plain_call;
      mret manifest
  end.

Definition publish_decoded (manifest : Manifest) (images : list string) (cwd : string) : pub Manifest :=
  _ ← open_directory cwd;
  _ ← mkdir_observations;
  uuid ← draw pv_uuid;
  let name := ".host-staging-" +:+ uuid in
  _ ← mkdir_new name;
  _ ← new_staging;
  r ← io_try (publish_staged name manifest images);
  _ ← drop_staging name;
  io_lift r.

(** [observe]: [answer] is what [connect] returned. *)
Definition with_id (id : string) (m : Manifest) : Manifest :=
  {| mf_schema_version := mf_schema_version m; mf_observation_id := id;
     mf_captured_at := mf_captured_at m; mf_status := mf_status m; mf_inventory := mf_inventory m;
     mf_images := mf_images m; mf_errors := mf_errors m |}.

Definition failed_manifest (error : string) : pub Manifest :=
  uuid ← draw pv_uuid;
  captured_at ← draw pv_timestamp;
  mret (fail error {| mf_schema_version := "1"; mf_observation_id := "host-" +:+ uuid;
                      mf_captured_at := captured_at; mf_status := "succeeded"; mf_inventory := None;
                      mf_images := []; mf_errors := [] |}).

Definition observe_host (request : HostRequest) (answer : result string string) (cwd : string) : pub Manifest :=
  _ ← io_lift (validate_host_request request);
  '(manifest, images) ← match (bytes ← answer; decode_archive bytes) with
    | Ok value => mret value
    | Err error => manifest ← failed_manifest error; mret (manifest, [])
    end;
  uuid ← draw pv_uuid;
  publish_decoded (with_id ("host-" +:+ uuid) manifest) images cwd.
End publish.

(** * An observation appears under its name whole or not at all. *)

(** What stands under a name in [observations]. *)
Definition published_at (name : string) (s : scratch) : option obs_entry :=
  match sc_slot s with SlotDir entries => entries !! name | _ => None end.

(** The files that were written. *)
Definition file_map (l : list (string * string)) : gmap string string :=
  foldl (λ files f, <[f.1 := f.2]> files) ∅ l.

Lemma file_map_snoc l f : file_map (l ++ [f]) = <[f.1 := f.2]> (file_map l).
Proof. unfold file_map. by rewrite foldl_app. Qed.

Section publish.
Context `{ObservationZip, HostCodec} (env : nat → PublishEnv).

Lemma wp_call {A} (f : obs_slot → obs_slot * result string A) s Q :
  (∀ e, Q (tick s) (Err e)) → (let '(slot, r) := f (sc_slot s) in Q (set_slot slot (tick s)) r) →
  wp (call env f) s Q.
Proof. intros He Hs. unfold wp, call. destruct (pv_fault _); [apply He|]. by destruct (f (sc_slot s)). Qed.

(** Computations that leave [observations] as it is. *)
Definition unmoved {A} (m : eff scratch string A) : Prop := ∀ s, wp m s (λ s' _, sc_slot s' = sc_slot s).

Lemma unmoved_bind {A B} (m : eff scratch string A) (k : A → eff scratch string B) :
  unmoved m → (∀ a, unmoved (k a)) → unmoved (m ≫= k).
Proof.
  intros Hm Hk s. apply wp_bind. eapply wp_mono; [apply Hm|]. intros s' [a|e] Hs'; [|done].
  eapply wp_mono; [apply Hk|]. intros s'' r Hs''. congruence.
Qed.
Lemma unmoved_call : unmoved (plain_call env).
Proof. intros s. by apply wp_call. Qed.
Lemma unmoved_ret {A} (a : A) : unmoved (mret a).
Proof. done. Qed.
Lemma unmoved_fail {A} e : unmoved (A := A) (io_fail e).
Proof. done. Qed.
Lemma unmoved_name name : unmoved (c_name name).
Proof. unfold c_name. by destruct (contains_byte nul name). Qed.
Hint Resolve unmoved_bind unmoved_call unmoved_ret unmoved_fail unmoved_name : core.

Lemma unmoved_open path : unmoved (open_directory env path).
Proof.
  unfold open_directory. destruct (is_absolute path); cbn; [|done]. apply unmoved_bind; [done|]. intros _.
  induction (components path) as [|c cs IH]; [done|]. cbn [io_each]. apply unmoved_bind; [|done].
  destruct c; cbn; eauto.
Qed.
Lemma unmoved_open_made : unmoved (open_made env).
Proof. unfold open_made. eauto. Qed.

(** * The staging directory *)

Context (name id : string) (Hne : name ≠ id).

(** The staging directory holds [files], and [old] stands at the destination. *)
Definition staged_at (files : gmap string string) (old : option obs_entry) (s : scratch) : Prop :=
  ∃ entries, sc_slot s = SlotDir entries ∧ entries !! name = Some (ODir files) ∧ entries !! id = old.

Lemma staging_at files old s : staged_at files old s → published_at id s = old.
Proof. intros (es & Hs & _ & Hi). unfold published_at. by rewrite Hs. Qed.

Lemma staging_slot files old s s' : sc_slot s' = sc_slot s → staged_at files old s → staged_at files old s'.
Proof. intros He (es & Hs & Hn & Hi). exists es. by rewrite He. Qed.

Lemma unmoved_staging {A} (m : eff scratch string A) files old s :
  unmoved m → staged_at files old s → wp m s (λ s' _, staged_at files old s').
Proof. intros Hm Hs. eapply wp_mono; [apply Hm|]. intros s' r He. by apply (staging_slot _ _ s). Qed.

(** A call on the files of the staging directory. *)
Lemma wp_in_directory {A} (f : gmap string string → gmap string string * result string A) files old s
    (Q : scratch → result string A → Prop) :
  staged_at files old s → (∀ s' e, staged_at files old s' → Q s' (Err e)) →
  (∀ s', staged_at (f files).1 old s' → Q s' (f files).2) →
  wp (call env (in_directory name f)) s Q.
Proof.
  intros Hst He Ho. apply wp_call; [intros e; apply He; by apply (staging_slot _ _ s)|].
  destruct Hst as (es & Hs & Hn & Hi). rewrite Hs. unfold in_directory, in_observations. rewrite Hn.
  destruct (f files) as [files' r] eqn:Hf. cbn [fst snd] in Ho. apply Ho.
  exists (<[name := ODir files']> es). by rewrite lookup_insert_eq, lookup_insert_ne.
Qed.

Lemma wp_name file s Q : (∀ e, Q s (Err e)) → Q s (Ok file) → wp (c_name file) s Q.
Proof. intros He Ho. unfold c_name. by destruct (contains_byte nul file); [apply wp_fail|apply wp_ret]. Qed.

Lemma wp_write_data file data files old s (Q : scratch → result string unit → Prop) :
  staged_at files old s →
  (∀ s' e kept, staged_at (<[file := kept]> files) old s' → Q s' (Err e)) →
  (∀ s', staged_at (<[file := data]> files) old s' → Q s' (Ok tt)) →
  wp (write_data env name file data) s Q.
Proof.
  intros (es & Hs & Hn & Hi) He Ho. unfold wp, write_data, in_directory, in_observations. rewrite Hs, Hn.
  destruct (pv_fault _) as [e|]; cbn; [eapply He|apply Ho]; eexists; cbn;
    (split_and!; [done|apply lookup_insert_eq|by rewrite lookup_insert_ne]).
Qed.

Lemma write_file_spec file data files old s :
  staged_at files old s →
  wp (write_file_at env name file data) s (λ s' r,
    match r with
    | Ok _ => staged_at (<[file := data]> files) old s'
    | Err _ => ∃ files', staged_at files' old s'
    end).
Proof.
  intros Hs. unfold write_file_at. apply wp_bind, wp_name; [by eauto|].
  apply wp_bind. eapply wp_in_directory; [done|by eauto|]. intros s1 Hs1.
  destruct (files !! file); cbn [fst snd] in *; [by eauto|].
  apply wp_bind. eapply wp_write_data; [done|by eauto|]. intros s2 Hs2.
  rewrite insert_insert_eq in Hs2. eapply wp_mono; [by apply unmoved_staging; [apply unmoved_call|]|].
  intros s3 [[]|e]; eauto.
Qed.

Lemma push_name_spec file files old s :
  staged_at files old s → wp (push_name file) s (λ s' r, r = Ok tt ∧ staged_at files old s').
Proof. intros Hs. split; [done|]. by apply (staging_slot _ _ s). Qed.

Lemma publish_image_spec relative published image data l old s :
  staged_at (file_map l) old s →
  wp (publish_image env name relative published (image, data)) s (λ s' r,
    match r with
    | Ok published' =>
        published' = published ++ [with_path (relative +:+ "/" +:+ im_path image) image] ∧
        staged_at (file_map (l ++ [(im_path image, data)])) old s'
    | Err _ => ∃ files', staged_at files' old s'
    end).
Proof.
  intros Hs. unfold publish_image. apply wp_bind. eapply wp_mono; [by eapply push_name_spec|].
  intros s1 r [-> Hs1]. apply wp_bind. eapply wp_mono; [by eapply write_file_spec|].
  intros s2 [[]|e] Hs2; [|done]. apply wp_ret. by rewrite file_map_snoc.
Qed.

Lemma publish_images_spec relative items old s :
  staged_at ∅ old s →
  wp (io_fold (publish_image env name relative) [] items) s (λ s' r,
    match r with
    | Ok published =>
        published = (λ i, with_path (relative +:+ "/" +:+ im_path i.1) i.1) <$> items ∧
        staged_at (file_map ((λ i, (im_path i.1, i.2)) <$> items)) old s'
    | Err _ => ∃ files', staged_at files' old s'
    end).
Proof.
  intros Hs.
  apply (wp_fold _ (λ s published dn,
           published = (λ i, with_path (relative +:+ "/" +:+ im_path i.1) i.1) <$> dn ∧
           staged_at (file_map ((λ i, (im_path i.1, i.2)) <$> dn)) old s)
           (λ s _, ∃ files', staged_at files' old s) items []); [|done].
  intros published dn [image data] s1 _ [-> Hs1].
  eapply wp_mono; [by apply publish_image_spec|]. intros s2 [published'|e]; [|done].
  rewrite !fmap_app. done.
Qed.

(** * The destination *)

Lemma mkdir_new_spec files old s :
  staged_at files old s →
  wp (mkdir_new env id) s (λ s' r,
    match r with
    | Ok _ => old = None ∧ staged_at files (Some (ODir ∅)) s'
    | Err _ => staged_at files old s' ∨ old = None ∧ staged_at files (Some (ODir ∅)) s'
    end).
Proof.
  intros Hs. unfold mkdir_new. apply wp_bind, wp_name; [by auto|]. apply wp_bind, wp_call.
  { intros e. left. by apply (staging_slot _ _ s). }
  destruct Hs as (es & Hs & Hn & Hi). rewrite Hs. cbn. rewrite Hi. destruct old as [x|].
  { left. by exists es. }
  set (s1 := set_slot _ _). assert (Hs1 : staged_at files (Some (ODir ∅)) s1).
  { exists (<[id := ODir ∅]> es). split_and!; [done|by rewrite lookup_insert_ne|apply lookup_insert_eq]. }
  clearbody s1. eapply wp_mono; [by apply unmoved_staging; [apply unmoved_open_made|]|].
  intros s2 [[]|e]; auto.
Qed.

Lemma rename_spec files s :
  staged_at files (Some (ODir ∅)) s →
  wp (rename_directory env name id) s (λ s' r,
    match r with
    | Ok _ => published_at id s' = Some (ODir files)
    | Err _ => staged_at files (Some (ODir ∅)) s'
    end).
Proof.
  intros Hs. apply wp_call; [intros e; by apply (staging_slot _ _ s)|].
  destruct Hs as (es & Hs & Hn & Hi). rewrite Hs. cbn. rewrite Hn, Hi, bool_decide_true by done.
  unfold published_at. cbn. apply lookup_insert_eq.
Qed.

Lemma remove_reserved files s :
  staged_at files (Some (ODir ∅)) s →
  wp (ignore (remove_directory env id)) s (λ s' _,
    published_at id s' = None ∨ published_at id s' = Some (ODir ∅)).
Proof.
  intros Hs. unfold ignore, wp. cbn [fst].
  apply (wp_call (A := unit) _ s (λ s' _, published_at id s' = None ∨ published_at id s' = Some (ODir ∅))).
  { intros _. right. by apply (staging_at files), (staging_slot _ _ s). }
  destruct Hs as (es & Hs & Hn & Hi). rewrite Hs. cbn. rewrite Hi, bool_decide_true by done.
  left. unfold published_at. cbn. apply lookup_delete_eq.
Qed.

(** Cleaning up the staging directory does not touch the destination. *)
Lemma keeps_destination {A} (f : obs_slot → obs_slot * result string A) s :
  (∀ es r slot, f (SlotDir es) = (slot, r) → ∃ es', slot = SlotDir es' ∧ es' !! id = es !! id) →
  (∀ slot, (∀ es, slot ≠ SlotDir es) → (f slot).1 = slot) →
  wp (call env f) s (λ s' _, published_at id s' = published_at id s).
Proof.
  intros Hd Hn. apply wp_call; [done|]. unfold published_at. destruct (sc_slot s) as [| |es].
  - specialize (Hn SlotNone ltac:(done)). destruct (f _). cbn in *. by subst.
  - specialize (Hn (SlotBad error) ltac:(done)). destruct (f _). cbn in *. by subst.
  - destruct (f (SlotDir es)) as [slot r] eqn:Hf. by destruct (Hd _ _ _ Hf) as (es' & -> & ?).
Qed.

Lemma drop_staging_spec s : wp (drop_staging env name) s (λ s' r, r = Ok tt ∧ published_at id s' = published_at id s).
Proof.
  assert (Hu : ∀ file s, wp (unlink_file env name file) s (λ s' _, published_at id s' = published_at id s)).
  { intros file s'. apply keeps_destination.
    - intros es r slot. unfold in_directory, in_observations. destruct (es !! name) as [[files|]|]; cbn;
        intros [= <- <-]; eexists; split; try done. by rewrite lookup_insert_ne.
    - by intros [] Hs; [..|destruct (Hs entries)]. }
  assert (Hr : ∀ s, wp (remove_directory env name) s (λ s' _, published_at id s' = published_at id s)).
  { intros s'. apply keeps_destination.
    - intros es r slot. unfold in_observations. destruct (es !! name) as [[files|]|]; cbn;
        [case_bool_decide|..]; cbn; intros [= <- <-]; eexists; split; try done. by rewrite lookup_delete_ne.
    - by intros [] Hs; [..|destruct (Hs entries)]. }
  assert (Hi : ∀ (m : eff scratch string unit) s, (∀ s, wp m s (λ s' _, published_at id s' = published_at id s)) →
    wp (ignore m) s (λ s' r, r = Ok tt ∧ published_at id s' = published_at id s)).
  { intros m s' Hm. split; [done|]. apply Hm. }
  assert (Hn : ∀ (k : string → eff scratch string unit) file, (∀ s, wp (k file) s (λ s' _, published_at id s' = published_at id s)) →
    ∀ s, wp (x ← c_name file; k x) s (λ s' _, published_at id s' = published_at id s)).
  { intros k file Hk s'. apply wp_bind, wp_name; [done|]. apply Hk. }
  unfold wp, drop_staging. destruct (sc_published s); [done|].
  apply (wp_bind (io_each _ (sc_names s)) _ s (λ s' r, r = Ok tt ∧ published_at id s' = published_at id s)).
  eapply (wp_mono _ _ (λ s' r, r = Ok tt ∧ published_at id s' = published_at id s)).
  - generalize (sc_names s). intros names. revert s. induction names as [|file names IH]; intros s; [done|].
    cbn [io_each]. apply wp_bind. eapply wp_mono; [apply Hi; auto|]. intros s1 r [-> Hs1].
    eapply wp_mono; [apply IH|]. intros s2 r [-> Hs2]. split; congruence.
  - intros s1 r [-> Hs1]. eapply wp_mono; [apply Hi; auto|]. intros s2 r [-> Hs2]. split; congruence.
Qed.

(** * Publication *)

(** The manifest as it is published: the images under the observation's path. *)
Definition published_manifest (m : Manifest) (images : list string) : Manifest :=
  let relative := "observations/" +:+ mf_observation_id m in
  let moved := (λ i, with_path (relative +:+ "/" +:+ im_path i.1) i.1) <$>
                 zip (mf_images m) images in
  with_images (moved ++ drop (length moved) (mf_images m)) m.

(** The whole observation stands at the destination. *)
Definition whole (m : Manifest) (images : list string) (s : scratch) : Prop :=
  ∃ json, encode_manifest (published_manifest m images) = Ok json ∧
    published_at (mf_observation_id m) s =
      Some (ODir (<["manifest.json" := json]> (file_map ((λ i, (im_path i.1, i.2)) <$> zip (mf_images m) images)))).

(** What stands at the destination at the end: what was there, an empty directory
    that was reserved, or the whole observation. *)
Definition outcome (m : Manifest) (images : list string) (old : option obs_entry) (s : scratch) : Prop :=
  published_at (mf_observation_id m) s = old ∨
  old = None ∧ published_at (mf_observation_id m) s = Some (ODir ∅) ∨
  whole m images s.

Lemma outcome_same m images old s s' :
  published_at (mf_observation_id m) s' = published_at (mf_observation_id m) s →
  (outcome m images old s → outcome m images old s') ∧ (whole m images s → whole m images s').
Proof. intros He. unfold outcome, whole. by rewrite He. Qed.

Lemma publish_staged_spec m images old s :
  mf_observation_id m = id → staged_at ∅ old s →
  wp (publish_staged env name m images) s (λ s' r,
    outcome m images old s' ∧
    match r with Ok m' => m' = published_manifest m images ∧ whole m images s' | Err _ => True end).
Proof.
  intros Hid Hs. assert (Hold : ∀ files s, staged_at files old s → outcome m images old s).
  { intros files s' Hs'. left. rewrite Hid. by eapply staging_at. }
  unfold publish_staged. apply wp_bind. eapply wp_mono; [by apply publish_images_spec|].
  intros s1 [moved|e]; [|intros [files Hs1]; split; [by eapply Hold|done]].
  intros [-> Hs1]. cbv zeta. set (files := file_map _) in Hs1.
  change (with_images _ m) with (published_manifest m images).
  apply wp_bind. eapply wp_mono; [by eapply push_name_spec|]. intros s2 r [-> Hs2].
  apply wp_bind, wp_lift. destruct (encode_manifest _) as [json|] eqn:Hjson; [|split; [by eapply Hold|done]].
  apply wp_bind. eapply wp_mono; [by eapply write_file_spec|].
  intros s3 [[]|e] Hs3; [|destruct Hs3; split; [by eapply Hold|done]].
  apply wp_bind. eapply wp_mono; [by apply unmoved_staging; [apply unmoved_call|]|].
  intros s4 [[]|e] Hs4; [|split; [by eapply Hold|done]].
  change (mf_observation_id (published_manifest m images)) with (mf_observation_id m). rewrite Hid.
  apply wp_bind. eapply wp_mono; [by apply mkdir_new_spec|]. intros s5 [[]|e] Hs5.
  2: { split; [|done]. destruct Hs5 as [Hs5|[-> Hs5]]; [by eapply Hold|]. right; left. rewrite Hid. split; [done|].
       by eapply staging_at. }
  destruct Hs5 as [-> Hs5].
  assert (Hempty : ∀ s files, staged_at files (Some (ODir ∅)) s → outcome m images None s).
  { intros s' fs Hs'. right; left. rewrite Hid. split; [done|]. by eapply staging_at. }
  apply wp_bind, wp_name; [intros; split; [by eapply Hempty|done]|].
  apply wp_bind, wp_name; [intros; split; [by eapply Hempty|done]|].
  apply wp_bind, wp_try. eapply wp_mono; [by apply rename_spec|]. intros s6 [[]|e] Hs6.
  - assert (Hwhole : whole m images s6) by (exists json; by rewrite Hid).
    apply wp_bind. eapply (wp_mono _ _ (λ s' r, r = Ok tt ∧ published_at id s' = published_at id s6)); [done|].
    intros s7 r [-> Hs7]. rewrite <-Hid in Hs7. apply (outcome_same _ images None) in Hs7 as [_ Hs7]. specialize (Hs7 Hwhole).
    apply wp_bind. eapply wp_mono; [apply unmoved_call|]. intros s8 r Hs8.
    assert (Hw8 : whole m images s8) by (eapply (outcome_same _ _ None s7); [|done]; unfold published_at; by rewrite Hs8).
    destruct r as [[]|e]; [apply wp_ret; split; [|done]|split; [|done]]; right; by right.
  - apply wp_bind. eapply wp_mono; [by eapply remove_reserved|]. intros s7 r Hs7.
    assert (outcome m images None s7).
    { rewrite <-Hid in Hs7. destruct Hs7; [by left|right; left; by split]. }
    by destruct r.
Qed.
End publish.

Section observe_host.
Context `{ObservationZip, HostCodec} (env : nat → PublishEnv).

(** Preparing the directory of observations. *)
Lemma mkdir_observations_spec id s :
  wp (mkdir_observations env) s (λ s' _, published_at id s' = published_at id s).
Proof.
  unfold mkdir_observations. apply wp_bind, wp_call; [done|]. unfold published_at.
  set (f := λ slot, match slot with SlotDir entries => entries !! id | _ => None end).
  assert (Hk : ∀ s1, f (sc_slot s1) = f (sc_slot s) →
    wp (_ ← open_made env; call env (λ slot, match slot with SlotBad e => (slot, Err e) | _ => (slot, Ok tt) end)) s1
      (λ s' _, f (sc_slot s') = f (sc_slot s))).
  { intros s1 Hs1. apply wp_bind. eapply wp_mono; [apply unmoved_open_made|]. intros s2 [[]|e] Hs2; [|by rewrite Hs2].
    rewrite <-Hs2 in Hs1. apply wp_call; [done|]. by destruct (sc_slot s2). }
  by destruct (sc_slot s) eqn:Hs; cbn; apply Hk; cbn.
Qed.

(** Making the staging directory. *)
Lemma mkdir_staging_spec name id s :
  name ≠ id →
  wp (mkdir_new env name) s (λ s' r,
    published_at id s' = published_at id s ∧
    match r with Ok _ => staged_at name id ∅ (published_at id s) s' | Err _ => True end).
Proof.
  intros Hne. unfold mkdir_new. apply wp_bind, wp_name; [done|]. apply wp_bind, wp_call; [done|].
  unfold published_at. destruct (sc_slot s) as [| |es] eqn:Hs; cbn; [done..|].
  destruct (es !! name); cbn; [done|]. set (s1 := set_slot _ _).
  assert (Hs1 : staged_at name id ∅ (es !! id) s1).
  { eexists. split; [done|]. split; [apply lookup_insert_eq|by rewrite lookup_insert_ne]. }
  assert (Hp : published_at id s1 = es !! id) by by eapply staging_at.
  clearbody s1. eapply wp_mono; [apply unmoved_open_made|]. intros s2 r Hs2. unfold published_at in Hp.
  rewrite <-Hs2 in Hp. split; [done|]. destruct r as [[]|]; [|done]. by apply (staging_slot _ _ _ _ s1).
Qed.

Lemma publish_decoded_spec m images cwd s u :
  mf_observation_id m = "host-" +:+ u →
  wp (publish_decoded env m images cwd) s (λ s' r,
    outcome m images (published_at (mf_observation_id m) s) s' ∧
    match r with Ok m' => m' = published_manifest m images ∧ whole m images s' | Err _ => True end).
Proof.
  intros Hid. unfold publish_decoded. set (id := mf_observation_id m) in *.
  assert (Hsame : ∀ s', published_at id s' = published_at id s → outcome m images (published_at id s) s') by by left.
  apply wp_bind. eapply wp_mono; [apply unmoved_open|]. intros s1 [[]|e] Hs1;
    [|split; [apply Hsame; unfold published_at; by rewrite Hs1|done]].
  assert (Hp1 : published_at id s1 = published_at id s) by (unfold published_at; by rewrite Hs1).
  apply wp_bind. eapply wp_mono; [apply (mkdir_observations_spec id)|]. intros s2 [[]|e] Hs2;
    [|split; [apply Hsame; congruence|done]].
  apply wp_bind. unfold draw at 1, wp at 1. cbn [fst snd]. set (name := ".host-staging-" +:+ _).
  assert (Hne : name ≠ id) by (rewrite Hid; done).
  apply wp_bind. eapply wp_mono; [by apply (mkdir_staging_spec name id)|]. intros s3 [[]|e] [Hs3 Hst];
    change (published_at id (tick s2)) with (published_at id s2) in *; [|split; [apply Hsame; congruence|done]].
  apply wp_bind. eapply (wp_mono _ _ (λ s' r, r = Ok tt ∧ staged_at name id ∅ (published_at id s2) s')).
  { split; [done|]. by apply (staging_slot _ _ _ _ s3). }
  intros s4 r [-> Hs4]. apply wp_bind, wp_try.
  eapply wp_mono; [by apply (publish_staged_spec env name id Hne m images (published_at id s2) s4)|].
  intros s5 r [Ho Hr]. rewrite Hs2, Hp1 in Ho. apply wp_bind. eapply wp_mono; [by apply (drop_staging_spec env name id Hne)|].
  intros s6 r' [-> Hs6]. apply wp_lift.
  destruct (outcome_same m images (published_at id s) s5 s6 Hs6) as [Ho' Hw']. split; [by apply Ho'|].
  destruct r as [m'|]; [|done]. destruct Hr as [-> Hr]. split; [done|by apply Hw'].
Qed.

(** What the daemon takes from the broker's answer: the decoded observation, or a
    failure with the reason as its only error. *)
Definition taken (answer : result string string) (m : Manifest) (images : list string) : Prop :=
  match answer ≫= decode_archive with
  | Ok (m0, images0) => m = with_id (mf_observation_id m) m0 ∧ images = images0
  | Err error => mf_status m = "failed" ∧ mf_errors m = [error] ∧ mf_images m = [] ∧ images = []
  end.

(** C19: Whatever the broker answers and whichever calls fail, an observation appears
    under the daemon's own new identity whole, with its manifest and exactly the
    decoded images, or not at all (at most an empty directory is left); the daemon
    reports it only when it is whole; and what it publishes is what the broker sent,
    or a failure with the reason. *)
Theorem observation_published_whole request answer cwd s s' r :
  validate_host_request request = Ok tt → observe_host env request answer cwd s = (s', r) →
  ∃ m images k, mf_observation_id m = "host-" +:+ pv_uuid (env k) ∧ taken answer m images ∧
    outcome m images (published_at (mf_observation_id m) s) s' ∧
    (∀ m', r = Ok m' → m' = published_manifest m images ∧ whole m images s').
Proof.
  intros Hv Ho. refine (wp_run _ _ (λ s' r, ∃ m images k, mf_observation_id m = "host-" +:+ pv_uuid (env k) ∧
    taken answer m images ∧ outcome m images (published_at (mf_observation_id m) s) s' ∧
    (∀ m', r = Ok m' → m' = published_manifest m images ∧ whole m images s')) _ _ _ Ho). clear Ho s' r.
  unfold observe_host. apply wp_bind, wp_lift. rewrite Hv. apply wp_bind.
  change (answer ≫= λ bytes, decode_archive bytes) with (answer ≫= decode_archive).
  eapply (wp_mono _ _ (λ s1 r, sc_slot s1 = sc_slot s ∧ ∃ m0 images, r = Ok (m0, images) ∧
            ∀ u, taken answer (with_id u m0) images)).
  { unfold taken. destruct (answer ≫= decode_archive) as [[m0 images]|e]; [by apply wp_ret; eauto 6|].
    split; [done|]. eexists _, _. split; [done|]. done. }
  intros s1 r (Hs1 & m0 & images & -> & Ht). apply wp_bind. unfold draw, wp at 1. cbn [fst snd].
  eapply wp_mono; [by eapply publish_decoded_spec|]. intros s' r [Ho Hr].
  exists (with_id ("host-" +:+ pv_uuid (env (sc_calls s1))) m0), images, (sc_calls s1). split; [done|]. split; [apply Ht|]. split.
  - unfold published_at in Ho at 1. cbn [sc_slot tick] in Ho. by rewrite Hs1 in Ho.
  - intros m' ->. apply Hr.
Qed.
End observe_host.
