(* ===== verification/HttpHost.v ===== *)
(** The host observation endpoints of the HTTP service ([src/src/http/host.rs]).

    One observation runs at a time: a request takes the only slot and hands it to a
    blocking worker, which keeps it until the broker's answer is stored, even when
    the client has gone.  As in [Http], an environment indexed by the number of calls
    made decides what the others do and which signal reaches a waiting handler.  The
    router of both files' endpoints is at the end of the handlers. *)
From Stdlib Require Import Ascii.
From stdpp Require Import base option strings numbers list gmap pretty.
From S2P Require Import Prelude Effects RustStr Fs Bearer Auth Protocol Config Artifacts Sessions Http HostPng HostObservation HostTransport HostPublish.

Local Open Scope N_scope.

Record ObservationResponse := {
  or_manifest : Manifest;
  or_artifacts : option ArtifactArchive;
  or_artifact_restrictions : option ArtifactRestrictions;
}.

Abbreviation host_reply := (response (ObservationResponse + string)).

Definition disabled : host_reply := JsonError NOT_FOUND "host_observation_disabled".

(** What a request takes and gives, in order. *)
Inductive host_deed :=
| SlotTaken
| SlotReturned
| ScratchMade
| ScratchRemoved
| Asked (request : HostRequest)
| StorageMade (id : string)
| StorageRemoved (id : string).

(** The free host slots and what this request did. *)
Record host_daemon := HostDaemon { hd_calls : nat; hd_slots : N; hd_deeds : list host_deed }.

(** What the next call finds. *)
Record HostHttpEnv := {
  hx_others : N → N;
  hx_signal : signal;
  hx_scratch : result string string;
  hx_canonicalize : result string string;
  hx_observe : string → N → HostRequest → string → result string Manifest;
  hx_mkdir : string → result string unit;
  hx_collect : string → string → result string ArtifactCollection;
  hx_join_error : option string;
  hx_resolve : string → result io_error string;
  hx_open : string → result io_error string;
}.

(** How a handler leaves early. *)
Inductive host_leave := HostAnswer (r : host_reply) | HostDropped.

Section handlers.
Context `{AuthCrates, HostCodec} (env : nat → HostHttpEnv) (st : AppState).

Abbreviation hh := (eff host_daemon host_leave).

Definition host_ask {A} (f : HostHttpEnv → A) : hh A := λ s,
  (HostDaemon (S (hd_calls s)) (hd_slots s) (hd_deeds s), Ok (f (env (hd_calls s)))).
Definition host_note (d : host_deed) : hh unit := λ s,
  (HostDaemon (hd_calls s) (hd_slots s) (hd_deeds s ++ [d]), Ok tt).
Definition host_answer {A} (r : host_reply) : hh A := io_fail (HostAnswer r).

Definition host_authorized (headers : list (string * string)) : hh unit :=
  match authorize headers (as_auth st) (as_auth_required st) with
  | Some response => host_answer response
  | None => mret tt
  end.

(** [.await]: the others run; a timer ends the wait when one is armed. *)
Definition host_await (timer : option host_reply) : hh unit :=
  others ← host_ask hx_others;
  _ ← (λ s, (HostDaemon (hd_calls s) (others (hd_slots s)) (hd_deeds s), Ok tt));
  signal ← host_ask hx_signal;
  match signal with
  | FutureDropped => io_fail HostDropped
  | TimerFires => match timer with Some r => host_answer r | None => mret tt end
  | Goes | SessionCancelled => mret tt
  end.

Definition take_slot : hh unit := λ s,
  if hd_slots s =? 0 then (s, Err (HostAnswer (RetryAfter SERVICE_UNAVAILABLE "busy" 0)))
  else (HostDaemon (hd_calls s) (hd_slots s - 1) (hd_deeds s ++ [SlotTaken]), Ok tt).
Definition return_slot : hh unit := λ s,
  (HostDaemon (hd_calls s) (hd_slots s + 1) (hd_deeds s ++ [SlotReturned]), Ok tt).

Definition body_timed_out : host_reply := JsonError REQUEST_TIMEOUT "host request body timed out".
Definition body_invalid : host_reply :=
  JsonError BAD_REQUEST "host request exceeds 4096 bytes or body is invalid".

(** [to_bytes] under the timeout. *)
Fixpoint host_body (data : string) (chunks : list (result string string)) : hh string :=
  _ ← host_await (Some body_timed_out);
  match chunks with
  | [] => mret data
  | Err _ :: _ => host_answer body_invalid
  | Ok chunk :: chunks =>
      if MAX_REQUEST <? len data + len chunk then host_answer body_invalid
      else host_body (data +:+ chunk) chunks
  end.

(** The worker's body, from the scratch directory on; its errors are texts. *)
Definition worker : Type → Type := eff host_daemon string.
Definition work_ask {A} (f : HostHttpEnv → result string A) : worker A := λ s,
  (HostDaemon (S (hd_calls s)) (hd_slots s) (hd_deeds s), f (env (hd_calls s))).
Definition work_note (d : host_deed) : worker unit := λ s,
  (HostDaemon (hd_calls s) (hd_slots s) (hd_deeds s ++ [d]), Ok tt).

Definition observation_path (id : string) : string := "/v1/host/observations/" +:+ id +:+ "/artifacts.zip".

(** Storing the observation among the artifacts. *)
Definition store_observation (scratch : string) (manifest : Manifest) : worker ObservationResponse :=
  let id := mf_observation_id manifest in
  let destination := path_join (ar_storage_root (cf_artifacts (as_config st))) id in
  _ ← work_ask (λ e, hx_mkdir e destination);
  _ ← work_note (StorageMade id);
  collected ← io_try (work_ask (λ e, hx_collect e scratch id));
  match collected with
  | Err error => _ ← work_note (StorageRemoved id); io_fail error
  | Ok collection =>
      _ ← (if is_none (ac_archive collection) then work_note (StorageRemoved id) else mret tt);
      mret {| or_manifest := manifest;
              or_artifacts := (λ a, {| aa_path := observation_path id; aa_size := aa_size a |}) <$> ac_archive collection;
              or_artifact_restrictions := ac_restrictions collection |}
  end.

Definition observe_in (scratch : string) (request : HostRequest) : worker ObservationResponse :=
  scratch_path ← work_ask hx_canonicalize;
  socket ← option_expect (ho_socket (cf_host_observation (as_config st))) "host socket is not configured";
  peer_uid ← option_expect (ho_peer_uid (cf_host_observation (as_config st))) "host peer UID is not configured";
  _ ← work_note (Asked request);
  manifest ← work_ask (λ e, hx_observe e socket peer_uid request scratch_path);
  store_observation scratch_path manifest.

(** The scratch directory is removed when the worker ends. *)
Definition run_worker (request : HostRequest) : worker ObservationResponse :=
  scratch ← work_ask hx_scratch;
  _ ← work_note ScratchMade;
  r ← io_try (observe_in scratch request);
  _ ← work_note ScratchRemoved;
  io_lift r.

(** The worker, then the slot it was given; it runs to its end whether or not the
    handler still waits. *)
Definition spawn_worker (request : HostRequest) : hh (result string ObservationResponse) := λ s,
  let '(s, r) := run_worker request s in
  let '(s, _) := return_slot s in (s, Ok r).

(** What follows while the request holds the slot; an early exit gives it back. *)
Definition host_request (chunks : list (result string string)) : hh HostRequest := λ s,
  let '(s, r) := (bytes ← host_body "" chunks;
                  io_lift (map_err (λ e, HostAnswer (JsonError BAD_REQUEST e)) (parse_request bytes))) s in
  match r with
  | Ok request => (s, Ok request)
  | Err e => let '(s, _) := return_slot s in (s, Err e)
  end.

Definition observe_handler (headers : list (string * string)) (chunks : list (result string string)) :
    hh host_reply :=
  _ ← host_authorized headers;
  if negb (ho_enabled (cf_host_observation (as_config st))) then mret disabled
  else
    _ ← take_slot;
    request ← host_request chunks;
    result ← spawn_worker request;
    _ ← host_await None;
    join ← host_ask hx_join_error;
    match join, result with
    | Some _, _ => mret (JsonError INTERNAL_SERVER_ERROR "host observation worker failed")
    | None, Ok response => mret (Payload (inl response))
    | None, Err error => mret (JsonError INTERNAL_SERVER_ERROR error)
    end.

(** [read_artifact] for an observation. *)
Definition read_observation (id : string) : hh host_reply :=
  let root := path_join (ar_storage_root (cf_artifacts (as_config st))) id in
  resolved_root ← host_ask (λ e, hx_resolve e root);
  match resolved_root with
  | Err _ => mret (StatusOnly NOT_FOUND)
  | Ok resolved_root =>
      resolved ← host_ask (λ e, hx_resolve e (path_join root "artifacts.zip"));
      match resolved with
      | Err _ => mret (StatusOnly NOT_FOUND)
      | Ok resolved =>
          if negb (path_starts_with resolved resolved_root) then mret (StatusOnly NOT_FOUND)
          else
            _ ← host_await None;
            file ← host_ask (λ e, hx_open e resolved);
            match file with
            | Ok content => mret (Payload (inr content))
            | Err _ => mret (StatusOnly NOT_FOUND)
            end
      end
  end.

Definition artifact_handler (headers : list (string * string)) (id : string) : hh host_reply :=
  _ ← host_authorized headers;
  if negb (ho_enabled (cf_host_observation (as_config st))) then mret disabled
  else if negb (valid_observation_id id) then mret (StatusOnly NOT_FOUND)
  else read_observation id.
End handlers.

(** * The routes of [build_router] *)

Inductive endpoint :=
| PostObservations (chunks : list (result string string))
| GetObservationArtifacts (observation_id : option string)
| HttpRoute (ep : http_endpoint).

(** The daemon as its handlers see it, and how a handler ends. *)
Record service := Service { sv_daemon : daemon; sv_host : host_daemon }.
Inductive answer :=
| HttpAnswered (r : result leave reply)
| HostAnswered (r : result host_leave host_reply).

Definition on_host (m : eff host_daemon host_leave host_reply) (s : service) : service * answer :=
  let '(h, r) := m (sv_host s) in (Service (sv_daemon s) h, HostAnswered r).
Definition on_http (m : eff daemon leave reply) (s : service) : service * answer :=
  let '(d, r) := m (sv_daemon s) in (Service d (sv_host s), HttpAnswered r).

Definition serve `{AuthCrates, Serde, HostCodec} (env : nat → HttpEnv) (henv : nat → HostHttpEnv) (st : AppState)
    (headers : list (string * string)) (ep : endpoint) : service → service * answer :=
  match ep with
  | PostObservations chunks => on_host (observe_handler henv st headers chunks)
  | GetObservationArtifacts observation_id => on_host (extracted observation_id (artifact_handler henv st headers))
  | HttpRoute ep => on_http (serve_http env st headers ep)
  end.

(** * What a request leaves *)

(** What is held: the slot, the scratch directory and a directory in the store. *)
Record host_holding := Holding { ho_slot : bool; ho_scratch : bool; ho_storage : option string }.

Definition host_deed_step (o : option host_holding) (d : host_deed) : option host_holding :=
  h ← o;
  match d with
  | SlotTaken => if ho_slot h then None else Some (Holding true (ho_scratch h) (ho_storage h))
  | SlotReturned => if ho_slot h && negb (ho_scratch h) then Some (Holding false false (ho_storage h)) else None
  | ScratchMade => if ho_slot h && negb (ho_scratch h) then Some (Holding true true (ho_storage h)) else None
  | ScratchRemoved => if ho_scratch h then Some (Holding (ho_slot h) false (ho_storage h)) else None
  | Asked _ => if ho_slot h && ho_scratch h then Some h else None
  | StorageMade id => if is_none (ho_storage h) && ho_scratch h then Some (Holding (ho_slot h) true (Some id)) else None
  | StorageRemoved id => if bool_decide (ho_storage h = Some id) then Some (Holding (ho_slot h) (ho_scratch h) None) else None
  end.
Definition host_replay (h : host_holding) (ds : list host_deed) : option host_holding :=
  foldl host_deed_step (Some h) ds.

Definition nothing : host_holding := Holding false false None.

Section leaves.
Context `{AuthCrates, HostCodec} (env : nat → HostHttpEnv) (st : AppState).

(** A computation that does nothing. *)
Definition idle {E A} (m : eff host_daemon E A) : Prop := ∀ s, hd_deeds (m s).1 = hd_deeds s.

Lemma host_idle_bind {E A B} (m : eff host_daemon E A) (k : A → eff host_daemon E B) :
  idle m → (∀ a, idle (k a)) → idle (m ≫= k).
Proof.
  intros Hm Hk s. unfold mbind, eff_bind. specialize (Hm s). destruct (m s) as [s1 [a|e]]; cbn in *; [|done].
  by rewrite (Hk a s1).
Qed.
Lemma idle_await timer : idle (host_await env timer).
Proof.
  unfold host_await. apply host_idle_bind; [done|]. intros f. apply host_idle_bind; [done|]. intros [].
  apply host_idle_bind; [done|]. intros []; try done. by destruct timer.
Qed.
Lemma idle_body data chunks : idle (host_body env data chunks).
Proof.
  revert data. induction chunks as [|[chunk|e] chunks IH]; intros data; cbn [host_body];
    (apply host_idle_bind; [apply idle_await|intros []]); [done| |done]. by destruct (_ <? _).
Qed.
Lemma idle_artifact headers id : idle (artifact_handler env st headers id).
Proof.
  unfold artifact_handler, host_authorized. apply host_idle_bind; [by destruct (authorize _ _ _)|]. intros [].
  destruct (negb _); [done|]. destruct (negb _); [done|]. unfold read_observation.
  apply host_idle_bind; [done|]. intros [root|]; [|done]. apply host_idle_bind; [done|]. intros [resolved|]; [|done].
  destruct (negb _); [done|]. apply host_idle_bind; [apply idle_await|]. intros []. apply host_idle_bind; [done|]. by intros [].
Qed.

Lemma artifact_no_observation headers id s s' response :
  artifact_handler env st headers id s ≠ (s', Ok (Payload (inl response))).
Proof.
  unfold artifact_handler, host_authorized, read_observation, mbind, eff_bind, host_ask, host_await.
  intros E. cbn in E. repeat (case_match; simplify_eq/=).
Qed.

(** The body that was read is what arrived. *)
Lemma host_body_reads data chunks s s' bytes :
  host_body env data chunks s = (s', Ok bytes) →
  ∃ texts, chunks = Ok <$> texts ∧ bytes = foldl String.append data texts.
Proof.
  revert data s. induction chunks as [|[chunk|e] chunks IH]; intros data s; cbn [host_body]; intros Hb;
    apply eff_bind_Ok in Hb as (s1 & [] & _ & Hb).
  - injection Hb as _ <-. by exists [].
  - destruct (_ <? _); [done|]. apply IH in Hb as (texts & -> & ->). by exists (chunk :: texts).
  - done.
Qed.

Lemma host_replay_app h ds ds' : host_replay h (ds ++ ds') = host_replay h ds ≫= λ h', host_replay h' ds'.
Proof.
  unfold host_replay. rewrite foldl_app. destruct (foldl host_deed_step (Some h) ds); cbn; [done|].
  by induction ds'.
Qed.

Local Ltac left_with ds := exists ds, None; rewrite <-!(assoc (++)); set_solver.

(** What the worker does from the slot on: it asks once, and keeps a directory in the
    store exactly for an archive. *)
Lemma run_worker_deeds request s :
  wp (run_worker env st request) s (λ s' r, ∃ ds storage,
    hd_deeds s' = hd_deeds s ++ ds ∧
    host_replay (Holding true false None) ds = Some (Holding true false storage) ∧
    (∀ q, Asked q ∈ ds → q = request) ∧
    match r with
    | Ok response => storage = (λ _, mf_observation_id (or_manifest response)) <$> or_artifacts response
    | Err _ => storage = None
    end).
Proof.
  unfold run_worker, observe_in, store_observation. unfold wp, mbind, eff_bind, work_ask, work_note, io_try, io_lift.
  destruct (hx_scratch _); cbn; [|by exists [], None; rewrite app_nil_r; set_solver].
  destruct (hx_canonicalize _) as [path|]; cbn; [|left_with [ScratchMade; ScratchRemoved]].
  destruct (ho_socket _) as [socket|]; cbn; [|left_with [ScratchMade; ScratchRemoved]].
  destruct (ho_peer_uid _) as [uid|]; cbn; [|left_with [ScratchMade; ScratchRemoved]].
  destruct (hx_observe _ _ _ _ _) as [m|]; cbn; [|left_with [ScratchMade; Asked request; ScratchRemoved]].
  destruct (hx_mkdir _ _) as [[]|]; cbn; [|left_with [ScratchMade; Asked request; ScratchRemoved]].
  set (id := mf_observation_id m).
  destruct (hx_collect _ _ _) as [[[archive|] restrictions]|]; cbn.
  - exists [ScratchMade; Asked request; StorageMade id; ScratchRemoved], (Some id).
    rewrite <-!(assoc (++)). split_and!; [done|done|set_solver|done].
  - exists [ScratchMade; Asked request; StorageMade id; StorageRemoved id; ScratchRemoved], None.
    rewrite <-!(assoc (++)). split_and!; [done| |set_solver|done]. cbn. by rewrite bool_decide_true.
  - exists [ScratchMade; Asked request; StorageMade id; StorageRemoved id; ScratchRemoved], None.
    rewrite <-!(assoc (++)). split_and!; [done| |set_solver|done]. cbn. by rewrite bool_decide_true.
Qed.

(** The deeds of a computation, with its result. *)
Definition does {A} (m : eff host_daemon host_leave A) (Q : list host_deed → result host_leave A → Prop) : Prop :=
  ∀ s, wp m s (λ s' r, ∃ ds, hd_deeds s' = hd_deeds s ++ ds ∧ Q ds r).

Lemma does_bind {A B} (m : eff host_daemon host_leave A) (k : A → eff host_daemon host_leave B) Q :
  does m (λ ds r, match r with Ok a => does (k a) (λ ds', Q (ds ++ ds')) | Err e => Q ds (Err e) end) →
  does (m ≫= k) Q.
Proof.
  intros Hm s. apply wp_bind. eapply wp_mono; [apply Hm|]. intros s1 [a|e] (ds & Hd & HQ); [|eauto].
  eapply wp_mono; [apply HQ|]. intros s2 r (ds' & Hd' & HQ'). exists (ds ++ ds').
  by rewrite Hd', Hd, (assoc (++)).
Qed.
Lemma does_idle {A} (m : eff host_daemon host_leave A) (Q : list host_deed → result host_leave A → Prop) :
  idle m → (∀ r, Q [] r) → does m Q.
Proof. intros Hm HQ s. exists []. rewrite app_nil_r. split; [apply Hm|apply HQ]. Qed.

Lemma does_ret {A} (a : A) (Q : list host_deed → result host_leave A → Prop) : Q [] (Ok a) → does (mret a) Q.
Proof. intros HQ s. exists []. by rewrite app_nil_r. Qed.
Lemma does_mono {A} (m : eff host_daemon host_leave A) (Q R : list host_deed → result host_leave A → Prop) :
  does m Q → (∀ ds r, Q ds r → R ds r) → does m R.
Proof. intros Hm HR s. eapply wp_mono; [apply Hm|]. intros s' r (ds & Hd & HQ). eauto. Qed.

(** What an observation request leaves, and what it says. *)
Definition leaves (chunks : list (result string string)) (ds : list host_deed) (r : result host_leave host_reply) :
    Prop :=
  ∃ storage, host_replay nothing ds = Some (Holding false false storage) ∧
    (∀ q, Asked q ∈ ds → ∃ texts, chunks = Ok <$> texts ∧ parse_request (foldl String.append "" texts) = Ok q) ∧
    (∀ response, r = Ok (Payload (inl response)) →
       storage = (λ _, mf_observation_id (or_manifest response)) <$> or_artifacts response).

Lemma leaves_nothing chunks (r : result host_leave host_reply) :
  (∀ response, r ≠ Ok (Payload (inl response))) → leaves chunks [] r.
Proof. intros Hr. exists None. split_and!; [done|set_solver|]. intros response ->. by destruct (Hr response). Qed.

Lemma host_request_does chunks :
  does (host_request env chunks) (λ ds r,
    match r with
    | Ok q => ds = [] ∧ ∃ texts, chunks = Ok <$> texts ∧ parse_request (foldl String.append "" texts) = Ok q
    | Err _ => ds = [SlotReturned]
    end).
Proof.
  intros s. unfold wp, host_request.
  lazymatch goal with |- context [let '(_, _) := ?m in _] => destruct m as [s1 r] eqn:Hbody end.
  assert (Hs1 : hd_deeds s1 = hd_deeds s).
  { change s1 with (s1, r).1. rewrite <-Hbody. apply host_idle_bind; [apply idle_body|done]. }
  destruct r as [q|e]; cbn.
  - exists []. rewrite app_nil_r. split_and!; [done|done|].
    apply eff_bind_Ok in Hbody as (s2 & bytes & Hb & Hp). injection Hp as _ Hp. apply map_err_Ok in Hp.
    apply host_body_reads in Hb as (texts & Ht & ->). eauto.
  - exists [SlotReturned]. by rewrite Hs1.
Qed.

Lemma spawn_worker_does request :
  does (spawn_worker env st request) (λ ds r, ∃ res storage, r = Ok res ∧
    host_replay (Holding true false None) ds = Some (Holding false false storage) ∧
    (∀ q, Asked q ∈ ds → q = request) ∧
    (∀ response, res = Ok response →
       storage = (λ _, mf_observation_id (or_manifest response)) <$> or_artifacts response)).
Proof.
  intros s. unfold wp, spawn_worker. destruct (run_worker env st request s) as [s1 res] eqn:Hw. cbn.
  apply (wp_run _ _ _ _ _ (run_worker_deeds request s)) in Hw as (ds & storage & Hd & Hrep & Hask & Hres).
  exists (ds ++ [SlotReturned]). split; [by rewrite Hd, (assoc (++))|]. exists res, storage.
  split_and!; [done| | |].
  - by rewrite host_replay_app, Hrep.
  - intros q [Hq|Hq]%elem_of_app; [by apply Hask|set_solver].
  - by intros response ->.
Qed.

Lemma observe_handler_leaves headers chunks : does (observe_handler env st headers chunks) (leaves chunks).
Proof.
  unfold observe_handler, host_authorized. apply does_bind, does_idle; [by destruct (authorize _ _ _)|].
  intros [[]|e]; [|by apply leaves_nothing]. destruct (negb _); [by apply does_ret, leaves_nothing|].
  apply does_bind. apply (does_mono _ (λ ds r, match r with Ok _ => ds = [SlotTaken] | Err _ => ds = [] end)).
  { intros s. unfold wp, take_slot. destruct (hd_slots s =? 0); [exists []; by rewrite app_nil_r|by eexists]. }
  intros ds [[]|e] ->; [|by apply leaves_nothing].
  apply does_bind. eapply does_mono; [apply host_request_does|]. intros ds [q|e].
  2: { intros ->. exists None. split_and!; [done|set_solver|done]. }
  intros (-> & texts & Ht & Hp). apply does_bind. eapply does_mono; [apply spawn_worker_does|].
  intros ds r (res & storage & -> & Hrep & Hask & Hres). cbn [app].
  assert (Hall : ∀ r' : result host_leave host_reply,
    (∀ response, r' = Ok (Payload (inl response)) → res = Ok response) → leaves chunks (SlotTaken :: ds) r').
  { intros r' Hr'. exists storage. split_and!; [exact Hrep| |by intros; apply Hres, Hr'].
    intros q' [?|Hq']%elem_of_cons; [done|]. rewrite (Hask _ Hq'). eauto. }
  apply does_bind, does_idle; [apply idle_await|]. intros [[]|e]; [|rewrite app_nil_r; by apply Hall].
  apply does_bind, does_idle; [done|]. intros [join|e]; [|rewrite !app_nil_r; by apply Hall].
  by destruct join, res; apply does_ret; rewrite !app_nil_r; apply Hall; [..|intros ? [= ->]|].
Qed.

(** A request for a host observation leaves nothing behind, whatever it sends and
    whichever signal ends it: unauthorized, it is answered 401 and nothing is
    touched; otherwise the slot is given back and the scratch directory removed on
    every exit, also when the client has gone, a directory stays in the store exactly
    for an archive it holds, and the broker is only asked a request that was sent
    whole and passed validation. *)
Lemma host_requests_leave_nothing headers chunks s s' r :
  observe_handler env st headers chunks s = (s', r) →
  (∀ response : host_reply, authorize headers (as_auth st) (as_auth_required st) = Some response →
     s' = s ∧ r = Err (HostAnswer (JsonError 401 "unauthorized"))) ∧
  ∃ ds storage, hd_deeds s' = hd_deeds s ++ ds ∧
    host_replay nothing ds = Some (Holding false false storage) ∧
    (∀ q, Asked q ∈ ds → ∃ texts, chunks = Ok <$> texts ∧ parse_request (foldl String.append "" texts) = Ok q) ∧
    (∀ response, r = Ok (Payload (inl response)) →
       storage = (λ _, mf_observation_id (or_manifest response)) <$> or_artifacts response).
Proof.
  intros Hrun. split.
  - intros response Ha. unfold observe_handler, host_authorized in Hrun. rewrite Ha in Hrun.
    injection Hrun as <- <-. split; [done|]. unfold authorize in Ha. destruct (negb _); [done|].
    destruct (_ || _); [|done]. by injection Ha as <-.
  - destruct (wp_run _ _ _ _ _ (observe_handler_leaves headers chunks s) Hrun) as (ds & Hd & storage & Hl).
    by exists ds, storage.
Qed.
End leaves.
