(* ===== verification/HttpUploads.v ===== *)
(** Uploads: the worker a request starts gets exactly what the client sent. *)
From Stdlib Require Import Ascii.
From stdpp Require Import base option strings numbers list gmap pretty.
From S2P Require Import Prelude Effects RustStr Fs Bearer Auth Protocol Config Archive Tasks Sessions HostObservation Http HttpHost.

Local Open Scope N_scope.

Lemma or_else_Ok {A} cleanup (m : eff daemon leave A) s s' a :
  or_else cleanup m s = (s', Ok a) → m s = (s', Ok a).
Proof.
  unfold or_else. intros (s1 & r & (r0 & [= <-] & Hm)%io_try_run & Hrun)%eff_bind_Ok. destruct r as [b|e].
  - by injection Hrun as <- <-.
  - by apply eff_bind_Ok in Hrun as (? & [] & _ & ?).
Qed.

(** The chunks of a field, joined. *)
Definition joined (chunks : list string) : string := foldr String.append "" chunks.

(** What a well-formed upload looks like. *)
Definition upload_of (metadata source : list string) : multipart :=
  [Ok {| pt_name := Some "metadata"; pt_chunks := Ok <$> metadata |};
   Ok {| pt_name := Some "source"; pt_chunks := Ok <$> source |}].

Section uploads.
Context `{AuthCrates, Serde} (env : nat → HttpEnv) (st : AppState).

(** * Temporary files are this request's own *)

Definition spares {A} (m : eff daemon leave A) : Prop := ∀ s, hs_temps (m s).1 = hs_temps s.

Lemma spares_bind {A B} (m : eff daemon leave A) (k : A → eff daemon leave B) :
  spares m → (∀ a, spares (k a)) → spares (m ≫= k).
Proof.
  intros Hm Hk s. unfold mbind, eff_bind. specialize (Hm s). destruct (m s) as [s1 [a|e]]; cbn in *; [|done].
  by rewrite (Hk a s1).
Qed.
Lemma spares_run {A} (m : eff daemon leave A) s s' r : spares m → m s = (s', r) → hs_temps s' = hs_temps s.
Proof. intros Hm Hrun. specialize (Hm s). by rewrite Hrun in Hm. Qed.

Lemma interleave_spares : spares (interleave env).
Proof. intros s. unfold interleave. by destruct (he_others _ _) as [[] ?]. Qed.
Lemma on_session_spares {A} id (missing : A) f : spares (on_session id missing f).
Proof. intros s. unfold on_session. destruct (_ !! _); [|done]. by destruct (f _ _). Qed.
Lemma await_spares timer cancellable : spares (await env timer cancellable).
Proof.
  unfold await. apply spares_bind; [apply interleave_spares|]. intros []. apply spares_bind; [done|].
  intros [| | |]; [done|by destruct timer|by destruct cancellable|done].
Qed.
Lemma follow_spares id n : spares (follow env id n).
Proof.
  destruct n; try done. cbn. apply spares_bind; [|done]. unfold clean_up.
  apply spares_bind; [apply interleave_spares|]. intros []. apply spares_bind; [done|]. intros outcome.
  by apply spares_bind; [apply on_session_spares|].
Qed.

(** * Fields *)

Lemma field_named_Some name p : field_named name p = true → pt_name p = Some name.
Proof. unfold field_named. by intros ?%bool_decide_eq_true. Qed.

Lemma read_metadata_Ok chunks : ∀ data s s' d,
  read_metadata env data chunks s = (s', Ok d) →
  ∃ md, chunks = Ok <$> md ∧ d = data +:+ joined md ∧ (len data ≤ MAX_METADATA_BYTES → len d ≤ MAX_METADATA_BYTES).
Proof.
  induction chunks as [|[chunk|e] chunks IH]; intros data s s' d; cbn [read_metadata];
    intros (s1 & [] & _ & Hrun)%eff_bind_Ok.
  - injection Hrun as _ <-. exists []. cbn. by rewrite string_app_nil.
  - destruct (_ <? _) eqn:Hl; [done|]. apply N.ltb_ge in Hl. apply IH in Hrun as (md & -> & -> & Hd).
    exists (chunk :: md). cbn. rewrite string_app_assoc in *. split_and!; [done|done|]. intros _. apply Hd.
    rewrite len_app. unfold saturating_add, MAX_METADATA_BYTES, u64_max in *. lia.
  - done.
Qed.

Lemma metadata_field_Ok m s s' d m' :
  metadata_field env m s = (s', Ok (d, m')) →
  ∃ md, m = Ok {| pt_name := Some "metadata"; pt_chunks := Ok <$> md |} :: m' ∧ d = joined md ∧
        len d ≤ MAX_METADATA_BYTES.
Proof.
  unfold metadata_field. intros (s1 & [] & _ & Hrun)%eff_bind_Ok.
  destruct m as [|[p|e] m]; cbn in Hrun; try done. destruct (field_named _ p) eqn:Hf; [|done].
  apply field_named_Some in Hf. apply eff_bind_Ok in Hrun as (s2 & d' & Hr & Hrun). injection Hrun as _ -> ->.
  apply read_metadata_Ok in Hr as (md & Hc & -> & Hl). exists md. destruct p as [n c]. cbn in *. subst.
  split_and!; [done|done|]. apply Hl. unfold MAX_METADATA_BYTES, len. cbn. lia.
Qed.

Lemma store_chunks_Ok cancellable what too_large path max chunks : ∀ bytes data s s' d,
  store_chunks env cancellable what too_large path max bytes data chunks s = (s', Ok d) →
  hs_temps s !! path = Some data →
  ∃ src, chunks = Ok <$> src ∧ d = data +:+ joined src ∧ hs_temps s' !! path = Some d ∧
    (max < u64_max → bytes = len data → bytes ≤ max → len d ≤ max).
Proof.
  induction chunks as [|[chunk|e] chunks IH]; intros bytes data s s' d; cbn [store_chunks];
    intros (s1 & [] & H1 & Hrun)%eff_bind_Ok Ht; apply (spares_run _ _ _ _ (await_spares _ _)) in H1; [| |done].
  - injection Hrun as <- <-. exists []. cbn. rewrite string_app_nil, H1. split_and!; try done. by intros _ <-.
  - destruct (_ <? _) eqn:Hl; [done|]. apply N.ltb_ge in Hl.
    apply eff_bind_Ok in Hrun as (s2 & [] & _ & Hrun). apply eff_bind_Ok in Hrun as (s3 & [] & [= <-] & Hrun).
    apply IH in Hrun as (src & -> & -> & Htemp & Hd); [|apply lookup_insert_eq].
    exists (chunk :: src). cbn. rewrite string_app_assoc in *. split_and!; [done|done|done|].
    intros Hm -> _. apply Hd; [done| |done]. rewrite len_app. unfold saturating_add in *. lia.
Qed.

Lemma receive_upload_Ok cancellable what too_large max m s s' path d :
  receive_upload env cancellable what too_large max m s = (s', Ok (path, d)) →
  ∃ src, m = [Ok {| pt_name := Some "source"; pt_chunks := Ok <$> src |}] ∧ d = joined src ∧
    hs_temps s' !! path = Some d ∧ (max < u64_max → len d ≤ max).
Proof.
  unfold receive_upload. intros (s1 & [] & _ & Hrun)%eff_bind_Ok.
  destruct m as [|[p|e] m]; cbn [next_field] in Hrun; try done. destruct (field_named _ p) eqn:Hf; [|done]. cbn [negb] in Hrun.
  apply field_named_Some in Hf. do 2 apply eff_bind_Ok in Hrun as (? & [] & _ & Hrun).
  apply eff_bind_Ok in Hrun as (? & path' & _ & Hrun). do 2 apply eff_bind_Ok in Hrun as (? & [] & [= <-] & Hrun).
  apply or_else_Ok in Hrun. apply eff_bind_Ok in Hrun as (s2 & data & Hstore & Hrun).
  apply eff_bind_Ok in Hrun as (s3 & [] & H3 & Hrun). apply (spares_run _ _ _ _ (await_spares _ _)) in H3.
  destruct m as [|[q|e] m]; cbn in Hrun; try done. injection Hrun as -> -> ->.
  apply store_chunks_Ok in Hstore as (src & Hc & -> & Ht & Hl); [|apply lookup_insert_eq].
  exists src. destruct p as [n c]. cbn in *. subst. rewrite H3. split_and!; try done.
  intros Hm. apply Hl; [done|done|lia].
Qed.

(** * Workers *)

(** A build worker with the request's task and its upload. *)
Definition build_started (ep : endpoint) (v : ValidatedRequest) (s' : daemon) : Prop :=
  ∃ md src path request,
    ep = HttpRoute (PostBuilds (Some (upload_of md src))) ∧ len (joined md) ≤ MAX_METADATA_BYTES ∧
    parse_request_metadata (joined md) = Ok request ∧ validate_request request (as_config st) = Ok v ∧
    last (hs_deeds s') = Some (BuildSpawned v path) ∧ hs_temps s' !! path = Some (joined src) ∧
    len (joined src) ≤ so_max_transfer_bytes (cf_sources (as_config st)).

(** A session's initialization with the upload, the session being reserved for a
    task with sessions. *)
Definition session_started (ep : endpoint) (id : string) (s' : daemon) : Prop :=
  ∃ md src path request task entry now,
    ep = HttpRoute (PostSessions (Some (upload_of md src))) ∧ len (joined md) ≤ MAX_METADATA_BYTES ∧
    parse_session_start_metadata (joined md) = Ok request ∧
    cf_tasks (as_config st) !! ss_task request = Some task ∧
    reserve id (ss_request_id request) (ss_task request) task now = Some entry ∧
    last (hs_deeds s') = Some (InitSpawned id path) ∧ hs_temps s' !! path = Some (joined src) ∧
    len (joined src) ≤ so_max_transfer_bytes (cf_sources (as_config st)).

(** An action worker admitted to a ready session with the request's input. *)
Definition action_started (ep : endpoint) (id action_id : string) (s' : daemon) : Prop :=
  ∃ action body request now e e' r,
    ep = HttpRoute (PostActions (Some (id, action)) (Ok <$> body)) ∧ len (joined body) ≤ MAX_SESSION_ACTION_BODY_BYTES ∧
    parse_session_action_request (joined body) = Ok request ∧
    start_action now action action_id e = (e', Ok r) ∧ (∃ l, en_state e = Ready l) ∧
    hs_sessions s' !! id = Some e' ∧
    last (hs_deeds s') = Some (ActionSpawned id r (encode_input r (sa_input request))).

Context (Hmax : so_max_transfer_bytes (cf_sources (as_config st)) < u64_max).

Lemma start_build_started headers m s s' b :
  start_build env st headers m s = (s', Ok (Payload b)) →
  ∃ v, b = BuildEvents v ∧ build_started (HttpRoute (PostBuilds (Some m))) v s'.
Proof.
  unfold start_build. intros (s1 & [] & _ & Hrun)%eff_bind_Ok.
  apply eff_bind_Ok in Hrun as (s2 & [d m'] & Hmd & Hrun). apply metadata_field_Ok in Hmd as (md & -> & -> & Hl).
  apply eff_bind_Ok in Hrun as (s3 & request & [= <- Hp%map_err_Ok] & Hrun).
  apply eff_bind_Ok in Hrun as (s4 & validated & [= <- Hv%map_err_Ok] & Hrun).
  apply eff_bind_Ok in Hrun as (s5 & [] & _ & Hrun); [|done]. cbn [negb] in Hrun.
  apply eff_bind_Ok in Hrun as (s6 & up & (r0 & [= <-] & Hu)%io_try_run & Hrun).
  destruct up as [[path data]|[]]; try done. apply or_else_Ok in Hu.
  apply receive_upload_Ok in Hu as (src & -> & -> & Ht & Hb).
  apply eff_bind_Ok in Hrun as (s7 & [] & [= <-] & Hrun). injection Hrun as <- <-.
  eexists. split; [done|]. exists md, src, path, request. cbn. rewrite last_snoc. split_and!; try done. by apply Hb.
Qed.

Lemma reserve_id id rid tid task now e : reserve id rid tid task now = Some e → en_id e = id.
Proof. unfold reserve. destruct (tk_session task); cbn; [|done]. destruct (_ <=? _); [|done]. by intros [= <-]. Qed.

Lemma session_task_Ok request task :
  session_task st request = Ok task → cf_tasks (as_config st) !! ss_task request = Some task.
Proof. unfold session_task. destruct (_ !! _) as [t|]; [|done]. destruct (is_some _); [|done]. by intros [= ->]. Qed.

Lemma reserve_session_Ok validated s s' entry :
  reserve_session env validated s = (s', Ok entry) →
  ∃ now, reserve (en_id entry) (vr_request_id validated) (vr_task_id validated) (vr_task validated) now = Some entry.
Proof.
  unfold reserve_session. intros (s1 & id & _ & Hrun)%eff_bind_Ok.
  apply eff_bind_Ok in Hrun as (s2 & now & _ & Hrun). destruct (reserve _ _ _ _ _) as [e|] eqn:Hr; [|done].
  apply eff_bind_Ok in Hrun as (s3 & [] & _ & [= _ <-]). exists now. by rewrite (reserve_id _ _ _ _ _ _ Hr).
Qed.

(** An upload is refused with an error, never with a body. *)
Definition refuses {A} (m : eff daemon leave A) : Prop := ∀ s b, (m s).2 ≠ Err (Answer (Payload b)).

Lemma refuses_bind {A B} (m : eff daemon leave A) (k : A → eff daemon leave B) :
  refuses m → (∀ a, refuses (k a)) → refuses (m ≫= k).
Proof.
  intros Hm Hk s b. unfold mbind, eff_bind. specialize (Hm s b). destruct (m s) as [s1 [a|e]]; cbn in *; [apply Hk|congruence].
Qed.
Lemma await_refuses timer cancellable : refuses (await env timer cancellable).
Proof.
  unfold await. apply refuses_bind; [intros s b; unfold interleave; by destruct (he_others _ _) as [[] ?]|]. intros [].
  apply refuses_bind; [done|]. intros [| | |]; [done|by destruct timer|by destruct cancellable|done].
Qed.
Lemma store_chunks_refuses cancellable what too_large path max chunks : ∀ bytes data,
  refuses (store_chunks env cancellable what too_large path max bytes data chunks).
Proof.
  induction chunks as [|[chunk|e] chunks IH]; intros bytes data; cbn [store_chunks];
    (apply refuses_bind; [apply await_refuses|intros []]); [done| |done]. destruct (_ <? _); [done|].
  apply refuses_bind; [|by intros []; apply refuses_bind].
  unfold file_call. apply refuses_bind; [done|]. by intros [err|].
Qed.
Lemma receive_upload_refuses cancellable what too_large max m :
  refuses (receive_upload env cancellable what too_large max m).
Proof.
  unfold receive_upload. apply refuses_bind; [apply await_refuses|]. intros [].
  destruct (next_field m) as [[[p m']|]|]; try done. destruct (negb _); [done|].
  do 2 (apply refuses_bind; [unfold file_call; apply refuses_bind; [done|]; by intros [err|]|intros []]).
  apply refuses_bind; [done|]. intros path. do 2 (apply refuses_bind; [done|intros []]). unfold or_else.
  assert (refuses (data ← store_chunks env cancellable what too_large path max 0 "" (pt_chunks p);
    _ ← await env true cancellable;
    match next_field m' with
    | Ok None => mret (path, data)
    | Ok (Some (p, _)) => answer_early (bad_request ("unexpected or duplicate multipart field " +:+
                                                     default "unnamed" (pt_name p)))
    | Err err => answer_early (bad_request ("invalid multipart trailer: " +:+ err))
    end)) as Hbody.
  { apply refuses_bind; [apply store_chunks_refuses|]. intros data. apply refuses_bind; [apply await_refuses|].
    intros []. by destruct (next_field m') as [[[]|]|]. }
  intros s b. specialize (Hbody s b). unfold io_try, mbind at 1, eff_bind at 1.
  match goal with |- context [let '(_, _) := ?t s in _] => destruct (t s) as [s1 [a|e]] end; cbn in *; [done|].
  unfold mbind, eff_bind. cbn. congruence.
Qed.

Lemma start_session_started headers m s s' b :
  start_session env st headers m s = (s', Ok (Payload b)) →
  ∃ id, b = SessionEvents id ∧ session_started (HttpRoute (PostSessions (Some m))) id s'.
Proof.
  unfold start_session. intros (s1 & [] & _ & Hrun)%eff_bind_Ok. destruct (negb _); [done|].
  apply eff_bind_Ok in Hrun as (s2 & [d m'] & Hmd & Hrun). apply metadata_field_Ok in Hmd as (md & -> & -> & Hl).
  apply eff_bind_Ok in Hrun as (s3 & request & [= <- Hp%map_err_Ok] & Hrun).
  apply eff_bind_Ok in Hrun as (s4 & task & [= <- Hv%session_task_Ok] & Hrun).
  apply eff_bind_Ok in Hrun as (s5 & [] & _ & Hrun); [|done]. cbn [negb] in Hrun.
  apply eff_bind_Ok in Hrun as (s6 & entry & Hres%or_else_Ok%reserve_session_Ok & Hrun).
  destruct Hres as [now Hres]. cbn in Hres.
  apply eff_bind_Ok in Hrun as (s7 & now' & _ & Hrun).
  apply eff_bind_Ok in Hrun as (s8 & up & (r0 & [= <-] & Hu)%io_try_run & Hrun). destruct up as [[path data]|e].
  2: { destruct (upload_failure _ e) as [response|] eqn:Hf; [|done].
       apply eff_bind_Ok in Hrun as (s9 & n & _ & Hrun). apply eff_bind_Ok in Hrun as (s10 & [] & _ & Hrun).
       injection Hrun as _ ->. apply (f_equal snd) in Hu. destruct e as [r| | | |]; try by destruct (_ <=? _).
       injection Hf as ->. by apply receive_upload_refuses in Hu. }
  apply receive_upload_Ok in Hu as (src & -> & -> & Ht & Hb).
  apply eff_bind_Ok in Hrun as (s9 & [begun n] & H9 & Hrun). apply (spares_run _ _ _ _ (on_session_spares _ _ _)) in H9.
  apply eff_bind_Ok in Hrun as (s10 & [] & H10 & Hrun). apply (spares_run _ _ _ _ (follow_spares _ _)) in H10.
  destruct begun; cbn [negb] in Hrun; [|by apply eff_bind_Ok in Hrun as (? & [] & _ & ?)].
  apply eff_bind_Ok in Hrun as (s11 & [] & [= <-] & Hrun). injection Hrun as <- <-.
  eexists. split; [done|]. exists md, src, path, request, task, entry, now. cbn. rewrite last_snoc, H10, H9. split_and!; try done. by apply Hb.
Qed.

Lemma read_body_Ok max chunks : ∀ data s s' d,
  read_body env max data chunks s = (s', Ok d) →
  ∃ body, chunks = Ok <$> body ∧ d = data +:+ joined body ∧ (len data ≤ max → len d ≤ max).
Proof.
  induction chunks as [|[chunk|e] chunks IH]; intros data s s' d; cbn [read_body];
    intros (s1 & [] & _ & Hrun)%eff_bind_Ok.
  - injection Hrun as _ <-. exists []. cbn. by rewrite string_app_nil.
  - destruct (_ <? _) eqn:Hl; [done|]. apply N.ltb_ge in Hl. apply IH in Hrun as (body & -> & -> & Hd).
    exists (chunk :: body). cbn. rewrite string_app_assoc in *. split_and!; [done|done|]. intros _. apply Hd.
    by rewrite len_app.
  - done.
Qed.

Lemma start_action_ready now name a e e' r :
  start_action now name a e = (e', Ok r) → (∃ l, en_state e = Ready l) ∧ sr_action_id r = a.
Proof.
  unfold start_action. destruct (negb _); [done|]. destruct (session_config e); [|done].
  destruct (find_action _ _) as [[]|]; [|done]. destruct (en_state e) eqn:Hs; try done.
  destruct (_ <? _); [|done]. intros [= _ <-]. eauto.
Qed.

Lemma run_session_action_started headers id action chunks s s' b :
  run_session_action env st headers id action chunks s = (s', Ok (Payload b)) →
  ∃ a, b = ActionEvents id a ∧ action_started (HttpRoute (PostActions (Some (id, action)) chunks)) id a s'.
Proof.
  unfold run_session_action. intros (s1 & [] & _ & Hrun)%eff_bind_Ok. repeat (destruct (negb _); [done|]).
  apply eff_bind_Ok in Hrun as (s2 & d & Hb & Hrun). apply read_body_Ok in Hb as (body & -> & -> & Hl).
  apply eff_bind_Ok in Hrun as (s3 & request & [= <- Hp%map_err_Ok] & Hrun).
  apply eff_bind_Ok in Hrun as (s4 & action_id & _ & Hrun).
  apply eff_bind_Ok in Hrun as (s5 & res & Hon & Hrun). destruct res as [r|[]]; [|done..].
  apply eff_bind_Ok in Hrun as (s6 & [] & [= <-] & Hrun). injection Hrun as <- <-. eexists. split; [done|].
  unfold on_session in Hon. destruct (hs_sessions s4 !! id) as [e|]; [|done].
  destruct (start_action _ _ _ e) as [e' r'] eqn:Hst. injection Hon as <- ->.
  pose proof (start_action_ready _ _ _ _ _ _ Hst) as [Hr Hid].
  exists action, body, request, (hs_now s4), e, e', r. cbn. rewrite last_snoc, lookup_insert_eq, Hid.
  split_and!; try done. apply Hl. unfold MAX_SESSION_ACTION_BODY_BYTES, len. cbn. lia.
Qed.

(** The other endpoints start none of these workers. *)
Definition starts_worker (b : body) : bool :=
  match b with BuildEvents _ | SessionEvents _ | ActionEvents _ _ => true | _ => false end.

Definition idle {A} (m : eff daemon leave A) (f : A → bool) : Prop := ∀ s a, (m s).2 = Ok a → f a = false.
Abbreviation answers_idle m :=
  (idle m (λ r : reply, match r with Payload b => starts_worker b | _ => false end)).

Lemma idle_bind {A B} (m : eff daemon leave A) (k : A → eff daemon leave B) f :
  (∀ a, idle (k a) f) → idle (m ≫= k) f.
Proof. intros Hk s b. unfold mbind, eff_bind. destruct (m s) as [s1 [a|e]]; cbn; [apply Hk|done]. Qed.
Lemma idle_ret {A} (a : A) f : f a = false → idle (mret a) f.
Proof. by intros Hf s ? [= <-]. Qed.

Lemma idle_finally {A} cleanup (m : eff daemon leave A) f : idle m f → idle (finally cleanup m) f.
Proof.
  intros Hm s a Ha. destruct (finally cleanup m s) as [s' r] eqn:Hrun. cbn in Ha. subst r. unfold finally in Hrun.
  apply eff_bind_Ok in Hrun as (s1 & r & (r0 & [= <-] & Hr)%io_try_run & Hrun).
  apply eff_bind_Ok in Hrun as (s2 & [] & _ & [= _ ->]). apply (Hm s). by rewrite Hr.
Qed.

Ltac idling := repeat
  (cbv beta; lazymatch goal with
   | |- idle (finally _ _) _ => apply idle_finally
   | |- idle (mbind _ _) _ => apply idle_bind; intros ?
   | |- idle (mret _) _ => apply idle_ret;
       try match goal with
       | |- context [update_failure ?k _] => destruct k
       | |- context [prepare_failure ?k _] => destruct k
       | |- context [admission_failure ?e] => destruct e
       | |- context [stop_failure ?e] => destruct e
       end; cbn; by repeat case_match
   | |- idle (match ?x with _ => _ end) _ => destruct x
   | |- idle (match ?x with _ => _ end _) _ => destruct x
   | |- idle _ _ => done
   end).

Lemma update_idle headers id m : answers_idle (update_session_source env st headers id m).
Proof. unfold update_session_source, verify_and_update, run_update. idling.
Qed.
Lemma stop_idle headers id : answers_idle (stop_session env st headers id).
Proof. unfold stop_session. idling. Qed.
Lemma artifact_idle headers id : answers_idle (get_artifact env st headers id).
Proof. unfold get_artifact, read_artifact. idling. Qed.

Lemma authorized_None headers s s' u :
  authorized st headers s = (s', Ok u) → authorize (P := body) headers (as_auth st) (as_auth_required st) = None.
Proof. unfold authorized. by destruct (authorize _ _ _). Qed.

(** C17: Work is started for authorized requests only, and with exactly what the
    client sent: a build worker gets a temporary file that holds the concatenated
    chunks of the [source] field, within the transfer limit, and the configured
    task the [metadata] field names; the body consisted of these two fields alone.
    The same holds of the worker that initializes a session, which was reserved for
    that request; and an action worker gets the input of the request's body, after
    the session was found ready and marked busy with that action. *)
Theorem workers_get_the_request `{HostCodec} henv headers ep s s' b :
  serve env henv st headers ep s = (s', HttpAnswered (Ok (Payload b))) →
  authorize (P := body) headers (as_auth st) (as_auth_required st) = None ∧
  match b with
  | BuildEvents v => build_started ep v (sv_daemon s')
  | SessionEvents id => session_started ep id (sv_daemon s')
  | ActionEvents id a => action_started ep id a (sv_daemon s')
  | _ => True
  end.
Proof.
  destruct ep as [| |ep]; cbn [serve]; unfold on_host, on_http.
  { by destruct (observe_handler _ _ _ _ _). }
  { by destruct (extracted _ _ _). }
  destruct (serve_http _ _ _ _ _) as [d r] eqn:Hrun. intros [= <- ->]. cbn [sv_daemon].
  destruct ep as [[m|]|[id|]|[m|]|[id|]|[[id m]|]|[[id action]|] chunks]; try discriminate Hrun;
    cbn [serve_http extracted] in Hrun; split.
  all: try (destruct (authorize _ _ _) as [r|] eqn:Ha; [|done]; exfalso; revert Hrun;
    unfold start_build, get_artifact, start_session, stop_session, update_session_source, run_session_action;
    by intros (? & [] & ?%authorized_None & _)%eff_bind_Ok; congruence).
  - by apply start_build_started in Hrun as (v & -> & ?).
  - apply (f_equal snd), artifact_idle in Hrun. by destruct b.
  - by apply start_session_started in Hrun as (id & -> & ?).
  - apply (f_equal snd), stop_idle in Hrun. by destruct b.
  - apply (f_equal snd), update_idle in Hrun. by destruct b.
  - by apply run_session_action_started in Hrun as (a & -> & ?).
Qed.
End uploads.
