(* ===== verification/HttpTheorems.v ===== *)
(** What the HTTP service guarantees of its requests: nothing is done for an
    unauthorized one, and every resource a request takes is given back or handed to
    exactly one worker, on every exit. *)
From Stdlib Require Import Ascii.
From stdpp Require Import base option strings numbers list gmap pretty.
From S2P Require Import Prelude Effects RustStr Fs Archive Bearer Auth Protocol Config Tasks Sessions SessionProgress SessionAdmission HostObservation Http HttpHost HttpUploads.

Local Open Scope N_scope.

(** * Ownership *)

(** What a request holds: a slot, and temporary files. *)
Abbreviation holding := (bool * gset string)%type.

(** The effect of one deed; [None] when it gives away what is not held. *)
Definition deed_step (o : option holding) (d : deed) : option holding :=
  '(permit, temps) ← o;
  match d with
  | PermitTaken => if permit : bool then None else Some (true, temps)
  | PermitReturned | Reserved _ => if permit : bool then Some (false, temps) else None
  | TempCreated p => if bool_decide (p ∈ temps) then None else Some (permit, {[p]} ∪ temps)
  | TempRemoved p | InitSpawned _ p =>
      if bool_decide (p ∈ temps) then Some (permit, temps ∖ {[p]}) else None
  | BuildSpawned _ p =>
      if permit && bool_decide (p ∈ temps) then Some (false, temps ∖ {[p]}) else None
  | ActionSpawned _ _ _ | UpdateSpawned _ _ => Some (permit, temps)
  end.

Definition replay (o : holding) (ds : list deed) : option holding := foldl deed_step (Some o) ds.

Lemma replay_None ds : foldl deed_step None ds = None.
Proof. by induction ds. Qed.
Lemma replay_app o ds ds' : replay o (ds ++ ds') = replay o ds ≫= λ o', replay o' ds'.
Proof.
  unfold replay. rewrite foldl_app. destruct (foldl deed_step (Some o) ds); cbn; [done|apply replay_None].
Qed.

(** From the holding [o], the computation ends with a holding and a result in [Q]. *)
Definition holds {A} (m : eff daemon leave A) (o : holding) (Q : holding → result leave A → Prop) : Prop :=
  ∀ s, wp m s (λ s' r, ∃ ds o', hs_deeds s' = hs_deeds s ++ ds ∧ replay o ds = Some o' ∧ Q o' r).

Section rules.
Context {A B : Type}.
Implicit Types (m : eff daemon leave A) (o : holding).

Lemma holds_bind m (k : A → eff daemon leave B) o Q :
  holds m o (λ o' r, match r with Ok a => holds (k a) o' Q | Err e => Q o' (Err e) end) → holds (m ≫= k) o Q.
Proof.
  intros Hm s. apply wp_bind. eapply wp_mono; [apply Hm|]. intros s1 [a|e] (ds & o1 & H1 & Hr & HQ); [|eauto 10].
  eapply wp_mono; [apply HQ|]. intros s2 r (ds2 & o2 & H2 & Hr2 & HQ2). exists (ds ++ ds2), o2.
  split_and!; [by rewrite H2, H1, (assoc (++))| |done]. by rewrite replay_app, Hr.
Qed.
Lemma holds_mono m o (Q R : holding → result leave A → Prop) :
  holds m o Q → (∀ o' r, Q o' r → R o' r) → holds m o R.
Proof. intros Hm HR s. eapply wp_mono; [apply Hm|]. intros s' r (ds & o' & ? & ? & ?). eauto 10. Qed.
Lemma holds_silent m o (Q : holding → result leave A → Prop) :
  (∀ s, hs_deeds (m s).1 = hs_deeds s) → (∀ r, Q o r) → holds m o Q.
Proof. intros Hm HQ s. exists [], o. rewrite app_nil_r. split_and!; [apply Hm|done|apply HQ]. Qed.
Lemma holds_ret (a : A) o (Q : holding → result leave A → Prop) : Q o (Ok a) → holds (mret a) o Q.
Proof. intros HQ s. exists [], o. by rewrite app_nil_r. Qed.
Lemma holds_fail e o (Q : holding → result leave A → Prop) : Q o (Err e) → holds (io_fail e) o Q.
Proof. intros HQ s. exists [], o. by rewrite app_nil_r. Qed.
Lemma holds_try m o (Q : holding → result leave (result leave A) → Prop) :
  holds m o (λ o' r, Q o' (Ok r)) → holds (io_try m) o Q.
Proof. intros Hm s. apply wp_try. eapply wp_mono; [apply Hm|]. eauto. Qed.
End rules.

Lemma holds_or_else {A} cleanup (m : eff daemon leave A) o (Q : holding → result leave A → Prop) :
  holds m o (λ o' r, match r with
                     | Ok a => Q o' (Ok a)
                     | Err e => holds cleanup o' (λ o'' r',
                                  match r' with Ok _ => Q o'' (Err e) | Err e' => Q o'' (Err e') end)
                     end) →
  holds (or_else cleanup m) o Q.
Proof.
  intros Hm. unfold or_else. apply holds_bind, holds_try. eapply holds_mono; [exact Hm|]. intros o' [a|e] H'.
  - by apply holds_ret.
  - apply holds_bind. eapply holds_mono; [exact H'|]. intros o'' [[]|e']; [by apply holds_fail|done].
Qed.

Lemma holds_finally {A} cleanup (m : eff daemon leave A) o (Q : holding → result leave A → Prop) :
  holds m o (λ o' r, holds cleanup o' (λ o'' r', match r' with Ok _ => Q o'' r | Err e => Q o'' (Err e) end)) →
  holds (finally cleanup m) o Q.
Proof.
  intros Hm. unfold finally. apply holds_bind, holds_try. eapply holds_mono; [exact Hm|]. intros o' r H'.
  apply holds_bind. eapply holds_mono; [exact H'|]. intros o'' [[]|e]; [|done]. intros HQ s. exists [], o''.
  by rewrite app_nil_r.
Qed.

Lemma holds_edit d f o o' (Q : holding → result leave unit → Prop) :
  (∀ s, hs_deeds (f s) = hs_deeds s ++ [d]) → deed_step (Some o) d = Some o' → Q o' (Ok tt) → holds (edit f) o Q.
Proof. intros Hf Hd HQ s. exists [d], o'. split_and!; [apply Hf|exact Hd|exact HQ]. Qed.

Lemma holds_edit_silent f o (Q : holding → result leave unit → Prop) :
  (∀ s, hs_deeds (f s) = hs_deeds s) → Q o (Ok tt) → holds (edit f) o Q.
Proof. intros Hf HQ s. exists [], o. rewrite app_nil_r. split_and!; [apply Hf|done|exact HQ]. Qed.

Lemma holds_sure {A} (m : eff daemon leave A) o (Q : holding → result leave A → Prop) :
  (∀ s, hs_deeds (m s).1 = hs_deeds s ∧ ∃ a, (m s).2 = Ok a) → (∀ a, Q o (Ok a)) → holds m o Q.
Proof.
  intros Hm HQ s. destruct (Hm s) as [Hd [a Ha]]. exists [], o. rewrite app_nil_r, Ha. split_and!; [done|done|apply HQ].
Qed.

(** Computations that only read, wait or change a session. *)
Definition still {A} (m : eff daemon leave A) : Prop := ∀ s, hs_deeds (m s).1 = hs_deeds s.

Lemma still_holds {A} (m : eff daemon leave A) o (Q : holding → result leave A → Prop) :
  still m → (∀ r, Q o r) → holds m o Q.
Proof. apply holds_silent. Qed.
Lemma still_bind {A B} (m : eff daemon leave A) (k : A → eff daemon leave B) :
  still m → (∀ a, still (k a)) → still (m ≫= k).
Proof.
  intros Hm Hk s. unfold mbind, eff_bind. specialize (Hm s). destruct (m s) as [s1 [a|e]]; cbn in *; [|done].
  by rewrite (Hk a s1).
Qed.

Section handlers.
Context `{AuthCrates, Serde} (env : nat → HttpEnv) (st : AppState).

Lemma interleave_still : still (interleave env).
Proof. intros s. unfold interleave. by destruct (he_others _ _) as [[] ?]. Qed.
Lemma on_session_still {A} id (missing : A) f : still (on_session id missing f).
Proof. intros s. unfold on_session. destruct (_ !! _); [|done]. by destruct (f _ _). Qed.
Lemma await_still timer cancellable : still (await env timer cancellable).
Proof.
  unfold await. apply still_bind; [apply interleave_still|]. intros []. apply still_bind; [done|].
  intros [| | |]; [done|by destruct timer|by destruct cancellable|done].
Qed.
Lemma file_call_still context : still (file_call env context).
Proof. unfold file_call. apply still_bind; [done|]. by intros [err|]. Qed.
Lemma clean_up_still id explicit : still (clean_up env id explicit).
Proof.
  unfold clean_up. apply still_bind; [apply interleave_still|]. intros []. apply still_bind; [done|]. intros outcome.
  apply still_bind; [apply on_session_still|]. intros permit. apply still_bind; [done|]. done.
Qed.
Lemma follow_still id n : still (follow env id n).
Proof. destruct n; try done. cbn. apply still_bind; [apply clean_up_still|done]. Qed.
Lemma on_session_sure {A} id (missing : A) f s : ∃ a, (on_session id missing f s).2 = Ok a.
Proof. unfold on_session. destruct (_ !! _); [|by eexists]. destruct (f _ _). by eexists. Qed.
Lemma clean_up_sure id explicit s : ∃ a, (clean_up env id explicit s).2 = Ok a.
Proof.
  unfold clean_up, mbind, eff_bind, interleave. destruct (he_others _ _) as [[] ?]. cbn.
  match goal with |- context [on_session ?i ?x ?f ?s] => destruct (on_session_sure i x f s) as [a Ha] end.
  destruct (on_session _ _ _ _) as [s' [b|]]; [|done]. by eexists.
Qed.
Lemma follow_sure id n s : ∃ a, (follow env id n s).2 = Ok a.
Proof.
  destruct n; try by eexists. cbn. unfold mbind, eff_bind. destruct (clean_up_sure id explicit s) as [a Ha].
  destruct (clean_up env id explicit s) as [s' [b|]]; [by eexists|done].
Qed.
Lemma read_metadata_still data chunks : still (read_metadata env data chunks).
Proof.
  revert data. induction chunks as [|[chunk|e] chunks IH]; intros data; cbn [read_metadata];
    (apply still_bind; [apply await_still|intros []]); [done| |done]. by destruct (_ <? _).
Qed.
Lemma read_body_still max data chunks : still (read_body env max data chunks).
Proof.
  revert data. induction chunks as [|[chunk|e] chunks IH]; intros data; cbn [read_body];
    (apply still_bind; [apply await_still|intros []]); [done| |done]. by destruct (_ <? _).
Qed.
Lemma metadata_field_still m : still (metadata_field env m).
Proof.
  unfold metadata_field. apply still_bind; [apply await_still|]. intros [].
  destruct (next_field m) as [[[p m']|]|]; try done. destruct (field_named _ _); [|done].
  apply still_bind; [apply read_metadata_still|done].
Qed.
Lemma store_chunks_still cancellable what too_large path max bytes data chunks :
  still (store_chunks env cancellable what too_large path max bytes data chunks).
Proof.
  revert bytes data. induction chunks as [|[chunk|e] chunks IH]; intros bytes data; cbn [store_chunks];
    (apply still_bind; [apply await_still|intros []]); [done| |done]. destruct (_ <? _); [done|].
  apply still_bind; [apply file_call_still|]. intros []. by apply still_bind.
Qed.
Lemma authorized_still headers : still (authorized st headers).
Proof. unfold authorized. by destruct (authorize _ _ _). Qed.

(** * What each handler holds when it returns *)

Abbreviation empty_handed := (λ (o : holding) (_ : result leave reply), o = (false, ∅)).

(** A step that takes nothing; what follows it is reached with any value. *)
Tactic Notation "passing" uconstr(L) "as" simple_intropattern(p) :=
  apply holds_bind, still_holds; [first [apply L|done]|intros [p|?]; [|done]].

Lemma remove_temp_holds p b temps (Q : holding → result leave unit → Prop) :
  p ∈ temps → Q (b, temps ∖ {[p]}) (Ok tt) → holds (remove_temp p) (b, temps) Q.
Proof. intros Hp. apply (holds_edit (TempRemoved p)); [done|]. cbn. by rewrite bool_decide_true. Qed.

Lemma receive_upload_holds b cancellable what too_large max m :
  holds (receive_upload env cancellable what too_large max m) (b, ∅)
    (λ o r, match r with Ok (p, _) => o = (b, {[p]}) | Err _ => o = (b, ∅) end).
Proof.
  unfold receive_upload. passing await_still as [].
  destruct (next_field m) as [[[p m']|]|]; try by apply holds_fail. destruct (field_named _ _); [|by apply holds_fail].
  passing file_call_still as []. passing file_call_still as []. 
  apply holds_bind, still_holds; [done|]. intros [path|e]; [|done].
  apply holds_bind. apply (holds_edit (TempCreated path) _ _ (b, {[path]})); [done|cbn; f_equal; f_equal; set_solver|].
  apply holds_bind, holds_edit_silent; [done|]. apply holds_or_else. apply holds_bind, still_holds; [apply store_chunks_still|].
  assert (holds (remove_temp path) (b, {[path]}) (λ o' r',
    match r' with Ok _ => o' = (b, ∅) | Err _ => o' = (b, ∅) end)) as Hremove.
  { apply remove_temp_holds; [set_solver|]. f_equal. set_solver. }
  intros [data|e]; [|by apply Hremove].
  apply holds_bind, still_holds; [apply await_still|]. intros [[]|e]; [|by apply Hremove].
  destruct (next_field m') as [[[p' ?]|]|]; [by apply holds_fail|by apply holds_ret|by apply holds_fail].
Qed.

Lemma try_acquire_holds (Q : holding → result leave bool → Prop) :
  Q (false, ∅) (Ok false) → Q (true, ∅) (Ok true) → holds try_acquire (false, ∅) Q.
Proof.
  intros Hf Ht s. unfold wp, try_acquire. destruct (_ =? _); cbn.
  - exists [], (false, ∅). by rewrite app_nil_r.
  - exists [PermitTaken], (true, ∅). done.
Qed.
Lemma return_permit_holds temps (Q : holding → result leave unit → Prop) :
  Q (false, temps) (Ok tt) → holds return_permit (true, temps) Q.
Proof. by apply (holds_edit PermitReturned). Qed.

Lemma start_build_holds headers m : holds (start_build env st headers m) (false, ∅) empty_handed.
Proof.
  unfold start_build. passing authorized_still as []. passing metadata_field_still as [metadata m'].
  passing I as request. passing I as validated. apply holds_bind, try_acquire_holds; [by apply holds_fail|]. cbn [negb].
  apply holds_bind, holds_try, holds_or_else. eapply holds_mono; [apply receive_upload_holds|].
  intros o [[path data]|e] ->.
  - apply holds_bind. apply (holds_edit (BuildSpawned validated path) _ _ (false, ∅)); [done| |by apply holds_ret].
    cbn. rewrite bool_decide_true by set_solver. cbn. f_equal. f_equal. set_solver.
  - apply return_permit_holds. destruct e; first [by apply holds_fail|by apply holds_ret].
Qed.

Lemma reserve_session_holds validated :
  holds (reserve_session env validated) (true, ∅)
    (λ o r, match r with Ok _ => o = (false, ∅) | Err _ => o = (true, ∅) end).
Proof.
  unfold reserve_session. passing I as id. passing I as now. destruct (reserve _ _ _ _ _); [|by apply holds_fail].
  apply holds_bind. apply (holds_edit (Reserved id) _ _ (false, ∅)); [done|done|by apply holds_ret].
Qed.

Lemma start_session_holds headers m : holds (start_session env st headers m) (false, ∅) empty_handed.
Proof.
  unfold start_session. passing authorized_still as []. destruct (negb _); [by apply holds_ret|].
  passing metadata_field_still as [metadata m']. passing I as request. passing I as task.
  apply holds_bind, try_acquire_holds; [by apply holds_fail|]. cbn [negb].
  apply holds_bind, holds_or_else. eapply holds_mono; [apply reserve_session_holds|].
  intros o [entry|e] ->; [|by apply return_permit_holds]. passing I as now.
  apply holds_bind, holds_try. eapply holds_mono; [apply receive_upload_holds|]. intros o [[path data]|e] ->.
  - apply holds_bind, holds_sure; [intros s; split; [apply on_session_still|apply on_session_sure]|].
    intros [begun n]. apply holds_bind, holds_sure; [intros s; split; [apply follow_still|apply follow_sure]|].
    intros []. destruct begun; cbn [negb].
    + apply holds_bind. apply (holds_edit (InitSpawned (en_id entry) path) _ _ (false, ∅)); [done| |by apply holds_ret].
      cbn. rewrite bool_decide_true by set_solver. f_equal. f_equal. set_solver.
    + apply holds_bind, remove_temp_holds; [set_solver|]. apply holds_ret. f_equal. set_solver.
  - destruct (upload_failure _ _); [|by apply holds_fail]. passing on_session_still as n. passing follow_still as [].
    by apply holds_ret.
Qed.

(** Nothing is taken or given. *)
Lemma run_update_holds id r o : holds (run_update env id r) o (λ o' _, o' = o).
Proof.
  unfold run_update. apply holds_bind. apply (holds_edit (UpdateSpawned id r) _ _ o); [done|by destruct o|].
  passing await_still as []. passing I as join. passing I as panicked. passing I as result.
  destruct join; [by apply holds_ret|]. destruct panicked.
  - passing on_session_still as n. passing follow_still as []. by apply holds_ret.
  - by destruct result as [|[]]; apply holds_ret.
Qed.

Lemma verify_and_update_holds id metadata request data digest o :
  holds (verify_and_update env id metadata request data digest) o (λ o' _, o' = o).
Proof.
  unfold verify_and_update. passing await_still as []. passing I as join. passing I as prepared.
  destruct join; [by apply holds_ret|]. destruct prepared as [[]|[]]; [|by apply holds_ret].
  passing I as base. passing I as update_id. passing on_session_still as admission.
  destruct admission as [[r|response]|e]; [apply run_update_holds|by apply holds_ret..].
Qed.

Lemma update_session_source_holds headers id m :
  holds (update_session_source env st headers id m) (false, ∅) empty_handed.
Proof.
  unfold update_session_source. passing authorized_still as []. destruct (_ || _); [by apply holds_ret|].
  apply holds_bind. unfold update_context. passing on_session_still as context.
  destruct context as [[policy remaining]|[]]; try by first [apply holds_fail|apply holds_ret].
  apply holds_ret. passing metadata_field_still as [metadata m']. passing I as request.
  apply holds_bind, holds_try. unfold receive_update_upload. apply holds_bind.
  eapply holds_mono; [apply receive_upload_holds|]. intros o [[path data]|e] ->.
  - apply holds_ret, holds_finally. eapply holds_mono; [apply verify_and_update_holds|]. intros o r ->.
    apply remove_temp_holds; [set_solver|]. f_equal. set_solver.
  - destruct e; first [by apply holds_fail|by apply holds_ret].
Qed.

Lemma run_session_action_holds headers id action chunks :
  holds (run_session_action env st headers id action chunks) (false, ∅) empty_handed.
Proof.
  unfold run_session_action. passing authorized_still as []. repeat (destruct (negb _); [by apply holds_ret|]).
  passing read_body_still as body. passing I as request. passing I as action_id. passing on_session_still as reservation.
  destruct reservation as [r|e]; [|by apply holds_ret]. apply holds_bind.
  apply (holds_edit (ActionSpawned id r (encode_input r (sa_input request))) _ _ (false, ∅)); [done|done|by apply holds_ret].
Qed.

Lemma stop_session_holds headers id : holds (stop_session env st headers id) (false, ∅) empty_handed.
Proof.
  unfold stop_session. passing authorized_still as []. repeat (destruct (negb _); [by apply holds_ret|]).
  passing interleave_still as []. passing on_session_still as stopped. apply holds_bind, still_holds.
  { destruct stopped as [[| |]|]; try done. apply still_bind; [apply clean_up_still|done]. }
  intros [answer|e]; [|done]. passing await_still as []. passing I as join.
  by destruct join, answer; apply holds_ret.
Qed.

Lemma get_artifact_holds headers id : holds (get_artifact env st headers id) (false, ∅) empty_handed.
Proof.
  unfold get_artifact, read_artifact. passing authorized_still as []. destruct (negb _); [by apply holds_ret|].
  passing I as root. destruct root; [|by apply holds_ret]. passing I as resolved. destruct resolved; [|by apply holds_ret].
  destruct (negb _); [by apply holds_ret|]. passing await_still as []. passing I as file.
  by destruct file; apply holds_ret.
Qed.

(** Whether axum's extractors accept the request. *)
Definition extracts (ep : endpoint) : bool :=
  match ep with
  | PostObservations _ => true
  | GetObservationArtifacts id => is_some id
  | HttpRoute (PostBuilds upload | PostSessions upload) => is_some upload
  | HttpRoute (GetBuildArtifacts id | DeleteSession id) => is_some id
  | HttpRoute (PostUpdates args) => is_some args
  | HttpRoute (PostActions args _) => is_some args
  end.

(** Without credentials: 401, or the 400 of an extractor that comes first. *)
Definition turned_away (ep : endpoint) (a : answer) : Prop :=
  if extracts ep then
    a = HttpAnswered (Err (Answer (JsonError 401 "unauthorized"))) ∨
    a = HostAnswered (Err (HostAnswer (JsonError 401 "unauthorized")))
  else a = HttpAnswered (Ok (StatusOnly BAD_REQUEST)) ∨ a = HostAnswered (Ok (StatusOnly BAD_REQUEST)).

Lemma unauthorized_answer {P} headers auth required (response : response P) :
  authorize headers auth required = Some response → response = JsonError 401 "unauthorized".
Proof. unfold authorize. destruct (negb _); [done|]. destruct (_ || _); [|done]. by intros [= <-]. Qed.

Lemma authorize_any {P Q} headers auth required :
  authorize (P := P) headers auth required ≠ None → authorize (P := Q) headers auth required ≠ None.
Proof. unfold authorize. destruct (negb _); [done|]. by destruct (_ || _). Qed.

Lemma serve_http_unauthorized headers ep s :
  authorize (P := body) headers (as_auth st) (as_auth_required st) ≠ None →
  (serve_http env st headers ep s).1 = s ∧
  turned_away (HttpRoute ep) (HttpAnswered (serve_http env st headers ep s).2).
Proof.
  intros Ha. destruct (authorize _ _ _) as [response|] eqn:E; [|done]. clear Ha.
  pose proof (unauthorized_answer _ _ _ _ E) as ->.
  destruct ep as [[m|]|[id|]|[m|]|[id|]|[[id m]|]|[[id action]|] chunks]; cbn [serve_http extracted];
    unfold start_build, get_artifact, start_session, stop_session, update_session_source, run_session_action,
      authorized; try rewrite E; split; try done; by left.
Qed.

Context `{HostCodec} (henv : nat → HostHttpEnv).

Lemma host_unauthorized headers (m : host_daemon → host_daemon * result host_leave host_reply) h :
  (∀ response, authorize headers (as_auth st) (as_auth_required st) = Some response →
     m h = (h, Err (HostAnswer response))) →
  authorize (P := body) headers (as_auth st) (as_auth_required st) ≠ None →
  m h = (h, Err (HostAnswer (JsonError 401 "unauthorized"))).
Proof.
  intros Hm Ha%(authorize_any (Q := (ObservationResponse + string)%type)).
  destruct (authorize _ _ _) as [response|] eqn:E; [|done]. rewrite (Hm response) by done.
  by rewrite (unauthorized_answer _ _ _ _ E).
Qed.

Lemma serve_unauthorized headers ep s :
  authorize (P := body) headers (as_auth st) (as_auth_required st) ≠ None →
  (serve env henv st headers ep s).1 = s ∧ turned_away ep (serve env henv st headers ep s).2.
Proof.
  intros Ha. destruct s as [d h]. destruct ep as [chunks|id|ep]; cbn [serve]; unfold on_host, on_http; cbn [sv_daemon sv_host].
  - rewrite (host_unauthorized headers (observe_handler henv st headers chunks)); [split; [done|by right]| |done].
    intros response E. unfold observe_handler, host_authorized. by rewrite E.
  - destruct id as [id|]; cbn [extracted]; [|split; [done|by right]].
    rewrite (host_unauthorized headers (artifact_handler henv st headers id)); [split; [done|by right]| |done].
    intros response E. unfold artifact_handler, host_authorized. by rewrite E.
  - destruct (serve_http_unauthorized headers ep d Ha) as [Hs Ht].
    destruct (serve_http _ _ _ _ _) as [d' r]. cbn in *. by subst.
Qed.

(** The answer to a host observation names what is kept in the store. *)
Definition kept_for (a : answer) (storage : option string) : Prop :=
  ∀ response, a = HostAnswered (Ok (Payload (inl response))) →
    storage = (λ _, mf_observation_id (or_manifest response)) <$> or_artifacts response.

Lemma serve_http_holds headers ep : holds (serve_http env st headers ep) (false, ∅) empty_handed.
Proof.
  destruct ep as [[m|]|[id|]|[m|]|[id|]|[[id m]|]|[[id action]|] chunks]; cbn [serve_http extracted];
    first [apply start_build_holds|apply get_artifact_holds|apply start_session_holds|apply stop_session_holds
          |apply update_session_source_holds|apply run_session_action_holds|by apply holds_ret].
Qed.

End handlers.

(** * No request makes a handler of the HTTP service panic. *)

Definition steady {A} (m : eff daemon leave A) (Q : A → Prop) : Prop :=
  ∀ s, match (m s).2 with Ok a => Q a | Err Panicked => False | Err _ => True end.
Abbreviation safe_from_panic m := (steady m (λ _, True)).

Lemma steady_bind {A B} (m : eff daemon leave A) (k : A → eff daemon leave B) Q R :
  steady m Q → (∀ a, Q a → steady (k a) R) → steady (m ≫= k) R.
Proof.
  intros Hm Hk s. unfold mbind, eff_bind. specialize (Hm s). destruct (m s) as [s1 [a|e]]; cbn in *; [by apply Hk|done].
Qed.
Lemma steady_next {A B} (m : eff daemon leave A) (k : A → eff daemon leave B) R :
  safe_from_panic m → (∀ a, steady (k a) R) → steady (m ≫= k) R.
Proof. intros Hm Hk. by eapply steady_bind. Qed.
Lemma steady_ret {A} (a : A) (Q : A → Prop) : Q a → steady (mret a) Q.
Proof. by intros ? s. Qed.
Lemma steady_lift {A} (r : result leave A) (Q : A → Prop) :
  r ≠ Err Panicked → (∀ a, r = Ok a → Q a) → steady (io_lift r) Q.
Proof. intros Hr HQ s. cbn. destruct r as [a|[]]; auto. Qed.
Lemma steady_lift_answer {A E} (f : E → reply) (r : result E A) (Q : A → Prop) :
  (∀ a, r = Ok a → Q a) → steady (io_lift (map_err (λ e, Answer (f e)) r)) Q.
Proof. intros HQ. apply steady_lift; [by destruct r|]. intros a Ha%map_err_Ok. auto. Qed.

Lemma steady_fail {A} e (Q : A → Prop) : e ≠ Panicked → steady (io_fail e) Q.
Proof. intros He s. by destruct e. Qed.
Lemma try_acquire_steady : safe_from_panic try_acquire.
Proof. intros s. unfold try_acquire. by destruct (_ =? _). Qed.
Lemma steady_try {A} (m : eff daemon leave A) Q : steady m Q → steady (io_try m) (λ r, r ≠ Err Panicked).
Proof. intros Hm s. specialize (Hm s). unfold io_try. destruct (m s) as [s' [a|[]]]; done. Qed.
Lemma steady_or_else {A} cleanup (m : eff daemon leave A) Q :
  safe_from_panic cleanup → steady m Q → steady (or_else cleanup m) Q.
Proof.
  intros Hc Hm s. unfold or_else, mbind, eff_bind, io_try. specialize (Hm s). destruct (m s) as [s1 [a|e]]; cbn in *; [done|].
  specialize (Hc s1). destruct (cleanup s1) as [s2 [[]|e']]; cbn in *; [by destruct e|by destruct e'].
Qed.
Lemma steady_finally {A} cleanup (m : eff daemon leave A) Q :
  safe_from_panic cleanup → steady m Q → steady (finally cleanup m) Q.
Proof.
  intros Hc Hm s. unfold finally, mbind, eff_bind, io_try. specialize (Hm s). destruct (m s) as [s1 r]; cbn in *.
  specialize (Hc s1). destruct (cleanup s1) as [s2 [[]|e']]; cbn in *; [done|by destruct e'].
Qed.
Lemma on_session_steady {A} id (missing : A) f (Q : A → Prop) :
  Q missing → (∀ now e, Q (f now e).2) → steady (on_session id missing f) Q.
Proof.
  intros Hm Hf s. unfold on_session. destruct (hs_sessions s !! id) as [e|]; [|done]. specialize (Hf (hs_now s) e).
  by destruct (f _ e).
Qed.

Section panics.
Context `{AuthCrates, Serde, Glob} (env : nat → HttpEnv) (st : AppState).
Context (metadata : string → result io_error file_meta) (Hconfig : Config_validate metadata (as_config st) = Ok tt).

Create HintDb steady discriminated.

(** Goes through a handler down to the calls that could panic. *)
Ltac calmly := repeat
  (cbv beta; lazymatch goal with
   | |- steady (mbind _ (io_try _)) _ => eapply steady_bind; [apply (steady_try _ (λ _, True))|intros ? ?]
   | |- steady (mbind _ (or_else _ _)) _ => eapply steady_next; [apply steady_or_else; [done|]|intros ?]
   | |- steady (mbind _ _) _ => eapply steady_next; [|intros ?]
   | |- steady (finally _ _) _ => apply steady_finally; [done|]
   | |- steady (or_else _ _) _ => apply steady_or_else; [done|]
   | |- steady (io_lift (map_err _ _)) _ => by apply steady_lift_answer
   | |- steady (io_fail _) _ => apply steady_fail; congruence
   | |- steady try_acquire _ => apply try_acquire_steady
   | |- steady (mret _) _ => by apply steady_ret
   | |- steady (match ?x with _ => _ end) _ => destruct x eqn:?
   | |- steady (match ?x with _ => _ end _) _ => destruct x eqn:?
   | |- steady (on_session _ _ _) _ => by apply on_session_steady
   | |- steady _ _ => first [solve [eauto 1 with steady]|done]
   end).

Lemma interleave_steady : safe_from_panic (interleave env).
Proof. intros s. unfold interleave. by destruct (he_others _ _) as [[] ?]. Qed.
#[local] Hint Resolve interleave_steady : steady.
Lemma await_steady timer cancellable : safe_from_panic (await env timer cancellable).
Proof. unfold await. calmly. Qed.
#[local] Hint Resolve await_steady : steady.
Lemma clean_up_steady id explicit : safe_from_panic (clean_up env id explicit).
Proof. unfold clean_up. calmly. Qed.
#[local] Hint Resolve clean_up_steady : steady.
Lemma follow_steady id n : safe_from_panic (follow env id n).
Proof. unfold follow. calmly. Qed.
Lemma file_call_steady context : safe_from_panic (file_call env context).
Proof. unfold file_call. calmly. Qed.
#[local] Hint Resolve follow_steady file_call_steady : steady.
Lemma read_metadata_steady chunks : ∀ data, safe_from_panic (read_metadata env data chunks).
Proof. induction chunks as [|[] chunks IH]; intros data; cbn [read_metadata]; calmly. Qed.
Lemma read_body_steady max chunks : ∀ data, safe_from_panic (read_body env max data chunks).
Proof. induction chunks as [|[] chunks IH]; intros data; cbn [read_body]; calmly. Qed.
#[local] Hint Resolve read_metadata_steady read_body_steady : steady.
Lemma metadata_field_steady m : safe_from_panic (metadata_field env m).
Proof. unfold metadata_field. calmly. Qed.
Lemma store_chunks_steady cancellable what too_large path max chunks : ∀ bytes data,
  safe_from_panic (store_chunks env cancellable what too_large path max bytes data chunks).
Proof. induction chunks as [|[] chunks IH]; intros bytes data; cbn [store_chunks]; calmly. Qed.
#[local] Hint Resolve metadata_field_steady store_chunks_steady : steady.
Lemma receive_upload_steady cancellable what too_large max m :
  safe_from_panic (receive_upload env cancellable what too_large max m).
Proof. unfold receive_upload. calmly. Qed.
Lemma authorized_steady headers : safe_from_panic (authorized st headers).
Proof. unfold authorized. calmly. Qed.
#[local] Hint Resolve receive_upload_steady authorized_steady : steady.


Lemma start_build_steady headers m : safe_from_panic (start_build env st headers m).
Proof. unfold start_build. calmly. Qed.
Lemma run_session_action_steady headers id action chunks :
  safe_from_panic (run_session_action env st headers id action chunks).
Proof. unfold run_session_action. calmly. Qed.
Lemma stop_session_steady headers id : safe_from_panic (stop_session env st headers id).
Proof. unfold stop_session. calmly. Qed.
Lemma get_artifact_steady headers id : safe_from_panic (get_artifact env st headers id).
Proof. unfold get_artifact, read_artifact. calmly. Qed.

Lemma reserve_session_steady request_id task_id task session :
  cf_tasks (as_config st) !! task_id = Some task → tk_session task = Some session →
  safe_from_panic (reserve_session env {| vr_request_id := request_id; vr_task_id := task_id; vr_task := task |}).
Proof.
  intros Ht Hs. unfold reserve_session. apply steady_next; [done|]. intros id. apply steady_next; [done|]. intros now. cbn.
  destruct (validated_session_reserves metadata (as_config st) task_id task session id request_id now) as [e ->]; try done.
Qed.

Lemma start_session_steady headers m : safe_from_panic (start_session env st headers m).
Proof.
  unfold start_session. apply steady_next; [apply authorized_steady|]. intros []. destruct (negb _); [done|].
  apply steady_next; [apply metadata_field_steady|]. intros [data m']. apply steady_next; [by apply steady_lift_answer|].
  intros request.
  apply (steady_bind _ _ (λ task, ∃ session, cf_tasks (as_config st) !! ss_task request = Some task ∧
                                             tk_session task = Some session)).
  { apply steady_lift; unfold session_task; destruct (_ !! _) as [t|]; try done;
      destruct (tk_session t) eqn:Hs; try done. intros a [= <-]. eauto. }
  intros task (session & Ht & Hs). apply steady_next; [apply try_acquire_steady|]. intros [|]; [|done]. cbn [negb].
  apply steady_next; [apply steady_or_else; [done|by eapply reserve_session_steady]|]. intros entry. calmly.
  all: destruct e; cbn in *; congruence.
Qed.

Lemma update_upload_context_error now e err : update_upload_context now e = Err err → err = UpdateNotFound.
Proof. unfold update_upload_context. repeat case_match; congruence. Qed.

Lemma update_context_steady id : safe_from_panic (update_context id).
Proof.
  unfold update_context.
  apply (steady_bind _ _ (λ r, ∀ err, r = Err err → err = UpdateNotFound)).
  { apply on_session_steady; [congruence|]. intros now e err. apply update_upload_context_error. }
  intros [context|err] Herr; [done|]. by rewrite (Herr err eq_refl).
Qed.

Lemma update_session_source_steady headers id m : safe_from_panic (update_session_source env st headers id m).
Proof.
  unfold update_session_source. apply steady_next; [apply authorized_steady|]. intros []. destruct (_ || _); [done|].
  apply steady_next; [apply update_context_steady|]. intros [policy remaining].
  apply steady_next; [apply metadata_field_steady|]. intros [data m'].
  apply (steady_bind _ _ (λ request, is_Some (parse_revision (su_base_revision request)))).
  { apply steady_lift_answer. intros request Hp. unfold parse_session_update_metadata in Hp. unbind Hp.
    injection Hp as <-. by eexists. }
  intros request [base Hbase]. unfold receive_update_upload, verify_and_update, run_update. rewrite Hbase. calmly.
Qed.

(** C40: Under a configuration that passed validation no request can make a handler
    panic: not the reservation of a session with its lifetime, not the upload
    context whose other errors are declared unreachable, and not the revision that
    is parsed a second time; every run ends with an answer, or with the signal that
    dropped it. *)
Theorem handlers_do_not_panic `{HostCodec} henv headers ep s :
  (serve env henv st headers ep s).2 ≠ HttpAnswered (Err Panicked).
Proof.
  destruct ep as [chunks|id|ep]; cbn [serve]; unfold on_host, on_http;
    [by destruct (observe_handler _ _ _ _ _)|by destruct (extracted _ _ _)|].
  assert (safe_from_panic (serve_http env st headers ep)) as Hs.
  { destruct ep as [[m|]|[id|]|[m|]|[id|]|[[id m]|]|[[id action]|] chunks]; cbn [serve_http extracted];
      first [apply start_build_steady|apply get_artifact_steady|apply start_session_steady|apply stop_session_steady
            |apply update_session_source_steady|apply run_session_action_steady|by apply steady_ret]. }
  specialize (Hs (sv_daemon s)). destruct (serve_http _ _ _ _ _) as [d r]. cbn. by intros [= ->].
Qed.
End panics.

(** * A build submitted over HTTP. *)

Definition quiet_env (_ : nat) : HttpEnv := {|
  he_others shared := shared;
  he_signal := Goes;
  he_fault := None;
  he_fresh := "0f";
  he_prepare _ _ := Ok tt;
  he_update := Err (UInternal, "none");
  he_panicked := false;
  he_join_error := None;
  he_stopped := cleanup_response "none" true some_outcome;
  he_outcome := some_outcome;
  he_canonicalize := Ok;
  he_open _ := Ok "zip";
|}.

Definition demo_app : AppState :=
  {| as_config := demo_config; as_auth := {| digests := [] |}; as_auth_required := false;
     as_managed_sessions_enabled := true |}.

Definition idle_daemon : daemon := Daemon 0 0 1 ∅ ∅ [].

Definition demo_upload : endpoint := HttpRoute (PostBuilds (Some (upload_of ["re"; "q"] ["PK"; "zip"]))).

(** No host is asked for anything. *)
#[local] Instance no_host : HostCodec := {|
  encode_manifest _ := Err "none"; decode_manifest _ := Err "none"; encode_host_request _ := Err "none";
  decode_host_request _ := Err "none"; uuid_parse _ := Err "none" |}.
Definition no_host_env (_ : nat) : HostHttpEnv := {|
  hx_others slots := slots; hx_signal := Goes; hx_scratch := Err "none"; hx_canonicalize := Err "none";
  hx_observe _ _ _ _ := Err "none"; hx_mkdir _ := Err "none"; hx_collect _ _ := Err "none"; hx_join_error := None;
  hx_resolve := Ok; hx_open _ := Ok "zip";
|}.
Definition idle_service : service := Service idle_daemon (HostDaemon 0 1 []).

Abbreviation demo_run := (serve quiet_env no_host_env demo_app [] demo_upload idle_service).

(** The slot is taken, the archive stored, and both are the worker's. *)
Example demo_deeds :
  hs_permits (sv_daemon demo_run.1) = 0 ∧ hs_temps (sv_daemon demo_run.1) = {["0f" := "PKzip"]} ∧
  ∃ v, hs_deeds (sv_daemon demo_run.1) = [PermitTaken; TempCreated "0f"; BuildSpawned v "0f"].
Proof. vm_compute. eauto. Qed.

(** Where a token is required, a request without one is answered 401, and one that is
    no upload either 400. *)
Definition guarded_app : AppState :=
  {| as_config := demo_config; as_auth := {| digests := [] |}; as_auth_required := true;
     as_managed_sessions_enabled := true |}.
Example demo_unauthorized :
  serve quiet_env no_host_env guarded_app [] demo_upload idle_service =
    (idle_service, HttpAnswered (Err (Answer (JsonError 401 "unauthorized")))) ∧
  serve quiet_env no_host_env guarded_app [] (PostObservations []) idle_service =
    (idle_service, HostAnswered (Err (HostAnswer (JsonError 401 "unauthorized")))) ∧
  serve quiet_env no_host_env guarded_app [] (HttpRoute (PostBuilds None)) idle_service =
    (idle_service, HttpAnswered (Ok (StatusOnly 400))).
Proof. by vm_compute. Qed.


Lemma workers_get_the_request_witness :
  ∃ v, demo_run.2 = HttpAnswered (Ok (Payload (BuildEvents v))) ∧
    build_started demo_app demo_upload v (sv_daemon demo_run.1).
Proof.
  destruct demo_run.2 as [[[| | |[v| | | | | |]]|]|] eqn:Hr; try (vm_compute in Hr; discriminate Hr).
  exists v. split; [reflexivity|].
  refine (proj2 (workers_get_the_request quiet_env demo_app _ no_host_env [] demo_upload idle_service demo_run.1
    (BuildEvents v) _)).
  - vm_compute. reflexivity.
  - rewrite <-Hr. apply surjective_pairing.
Defined.

Lemma handlers_do_not_panic_witness : demo_run.2 ≠ HttpAnswered (Err Panicked).
Proof.
  apply (handlers_do_not_panic (H1 := demo_glob) quiet_env demo_app demo_metadata ltac:(vm_compute; reflexivity)).
Defined.
