(* ===== verification/HostExamples.v ===== *)
(** A window captured by the broker, sent to the daemon and published there. *)
From Stdlib Require Import Ascii SpecFloat.
From stdpp Require Import base option strings numbers list gmap countable sets.
From S2P Require Import Prelude Effects RustStr Fs Bearer Auth Protocol Config Artifacts Sessions Http HostPng HostObservation HostFacts HostTransport HostPublish HttpHost.

Local Open Scope N_scope.

(** * Encodings *)

#[export] Instance spec_float_eq_dec : EqDecision spec_float.
Proof. solve_decision. Defined.
#[export] Instance spec_float_countable : Countable spec_float.
Proof.
  refine (inj_countable'
    (λ f, match f with
          | S754_zero s => inl (inl s)
          | S754_infinity s => inl (inr (Some s))
          | S754_nan => inl (inr None)
          | S754_finite s m e => inr (s, m, e)
          end)
    (λ x, match x with
          | inl (inl s) => S754_zero s
          | inl (inr (Some s)) => S754_infinity s
          | inl (inr None) => S754_nan
          | inr (s, m, e) => S754_finite s m e
          end) _).
  by intros [].
Defined.

#[export] Instance bounds_eq_dec : EqDecision Bounds.
Proof. solve_decision. Defined.
#[export] Instance bounds_countable : Countable Bounds.
Proof.
  refine (inj_countable' (λ b, (bo_x b, bo_y b, bo_width b, bo_height b))
    (λ '(x, y, w, h), {| bo_x := x; bo_y := y; bo_width := w; bo_height := h |}) _). by intros [].
Defined.
#[export] Instance application_eq_dec : EqDecision Application.
Proof. solve_decision. Defined.
#[export] Instance application_countable : Countable Application.
Proof.
  refine (inj_countable' (λ a, (ap_pid a, ap_name a, ap_bundle_id a, ap_hidden a))
    (λ '(p, n, i, h), {| ap_pid := p; ap_name := n; ap_bundle_id := i; ap_hidden := h |}) _). by intros [].
Defined.
#[export] Instance window_eq_dec : EqDecision Window.
Proof. solve_decision. Defined.
#[export] Instance window_countable : Countable Window.
Proof.
  refine (inj_countable'
    (λ w, (wn_window_id w, wn_pid w, wn_title w, wn_on_screen w, wn_layer w, wn_bounds w, wn_capturable w))
    (λ '(i, p, t, o, l, b, c), {| wn_window_id := i; wn_pid := p; wn_title := t; wn_on_screen := o;
                                  wn_layer := l; wn_bounds := b; wn_capturable := c |}) _). by intros [].
Defined.
#[export] Instance display_eq_dec : EqDecision Display.
Proof. solve_decision. Defined.
#[export] Instance display_countable : Countable Display.
Proof.
  refine (inj_countable' (λ d, (ds_display_id d, ds_bounds d))
    (λ '(i, b), {| ds_display_id := i; ds_bounds := b |}) _). by intros [].
Defined.
#[export] Instance inventory_eq_dec : EqDecision Inventory.
Proof. solve_decision. Defined.
#[export] Instance inventory_countable : Countable Inventory.
Proof.
  refine (inj_countable' (λ i, (iv_applications i, iv_windows i, iv_displays i))
    (λ '(a, w, d), {| iv_applications := a; iv_windows := w; iv_displays := d |}) _). by intros [].
Defined.
#[export] Instance image_eq_dec : EqDecision Image.
Proof. solve_decision. Defined.
#[export] Instance image_countable : Countable Image.
Proof.
  refine (inj_countable' (λ i, (im_path i, im_pid i, im_window_id i, im_display_id i))
    (λ '(p, q, w, d), {| im_path := p; im_pid := q; im_window_id := w; im_display_id := d |}) _). by intros [].
Defined.
#[export] Instance manifest_eq_dec : EqDecision Manifest.
Proof. solve_decision. Defined.
#[export] Instance manifest_countable : Countable Manifest.
Proof.
  refine (inj_countable'
    (λ m, (mf_schema_version m, mf_observation_id m, mf_captured_at m, mf_status m, mf_inventory m,
           mf_images m, mf_errors m))
    (λ '(v, i, c, s, n, l, e), {| mf_schema_version := v; mf_observation_id := i; mf_captured_at := c;
                                  mf_status := s; mf_inventory := n; mf_images := l; mf_errors := e |}) _).
  by intros [].
Defined.
#[export] Instance host_target_countable : Countable Target.
Proof.
  refine (inj_countable'
    (λ t, match t with TDesktop => inl None | TApplication p => inl (Some p) | TWindow p w => inr (p, w) end)
    (λ x, match x with inl None => TDesktop | inl (Some p) => TApplication p | inr (p, w) => TWindow p w end) _).
  by intros [].
Defined.
#[export] Instance host_request_countable : Countable HostRequest.
Proof.
  refine (inj_countable' (λ r, match r with RList => None | RCapture t => Some t end)
    (λ x, match x with None => RList | Some t => RCapture t end) _). by intros [].
Defined.
#[export] Instance host_member_eq_dec : EqDecision member.
Proof. solve_decision. Defined.
#[export] Instance host_member_countable : Countable member.
Proof.
  refine (inj_countable' (λ m, (mb_name m, mb_mode m, mb_data m)) (λ '(n, m, d), Member n m d) _). by intros [].
Defined.

Definition decoded {A} `{Countable A} (bytes : string) : result string A :=
  ok_or (decode (bits_pos bytes)) "unreadable".

Lemma decoded_encode {A} `{Countable A} (a : A) : decoded (pos_bits (encode a)) = Ok a.
Proof. unfold decoded. by rewrite bits_pos_bits, decode_encode. Qed.

#[export] Instance demo_host_codec : HostCodec := {|
  encode_manifest m := Ok (pos_bits (encode m));
  decode_manifest := decoded;
  encode_host_request r :=
    let s := pos_bits (encode r) in if (0 <? len s) && (len s <=? MAX_REQUEST) then Ok s else Err "too long";
  decode_host_request := decoded;
  uuid_parse s := if len s =? 36 then Ok s else Err "invalid length";
|}.

#[local] Instance demo_host_codec_laws : HostCodecLaws.
Proof.
  split.
  - intros m json _ [= <-]. apply decoded_encode.
  - intros r json. cbn. destruct (_ && _); [|done]. intros [= <-]. apply decoded_encode.
  - intros r json. cbn. destruct (_ && _) eqn:E; [|done]. intros [= <-]. by breflect.
Qed.

Definition demo_file (m : member) : zip_entry :=
  {| ze_name := mb_name m; ze_is_dir := ends_with "/" (mb_name m); ze_is_symlink := false;
     ze_unix_mode := Some (N.lor o100000 (N.land (mb_mode m) o777)); ze_size := len (mb_data m);
     ze_reads := [Ok (mb_data m)] |}.

Definition demo_view (ms : list member) : zip_view :=
  {| zv_entries := Ok ∘ demo_file <$> ms;
     zv_by_name name := ok_or (List.find (λ e, bool_decide (ze_name e = name)) (demo_file <$> ms)) "not found" |}.

#[local] Instance demo_host_zip : ObservationZip := {|
  oz := list member;
  oz_new := [];
  oz_start_file name mode ms := Ok (ms ++ [Member name mode ""]);
  oz_write data ms := Ok (extend_last data ms);
  oz_finish ms := Ok (String "Z" (pos_bits (encode ms)));
  oz_open bytes := match bytes with
                   | String _ bits => ms ← decoded bits; Ok (demo_view ms)
                   | EmptyString => Err "empty"
                   end;
  oz_read_error := "unreadable";
|}.

Lemma demo_file_presents m : presents m (demo_file m).
Proof. split; try done; cbn; destruct (mb_data m); try done; cbn. by rewrite string_app_nil. Qed.

Lemma find_named (es : list zip_entry) e :
  NoDup (ze_name <$> es) → e ∈ es → List.find (λ x, bool_decide (ze_name x = ze_name e)) es = Some e.
Proof.
  induction es as [|x es IH]; intros Hn Hin; [by apply elem_of_nil in Hin|].
  rewrite fmap_cons in Hn. apply NoDup_cons in Hn as [Hx Hn]. cbn. case_bool_decide as Heq.
  - apply elem_of_cons in Hin as [->|Hin]; [done|]. destruct Hx. rewrite Heq. apply list_elem_of_fmap. eauto.
  - apply elem_of_cons in Hin as [->|Hin]; [done|]. by apply IH.
Qed.

#[local] Instance demo_host_zip_laws : ObservationZipLaws.
Proof.
  refine (@Build_ObservationZipLaws demo_host_zip (λ ms, ms) _ _ _ _ _); try (cbn; congruence).
  - intros ms bytes [= <-]. done.
  - intros ms bytes [= <-] Hn. exists (demo_view ms), (demo_file <$> ms). split_and!.
    + cbn. by rewrite decoded_encode.
    + cbn. by rewrite <-list_fmap_compose.
    + apply Forall2_fmap_r, Forall2_same_length_lookup_2; [done|]. intros i x y Hx Hy. simplify_eq. apply demo_file_presents.
    + intros e He. cbn. rewrite find_named; [done| |done]. by rewrite <-list_fmap_compose.
Qed.

(** * An image *)

Definition demo_png : string :=
  bytes (SIGNATURE ++ encode_chunk (Chunk IHDR (header_payload 1 1 8 2 0))
         ++ encode_chunk (Chunk IDAT [120; 156; 99; 0; 0]) ++ encode_chunk (Chunk IEND [])).

(** An image of one pixel is accepted. *)
Lemma accepted_images_are_png_witness : len demo_png ≤ u64_max ∧ is_png (codes demo_png).
Proof.
  split; [vm_compute; discriminate|]. apply accepted_images_are_png; [vm_compute; discriminate|].
  vm_compute. reflexivity.
Defined.

(** * A desktop with one window *)

Definition origin : Bounds :=
  {| bo_x := S754_zero false; bo_y := S754_zero false; bo_width := S754_finite false 4503599627370496 (-52);
     bo_height := S754_finite false 4503599627370496 (-52) |}.

Definition demo_inventory : Inventory :=
  {| iv_applications := [{| ap_pid := 7; ap_name := "Editor"; ap_bundle_id := None; ap_hidden := false |}];
     iv_windows := [{| wn_window_id := 3; wn_pid := 7; wn_title := "notes"; wn_on_screen := true; wn_layer := 0;
                       wn_bounds := origin; wn_capturable := true |}];
     iv_displays := [{| ds_display_id := 1; ds_bounds := origin |}] |}.

Definition demo_uuid : string := "6ba7b810-9dad-41d1-80b4-00c04fd430c8".

Definition demo_desktop (_ : nat) : HostEnv := {|
  hv_now := 0;
  hv_uuid := demo_uuid;
  hv_timestamp := "2026-01-01T00:00:00Z";
  hv_inventory := Ok demo_inventory;
  hv_capture _ _ := Ok tt;
  hv_tempdir := Ok "/private/tmp";
  hv_lstat _ := Ok (FileMeta Regular 501 20 384 (len demo_png) 1 9);
  hv_read _ := Ok demo_png;
|}.

Lemma demo_sane : sane demo_desktop.
Proof. split; [done|]. intros k inv [= <-]. by split; repeat constructor. Qed.

Definition demo_request : HostRequest := RCapture (TWindow 7 3).

(** The socket and its directory. *)
Definition demo_socket : string := "/run/gui/observe.sock".
Definition demo_lstat (p : list component) : result string file_meta :=
  match p with
  | [RootDir] | [RootDir; Normal _] => Ok (FileMeta Directory 0 0 493 0 1 1)
  | [RootDir; Normal _; Normal _] => Ok (FileMeta Directory 501 20 448 0 1 2)
  | _ => Ok (FileMeta Socket 501 20 384 0 1 3)
  end.

(** Sends that are cut short once, and reads that come in two pieces. *)
Definition demo_sends : script N := [(1, Moved 4); (2, Signalled); (3, Moved 5); (4, NotReady 5 (Ok tt)); (6, Moved 10000000)].
Definition pieces (data : string) : script string :=
  [(1, Moved (String.substring 0 2 data)); (2, NotReady 3 (Ok tt)); (4, Signalled);
   (5, Moved (String.substring 2 (String.length data) data))].

Definition demo_json : string := pos_bits (encode demo_request).
Definition demo_asked : string := be_bytes (len demo_json) +:+ demo_json.

Definition demo_connection : connection :=
  {| cn_peer := Ok 501; cn_read_start := Ok 0; cn_reads := pieces demo_asked;
     cn_write_start := Ok 0; cn_sends := demo_sends |}.

Definition demo_handled : broker * string * result string unit :=
  handle_connection demo_desktop 501 demo_connection (Broker 0 []).

Definition demo_dialled : dialled :=
  {| di_connect := Ok tt; di_peer := Ok 501; di_write_start := Ok 0; di_sends := demo_sends;
     di_read_start := Ok 0; di_reads := pieces demo_handled.1.2 |}.

Lemma demo_handled_ok : handle_connection demo_desktop 501 demo_connection (Broker 0 []) =
  (demo_handled.1.1, demo_handled.1.2, Ok tt).
Proof.
  assert (Hr : demo_handled.2 = Ok tt) by by vm_compute.
  rewrite <-Hr. unfold demo_handled. by destruct (handle_connection _ _ _ _) as [[]].
Qed.

Lemma substring_long n s : (String.length s ≤ n)%nat → String.substring 0 n s = s.
Proof. revert n. induction s as [|a s IH]; intros [|n] Hn; cbn in *; try done; try lia. by rewrite IH by lia. Qed.

Lemma pieces_arrive data deadline :
  5 < deadline → (2 <? len data) = true →
  delivers deadline (pieces data) ∧ arrived (pieces data) = data.
Proof.
  intros Hd Hl. apply N.ltb_lt in Hl. unfold len in Hl.
  destruct (string_cut 2 data) as [Hcut Hlen]; [lia|].
  assert (Hs : String.substring 2 (String.length data) data = String.substring 2 (String.length data - 2) data).
  { clear. destruct data as [|? [|? data]]; try done. cbn [String.length Nat.sub String.substring].
    by rewrite Nat.sub_0_r, !substring_long by lia. }
  unfold pieces. rewrite Hs. set (h := String.substring 0 2 data) in *.
  set (t := String.substring 2 (String.length data - 2) data) in *.
  assert (h ≠ "" ∧ t ≠ "") as [Hh Ht].
  { rewrite Hcut in Hl. rewrite string_length_app, Hlen in Hl. split; intros He; rewrite He in *; cbn in *; lia. }
  split; [|by cbn; rewrite string_app_nil, <-Hcut].
  split; repeat (constructor; cbn); try lia; try done; by intros [= He].
Qed.

Lemma demo_asks : asks demo_lstat 501 demo_socket demo_request 501 demo_dialled demo_json.
Proof.
  split_and!; [by vm_compute..|]. exists 0. split; [done|]. by vm_compute.
Qed.

Lemma demo_answer_arrives :
  delivers (0 + seconds 60) (di_reads demo_dialled) ∧ arrived (di_reads demo_dialled) = demo_handled.1.2.
Proof.
  change (di_reads demo_dialled) with (pieces demo_handled.1.2).
  apply (pieces_arrive demo_handled.1.2); [done|by vm_compute].
Qed.

Lemma demo_request_arrives :
  delivers (0 + seconds 5) (cn_reads demo_connection) ∧
  arrived (cn_reads demo_connection) = (connect demo_lstat 501 demo_socket demo_request 501 demo_dialled).1.
Proof.
  rewrite (connect_asks _ _ _ _ _ _ _ demo_asks). cbn [fst].
  change (cn_reads demo_connection) with (pieces demo_asked). apply (pieces_arrive demo_asked); [done|by vm_compute].
Qed.

(** The window is captured, received and decoded. *)
Lemma observation_arrives_witness :
  ∃ bytes m images,
    (connect demo_lstat 501 demo_socket demo_request 501 demo_dialled).2 = Ok bytes ∧
    decode_archive bytes = Ok (m, images) ∧
    observed (Some demo_request) (bk_log demo_handled.1.1) m images ∧
    Forall (λ i, validate_png i = Ok tt) images.
Proof.
  refine (observation_arrives demo_desktop demo_lstat 501 demo_socket demo_request 501 demo_dialled demo_json
            501 demo_connection 0 demo_handled.1.1 demo_handled.1.2 0 0
            demo_sane demo_handled_ok demo_asks eq_refl (proj1 demo_request_arrives) (proj2 demo_request_arrives)
            eq_refl (proj1 demo_answer_arrives) (proj2 demo_answer_arrives)).
Defined.

(** Its only capture is confirmed by the listing before it. *)
Lemma captures_are_confirmed_witness :
  ∃ text target first captures j current,
    read_request demo_connection = Ok text ∧ decode_host_request text = Ok (RCapture target) ∧
    bk_log demo_handled.1.1 !! 0%nat = Some (Listed first) ∧
    select (sort_inventory first) target = Ok captures ∧ CaptureWindow 7 3 ∈ captures ∧
    3%nat = S j ∧ bk_log demo_handled.1.1 !! j = Some (Listed current) ∧ shows first current (CaptureWindow 7 3).
Proof.
  destruct (captures_are_confirmed demo_desktop 501 demo_connection 0 demo_handled.1.1 demo_handled.1.2 (Ok tt)
              demo_handled_ok) as (_ & Hc & _).
  apply (Hc 3%nat (CaptureWindow 7 3) "/private/tmp/image-0000.png"). vm_compute. reflexivity.
Defined.

(** * Publication *)

Definition demo_manifest : Manifest :=
  {| mf_schema_version := "1"; mf_observation_id := "host-" +:+ demo_uuid; mf_captured_at := "2026-01-01T00:00:00Z";
     mf_status := "succeeded"; mf_inventory := None;
     mf_images := [capture_image "image-0000.png" (CaptureWindow 7 3)]; mf_errors := [] |}.

Definition demo_publish (_ : nat) : PublishEnv :=
  {| pv_fault := None; pv_partial := 0; pv_uuid := demo_uuid; pv_timestamp := "" |}.

Definition demo_scratch : scratch := Scratch SlotNone [] false 0.
Definition demo_observed : scratch * result string Manifest :=
  observe_host demo_publish demo_request (encode_archive demo_manifest [("image-0000.png", demo_png)]) "/scratch" demo_scratch.

(** The image and its manifest are published together. *)
Lemma observation_published_whole_witness :
  ∃ m images k, mf_observation_id m = "host-" +:+ pv_uuid (demo_publish k) ∧
    taken (encode_archive demo_manifest [("image-0000.png", demo_png)]) m images ∧ whole m images demo_observed.1.
Proof.
  destruct (observation_published_whole demo_publish demo_request
              (encode_archive demo_manifest [("image-0000.png", demo_png)]) "/scratch" demo_scratch
              demo_observed.1 demo_observed.2) as (m & images & k & Hid & Ht & _ & Hr).
  - vm_compute. reflexivity.
  - unfold demo_observed. by destruct (observe_host _ _ _ _ _).
  - assert (Hok : is_ok demo_observed.2 = true) by (vm_compute; reflexivity).
    apply is_ok_true in Hok as [m' Hm']. destruct (Hr m' Hm') as [_ Hw]. exists m, images, k. split; [exact Hid|]. split; [exact Ht|exact Hw].
Defined.

(** * A host observation requested over HTTP. *)

Definition observing_app : AppState :=
  {| as_config :=
       {| cf_schema_version := cf_schema_version demo_config; cf_service := cf_service demo_config;
          cf_build := cf_build demo_config; cf_tasks := cf_tasks demo_config;
          cf_host_observation := {| ho_enabled := true; ho_socket := Some demo_socket; ho_peer_uid := Some 501 |};
          cf_sources := cf_sources demo_config; cf_artifacts := cf_artifacts demo_config;
          cf_logging := cf_logging demo_config |};
     as_auth := {| digests := [] |}; as_auth_required := false; as_managed_sessions_enabled := true |}.

(** The client goes away while the worker runs. *)
Definition gone_env (k : nat) : HostHttpEnv := {|
  hx_others slots := slots;
  hx_signal := if (7 <? k)%nat then FutureDropped else Goes;
  hx_scratch := Ok "/tmp/indentured-host-x";
  hx_canonicalize := Ok "/tmp/indentured-host-x";
  hx_observe _ _ _ _ := Ok demo_manifest;
  hx_mkdir _ := Ok tt;
  hx_collect _ _ := Ok {| ac_archive := None; ac_restrictions := None |};
  hx_join_error := None;
  hx_resolve := Ok;
  hx_open _ := Ok "zip";
|}.

Abbreviation gone_run :=
  (observe_handler gone_env observing_app [] [Ok demo_json] (HostDaemon 0 1 [])).

(** The observation is made, and nothing stays. *)
Example gone_deeds :
  hd_slots gone_run.1 = 1 ∧ gone_run.2 = Err HostDropped ∧
  hd_deeds gone_run.1 =
    [SlotTaken; ScratchMade; Asked demo_request; StorageMade (mf_observation_id demo_manifest);
     StorageRemoved (mf_observation_id demo_manifest); ScratchRemoved; SlotReturned].
Proof. vm_compute. auto. Qed.

Lemma host_requests_leave_nothing_witness :
  ∃ ds storage, hd_deeds gone_run.1 = [] ++ ds ∧ host_replay nothing ds = Some (Holding false false storage).
Proof.
  destruct (proj2 (host_requests_leave_nothing gone_env observing_app [] [Ok demo_json] (HostDaemon 0 1 []) _ _
    (surjective_pairing gone_run))) as (ds & storage & Hd & Hr & _).
  exists ds, storage. split; [exact Hd|exact Hr].
Defined.
