(* ===== verification/CliOutput.v ===== *)
(** The client's terminal output: line limits, the log files of a run, and their
    failures ([bin/indentured.rs]). *)
From Stdlib Require Import Ascii.
From stdpp Require Import base option strings numbers list gmap pretty.
From S2P Require Import Prelude Effects RustStr Protocol.

Local Open Scope N_scope.

(** * The terminal and the log files *)

Definition OUTPUT_PREFIX : string := "[indentured-server]".
Definition STDOUT_MAX_LINES_ENV : string := "INDENTURED_SERVER_STDOUT_MAX_LINES".
Definition STDERR_MAX_LINES_ENV : string := "INDENTURED_SERVER_STDERR_MAX_LINES".

Inductive Fd := StdoutFd | StderrFd.
#[export] Instance fd_eq_dec : EqDecision Fd.
Proof. solve_decision. Defined.

(** What was written to the two standard streams and to files, the identifiers a
    reader has sent to its command, and the number of calls made. *)
Record Term := MkTerm {
  tm_out : string;
  tm_err : string;
  tm_files : gmap string string;
  tm_observed : list string;
  tm_tick : nat;
}.

Definition shown (fd : Fd) (t : Term) : string :=
  match fd with StdoutFd => tm_out t | StderrFd => tm_err t end.

(** What a call writes to. *)
Inductive Sink := ToFd (fd : Fd) | ToFile (path : string).

(** A call that fails wrote the first [k] bytes before it did. *)
Definition fault : Type := option (nat * io_error).

Definition LF : ascii := "010"%char.
Definition newline : string := String LF "".

Section console.
Context (faults : nat → Sink → fault).

Abbreviation term := (eff Term io_error).

Definition tick (t : Term) : Term := MkTerm (tm_out t) (tm_err t) (tm_files t) (tm_observed t) (S (tm_tick t)).

Definition put (fd : Fd) (data : string) (t : Term) : Term :=
  match fd with
  | StdoutFd => MkTerm (tm_out t +:+ data) (tm_err t) (tm_files t) (tm_observed t) (tm_tick t)
  | StderrFd => MkTerm (tm_out t) (tm_err t +:+ data) (tm_files t) (tm_observed t) (tm_tick t)
  end.

(** [write_all] and [flush] on a standard stream. *)
Definition write_fd (fd : Fd) (data : string) : term unit := λ t,
  match faults (tm_tick t) (ToFd fd) with
  | None => (put fd data (tick t), Ok tt)
  | Some (k, e) => (put fd (String.substring 0 k data) (tick t), Err e)
  end.

Definition append_file (path data : string) (t : Term) : Term :=
  MkTerm (tm_out t) (tm_err t) (<[path := default "" (tm_files t !! path) +:+ data]> (tm_files t))
    (tm_observed t) (tm_tick t).

(** [OpenOptions::append(true).create(true).open(path)]. *)
Definition open_append (path : string) : term unit := λ t,
  match faults (tm_tick t) (ToFile path) with
  | None => (append_file path "" (tick t), Ok tt)
  | Some (_, e) => (tick t, Err e)
  end.

(** [write_all] and [flush] on a buffered log writer.  A writer that is dropped
    after a failure tries the rest once more; the bytes of a failed call are those
    that reached the file either way. *)
Definition write_log (path data : string) : term unit := λ t,
  match faults (tm_tick t) (ToFile path) with
  | None => (append_file path data (tick t), Ok tt)
  | Some (k, e) => (append_file path (String.substring 0 k data) (tick t), Err e)
  end.

(** * Limits *)

Record OutputConfig := {
  oc_stdout_max_lines : option N;
  oc_stderr_max_lines : option N;
  oc_stdout_tail_lines : N;
  oc_stderr_tail_lines : N;
}.

Record OutputLimits := {
  ol_stdout_max_lines : option N;
  ol_stderr_max_lines : option N;
  ol_stdout_tail_lines : N;
  ol_stderr_tail_lines : N;
  ol_log_dir : string;
}.

Definition invalid_input (message : string) : io_error := IoError InvalidInput message.

(** [raw.trim().parse::<usize>()], where a blank value is none. *)
Definition parse_output_limit (raw var : string) : result io_error (option N) :=
  let trimmed := trim raw in
  if is_empty trimmed then Ok None
  else
    parsed ← ok_or (parse_u64 trimmed)
      (invalid_input (var +:+ " must be a non-negative integer, got " +:+ trimmed));
    Ok (Some parsed).

(** A limit from the environment, or else from the configuration. *)
Definition resolve_limit (raw : option string) (var : string) (configured : option N) :
    result io_error (option N) :=
  match raw with
  | Some raw =>
      parsed ← parse_output_limit raw var;
      Ok (match parsed with Some n => Some n | None => configured end)
  | None => Ok configured
  end.

(** [env] is [env::var]: [None] for a variable that is unset or not UTF-8. *)
Definition resolve_output_limits (env : string → option string) (config : option OutputConfig)
    (run_dir : string) : result io_error OutputLimits :=
  stdout_max_lines ← resolve_limit (env STDOUT_MAX_LINES_ENV) STDOUT_MAX_LINES_ENV
    (c ← config; oc_stdout_max_lines c);
  stderr_max_lines ← resolve_limit (env STDERR_MAX_LINES_ENV) STDERR_MAX_LINES_ENV
    (c ← config; oc_stderr_max_lines c);
  Ok {| ol_stdout_max_lines := stdout_max_lines;
        ol_stderr_max_lines := stderr_max_lines;
        ol_stdout_tail_lines := from_option oc_stdout_tail_lines 0 config;
        ol_stderr_tail_lines := from_option oc_stderr_tail_lines 0 config;
        ol_log_dir := run_dir |}.

(** * One stream's limiter *)

Record LineLimiter := {
  ll_label : string;
  ll_env_var : string;
  ll_max_lines : option N;
  ll_tail_lines : N;
  ll_printed_lines : N;
  ll_suppressed_lines : N;
  ll_at_line_start : bool;
  ll_current_line_allowed : bool;
  ll_suppression_notified : bool;
  ll_suppressed_line : string;
  ll_tail_buffer : list string;
  ll_log_path : option string;
}.

Definition new_limiter (label env_var : string) (max_lines : option N) (tail_lines : N) : LineLimiter := {|
  ll_label := label; ll_env_var := env_var; ll_max_lines := max_lines; ll_tail_lines := tail_lines;
  ll_printed_lines := 0; ll_suppressed_lines := 0; ll_at_line_start := true;
  ll_current_line_allowed := true; ll_suppression_notified := false; ll_suppressed_line := "";
  ll_tail_buffer := []; ll_log_path := None;
|}.

Definition set_log_path (path : option string) (l : LineLimiter) : LineLimiter := {|
  ll_label := ll_label l; ll_env_var := ll_env_var l; ll_max_lines := ll_max_lines l;
  ll_tail_lines := ll_tail_lines l; ll_printed_lines := ll_printed_lines l;
  ll_suppressed_lines := ll_suppressed_lines l; ll_at_line_start := ll_at_line_start l;
  ll_current_line_allowed := ll_current_line_allowed l;
  ll_suppression_notified := ll_suppression_notified l; ll_suppressed_line := ll_suppressed_line l;
  ll_tail_buffer := ll_tail_buffer l; ll_log_path := path;
|}.

Definition suppression_notice (l : LineLimiter) : string :=
  match ll_log_path l with
  | Some path =>
      OUTPUT_PREFIX +:+ " suppressing " +:+ ll_label l +:+ " output due to limits (full log: " +:+ path +:+ ")" +:+ newline
  | None =>
      OUTPUT_PREFIX +:+ " suppressing " +:+ ll_label l +:+
      " output due to limits (increase output lines with " +:+ ll_env_var l +:+ "=<lines>)" +:+ newline
  end.

(** [str::split_inclusive]: the pieces keep their line feed; nothing comes of an
    empty string. *)
Fixpoint split_inclusive (s : string) : list string :=
  match s with
  | EmptyString => []
  | String a s =>
      if byte_eqb a LF then newline :: split_inclusive s
      else match split_inclusive s with
           | h :: t => String a h :: t
           | [] => [String a EmptyString]
           end
  end.

(** The start of a segment: a new line is allowed or suppressed, with a notice
    before the first suppressed one. *)
Definition begin_segment (l : LineLimiter) : LineLimiter * string :=
  if ll_at_line_start l then
    let allowed := match ll_max_lines l with Some m => ll_printed_lines l <? m | None => true end in
    let notify := negb allowed && negb (ll_suppression_notified l) in
    ({| ll_label := ll_label l; ll_env_var := ll_env_var l; ll_max_lines := ll_max_lines l;
        ll_tail_lines := ll_tail_lines l; ll_printed_lines := ll_printed_lines l;
        ll_suppressed_lines := ll_suppressed_lines l; ll_at_line_start := false;
        ll_current_line_allowed := allowed;
        ll_suppression_notified := ll_suppression_notified l || notify;
        ll_suppressed_line := ll_suppressed_line l;
        ll_tail_buffer := ll_tail_buffer l; ll_log_path := ll_log_path l |},
     if notify then suppression_notice l else "")
  else (l, "").

Definition keep_suppressed (segment : string) (l : LineLimiter) : LineLimiter := {|
  ll_label := ll_label l; ll_env_var := ll_env_var l; ll_max_lines := ll_max_lines l;
  ll_tail_lines := ll_tail_lines l; ll_printed_lines := ll_printed_lines l;
  ll_suppressed_lines := ll_suppressed_lines l; ll_at_line_start := ll_at_line_start l;
  ll_current_line_allowed := ll_current_line_allowed l;
  ll_suppression_notified := ll_suppression_notified l;
  ll_suppressed_line := ll_suppressed_line l +:+ segment;
  ll_tail_buffer := ll_tail_buffer l; ll_log_path := ll_log_path l;
|}.

(** The tail buffer with the suppressed line at its end and no more than
    [tail_lines] lines. *)
Definition push_tail_line (l : LineLimiter) : list string :=
  if ll_tail_lines l =? 0 then ll_tail_buffer l
  else
    let buffer := ll_tail_buffer l ++ [ll_suppressed_line l] in
    if ll_tail_lines l <? N.of_nat (length buffer) then drop 1 buffer else buffer.

Definition finish_line (l : LineLimiter) : LineLimiter :=
  let allowed := ll_current_line_allowed l in
  {| ll_label := ll_label l; ll_env_var := ll_env_var l; ll_max_lines := ll_max_lines l;
     ll_tail_lines := ll_tail_lines l;
     ll_printed_lines := if allowed then ll_printed_lines l + 1 else ll_printed_lines l;
     ll_suppressed_lines := if allowed then ll_suppressed_lines l else ll_suppressed_lines l + 1;
     ll_at_line_start := true;
     ll_current_line_allowed := allowed;
     ll_suppression_notified := ll_suppression_notified l; ll_suppressed_line := "";
     ll_tail_buffer := if allowed then ll_tail_buffer l else push_tail_line l;
     ll_log_path := ll_log_path l |}.

(** One turn of the loop of [write_chunk], with the output so far. *)
Definition limit_segment (s : LineLimiter * string) (segment : string) : LineLimiter * string :=
  let '(l, output) := s in
  let '(l, notice) := begin_segment l in
  let '(l, output) :=
    if ll_current_line_allowed l then (l, output +:+ notice +:+ segment)
    else if 0 <? ll_tail_lines l then (keep_suppressed segment l, output +:+ notice)
    else (l, output +:+ notice) in
  (if bool_decide (last_byte segment = Some LF) then finish_line l else l, output).

Definition limit_chunk (l : LineLimiter) (data : string) : LineLimiter * string :=
  foldl limit_segment (l, "") (split_inclusive data).

Definition write_chunk (l : LineLimiter) (data : string) (fd : Fd) : term LineLimiter :=
  match ll_max_lines l with
  | None => _ ← write_fd fd data; mret l
  | Some _ =>
      let '(l, output) := limit_chunk l data in
      if is_empty output then mret l else _ ← write_fd fd output; mret l
  end.

(** [LineLimiter::finish]: a last line without a line feed counts as a line. *)
Definition finish_limiter (l : LineLimiter) : LineLimiter :=
  match ll_max_lines l with
  | None => l
  | Some _ => if ll_at_line_start l then l else finish_line l
  end.

Definition write_summary (l : LineLimiter) (fd : Fd) (label : string) : term unit :=
  match ll_max_lines l with
  | None => mret tt
  | Some _ =>
      if ll_suppressed_lines l =? 0 then mret tt
      else
        _ ← write_fd fd (OUTPUT_PREFIX +:+ " " +:+ pretty (ll_suppressed_lines l) +:+ " more " +:+ label +:+
                         " lines suppressed" +:+ newline);
        io_each (write_fd fd) (ll_tail_buffer l)
  end.

(** * Both streams *)

Record OutputLimiter := { om_stdout : LineLimiter; om_stderr : LineLimiter }.

Definition new_output (limits : OutputLimits) : OutputLimiter := {|
  om_stdout := new_limiter "stdout" STDOUT_MAX_LINES_ENV (ol_stdout_max_lines limits) (ol_stdout_tail_lines limits);
  om_stderr := new_limiter "stderr" STDERR_MAX_LINES_ENV (ol_stderr_max_lines limits) (ol_stderr_tail_lines limits);
|}.

Record StreamLogPaths := { lp_stdout : string; lp_stderr : string }.

Definition set_log_paths (paths : StreamLogPaths) (o : OutputLimiter) : OutputLimiter := {|
  om_stdout := set_log_path (Some (lp_stdout paths)) (om_stdout o);
  om_stderr := set_log_path (Some (lp_stderr paths)) (om_stderr o);
|}.
Definition clear_log_paths (o : OutputLimiter) : OutputLimiter := {|
  om_stdout := set_log_path None (om_stdout o); om_stderr := set_log_path None (om_stderr o);
|}.

(** [write_stdout] and, with the terminal's error stream, [write_stdout_as_diagnostic]. *)
Definition write_stdout (o : OutputLimiter) (data : string) (fd : Fd) : term OutputLimiter :=
  l ← write_chunk (om_stdout o) data fd; mret {| om_stdout := l; om_stderr := om_stderr o |}.
Definition write_stderr (o : OutputLimiter) (data : string) : term OutputLimiter :=
  l ← write_chunk (om_stderr o) data StderrFd; mret {| om_stdout := om_stdout o; om_stderr := l |}.

Definition finish_routed (o : OutputLimiter) (stdout_to_stderr : bool) : term unit :=
  let stdout := finish_limiter (om_stdout o) in
  let stderr := finish_limiter (om_stderr o) in
  _ ← write_summary stdout (if stdout_to_stderr then StderrFd else StdoutFd) "stdout";
  _ ← write_summary stderr StderrFd "stderr";
  _ ← write_fd StdoutFd "";
  write_fd StderrFd "".

(** * Log files *)

Inductive BufferedStreamEvent := BStdout (data : string) | BStderr (data : string).

Definition validate_build_id (build_id : string) : result io_error unit :=
  let trimmed := trim build_id in
  _ ← reject_if (is_empty trimmed || bool_decide (trimmed = ".") || bool_decide (trimmed = ".."))
    (invalid_input "build id must be a non-empty single path component");
  reject_if (contains_byte nul trimmed || contains_byte slash trimmed || contains_byte "\"%char trimmed)
    (invalid_input "build id must not contain path separators or NUL bytes").

(** A [BuildLogSink] is its paths: its writers hold no bytes between calls. *)
Definition new_sink (base_dir build_id : string) : term StreamLogPaths :=
  _ ← io_lift (validate_build_id build_id);
  let stdout_path := path_join base_dir "stdout.log" in
  let stderr_path := path_join base_dir "stderr.log" in
  _ ← open_append stdout_path;
  _ ← open_append stderr_path;
  mret {| lp_stdout := stdout_path; lp_stderr := stderr_path |}.

Record LogCaptureState := {
  lc_base_dir : option string;
  lc_sink : option StreamLogPaths;
  lc_warning_emitted : bool;
}.

Definition new_capture (limits : OutputLimits) : LogCaptureState :=
  {| lc_base_dir := Some (ol_log_dir limits); lc_sink := None; lc_warning_emitted := false |}.

Definition initialize (c : LogCaptureState) (build_id : string) :
    term (LogCaptureState * option StreamLogPaths) :=
  match lc_base_dir c with
  | None => mret (c, None)
  | Some base_dir =>
      match lc_sink c with
      | Some existing => mret (c, Some existing)
      | None =>
          paths ← new_sink base_dir build_id;
          mret ({| lc_base_dir := Some base_dir; lc_sink := Some paths;
                   lc_warning_emitted := lc_warning_emitted c |}, Some paths)
      end
  end.

Definition disable (c : LogCaptureState) : LogCaptureState :=
  {| lc_base_dir := None; lc_sink := None; lc_warning_emitted := lc_warning_emitted c |}.

Definition write_warning (c : LogCaptureState) (message : string) : term LogCaptureState :=
  if lc_warning_emitted c then mret c
  else
    _ ← write_fd StderrFd (OUTPUT_PREFIX +:+ " log capture unavailable: " +:+ message +:+ newline);
    mret {| lc_base_dir := lc_base_dir c; lc_sink := lc_sink c; lc_warning_emitted := true |}.

Definition process_event_routed (c : LogCaptureState) (o : OutputLimiter) (event : BufferedStreamEvent)
    (stdout_to_stderr : bool) : term (LogCaptureState * OutputLimiter) :=
  '(c, o) ← match lc_sink c with
    | None => mret (c, o)
    | Some sink =>
        log_result ← io_try (match event with
          | BStdout data => write_log (lp_stdout sink) data
          | BStderr data => write_log (lp_stderr sink) data
          end);
        match log_result with
        | Ok _ => mret (c, o)
        | Err err =>
            c ← write_warning (disable c) (io_error_message err);
            mret (c, clear_log_paths o)
        end
    end;
  o ← match event with
    | BStdout data => write_stdout o data (if stdout_to_stderr then StderrFd else StdoutFd)
    | BStderr data => write_stderr o data
    end;
  mret (c, o).

Definition write_completion_notice (c : LogCaptureState) : term unit :=
  match lc_sink c with
  | None => mret tt
  | Some paths =>
      write_fd StderrFd (OUTPUT_PREFIX +:+ " saved full logs: stdout=" +:+ lp_stdout paths +:+ ", stderr=" +:+
                         lp_stderr paths +:+ newline)
  end.
End console.

(** * What a limited stream shows *)

Definition joined (l : list string) : string := foldr String.append "" l.

(** The last [n] elements. *)
Definition lastn {A} (n : nat) (l : list A) : list A := drop (length l - n) l.

(** The first [max] lines, and a notice when there are more. *)
Definition limited_view (max : nat) (notice s : string) : string :=
  joined (take max (split_inclusive s)) +:+
  (if bool_decide (max < length (split_inclusive s))%nat then notice else "").

(** What follows at the end: the number of lines suppressed, and the last [tail] of
    them. *)
Definition limited_summary (max tail : nat) (label s : string) : string :=
  let more := drop max (split_inclusive s) in
  if is_nil more then ""
  else OUTPUT_PREFIX +:+ " " +:+ pretty (N.of_nat (length more)) +:+ " more " +:+ label +:+
       " lines suppressed" +:+ newline +:+ joined (lastn tail more).

(** * The limiter works byte by byte *)

Definition limit_byte (s : LineLimiter * string) (a : ascii) : LineLimiter * string :=
  limit_segment s (String a "").

Fixpoint limit_bytes (s : LineLimiter * string) (data : string) : LineLimiter * string :=
  match data with EmptyString => s | String a data => limit_bytes (limit_byte s a) data end.

Lemma limit_bytes_app s d1 d2 : limit_bytes s (d1 +:+ d2) = limit_bytes (limit_bytes s d1) d2.
Proof. revert s. induction d1 as [|a d1 IH]; intros s; [done|]. rewrite string_app_cons. cbn. apply IH. Qed.

Lemma split_inclusive_ne s : Forall (λ x, x ≠ "") (split_inclusive s).
Proof.
  induction s as [|a s IH]; [constructor|]. cbn. case_match; [by constructor|].
  destruct (split_inclusive s); constructor; try done. by apply Forall_cons in IH as [_ ?].
Qed.

Lemma last_byte_cons a s : s ≠ "" → last_byte (String a s) = last_byte s.
Proof. by destruct s. Qed.

Lemma limit_segment_cons s a h :
  a ≠ LF → h ≠ "" → limit_segment s (String a h) = limit_segment (limit_byte s a) h.
Proof.
  intros Ha Hh. destruct s as [l o]. unfold limit_byte, limit_segment.
  rewrite (last_byte_cons a h Hh). destruct (begin_segment l) as [l1 n] eqn:Eb.
  assert (Hf : bool_decide (last_byte (String a "") = Some LF) = false)
    by (apply bool_decide_eq_false; by intros [= ?]).
  assert (Hs : ll_at_line_start l1 = false).
  { unfold begin_segment in Eb. destruct (ll_at_line_start l) eqn:E; by injection Eb as <- <-. }
  destruct (ll_current_line_allowed l1) eqn:Ea; [|destruct (0 <? ll_tail_lines l1) eqn:Et].
  all: rewrite Hf; unfold begin_segment; cbn [keep_suppressed ll_at_line_start]; rewrite Hs;
    cbn [keep_suppressed ll_current_line_allowed ll_tail_lines]; rewrite Ea; try rewrite Et.
  - by rewrite !string_app_assoc.
  - rewrite string_app_nil. unfold keep_suppressed. cbn. by rewrite string_app_assoc.
  - by rewrite string_app_nil.
Qed.

Lemma limit_chunk_bytes s d : foldl limit_segment s (split_inclusive d) = limit_bytes s d.
Proof.
  revert s. induction d as [|a d IH]; intros s; [done|]. cbn [split_inclusive limit_bytes].
  rewrite <-IH. destruct (byte_eqb a LF) eqn:E; [by apply byte_eqb_true in E as ->|].
  apply byte_eqb_false in E. pose proof (split_inclusive_ne d) as Hn.
  destruct (split_inclusive d) as [|h t]; [done|]. apply Forall_cons in Hn as [Hh _].
  cbn [foldl]. by rewrite limit_segment_cons.
Qed.

(** ** The state after a prefix of the stream: its complete lines [cs], the unfinished
    one [p], and whether that has [begun] *)

Record Limited (l0 : LineLimiter) (notice : string) (m t : nat) (cs : list string) (p : string) (begun : bool)
    (l : LineLimiter) (o : string) : Prop := {
  li_config : ll_label l = ll_label l0 ∧ ll_env_var l = ll_env_var l0;
  li_notice : ll_suppression_notified l = false → suppression_notice l = notice;
  li_max : ll_max_lines l = Some (N.of_nat m);
  li_tail : ll_tail_lines l = N.of_nat t;
  li_printed : ll_printed_lines l = N.of_nat (m `min` length cs);
  li_suppressed : ll_suppressed_lines l = N.of_nat (length cs - m);
  li_start : ll_at_line_start l = negb begun;
  li_nothing : begun = false → p = "";
  li_allowed : begun = true → ll_current_line_allowed l = bool_decide (length cs < m)%nat;
  li_notified : ll_suppression_notified l = bool_decide (m < length cs + Nat.b2n begun)%nat;
  li_line : ll_suppressed_line l = if bool_decide (length cs < m)%nat || bool_decide (t = 0%nat) then "" else p;
  li_buffer : ll_tail_buffer l = lastn t (drop m cs);
  li_output : o = joined (take m (cs ++ [p])) +:+
    (if bool_decide (m < length cs + Nat.b2n begun)%nat then notice else "");
}.

Lemma joined_app l1 l2 : joined (l1 ++ l2) = joined l1 +:+ joined l2.
Proof.
  induction l1 as [|x l1 IH]; [done|]. cbn [joined app foldr]. fold (joined l1). unfold joined in *.
  cbn [foldr app]. by rewrite IH, string_app_assoc.
Qed.

Lemma joined_take_snoc m cs p :
  joined (take m (cs ++ [p])) = joined (take m cs) +:+ (if bool_decide (length cs < m)%nat then p else "").
Proof.
  rewrite take_app, joined_app. f_equal. case_bool_decide.
  - destruct (m - length cs)%nat as [|k] eqn:E; [lia|]. cbn. by rewrite take_nil, string_app_nil.
  - by replace (m - length cs)%nat with 0%nat by lia.
Qed.

Lemma limited_begin l0 notice m t cs p b l o l1 n :
  Limited l0 notice m t cs p b l o → begin_segment l = (l1, n) → Limited l0 notice m t cs p true l1 (o +:+ n).
Proof.
  intros H Hb. destruct H as [C Cn M T P S St Nt A No Li Bu O]. unfold begin_segment in Hb. rewrite St in Hb.
  destruct b; cbn [negb] in Hb.
  { injection Hb as <- <-. rewrite string_app_nil. by constructor. }
  rewrite M, P in Hb.
  assert (E : (N.of_nat (m `min` length cs) <? N.of_nat m) = bool_decide (length cs < m)%nat).
  { apply eq_bool_prop_intro. rewrite !Is_true_true, bool_decide_eq_true, N.ltb_lt. lia. }
  rewrite E, No in Hb. cbn [Nat.b2n] in *. rewrite (Nt eq_refl) in *.
  injection Hb as <- <-. constructor; cbn; try done.
  - intros Hn. apply Cn. rewrite No in *. apply orb_false_iff in Hn as [-> _]. done.
  - repeat case_bool_decide; cbn; try done; lia.
  - subst o. rewrite string_app_assoc. f_equal. rewrite No in Cn.
    repeat case_bool_decide; cbn; rewrite ?string_app_nil; auto; lia.
Qed.

Lemma limited_add l0 notice m t cs p l o seg :
  Limited l0 notice m t cs p true l o →
  Limited l0 notice m t cs (p +:+ seg) true
    (if ll_current_line_allowed l then l else if 0 <? ll_tail_lines l then keep_suppressed seg l else l)
    (if ll_current_line_allowed l then o +:+ seg else o).
Proof.
  intros [C Cn M T P S St Nt A No Li Bu O]. rewrite (A eq_refl), T. rewrite joined_take_snoc in O.
  case_bool_decide as Hl; [|destruct (0 <? N.of_nat t) eqn:Et]; constructor; cbn; try done;
    try (rewrite joined_take_snoc; subst o; repeat case_bool_decide; rewrite ?string_app_nil; try done; lia).
  - intros _. by rewrite (A eq_refl), bool_decide_true.
  - by rewrite bool_decide_true by done.
  - rewrite joined_take_snoc, (bool_decide_true (length cs < m)%nat) by done. subst o.
    rewrite !bool_decide_false by (cbn; lia). by rewrite !string_app_nil, string_app_assoc.
  - intros _. by rewrite (A eq_refl), bool_decide_false.
  - rewrite Li. apply N.ltb_lt in Et. by rewrite !bool_decide_false by lia.
  - intros _. by rewrite (A eq_refl), bool_decide_false.
  - rewrite Li. apply N.ltb_ge in Et. rewrite (bool_decide_true (t = 0%nat)) by lia. by rewrite !orb_true_r.
Qed.

Lemma lastn_snoc {A} t (l : list A) x :
  t ≠ 0%nat →
  (if (N.of_nat t <? N.of_nat (length (lastn t l ++ [x]))) then drop 1 (lastn t l ++ [x]) else lastn t l ++ [x]) =
  lastn t (l ++ [x]).
Proof.
  intros Ht. unfold lastn. rewrite !length_app, length_drop. cbn [length].
  destruct (N.ltb_spec (N.of_nat t) (N.of_nat (length l - (length l - t) + 1))) as [E|E].
  - replace (length l + 1 - t)%nat with (S (length l - t)) by lia.
    rewrite drop_app_le by (rewrite length_drop; lia). rewrite drop_drop, drop_app_le by lia.
    f_equal. f_equal. lia.
  - replace (length l - t)%nat with 0%nat by lia. replace (length l + 1 - t)%nat with 0%nat by lia. done.
Qed.

Lemma limited_finish l0 notice m t cs p l o :
  Limited l0 notice m t cs p true l o → Limited l0 notice m t (cs ++ [p]) "" false (finish_line l) o.
Proof.
  intros [C Cn M T P S St Nt A No Li Bu O]. specialize (A eq_refl).
  assert (Hb : (if ll_current_line_allowed l then ll_tail_buffer l else push_tail_line l) =
               lastn t (drop m (cs ++ [p]))).
  { rewrite A, Bu. destruct (decide (length cs < m)%nat) as [Hl|Hl].
    - rewrite bool_decide_true by done. by rewrite !(drop_ge _ m) by (rewrite ?length_app; cbn; lia).
    - rewrite bool_decide_false, drop_app_le by lia. unfold push_tail_line. rewrite T, Bu, Li.
      destruct (decide (t = 0%nat)) as [->|Ht].
      + change (lastn 0 (drop m cs) = lastn 0 (drop m cs ++ [p])). unfold lastn. by rewrite !Nat.sub_0_r, !drop_all.
      + rewrite !bool_decide_false by lia. cbn [orb].
        destruct (N.eqb_spec (N.of_nat t) 0); [lia|]. by apply lastn_snoc. }
  constructor; cbn; try done.
  - rewrite A, P, length_app. cbn. repeat case_bool_decide; lia.
  - rewrite A, S, length_app. cbn. repeat case_bool_decide; lia.
  - rewrite No, length_app. cbn. apply bool_decide_ext. lia.
  - repeat case_bool_decide; done.
  - subst o. rewrite length_app. cbn [length Nat.b2n].
    assert (E : joined (take m ((cs ++ [p]) ++ [""])) = joined (take m (cs ++ [p]))).
    { rewrite joined_take_snoc. by destruct (bool_decide (length (cs ++ [p]) < m)%nat); rewrite string_app_nil. }
    rewrite E. f_equal. by rewrite Nat.add_0_r.
Qed.

Lemma split_inclusive_line p s :
  contains_byte LF p = false → split_inclusive (p +:+ String LF s) = (p +:+ newline) :: split_inclusive s.
Proof.
  intros Hp%contains_byte_false. induction p as [|a p IH].
  - change ("" +:+ String LF s) with (String LF s). cbn [split_inclusive]. by rewrite byte_eqb_refl.
  - cbn in Hp. apply andb_true_iff in Hp as [Ha Hp]. apply negb_true_iff in Ha.
    rewrite !string_app_cons. cbn [split_inclusive]. by rewrite Ha, IH.
Qed.

Lemma split_inclusive_partial p :
  contains_byte LF p = false → split_inclusive p = if is_empty p then [] else [p].
Proof.
  intros Hp%contains_byte_false. induction p as [|a p IH]; [done|].
  cbn in Hp. apply andb_true_iff in Hp as [Ha Hp]. apply negb_true_iff in Ha.
  cbn [split_inclusive is_empty]. rewrite Ha, (IH Hp). by destruct p.
Qed.

Lemma contains_byte_snoc c p a :
  contains_byte c p = false → a ≠ c → contains_byte c (p +:+ String a "") = false.
Proof.
  rewrite !contains_byte_false, all_bytes_app. intros -> Ha. cbn. by rewrite (proj2 (byte_eqb_false a c) Ha).
Qed.

Lemma limit_byte_limited l0 notice m t cs p b st a :
  Limited l0 notice m t cs p b st.1 st.2 →
  if byte_eqb a LF
  then Limited l0 notice m t (cs ++ [p +:+ newline]) "" false (limit_byte st a).1 (limit_byte st a).2
  else Limited l0 notice m t cs (p +:+ String a "") true (limit_byte st a).1 (limit_byte st a).2.
Proof.
  intros H. destruct st as [l o]. cbn [fst snd] in H. unfold limit_byte, limit_segment.
  destruct (begin_segment l) as [l1 n] eqn:Eb.
  pose proof (limited_add _ _ _ _ _ _ _ _ (String a "") (limited_begin _ _ _ _ _ _ _ _ _ _ _ H Eb)) as H2.
  assert (E : bool_decide (last_byte (String a "") = Some LF) = byte_eqb a LF).
  { unfold byte_eqb. apply bool_decide_ext. cbn. split; congruence. }
  rewrite E. clear E. rewrite <-!string_app_assoc.
  destruct (ll_current_line_allowed l1); [|destruct (0 <? ll_tail_lines l1)].
  all: destruct (byte_eqb a LF) eqn:Ea; cbn [fst snd]; [apply byte_eqb_true in Ea as ->|exact H2].
  all: by apply limited_finish.
Qed.

Lemma limit_bytes_limited l0 notice m t s cs p st :
  contains_byte LF p = false → Limited l0 notice m t cs p (negb (is_empty p)) st.1 st.2 →
  ∃ cs' p', contains_byte LF p' = false ∧
    Limited l0 notice m t cs' p' (negb (is_empty p')) (limit_bytes st s).1 (limit_bytes st s).2 ∧
    ∀ s', cs' ++ split_inclusive (p' +:+ s') = cs ++ split_inclusive (p +:+ s +:+ s').
Proof.
  revert cs p st. induction s as [|a s IH]; intros cs p st Hp H; [by exists cs, p|].
  cbn [limit_bytes]. pose proof (limit_byte_limited _ _ _ _ _ _ _ _ a H) as H1.
  destruct (byte_eqb a LF) eqn:Ea.
  - apply byte_eqb_true in Ea as ->. destruct (IH _ "" _ eq_refl H1) as (cs' & p' & Hp' & H2 & E).
    exists cs', p'. split; [done|]. split; [done|]. intros s'.
    rewrite E, string_app_cons, split_inclusive_line by done. by rewrite <-(assoc_L (++)).
  - apply byte_eqb_false in Ea.
    destruct (IH cs (p +:+ String a "") (limit_byte st a)) as (cs' & p' & Hp' & H2 & E).
    + by apply contains_byte_snoc.
    + replace (negb (is_empty (p +:+ String a ""))) with true; [done|]. by destruct p.
    + exists cs', p'. split; [done|]. split; [done|]. intros s'. by rewrite E, string_app_assoc.
Qed.

Lemma limit_segment_output l o seg :
  limit_segment (l, o) seg = ((limit_segment (l, "") seg).1, o +:+ (limit_segment (l, "") seg).2).
Proof.
  unfold limit_segment. destruct (begin_segment l) as [l1 n].
  destruct (ll_current_line_allowed l1); [|destruct (0 <? ll_tail_lines l1)]; cbn [fst snd]; by rewrite ?string_app_assoc.
Qed.

Lemma limit_bytes_output l o d :
  limit_bytes (l, o) d = ((limit_bytes (l, "") d).1, o +:+ (limit_bytes (l, "") d).2).
Proof.
  revert l o. induction d as [|a d IH]; intros l o; [by rewrite string_app_nil|].
  cbn [limit_bytes]. unfold limit_byte. rewrite limit_segment_output.
  destruct (limit_segment (l, "") (String a "")) as [l1 o1]. cbn [fst snd].
  rewrite (IH l1 (o +:+ o1)), (IH l1 o1). cbn [fst snd]. by rewrite string_app_assoc.
Qed.

Lemma new_limiter_fresh label env_var m t path :
  let l0 := new_limiter label env_var (Some (N.of_nat m)) (N.of_nat t) in
  Limited l0 (suppression_notice (set_log_path path l0)) m t [] "" false (set_log_path path l0) "".
Proof.
  constructor; cbn; try done; try lia.
  - by destruct (_ || _).
  - unfold lastn. by rewrite !drop_nil.
  - rewrite bool_decide_false by lia. by destruct m; [|cbn; rewrite take_nil].
Qed.

(** Forgetting the log path changes the notice, unless it was already given. *)
Lemma limited_clear l0 notice m t cs p b l o :
  Limited l0 notice m t cs p b l o →
  ∃ notice', notice' ∈ [notice; suppression_notice (set_log_path None l0)] ∧
    Limited l0 notice' m t cs p b (set_log_path None l) o.
Proof.
  intros [C Cn M T P S St Nt A No Li Bu O]. destruct (ll_suppression_notified l) eqn:E.
  - exists notice. split; [by left|]. constructor; cbn; try done. all: by rewrite E.
  - exists (suppression_notice (set_log_path None l0)). split; [right; by left|].
    constructor; cbn; try done.
    + intros _. unfold suppression_notice. cbn. by destruct C as [-> ->].
    + by rewrite E.
    + by rewrite <-No in *.
Qed.

(** The limiter [l] has shown [o] of the stream [s]. *)
Definition Shows (l0 : LineLimiter) (notice : string) (m t : nat) (s : string) (l : LineLimiter) (o : string) : Prop :=
  ∃ cs p, contains_byte LF p = false ∧ Limited l0 notice m t cs p (negb (is_empty p)) l o ∧
    ∀ s', split_inclusive (s +:+ s') = cs ++ split_inclusive (p +:+ s').

Lemma shows_chunk l0 notice m t s l o d :
  Shows l0 notice m t s l o →
  Shows l0 notice m t (s +:+ d) (limit_chunk l d).1 (o +:+ (limit_chunk l d).2).
Proof.
  intros (cs & p & Hp & H & E).
  destruct (limit_bytes_limited l0 notice m t d cs p (l, o) Hp H) as (cs' & p' & Hp' & H' & E').
  rewrite limit_bytes_output in H'. unfold limit_chunk. rewrite limit_chunk_bytes.
  exists cs', p'. split; [done|]. split; [done|]. intros s'. by rewrite string_app_assoc, E, E'.
Qed.

Lemma shows_clear l0 notice m t s l o :
  Shows l0 notice m t s l o →
  ∃ notice', notice' ∈ [notice; suppression_notice (set_log_path None l0)] ∧
    Shows l0 notice' m t s (set_log_path None l) o.
Proof.
  intros (cs & p & Hp & H & E). destruct (limited_clear _ _ _ _ _ _ _ _ _ H) as (n' & Hn & H').
  exists n'. split; [done|]. by exists cs, p.
Qed.

(** All that was shown, and what the limiter keeps for the summary. *)
Lemma shows_finish l0 notice m t s l o :
  Shows l0 notice m t s l o →
  o = limited_view m notice s ∧
  ll_max_lines (finish_limiter l) = Some (N.of_nat m) ∧
  ll_suppressed_lines (finish_limiter l) = N.of_nat (length (drop m (split_inclusive s))) ∧
  ll_tail_buffer (finish_limiter l) = lastn t (drop m (split_inclusive s)).
Proof.
  intros (cs & p & Hp & H1 & E). specialize (E ""). rewrite !string_app_nil, (split_inclusive_partial p Hp) in E.
  unfold limited_view. destruct (is_empty p) eqn:Ep.
  - destruct p; [|done]. rewrite app_nil_r in E. rewrite E. destruct H1 as [C Cn M T P S St _ A No Li Bu O].
    unfold finish_limiter. rewrite M, St. cbn [negb]. rewrite M, S, Bu, length_drop.
    split; [|done]. rewrite O. cbn [Nat.b2n negb]. rewrite Nat.add_0_r. f_equal.
    rewrite joined_take_snoc. by destruct (bool_decide _); rewrite string_app_nil.
  - pose proof (limited_finish _ _ _ _ _ _ _ _ H1) as H2. rewrite E.
    destruct H1 as [C Cn M T P S St _ A No Li Bu O]. unfold finish_limiter. rewrite M, St. cbn [negb].
    split; [|split; [apply H2|split; [|apply H2]]].
    + rewrite O, length_app. by cbn [length].
    + rewrite (li_suppressed _ _ _ _ _ _ _ _ _ H2). by rewrite length_drop.
Qed.

(** * What the terminal shows and the log files hold *)

(** A stream on the terminal: all of it, or its first lines with a notice and a
    summary at the end. *)
Definition stream_view (max : option N) (tail : N) (notice label s : string) : string :=
  match max with
  | None => s
  | Some m => limited_view (N.to_nat m) notice s +:+ limited_summary (N.to_nat m) (N.to_nat tail) label s
  end.

(** The limiter [l], which started as [l0], has shown [o] of [s]. *)
Definition stream_shown (l0 : LineLimiter) (notice s : string) (l : LineLimiter) (o : string) : Prop :=
  ll_max_lines l = ll_max_lines l0 ∧
  match ll_max_lines l0 with
  | None => o = s
  | Some m => Shows l0 notice (N.to_nat m) (N.to_nat (ll_tail_lines l0)) s l o
  end.

Lemma stream_shown_fresh label env_var max tail path :
  let l0 := new_limiter label env_var max tail in
  stream_shown l0 (suppression_notice (set_log_path path l0)) "" (set_log_path path l0) "".
Proof.
  split; [done|]. destruct max as [m|]; cbn [new_limiter ll_max_lines ll_tail_lines]; [|done].
  exists [], "". split; [done|]. split; [|done].
  pose proof (new_limiter_fresh label env_var (N.to_nat m) (N.to_nat tail) path) as H.
  by rewrite !N2Nat.id in H.
Qed.

Definition warned (t : Term) : Prop :=
  ∃ before message after,
    tm_err t = before +:+ (OUTPUT_PREFIX +:+ " log capture unavailable: " +:+ message) +:+ after.

Definition notices (l0 : LineLimiter) (path : string) : list string :=
  [suppression_notice (set_log_path (Some path) l0); suppression_notice (set_log_path None l0)].

Section shown.
Context (faults : nat → Sink → fault).
Hypothesis terminal_works : ∀ n fd, faults n (ToFd fd) = None.

(** From [t] to [t'] exactly [d] was written, to [fd]. *)
Definition writes (fd : Fd) (d : string) (t t' : Term) : Prop :=
  shown fd t' = shown fd t +:+ d ∧ (∀ fd', fd' ≠ fd → shown fd' t' = shown fd' t) ∧ tm_files t' = tm_files t.

Lemma writes_nil fd t : writes fd "" t t.
Proof. split; [by rewrite string_app_nil|done]. Qed.

Lemma writes_app fd d1 d2 t1 t2 t3 : writes fd d1 t1 t2 → writes fd d2 t2 t3 → writes fd (d1 +:+ d2) t1 t3.
Proof.
  intros (E1 & O1 & F1) (E2 & O2 & F2). split; [by rewrite E2, E1, string_app_assoc|]. split; [|congruence].
  intros fd' Hf. by rewrite O2, O1.
Qed.

Lemma wp_write_fd fd data t Q :
  (∀ t', writes fd data t t' → Q t' (Ok tt)) → wp (write_fd faults fd data) t Q.
Proof.
  unfold wp, write_fd. rewrite terminal_works. intros H. apply H. split; [by destruct fd|].
  split; [|by destruct fd]. by intros [] ?; destruct fd.
Qed.

(** A chunk of a stream, on the descriptor it goes to. *)
Lemma write_chunk_spec l0 notice s l o data fd t Q :
  stream_shown l0 notice s l o →
  (∀ l' d t', stream_shown l0 notice (s +:+ data) l' (o +:+ d) → writes fd d t t' → Q t' (Ok l')) →
  wp (write_chunk faults l data fd) t Q.
Proof.
  unfold stream_shown. intros [Hm H] HQ. unfold write_chunk. rewrite Hm. destruct (ll_max_lines l0) as [m|] eqn:E.
  - pose proof (shows_chunk _ _ _ _ _ _ _ data H) as H2.
    assert (Hc : ll_max_lines (limit_chunk l data).1 = Some m).
    { destruct H2 as (? & ? & _ & H2 & _). by rewrite (li_max _ _ _ _ _ _ _ _ _ H2), N2Nat.id. }
    destruct (limit_chunk l data) as [l' d]. cbn [fst snd] in *. destruct (is_empty d) eqn:Ed.
    + destruct d; [|done]. apply (HQ l' "" t); [done|apply writes_nil].
    + apply wp_bind, wp_write_fd. intros t' Hw. by apply (HQ l' d t').
  - apply wp_bind, wp_write_fd. intros t' Hw. apply (HQ l data t'); [|done]. by rewrite Hm, H.
Qed.

Lemma wp_each_write fd ds t Q :
  (∀ t', writes fd (joined ds) t t' → Q t' (Ok tt)) → wp (io_each (write_fd faults fd) ds) t Q.
Proof.
  revert t. induction ds as [|d ds IH]; intros t HQ; [apply HQ, writes_nil|].
  cbn [io_each]. apply wp_bind, wp_write_fd. intros t1 H1. apply IH. intros t2 H2.
  apply HQ. by apply (writes_app _ d (joined ds) t t1).
Qed.

(** The summary completes the view of the stream. *)
Lemma write_summary_spec l0 notice s l o fd label t Q :
  stream_shown l0 notice s l o →
  (∀ d t', o +:+ d = stream_view (ll_max_lines l0) (ll_tail_lines l0) notice label s → writes fd d t t' → Q t' (Ok tt)) →
  wp (write_summary faults (finish_limiter l) fd label) t Q.
Proof.
  unfold stream_shown, stream_view. intros [Hm H] HQ. unfold write_summary. destruct (ll_max_lines l0) as [m|] eqn:E.
  - destruct (shows_finish _ _ _ _ _ _ _ H) as (Ho & -> & -> & ->). rewrite Ho in HQ.
    assert (HQ' : ∀ t', writes fd (limited_summary (N.to_nat m) (N.to_nat (ll_tail_lines l0)) label s) t t' → Q t' (Ok tt))
      by (intros t' Hw; eapply HQ; [reflexivity|done]). clear HQ. unfold limited_summary in HQ'.
    destruct (drop (N.to_nat m) (split_inclusive s)) as [|x more] eqn:Ed; cbn [is_nil length] in HQ' |- *.
    + apply HQ', writes_nil.
    + destruct (N.eqb_spec (N.of_nat (S (length more))) 0); [lia|].
      apply wp_bind, wp_write_fd. intros t1 H1. apply wp_each_write. intros t2 H2.
      apply HQ'. pose proof (writes_app _ _ _ _ _ _ H1 H2) as H3. by rewrite !string_app_assoc in H3.
  - unfold finish_limiter. rewrite Hm, Hm. apply (HQ "" t); [by rewrite string_app_nil|apply writes_nil].
Qed.

(** ** Both streams and the log files *)

Context (limits : OutputLimits) (paths : StreamLogPaths) (routed : bool).
Hypothesis paths_differ : lp_stdout paths ≠ lp_stderr paths.

(** The limiters at the start, before they know the log files. *)
Abbreviation stdout0 := (om_stdout (new_output limits)).
Abbreviation stderr0 := (om_stderr (new_output limits)).

(** From the terminal [t0] on, the limiters have shown the streams [so] and [se]. *)
Record Streams (t0 : Term) (so se : string) (o : OutputLimiter) (t : Term) : Prop := {
  sm_stdout : ∃ notice d, notice ∈ notices stdout0 (lp_stdout paths) ∧
    stream_shown stdout0 notice so (om_stdout o) d ∧
    (routed = false → tm_out t = tm_out t0 +:+ d);
  sm_quiet : routed = true → tm_out t = tm_out t0;
  sm_stderr : ∃ notice d, notice ∈ notices stderr0 (lp_stderr paths) ∧
    stream_shown stderr0 notice se (om_stderr o) d;
}.

(** The log files hold both streams, or the client said that they do not. *)
Definition Logs (t0 : Term) (so se : string) (c : LogCaptureState) (t : Term) : Prop :=
  (lc_sink c = Some paths ∧ lc_warning_emitted c = false ∧
   tm_files t !! lp_stdout paths = Some (default "" (tm_files t0 !! lp_stdout paths) +:+ so) ∧
   tm_files t !! lp_stderr paths = Some (default "" (tm_files t0 !! lp_stderr paths) +:+ se)) ∨
  (lc_sink c = None ∧ warned t).

Definition stdout_of (e : BufferedStreamEvent) : string := match e with BStdout d => d | BStderr _ => "" end.
Definition stderr_of (e : BufferedStreamEvent) : string := match e with BStdout _ => "" | BStderr d => d end.

Lemma warned_grows t t' d : tm_err t' = tm_err t +:+ d → warned t → warned t'.
Proof.
  intros E (b & m & a & Hw). exists b, m, (a +:+ d). rewrite E, Hw. by rewrite !string_app_assoc.
Qed.

Lemma writes_err fd d t t' : writes fd d t t' → ∃ d', tm_err t' = tm_err t +:+ d'.
Proof.
  intros (E & O & _). destruct fd; [|by exists d]. exists "". rewrite string_app_nil.
  by apply (O StderrFd).
Qed.

Lemma logs_writes fd d t0 so se c t t' : writes fd d t t' → Logs t0 so se c t → Logs t0 so se c t'.
Proof.
  intros Hw [(Hs & Hn & H1 & H2)|[Hs H]]; [left|right].
  - destruct Hw as (_ & _ & ->). done.
  - split; [done|]. destruct (writes_err _ _ _ _ Hw) as [d' E]. by eapply warned_grows.
Qed.

Lemma streams_err t0 so se o t t' d :
  writes StderrFd d t t' → Streams t0 so se o t → Streams t0 so se o t'.
Proof.
  intros (_ & O & _) [H1 H2 H3]. assert (E : tm_out t' = tm_out t) by by apply (O StdoutFd).
  constructor; [|by rewrite E|done]. destruct H1 as (n & d0 & ? & ? & ?). exists n, d0. by rewrite E.
Qed.

Lemma streams_clear t0 so se o t : Streams t0 so se o t → Streams t0 so se (clear_log_paths o) t.
Proof.
  assert (Hc : ∀ l0 path notice s l d, notice ∈ notices l0 path → stream_shown l0 notice s l d →
    ∃ notice', notice' ∈ notices l0 path ∧ stream_shown l0 notice' s (set_log_path None l) d).
  { intros l0 path notice s l d Hn [Hm H]. unfold stream_shown. cbn. destruct (ll_max_lines l0) as [m|].
    - destruct (shows_clear _ _ _ _ _ _ _ H) as (n' & Hn' & H'). exists n'. split; [|done].
      apply elem_of_cons in Hn' as [->|Hn']; [done|]. right. done.
    - by exists notice. }
  intros [(n1 & d1 & Hn1 & H1 & E1) Hq (n2 & d2 & Hn2 & H2)]. constructor; [|done|].
  - destruct (Hc _ _ _ _ _ _ Hn1 H1) as (n' & ? & ?). by exists n', d1.
  - destruct (Hc _ _ _ _ _ _ Hn2 H2) as (n' & ? & ?). by exists n', d2.
Qed.

Lemma warning_spec c message t Q :
  lc_warning_emitted c = false →
  (∀ c' t', lc_sink c' = lc_sink c → warned t' → (∃ d, writes StderrFd d t t') → Q t' (Ok c')) →
  wp (write_warning faults c message) t Q.
Proof.
  intros Hn HQ. unfold write_warning. rewrite Hn. apply wp_bind, wp_write_fd. intros t' Hw. apply wp_ret, HQ; [done| |by eexists].
  exists (tm_err t), message, newline. destruct Hw as (E & _). cbn [shown] in E. rewrite E. 
  by rewrite !string_app_assoc.
Qed.

(** Writing an event to its log file, with what follows when that fails. *)
Lemma log_event_spec t0 so se c o t e Q :
  Logs t0 so se c t → Streams t0 so se o t →
  (∀ c' o' t', Logs t0 (so +:+ stdout_of e) (se +:+ stderr_of e) c' t' → Streams t0 so se o' t' → Q t' (Ok (c', o'))) →
  wp (match lc_sink c with
      | None => mret (c, o)
      | Some sink =>
          log_result ← io_try (match e with
            | BStdout data => write_log faults (lp_stdout sink) data
            | BStderr data => write_log faults (lp_stderr sink) data
            end);
          match log_result with
          | Ok _ => mret (c, o)
          | Err err =>
              c ← write_warning faults (disable c) (io_error_message err);
              mret (c, clear_log_paths o)
          end
      end) t Q.
Proof.
  intros HL HS HQ. destruct HL as [(Hs & Hn & H1 & H2)|[Hs Hw]]; rewrite Hs.
  2: { apply HQ; [by right|done]. }
  assert (Hlog : ∀ path data r t', write_log faults path data t = (t', r) →
    tm_out t' = tm_out t ∧ tm_err t' = tm_err t ∧
    (r = Ok tt → tm_files t' = <[path := default "" (tm_files t !! path) +:+ data]> (tm_files t))).
  { intros path data r t' E. unfold write_log in E. destruct (faults _ _) as [[k err]|]; by injection E as <- <-. }
  apply wp_bind, wp_try.
  set (m := match e with BStdout data => _ | BStderr data => _ end).
  assert (Hm : ∃ r t', m t = (t', r) ∧ tm_out t' = tm_out t ∧ tm_err t' = tm_err t ∧
    (r = Ok tt →
      tm_files t' !! lp_stdout paths = Some (default "" (tm_files t0 !! lp_stdout paths) +:+ so +:+ stdout_of e) ∧
      tm_files t' !! lp_stderr paths = Some (default "" (tm_files t0 !! lp_stderr paths) +:+ se +:+ stderr_of e))).
  { subst m. destruct e as [data|data]; cbn [stdout_of stderr_of].
    - destruct (write_log faults (lp_stdout paths) data t) as [t' r] eqn:E. exists r, t'. split; [done|].
      destruct (Hlog _ _ _ _ E) as (? & ? & Hf). do 2 (split; [done|]). intros Hr. rewrite (Hf Hr).
      rewrite lookup_insert_eq, lookup_insert_ne, H1, H2 by done. cbn. by rewrite !string_app_nil, string_app_assoc.
    - destruct (write_log faults (lp_stderr paths) data t) as [t' r] eqn:E. exists r, t'. split; [done|].
      destruct (Hlog _ _ _ _ E) as (? & ? & Hf). do 2 (split; [done|]). intros Hr. rewrite (Hf Hr).
      rewrite lookup_insert_eq, lookup_insert_ne, H1, H2 by done. cbn. by rewrite !string_app_nil, string_app_assoc. }
  destruct Hm as (r & t' & E & Eo & Ee & Hf). unfold wp at 1. rewrite E. cbn [fst snd].
  assert (HS' : Streams t0 so se o t').
  { destruct HS as [(n & d & ? & ? & ?) Hq ?]. constructor; [|by rewrite Eo|done]. exists n, d. by rewrite Eo. }
  destruct r as [[]|err].
  - apply HQ; [|done]. left. destruct (Hf eq_refl). done.
  - apply wp_bind, warning_spec; [done|]. intros c' t2 Hs2 Hw2 [d Hd]. apply HQ; [by right|].
    by eapply streams_clear, streams_err.
Qed.

(** An event is logged and shown. *)
Lemma process_event_spec t0 so se c o t e Q :
  Logs t0 so se c t → Streams t0 so se o t →
  (∀ c' o' t', Logs t0 (so +:+ stdout_of e) (se +:+ stderr_of e) c' t' →
     Streams t0 (so +:+ stdout_of e) (se +:+ stderr_of e) o' t' → Q t' (Ok (c', o'))) →
  wp (process_event_routed faults c o e routed) t Q.
Proof.
  intros HL HS HQ. unfold process_event_routed. apply wp_bind. eapply log_event_spec; [done..|].
  clear c o t HL HS. intros c o t HL HS. destruct HS as [(n1 & d1 & Hn1 & H1 & E1) Hq (n2 & d2 & Hn2 & H2)].
  apply wp_bind. destruct e as [data|data]; cbn [stdout_of stderr_of] in HL, HQ |- *; apply wp_bind.
  - eapply (write_chunk_spec stdout0); [done|]. intros l d t' Hl Hw. apply wp_ret, wp_ret, HQ; [by eapply logs_writes|].
    destruct Hw as (Ew & Ow & _). constructor.
    + exists n1, (d1 +:+ d). split; [done|]. split; [done|]. intros Hr. rewrite Hr in Ew. cbn in Ew.
      by rewrite Ew, E1, string_app_assoc.
    + intros Hr. rewrite Hr in Ow. rewrite <-(Hq Hr). by apply (Ow StdoutFd).
    + exists n2, d2. by rewrite string_app_nil.
  - eapply (write_chunk_spec stderr0); [done|]. intros l d t' Hl Hw. apply wp_ret, wp_ret, HQ; [by eapply logs_writes|].
    eapply streams_err; [done|]. constructor; [|done|by exists n2, (d2 +:+ d)].
    exists n1, d1. by rewrite string_app_nil.
Qed.

(** The end of the output: on the terminal the whole view of standard output. *)
Lemma finish_routed_spec t0 so se c o t Q :
  Logs t0 so se c t → Streams t0 so se o t →
  (∀ notice t', notice ∈ notices stdout0 (lp_stdout paths) → Logs t0 so se c t' →
     tm_out t' = tm_out t0 +:+
       (if routed then "" else
          stream_view (ol_stdout_max_lines limits) (ol_stdout_tail_lines limits) notice "stdout" so) →
     Q t' (Ok tt)) →
  wp (finish_routed faults o routed) t Q.
Proof.
  intros HL [(n1 & d1 & Hn1 & H1 & E1) Hq (n2 & d2 & Hn2 & H2)] HQ. unfold finish_routed.
  apply wp_bind. eapply (write_summary_spec stdout0); [done|]. intros d t1 Ed W1.
  apply wp_bind. eapply (write_summary_spec stderr0); [done|]. intros d' t2 _ W2.
  apply wp_bind, wp_write_fd. intros t3 W3. apply wp_write_fd. intros t4 W4.
  apply (HQ n1); [done|by do 4 (eapply logs_writes; [done|])|].
  assert (E : tm_out t4 = tm_out t1).
  { destruct W2 as (_ & O2 & _), W3 as (O3 & _), W4 as (_ & O4 & _). cbn in O3.
    specialize (O2 StdoutFd). specialize (O4 StdoutFd). cbn in O2, O4. rewrite O4, O3, O2, string_app_nil; done. }
  rewrite E. destruct W1 as (Ew & Ow & _). destruct routed.
  - pose proof (Ow StdoutFd ltac:(done)) as Eo. cbn in Eo. rewrite Eo, string_app_nil. by apply Hq.
  - cbn in Ew. rewrite Ew, E1, string_app_assoc by done. f_equal. exact Ed.
Qed.
End shown.
