(* ===== verification/CliStream.v ===== *)
(** The client reads a response: lines of events from chunks of bytes, for a build, a
    session start and a session action ([bin/indentured.rs], and the lines as
    [http.rs] writes them). *)
From Stdlib Require Import Ascii.
From stdpp Require Import base option strings numbers list gmap pretty.
From S2P Require Import Prelude Effects RustStr Protocol TaskStream CliOutput.

Local Open Scope N_scope.

Inductive BuildError := ConnectionFailed (message : string) | RemoteTimedOut (message : string) | Other (message : string).

Definition build_error_message (e : BuildError) : string :=
  match e with ConnectionFailed m | RemoteTimedOut m | Other m => m end.

(** How a future ends early: with an error, with a panic, or not at all. *)
Inductive stopped := Failed (e : BuildError) | Panicked | Pending.

(** What [Response::chunk] answers, one poll after the other; after the last the
    response is still pending. *)
Inductive body_poll := Chunk (bytes : string) | BodyEnd | BodyError (message : string).

(** JSON text of the events. *)
Class EventCodec := {
  response_to_string : ResponseEvent → result string string;
  response_from_str : string → result string ResponseEvent;
  start_to_string : SessionStartEvent → result string string;
  start_from_str : string → result string SessionStartEvent;
  action_to_string : SessionActionEvent → result string string;
  action_from_str : string → result string SessionActionEvent;
}.

Definition quoted (s : string) : string := let q := String (ascii_of_N 34) "" in q +:+ s +:+ q.

(** The line of an event in a response of the server. *)
Definition event_line (json : result string string) : string :=
  match json with
  | Ok json => json
  | Err err =>
      "{" +:+ quoted "type" +:+ ":" +:+ quoted "error" +:+ "," +:+ quoted "code" +:+ ":" +:+ quoted "serialization" +:+
      "," +:+ quoted "message" +:+ ":" +:+ quoted err +:+ "}"
  end +:+ newline.

(** * Lines from chunks *)

Definition MAX_PENDING : N := 1048576.
Definition CR : ascii := "013"%char.

Definition other {A} (message : string) : eff Term stopped A := io_fail (Failed (Other message)).

(** The bytes before the first line feed, and those after it. *)
Fixpoint next_line (pending : string) : option (string * string) :=
  match pending with
  | EmptyString => None
  | String a rest =>
      if byte_eqb a LF then Some ("", rest)
      else '(line, rest) ← next_line rest; Some (String a line, rest)
  end.

Section lines.
Context {S : Type} (on_line : S → string → eff Term stopped S).

(** The inner loop; every line takes a byte of [pending], whose length is enough
    turns. *)
Fixpoint drain_lines (fuel : nat) (pending : string) (s : S) : eff Term stopped (string * S) :=
  match fuel, next_line pending with
  | Datatypes.S fuel, Some (line, rest) =>
      line ← option_expect (from_utf8 line) (Failed (Other "response was not UTF-8"));
      let line := trim_end_matches CR line in
      s ← (if is_empty line then mret s else on_line s line);
      drain_lines fuel rest s
  | _, _ => mret (pending, s)
  end.

Definition line_too_long : stopped := Failed (Other "response line exceeded 1 MiB").

Definition take_chunk (chunk pending : string) (s : S) : eff Term stopped (string * S) :=
  let pending := pending +:+ chunk in
  if MAX_PENDING <? len pending then io_fail line_too_long
  else drain_lines (String.length pending) pending s.

(** The outer loop, left once there is a result: what is pending, the state, and the
    rest of the body when it was left before its end. *)
Fixpoint read_body (failure : string) (finished : S → bool) (body : list body_poll) (pending : string) (s : S) :
    eff Term stopped (string * S * option (list body_poll)) :=
  match body with
  | [] => io_fail Pending
  | BodyEnd :: _ => mret (pending, s, None)
  | BodyError err :: _ => other (failure +:+ err)
  | Chunk chunk :: body =>
      '(pending, s) ← take_chunk chunk pending s;
      if finished s then mret (pending, s, Some body) else read_body failure finished body pending s
  end.
End lines.

(** After the final event a session's response has nothing more. *)
Fixpoint drained (failure extra : string) (body : list body_poll) : eff Term stopped unit :=
  match body with
  | [] => io_fail Pending
  | BodyEnd :: _ => mret tt
  | BodyError err :: _ => other (failure +:+ err)
  | Chunk chunk :: body => if is_empty chunk then drained failure extra body else other extra
  end.

(** * Terminal messages *)

Definition phase_str (phase : BuildPhase) : string := match phase with Setup => "setup" | Run => "run" end.

Definition bool_str (b : bool) : string := if b then "true" else "false".

(** [{:.3}] of milliseconds in seconds, below 2^53 milliseconds. *)
Definition seconds (ms : N) : string :=
  let frac := pretty (ms mod 1000) in
  pretty (ms / 1000) +:+ "." +:+ repeat_byte "0" (3 - String.length frac) +:+ frac.

Section readers.
Context {codec : EventCodec} (faults : nat → Sink → fault).

(** [eprintln!] panics when it cannot write. *)
Definition eprintln (message : string) : eff Term stopped unit :=
  io_map_err (λ _, Panicked) (write_fd faults StderrFd (message +:+ newline)).

(** [.map_err(|err| BuildError::Other(format!(..)))]. *)
Definition or_other {A} (what : string) (m : eff Term io_error A) : eff Term stopped A :=
  io_map_err (λ err, Failed (Other (what +:+ io_error_message err))) m.

(** The limiters and log files every reader starts with. *)
Definition start_output (limits : OutputLimits) (build_id : string) :
    eff Term stopped (LogCaptureState * OutputLimiter) :=
  '(logs, paths) ← or_other "failed to initialize result logs: " (initialize faults (new_capture limits) build_id);
  paths ← option_expect paths (Failed (Other "result logs were not configured"));
  mret (logs, set_log_paths paths (new_output limits)).

(** ... and ends with. *)
Definition finish_output (logs : LogCaptureState) (output : OutputLimiter) (stdout_to_stderr : bool) :
    eff Term stopped unit :=
  _ ← or_other "failed to flush output: " (finish_routed faults output stdout_to_stderr);
  or_other "failed to write log completion notice: " (write_completion_notice faults logs).

Definition show_event (what : string) (logs : LogCaptureState) (output : OutputLimiter)
    (event : BufferedStreamEvent) (stdout_to_stderr : bool) : eff Term stopped (LogCaptureState * OutputLimiter) :=
  or_other ("failed to write " +:+ what +:+ ": ") (process_event_routed faults logs output event stdout_to_stderr).

(** * A build *)

Record BuildResult := {
  bd_build_id : option string;
  bd_exit_code : Z;
  bd_timed_out : bool;
  bd_artifacts : option ArtifactArchive;
  bd_artifact_restrictions : option ArtifactRestrictions;
  bd_failed_phase : option BuildPhase;
  bd_phases : list PhaseResult;
}.

Record build_reader := BuildReader {
  br_logs : LogCaptureState;
  br_output : OutputLimiter;
  br_build_id : option string;
  br_result : option BuildResult;
}.

(** The message for a phase of a build. *)
Definition phase_message (status : string) (phase : BuildPhase) (duration_ms : option N) (exit_code : option Z)
    (timed_out : option bool) : option string :=
  if bool_decide (status = "phase_started") then
    Some (OUTPUT_PREFIX +:+ " " +:+ phase_str phase +:+ " phase started")
  else if bool_decide (status = "phase_finished") then
    match duration_ms, exit_code, timed_out with
    | Some duration_ms, Some exit_code, Some timed_out =>
        Some (OUTPUT_PREFIX +:+ " " +:+ phase_str phase +:+ " phase finished in " +:+ seconds duration_ms +:+
              "s (exit_code=" +:+ pretty exit_code +:+ ", timed_out=" +:+ bool_str timed_out +:+ ")")
    | _, _, _ =>
        Some (OUTPUT_PREFIX +:+ " " +:+ phase_str phase +:+ " phase finished without complete timing metadata")
    end
  else None.

Definition build_event (r : build_reader) (event : ResponseEvent) : eff Term stopped build_reader :=
  match event with
  | RStdout data =>
      '(logs, output) ← show_event "stdout" (br_logs r) (br_output r) (BStdout data) false;
      mret (BuildReader logs output (br_build_id r) (br_result r))
  | RStderr data =>
      '(logs, output) ← show_event "stderr" (br_logs r) (br_output r) (BStderr data) false;
      mret (BuildReader logs output (br_build_id r) (br_result r))
  | RError _ (Some message) _ _ => _ ← eprintln message; mret r
  | RError _ None _ _ => mret r
  | RBuild id status phase duration_ms exit_code timed_out =>
      _ ← io_lift (map_err (λ err, Failed (Other (io_error_message err))) (validate_build_id id));
      _ ← match phase ≫= λ phase, phase_message status phase duration_ms exit_code timed_out with
          | Some message => eprintln message
          | None => mret tt
          end;
      mret (BuildReader (br_logs r) (br_output r) (Some id) (br_result r))
  | RExit code timed_out artifacts artifact_restrictions failed_phase phases =>
      mret (BuildReader (br_logs r) (br_output r) (br_build_id r) (Some {|
        bd_build_id := br_build_id r;
        bd_exit_code := code;
        bd_timed_out := timed_out;
        bd_artifacts := artifacts;
        bd_artifact_restrictions := artifact_restrictions;
        bd_failed_phase := failed_phase;
        bd_phases := phases |}))
  end.

Definition build_line (r : build_reader) (line : string) : eff Term stopped build_reader :=
  event ← io_lift (map_err (λ err, Failed (Other ("invalid response format: " +:+ err))) (response_from_str line));
  build_event r event.

Definition read_responses (body : list body_poll) (limits : OutputLimits) : eff Term stopped BuildResult :=
  '(logs, output) ← start_output limits "local";
  '(_, r, _) ← read_body build_line "failed to read response: " (λ r, is_some (br_result r)) body ""
    (BuildReader logs output None None);
  _ ← finish_output (br_logs r) (br_output r) false;
  option_expect (br_result r) (Failed (Other "missing exit event")).

(** * A session start *)

(** [UnboundedSender::send], whose failure is ignored. *)
Definition send_observed (id : string) : eff Term stopped unit := λ t,
  (MkTerm (tm_out t) (tm_err t) (tm_files t) (tm_observed t ++ [id]) (tm_tick t), Ok tt).

Record SessionStartResult := {
  st_session_id : option string;
  st_exit_code : Z;
  st_timed_out : bool;
  st_phases : list PhaseResult;
  st_errors : list string;
}.

Record start_reader := StartReader {
  sr_logs : LogCaptureState;
  sr_output : OutputLimiter;
  sr_started_id : option string;
  sr_errors : list string;
  sr_result : option SessionStartResult;
}.

(** The message for an event of a session that is starting. *)
Definition session_message (id : string) (status : SessionStartStatus) (phase : option BuildPhase)
    (duration_ms : option N) (exit_code : option Z) (timed_out : option bool) : option string :=
  match status with
  | Started => Some (OUTPUT_PREFIX +:+ " session " +:+ id +:+ " started")
  | PhaseStarted => phase ← phase; Some (OUTPUT_PREFIX +:+ " " +:+ phase_str phase +:+ " phase started")
  | PhaseFinished =>
      match phase, duration_ms, exit_code, timed_out with
      | Some phase, Some duration, Some code, Some timeout =>
          Some (OUTPUT_PREFIX +:+ " " +:+ phase_str phase +:+ " phase finished in " +:+ seconds duration +:+
                "s (exit_code=" +:+ pretty code +:+ ", timed_out=" +:+ bool_str timeout +:+ ")")
      | _, _, _, _ => None
      end
  | StartingServices => Some (OUTPUT_PREFIX +:+ " session " +:+ id +:+ " starting services")
  end.

(** The text of an error event. *)
Definition stream_error (code : string) (message : option string) : string :=
  match message with None => code | Some message => code +:+ ": " +:+ message end.

Definition start_event (r : start_reader) (event : SessionStartEvent) : eff Term stopped start_reader :=
  match event with
  | SSession id status phase duration_ms exit_code timed_out =>
      if negb (valid_session_id id) then other "server returned an invalid session ID"
      else
        started ← match sr_started_id r with
          | Some existing =>
              if negb (bool_decide (existing = id)) then other "session identity changed during initialization"
              else mret existing
          | None => _ ← send_observed id; mret id
          end;
        _ ← match session_message id status phase duration_ms exit_code timed_out with
            | Some message => eprintln message
            | None => mret tt
            end;
        mret (StartReader (sr_logs r) (sr_output r) (Some started) (sr_errors r) (sr_result r))
  | SStdout data =>
      '(logs, output) ← show_event "stdout" (sr_logs r) (sr_output r) (BStdout data) true;
      mret (StartReader logs output (sr_started_id r) (sr_errors r) (sr_result r))
  | SStderr data =>
      '(logs, output) ← show_event "stderr" (sr_logs r) (sr_output r) (BStderr data) false;
      mret (StartReader logs output (sr_started_id r) (sr_errors r) (sr_result r))
  | SError code message _ =>
      let message := stream_error code message in
      _ ← eprintln message;
      mret (StartReader (sr_logs r) (sr_output r) (sr_started_id r) (sr_errors r ++ [message]) (sr_result r))
  | SReady session_id _ phases =>
      if negb (valid_session_id session_id) || negb (bool_decide (sr_started_id r = Some session_id))
      then other "ready event had inconsistent session identity"
      else
        mret (StartReader (sr_logs r) (sr_output r) (sr_started_id r) [] (Some {|
          st_session_id := Some session_id; st_exit_code := 0; st_timed_out := false;
          st_phases := phases; st_errors := sr_errors r |}))
  | SExit code timed_out _ phases =>
      mret (StartReader (sr_logs r) (sr_output r) (sr_started_id r) [] (Some {|
        st_session_id := None; st_exit_code := code; st_timed_out := timed_out;
        st_phases := phases; st_errors := sr_errors r |}))
  end.

Definition start_line (r : start_reader) (line : string) : eff Term stopped start_reader :=
  if is_some (sr_result r)
  then other "session start response contained an event after its final event"
  else
    event ← io_lift (map_err (λ err, Failed (Other ("invalid session response: " +:+ err))) (start_from_str line));
    start_event r event.

Definition read_session_start_response (body : list body_poll) (limits : OutputLimits) :
    eff Term stopped SessionStartResult :=
  '(logs, output) ← start_output limits "session";
  '(pending, r, rest) ← read_body start_line "failed to read session start response: "
    (λ r, is_some (sr_result r)) body "" (StartReader logs output None [] None);
  _ ← match rest with
      | None => mret tt
      | Some rest =>
          if negb (is_empty pending)
          then other "session start response contained data after its final event"
          else drained "failed to finish Ready delivery: "
                 "session start response contained events after its final event" rest
      end;
  _ ← finish_output (sr_logs r) (sr_output r) true;
  option_expect (sr_result r) (Failed (Other "missing ready or exit event")).

(** * A session action *)

Record SessionActionResult := {
  ac_action_id : string;
  ac_exit_code : Z;
  ac_timed_out : bool;
  ac_artifacts : option ArtifactArchive;
  ac_artifact_restrictions : option ArtifactRestrictions;
  ac_errors : list string;
}.

Record action_reader := ActionReader {
  ar_logs : LogCaptureState;
  ar_output : OutputLimiter;
  ar_started_id : option string;
  ar_errors : list string;
  ar_result : option SessionActionResult;
}.

Definition action_event (expected_session expected_action : string) (r : action_reader)
    (event : SessionActionEvent) : eff Term stopped action_reader :=
  match event with
  | AAction session_id action_id action _ status =>
      if negb (bool_decide (session_id = expected_session)) || negb (bool_decide (action = expected_action)) ||
         negb (valid_action_id action_id)
      then other "action stream identity was inconsistent"
      else
        started ← match ar_started_id r with
          | Some existing =>
              if negb (bool_decide (existing = action_id)) then other "action identity changed during execution"
              else mret existing
          | None => _ ← send_observed action_id; mret action_id
          end;
        _ ← eprintln (match status with
              | ActionStarted => OUTPUT_PREFIX +:+ " action " +:+ action +:+ " started (" +:+ action_id +:+ ")"
              | Snapshotting => OUTPUT_PREFIX +:+ " action " +:+ action +:+ " snapshotting artifacts"
              end);
        mret (ActionReader (ar_logs r) (ar_output r) (Some started) (ar_errors r) (ar_result r))
  | AStdout data =>
      '(logs, output) ← show_event "stdout" (ar_logs r) (ar_output r) (BStdout data) false;
      mret (ActionReader logs output (ar_started_id r) (ar_errors r) (ar_result r))
  | AStderr data =>
      '(logs, output) ← show_event "stderr" (ar_logs r) (ar_output r) (BStderr data) false;
      mret (ActionReader logs output (ar_started_id r) (ar_errors r) (ar_result r))
  | AError code message =>
      let message := stream_error code message in
      _ ← eprintln message;
      mret (ActionReader (ar_logs r) (ar_output r) (ar_started_id r) (ar_errors r ++ [message]) (ar_result r))
  | AExit session_id action_id action _ code timed_out artifacts artifact_restrictions =>
      if negb (bool_decide (session_id = expected_session)) || negb (bool_decide (action = expected_action)) ||
         negb (valid_action_id action_id) || negb (bool_decide (ar_started_id r = Some action_id))
      then other "action exit identity was inconsistent"
      else
        mret (ActionReader (ar_logs r) (ar_output r) (ar_started_id r) [] (Some {|
          ac_action_id := action_id; ac_exit_code := code; ac_timed_out := timed_out;
          ac_artifacts := artifacts; ac_artifact_restrictions := artifact_restrictions;
          ac_errors := ar_errors r |}))
  end.

Definition action_line (expected_session expected_action : string) (r : action_reader) (line : string) :
    eff Term stopped action_reader :=
  if is_some (ar_result r)
  then other "action response contained an event after the exit event"
  else
    event ← io_lift (map_err (λ err, Failed (Other ("invalid action response: " +:+ err))) (action_from_str line));
    action_event expected_session expected_action r event.

Definition read_session_action_response (body : list body_poll) (limits : OutputLimits)
    (expected_session expected_action : string) : eff Term stopped SessionActionResult :=
  '(logs, output) ← start_output limits "action";
  '(pending, r, rest) ← read_body (action_line expected_session expected_action) "failed to read action response: "
    (λ r, is_some (ar_result r)) body "" (ActionReader logs output None [] None);
  _ ← match rest with
      | None => mret tt
      | Some rest =>
          if negb (is_empty pending)
          then other "action response contained data after the exit event"
          else drained "failed to acknowledge action exit: " "action response contained events after exit" rest
      end;
  _ ← finish_output (ar_logs r) (ar_output r) false;
  option_expect (ar_result r) (Failed (Other "missing action exit event")).
End readers.

(** * Reading lines does not depend on the chunks they come in *)

Definition text (lines : list string) : string := joined ((λ l, l +:+ newline) <$> lines).

(** A line the loop hands on as it is. *)
Definition plain_line (l : string) : Prop :=
  contains_byte LF l = false ∧ utf8_valid l = true ∧ trim_end_matches CR l = l ∧ l ≠ "".

Lemma next_line_None p : next_line p = None → contains_byte LF p = false.
Proof.
  rewrite contains_byte_false. induction p as [|a p IH]; [done|]. cbn.
  destruct (byte_eqb a LF); [done|]. destruct (next_line p) as [[]|]; [done|]. auto.
Qed.

Lemma next_line_Some p l rest :
  next_line p = Some (l, rest) → p = l +:+ String LF rest ∧ contains_byte LF l = false.
Proof.
  rewrite contains_byte_false. revert l. induction p as [|a p IH]; intros l; [done|]. cbn.
  destruct (byte_eqb a LF) eqn:E.
  - intros [= <- <-]. apply byte_eqb_true in E as ->. done.
  - destruct (next_line p) as [[l' rest']|]; [|done]. cbn. intros [= <- <-].
    destruct (IH l' eq_refl) as [-> Hl]. rewrite string_app_cons. cbn. by rewrite E.
Qed.

(** The first line feed ends the first line. *)
Lemma line_split l1 l2 r1 r2 :
  contains_byte LF l1 = false → contains_byte LF l2 = false →
  l1 +:+ String LF r1 = l2 +:+ String LF r2 → l1 = l2 ∧ r1 = r2.
Proof.
  rewrite !contains_byte_false. revert l2. induction l1 as [|a l1 IH]; intros [|b l2] H1 H2 E.
  - by injection E.
  - rewrite string_app_cons in E. injection E as <- _. done.
  - rewrite string_app_cons in E. injection E as -> _. done.
  - rewrite !string_app_cons in E. injection E as <- E. cbn in H1, H2.
    apply andb_true_iff in H1 as [_ H1], H2 as [_ H2]. destruct (IH l2 H1 H2 E) as [-> ->]. done.
Qed.

Lemma text_cons l ls : text (l :: ls) = l +:+ String LF (text ls).
Proof. unfold text. cbn. by rewrite string_app_assoc. Qed.

(** What precedes a line feed in a text is a part of its first line. *)
Lemma partial_line p rest l ls :
  contains_byte LF p = false → p +:+ rest = text (l :: ls) → len p ≤ len l.
Proof.
  rewrite text_cons. revert l. induction p as [|a p IH]; intros l Hp E; [unfold len; cbn; lia|].
  rewrite contains_byte_false in Hp. cbn in Hp. apply andb_true_iff in Hp as [Ha Hp].
  rewrite <-contains_byte_false in Hp. rewrite string_app_cons in E. destruct l as [|b l].
  - injection E as -> _. by rewrite byte_eqb_refl in Ha.
  - rewrite string_app_cons in E. injection E as -> E. specialize (IH l Hp E). unfold len in *. cbn. lia.
Qed.

Section reading.
Context {S : Type} (on_line : S → string → eff Term stopped S).
Context (I : list string → S → Term → Prop) (R : Term → stopped → Prop) (all : list string).
Hypothesis Hplain : Forall plain_line all.
Hypothesis Hstep : ∀ dn l ls s t, all = dn ++ l :: ls → I dn s t →
  wp (on_line s l) t (λ t' r, match r with Ok s' => I (dn ++ [l]) s' t' | Err e => R t' e end).

Lemma drain_spec fuel pending rest dn ls s t Q :
  all = dn ++ ls → pending +:+ rest = text ls → (String.length pending ≤ fuel)%nat → I dn s t →
  (∀ dn' ls' p' s' t', all = dn' ++ ls' → p' +:+ rest = text ls' → contains_byte LF p' = false →
     I dn' s' t' → Q t' (Ok (p', s'))) →
  (∀ t' e, R t' e → Q t' (Err e)) →
  wp (drain_lines on_line fuel pending s) t Q.
Proof.
  intros Ha Et Hf Hi HQ HR. revert pending dn ls s t Ha Et Hf Hi.
  induction fuel as [|fuel IH]; intros pending dn ls s t Ha Et Hf Hi.
  - destruct pending; [|cbn in Hf; lia]. by apply (HQ dn ls).
  - cbn [drain_lines]. destruct (next_line pending) as [[l r]|] eqn:En.
    2: { apply next_line_None in En. by apply (HQ dn ls). }
    apply next_line_Some in En as [-> Hl]. destruct ls as [|l' ls].
    { cbn in Et. by destruct l. }
    rewrite text_cons, string_app_assoc, string_app_cons in Et.
    assert (Hp : plain_line l') by (rewrite Ha in Hplain; apply Forall_app in Hplain as [_ [? _]%Forall_cons]; done).
    destruct Hp as (Hn & Hu & Hc & He). destruct (line_split l l' _ _ Hl Hn Et) as [-> Er].
    unfold from_utf8. rewrite Hu. apply wp_bind, wp_lift. cbn. rewrite Hc.
    destruct (is_empty l') eqn:Ei; [by destruct l'|]. apply wp_bind. eapply wp_mono; [by apply (Hstep dn l' ls)|].
    intros t' [s'|e]; [|apply HR]. intros Hi'. apply (IH _ (dn ++ [l']) ls); [|done| |done].
    + by rewrite <-(assoc_L (++)).
    + rewrite string_length_app in Hf. cbn in Hf. lia.
Qed.

(** The chunks of a body, whose lines are [all], are read to the end of the last
    line, unless a chunk and the piece of a line pending before it exceed the limit. *)
Lemma read_body_spec failure finished chunks more dn ls pending s t Q :
  all = dn ++ ls → ls ≠ [] → pending +:+ joined chunks = text ls → contains_byte LF pending = false →
  I dn s t →
  (∀ dn s t, I dn s t → finished s = bool_decide (dn = all)) →
  (∀ s' t' body, I all s' t' → Q t' (Ok ("", s', Some body))) →
  (∀ t' e, R t' e → Q t' (Err e)) →
  (∀ t' l c, l ∈ all → c ∈ chunks → MAX_PENDING < len l + len c → Q t' (Err line_too_long)) →
  wp (read_body on_line failure finished ((Chunk <$> chunks) ++ more) pending s) t Q.
Proof.
  intros Ha Hne Et Hp Hi Hfin HQ HR HL. revert dn ls pending s t Ha Hne Et Hp Hi HL.
  induction chunks as [|c chunks IH]; intros dn ls pending s t Ha Hne Et Hp Hi HL.
  - exfalso. destruct ls as [|l ls]; [done|]. change (joined []) with "" in Et. rewrite string_app_nil in Et. subst pending.
    rewrite text_cons, contains_byte_false, all_bytes_app in Hp. cbn in Hp. by rewrite andb_false_r in Hp.
  - cbn [fmap list_fmap app read_body]. apply wp_bind. unfold take_chunk.
    destruct (N.ltb_spec MAX_PENDING (len (pending +:+ c))) as [Hb|_].
    { destruct ls as [|l ls]; [done|]. rewrite len_app in Hb. pose proof (partial_line _ _ _ _ Hp Et).
      apply wp_fail, (HL _ l c); [rewrite Ha; set_solver|by left|lia]. }
    eapply (drain_spec _ _ (joined chunks) dn ls); [done| |done|done| |done].
    { by rewrite string_app_assoc. }
    intros dn' ls' p' s' t' Ha' Et' Hp' Hi'. rewrite (Hfin _ _ _ Hi'). case_bool_decide as Ed.
    + apply wp_ret. subst dn'. assert (ls' = []) as -> by (apply (f_equal length) in Ha'; rewrite length_app in Ha'; destruct ls'; [done|cbn in Ha'; lia]).
      destruct p'; [|done]. by apply HQ.
    + apply (IH dn' ls'); [done| |done|done|done|].
      * intros ->. by rewrite app_nil_r in Ha'.
      * intros t2 l c' Hl Hc. apply HL; [done|by right].
Qed.
End reading.

(** * The laws of the event codec *)

(** An event's text is one line of valid UTF-8 that decodes to the event. *)
Class EventCodecLaws `{EventCodec} : Prop := {
  response_text e : ∃ json, response_to_string e = Ok json ∧ plain_line json ∧ response_from_str json = Ok e;
  start_text e : ∃ json, start_to_string e = Ok json ∧ plain_line json ∧ start_from_str json = Ok e;
  action_text e : ∃ json, action_to_string e = Ok json ∧ plain_line json ∧ action_from_str json = Ok e;
}.

Definition text_of {E} (to_string : E → result string string) (e : E) : string :=
  match to_string e with Ok json => json | Err _ => "" end.

Lemma response_line `{EventCodecLaws} e :
  event_line (response_to_string e) = text_of response_to_string e +:+ newline ∧
  plain_line (text_of response_to_string e) ∧ response_from_str (text_of response_to_string e) = Ok e.
Proof. destruct (response_text e) as (j & E & Hp & Hd). unfold event_line, text_of. by rewrite E. Qed.

(** * Where the logs are *)

Definition log_paths (limits : OutputLimits) : StreamLogPaths := {|
  lp_stdout := path_join (ol_log_dir limits) "stdout.log";
  lp_stderr := path_join (ol_log_dir limits) "stderr.log";
|}.

Lemma log_paths_differ limits : lp_stdout (log_paths limits) ≠ lp_stderr (log_paths limits).
Proof.
  cbn. unfold path_join. change (is_absolute "stdout.log") with false. change (is_absolute "stderr.log") with false.
  repeat case_bool_decide; [done|intros E%string_app_inj_l; done|intros E%string_app_inj_l; done].
Qed.

Definition init_failed (t0 t : Term) (e : stopped) : Prop :=
  tm_out t = tm_out t0 ∧ ∃ message, e = Failed (Other ("failed to initialize result logs: " +:+ message)).

Lemma start_output_spec faults limits routed id t0 Q :
  validate_build_id id = Ok tt →
  (∀ c o t, Logs (log_paths limits) t0 "" "" c t → Streams limits (log_paths limits) routed t0 "" "" o t →
     tm_observed t = tm_observed t0 → Q t (Ok (c, o))) →
  (∀ t e, init_failed t0 t e → Q t (Err e)) →
  wp (start_output faults limits id) t0 Q.
Proof.
  intros Hid HQ HE. unfold start_output, or_other. apply wp_bind, wp_map_err. unfold initialize, new_capture.
  cbn [lc_base_dir lc_sink]. apply wp_bind. unfold new_sink. rewrite Hid. apply wp_bind, wp_lift. apply wp_bind.
  unfold open_append at 1, wp at 1. destruct (faults (tm_tick t0) _) as [[k err]|]; cbn [fst snd].
  { apply HE. split; [done|]. by eexists. }
  apply wp_bind. unfold open_append, wp at 1. destruct (faults _ _) as [[k err]|]; cbn [fst snd].
  { apply HE. split; [done|]. by eexists. }
  apply wp_ret, wp_ret. cbn [map_err]. apply wp_bind, wp_lift, wp_ret. apply HQ; [|constructor|done].
  - left. split; [done|]. split; [done|]. pose proof (log_paths_differ limits) as Hd. cbn [log_paths lp_stdout lp_stderr] in Hd |- *.
    unfold append_file, tick. cbn [tm_files]. rewrite lookup_insert_eq, lookup_insert_ne, lookup_insert_eq by done.
    rewrite lookup_insert_ne by done. by rewrite !string_app_nil.
  - exists (suppression_notice (set_log_path (Some (lp_stdout (log_paths limits))) (om_stdout (new_output limits)))), "".
    split; [by left|]. split; [apply stream_shown_fresh|intros _; by rewrite string_app_nil].
  - done.
  - exists (suppression_notice (set_log_path (Some (lp_stderr (log_paths limits))) (om_stderr (new_output limits)))), "".
    split; [by left|]. apply stream_shown_fresh.
Qed.

(** * What the client makes of a response: a build's events arrive whole whatever the
    chunks, and a session's answer is only accepted when its identities agree. *)

(** * A build's stream *)

Definition response_stdout (e : ResponseEvent) : string := match e with RStdout d => d | _ => "" end.
Definition response_stderr (e : ResponseEvent) : string := match e with RStderr d => d | _ => "" end.
Definition stdout_data (events : list ResponseEvent) : string := joined (response_stdout <$> events).
Definition stderr_data (events : list ResponseEvent) : string := joined (response_stderr <$> events).

(** The build the last build event names. *)
Definition build_id_of (events : list ResponseEvent) : option string :=
  foldl (λ id e, match e with RBuild i _ _ _ _ _ => Some i | _ => id end) None events.

Definition result_of (id : option string) (e : ResponseEvent) : option BuildResult :=
  match e with
  | RExit code timed_out artifacts restrictions failed_phase phases =>
      Some {| bd_build_id := id; bd_exit_code := code; bd_timed_out := timed_out; bd_artifacts := artifacts;
              bd_artifact_restrictions := restrictions; bd_failed_phase := failed_phase; bd_phases := phases |}
  | _ => None
  end.

(** A stream that ended is events and, last, one exit event; it names one build. *)
Lemma stream_run_shape id events st :
  stream_run id events = Some st →
  Forall (λ e, match e with RBuild i _ _ _ _ _ => i = id | _ => True end) events ∧
  match st with
  | Ended => ∃ es e, events = es ++ [e] ∧ is_some (result_of None e) = true ∧ Forall (λ e, result_of None e = None) es
  | _ => Forall (λ e, result_of None e = None) events
  end.
Proof.
  revert st. induction events as [|e es IH] using rev_ind; intros st; [by intros [= <-]|].
  rewrite stream_run_app. intros (st' & Hrun & Hst)%bind_Some. destruct (IH st' Hrun) as [Hids Hsh]. clear IH.
  assert (Hne : st' ≠ Ended) by (by intros ->).
  assert (Hno : Forall (λ e, result_of None e = None) es) by by destruct st'. clear Hsh Hrun.
  split.
  - apply Forall_app. split; [done|]. constructor; [|done].
    destruct e; try done. destruct st'; cbn in Hst; try done;
      repeat (case_match; try done); breflect; naive_solver.
  - destruct (result_of None e) eqn:Er.
    + destruct e; try done. assert (st = Ended) as ->.
      { destruct st'; try done; cbn in Hst; case_match; naive_solver. }
      eexists es, _. done.
    + assert (st ≠ Ended).
      { intros ->. destruct e; try done; destruct st'; cbn in Hst; repeat (case_match; try done); naive_solver. }
      destruct st; try done; apply Forall_app; split; auto.
Qed.

Lemma joined_snoc l x : joined (l ++ [x]) = joined l +:+ x.
Proof. rewrite joined_app. f_equal. cbn. by rewrite string_app_nil. Qed.

Lemma stdout_data_snoc es e : stdout_data (es ++ [e]) = stdout_data es +:+ response_stdout e.
Proof. unfold stdout_data. rewrite fmap_app. apply joined_snoc. Qed.
Lemma stderr_data_snoc es e : stderr_data (es ++ [e]) = stderr_data es +:+ response_stderr e.
Proof. unfold stderr_data. rewrite fmap_app. apply joined_snoc. Qed.

Section delivery.
Context `{EventCodecLaws} (faults : nat → Sink → fault) (limits : OutputLimits).
Hypothesis terminal_works : ∀ n fd, faults n (ToFd fd) = None.

Abbreviation LOGS := (Logs (log_paths limits)).
Abbreviation STREAMS := (Streams limits (log_paths limits) false).

Lemma eprintln_spec message t Q :
  (∀ t', writes StderrFd (message +:+ newline) t t' → Q t' (Ok tt)) → wp (eprintln faults message) t Q.
Proof. intros HQ. apply wp_map_err, wp_write_fd; [done|]. intros t' Hw. by apply HQ. Qed.

Lemma show_event_spec what t0 so se c o t e Q :
  LOGS t0 so se c t → STREAMS t0 so se o t →
  (∀ c' o' t', LOGS t0 (so +:+ stdout_of e) (se +:+ stderr_of e) c' t' →
     STREAMS t0 (so +:+ stdout_of e) (se +:+ stderr_of e) o' t' → Q t' (Ok (c', o'))) →
  wp (show_event faults what c o e false) t Q.
Proof.
  intros HL HS HQ. apply wp_map_err. eapply (process_event_spec faults terminal_works limits); [apply log_paths_differ|done..].
Qed.

(** The reader after the events [es]. *)
Definition build_state (t0 : Term) (es : list ResponseEvent) (r : build_reader) (t : Term) : Prop :=
  LOGS t0 (stdout_data es) (stderr_data es) (br_logs r) t ∧
  STREAMS t0 (stdout_data es) (stderr_data es) (br_output r) t ∧
  br_build_id r = build_id_of es ∧
  br_result r = last es ≫= result_of (build_id_of es).

Lemma build_event_spec t0 es e r t :
  build_state t0 es r t → br_result r = None →
  match e with RBuild i _ _ _ _ _ => validate_build_id i = Ok tt | _ => True end →
  wp (build_event faults r e) t (λ t' res, ∃ r', res = Ok r' ∧ build_state t0 (es ++ [e]) r' t').
Proof.
  intros (HL & HS & Hi & _) Hr Hid.
  assert (Hfin : ∀ c o id t', LOGS t0 (stdout_data es +:+ response_stdout e) (stderr_data es +:+ response_stderr e) c t' →
    STREAMS t0 (stdout_data es +:+ response_stdout e) (stderr_data es +:+ response_stderr e) o t' →
    id = build_id_of (es ++ [e]) → build_state t0 (es ++ [e]) (BuildReader c o id (result_of id e)) t').
  { intros c o id t' HL' HS' ->. unfold build_state. cbn [br_logs br_output br_build_id br_result].
    rewrite stdout_data_snoc, stderr_data_snoc, last_snoc. done. }
  assert (Hb : build_id_of (es ++ [e]) = match e with RBuild i _ _ _ _ _ => Some i | _ => build_id_of es end).
  { unfold build_id_of. by rewrite foldl_app. }
  destruct e as [i status phase ms code tmo|d|d|ecode [m|] pat ph|code tmo arts restr fp phs]; cbn [build_event];
    cbn [response_stdout response_stderr] in Hfin.
  - rewrite Hid. apply wp_bind, wp_lift, wp_bind. cbn [map_err].
    destruct (phase ≫= _) as [message|].
    + apply eprintln_spec. intros t' Hw. apply wp_ret. eexists. split; [done|]. rewrite Hr. apply Hfin; [| |done].
      * rewrite !string_app_nil. by eapply logs_writes.
      * rewrite !string_app_nil. by eapply streams_err.
    + apply wp_ret, wp_ret. eexists. split; [done|]. rewrite Hr. apply Hfin; [by rewrite !string_app_nil..|done].
  - apply wp_bind. eapply show_event_spec; [done..|]. intros c o t' HL' HS'. apply wp_ret. eexists. split; [done|].
    rewrite Hr. apply Hfin; [done..|]. by rewrite Hb.
  - apply wp_bind. eapply show_event_spec; [done..|]. intros c o t' HL' HS'. apply wp_ret. eexists. split; [done|].
    rewrite Hr. apply Hfin; [done..|]. by rewrite Hb.
  - apply wp_bind, eprintln_spec. intros t' Hw. apply wp_ret. eexists. split; [done|].
    destruct r as [c o id res]. cbn in *. subst res. apply (Hfin c o id); [| |by rewrite Hb].
    + rewrite !string_app_nil. by eapply logs_writes.
    + rewrite !string_app_nil. by eapply streams_err.
  - apply wp_ret. eexists. split; [done|]. destruct r as [c o id res]. cbn in *. subst res.
    apply (Hfin c o id); [by rewrite !string_app_nil..|by rewrite Hb].
  - apply wp_ret. eexists. split; [done|]. rewrite Hi, <-Hb.
    apply (Hfin (br_logs r) (br_output r)); [by rewrite !string_app_nil..|done].
Qed.

Lemma text_of_lines (events : list ResponseEvent) :
  joined ((λ e, event_line (response_to_string e)) <$> events) = text (text_of response_to_string <$> events).
Proof.
  unfold text. rewrite <-list_fmap_compose. f_equal. apply list_fmap_ext. intros _ e _.
  by destruct (response_line e) as [-> _].
Qed.

(** The events of a stream in lines, to the exit event. *)
Lemma build_lines_spec t0 es e chunks more r t Q :
  Forall (λ e, result_of None e = None) es → is_some (result_of None e) = true →
  Forall (λ e, match e with RBuild i _ _ _ _ _ => validate_build_id i = Ok tt | _ => True end) (es ++ [e]) →
  joined chunks = joined ((λ e, event_line (response_to_string e)) <$> es ++ [e]) →
  build_state t0 [] r t →
  (∀ r' t' rest, build_state t0 (es ++ [e]) r' t' → Q t' (Ok ("", r', Some rest))) →
  (∀ t' e' c, e' ∈ es ++ [e] → c ∈ chunks →
     MAX_PENDING < len (event_line (response_to_string e')) + len c → Q t' (Err line_too_long)) →
  wp (read_body (build_line faults) "failed to read response: " (λ r, is_some (br_result r))
        ((Chunk <$> chunks) ++ more) "" r) t Q.
Proof.
  intros Hes He Hids Ht Hr HQ HL. set (events := es ++ [e]) in *.
  set (texts := text_of response_to_string <$> events).
  assert (Hres : ∀ k, (k ≤ length es)%nat → last (take k events) ≫= result_of (build_id_of (take k events)) = None).
  { intros k Hk. subst events. rewrite take_app_le by done.
    destruct (last (take k es)) as [x|] eqn:El; [|done]. cbn. apply last_Some in El as [l' El].
    assert (Hx : x ∈ es) by (rewrite <-(take_drop k es), El; set_solver).
    rewrite Forall_forall in Hes. specialize (Hes x Hx). by destruct x. }
  eapply (read_body_spec _
    (λ dn r t, dn = take (length dn) texts ∧ (length dn ≤ length events)%nat ∧ build_state t0 (take (length dn) events) r t)
    (λ _ _, False) texts) with (dn := []) (ls := texts); [| |done| | | | | | | |].
  - apply Forall_fmap, Forall_true. intros x. apply response_line.
  - intros dn l ls r' t' Ha (Hdn & Hk & Hst).
    assert (Hx : ∃ x, events !! length dn = Some x ∧ l = text_of response_to_string x).
    { assert (texts !! length dn = Some l) as Hl by (rewrite Ha; apply list_lookup_middle; done).
      apply list_lookup_fmap_Some in Hl as (x & Hx & ->). by exists x. }
    destruct Hx as (x & Hx & ->). apply lookup_lt_Some in Hx as Hlt.
    assert (Htake : take (S (length dn)) events = take (length dn) events ++ [x]) by by apply take_S_r.
    destruct (response_line x) as (_ & _ & Hd). unfold build_line. rewrite Hd. apply wp_bind, wp_lift. cbn [map_err].
    eapply wp_mono; [eapply build_event_spec; [done| |]|].
    + destruct Hst as (_ & _ & _ & ->). apply Hres. subst events. rewrite length_app in Hlt. cbn in Hlt. lia.
    + rewrite Forall_forall in Hids. apply Hids. by eapply list_elem_of_lookup_2.
    + intros t2 res (r2 & -> & Hst2). cbn. rewrite length_app. cbn [length]. rewrite Nat.add_1_r, Htake.
      split; [|split; [lia|done]]. rewrite Ha. by rewrite take_app_ge, Nat.sub_succ_l, Nat.sub_diag by lia.
  - subst texts events. by destruct es.
  - rewrite Ht. apply text_of_lines.
  - done.
  - split; [by rewrite take_0|]. split; [cbn; lia|]. by rewrite take_0.
  - intros dn r' t' (Hdn & Hk & _ & _ & _ & ->). cbv beta. case_bool_decide as Ed.
    + assert (length dn = length events) as -> by (subst dn texts; by rewrite length_fmap).
      rewrite firstn_all. subst events. rewrite last_snoc. cbn. by destruct e.
    + assert (length dn ≤ length es)%nat.
      { assert (length dn ≠ length events).
        { intros E. apply Ed. rewrite Hdn, E. subst texts. by rewrite <-(length_fmap (text_of response_to_string)), firstn_all. }
        subst events. rewrite length_app in *. cbn in *. lia. }
      by rewrite Hres.
  - intros r' t' body (_ & _ & Hst). apply HQ. subst texts. rewrite length_fmap, firstn_all in Hst. done.
  - done.
  - intros t' l c (x & -> & Hx)%list_elem_of_fmap Hc Hlt. apply (HL t' x c Hx Hc).
    destruct (response_line x) as [E _]. rewrite E, len_app. lia.
Qed.

Lemma finish_output_spec t0 so se c o t Q :
  LOGS t0 so se c t → STREAMS t0 so se o t →
  (∀ notice t', notice ∈ notices (om_stdout (new_output limits)) (lp_stdout (log_paths limits)) →
     LOGS t0 so se c t' →
     tm_out t' = tm_out t0 +:+
       stream_view (ol_stdout_max_lines limits) (ol_stdout_tail_lines limits) notice "stdout" so →
     Q t' (Ok tt)) →
  wp (finish_output faults c o false) t Q.
Proof.
  intros HL HS HQ. apply wp_bind, wp_map_err.
  eapply (finish_routed_spec faults terminal_works limits (log_paths limits) false); [done..|].
  intros notice t1 Hn HL1 Ho. cbn [map_err]. apply wp_map_err. unfold write_completion_notice.
  destruct (lc_sink c) as [p|] eqn:Es.
  - apply wp_write_fd; [done|]. intros t2 Hw. apply (HQ notice); [done|by eapply logs_writes|].
    destruct Hw as (_ & O & _). rewrite <-Ho. by apply (O StdoutFd).
  - by apply (HQ notice).
Qed.
End delivery.

(** C13: a build's event stream that follows the server's protocol arrives whole,
    however its bytes are cut into chunks: the client's result is the exit event with
    the build the stream names, standard output is shown within its line limit, and
    the log files hold both streams in full unless the client said that they do not.
    Only two things can fail before that: the log files' creation, and the client's
    limit of 1 MiB, which it applies to a chunk with the piece of a line before it,
    and so only to a response with an event and a chunk that together exceed it. *)
Theorem build_stream_delivered `{EventCodecLaws} faults limits id events chunks more t0 :
  (∀ n fd, faults n (ToFd fd) = None) →
  stream_run id events = Some Ended → validate_build_id id = Ok tt →
  joined chunks = joined ((λ e, event_line (response_to_string e)) <$> events) →
  wp (read_responses faults ((Chunk <$> chunks) ++ more) limits) t0 (λ t r,
    (∃ e, r = Err e ∧ init_failed t0 t e) ∨
    (r = Err line_too_long ∧ ∃ e c, e ∈ events ∧ c ∈ chunks ∧
     MAX_PENDING < len (event_line (response_to_string e)) + len c) ∨
    (∃ result, r = Ok result ∧ last events ≫= result_of (build_id_of events) = Some result ∧
     (∃ notice, notice ∈ notices (om_stdout (new_output limits)) (lp_stdout (log_paths limits)) ∧
        tm_out t = tm_out t0 +:+ stream_view (ol_stdout_max_lines limits) (ol_stdout_tail_lines limits) notice
          "stdout" (stdout_data events)) ∧
     (warned t ∨
      tm_files t !! lp_stdout (log_paths limits) =
        Some (default "" (tm_files t0 !! lp_stdout (log_paths limits)) +:+ stdout_data events) ∧
      tm_files t !! lp_stderr (log_paths limits) =
        Some (default "" (tm_files t0 !! lp_stderr (log_paths limits)) +:+ stderr_data events)))).
Proof.
  intros Hterm Hrun Hid Ht. destruct (stream_run_shape _ _ _ Hrun) as [Hids (es & e & -> & He & Hes)].
  apply wp_bind. eapply (start_output_spec _ _ false); [done| |by eauto].
  intros c o t HL HS _. apply wp_bind.
  eapply build_lines_spec; [done..| |done| | |].
  { eapply Forall_impl; [exact Hids|]. intros [] Hx; try done. by subst. }
  { by split_and!. }
  2: { intros t1 e' c' He' Hc' Hlt. right. left. split; [done|]. by exists e', c'. }
  intros r t1 rest (HL1 & HS1 & _ & Hr). apply wp_bind. eapply finish_output_spec; [done..|].
  intros notice t2 Hn HL2 Ho. apply wp_lift. right. right. rewrite last_snoc in Hr |- *. cbn in Hr |- *.
  destruct (result_of (build_id_of (es ++ [e])) e) as [res|] eqn:Er; [|by destruct e].
  rewrite Hr. exists res. split; [done|]. split; [done|]. split; [by exists notice|].
  destruct HL2 as [(_ & _ & ? & ?)|[_ ?]]; [by right|by left].
Qed.

(** * Whatever the server sends *)

(** An invariant of the loop over a body, for any bytes. *)
Section bodies.
Context {S : Type} (on_line : S → string → eff Term stopped S) (J : S → Term → Prop) (K : Term → Prop).
Hypothesis Hline : ∀ s l t, J s t → wp (on_line s l) t (λ t' r, match r with Ok s' => J s' t' | Err _ => K t' end).
Hypothesis Hweak : ∀ s t, J s t → K t.

Lemma drain_invariant fuel pending s t :
  J s t → wp (drain_lines on_line fuel pending s) t (λ t' r, match r with Ok (_, s') => J s' t' | Err _ => K t' end).
Proof.
  revert pending s t. induction fuel as [|fuel IH]; intros pending s t Hj; [done|].
  cbn [drain_lines]. destruct (next_line pending) as [[l rest]|]; [|done].
  apply wp_bind, wp_lift. destruct (from_utf8 l) as [u|]; cbn [ok_or]; [|by eapply Hweak].
  apply wp_bind. destruct (is_empty (trim_end_matches CR u)).
  - apply wp_ret. by apply IH.
  - eapply wp_mono; [by apply Hline|]. intros t' [s'|e]; [|done]. apply IH.
Qed.

Lemma read_body_invariant failure finished body pending s t :
  J s t →
  wp (read_body on_line failure finished body pending s) t (λ t' r,
    match r with Ok (_, s', _) => J s' t' | Err _ => K t' end).
Proof.
  revert pending s t. induction body as [|[c| |m] body IH]; intros pending s t Hj; cbn [read_body].
  - by eapply Hweak.
  - apply wp_bind. unfold take_chunk. destruct (_ <? _); [by eapply Hweak|].
    eapply wp_mono; [by apply drain_invariant|]. intros t' [[p s']|e]; [|done]. intros Hj'.
    destruct (finished s'); [done|]. by apply IH.
  - done.
  - by eapply Hweak.
Qed.
End bodies.

(** Nothing goes to standard output and no identifier is sent. *)
Definition silent {E A} (m : eff Term E A) : Prop :=
  ∀ t, tm_out (m t).1 = tm_out t ∧ tm_observed (m t).1 = tm_observed t.

Lemma silent_ret {E A} (a : A) : silent (E := E) (mret a).
Proof. done. Qed.
Lemma silent_lift {E A} (r : result E A) : silent (io_lift r).
Proof. done. Qed.
Lemma silent_fail {E A} (e : E) : silent (A := A) (io_fail e).
Proof. done. Qed.
Lemma silent_bind {E A B} (m : eff Term E A) (k : A → eff Term E B) :
  silent m → (∀ a, silent (k a)) → silent (m ≫= k).
Proof.
  intros Hm Hk t. specialize (Hm t). unfold mbind, eff_bind. destruct (m t) as [t' [a|e]]; [|done].
  cbn in Hm. destruct Hm as [<- <-]. apply Hk.
Qed.
Lemma silent_map_err {E F A} (f : E → F) (m : eff Term E A) : silent m → silent (io_map_err f m).
Proof. intros Hm t. specialize (Hm t). unfold io_map_err. by destruct (m t). Qed.
Lemma silent_try {E F A} (m : eff Term E A) : silent m → silent (io_try (F := F) m).
Proof. intros Hm t. specialize (Hm t). unfold io_try. by destruct (m t). Qed.
Lemma silent_each {E A} (f : A → eff Term E unit) l : (∀ x, silent (f x)) → silent (io_each f l).
Proof. intros Hf. induction l as [|x l IH]; [done|]. by apply silent_bind. Qed.

Create HintDb silent discriminated.
#[export] Hint Resolve silent_ret silent_lift silent_fail silent_bind silent_map_err silent_try silent_each : silent.

Section silence.
Context (faults : nat → Sink → fault).

Lemma silent_stderr data : silent (write_fd faults StderrFd data).
Proof. intros t. unfold write_fd. by destruct (faults _ _) as [[]|]. Qed.

Lemma silent_flush : silent (write_fd faults StdoutFd "").
Proof.
  intros t. unfold write_fd. destruct (faults _ _) as [[k e]|]; cbn.
  - split; [|done]. destruct k; apply string_app_nil.
  - split; [|done]. apply string_app_nil.
Qed.

Lemma silent_log path data : silent (write_log faults path data).
Proof. intros t. unfold write_log. by destruct (faults _ _) as [[]|]. Qed.
Lemma silent_open path : silent (open_append faults path).
Proof. intros t. unfold open_append. by destruct (faults _ _) as [[]|]. Qed.
Hint Resolve silent_stderr silent_flush silent_log silent_open : silent.

Ltac silence := repeat first
  [ progress eauto with silent
  | progress intros
  | apply silent_bind | apply silent_try
  | match goal with |- silent (match ?x with _ => _ end) => destruct x end
  | match goal with |- silent (let '(_, _) := ?x in _) => destruct x end ].

Lemma silent_chunk l data : silent (write_chunk faults l data StderrFd).
Proof. unfold write_chunk. silence. Qed.
Hint Resolve silent_chunk : silent.

Lemma silent_event c o e : silent (process_event_routed faults c o e true).
Proof. unfold process_event_routed, write_warning, write_stdout, write_stderr. silence. Qed.
Lemma silent_stderr_event c o data : silent (process_event_routed faults c o (BStderr data) false).
Proof. apply (silent_event c o (BStderr data)). Qed.
Lemma silent_finish o : silent (finish_routed faults o true).
Proof. unfold finish_routed, write_summary. silence. Qed.
Lemma silent_notice c : silent (write_completion_notice faults c).
Proof. unfold write_completion_notice. silence. Qed.
Lemma silent_initialize c id : silent (initialize faults c id).
Proof. unfold initialize, new_sink. silence. Qed.
Hint Resolve silent_event silent_stderr_event silent_finish silent_notice silent_initialize : silent.

Lemma silent_eprintln message : silent (eprintln faults message).
Proof. unfold eprintln. silence. Qed.
Lemma silent_start_output limits id : silent (start_output faults limits id).
Proof. unfold start_output, or_other, option_expect. silence. Qed.
Lemma silent_finish_output c o : silent (finish_output faults c o true).
Proof. unfold finish_output, or_other. silence. Qed.

Lemma silent_drained failure extra body : silent (drained failure extra body).
Proof. induction body as [|[c| |m] body IH]; cbn [drained]; unfold other; silence. Qed.

(** A silent computation keeps what is said of standard output and identifiers. *)
Lemma wp_quietly {E A} (m : eff Term E A) t (Q : Term → result E A → Prop) :
  silent m → (∀ t' r, tm_out t' = tm_out t → tm_observed t' = tm_observed t → Q t' r) → wp m t Q.
Proof. intros Hm HQ. destruct (Hm t). unfold wp. by apply HQ. Qed.
End silence.

#[export] Hint Resolve silent_eprintln silent_start_output silent_finish_output silent_drained silent_event
  silent_stderr_event : silent.

Section sessions.
Context `{EventCodec} (faults : nat → Sink → fault) (limits : OutputLimits).

(** The identifiers sent since [t0]: none, or a valid one. *)
Definition observed (valid : string → bool) (t0 t : Term) (id : option string) : Prop :=
  tm_observed t = tm_observed t0 ++ option_list id ∧ (∀ i, id = Some i → valid i = true).

Definition start_state (t0 : Term) (r : start_reader) (t : Term) : Prop :=
  tm_out t = tm_out t0 ∧ observed valid_session_id t0 t (sr_started_id r) ∧
  ∀ res id, sr_result r = Some res → st_session_id res = Some id → sr_started_id r = Some id.

Definition start_outcome (t0 t : Term) : Prop :=
  tm_out t = tm_out t0 ∧ ∃ id, observed valid_session_id t0 t id.

Lemma start_event_spec t0 r event t :
  start_state t0 r t → sr_result r = None →
  wp (start_event faults r event) t (λ t' res,
    match res with Ok r' => start_state t0 r' t' | Err _ => start_outcome t0 t' end).
Proof.
  intros (Ho & Hob & _) Hr.
  assert (Hout : ∀ t', tm_out t' = tm_out t → tm_observed t' = tm_observed t → start_outcome t0 t').
  { intros t' E1 E2. split; [congruence|]. exists (sr_started_id r). unfold observed. by rewrite E2. }
  assert (Hst : ∀ t' c o errs res, tm_out t' = tm_out t → tm_observed t' = tm_observed t →
    (∀ x id, res = Some x → st_session_id x = Some id → sr_started_id r = Some id) →
    start_state t0 (StartReader c o (sr_started_id r) errs res) t').
  { intros t' c o errs res E1 E2 Hres. split; [congruence|]. split; [|done]. unfold observed. by rewrite E2. }
  destruct event as [id status phase ms code tmo|d|d|code message ph|id rev phases|code tmo fp phases]; cbn [start_event].
  - destruct (valid_session_id id) eqn:Hv; cbn [negb]; [|by apply Hout]. apply wp_bind.
    assert (Hmsg : ∀ t1, tm_out t1 = tm_out t0 → observed valid_session_id t0 t1 (Some id) →
      wp (_ ← match session_message id status phase ms code tmo with
              | Some message => eprintln faults message | None => mret tt end;
          mret (StartReader (sr_logs r) (sr_output r) (Some id) (sr_errors r) (sr_result r))) t1
        (λ t' res, match res with Ok r' => start_state t0 r' t' | Err _ => start_outcome t0 t' end)).
    { intros t1 E1 Hob1. apply wp_bind, wp_quietly; [destruct (session_message _ _ _ _ _ _); auto with silent|].
      intros t2 [[]|e] E2 E3; [apply wp_ret|]; split; try congruence; unfold observed in *; rewrite E3.
      - split; [done|]. cbn [sr_result]. by rewrite Hr.
      - by exists (Some id). }
    destruct (sr_started_id r) as [existing|] eqn:Es.
    + case_bool_decide as Ee; cbn [negb]; [|by apply Hout]. subst existing. apply wp_ret. by apply Hmsg.
    + apply wp_bind. unfold send_observed, wp at 1. cbn [fst snd]. apply wp_ret. apply Hmsg; [done|].
      destruct Hob as [Eo _]. cbn in Eo. rewrite app_nil_r in Eo. split; [cbn; by rewrite Eo|]. by intros i [= <-].
  - apply wp_bind, wp_quietly; [unfold show_event, or_other; auto with silent|]. intros t1 [[c o]|e] E1 E2; [|by apply Hout].
    apply wp_ret, Hst; [done..|]. by rewrite Hr.
  - apply wp_bind, wp_quietly; [unfold show_event, or_other; auto with silent|]. intros t1 [[c o]|e] E1 E2; [|by apply Hout].
    apply wp_ret, Hst; [done..|]. by rewrite Hr.
  - apply wp_bind, wp_quietly; [auto with silent|]. intros t1 [[]|e] E1 E2; [|by apply Hout].
    apply wp_ret, Hst; [done..|]. by rewrite Hr.
  - destruct (_ || _) eqn:E; [by apply Hout|]. breflect. apply wp_ret, Hst; [done..|].
    intros x i [= <-] [= <-]. done.
  - apply wp_ret, Hst; [done..|]. by intros x i [= <-].
Qed.

(** Whatever the server sends and whatever fails, a session start prints nothing
    on standard output, tells its command at most one session identifier, which is
    valid, and reports a ready session only under the identifier it told. *)
Lemma start_response_spec body t0 :
  wp (read_session_start_response faults body limits) t0 (λ t r,
    start_outcome t0 t ∧
    ∀ res id, r = Ok res → st_session_id res = Some id →
      valid_session_id id = true ∧ tm_observed t = tm_observed t0 ++ [id]).
Proof.
  unfold read_session_start_response. apply wp_bind, wp_quietly; [auto with silent|].
  intros t1 [[c o]|e] E1 E2.
  2: { split; [|done]. split; [done|]. exists None. split; [by rewrite E2, app_nil_r|done]. }
  apply wp_bind. eapply wp_mono.
  - apply (read_body_invariant _ (start_state t0) (start_outcome t0)).
    + intros r l t Hj. assert (Hk : start_outcome t0 t) by (destruct Hj as (? & ? & _); split; eauto).
      unfold start_line. destruct (sr_result r) eqn:Er; cbn [is_some]; [done|]. apply wp_bind, wp_lift.
      destruct (start_from_str l) as [event|err]; cbn [map_err]; [|done]. by apply start_event_spec.
    + intros r t (? & ? & _). split; eauto.
    + split; [done|]. split; [split; [by rewrite E2, app_nil_r|done]|done].
  - intros t2 [[[pending r] rest]|e]; [|done]. intros (Ho & Hob & Hres). apply wp_bind, wp_quietly.
    { destruct rest as [rest|]; [|auto with silent]. destruct (negb _); unfold other; auto with silent. }
    intros t3 [[]|e] E3 E4.
    2: { split; [|done]. split; [congruence|]. exists (sr_started_id r). unfold observed. by rewrite E4. }
    apply wp_bind, wp_quietly; [auto with silent|]. intros t4 [[]|e] E5 E6.
    2: { split; [|done]. split; [congruence|]. exists (sr_started_id r). unfold observed. by rewrite E6, E4. }
    apply wp_lift. split; [split; [congruence|]; exists (sr_started_id r); unfold observed; by rewrite E6, E4|].
    intros res id Hr Hid. destruct (sr_result r) as [x|] eqn:Ex; [|done]. injection Hr as ->.
    specialize (Hres res id eq_refl Hid). destruct Hob as [Eo Hv]. rewrite Hres in *. split; [by apply Hv|].
    by rewrite E6, E4.
Qed.
End sessions.
