(* ===== verification/CliArchive.v ===== *)
(** The client unpacks an artifact archive ([bin/indentured.rs]): the scan of the ZIP
    directory for duplicate names, the checks on every entry, and the extraction into
    a staging directory that is renamed when it is complete. *)
From Stdlib Require Import Ascii.
From stdpp Require Import base option strings numbers list gmap pretty.
From S2P Require Import Prelude Effects RustStr Fs Archive ArchiveExtract HostPng.

Local Open Scope N_scope.

(** * The central directory *)

Definition invalid_data (message : string) : io_error := IoError InvalidData message.

(** An error, or a panic of the worker: an index out of bounds. *)
Inductive scan_error := ScanErr (e : io_error) | ScanPanic.

Definition bad_zip (message : string) : scan_error := ScanErr (invalid_data message).

(** [u16::from_le_bytes] and [u32::from_le_bytes]. *)
Definition from_le (bytes : list N) : N := from_be (reverse bytes).

Definition EOCD : list N := [80; 75; 5; 6].
Definition CENTRAL : list N := [80; 75; 1; 2].

(** Whether the end record can start at [index] of [tail]. *)
Definition is_eocd (tail : list N) (index : nat) : result scan_error bool :=
  if bool_decide (take 4 (drop index tail) = EOCD) then
    if bool_decide (index + 21 < length tail)%nat then
      Ok (bool_decide (index + 22 + N.to_nat (from_le (take 2 (drop (index + 20) tail))) = length tail)%nat)
    else Err ScanPanic
  else Ok false.

(** [(0..=last).rev().find(..)]. *)
Fixpoint find_eocd (tail : list N) (last : nat) : result scan_error (option nat) :=
  found ← is_eocd tail last;
  if found : bool then Ok (Some last)
  else match last with
       | O => Ok None
       | S last => find_eocd tail last
       end.

(** [read_exact] at a position of the file. *)
Definition read_at (file : list N) (position : N) (n : N) : result scan_error (list N) :=
  if position + n <=? N.of_nat (length file) then Ok (range position (position + n) file)
  else Err (ScanErr (IoError UnexpectedEof "failed to fill whole buffer")).

(** One turn of the loop over the central directory. *)
Definition scan_entry (file : list N) (s : N * gset (list N)) (_ : nat) : result scan_error (N * gset (list N)) :=
  let '(position, names) := s in
  header ← read_at file position 46;
  _ ← reject_if (negb (bool_decide (take 4 header = CENTRAL))) (bad_zip "artifact ZIP central entry is invalid");
  let name_length := from_le (range 28 30 header) in
  let extra_length := from_le (range 30 32 header) in
  let comment_length := from_le (range 32 34 header) in
  _ ← reject_if ((name_length =? 0) || (4096 <? name_length))
    (bad_zip "artifact ZIP entry name is empty or too long");
  name ← read_at file (position + 46) name_length;
  _ ← reject_if (bool_decide (name ∈ names)) (bad_zip "artifact archive contains duplicate paths");
  Ok (position + 46 + name_length + extra_length + comment_length, {[name]} ∪ names).

Definition reject_duplicate_zip_entries (file : list N) : result scan_error unit :=
  let length := N.of_nat (length file) in
  let tail_length := N.min length 65557 in
  let tail := drop (N.to_nat (length - tail_length)) file in
  eocd ← find_eocd tail (Datatypes.length tail - 22);
  eocd ← ok_or eocd (bad_zip "zip end record missing");
  let u16_at offset := from_le (take 2 (drop (eocd + offset) tail)) in
  let u32_at offset := from_le (take 4 (drop (eocd + offset) tail)) in
  let disk := u16_at 4%nat in
  let central_disk := u16_at 6%nat in
  let disk_entries := u16_at 8%nat in
  let entries := u16_at 10%nat in
  let central_size := u32_at 12%nat in
  let central_offset := u32_at 16%nat in
  _ ← reject_if (negb (disk =? 0) || negb (central_disk =? 0) || negb (disk_entries =? entries))
    (bad_zip "multi-disk artifact ZIP is unsupported");
  _ ← reject_if ((entries =? 65535) || (central_size =? u32_max) || (central_offset =? u32_max))
    (bad_zip "ZIP64 artifact archives are unsupported");
  let eocd_absolute := length - tail_length + N.of_nat eocd in
  _ ← reject_if (eocd_absolute <? saturating_add central_offset central_size)
    (bad_zip "artifact ZIP central directory is out of bounds");
  _ ← fold_each (scan_entry file) (central_offset, ∅) (seq 0 (N.to_nat entries));
  Ok tt.

(** * The entries *)

Definition MAX_FILES : N := 10000.
Definition MAX_BYTES : N := 2147483648.
Definition MAX_DEPTH : N := 64.

Definition validate_zip_entry_path (name : string) : result io_error unit :=
  _ ← reject_if (is_empty name || negb (is_ascii name) || contains_byte "\" name || contains_byte nul name ||
                 existsb (λ component, is_empty component || bool_decide (component = ".")) (split slash name))
    (invalid_data "zip entry had invalid path");
  reject_if (existsb (λ c, match c with RootDir | ParentDir => true | _ => false end) (components name))
    (invalid_data "zip entry had invalid path").

Definition validate_artifact_zip_type (mode : option N) (is_dir : bool) : result io_error unit :=
  match mode with
  | None => Ok tt
  | Some mode =>
      let kind := N.land mode o170000 in
      let expected := if is_dir then o040000 else o100000 in
      reject_if (negb (kind =? 0) && negb (kind =? expected))
        (invalid_data "artifact archive contains a special file")
  end.

(** The sets of the loop over the entries; files and directories in lower case. *)
Record unpack_check := {
  uc_exact : gset string;
  uc_folded : gset string;
  uc_files : gset string;
  uc_directories : gset string;
  uc_declared : N;
}.

Definition unpack_start : unpack_check :=
  {| uc_exact := ∅; uc_folded := ∅; uc_files := ∅; uc_directories := ∅; uc_declared := 0 |}.

Definition unpack_collision : io_error := invalid_data "artifact archive contains a file/directory collision".

Definition with_directory (lower : string) (s : unpack_check) : unpack_check :=
  {| uc_exact := uc_exact s; uc_folded := uc_folded s; uc_files := uc_files s;
     uc_directories := {[lower]} ∪ uc_directories s; uc_declared := uc_declared s |}.

(** The loop over the components but the last. *)
Fixpoint unpack_ancestors (ancestor : string) (comps : list string) (s : unpack_check) :
    result io_error unpack_check :=
  match comps with
  | [] => Ok s
  | component :: comps =>
      let ancestor := (if is_empty ancestor then "" else ancestor +:+ "/") +:+ component in
      _ ← reject_if (bool_decide (to_ascii_lowercase ancestor ∈ uc_files s)) unpack_collision;
      unpack_ancestors ancestor comps (with_directory (to_ascii_lowercase ancestor) s)
  end.

Definition entry_name (e : zip_entry) : string := trim_end_matches slash (ze_name e).

(** One turn of the loop over the entries, [None] one that cannot be read. *)
Definition check_unpacked (s : unpack_check) (e : option zip_entry) : result io_error unpack_check :=
  e ← ok_or e (invalid_data "unreadable entry");
  let name := entry_name e in
  _ ← validate_zip_entry_path name;
  _ ← reject_if (MAX_DEPTH <? N.of_nat (length (split slash name)))
    (invalid_data "artifact path exceeded client depth limit");
  _ ← validate_artifact_zip_type (ze_unix_mode e) (ze_is_dir e);
  let lower := to_ascii_lowercase name in
  _ ← reject_if (bool_decide (name ∈ uc_exact s) || bool_decide (lower ∈ uc_folded s))
    (invalid_data "artifact archive contains duplicate or case-colliding paths");
  let s := {| uc_exact := {[name]} ∪ uc_exact s; uc_folded := {[lower]} ∪ uc_folded s;
              uc_files := uc_files s; uc_directories := uc_directories s; uc_declared := uc_declared s |} in
  s ← unpack_ancestors "" (removelast (split slash name)) s;
  s ← (if ze_is_dir e then
         _ ← reject_if (bool_decide (lower ∈ uc_files s)) unpack_collision;
         Ok (with_directory lower s)
       else
         _ ← reject_if (bool_decide (lower ∈ uc_directories s)) unpack_collision;
         Ok {| uc_exact := uc_exact s; uc_folded := uc_folded s; uc_files := {[lower]} ∪ uc_files s;
               uc_directories := uc_directories s; uc_declared := saturating_add (uc_declared s) (ze_size e) |});
  _ ← reject_if (MAX_BYTES <? uc_declared s) (invalid_data "artifact uncompressed bytes exceeded client limit");
  Ok s.

(** * The run directory *)

(** What stands at [artifacts], the staging directory with its name, and the calls
    made.  The directory is the client's own: nothing else changes it. *)
Record run_dir := RunDir {
  rd_artifacts : option tree;
  rd_staging : option tree;
  rd_calls : nat;
}.

(** The calls that fail, and how much a failing copy wrote before. *)
Record unpack_env := { ue_fails : nat → bool; ue_partial : nat → nat }.

Section unpack.
Context (env : unpack_env).

Abbreviation unpack := (eff run_dir io_error).

Definition io_failed : io_error := IoError OtherKind "I/O error".

Definition on_staging (f : tree → result tree_error tree) : unpack unit := λ d,
  let d' := RunDir (rd_artifacts d) (rd_staging d) (S (rd_calls d)) in
  if ue_fails env (rd_calls d) then (d', Err io_failed)
  else match rd_staging d with
       | Some t => match f t with
                   | Ok t => (RunDir (rd_artifacts d) (Some t) (S (rd_calls d)), Ok tt)
                   | Err _ => (d', Err io_failed)
                   end
       | None => (d', Err (IoError NotFound "No such file or directory"))
       end.

(** [io::copy] into the new file at [p]: a failure, of a read or of a write, leaves a
    part of the content. *)
Definition copy_entry (p : list string) (e : zip_entry) : unpack N := λ d,
  let data := content (ze_reads e) in
  let failed := ue_fails env (rd_calls d) || negb (readable (ze_reads e)) in
  let kept := if failed then String.substring 0 (ue_partial env (rd_calls d)) data else data in
  let staging := match rd_staging d with
                 | Some t => match append_node p kept t with Ok t => Some t | Err _ => Some t end
                 | None => None
                 end in
  (RunDir (rd_artifacts d) staging (S (rd_calls d)),
   if failed then Err io_failed else Ok (len data)).

(** One turn of the extraction loop, with the bytes so far. *)
Definition unpack_entry (actual : N) (e : option zip_entry) : unpack N :=
  e ← option_expect e (invalid_data "unreadable entry");
  let p := split slash (entry_name e) in
  if ze_is_dir e then _ ← on_staging (λ t, mkdirs t [] p); mret actual
  else
    _ ← on_staging (λ t, mkdirs t [] (removelast p));
    _ ← on_staging (create_node p (TFile "" None));
    copied ← copy_entry p e;
    let actual := saturating_add actual copied in
    _ ← io_reject (MAX_BYTES <? actual) (invalid_data "artifact extracted bytes exceeded client limit");
    _ ← match ze_unix_mode e with
        | Some mode => on_staging (chmod_node p (N.land mode o777))
        | None => mret tt
        end;
    mret actual.

(** A call that changes no file. *)
Definition look {A} (r : result io_error A) : unpack A := λ d,
  (RunDir (rd_artifacts d) (rd_staging d) (S (rd_calls d)),
   if ue_fails env (rd_calls d) then Err io_failed else r).

Definition create_staging : unpack unit := λ d,
  let d' := RunDir (rd_artifacts d) (rd_staging d) (S (rd_calls d)) in
  if ue_fails env (rd_calls d) then (d', Err io_failed)
  else (RunDir (rd_artifacts d) (Some ∅) (S (rd_calls d)), Ok tt).

(** [rename] of the staging directory to [artifacts]. *)
Definition publish_staging : unpack unit := λ d,
  let d' := RunDir (rd_artifacts d) (rd_staging d) (S (rd_calls d)) in
  if ue_fails env (rd_calls d) then (d', Err io_failed)
  else match rd_staging d with
       | Some t => (RunDir (Some t) None (S (rd_calls d)), Ok tt)
       | None => (d', Err (IoError NotFound "No such file or directory"))
       end.

(** [let _ = remove_dir_all(&staging)]; when it fails something is left. *)
Definition remove_staging : unpack unit := λ d,
  (RunDir (rd_artifacts d) (if ue_fails env (rd_calls d) then rd_staging d else None) (S (rd_calls d)), Ok tt).

(** [zip_bytes] is the downloaded file and [archive] what [ZipArchive::new] makes of it. *)
Definition extract_zip_atomic (zip_bytes : list N) (archive : option (list (option zip_entry))) : unpack unit :=
  exists_ ← (λ d, (d, Ok (is_some (rd_artifacts d))));
  _ ← io_reject exists_ (IoError AlreadyExists "artifacts directory already exists");
  _ ← look (map_err (λ e, match e with ScanErr e => e | ScanPanic => IoError OtherKind "panicked" end)
              (reject_duplicate_zip_entries zip_bytes));
  entries ← look (ok_or archive (invalid_data "invalid archive"));
  _ ← io_reject (MAX_FILES <? N.of_nat (length entries)) (invalid_data "artifact entry count exceeded client limit");
  _ ← io_lift (fold_each check_unpacked unpack_start entries);
  _ ← create_staging;
  outcome ← io_try (
    entries ← look (ok_or archive (invalid_data "invalid archive"));
    _ ← io_fold unpack_entry 0 entries;
    publish_staging);
  match outcome with
  | Ok _ => mret tt
  | Err e => _ ← remove_staging; io_fail e
  end.
End unpack.

(** * What the checks accept *)

Definition item_of (e : zip_entry) : item := (e, entry_name e).

Record unpackable (es : list zip_entry) : Prop := {
  up_plain : Forall (λ e, Forall (λ c, plain c ∧ c ≠ "." ∧ c ≠ "..") (split slash (entry_name e))) es;
  up_nodup : NoDup (to_ascii_lowercase ∘ entry_name <$> es);
  up_apart : ∀ e1 e2, e1 ∈ es → e2 ∈ es → ze_is_dir e1 = false →
    to_ascii_lowercase (entry_name e1) ∉ to_ascii_lowercase <$> ancestors_of (entry_name e2);
}.

(** The sets after the entries [es]. *)
Record Unpacked (es : list zip_entry) (s : unpack_check) : Prop := {
  uk_ok : unpackable es;
  uk_folded : ∀ x, x ∈ uc_folded s ↔ x ∈ to_ascii_lowercase ∘ entry_name <$> es;
  uk_files : ∀ e, e ∈ es → ze_is_dir e = false → to_ascii_lowercase (entry_name e) ∈ uc_files s;
  uk_directories : ∀ e a, e ∈ es → a ∈ ancestors_of (entry_name e) → to_ascii_lowercase a ∈ uc_directories s;
}.

Lemma validate_zip_entry_path_Ok name :
  validate_zip_entry_path name = Ok tt → Forall (λ c, plain c ∧ c ≠ "." ∧ c ≠ "..") (split slash name).
Proof.
  unfold validate_zip_entry_path. intros H. unbind H. apply orb_false_iff in E as [_ E].
  apply existsb_false_Forall in E. apply existsb_false_Forall in H. unfold components in H.
  apply Forall_app in H as [_ H]. pose proof (split_no_sep slash name) as Hs. rewrite !Forall_forall in *.
  intros c Hc. specialize (E c Hc). apply orb_false_iff in E as [He Hdot]. breflect.
  split; [split; [by intros ->|by apply Hs]|]. split; [done|]. intros ->.
  specialize (H ParentDir). cbn in H. discriminate H. apply list_elem_of_bind. exists "..". split; [by left|done].
Qed.

Lemma unpack_ancestors_spec comps : ∀ done s s',
  Forall plain done → Forall plain comps →
  unpack_ancestors (join slash done) comps s = Ok s' →
  (∀ q, q ∈ prefixes done comps → to_ascii_lowercase (join slash q) ∉ uc_files s) ∧
  uc_folded s' = uc_folded s ∧ uc_files s' = uc_files s ∧ uc_declared s' = uc_declared s ∧
  (∀ x, x ∈ uc_directories s' ↔
    x ∈ uc_directories s ∨ ∃ q, q ∈ prefixes done comps ∧ x = to_ascii_lowercase (join slash q)).
Proof.
  induction comps as [|c comps IH]; intros dn s s' Hd Hc; cbn [unpack_ancestors prefixes].
  { intros [= <-]. split_and!; try done; set_solver. }
  apply Forall_cons in Hc as [Hc Hcs].
  assert ((if is_empty (join slash dn) then "" else join slash dn +:+ "/") +:+ c =
          join slash (dn ++ [c])) as ->.
  { destruct (decide (dn = [])) as [->|Hne]; [done|]. by rewrite join_nonempty, join_snoc by done. }
  intros Hck. unbind Hck. breflect.
  apply IH in Hck as (H1 & H2 & H3 & H4 & H5); [|by apply Forall_app; split; [|constructor]|done].
  cbn in *. split_and!; try done.
  - intros q [->|Hq]%elem_of_cons; [done|by apply H1].
  - intros x'. rewrite H5. cbn. set_solver.
Qed.

Lemma unpackable_add es s e :
  Unpacked es s →
  Forall (λ c, plain c ∧ c ≠ "." ∧ c ≠ "..") (split slash (entry_name e)) →
  to_ascii_lowercase (entry_name e) ∉ uc_folded s →
  (∀ a, a ∈ ancestors_of (entry_name e) → to_ascii_lowercase a ∉ uc_files s) →
  (ze_is_dir e = false → (to_ascii_lowercase (entry_name e) ∉ uc_directories s) ∧
     to_ascii_lowercase (entry_name e) ∉ (to_ascii_lowercase <$> ancestors_of (entry_name e))) →
  unpackable (es ++ [e]).
Proof.
  intros [[Hp Hn Ha] Hf Hfi Hd] Hpl Hnew Hanc Hfile. split.
  - apply Forall_app. split; [done|by constructor].
  - rewrite fmap_app. apply NoDup_app. split_and!; [done| |apply NoDup_singleton].
    intros x Hx%Hf Hin. cbn in Hin. apply list_elem_of_singleton in Hin as ->. done.
  - intros e1 e2 [H1|H1]%elem_of_app [H2|H2]%elem_of_app Hdir;
      try (apply list_elem_of_singleton in H1 as ->); try (apply list_elem_of_singleton in H2 as ->).
    + by apply Ha.
    + intros (a & Heq & Hin)%list_elem_of_fmap. apply (Hanc a Hin). rewrite <-Heq. by apply Hfi.
    + intros (a & Heq & Hin)%list_elem_of_fmap. destruct (Hfile Hdir) as [Hno _]. apply Hno.
      rewrite Heq. by apply (Hd e2).
    + by destruct (Hfile Hdir).
Qed.

Lemma check_unpacked_spec es s oe s' :
  Unpacked es s → check_unpacked s oe = Ok s' → ∃ e, oe = Some e ∧ Unpacked (es ++ [e]) s'.
Proof.
  intros HU Hrun. pose proof HU as [HK Hfo Hfi Hdi]. destruct oe as [e|]; [|done]. exists e. split; [done|].
  unfold check_unpacked in Hrun. cbn [ok_or] in Hrun. change (Ok e ≫= ?k) with (k e) in Hrun. cbv beta zeta in Hrun.
  set (name := entry_name e) in *. set (lower := to_ascii_lowercase name) in *. unbind Hrun. injection Hrun as <-.
  destruct x. apply validate_zip_entry_path_Ok in E. apply orb_false_iff in E2 as [_ Hnew%bool_decide_eq_false].
  assert (Forall plain (removelast (split slash name))) as Hpl.
  { apply (Forall_impl _ plain) in E; [|by intros c (? & _)]. clear -E.
    induction E as [|c [|c' l] ? ? IH]; [done|done|]. by constructor. }
  apply (unpack_ancestors_spec _ []) in E3 as (H1 & H2 & H3 & H4 & H5); [|done|done]. cbn in H1, H2, H3, H4, H5.
  assert (Hanc : ∀ a, a ∈ ancestors_of name → to_ascii_lowercase a ∉ uc_files s).
  { intros a (q & -> & Hq)%list_elem_of_fmap. by apply H1. }
  assert (Hdirs : ∀ a, a ∈ ancestors_of name → to_ascii_lowercase a ∈ uc_directories x3).
  { intros a (q & -> & Hq)%list_elem_of_fmap. apply H5. eauto. }
  assert (Hx4 : uc_folded x4 = uc_folded x3 ∧ uc_files x3 ⊆ uc_files x4 ∧ uc_directories x3 ⊆ uc_directories x4 ∧
    (ze_is_dir e = false → lower ∈ uc_files x4 ∧ lower ∉ uc_directories x3)).
  { destruct (ze_is_dir e); unbind E4; injection E4 as <-; cbn; breflect; split_and!; try done; set_solver. }
  destruct Hx4 as (F1 & F2 & F3 & F4). split.
  - eapply unpackable_add; [done..|]. intros Hd. destruct (F4 Hd) as [_ Hno].
    split; [intros Hin; apply Hno, H5; by left|]. intros Hin. apply Hno, H5. right. by apply elem_of_ancestors.
  - intros x. rewrite F1, H2, elem_of_union, elem_of_singleton, Hfo, fmap_app, elem_of_app. cbn.
    rewrite list_elem_of_singleton. naive_solver.
  - intros e' [He|He]%elem_of_app Hd; [apply F2; rewrite H3; by apply Hfi|].
    apply list_elem_of_singleton in He as ->. by apply F4.
  - intros e' a [He|He]%elem_of_app Ha; [apply F3, H5; left; by eapply Hdi|].
    apply list_elem_of_singleton in He as ->. by apply F3, Hdirs.
Qed.

(** Archives that pass the checks can be unpacked. *)
Lemma check_unpacked_all entries s :
  fold_each check_unpacked unpack_start entries = Ok s →
  ∃ es, entries = Some <$> es ∧ unpackable es.
Proof.
  intros Hf. apply (fold_each_inv (λ s dn, ∃ es, dn = Some <$> es ∧ Unpacked es s) _) with (done := []) in Hf.
  - destruct Hf as (es & Heq & HU). exists es. split; [exact Heq|]. apply HU.
  - intros s1 dn oe s2 (es & -> & HU) Hrun. destruct (check_unpacked_spec _ _ _ _ HU Hrun) as (e & -> & HU').
    exists (es ++ [e]). split; [by rewrite fmap_app|done].
  - exists []. split; [done|]. split; [split; [constructor|constructor|intros ? ? Hi; by apply not_elem_of_nil in Hi]|..]; set_solver.
Qed.

(** * Unpacking *)

(** An entry as the client creates it: directories keep their default mode, and a
    link cannot be. *)
Definition unpacked_entry (e : zip_entry) : zip_entry := {|
  ze_name := ze_name e; ze_is_dir := ze_is_dir e; ze_is_symlink := false;
  ze_unix_mode := if ze_is_dir e then None else ze_unix_mode e; ze_size := ze_size e; ze_reads := ze_reads e;
|}.
Definition unpacked_items (es : list zip_entry) : list item := (λ e, (unpacked_entry e, entry_name e)) <$> es.

Lemma unpackable_apart es i j :
  unpackable es → i ∈ unpacked_items es → j ∈ unpacked_items es → ze_is_dir i.1 = false →
  ¬ above (comps_of i) (comps_of j).
Proof.
  intros HU (e1 & -> & H1)%list_elem_of_fmap (e2 & -> & H2)%list_elem_of_fmap Hd Hab%above_prefixes.
  apply (up_apart _ HU e1 e2 H1 H2 Hd). apply elem_of_ancestors. eexists. split; [exact Hab|].
  unfold comps_of. by rewrite join_split.
Qed.

Lemma unpackable_distinct es i j a b :
  unpackable es → unpacked_items es !! a = Some i → unpacked_items es !! b = Some j →
  comps_of i = comps_of j → a = b.
Proof.
  intros HU Ha Hb Heq. apply list_lookup_fmap_Some in Ha as (e1 & -> & Ha), Hb as (e2 & -> & Hb).
  apply (f_equal (join slash)) in Heq. unfold comps_of in Heq. cbn [snd] in Heq. rewrite !join_split in Heq.
  eapply (NoDup_lookup _ a b (to_ascii_lowercase (entry_name e1)) (up_nodup _ HU)).
  - by rewrite list_lookup_fmap, Ha.
  - rewrite list_lookup_fmap, Hb. cbn. by rewrite Heq.
Qed.

Section unpacking.
Context (env : unpack_env).

(** No call fails. *)
Definition unpack_calm : Prop := ∀ k, ue_fails env k = false.

Lemma wp_on_staging f d t t' Q :
  rd_staging d = Some t → f t = Ok t' →
  (∀ n, Q (RunDir (rd_artifacts d) (Some t') n) (Ok tt)) →
  (∀ n e, ¬ unpack_calm → Q (RunDir (rd_artifacts d) (Some t) n) (Err e)) →
  wp (on_staging env f) d Q.
Proof.
  intros Hs Hf Hok Hbad. unfold wp, on_staging. rewrite Hs. destruct (ue_fails env (rd_calls d)) eqn:E.
  - apply Hbad. intros Hc. by rewrite Hc in E.
  - rewrite Hf. apply Hok.
Qed.

Lemma wp_looked {A} (r : result io_error A) d Q :
  (∀ n, Q (RunDir (rd_artifacts d) (rd_staging d) n) r) →
  (∀ n e, ¬ unpack_calm → Q (RunDir (rd_artifacts d) (rd_staging d) n) (Err e)) →
  wp (look env r) d Q.
Proof.
  intros Hok Hbad. unfold wp, look. cbn. destruct (ue_fails env (rd_calls d)) eqn:E; [|apply Hok].
  apply Hbad. intros Hc. by rewrite Hc in E.
Qed.

(** The bytes an entry unpacks to, and what it needs to. *)
Definition unpacked_bytes (e : zip_entry) : N := if ze_is_dir e then 0 else len (content (ze_reads e)).
Definition unpack_readable (e : zip_entry) : Prop := ze_is_dir e = false → readable (ze_reads e) = true.

(** The staging directory shows the entries [es], and no more than the limit was
    written. *)
Definition Staged (es : list zip_entry) (artifacts : option tree) (actual : N) (d : run_dir) : Prop :=
  rd_artifacts d = artifacts ∧ actual = sum_of unpacked_bytes es ∧ actual ≤ MAX_BYTES ∧
  ∃ t, rd_staging d = Some t ∧ ∀ c, c ≠ [] → t !! c = described (unpacked_items es) c.

(** A failure leaves [artifacts] alone. *)
Definition unpack_failed (artifacts : option tree) (fits : Prop) (d : run_dir) : Prop :=
  rd_artifacts d = artifacts ∧ is_Some (rd_staging d) ∧ ¬ (unpack_calm ∧ fits).

Section entry.
Context (all dn rest : list zip_entry) (e : zip_entry).
Context (HU : unpackable all) (Hall : all = dn ++ e :: rest).

Abbreviation i := (unpacked_entry e, entry_name e).
Abbreviation p := (split slash (entry_name e)).

Lemma unpack_items_split : unpacked_items all = unpacked_items dn ++ i :: unpacked_items rest.
Proof. unfold unpacked_items. by rewrite Hall, fmap_app. Qed.

Abbreviation here lemma :=
  (lemma (unpacked_items all) (λ i j, unpackable_apart all i j HU) (λ i j a b, unpackable_distinct all i j a b HU)
     (unpacked_items dn) (unpacked_items rest) i unpack_items_split).

Lemma unpacked_snoc : unpacked_items (dn ++ [e]) = unpacked_items dn ++ [i].
Proof. unfold unpacked_items. by rewrite fmap_app. Qed.

Lemma unpack_dir_spec artifacts actual d :
  ze_is_dir e = true → Staged dn artifacts actual d →
  wp (unpack_entry env actual (Some e)) d (λ d' r,
    match r with
    | Ok actual' => Staged (dn ++ [e]) artifacts actual' d'
    | Err _ => unpack_failed artifacts True d'
    end).
Proof.
  intros Hd (Ha & Hsum & Hle & t & Hs & Ht). unfold unpack_entry. apply wp_bind, wp_lift. cbn [ok_or]. rewrite Hd.
  destruct (mkdirs_spec p t []) as (t1 & Hm & Ht1).
  { intros q [->|Hq]%prefixes_self; [| |apply split_ne].
    - rewrite Ht by apply split_ne. destruct (here new_free) as [E|[_ E]]; unfold comps_of in E; cbn [snd] in E; rewrite E; eauto.
    - rewrite Ht by apply Hq. by apply (here above_new). }
  apply wp_bind. eapply wp_on_staging; [done|exact Hm| |].
  - intros n. apply wp_ret. split; [done|]. split; [|split; [done|]].
    { rewrite sum_of_app. cbn. unfold unpacked_bytes at 2. rewrite Hd. lia. }
    exists t1. split; [done|]. rewrite unpacked_snoc. apply (described_new _ (λ i j a b, unpackable_distinct all i j a b HU)
      (unpacked_items dn) (unpacked_items rest) i unpack_items_split t); [done| |].
    + intros c Hc Hne. rewrite Ht1. destruct (t !! c); [done|].
      rewrite (bool_decide_ext (c ∈ prefixes [] p) (above c p)); [done|].
      rewrite prefixes_self by apply split_ne. unfold comps_of in Hne. cbn [snd] in Hne. naive_solver.
    + unfold comps_of. cbn [fst snd]. rewrite Ht1, Ht by apply split_ne. unfold node_of, entry_mode, unpacked_entry. cbn. rewrite Hd. cbn.
      destruct (here new_free) as [E|[_ E]]; unfold comps_of in E; cbn [snd] in E; rewrite E; [|done].
      rewrite bool_decide_eq_true_2; [done|]. apply prefixes_self; [apply split_ne|by left].
  - intros n err Hn. split; [done|]. split; [done|]. by intros [Hc _].
Qed.

Lemma copied_spec d t m Q :
  rd_staging d = Some t → t !! p = Some (TFile "" m) →
  (∀ n, Q (RunDir (rd_artifacts d) (Some (<[p := TFile (content (ze_reads e)) m]> t)) n)
          (Ok (len (content (ze_reads e))))) →
  (∀ n t' err, ¬ (unpack_calm ∧ readable (ze_reads e) = true) → Q (RunDir (rd_artifacts d) (Some t') n) (Err err)) →
  wp (copy_entry env p e) d Q.
Proof.
  intros Hs Hp Hok Hbad. unfold wp, copy_entry. rewrite Hs. unfold append_node. cbn [fst snd].
  destruct (_ || _) eqn:E.
  - apply Hbad. intros [Hc Hr]. by rewrite Hc, Hr in E.
  - replace (alter _ p t) with (<[p := TFile (content (ze_reads e)) m]> t); [apply Hok|].
    apply map_eq. intros c. destruct (decide (p = c)) as [<-|Hne].
    + by rewrite lookup_insert_eq, lookup_alter_eq, Hp.
    + by rewrite lookup_insert_ne, lookup_alter_ne.
Qed.

Lemma unpack_file_spec artifacts actual d :
  ze_is_dir e = false → Staged dn artifacts actual d →
  wp (unpack_entry env actual (Some e)) d (λ d' r,
    match r with
    | Ok actual' => Staged (dn ++ [e]) artifacts actual' d'
    | Err _ => unpack_failed artifacts (readable (ze_reads e) = true ∧ actual + unpacked_bytes e ≤ MAX_BYTES) d'
    end).
Proof.
  intros Hd (Ha & Hsum & Hle & t & Hs & Ht). unfold unpack_entry. apply wp_bind, wp_lift. cbn [ok_or]. rewrite Hd.
  assert (Hb : unpacked_bytes e = len (content (ze_reads e))) by (unfold unpacked_bytes; by rewrite Hd).
  destruct (here mkdirs_above t Ht) as (t1 & Hm & Ht1 & Hw).
  assert (Hfail : ∀ n t' fits, ¬ (unpack_calm ∧ fits) → unpack_failed artifacts fits (RunDir (rd_artifacts d) (Some t') n)).
  { intros n t' fits Hn. split; [done|]. split; [done|]. done. }
  apply wp_bind. eapply wp_on_staging; [done|exact Hm| |by intros; apply Hfail; naive_solver]. intros n1.
  pose proof (here create_new t t1 (TFile "" None) Ht Hd Ht1 Hw) as Hc.
  apply wp_bind. eapply wp_on_staging; [done|exact Hc| |by intros; apply Hfail; naive_solver]. intros n2.
  apply wp_bind. eapply copied_spec; [done|apply lookup_insert_eq| |by intros; apply Hfail; naive_solver]. intros n3.
  cbn [rd_artifacts]. rewrite insert_insert_eq.
  assert (Hsat : saturating_add actual (len (content (ze_reads e))) ≤ MAX_BYTES ↔ actual + unpacked_bytes e ≤ MAX_BYTES).
  { rewrite Hb. by apply saturating_add_le. }
  apply wp_bind, wp_lift. unfold reject_if. destruct (MAX_BYTES <? _) eqn:El.
  { apply Hfail. intros (_ & _ & Hfit). apply N.ltb_lt in El. apply Hsat in Hfit. lia. }
  apply N.ltb_ge in El. apply Hsat in El as El2.
  assert (Hn : saturating_add actual (len (content (ze_reads e))) = actual + unpacked_bytes e).
  { unfold saturating_add in *. rewrite Hb in *. change u64_max with 18446744073709551615 in *.
    change MAX_BYTES with 2147483648 in *. lia. }
  assert (Hdone : ∀ n m, m = entry_mode (unpacked_entry e) →
    Staged (dn ++ [e]) artifacts (actual + unpacked_bytes e)
      (RunDir (rd_artifacts d) (Some (<[comps_of i := TFile (content (ze_reads e)) m]> t1)) n)).
  { intros n m ->. split; [done|]. split; [rewrite sum_of_app, <-Hsum; cbn; lia|]. split; [done|].
    eexists. split; [done|]. rewrite unpacked_snoc.
    apply (described_new _ (λ i j a b, unpackable_distinct all i j a b HU)
      (unpacked_items dn) (unpacked_items rest) i unpack_items_split t); [done| |].
    - intros c _ Hne. rewrite lookup_insert_ne by done. apply Ht1.
    - rewrite lookup_insert_eq. unfold node_of, unpacked_entry. cbn. by rewrite Hd. }
  assert (Hmode : entry_mode (unpacked_entry e) = (λ m, N.land m o777) <$> ze_unix_mode e)
    by (unfold entry_mode, unpacked_entry; cbn; by rewrite Hd).
  rewrite Hn. apply wp_bind. destruct (ze_unix_mode e) as [mode|].
  - eapply (wp_on_staging _ _ _ (<[comps_of i := TFile (content (ze_reads e)) (Some (N.land mode o777))]> t1)); [done| | |].
    + unfold chmod_node. change (comps_of i) with p. rewrite lookup_insert_eq. by rewrite insert_insert_eq.
    + intros n. by apply wp_ret, Hdone.
    + intros. apply Hfail. naive_solver.
  - apply wp_ret, wp_ret. by apply Hdone.
Qed.
End entry.

(** The whole archive. *)
Definition unpack_fits (es : list zip_entry) : Prop :=
  Forall unpack_readable es ∧ sum_of unpacked_bytes es ≤ MAX_BYTES.

Lemma unpack_loop all artifacts rest : unpackable all → ∀ dn actual d,
  all = dn ++ rest → Staged dn artifacts actual d →
  wp (io_fold (unpack_entry env) actual (Some <$> rest)) d (λ d' r,
    match r with
    | Ok actual' => Staged all artifacts actual' d'
    | Err _ => unpack_failed artifacts (unpack_fits all) d'
    end).
Proof.
  intros HU. induction rest as [|e rest IH]; intros dn actual d Hall HS; cbn [fmap list_fmap io_fold].
  { apply wp_ret. by rewrite Hall, app_nil_r. }
  apply wp_bind. assert (Hnext : all = (dn ++ [e]) ++ rest) by by rewrite <-(assoc_L (++)).
  assert (Hsum : actual = sum_of unpacked_bytes dn) by apply HS.
  assert (Hfits : unpack_fits all → unpack_readable e ∧ actual + unpacked_bytes e ≤ MAX_BYTES).
  { intros [Hr Hb]. rewrite Hall in Hr, Hb. apply Forall_app in Hr as [_ [Hr _]%Forall_cons].
    rewrite sum_of_app in Hb. cbn in Hb. split; [done|lia]. }
  destruct (ze_is_dir e) eqn:Hd.
  - eapply wp_mono; [by eapply (unpack_dir_spec all dn rest e)|]. intros d' [actual'|err]; [by apply IH|].
    intros (Ha & Hs & Hn). split; [done|]. split; [done|]. naive_solver.
  - eapply wp_mono; [by eapply (unpack_file_spec all dn rest e)|]. intros d' [actual'|err]; [by apply IH|].
    intros (Ha & Hs & Hn). split; [done|]. split; [done|]. intros [Hc Hf]. apply Hn. split; [done|].
    destruct (Hfits Hf) as [Hr ?]. split; [by apply Hr|done].
Qed.

(** A run directory without artifacts. *)
Definition new_run_dir : run_dir := RunDir None None 0.

(** What the client did when it is done: the whole archive is there, or nothing. *)
Definition unpack_outcome (archive : option (list (option zip_entry))) (d : run_dir) (r : result io_error unit) : Prop :=
  match r with
  | Ok _ => ∃ es t, archive = Some (Some <$> es) ∧ unpackable es ∧ N.of_nat (length es) ≤ MAX_FILES ∧
      sum_of unpacked_bytes es ≤ MAX_BYTES ∧ rd_artifacts d = Some t ∧ rd_staging d = None ∧
      ∀ c, c ≠ [] → t !! c = described (unpacked_items es) c
  | Err _ => rd_artifacts d = None ∧ (unpack_calm → rd_staging d = None)
  end.

(** The archives that are unpacked when no call fails. *)
Definition unpack_accepts (zip_bytes : list N) (archive : option (list (option zip_entry))) : Prop :=
  reject_duplicate_zip_entries zip_bytes = Ok tt ∧
  ∃ es s, archive = Some (Some <$> es) ∧ N.of_nat (length es) ≤ MAX_FILES ∧
    fold_each check_unpacked unpack_start (Some <$> es) = Ok s ∧ unpack_fits es.

Lemma staged_outcome zip_bytes es :
  unpackable es → N.of_nat (length es) ≤ MAX_FILES →
  ∀ d, rd_artifacts d = None → rd_staging d = Some ∅ →
  wp (outcome ← io_try (entries ← look env (ok_or (Some (Some <$> es)) (invalid_data "invalid archive"));
        _ ← io_fold (unpack_entry env) 0 entries; publish_staging env);
      match outcome with Ok _ => mret tt | Err e => _ ← remove_staging env; io_fail e end) d (λ d' r,
    unpack_outcome (Some (Some <$> es)) d' r ∧
    (unpack_calm → unpack_accepts zip_bytes (Some (Some <$> es)) → r = Ok tt)).
Proof.
  intros HU Hlen d Ha Hs. apply wp_bind, wp_try.
  assert (Hbad : ∀ d' e, rd_artifacts d' = None → ¬ (unpack_calm ∧ unpack_fits es) →
    wp (_ ← remove_staging env; io_fail e) d' (λ d' r,
      unpack_outcome (Some (Some <$> es)) d' r ∧
      (unpack_calm → unpack_accepts zip_bytes (Some (Some <$> es)) → r = Ok tt))).
  { intros d' e Ha' Hn. apply wp_bind. unfold remove_staging, wp at 1. cbn [fst snd]. apply wp_fail.
    split; [split; [done|]|].
    - intros Hc. cbn. by rewrite Hc.
    - intros Hc (_ & es' & s & [= Heq] & _ & _ & Hf). destruct Hn. split; [done|].
      enough (es = es') as -> by done. revert Heq. apply list_fmap_eq_inj || apply fmap_inj; congruence. }
  apply wp_bind, wp_looked; [|intros n e Hn; apply Hbad; [done|naive_solver]]. intros n. cbn [ok_or].
  apply wp_bind. eapply wp_mono; [apply (unpack_loop es None es HU []); [done|]|].
  { split; [done|]. split; [done|]. split; [cbn; lia|]. exists ∅. split; [done|]. intros c _. apply lookup_empty. }
  intros d2 [actual|e]; [|intros (Ha2 & _ & Hn); by apply Hbad].
  intros (Ha2 & -> & Hle & t & Hs2 & Ht). unfold publish_staging, wp at 1.
  destruct (ue_fails env (rd_calls d2)) eqn:E; cbn [fst snd].
  { apply Hbad; [done|]. intros [Hc _]. by rewrite Hc in E. }
  rewrite Hs2. apply wp_ret. split; [|done]. by exists es, t.
Qed.
End unpacking.

(** C14: unpacking a downloaded artifact archive is all or nothing.  On success the
    directory [artifacts] holds at every path exactly what the archive has there, a
    file with its content and permission bits or a directory, from entries that neither
    collide nor pass through one another, within the limits; on failure there is no
    [artifacts], and no staging directory either unless a call failed.  And an archive
    within the limits is unpacked when no call fails. *)
Theorem unpacking_is_whole env zip_bytes archive :
  wp (extract_zip_atomic env zip_bytes archive) new_run_dir (λ d r,
    unpack_outcome env archive d r ∧
    (unpack_calm env → unpack_accepts zip_bytes archive → r = Ok tt)).
Proof.
  assert (Hbad : ∀ n (e : io_error), ¬ unpack_calm env ∨ ¬ unpack_accepts zip_bytes archive →
    unpack_outcome env archive (RunDir None None n) (Err e) ∧
    (unpack_calm env → unpack_accepts zip_bytes archive → Err e = Ok tt)).
  { intros n e Hn. split; [done|]. naive_solver. }
  unfold extract_zip_atomic. apply wp_bind, wp_bind, wp_lift. cbn [is_some rd_artifacts new_run_dir reject_if].
  apply wp_bind, wp_looked; [|by intros; apply Hbad; left]. intros n1.
  destruct (reject_duplicate_zip_entries zip_bytes) as [[]|e] eqn:Es; cbn [map_err];
    [|apply Hbad; right; intros [? _]; congruence].
  apply wp_bind, wp_looked; [|by intros; apply Hbad; left]. intros n2.
  destruct archive as [entries|]; cbn [ok_or]; [|apply Hbad; right; by intros (_ & ? & ? & ? & _)].
  apply wp_bind, wp_lift. unfold reject_if. destruct (MAX_FILES <? _) eqn:El.
  { apply Hbad. right. intros (_ & es & s & [= ->] & Hl & _). rewrite length_fmap in El. apply N.ltb_lt in El. lia. }
  apply wp_bind, wp_lift. destruct (fold_each check_unpacked unpack_start entries) as [s|e] eqn:Ec.
  2: { apply Hbad. right. intros (_ & es & s & [= ->] & _ & Hf & _). congruence. }
  destruct (check_unpacked_all _ _ Ec) as (es & -> & HU). apply N.ltb_ge in El. rewrite length_fmap in El.
  apply wp_bind. unfold create_staging, wp at 1. destruct (ue_fails env _) eqn:Ef; cbn [fst snd].
  { apply Hbad. left. intros Hc. by rewrite Hc in Ef. }
  by apply (staged_outcome env zip_bytes es HU).
Qed.

(** * The scan finds every duplicate name *)

(** [u16::to_le_bytes] and [u32::to_le_bytes]. *)
Definition to_le (k : nat) (n : N) : list N := reverse (to_be k n).

Lemma from_to_le k n : n < 256 ^ N.of_nat k → from_le (to_le k n) = n.
Proof. intros Hn. unfold from_le, to_le. rewrite reverse_involutive. by apply from_to_be. Qed.
Lemma to_le_length k n : length (to_le k n) = k.
Proof. unfold to_le. by rewrite length_reverse, to_be_length. Qed.

(** A file header of the central directory. *)
Record central := Central {
  ce_before : list N;
  ce_after : list N;
  ce_name : list N;
  ce_extra : list N;
  ce_comment : list N;
}.

Definition central_header (c : central) : list N :=
  CENTRAL ++ ce_before c ++ to_le 2 (N.of_nat (length (ce_name c))) ++ to_le 2 (N.of_nat (length (ce_extra c))) ++
  to_le 2 (N.of_nat (length (ce_comment c))) ++ ce_after c.
Definition central_bytes (c : central) : list N := central_header c ++ ce_name c ++ ce_extra c ++ ce_comment c.

(** Field widths of the format. *)
Definition well_formed (c : central) : Prop :=
  length (ce_before c) = 24%nat ∧ length (ce_after c) = 12%nat ∧
  N.of_nat (length (ce_name c)) < 65536 ∧ N.of_nat (length (ce_extra c)) < 65536 ∧
  N.of_nat (length (ce_comment c)) < 65536.

(** The end record of a directory of [n] entries, [size] bytes at [offset]. *)
Definition end_record (n size offset : N) : list N :=
  EOCD ++ to_le 2 0 ++ to_le 2 0 ++ to_le 2 n ++ to_le 2 n ++ to_le 4 size ++ to_le 4 offset ++ to_le 2 0.

(** A ZIP file without a comment: the members' data, the directory, the end. *)
Definition zip_file (data : list N) (entries : list central) : list N :=
  let directory := mjoin (central_bytes <$> entries) in
  data ++ directory ++
  end_record (N.of_nat (length entries)) (N.of_nat (length directory)) (N.of_nat (length data)).

Lemma read_at_mid pre mid post n :
  n = N.of_nat (length mid) → read_at (pre ++ mid ++ post) (N.of_nat (length pre)) n = Ok mid.
Proof.
  intros ->. unfold read_at. rewrite !length_app, (proj2 (N.leb_le _ _)) by lia. f_equal.
  apply range_mid; lia.
Qed.

Lemma central_header_length c : well_formed c → length (central_header c) = 46%nat.
Proof. intros (H1 & H2 & _). unfold central_header. rewrite !length_app, !to_le_length, H1, H2. done. Qed.

(** The fields of a header. *)
Lemma central_fields c :
  well_formed c →
  take 4 (central_header c) = CENTRAL ∧
  from_le (range 28 30 (central_header c)) = N.of_nat (length (ce_name c)) ∧
  from_le (range 30 32 (central_header c)) = N.of_nat (length (ce_extra c)) ∧
  from_le (range 32 34 (central_header c)) = N.of_nat (length (ce_comment c)).
Proof.
  intros (H1 & H2 & H3 & H4 & H5). unfold central_header. split; [done|].
  assert (Hr : ∀ a b pre mid post l, l = pre ++ mid ++ post → a = N.of_nat (length pre) →
    b = a + N.of_nat (length mid) → range a b l = mid).
  { intros a b pre mid post l -> -> ->. apply range_mid; lia. }
  split; [|split].
  - rewrite (Hr _ _ (CENTRAL ++ ce_before c) (to_le 2 (N.of_nat (length (ce_name c)))) _ _ (assoc_L _ _ _ _)).
    + by apply from_to_le.
    + by rewrite length_app, H1.
    + by rewrite to_le_length.
  - erewrite (Hr _ _ (CENTRAL ++ ce_before c ++ to_le 2 (N.of_nat (length (ce_name c)))) (to_le 2 (N.of_nat (length (ce_extra c))))).
    + by apply from_to_le.
    + by rewrite <-!(assoc_L (++)).
    + by rewrite !length_app, H1, to_le_length.
    + by rewrite to_le_length.
  - erewrite (Hr _ _ (CENTRAL ++ ce_before c ++ to_le 2 (N.of_nat (length (ce_name c))) ++
      to_le 2 (N.of_nat (length (ce_extra c)))) (to_le 2 (N.of_nat (length (ce_comment c))))).
    + by apply from_to_le.
    + by rewrite <-!(assoc_L (++)).
    + by rewrite !length_app, H1, !to_le_length.
    + by rewrite to_le_length.
Qed.

Definition name_fits (c : central) : Prop :=
  1 ≤ N.of_nat (length (ce_name c)) ∧ N.of_nat (length (ce_name c)) ≤ 4096.
#[export] Instance name_fits_dec c : Decision (name_fits c).
Proof. unfold name_fits. apply _. Defined.

(** One turn of the loop, at a header of the directory. *)
Lemma scan_entry_at pre c post names k :
  well_formed c →
  scan_entry (pre ++ central_bytes c ++ post) (N.of_nat (length pre), names) k =
    if bool_decide (name_fits c ∧ ce_name c ∉ names)
    then Ok (N.of_nat (length (pre ++ central_bytes c)), {[ce_name c]} ∪ names)
    else if bool_decide (name_fits c) then Err (bad_zip "artifact archive contains duplicate paths")
    else Err (bad_zip "artifact ZIP entry name is empty or too long").
Proof.
  intros Hw. pose proof (central_header_length c Hw) as Hh. destruct (central_fields c Hw) as (F0 & F1 & F2 & F3).
  unfold scan_entry, central_bytes.
  rewrite <-(assoc_L (++) (central_header c)), (read_at_mid pre (central_header c)) by by rewrite Hh.
  change (Ok ?x ≫= ?f) with (f x). cbv beta. rewrite F0, F1, F2, F3. rewrite (bool_decide_true (CENTRAL = CENTRAL)) by done.
  cbn [negb]. rewrite reject_if_pass by done.
  set (n := N.of_nat (length (ce_name c))).
  assert (E : (n =? 0) || (4096 <? n) = negb (bool_decide (name_fits c))).
  { unfold name_fits. fold n. destruct (N.eqb_spec n 0), (N.ltb_spec 4096 n); cbn; symmetry;
      first [apply negb_true_iff, bool_decide_eq_false|apply negb_false_iff, bool_decide_eq_true]; lia. }
  rewrite E. destruct (decide (name_fits c)) as [Hf|Hf].
  2: { by rewrite !bool_decide_false by naive_solver. }
  rewrite !(bool_decide_true (name_fits c)) by done. cbn [negb]. rewrite reject_if_pass by done.
  replace (N.of_nat (length pre) + 46) with (N.of_nat (length (pre ++ central_header c)))
    by (rewrite length_app, Hh; lia).
  rewrite (assoc_L (++) pre), <-!(assoc_L (++) (ce_name c)), (read_at_mid (pre ++ central_header c) (ce_name c)) by done.
  change (Ok ?x ≫= ?f) with (f x). cbv beta. destruct (decide (ce_name c ∈ names)) as [Hin|Hin].
  - rewrite (bool_decide_true (ce_name c ∈ names)) by done. by rewrite bool_decide_false by naive_solver.
  - rewrite (bool_decide_false (ce_name c ∈ names)), bool_decide_true by done. rewrite reject_if_pass by done. do 2 f_equal. rewrite !length_app. lia.
Qed.

Lemma scan_entries_ok rest : ∀ pre post names k,
  Forall well_formed rest →
  is_ok (fold_each (scan_entry (pre ++ mjoin (central_bytes <$> rest) ++ post)) (N.of_nat (length pre), names)
           (seq k (length rest))) = true ↔
  Forall name_fits rest ∧ NoDup (ce_name <$> rest) ∧ Forall (λ c, ce_name c ∉ names) rest.
Proof.
  induction rest as [|c rest IH]; intros pre post names k Hw.
  { cbn. split; [|done]. intros _. split; [constructor|]. split; constructor. }
  apply Forall_cons in Hw as [Hc Hw]. cbn [fmap list_fmap length seq]. rewrite fold_each_cons.
  change (mjoin (central_bytes c :: (central_bytes <$> rest))) with (central_bytes c ++ mjoin (central_bytes <$> rest)).
  rewrite <-(assoc_L (++) (central_bytes c)), scan_entry_at by done.
  rewrite !Forall_cons, NoDup_cons. destruct (decide (name_fits c ∧ ce_name c ∉ names)) as [Hok|Hno].
  2: { rewrite (bool_decide_false (name_fits c ∧ _)) by done. split; [by case_bool_decide|naive_solver]. }
  rewrite bool_decide_true by done. change (Ok ?x ≫= ?f) with (f x). cbv beta.
  rewrite (assoc_L (++) pre), IH by done. destruct Hok as [Hf Hn].
  rewrite !Forall_forall, list_elem_of_fmap. setoid_rewrite not_elem_of_union. setoid_rewrite not_elem_of_singleton.
  split.
  - intros (H1 & H2 & H3). split_and!; try done; [|naive_solver].
    intros (y & E & Hy). destruct (H3 y Hy) as [Hne _]. by rewrite E in Hne.
  - intros ((_ & H1) & (H2 & H3) & (_ & H4)). split_and!; try done. intros y Hy. split; [|by apply H4].
    intros E. apply H2. by exists y.
Qed.

Lemma end_record_length n size offset : length (end_record n size offset) = 22%nat.
Proof. unfold end_record. by rewrite !length_app, !to_le_length. Qed.

(** The fields of the end record, where it stands in the tail of the file. *)
Lemma end_fields n size offset :
  n < 65536 → size < 4294967296 → offset < 4294967296 →
  let r := end_record n size offset in
  take 4 r = EOCD ∧ from_le (take 2 (drop 4 r)) = 0 ∧ from_le (take 2 (drop 6 r)) = 0 ∧
  from_le (take 2 (drop 8 r)) = n ∧ from_le (take 2 (drop 10 r)) = n ∧
  from_le (take 4 (drop 12 r)) = size ∧ from_le (take 4 (drop 16 r)) = offset ∧
  from_le (take 2 (drop 20 r)) = 0.
Proof.
  intros Hn Hs Ho r. subst r. unfold end_record.
  assert (Ht : ∀ k x (m : list N), x < 256 ^ N.of_nat k → from_le (take k (to_le k x ++ m)) = x).
  { intros k x m Hx. rewrite take_app_length' by by rewrite to_le_length. by apply from_to_le. }
  assert (Hd : ∀ k x i (m : list N), drop (k + i) (to_le k x ++ m) = drop i m).
  { intros k x i m. rewrite drop_app_ge by (rewrite to_le_length; lia). f_equal. rewrite to_le_length. lia. }
  repeat split.
  - change (drop 8 (EOCD ++ ?l)) with (drop (2 + (2 + 0)) l). rewrite !Hd, drop_0. by apply Ht.
  - change (drop 10 (EOCD ++ ?l)) with (drop (2 + (2 + (2 + 0))) l). rewrite !Hd, drop_0. by apply Ht.
  - change (drop 12 (EOCD ++ ?l)) with (drop (2 + (2 + (2 + (2 + 0)))) l). rewrite !Hd, drop_0. by apply Ht.
  - change (drop 16 (EOCD ++ ?l)) with (drop (2 + (2 + (2 + (2 + (4 + 0))))) l). rewrite !Hd, drop_0. by apply Ht.
Qed.

(** The end record is found where it is. *)
Lemma find_end_record pre n size offset :
  n < 65536 → size < 4294967296 → offset < 4294967296 →
  let tail := pre ++ end_record n size offset in
  find_eocd tail (length tail - 22) = Ok (Some (length pre)).
Proof.
  intros Hn Hs Ho tail. subst tail. rewrite length_app, end_record_length, Nat.add_sub.
  destruct (end_fields n size offset Hn Hs Ho) as (F0 & _ & _ & _ & _ & _ & _ & F7).
  assert (E : is_eocd (pre ++ end_record n size offset) (length pre) = Ok true).
  { unfold is_eocd. rewrite drop_app_length, F0, bool_decide_true by done.
    rewrite length_app, end_record_length, bool_decide_true by lia.
    replace (drop (length pre + 20) (pre ++ end_record n size offset)) with (drop 20 (end_record n size offset))
      by (rewrite drop_app_ge by lia; f_equal; lia).
    rewrite F7. rewrite bool_decide_true; [done|]. cbn. lia. }
  destruct (length pre) as [|k]; cbn [find_eocd]; by rewrite E.
Qed.

Lemma drop_app_add {A} (l k : list A) n : drop (length l + n) (l ++ k) = drop n k.
Proof. rewrite drop_app_ge by lia. f_equal. lia. Qed.

(** The scan of a downloaded archive ([reject_duplicate_zip_entries]) is exact: on
    any ZIP file of the classic format, with any data before the directory and any
    extra fields and comments in it, the scan passes if and only if no two entries of
    the directory have the same name and every name has between 1 and 4096 bytes.  In
    particular it finds the end record, whatever the tail it looks at, and follows the
    directory from entry to entry. *)
Theorem duplicate_names_refused data entries :
  Forall well_formed entries →
  N.of_nat (length entries) < 65535 →
  N.of_nat (length (mjoin (central_bytes <$> entries))) < u32_max →
  N.of_nat (length data) < u32_max →
  reject_duplicate_zip_entries (zip_file data entries) = Ok tt ↔
  Forall name_fits entries ∧ NoDup (ce_name <$> entries).
Proof.
  intros Hw Hn Hs Ho. pose proof (scan_entries_ok entries data (end_record (N.of_nat (length entries))
    (N.of_nat (length (mjoin (central_bytes <$> entries)))) (N.of_nat (length data))) ∅ 0 Hw) as Hscan.
  unfold zip_file. cbv zeta. set (dir := mjoin _) in *.
  set (er := end_record _ _ _) in *. assert (Hl : length er = 22%nat) by apply end_record_length.
  unfold reject_duplicate_zip_entries. cbv zeta.
  set (m := N.of_nat (length (data ++ dir ++ er)) - N.min (N.of_nat (length (data ++ dir ++ er))) 65557).
  assert (Hm : (N.to_nat m ≤ length (data ++ dir))%nat).
  { subst m. rewrite !length_app, Hl. lia. }
  rewrite (assoc_L (++) data dir er), (drop_app_le _ _ (N.to_nat m)) by done. rewrite <-(assoc_L (++) data dir er).
  set (pre := drop (N.to_nat m) (data ++ dir)).
  assert (Hp : m + N.of_nat (length pre) = N.of_nat (length (data ++ dir))).
  { subst pre. rewrite length_drop. lia. }
  unfold u32_max in *. subst er. rewrite find_end_record by (subst dir; lia).
  change (Ok ?x ≫= ?f) with (f x). cbv beta. cbn [ok_or]. change (Ok ?x ≫= ?f) with (f x). cbv beta.
  rewrite !drop_app_add. destruct (end_fields (N.of_nat (length entries)) (N.of_nat (length dir)) (N.of_nat (length data)))
    as (_ & F4 & F6 & F8 & F10 & F12 & F16 & _); [lia..|].
  rewrite F4, F6, F8, F10, F12, F16, Hp, !length_app, !N.eqb_refl.
  rewrite !reject_if_pass.
  - rewrite Nat2N.id. destruct (fold_each _ _ _) as [?|?]; cbn [is_ok] in Hscan.
    + change (Ok ?x ≫= ?f) with (f x). cbv beta. split; [intros _|done]. by destruct (proj1 Hscan eq_refl) as (? & ? & _).
    + split; [done|]. intros [? ?]. exfalso. assert (false = true); [|done]. apply Hscan. split_and!; [done..|].
      apply Forall_forall. set_solver.
  - unfold saturating_add. apply N.ltb_ge. lia.
  - by rewrite !(proj2 (N.eqb_neq _ _)) by lia.
  - done.
Qed.
