(* ===== verification/CliSettings.v ===== *)
(** The client's settings ([bin/indentured.rs]): its configuration file, source
    patterns, endpoint, credential, result root, exit codes, and the changes and
    answers of a source update. *)
From Stdlib Require Import Ascii.
From stdpp Require Import base option strings numbers list gmap sorting pretty.
From S2P Require Import Prelude RustStr Fs Bearer Validation Protocol ClientPackage CliOutput CliStream.

Local Open Scope N_scope.

Definition DEFAULT_SOCKET_PATH : string := "/run/indentured-server/control/server.sock".
Definition CLIENT_CONFIG_DIR : string := ".indentured-server".
Definition CLIENT_CONFIG_FILE : string := "config.toml".
Definition CONNECTION_FALLBACK_EXIT_CODE : N := 222.
Definition ENABLED_ENV : string := "INDENTURED_SERVER_ENABLED".
Definition ENDPOINT_ENV : string := "INDENTURED_SERVER_ENDPOINT".
Definition SOURCES_ENV : string := "INDENTURED_SERVER_SOURCES".
Definition SOURCES_EXCLUDE_ENV : string := "INDENTURED_SERVER_SOURCES_EXCLUDE".
Definition TOKEN_FILE_ENV : string := "INDENTURED_SERVER_TOKEN_FILE".

Record PatternConfig := { pc_include : list string; pc_exclude : list string }.

Record ConnectionConfig := {
  cc_enabled : bool;
  cc_endpoint : option string;
  cc_token_file : option string;
  cc_local_fallback : bool;
}.

Record ClientConfig := {
  cf_sources : PatternConfig;
  cf_connection : option ConnectionConfig;
  cf_output : option OutputConfig;
}.

Inductive Endpoint := EHttp (base : string) | EUnix (path : string).

(** What a process finds around it: the variables of its environment, and a file
    system that does not change while a command looks at it ([sr_open] with
    [O_NOFOLLOW] or without). *)
Record opened_file := {
  op_is_file : bool;
  op_mode : N;
  op_read : result io_error string;
}.

Record Surroundings := {
  sr_var_os : string → option string;
  sr_exists : list component → bool;
  sr_canonicalize : list component → result io_error (list component);
  sr_open : bool → string → result io_error opened_file;
  sr_toml : string → result string ClientConfig;
}.

Section settings.
Context (env : Surroundings).

(** [env::var]. *)
Definition var (name : string) : option string := sr_var_os env name ≫= from_utf8.

(** * The configuration file *)

Definition config_candidate (dir : list component) : list component :=
  dir ++ [Normal CLIENT_CONFIG_DIR; Normal CLIENT_CONFIG_FILE].

(** [dir.pop()] goes through the ancestors. *)
Definition find_client_config_path (start_dir : list component) : option (list component) :=
  find (sr_exists env) (config_candidate <$> ancestors start_dir).

Definition default_config : ClientConfig := {|
  cf_sources := {| pc_include := []; pc_exclude := [] |}; cf_connection := None; cf_output := None |}.

Definition load_client_config (path : option string) : result io_error ClientConfig :=
  match path with
  | None => Ok default_config
  | Some path =>
      file ← sr_open env false path;
      _ ← reject_if (negb (op_is_file file)) (invalid_input "client configuration must be a regular file");
      raw ← op_read file;
      raw ← ok_or (from_utf8 raw) (IoError InvalidData "stream did not contain valid UTF-8");
      map_err (IoError InvalidData) (sr_toml env raw)
  end.

(** * Source patterns *)

Definition comma : ascii := ",".

Definition parse_csv_env_values (name : string) : list string :=
  match var name with
  | None => []
  | Some raw => filter (λ value, is_empty value = false) (trim <$> split comma raw)
  end.

Definition merge_pattern_values (config_values : list string) (env_name : string) (cli_values : list string) :
    list string :=
  config_values ++ parse_csv_env_values env_name ++
  filter (λ value, is_empty value = false) (trim <$> cli_values).

Definition resolve_patterns (config : PatternConfig) (include_env : string) (include_args : list string)
    (exclude_env : string) (exclude_args : list string) : PatternConfig := {|
  pc_include := merge_pattern_values (pc_include config) include_env include_args;
  pc_exclude := merge_pattern_values (pc_exclude config) exclude_env exclude_args;
|}.

(** Its [Display]. *)
Definition validation_error_message (e : ValidationError) : string :=
  match e with
  | CwdNotAbsolute => "cwd must be an absolute path"
  | PathNotRelative field => field +:+ " must be a relative path"
  | PathHasParent field => field +:+ " must not contain parent directory references"
  | EmptyValue field => field +:+ " must not be empty"
  | CwdOutsideRoot cwd root => "cwd " +:+ quoted cwd +:+ " is outside allowed root " +:+ quoted root
  | InvalidPath flag source => "invalid path for " +:+ flag +:+ ": " +:+ io_error_message source
  end.

Definition validate_patterns (patterns : PatternConfig) (label : string) : result ValidationError unit :=
  _ ← for_each (λ pattern, validate_relative_pattern pattern (label +:+ ".include")) (pc_include patterns);
  for_each (λ pattern, validate_relative_pattern pattern (label +:+ ".exclude")) (pc_exclude patterns).

(** * The endpoint *)

Definition parse_endpoint (raw : string) : result io_error Endpoint :=
  let trimmed := trim raw in
  _ ← reject_if (is_empty trimmed) (invalid_input "endpoint must not be empty");
  match (if starts_with "http://" trimmed then strip_prefix "http://" trimmed else strip_prefix "https://" trimmed) with
  | Some after_scheme =>
      _ ← reject_if (all_bytes (byte_eqb slash) after_scheme) (invalid_input "http endpoint must include a host");
      Ok (EHttp (trim_end_matches slash trimmed))
  | None =>
      match strip_prefix "unix://" trimmed with
      | Some path =>
          _ ← reject_if (is_empty path) (invalid_input "unix endpoint must include an absolute path");
          _ ← reject_if (negb (is_absolute path)) (invalid_input "unix endpoint path must be absolute");
          Ok (EUnix path)
      | None => Err (invalid_input "endpoint must start with http://, https://, or unix://")
      end
  end.

(** A value that is given and not blank. *)
Definition given (value : option string) : option string :=
  value ≫= λ v, if is_blank v then None else Some v.

Definition resolve_endpoint (explicit : option string) (config : option ConnectionConfig) (config_loaded : bool) :
    result io_error Endpoint :=
  match given explicit with
  | Some endpoint => parse_endpoint endpoint
  | None =>
      match given (var ENDPOINT_ENV) with
      | Some endpoint => parse_endpoint endpoint
      | None =>
          match given (config ≫= cc_endpoint) with
          | Some endpoint => parse_endpoint endpoint
          | None =>
              if config_loaded then parse_endpoint ("unix://" +:+ DEFAULT_SOCKET_PATH)
              else Err (invalid_input
                "endpoint must be provided via --endpoint, INDENTURED_SERVER_ENDPOINT, or client config")
          end
      end
  end.

Definition endpoint_authority (endpoint : Endpoint) : string :=
  match endpoint with EHttp base => base | EUnix path => "unix://" +:+ path end.

(** * The credential *)

Definition selected_token_path (explicit : option string) (config : option ConnectionConfig) : option string :=
  match explicit with
  | Some path => Some path
  | None => match sr_var_os env TOKEN_FILE_ENV with Some path => Some path | None => config ≫= cc_token_file end
  end.

Definition runtime_path (path : string) : bool :=
  is_absolute path &&
  (path_starts_with path "/run" || path_starts_with path "/var/run" || path_starts_with path "/private/var/run").

Definition resolve_token (explicit : option string) (config : option ConnectionConfig) :
    result io_error (option string) :=
  match selected_token_path explicit config with
  | None => Ok None
  | Some path =>
      _ ← reject_if (negb (runtime_path path) || path_starts_with path "/nix/store")
        (invalid_input "credential path must be an absolute runtime path outside the Nix store");
      file ← sr_open env true path;
      _ ← reject_if (negb (op_is_file file) || mode_has (op_mode file) o077)
        (IoError PermissionDenied "credential file must be regular with no group/other permissions");
      all ← op_read file;
      let raw := String.substring 0 4097 all in
      _ ← reject_if (MAX_BEARER_TOKEN_FILE_BYTES <? len raw)
        (IoError InvalidData "credential file exceeds 4096 bytes");
      token ← map_err (λ _, IoError InvalidData "credential file must contain one RFC 6750 b64token line") (parse_file raw);
      Ok (Some token)
  end.

Definition resolve_connection_enabled (config : option ConnectionConfig) : bool :=
  match var ENABLED_ENV with
  | Some raw => negb (bool_decide (to_ascii_lowercase (trim raw) ∈ [""; "0"; "false"; "no"; "off"]))
  | None => from_option cc_enabled true config
  end.

(** * The result root *)

Definition resolve_result_root_from (explicit xdg_state_home home : option string) : result io_error string :=
  match explicit, xdg_state_home with
  | Some path, _ =>
      _ ← reject_if (negb (is_absolute path)) (invalid_input "--result-root must be absolute");
      Ok path
  | None, Some path =>
      _ ← reject_if (negb (is_absolute path)) (invalid_input "XDG_STATE_HOME must be absolute");
      Ok (path_join path "indentured/runs")
  | None, None =>
      home ← ok_or home (IoError NotFound "HOME or XDG_STATE_HOME is required for run results");
      _ ← reject_if (negb (is_absolute home)) (invalid_input "HOME must be absolute");
      Ok (path_join home ".local/state/indentured/runs")
  end.

Definition resolve_result_root (explicit : option string) : result io_error string :=
  resolve_result_root_from explicit (sr_var_os env "XDG_STATE_HOME") (sr_var_os env "HOME").

Definition no_ancestor : io_error := invalid_input "result root has no existing ancestor".

(** The loop up to an ancestor that exists: the ancestor, and the names below it,
    the last one first.  Every turn is one component higher. *)
Fixpoint existing_ancestor (fuel : nat) (cursor : list component) (missing : list string) :
    result io_error (list component * list string) :=
  if sr_exists env cursor then Ok (cursor, missing)
  else
    name ← ok_or (RustStr.file_name cursor) no_ancestor;
    up ← ok_or (parent cursor) no_ancestor;
    match fuel with
    | O => Err no_ancestor
    | S fuel => existing_ancestor fuel up (missing ++ [name])
    end.

Definition canonicalize_intended (path : list component) : result io_error (list component) :=
  if sr_exists env path then sr_canonicalize env path
  else
    '(cursor, missing) ← existing_ancestor (length path) path [];
    resolved ← sr_canonicalize env cursor;
    Ok (resolved ++ (Normal <$> reverse missing)).

(** [Path::starts_with] on components. *)
Definition beneath (p base : list component) : bool := bool_decide (take (length base) p = base).

Definition reject_overlap (source results : list component) : result io_error unit :=
  source ← sr_canonicalize env source;
  results ← canonicalize_intended results;
  reject_if (bool_decide (source = results) || beneath source results || beneath results source)
    (invalid_input "result root must not equal, contain, or be contained by the submitted source root").

Definition reject_credential_overlap (credential source_root result_base : list component) : result io_error unit :=
  credential ← sr_canonicalize env credential;
  source_root ← sr_canonicalize env source_root;
  result_base ← sr_canonicalize env result_base;
  reject_if (beneath credential source_root || beneath credential result_base)
    (invalid_input "credential file must be outside source and the configured result-root base").

Definition reject_credential_result_overlap (credential result_base : list component) : result io_error unit :=
  credential ← sr_canonicalize env credential;
  result_base ← canonicalize_intended result_base;
  reject_if (beneath credential result_base)
    (invalid_input "credential file must be outside the configured result-root base").
End settings.

(** * Exit codes *)

Definition connection_failure_exit_code (local_fallback : bool) : N :=
  if local_fallback then CONNECTION_FALLBACK_EXIT_CODE else 1.

(** The code of an [i32] as a [u8]. *)
Definition normalize_exit_code (code : Z) : N :=
  if (code <? 0)%Z then 1 else if (255 <? code)%Z then 255 else Z.to_N code.

Definition normalize_requested_exit (code : Z) (timed_out : bool) : N :=
  if timed_out then 124 else normalize_exit_code code.

(** * Sending *)

(** [reqwest::Error]: its two questions, and the kinds of the I/O errors among its
    sources. *)
Inductive source_kind := ConnectionRefused | ConnectionAborted | NotConnected | AddrNotAvailable | Kind (kind : io_kind).

Record send_error := {
  sd_is_connect : bool;
  sd_is_timeout : bool;
  sd_sources : list (option source_kind);
  sd_message : string;
}.

Definition unreachable_kind (kind : source_kind) : bool :=
  match kind with
  | ConnectionRefused | ConnectionAborted | NotConnected | AddrNotAvailable => true
  | Kind kind => bool_decide (kind ∈ [ConnectionReset; TimedOut; NotFound; PermissionDenied])
  end.

Definition is_connection_failure (err : send_error) : bool :=
  sd_is_connect err || sd_is_timeout err || existsb (from_option unreachable_kind false) (sd_sources err).

(** A request: of its body, the metadata part of an update. *)
Record http_request := {
  hr_method : string;
  hr_socket : option string;
  hr_url : string;
  hr_bearer : option string;
  hr_metadata : option string;
}.

(** A response: its status, its text, and the polls of its body. *)
Record reply := { rp_status : N; rp_text : string; rp_body : list body_poll }.

Definition is_success (status : N) : bool := (200 <=? status) && (status <? 300).

(** [session_http_client] and the request it builds: the credential only goes to an
    HTTP endpoint. *)
Definition session_request (method : string) (endpoint : Endpoint) (path : string) (token : option string) :
    http_request :=
  match endpoint with
  | EHttp base => {| hr_method := method; hr_socket := None; hr_url := base +:+ path; hr_bearer := token;
                     hr_metadata := None |}
  | EUnix socket =>
      {| hr_method := method; hr_socket := Some socket; hr_url := "http://localhost" +:+ path; hr_bearer := None;
         hr_metadata := None |}
  end.

Definition with_metadata (metadata : string) (r : http_request) : http_request :=
  {| hr_method := hr_method r; hr_socket := hr_socket r; hr_url := hr_url r; hr_bearer := hr_bearer r;
     hr_metadata := Some metadata |}.

Definition send_failed (what : string) (err : send_error) : BuildError :=
  if is_connection_failure err then ConnectionFailed ("cannot reach endpoint: " +:+ sd_message err)
  else Other (what +:+ sd_message err).

(** [is_char_boundary], and the loop down to one. *)
Definition is_char_boundary (value : string) (index : nat) : bool :=
  match String.get index value with
  | Some byte => negb (continuation byte)
  | None => bool_decide (index = String.length value)
  end.

Fixpoint char_boundary (value : string) (index : nat) : nat :=
  if is_char_boundary value index then index
  else match index with O => O | S index => char_boundary value index end.

Definition truncate_utf8 (value : string) (max_bytes : N) : string :=
  String.substring 0 (char_boundary value (Nat.min (String.length value) (N.to_nat max_bytes))) value.

(** [str::contains]. *)
Fixpoint contains (needle value : string) : bool :=
  starts_with needle value || match value with EmptyString => false | String _ value => contains needle value end.

Definition busy_message : string := "session is busy or terminating; retry after the active operation completes".

(** The conflict an update's answer names. *)
Definition conflict_message (conflict : option json) : string :=
  let get key := ((conflict ≫= as_object) ≫= field key) ≫= as_str in
  match get "error", get "current_revision" with
  | Some "revision_conflict", Some current =>
      "base revision is stale; current_revision=" +:+ current +:+ "; retry with that revision and a new request ID"
  | Some "request_conflict", _ => "request ID was already used with different metadata or source bytes"
  | _, _ => busy_message
  end.

Section errors.
Context (status_str : N → string) `{Serde}.

Definition http_error_detail (status : N) (operation body : string) : string :=
  let update := bool_decide (operation = "update") in
  if bool_decide (status ∈ [401; 403]) then "authentication failed; verify the existing bearer credential"
  else if status =? 404 then
    if bool_decide (operation = "start") then "server does not support managed sessions; upgrade indentured-server"
    else if update then "session is missing, expired, or does not support source updates"
    else "session is missing or expired"
  else if (status =? 400) && update then "server rejected update metadata or source"
  else if status =? 408 then operation +:+ " timed out"
  else if (status =? 413) && update then "update exceeds the server source-update limits"
  else if status =? 409 then if update then conflict_message (result_ok (from_slice body)) else busy_message
  else if status =? 503 then
    if contains "busy" body then "server capacity is busy; stop an existing session or retry later"
    else "managed sessions are unavailable on this server"
  else if (status =? 500) && update then "server failed to apply the update"
  else "server returned " +:+ status_str status.

Definition session_http_error (response : reply) (operation : string) : BuildError :=
  let body := truncate_utf8 (rp_text response) 4096 in
  let detail := http_error_detail (rp_status response) operation body in
  let message := if is_empty body then detail else detail +:+ ": " +:+ body in
  if rp_status response =? 408 then RemoteTimedOut message else Other message.
End errors.

(** * The changes of an update *)

Definition check_update_argument (sets : gset string * gset string) (path : string) :
    result io_error (gset string * gset string) :=
  let '(exact, folded) := sets in
  _ ← map_err (λ e, invalid_input (request_error_message e)) (validate_update_path path 64);
  _ ← reject_if (bool_decide (path ∈ exact) || bool_decide (to_ascii_lowercase path ∈ folded))
    (invalid_input "update contains duplicate, case-colliding, or cross-list paths");
  Ok ({[path]} ∪ exact, {[to_ascii_lowercase path]} ∪ folded).

Definition validate_update_changes (files deletes : list string) : result io_error (list string * list string) :=
  _ ← reject_if (bool_decide (files = []) && bool_decide (deletes = []))
    (invalid_input "at least one --file or --delete is required");
  _ ← fold_each check_update_argument (∅, ∅) (files ++ deletes);
  Ok (sort_paths files, sort_paths deletes).

(** [changes.sort_by(|a, b| a.path().as_bytes().cmp(b.path().as_bytes()))]. *)
Definition change_le (a b : SessionUpdateChange) : Prop := path_le_bytes (change_path a) (change_path b).
#[export] Instance change_le_dec : RelDecision change_le.
Proof.
  intros a b. unfold change_le, path_le_bytes. destruct (String.compare _ _); [left|left|right]; congruence.
Defined.

Definition update_changes (changed : list SessionUpdateEvidence) (deletes : list string) : list SessionUpdateChange :=
  merge_sort change_le (((λ e, File (ev_path e) (ev_sha256 e)) <$> changed) ++ (Delete <$> deletes)).

(** * The answer to an update *)

#[export] Instance update_evidence_eq_dec : EqDecision SessionUpdateEvidence.
Proof. solve_decision. Defined.

Definition deleted_path (change : SessionUpdateChange) : option string :=
  match change with Delete path => Some path | File _ _ => None end.

Definition validate_update_response (response : SessionUpdateResponse) (request : SessionUpdateRequest)
    (expected_changed : list SessionUpdateEvidence) : result io_error unit :=
  _ ← reject_if
    (negb (valid_action_id (ur_update_id response)) ||
     negb (bool_decide (ur_request_id response = su_request_id request)) ||
     negb (bool_decide (ur_base_revision response = su_base_revision request)) ||
     is_none (parse_revision (ur_workspace_revision response)) ||
     negb (bool_decide (ur_changed response = expected_changed)))
    (IoError InvalidData "update response had inconsistent identity, revision, or changed-file evidence");
  let expected_deleted := omap deleted_path (su_changes request) in
  reject_if
    (negb (bool_decide (length (ur_deleted response) = length expected_deleted)) ||
     existsb (λ '(actual, expected_path),
       negb (bool_decide (ev_path actual = expected_path)) || negb (valid_sha256_hex (ev_sha256 actual)))
       (zip (ur_deleted response) expected_deleted))
    (IoError InvalidData "update response had inconsistent delete evidence").

(** * Artifacts *)

Definition artifact_restrictions_notice (restrictions : ArtifactRestrictions) : string :=
  let file_label := if omitted_count restrictions =? 1 then "file was" else "files were" in
  OUTPUT_PREFIX +:+ " " +:+ pretty (omitted_count restrictions) +:+ " requested artifact " +:+ file_label +:+
  " omitted by server artifact restrictions" +:+
  (if bool_decide (matched_patterns restrictions = []) then ""
   else ": " +:+ String.concat ", " (matched_patterns restrictions)).

Definition build_artifact_url (base path : string) : string :=
  if starts_with "http://" path || starts_with "https://" path then path
  else if starts_with "/" path then base +:+ path
  else base +:+ "/" +:+ path.

(** * The server accepts what the client checked *)

Lemma check_change_pass max_depth c exact folded :
  safe_update_path max_depth (change_path c) → (∀ p h, c = File p h → valid_sha256_hex h = true) →
  change_path c ∉ exact → to_ascii_lowercase (change_path c) ∉ folded →
  check_change max_depth (exact, folded) c =
    Ok ({[change_path c]} ∪ exact, {[to_ascii_lowercase (change_path c)]} ∪ folded).
Proof.
  intros Hc Hh H1 H2. unfold check_change. cbv zeta.
  rewrite (proj2 (validate_update_path_Ok _ _ tt) Hc). change (Ok ?x ≫= ?f) with (f x). cbv beta.
  rewrite reject_if_pass by by rewrite !bool_decide_false.
  destruct c as [p h|p]; [|done]. by rewrite (Hh p h).
Qed.

Lemma check_changes_pass max_depth changes : ∀ exact folded,
  Forall (λ c, safe_update_path max_depth (change_path c)) changes →
  (∀ p h, File p h ∈ changes → valid_sha256_hex h = true) →
  NoDup ((to_ascii_lowercase ∘ change_path) <$> changes) →
  Forall (λ c, (change_path c ∉ exact) ∧ to_ascii_lowercase (change_path c) ∉ folded) changes →
  is_ok (fold_each (check_change max_depth) (exact, folded) changes) = true.
Proof.
  induction changes as [|c changes IH]; intros exact folded Hs Hh Hn Hf; [done|].
  apply Forall_cons in Hs as [Hc Hs]. apply NoDup_cons in Hn as [Hc' Hn]. apply Forall_cons in Hf as [[H1 H2] Hf].
  rewrite fold_each_cons, check_change_pass; [|done| |done..].
  2: { intros p h ->. apply (Hh p h). by left. }
  change (Ok ?x ≫= ?f) with (f x). cbv beta. apply IH; [done| |done|].
  - intros p h ?. apply (Hh p h). by right.
  - apply Forall_forall. intros d Hd. rewrite Forall_forall in Hf. destruct (Hf d Hd) as [H3 H4].
    rewrite !not_elem_of_union, !not_elem_of_singleton. split_and!; try done.
    + intros E'. apply Hc'. apply list_elem_of_fmap. exists d. cbn. by rewrite E'.
    + intros E'. apply Hc'. apply list_elem_of_fmap. by exists d.
Qed.

(** The client's check of a path is the server's check of its deletion. *)
Lemma check_arguments_changes paths : ∀ sets sets',
  fold_each check_update_argument sets paths = Ok sets' →
  fold_each (check_change 64) sets (Delete <$> paths) = Ok sets'.
Proof.
  induction paths as [|p paths IH]; intros [exact folded] sets' Hf; [by injection Hf as <-|].
  change (Delete <$> (p :: paths)) with (Delete p :: (Delete <$> paths)). rewrite fold_each_cons in Hf. rewrite fold_each_cons. apply bind_Ok in Hf as (s & Hp & Hf).
  unfold check_update_argument in Hp. apply bind_Ok in Hp as ([] & Hv%map_err_Ok & Hp).
  apply bind_Ok in Hp as ([] & Hr%reject_if_Ok & [= <-]).
  rewrite orb_false_iff, !bool_decide_eq_false in Hr. destruct Hr.
  rewrite check_change_pass; [|by apply validate_update_path_Ok in Hv|by intros|done..]. by apply IH.
Qed.

Lemma validate_update_changes_Ok files deletes fs ds :
  validate_update_changes files deletes = Ok (fs, ds) →
  fs ≡ₚ files ∧ ds ≡ₚ deletes ∧ fs ++ ds ≠ [] ∧
  Forall (safe_update_path 64) (fs ++ ds) ∧ NoDup (to_ascii_lowercase <$> (fs ++ ds)).
Proof.
  unfold validate_update_changes. intros ([] & Hne%reject_if_Ok & H)%bind_Ok.
  apply bind_Ok in H as ([ex fo] & Hf%check_arguments_changes & [= <- <-]).
  apply check_changes_inv in Hf as (Hs & Hn & _).
  assert (Hs' : ∀ l, sort_paths l ≡ₚ l) by (intros l; apply merge_sort_Permutation).
  assert (Hp : sort_paths files ++ sort_paths deletes ≡ₚ files ++ deletes) by by rewrite !Hs'.
  split_and!; [apply Hs'..| | |].
  - intros E. rewrite E in Hp. apply Permutation_nil_l in Hp. symmetry in Hp. by apply app_eq_nil in Hp as [-> ->].
  - rewrite Hp. by rewrite Forall_fmap in Hs.
  - rewrite Hp. by rewrite <-list_fmap_compose in Hn.
Qed.

(** The number of components of a path, which the server limits. *)
Definition path_depth (path : string) : N := N.of_nat (length (split slash path)).

(** Arguments that pass [validate_update_changes], with files packaged under their
    names and with SHA-256 digests, give metadata that the server's parser accepts
    exactly when its limits allow their number and depths. *)
Lemma update_metadata_parses `{Serde} files deletes fs ds changed data value request max_files max_depth :
  validate_update_changes files deletes = Ok (fs, ds) →
  ev_path <$> changed ≡ₚ fs → Forall (λ e, valid_sha256_hex (ev_sha256 e) = true) changed →
  from_slice data = Ok value → schema_version_of value = Ok SESSION_UPDATE_SCHEMA_VERSION →
  decode_session_update value = Ok request →
  su_changes request = update_changes changed ds →
  valid_request_id (su_request_id request) = true → is_some (parse_revision (su_base_revision request)) = true →
  parse_session_update_metadata data max_files max_depth = Ok request ↔
  N.of_nat (length files + length deletes) ≤ max_files ∧
  Forall (λ p, path_depth p ≤ max_depth) (files ++ deletes).
Proof.
  intros Hv Hc Hh E1 E2 E3 Hch Hid Hrev.
  destruct (validate_update_changes_Ok _ _ _ _ Hv) as (Hpf & Hpd & Hne & Hsafe & Hnd).
  assert (Hp : su_changes request ≡ₚ ((λ e, File (ev_path e) (ev_sha256 e)) <$> changed) ++ (Delete <$> ds)).
  { rewrite Hch. apply merge_sort_Permutation. }
  assert (Hpaths : change_path <$> su_changes request ≡ₚ fs ++ ds).
  { rewrite Hp, fmap_app, <-Hc, <-list_fmap_compose. apply Permutation_app; [done|].
    by rewrite <-list_fmap_compose, list_fmap_id. }
  assert (Hlen : length (su_changes request) = (length files + length deletes)%nat).
  { rewrite <-(length_fmap change_path), Hpaths, length_app. by rewrite (Permutation_length Hpf), (Permutation_length Hpd). }
  unfold parse_session_update_metadata. rewrite E1. cbn [map_err]. change (Ok ?x ≫= ?f) with (f x). cbv beta.
  rewrite E2. change (Ok ?x ≫= ?f) with (f x). cbv beta. rewrite reject_if_pass by by rewrite bool_decide_true.
  rewrite E3. cbn [map_err]. change (Ok ?x ≫= ?f) with (f x). cbv beta.
  apply is_ok_true in Hid as [[] Hid]. rewrite Hid. cbn [map_err]. change (Ok ?x ≫= ?f) with (f x). cbv beta.
  destruct (parse_revision _); [|done]. cbn [ok_or]. change (Ok ?x ≫= ?f) with (f x). cbv beta.
  rewrite reject_if_pass. 2: { apply bool_decide_eq_false. intros E. rewrite E in Hpaths. by apply Permutation_nil_l in Hpaths. }
  assert (Hfd : files ++ deletes ≡ₚ change_path <$> su_changes request) by by rewrite Hpaths, Hpf, Hpd.
  rewrite Hlen, Hfd, Forall_fmap. split.
  - intros H'. apply bind_Ok in H' as ([] & Hmax%reject_if_Ok%N.ltb_ge & ([ex fo] & Hf & _)%bind_Ok).
    split; [done|]. apply check_changes_inv in Hf as (Hs & _). eapply Forall_impl; [exact Hs|].
    intros c (_ & _ & _ & _ & ? & _). done.
  - intros [Hmax Hdep]. rewrite reject_if_pass by by apply N.ltb_ge. change (Ok ?x ≫= ?f) with (f x). cbv beta.
    assert (is_ok (fold_each (check_change max_depth) (∅, ∅) (su_changes request)) = true) as Hok.
    2: { by destruct (fold_each _ _ _). }
    apply check_changes_pass.
    + rewrite Forall_forall in Hdep |- *. intros c Hin.
      assert (change_path c ∈ fs ++ ds) as Hin' by (rewrite <-Hpaths; by apply list_elem_of_fmap_2).
      rewrite Forall_forall in Hsafe. destruct (Hsafe _ Hin') as (? & ? & ? & ? & ? & ?).
      split_and!; try done. by apply Hdep.
    + intros p h Hin. rewrite Hp in Hin.
      apply elem_of_app in Hin as [(ev & [= -> ->] & He)%list_elem_of_fmap|(ev & ? & _)%list_elem_of_fmap]; [|done].
      rewrite Forall_forall in Hh. auto.
    + rewrite list_fmap_compose, Hpaths. done.
    + apply Forall_forall. intros c _. split; apply not_elem_of_empty.
Qed.
