(* ===== verification/CliSession.v ===== *)
(** The client's session commands ([bin/indentured.rs]): the interruption they watch
    for, the evidence they keep of themselves on disk, the requests they send, and the
    four commands. *)
From Stdlib Require Import Ascii.
From stdpp Require Import base option strings numbers list gmap pretty.
From S2P Require Import Prelude Effects RustStr Fs Protocol ClientSource Archive CliArchive CliOutput CliStream CliSettings.

Local Open Scope N_scope.

(** * Evidence *)

(** [SessionProvenance], its fields in four groups beside those fixed at the start. *)
Record Lifecycle := {
  lf_status : string;
  lf_finished_at : option string;
  lf_cleanup_status : option string;
  lf_errors : list string;
}.

Record Identities := {
  is_session_id : option string;
  is_action : option string;
  is_action_id : option string;
  is_request_id : option string;
  is_base_revision : option string;
  is_workspace_revision : option string;
  is_update_id : option string;
}.

Record Submitted := {
  sb_endpoint_authority : option string;
  sb_metadata_sha256 : option string;
  sb_changed : list SessionUpdateEvidence;
  sb_deleted : list SessionUpdateEvidence;
  sb_requested_deletes : list string;
  sb_source : option SourceIdentity;
}.

Record Remote := {
  re_exit_code : option Z;
  re_timed_out : option bool;
  re_phases : list PhaseResult;
  re_teardown : option SessionTeardownResult;
  re_artifact_restrictions : option ArtifactRestrictions;
}.

Record SessionProvenance := {
  pv_schema_version : N;
  pv_invocation_id : string;
  pv_operation : string;
  pv_result_path : string;
  pv_started_at : string;
  pv_life : Lifecycle;
  pv_ids : Identities;
  pv_submitted : Submitted;
  pv_remote : Remote;
}.

Definition on_life (f : Lifecycle → Lifecycle) (p : SessionProvenance) : SessionProvenance := {|
  pv_schema_version := pv_schema_version p; pv_invocation_id := pv_invocation_id p; pv_operation := pv_operation p;
  pv_result_path := pv_result_path p; pv_started_at := pv_started_at p;
  pv_life := f (pv_life p); pv_ids := pv_ids p; pv_submitted := pv_submitted p; pv_remote := pv_remote p |}.
Definition on_ids (f : Identities → Identities) (p : SessionProvenance) : SessionProvenance := {|
  pv_schema_version := pv_schema_version p; pv_invocation_id := pv_invocation_id p; pv_operation := pv_operation p;
  pv_result_path := pv_result_path p; pv_started_at := pv_started_at p;
  pv_life := pv_life p; pv_ids := f (pv_ids p); pv_submitted := pv_submitted p; pv_remote := pv_remote p |}.
Definition on_submitted (f : Submitted → Submitted) (p : SessionProvenance) : SessionProvenance := {|
  pv_schema_version := pv_schema_version p; pv_invocation_id := pv_invocation_id p; pv_operation := pv_operation p;
  pv_result_path := pv_result_path p; pv_started_at := pv_started_at p;
  pv_life := pv_life p; pv_ids := pv_ids p; pv_submitted := f (pv_submitted p); pv_remote := pv_remote p |}.
Definition on_remote (f : Remote → Remote) (p : SessionProvenance) : SessionProvenance := {|
  pv_schema_version := pv_schema_version p; pv_invocation_id := pv_invocation_id p; pv_operation := pv_operation p;
  pv_result_path := pv_result_path p; pv_started_at := pv_started_at p;
  pv_life := pv_life p; pv_ids := pv_ids p; pv_submitted := pv_submitted p; pv_remote := f (pv_remote p) |}.

Definition with_status (status : string) : SessionProvenance → SessionProvenance := on_life (λ l, {|
  lf_status := status; lf_finished_at := lf_finished_at l; lf_cleanup_status := lf_cleanup_status l;
  lf_errors := lf_errors l |}).
Definition with_finished (status now : string) : SessionProvenance → SessionProvenance := on_life (λ l, {|
  lf_status := status; lf_finished_at := Some now; lf_cleanup_status := lf_cleanup_status l;
  lf_errors := lf_errors l |}).
Definition with_cleanup (status : string) : SessionProvenance → SessionProvenance := on_life (λ l, {|
  lf_status := lf_status l; lf_finished_at := lf_finished_at l; lf_cleanup_status := Some status;
  lf_errors := lf_errors l |}).

(** At most 32 errors, each of at most 4096 bytes. *)
Definition with_error (message : string) : SessionProvenance → SessionProvenance := on_life (λ l, {|
  lf_status := lf_status l; lf_finished_at := lf_finished_at l; lf_cleanup_status := lf_cleanup_status l;
  lf_errors := if (length (lf_errors l) <? 32)%nat then lf_errors l ++ [truncate_utf8 message 4096]
               else lf_errors l |}).

Definition with_session_id (id : string) : SessionProvenance → SessionProvenance := on_ids (λ i, {|
  is_session_id := Some id; is_action := is_action i; is_action_id := is_action_id i;
  is_request_id := is_request_id i; is_base_revision := is_base_revision i;
  is_workspace_revision := is_workspace_revision i; is_update_id := is_update_id i |}).
Definition with_action_id (id : string) : SessionProvenance → SessionProvenance := on_ids (λ i, {|
  is_session_id := is_session_id i; is_action := is_action i; is_action_id := Some id;
  is_request_id := is_request_id i; is_base_revision := is_base_revision i;
  is_workspace_revision := is_workspace_revision i; is_update_id := is_update_id i |}).
Definition with_request (id base : string) : SessionProvenance → SessionProvenance := on_ids (λ i, {|
  is_session_id := is_session_id i; is_action := is_action i; is_action_id := is_action_id i;
  is_request_id := Some id; is_base_revision := Some base;
  is_workspace_revision := is_workspace_revision i; is_update_id := is_update_id i |}).
Definition with_update (id revision : string) : SessionProvenance → SessionProvenance := on_ids (λ i, {|
  is_session_id := is_session_id i; is_action := is_action i; is_action_id := is_action_id i;
  is_request_id := is_request_id i; is_base_revision := is_base_revision i;
  is_workspace_revision := Some revision; is_update_id := Some id |}).

Definition with_source (identity : SourceIdentity) : SessionProvenance → SessionProvenance := on_submitted (λ s, {|
  sb_endpoint_authority := sb_endpoint_authority s; sb_metadata_sha256 := sb_metadata_sha256 s;
  sb_changed := sb_changed s; sb_deleted := sb_deleted s; sb_requested_deletes := sb_requested_deletes s;
  sb_source := Some identity |}).
Definition with_requested_deletes (deletes : list string) : SessionProvenance → SessionProvenance := on_submitted (λ s, {|
  sb_endpoint_authority := sb_endpoint_authority s; sb_metadata_sha256 := sb_metadata_sha256 s;
  sb_changed := sb_changed s; sb_deleted := sb_deleted s; sb_requested_deletes := deletes;
  sb_source := sb_source s |}).
Definition with_authority (authority : string) : SessionProvenance → SessionProvenance := on_submitted (λ s, {|
  sb_endpoint_authority := Some authority; sb_metadata_sha256 := sb_metadata_sha256 s;
  sb_changed := sb_changed s; sb_deleted := sb_deleted s; sb_requested_deletes := sb_requested_deletes s;
  sb_source := sb_source s |}).
Definition with_metadata_sha256 (digest : string) : SessionProvenance → SessionProvenance := on_submitted (λ s, {|
  sb_endpoint_authority := sb_endpoint_authority s; sb_metadata_sha256 := Some digest;
  sb_changed := sb_changed s; sb_deleted := sb_deleted s; sb_requested_deletes := sb_requested_deletes s;
  sb_source := sb_source s |}).
Definition with_changes (changed deleted : list SessionUpdateEvidence) : SessionProvenance → SessionProvenance :=
  on_submitted (λ s, {|
    sb_endpoint_authority := sb_endpoint_authority s; sb_metadata_sha256 := sb_metadata_sha256 s;
    sb_changed := changed; sb_deleted := deleted; sb_requested_deletes := sb_requested_deletes s;
    sb_source := sb_source s |}).

Definition with_outcome (code : option Z) (timed_out : bool) : SessionProvenance → SessionProvenance := on_remote (λ r, {|
  re_exit_code := code; re_timed_out := Some timed_out; re_phases := re_phases r;
  re_teardown := re_teardown r; re_artifact_restrictions := re_artifact_restrictions r |}).
Definition with_phases (phases : list PhaseResult) : SessionProvenance → SessionProvenance := on_remote (λ r, {|
  re_exit_code := re_exit_code r; re_timed_out := re_timed_out r; re_phases := phases;
  re_teardown := re_teardown r; re_artifact_restrictions := re_artifact_restrictions r |}).
Definition with_teardown (teardown : SessionTeardownResult) : SessionProvenance → SessionProvenance := on_remote (λ r, {|
  re_exit_code := re_exit_code r; re_timed_out := re_timed_out r; re_phases := re_phases r;
  re_teardown := Some teardown; re_artifact_restrictions := re_artifact_restrictions r |}).
Definition with_restrictions (restrictions : option ArtifactRestrictions) : SessionProvenance → SessionProvenance :=
  on_remote (λ r, {|
    re_exit_code := re_exit_code r; re_timed_out := re_timed_out r; re_phases := re_phases r;
    re_teardown := re_teardown r; re_artifact_restrictions := restrictions |}).
Definition with_timed_out (timed_out : bool) : SessionProvenance → SessionProvenance := on_remote (λ r, {|
  re_exit_code := re_exit_code r; re_timed_out := Some timed_out; re_phases := re_phases r;
  re_teardown := re_teardown r; re_artifact_restrictions := re_artifact_restrictions r |}).

Record SessionEvidence := {
  se_base : list component;
  se_directory : string;
  se_provenance : SessionProvenance;
  se_persistence_failure : option string;
}.

(** * The world of a command *)

Inductive InterruptState := InterruptPending | Triggered | Completed | Unavailable.

#[export] Instance interrupt_eq_dec : EqDecision InterruptState.
Proof. solve_decision. Defined.

Record Client := MkClient {
  cw_term : Term;
  cw_evidence : SessionEvidence;
  cw_disk : option SessionProvenance;
  cw_run : run_dir;
  cw_interrupt : InterruptState;
  cw_sent : list http_request;
  cw_tick : nat;
}.

(** How a command ends before its last line: with an exit code, or as a future ends. *)
Inductive ended := Exit (code : N) | Died (how : stopped).

(** What happens to a command, call after call: the terminal's faults, the signal
    ([Some true] once it has come, [Some false] when it cannot be awaited), the file
    system under the evidence, the clock, the HTTP client and the answers to its
    requests, standard output when it is polled and written without blocking, and how
    often a task is woken before the work it waits for is done, if it ever is. *)
Record Fate := {
  ft_faults : nat → Sink → fault;
  ft_signal : nat → option bool;
  ft_fs : nat → option io_error;
  ft_now : nat → string;
  ft_uuid : string;
  ft_join : string;
  ft_client : nat → option string;
  ft_reply : nat → http_request → send_error + reply;
  ft_writable : nat → result io_error bool;
  ft_written : nat → result io_error nat;
  ft_wakes : nat → nat * bool;
  ft_rounds : list nat;
  ft_unpack : unpack_env;
  ft_zip : list N → option (list (option zip_entry));
}.

(** The derived encoders. *)
Class RequestCodec := {
  build_request_to_string : Request → result string string;
  start_request_to_string : SessionStartRequest → result string string;
  update_request_to_vec : SessionUpdateRequest → result string string;
  action_request_to_vec : SessionActionRequest → result string string;
  manifest_to_vec : SourceManifest → result string string;
  stop_response : string → result string SessionStopResponse;
  update_response : string → result string SessionUpdateResponse;
  status_display : N → string;
  sha256_hex : string → string;
}.

(** A worker's result: its thread may have panicked. *)
Inductive joined_work (A : Type) := JoinFailed (message : string) | Finished (r : result io_error A).
Arguments JoinFailed {A}.
Arguments Finished {A}.

(** Packaging: its result, and what comes within seven seconds of its cancellation. *)
Record Work (A : Type) := { wk_result : joined_work A; wk_cancelled : option (joined_work A) }.
Arguments wk_result {A}.
Arguments wk_cancelled {A}.

(** How the loop around a response ends. *)
Inductive Controlled (A : Type) := CtlCompleted (a : A) | CtlInterrupted | CtlProvenance (err : io_error).
Arguments CtlCompleted {A}.
Arguments CtlInterrupted {A}.
Arguments CtlProvenance {A}.

Section commands.
Context {codec : EventCodec} {requests : RequestCodec} {serde : Serde} (env : Surroundings) (fate : Fate).

Definition cmd (A : Type) : Type := eff Client ended A.

Definition bind_cmd {A B} (m : cmd A) (k : A → cmd B) : cmd B := m ≫= k.

Definition next (w : Client) : Client :=
  MkClient (cw_term w) (cw_evidence w) (cw_disk w) (cw_run w) (cw_interrupt w) (cw_sent w) (S (cw_tick w)).

Definition set_term (t : Term) (w : Client) : Client :=
  MkClient t (cw_evidence w) (cw_disk w) (cw_run w) (cw_interrupt w) (cw_sent w) (cw_tick w).
Definition set_evidence (e : SessionEvidence) (w : Client) : Client :=
  MkClient (cw_term w) e (cw_disk w) (cw_run w) (cw_interrupt w) (cw_sent w) (cw_tick w).
Definition set_disk (d : option SessionProvenance) (w : Client) : Client :=
  MkClient (cw_term w) (cw_evidence w) d (cw_run w) (cw_interrupt w) (cw_sent w) (cw_tick w).
Definition set_run (d : run_dir) (w : Client) : Client :=
  MkClient (cw_term w) (cw_evidence w) (cw_disk w) d (cw_interrupt w) (cw_sent w) (cw_tick w).
Definition set_interrupt (s : InterruptState) (w : Client) : Client :=
  MkClient (cw_term w) (cw_evidence w) (cw_disk w) (cw_run w) s (cw_sent w) (cw_tick w).
Definition add_sent (r : http_request) (w : Client) : Client :=
  MkClient (cw_term w) (cw_evidence w) (cw_disk w) (cw_run w) (cw_interrupt w) (cw_sent w ++ [r]) (cw_tick w).

Definition provenance (w : Client) : SessionProvenance := se_provenance (cw_evidence w).

Definition with_provenance (f : SessionProvenance → SessionProvenance) (w : Client) : Client :=
  set_evidence {| se_base := se_base (cw_evidence w); se_directory := se_directory (cw_evidence w);
                  se_provenance := f (provenance w);
                  se_persistence_failure := se_persistence_failure (cw_evidence w) |} w.

Definition get {E A} (f : Client → A) : eff Client E A := λ w, (w, Ok (f w)).
Definition change_to {E} (f : Client → Client) : eff Client E unit := λ w, (f w, Ok tt).
Definition edit {E} (f : SessionProvenance → SessionProvenance) : eff Client E unit := λ w, (with_provenance f w, Ok tt).

Definition leave {A} (code : N) : cmd A := io_fail (Exit code).

Definition on_terminal {E A} (m : eff Term E A) : eff Client E A := λ w,
  let '(t, r) := m (cw_term w) in (set_term t w, r).

Definition say (message : string) : cmd unit := io_map_err Died (on_terminal (eprintln (ft_faults fate) message)).

(** [let _ = ..]. *)
Definition ignore {E F A} (m : eff Client E A) : eff Client F unit := _ ← io_try m; mret tt.

(** ** The interruption *)

Definition poll_pending {E} : eff Client E bool := λ w,
  match cw_interrupt w with
  | Triggered => (w, Ok true)
  | InterruptPending =>
      match ft_signal fate (cw_tick w) with
      | None => (next w, Ok false)
      | Some true => (set_interrupt Triggered (next w), Ok true)
      | Some false => (set_interrupt Unavailable (next w), Ok false)
      end
  | _ => (w, Ok false)
  end.

Definition complete {E} : eff Client E bool := λ w,
  match cw_interrupt w with
  | InterruptPending | Unavailable => (set_interrupt Completed w, Ok true)
  | _ => (w, Ok false)
  end.

Definition claim_completion {E} : eff Client E bool :=
  triggered ← poll_pending;
  if triggered : bool then mret false else complete.

(** [select! { biased; _ = interrupt.interrupted() => .., _ = work => .. }]: polled, the
    interruption is [poll_pending]; the work is done after a number of wakes, or never. *)
Fixpoint wakes (n : nat) (completes : bool) : cmd bool :=
  triggered ← poll_pending;
  if triggered : bool then mret true
  else match n with
       | O => if completes then mret false else io_fail (Died Pending)
       | S n => wakes n completes
       end.

Definition interrupted_first : cmd bool := λ w,
  let '(n, completes) := ft_wakes fate (cw_tick w) in wakes n completes (next w).

(** ** The evidence on disk *)

(** A temporary file, renamed: the file is replaced or stays as it is. *)
Definition write_provenance : eff Client io_error unit := λ w,
  match ft_fs fate (cw_tick w) with
  | None => (set_disk (Some (provenance w)) (next w), Ok tt)
  | Some e => (next w, Err e)
  end.

Definition persistence_message (err : io_error) : string := "provenance persistence failed: " +:+ io_error_message err.

(** [persistence_failure.get_or_insert(..)]. *)
Definition note_failure {E} (err : io_error) : eff Client E unit := λ w,
  let e := cw_evidence w in
  (set_evidence {| se_base := se_base e; se_directory := se_directory e; se_provenance := se_provenance e;
                   se_persistence_failure :=
                     Some (default (persistence_message err) (se_persistence_failure e)) |} w, Ok tt).

Definition persist : eff Client io_error unit :=
  r ← io_try write_provenance;
  match r with
  | Ok _ => mret tt
  | Err err => _ ← note_failure err; io_fail err
  end.

Definition set_status (status : string) : eff Client io_error unit := _ ← edit (with_status status); persist.
Definition set_session_id (id : string) : eff Client io_error unit := _ ← edit (with_session_id id); persist.
Definition set_action_id (id : string) : eff Client io_error unit := _ ← edit (with_action_id id); persist.
Definition set_cleanup_status (status : string) : eff Client io_error unit := _ ← edit (with_cleanup status); persist.
Definition finish (status : string) : eff Client io_error unit :=
  now ← get (λ w, ft_now fate (cw_tick w));
  _ ← edit (with_finished status now);
  persist.
Definition error (message : string) : eff Client io_error unit := _ ← edit (with_error message); persist.

(** ** Exits *)

Definition evidence_exit {A} (requested : N) : cmd A :=
  failure ← get (λ w, se_persistence_failure (cw_evidence w));
  match failure with
  | Some message => _ ← say (OUTPUT_PREFIX +:+ " " +:+ message); leave 1
  | None => leave requested
  end.

Definition provenance_failure {A} (err : io_error) : cmd A := _ ← note_failure err; evidence_exit 1.

Definition finish_session_failure {A} (message : string) (connection_failure : bool) : cmd A :=
  _ ← ignore (error message);
  _ ← ignore (finish "failed");
  _ ← say message;
  evidence_exit (if connection_failure then CONNECTION_FALLBACK_EXIT_CODE else 1).

Definition finish_early_interrupted {A} (message : string) : cmd A :=
  p ← get provenance;
  _ ← (if bool_decide (pv_operation p = "start") && is_none (is_session_id (pv_ids p))
       then ignore (set_cleanup_status "not attempted: session ID unavailable") else mret tt);
  _ ← ignore (error message);
  _ ← ignore (finish "interrupted");
  _ ← say (OUTPUT_PREFIX +:+ " " +:+ message);
  evidence_exit 130.

Definition finish_remote_session_error {A} (err : BuildError) (connection : option ConnectionConfig) : cmd A :=
  let message := build_error_message err in
  _ ← (match err with RemoteTimedOut _ => edit (with_timed_out true) | _ => mret tt end);
  _ ← ignore (error message);
  _ ← ignore (finish "failed");
  _ ← say ("session request failed: " +:+ message);
  evidence_exit (match err with
                 | ConnectionFailed _ => connection_failure_exit_code (from_option cc_local_fallback false connection)
                 | RemoteTimedOut _ => 124
                 | Other _ => 1
                 end).

(** The worker that writes the failure is waited for, interrupted or not; what it
    said and wrote has happened in either case. *)
Definition finish_session_failure_elected {A} (message : string) (connection_failure : bool) : cmd A := λ w,
  match finish_session_failure (A := A) message connection_failure w with
  | (w, Err (Exit code)) =>
      bind_cmd interrupted_first (λ triggered : bool,
        if triggered then finish_early_interrupted "interrupted while finalizing session failure" else leave code) w
  | (w, _) =>
      bind_cmd (say ("session failure provenance worker failed: " +:+ ft_join fate)) (λ _, leave 1) w
  end.

(** ** Stopping a session *)

Definition send {E} (request : http_request) : eff Client E (send_error + reply) := λ w,
  (add_sent request (next w), Ok (ft_reply fate (cw_tick w) request)).

(** [Client::builder().build()]. *)
Definition client_built : eff Client string unit := λ w,
  (next w, match ft_client fate (cw_tick w) with Some err => Err err | None => Ok tt end).
Definition new_client : eff Client BuildError unit :=
  io_map_err (λ err, Other ("failed to create client: " +:+ err)) client_built.

(** What the client makes of an answer that is not a stream. *)
Definition answered {A} (operation : string) (decode : string → result string A) (answer : send_error + reply) :
    result BuildError A :=
  match answer with
  | inl err => Err (send_failed ("session " +:+ operation +:+ " failed: ") err)
  | inr response =>
      if is_success (rp_status response)
      then map_err (λ err, Other ("invalid " +:+ operation +:+ " response: " +:+ err)) (decode (rp_text response))
      else Err (session_http_error status_display response operation)
  end.

Definition request_session_stop (session_id : string) (endpoint : Endpoint) (token : option string) :
    eff Client BuildError SessionStopResponse :=
  _ ← new_client;
  answer ← send (session_request "DELETE" endpoint ("/v1/sessions/" +:+ session_id) token);
  io_lift (answered "stop" stop_response answer).

Definition stop_result (session_id : string) (stopped : result BuildError SessionStopResponse) : string :=
  match stopped with
  | Ok response =>
      let teardown := sp_teardown response in
      if negb (bool_decide (sp_session_id response = session_id)) then
        "failed: stop response session identity mismatch (expected " +:+ session_id +:+ ", got " +:+
        sp_session_id response +:+ ")"
      else if td_timed_out teardown then "failed: teardown timed out"
      else match td_error_code teardown with
           | Some code => "failed: teardown " +:+ code
           | None =>
               if bool_decide (td_exit_code teardown = Some 0%Z) then "succeeded"
               else "failed: teardown exit code " +:+ from_option pretty "missing" (td_exit_code teardown)
           end
  | Err err => "failed: " +:+ build_error_message err
  end.

(** The request has ten seconds. *)
Definition best_effort_stop {E} (session_id : string) (endpoint : Endpoint) (token : option string) :
    eff Client E string :=
  in_time ← get (λ w, (ft_wakes fate (cw_tick w)).2);
  stopped ← io_try (request_session_stop session_id endpoint token);
  mret (if in_time : bool then stop_result session_id stopped else "failed: stop request timed out").

Definition record_best_effort_stop (session_id : string) (endpoint : Endpoint) (token : option string) : cmd string :=
  cleanup ← best_effort_stop session_id endpoint token;
  _ ← ignore (set_cleanup_status cleanup);
  _ ← (if starts_with "failed:" cleanup then ignore (error ("best-effort stop " +:+ cleanup)) else mret tt);
  mret cleanup.

Definition finish_interrupted_session {A} (session_id : string) (endpoint : Endpoint) (token : option string)
    (message : string) : cmd A :=
  cleanup ← record_best_effort_stop session_id endpoint token;
  _ ← ignore (finish "interrupted");
  _ ← say (OUTPUT_PREFIX +:+ " " +:+ message +:+ "; best-effort stop: " +:+ cleanup);
  evidence_exit 130.

(** ** The last steps of a command *)

(** [finish_evidence_controlled]: the evidence is written in either case; [None] when
    the interruption came first. *)
Definition finish_evidence_controlled (status : string) : cmd (option (result io_error unit)) :=
  written ← io_try (finish status);
  triggered ← interrupted_first;
  mret (if triggered : bool then None else Some written).

(** [NonblockingStdout]. *)
Definition write_atomic (bytes : string) : eff Client io_error unit := λ w,
  match ft_written fate (cw_tick w) with
  | Err e => (next w, Err e)
  | Ok n =>
      (set_term (put StdoutFd (String.substring 0 n bytes) (cw_term w)) (next w),
       if (String.length bytes <=? n)%nat then Ok tt else Err (IoError WriteZero "partial session ID output"))
  end.

(** One call of the operating system that may fail. *)
Definition fs_call : eff Client io_error unit := λ w,
  (next w, match ft_fs fate (cw_tick w) with Some e => Err e | None => Ok tt end).

Definition is_writable : eff Client io_error bool := λ w, (next w, ft_writable fate (cw_tick w)).

(** [None]: interrupted; the turns end when standard output becomes writable. *)
Definition emit_now (bytes : string) : cmd (option (result io_error unit)) :=
  claimed ← claim_completion;
  if claimed : bool then written ← io_try (write_atomic bytes); mret (Some written) else mret None.

Fixpoint emit_turns (turns : nat) (bytes : string) : cmd (option (result io_error unit)) :=
  triggered ← poll_pending;
  if triggered : bool then mret None
  else
    writable ← io_try is_writable;
    match writable with
    | Err e => mret (Some (Err e))
    | Ok true => emit_now bytes
    | Ok false =>
        triggered ← interrupted_first;
        if triggered : bool then mret None
        else
          ready ← io_try fs_call;
          match ready, turns with
          | Err e, _ => mret (Some (Err e))
          | Ok _, O => io_fail (Died Pending)
          | Ok _, S turns => emit_turns turns bytes
          end
    end.

Definition emit_session_id_controlled (session_id : string) : cmd (option (result io_error unit)) :=
  opened ← io_try fs_call;
  match opened with
  | Err e => mret (Some (Err e))
  | Ok _ =>
      let bytes := session_id +:+ newline in
      triggered ← poll_pending;
      if triggered : bool then mret None
      else
        writable ← io_try is_writable;
        match writable with
        | Err e => mret (Some (Err e))
        | Ok true => emit_now bytes
        | Ok false =>
            registered ← io_try fs_call;
            match registered with
            | Err e => triggered ← poll_pending; mret (if triggered : bool then None else Some (Err e))
            | Ok _ => turns ← get (λ w, (ft_wakes fate (cw_tick w)).1); emit_turns turns bytes
            end
        end
  end.

(** ** Starting the evidence *)

(** The string of a canonical path. *)
Definition render (path : list component) : string :=
  String slash (join slash (omap (λ c, match c with Normal name => Some name | _ => None end) path)).

(** A log file that must be new. *)
Definition create_log (path : string) : eff Client io_error unit := λ w,
  if is_some (tm_files (cw_term w) !! path) then (next w, Err (IoError AlreadyExists "File exists"))
  else match fs_call w with
       | (w, Ok _) =>
           let t := cw_term w in
           (set_term (MkTerm (tm_out t) (tm_err t) (<[path := ""]> (tm_files t)) (tm_observed t) (tm_tick t)) w, Ok tt)
       | (w, Err e) => (w, Err e)
       end.

Definition new_provenance (operation : string) (session_id action : option string) (invocation_id directory now : string) :
    SessionProvenance := {|
  pv_schema_version := 1; pv_invocation_id := invocation_id; pv_operation := operation;
  pv_result_path := directory; pv_started_at := now;
  pv_life := {| lf_status := "preparing"; lf_finished_at := None; lf_cleanup_status := None; lf_errors := [] |};
  pv_ids := {| is_session_id := session_id; is_action := action; is_action_id := None; is_request_id := None;
               is_base_revision := None; is_workspace_revision := None; is_update_id := None |};
  pv_submitted := {| sb_endpoint_authority := None; sb_metadata_sha256 := None; sb_changed := []; sb_deleted := [];
                     sb_requested_deletes := []; sb_source := None |};
  pv_remote := {| re_exit_code := None; re_timed_out := None; re_phases := []; re_teardown := None;
                  re_artifact_restrictions := None |} |}.

(** The results directory and its log files, new; the surroundings after
    [create_dir_all] are [after]. *)
Definition make_directory (after : Surroundings) (explicit_root : option string) (source_root : option (list component)) :
    eff Client io_error (list component * string) :=
  requested_base ← io_lift (resolve_result_root env explicit_root);
  let requested_base := components requested_base in
  _ ← match source_root with
      | Some source_root =>
          intended_base ← io_lift (canonicalize_intended env requested_base);
          io_lift (reject_overlap env source_root intended_base)
      | None => mret tt
      end;
  _ ← fs_call;
  base ← io_lift (sr_canonicalize after requested_base);
  _ ← match source_root with
      | Some source_root => io_lift (reject_overlap after source_root base)
      | None => mret tt
      end;
  let directory := path_join (render base) (ft_uuid fate) in
  _ ← fs_call;
  _ ← create_log (path_join directory "stdout.log");
  _ ← create_log (path_join directory "stderr.log");
  mret (base, directory).

Definition make_evidence (after : Surroundings) (operation : string) (session_id action explicit_root : option string)
    (source_root : option (list component)) : eff Client io_error unit :=
  '(base, directory) ← make_directory after explicit_root source_root;
  now ← get (λ w, ft_now fate (cw_tick w));
  _ ← change_to (set_evidence {| se_base := base; se_directory := directory;
         se_provenance := new_provenance operation session_id action (ft_uuid fate) directory now;
         se_persistence_failure := None |});
  write_provenance.

(** The directory is announced once it is there. *)
Definition create_evidence (after : Surroundings) (operation : string) (session_id action explicit_root : option string)
    (source_root : option (list component)) : cmd (result io_error unit) :=
  made ← io_try (make_evidence after operation session_id action explicit_root source_root);
  match made with
  | Err err => mret (Err err)
  | Ok _ =>
      directory ← get (λ w, se_directory (cw_evidence w));
      _ ← say (OUTPUT_PREFIX +:+ " results: " +:+ directory);
      mret (Ok tt)
  end.

(** ** Preparing a request *)

Record CommandContext := {
  cx_endpoint_arg : option string;
  cx_token_file_arg : option string;
  cx_config : ClientConfig;
  cx_config_loaded : bool;
}.

Definition or_fail {E A} (message : E → string) (r : result E A) : cmd A :=
  match r with Ok a => mret a | Err e => finish_session_failure (message e) false end.

Definition or_provenance_failure (m : eff Client io_error unit) : cmd unit :=
  r ← io_try m;
  match r with Ok _ => mret tt | Err err => provenance_failure err end.

Definition leave_if_interrupted (message : string) : cmd unit :=
  triggered ← poll_pending;
  if triggered : bool then finish_early_interrupted message else mret tt.

(** The credential file, if there is one, is apart from what the command touches. *)
Definition check_credential (cx : CommandContext) (apart : list component → result io_error unit) : cmd unit :=
  match selected_token_path env (cx_token_file_arg cx) (cf_connection (cx_config cx)) with
  | Some path =>
      if sr_exists env (components path) then or_fail io_error_message (apart (components path)) else mret tt
  | None => mret tt
  end.

Definition the_endpoint (cx : CommandContext) : cmd Endpoint :=
  or_fail io_error_message (resolve_endpoint env (cx_endpoint_arg cx) (cf_connection (cx_config cx)) (cx_config_loaded cx)).

Definition the_token (cx : CommandContext) : cmd (option string) :=
  or_fail (λ err, "failed to load bearer credential: " +:+ io_error_message err)
    (resolve_token env (cx_token_file_arg cx) (cf_connection (cx_config cx))).

Definition the_limits (cx : CommandContext) : cmd OutputLimits :=
  directory ← get (λ w, se_directory (cw_evidence w));
  or_fail io_error_message (resolve_output_limits (var env) (cf_output (cx_config cx)) directory).

Definition cancelled_note {A} (cancelled : option (joined_work A)) : option string :=
  match cancelled with
  | Some (Finished (Err err)) =>
      if negb (bool_decide (io_error_kind err = Interrupted)) || contains "cleanup" (io_error_message err)
      then Some ("source cleanup after interruption failed: " +:+ io_error_message err) else None
  | Some (JoinFailed message) => Some ("source cleanup worker failed after interruption: " +:+ message)
  | None => Some "source cleanup did not finish within 7 seconds after interruption"
  | Some (Finished (Ok _)) => None
  end.

Definition packaged {A} (work : Work A) (interrupted failed worker_failed : string) : cmd A :=
  triggered ← interrupted_first;
  if triggered : bool then
    _ ← match cancelled_note (wk_cancelled work) with Some note => ignore (error note) | None => mret tt end;
    finish_early_interrupted interrupted
  else match wk_result work with
       | Finished (Ok package) => mret package
       | Finished (Err err) => finish_session_failure (failed +:+ io_error_message err) false
       | JoinFailed message => finish_session_failure (worker_failed +:+ message) false
       end.

Definition MAX_MANIFEST_BYTES : N := 16777216.

Definition write_manifest (manifest : SourceManifest) : eff Client io_error unit :=
  data ← io_lift (map_err (IoError OtherKind) (manifest_to_vec manifest));
  _ ← io_reject (MAX_MANIFEST_BYTES <? len data) (IoError InvalidData "source manifest exceeds 16 MiB");
  fs_call.

(** ** Watching a response *)

(** A response as far as [polls] go: it has been answered after the first, its text is
    there after the second, and its body is read poll by poll. *)
Definition streamed {A} (operation : string) (answer : send_error + reply)
    (read : list body_poll → eff Term stopped A) (polls : nat) : eff Term stopped A :=
  match polls, answer with
  | O, _ => io_fail Pending
  | S _, inl err => io_fail (Failed (send_failed ("session " +:+ operation +:+ " failed: ") err))
  | S more, inr response =>
      if is_success (rp_status response) then read (take more (rp_body response))
      else match more with
           | O => io_fail Pending
           | S _ => io_fail (Failed (session_http_error status_display response operation))
           end
  end.

Section control.
Context {A : Type} (set_id : string → eff Client io_error unit) (remote : nat → eff Term stopped A) (t0 : Term).

(** The response from its start: a poll goes on where the last one stopped. *)
Definition poll_remote (polls : nat) : cmd (result stopped A) := λ w,
  let '(t, r) := remote polls t0 in (set_term t w, Ok r).

(** The loop around [select!], an element of [rounds] for every turn: the interruption,
    then the next identifier of the channel, then the response, which is polled further
    by the element.  [received] identifiers have been taken and [seen] is the first. *)
Fixpoint control (rounds : list nat) (polls received : nat) (seen : option string) :
    cmd (Controlled (result BuildError A) * nat * option string) :=
  match rounds with
  | [] => io_fail (Died Pending)
  | round :: rounds =>
      triggered ← poll_pending;
      if triggered : bool then mret (CtlInterrupted, received, seen)
      else
        waiting ← get (λ w, tm_observed (cw_term w) !! received);
        match waiting, seen with
        | Some _, Some _ => control rounds polls (S received) seen
        | Some id, None =>
            r ← io_try (set_id id);
            match r with
            | Ok _ => control rounds polls (S received) (Some id)
            | Err err => mret (CtlProvenance err, S received, Some id)
            end
        | None, _ =>
            let polls := (polls + round)%nat in
            result ← poll_remote polls;
            match result with
            | Ok a => mret (CtlCompleted (Ok a), received, seen)
            | Err (Failed err) => mret (CtlCompleted (Err err), received, seen)
            | Err Panicked => io_fail (Died Panicked)
            | Err Pending => control rounds polls received seen
            end
        end
  end.
End control.

(** A fresh channel. *)
Definition open_channel : cmd unit := λ w,
  let t := cw_term w in (set_term (MkTerm (tm_out t) (tm_err t) (tm_files t) [] (tm_tick t)) w, Ok tt).

(** [while let Ok(id) = receiver.try_recv()]: the first identifier is taken, if none was. *)
Definition remaining (received : nat) (seen : option string) : cmd (option string) :=
  waiting ← get (λ w, tm_observed (cw_term w) !! received);
  mret (match seen with Some _ => None | None => waiting end).

(** ** [session start] *)

Record SessionStartArgs := {
  sg_source : list string;
  sg_source_exclude : list string;
  sg_request_id : option string;
  sg_result_root : option string;
  sg_task : string;
}.

(** The patterns, in the order the command checks them. *)
Definition the_patterns (args : SessionStartArgs) (cx : CommandContext) : cmd PatternConfig :=
  let patterns := resolve_patterns env (cf_sources (cx_config cx)) SOURCES_ENV (sg_source args)
                    SOURCES_EXCLUDE_ENV (sg_source_exclude args) in
  _ ← or_fail validation_error_message (validate_patterns patterns "sources");
  mret patterns.

(** What [run_session_start] does before it waits for anything. *)
Definition start_request (request : SessionStartRequest) : eff Client BuildError unit :=
  _ ← new_client;
  _ ← io_lift (map_err (λ err, Other ("failed to serialize request: " +:+ err)) (start_request_to_string request));
  io_map_err (λ err, Other ("failed to inspect source archive: " +:+ io_error_message err)) fs_call.

Definition open_archive (what : string) : eff Client BuildError unit :=
  io_map_err (λ err, Other ("failed to read " +:+ what +:+ " archive: " +:+ io_error_message err)) fs_call.

Definition failed_early {A B} (err : BuildError) : cmd (Controlled (result BuildError A) * nat * option B) :=
  mret (CtlCompleted (Err err), O, None).

(** [run_session_start] in the loop: the interruption is polled first, again when the
    archive has been opened, and then at every turn. *)
Definition controlled_start (request : SessionStartRequest) (endpoint : Endpoint) (token : option string)
    (limits : OutputLimits) : cmd (Controlled (result BuildError SessionStartResult) * nat * option string) :=
  _ ← open_channel;
  triggered ← poll_pending;
  if triggered : bool then mret (CtlInterrupted, O, None)
  else
    made ← io_try (start_request request);
    match made with
    | Err err => failed_early err
    | Ok _ =>
        opened ← io_try (open_archive "source");
        triggered ← poll_pending;
        if triggered : bool then mret (CtlInterrupted, O, None)
        else match opened with
             | Err err => failed_early err
             | Ok _ =>
                 answer ← send (session_request "POST" endpoint "/v1/sessions" token);
                 t0 ← get cw_term;
                 control set_session_id
                   (streamed "start" answer (λ body, read_session_start_response (ft_faults fate) body limits)) t0
                   (ft_rounds fate) 0 0 None
             end
    end.

Definition stop_seen (seen : option string) (endpoint : Endpoint) (token : option string) : cmd unit :=
  match seen with
  | Some id => _ ← record_best_effort_stop id endpoint token; mret tt
  | None => mret tt
  end.

(** The outcome and the identifier seen, or an exit. *)
Definition start_outcome_of
    (controlled : Controlled (result BuildError SessionStartResult) * nat * option string)
    (endpoint : Endpoint) (token : option string) : cmd (result BuildError SessionStartResult * option string) :=
  let '(controlled, received, seen) := controlled in
  match controlled with
  | CtlCompleted outcome =>
      late ← remaining received seen;
      match late with
      | None => mret (outcome, seen)
      | Some id =>
          r ← io_try (set_session_id id);
          match r with
          | Ok _ => mret (outcome, Some id)
          | Err err => _ ← record_best_effort_stop id endpoint token; provenance_failure err
          end
      end
  | CtlInterrupted =>
      late ← remaining received seen;
      _ ← match late with Some id => ignore (set_session_id id) | None => mret tt end;
      match (match seen with Some id => Some id | None => late end) with
      | Some id => finish_interrupted_session id endpoint token "interrupted during session initialization"
      | None => finish_early_interrupted "interrupted; remote request disconnected"
      end
  | CtlProvenance err => _ ← stop_seen seen endpoint token; provenance_failure err
  end.

(** A session that is ready: it is announced, or stopped. *)
Definition announce_session (session_id : string) (endpoint : Endpoint) (token : option string) : cmd unit :=
  triggered ← poll_pending;
  if triggered : bool then
    finish_interrupted_session session_id endpoint token "interrupted before final Ready provenance"
  else
    written ← finish_evidence_controlled "ready";
    match written with
    | None => finish_interrupted_session session_id endpoint token "interrupted during final Ready provenance"
    | Some (Err err) => _ ← record_best_effort_stop session_id endpoint token; provenance_failure err
    | Some (Ok _) =>
        triggered ← poll_pending;
        if triggered : bool then
          finish_interrupted_session session_id endpoint token "interrupted before session ID output"
        else
          emitted ← emit_session_id_controlled session_id;
          match emitted with
          | None => finish_interrupted_session session_id endpoint token "interrupted during session ID output"
          | Some (Ok _) => evidence_exit 0
          | Some (Err err) =>
              _ ← record_best_effort_stop session_id endpoint token;
              finish_session_failure ("failed to emit session ID: " +:+ io_error_message err) false
          end
    end.

Definition finish_start (outcome : result BuildError SessionStartResult) (seen : option string)
    (endpoint : Endpoint) (token : option string) (connection : option ConnectionConfig) : cmd unit :=
  match outcome with
  | Ok result =>
      _ ← edit (with_outcome (Some (st_exit_code result)) (st_timed_out result));
      _ ← edit (with_phases (st_phases result));
      _ ← io_each (λ message, ignore (error message)) (st_errors result);
      match st_session_id result with
      | Some session_id =>
          if negb (bool_decide (seen = Some session_id)) then
            _ ← record_best_effort_stop session_id endpoint token;
            finish_session_failure "Ready session identity was not durably observed" false
          else announce_session session_id endpoint token
      | None =>
          _ ← stop_seen seen endpoint token;
          r ← io_try (finish "failed");
          match r with
          | Err err => provenance_failure err
          | Ok _ => evidence_exit (normalize_requested_exit (st_exit_code result) (st_timed_out result))
          end
      end
  | Err err => _ ← stop_seen seen endpoint token; finish_remote_session_error err connection
  end.

Definition session_start_command (args : SessionStartArgs) (source_root : list component)
    (work : FilesystemPatterns → Work SourcePackage) (cx : CommandContext) : cmd unit :=
  _ ← leave_if_interrupted "interrupted before source preparation";
  patterns ← the_patterns args cx;
  base ← get (λ w, se_base (cw_evidence w));
  _ ← check_credential cx (λ credential, reject_credential_overlap env credential source_root base);
  endpoint ← the_endpoint cx;
  token ← the_token cx;
  limits ← the_limits cx;
  _ ← leave_if_interrupted "interrupted during source preparation";
  package ← packaged (work {| fp_include := pc_include patterns; fp_exclude := pc_exclude patterns |})
    "interrupted during source preparation" "failed to package sources: " "source packaging worker failed: ";
  _ ← edit (with_source (pk_identity package));
  r ← io_try (write_manifest (pk_manifest package));
  _ ← or_fail (λ err, "failed to write source manifest: " +:+ io_error_message err) r;
  p ← get provenance;
  let request := {|
    ss_schema_version := SESSION_REQUEST_SCHEMA_VERSION;
    ss_request_id := Some (default (pv_invocation_id p) (sg_request_id args));
    ss_task := sg_task args; ss_source := {| format := Zip |} |} in
  _ ← or_provenance_failure (set_status "running");
  controlled ← controlled_start request endpoint token limits;
  '(outcome, seen) ← start_outcome_of controlled endpoint token;
  finish_start outcome seen endpoint token (cf_connection (cx_config cx)).

(** ** [session update] *)

Record SessionUpdateArgs := {
  ug_session : string;
  ug_revision : string;
  ug_request_id : option string;
  ug_file : list string;
  ug_delete : list string;
  ug_result_root : option string;
}.

Definition evidence_of (entry : SourceEntry) : SessionUpdateEvidence :=
  {| ev_path := se_path entry; ev_sha256 := se_sha256 entry |}.

(** What [run_session_update] does before it waits for anything. *)
Definition update_request : eff Client BuildError unit :=
  _ ← new_client;
  io_map_err (λ err, Other ("failed to inspect update archive: " +:+ io_error_message err)) fs_call.

(** [run_session_update] against the interruption: [None] when that came first. *)
Definition controlled_update (session_id : string) (endpoint : Endpoint) (token : option string)
    (metadata : string) : cmd (option (result BuildError SessionUpdateResponse)) :=
  triggered ← poll_pending;
  if triggered : bool then mret None
  else
    made ← io_try (update_request);
    match made with
    | Err err => mret (Some (Err err))
    | Ok _ =>
        opened ← io_try (open_archive "update");
        triggered ← poll_pending;
        if triggered : bool then mret None
        else match opened with
             | Err err => mret (Some (Err err))
             | Ok _ =>
                 answer ← send (with_metadata metadata
                   (session_request "POST" endpoint ("/v1/sessions/" +:+ session_id +:+ "/updates") token));
                 triggered ← interrupted_first;
                 mret (if triggered : bool then None else Some (answered "update" update_response answer))
             end
    end.

Definition update_metadata (request : SessionUpdateRequest) : cmd string :=
  match update_request_to_vec request with
  | Ok metadata =>
      if len metadata <=? MAX_SESSION_UPDATE_METADATA_BYTES then mret metadata
      else finish_session_failure
        ("update metadata exceeds " +:+ pretty MAX_SESSION_UPDATE_METADATA_BYTES +:+ " bytes") false
  | Err err => finish_session_failure ("failed to serialize update metadata: " +:+ err) false
  end.

(** An update the server has applied: its revision is the command's output. *)
Definition finish_update (response : SessionUpdateResponse) : cmd unit :=
  _ ← edit (with_update (ur_update_id response) (ur_workspace_revision response));
  _ ← edit (with_changes (ur_changed response) (ur_deleted response));
  written ← finish_evidence_controlled "succeeded";
  match written with
  | None => finish_early_interrupted "interrupted during final update provenance"
  | Some (Err err) => provenance_failure err
  | Some (Ok _) =>
      emitted ← emit_session_id_controlled (ur_workspace_revision response);
      match emitted with
      | None => finish_early_interrupted "interrupted during revision output"
      | Some (Ok _) => evidence_exit 0
      | Some (Err err) =>
          finish_session_failure ("failed to emit workspace revision: " +:+ io_error_message err) false
      end
  end.

Definition session_update_command (args : SessionUpdateArgs) (source_root : list component)
    (work : list string → list string → Work UpdateSourcePackage) (cx : CommandContext) : cmd unit :=
  _ ← leave_if_interrupted "interrupted before update preparation";
  _ ← or_fail id (reject_if (negb (valid_session_id (ug_session args))) "invalid session ID");
  _ ← or_fail id (reject_if (is_none (parse_revision (ug_revision args)))
        "--revision must be the explicit opaque rev_<decimal> base revision");
  p ← get provenance;
  request_id ← option_expect (is_request_id (pv_ids p)) (Died Panicked);
  _ ← or_fail id (reject_if (negb (valid_request_id request_id)) "invalid request ID");
  '(files, deletes) ← or_fail io_error_message (validate_update_changes (ug_file args) (ug_delete args));
  _ ← edit (with_requested_deletes deletes);
  _ ← or_provenance_failure write_provenance;
  base ← get (λ w, se_base (cw_evidence w));
  _ ← check_credential cx (λ credential, reject_credential_overlap env credential source_root base);
  endpoint ← the_endpoint cx;
  _ ← edit (with_authority (endpoint_authority endpoint));
  _ ← or_provenance_failure write_provenance;
  token ← the_token cx;
  _ ← leave_if_interrupted "interrupted during update preparation";
  package ← packaged (work files deletes) "interrupted during update source preparation"
    "failed to package update sources: " "update source packaging worker failed: ";
  _ ← edit (with_source (up_identity package));
  let changed := evidence_of <$> up_entries package in
  _ ← edit (with_changes changed []);
  let request := {|
    su_schema_version := SESSION_UPDATE_SCHEMA_VERSION; su_request_id := request_id;
    su_base_revision := ug_revision args; su_source := {| format := Zip |};
    su_changes := update_changes changed deletes |} in
  metadata ← update_metadata request;
  _ ← edit (with_metadata_sha256 (sha256_hex metadata));
  _ ← or_provenance_failure (set_status "running");
  outcome ← controlled_update (ug_session args) endpoint token metadata;
  match outcome with
  | None => finish_early_interrupted "interrupted; update request disconnected"
  | Some (Err err) => finish_remote_session_error err (cf_connection (cx_config cx))
  | Some (Ok response) =>
      _ ← or_fail io_error_message (validate_update_response response request changed);
      _ ← or_fail id (reject_if (negb (bool_decide (ur_session_id response = ug_session args)))
            "update response had inconsistent session identity");
      finish_update response
  end.

(** ** Artifacts *)

Definition MAX_ARTIFACT_BYTES : N := 536870912.

(** The body of a download, at most as long as it was announced; every chunk is
    written to the temporary file. *)
Fixpoint download_body (size : N) (received : string) (body : list body_poll) : eff Client io_error (option string) :=
  match body with
  | [] => mret None
  | BodyEnd :: _ =>
      _ ← io_reject (negb (len received =? size))
        (IoError InvalidData "artifact size did not match server advertisement");
      mret (Some received)
  | BodyError err :: _ => io_fail (IoError OtherKind err)
  | Chunk chunk :: body =>
      let received := received +:+ chunk in
      _ ← io_reject ((MAX_ARTIFACT_BYTES <? len received) || (size <? len received))
        (IoError InvalidData "artifact transfer exceeded advertised or client size limit");
      _ ← fs_call;
      download_body size received body
  end.

Definition bytes_of (s : string) : list N := code <$> String.list_ascii_of_string s.

(** The credential goes with it to an HTTP endpoint. *)
Definition artifact_request (archive : ArtifactArchive) (endpoint : Endpoint) (token : option string) : http_request :=
  match endpoint with
  | EHttp base => {| hr_method := "GET"; hr_socket := None; hr_url := build_artifact_url base (aa_path archive);
                     hr_bearer := token; hr_metadata := None |}
  | EUnix socket => {| hr_method := "GET"; hr_socket := Some socket;
                       hr_url := build_artifact_url "http://localhost" (aa_path archive); hr_bearer := None;
                       hr_metadata := None |}
  end.

(** [download_and_extract] as far as the transfer; [None] when the body never ends. *)
Definition download (archive : ArtifactArchive) (endpoint : Endpoint) (token : option string) :
    eff Client io_error (option string) :=
  _ ← io_reject (MAX_ARTIFACT_BYTES <? aa_size archive)
    (IoError InvalidData "advertised artifact exceeds client transfer limit");
  _ ← io_map_err (IoError OtherKind) client_built;
  answer ← send (artifact_request archive endpoint token);
  match answer with
  | inl err => io_fail (IoError OtherKind (sd_message err))
  | inr response =>
      _ ← io_reject (negb (is_success (rp_status response)))
        (IoError OtherKind ("artifact download failed " +:+ status_display (rp_status response) +:+ ": " +:+
                            rp_text response));
      _ ← fs_call;
      data ← download_body (aa_size archive) "" (rp_body response);
      _ ← fs_call;
      mret data
  end.

(** The extraction, in a worker thread. *)
Definition extract (data : string) : eff Client io_error unit := λ w,
  let '(d, r) := extract_zip_atomic (ft_unpack fate) (bytes_of data) (ft_zip fate (bytes_of data)) (cw_run w) in
  (set_run d w, r).

(** [download_and_extract] against the interruption: [None] when that came first, when
    the extraction may still go on in its thread. *)
Definition controlled_download (archive : ArtifactArchive) (endpoint : Endpoint) (token : option string) :
    cmd (option (result io_error unit)) :=
  triggered ← poll_pending;
  if triggered : bool then mret None
  else
    transferred ← io_try (download archive endpoint token);
    started ← interrupted_first;
    if started : bool then mret None
    else match transferred with
         | Err err => mret (Some (Err err))
         | Ok None => io_fail (Died Pending)
         | Ok (Some data) =>
             r ← io_try (extract data);
             triggered ← interrupted_first;
             mret (if triggered : bool then None else Some r)
         end.

Definition show_restrictions (restrictions : option ArtifactRestrictions) : cmd unit :=
  match restrictions with
  | Some restrictions =>
      ignore (on_terminal (write_fd (ft_faults fate) StderrFd (artifact_restrictions_notice restrictions +:+ newline)))
  | None => mret tt
  end.

(** ** [session action] *)

Record SessionActionArgs := {
  ag_session : string;
  ag_action : string;
  ag_input : string;
  ag_result_root : option string;
}.

(** [read_nonblocking_descriptor], over what its reads answer: [None] when there is
    nothing to read yet. *)
Fixpoint read_nonblocking (wait_on_initial_eof : bool) (bytes : string) (reads : list (option (result io_error string))) :
    option (result io_error string) :=
  match reads with
  | [] => None
  | None :: reads => read_nonblocking wait_on_initial_eof bytes reads
  | Some (Err err) :: _ => Some (Err err)
  | Some (Ok chunk) :: reads =>
      if is_empty chunk then
        if wait_on_initial_eof && is_empty bytes then read_nonblocking wait_on_initial_eof bytes reads
        else Some (Ok bytes)
      else
        let bytes := bytes +:+ chunk in
        if MAX_SESSION_ACTION_BODY_BYTES <? len bytes then Some (Ok bytes)
        else read_nonblocking wait_on_initial_eof bytes reads
  end.

(** What the argument of [--input] names: a file that is read to its end, up to the
    limit, or a descriptor that is polled. *)
Inductive input_source :=
| InputFails (err : io_error)
| InputFile (contents : result io_error string)
| InputPolled (fifo : bool) (reads : list (option (result io_error string))).

Definition read_input (input : input_source) : option (result io_error string) :=
  match input with
  | InputFails err => Some (Err err)
  | InputFile contents =>
      Some (contents ≫= λ all, Ok (String.substring 0 (N.to_nat (MAX_SESSION_ACTION_BODY_BYTES + 1)) all))
  | InputPolled fifo reads => read_nonblocking fifo "" reads
  end.

Definition encode_action_input (bytes : string) : result io_error string :=
  let invalid message := IoError InvalidData message in
  _ ← reject_if (MAX_SESSION_ACTION_BODY_BYTES <? len bytes)
    (invalid ("action input exceeds " +:+ pretty MAX_SESSION_ACTION_BODY_BYTES +:+ " bytes"));
  input ← map_err (λ err, invalid ("invalid action input JSON: " +:+ err)) (from_slice bytes);
  input ← ok_or (as_object input) (invalid "action input must be a JSON object");
  let request := {| sa_schema_version := SESSION_REQUEST_SCHEMA_VERSION; sa_input := input |} in
  body ← map_err (IoError OtherKind) (action_request_to_vec request);
  _ ← reject_if (MAX_SESSION_ACTION_BODY_BYTES <? len body)
    (invalid ("encoded action request exceeds " +:+ pretty MAX_SESSION_ACTION_BODY_BYTES +:+ " bytes"));
  Ok body.

(** [read_action_input]: [None] when the interruption came first. *)
Definition read_action_input (input : input_source) : cmd (option (result io_error string)) :=
  triggered ← interrupted_first;
  if triggered : bool then mret None
  else match read_input input with
       | None => io_fail (Died Pending)
       | Some bytes => mret (Some (bytes ≫= encode_action_input))
       end.

(** [run_session_action] in the loop. *)
Definition controlled_action (args : SessionActionArgs) (endpoint : Endpoint) (token : option string)
    (limits : OutputLimits) : cmd (Controlled (result BuildError SessionActionResult) * nat * option string) :=
  _ ← open_channel;
  triggered ← poll_pending;
  if triggered : bool then mret (CtlInterrupted, O, None)
  else
    made ← io_try new_client;
    match made with
    | Err err => failed_early err
    | Ok _ =>
        answer ← send (session_request "POST" endpoint
          ("/v1/sessions/" +:+ ag_session args +:+ "/actions/" +:+ ag_action args) token);
        t0 ← get cw_term;
        control set_action_id
          (streamed "action" answer
            (λ body, read_session_action_response (ft_faults fate) body limits (ag_session args) (ag_action args)))
          t0 (ft_rounds fate) 0 0 None
    end.

(** The outcome and the identifier seen, or an exit; the session is stopped. *)
Definition action_outcome_of
    (controlled : Controlled (result BuildError SessionActionResult) * nat * option string) (session : string)
    (endpoint : Endpoint) (token : option string) : cmd (result BuildError SessionActionResult * option string) :=
  let '(controlled, received, seen) := controlled in
  match controlled with
  | CtlCompleted outcome =>
      late ← remaining received seen;
      match late with
      | None => mret (outcome, seen)
      | Some id =>
          r ← io_try (set_action_id id);
          match r with
          | Ok _ => mret (outcome, Some id)
          | Err err => _ ← record_best_effort_stop session endpoint token; provenance_failure err
          end
      end
  | CtlInterrupted =>
      late ← remaining received seen;
      _ ← match late with Some id => ignore (set_action_id id) | None => mret tt end;
      finish_interrupted_session session endpoint token "interrupted during action execution"
  | CtlProvenance err => _ ← record_best_effort_stop session endpoint token; provenance_failure err
  end.

(** The artifacts of an operation; an interruption stops the session. *)
Definition fetch_artifacts (archive : option ArtifactArchive) (session : string) (endpoint : Endpoint)
    (token : option string) (interrupted : string) : cmd (option string) :=
  match archive with
  | None => mret None
  | Some archive =>
      downloaded ← controlled_download archive endpoint token;
      match downloaded with
      | None => finish_interrupted_session session endpoint token interrupted
      | Some (Ok _) => mret None
      | Some (Err err) => mret (Some (io_error_message err))
      end
  end.

(** The end of an action and of a stop: the evidence, the election, the exit. *)
Definition finish_operation (session : string) (endpoint : Endpoint) (token : option string)
    (status during completion : string) (stop_on_failure : bool) (requested : N) : cmd unit :=
  written ← finish_evidence_controlled status;
  match written with
  | None => finish_interrupted_session session endpoint token during
  | Some (Err err) =>
      _ ← (if stop_on_failure then _ ← record_best_effort_stop session endpoint token; mret tt else mret tt);
      provenance_failure err
  | Some (Ok _) =>
      claimed ← claim_completion;
      if claimed : bool then evidence_exit requested
      else finish_interrupted_session session endpoint token completion
  end.

(** The command once it knows where to send its request. *)
Definition run_action (args : SessionActionArgs) (input : input_source) (cx : CommandContext) (endpoint : Endpoint)
    (token : option string) (limits : OutputLimits) : cmd unit :=
  _ ← or_provenance_failure (set_status "reading_input");
  body ← read_action_input input;
  match body with
  | None => finish_interrupted_session (ag_session args) endpoint token "interrupted while reading action input"
  | Some (Err err) => finish_session_failure (io_error_message err) false
  | Some (Ok _) =>
      _ ← or_provenance_failure (set_status "running");
      controlled ← controlled_action args endpoint token limits;
      '(outcome, seen) ← action_outcome_of controlled (ag_session args) endpoint token;
      match outcome with
      | Err err => finish_remote_session_error err (cf_connection (cx_config cx))
      | Ok result =>
          _ ← or_fail id (reject_if (negb (bool_decide (seen = Some (ac_action_id result))))
                "action result identity was not durably observed");
          _ ← edit (with_outcome (Some (ac_exit_code result)) (ac_timed_out result));
          _ ← edit (with_restrictions (ac_artifact_restrictions result));
          _ ← io_each (λ message, ignore (error message)) (ac_errors result);
          _ ← show_restrictions (ac_artifact_restrictions result);
          artifact_error ← fetch_artifacts (ac_artifacts result) (ag_session args) endpoint token
            "interrupted while downloading action artifacts";
          let artifact_failed_success := is_some artifact_error && (ac_exit_code result =? 0)%Z in
          _ ← match artifact_error with
              | Some message =>
                  _ ← ignore (error ("artifact retrieval failed: " +:+ message));
                  say ("failed to fetch action artifacts: " +:+ message)
              | None => mret tt
              end;
          triggered ← poll_pending;
          if triggered : bool then
            finish_interrupted_session (ag_session args) endpoint token "interrupted before final action provenance"
          else
            finish_operation (ag_session args) endpoint token
              (if artifact_failed_success || negb (ac_exit_code result =? 0)%Z || ac_timed_out result
               then "failed" else "succeeded")
              "interrupted during final action provenance" "interrupted at action completion" true
              (if artifact_failed_success then 1
               else normalize_requested_exit (ac_exit_code result) (ac_timed_out result))
      end
  end.

Definition session_action_command (args : SessionActionArgs) (input : input_source) (cx : CommandContext) : cmd unit :=
  _ ← leave_if_interrupted "interrupted before action preparation";
  _ ← or_fail id (reject_if (negb (valid_session_id (ag_session args))) "invalid session ID");
  _ ← or_fail id (reject_if (negb (valid_task_id (ag_action args))) "invalid action name");
  base ← get (λ w, se_base (cw_evidence w));
  _ ← check_credential cx (λ credential, reject_credential_result_overlap env credential base);
  endpoint ← the_endpoint cx;
  token ← the_token cx;
  limits ← the_limits cx;
  run_action args input cx endpoint token limits.

(** ** [session stop] *)

Record SessionStopArgs := { pg_session : string; pg_result_root : option string }.

(** [request_session_stop] against the interruption: [None] when that came first. *)
Definition controlled_stop (session : string) (endpoint : Endpoint) (token : option string) :
    cmd (option (result BuildError SessionStopResponse)) :=
  triggered ← poll_pending;
  if triggered : bool then mret None
  else
    stopped ← io_try (request_session_stop session endpoint token);
    triggered ← interrupted_first;
    mret (if triggered : bool then None else Some stopped).

Definition teardown_message (teardown : SessionTeardownResult) : string :=
  OUTPUT_PREFIX +:+ " teardown finished in " +:+ seconds (td_duration_ms teardown) +:+ "s (exit_code=" +:+
  from_option pretty "none" (td_exit_code teardown) +:+ ", timed_out=" +:+ bool_str (td_timed_out teardown) +:+ ")".

Definition finish_stop (response : SessionStopResponse) (session : string) (endpoint : Endpoint)
    (token : option string) : cmd unit :=
  let teardown := sp_teardown response in
  _ ← edit (with_teardown teardown);
  _ ← edit (with_restrictions (sp_artifact_restrictions response));
  _ ← show_restrictions (sp_artifact_restrictions response);
  artifact_error ← fetch_artifacts (sp_artifacts response) session endpoint token
    "interrupted while downloading final artifacts";
  let code := default 1%Z (td_exit_code teardown) in
  _ ← edit (with_outcome (td_exit_code teardown) (td_timed_out teardown));
  let artifact_failed_success := is_some artifact_error && (code =? 0)%Z && negb (td_timed_out teardown) &&
                                 is_none (td_error_code teardown) in
  _ ← match artifact_error with
      | Some message =>
          _ ← ignore (error ("artifact retrieval failed: " +:+ message));
          say ("failed to fetch final artifacts: " +:+ message)
      | None => mret tt
      end;
  _ ← match td_error_code teardown with
      | Some error_code =>
          _ ← ignore (error ("teardown failed: " +:+ error_code));
          say ("teardown failed: " +:+ error_code)
      | None => mret tt
      end;
  _ ← say (teardown_message teardown);
  let succeeded := (code =? 0)%Z && negb (td_timed_out teardown) && is_none (td_error_code teardown) &&
                   negb artifact_failed_success in
  triggered ← poll_pending;
  if triggered : bool then
    finish_interrupted_session session endpoint token "interrupted before final stop provenance"
  else
    finish_operation session endpoint token (if succeeded then "succeeded" else "failed")
      "interrupted during final stop provenance" "interrupted at stop completion" false
      (if is_some (td_error_code teardown) || artifact_failed_success then 1
       else normalize_requested_exit code (td_timed_out teardown)).

Definition run_stop (args : SessionStopArgs) (cx : CommandContext) (endpoint : Endpoint) (token : option string) : cmd unit :=
  _ ← or_provenance_failure (set_status "running");
  stopped ← controlled_stop (pg_session args) endpoint token;
  match stopped with
  | None => finish_interrupted_session (pg_session args) endpoint token "interrupted during session stop"
  | Some (Err err) => finish_remote_session_error err (cf_connection (cx_config cx))
  | Some (Ok response) =>
      _ ← or_fail id (reject_if (negb (bool_decide (sp_session_id response = pg_session args)))
            "stop response had inconsistent session identity");
      finish_stop response (pg_session args) endpoint token
  end.

Definition session_stop_command (args : SessionStopArgs) (cx : CommandContext) : cmd unit :=
  _ ← leave_if_interrupted "interrupted before stop preparation";
  _ ← or_fail id (reject_if (negb (valid_session_id (pg_session args))) "invalid session ID");
  base ← get (λ w, se_base (cw_evidence w));
  _ ← check_credential cx (λ credential, reject_credential_result_overlap env credential base);
  endpoint ← the_endpoint cx;
  token ← the_token cx;
  run_stop args cx endpoint token.
End commands.
