(* ===== verification/CliSessionTheorems.v ===== *)
(** What a session command leaves behind: every session the client has heard of is
    announced on standard output or asked to stop; and what an update sends is what
    the server accepts. *)
From Stdlib Require Import Ascii.
From stdpp Require Import base option strings numbers list gmap pretty sorting.
From S2P Require Import Prelude Effects RustStr Validation Protocol ClientSource ClientPackage ClientFacts CliOutput CliStream CliSettings CliArchive CliSession.

Local Open Scope N_scope.

(** * Steps that do not touch sessions *)

Definition cleanup_of (w : Client) : option string := lf_cleanup_status (pv_life (provenance w)).
Definition session_of (w : Client) : option string := is_session_id (pv_ids (provenance w)).

(** Standard output, the identifiers received, the identifier and the cleanup on record
    are the same, and no request is forgotten. *)
Record quiet (w w' : Client) : Prop := {
  qt_out : tm_out (cw_term w') = tm_out (cw_term w);
  qt_observed : tm_observed (cw_term w') = tm_observed (cw_term w);
  qt_session : session_of w' = session_of w;
  qt_cleanup : cleanup_of w' = cleanup_of w;
  qt_sent : cw_sent w `prefix_of` cw_sent w';
}.

#[export] Instance quiet_preorder : PreOrder quiet.
Proof.
  split; [by intros w|]. intros w1 w2 w3 [] []. split; try congruence. by etrans.
Qed.

Definition calm {E A} (m : eff Client E A) : Prop := ∀ w, quiet w (m w).1.

Lemma calm_ret {E A} (a : A) : calm (E := E) (mret a).
Proof. by intros w. Qed.
Lemma calm_lift {E A} (r : result E A) : calm (io_lift r).
Proof. by intros w. Qed.
Lemma calm_fail {E A} (e : E) : calm (A := A) (io_fail e).
Proof. by intros w. Qed.
Lemma calm_get {E A} (f : Client → A) : calm (E := E) (get f).
Proof. by intros w. Qed.
Lemma calm_bind {E A B} (m : eff Client E A) (k : A → eff Client E B) : calm m → (∀ a, calm (k a)) → calm (m ≫= k).
Proof.
  intros Hm Hk w. specialize (Hm w). unfold mbind, eff_bind. destruct (m w) as [w' [a|e]]; [|done].
  etrans; [exact Hm|]. apply Hk.
Qed.
Lemma calm_map_err {E F A} (f : E → F) (m : eff Client E A) : calm m → calm (io_map_err f m).
Proof. intros Hm w. specialize (Hm w). unfold io_map_err. by destruct (m w). Qed.
Lemma calm_try {E F A} (m : eff Client E A) : calm m → calm (io_try (F := F) m).
Proof. intros Hm w. specialize (Hm w). unfold io_try. by destruct (m w). Qed.
Lemma calm_each {E A} (f : A → eff Client E unit) l : (∀ x, calm (f x)) → calm (io_each f l).
Proof. intros Hf. induction l as [|x l IH]; [apply calm_ret|]. by apply calm_bind. Qed.
Lemma calm_ignore {E F A} (m : eff Client E A) : calm m → calm (ignore (F := F) m).
Proof. intros Hm. apply calm_bind; [by apply calm_try|]. intros. apply calm_ret. Qed.
Lemma calm_terminal {E A} (m : eff Term E A) : silent m → calm (on_terminal m).
Proof. intros Hm w. specialize (Hm (cw_term w)). unfold on_terminal. destruct (m (cw_term w)) as [t r]. by destruct Hm. Qed.

(** The evidence is edited but for the session and its cleanup. *)
Lemma calm_edit {E} (f : SessionProvenance → SessionProvenance) :
  (∀ p, is_session_id (pv_ids (f p)) = is_session_id (pv_ids p)) →
  (∀ p, lf_cleanup_status (pv_life (f p)) = lf_cleanup_status (pv_life p)) → calm (E := E) (edit f).
Proof. intros H1 H2 w. split; [done|done|apply H1|apply H2|done]. Qed.

Lemma wp_calm {E A} (m : eff Client E A) w (Q : Client → result E A → Prop) :
  calm m → (∀ w' r, quiet w w' → Q w' r) → wp m w Q.
Proof. intros Hm HQ. unfold wp. by apply HQ. Qed.

Create HintDb calm discriminated.
#[export] Hint Resolve calm_ret calm_lift calm_fail calm_get calm_bind calm_map_err calm_try calm_each calm_ignore : calm.

Section calmness.
Context {codec : EventCodec} {requests : RequestCodec} {serde : Serde} (env : Surroundings) (fate : Fate).

Lemma calm_say message : calm (say fate message).
Proof. apply calm_map_err, calm_terminal, silent_eprintln. Qed.
Lemma calm_poll {E} : calm (E := E) (poll_pending fate).
Proof. intros w. unfold poll_pending. destruct (cw_interrupt w); [|done..]. by destruct (ft_signal fate _) as [[]|]. Qed.
Lemma calm_complete {E} : calm (E := E) complete.
Proof. intros w. unfold complete. by destruct (cw_interrupt w). Qed.
Lemma calm_note {E} err : calm (E := E) (note_failure err).
Proof. by intros w. Qed.
Lemma calm_write : calm (write_provenance fate).
Proof. intros w. unfold write_provenance. by destruct (ft_fs fate _). Qed.
Lemma calm_fs_call : calm (fs_call fate).
Proof. by intros w. Qed.
Lemma calm_writable : calm (is_writable fate).
Proof. by intros w. Qed.
Lemma calm_new_client : calm (new_client fate).
Proof. by intros w. Qed.
Hint Resolve calm_say calm_poll calm_complete calm_note calm_write calm_fs_call calm_writable calm_new_client : calm.

Ltac calmly := repeat first
  [ progress eauto with calm
  | progress intros
  | apply calm_bind | apply calm_try
  | match goal with |- calm (match ?x with _ => _ end) => destruct x end
  | match goal with |- calm (edit _) => apply calm_edit end ].

Lemma calm_persist : calm (persist fate).
Proof. unfold persist. calmly. Qed.
Hint Resolve calm_persist : calm.
Lemma calm_status status : calm (set_status fate status).
Proof. unfold set_status. calmly. Qed.
Lemma calm_finish status : calm (finish fate status).
Proof. unfold finish. calmly. Qed.
Lemma calm_error message : calm (error fate message).
Proof. unfold error. calmly. Qed.
Lemma calm_action id : calm (set_action_id fate id).
Proof. unfold set_action_id. calmly. Qed.
Hint Resolve calm_status calm_finish calm_error calm_action : calm.

Lemma calm_wakes n completes : calm (wakes fate n completes).
Proof. induction n as [|n IH]; cbn [wakes]; calmly. Qed.
Lemma calm_interrupted : calm (interrupted_first fate).
Proof.
  intros w. unfold interrupted_first. destruct (ft_wakes fate _) as [n c]. etrans; [|apply calm_wakes]. done.
Qed.
Hint Resolve calm_interrupted : calm.

Lemma calm_claim {E} : calm (E := E) (claim_completion fate).
Proof. unfold claim_completion. calmly. Qed.
Lemma calm_exit {A} code : calm (A := A) (evidence_exit fate code).
Proof. unfold evidence_exit, leave. calmly. Qed.
Hint Resolve calm_claim calm_exit : calm.
Lemma calm_provenance_failure {A} err : calm (A := A) (provenance_failure fate err).
Proof. unfold provenance_failure. calmly. Qed.
Lemma calm_failure {A} message b : calm (A := A) (finish_session_failure fate message b).
Proof. unfold finish_session_failure. calmly. Qed.
Lemma calm_remote_error {A} err connection : calm (A := A) (finish_remote_session_error fate err connection).
Proof. unfold finish_remote_session_error. calmly. Qed.
Lemma calm_controlled status : calm (finish_evidence_controlled fate status).
Proof. unfold finish_evidence_controlled. calmly. Qed.
Hint Resolve calm_provenance_failure calm_failure calm_remote_error calm_controlled : calm.

(** ** The exits *)

(** Ends with one of these codes, or dies. *)
Definition died_or (codes : list N) (e : ended) : Prop := match e with Exit code => code ∈ codes | Died _ => True end.

Definition leaves {A} (codes : list N) (m : cmd A) : Prop := ∀ w, ∃ e, (m w).2 = Err e ∧ died_or codes e.

(** ... or goes on. *)
Definition goes_on {A} (codes : list N) (m : cmd A) : Prop := ∀ w e, (m w).2 = Err e → died_or codes e.

Lemma leaves_bind {A B} codes (m : cmd A) (k : A → cmd B) :
  goes_on codes m → (∀ a, leaves codes (k a)) → leaves codes (m ≫= k).
Proof.
  intros Hm Hk w. specialize (Hm w). unfold mbind, eff_bind. destruct (m w) as [w' [a|e]]; [apply Hk|].
  exists e. split; [done|]. by apply Hm.
Qed.
Lemma goes_ignore {E A} codes (m : eff Client E A) : goes_on codes (ignore m).
Proof. intros w e. unfold ignore, mbind, eff_bind, io_try. by destruct (m w). Qed.
Lemma goes_ret {A} codes (a : A) : goes_on codes (mret a).
Proof. by intros w e. Qed.
Lemma goes_get {A} codes (f : Client → A) : goes_on codes (get f).
Proof. by intros w e. Qed.
Lemma goes_say codes message : goes_on codes (say fate message).
Proof.
  intros w e. unfold say, io_map_err, on_terminal. destruct (eprintln _ _ _) as [t [[]|x]]; [done|]. by intros [= <-].
Qed.
Lemma goes_edit codes f : goes_on codes (edit f).
Proof. by intros w e. Qed.
Lemma goes_note codes err : goes_on codes (note_failure err).
Proof. by intros w e. Qed.
Hint Resolve goes_ignore goes_ret goes_get goes_say goes_edit goes_note : calm.

Lemma leaves_weaken {A} codes codes' (m : cmd A) : leaves codes m → codes ⊆ codes' → leaves codes' m.
Proof. intros Hm Hc w. destruct (Hm w) as ([code|how] & E & Hd); (eexists; split; [done|]); [by apply Hc|done]. Qed.

Lemma leaves_code {A} codes code : code ∈ codes → leaves codes (leave (A := A) code).
Proof. intros Hc w. by eexists. Qed.
Lemma leaves_exit {A} codes code : code ∈ codes → 1 ∈ codes → leaves codes (evidence_exit (A := A) fate code).
Proof.
  intros H1 H2. apply leaves_bind; [eauto with calm|]. intros [m|]; [|by apply leaves_code].
  apply leaves_bind; [eauto with calm|]. intros _. by apply leaves_code.
Qed.

Ltac leaving := repeat first
  [ solve [apply leaves_exit; set_solver]
  | apply leaves_bind; [repeat case_match; eauto with calm|intros] ].

Lemma leaves_failure {A} message : leaves [1] (finish_session_failure (A := A) fate message false).
Proof. unfold finish_session_failure. leaving. Qed.
Lemma leaves_provenance {A} err : leaves [1] (provenance_failure (A := A) fate err).
Proof. unfold provenance_failure. leaving. Qed.
Lemma leaves_early {A} message : leaves [1; 130] (finish_early_interrupted (A := A) fate message).
Proof. unfold finish_early_interrupted. leaving. Qed.
Lemma leaves_remote_error {A} err connection :
  leaves [1; 124; 222] (finish_remote_session_error (A := A) fate err connection).
Proof.
  unfold finish_remote_session_error. do 4 (apply leaves_bind; [destruct err; eauto with calm|intros]).
  apply leaves_exit; [|set_solver]. unfold connection_failure_exit_code, CONNECTION_FALLBACK_EXIT_CODE.
  destruct err; [destruct (from_option _ _ _)| |]; set_solver.
Qed.
Lemma goes_record codes id endpoint token : goes_on codes (record_best_effort_stop fate id endpoint token).
Proof.
  intros w e. unfold record_best_effort_stop, best_effort_stop, ignore, mbind, eff_bind, io_try, get.
  repeat (case_match; simplify_eq/=; try done).
Qed.
Hint Resolve goes_record : calm.
Lemma leaves_interrupted {A} id endpoint token message :
  leaves [1; 130] (finish_interrupted_session (A := A) fate id endpoint token message).
Proof. unfold finish_interrupted_session. leaving. Qed.
End calmness.

#[export] Hint Resolve calm_say calm_poll calm_complete calm_note calm_write calm_fs_call calm_writable calm_new_client
  calm_persist calm_status calm_finish calm_error calm_action calm_interrupted calm_claim calm_exit
  calm_provenance_failure calm_failure calm_remote_error calm_controlled : calm.

Ltac calmly := repeat first
  [ progress eauto with calm
  | progress intros
  | apply calm_bind | apply calm_try
  | match goal with |- calm (match ?x with _ => _ end) => destruct x end
  | match goal with |- calm (edit _) => apply calm_edit end ].

Section start.
Context {codec : EventCodec} {requests : RequestCodec} {serde : Serde} (env : Surroundings) (fate : Fate).
Context (endpoint : Endpoint) (token : option string).

(** A stop of the session is on record: the request was sent, or the record says that
    it failed. *)
Definition stop_recorded (id : string) (w : Client) : Prop :=
  ∃ status, cleanup_of w = Some status ∧
    (session_request "DELETE" endpoint ("/v1/sessions/" +:+ id) token ∈ cw_sent w ∨
     starts_with "failed:" status = true).

Lemma stop_recorded_quiet id w w' : quiet w w' → stop_recorded id w → stop_recorded id w'.
Proof.
  intros [_ _ _ Hc [rest Hs]] (status & E & H). exists status. split; [congruence|].
  destruct H as [H|]; [left|by right]. rewrite Hs. apply elem_of_app. by left.
Qed.

(** Standard output and the identifiers are the same. *)
Definition same_term (w w' : Client) : Prop :=
  tm_out (cw_term w') = tm_out (cw_term w) ∧ tm_observed (cw_term w') = tm_observed (cw_term w).

Lemma quiet_term w w' : quiet w w' → same_term w w'.
Proof. by intros []. Qed.
Lemma same_term_trans w1 w2 w3 : same_term w1 w2 → same_term w2 w3 → same_term w1 w3.
Proof. intros [] []. split; congruence. Qed.

Lemma set_cleanup_spec status w :
  wp (set_cleanup_status fate status) w (λ w' _,
    same_term w w' ∧ session_of w' = session_of w ∧ cleanup_of w' = Some status ∧ cw_sent w `prefix_of` cw_sent w').
Proof.
  apply wp_bind. unfold edit, wp at 1. cbn [fst snd]. apply wp_calm; [eauto with calm|].
  intros w' r []. by split_and!.
Qed.

Lemma wp_ignore {E F A} (m : eff Client E A) w (Q : Client → result F unit → Prop) :
  wp m w (λ w' _, Q w' (Ok tt)) → wp (ignore m) w Q.
Proof. intros H. apply wp_bind, wp_try. eapply wp_mono; [exact H|]. intros. by apply wp_ret. Qed.

Lemma wp_calm_ignore {E F A} (m : eff Client E A) w (Q : Client → result F unit → Prop) :
  calm m → (∀ w', quiet w w' → Q w' (Ok tt)) → wp (ignore m) w Q.
Proof. intros Hm HQ. apply wp_ignore, wp_calm; [done|]. auto. Qed.

Lemma wp_each_ignore {E F A B} (f : A → eff Client E B) l w (Q : Client → result F unit → Prop) :
  (∀ x, calm (f x)) → (∀ w', quiet w w' → Q w' (Ok tt)) → wp (io_each (λ x, ignore (f x)) l) w Q.
Proof.
  intros Hf. revert w. induction l as [|x l IH]; intros w HQ; [by apply wp_ret, HQ|].
  apply wp_bind, wp_calm_ignore; [done|]. intros w1 H1. apply IH. intros w2 H2. apply HQ. by etrans.
Qed.

Lemma best_effort_spec {E} id w :
  wp (E := E) (best_effort_stop fate id endpoint token) w (λ w' r, ∃ status, r = Ok status ∧ quiet w w' ∧
    (session_request "DELETE" endpoint ("/v1/sessions/" +:+ id) token ∈ cw_sent w' ∨
     starts_with "failed:" status = true)).
Proof.
  apply wp_bind. unfold get, wp at 1. cbn [fst snd]. apply wp_bind, wp_try, wp_bind.
  apply wp_map_err. unfold client_built, wp at 1. cbn [fst snd]. destruct (ft_client fate (cw_tick w)) as [err|].
  - apply wp_ret. eexists. split; [done|]. split; [done|]. right. by destruct (snd _).
  - apply wp_bind. unfold send, wp at 1. cbn [fst snd]. apply wp_lift, wp_ret. eexists. split; [done|]. split.
    + split; try done. cbn. by eexists.
    + left. cbn. set_solver.
Qed.

Lemma record_stop_spec id w :
  wp (record_best_effort_stop fate id endpoint token) w (λ w' r, ∃ status, r = Ok status ∧
    same_term w w' ∧ session_of w' = session_of w ∧ stop_recorded id w').
Proof.
  apply wp_bind. eapply wp_mono; [apply best_effort_spec|]. intros w1 r (status & -> & Hq & Hs).
  apply wp_bind, wp_ignore. eapply wp_mono; [apply set_cleanup_spec|]. intros w2 _ (Ht & Hi & Hc & [rest Hp]).
  assert (Hst : stop_recorded id w2).
  { exists status. split; [done|]. destruct Hs; [left|by right]. rewrite Hp. apply elem_of_app. by left. }
  assert (Ht2 : same_term w w2) by (eapply same_term_trans; [by apply quiet_term|done]).
  destruct Hq as [_ _ Hsn _ _].
  assert (Hend : ∀ w3, quiet w2 w3 → ∃ s, Ok (E := ended) status = Ok s ∧
    same_term w w3 ∧ session_of w3 = session_of w ∧ stop_recorded id w3).
  { intros w3 Hq3. exists status. split; [done|]. split; [eapply same_term_trans; [done|by apply quiet_term]|].
    split; [destruct Hq3; congruence|]. by eapply stop_recorded_quiet. }
  apply wp_bind. destruct (starts_with _ _).
  - apply wp_calm_ignore; [eauto with calm|]. intros w3 Hq3. by apply wp_ret, Hend.
  - by apply wp_ret, wp_ret, Hend.
Qed.

(** ** Ends that leave no session behind *)

(** The session was told to the outside: its identifier is on standard output and the
    evidence says that it is ready. *)
Definition announced (w0 : Client) (id : string) (w : Client) : Prop :=
  tm_out (cw_term w) = tm_out (cw_term w0) +:+ id +:+ newline ∧
  ∃ p, cw_disk w = Some p ∧ lf_status (pv_life p) = "ready" ∧ is_session_id (pv_ids p) = Some id.

(** Every identifier received is announced or stopped; an interrupted command, and one
    that fails, printed nothing. *)
Definition accounted (w0 w : Client) (e : ended) : Prop :=
  (∀ id, id ∈ tm_observed (cw_term w) →
     id ∈ tm_observed (cw_term w0) ∨ (∃ how, e = Died how) ∨ announced w0 id w ∨ stop_recorded id w) ∧
  (e = Exit 130 → tm_out (cw_term w) = tm_out (cw_term w0)).

Definition ends_well {A} (w0 : Client) (w : Client) (r : result ended A) : Prop := ∃ e, r = Err e ∧ accounted w0 w e.

Lemma interrupted_recorded {A} w id message :
  same_term w (finish_interrupted_session (A := A) fate id endpoint token message w).1 ∧
  stop_recorded id (finish_interrupted_session (A := A) fate id endpoint token message w).1.
Proof.
  change (wp (finish_interrupted_session (A := A) fate id endpoint token message) w
    (λ w' _, same_term w w' ∧ stop_recorded id w')).
  apply wp_bind. eapply wp_mono; [apply record_stop_spec|]. intros w1 r (status & -> & Ht & _ & Hs).
  apply wp_calm; [calmly|]. intros w2 r Hq.
  split; [eapply same_term_trans; [done|by apply quiet_term]|by eapply stop_recorded_quiet].
Qed.

Lemma interrupted_session_ends {A} w0 w id message :
  tm_out (cw_term w) = tm_out (cw_term w0) → (∀ i, i ∈ tm_observed (cw_term w) → i = id) →
  wp (finish_interrupted_session (A := A) fate id endpoint token message) w (ends_well w0).
Proof.
  intros Ho Hob. pose proof (leaves_interrupted (A := A) fate id endpoint token message w) as (e & He & _).
  unfold wp, ends_well. exists e. split; [done|]. destruct (interrupted_recorded (A := A) w id message) as [[H1 H2] H3].
  split; [|congruence]. intros i Hi. do 3 right. rewrite H2 in Hi. by rewrite (Hob i Hi).
Qed.

(** A command that ends where the stop is on record. *)
Lemma recorded_ends {A} codes w0 w id (m : cmd A) :
  calm m → leaves codes m → (130 ∈ codes → tm_out (cw_term w) = tm_out (cw_term w0)) →
  stop_recorded id w → (∀ i, i ∈ tm_observed (cw_term w) → i = id) → wp m w (ends_well w0).
Proof.
  intros Hc Hl Ho Hs Hob. destruct (Hl w) as (e & He & Hcode). specialize (Hc w).
  exists e. split; [done|]. destruct (quiet_term _ _ Hc) as [H1 H2]. split.
  - intros i Hi. do 3 right. rewrite H2 in Hi. rewrite (Hob i Hi). by eapply stop_recorded_quiet.
  - intros ->. rewrite H1. by apply Ho.
Qed.

(** A command that ends before any identifier was received. *)
Lemma unseen_ends {A} w0 w w' (r : result ended A) e :
  same_term w0 w → same_term w w' → r = Err e → ends_well w0 w' r.
Proof.
  intros [H1 H2] [H3 H4] ->. exists e. split; [done|]. split; [|congruence]. intros i. rewrite H4, H2. by left.
Qed.

Lemma early_same {A} message w : same_term w (finish_early_interrupted (A := A) fate message w).1.
Proof.
  change (wp (finish_early_interrupted (A := A) fate message) w (λ w' _, same_term w w')).
  apply wp_bind. unfold get, wp at 1. cbn [fst snd]. apply wp_bind.
  assert (Hrest : ∀ w1, same_term w w1 → wp (A := A)
    (_ ← ignore (error fate message); _ ← ignore (finish fate "interrupted");
     _ ← say fate (OUTPUT_PREFIX +:+ " " +:+ message); evidence_exit fate 130) w1 (λ w' _, same_term w w')).
  { intros w1 H1. apply wp_calm; [calmly|]. intros w2 r Hq. eapply same_term_trans; [done|by apply quiet_term]. }
  destruct (_ && _).
  - apply wp_ignore. eapply wp_mono; [apply set_cleanup_spec|]. intros w1 _ (H1 & _). by apply Hrest.
  - by apply wp_ret, Hrest.
Qed.

(** ** A session that is ready *)

(** Only the interruption and the time go on. *)
Record steady (w w' : Client) : Prop := {
  sy_term : cw_term w' = cw_term w;
  sy_evidence : cw_evidence w' = cw_evidence w;
  sy_disk : cw_disk w' = cw_disk w;
  sy_sent : cw_sent w' = cw_sent w;
}.
#[local] Instance steady_preorder : PreOrder steady.
Proof. split; [by intros w|]. intros ? ? ? [] []. split; congruence. Qed.

(** A computation that is steady, and whose errors are deaths. *)
Definition still {E A} (fine : E → Prop) (m : eff Client E A) : Prop :=
  ∀ w, steady w (m w).1 ∧ ∀ e, (m w).2 = Err e → fine e.

Lemma at_rest_bind {E A B} fine (m : eff Client E A) (k : A → eff Client E B) :
  still fine m → (∀ a, still fine (k a)) → still fine (m ≫= k).
Proof.
  intros Hm Hk w. specialize (Hm w). unfold mbind, eff_bind. destruct (m w) as [w' [a|e]].
  2: { destruct Hm as [Hm He]. split; [done|]. intros e' [= <-]. by apply He. }
  destruct Hm as [Hm _]. destruct (Hk a w') as [Hs He]. split; [by etrans|done].
Qed.
Lemma still_ret {E A} fine (a : A) : still (E := E) fine (mret a).
Proof. intros w. split; [done|by intros]. Qed.
Lemma still_try {E F A} fine (m : eff Client E A) : still (λ _, True) m → still (E := F) fine (io_try m).
Proof. intros Hm w. specialize (Hm w). unfold io_try. destruct (m w) as [w' r]. destruct Hm. split; [done|]. by intros. Qed.
Lemma still_poll {E} fine : still (E := E) fine (poll_pending fate).
Proof.
  intros w. unfold poll_pending. destruct (cw_interrupt w); [destruct (ft_signal fate _) as [[]|]|..]; (split; [done|by intros]).
Qed.
Lemma still_complete {E} fine : still (E := E) fine complete.
Proof. intros w. unfold complete. destruct (cw_interrupt w); (split; [done|by intros]). Qed.
Lemma still_fs_call : still (λ _, True) (fs_call fate).
Proof. intros w. split; [done|by intros]. Qed.
Lemma still_writable : still (λ _, True) (is_writable fate).
Proof. intros w. split; [done|by intros]. Qed.
Lemma still_get {E A} fine (f : Client → A) : still (E := E) fine (get f).
Proof. intros w. split; [done|by intros]. Qed.
Lemma still_claim {E} fine : still (E := E) fine (claim_completion fate).
Proof. apply at_rest_bind; [apply still_poll|]. intros []; [apply still_ret|apply still_complete]. Qed.

Definition is_death (e : ended) : Prop := ∃ how, e = Died how.

Lemma still_wakes n completes : still is_death (wakes fate n completes).
Proof.
  induction n as [|n IH]; cbn [wakes]; (apply at_rest_bind; [apply still_poll|]); intros []; try by apply still_ret.
  - destruct completes; [apply still_ret|]. intros w. split; [done|]. intros e [= <-]. by eexists.
  - done.
Qed.
Lemma still_interrupted : still is_death (interrupted_first fate).
Proof.
  intros w. unfold interrupted_first. destruct (ft_wakes fate _) as [n c]. destruct (still_wakes n c (next w)) as [Hs He].
  split; [|done]. etrans; [|exact Hs]. done.
Qed.

Lemma wp_still {E A} fine (m : eff Client E A) w (Q : Client → result E A → Prop) :
  still fine m → (∀ w' a, steady w w' → Q w' (Ok a)) → (∀ w' e, steady w w' → fine e → Q w' (Err e)) → wp m w Q.
Proof.
  intros Hm H1 H2. destruct (Hm w) as [Hs He]. unfold wp. destruct (m w) as [w' [a|e]]; [by apply H1|]. apply H2; [done|]. by apply He.
Qed.

(** A poll that goes on in a steady state. *)
Lemma wp_poll_pending {E} w (Q : Client → result E bool → Prop) :
  (∀ w' b, steady w w' → Q w' (Ok b)) → wp (poll_pending fate) w Q.
Proof. intros HQ. apply (wp_still (λ _, False)); [apply still_poll|done|done]. Qed.
Lemma wp_still_try {E F A} (m : eff Client E A) w (Q : Client → result F (result E A) → Prop) :
  still (λ _, True) m → (∀ w' r, steady w w' → Q w' (Ok r)) → wp (io_try m) w Q.
Proof. intros Hm HQ. apply (wp_still (λ _, False)); [by apply still_try|done|done]. Qed.

(** What an attempt to print the identifier leaves. *)
Definition printed (bytes : string) (w w' : Client) (r : result ended (option (result io_error unit))) : Prop :=
  cw_disk w' = cw_disk w ∧ cw_evidence w' = cw_evidence w ∧
  tm_observed (cw_term w') = tm_observed (cw_term w) ∧
  match r with
  | Ok (Some (Ok _)) => tm_out (cw_term w') = tm_out (cw_term w) +:+ bytes
  | Ok (Some (Err _)) => True
  | Ok None => tm_out (cw_term w') = tm_out (cw_term w)
  | Err e => ∃ how, e = Died how
  end.

Lemma printed_steady bytes w w1 w' r : steady w w1 → printed bytes w1 w' r → printed bytes w w' r.
Proof. intros [H1 H2 H3 _]. unfold printed. by rewrite H1, H2, H3. Qed.

Lemma substring_ge s n : (String.length s ≤ n)%nat → String.substring 0 n s = s.
Proof.
  revert n. induction s as [|a s IH]; intros n Hn; [by destruct n|]. destruct n as [|n]; cbn in Hn; [lia|].
  cbn. f_equal. apply IH. lia.
Qed.

Lemma printed_none bytes w w' : steady w w' → printed bytes w w' (Ok None).
Proof. intros [H1 H2 H3 _]. unfold printed. by rewrite H1, H2, H3. Qed.
Lemma printed_failed bytes w w' err : steady w w' → printed bytes w w' (Ok (Some (Err err))).
Proof. intros [H1 H2 H3 _]. unfold printed. by rewrite H1, H2, H3. Qed.
Lemma printed_died bytes w w' e : steady w w' → is_death e → printed bytes w w' (Err e).
Proof. intros [H1 H2 H3 _] Hd. unfold printed. by rewrite H1, H2, H3. Qed.

Lemma emit_now_spec bytes w0 w : steady w0 w → wp (emit_now fate bytes) w (printed bytes w0).
Proof.
  intros Hs. apply wp_bind, (wp_still (λ _, False)); [apply still_claim| |done]. intros w1 [] H1.
  2: { apply wp_ret, printed_none. by etrans. }
  eapply wp_mono; [|intros ? ?; apply (printed_steady bytes w0 w1); by etrans].
  apply wp_bind, wp_try. unfold write_atomic, wp. destruct (ft_written fate (cw_tick w1)) as [n|e]; [|done].
  cbn [fst snd]. destruct (Nat.leb_spec (String.length bytes) n); cbn; split_and!; try done.
  unfold put, shown. cbn. by rewrite substring_ge.
Qed.

(** A turn that does not end, whatever comes after it. *)
Lemma emit_turn_spec bytes w0 w (k : cmd (option (result io_error unit))) :
  steady w0 w → (∀ w', steady w0 w' → wp k w' (printed bytes w0)) →
  wp (triggered ← poll_pending fate;
      if triggered : bool then mret None
      else
        writable ← io_try (is_writable fate);
        match writable with
        | Err e => mret (Some (Err e))
        | Ok true => emit_now fate bytes
        | Ok false =>
            triggered ← interrupted_first fate;
            if triggered : bool then mret None
            else
              ready ← io_try (fs_call fate);
              match ready with Err e => mret (Some (Err e)) | Ok _ => k end
        end) w (printed bytes w0).
Proof.
  intros Hs Hk. apply wp_bind, wp_poll_pending. intros w1 b1 H1. assert (H01 : steady w0 w1) by by etrans.
  destruct b1; [by apply wp_ret, printed_none|]. apply wp_bind, wp_still_try; [apply still_writable|].
  intros w2 r2 H2. assert (H02 : steady w0 w2) by by etrans.
  destruct r2 as [[]|e2]; [by apply emit_now_spec| |by apply wp_ret, printed_failed].
  apply wp_bind, (wp_still is_death); [apply still_interrupted| |]; intros w3 r3 H3.
  - assert (H03 : steady w0 w3) by by etrans. destruct r3; [by apply wp_ret, printed_none|].
    apply wp_bind, wp_still_try; [apply still_fs_call|]. intros w4 r4 H4. assert (H04 : steady w0 w4) by by etrans.
    destruct r4 as [[]|e4]; [by apply Hk|by apply wp_ret, printed_failed].
  - intros Hd. apply printed_died; [by etrans|done].
Qed.

Lemma emit_turns_spec turns bytes w0 : ∀ w, steady w0 w → wp (emit_turns fate turns bytes) w (printed bytes w0).
Proof.
  induction turns as [|turns IH]; intros w Hs.
  - apply (emit_turn_spec bytes w0 w (io_fail (Died Pending))); [done|]. intros w' H'.
    apply wp_fail, printed_died; [done|by eexists].
  - by apply (emit_turn_spec bytes w0 w (emit_turns fate turns bytes)).
Qed.

Lemma emit_spec id w : wp (emit_session_id_controlled fate id) w (printed (id +:+ newline) w).
Proof.
  apply wp_bind, wp_still_try; [apply still_fs_call|]. intros w1 [[]|e] H1; [|by apply wp_ret, printed_failed].
  apply wp_bind, wp_poll_pending. intros w2 b H2. assert (H02 : steady w w2) by by etrans.
  destruct b; [by apply wp_ret, printed_none|]. apply wp_bind, wp_still_try; [apply still_writable|].
  intros w3 r H3. assert (H03 : steady w w3) by by etrans.
  destruct r as [[]|e]; [by apply emit_now_spec| |by apply wp_ret, printed_failed].
  apply wp_bind, wp_still_try; [apply still_fs_call|]. intros w4 r H4. assert (H04 : steady w w4) by by etrans.
  destruct r as [[]|e].
  - apply wp_bind. unfold get, wp at 1. cbn [fst snd]. by apply emit_turns_spec.
  - apply wp_bind, wp_poll_pending. intros w5 b H5. assert (H05 : steady w w5) by by etrans.
    apply wp_ret. destruct b; [by apply printed_none|by apply printed_failed].
Qed.

(** The evidence is on disk when its last write succeeded. *)
Definition on_record (status : string) (session : option string) (w : Client) : Prop :=
  ∃ p, cw_disk w = Some p ∧ lf_status (pv_life p) = status ∧ is_session_id (pv_ids p) = session.

Lemma finish_evidence_spec status w :
  wp (finish fate status) w (λ w' r, quiet w w' ∧ (r = Ok tt → on_record status (session_of w) w')).
Proof.
  assert (Hq : quiet w (finish fate status w).1) by apply calm_finish.
  apply wp_bind. unfold get, wp at 1. cbn [fst snd]. apply wp_bind. unfold edit at 1, wp at 1. cbn [fst snd].
  apply wp_bind, wp_try. unfold write_provenance, wp at 1.
  destruct (ft_fs fate _) as [e|] eqn:Ef.
  - cbn [fst snd]. apply wp_bind. unfold note_failure, wp at 1. cbn [fst snd]. apply wp_fail. split; [|done]. by split.
  - cbn [fst snd]. apply wp_ret. split; [by split|]. intros _. by eexists.
Qed.

Lemma steady_quiet w w' : steady w w' → quiet w w'.
Proof.
  intros [E1 E2 E3 E4]. split; try congruence; unfold session_of, cleanup_of, provenance; [by rewrite E2..|by rewrite E4].
Qed.
Lemma on_record_steady status session w w' : steady w w' → on_record status session w → on_record status session w'.
Proof. intros [_ _ E _] (p & H & H'). exists p. by rewrite E. Qed.

Lemma finish_controlled_spec status w :
  wp (finish_evidence_controlled fate status) w (λ w' r, quiet w w' ∧
    match r with
    | Ok (Some (Ok _)) => on_record status (session_of w) w'
    | Ok _ => True
    | Err e => is_death e
    end).
Proof.
  apply wp_bind, wp_try. eapply wp_mono; [apply finish_evidence_spec|]. intros w1 r1 [Hq Hr].
  apply wp_bind, (wp_still is_death); [apply still_interrupted| |]; intros w2 x H2.
  - apply wp_ret. split; [etrans; [exact Hq|by apply steady_quiet]|]. destruct x; [done|].
    destruct r1 as [[]|]; [|done]. eapply on_record_steady; [done|]. by apply Hr.
  - intros Hd. split; [etrans; [exact Hq|by apply steady_quiet]|done].
Qed.

Lemma exit_disk {A} code w : cw_disk (evidence_exit (A := A) fate code w).1 = cw_disk w.
Proof.
  unfold evidence_exit, get, mbind, eff_bind, say, io_map_err, on_terminal, leave, io_fail. cbn [fst snd].
  destruct (se_persistence_failure _); [|done]. by destruct (eprintln _ _ _) as [t [[]|]].
Qed.

(** A session that is stopped before the command fails. *)
Lemma stopped_ends {A} w0 w id codes (m : cmd A) :
  calm m → leaves codes m → 130 ∉ codes → tm_observed (cw_term w) = [id] →
  wp (_ ← record_best_effort_stop fate id endpoint token; m) w (ends_well w0).
Proof.
  intros Hc Hl Hn Hob. apply wp_bind. eapply wp_mono; [apply record_stop_spec|].
  intros w1 r (status & -> & [E1 E2] & _ & Hs). eapply recorded_ends; [done..|]. rewrite E2, Hob. set_solver.
Qed.

(** What a ready session's command ends with: its session is announced or stopped. *)
Lemma announce_spec w0 w id :
  tm_out (cw_term w) = tm_out (cw_term w0) → tm_observed (cw_term w) = [id] → session_of w = Some id →
  wp (announce_session fate id endpoint token) w (ends_well w0).
Proof.
  intros Ho Hob Hs.
  assert (Hint : ∀ w1 message, quiet w w1 →
    wp (finish_interrupted_session (A := unit) fate id endpoint token message) w1 (ends_well w0)).
  { intros w1 message [E1 E2 _ _ _]. apply interrupted_session_ends; [congruence|]. rewrite E2, Hob. set_solver. }
  assert (Hdied : ∀ w1 e, tm_observed (cw_term w1) = [id] → is_death e → ends_well (A := unit) w0 w1 (Err e)).
  { intros w1 e _ [how ->]. exists (Died how). split; [done|]. split; [|done]. intros. right. left. by eexists. }
  apply wp_bind, wp_poll_pending. intros w1 b H1%steady_quiet. destruct b; [by apply Hint|].
  apply wp_bind. eapply wp_mono; [apply finish_controlled_spec|]. intros w2 r [H2 Hr].
  assert (Hq2 : quiet w w2) by by etrans.
  destruct r as [[[[]|err]|]|e].
  3: by apply Hint.
  3: { apply Hdied; [|done]. destruct Hq2. congruence. }
  - apply wp_bind, wp_poll_pending. intros w3 b H3. destruct b; [apply Hint; etrans; [done|by apply steady_quiet]|].
    apply wp_bind. eapply wp_mono; [apply emit_spec|]. intros w4 r (Hd & He & Hob4 & Hp).
    assert (Hq3 : quiet w w3) by (etrans; [done|by apply steady_quiet]).
    assert (Hobs : tm_observed (cw_term w4) = [id]) by (destruct Hq3; congruence).
    destruct r as [[[[]|err]|]|e]; [| | |by apply Hdied].
    + destruct (leaves_exit (A := unit) fate [0; 1] 0 ltac:(set_solver) ltac:(set_solver) w4) as (e & Hee & Hcode).
      destruct (quiet_term _ _ (calm_exit (A := unit) fate 0 w4)) as [E1 E2].
      exists e. split; [done|]. split.
      * intros i Hi. right. right. left. rewrite E2, Hobs in Hi. apply list_elem_of_singleton in Hi as ->. split.
        -- rewrite E1, Hp. destruct Hq3. by rewrite qt_out0, Ho.
        -- destruct Hr as (p & Hdisk & Hstat & Hsess). exists p. destruct H1, H3. rewrite exit_disk. split_and!; congruence.
      * intros ->. cbn in Hcode. set_solver.
    + apply (stopped_ends w0 w4 id [1]); [calmly|apply leaves_failure|set_solver|done].
    + apply interrupted_session_ends; [destruct Hq3; congruence|]. rewrite Hobs. set_solver.
  - apply (stopped_ends w0 w2 id [1]); [calmly|apply leaves_provenance|set_solver|]. destruct Hq2. congruence.
Qed.
End start.

(** * A response that is read further *)

Definition grows {E A} (m : eff Term E A) : Prop := ∀ t, tm_observed t `prefix_of` tm_observed (m t).1.

Lemma grows_silent {E A} (m : eff Term E A) : silent m → grows m.
Proof. intros Hm t. by destruct (Hm t) as [_ ->]. Qed.
Lemma grows_bind {E A B} (m : eff Term E A) (k : A → eff Term E B) : grows m → (∀ a, grows (k a)) → grows (m ≫= k).
Proof.
  intros Hm Hk t. specialize (Hm t). unfold mbind, eff_bind. destruct (m t) as [t' [a|e]]; [|done].
  etrans; [exact Hm|apply Hk].
Qed.
Lemma grows_send id : grows (send_observed id).
Proof. intros t. cbn. by eexists. Qed.

(** [m'] goes on where [m] waits, and does what [m] does otherwise. *)
Definition goes_further {A B} (R : A → B → Prop) (m : eff Term stopped A) (m' : eff Term stopped B) : Prop :=
  ∀ t, ((m t).2 = Err Pending ∧ tm_observed (m t).1 `prefix_of` tm_observed (m' t).1) ∨
       ((m t).1 = (m' t).1 ∧
        match (m t).2, (m' t).2 with Ok a, Ok b => R a b | Err e, Err e' => e = e' | _, _ => False end).

Lemma further_refl {A} (m : eff Term stopped A) : goes_further eq m m.
Proof. intros t. right. split; [done|]. by destruct (m t).2. Qed.
Lemma further_pending {A B} R (m : eff Term stopped B) : grows m → goes_further (A := A) R (io_fail Pending) m.
Proof. intros Hm t. left. split; [done|apply Hm]. Qed.
Lemma further_bind {A B A' B'} (R : A → B → Prop) (R' : A' → B' → Prop) m m' (k : A → eff Term stopped A') k' :
  goes_further R m m' → (∀ a b, R a b → goes_further R' (k a) (k' b)) → (∀ b, grows (k' b)) →
  goes_further R' (m ≫= k) (m' ≫= k').
Proof.
  intros Hm Hk Hg t. specialize (Hm t). unfold mbind, eff_bind.
  destruct (m t) as [t1 r1], (m' t) as [t2 r2]. cbn in Hm.
  destruct Hm as [[-> Hp]|[-> Hr]].
  - left. split; [done|]. destruct r2 as [b|e]; [|done]. etrans; [exact Hp|apply Hg].
  - destruct r1 as [a|e], r2 as [b|e']; try done; [by apply Hk|]. right. by subst.
Qed.
Lemma further_prefix {A B} (R : A → B → Prop) m m' t :
  goes_further R m m' → tm_observed (m t).1 `prefix_of` tm_observed (m' t).1.
Proof. intros H. by destruct (H t) as [[_ ?]|[-> _]]. Qed.

Section further.
Context {S : Type} (on_line : S → string → eff Term stopped S).
Hypothesis Hline : ∀ s l, grows (on_line s l).

Lemma grows_drain fuel : ∀ pending s, grows (drain_lines on_line fuel pending s).
Proof.
  induction fuel as [|fuel IH]; intros pending s; cbn [drain_lines]; [by intros t|].
  destruct (next_line pending) as [[l rest]|]; [|by intros t].
  apply grows_bind; [by apply grows_silent, silent_lift|]. intros l'. apply grows_bind; [|auto].
  destruct (is_empty _); [by intros t|done].
Qed.
Lemma grows_chunk chunk pending s : grows (take_chunk on_line chunk pending s).
Proof. unfold take_chunk, other. destruct (_ <? _); [by intros t|apply grows_drain]. Qed.

Lemma grows_read_body failure finished body : ∀ pending s, grows (read_body on_line failure finished body pending s).
Proof.
  induction body as [|[c| |m] body IH]; intros pending s; cbn [read_body]; try by intros t.
  apply grows_bind; [apply grows_chunk|]. intros [p s']. destruct (finished s'); [by intros t|apply IH].
Qed.

(** What is left of the body is longer. *)
Definition longer (more : list body_poll) (a b : string * S * option (list body_poll)) : Prop :=
  b.1 = a.1 ∧ b.2 = (λ rest, rest ++ more) <$> a.2.

Lemma read_body_further failure finished body more : ∀ pending s,
  goes_further (longer more) (read_body on_line failure finished body pending s)
    (read_body on_line failure finished (body ++ more) pending s).
Proof.
  induction body as [|[c| |m] body IH]; intros pending s; cbn [read_body app].
  - apply further_pending, grows_read_body.
  - eapply further_bind; [apply further_refl| |].
    + intros [p s'] ? <-. destruct (finished s'); [|apply IH]. intros t. by right.
    + intros [p s']. destruct (finished s'); [by intros t|apply grows_read_body].
  - intros t. by right.
  - intros t. by right.
Qed.
End further.

Lemma drained_further failure extra body more :
  goes_further eq (drained failure extra body) (drained failure extra (body ++ more)).
Proof.
  induction body as [|[c| |m] body IH]; cbn [drained app].
  - apply further_pending, grows_silent, silent_drained.
  - destruct (is_empty c); [done|apply further_refl].
  - apply further_refl.
  - apply further_refl.
Qed.

Section further_start.
Context {codec : EventCodec} (faults : nat → Sink → fault) (limits : OutputLimits).

Lemma grows_start_event r event : grows (start_event faults r event).
Proof.
  destruct event as [id status phase ms code tmo|d|d|code message ph|id rev phases|code tmo fp phases];
    cbn [start_event]; unfold other, show_event, or_other.
  - destruct (valid_session_id id); cbn [negb]; [|by intros t]. apply grows_bind.
    + destruct (sr_started_id r); [by destruct (negb _); intros t|].
      apply grows_bind; [apply grows_send|]. by intros _ t.
    + intros started. apply grows_silent, silent_bind; [|eauto with silent].
      destruct (session_message _ _ _ _ _ _); eauto with silent.
  - apply grows_silent, silent_bind; [eauto with silent|]. intros []; eauto with silent.
  - apply grows_silent, silent_bind; [eauto with silent|]. intros []; eauto with silent.
  - apply grows_silent. eauto with silent.
  - apply grows_silent. destruct (_ || _); eauto with silent.
  - by intros t.
Qed.
Lemma grows_start_line r line : grows (start_line faults r line).
Proof.
  unfold start_line, other. destruct (is_some _); [by intros t|].
  apply grows_bind; [by apply grows_silent, silent_lift|]. intros. apply grows_start_event.
Qed.

(** The end of the reader. *)
Lemma silent_start_end (p : string) (r : start_reader) (rest : option (list body_poll)) :
  silent (
    _ ← match rest with
        | None => mret tt
        | Some rest =>
            if negb (is_empty p) then other "session start response contained data after its final event"
            else drained "failed to finish Ready delivery: "
                   "session start response contained events after its final event" rest
        end;
    _ ← finish_output faults (sr_logs r) (sr_output r) true;
    option_expect (sr_result r) (Failed (Other "missing ready or exit event"))).
Proof.
  apply silent_bind.
  - destruct rest; [destruct (negb _)|]; unfold other; eauto with silent.
  - intros. apply silent_bind; [eauto with silent|]. intros. apply silent_lift.
Qed.

Lemma grows_start body : grows (read_session_start_response faults body limits).
Proof.
  apply grows_bind; [apply grows_silent; eauto with silent|]. intros [logs output].
  apply grows_bind; [apply grows_read_body, grows_start_line|]. intros [[p r] rest].
  apply grows_silent, silent_start_end.
Qed.

Lemma start_response_further body more :
  goes_further eq (read_session_start_response faults body limits)
    (read_session_start_response faults (body ++ more) limits).
Proof.
  unfold read_session_start_response. eapply further_bind; [apply further_refl| |].
  - intros [logs output] ? <-. eapply further_bind; [apply read_body_further, grows_start_line| |].
    + intros [[p r] rest] [[p' r'] rest'] [E1 E2]. cbn in E1, E2. injection E1 as -> ->. subst rest'.
      eapply further_bind with (R := eq).
      * destruct rest as [rest|]; cbn [fmap option_fmap option_map]; [|apply further_refl].
        destruct (negb _); [apply further_refl|apply drained_further].
      * intros [] ? <-. apply further_refl.
      * intros. apply grows_silent, silent_bind; [eauto with silent|]. intros. apply silent_lift.
    + intros [[p r] rest]. apply grows_silent, silent_start_end.
  - intros [logs output]. apply grows_bind; [apply grows_read_body, grows_start_line|]. intros [[p r] rest].
    apply grows_silent, silent_start_end.
Qed.
End further_start.

(** * The loop around a response *)

Section controlled.
Context {codec : EventCodec} {requests : RequestCodec} {serde : Serde} (env : Surroundings) (fate : Fate).
Context (endpoint : Endpoint) (token : option string) (limits : OutputLimits) (answer : send_error + reply).

Definition start_stream : nat → eff Term stopped SessionStartResult :=
  streamed "start" answer (λ body, read_session_start_response (ft_faults fate) body limits).

Lemma start_stream_spec polls t0 :
  tm_observed t0 = [] →
  wp (start_stream polls) t0 (λ t r,
    tm_out t = tm_out t0 ∧ ∃ o, tm_observed t = option_list o ∧
    ∀ res id, r = Ok res → st_session_id res = Some id → o = Some id).
Proof.
  intros H0. unfold start_stream, streamed.
  assert (Hfail : ∀ e, wp (io_fail e : eff Term stopped SessionStartResult) t0 (λ t r,
    tm_out t = tm_out t0 ∧ ∃ o, tm_observed t = option_list o ∧
    ∀ res id, r = Ok res → st_session_id res = Some id → o = Some id)).
  { intros e. apply wp_fail. split; [done|]. by exists None. }
  destruct polls as [|more], answer as [err|response]; try apply Hfail.
  destruct (is_success _); [|destruct more; apply Hfail].
  eapply wp_mono; [apply start_response_spec|]. intros t r [[Ho (id & Hob & _)] Hr]. split; [done|].
  rewrite H0 in Hob. exists id. split; [done|]. intros res i Er Ei. destruct (Hr res i Er Ei) as [_ E].
  rewrite H0, Hob in E. by destruct id; simplify_eq/=.
Qed.

Lemma start_stream_further polls round t0 :
  tm_observed (start_stream polls t0).1 `prefix_of` tm_observed (start_stream (polls + round) t0).1.
Proof.
  unfold start_stream, streamed. destruct polls as [|more]; cbn [Nat.add].
  - cbn. destruct round as [|more], answer as [err|response]; try done. destruct (is_success _); [|by destruct more].
    apply grows_start.
  - destruct answer as [err|response]; [done|]. destruct (is_success _); [|by destruct more, round].
    eapply further_prefix. replace (take (more + round) (rp_body response)) with
      (take more (rp_body response) ++ take round (drop more (rp_body response))) by by rewrite take_take_drop.
    apply start_response_further.
Qed.

(** Where the loop is: the identifier on the channel, if any, is the one that was taken
    once it was. *)
Definition watching (t0 : Term) (received : nat) (seen : option string) (w : Client) : Prop :=
  tm_out (cw_term w) = tm_out t0 ∧ ∃ o, tm_observed (cw_term w) = option_list o ∧
  match seen with
  | Some id => o = Some id ∧ received = 1%nat ∧ session_of w = Some id
  | None => received = 0%nat
  end.

Lemma watching_steady t0 received seen w w' : steady w w' → watching t0 received seen w → watching t0 received seen w'.
Proof.
  intros [E1 E2 _ _]. unfold watching, session_of, provenance. by rewrite E1, E2.
Qed.

Lemma set_session_id_spec id w :
  wp (set_session_id fate id) w (λ w' _, cw_term w' = cw_term w ∧ session_of w' = Some id).
Proof.
  apply wp_bind. unfold edit, wp at 1. cbn [fst snd]. apply wp_bind, wp_try. unfold write_provenance, wp at 1.
  by destruct (ft_fs fate _).
Qed.

Lemma control_spec t0 rounds : ∀ polls received seen w,
  tm_observed t0 = [] → cw_term w = (start_stream polls t0).1 → watching t0 received seen w →
  wp (control fate (set_session_id fate) start_stream t0 rounds polls received seen) w (λ w' r,
    match r with
    | Ok (c, received, seen) =>
        watching t0 received seen w' ∧
        match c with
        | CtlProvenance _ => is_some seen = true
        | CtlCompleted (Ok res) => ∀ id, st_session_id res = Some id → tm_observed (cw_term w') = [id]
        | _ => True
        end
    | Err e => is_death e
    end).
Proof.
  induction rounds as [|round rounds IH]; intros polls received seen w H0 Ht Hw; cbn [control].
  { apply wp_fail. by eexists. }
  apply wp_bind, wp_poll_pending. intros w1 b H1. assert (Hw1 : watching t0 received seen w1) by by eapply watching_steady.
  assert (Ht1 : cw_term w1 = (start_stream polls t0).1) by (destruct H1; congruence).
  destruct b; [by apply wp_ret|]. apply wp_bind. unfold get, wp at 1. cbn [fst snd].
  destruct (tm_observed (cw_term w1) !! received) as [id|] eqn:El.
  - destruct seen as [x|].
    { destruct Hw1 as (_ & o & Eo & -> & -> & _). by rewrite Eo in El. }
    apply wp_bind, wp_try. eapply wp_mono; [apply set_session_id_spec|]. intros w2 r [E2 Es].
    assert (Hw2 : watching t0 1 (Some id) w2).
    { destruct Hw1 as (Ho & o & Eo & Hr). split; [congruence|]. exists (Some id).
      destruct o as [y|]; [|by rewrite Eo in El]. subst received. rewrite Eo in El. injection El as <-. by rewrite E2. }
    assert (received = 0%nat) as -> by (by destruct Hw1 as (_ & o & _ & ?)).
    destruct r as [[]|err]; [|by apply wp_ret]. apply IH; [done|congruence|done].
  - apply wp_bind. unfold poll_remote, wp at 1. pose proof (start_stream_spec (polls + round) t0 H0) as Hs.
    pose proof (start_stream_further polls round t0) as Hf. unfold wp in Hs.
    destruct (start_stream (polls + round) t0) as [t r] eqn:Er. cbn [fst snd] in *.
    destruct Hs as (Ho & o & Eo & Hres).
    assert (Hw2 : watching t0 received seen (set_term t w1)).
    { destruct Hw1 as (_ & o1 & Eo1 & Hm). rewrite Ht1 in Eo1. split; [done|]. exists o. split; [done|].
      destruct seen as [id|]; [|done]. destruct Hm as (-> & -> & Hs). split; [|by split].
      rewrite Eo1, Eo in Hf. destruct o as [y|]; [|by apply prefix_nil_not in Hf]. by apply prefix_cons_inv_1 in Hf as ->. }
    destruct r as [res|[err| |]].
    + apply wp_ret. split; [done|]. intros id Hid. cbn. by rewrite Eo, (Hres res id eq_refl Hid).
    + by apply wp_ret.
    + apply wp_fail. by eexists.
    + apply IH; [done|by rewrite Er|done].
Qed.
End controlled.

Section start_command.
Context {codec : EventCodec} {requests : RequestCodec} {serde : Serde} (env : Surroundings) (fate : Fate).

Section at_endpoint.
Context (endpoint : Endpoint) (token : option string).

Definition watched (t0 : Term) (w : Client) (c : Controlled (result BuildError SessionStartResult) * nat * option string) : Prop :=
  let '(c, received, seen) := c in
  watching t0 received seen w ∧
  match c with
  | CtlProvenance _ => is_some seen = true
  | CtlCompleted (Ok res) => ∀ id, st_session_id res = Some id → tm_observed (cw_term w) = [id]
  | _ => True
  end.

Lemma watching_none t0 w : tm_out (cw_term w) = tm_out t0 → tm_observed (cw_term w) = [] → watching t0 0 None w.
Proof. intros H1 H2. split; [done|]. by exists None. Qed.

Lemma controlled_start_spec request limits w :
  wp (controlled_start fate request endpoint token limits) w (λ w' r,
    match r with Ok c => watched (cw_term w) w' c | Err e => is_death e end).
Proof.
  apply wp_bind. unfold open_channel, wp at 1. cbn [fst snd]. set (w1 := set_term _ w).
  assert (Hn : ∀ w2, quiet w1 w2 → watching (cw_term w) 0 None w2).
  { intros w2 [E1 E2 _ _ _]. by apply watching_none. }
  apply wp_bind, wp_poll_pending. intros w2 b H2%steady_quiet. destruct b; [apply wp_ret; by split; [apply Hn|]|].
  apply wp_bind, wp_try, wp_calm; [unfold start_request; calmly|]. intros w3 r H3.
  assert (H13 : quiet w1 w3) by by etrans. destruct r as [[]|err]; [|apply wp_ret; by split; [apply Hn|]].
  apply wp_bind, wp_try, wp_calm; [unfold open_archive; calmly|]. intros w4 r H4.
  apply wp_bind, wp_poll_pending. intros w5 b H5%steady_quiet. assert (H15 : quiet w1 w5) by (etrans; [done|]; by etrans).
  destruct b; [apply wp_ret; by split; [apply Hn|]|]. destruct r as [[]|err]; [|apply wp_ret; by split; [apply Hn|]].
  apply wp_bind. unfold send, wp at 1. cbn [fst snd]. apply wp_bind. unfold get, wp at 1. cbn [fst snd].
  destruct H15 as [E1 E2 _ _ _]. eapply wp_mono; [apply control_spec|].
  - done.
  - done.
  - by apply watching_none.
  - intros w6 [[[c received] seen]|e]; [|done]. intros [[Ho Hob] Hc]. split; [|done]. split; [|done]. cbn in Ho. by rewrite Ho, E1.
Qed.

(** The identifiers are the one that was seen, and it is on record. *)
Definition seen_all (t0 : Term) (seen : option string) (w : Client) : Prop :=
  tm_out (cw_term w) = tm_out t0 ∧ tm_observed (cw_term w) = option_list seen ∧ ∀ id, seen = Some id → session_of w = Some id.

Lemma stop_seen_ends {A} w0 w seen codes (m : cmd A) :
  calm m → leaves codes m → tm_out (cw_term w) = tm_out (cw_term w0) → tm_observed (cw_term w) = option_list seen →
  wp (_ ← stop_seen fate seen endpoint token; m) w (ends_well endpoint token w0).
Proof.
  intros Hc Hl Ho Hob. apply wp_bind. destruct seen as [id|]; cbn [stop_seen].
  - apply wp_bind. eapply wp_mono; [apply record_stop_spec|]. intros w1 r (status & -> & [E1 E2] & _ & Hs).
    apply wp_ret. eapply recorded_ends; [done..|intros _; congruence|done|]. rewrite E2, Hob. set_solver.
  - apply wp_ret. destruct (Hl w) as (e & He & _). exists e. split; [done|].
    destruct (quiet_term _ _ (Hc w)) as [E1 E2]. split; [|congruence]. intros i. rewrite E2, Hob. by intros ?%elem_of_nil.
Qed.

(** What a response has come to: the identifiers it sent have all been seen, or the
    command has ended. *)
Definition outcome_known (w0 w : Client) (r : result ended (result BuildError SessionStartResult * option string)) : Prop :=
  match r with
  | Ok (outcome, seen) => seen_all (cw_term w0) seen w ∧
      ∀ res id, outcome = Ok res → st_session_id res = Some id → seen = Some id
  | Err e => accounted endpoint token w0 w e
  end.

Lemma ends_known w0 w r : ends_well endpoint token w0 w r → outcome_known w0 w r.
Proof. by intros (e & -> & ?). Qed.

Lemma start_interrupted_ends w0 w o :
  tm_out (cw_term w) = tm_out (cw_term w0) → tm_observed (cw_term w) = option_list o →
  wp (match o with
      | Some id => finish_interrupted_session fate id endpoint token "interrupted during session initialization"
      | None => finish_early_interrupted fate "interrupted; remote request disconnected"
      end) w (outcome_known w0).
Proof.
  intros Ho Eo. destruct o as [id|].
  - eapply wp_mono; [apply (interrupted_session_ends fate endpoint token w0 w id); [done|]|intros *; apply ends_known].
    rewrite Eo. set_solver.
  - unfold wp. destruct (leaves_early (A := result BuildError SessionStartResult * option string) fate
      "interrupted; remote request disconnected" w) as (e & He & _). rewrite He.
    destruct (early_same fate (A := result BuildError SessionStartResult * option string)
      "interrupted; remote request disconnected" w) as [E2 E3].
    split; [|congruence]. intros i. rewrite E3, Eo. by intros ?%elem_of_nil.
Qed.

Lemma start_outcome_spec w0 w c :
  watched (cw_term w0) w c →
  wp (start_outcome_of fate c endpoint token) w (outcome_known w0).
Proof.
  destruct c as [[c received] seen]. intros [(Ho & o & Eo & Hseen) Hc].
  assert (Hrem : ∃ late, remaining received seen w = (w, Ok late) ∧
    ((late = None ∧ o = seen) ∨ (seen = None ∧ late = o ∧ is_some o = true))).
  { unfold remaining, get, mbind, eff_bind, mret, eff_ret. cbn. eexists. split; [done|]. rewrite Eo.
    destruct seen as [id|]; [left; by destruct Hseen as (-> & _)|]. subst received. destruct o as [id|]; [by right|by left]. }
  destruct Hrem as (late & Erem & Hl).
  destruct c as [outcome| |err]; cbn [start_outcome_of].
  - apply wp_bind. unfold wp at 1. rewrite Erem. cbn [fst snd]. destruct Hl as [[-> ->]|(-> & -> & Hso)].
    + apply wp_ret. split; [split; [done|]; split; [done|]; by intros id ->; destruct Hseen as (_ & _ & ?)|].
      intros res id -> Hid. specialize (Hc id Hid). rewrite Eo in Hc. by destruct seen; simplify_eq/=.
    + destruct o as [id|]; [|done]. apply wp_bind, wp_try. eapply wp_mono; [apply set_session_id_spec|].
      intros w1 r [E1 Es]. destruct r as [[]|err].
      * apply wp_ret. split; [split; [congruence|]; split; [congruence|]; by intros i [= <-]|].
        intros res i -> Hi. specialize (Hc i Hi). rewrite Eo in Hc. by simplify_eq/=.
      * eapply wp_mono; [apply (stopped_ends fate endpoint token w0 w1 id [1]); [calmly|apply leaves_provenance|set_solver|]|].
        { by rewrite E1, Eo. }
        intros *. apply ends_known.
  - apply wp_bind. unfold wp at 1. rewrite Erem. cbn [fst snd]. apply wp_bind.
    assert (Es : match seen with Some id => Some id | None => late end = o).
    { destruct Hl as [[-> ->]|(-> & -> & _)]; [by destruct seen|done]. }
    rewrite Es. destruct late as [id|]; [|by apply wp_ret, start_interrupted_ends]. apply wp_ignore.
    eapply wp_mono; [apply set_session_id_spec|]. intros w1 _ [E1 _]. apply start_interrupted_ends; congruence.
  - eapply wp_mono; [apply (stop_seen_ends w0 w seen [1]); [calmly|apply leaves_provenance|done|]|].
    + rewrite Eo. destruct seen as [id|]; [|done]. by destruct Hseen as (-> & _).
    + intros *. apply ends_known.
Qed.

Lemma seen_quiet t0 seen w w' : quiet w w' → seen_all t0 seen w → seen_all t0 seen w'.
Proof. intros [E1 E2 E3 _ _]. unfold seen_all. by rewrite E1, E2, E3. Qed.

Lemma finish_start_spec w0 w outcome seen connection :
  seen_all (cw_term w0) seen w → (∀ res id, outcome = Ok res → st_session_id res = Some id → seen = Some id) →
  wp (finish_start fate outcome seen endpoint token connection) w (ends_well endpoint token w0).
Proof.
  intros Hs Hres. destruct outcome as [res|err]; cbn [finish_start].
  2: { destruct Hs as (Ho & Hob & _). eapply stop_seen_ends; [calmly|apply leaves_remote_error|done|done]. }
  apply wp_bind. unfold edit at 1, wp at 1. cbn [fst snd]. apply wp_bind. unfold edit at 1, wp at 1. cbn [fst snd].
  set (w1 := with_provenance _ _). assert (H1 : quiet w w1) by by split.
  apply wp_bind, wp_each_ignore; [intros; eauto with calm|]. intros w2 H2.
  assert (Hs2 : seen_all (cw_term w0) seen w2) by (eapply seen_quiet; [by etrans|done]). destruct Hs2 as (Ho & Hob & Hsess).
  destruct (st_session_id res) as [id|] eqn:Eid.
  - assert (seen = Some id) as -> by by eapply Hres. rewrite bool_decide_true by done. cbn [negb].
    apply announce_spec; [done|done|by apply Hsess].
  - eapply (stop_seen_ends _ _ _ [1; normalize_requested_exit (st_exit_code res) (st_timed_out res)]); [calmly| |done|done].
    apply leaves_bind; [intros w' e; unfold io_try; by destruct (finish _ _ _)|]. intros [[]|err].
    + apply leaves_exit; set_solver.
    + eapply leaves_weaken; [apply leaves_provenance|]. set_solver.
Qed.

(** The request and all that follows, from where nothing was printed or received. *)
Lemma run_start_spec w0 w request limits connection :
  quiet w0 w →
  wp (controlled ← controlled_start fate request endpoint token limits;
      '(outcome, seen) ← start_outcome_of fate controlled endpoint token;
      finish_start fate outcome seen endpoint token connection) w (ends_well endpoint token w0).
Proof.
  intros [E1 _ _ _ _]. assert (Hdied : ∀ w1 e, is_death e → ends_well (A := unit) endpoint token w0 w1 (Err e)).
  { intros w1 e [how ->]. exists (Died how). split; [done|]. split; [|done]. intros. right. left. by eexists. }
  apply wp_bind. eapply wp_mono; [apply controlled_start_spec|]. intros w1 [c|e]; [|by apply Hdied]. intros Hc.
  apply wp_bind. eapply wp_mono; [apply (start_outcome_spec w0 w1 c)|].
  - destruct c as [[c received] seen]. destruct Hc as [[Ho Hob] Hc]. split; [|done]. split; [congruence|done].
  - intros w2 [[outcome seen]|e]; [|by exists e]. intros [Hs Hres]. by apply finish_start_spec.
Qed.
End at_endpoint.

(** ** The preparation *)

(** Goes on quietly with a result like this, or leaves with the terminal as it is. *)
Definition prepares {A} (P : A → Prop) (m : cmd A) : Prop :=
  ∀ w, wp m w (λ w' r, match r with Ok a => quiet w w' ∧ P a | Err _ => same_term w w' end).

Lemma prepares_calm {A} (m : cmd A) : calm m → prepares (λ _, True) m.
Proof. intros Hm w. apply wp_calm; [done|]. intros w' [a|e] Hq; [done|by apply quiet_term]. Qed.

Lemma prepares_or_fail {E A} (message : E → string) (r : result E A) : prepares (λ a, r = Ok a) (or_fail fate message r).
Proof.
  intros w. destruct r as [a|e]; cbn [or_fail]; [by apply wp_ret|]. unfold wp.
  destruct (leaves_failure (A := A) fate (message e) w) as (x & -> & _). apply quiet_term, calm_failure.
Qed.

Lemma prepares_early {A} P message : prepares (A := A) P (finish_early_interrupted fate message).
Proof. intros w. unfold wp. destruct (leaves_early (A := A) fate message w) as (e & -> & _). apply early_same. Qed.

Lemma prepares_interrupted message : prepares (λ _, True) (leave_if_interrupted fate message).
Proof.
  intros w. apply wp_bind, wp_poll_pending. intros w1 b H1%steady_quiet. destruct b; [|by apply wp_ret].
  eapply wp_mono; [apply (prepares_early (λ _, False))|].
  intros w2 [a|e]; [by intros [_ ?]|apply same_term_trans; by apply quiet_term].
Qed.

Lemma prepares_bind {A B} P P' (m : cmd A) (k : A → cmd B) :
  prepares P m → (∀ a, P a → prepares P' (k a)) → prepares P' (m ≫= k).
Proof.
  intros Hm Hk w. apply wp_bind. eapply wp_mono; [apply Hm|]. intros w1 [a|e]; [|done]. intros [H1 Ha].
  eapply wp_mono; [by apply Hk|]. intros w2 [b|e]; [|apply same_term_trans; by apply quiet_term].
  intros [H2 ?]. split; [by etrans|done].
Qed.

Lemma prepares_packaged {A} (work : Work A) m1 m2 m3 : prepares (λ _, True) (packaged fate work m1 m2 m3).
Proof.
  unfold packaged. eapply prepares_bind; [apply prepares_calm, calm_interrupted|]. intros [] _.
  - eapply prepares_bind; [apply prepares_calm|]; [destruct (cancelled_note _); eauto with calm|]. intros. apply prepares_early.
  - apply prepares_calm. destruct (wk_result work) as [message|[a|e]]; eauto with calm.
Qed.

Lemma prepares_patterns args cx : prepares (λ _, True) (the_patterns env fate args cx).
Proof. eapply prepares_bind; [apply prepares_or_fail|]. intros. by apply prepares_calm, calm_ret. Qed.

Lemma prepares_credential cx apart : prepares (λ _, True) (check_credential env fate cx apart).
Proof.
  unfold check_credential. destruct (selected_token_path _ _ _) as [path|]; [|by apply prepares_calm, calm_ret].
  destruct (sr_exists _ _); [|by apply prepares_calm, calm_ret]. apply prepares_calm.
  destruct (apart _); cbn; eauto with calm.
Qed.

Lemma prepares_limits cx : prepares (λ _, True) (the_limits env fate cx).
Proof.
  eapply prepares_bind; [apply prepares_calm, calm_get|]. intros directory _. apply prepares_calm.
  destruct (resolve_output_limits _ _ _); cbn; eauto with calm.
Qed.

Lemma prepares_endpoint cx : prepares (λ endpoint,
    resolve_endpoint env (cx_endpoint_arg cx) (cf_connection (cx_config cx)) (cx_config_loaded cx) = Ok endpoint)
  (the_endpoint env fate cx).
Proof. apply prepares_or_fail. Qed.
Lemma prepares_token cx : prepares (λ token,
    resolve_token env (cx_token_file_arg cx) (cf_connection (cx_config cx)) = Ok token) (the_token env fate cx).
Proof. apply prepares_or_fail. Qed.

Lemma prepares_manifest identity : prepares (λ _, True) (edit (with_source identity)).
Proof. by apply prepares_calm, calm_edit. Qed.
Lemma prepares_written manifest : prepares (λ _, True) (io_try (write_manifest fate manifest)).
Proof. apply prepares_calm. unfold write_manifest, io_reject. calmly. Qed.
Lemma prepares_status status : prepares (λ _, True) (or_provenance_failure fate (set_status fate status)).
Proof. apply prepares_calm. unfold or_provenance_failure. calmly. Qed.

(** A step of the preparation, before the rest of a command. *)
Lemma wp_prepares {A B} P (m : cmd A) (k : A → cmd B) w0 w (Q : Client → result ended B → Prop) :
  prepares P m → quiet w0 w → (∀ w' e, same_term w0 w' → Q w' (Err e)) →
  (∀ w' a, quiet w0 w' → P a → wp (k a) w' Q) → wp (m ≫= k) w Q.
Proof.
  intros Hm Hq He Hk. apply wp_bind. eapply wp_mono; [apply Hm|]. intros w1 [a|e].
  - intros [H1 Ha]. apply Hk; [by etrans|done].
  - intros H1. apply He. eapply same_term_trans; [by apply quiet_term|done].
Qed.

(** The next step, from the state the last one left. *)
Ltac prepare step w H He :=
  eapply wp_prepares; [apply step|exact H|exact He|]; clear w H; intros w; intros ?a; intros H; revert a.

(** C9: whatever the server answers, whatever fails and whenever the user interrupts,
    [session start] leaves no session behind that nobody knows of.  Every session
    identifier the client has received is either announced, in full on standard output
    with a durable record that it is ready, or a stop of it at the endpoint of the
    command is on record, sent to the server or noted as failed, unless the process
    dies; and a command that exits as interrupted has printed nothing. *)
Theorem start_leaves_no_session args source_root work cx w0 :
  wp (session_start_command env fate args source_root work cx) w0 (λ w r, ∃ e, r = Err e ∧
    (same_term w0 w ∨
     ∃ endpoint token,
       resolve_endpoint env (cx_endpoint_arg cx) (cf_connection (cx_config cx)) (cx_config_loaded cx) = Ok endpoint ∧
       resolve_token env (cx_token_file_arg cx) (cf_connection (cx_config cx)) = Ok token ∧
       accounted endpoint token w0 w e)).
Proof.
  assert (He : ∀ w' e, same_term w0 w' → ∃ e', Err (A := unit) e = Err e' ∧
    (same_term w0 w' ∨ ∃ endpoint token,
       resolve_endpoint env (cx_endpoint_arg cx) (cf_connection (cx_config cx)) (cx_config_loaded cx) = Ok endpoint ∧
       resolve_token env (cx_token_file_arg cx) (cf_connection (cx_config cx)) = Ok token ∧
       accounted endpoint token w0 w' e')) by eauto.
  unfold session_start_command.
  eapply wp_prepares; [apply prepares_interrupted|done|exact He|]. intros w1 _ H1 _.
  prepare prepares_patterns w1 H1 He. intros patterns _.
  prepare (prepares_calm (get (λ w, se_base (cw_evidence w))) (calm_get _)) w1 H1 He. intros base _.
  prepare prepares_credential w1 H1 He. intros _ _.
  prepare (prepares_endpoint cx) w1 H1 He. intros endpoint Hend.
  prepare (prepares_token cx) w1 H1 He. intros tok Htok.
  prepare prepares_limits w1 H1 He. intros limits _.
  prepare prepares_interrupted w1 H1 He. intros _ _.
  prepare @prepares_packaged w1 H1 He. intros package _.
  prepare prepares_manifest w1 H1 He. intros _ _.
  prepare prepares_written w1 H1 He. intros written _.
  prepare @prepares_or_fail w1 H1 He. intros _ _.
  prepare (prepares_calm (get provenance) (calm_get _)) w1 H1 He. intros p _.
  prepare prepares_status w1 H1 He. intros _ _.
  eapply wp_mono; [by apply (run_start_spec endpoint tok w0 w1)|].
  intros w2 r (e & -> & Ha). exists e. split; [done|]. right. by exists endpoint, tok.
Qed.
End start_command.

(** * How a command exits *)

Create HintDb exits discriminated.

Section exits.
Context {codec : EventCodec} {requests : RequestCodec} {serde : Serde} (env : Surroundings) (fate : Fate).

(** An exit with [code] is one where [P] holds, [code] being 0 or that of an
    interruption. *)
Context (code : N) (P : Client → Prop).
Hypothesis Hcode : code ∉ [1; 124; 222].

Definition exits_well {A} (m : cmd A) : Prop := ∀ w, (m w).2 = Err (Exit code) → P (m w).1.

Lemma exits_bind {A B} (m : cmd A) (k : A → cmd B) : exits_well m → (∀ a, exits_well (k a)) → exits_well (m ≫= k).
Proof.
  intros Hm Hk w. specialize (Hm w). unfold mbind, eff_bind. destruct (m w) as [w' [a|e]]; [apply Hk|].
  intros [= ->]. by apply Hm.
Qed.
Lemma exits_goes {A} codes (m : cmd A) : goes_on codes m → code ∉ codes → exits_well m.
Proof. intros Hm Hn w E. by apply Hm in E. Qed.
Lemma exits_leaves {A} codes (m : cmd A) : leaves codes m → code ∉ codes → exits_well m.
Proof. intros Hm Hn w E. destruct (Hm w) as (e & E' & Hd). rewrite E in E'. injection E' as <-. done. Qed.

Lemma exits_ret {A} (a : A) : exits_well (mret a).
Proof. by intros w. Qed.
Lemma exits_get {A} (f : Client → A) : exits_well (get f).
Proof. by intros w. Qed.
Lemma exits_edit f : exits_well (edit f).
Proof. by intros w. Qed.
Lemma exits_try {E A} (m : eff Client E A) : exits_well (io_try m).
Proof. intros w. unfold io_try. by destruct (m w). Qed.
Lemma exits_ignore {E A} (m : eff Client E A) : exits_well (ignore m).
Proof. apply exits_bind; [apply exits_try|]. intros. apply exits_ret. Qed.
Lemma exits_each {E A B} (f : A → eff Client E B) l : exits_well (io_each (λ x, ignore (f x)) l).
Proof. induction l as [|x l IH]; [apply exits_ret|]. apply exits_bind; [apply exits_ignore|done]. Qed.
Lemma exits_died {A} how : exits_well (A := A) (io_fail (Died how)).
Proof. by intros w. Qed.
Lemma exits_expect {A} (o : option A) how : exits_well (option_expect o (Died how)).
Proof. intros w. by destruct o. Qed.
Lemma exits_say message : exits_well (say fate message).
Proof. apply (exits_goes []); [apply goes_say|set_solver]. Qed.
Lemma exits_still {A} (m : cmd A) : still is_death m → exits_well m.
Proof. intros Hm w E. destruct (Hm w) as [_ Hd]. by destruct (Hd _ E). Qed.
Lemma exits_poll : exits_well (poll_pending fate).
Proof. apply exits_still, still_poll. Qed.
Lemma exits_claim : exits_well (claim_completion fate).
Proof. apply exits_still, still_claim. Qed.
Lemma exits_interrupted : exits_well (interrupted_first fate).
Proof. apply exits_still, still_interrupted. Qed.
Lemma exits_failure {A} message : exits_well (finish_session_failure (A := A) fate message false).
Proof. eapply exits_leaves; [apply leaves_failure|set_solver]. Qed.
Lemma exits_provenance {A} err : exits_well (provenance_failure (A := A) fate err).
Proof. eapply exits_leaves; [apply leaves_provenance|set_solver]. Qed.
Lemma exits_remote {A} err connection : exits_well (finish_remote_session_error (A := A) fate err connection).
Proof. eapply exits_leaves; [apply leaves_remote_error|set_solver]. Qed.
Lemma exits_record id endpoint token : exits_well (record_best_effort_stop fate id endpoint token).
Proof. apply (exits_goes []); [apply goes_record|set_solver]. Qed.
Lemma exits_send request : exits_well (send fate request).
Proof. by intros w. Qed.

Hint Resolve exits_ret exits_get exits_edit exits_try exits_ignore exits_each exits_died exits_expect exits_say exits_poll
  exits_claim exits_interrupted exits_failure exits_provenance exits_remote exits_record exits_send : exits.

Ltac exiting := repeat first
  [ progress eauto with exits
  | progress intros
  | apply exits_bind
  | match goal with |- exits_well (match ?x with _ => _ end) => destruct x end ].

Lemma exits_or_fail {E A} (message : E → string) (r : result E A) : exits_well (or_fail fate message r).
Proof. unfold or_fail. exiting. Qed.
Lemma exits_or_provenance m : exits_well (or_provenance_failure fate m).
Proof. unfold or_provenance_failure. exiting. Qed.
Hint Resolve exits_or_fail exits_or_provenance : exits.
Lemma exits_credential cx apart : exits_well (check_credential env fate cx apart).
Proof. unfold check_credential. exiting. Qed.
Lemma exits_limits cx : exits_well (the_limits env fate cx).
Proof. unfold the_limits. exiting. Qed.
Lemma exits_controlled status : exits_well (finish_evidence_controlled fate status).
Proof. unfold finish_evidence_controlled. exiting. Qed.
Lemma exits_stop_request session endpoint token : exits_well (controlled_stop fate session endpoint token).
Proof. unfold controlled_stop. exiting. Qed.
Lemma exits_download archive endpoint token : exits_well (controlled_download fate archive endpoint token).
Proof. unfold controlled_download. exiting. Qed.
Lemma exits_emit id : exits_well (emit_session_id_controlled fate id).
Proof.
  intros w E. pose proof (emit_spec fate id w) as H. unfold wp in H. rewrite E in H. by destruct H as (_ & _ & _ & ? & ?).
Qed.
Lemma exits_read_input input : exits_well (read_action_input fate input).
Proof. unfold read_action_input. exiting. Qed.
Lemma exits_restrictions restrictions : exits_well (show_restrictions fate restrictions).
Proof. unfold show_restrictions. exiting. Qed.
Lemma exits_remaining received seen : exits_well (remaining received seen).
Proof. unfold remaining. exiting. Qed.
Hint Resolve exits_credential exits_limits exits_controlled exits_stop_request exits_download exits_emit
  exits_read_input exits_restrictions exits_remaining : exits.

Lemma exits_control {A} set_id (remote : nat → eff Term stopped A) t0 rounds : ∀ polls received seen,
  exits_well (control fate set_id remote t0 rounds polls received seen).
Proof.
  induction rounds as [|round rounds IH]; intros polls received seen; cbn [control]; [exiting|].
  apply exits_bind; [exiting|]. intros []; [exiting|]. apply exits_bind; [exiting|]. intros [id|].
  - destruct seen; [done|]. apply exits_bind; [exiting|]. intros []; [done|exiting].
  - apply exits_bind; [intros w; unfold poll_remote; by destruct (remote _ _)|].
    intros [a|[err| |]]; [exiting|exiting|exiting|done].
Qed.
Hint Resolve exits_control : exits.
Lemma exits_action_control args endpoint token limits : exits_well (controlled_action fate args endpoint token limits).
Proof. unfold controlled_action, failed_early. apply exits_bind; [by intros w|]. exiting. Qed.
Hint Resolve exits_action_control : exits.

(** The exit of a computation that goes on from the evidence written last. *)
Lemma exits_finish {A} (S : Client → Prop) status (k : option (result io_error unit) → cmd A) :
  (∀ w, wp (finish_evidence_controlled fate status) w (λ w' r, match r with Ok (Some (Ok _)) => S w' | _ => True end)) →
  (∀ w, S w → (k (Some (Ok tt)) w).2 = Err (Exit code) → P (k (Some (Ok tt)) w).1) →
  exits_well (k None) → (∀ err, exits_well (k (Some (Err err)))) → exits_well (finish_evidence_controlled fate status ≫= k).
Proof.
  intros Hf Hok Hn He w. specialize (Hf w). pose proof (finish_controlled_spec fate status w) as Hd. unfold wp in Hf, Hd.
  unfold mbind, eff_bind. destruct (finish_evidence_controlled fate status w) as [w1 [[[[]|err]|]|e]]; cbn [fst snd] in *.
  - by apply Hok.
  - apply He.
  - apply Hn.
  - by destruct Hd as [_ [how ->]].
Qed.

(** The election, then the exit. *)
Lemma exits_election {A} (S : Client → Prop) (m n : cmd A) :
  (∀ w w', steady w w' → S w → S w') → (∀ w, S w → (m w).2 = Err (Exit code) → P (m w).1) → exits_well n →
  ∀ w, S w → ((claimed ← claim_completion fate; if claimed : bool then m else n) w).2 = Err (Exit code) →
  P ((claimed ← claim_completion fate; if claimed : bool then m else n) w).1.
Proof.
  intros HS Hm Hn w Hw. unfold mbind, eff_bind. destruct (still_claim (E := ended) fate (λ _, False) w) as [Hs He].
  destruct (claim_completion fate w) as [w1 [[]|e]]; cbn [fst snd] in *; [|apply Hn|by destruct (He e eq_refl)].
  apply Hm. by eapply HS.
Qed.

(** A poll of the interruption before the rest. *)
Lemma exits_polled {A} (S : Client → Prop) (k : bool → cmd A) :
  (∀ w w', steady w w' → S w → S w') → (∀ w, S w → (k false w).2 = Err (Exit code) → P (k false w).1) →
  exits_well (k true) → ∀ w, S w → ((poll_pending fate ≫= k) w).2 = Err (Exit code) → P ((poll_pending fate ≫= k) w).1.
Proof.
  intros HS Hm Hn w Hw. unfold mbind, eff_bind. destruct (still_poll (E := ended) fate (λ _, False) w) as [Hs He].
  destruct (poll_pending fate w) as [w1 [[]|e]]; cbn [fst snd] in *; [apply Hn| |by destruct (He e eq_refl)].
  apply Hm. by eapply HS.
Qed.

(** ** Once the session and the endpoint are known *)

Section operation.
Context (session : string) (endpoint : Endpoint) (token : option string).
Hypothesis Hstopped : ∀ A message, exits_well (finish_interrupted_session (A := A) fate session endpoint token message).
Hypothesis Hoperation : ∀ status during completion stop_on_failure requested,
  status ∈ ["failed"; "succeeded"] → (requested = 0 → status = "succeeded") →
  exits_well (finish_operation fate session endpoint token status during completion stop_on_failure requested).
Hint Resolve Hstopped : exits.

Lemma exits_action_outcome c : exits_well (action_outcome_of fate c session endpoint token).
Proof. unfold action_outcome_of. destruct c as [[[]?]?]; exiting. Qed.
Lemma exits_fetch archive message : exits_well (fetch_artifacts fate archive session endpoint token message).
Proof. unfold fetch_artifacts. exiting. Qed.
Hint Resolve exits_action_outcome exits_fetch : exits.

Lemma normalize_zero code' timed_out : normalize_requested_exit code' timed_out = 0 → code' = 0%Z ∧ timed_out = false.
Proof.
  unfold normalize_requested_exit, normalize_exit_code. destruct timed_out; [done|].
  destruct (Z.ltb_spec code' 0); [done|]. destruct (Z.ltb_spec 255 code'); [done|]. intros H1. split; [lia|done].
Qed.

#[local] Opaque finish_operation.

Lemma exits_finish_stop response : exits_well (finish_stop fate response session endpoint token).
Proof.
  unfold finish_stop. exiting. apply Hoperation; [destruct (_ && _ && _ && _); set_solver|]. intros Hz.
  destruct (td_error_code _); cbn [is_some is_none orb] in *; [done|]. rewrite andb_true_r in *.
  destruct (_ && _ && _); [done|]. cbn [negb]. apply normalize_zero in Hz as [-> ->]. done.
Qed.
Hint Resolve exits_finish_stop : exits.

Lemma exits_run_stop args cx : pg_session args = session → exits_well (run_stop fate args cx endpoint token).
Proof. intros E. unfold run_stop. rewrite E. exiting. Qed.

Lemma exits_run_action args input cx limits :
  ag_session args = session → exits_well (run_action fate args input cx endpoint token limits).
Proof.
  intros E. unfold run_action. rewrite E. exiting. apply Hoperation; [destruct (_ || _ || _); set_solver|].
  destruct (_ && _); [done|]. intros [Hz Ht]%normalize_zero. by rewrite Hz, Ht.
Qed.
End operation.
End exits.

(** * Success is on record *)

Section success.
Context {codec : EventCodec} {requests : RequestCodec} {serde : Serde} (env : Surroundings) (fate : Fate).

(** The last write of the evidence succeeded, and so did all before; its status is one
    of [statuses]. *)
Definition recorded_as (statuses : list string) (w : Client) : Prop :=
  se_persistence_failure (cw_evidence w) = None ∧ ∃ p, cw_disk w = Some p ∧ lf_status (pv_life p) ∈ statuses.

Context (statuses : list string).
Abbreviation succeeds := (exits_well 0 (recorded_as statuses)).

Lemma zero_code : 0 ∉ [1; 124; 222].
Proof. set_solver. Qed.
Hint Resolve zero_code : core.

Lemma succeeds_early {A} message : succeeds (finish_early_interrupted (A := A) fate message).
Proof. eapply exits_leaves; [apply leaves_early|set_solver]. Qed.
Lemma succeeds_stopped {A} id endpoint token message :
  succeeds (finish_interrupted_session (A := A) fate id endpoint token message).
Proof. eapply exits_leaves; [apply leaves_interrupted|set_solver]. Qed.

Hint Resolve exits_ret exits_get exits_edit exits_try exits_ignore exits_each exits_died exits_expect exits_say exits_poll
  exits_claim exits_interrupted exits_failure exits_provenance exits_remote exits_record exits_send
  exits_or_fail exits_or_provenance exits_credential exits_limits exits_controlled exits_emit
  succeeds_early succeeds_stopped : exits.

Ltac exiting := repeat first
  [ progress eauto with exits
  | progress intros
  | apply exits_bind
  | match goal with |- exits_well _ _ (match ?x with _ => _ end) => destruct x end ].

(** The exit itself, where the evidence has been written. *)
Lemma succeeds_evidence {A} status requested session w :
  on_record status session w → (requested = 0 → status ∈ statuses) →
  (evidence_exit (A := A) fate requested w).2 = Err (Exit 0) →
  recorded_as statuses (evidence_exit (A := A) fate requested w).1.
Proof.
  intros (p & Hd & Hs & _) Hz. unfold recorded_as. rewrite exit_disk.
  unfold evidence_exit, get, mbind, eff_bind, leave, io_fail. cbn [fst snd].
  destruct (se_persistence_failure (cw_evidence w)) as [m|] eqn:Ep.
  - intros E. exfalso. destruct (say fate _ w) as [w' [[]|e]] eqn:Es; [done|]. cbn in E. injection E as ->.
    unfold say, io_map_err, on_terminal in Es. destruct (eprintln _ _ _) as [t [[]|x]]; by simplify_eq.
  - intros [= ->]. split; [done|]. exists p. split; [done|]. rewrite Hs. by apply Hz.
Qed.

Lemma recorded_finish status w :
  wp (finish_evidence_controlled fate status) w (λ w' r,
    match r with Ok (Some (Ok _)) => ∃ session, on_record status session w' | _ => True end).
Proof. eapply wp_mono; [apply finish_controlled_spec|]. intros w' [[[[]|]|]|]; naive_solver. Qed.

Lemma succeeds_operation session endpoint token status during completion stop_on_failure requested :
  (requested = 0 → status ∈ statuses) →
  succeeds (finish_operation fate session endpoint token status during completion stop_on_failure requested).
Proof.
  intros Hz. eapply exits_finish; [apply recorded_finish| |exiting|exiting].
  apply exits_election.
  - intros w w' Hs [x Hr]. exists x. by eapply on_record_steady.
  - intros w [x Hr]. by eapply succeeds_evidence.
  - apply succeeds_stopped.
Qed.

(** Evidence that is written, then a line of output, then the exit with 0. *)
Lemma succeeds_emitted status id (k : option (result io_error unit) → cmd unit) w :
  status ∈ statuses → (∃ session, on_record status session w) → k (Some (Ok tt)) = evidence_exit fate 0 →
  succeeds (k None) → (∀ err, succeeds (k (Some (Err err)))) →
  ((emit_session_id_controlled fate id ≫= k) w).2 = Err (Exit 0) →
  recorded_as statuses ((emit_session_id_controlled fate id ≫= k) w).1.
Proof.
  intros Hst [x Hr] Hk Hn He. unfold mbind, eff_bind. pose proof (emit_spec fate id w) as Hp. unfold wp in Hp.
  destruct (emit_session_id_controlled fate _ w) as [w1 [[[[]|err]|]|e]]; cbn [fst snd] in *.
  - rewrite Hk. eapply (succeeds_evidence status); [|done]. destruct Hr as (p & Hd & Hp'). exists p. destruct Hp as (-> & _). eauto.
  - apply He.
  - apply Hn.
  - destruct Hp as (_ & _ & _ & how & ->). done.
Qed.

Lemma succeeds_update response : "succeeded" ∈ statuses → succeeds (finish_update fate response).
Proof.
  intros Hst. unfold finish_update. do 2 (apply exits_bind; [exiting|intros _]).
  eapply exits_finish; [apply recorded_finish| |exiting|exiting].
  intros w Hr. eapply (succeeds_emitted "succeeded"); [done|done|done|exiting|exiting].
Qed.

Lemma succeeds_announce id endpoint token : "ready" ∈ statuses → succeeds (announce_session fate id endpoint token).
Proof.
  intros Hst. unfold announce_session. apply exits_bind; [exiting|]. intros []; [exiting|].
  eapply exits_finish; [apply recorded_finish| |exiting|exiting].
  apply exits_polled; [| |apply succeeds_stopped].
  - intros w w' Hs [x Hr]. exists x. by eapply on_record_steady.
  - intros w Hr. eapply (succeeds_emitted "ready"); [done|done|done|exiting|exiting].
Qed.

(** A start that made no session. *)
Lemma succeeds_failed requested : "failed" ∈ statuses →
  succeeds (r ← io_try (finish fate "failed");
            match r with Err err => provenance_failure fate err | Ok _ => evidence_exit (A := unit) fate requested end).
Proof.
  intros Hst w. pose proof (finish_evidence_spec fate "failed" w) as [_ Hr]. unfold mbind, eff_bind, io_try.
  destruct (finish fate "failed" w) as [w1 [[]|err]]; cbn [fst snd] in *.
  - intros E. eapply (succeeds_evidence "failed"); [by apply Hr|done|done].
  - by apply exits_provenance.
Qed.

Lemma succeeds_interruption message : succeeds (leave_if_interrupted fate message).
Proof. unfold leave_if_interrupted. exiting. Qed.
Lemma succeeds_packaged {A} (work : Work A) m1 m2 m3 : succeeds (packaged fate work m1 m2 m3).
Proof. unfold packaged. exiting. Qed.
Lemma succeeds_metadata request : succeeds (update_metadata fate request).
Proof. unfold update_metadata. exiting. Qed.
Lemma succeeds_update_request session endpoint token metadata :
  succeeds (controlled_update fate session endpoint token metadata).
Proof. unfold controlled_update. exiting. Qed.
Lemma succeeds_run_action args input cx endpoint token limits :
  "succeeded" ∈ statuses → succeeds (run_action fate args input cx endpoint token limits).
Proof.
  intros Hst. eapply exits_run_action; [done|..]; [intros; apply succeeds_stopped| |done].
  intros * _ Hz. apply succeeds_operation. intros E. by rewrite Hz.
Qed.
Lemma succeeds_run_stop args cx endpoint token :
  "succeeded" ∈ statuses → succeeds (run_stop fate args cx endpoint token).
Proof.
  intros Hst. eapply exits_run_stop; [done|..]; [intros; apply succeeds_stopped| |done].
  intros * _ Hz. apply succeeds_operation. intros E. by rewrite Hz.
Qed.
Lemma succeeds_stop_seen seen endpoint token : succeeds (stop_seen fate seen endpoint token).
Proof. unfold stop_seen. exiting. Qed.
Lemma succeeds_start_request request endpoint token limits :
  succeeds (controlled_start fate request endpoint token limits).
Proof. unfold controlled_start, failed_early. apply exits_bind; [by intros w|]. exiting; apply exits_control. Qed.
Hint Resolve succeeds_stop_seen succeeds_failed succeeds_announce succeeds_start_request : exits.
Lemma succeeds_start_outcome c endpoint token : succeeds (start_outcome_of fate c endpoint token).
Proof. unfold start_outcome_of, remaining. destruct c as [[[]?]?]; exiting. Qed.
Lemma succeeds_finish_start outcome seen endpoint token connection :
  "ready" ∈ statuses → "failed" ∈ statuses → succeeds (finish_start fate outcome seen endpoint token connection).
Proof. intros. unfold finish_start. exiting. Qed.
Lemma succeeds_patterns args cx : succeeds (the_patterns env fate args cx).
Proof. unfold the_patterns. exiting. Qed.
Hint Resolve succeeds_start_outcome succeeds_finish_start succeeds_patterns : exits.
Hint Resolve succeeds_update succeeds_interruption succeeds_packaged succeeds_metadata succeeds_update_request
  succeeds_run_action succeeds_run_stop : exits.
#[local] Opaque finish_update run_action run_stop.

Lemma succeeds_start_command args source_root work cx :
  "ready" ∈ statuses → "failed" ∈ statuses → succeeds (session_start_command env fate args source_root work cx).
Proof. intros. unfold session_start_command, the_endpoint, the_token. exiting. Qed.
Lemma succeeds_update_command args source_root work cx :
  "succeeded" ∈ statuses → succeeds (session_update_command env fate args source_root work cx).
Proof. intros. unfold session_update_command, the_endpoint, the_token. exiting. Qed.
Lemma succeeds_action_command args input cx :
  "succeeded" ∈ statuses → succeeds (session_action_command env fate args input cx).
Proof. intros. unfold session_action_command, the_endpoint, the_token. exiting. Qed.
Lemma succeeds_stop_command args cx : "succeeded" ∈ statuses → succeeds (session_stop_command env fate args cx).
Proof. intros. unfold session_stop_command, the_endpoint, the_token. exiting. Qed.
End success.

(** * An interruption stops the session *)

Definition unsent {E A} (m : eff Client E A) : Prop := ∀ w, cw_sent (m w).1 = cw_sent w.

Lemma unsent_bind {E A B} (m : eff Client E A) (k : A → eff Client E B) : unsent m → (∀ a, unsent (k a)) → unsent (m ≫= k).
Proof.
  intros Hm Hk w. specialize (Hm w). unfold mbind, eff_bind. destruct (m w) as [w' [a|e]]; [|done]. rewrite <-Hm. apply Hk.
Qed.
Lemma unsent_try {E F A} (m : eff Client E A) : unsent m → unsent (io_try (F := F) m).
Proof. intros Hm w. specialize (Hm w). unfold io_try. by destruct (m w). Qed.
Lemma unsent_ignore {E F A} (m : eff Client E A) : unsent m → unsent (ignore (F := F) m).
Proof. intros Hm. apply unsent_bind; [by apply unsent_try|]. by intros ? w. Qed.

Section interruption.
Context {codec : EventCodec} {requests : RequestCodec} {serde : Serde} (env : Surroundings) (fate : Fate).

Lemma unsent_edit_persist f : unsent (_ ← edit f; persist fate).
Proof.
  apply unsent_bind; [by intros w|]. intros _. apply unsent_bind.
  - apply unsent_try. intros w. unfold write_provenance. by destruct (ft_fs fate _).
  - intros []; [by intros w|]. apply unsent_bind; by intros.
Qed.
Lemma unsent_finish status : unsent (finish fate status).
Proof. apply unsent_bind; [by intros w|]. intros. apply unsent_edit_persist. Qed.
Lemma unsent_say message : unsent (say fate message).
Proof. intros w. unfold say, io_map_err, on_terminal. by destruct (eprintln _ _ _). Qed.
Lemma unsent_exit {A} code : unsent (evidence_exit (A := A) fate code).
Proof. apply unsent_bind; [by intros w|]. intros []; [|by intros w]. apply unsent_bind; [apply unsent_say|]. by intros _ w. Qed.

Lemma unsent_early {A} message : unsent (finish_early_interrupted (A := A) fate message).
Proof.
  apply unsent_bind; [by intros w|]. intros p. apply unsent_bind.
  { destruct (_ && _); [apply unsent_ignore, unsent_edit_persist|by intros w]. }
  intros _. apply unsent_bind; [apply unsent_ignore, unsent_edit_persist|]. intros _.
  apply unsent_bind; [apply unsent_ignore, unsent_finish|]. intros _. apply unsent_bind; [apply unsent_say|].
  intros _. apply unsent_exit.
Qed.

Definition status_of (w : Client) : string := lf_status (pv_life (provenance w)).

Section known.
Context (session : string) (endpoint : Endpoint) (token : option string).

(** The session of an interrupted command has a stop on record. *)
Definition stopped_if_interrupted (w : Client) : Prop := status_of w = "interrupted" → stop_recorded endpoint token session w.

Abbreviation stops := (exits_well 130 stopped_if_interrupted).

Lemma stops_interrupted {A} message : stops (finish_interrupted_session (A := A) fate session endpoint token message).
Proof. intros w _ _. apply interrupted_recorded. Qed.

(** The status of the evidence after its last edit. *)
Lemma finish_status status w : wp (finish_evidence_controlled fate status) w (λ w' _, status_of w' = status).
Proof.
  apply wp_bind, wp_try. apply wp_bind. unfold get, wp at 1. cbn [fst snd]. apply wp_bind. unfold edit, wp at 1. cbn [fst snd].
  apply wp_bind, wp_try. unfold write_provenance, wp at 1.
  assert (Hend : ∀ w1 (r : result io_error unit), status_of w1 = status → wp (triggered ← interrupted_first fate;
    mret (if triggered : bool then None else Some r)) w1 (λ w' _, status_of w' = status)).
  { intros w1 r Hs. assert (Hst : ∀ w2, steady w1 w2 → status_of w2 = status).
    { intros w2 [_ E _ _]. unfold status_of, provenance in *. by rewrite E. }
    apply wp_bind, (wp_still is_death); [apply still_interrupted|intros; apply wp_ret|]; auto. }
  destruct (ft_fs fate _) as [e|]; cbn [fst snd]; [|by apply wp_ret, Hend].
  apply wp_bind. unfold note_failure, wp at 1. cbn [fst snd]. by apply wp_fail, Hend.
Qed.

Lemma exit_status {A} code w : status_of (evidence_exit (A := A) fate code w).1 = status_of w.
Proof.
  unfold evidence_exit, get, mbind, eff_bind, say, io_map_err, on_terminal, leave, io_fail. cbn [fst snd].
  destruct (se_persistence_failure _); [|done]. by destruct (eprintln _ _ _) as [t [[]|]].
Qed.

Lemma stops_operation status during completion stop_on_failure requested :
  status ∈ ["failed"; "succeeded"] →
  stops (finish_operation fate session endpoint token status during completion stop_on_failure requested).
Proof.
  intros Hst. assert (H130 : 130 ∉ [1; 124; 222]) by set_solver.
  eapply (exits_finish _ _ _ (λ w, status_of w = status)).
  - intros w. eapply wp_mono; [apply finish_status|]. by intros w' [[[[]|]|]|].
  - apply exits_election.
    + intros w w' [_ E _ _]. unfold status_of, provenance. by rewrite E.
    + intros w Hs _. unfold stopped_if_interrupted. rewrite exit_status, Hs. intros ->.
      by apply elem_of_cons in Hst as [?|?%list_elem_of_singleton].
    + apply stops_interrupted.
  - apply stops_interrupted.
  - intros err. apply exits_bind; [|intros _; by apply exits_provenance].
    destruct stop_on_failure; [|apply exits_ret]. apply exits_bind; [by apply exits_record|]. intros. apply exits_ret.
Qed.

Lemma stops_run_action args input cx limits :
  ag_session args = session → stops (run_action fate args input cx endpoint token limits).
Proof.
  intros E. eapply exits_run_action; [set_solver|..]; [|intros; by apply stops_operation|done]. intros. apply stops_interrupted.
Qed.
Lemma stops_run_stop args cx : pg_session args = session → stops (run_stop fate args cx endpoint token).
Proof.
  intros E. eapply exits_run_stop; [set_solver|..]; [|intros; by apply stops_operation|done]. intros. apply stops_interrupted.
Qed.
End known.

(** The first poll of a command, before it sends anything. *)
Lemma wp_first_poll {B} message (k : unit → cmd B) w (Q : Client → result ended B → Prop) :
  (∀ w' e, cw_sent w' = cw_sent w → Q w' (Err e)) → (∀ w', quiet w w' → wp (k tt) w' Q) →
  wp (leave_if_interrupted fate message ≫= k) w Q.
Proof.
  intros He Hk. apply wp_bind, wp_bind, wp_poll_pending. intros w1 b H1. destruct b.
  - pose proof (unsent_early (A := unit) message w1) as Hu. destruct (leaves_early (A := unit) fate message w1) as (e & E & _).
    unfold wp. rewrite E. apply He. rewrite Hu. by destruct H1.
  - apply wp_ret, Hk. by apply steady_quiet.
Qed.

(** A step that does not exit as interrupted, before the rest of a command. *)
Lemma wp_no_interrupt {A B} R (m : cmd A) (k : A → cmd B) w (Q : Client → result ended B → Prop) :
  (∀ w' e, e ≠ Exit 130 → Q w' (Err e)) → exits_well 130 (λ _, False) m →
  (∀ w, match (m w).2 with Ok a => R a | Err _ => True end) → (∀ w' a, R a → wp (k a) w' Q) → wp (m ≫= k) w Q.
Proof.
  intros He Hm HR Hk. apply wp_bind. unfold wp at 1. specialize (Hm w). specialize (HR w).
  destruct (m w) as [w' [a|e]]; [by apply Hk|]. apply He. intros ->. by apply Hm.
Qed.

Lemma or_fail_result {E A} (message : E → string) (r : result E A) w :
  match (or_fail fate message r w).2 with Ok a => r = Ok a | Err _ => True end.
Proof.
  destruct r as [a|e]; cbn [or_fail]; [done|]. by destruct (leaves_failure (A := A) fate (message e) w) as (x & -> & _).
Qed.

(** What an interrupted operation on [session] comes to. *)
Definition interruption_noticed (cx : CommandContext) (session : string) (w0 w : Client) : Prop :=
  cw_sent w = cw_sent w0 ∨
  ∃ endpoint token,
    resolve_endpoint env (cx_endpoint_arg cx) (cf_connection (cx_config cx)) (cx_config_loaded cx) = Ok endpoint ∧
    resolve_token env (cx_token_file_arg cx) (cf_connection (cx_config cx)) = Ok token ∧
    stop_recorded endpoint token session w.

(** A step that does not exit with 130. *)
Ltac past He H :=
  apply (wp_no_interrupt (λ _, True)); [exact He|by apply H|by intros ?; first [done|destruct (snd _)]|].
Ltac past_with He m :=
  eapply (wp_no_interrupt _ m); [exact He|by apply exits_or_fail|apply or_fail_result|].

(** C20: an interrupted action or stop does not leave its session running: when the
    command exits with 130 and its evidence says [interrupted], either nothing was ever
    sent to the server, or a stop of the session at the endpoint of the command is on
    record, sent to the server or noted as failed. *)
Theorem interruption_stops_session w0 :
  (∀ args input cx, wp (session_action_command env fate args input cx) w0 (λ w r,
     r = Err (Exit 130) → status_of w = "interrupted" → interruption_noticed cx (ag_session args) w0 w)) ∧
  (∀ args cx, wp (session_stop_command env fate args cx) w0 (λ w r,
     r = Err (Exit 130) → status_of w = "interrupted" → interruption_noticed cx (pg_session args) w0 w)).
Proof.
  assert (H130 : 130 ∉ [1; 124; 222]) by set_solver.
  split; intros.
  - unfold session_action_command. apply wp_first_poll; [by left|]. intros w1 _.
    assert (He : ∀ w' e, e ≠ Exit 130 → Err (A := unit) e = Err (Exit 130) → status_of w' = "interrupted" →
      interruption_noticed cx (ag_session args) w0 w') by (intros w' e He [= ->]; done).
    past He exits_or_fail. intros w2 _ _.
    past He exits_or_fail. intros w3 _ _.
    past He exits_get. intros w4 base _.
    past He exits_credential. intros w5 _ _.
    past_with He (the_endpoint env fate cx). intros w6 endpoint Hend.
    past_with He (the_token env fate cx). intros w7 token Htok.
    past He exits_limits. intros w8 limits _.
    intros E Hs. right. exists endpoint, token. split; [exact Hend|]. split; [exact Htok|].
    by apply (stops_run_action (ag_session args) endpoint token args input cx limits eq_refl w8).
  - unfold session_stop_command. apply wp_first_poll; [by left|]. intros w1 _.
    assert (He : ∀ w' e, e ≠ Exit 130 → Err (A := unit) e = Err (Exit 130) → status_of w' = "interrupted" →
      interruption_noticed cx (pg_session args) w0 w') by (intros w' e He [= ->]; done).
    past He exits_or_fail. intros w2 _ _.
    past He exits_get. intros w4 base _.
    past He exits_credential. intros w5 _ _.
    past_with He (the_endpoint env fate cx). intros w6 endpoint Hend.
    past_with He (the_token env fate cx). intros w7 token Htok.
    intros E Hs. right. exists endpoint, token. split; [exact Hend|]. split; [exact Htok|].
    by apply (stops_run_stop (pg_session args) endpoint token args cx eq_refl w7).
Qed.
End interruption.

(** * An update that is sent is one the server accepts *)

(** The client's encoding of an update's metadata is read back by the server's
    decoder, its version first. *)
Class UpdateCodecLaws `{RequestCodec, Serde} : Prop := {
  update_request_text request data : update_request_to_vec request = Ok data →
    ∃ value, from_slice data = Ok value ∧ schema_version_of value = Ok (su_schema_version request) ∧
      decode_session_update value = Ok request;
}.

(** What the server makes of the metadata of an update of [files] and [deletes]
    against [revision]: the request it parses names exactly these paths, and it is
    accepted exactly when the server's limits allow their number and depths. *)
Definition server_reads `{Serde} (files deletes : list string) (revision metadata : string) : Prop :=
  len metadata ≤ MAX_SESSION_UPDATE_METADATA_BYTES ∧
  ∃ request, su_base_revision request = revision ∧
    (∀ p, Delete p ∈ su_changes request ↔ p ∈ deletes) ∧
    (∀ p, (∃ digest, File p digest ∈ su_changes request) ↔ p ∈ files) ∧
    ∀ max_files max_depth,
      parse_session_update_metadata metadata max_files max_depth = Ok request ↔
      N.of_nat (length files + length deletes) ≤ max_files ∧
      Forall (λ p, path_depth p ≤ max_depth) (files ++ deletes).

Lemma unsent_map_err {E F A} (f : E → F) (m : eff Client E A) : unsent m → unsent (io_map_err f m).
Proof. intros Hm w. specialize (Hm w). unfold io_map_err. by destruct (m w). Qed.

Section updates.
Context {codec : EventCodec} `{UpdateCodecLaws} (env : Surroundings) (fate : Fate).

Lemma unsent_ok {E A} (a : A) : unsent (E := E) (mret a).
Proof. by intros w. Qed.
Lemma unsent_get {E A} (f : Client → A) : unsent (E := E) (get f).
Proof. by intros w. Qed.
Lemma unsent_edit {E} f : unsent (E := E) (edit f).
Proof. by intros w. Qed.
Lemma unsent_note {E} err : unsent (E := E) (note_failure err).
Proof. by intros w. Qed.
Lemma unsent_expect {A} (o : option A) how : unsent (option_expect o (Died how)).
Proof. intros w. by destruct o. Qed.
Lemma unsent_write : unsent (write_provenance fate).
Proof. intros w. unfold write_provenance. by destruct (ft_fs fate _). Qed.
Lemma unsent_poll {E} : unsent (poll_pending (E := E) fate).
Proof. intros w. unfold poll_pending. destruct (cw_interrupt w); try done. by destruct (ft_signal _ _) as [[]|]. Qed.
Lemma unsent_wakes n completes : unsent (wakes fate n completes).
Proof.
  induction n as [|n IH]; cbn [wakes]; apply unsent_bind; try apply unsent_poll; intros []; try by intros w.
  by destruct completes.
Qed.
Lemma unsent_interrupted : unsent (interrupted_first fate).
Proof. intros w. unfold interrupted_first. destruct (ft_wakes _ _) as [n c]. exact (unsent_wakes n c (next w)). Qed.
Lemma unsent_failure {A} message c : unsent (finish_session_failure (A := A) fate message c).
Proof.
  apply unsent_bind; [apply unsent_ignore, unsent_edit_persist|intros _].
  apply unsent_bind; [apply unsent_ignore, unsent_finish|intros _].
  apply unsent_bind; [apply unsent_say|intros _]. apply unsent_exit.
Qed.
Lemma unsent_remote {A} err connection : unsent (finish_remote_session_error (A := A) fate err connection).
Proof.
  apply unsent_bind; [by destruct err; intros w|intros _].
  apply unsent_bind; [apply unsent_ignore, unsent_edit_persist|intros _].
  apply unsent_bind; [apply unsent_ignore, unsent_finish|intros _].
  apply unsent_bind; [apply unsent_say|intros _]. apply unsent_exit.
Qed.

Create HintDb unsent discriminated.
Hint Resolve unsent_ok unsent_get unsent_edit unsent_note unsent_expect unsent_write unsent_poll unsent_interrupted
  unsent_failure unsent_remote unsent_early unsent_exit unsent_say unsent_edit_persist unsent_finish unsent_try
  unsent_ignore : unsent.
Ltac unsending := repeat first
  [ progress eauto with unsent
  | progress intros
  | apply unsent_bind
  | match goal with |- unsent (match ?x with _ => _ end) => destruct x end ].

Lemma unsent_provenance {A} err : unsent (provenance_failure (A := A) fate err).
Proof. unfold provenance_failure. unsending. Qed.
Hint Resolve unsent_provenance : unsent.
Lemma unsent_or_fail {E A} (message : E → string) (r : result E A) : unsent (or_fail fate message r).
Proof. unfold or_fail. unsending. Qed.
Lemma unsent_or_provenance m : unsent m → unsent (or_provenance_failure fate m).
Proof. intros Hm. unfold or_provenance_failure. unsending. Qed.
Lemma unsent_leave_interrupted message : unsent (leave_if_interrupted fate message).
Proof. unfold leave_if_interrupted. unsending. Qed.
Lemma unsent_packaged {A} (work : Work A) m1 m2 m3 : unsent (packaged fate work m1 m2 m3).
Proof. unfold packaged, error. unsending. Qed.
Lemma unsent_metadata request : unsent (update_metadata fate request).
Proof. unfold update_metadata. unsending. Qed.
Hint Resolve unsent_or_fail unsent_or_provenance unsent_leave_interrupted unsent_packaged unsent_metadata : unsent.
Lemma unsent_credential cx apart : unsent (check_credential env fate cx apart).
Proof. unfold check_credential. unsending. Qed.
Lemma unsent_controlled status : unsent (finish_evidence_controlled fate status).
Proof. unfold finish_evidence_controlled. unsending. Qed.
Lemma unsent_fs : unsent (fs_call fate).
Proof. by intros w. Qed.
Lemma unsent_writable : unsent (is_writable fate).
Proof. by intros w. Qed.
Lemma unsent_emit_now bytes : unsent (emit_now fate bytes).
Proof.
  unfold emit_now, claim_completion. unsending; intros w.
  - unfold complete. by destruct (cw_interrupt w).
  - unfold io_try, write_atomic. by destruct (ft_written _ _).
Qed.
Hint Resolve unsent_credential unsent_controlled unsent_fs unsent_writable unsent_emit_now : unsent.
Lemma unsent_turns turns bytes : unsent (emit_turns fate turns bytes).
Proof. induction turns; cbn [emit_turns]; unsending. Qed.
Hint Resolve unsent_turns : unsent.
Lemma unsent_emit id : unsent (emit_session_id_controlled fate id).
Proof. unfold emit_session_id_controlled. unsending. Qed.
Hint Resolve unsent_emit : unsent.
Lemma unsent_finish_update response : unsent (finish_update fate response).
Proof. unfold finish_update. unsending. Qed.
Hint Resolve unsent_finish_update : unsent.

(** A step that sends nothing, after others that sent nothing. *)
Lemma wp_unsent {A B} (Φ : A → Prop) (m : cmd A) (k : A → cmd B) w0 w (Q : Client → result ended B → Prop) :
  unsent m → (∀ w, match (m w).2 with Ok a => Φ a | Err _ => True end) → cw_sent w = cw_sent w0 →
  (∀ w' e, cw_sent w' = cw_sent w0 → Q w' (Err e)) →
  (∀ w' a, cw_sent w' = cw_sent w0 → Φ a → wp (k a) w' Q) → wp (m ≫= k) w Q.
Proof.
  intros Hm HΦ Hw He Hk. apply wp_bind. unfold wp at 1. specialize (Hm w). specialize (HΦ w).
  destruct (m w) as [w' [a|e]]; cbn [fst snd] in *; [apply Hk|apply He]; congruence.
Qed.

Lemma packaged_result {A} (work : Work A) m1 m2 m3 w :
  match (packaged fate work m1 m2 m3 w).2 with Ok a => wk_result work = Finished (Ok a) | Err _ => True end.
Proof.
  unfold packaged, mbind, eff_bind. destruct (interrupted_first fate w) as [w1 [[]|]]; [| |done].
  - destruct (cancelled_note _); cbn.
    + destruct (ignore _ w1) as [w2 []]; [|done].
      by destruct (leaves_early (A := A) fate m1 w2) as (x & -> & _).
    + by destruct (leaves_early (A := A) fate m1 w1) as (x & -> & _).
  - destruct (wk_result work) as [message|[a|e]]; [|done|].
    + by destruct (leaves_failure (A := A) fate (m3 +:+ message) w1) as (x & -> & _).
    + by destruct (leaves_failure (A := A) fate (m2 +:+ io_error_message e) w1) as (x & -> & _).
Qed.

Lemma metadata_result request w :
  match (update_metadata fate request w).2 with
  | Ok data => update_request_to_vec request = Ok data ∧ len data ≤ MAX_SESSION_UPDATE_METADATA_BYTES
  | Err _ => True
  end.
Proof.
  unfold update_metadata. destruct (update_request_to_vec request) as [data|err].
  - destruct (N.leb_spec (len data) MAX_SESSION_UPDATE_METADATA_BYTES); [done|].
    match goal with |- context [finish_session_failure _ ?m _] =>
      by destruct (leaves_failure (A := string) fate m w) as (x & -> & _) end.
  - match goal with |- context [finish_session_failure _ ?m _] =>
      by destruct (leaves_failure (A := string) fate m w) as (x & -> & _) end.
Qed.

Ltac silent_step := solve [unsending | apply unsent_or_provenance; unsending].
Ltac quietly w0 :=
  apply (wp_unsent (λ _, True) _ _ w0);
  [silent_step|by intros ?; destruct (_.2)|done|by left|intros ? ? ? _].
Ltac quietly_with w0 H :=
  eapply (wp_unsent _ _ _ w0);
  [silent_step|first [apply or_fail_result|apply packaged_result|apply metadata_result]|done|by left|intros ? ? ? H; cbv beta in H].

(** The request of an update carries its metadata. *)
Lemma update_sends session endpoint token metadata w :
  wp (controlled_update fate session endpoint token metadata) w (λ w' _,
    cw_sent w' = cw_sent w ∨
    ∃ q, cw_sent w' = cw_sent w ++ [q] ∧ hr_metadata q = Some metadata).
Proof.
  unfold controlled_update, update_request, new_client, client_built, open_archive.
  apply (wp_unsent (λ _, True) _ _ w); [unsending|by intros w1; destruct (_.2)|done|by left|].
  intros w1 [] E1 _; [apply wp_ret; by left|].
  apply (wp_unsent (λ _, True) _ _ w);
    [apply unsent_try, unsent_bind; [by intros ?|intros _ ?; by apply unsent_map_err]
    |by intros ?; destruct (_.2)|done|by left|].
  intros w2 [[]|err] E2 _; [|apply wp_ret; by left].
  apply (wp_unsent (λ _, True) _ _ w);
    [by apply unsent_try, unsent_map_err|by intros ?; destruct (_.2)|done|by left|].
  intros w3 opened E3 _.
  apply (wp_unsent (λ _, True) _ _ w); [unsending|by intros w4; destruct (_.2)|done|by left|].
  intros w4 [] E4 _; [apply wp_ret; by left|]. destruct opened as [[]|err]; [|apply wp_ret; by left].
  apply wp_bind. unfold send, wp at 1. cbn [fst snd].
  set (w5 := add_sent _ _). assert (cw_sent w5 = cw_sent w ++ [with_metadata metadata
    (session_request "POST" endpoint ("/v1/sessions/" +:+ session +:+ "/updates") token)]) as E5
    by (subst w5; cbn; by rewrite E4).
  apply (wp_unsent (λ _, True) _ _ w5); [apply unsent_interrupted|by intros ?; destruct (_.2)|done|..].
  - intros w6 e E6. right. eexists. rewrite E6, E5. done.
  - intros w6 [] E6 _; apply wp_ret; right; eexists; rewrite E6, E5; done.
Qed.

(** What the command knows when it has built its request. *)
Lemma request_read args files deletes changed request metadata :
  validate_update_changes (ug_file args) (ug_delete args) = Ok (files, deletes) →
  ev_path <$> changed ≡ₚ files → Forall (λ e, valid_sha256_hex (ev_sha256 e) = true) changed →
  su_schema_version request = SESSION_UPDATE_SCHEMA_VERSION → su_base_revision request = ug_revision args →
  su_changes request = update_changes changed deletes →
  valid_request_id (su_request_id request) = true → is_some (parse_revision (ug_revision args)) = true →
  update_request_to_vec request = Ok metadata → len metadata ≤ MAX_SESSION_UPDATE_METADATA_BYTES →
  server_reads (ug_file args) (ug_delete args) (ug_revision args) metadata.
Proof.
  intros Hv Hc Hh Hs Hb Hch Hid Hrev Hm Hlen. split; [done|]. exists request. split; [done|].
  destruct (update_request_text _ _ Hm) as (value & E1 & E2 & E3). rewrite Hs in E2.
  destruct (validate_update_changes_Ok _ _ _ _ Hv) as (Hpf & Hpd & _).
  assert (Hp : su_changes request ≡ₚ ((λ e, File (ev_path e) (ev_sha256 e)) <$> changed) ++ (Delete <$> deletes)).
  { rewrite Hch. apply merge_sort_Permutation. }
  split_and!.
  - intros p. rewrite Hp, <-Hpd, elem_of_app, !list_elem_of_fmap. naive_solver.
  - intros p. setoid_rewrite Hp. rewrite <-Hpf, <-Hc, list_elem_of_fmap.
    setoid_rewrite elem_of_app. setoid_rewrite list_elem_of_fmap. split.
    + intros (d & [(e & [= -> ->] & ?)|(? & ? & ?)]); [by exists e|done].
    + intros (e & -> & ?). exists (ev_sha256 e). left. by exists e.
  - intros max_files max_depth. eapply update_metadata_parses; try done. by rewrite Hb.
Qed.

(** Where the package of the update comes from. *)
Context `{PackageZip, JjCodec} (sha256 : string → string) (sources : nat → SourceEnv) (json_string : string → string).
Context (invocation_dir filesystem_root : string).

(** C22: an update the client sends is one the server accepts.  However the update
    command is interrupted or fails, it sends nothing or one request, and the metadata
    of that request is within the server's size limit and parsed by the server to a
    request that names exactly the files and deletions of the command line and its base
    revision; the server's parser accepts it exactly when the configured limits on the
    number and the depth of paths allow the command line's.  The digests in it are
    those of the packaged files ([sha256] gives 32 bytes). *)
Theorem client_update_accepted args source_root work cx w0 :
  (∀ s, String.length (sha256 s) = 32%nat) →
  (∀ files deletes pkg, wk_result (work files deletes) = Finished (Ok pkg) →
     ∃ c c', package_update_source_cancellable sha256 sources json_string invocation_dir filesystem_root
       files deletes c = (c', Ok pkg)) →
  wp (session_update_command env fate args source_root work cx) w0 (λ w _,
    cw_sent w = cw_sent w0 ∨
    ∃ q metadata, cw_sent w = cw_sent w0 ++ [q] ∧ hr_metadata q = Some metadata ∧
      server_reads (ug_file args) (ug_delete args) (ug_revision args) metadata).
Proof.
  intros Hsha Hwork. unfold session_update_command, the_endpoint, the_token, set_status.
  quietly w0. quietly w0. quietly_with w0 Hrev. quietly w0. quietly w0. quietly_with w0 Hid.
  quietly_with w0 Hargs.
  match type of Hargs with _ = Ok ?a => destruct a as [files deletes] end.
  do 9 quietly w0. quietly_with w0 Hpkg. do 2 quietly w0. quietly_with w0 Hmd. do 2 quietly w0.
  match type of Hpkg with _ = Finished (Ok ?p) => rename p into package end.
  match type of Hmd with _ = Ok ?m ∧ _ => rename m into metadata end.
  destruct Hmd as [Hmd Hlen]. destruct (Hwork _ _ _ Hpkg) as (c & c' & Hrun).
  destruct (yields_run _ _ _ _ _ (update_package_entries sha256 sources json_string Hsha invocation_dir
    filesystem_root files deletes) Hrun) as [Hpaths Hdigests].
  assert (server_reads (ug_file args) (ug_delete args) (ug_revision args) metadata) as Hread.
  { apply reject_if_Ok, negb_false_iff in Hid. apply reject_if_Ok in Hrev.
    refine (request_read args files deletes (evidence_of <$> up_entries package) _ metadata Hargs
      _ _ _ _ _ _ _ Hmd Hlen); try done.
    - by rewrite <-list_fmap_compose.
    - by apply Forall_fmap.
    - by destruct (parse_revision _). }
  match goal with |- wp _ ?w _ => assert (cw_sent w = cw_sent w0) as Hw by done end.
  apply wp_bind. eapply wp_mono; [apply update_sends|]. rewrite Hw. intros wS outcome Hsent.
  assert (∀ (m : cmd unit), unsent m → wp m wS (λ w _, cw_sent w = cw_sent w0 ∨
    ∃ q metadata, cw_sent w = cw_sent w0 ++ [q] ∧ hr_metadata q = Some metadata ∧
      server_reads (ug_file args) (ug_delete args) (ug_revision args) metadata)) as Hend.
  { intros m Hm. unfold wp. rewrite (Hm wS). destruct Hsent as [->|(q & -> & Hq)]; [by left|right]. by exists q, metadata. }
  destruct outcome as [[[response|err]|]|e]; [| | |].
  - apply Hend. unsending.
  - apply Hend. unsending.
  - apply Hend. unsending.
  - by apply (Hend (io_fail e)).
Qed.
End updates.
