(* ===== verification/CliRun.v ===== *)
(** The client's [run] command and its [main] ([bin/indentured.rs]): the evidence of a
    run, the build request raced against the interruption, the preparation of a session
    command and the dispatch; what an exit with 0 means. *)
From stdpp Require Import base option strings numbers list gmap pretty.
From S2P Require Import Prelude Effects RustStr Fs Protocol ClientSource Archive CliArchive CliOutput CliStream CliSettings CliSession CliSessionTheorems.

Local Open Scope N_scope.

(** * Evidence of a run *)

Record RunProvenance := {
  rp_schema_version : N;
  rp_run_id : string;
  rp_run_status : string;
  rp_source : option SourceIdentity;
  rp_source_root : list component;
  rp_result_path : string;
  rp_started_at : string;
  rp_finished_at : option string;
  rp_remote_build_id : option string;
  rp_remote_exit_code : option Z;
  rp_timed_out : option bool;
  rp_failed_phase : option BuildPhase;
  rp_phases : list PhaseResult;
  rp_artifact_restrictions : option ArtifactRestrictions;
  rp_errors : list string;
}.

Record RunEvidence := {
  rv_base : list component;
  rv_directory : string;
  rv_provenance : RunProvenance;
}.

(** The world of a run: the client's terminal, results directory, requests and clock,
    and the evidence of the run beside them. *)
Record Runner := MkRunner {
  rn_client : Client;
  rn_evidence : RunEvidence;
  rn_disk : option RunProvenance;
}.

Definition run_status (status : string) (finished_at : option string) (p : RunProvenance) : RunProvenance := {|
  rp_schema_version := rp_schema_version p; rp_run_id := rp_run_id p; rp_run_status := status; rp_source := rp_source p;
  rp_source_root := rp_source_root p; rp_result_path := rp_result_path p; rp_started_at := rp_started_at p;
  rp_finished_at := match finished_at with Some now => Some now | None => rp_finished_at p end;
  rp_remote_build_id := rp_remote_build_id p; rp_remote_exit_code := rp_remote_exit_code p;
  rp_timed_out := rp_timed_out p; rp_failed_phase := rp_failed_phase p; rp_phases := rp_phases p;
  rp_artifact_restrictions := rp_artifact_restrictions p; rp_errors := rp_errors p |}.
Definition run_source (source : SourceIdentity) (p : RunProvenance) : RunProvenance := {|
  rp_schema_version := rp_schema_version p; rp_run_id := rp_run_id p; rp_run_status := rp_run_status p;
  rp_source := Some source;
  rp_source_root := rp_source_root p; rp_result_path := rp_result_path p; rp_started_at := rp_started_at p;
  rp_finished_at := rp_finished_at p; rp_remote_build_id := rp_remote_build_id p;
  rp_remote_exit_code := rp_remote_exit_code p; rp_timed_out := rp_timed_out p; rp_failed_phase := rp_failed_phase p;
  rp_phases := rp_phases p; rp_artifact_restrictions := rp_artifact_restrictions p; rp_errors := rp_errors p |}.
Definition run_message (message : string) (p : RunProvenance) : RunProvenance := {|
  rp_schema_version := rp_schema_version p; rp_run_id := rp_run_id p; rp_run_status := rp_run_status p;
  rp_source := rp_source p;
  rp_source_root := rp_source_root p; rp_result_path := rp_result_path p; rp_started_at := rp_started_at p;
  rp_finished_at := rp_finished_at p; rp_remote_build_id := rp_remote_build_id p;
  rp_remote_exit_code := rp_remote_exit_code p; rp_timed_out := rp_timed_out p; rp_failed_phase := rp_failed_phase p;
  rp_phases := rp_phases p; rp_artifact_restrictions := rp_artifact_restrictions p;
  rp_errors := if (length (rp_errors p) <? 32)%nat then rp_errors p ++ [truncate_utf8 message 4096]
               else rp_errors p |}.
Definition run_result (build : BuildResult) (p : RunProvenance) : RunProvenance := {|
  rp_schema_version := rp_schema_version p; rp_run_id := rp_run_id p; rp_run_status := rp_run_status p;
  rp_source := rp_source p;
  rp_source_root := rp_source_root p; rp_result_path := rp_result_path p; rp_started_at := rp_started_at p;
  rp_finished_at := rp_finished_at p; rp_remote_build_id := bd_build_id build;
  rp_remote_exit_code := Some (bd_exit_code build); rp_timed_out := Some (bd_timed_out build);
  rp_failed_phase := bd_failed_phase build; rp_phases := bd_phases build;
  rp_artifact_restrictions := bd_artifact_restrictions build; rp_errors := rp_errors p |}.

(** * The commands *)

Record RunArgs := {
  rg_source : list string;
  rg_source_exclude : list string;
  rg_request_id : option string;
  rg_result_root : option string;
  rg_task : string;
}.

(** An action comes with what its [--input] names. *)
Inductive SessionCommands :=
| CStart (args : SessionStartArgs)
| CUpdate (args : SessionUpdateArgs)
| CAction (args : SessionActionArgs) (input : input_source)
| CStop (args : SessionStopArgs).

(** [Commands], less the host's. *)
Inductive Commands := CRun (args : RunArgs) | CSession (command : SessionCommands).

(** What the rest of the program does: where [find_jj_root] finds a workspace, the
    packages of the sources, and the failure of the thread that loads the
    configuration, if it fails. *)
Record Sources := {
  so_jj_root : result io_error (option (list component));
  so_package : FilesystemPatterns → Work SourcePackage;
  so_update : list string → list string → Work UpdateSourcePackage;
  so_loading : option string;
}.

(** The surroundings are [env], and [after] once the results directory is there. *)
Section run.
Context {codec : EventCodec} {requests : RequestCodec} {serde : Serde} (env after : Surroundings) (fate : Fate).
Context (sources : Sources).

Definition run_cmd (A : Type) : Type := eff Runner ended A.

Definition on_client {E A} (m : eff Client E A) : eff Runner E A := λ r,
  let '(w, x) := m (rn_client r) in (MkRunner w (rn_evidence r) (rn_disk r), x).

Definition run_get {E A} (f : Runner → A) : eff Runner E A := λ r, (r, Ok (f r)).

Definition run_change {E} (f : Runner → Runner) : eff Runner E unit := λ r, (f r, Ok tt).

Definition run_edit {E} (f : RunProvenance → RunProvenance) : eff Runner E unit := λ r,
  let e := rn_evidence r in
  (MkRunner (rn_client r)
     {| rv_base := rv_base e; rv_directory := rv_directory e; rv_provenance := f (rv_provenance e) |} (rn_disk r), Ok tt).

Definition run_ignore {E F A} (m : eff Runner E A) : eff Runner F unit := _ ← io_try m; mret tt.
Definition run_say (message : string) : run_cmd unit := on_client (say fate message).
Definition run_leave {A} (code : N) : run_cmd A := on_client (leave code).

(** [RunEvidence::write_provenance]: a temporary file, renamed. *)
Definition write_run_provenance : eff Runner io_error unit :=
  _ ← on_client (fs_call fate);
  run_change (λ r, MkRunner (rn_client r) (rn_evidence r) (Some (rv_provenance (rn_evidence r)))).

Definition run_set_status (status : string) : eff Runner io_error unit :=
  _ ← run_edit (run_status status None); write_run_provenance.
Definition run_finish (status : string) : eff Runner io_error unit :=
  now ← run_get (λ r, ft_now fate (cw_tick (rn_client r)));
  _ ← run_edit (run_status status (Some now)); write_run_provenance.
Definition run_error (message : string) : eff Runner io_error unit :=
  _ ← run_edit (run_message message); write_run_provenance.

Definition new_run_provenance (source_root : list component) (directory now : string) : RunProvenance := {|
  rp_schema_version := 2; rp_run_id := ft_uuid fate; rp_run_status := "preparing"; rp_source := None;
  rp_source_root := source_root; rp_result_path := directory; rp_started_at := now; rp_finished_at := None;
  rp_remote_build_id := None; rp_remote_exit_code := None; rp_timed_out := None; rp_failed_phase := None;
  rp_phases := []; rp_artifact_restrictions := None; rp_errors := [] |}.

(** [RunEvidence::create], up to what it prints. *)
Definition make_run_evidence (source_root : list component) (explicit_root : option string) : eff Runner io_error unit :=
  '(base, directory) ← on_client (make_directory env fate after explicit_root (Some source_root));
  now ← run_get (λ r, ft_now fate (cw_tick (rn_client r)));
  _ ← run_change (λ r, MkRunner (rn_client r) {| rv_base := base; rv_directory := directory;
         rv_provenance := new_run_provenance source_root directory now |} (rn_disk r));
  write_run_provenance.

(** A failure on record, shown as [shown]: [run] exits with 1. *)
Definition fail_run {A} (message shown : string) : run_cmd A :=
  _ ← run_ignore (run_error message);
  _ ← run_ignore (run_finish "failed");
  _ ← run_say shown;
  run_leave 1.

Definition or_fail_run {E A} (message : E → string) (prefix : string) (r : result E A) : run_cmd A :=
  match r with Ok a => mret a | Err e => fail_run (message e) (prefix +:+ message e) end.

(** ** The race with the interruption *)

(** [select!] without [biased], and [try_recv]: whether the listener's message is taken
    here. *)
Definition raced {E} : eff Client E bool := λ w,
  (next w, Ok (bool_decide (ft_signal fate (cw_tick w) = Some true))).

(** The response is polled further by every element of [rounds], with the interruption
    before or after. *)
Fixpoint watch {A} (remote : nat → eff Term stopped A) (t0 : Term) (rounds : list nat) (polls : nat) :
    cmd (option (result BuildError A)) :=
  match rounds with
  | [] => io_fail (Died Pending)
  | round :: rounds =>
      first ← raced;
      if first : bool then mret None
      else
        let polls := (polls + round)%nat in
        result ← poll_remote remote t0 polls;
        match result with
        | Ok a => mret (Some (Ok a))
        | Err (Failed err) => mret (Some (Err err))
        | Err Panicked => io_fail (Died Panicked)
        | Err Pending => watch remote t0 rounds polls
        end
  end.

(** What [run_build] does before it waits for anything. *)
Definition build_request (request : Request) : eff Client BuildError unit :=
  _ ← new_client fate;
  _ ← io_lift (map_err (λ err, Other ("failed to serialize request: " +:+ err)) (build_request_to_string request));
  io_map_err (λ err, Other ("failed to inspect source archive: " +:+ io_error_message err)) (fs_call fate).

(** The response of a build as far as [polls] go. *)
Definition build_streamed (answer : send_error + reply) (limits : OutputLimits) (polls : nat) :
    eff Term stopped BuildResult :=
  match polls, answer with
  | O, _ => io_fail Pending
  | S _, inl err => io_fail (Failed (send_failed "request failed: " err))
  | S more, inr response =>
      if is_success (rp_status response) then read_responses (ft_faults fate) (take more (rp_body response)) limits
      else match more with
           | O => io_fail Pending
           | S _ => io_fail (Failed (Other ("server returned " +:+ status_display (rp_status response) +:+ ": " +:+
                                            rp_text response)))
           end
  end.

(** [run_build] up to the answer, the interruption at its one wait. *)
Definition raced_request (request : Request) (endpoint : Endpoint) (token : option string) :
    cmd (option (result BuildError (send_error + reply))) :=
  first ← raced;
  if first : bool then mret None
  else
    made ← io_try (build_request request);
    match made with
    | Err err => mret (Some (Err err))
    | Ok _ =>
        opened ← io_try (open_archive fate "source");
        first ← raced;
        if first : bool then mret None
        else match opened with
             | Err err => mret (Some (Err err))
             | Ok _ =>
                 answer ← send fate (session_request "POST" endpoint "/v1/builds" token);
                 mret (Some (Ok answer))
             end
    end.

(** [download_and_extract], whose extraction may go on after the interruption. *)
Definition raced_download (archive : ArtifactArchive) (endpoint : Endpoint) (token : option string) :
    cmd (option (result io_error unit)) :=
  transferred ← io_try (download fate archive endpoint token);
  first ← raced;
  if first : bool then mret None
  else match transferred with
       | Err err => mret (Some (Err err))
       | Ok None => io_fail (Died Pending)
       | Ok (Some data) =>
           r ← io_try (extract fate data);
           first ← raced;
           mret (if first : bool then None else Some r)
       end.

(** The future of a build and its artifacts: [None] when interrupted. *)
Definition run_remote (request : Request) (endpoint : Endpoint) (token : option string) (limits : OutputLimits) :
    cmd (option (result BuildError (BuildResult * option string))) :=
  answered ← raced_request request endpoint token;
  match answered with
  | None => mret None
  | Some (Err err) => mret (Some (Err err))
  | Some (Ok answer) =>
      t0 ← get cw_term;
      outcome ← watch (build_streamed answer limits) t0 (ft_rounds fate) 0;
      match outcome with
      | None => mret None
      | Some (Err err) => mret (Some (Err err))
      | Some (Ok build) =>
          match bd_artifacts build with
          | None => mret (Some (Ok (build, None)))
          | Some archive =>
              downloaded ← raced_download archive endpoint token;
              mret (match downloaded with
                    | None => None
                    | Some (Ok _) => Some (Ok (build, None))
                    | Some (Err err) => Some (Ok (build, Some (io_error_message err)))
                    end)
          end
      end
  end.
(** ** [run] *)

Definition source_root_of (filesystem_root : list component) : result io_error (list component) :=
  found ← so_jj_root sources;
  match found with Some root => Ok root | None => sr_canonicalize env filesystem_root end.

(** The source root, with the message of the call that failed. *)
Definition run_source_root (filesystem_root : list component) : run_cmd (list component) :=
  match so_jj_root sources with
  | Ok (Some root) => mret root
  | Ok None =>
      match sr_canonicalize env filesystem_root with
      | Ok root => mret root
      | Err err => _ ← run_say ("failed to resolve source root: " +:+ io_error_message err); run_leave 1
      end
  | Err err => _ ← run_say ("failed to inspect source root: " +:+ io_error_message err); run_leave 1
  end.

Definition create_run_evidence (source_root : list component) (explicit_root : option string) : run_cmd unit :=
  made ← io_try (make_run_evidence source_root explicit_root);
  match made with
  | Err err => _ ← run_say ("failed to create run results: " +:+ io_error_message err); run_leave 1
  | Ok _ =>
      directory ← run_get (λ r, rv_directory (rn_evidence r));
      run_say (OUTPUT_PREFIX +:+ " results: " +:+ directory)
  end.

Definition run_credential (cx : CommandContext) (source_root : list component) : run_cmd unit :=
  base ← run_get (λ r, rv_base (rn_evidence r));
  match selected_token_path after (cx_token_file_arg cx) (cf_connection (cx_config cx)) with
  | Some path =>
      if sr_exists after (components path)
      then or_fail_run io_error_message "" (reject_credential_overlap after (components path) source_root base)
      else mret tt
  | None => mret tt
  end.

Definition leave_interrupted {A} (message : string) : run_cmd A :=
  _ ← run_ignore (run_finish "interrupted");
  _ ← run_say (OUTPUT_PREFIX +:+ " " +:+ message);
  run_leave 130.

(** The package, or the end of the run. *)
Definition run_packaged (work : Work SourcePackage) : run_cmd SourcePackage :=
  interrupted ← on_client raced;
  if interrupted : bool then
    _ ← match cancelled_note (wk_cancelled work) with Some note => run_ignore (run_error note) | None => mret tt end;
    leave_interrupted "interrupted during source preparation"
  else match wk_result work with
       | Finished (Ok package) => mret package
       | Finished (Err err) => fail_run (io_error_message err) ("failed to package sources: " +:+ io_error_message err)
       | JoinFailed err =>
           fail_run ("source packaging worker failed: " +:+ err) ("source packaging worker failed: " +:+ err)
       end.

Definition build_error_exit (err : BuildError) (connection : option ConnectionConfig) : N :=
  match err with
  | ConnectionFailed _ => connection_failure_exit_code (from_option cc_local_fallback false connection)
  | RemoteTimedOut _ => 124
  | Other _ => 1
  end.

(** The end of a run whose build has a result. *)
Definition finish_run (build : BuildResult) (artifact_error : option string) : run_cmd unit :=
  _ ← run_edit (run_result build);
  _ ← on_client (show_restrictions fate (bd_artifact_restrictions build));
  _ ← match artifact_error with
      | Some message =>
          _ ← run_ignore (run_error ("artifact retrieval failed: " +:+ message));
          _ ← run_say ("failed to fetch artifacts: " +:+ message);
          if (bd_exit_code build =? 0)%Z then _ ← run_ignore (run_finish "failed"); run_leave 1 else mret tt
      | None => mret tt
      end;
  _ ← run_ignore (run_finish (if (bd_exit_code build =? 0)%Z && negb (bd_timed_out build) then "succeeded" else "failed"));
  run_leave (normalize_requested_exit (bd_exit_code build) (bd_timed_out build)).

Definition run_outcome (outcome : option (result BuildError (BuildResult * option string)))
    (connection : option ConnectionConfig) : run_cmd unit :=
  match outcome with
  | None => leave_interrupted "interrupted; remote request disconnected"
  | Some (Err err) =>
      let message := build_error_message err in
      _ ← run_ignore (run_error message);
      _ ← run_ignore (run_finish "failed");
      _ ← run_say ("build request failed: " +:+ message);
      run_leave (build_error_exit err connection)
  | Some (Ok (build, artifact_error)) => finish_run build artifact_error
  end.

Definition run_command (args : RunArgs) (filesystem_root : list component) (cx : CommandContext) : run_cmd unit :=
  let connection := cf_connection (cx_config cx) in
  source_root ← run_source_root filesystem_root;
  _ ← create_run_evidence source_root (rg_result_root args);
  let patterns := resolve_patterns after (cf_sources (cx_config cx)) SOURCES_ENV (rg_source args)
                    SOURCES_EXCLUDE_ENV (rg_source_exclude args) in
  _ ← or_fail_run validation_error_message "" (validate_patterns patterns "sources");
  _ ← run_credential cx source_root;
  endpoint ← or_fail_run io_error_message ""
    (resolve_endpoint after (cx_endpoint_arg cx) connection (cx_config_loaded cx));
  token ← or_fail_run io_error_message "failed to load bearer credential: "
    (resolve_token after (cx_token_file_arg cx) connection);
  directory ← run_get (λ r, rv_directory (rn_evidence r));
  limits ← or_fail_run io_error_message "" (resolve_output_limits (var after) (cf_output (cx_config cx)) directory);
  package ← run_packaged (so_package sources
    {| fp_include := pc_include patterns; fp_exclude := pc_exclude patterns |});
  _ ← run_edit (run_source (pk_identity package));
  written ← io_try (on_client (write_manifest fate (pk_manifest package)));
  _ ← or_fail_run io_error_message "failed to write source manifest: " written;
  interrupted ← on_client raced;
  if interrupted : bool then leave_interrupted "interrupted during source preparation"
  else
    run_id ← run_get (λ r, rp_run_id (rv_provenance (rn_evidence r)));
    let request := {| rq_schema_version := REQUEST_SCHEMA_VERSION;
                      rq_request_id := Some (default run_id (rg_request_id args));
                      rq_task := rg_task args; rq_source := {| format := Zip |} |} in
    _ ← run_ignore (run_set_status "running");
    outcome ← on_client (run_remote request endpoint token limits);
    run_outcome outcome connection.

(** ** [main] *)

(** A thread of its own: its panic is an error of the one that joins it. *)
Definition in_worker {A} (m : cmd (result io_error A)) : cmd (joined_work A) := λ w,
  match m w with
  | (w, Ok r) => (w, Ok (Finished r))
  | (w, Err (Died Panicked)) => (w, Ok (JoinFailed (ft_join fate)))
  | (w, Err e) => (w, Err e)
  end.

(** Evidence with a source root. *)
Definition create_with_source (operation : string) (session_id explicit_root : option string)
    (filesystem_root : list component) : cmd (result io_error (option (list component))) :=
  match source_root_of filesystem_root with
  | Err err => mret (Err err)
  | Ok source_root =>
      made ← create_evidence env fate after operation session_id None explicit_root (Some source_root);
      mret (match made with Ok _ => Ok (Some source_root) | Err err => Err err end)
  end.

Definition prepare_session_evidence (command : SessionCommands) (filesystem_root : list component) :
    cmd (result io_error (option (list component))) :=
  match command with
  | CStart args => create_with_source "start" None (sg_result_root args) filesystem_root
  | CUpdate args =>
      made ← create_with_source "update" (Some (ug_session args)) (ug_result_root args) filesystem_root;
      match made with
      | Err err => mret (Err err)
      | Ok source_root =>
          p ← get provenance;
          _ ← edit (with_request (default (pv_invocation_id p) (ug_request_id args)) (ug_revision args));
          written ← io_try (write_provenance fate);
          mret (match written with Ok _ => Ok source_root | Err err => Err err end)
      end
  | CAction args _ =>
      made ← create_evidence env fate after "action" (Some (ag_session args)) (Some (ag_action args))
               (ag_result_root args) None;
      mret (match made with Ok _ => Ok None | Err err => Err err end)
  | CStop args =>
      made ← create_evidence env fate after "stop" (Some (pg_session args)) None (pg_result_root args) None;
      mret (match made with Ok _ => Ok None | Err err => Err err end)
  end.

Definition session_command (command : SessionCommands) (source_root : option (list component)) (cx : CommandContext) :
    cmd unit :=
  match command with
  | CStart args =>
      source_root ← option_expect source_root (Died Panicked);
      session_start_command after fate args source_root (so_package sources) cx
  | CUpdate args =>
      source_root ← option_expect source_root (Died Panicked);
      session_update_command after fate args source_root (so_update sources) cx
  | CAction args input => session_action_command after fate args input cx
  | CStop args => session_stop_command after fate args cx
  end.

Definition disabled_message : string :=
  OUTPUT_PREFIX +:+ " disabled (INDENTURED_SERVER_ENABLED/connection.enabled)".

(** [main] of a session command, once the interruption is watched for. *)
Definition session_main (command : SessionCommands) (config_path : option (list component))
    (filesystem_root : list component) (endpoint_arg token_file_arg : option string) : cmd unit :=
  _ ← poll_pending fate;
  prepared ← in_worker (prepare_session_evidence command filesystem_root);
  interrupted ← interrupted_first fate;
  match prepared with
  | JoinFailed err => _ ← say fate ("session evidence worker failed: " +:+ err); leave 1
  | Finished (Err err) => _ ← say fate ("failed to create session evidence: " +:+ io_error_message err); leave 1
  | Finished (Ok source_root) =>
      if interrupted : bool then finish_early_interrupted fate "interrupted during session preparation"
      else
        interrupted ← interrupted_first fate;
        match so_loading sources with
        | Some err =>
            finish_session_failure_elected fate ("client configuration worker failed: " +:+ err) false
        | None =>
            if interrupted : bool then finish_early_interrupted fate "interrupted while loading client configuration"
            else match load_client_config after (render <$> config_path) with
                 | Err err =>
                     finish_session_failure_elected fate
                       ("failed to load client configuration: " +:+ io_error_message err) false
                 | Ok config =>
                     _ ← leave_if_interrupted fate "interrupted after client configuration";
                     if negb (resolve_connection_enabled after (cf_connection config)) then
                       _ ← leave_if_interrupted fate "interrupted before session dispatch";
                       finish_session_failure_elected fate disabled_message true
                     else session_command command source_root
                            {| cx_endpoint_arg := endpoint_arg; cx_token_file_arg := token_file_arg;
                               cx_config := config; cx_config_loaded := is_some config_path |}
                 end
        end
  end.

(** [main] of a run. *)
Definition run_main (args : RunArgs) (config_path : option (list component)) (filesystem_root : list component)
    (endpoint_arg token_file_arg : option string) : run_cmd unit :=
  match load_client_config env (render <$> config_path) with
  | Err err => _ ← run_say (io_error_message err); run_leave 1
  | Ok config =>
      if negb (resolve_connection_enabled env (cf_connection config)) then
        _ ← run_say disabled_message; run_leave CONNECTION_FALLBACK_EXIT_CODE
      else run_command args filesystem_root
             {| cx_endpoint_arg := endpoint_arg; cx_token_file_arg := token_file_arg;
                cx_config := config; cx_config_loaded := is_some config_path |}
  end.

(** The configuration file is in a directory of the repository's root. *)
Definition main (command : Commands) (current_dir : result io_error (list component))
    (endpoint_arg token_file_arg : option string) : run_cmd unit :=
  match current_dir with
  | Err err => _ ← run_say ("failed to resolve current directory: " +:+ io_error_message err); run_leave 1
  | Ok run_dir =>
      let config_path := find_client_config_path env run_dir in
      let repo_root := from_option (λ path, take (length path - 2) path) run_dir config_path in
      match command with
      | CSession command => on_client (session_main command config_path repo_root endpoint_arg token_file_arg)
      | CRun args => run_main args config_path repo_root endpoint_arg token_file_arg
      end
  end.
End run.

(** * What an exit with 0 means *)

Section truth.
Context {codec : EventCodec} {requests : RequestCodec} {serde : Serde} (env after : Surroundings) (fate : Fate).
Context (sources : Sources).

(** A response of the server that was read to a result. *)
Definition reported (limits : OutputLimits) (build : BuildResult) (w : Client) : Prop :=
  ∃ tick endpoint token response t0 polls,
    session_request "POST" endpoint "/v1/builds" token ∈ cw_sent w ∧
    ft_reply fate tick (session_request "POST" endpoint "/v1/builds" token) = inr response ∧
    is_success (rp_status response) = true ∧
    (read_responses (ft_faults fate) (take polls (rp_body response)) limits t0).2 = Ok build.

(** The artifacts of a build, if it has any, have come as announced and are unpacked. *)
Definition unpacked_artifacts (build : BuildResult) (w : Client) : Prop :=
  match bd_artifacts build with
  | None => True
  | Some archive => ∃ data d, len data = aa_size archive ∧
      extract_zip_atomic (ft_unpack fate) (bytes_of data) (ft_zip fate (bytes_of data)) d = (cw_run w, Ok tt)
  end.

Definition delivered (build : BuildResult) (artifact_error : option string) (w : Client) : Prop :=
  (∃ limits, reported limits build w) ∧ (artifact_error = None → unpacked_artifacts build w).

Definition run_succeeded (r : Runner) : Prop :=
  rp_run_status (rv_provenance (rn_evidence r)) = "succeeded" ∧
  ∃ build, bd_exit_code build = 0%Z ∧ bd_timed_out build = false ∧ delivered build None (rn_client r).

(** ** Exits of a run *)

Definition run_exits {A} (m : run_cmd A) : Prop := ∀ r, (m r).2 = Err (Exit 0) → run_succeeded (m r).1.

Lemma run_exits_bind {A B} (m : run_cmd A) (k : A → run_cmd B) :
  run_exits m → (∀ a, run_exits (k a)) → run_exits (m ≫= k).
Proof.
  intros Hm Hk r. specialize (Hm r). unfold mbind, eff_bind. destruct (m r) as [r' [a|e]]; [apply Hk|].
  intros [= ->]. by apply Hm.
Qed.
Lemma run_exits_client {A} (m : cmd A) : exits_well 0 (λ _, False) m → run_exits (on_client m).
Proof.
  intros Hm r. unfold on_client. specialize (Hm (rn_client r)). destruct (m (rn_client r)) as [w x]. cbn. intros E. by destruct (Hm E).
Qed.
Lemma run_exits_ret {A} (a : A) : run_exits (mret a).
Proof. by intros r. Qed.
Lemma run_exits_get {A} (f : Runner → A) : run_exits (run_get f).
Proof. by intros r. Qed.
Lemma run_exits_edit f : run_exits (run_edit f).
Proof. by intros r. Qed.
Lemma run_exits_try {E A} (m : eff Runner E A) : run_exits (io_try m).
Proof. intros r. unfold io_try. by destruct (m r). Qed.
Lemma run_exits_ignore {E A} (m : eff Runner E A) : run_exits (run_ignore m).
Proof. apply run_exits_bind; [apply run_exits_try|]. intros. apply run_exits_ret. Qed.
Lemma run_exits_say message : run_exits (run_say fate message).
Proof. apply run_exits_client, (exits_goes _ _ []); [apply goes_say|set_solver]. Qed.
Lemma run_exits_leave {A} code : code ≠ 0 → run_exits (run_leave (A := A) code).
Proof. intros Hc. apply run_exits_client. intros w [= ->]. done. Qed.
Lemma run_exits_raced : run_exits (on_client (raced fate)).
Proof. apply run_exits_client. by intros w. Qed.

Hint Resolve run_exits_ret run_exits_get run_exits_edit run_exits_try run_exits_ignore run_exits_say run_exits_leave
  run_exits_raced : exits.

Ltac running := repeat first
  [ progress eauto with exits
  | progress intros
  | apply run_exits_bind
  | match goal with |- run_exits (match ?x with _ => _ end) => destruct x end ].

Lemma run_exits_fail {A} message shown : run_exits (fail_run (A := A) fate message shown).
Proof. unfold fail_run. running. Qed.
Lemma run_exits_interrupted {A} message : run_exits (leave_interrupted (A := A) fate message).
Proof. unfold leave_interrupted. running. Qed.
Hint Resolve run_exits_fail run_exits_interrupted : exits.
Lemma run_exits_or_fail {E A} (message : E → string) prefix (x : result E A) : run_exits (or_fail_run fate message prefix x).
Proof. unfold or_fail_run. running. Qed.
Lemma run_exits_source_root root : run_exits (run_source_root env fate sources root).
Proof. unfold run_source_root. running. Qed.
Lemma run_exits_create root explicit : run_exits (create_run_evidence env after fate root explicit).
Proof. unfold create_run_evidence. running. Qed.
Hint Resolve run_exits_or_fail run_exits_source_root run_exits_create : exits.
Lemma run_exits_credential cx root : run_exits (run_credential after fate cx root).
Proof. unfold run_credential. running. Qed.
Lemma run_exits_packaged work : run_exits (run_packaged fate work).
Proof. unfold run_packaged. running. Qed.
Hint Resolve run_exits_credential run_exits_packaged : exits.
(** ** What the response and the artifacts come to *)

(** The requests sent and the results directory stay. *)
Definition kept (w w' : Client) : Prop := cw_sent w' = cw_sent w ∧ cw_run w' = cw_run w.

Lemma kept_trans w1 w2 w3 : kept w1 w2 → kept w2 w3 → kept w1 w3.
Proof. intros [? ?] [? ?]. split; congruence. Qed.

Lemma delivered_kept build e w w' : kept w w' → delivered build e w → delivered build e w'.
Proof.
  intros [Hs Hr] [(limits & tick & endpoint & token & H) Hu]. split; [exists limits, tick, endpoint, token; by rewrite Hs|].
  unfold unpacked_artifacts in *. by rewrite Hr.
Qed.

Lemma raced_spec {E} w : wp (E := E) (raced fate) w (λ w' r, kept w w' ∧ ∃ b, r = Ok b).
Proof. split; [done|]. by eexists. Qed.

Lemma watch_spec {A} (remote : nat → eff Term stopped A) t0 rounds : ∀ polls w,
  wp (watch fate remote t0 rounds polls) w (λ w' r, kept w w' ∧
    match r with
    | Ok (Some (Ok a)) => ∃ polls, (remote polls t0).2 = Ok a
    | Ok _ => True
    | Err e => e ≠ Exit 0
    end).
Proof.
  induction rounds as [|round rounds IH]; intros polls w; cbn [watch]; [by apply wp_fail|].
  apply wp_bind. eapply wp_mono; [apply raced_spec|]. intros w1 x [H1 [[] ->]]; [by apply wp_ret|].
  apply wp_bind. unfold poll_remote, wp at 1. destruct (remote (polls + round)%nat t0) as [t x] eqn:E. cbn [fst snd].
  assert (H2 : kept w (set_term t w1)) by (eapply kept_trans; [done|by split]).
  destruct x as [a|[err| |]].
  - apply wp_ret. split; [done|]. exists (polls + round)%nat. by rewrite E.
  - by apply wp_ret.
  - by apply wp_fail.
  - eapply wp_mono; [apply IH|]. intros w2 x [H3 Hx]. split; [by eapply kept_trans|done].
Qed.

Lemma raced_request_spec request endpoint token w :
  wp (raced_request fate request endpoint token) w (λ w' r,
    match r with
    | Ok (Some (Ok answer)) => ∃ tick, session_request "POST" endpoint "/v1/builds" token ∈ cw_sent w' ∧
        ft_reply fate tick (session_request "POST" endpoint "/v1/builds" token) = answer
    | Ok _ => True
    | Err e => e ≠ Exit 0
    end).
Proof.
  apply wp_bind. eapply wp_mono; [apply raced_spec|]. intros w1 x [_ [[] ->]]; [by apply wp_ret|].
  apply wp_bind, wp_try. unfold wp at 1. destruct (snd _); [|by apply wp_ret].
  apply wp_bind, wp_try. unfold wp at 1. destruct (snd _).
  - apply wp_bind. eapply wp_mono; [apply raced_spec|]. intros w2 x [_ [[] ->]]; [by apply wp_ret|].
    apply wp_bind. unfold send, wp at 1. cbn [fst snd]. apply wp_ret. eexists. split; [cbn; set_solver|done].
  - apply wp_bind. eapply wp_mono; [apply raced_spec|]. by intros w2 x [_ [[] ->]]; apply wp_ret.
Qed.

Lemma download_body_spec size body : ∀ data w,
  wp (download_body fate size data body) w (λ w' r, cw_term w' = cw_term w ∧ cw_sent w' = cw_sent w ∧
    ∀ d, r = Ok (Some d) → len d = size).
Proof.
  induction body as [|[chunk| |err] body IH]; intros data w; cbn [download_body]; [by apply wp_ret| | |].
  - apply wp_bind, wp_lift. unfold reject_if. destruct (_ || _); [done|].
    apply wp_bind. unfold fs_call, wp at 1. cbn [fst snd]. destruct (ft_fs fate _); [done|].
    eapply wp_mono; [apply IH|]. intros w1 r (-> & -> & ?). done.
  - apply wp_bind, wp_lift. unfold reject_if. destruct (N.eqb_spec (len data) size); cbn; [|done].
    apply wp_ret. split_and!; try done. by intros d [= <-].
  - by apply wp_fail.
Qed.

(** A transfer prints nothing and sends its one request; it has the size announced. *)
Definition transferred (q : http_request) (size : N) (w w' : Client) (r : result io_error (option string)) : Prop :=
  cw_term w' = cw_term w ∧ (cw_sent w' = cw_sent w ∨ cw_sent w' = cw_sent w ++ [q]) ∧
  ∀ d, r = Ok (Some d) → len d = size.

Lemma download_spec archive endpoint token w :
  wp (download fate archive endpoint token) w
    (transferred (artifact_request archive endpoint token) (aa_size archive) w).
Proof.
  assert (Hf : ∀ w' e, cw_term w' = cw_term w →
    cw_sent w' = cw_sent w ∨ cw_sent w' = cw_sent w ++ [artifact_request archive endpoint token] →
    transferred (artifact_request archive endpoint token) (aa_size archive) w w' (Err e)); [by intros; split_and!|].
  unfold download. apply wp_bind, wp_lift. unfold reject_if at 1. destruct (_ <? _); [apply Hf; [done|by left]|].
  apply wp_bind, wp_map_err. unfold client_built, wp at 1. cbn [fst snd].
  destruct (ft_client fate _); cbn [map_err]; [apply Hf; [done|by left]|].
  apply wp_bind. unfold send at 1, wp at 1. cbn [fst snd].
  destruct (ft_reply fate _ _) as [err|response]; [apply wp_fail, Hf; [done|by right]|].
  apply wp_bind, wp_lift. unfold reject_if at 1. destruct (negb _); [apply Hf; [done|by right]|].
  apply wp_bind. unfold fs_call at 1, wp at 1. cbn [fst snd]. destruct (ft_fs fate _); [apply Hf; [done|by right]|].
  apply wp_bind. eapply wp_mono; [apply download_body_spec|]. cbn. intros w1 r (E1 & E2 & Hd).
  destruct r as [d|e]; [|apply Hf; [done|by right]].
  apply wp_bind. unfold fs_call at 1, wp at 1. cbn [fst snd].
  destruct (ft_fs fate _); [apply Hf; [done|by right]|]. apply wp_ret. split_and!; [done|by right|]. intros d' [= ->]. by apply Hd.
Qed.

Lemma raced_download_spec archive endpoint token w :
  wp (raced_download fate archive endpoint token) w (λ w' r,
    match r with
    | Ok (Some x) => cw_sent w ⊆ cw_sent w' ∧
        (x = Ok tt → ∃ data d, len data = aa_size archive ∧
           extract_zip_atomic (ft_unpack fate) (bytes_of data) (ft_zip fate (bytes_of data)) d = (cw_run w', Ok tt))
    | Ok None => True
    | Err e => e ≠ Exit 0
    end).
Proof.
  unfold raced_download. apply wp_bind, wp_try. eapply wp_mono; [apply download_spec|].
  intros w1 r (_ & Hs' & Hd). assert (Hs : cw_sent w ⊆ cw_sent w1) by (destruct Hs' as [->| ->]; intros x; rewrite ?elem_of_app; auto). clear Hs'.
  apply wp_bind. eapply wp_mono; [apply raced_spec|]. intros w2 x [[E1 _] [[] ->]]; [by apply wp_ret|].
  destruct r as [[data|]|err]; [|by apply wp_fail|apply wp_ret; by rewrite E1].
  apply wp_bind, wp_try. unfold extract, wp at 1.
  destruct (extract_zip_atomic _ _ _ (cw_run w2)) as [d x] eqn:E. cbn [fst snd].
  apply wp_bind. eapply wp_mono; [apply raced_spec|]. intros w3 y [[E2 E3] [[] ->]]; [by apply wp_ret|].
  apply wp_ret. rewrite E2. cbn. rewrite E1. split; [done|]. intros ->. exists data, (cw_run w2).
  split; [by apply Hd|]. by rewrite E3.
Qed.
Lemma run_remote_spec request endpoint token limits w :
  wp (run_remote fate request endpoint token limits) w (λ w' r,
    match r with
    | Ok (Some (Ok (build, e))) => delivered build e w'
    | Ok _ => True
    | Err e => e ≠ Exit 0
    end).
Proof.
  apply wp_bind. eapply wp_mono; [apply raced_request_spec|]. intros w1 [[[answer|err]|]|e] H1; [|by apply wp_ret..|done].
  destruct H1 as (tick & Hsent & Hreply).
  apply wp_bind. unfold get, wp at 1. cbn [fst snd]. apply wp_bind. eapply wp_mono; [apply watch_spec|].
  intros w2 [[[build|err]|]|e] [[Ek _] H2]; [|by apply wp_ret..|done].
  destruct H2 as [polls H2].
  assert (Hrep : ∀ w', cw_sent w1 ⊆ cw_sent w' → reported limits build w').
  { intros w' Hin. destruct polls as [|polls]; [done|]. destruct answer as [err|response]; [done|].
    cbn [build_streamed] in H2. destruct (is_success (rp_status response)) eqn:Es; [|by destruct polls].
    exists tick, endpoint, token, response, (cw_term w1), polls. split_and!; try done. by apply Hin. }
  destruct (bd_artifacts build) as [archive|] eqn:Ea.
  - apply wp_bind. eapply wp_mono; [apply raced_download_spec|]. intros w3 [[x|]|e]; [|by intros _; apply wp_ret|done].
    intros [Hs Hx]. rewrite Ek in Hs.
    destruct x as [[]|err]; apply wp_ret; (split; [exists limits; by apply Hrep|]); [|done].
    intros _. unfold unpacked_artifacts. rewrite Ea. by apply Hx.
  - apply wp_ret. split; [exists limits; apply Hrep; by rewrite Ek|]. intros _. unfold unpacked_artifacts. by rewrite Ea.
Qed.

(** ** The end of a run *)

Definition keeps {E A} (m : eff Client E A) : Prop := ∀ w, kept w (m w).1.

Lemma wp_on_client {E A} (m : eff Client E A) r Q :
  keeps m →
  (∀ r', kept (rn_client r) (rn_client r') → rn_evidence r' = rn_evidence r → Q r' (m (rn_client r)).2) → wp (on_client m) r Q.
Proof.
  intros Hm HQ. specialize (Hm (rn_client r)). unfold wp, on_client. destruct (m (rn_client r)) as [w x]. by apply HQ.
Qed.

Lemma keeps_say message : keeps (say fate message).
Proof. intros w. unfold say, io_map_err, on_terminal. by destruct (eprintln _ _ _). Qed.
Lemma keeps_restrictions restrictions : keeps (show_restrictions fate restrictions).
Proof.
  intros w. destruct restrictions as [r|]; [|done]. cbn. unfold ignore, io_try, on_terminal, mbind, eff_bind.
  by destruct (write_fd _ _ _ _).
Qed.

Lemma restrictions_shown restrictions w : (show_restrictions fate restrictions w).2 = Ok tt.
Proof.
  destruct restrictions as [r|]; [|done]. cbn. unfold ignore, io_try, on_terminal, mbind, eff_bind.
  by destruct (write_fd _ _ _ _).
Qed.
Lemma keeps_fs : keeps (fs_call fate).
Proof. by intros w. Qed.

Lemma run_error_spec message r :
  wp (E := ended) (run_ignore (run_error fate message)) r (λ r' x, x = Ok tt ∧ kept (rn_client r) (rn_client r')).
Proof.
  apply wp_bind, wp_try. apply wp_bind. unfold run_edit, wp at 1. cbn [fst snd]. apply wp_bind, wp_on_client; [apply keeps_fs|].
  intros r1 Hk _. destruct (snd _); [apply wp_ret|]; by split.
Qed.

Lemma run_finish_spec status r :
  wp (E := ended) (run_ignore (run_finish fate status)) r (λ r' x, x = Ok tt ∧ kept (rn_client r) (rn_client r') ∧
    rp_run_status (rv_provenance (rn_evidence r')) = status).
Proof.
  apply wp_bind, wp_try. apply wp_bind. unfold run_get, wp at 1. cbn [fst snd]. apply wp_bind.
  unfold run_edit, wp at 1. cbn [fst snd]. apply wp_bind, wp_on_client; [apply keeps_fs|].
  intros r1 Hk He. destruct (snd _); [apply wp_ret|]; split_and!; try done; cbn; by rewrite He.
Qed.

Lemma finish_run_spec build e r :
  delivered build e (rn_client r) →
  wp (finish_run fate build e) r (λ r' x, x = Err (Exit 0) → run_succeeded r').
Proof.
  intros Hd. assert (Hlate : ∀ r1, kept (rn_client r) (rn_client r1) → (bd_exit_code build = 0%Z → e = None) →
    wp (_ ← run_ignore (run_finish fate (if (bd_exit_code build =? 0)%Z && negb (bd_timed_out build) then "succeeded" else "failed"));
        run_leave (A := unit) (normalize_requested_exit (bd_exit_code build) (bd_timed_out build))) r1
      (λ r' x, x = Err (Exit 0) → run_succeeded r')).
  { intros r1 H1 Hz. apply wp_bind. eapply wp_mono; [apply run_finish_spec|]. intros r2 x (-> & H2 & Hs).
    intros [= [Hc Ht]%normalize_zero]. split; [cbn; by rewrite Hs, Hc, Ht|]. exists build. split_and!; try done.
    rewrite (Hz Hc) in Hd. eapply delivered_kept; [|exact Hd]. eapply kept_trans; [exact H1|exact H2]. }
  apply wp_bind. unfold run_edit at 1, wp at 1. cbn [fst snd]. apply wp_bind, wp_on_client; [apply keeps_restrictions|].
  intros r1 H1 _. rewrite restrictions_shown. apply wp_bind. destruct e as [message|]; [|by apply wp_ret, Hlate].
  apply wp_bind. eapply wp_mono; [apply run_error_spec|]. intros r2 x [-> H2].
  apply wp_bind, wp_on_client; [apply keeps_say|]. intros r3 H3 _.
  assert (H4 : kept (rn_client r) (rn_client r3)) by (do 2 (eapply kept_trans; [|done]); done).
  destruct (say _ _ _).2 as [[]|x] eqn:Es; [|by intros [= ->]; apply (goes_say fate []) in Es; apply elem_of_nil in Es].
  destruct (Z.eqb_spec (bd_exit_code build) 0); [|by apply wp_ret, Hlate].
  apply wp_bind. eapply wp_mono; [apply run_finish_spec|]. by intros r4 x (-> & _).
Qed.
Lemma run_exits_remote request endpoint token limits connection :
  run_exits (outcome ← on_client (run_remote fate request endpoint token limits); run_outcome fate outcome connection).
Proof.
  intros r. pose proof (run_remote_spec request endpoint token limits (rn_client r)) as H. unfold wp in H.
  unfold mbind, eff_bind, on_client. destruct (run_remote fate _ _ _ _ _) as [w [outcome|e]]; [|by intros [= ->]].
  cbn [fst snd] in H. destruct outcome as [[[build e]|err]|]; cbn [run_outcome].
  - by apply (finish_run_spec build e (MkRunner w (rn_evidence r) (rn_disk r))).
  - cut (run_exits (run_outcome fate (Some (Err err)) connection)); [intros Hr; apply Hr|]. cbn [run_outcome]. running.
    apply run_exits_leave. unfold build_error_exit, connection_failure_exit_code, CONNECTION_FALLBACK_EXIT_CODE.
    by destruct err; [destruct (from_option _ _ _)|..].
  - by apply run_exits_interrupted.
Qed.

Hint Resolve run_exits_remote : exits.
Lemma run_exits_command args root cx : run_exits (run_command env after fate sources args root cx).
Proof. unfold run_command. running. Qed.
Hint Resolve run_exits_command : exits.

(** ** Exits of a session command *)

Section session.
Context (statuses : list string).
Abbreviation succeeds := (exits_well 0 (recorded_as statuses)).

Lemma never_elected {A} message failure : succeeds (finish_session_failure_elected (A := A) fate message failure).
Proof.
  intros w. unfold finish_session_failure_elected, bind_cmd.
  assert (Hl : leaves [1; 222] (finish_session_failure (A := A) fate message failure)).
  { unfold finish_session_failure. do 3 (apply leaves_bind; [first [apply goes_ignore|apply goes_say]|intros _]). apply leaves_exit; [|set_solver].
    destruct failure; set_solver. }
  assert (Hw : succeeds (_ ← say fate ("session failure provenance worker failed: " +:+ ft_join fate); leave (A := A) 1)).
  { apply exits_bind; [apply exits_say; set_solver|]. by intros _ w'. }
  destruct (Hl w) as (e & He & Hd). destruct (finish_session_failure fate message failure w) as [w1 x].
  cbn [snd] in He. subst x. destruct e as [code|how]; [|apply Hw].
  revert w1. change (succeeds (interrupted_first fate ≫= λ triggered : bool,
    if triggered then finish_early_interrupted (A := A) fate "interrupted while finalizing session failure" else leave code)).
  apply exits_bind; [apply exits_interrupted|]. intros []; [apply succeeds_early|].
  eapply (exits_leaves _ _ [1; 222]); [by apply leaves_code|set_solver].
Qed.

Lemma never_worker {A} (m : cmd (result io_error A)) : succeeds m → succeeds (in_worker fate m).
Proof. intros Hm w. specialize (Hm w). unfold in_worker. destruct (m w) as [w' [r|[code|[err| |]]]]; cbn [fst snd] in *; [done|by intros [= ->]; apply Hm|done..]. Qed.
End session.

Definition expected (command : SessionCommands) : list string :=
  match command with CStart _ => ["ready"; "failed"] | _ => ["succeeded"] end.

Lemma session_exits command root cx :
  exits_well 0 (recorded_as (expected command)) (session_command after fate sources command root cx).
Proof.
  destruct command; cbn [session_command expected].
  - apply exits_bind; [apply exits_expect|]. intros. apply succeeds_start_command; set_solver.
  - apply exits_bind; [apply exits_expect|]. intros. apply succeeds_update_command; set_solver.
  - apply succeeds_action_command; set_solver.
  - apply succeeds_stop_command; set_solver.
Qed.
Lemma exits_created statuses operation id action explicit root :
  exits_well 0 (recorded_as statuses) (create_evidence env fate after operation id action explicit root).
Proof.
  unfold create_evidence. apply exits_bind; [apply exits_try|]. intros []; [|apply exits_ret].
  apply exits_bind; [apply exits_get|]. intros. apply exits_bind; [apply exits_say; set_solver|]. intros. apply exits_ret.
Qed.

Lemma prepared_exits statuses command root :
  exits_well 0 (recorded_as statuses) (prepare_session_evidence env after fate sources command root).
Proof.
  assert (Hc : ∀ operation id explicit,
    exits_well 0 (recorded_as statuses) (create_with_source env after fate sources operation id explicit root)).
  { intros. unfold create_with_source. destruct (source_root_of _ _ _); [|apply exits_ret].
    apply exits_bind; [apply exits_created|]. intros. apply exits_ret. }
  destruct command; cbn [prepare_session_evidence]; [apply Hc| | |].
  - apply exits_bind; [apply Hc|]. intros []; [|apply exits_ret]. apply exits_bind; [apply exits_get|]. intros.
    apply exits_bind; [apply exits_edit|]. intros. apply exits_bind; [apply exits_try|]. intros. apply exits_ret.
  - apply exits_bind; [apply exits_created|]. intros. apply exits_ret.
  - apply exits_bind; [apply exits_created|]. intros. apply exits_ret.
Qed.

Lemma session_main_exits command config root endpoint_arg token_arg :
  exits_well 0 (recorded_as (expected command))
    (session_main env after fate sources command config root endpoint_arg token_arg).
Proof.
  assert (Hsay : ∀ message, exits_well 0 (recorded_as (expected command)) (_ ← say fate message; leave (A := unit) 1)).
  { intros. apply exits_bind; [apply exits_say; set_solver|]. by intros _ w. }
  unfold session_main. apply exits_bind; [apply exits_poll|]. intros _.
  apply exits_bind; [apply never_worker, prepared_exits|]. intros prepared.
  apply exits_bind; [apply exits_interrupted|]. intros interrupted.
  destruct prepared as [err|[root'|err]]; [apply Hsay| |apply Hsay]. destruct interrupted; [apply succeeds_early|].
  apply exits_bind; [apply exits_interrupted|]. intros interrupted.
  destruct (so_loading sources) as [err|]; [apply never_elected|]. destruct interrupted; [apply succeeds_early|].
  destruct (load_client_config _ _) as [cfg|err]; [|apply never_elected].
  apply exits_bind; [apply succeeds_interruption|]. intros _.
  destruct (negb _); [|apply session_exits]. apply exits_bind; [apply succeeds_interruption|]. intros _. apply never_elected.
Qed.

(** C10: an exit code of 0 is the truth.  Whatever the server answers, whatever fails and
    whenever the user interrupts, the program exits with 0 only if: a session command
    has written its evidence without a failure, and it says [succeeded] (of a start:
    [ready], or [failed] where it made no session and the server's code was 0); a run
    has received a result for the build it requested, from a successful response, with
    exit code 0 and no timeout, and its artifacts, if there are any, have arrived in the
    size announced and are unpacked. *)
Theorem exit_zero_is_success command current_dir endpoint_arg token_arg r0 :
  wp (main env after fate sources command current_dir endpoint_arg token_arg) r0 (λ r x, x = Err (Exit 0) →
    match command with
    | CSession command => recorded_as (expected command) (rn_client r)
    | CRun _ => run_succeeded r
    end).
Proof.
  unfold main. destruct current_dir as [dir|err].
  2: { unfold run_say, run_leave. apply wp_bind. unfold wp at 1, on_client at 1.
       destruct (say fate _ (rn_client r0)) as [w [[]|e]] eqn:Es; [done|]. cbn. intros [= ->].
       assert (H : (say fate _ (rn_client r0)).2 = Err (Exit 0)) by (by rewrite Es).
       apply (goes_say fate []) in H. by apply elem_of_nil in H. }
  destruct command as [args|command].
  - cut (run_exits (run_main env after fate sources args (find_client_config_path env dir)
      (from_option (λ path, take (length path - 2) path) dir (find_client_config_path env dir)) endpoint_arg token_arg));
      [intros H; exact (H r0)|].
    unfold run_main. running.
  - unfold wp, on_client.
    match goal with |- context [session_main ?a ?b ?c ?d ?e ?f ?g ?h ?i (rn_client r0)] =>
      pose proof (session_main_exits e f g h i (rn_client r0)) as H;
      destruct (session_main a b c d e f g h i (rn_client r0)) as [w x] end. exact H.
Qed.
End truth.
