(* ===== verification/CliHost.v ===== *)
(** The client's [host] command ([bin/indentured/host.rs]): it asks the server for an
    observation, downloads its images, checks them and only then announces them. *)
From Stdlib Require Import Ascii.
From stdpp Require Import base option strings numbers list gmap pretty.
From S2P Require Import Prelude Effects RustStr Fs Protocol Archive HostPng HostObservation HttpHost CliArchive CliOutput CliStream CliSettings CliSession CliRun.

Local Open Scope N_scope.

(** * State *)

(** The manifest that is announced: the paths are the images', in their order. *)
Record HostOutput := { out_manifest : Manifest; out_paths : list (list component) }.

(** What [result.json] says. *)
Inductive host_summary := InProgress | HostSucceeded | HostFailed (error : string).

(** The client's world, and the files of the results directory besides its artifacts. *)
Record HostRun := MkHostRun {
  hc_client : Client;
  hc_result : option host_summary;
  hc_remote : option Manifest;
  hc_manifest : option HostOutput;
}.

Class HostClientCodec := {
  decode_observation : string → result string ObservationResponse;
  output_to_string : HostOutput → result string string;
}.

Inductive HostCommand := HList | HCapture (target : Target).

Record HostArgs := { hg_result_root : option string; hg_command : HostCommand }.

(** An error of the command, or the end of the process. *)
Inductive host_stop := HostErr (err : io_error) | HostDied (how : stopped).

Definition other_error (message : string) : io_error := IoError OtherKind message.

Definition MAX_HOST_RESPONSE : N := 2 * 1024 * 1024.
Definition MAX_HOST_IMAGES : N := 63 * 1024 * 1024.

Section host.
Context {requests : RequestCodec} {hosts : HostCodec} {outputs : HostClientCodec}.
Context (env after : Surroundings) (fate : Fate).

Definition host (A : Type) : Type := eff HostRun host_stop A.

Definition in_client {E A} (m : eff Client E A) : eff HostRun E A := λ h,
  let '(w, r) := m (hc_client h) in (MkHostRun w (hc_result h) (hc_remote h) (hc_manifest h), r).

Definition host_get {A} (f : Client → A) : host A := λ h, (h, Ok (f (hc_client h))).
Definition host_change (f : HostRun → HostRun) : host unit := λ h, (f h, Ok tt).
Definition host_fail {A} (message : string) : host A := io_fail (HostErr (other_error message)).
Definition host_reject (b : bool) (message : string) : host unit := io_reject b (HostErr (other_error message)).
Definition or_host {E A} (f : E → io_error) (r : result E A) : host A := io_lift (map_err (HostErr ∘ f) r).

Definition host_call : host unit := io_map_err HostErr (in_client (fs_call fate)).

Definition host_say (message : string) : host unit :=
  io_map_err HostDied (in_client (on_terminal (eprintln (ft_faults fate) message))).

(** [println!] panics when it cannot write. *)
Definition host_println (message : string) : host unit :=
  io_map_err (λ _, HostDied Panicked)
    (in_client (on_terminal (write_fd (ft_faults fate) StdoutFd (message +:+ newline)))).

Definition timed_out_error : io_error := other_error "host observation/download timed out after 90 seconds".

(** A wait of the observation: the signal, also one that cannot be awaited, and the
    timeout end it. *)
Definition checkpoint : host unit := λ h,
  let w := hc_client h in
  (MkHostRun (next w) (hc_result h) (hc_remote h) (hc_manifest h),
   if is_some (ft_signal fate (cw_tick w)) then Err (HostErr (other_error "host observation interrupted"))
   else if (ft_wakes fate (cw_tick w)).2 then Ok tt else Err (HostErr timed_out_error)).

(** ** The response *)

Fixpoint read_host_body (bytes : string) (body : list body_poll) : host string :=
  match body with
  | [] => io_fail (HostErr timed_out_error)
  | BodyEnd :: _ => mret bytes
  | BodyError err :: _ => host_fail err
  | Chunk chunk :: body =>
      _ ← checkpoint;
      _ ← host_reject (MAX_HOST_RESPONSE <? len bytes + len chunk) "host response exceeds 2 MiB";
      read_host_body (bytes +:+ chunk) body
  end.

Definition ascii_whitespace (a : ascii) : bool :=
  bool_decide (code a ∈ [32; 9; 10; 12; 13]).

Definition check_observation (manifest : Manifest) : bool :=
  valid_observation_id (mf_observation_id manifest) && bool_decide (mf_schema_version manifest = "1") &&
  bool_decide (mf_status manifest ∈ ["succeeded"; "failed"]) && (length (mf_images manifest) <=? 32)%nat &&
  negb (bool_decide (mf_status manifest = "succeeded") && negb (bool_decide (mf_errors manifest = []))) &&
  negb (bool_decide (mf_status manifest = "failed") &&
        (bool_decide (mf_errors manifest = []) || negb (bool_decide (mf_images manifest = [])))).

Definition image_path (id : string) (index : nat) : string := "observations/" +:+ id +:+ "/" +:+ image_name index.

Definition check_paths (manifest : Manifest) : bool :=
  forallb (λ '(index, image), bool_decide (im_path image = image_path (mf_observation_id manifest) index))
    (imap pair (mf_images manifest)).

Definition host_archive_path (id : string) : string := "/v1/host/observations/" +:+ id +:+ "/artifacts.zip".

(** [download_and_extract_with_redirect_policy]. *)
Definition host_download (archive : ArtifactArchive) (endpoint : Endpoint) (token : option string) : host unit :=
  transferred ← io_map_err HostErr (in_client (download fate archive endpoint token));
  _ ← checkpoint;
  match transferred with
  | None => io_fail (HostErr timed_out_error)
  | Some data =>
      r ← io_try (in_client (extract fate data));
      _ ← checkpoint;
      or_host id r
  end.

(** One image of the result: its file is read whole. *)
Definition check_image (directory : string) (acc : N * list (list component)) (image : Image) :
    host (N * list (list component)) :=
  let '(total, paths) := acc in
  let path := path_join (path_join directory "artifacts") (im_path image) in
  _ ← host_call;
  node ← host_get (λ w, rd_artifacts (cw_run w) ≫= λ t, t !! split slash (im_path image));
  match node with
  | None => io_fail (HostErr (IoError NotFound "No such file or directory"))
  | Some (TFile data _) =>
      _ ← host_reject (MAX_HOST_IMAGES - total <? len data) "host image is not a bounded regular PNG";
      _ ← host_call;
      let total := total + len data in
      _ ← host_reject (MAX_HOST_IMAGES <? total) "host images exceed 63 MiB";
      _ ← or_host other_error (validate_png data);
      local_path ← or_host id (sr_canonicalize after (components path));
      _ ← host_reject (negb (beneath local_path (components (path_join directory "artifacts"))))
            "host image escaped the result directory";
      mret (total, paths ++ [local_path])
  | Some _ => host_fail "host image is not a bounded regular PNG"
  end.

(** The answer, read and decoded. *)
Definition read_observation (endpoint : Endpoint) (token : option string) (request : HostRequest) :
    host ObservationResponse :=
  bytes ← or_host (IoError InvalidData) (encode_host_request request);
  _ ← or_host other_error (parse_request bytes);
  _ ← io_map_err (HostErr ∘ other_error) (in_client (client_built fate));
  answer ← in_client (send fate (session_request "POST" endpoint "/v1/host/observations" token));
  _ ← checkpoint;
  match answer with
  | inl err => host_fail (sd_message err)
  | inr response =>
      bytes ← read_host_body "" (rp_body response);
      _ ← host_reject ((rp_status response =? 404) && all_bytes ascii_whitespace bytes)
        ("server returned 404 Not Found: host observation endpoint is unavailable; verify the endpoint URL and " +:+
         "that the daemon version supports host observation");
      _ ← host_reject (negb (is_success (rp_status response)))
        ("server returned " +:+ status_display (rp_status response) +:+ ": " +:+ from_utf8_lossy bytes);
      or_host (IoError InvalidData) (decode_observation bytes)
  end.

Definition fetch_observation (response : ObservationResponse) (endpoint : Endpoint) (token : option string) : host unit :=
  let manifest := or_manifest response in
  _ ← match or_artifacts response with
      | Some archive =>
          _ ← host_reject (negb (bool_decide (aa_path archive = host_archive_path (mf_observation_id manifest))))
                "invalid host artifact path";
          host_download archive endpoint token
      | None => mret tt
      end;
  match or_artifact_restrictions response with
  | Some restrictions =>
      _ ← host_say (artifact_restrictions_notice restrictions);
      host_reject (0 <? omitted_count restrictions) "host artifacts omitted by server restrictions"
  | None => mret tt
  end.

Definition observe (endpoint : Endpoint) (token : option string) (directory : string) (request : HostRequest) :
    host HostOutput :=
  response ← read_observation endpoint token request;
  let manifest := or_manifest response in
  _ ← host_reject (negb (check_observation manifest)) "invalid host observation manifest";
  _ ← host_reject (negb (check_paths manifest)) "invalid host image path";
  _ ← or_host (IoError InvalidData) (encode_manifest manifest);
  _ ← host_call;
  _ ← host_change (λ h, MkHostRun (hc_client h) (hc_result h) (Some manifest) (hc_manifest h));
  _ ← fetch_observation response endpoint token;
  _ ← host_reject (negb (bool_decide (mf_status manifest = "succeeded"))) (String.concat "; " (mf_errors manifest));
  _ ← host_reject (match request with RCapture _ => bool_decide (mf_images manifest = []) | RList => false end)
        "capture succeeded without images";
  '(_, paths) ← io_fold (check_image directory) (0, []) (mf_images manifest);
  let output := {| out_manifest := manifest; out_paths := paths |} in
  _ ← or_host (IoError InvalidData) (output_to_string output);
  _ ← host_call;
  _ ← host_change (λ h, MkHostRun (hc_client h) (hc_result h) (hc_remote h) (Some output));
  mret output.
(** ** The command *)

Definition host_request (command : HostCommand) : HostRequest :=
  match command with HList => RList | HCapture target => RCapture target end.

Definition host_endpoint (endpoint_arg : option string) : result io_error Endpoint :=
  endpoint ← ok_or (match given endpoint_arg with Some value => Some value | None => given (var env ENDPOINT_ENV) end)
    (invalid_input ("host endpoint must be provided via --endpoint or INDENTURED_SERVER_ENDPOINT; " +:+
                    "host commands ignore project configuration"));
  parse_endpoint endpoint.

(** The results directory, with a summary that says the observation goes on. *)
Definition host_directory (args : HostArgs) (token_arg : option string) : host string :=
  base ← or_host id (resolve_result_root env (hg_result_root args));
  _ ← match selected_token_path env token_arg None with
      | Some credential => or_host id (reject_credential_result_overlap env (components credential) (components base))
      | None => mret tt
      end;
  _ ← host_call;
  base ← or_host id (sr_canonicalize after (components base));
  let directory := path_join (render base) (ft_uuid fate) in
  _ ← host_call;
  _ ← host_say (OUTPUT_PREFIX +:+ " results: " +:+ directory);
  _ ← host_call;
  _ ← host_change (λ h, MkHostRun (hc_client h) (Some InProgress) (hc_remote h) (hc_manifest h));
  mret directory.

(** The summary replaces the first one by a rename. *)
Definition host_summarize (summary : host_summary) : host unit :=
  _ ← host_call;
  _ ← host_call;
  host_change (λ h, MkHostRun (hc_client h) (Some summary) (hc_remote h) (hc_manifest h)).

Definition host_body (args : HostArgs) (endpoint_arg token_arg : option string) : host unit :=
  endpoint ← or_host id (host_endpoint endpoint_arg);
  token ← or_host id (resolve_token env token_arg None);
  directory ← host_directory args token_arg;
  result ← io_try (observe endpoint token directory (host_request (hg_command args)));
  match result with
  | Err (HostDied how) => io_fail (HostDied how)
  | Err (HostErr err) => _ ← host_summarize (HostFailed (io_error_message err)); io_fail (HostErr err)
  | Ok output =>
      _ ← host_summarize HostSucceeded;
      text ← or_host (IoError InvalidData) (output_to_string output);
      host_println text
  end.

Definition host_command (args : HostArgs) (endpoint_arg token_arg : option string) : eff HostRun ended unit :=
  if negb (resolve_connection_enabled env None) then
    _ ← in_client (say fate (OUTPUT_PREFIX +:+ " disabled (INDENTURED_SERVER_ENABLED)"));
    in_client (leave CONNECTION_FALLBACK_EXIT_CODE)
  else
    result ← io_try (host_body args endpoint_arg token_arg);
    match result with
    | Ok _ => in_client (leave 0)
    | Err (HostErr err) =>
        _ ← in_client (say fate ("host observation failed: " +:+ io_error_message err));
        in_client (leave 1)
    | Err (HostDied how) => io_fail (Died how)
    end.
End host.

(** * What is announced *)

Create HintDb tame discriminated.

Section announced.
Context {requests : RequestCodec} {hosts : HostCodec} {outputs : HostClientCodec}.
Context (env after : Surroundings) (fate : Fate).

Definition shown_by (h : HostRun) : string := tm_out (cw_term (hc_client h)).
Definition sent_by (h : HostRun) : list http_request := cw_sent (hc_client h).

(** ** Steps that print nothing and send only what [P] allows *)

Section tame.
Context (P : http_request → Prop).

Definition tame {E A} (m : eff HostRun E A) : Prop := ∀ h,
  shown_by (m h).1 = shown_by h ∧ ∀ q, q ∈ sent_by (m h).1 → q ∈ sent_by h ∨ P q.

Lemma tame_bind {E A B} (m : eff HostRun E A) (k : A → eff HostRun E B) : tame m → (∀ a, tame (k a)) → tame (m ≫= k).
Proof.
  intros Hm Hk h. specialize (Hm h). unfold mbind, eff_bind. destruct (m h) as [h1 [a|e]]; [|done].
  destruct Hm as [E1 H1]. destruct (Hk a h1) as [E2 H2]. cbn [fst] in *. split; [congruence|].
  intros q [Hq|?]%H2; [by apply H1|by right].
Qed.
Lemma tame_try {E F A} (m : eff HostRun E A) : tame m → tame (io_try (F := F) m).
Proof. intros Hm h. specialize (Hm h). unfold io_try. by destruct (m h). Qed.
Lemma tame_map_err {E F A} (f : E → F) (m : eff HostRun E A) : tame m → tame (io_map_err f m).
Proof. intros Hm h. specialize (Hm h). unfold io_map_err. by destruct (m h). Qed.
Lemma tame_ret {E A} (a : A) : tame (E := E) (mret a).
Proof. split; [done|]. by left. Qed.
Lemma tame_lift {E A} (r : result E A) : tame (io_lift r).
Proof. split; [done|]. by left. Qed.
Lemma tame_fail {E A} (e : E) : tame (A := A) (io_fail e).
Proof. split; [done|]. by left. Qed.
Lemma tame_get {A} (f : Client → A) : tame (host_get f).
Proof. split; [done|]. by left. Qed.
Lemma tame_change f : (∀ h, hc_client (f h) = hc_client h) → tame (host_change f).
Proof. intros Hf h. unfold shown_by, sent_by. cbn. rewrite Hf. split; [done|]. by left. Qed.
Lemma tame_client {E A} (m : eff Client E A) :
  (∀ w, tm_out (cw_term (m w).1) = tm_out (cw_term w) ∧ ∀ q, q ∈ cw_sent (m w).1 → q ∈ cw_sent w ∨ P q) → tame (in_client m).
Proof. intros Hm h. specialize (Hm (hc_client h)). unfold in_client. by destruct (m (hc_client h)). Qed.
Lemma tame_fold {A S} (f : S → A → host S) l : ∀ s, (∀ s x, tame (f s x)) → tame (io_fold f s l).
Proof. induction l as [|x l IH]; intros s Hf; cbn; [apply tame_ret|]. apply tame_bind; [done|]. intros. by apply IH. Qed.
Lemma tame_call : tame (host_call fate).
Proof. apply tame_map_err, tame_client. split; [done|]. by left. Qed.
Lemma tame_checkpoint : tame (checkpoint fate).
Proof. split; [done|]. by left. Qed.
Lemma tame_say message : tame (host_say fate message).
Proof.
  apply tame_map_err, tame_client. intros w. unfold on_terminal, eprintln, io_map_err, write_fd.
  destruct (ft_faults fate _ _) as [[]|]; (split; [done|]; by left).
Qed.
Lemma tame_built : tame (in_client (client_built fate)).
Proof. apply tame_client. split; [done|]. by left. Qed.
Lemma tame_extract data : tame (in_client (extract fate data)).
Proof. apply tame_client. intros w. unfold extract. destruct (extract_zip_atomic _ _ _ _). split; [done|]. by left. Qed.
Lemma tame_send q : P q → tame (E := host_stop) (in_client (send fate q)).
Proof. intros Hq. apply tame_client. intros w. split; [done|]. cbn. set_solver. Qed.

Hint Resolve tame_try tame_map_err tame_ret tame_lift tame_fail tame_get tame_fold tame_call tame_checkpoint tame_say
  tame_built tame_extract tame_send : tame.

Ltac taming := repeat first
  [ progress eauto with tame
  | progress intros
  | apply tame_bind
  | match goal with |- tame (host_change _) => by apply tame_change end
  | match goal with |- tame (match ?x with _ => _ end) => destruct x end ].

Lemma tame_read_body body : ∀ bytes, tame (read_host_body fate bytes body).
Proof.
  induction body as [|[chunk| |err] body IH]; intros bytes; cbn [read_host_body]; [taming| |taming|].
  - apply tame_bind; [taming|]. intros _. apply tame_bind; [apply tame_lift|]. intros _. apply IH.
  - apply tame_fail.
Qed.
Lemma tame_check_image directory acc image : tame (check_image after fate directory acc image).
Proof. unfold check_image, or_host, host_reject, host_fail, io_reject. destruct acc. taming. Qed.
Hint Resolve tame_read_body tame_check_image : tame.

(** ** Where requests go *)

Lemma download_tame archive endpoint token :
  P (artifact_request archive endpoint token) → tame (in_client (download fate archive endpoint token)).
Proof.
  intros Hp. apply tame_client. intros w. destruct (download_spec fate archive endpoint token w) as (-> & Hs & _).
  split; [done|]. intros q. destruct Hs as [->| ->]; [by left|]. rewrite elem_of_app, list_elem_of_singleton.
  intros [?| ->]; [by left|by right].
Qed.
Hint Resolve download_tame : tame.

Lemma tame_download archive endpoint token :
  P (artifact_request archive endpoint token) → tame (host_download fate archive endpoint token).
Proof. intros. unfold host_download, or_host. taming. Qed.
Hint Resolve tame_download : tame.

Lemma tame_read endpoint token request :
  P (session_request "POST" endpoint "/v1/host/observations" token) → tame (read_observation fate endpoint token request).
Proof. intros. unfold read_observation, or_host, host_fail, host_reject, io_reject. taming. Qed.
Lemma tame_fetch response endpoint token :
  (∀ archive, aa_path archive = host_archive_path (mf_observation_id (or_manifest response)) →
     P (artifact_request archive endpoint token)) →
  tame (fetch_observation fate response endpoint token).
Proof.
  intros Hp. unfold fetch_observation, host_reject, io_reject. apply tame_bind; [|intros; taming].
  destruct (or_artifacts response) as [archive|]; [|taming]. intros h. unfold mbind, eff_bind, io_lift, reject_if.
  case_bool_decide; cbn [negb]; [|split; [done|by left]]. by apply tame_download, Hp.
Qed.
End tame.
(** A request to the endpoint itself, for an observation or its archive. *)
Definition to_endpoint (endpoint : Endpoint) (token : option string) (q : http_request) : Prop :=
  ∃ method path, q = session_request method endpoint path token ∧
    (path = "/v1/host/observations" ∨ ∃ id, path = host_archive_path id).

Lemma artifact_to_endpoint archive id endpoint token :
  aa_path archive = host_archive_path id → to_endpoint endpoint token (artifact_request archive endpoint token).
Proof.
  intros E. exists "GET", (host_archive_path id). split; [|right; by exists id].
  destruct endpoint; cbn; by rewrite E.
Qed.

Hint Resolve tame_try tame_map_err tame_ret tame_lift tame_fail tame_get tame_fold tame_call tame_checkpoint tame_say
  tame_built tame_extract tame_send tame_check_image : tame.

Ltac taming := repeat first
  [ progress eauto with tame
  | progress intros
  | apply tame_bind
  | match goal with |- tame _ (host_change _) => by apply tame_change end
  | match goal with |- tame _ (match ?x with _ => _ end) => destruct x end ].

Lemma tame_observe endpoint token directory request :
  tame (to_endpoint endpoint token) (observe after fate endpoint token directory request).
Proof.
  unfold observe, or_host, host_reject, io_reject.
  apply tame_bind; [apply tame_read; eexists _, _; split; [done|by left]|]. intros response.
  do 5 (apply tame_bind; [taming|intros _]).
  apply tame_bind; [apply tame_fetch; intros; by eapply artifact_to_endpoint|]. taming.
Qed.

Lemma tame_directory P args token_arg : tame P (host_directory env after fate args token_arg).
Proof. unfold host_directory, or_host. taming. Qed.
Lemma tame_summarize P summary : tame P (host_summarize fate summary).
Proof. unfold host_summarize. taming. Qed.

(** What a step sends, whether it prints or not. *)
Definition sends (P : http_request → Prop) {E A} (m : eff HostRun E A) : Prop := ∀ h q,
  q ∈ sent_by (m h).1 → q ∈ sent_by h ∨ P q.

Lemma sends_tame P {E A} (m : eff HostRun E A) : tame P m → sends P m.
Proof. intros Hm h. apply Hm. Qed.
Lemma sends_bind P {E A B} (m : eff HostRun E A) (k : A → eff HostRun E B) :
  sends P m → (∀ a, (∃ h, (m h).2 = Ok a) → sends P (k a)) → sends P (m ≫= k).
Proof.
  intros Hm Hk h q. specialize (Hm h q). unfold mbind, eff_bind. destruct (m h) as [h1 [a|e]] eqn:E1; [|done].
  intros [?|?]%Hk; [by apply Hm|by right|by exists h; rewrite E1].
Qed.
Lemma sends_try P {E F A} (m : eff HostRun E A) : sends P m → sends P (io_try (F := F) m).
Proof. intros Hm h. specialize (Hm h). unfold io_try. by destruct (m h). Qed.
Lemma sends_kept P {E A} (m : eff Client E A) : keeps m → sends P (in_client m).
Proof.
  intros Hm h q. destruct (Hm (hc_client h)) as [Hs _]. unfold in_client, sent_by. destruct (m (hc_client h)) as [w r].
  cbn in *. rewrite Hs. by left.
Qed.
Lemma sends_println P text : sends P (host_println fate text).
Proof.
  intros h q. unfold host_println, in_client, on_terminal, io_map_err, sent_by, write_fd.
  destruct (ft_faults fate _ _) as [[]|]; by left.
Qed.

Lemma sends_body args endpoint_arg token_arg :
  sends (λ q, ∃ endpoint token, host_endpoint env endpoint_arg = Ok endpoint ∧
      resolve_token env token_arg None = Ok token ∧ to_endpoint endpoint token q)
    (host_body env after fate args endpoint_arg token_arg).
Proof.
  unfold host_body, or_host. apply sends_bind; [apply sends_tame, tame_lift|]. intros endpoint [h1 H1].
  apply sends_bind; [apply sends_tame, tame_lift|]. intros token [h2 H2].
  assert (He : host_endpoint env endpoint_arg = Ok endpoint) by (cbn in H1; by destruct (host_endpoint _ _); simplify_eq/=).
  assert (Ht : resolve_token env token_arg None = Ok token) by (cbn in H2; by destruct (resolve_token _ _ _); simplify_eq/=).
  apply sends_bind; [apply sends_tame, tame_directory|]. intros directory _. apply sends_bind.
  { apply sends_try. intros h q Hq. destruct (tame_observe endpoint token directory (host_request (hg_command args)) h) as [_ Hs].
    destruct (Hs q Hq); [by left|right; by exists endpoint, token]. }
  intros [output|[err|how]] _.
  - apply sends_bind; [apply sends_tame, tame_summarize|]. intros _ _.
    apply sends_bind; [apply sends_tame, tame_lift|]. intros. apply sends_println.
  - apply sends_bind; [apply sends_tame, tame_summarize|]. intros _ _. apply sends_tame, tame_fail.
  - apply sends_tame, tame_fail.
Qed.

(** C21: the credential of a host command only goes where the command was pointed: every
    request it sends, whatever the server answers, is to the endpoint given by
    [--endpoint] or the environment, for an observation or for the archive of one; no
    path in the server's answer can send it elsewhere. *)
Theorem host_requests_to_endpoint args endpoint_arg token_arg h0 :
  wp (host_command env after fate args endpoint_arg token_arg) h0 (λ h _, ∀ q, q ∈ sent_by h → q ∈ sent_by h0 ∨
    ∃ endpoint token, host_endpoint env endpoint_arg = Ok endpoint ∧ resolve_token env token_arg None = Ok token ∧
      to_endpoint endpoint token q).
Proof.
  cut (sends (λ q, ∃ endpoint token, host_endpoint env endpoint_arg = Ok endpoint ∧
      resolve_token env token_arg None = Ok token ∧ to_endpoint endpoint token q)
    (host_command env after fate args endpoint_arg token_arg)); [intros H; exact (H h0)|].
  unfold host_command. destruct (negb _).
  - apply sends_bind; [apply sends_kept, keeps_say|]. intros. by apply sends_kept.
  - apply sends_bind; [apply sends_try, sends_body|]. intros [[]|[err|how]] _; [by apply sends_kept| |].
    + apply sends_bind; [apply sends_kept, keeps_say|]. intros. by apply sends_kept.
    + apply sends_tame, tame_fail.
Qed.
(** ** The images *)

Definition image_file (d : run_dir) (image : Image) : option tnode :=
  rd_artifacts d ≫= λ t, t !! split slash (im_path image).

Definition total_len (datas : list string) : N := foldr (λ d n, len d + n) 0 datas.

(** The images are files of the results directory that are PNG pictures, together
    within the limit, and their paths lie in it. *)
Definition images_checked (d : run_dir) (directory : string) (images : list Image)
    (acc : N * list (list component)) : Prop :=
  ∃ datas, Forall2 (λ image data, ∃ mode, image_file d image = Some (TFile data mode)) images datas ∧
    Forall (λ data, validate_png data = Ok tt) datas ∧ total_len datas = acc.1 ∧ acc.1 ≤ MAX_HOST_IMAGES ∧
    length acc.2 = length images ∧
    Forall (λ path, beneath path (components (path_join directory "artifacts")) = true) acc.2.

Lemma total_len_app l x : total_len (l ++ [x]) = total_len l + len x.
Proof. induction l as [|y l IH]; cbn [total_len foldr app]; [lia|]. fold (total_len (l ++ [x])) (total_len l). lia. Qed.

Lemma images_add d directory images acc image data mode local :
  images_checked d directory images acc → image_file d image = Some (TFile data mode) → validate_png data = Ok tt →
  acc.1 + len data ≤ MAX_HOST_IMAGES → beneath local (components (path_join directory "artifacts")) = true →
  images_checked d directory (images ++ [image]) (acc.1 + len data, acc.2 ++ [local]).
Proof.
  intros (datas & H1 & H2 & H3 & H4 & H5 & H6) Hi Hv Hl Hb. exists (datas ++ [data]). split_and!.
  - apply Forall2_app; [done|]. constructor; [by exists mode|constructor].
  - apply Forall_app. split; [done|]. by constructor.
  - by rewrite total_len_app, H3.
  - done.
  - cbn. rewrite !length_app. cbn. lia.
  - apply Forall_app. split; [done|]. by constructor.
Qed.

(** A call keeps the results directory. *)
Lemma wp_host_call h Q :
  (∀ h' r, cw_run (hc_client h') = cw_run (hc_client h) → Q h' r) → wp (host_call fate) h Q.
Proof. intros HQ. by apply HQ. Qed.

Lemma wp_reject b message {A} (k : unit → host A) h (Q : HostRun → result host_stop A → Prop) :
  (∀ e, Q h (Err e)) → (b = false → wp (k tt) h Q) → wp (host_reject b message ≫= k) h Q.
Proof. intros He Hk. apply wp_bind, wp_lift. destruct b; [apply He|by apply Hk]. Qed.

Lemma wp_or_host {E A B} (f : E → io_error) (x : result E A) (k : A → host B) h (Q : HostRun → result host_stop B → Prop) :
  (∀ e, Q h (Err e)) → (∀ a, x = Ok a → wp (k a) h Q) → wp (or_host f x ≫= k) h Q.
Proof. intros He Hk. apply wp_bind, wp_lift. destruct x; [by apply Hk|apply He]. Qed.

Lemma wp_forget {A B} (m : host A) (k : A → host B) h (Q : HostRun → result host_stop B → Prop) :
  (∀ h' e, Q h' (Err e)) → (∀ h' a, wp (k a) h' Q) → wp (m ≫= k) h Q.
Proof. intros He Hk. apply wp_bind. unfold wp at 1. destruct (m h) as [h' [a|e]]; [apply Hk|apply He]. Qed.

Lemma check_image_spec directory images acc image h :
  images_checked (cw_run (hc_client h)) directory images acc →
  wp (check_image after fate directory acc image) h (λ h' r,
    match r with
    | Ok acc' => cw_run (hc_client h') = cw_run (hc_client h) ∧
        images_checked (cw_run (hc_client h)) directory (images ++ [image]) acc'
    | Err _ => True
    end).
Proof.
  intros Hi. destruct acc as [total paths]. unfold check_image. apply wp_bind, wp_host_call. intros h1 [[]|e] E1; [|done].
  apply wp_bind. unfold host_get, wp at 1. cbn [fst snd]. rewrite E1. fold (image_file (cw_run (hc_client h)) image).
  destruct (image_file _ image) as [[|data mode|]|] eqn:En; try by apply wp_fail.
  apply wp_reject; [done|]. intros _. apply wp_bind, wp_host_call. intros h2 [[]|e] E2; [|done].
  apply wp_reject; [done|]. intros Hl%N.ltb_ge. apply wp_or_host; [done|]. intros [] Hv.
  apply wp_or_host; [done|]. intros local _. apply wp_reject; [done|]. intros Hb%negb_false_iff.
  apply wp_ret. split; [congruence|]. by apply (images_add _ _ _ (total, paths) _ _ mode).
Qed.

Lemma check_images_spec directory images h :
  wp (io_fold (check_image after fate directory) (0, []) images) h (λ h' r,
    match r with
    | Ok acc => cw_run (hc_client h') = cw_run (hc_client h) ∧ images_checked (cw_run (hc_client h)) directory images acc
    | Err _ => True
    end).
Proof.
  apply (wp_fold _ (λ h' acc dn, cw_run (hc_client h') = cw_run (hc_client h) ∧
    images_checked (cw_run (hc_client h)) directory dn acc) (λ _ _, True) images []).
  - intros acc dn image h1 _ [E1 Hi]. eapply wp_mono; [apply (check_image_spec directory dn)|].
    + by rewrite E1.
    + intros h2 [acc'|e]; [|done]. rewrite E1. intros [E2 ?]. by split.
  - split; [done|]. exists []. by split_and!.
Qed.
(** An output that may be announced. *)
Definition announceable (d : run_dir) (directory : string) (output : HostOutput) : Prop :=
  let m := out_manifest output in
  mf_status m = "succeeded" ∧ mf_errors m = [] ∧ valid_observation_id (mf_observation_id m) = true ∧
  (∀ i image, mf_images m !! i = Some image → im_path image = image_path (mf_observation_id m) i) ∧
  ∃ total, images_checked d directory (mf_images m) (total, out_paths output).

Lemma check_paths_spec m : check_paths m = true →
  ∀ i image, mf_images m !! i = Some image → im_path image = image_path (mf_observation_id m) i.
Proof.
  unfold check_paths. rewrite forallb_forall. intros H i image Hi.
  assert (Hin : (i, image) ∈ imap pair (mf_images m)).
  { apply list_elem_of_lookup. exists i. by rewrite list_lookup_imap, Hi. }
  apply list_elem_of_In in Hin. specialize (H _ Hin). cbn in H. by apply bool_decide_eq_true in H.
Qed.

Lemma check_observation_spec m : check_observation m = true → mf_status m = "succeeded" →
  valid_observation_id (mf_observation_id m) = true ∧ mf_errors m = [].
Proof.
  unfold check_observation. rewrite !andb_true_iff, !negb_true_iff. intros (((((Hv & _) & _) & _) & He) & _) Hs.
  split; [done|]. rewrite (bool_decide_true _ Hs) in He. cbn in He. apply negb_false_iff, bool_decide_eq_true in He. done.
Qed.

Lemma observe_spec endpoint token directory request h :
  wp (observe after fate endpoint token directory request) h (λ h' r,
    match r with
    | Ok output => hc_manifest h' = Some output ∧ announceable (cw_run (hc_client h')) directory output
    | Err _ => True
    end).
Proof.
  unfold observe. apply wp_forget; [done|]. intros h1 response.
  apply wp_reject; [done|]. intros Hc%negb_false_iff. apply wp_reject; [done|]. intros Hp%negb_false_iff.
  do 4 (apply wp_forget; [done|]; intros ? _). apply wp_reject; [done|]. intros Hs%negb_false_iff%bool_decide_eq_true.
  apply wp_reject; [done|]. intros _. apply wp_bind. eapply wp_mono; [apply check_images_spec|].
  intros h2 [[total paths]|e] Hi; [|done]. destruct Hi as [E2 Hi].
  apply wp_or_host; [done|]. intros text _. apply wp_bind, wp_host_call. intros h3 [[]|e] E3; [|done].
  apply wp_bind. unfold host_change, wp at 1. cbn [fst snd]. apply wp_ret. cbn [hc_manifest hc_client]. split; [done|].
  destruct (check_observation_spec _ Hc Hs) as [Hv He].
  split_and!; [done|done|done|by apply check_paths_spec|]. exists total. by rewrite E3, E2.
Qed.

(** The two outcomes of a command: nothing is printed, or an output that is checked. *)
Definition host_outcome (h0 h : HostRun) (code : N) : Prop :=
  if code =? 0 then
    ∃ directory output text, hc_manifest h = Some output ∧ hc_result h = Some HostSucceeded ∧
      output_to_string output = Ok text ∧ shown_by h = shown_by h0 +:+ (text +:+ newline) ∧
      announceable (cw_run (hc_client h)) directory output
  else shown_by h = shown_by h0.

Lemma summarize_spec summary h :
  wp (host_summarize fate summary) h (λ h' r, match r with
    | Ok _ => hc_result h' = Some summary ∧ hc_manifest h' = hc_manifest h ∧ cw_run (hc_client h') = cw_run (hc_client h)
    | Err _ => True end).
Proof.
  unfold host_summarize, host_call, io_map_err, in_client, mbind, eff_bind, wp. cbn.
  destruct (ft_fs fate _); [done|]. cbn. by destruct (ft_fs fate _).
Qed.

Lemma body_spec args endpoint_arg token_arg h0 :
  wp (host_body env after fate args endpoint_arg token_arg) h0 (λ h r,
    match r with
    | Ok _ => host_outcome h0 h 0
    | Err (HostErr _) => shown_by h = shown_by h0
    | Err (HostDied _) => True
    end).
Proof.
  assert (Ht : ∀ {A B} (m : host A) (k : A → host B) h Q, tame (λ _, True) m → shown_by h = shown_by h0 →
    (∀ h' e, shown_by h' = shown_by h0 → Q h' (Err e)) → (∀ h' a, shown_by h' = shown_by h0 → wp (k a) h' Q) →
    wp (m ≫= k) h Q).
  { intros A B m k h Q Hm E He Hk. apply wp_bind. unfold wp at 1. destruct (Hm h) as [E' _].
    destruct (m h) as [h' [a|e]]; cbn in *; [apply Hk|apply He]; congruence. }
  assert (He : ∀ h' e, shown_by h' = shown_by h0 → match e with HostErr _ => shown_by h' = shown_by h0 | HostDied _ => True end)
    by by intros h' [].
  unfold host_body. eapply Ht; [apply tame_lift|done|exact He|]. intros h1 endpoint E1.
  eapply Ht; [apply tame_lift|done|exact He|]. intros h2 token E2.
  eapply Ht; [apply tame_directory|done|exact He|]. intros h3 directory E3.
  apply wp_bind, wp_try. unfold wp at 1.
  pose proof (observe_spec endpoint token directory (host_request (hg_command args)) h3) as Ho. unfold wp in Ho.
  destruct (tame_observe endpoint token directory (host_request (hg_command args)) h3) as [E4 _].
  destruct (observe _ _ _ _ _ _ _) as [h4 [output|[err|how]]]; cbn [fst snd] in *; [|eapply Ht; [apply tame_summarize|congruence|exact He|done]|done].
  destruct Ho as [Hm Ha]. apply wp_bind. unfold wp at 1. pose proof (summarize_spec HostSucceeded h4) as Hs. unfold wp in Hs.
  destruct (tame_summarize (λ _, True) HostSucceeded h4) as [E5 _].
  destruct (host_summarize _ _ _) as [h5 [[]|e]]; cbn [fst snd] in *; [|apply He; congruence]. destruct Hs as (Hr & Hm' & Ew).
  apply wp_or_host; [intros; apply He; congruence|]. intros text Et.
  unfold host_println, io_map_err, in_client, on_terminal, write_fd, wp.
  destruct (ft_faults fate _ _) as [[]|]; cbn; [done|]. exists directory, output, text. cbn.
  rewrite Hm', Ew. split_and!; try done. unfold shown_by in *. cbn. congruence.
Qed.

(** C15: a host command announces only what it has checked.  Whatever the server answers,
    whatever fails and whenever it is interrupted, a command that exits with 0 has
    printed exactly one line: the manifest of a successful observation with a valid
    identifier, whose images, in their order, are the files of the results directory
    that the manifest names, PNG pictures of at most 63 MiB together, with local paths
    inside the results directory; that manifest is on disk and the summary says that it
    succeeded.  A command that exits with another code has printed nothing. *)
Theorem host_announces_checked args endpoint_arg token_arg h0 :
  wp (host_command env after fate args endpoint_arg token_arg) h0 (λ h r, ∃ e, r = Err e ∧
    match e with Exit code => host_outcome h0 h code | Died _ => True end).
Proof.
  assert (Hsay : ∀ message code h, code ≠ 0 → shown_by h = shown_by h0 →
    wp (_ ← in_client (say fate message); in_client (leave (A := unit) code)) h (λ h r, ∃ e, r = Err e ∧
      match e with Exit code => host_outcome h0 h code | Died _ => True end)).
  { intros message code h Hc E. unfold mbind, eff_bind, in_client, say, io_map_err, on_terminal, eprintln, write_fd, leave, wp.
    unfold io_map_err. apply N.eqb_neq in Hc.
    destruct (ft_faults fate _ _) as [[]|]; cbn; (eexists; split; [done|]); [done|]. unfold host_outcome. by rewrite Hc. }
  unfold host_command. destruct (negb _); [by apply Hsay|].
  apply wp_bind, wp_try. eapply wp_mono; [apply body_spec|]. intros h [[]|[err|how]] H.
  - eexists. split; [done|]. destruct h. exact H.
  - by apply Hsay.
  - by eexists.
Qed.
End announced.
