(* ===== verification/CliExamples.v ===== *)
(** A codec of events that satisfies its laws, and the client's theorems at concrete
    streams, archives and updates; runs of the session commands from end to end. *)
From Stdlib Require Import Ascii.
From stdpp Require Import base option strings numbers list gmap countable pretty.
From S2P Require Import Prelude Effects RustStr Fs Protocol TaskStream HostPng HostObservation HttpHost HostExamples ClientSource ClientPackage CliArchive CliOutput CliStream CliSettings CliSession CliSessionTheorems CliRun CliHost.

Local Open Scope N_scope.

(** * Events as numbers, numbers as digits *)

Definition digit (b : bool) : ascii := if b then "1"%char else "0"%char.
Definition digits (l : list bool) : string := foldr (λ b, String (digit b)) "" l.
Fixpoint bits_of (s : string) : list bool :=
  match s with EmptyString => [] | String c s => byte_eqb c "1" :: bits_of s end.

Lemma bits_digits l : bits_of (digits l) = l.
Proof. induction l as [|[] l IH]; [done|..]; cbn in *; by f_equal. Qed.

Definition to_digits {A} `{Countable A} (a : A) : result string string := Ok (String "e" (digits (pos_list (encode a)))).
Definition of_digits {A} `{Countable A} (s : string) : result string A :=
  match s with
  | String _ s => ok_or (decode (list_pos (bits_of s))) "unreadable"
  | EmptyString => Err "empty"
  end.

Lemma digits_plain l : plain_line (String "e" (digits l)).
Proof.
  assert (H : contains_byte LF (digits l) = false ∧ utf8_valid (digits l) = true ∧
    (trim_end_matches CR (digits l) = digits l)).
  { induction l as [|b l (H1 & H2 & H3)]; [done|]. cbn [digits foldr]. fold (digits l).
    split_and!; [by destruct b| by destruct b|]. cbn [trim_end_matches]. rewrite H3.
    destruct b; by destruct (digits l). }
  destruct H as (H1 & H2 & H3). split_and!; [done|done| |done].
  cbn [trim_end_matches]. rewrite H3. by destruct (digits l).
Qed.

Lemma digits_round {A} `{Countable A} (a : A) :
  ∃ json, to_digits a = Ok json ∧ plain_line json ∧ of_digits json = Ok a.
Proof.
  eexists. split; [done|]. split; [apply digits_plain|].
  cbn. by rewrite bits_digits, list_pos_list, decode_encode.
Qed.

#[local] Instance phase_countable : Countable BuildPhase.
Proof. refine (inj_countable' (λ p, bool_decide (p = Run)) (λ b, if b : bool then Run else Setup) _). by intros []. Defined.
#[local] Instance phase_result_countable : Countable PhaseResult.
Proof.
  refine (inj_countable' (λ p, (ph_phase p, ph_duration_ms p, ph_exit_code p, ph_timed_out p))
    (λ '(a, b, c, d), {| ph_phase := a; ph_duration_ms := b; ph_exit_code := c; ph_timed_out := d |}) _). by intros [].
Defined.
#[local] Instance archive_eq_dec : EqDecision ArtifactArchive.
Proof. solve_decision. Defined.
#[local] Instance archive_countable : Countable ArtifactArchive.
Proof.
  refine (inj_countable' (λ p, (aa_path p, aa_size p)) (λ '(a, b), {| aa_path := a; aa_size := b |}) _). by intros [].
Defined.
#[local] Instance restrictions_eq_dec : EqDecision ArtifactRestrictions.
Proof. solve_decision. Defined.
#[local] Instance restrictions_countable : Countable ArtifactRestrictions.
Proof.
  refine (inj_countable' (λ p, (omitted_count p, matched_patterns p))
    (λ '(a, b), {| omitted_count := a; matched_patterns := b |}) _). by intros [].
Defined.
#[local] Instance response_eq_dec : EqDecision ResponseEvent.
Proof. solve_decision. Defined.
#[local] Instance response_countable : Countable ResponseEvent.
Proof.
  refine (inj_countable'
    (λ e, match e with
          | RBuild a b c d x y => inl (a, b, c, (d, x, y))
          | RStdout a => inr (inl a)
          | RStderr a => inr (inr (inl a))
          | RError a b c d => inr (inr (inr (inl (a, b, (c, d)))))
          | RExit a b c d x y => inr (inr (inr (inr (a, b, c, (d, x, y)))))
          end)
    (λ e, match e with
          | inl (a, b, c, (d, x, y)) => RBuild a b c d x y
          | inr (inl a) => RStdout a
          | inr (inr (inl a)) => RStderr a
          | inr (inr (inr (inl (a, b, (c, d))))) => RError a b c d
          | inr (inr (inr (inr (a, b, c, (d, x, y))))) => RExit a b c d x y
          end) _).
  by intros [].
Defined.
#[local] Instance start_status_eq_dec : EqDecision SessionStartStatus.
Proof. solve_decision. Defined.
#[local] Instance start_status_countable : Countable SessionStartStatus.
Proof.
  refine (inj_countable' (λ s, match s with Started => (false, false) | PhaseStarted => (false, true)
    | PhaseFinished => (true, false) | StartingServices => (true, true) end)
    (λ '(a, b), match a, b with false, false => Started | false, true => PhaseStarted
    | true, false => PhaseFinished | true, true => StartingServices end) _). by intros [].
Defined.
#[local] Instance start_eq_dec : EqDecision SessionStartEvent.
Proof. solve_decision. Defined.
#[local] Instance start_countable : Countable SessionStartEvent.
Proof.
  refine (inj_countable'
    (λ e, match e with
          | SSession a b c d x y => inl (inl (a, b, c, (d, x, y)))
          | SStdout a => inl (inr a)
          | SStderr a => inr (inl a)
          | SError a b c => inr (inr (inl (a, b, c)))
          | SReady a b c => inr (inr (inr (inl (a, b, c))))
          | SExit a b c d => inr (inr (inr (inr (a, b, (c, d)))))
          end)
    (λ e, match e with
          | inl (inl (a, b, c, (d, x, y))) => SSession a b c d x y
          | inl (inr a) => SStdout a
          | inr (inl a) => SStderr a
          | inr (inr (inl (a, b, c))) => SError a b c
          | inr (inr (inr (inl (a, b, c)))) => SReady a b c
          | inr (inr (inr (inr (a, b, (c, d))))) => SExit a b c d
          end) _).
  by intros [].
Defined.
#[local] Instance action_status_eq_dec : EqDecision SessionActionStatus.
Proof. solve_decision. Defined.
#[local] Instance action_status_countable : Countable SessionActionStatus.
Proof.
  refine (inj_countable' (λ s, bool_decide (s = Snapshotting))
    (λ b, if b : bool then Snapshotting else ActionStarted) _). by intros [].
Defined.
#[local] Instance action_eq_dec : EqDecision SessionActionEvent.
Proof. solve_decision. Defined.
#[local] Instance action_countable : Countable SessionActionEvent.
Proof.
  refine (inj_countable'
    (λ e, match e with
          | AAction a b c d x => inl (inl (a, b, c, (d, x)))
          | AStdout a => inl (inr a)
          | AStderr a => inr (inl a)
          | AError a b => inr (inr (inl (a, b)))
          | AExit a b c d x y z w => inr (inr (inr ((a, b, (c, d)), (x, y, (z, w)))))
          end)
    (λ e, match e with
          | inl (inl (a, b, c, (d, x))) => AAction a b c d x
          | inl (inr a) => AStdout a
          | inr (inl a) => AStderr a
          | inr (inr (inl (a, b))) => AError a b
          | inr (inr (inr ((a, b, (c, d)), (x, y, (z, w))))) => AExit a b c d x y z w
          end) _).
  by intros [].
Defined.

#[local] Instance digit_codec : EventCodec := {
  response_to_string := to_digits; response_from_str := of_digits;
  start_to_string := to_digits; start_from_str := of_digits;
  action_to_string := to_digits; action_from_str := of_digits;
}.
#[local] Instance digit_laws : EventCodecLaws.
Proof. split; intros e; apply digits_round. Qed.

(** * A build of one phase, in two chunks cut inside an event *)

Definition demo_events : list ResponseEvent := [
  RBuild "b1" "started" None None None None;
  RBuild "b1" "phase_started" (Some Run) None None None;
  RStdout ("hi" +:+ newline);
  RBuild "b1" "phase_finished" (Some Run) (Some 5) (Some 0%Z) (Some false);
  RExit 0 false None None None [{| ph_phase := Run; ph_duration_ms := 5; ph_exit_code := 0; ph_timed_out := false |}]].

Definition demo_text : string := joined ((λ e, event_line (response_to_string e)) <$> demo_events).
Definition demo_chunks : list string := 
  [String.substring 0 100 demo_text; String.substring 100 (String.length demo_text) demo_text].

Definition demo_limits : OutputLimits := {|
  ol_stdout_max_lines := None; ol_stderr_max_lines := Some 0;
  ol_stdout_tail_lines := 0; ol_stderr_tail_lines := 0; ol_log_dir := "/r" |}.
Definition demo_term : Term := MkTerm "" "" ∅ [] 0.

Definition demo_run : Term * result stopped BuildResult :=
  read_responses (λ _ _, None) (Chunk <$> demo_chunks) demo_limits demo_term.

Example demo_shown : tm_out demo_run.1 = "hi" +:+ newline ∧
  tm_files demo_run.1 !! "/r/stdout.log" = Some ("hi" +:+ newline) ∧ is_ok demo_run.2 = true.
Proof. by vm_compute. Qed.

Lemma build_stream_delivered_witness :
  stream_run "b1" demo_events = Some Ended ∧
  wp (read_responses (λ _ _, None) ((Chunk <$> demo_chunks) ++ []) demo_limits) demo_term (λ t r,
    (∃ e, r = Err e ∧ init_failed demo_term t e) ∨
    (r = Err line_too_long ∧ ∃ e c, e ∈ demo_events ∧ c ∈ demo_chunks ∧
     MAX_PENDING < len (event_line (response_to_string e)) + len c) ∨
    (∃ result, r = Ok result ∧ last demo_events ≫= result_of (build_id_of demo_events) = Some result ∧
     (∃ notice, notice ∈ notices (om_stdout (new_output demo_limits)) (lp_stdout (log_paths demo_limits)) ∧
        tm_out t = tm_out demo_term +:+ stream_view None 0 notice "stdout" (stdout_data demo_events)) ∧
     (warned t ∨
      tm_files t !! lp_stdout (log_paths demo_limits) =
        Some (default "" (tm_files demo_term !! lp_stdout (log_paths demo_limits)) +:+ stdout_data demo_events) ∧
      tm_files t !! lp_stderr (log_paths demo_limits) =
        Some (default "" (tm_files demo_term !! lp_stderr (log_paths demo_limits)) +:+ stderr_data demo_events)))).
Proof.
  split; [by vm_compute|].
  apply (build_stream_delivered (λ _ _, None) demo_limits "b1" demo_events demo_chunks [] demo_term).
  - done.
  - by vm_compute.
  - by vm_compute.
  - by vm_compute.
Defined.

(** * Two entries of one name *)

Definition demo_central (name : list N) : central := {|
  ce_before := replicate 24 0; ce_after := replicate 12 0; ce_name := name; ce_extra := [1; 2]; ce_comment := [7] |}.

Lemma duplicate_names_refused_witness :
  reject_duplicate_zip_entries (zip_file [1; 2; 3] [demo_central [97]; demo_central [98]]) = Ok tt ∧
  reject_duplicate_zip_entries (zip_file [1; 2; 3] [demo_central [97]; demo_central [97]]) ≠ Ok tt.
Proof.
  assert (Hw : ∀ a b, Forall well_formed [demo_central [a]; demo_central [b]]).
  { intros a b. repeat constructor. }
  split.
  - apply (duplicate_names_refused [1; 2; 3] [demo_central [97]; demo_central [98]]);
      [apply Hw|by vm_compute|by vm_compute|by vm_compute|]. split; [repeat constructor; by vm_compute|].
    apply NoDup_cons. split; [by intros [? | []%elem_of_nil]%elem_of_cons|]. apply NoDup_singleton.
  - intros H. apply (duplicate_names_refused [1; 2; 3] [demo_central [97]; demo_central [97]]) in H;
      [|apply Hw|by vm_compute|by vm_compute|by vm_compute]. destruct H as [_ [H _]%NoDup_cons]. apply H. left.
Defined.

(** * The session commands *)

#[local] Instance demo_requests : RequestCodec := {
  build_request_to_string _ := Ok "{}";
  start_request_to_string _ := Ok "{}";
  update_request_to_vec _ := Ok "{}";
  action_request_to_vec _ := Ok "{}";
  manifest_to_vec _ := Ok "{}";
  stop_response text := Ok {|
    sp_session_id := text;
    sp_teardown := {| td_duration_ms := 1500; td_exit_code := Some 0%Z; td_timed_out := false; td_error_code := None |};
    sp_artifacts := None; sp_artifact_restrictions := None |};
  update_response _ := Err "unreadable";
  status_display := pretty;
  sha256_hex _ := "";
}.

Definition demo_surroundings : Surroundings := {|
  sr_var_os _ := None;
  sr_exists _ := false;
  sr_canonicalize p := Ok p;
  sr_open _ _ := Err (IoError NotFound "no such file");
  sr_toml _ := Err "unreadable" |}.

Definition demo_context : CommandContext := {|
  cx_endpoint_arg := Some "http://host:1"; cx_token_file_arg := None;
  cx_config := default_config; cx_config_loaded := false |}.

(** A server whose answer to a start is [events], and to a stop the session's name;
    the user interrupts at the call [at_call], if at all. *)
Definition demo_fate (events : list SessionStartEvent) (at_call : option nat) : Fate := {|
  ft_faults _ _ := None;
  ft_signal n := match at_call with Some k => if (k <=? n)%nat then Some true else None | None => None end;
  ft_fs _ := None; ft_now _ := "now"; ft_uuid := "inv"; ft_join := ""; ft_client _ := None;
  ft_reply _ request :=
    if bool_decide (hr_method request = "DELETE")
    then inr {| rp_status := 200; rp_text := "s1"; rp_body := [] |}
    else inr {| rp_status := 200; rp_text := "";
                rp_body := (Chunk ∘ event_line ∘ start_to_string <$> events) ++ [BodyEnd] |};
  ft_writable _ := Ok true; ft_written _ := Ok 100%nat; ft_wakes _ := (O, true);
  ft_rounds := replicate 20 1%nat;
  ft_unpack := {| ue_fails _ := false; ue_partial _ := O |}; ft_zip _ := None |}.

Definition demo_client (operation : string) (session : option string) : Client := {|
  cw_term := demo_term;
  cw_evidence := {| se_base := [RootDir; Normal "r"]; se_directory := "/r/inv";
                    se_provenance := new_provenance operation session None "inv" "/r/inv" "now";
                    se_persistence_failure := None |};
  cw_disk := None; cw_run := RunDir None None 0; cw_interrupt := InterruptPending; cw_sent := []; cw_tick := 0 |}.

Definition demo_stop (at_call : option nat) : Client * result ended unit :=
  session_stop_command demo_surroundings (demo_fate [] at_call)
    {| pg_session := "s1"; pg_result_root := None |} demo_context (demo_client "stop" (Some "s1")).

(** A stop that succeeds, on record; and one that is interrupted after its request. *)
Example demo_stop_succeeds :
  (demo_stop None).2 = Err (Exit 0) ∧ length (cw_sent (demo_stop None).1) = 1%nat ∧
  (lf_status ∘ pv_life <$> cw_disk (demo_stop None).1) = Some "succeeded".
Proof. by vm_compute. Qed.
Example demo_stop_interrupted :
  (demo_stop (Some 5%nat)).2 = Err (Exit 130) ∧ length (cw_sent (demo_stop (Some 5%nat)).1) = 2%nat ∧
  (lf_status ∘ pv_life <$> cw_disk (demo_stop (Some 5%nat)).1) = Some "interrupted".
Proof. by vm_compute. Qed.

Definition demo_package : SourcePackage := {|
  pk_archive := "zip";
  pk_manifest := {| mf_schema_version := 1; mf_entries := []; mf_entry_count := 0; mf_uncompressed_bytes := 0;
                    mf_aggregate_sha256 := "" |};
  pk_identity := {| id_mode := "filesystem"; id_root := "/src"; id_jj_version := None; id_jj_commit_id := None;
                    id_initial_snapshot_atomicity := ""; id_archive_sha256 := ""; id_archive_bytes := 3 |} |}.

Definition demo_start (events : list SessionStartEvent) (at_call : option nat) : Client * result ended unit :=
  session_start_command demo_surroundings (demo_fate events at_call)
    {| sg_source := []; sg_source_exclude := []; sg_request_id := None; sg_result_root := None; sg_task := "build" |}
    [RootDir; Normal "src"]
    (λ _, {| wk_result := Finished (Ok demo_package); wk_cancelled := None |}) demo_context (demo_client "start" None).

Definition demo_ready : list SessionStartEvent := [SSession "s1" Started None None None None; SReady "s1" "rev_0" []].

(** A session that is ready is announced; one whose command is interrupted while it
    starts is stopped, and nothing is printed. *)
Example demo_start_announces :
  (demo_start demo_ready None).2 = Err (Exit 0) ∧
  tm_out (cw_term (demo_start demo_ready None).1) = "s1" +:+ newline ∧
  (hr_method <$> cw_sent (demo_start demo_ready None).1) = ["POST"] ∧
  (lf_status ∘ pv_life <$> cw_disk (demo_start demo_ready None).1) = Some "ready".
Proof. by vm_compute. Qed.
Example demo_start_interrupted :
  let run := demo_start demo_ready (Some 16%nat) in
  run.2 = Err (Exit 130) ∧ tm_out (cw_term run.1) = "" ∧ (hr_method <$> cw_sent run.1) = ["POST"; "DELETE"] ∧
  (lf_cleanup_status ∘ pv_life <$> cw_disk run.1) = Some (Some "succeeded").
Proof. by vm_compute. Qed.

(** * An update of a file, with a deletion *)

Definition demo_digest : string := "0123456789abcdef0123456789abcdef".

Definition demo_update : SessionUpdateRequest := {|
  su_schema_version := SESSION_UPDATE_SCHEMA_VERSION; su_request_id := "u.1"; su_base_revision := "rev_0";
  su_source := {| format := Zip |};
  su_changes := [Delete "old.txt"; File "src/main.rs" (hex demo_digest)] |}.

#[local] Instance update_change_eq_dec : EqDecision SessionUpdateChange.
Proof. solve_decision. Defined.
#[local] Instance source_format_eq_dec : EqDecision SourceFormat.
Proof. solve_decision. Defined.
#[local] Instance source_eq_dec : EqDecision SourceMetadata.
Proof. solve_decision. Defined.
#[local] Instance update_request_eq_dec : EqDecision SessionUpdateRequest.
Proof. solve_decision. Defined.

(** The metadata of this update, and a decoder for it. *)
Definition update_requests : RequestCodec := {|
  build_request_to_string _ := Ok "{}";
  start_request_to_string _ := Ok "{}";
  update_request_to_vec request := if bool_decide (request = demo_update) then Ok "update" else Err "unwritable";
  action_request_to_vec _ := Ok "{}";
  manifest_to_vec _ := Ok "{}";
  stop_response _ := Err "unreadable";
  update_response _ := Err "unreadable";
  status_display := pretty;
  CliSession.sha256_hex _ := "";
|}.
Definition update_serde : Serde := {|
  from_slice text :=
    if bool_decide (text = "update") then Ok (JObject [("schema_version", JString SESSION_UPDATE_SCHEMA_VERSION)])
    else Err "unreadable";
  decode_request _ := Err "unreadable";
  decode_session_start _ := Err "unreadable";
  decode_session_update _ := Ok demo_update;
  decode_session_action _ := Err "unreadable";
|}.
Lemma update_codec_laws : @UpdateCodecLaws update_requests update_serde.
Proof.
  split. intros request data. cbn. case_bool_decide as E; [|done]. intros [= <-]. subst.
  eexists. split; [done|]. split; [by vm_compute|done].
Qed.

Definition update_zip : PackageZip := {|
  pz := unit; pz_new := tt; pz_start_file _ _ _ := Ok tt; pz_write _ _ := tt; pz_add_symlink _ _ _ := Ok tt;
  pz_finish _ := Ok "zip" |}.
Definition update_jj : JjCodec := {| jj_entry_from_str _ := Err "unreadable" |}.

Definition plain_file : smeta := {|
  sm_kind := Regular; sm_mode := 420; sm_len := 3; sm_dev := 1; sm_ino := 2; sm_mtime := 0; sm_mtime_nsec := 0 |}.
Definition update_env (n : nat) : SourceEnv := {|
  ev_cancelled := false; ev_canonicalize p := Ok p;
  ev_lstat _ := Err (IoError NotFound "no such file"); ev_fstat _ := Ok plain_file;
  ev_open _ := Ok tt; ev_open_root _ := Ok tt;
  ev_openat _ names _ :=
    if bool_decide (names = ["old.txt"]) then Err (IoError NotFound "no such file") else Ok tt;
  ev_reads _ := [Ok "new"; Ok ""]; ev_read_link _ := Err (IoError NotFound "no such file");
  ev_walk _ _ := []; ev_fault := None;
  ev_jj _ _ := {| jr_spawn := Err (IoError NotFound "no jj"); jr_stdout := []; jr_stderr := []; jr_wait := Ok false |} |}.

Definition update_work (files deletes : list string) : Work UpdateSourcePackage := {|
  wk_result := Finished (@package_update_source_cancellable update_zip update_jj (λ _, demo_digest) update_env id
    "/src" "/src" files deletes (ClientPackage.Client 0 [])).2;
  wk_cancelled := None |}.

Definition demo_update_args : SessionUpdateArgs := {|
  ug_session := "s1"; ug_revision := "rev_0"; ug_request_id := Some "u.1";
  ug_file := ["src/main.rs"]; ug_delete := ["old.txt"]; ug_result_root := None |}.

Definition update_client : Client := {|
  cw_term := demo_term;
  cw_evidence := {| se_base := [RootDir; Normal "r"]; se_directory := "/r/inv";
                    se_provenance := with_request "u.1" "rev_0" (new_provenance "update" (Some "s1") None "inv" "/r/inv" "now");
                    se_persistence_failure := None |};
  cw_disk := None; cw_run := RunDir None None 0; cw_interrupt := InterruptPending; cw_sent := []; cw_tick := 0 |}.

Abbreviation demo_update_run :=
  (@session_update_command update_requests update_serde demo_surroundings (demo_fate [] None) demo_update_args
    [RootDir; Normal "src"] update_work demo_context update_client).

Example demo_update_sent : hr_metadata <$> cw_sent demo_update_run.1 = [Some "update"].
Proof. by vm_compute. Qed.
Example demo_update_limits :
  @parse_session_update_metadata update_serde "update" 2 2 = Ok demo_update ∧
  is_ok (@parse_session_update_metadata update_serde "update" 1 2) = false ∧
  is_ok (@parse_session_update_metadata update_serde "update" 2 1) = false.
Proof. by vm_compute. Qed.

Lemma client_update_accepted_witness :
  (cw_sent demo_update_run.1 ≠ []) ∧
  wp (@session_update_command update_requests update_serde demo_surroundings (demo_fate [] None) demo_update_args
        [RootDir; Normal "src"] update_work demo_context) update_client (λ w _,
    cw_sent w = [] ∨
    ∃ q metadata, cw_sent w = [] ++ [q] ∧ hr_metadata q = Some metadata ∧
      @server_reads update_serde ["src/main.rs"] ["old.txt"] "rev_0" metadata).
Proof.
  split; [by vm_compute|].
  apply (@client_update_accepted update_requests update_serde update_codec_laws demo_surroundings (demo_fate [] None)
    update_zip update_jj (λ _, demo_digest) update_env id "/src" "/src" demo_update_args [RootDir; Normal "src"]
    update_work demo_context update_client).
  - done.
  - intros files deletes pkg [= E]. unfold update_work in E. exists (ClientPackage.Client 0 []). eexists.
    rewrite <-E. apply surjective_pairing.
Defined.

(** * [main] *)

Definition demo_sources : Sources := {|
  so_jj_root := Ok (Some [RootDir; Normal "src"]);
  so_package _ := {| wk_result := Finished (Ok demo_package); wk_cancelled := None |};
  so_update _ _ := {| wk_result := Finished (Err (IoError OtherKind "none")); wk_cancelled := None |};
  so_loading := None |}.

Definition demo_home : Surroundings := {|
  sr_var_os name := if bool_decide (name = "HOME") then Some "/home/u" else None;
  sr_exists p := bool_decide (p = [RootDir]);
  sr_canonicalize p := Ok p;
  sr_open _ _ := Err (IoError NotFound "no such file");
  sr_toml _ := Err "unreadable" |}.

Definition demo_build_fate (at_call : option nat) : Fate := {|
  ft_faults _ _ := None;
  ft_signal n := match at_call with Some k => if (k <=? n)%nat then Some true else None | None => None end;
  ft_fs _ := None; ft_now _ := "now"; ft_uuid := "inv"; ft_join := ""; ft_client _ := None;
  ft_reply _ request :=
    if bool_decide (hr_method request = "DELETE")
    then inr {| rp_status := 200; rp_text := "s1"; rp_body := [] |}
    else inr {| rp_status := 200; rp_text := ""; rp_body := (Chunk <$> demo_chunks) ++ [BodyEnd] |};
  ft_writable _ := Ok true; ft_written _ := Ok 100%nat; ft_wakes _ := (O, true);
  ft_rounds := replicate 20 1%nat;
  ft_unpack := {| ue_fails _ := false; ue_partial _ := O |}; ft_zip _ := None |}.

Definition demo_runner : Runner := {|
  rn_client := demo_client "" None;
  rn_evidence := {| rv_base := []; rv_directory := "";
                    rv_provenance := new_run_provenance (demo_build_fate None) [] "" "" |};
  rn_disk := None |}.

Definition demo_main (command : Commands) (at_call : option nat) : Runner * result ended unit :=
  main demo_home demo_home (demo_build_fate at_call) demo_sources command (Ok [RootDir; Normal "src"])
    (Some "http://host:1") None demo_runner.

Definition demo_build_args : RunArgs := {|
  rg_source := []; rg_source_exclude := []; rg_request_id := None; rg_result_root := None; rg_task := "build" |}.

(** A build that succeeds, one that is interrupted, and a stop through [main]. *)
Example demo_main_builds :
  let run := demo_main (CRun demo_build_args) None in
  run.2 = Err (Exit 0) ∧ (rp_run_status <$> rn_disk run.1) = Some "succeeded" ∧
  tm_out (cw_term (rn_client run.1)) = "hi" +:+ newline.
Proof. by vm_compute. Qed.
Example demo_main_interrupted :
  let run := demo_main (CRun demo_build_args) (Some 14%nat) in
  run.2 = Err (Exit 130) ∧ (rp_run_status <$> rn_disk run.1) = Some "interrupted".
Proof. by vm_compute. Qed.
Example demo_main_stops :
  let run := demo_main (CSession (CStop {| pg_session := "s1"; pg_result_root := None |})) None in
  run.2 = Err (Exit 0) ∧ (lf_status ∘ pv_life <$> cw_disk (rn_client run.1)) = Some "succeeded".
Proof. by vm_compute. Qed.

(** * A capture of one window *)

Definition demo_image : string := image_path ("host-" +:+ demo_uuid) 0.

Definition demo_observation : Manifest := {|
  HostObservation.mf_schema_version := "1"; mf_observation_id := "host-" +:+ demo_uuid; mf_captured_at := "now";
  mf_status := "succeeded"; mf_inventory := None; mf_images := [capture_image demo_image (CaptureWindow 7 3)];
  mf_errors := [] |}.

Definition demo_zip : list N := zip_file [] [demo_central (bytes_of demo_image)].

Definition demo_archive : ArtifactArchive := {|
  aa_path := host_archive_path ("host-" +:+ demo_uuid); aa_size := N.of_nat (length demo_zip) |}.

#[local] Instance demo_host_outputs : HostClientCodec := {|
  decode_observation _ := Ok {| or_manifest := demo_observation; or_artifacts := Some demo_archive;
                                or_artifact_restrictions := None |};
  output_to_string output := Ok ("shown " +:+ String.concat ", " (render <$> out_paths output)) |}.

Definition demo_host_fate : Fate := {|
  ft_faults _ _ := None; ft_signal _ := None;
  ft_fs _ := None; ft_now _ := "now"; ft_uuid := "inv"; ft_join := ""; ft_client _ := None;
  ft_reply _ request :=
    inr {| rp_status := 200; rp_text := "";
           rp_body := if bool_decide (hr_method request = "GET")
             then [Chunk (String.string_of_list_ascii (ascii_of_N <$> demo_zip)); BodyEnd] else [Chunk "{}"; BodyEnd] |};
  ft_writable _ := Ok true; ft_written _ := Ok 100%nat; ft_wakes _ := (O, true); ft_rounds := [];
  ft_unpack := {| ue_fails _ := false; ue_partial _ := O |};
  ft_zip _ := Some [Some {| ze_name := demo_image; ze_is_dir := false; ze_is_symlink := false;
                            ze_unix_mode := Some 33152; ze_size := len demo_png; ze_reads := [Ok demo_png] |}] |}.

Definition demo_host : HostRun * result ended unit :=
  host_command demo_home demo_home demo_host_fate
    {| hg_result_root := None; hg_command := HCapture (TWindow 7 3) |} (Some "http://host:1") None
    {| hc_client := demo_client "" None; hc_result := None; hc_remote := None; hc_manifest := None |}.

Example demo_host_announces :
  demo_host.2 = Err (Exit 0) ∧ hc_result demo_host.1 = Some HostSucceeded ∧
  shown_by demo_host.1 = "shown /home/u/.local/state/indentured/runs/inv/artifacts/" +:+ demo_image +:+ newline ∧
  (hr_url <$> sent_by demo_host.1) =
    ["http://host:1/v1/host/observations"; "http://host:1" +:+ host_archive_path ("host-" +:+ demo_uuid)].
Proof. by vm_compute. Qed.
